(* ===== verification/_CoqProject ===== *)
-Q . S2P
Prelude.v
Specification.v
Bytes.v
Triples.v
Eof.v
Bytecode.v
State.v
Result.v
InstructionResult.v
Database.v
Journal.v
JournalRevert.v
JournalRun.v
InMemoryDb.v
JournalSpec.v
Checkpoint.v
CallInputs.v
NativeTokens.v
Gas.v
Stack.v
I256.v
SharedMemory.v
Analysis.v
Env.v
Interpreter.v
Context.v
NativeTokensRewind.v
Frames.v
Handler.v
Fees.v
Instructions.v
HostInstructions.v
Opcode.v
InterpreterSteps.v
InterpreterSafety.v
InterpreterLoop.v
InterpreterGas.v
EofInstructions.v
Evm.v
ContextSteps.v
HostSafety.v
EvmFrames.v
EvmLoop.v
StaticCalls.v
EofValidation.v
EofSafety.v
EofRun.v
InstructionHeights.v
EofExecution.v
DbAccounts.v
DbBundleAccount.v
DbRevert.v
DbBundleState.v
DbBundleSizes.v
DbPlainState.v
DbState.v
DbTracking.v
DbStateView.v
DbStateCommit.v
Precompile.v
Blake2.v
Modexp.v
Curves.v
Bls12.v
PrecompileSets.v
FastLz.v
L1Block.v
Optimism.v
RollupLoop.v
WordTypes.v
InterpreterTypes.v
JournalInvariant.v
LoopInvariant.v
TypedWorld.v
SupplyInvariant.v
SupplyWorld.v
TransactionSupply.v
MainnetSupply.v
HandlerTable.v
Inspector.v
