(* ===== verification/Prelude.v ===== *)
(** * SabVM: a verification library for the Sablier virtual machine

    SabVM is an Ethereum virtual machine, a fork of revm, whose accounts hold
    balances of many native tokens. This library models the default build of its
    crates under [src/crates/], [primitives], [interpreter], [revm] and
    [precompile], and the [optimism] feature on top of it.

    ** The program, from the bottom up

    A transaction ([Env.v]) is validated, charged for its gas, run as a stack of
    call frames, and settled ([Handler.v], [Fees.v], [Evm.v]). A frame is an
    interpreter ([Interpreter.v], [Opcode.v]) that executes the instructions
    ([Instructions.v], [HostInstructions.v]) over an operand stack ([Stack.v]), a
    memory shared by all the frames ([SharedMemory.v]) and a gas counter ([Gas.v]).
    What an instruction needs from the world it asks of a host, a class; the context
    ([Context.v], [Evm.v]) is the instance. It keeps a journaled state
    ([Journal.v]) that records how to undo every change, so that a failing call
    leaves nothing behind, and reads the accounts it does not have from a database,
    a class too ([Database.v]). There are two databases: one in memory
    ([InMemoryDb.v]) and the state of a block ([DbState.v]), which caches accounts,
    merges what the transactions change and keeps the reverts of past blocks.
    The native-token precompile ([NativeTokens.v]) mints, burns and transfers tokens;
    the others ([Precompile.v] to [PrecompileSets.v]) are those of Ethereum.
    EOF containers ([Eof.v]) are decoded and validated ([EofValidation.v]).

    ** The files, and the code they model

    Foundations: this file has the integers, the results ([outcome]: a value, an
    error, or a panic), the computations over a state ([M]), [wp] and [safely] to
    reason on them, and the automation. [Triples.v]: computations that keep an
    invariant, and those that take one condition to another. [Specification.v]: the hard forks,
    [primitives/src/specification.rs]. [Bytes.v]: byte strings and
    [primitives/src/utilities.rs]. [Bytecode.v]: [primitives/src/bytecode.rs] and
    [bytecode/legacy*]. [Eof.v]: [primitives/src/bytecode/eof*]. [State.v]:
    accounts and balances, [primitives/src/state.rs]. [Result.v],
    [InstructionResult.v]: [primitives/src/result.rs],
    [interpreter/src/instruction_result.rs]. [Database.v]: [primitives/src/db.rs].

    The journal: [Journal.v] has one definition for each method of
    [revm/src/journaled_state.rs]. [JournalRevert.v],
    [JournalRun.v] and [Checkpoint.v] prove that rewinding to a checkpoint gives the
    state back, whatever ran since; [JournalSpec.v] says what the operations
    compute, against a ledger of tokens. [InMemoryDb.v]:
    [revm/src/db/in_memory_db.rs] and [emptydb.rs].

    Tokens: [CallInputs.v] ([interpreter_action/call_inputs.rs],
    [primitives/src/precompile.rs]), [NativeTokens.v]
    ([revm/src/sablier/native_tokens.rs]) and [NativeTokensRewind.v].

    The interpreter, all under [interpreter/src/]: [Gas.v] ([gas.rs],
    [gas/calc.rs], [gas/constants.rs]), [Stack.v], [SharedMemory.v], [I256.v]
    ([instructions/i256.rs] and the word operations), [Analysis.v]
    ([interpreter/analysis.rs], legacy code), [Interpreter.v] ([interpreter.rs],
    [interpreter/contract.rs], [function_stack.rs], [interpreter_action*] and the
    macros), [Instructions.v], [HostInstructions.v] (every file of [instructions/]
    and [host.rs]) and [Opcode.v] ([opcode.rs], [step] and [run]). About them:
    [InterpreterSteps.v], [InterpreterSafety.v], [InterpreterLoop.v],
    [InterpreterGas.v], [EofInstructions.v], [HostSafety.v] and
    [InstructionHeights.v].

    Transactions, under [revm/src/]: [Env.v] ([primitives/src/env.rs]),
    [Context.v] ([context/*], [frame.rs]), [Frames.v], [Handler.v]
    ([handler/mainnet/*]), [Fees.v], [Evm.v] ([evm.rs], [context.rs]). About them:
    [ContextSteps.v], [EvmFrames.v], [EvmLoop.v], [StaticCalls.v].

    EOF validation: [EofValidation.v] (the rest of [interpreter/analysis.rs]),
    [EofSafety.v], [EofRun.v] (an abstract machine) and [EofExecution.v] (the
    interpreter).

    The state of a block, under [revm/src/db/states/]: [DbAccounts.v]
    ([account_status.rs], [plain_account.rs], [cache_account.rs],
    [transition_account.rs], [transition_state.rs], [cache.rs]),
    [DbBundleAccount.v] ([bundle_account.rs], [reverts.rs]), [DbBundleState.v]
    ([bundle_state.rs], [reverts.rs], [changes.rs]) and [DbState.v] ([state.rs],
    [state_builder.rs]). About them: [DbRevert.v], [DbBundleSizes.v], [DbPlainState.v], [DbTracking.v],
    [DbStateView.v] and [DbStateCommit.v].

    The precompiles, under [precompile/src/]: [Precompile.v] ([utilities.rs],
    [identity.rs], [hash.rs], and [primitives/src/precompile.rs]), [Blake2.v]
    ([blake2.rs]), [Modexp.v] ([modexp.rs]), [Curves.v] ([secp256k1.rs],
    [secp256r1.rs], [bn128.rs], [kzg_point_evaluation.rs]), [Bls12.v]
    ([bls12_381*]) and [PrecompileSets.v] ([lib.rs], and what the handlers do with
    the sets).

    The rollup, under [revm/src/optimism/]: [FastLz.v] ([fast_lz.rs]), [L1Block.v] ([l1block.rs], and its hard forks), [Optimism.v]
    ([handler_register.rs]: the handlers that replace those of [Handler.v], and
    [evm.rs] over them) and [RollupLoop.v].

    Over all of them, the invariants of an execution: [WordTypes.v] and
    [InterpreterTypes.v] (what is a word, an address, a byte string, and that the
    interpreter keeps them so), [JournalInvariant.v] (the interface: what the
    operations of the journal, the native-token precompile and the checkpoints must
    keep), [LoopInvariant.v] (a client of it: entering and leaving frames, and the
    loop, keep any such invariant), and its instances: [TypedWorld.v] (the accounts
    and the journal hold words), [SupplyInvariant.v] and [SupplyWorld.v] (the base
    tokens of the accounts, and that the journal leads back to them). Around the
    loop, [TransactionSupply.v] (before the first frame and after the last) and
    [MainnetSupply.v] (over the precompiles of a hard fork).

    The tables of handlers, under [revm/src/]: [HandlerTable.v] ([handler.rs],
    [handler/register.rs], [handler/handle_types/*], the tables of instructions of
    [interpreter/src/opcode.rs], and [evm.rs] over a table, whatever its handlers
    are) and [Inspector.v] ([inspector.rs], [inspector/handler_register.rs],
    [inspector/noop.rs], [inspector/gas.rs]). [Evm.v] and [Optimism.v] are the same
    machine with the handlers written in, and two theorems say so.

    ** What the theorems show

    - No transaction creates base tokens: what the accounts of a result hold is what
      the database holds for them, less the base fee of the gas used and the blob
      fee at least ([MainnetSupply.no_base_tokens_are_created]), over calls,
      creations, reverts, SELFDESTRUCT and native-token calls, where there is no EOF
      code and no token that is minted hashes to the base token. Where legacy code
      runs, the stack holds words, the memory bytes, and every call it asks for is
      typed ([InterpreterTypes.legacy_code_is_typed]).
    - Nothing leaks from a failed call: [Checkpoint.checkpoint_revert_restores] and
      [Frames.failed_call_restores], up to the equality of [JournalRevert.v]. The
      runs they are about, [Checkpoint.run], leave out what the journal does not
      record: a transfer that overflows, a creation over an account that was used, and
      code that is set over code.
    - The machine stops: [InterpreterLoop.run_terminates] for one frame,
      [PrecompileSets.transact_terminates] for a whole transaction, because every step and
      every frame costs gas ([InterpreterGas.calls_do_not_create_gas]); the call
      stack stays within its limit ([EvmLoop.call_stack_is_bounded]).
    - The machine stays on its code: [InterpreterLoop.legacy_code_stays_on_instructions]
      with [Analysis.jump_table_correct]; [EofExecution.accepted_container_executes_safely]
      for validated EOF code, over [EofRun.accepted_container_runs_safely] and
      [InstructionHeights.instructions_follow_table].
    - A static frame changes nothing: [StaticCalls.static_frame_changes_nothing].
    - Validation of EOF code ends, does not panic, and decides an order-free
      description: [EofSafety.v].
    - Tokens and fees: [JournalSpec.v] (transfer, mint and burn against a ledger),
      [NativeTokens.v] (each function of the precompile), [Fees.v] (a validated
      transaction is funded, and the settlement burns the base fee only).
    - Precompiles: every one of a hard fork stays within its gas, does not panic and
      answers bytes ([PrecompileSets.fork_precompiles_behave]); [Blake2.run] is the
      function of EIP-152 ([Blake2.blake2_is_the_reference]); modular exponentiation
      follows EIP-198 and EIP-2565 ([Modexp.modexp_follows_the_eips]); the points of
      EIP-2537 have one encoding ([Bls12.bls_points_have_one_encoding]).
    - The rollup: the size of a transaction is the one of a FastLZ compression of it
      ([FastLz.compress_len_is_a_compression]), its cost follows the specifications
      of the forks ([L1Block.l1_cost_follows_the_specs]) and is charged exactly
      ([Optimism.data_cost_is_charged]); a deposit is always included
      ([Optimism.deposits_are_always_included]) and pays for its gas by fork
      ([Optimism.deposit_gas_follows_the_forks]); execution ends
      ([RollupLoop.op_transact_terminates]).
    - Handlers: a handler is the replay of its registers
      ([HandlerTable.handlers_replay_their_registers]); an inspector that only
      observes changes no transaction ([Inspector.observers_change_nothing]). That
      the table of the main network, and the one of the rollup, run the definitions
      that the theorems above are about is checked by
      [HandlerTable.mainnet_table_is_the_machine] and
      [HandlerTable.rollup_table_is_the_machine], which relate two readings of
      [evm.rs] and say nothing of the handlers themselves.
    - Databases: [InMemoryDb.v] (the cache refines the view), and for the state of a
      block: reading answers its view, a commit writes the transaction to the view,
      merging hands the view to the bundle and the plain state of the bundle writes
      it to the database ([DbStateCommit.v]); the latest reverts undo the latest
      block, and the size counters are exact but for the slots that [extend] moves
      ([DbBundleSizes.bundle_sizes_count_drained_slots]).
    - Arithmetic, memory and encodings: [I256.v], [SharedMemory.v], [Stack.v],
      [Gas.v], [Eof.v] (decoding and encoding are inverse).
    - Where the code does not do what it means to, a theorem says so:
      [DbRevert.two_reverts_lose_storage],
      [EofExecution.retf_without_caller_is_accepted],
      [JournalSpec.mint_unloaded_recipient_panics],
      [Optimism.base_fee_vault_is_overwritten], and others next to the
      definitions they are about.

    ** How the code is read

    - Arithmetic is that of a release build: [+], [-] and [*] on machine integers
      wrap at their width where the source uses them unchecked; checked and
      saturating operations are themselves. The arithmetic of [U256] is modelled by
      its documented meaning.
    - [unwrap], [expect], [unreachable!], an index out of bounds and an [unsafe]
      access outside of its precondition are [Panic]; an error is [Err]. A mutable
      receiver is the state of the monad, kept on every path.
    - A [HashMap] is a [gmap]; where its order matters it is a parameter: [order]
      for a set of code sections, the class [MapIteration] for the maps of a bundle.
      A theorem that has one holds for every order.
    - Parameters: [Keccak] (hashing), [CreateAddress] (the addresses of new
      contracts), [Database], [Host] (for the interpreter), the precompiles of a hard
      fork (for the context and the loop; [PrecompileSets.v] supplies them), and the
      cryptographic crates: [Hashes], [Ecrecover], [Secp256k1], [Bn], [ModexpLib],
      [Kzg] and [Blst], together [Crypto], and [P256]. The hypotheses on them are the classes
      [DatabaseOk], [DatabaseRefOk], [DatabaseLegacy], [HostReads], [HostWrites],
      [DatabaseTyped] and [HostTyped] (answers are words), [StoredBalances] and
      [Solvent] (what the database holds does not change under a transaction, and is
      no more than a word counts), [HashedTokens] (no hash is the base token; [spare_base] makes any hash so,
      and the theorem on supply asks that a run does not tell the two apart),
      those of the crates ([CryptoOk]: sizes of results, canonical field elements)
      and the record [serves], each with an instance.
    - The precompiles are considered at gas limits below [2 ^ 54], where what modular
      exponentiation allocates is paid for and fits the address space.
    - What the [optimism] feature adds to a struct of another file is an argument
      ([OptimismFields]) or a second half of the state ([L1BlockInfo]); its forks are
      [OpSpecId], and [ethereum_of] the Ethereum fork that a shared handler sees
      ([op_enabled_ethereum]).
    - [legacy_world] says that no account has EOF code. The theorems on the loop
      over the call stack assume it: the EOF creates and calls are unfinished in the
      source, and hand on gas that was not charged ([EofInstructions.v]).
      [non_returning_ok] excludes the code that [retf_without_caller_is_accepted] is
      about, and [EofExecution.v] leaves out the instructions that create.

    ** Fuel

    A loop whose end is not structural takes a number of steps, and a theorem says
    which number is enough: the length of the code for [analyze_loop] and
    [scan_loop], the number of sections for [codes_loop], the length of the
    container for [eofs_loop] ([EofSafety.validation_terminates]), the gas for
    [run_loop] ([frame_fuel], [InterpreterLoop.run_terminates]), the gas and the
    depth for [frames_loop] ([EvmLoop.transact_settles]), the length of the bytes
    for the chunks of [Stack.v] and of [consume_words], the length of the input for
    the loops of [FastLz.v], whose fuel would run out as a panic, and the bound of
    [Gas.fake_exponential_terminates] for [fake_exponential].

    ** Not modelled

    The arithmetic of curves, pairings, KZG proofs, modular exponentiation and the
    hashes is that of crates that are not part of the repository. A handle of a table
    is a computation; a register that changes the list of registers itself is not
    expressible. The builder is typed construction: what its stages do is to move
    fields and to call the functions of [HandlerTable.v]. The inspectors that print
    ([customprinter.rs], [eip3155.rs]), the other optional features, serialisation,
    the network databases, the command line tools, the benchmarks and the examples
    are outside of the core.
    BundleState is modelled whole; [increment_balances] and [drain_balances] of
    [State] are modelled and no theorem is stated on them yet. *)

From stdpp Require Export base gmap strings list fin_maps.
From Stdlib Require Export ZArith Lia.

(** * Machine integers

    Rust's unsigned integers (and the 256-bit words of the EVM) are [Z] values
    kept in range by the operations themselves; each operation of the source
    names its width and its overflow behaviour. *)

Declare Scope sabvm_scope.
Delimit Scope sabvm_scope with sabvm.
#[global] Open Scope Z_scope.

Section integers.
Context (w : Z).

(** [z] is representable on [w] bits. *)
Definition fits (z : Z) : Prop := 0 <= z < 2 ^ w.

Definition fitsb (z : Z) : bool := (0 <=? z) && (z <? 2 ^ w).

Definition checked_add (a b : Z) : option Z :=
  if a + b <? 2 ^ w then Some (a + b) else None.

Definition checked_mul (a b : Z) : option Z :=
  if a * b <? 2 ^ w then Some (a * b) else None.

Definition wrapping_add (a b : Z) : Z := (a + b) mod 2 ^ w.
Definition wrapping_sub (a b : Z) : Z := (a - b) mod 2 ^ w.
Definition wrapping_mul (a b : Z) : Z := (a * b) mod 2 ^ w.

Definition saturating_add (a b : Z) : Z := Z.min (a + b) (2 ^ w - 1).
Definition saturating_mul (a b : Z) : Z := Z.min (a * b) (2 ^ w - 1).

(** Conversion of a signed or wider value with [as]: truncation. *)
Definition cast (z : Z) : Z := z mod 2 ^ w.

(** The two's complement reading of a [w]-bit word. *)
Definition signed (z : Z) : Z := if z <? 2 ^ (w - 1) then z else z - 2 ^ w.
End integers.

Definition checked_sub (a b : Z) : option Z :=
  if b <=? a then Some (a - b) else None.

Definition saturating_sub (a b : Z) : Z := Z.max (a - b) 0.

(** Subtraction of two [usize] lengths in a release build. *)
Definition usize_sub (a b : Z) : Z := if b <=? a then a - b else a - b + 2 ^ 64.

Definition U64_MAX : Z := 2 ^ 64 - 1.
Definition U256_MAX : Z := 2 ^ 256 - 1.

Lemma fitsb_spec w z : fitsb w z = true <-> fits w z.
Proof. unfold fitsb, fits. rewrite andb_true_iff, Z.leb_le, Z.ltb_lt. lia. Qed.

#[export] Instance fits_decision w z : Decision (fits w z).
Proof.
  refine (cast_if (decide (fitsb w z = true))); by rewrite <- fitsb_spec.
Defined.

Lemma fits_wrapping_add w a b : 0 <= w -> fits w (wrapping_add w a b).
Proof. intros. apply Z.mod_pos_bound. lia. Qed.

Lemma fits_wrapping_sub w a b : 0 <= w -> fits w (wrapping_sub w a b).
Proof. intros. apply Z.mod_pos_bound. lia. Qed.

Lemma fits_cast w a : 0 <= w -> fits w (cast w a).
Proof. intros. apply Z.mod_pos_bound. lia. Qed.

Lemma cast_fits w a : fits w a -> cast w a = a.
Proof. apply Z.mod_small. Qed.

Lemma wrapping_add_fits w a b : fits w (a + b) -> wrapping_add w a b = a + b.
Proof. apply Z.mod_small. Qed.

Lemma wrapping_sub_fits w a b : fits w (a - b) -> wrapping_sub w a b = a - b.
Proof. apply Z.mod_small. Qed.

(** Adding and then subtracting the same amount is the identity on a word, even
    when the addition wrapped; and the other way round. *)
Lemma wrapping_sub_add w a b :
  0 <= w -> fits w a -> wrapping_sub w (wrapping_add w a b) b = a.
Proof.
  intros Hw Ha. unfold wrapping_sub, wrapping_add.
  rewrite Zminus_mod_idemp_l. replace (a + b - b) with a by lia. by apply Z.mod_small.
Qed.

Lemma wrapping_add_sub w a b :
  0 <= w -> fits w a -> wrapping_add w (wrapping_sub w a b) b = a.
Proof.
  intros Hw Ha. unfold wrapping_sub, wrapping_add.
  rewrite Zplus_mod_idemp_l. replace (a - b + b) with a by lia. by apply Z.mod_small.
Qed.

Lemma checked_add_Some w a b c :
  checked_add w a b = Some c <-> c = a + b /\ a + b < 2 ^ w.
Proof.
  unfold checked_add. destruct (Z.ltb_spec (a + b) (2 ^ w)); split; intros; simplify_eq; destruct_and?; subst; first [done | lia | split; lia].
Qed.

Lemma checked_add_None w a b : checked_add w a b = None <-> 2 ^ w <= a + b.
Proof.
  unfold checked_add. destruct (Z.ltb_spec (a + b) (2 ^ w)); split; intros; simplify_eq; auto; lia.
Qed.

Lemma checked_sub_Some a b c : checked_sub a b = Some c <-> c = a - b /\ b <= a.
Proof.
  unfold checked_sub. destruct (Z.leb_spec b a); split; intros; simplify_eq; destruct_and?; subst; first [done | lia | split; lia].
Qed.

Lemma checked_sub_None a b : checked_sub a b = None <-> a < b.
Proof.
  unfold checked_sub. destruct (Z.leb_spec b a); split; intros; simplify_eq; auto; lia.
Qed.

Lemma checked_mul_Some w a b c :
  checked_mul w a b = Some c <-> c = a * b /\ a * b < 2 ^ w.
Proof.
  unfold checked_mul. destruct (Z.ltb_spec (a * b) (2 ^ w)); split; intros; simplify_eq; destruct_and?; subst; first [done | lia | split; lia].
Qed.

(** * Outcomes and effects

    A Rust function returns a value, returns an error ([Err]), or panics; an
    operation with a [&mut] receiver threads the state it mutates, and the
    mutations made before an early return stay. *)

Inductive outcome (E A : Type) : Type :=
  | Ok (a : A)
  | Err (e : E)
  | Panic.
Arguments Ok {E A} a.
Arguments Err {E A} e.
Arguments Panic {E A}.

#[export] Instance outcome_eq_dec `{EqDecision E, EqDecision A} : EqDecision (outcome E A).
Proof. solve_decision. Defined.

#[export] Instance outcome_ret {E} : MRet (outcome E) := fun _ => Ok.
#[export] Instance outcome_bind {E} : MBind (outcome E) := fun _ _ f m =>
  match m with Ok a => f a | Err e => Err e | Panic => Panic end.

(** [Option::ok_or] and [unwrap]/[expect]. *)
Definition ok_or {E A} (e : E) (o : option A) : outcome E A :=
  match o with Some a => Ok a | None => Err e end.
Definition unwrap {E A} (o : option A) : outcome E A :=
  match o with Some a => Ok a | None => Panic end.
Definition map_err {E F A} (f : E -> F) (m : outcome E A) : outcome F A :=
  match m with Ok a => Ok a | Err e => Err (f e) | Panic => Panic end.

Definition is_ok {E A} (m : outcome E A) : bool :=
  match m with Ok _ => true | _ => false end.

Lemma outcome_bind_Ok {E A B} (m : outcome E A) (f : A -> outcome E B) b :
  m ≫= f = Ok b -> exists a, m = Ok a /\ f a = Ok b.
Proof. destruct m; simpl; intros; simplify_eq; eauto. Qed.

(** Split a successful computation [H] into its successful steps. *)
Ltac inv_bind H :=
  repeat match type of H with
  | (?m ≫= ?f) = Ok _ =>
      let x := fresh "x" in let Hx := fresh "Hx" in
      apply outcome_bind_Ok in H as (x & Hx & H)
  | Err _ = Ok _ => discriminate H
  | Panic = Ok _ => discriminate H
  end.

(** Computations over a mutable state. *)
Definition M (S E A : Type) : Type := S -> outcome E A * S.

#[export] Instance M_ret {S E} : MRet (M S E) := fun _ a s => (Ok a, s).
#[export] Instance M_bind {S E} : MBind (M S E) := fun _ _ f m s =>
  match m s with
  | (Ok a, s') => f a s'
  | (Err e, s') => (Err e, s')
  | (Panic, s') => (Panic, s')
  end.

Definition get {S E} : M S E S := fun s => (Ok s, s).
Definition gets {S E A} (f : S -> A) : M S E A := fun s => (Ok (f s), s).
Definition modify {S E} (f : S -> S) : M S E unit := fun s => (Ok tt, f s).
Definition fail {S E A} (e : E) : M S E A := fun s => (Err e, s).
Definition lift {S E A} (m : outcome E A) : M S E A := fun s => (m, s).

(** Run [m] on the part of the state selected by a getter and a setter. *)
Definition zoom {S T E A} (getter : S -> T) (setter : T -> S -> S) (m : M T E A) : M S E A :=
  fun s => let '(r, t) := m (getter s) in (r, setter t s).

(** [match m { Ok(a) => .., Err(e) => .. }]: an error becomes a value. *)
Definition attempt {S E F A} (m : M S E A) : M S F (E + A) := fun s =>
  match m s with
  | (Ok a, s') => (Ok (inr a), s')
  | (Err e, s') => (Ok (inl e), s')
  | (Panic, s') => (Panic, s')
  end.

Definition with_err {S E F A} (f : E -> F) (m : M S E A) : M S F A := fun s =>
  let '(r, s') := m s in (map_err f r, s').

Lemma M_bind_ok {S E A B} (m : M S E A) (f : A -> M S E B) s a s' :
  m s = (Ok a, s') -> (m ≫= f) s = f a s'.
Proof. unfold mbind, M_bind. by intros ->. Qed.

Lemma M_bind_panic {S E A B} (m : M S E A) (f : A -> M S E B) s s' :
  m s = (Panic, s') -> (m ≫= f) s = (Panic, s').
Proof. unfold mbind, M_bind. by intros ->. Qed.

Lemma M_bind_err {S E A B} (m : M S E A) (f : A -> M S E B) s e s' :
  m s = (Err e, s') -> (m ≫= f) s = (Err e, s').
Proof. unfold mbind, M_bind. by intros ->. Qed.

(** A failing prefix fails the whole computation in the state it reached. *)
Lemma M_bind_inv {S E A B} (m : M S E A) (f : A -> M S E B) s r s' :
  (m ≫= f) s = (r, s') ->
  (exists a s1, m s = (Ok a, s1) /\ f a s1 = (r, s')) \/
  (exists e, m s = (Err e, s') /\ r = Err e) \/
  (m s = (Panic, s') /\ r = Panic).
Proof.
  unfold mbind, M_bind. destruct (m s) as [[a|e|] s1] eqn:Hm; intros H; simplify_eq; eauto 8.
Qed.

(** [wp m Q s]: if [m] answers from [s], the answer and the final state satisfy
    [Q]; nothing is said of errors and panics. *)
Definition wp {S E A} (m : M S E A) (Q : A -> S -> Prop) (s : S) : Prop :=
  match m s with (Ok a, s') => Q a s' | _ => True end.

Section wp.
Context {S E : Type}.
Lemma wp_intro {A} (m : M S E A) Q s : (forall a s', m s = (Ok a, s') -> Q a s') -> wp m Q s.
Proof. unfold wp. destruct (m s) as [[]]; auto. Qed.
Lemma wp_elim {A} (m : M S E A) Q s a s' : wp m Q s -> m s = (Ok a, s') -> Q a s'.
Proof. unfold wp. intros H Hm. by rewrite Hm in H. Qed.
Lemma wp_mono {A} (m : M S E A) (P Q : A -> S -> Prop) s :
  wp m P s -> (forall a s', P a s' -> Q a s') -> wp m Q s.
Proof. unfold wp. destruct (m s) as [[]]; auto. Qed.
Lemma wp_bind {A B} (m : M S E A) (f : A -> M S E B) Q s :
  wp m (fun a => wp (f a) Q) s -> wp (m ≫= f) Q s.
Proof. unfold wp, mbind, M_bind. by destruct (m s) as [[]]. Qed.
Lemma wp_ret {A} (a : A) (Q : A -> S -> Prop) s : Q a s -> wp (E := E) (mret a) Q s.
Proof. done. Qed.
Lemma wp_fail {A} (e : E) (Q : A -> S -> Prop) s : wp (fail e) Q s.
Proof. done. Qed.
Lemma wp_lift {A} (o : outcome E A) (Q : A -> S -> Prop) s : (forall a, o = Ok a -> Q a s) -> wp (lift o) Q s.
Proof. unfold wp, lift. destruct o; auto. Qed.
Lemma wp_gets {A} (f : S -> A) (Q : A -> S -> Prop) s : Q (f s) s -> wp (E := E) (gets f) Q s.
Proof. done. Qed.
Lemma wp_zoom {T A} (getter : S -> T) (setter : T -> S -> S) (m : M T E A) (Q : A -> S -> Prop) s :
  wp m (fun a t => Q a (setter t s)) (getter s) -> wp (zoom getter setter m) Q s.
Proof. unfold wp, zoom. by destruct (m (getter s)) as [[]]. Qed.
End wp.

(** [safely m Q]: [m] does not panic, and if it answers, the answer satisfies [Q]. *)
Definition safely {E A} (m : outcome E A) (Q : A -> Prop) : Prop :=
  match m with Ok a => Q a | Err _ => True | Panic => False end.

Section safely.
Context {E : Type}.
Lemma safely_ok {A} (a : A) (Q : A -> Prop) : Q a -> safely (E := E) (Ok a) Q.
Proof. done. Qed.
Lemma safely_elim {A} (m : outcome E A) Q a : safely m Q -> m = Ok a -> Q a.
Proof. by intros H ->. Qed.
Lemma safely_mono {A} (m : outcome E A) (P Q : A -> Prop) :
  safely m P -> (forall a, m = Ok a -> P a -> Q a) -> safely m Q.
Proof. destruct m; simpl; auto. Qed.
Lemma safely_bind {A B} (m : outcome E A) (f : A -> outcome E B) (P : A -> Prop) (Q : B -> Prop) :
  safely m P -> (forall a, m = Ok a -> P a -> safely (f a) Q) -> safely (m ≫= f) Q.
Proof. destruct m; simpl; auto. Qed.
Lemma safely_no_panic {A} (m : outcome E A) Q : safely m Q -> m <> Panic.
Proof. by destruct m. Qed.
Lemma safely_map_err {F A} (g : E -> F) (m : outcome E A) Q : safely m Q -> safely (map_err g m) Q.
Proof. by destruct m. Qed.
End safely.

(** * Automation *)

(** Decide the integer comparisons of the goal with [lia]. *)
Ltac bool_lia :=
  repeat match goal with
  | |- context [?a <? ?b] =>
      first [ replace (a <? b) with true by (symmetry; apply Z.ltb_lt; lia)
            | replace (a <? b) with false by (symmetry; apply Z.ltb_ge; lia) ]
  | |- context [?a <=? ?b] =>
      first [ replace (a <=? b) with true by (symmetry; apply Z.leb_le; lia)
            | replace (a <=? b) with false by (symmetry; apply Z.leb_gt; lia) ]
  | |- context [?a =? ?b] =>
      first [ replace (a =? b) with true by (symmetry; apply Z.eqb_eq; lia)
            | replace (a =? b) with false by (symmetry; apply Z.eqb_neq; lia) ]
  end; cbn [andb orb negb].
