(* ===== verification/Specification.v ===== *)
(** Hard forks: [crates/primitives/src/specification.rs].

    [SpecId] is the enum of the default build (the [optimism] feature has its
    own numbering); [enabled] compares discriminants as the source does. *)

From S2P Require Import Prelude.

Inductive SpecId : Type :=
  | FRONTIER | FRONTIER_THAWING | HOMESTEAD | DAO_FORK | TANGERINE
  | SPURIOUS_DRAGON | BYZANTIUM | CONSTANTINOPLE | PETERSBURG | ISTANBUL
  | MUIR_GLACIER | BERLIN | LONDON | ARROW_GLACIER | GRAY_GLACIER | MERGE
  | SHANGHAI | CANCUN | PRAGUE | LATEST.

#[export] Instance SpecId_eq_dec : EqDecision SpecId.
Proof. solve_decision. Defined.

(** The [repr(u8)] discriminant. *)
Definition SpecId_as_u8 (s : SpecId) : Z :=
  match s with
  | FRONTIER => 0 | FRONTIER_THAWING => 1 | HOMESTEAD => 2 | DAO_FORK => 3
  | TANGERINE => 4 | SPURIOUS_DRAGON => 5 | BYZANTIUM => 6
  | CONSTANTINOPLE => 7 | PETERSBURG => 8 | ISTANBUL => 9
  | MUIR_GLACIER => 10 | BERLIN => 11 | LONDON => 12 | ARROW_GLACIER => 13
  | GRAY_GLACIER => 14 | MERGE => 15 | SHANGHAI => 16 | CANCUN => 17
  | PRAGUE => 18 | LATEST => 255
  end.

Definition all_specs : list SpecId :=
  [FRONTIER; FRONTIER_THAWING; HOMESTEAD; DAO_FORK; TANGERINE; SPURIOUS_DRAGON;
   BYZANTIUM; CONSTANTINOPLE; PETERSBURG; ISTANBUL; MUIR_GLACIER; BERLIN; LONDON;
   ARROW_GLACIER; GRAY_GLACIER; MERGE; SHANGHAI; CANCUN; PRAGUE; LATEST].

(** [SpecId::try_from_u8], the [enumn] inverse of the discriminant. *)
Definition try_from_u8 (n : Z) : option SpecId :=
  List.find (fun s => SpecId_as_u8 s =? n) all_specs.

(** [SpecId::enabled our other]. *)
Definition enabled (our other : SpecId) : bool := SpecId_as_u8 other <=? SpecId_as_u8 our.

Definition is_enabled_in (self other : SpecId) : bool := enabled self other.

(** [impl From<&str> for SpecId]: an unknown name is the latest fork. *)
Definition SpecId_from_str (name : string) : SpecId :=
  if decide (name = "Frontier"%string) then FRONTIER
  else if decide (name = "Homestead"%string) then HOMESTEAD
  else if decide (name = "Tangerine"%string) then TANGERINE
  else if decide (name = "Spurious"%string) then SPURIOUS_DRAGON
  else if decide (name = "Byzantium"%string) then BYZANTIUM
  else if decide (name = "Constantinople"%string) then CONSTANTINOPLE
  else if decide (name = "Petersburg"%string) then PETERSBURG
  else if decide (name = "Istanbul"%string) then ISTANBUL
  else if decide (name = "MuirGlacier"%string) then MUIR_GLACIER
  else if decide (name = "Berlin"%string) then BERLIN
  else if decide (name = "London"%string) then LONDON
  else if decide (name = "Merge"%string) then MERGE
  else if decide (name = "Shanghai"%string) then SHANGHAI
  else if decide (name = "Cancun"%string) then CANCUN
  else if decide (name = "Prague"%string) then PRAGUE
  else LATEST.

(** [impl From<SpecId> for &'static str]. *)
Definition SpecId_to_str (s : SpecId) : string :=
  match s with
  | FRONTIER => "Frontier"
  | FRONTIER_THAWING => "Frontier Thawing"
  | HOMESTEAD => "Homestead"
  | DAO_FORK => "DAO Fork"
  | TANGERINE => "Tangerine"
  | SPURIOUS_DRAGON => "Spurious"
  | BYZANTIUM => "Byzantium"
  | CONSTANTINOPLE => "Constantinople"
  | PETERSBURG => "Petersburg"
  | ISTANBUL => "Istanbul"
  | MUIR_GLACIER => "MuirGlacier"
  | BERLIN => "Berlin"
  | LONDON => "London"
  | ARROW_GLACIER => "Arrow Glacier"
  | GRAY_GLACIER => "Gray Glacier"
  | MERGE => "Merge"
  | SHANGHAI => "Shanghai"
  | CANCUN => "Cancun"
  | PRAGUE => "Prague"
  | LATEST => "Latest"
  end%string.

(** The forks with an instruction table of their own; [spec_to_generic!] maps
    every identifier to one of them. *)
Definition spec_to_generic (s : SpecId) : SpecId :=
  match s with
  | FRONTIER | FRONTIER_THAWING => FRONTIER
  | HOMESTEAD | DAO_FORK => HOMESTEAD
  | TANGERINE => TANGERINE
  | SPURIOUS_DRAGON => SPURIOUS_DRAGON
  | BYZANTIUM => BYZANTIUM
  | PETERSBURG | CONSTANTINOPLE => PETERSBURG
  | ISTANBUL | MUIR_GLACIER => ISTANBUL
  | BERLIN => BERLIN
  | LONDON | ARROW_GLACIER | GRAY_GLACIER => LONDON
  | MERGE => MERGE
  | SHANGHAI => SHANGHAI
  | CANCUN => CANCUN
  | LATEST => LATEST
  | PRAGUE => PRAGUE
  end.

(** ** Lemmas *)

Lemma SpecId_as_u8_inj s t : SpecId_as_u8 s = SpecId_as_u8 t -> s = t.
Proof. by destruct s, t. Qed.

Lemma enabled_spec our other :
  enabled our other = true <-> SpecId_as_u8 other <= SpecId_as_u8 our.
Proof. apply Z.leb_le. Qed.

Lemma enabled_trans a b c : enabled a b = true -> enabled b c = true -> enabled a c = true.
Proof. rewrite !enabled_spec. lia. Qed.
