(* ===== verification/Bytes.v ===== *)
(** Byte strings and their parsing.

    [Bytes], [Vec<u8>] and [&[u8]] are lists of [Z] in [0, 256); addresses and
    [B256]/[U256] words are [Z] values read big endian.  The second half models
    [crates/primitives/src/utilities.rs], module [bytes_parsing]. *)

From S2P Require Import Prelude.

Abbreviation bytes := (list Z).

Definition is_byte (b : Z) : Prop := 0 <= b < 256.
Definition is_byteb (b : Z) : bool := (0 <=? b) && (b <? 256).

(** [Vec::len] and slicing; an index out of range panics. *)
Definition len {A} (l : list A) : Z := Z.of_nat (length l).

Definition slice_from {E A} (l : list A) (n : Z) : outcome E (list A) :=
  if (0 <=? n) && (n <=? len l) then Ok (drop (Z.to_nat n) l) else Panic.

Definition slice {E A} (l : list A) (a b : Z) : outcome E (list A) :=
  if (0 <=? a) && (a <=? b) && (b <=? len l)
  then Ok (take (Z.to_nat (b - a)) (drop (Z.to_nat a) l)) else Panic.

Definition index {E A} (l : list A) (i : Z) : outcome E A :=
  if 0 <=? i then unwrap (l !! Z.to_nat i) else Panic.

(** [v[i] = x]. *)
Definition store {E} (v : list Z) (i x : Z) : outcome E (list Z) :=
  if (0 <=? i) && (i <? len v) then Ok (<[Z.to_nat i := x]> v) else Panic.

(** [uN::from_be_bytes] and [uN::to_be_bytes]. *)
Fixpoint from_be_acc (acc : Z) (l : bytes) : Z :=
  match l with [] => acc | b :: l => from_be_acc (acc * 256 + b) l end.

Definition from_be_bytes (l : bytes) : Z := from_be_acc 0 l.

Fixpoint to_be_bytes (n : nat) (z : Z) : bytes :=
  match n with O => [] | S n => to_be_bytes n (z / 256) ++ [z mod 256] end.

(** ** [bytes_parsing] *)

Inductive BytesParsingError : Type := BytesInvalidInput.

(** Each consumer returns what it read and what is left of [input]. *)
Definition consume_bytes_from (input : bytes) (no_bytes : Z)
  : outcome BytesParsingError (bytes * bytes) :=
  if len input <? no_bytes then Err BytesInvalidInput
  else Ok (take (Z.to_nat no_bytes) input, drop (Z.to_nat no_bytes) input).

Definition consume_u8_from (input : bytes) : outcome BytesParsingError (Z * bytes) :=
  '(b, rest) ← consume_bytes_from input 1; Ok (from_be_bytes b, rest).

Definition consume_u16_from (input : bytes) : outcome BytesParsingError (Z * bytes) :=
  '(b, rest) ← consume_bytes_from input 2; Ok (from_be_bytes b, rest).

Definition consume_u32_from (input : bytes) : outcome BytesParsingError (Z * bytes) :=
  '(b, rest) ← consume_bytes_from input 4; Ok (from_be_bytes b, rest).

Definition consume_u256_from (input : bytes) : outcome BytesParsingError (Z * bytes) :=
  '(b, rest) ← consume_bytes_from input 32; Ok (from_be_bytes b, rest).

Definition consume_usize_from (input : bytes) : outcome BytesParsingError (Z * bytes) :=
  '(b, rest) ← consume_bytes_from input 8; Ok (from_be_bytes b, rest).

Definition consume_word_from (input : bytes) : outcome BytesParsingError (bytes * bytes) :=
  consume_bytes_from input 32.

(** [Address::from_word] keeps the low 20 bytes of the word. *)
Definition consume_address_from (input : bytes) : outcome BytesParsingError (Z * bytes) :=
  '(word, rest) ← consume_word_from input; Ok (from_be_bytes (drop 12 word), rest).

(** ** Lemmas *)

Lemma len_nonneg {A} (l : list A) : 0 <= len l.
Proof. unfold len. lia. Qed.

Lemma len_nil {A} : len ([] : list A) = 0.
Proof. done. Qed.

Lemma len_cons {A} (a : A) l : len (a :: l) = 1 + len l.
Proof. unfold len. simpl. lia. Qed.

Lemma len_app {A} (l k : list A) : len (l ++ k) = len l + len k.
Proof. unfold len. rewrite length_app. lia. Qed.

Lemma len_take {A} n (l : list A) : 0 <= n <= len l -> len (take (Z.to_nat n) l) = n.
Proof. unfold len. rewrite length_take. lia. Qed.

Lemma len_drop {A} n (l : list A) : 0 <= n <= len l -> len (drop (Z.to_nat n) l) = len l - n.
Proof. unfold len. rewrite length_drop. lia. Qed.

Create Rewrite HintDb bytes.
#[export] Hint Rewrite @len_nil @len_cons @len_app @length_app @length_take @length_drop : bytes.

Lemma from_be_acc_app acc l k : from_be_acc acc (l ++ k) = from_be_acc (from_be_acc acc l) k.
Proof. revert acc. induction l as [|b l IH]; intros acc; simpl; auto. Qed.

Lemma from_be_acc_shift acc l :
  from_be_acc acc l = acc * 256 ^ len l + from_be_acc 0 l.
Proof.
  revert acc. induction l as [|b l IH]; intros acc; simpl from_be_acc.
  - rewrite len_nil. lia.
  - rewrite (IH (acc * 256 + b)), (IH (0 * 256 + b)), len_cons.
    rewrite Z.pow_add_r by (pose proof (len_nonneg l); lia). ring.
Qed.

Lemma from_be_bytes_snoc l b : from_be_bytes (l ++ [b]) = from_be_bytes l * 256 + b.
Proof. unfold from_be_bytes. by rewrite from_be_acc_app. Qed.

Lemma from_be_bytes_cons b l : from_be_bytes (b :: l) = b * 256 ^ len l + from_be_bytes l.
Proof. unfold from_be_bytes. simpl. rewrite from_be_acc_shift. lia. Qed.

Lemma length_to_be_bytes n z : length (to_be_bytes n z) = n.
Proof. revert z. induction n; intros; simpl; rewrite ?length_app, ?IHn; simpl; lia. Qed.

Lemma len_to_be_bytes n z : len (to_be_bytes n z) = Z.of_nat n.
Proof. unfold len. by rewrite length_to_be_bytes. Qed.

Lemma from_to_be_bytes n z : from_be_bytes (to_be_bytes n z) = z mod 256 ^ Z.of_nat n.
Proof.
  revert z. induction n as [|n IH]; intros z.
  - simpl to_be_bytes. unfold from_be_bytes. simpl. by rewrite Z.mod_1_r.
  - simpl to_be_bytes. rewrite from_be_bytes_snoc, IH, Nat2Z.inj_succ, Z.pow_succ_r by lia.
    rewrite (Z.rem_mul_r z 256 (256 ^ Z.of_nat n)) by lia. lia.
Qed.

Lemma from_to_be_bytes_id n z :
  0 <= z < 256 ^ Z.of_nat n -> from_be_bytes (to_be_bytes n z) = z.
Proof. intros. rewrite from_to_be_bytes. by apply Z.mod_small. Qed.

Lemma to_from_be_bytes l : Forall is_byte l -> to_be_bytes (length l) (from_be_bytes l) = l.
Proof.
  induction l as [|b l IH] using rev_ind; intros Hl; [done|].
  apply Forall_app in Hl as [Hl [Hb _]%Forall_cons].
  rewrite length_app, Nat.add_comm. simpl to_be_bytes. rewrite from_be_bytes_snoc.
  unfold is_byte in Hb.
  rewrite Z.div_add_l, (Z.div_small b), Z.add_0_r by lia.
  rewrite Z.add_comm, Z.mod_add, Z.mod_small by lia. by rewrite IH.
Qed.

Lemma to_be_bytes_is_byte n z : Forall is_byte (to_be_bytes n z).
Proof.
  revert z. induction n as [|n IH]; intros z; simpl; [done|].
  apply Forall_app; split; [apply IH|]. constructor; [|done].
  apply Z.mod_pos_bound. lia.
Qed.

Lemma from_be_bytes_bound l :
  Forall is_byte l -> 0 <= from_be_bytes l < 256 ^ len l.
Proof.
  induction l as [|b l IH] using rev_ind; intros Hl; [done|].
  apply Forall_app in Hl as [Hl [Hb _]%Forall_cons]. specialize (IH Hl). unfold is_byte in Hb.
  rewrite from_be_bytes_snoc, len_app, Z.pow_add_r by (pose proof (len_nonneg l); done).
  change (256 ^ len [b]) with 256. nia.
Qed.

Lemma to_be_bytes_1 z : 0 <= z < 256 -> to_be_bytes 1 z = [z].
Proof. intros. simpl. by rewrite Z.mod_small. Qed.

(** A consumer succeeds exactly on an input that is long enough, and splits it. *)
Lemma consume_bytes_from_ok n l rest :
  len l = n -> consume_bytes_from (l ++ rest) n = Ok (l, rest).
Proof.
  intros Hn. unfold consume_bytes_from. rewrite len_app.
  pose proof (len_nonneg rest).
  destruct (Z.ltb_spec (len l + len rest) n); [lia|].
  unfold len in Hn. subst n. by rewrite Nat2Z.id, take_app_length, drop_app_length.
Qed.

Lemma consume_bytes_from_inv input n l rest :
  0 <= n -> consume_bytes_from input n = Ok (l, rest) -> input = l ++ rest /\ len l = n.
Proof.
  intros Hn. unfold consume_bytes_from. destruct (Z.ltb_spec (len input) n); intros; simplify_eq.
  split; [by rewrite take_drop|]. by apply len_take.
Qed.

Lemma consume_u256_from_ok z rest :
  fits 256 z -> consume_u256_from (to_be_bytes 32 z ++ rest) = Ok (z, rest).
Proof.
  intros Hz. unfold consume_u256_from.
  rewrite consume_bytes_from_ok by apply len_to_be_bytes. cbn [mbind outcome_bind].
  rewrite from_to_be_bytes_id; [done|]. exact Hz.
Qed.

Lemma consume_u32_from_ok z rest :
  fits 32 z -> consume_u32_from (to_be_bytes 4 z ++ rest) = Ok (z, rest).
Proof.
  intros Hz. unfold consume_u32_from.
  rewrite consume_bytes_from_ok by apply len_to_be_bytes. cbn [mbind outcome_bind].
  rewrite from_to_be_bytes_id; [done|]. exact Hz.
Qed.

Lemma to_be_bytes_split n m z :
  0 <= z < 256 ^ Z.of_nat m -> to_be_bytes (n + m) z = replicate n 0 ++ to_be_bytes m z.
Proof.
  revert z. induction m as [|m IH]; intros z Hz.
  - assert (z = 0) as -> by (simpl in Hz; lia). clear Hz. simpl to_be_bytes.
    rewrite Nat.add_0_r, app_nil_r. induction n as [|n IH]; [done|].
    simpl to_be_bytes. change (0 / 256) with 0. change (0 mod 256) with 0.
    by rewrite IH, <- replicate_S_end.
  - rewrite Nat.add_succ_r. simpl to_be_bytes. rewrite app_assoc, IH; [done|].
    rewrite Nat2Z.inj_succ, Z.pow_succ_r in Hz by lia.
    split; [apply Z.div_pos; lia | apply Z.div_lt_upper_bound; lia].
Qed.

Lemma consume_address_from_ok a rest :
  fits 160 a -> consume_address_from (to_be_bytes 32 a ++ rest) = Ok (a, rest).
Proof.
  intros Ha. unfold consume_address_from, consume_word_from.
  rewrite consume_bytes_from_ok by apply len_to_be_bytes. cbn [mbind outcome_bind].
  rewrite (to_be_bytes_split 12 20) by exact Ha.
  rewrite (drop_app_length' _ _ 12) by by rewrite length_replicate.
  rewrite from_to_be_bytes_id; [done|]. exact Ha.
Qed.

(** The bounds of what a consumer reads. *)
Lemma consume_u256_from_fits input z rest :
  Forall is_byte input -> consume_u256_from input = Ok (z, rest) ->
  fits 256 z /\ Forall is_byte rest.
Proof.
  intros Hin. unfold consume_u256_from.
  destruct (consume_bytes_from input 32) as [[b r]| |] eqn:Hc; intros H; simplify_eq/=.
  apply consume_bytes_from_inv in Hc as [-> Hl]; [|lia].
  apply Forall_app in Hin as [Hb Hr]. split; [|done].
  pose proof (from_be_bytes_bound b Hb) as Hbd. rewrite Hl in Hbd. exact Hbd.
Qed.

Lemma index_Ok {E A} (l : list A) i x : index (E := E) l i = Ok x <-> 0 <= i /\ l !! Z.to_nat i = Some x.
Proof.
  unfold index, unwrap. destruct (Z.leb_spec 0 i); [|split; [done|lia]].
  destruct (l !! Z.to_nat i); split; intros H'; [by simplify_eq|by destruct H' as [_ [= ->]]|done|by destruct H'].
Qed.
Lemma index_safely {E A} (l : list A) i :
  0 <= i < len l -> safely (index (E := E) l i) (fun x => l !! Z.to_nat i = Some x).
Proof.
  intros Hi. unfold index. destruct (Z.leb_spec 0 i); [|lia].
  destruct (l !! Z.to_nat i) eqn:H1; [done|]. apply lookup_ge_None in H1. unfold len in Hi. lia.
Qed.

(** The byte at an index, [0] past the end: how the specifications read the bytes that [index] reads. *)
Definition byte_at (l : bytes) (i : Z) : Z := default 0 (l !! Z.to_nat i).

Lemma index_byte_at {E} l i b : index (E := E) l i = Ok b -> byte_at l i = b.
Proof. intros [_ H]%index_Ok. unfold byte_at. by rewrite H. Qed.
Lemma lookup_byte_at (l : bytes) i : (i < length l)%nat -> l !! i = Some (byte_at l (Z.of_nat i)).
Proof. intros [b Hb]%lookup_lt_is_Some. unfold byte_at. by rewrite Nat2Z.id, Hb. Qed.
Lemma index_in_range {E} l i : 0 <= i < len l -> index (E := E) l i = Ok (byte_at l i).
Proof.
  unfold len. intros Hi. apply index_Ok. split; [lia|]. rewrite lookup_byte_at, Z2Nat.id by lia. done.
Qed.
Lemma byte_at_is_byte l i : Forall is_byte l -> is_byte (byte_at l i).
Proof.
  intros H. unfold byte_at. destruct (l !! Z.to_nat i) eqn:Hb; [by eapply Forall_lookup_1|done].
Qed.
