(* ===== verification/Triples.v ===== *)
(** Invariants of computations: a computation that keeps a predicate of its state,
    whether it answers or fails, and whose answer satisfies a postcondition. *)

From S2P Require Import Prelude.
From S2P Require Import Bytes.

(** Nothing is said of a panic: the program stops there. *)
Definition preserves {S E A} (I : S -> Prop) (P : A -> Prop) (m : M S E A) : Prop :=
  forall s, I s -> match m s with (Ok a, s') => P a /\ I s' | (Err _, s') => I s' | (Panic, _) => True end.
Abbreviation preserves_any I := (preserves I (fun _ => True)).

Create HintDb preserves.

(** Decide the first test of the goal. *)
Ltac on_if := match goal with |- context [if ?b then _ else _] => destruct b eqn:? end.

Section rules.
Context {S E : Type} (I : S -> Prop).

Lemma preserves_ok {A} (P : A -> Prop) (m : M S E A) s a s' : preserves I P m -> I s -> m s = (Ok a, s') -> P a /\ I s'.
Proof. intros Hm Hs H. specialize (Hm s Hs). by rewrite H in Hm. Qed.
Lemma preserves_err {A} (P : A -> Prop) (m : M S E A) s e s' : preserves I P m -> I s -> m s = (Err e, s') -> I s'.
Proof. intros Hm Hs H. specialize (Hm s Hs). by rewrite H in Hm. Qed.

Lemma preserves_bind {A B} (P : A -> Prop) (Q : B -> Prop) (m : M S E A) (f : A -> M S E B) :
  preserves I P m -> (forall a, P a -> preserves I Q (f a)) -> preserves I Q (m ≫= f).
Proof.
  intros Hm Hf s Hs. unfold mbind, M_bind. specialize (Hm s Hs). destruct (m s) as [[a|e|] s1]; [|done..].
  destruct Hm as [HP Hs1]. exact (Hf a HP s1 Hs1).
Qed.
Lemma preserves_mono {A} (P Q : A -> Prop) (m : M S E A) :
  (forall a, P a -> Q a) -> preserves I P m -> preserves I Q m.
Proof. intros HPQ Hm s Hs. specialize (Hm s Hs). destruct (m s) as [[]]; naive_solver. Qed.
Lemma preserves_seq {A B} (Q : B -> Prop) (m : M S E A) (f : A -> M S E B) :
  preserves_any I m -> (forall a, preserves I Q (f a)) -> preserves I Q (m ≫= f).
Proof. intros Hm Hf. by apply (preserves_bind (fun _ => True)). Qed.
Lemma preserves_true {A} (P : A -> Prop) (m : M S E A) : preserves I P m -> preserves_any I m.
Proof. by apply preserves_mono. Qed.
Lemma preserves_ret {A} (P : A -> Prop) (a : A) : P a -> preserves I P (mret a : M S E A).
Proof. by intros Ha s Hs. Qed.
Lemma preserves_fail {A} (P : A -> Prop) (e : E) : preserves I P (fail e : M S E A).
Proof. by intros s Hs. Qed.
Lemma preserves_lift {A} (P : A -> Prop) (o : outcome E A) :
  (forall a, o = Ok a -> P a) -> preserves I P (lift o).
Proof. intros Ho s Hs. unfold lift. destruct o; auto. Qed.
Lemma preserves_lift_any {A} (o : outcome E A) : preserves_any I (lift o).
Proof. by apply preserves_lift. Qed.
Lemma preserves_gets {A} (P : A -> Prop) (f : S -> A) : (forall s, I s -> P (f s)) -> preserves I P (gets f : M S E A).
Proof. intros Hf s Hs. by split; [apply Hf|]. Qed.
Lemma preserves_get : preserves I I (get : M S E S).
Proof. by intros s Hs. Qed.
Lemma preserves_modify (f : S -> S) : (forall s, I s -> I (f s)) -> preserves_any I (modify f : M S E unit).
Proof. intros Hf s Hs. by split; [|apply Hf]. Qed.
End rules.

(** On a part of the state, and with other errors. *)
Lemma preserves_zoom {S T E A} (I : S -> Prop) (J : T -> Prop) (P : A -> Prop) g (h : T -> S -> S) (m : M T E A) :
  (forall s, I s -> J (g s)) -> (forall s t, I s -> J t -> I (h t s)) ->
  preserves J P m -> preserves I P (zoom g h m).
Proof.
  intros Hg Hh Hm s Hs. unfold zoom. specialize (Hm (g s) (Hg s Hs)).
  destruct (m (g s)) as [[]]; naive_solver.
Qed.
Lemma preserves_with_err {S E F A} (I : S -> Prop) (P : A -> Prop) (f : E -> F) (m : M S E A) :
  preserves I P m -> preserves I P (with_err f m).
Proof. intros Hm s Hs. unfold with_err. specialize (Hm s Hs). by destruct (m s) as [[]]. Qed.
Lemma preserves_attempt {S E F A} (I : S -> Prop) (P : A -> Prop) (m : M S E A) :
  preserves I P m -> preserves I (fun r => match r with inr a => P a | inl _ => True end) (attempt m : M S F (E + A)).
Proof. intros Hm s Hs. unfold attempt. specialize (Hm s Hs). by destruct (m s) as [[]]. Qed.

(** A computation that keeps two invariants keeps both. *)
Lemma preserves_and {S E A} (I J : S -> Prop) (P Q : A -> Prop) (m : M S E A) :
  preserves I P m -> preserves J Q m -> preserves (fun s => I s /\ J s) (fun a => P a /\ Q a) m.
Proof. intros Hi Hj s [Hs Hs']. specialize (Hi s Hs). specialize (Hj s Hs'). destruct (m s) as [[]]; naive_solver. Qed.

#[export] Hint Resolve preserves_fail preserves_lift_any : preserves.
#[export] Hint Extern 1 (preserves _ _ (mret _)) => apply preserves_ret; done : preserves.
#[export] Hint Extern 2 (preserves _ (fun _ => True) (gets _)) => apply preserves_gets; done : preserves.
#[export] Hint Extern 2 (preserves _ (fun _ => True) get) => eapply preserves_true, preserves_get : preserves.
#[export] Hint Extern 2 (preserves _ (fun _ => True) (attempt _)) => eapply preserves_true, preserves_attempt : preserves.

(** Assertions that change from one step to the next: before, after an answer, and
    after an error. *)
Definition triple {S E A} (P : S -> Prop) (m : M S E A) (Q : A -> S -> Prop) (R : S -> Prop) : Prop :=
  forall s, P s -> match m s with (Ok a, s') => Q a s' | (Err _, s') => R s' | (Panic, _) => True end.

Section triples.
Context {S E : Type}.
Lemma triple_bind {A B} (P : S -> Prop) (Q : A -> S -> Prop) (Q' : B -> S -> Prop) R (m : M S E A) f :
  triple P m Q R -> (forall a, triple (Q a) (f a) Q' R) -> triple P (m ≫= f) Q' R.
Proof.
  intros Hm Hf s Hs. unfold mbind, M_bind. specialize (Hm s Hs). destruct (m s) as [[a|e|] s1]; [|done..].
  exact (Hf a s1 Hm).
Qed.
Lemma triple_preserves {A} (I : S -> Prop) (P : A -> Prop) (m : M S E A) :
  preserves I P m <-> triple I m (fun a s => P a /\ I s) I.
Proof. done. Qed.
Lemma triple_mono {A} (P P' R R' : S -> Prop) (Q Q' : A -> S -> Prop) (m : M S E A) :
  (forall s, P' s -> P s) -> (forall a s, Q a s -> Q' a s) -> (forall s, R s -> R' s) -> triple P m Q R -> triple P' m Q' R'.
Proof. intros HP HQ HR Hm s Hs. specialize (Hm s (HP s Hs)). destruct (m s) as [[]]; auto. Qed.
Lemma triple_and {A} (P P' R R' : S -> Prop) (Q Q' : A -> S -> Prop) (m : M S E A) :
  triple P m Q R -> triple P' m Q' R' ->
  triple (fun s => P s /\ P' s) m (fun a s => Q a s /\ Q' a s) (fun s => R s /\ R' s).
Proof. intros Hm Hm' s [Hs Hs']. specialize (Hm s Hs). specialize (Hm' s Hs'). destruct (m s) as [[]]; auto. Qed.
(** After a computation that keeps an assertion, which the error condition follows from. *)
Lemma triple_step {A B} (J R : S -> Prop) (P : A -> Prop) (Q : B -> S -> Prop) (m : M S E A) f :
  preserves J P m -> (forall s, J s -> R s) -> (forall a, P a -> triple J (f a) Q R) -> triple J (m ≫= f) Q R.
Proof.
  intros Hm HR Hf. eapply (triple_bind J (fun a s => P a /\ J s)).
  - by eapply triple_mono; [| | |apply triple_preserves, Hm].
  - intros a s [HP Hs]. by apply (Hf a HP).
Qed.
Lemma triple_seq {A B} (J R : S -> Prop) (Q : B -> S -> Prop) (m : M S E A) f :
  preserves_any J m -> (forall s, J s -> R s) -> (forall a, triple J (f a) Q R) -> triple J (m ≫= f) Q R.
Proof. intros Hm HR Hf. by apply (triple_step J R (fun _ => True)). Qed.
Lemma triple_assoc {A B C} (P R : S -> Prop) (Q : C -> S -> Prop) (m : M S E A) (f : A -> M S E B) g :
  triple P ((m ≫= f) ≫= g) Q R -> triple P (m ≫= fun a => f a ≫= g) Q R.
Proof. intros Hm s Hs. specialize (Hm s Hs). unfold mbind, M_bind in *. by destruct (m s) as [[]]. Qed.
Lemma triple_flat {A B C} (P R : S -> Prop) (Q : C -> S -> Prop) (m : M S E A) (f : A -> M S E B) g :
  triple P (m ≫= fun a => f a ≫= g) Q R -> triple P ((m ≫= f) ≫= g) Q R.
Proof. intros Hm s Hs. specialize (Hm s Hs). unfold mbind, M_bind in *. by destruct (m s) as [[]]. Qed.
Lemma triple_no_error {A} (P R : S -> Prop) (Q : A -> S -> Prop) (m : M S E A) :
  triple P m Q (fun _ => False) -> triple P m Q R.
Proof. intros Hm s Hs. specialize (Hm s Hs). by destruct (m s) as [[]]. Qed.
(** A step that does not fail. *)
Lemma triple_then {A B} (P R : S -> Prop) (Q : A -> S -> Prop) (Q' : B -> S -> Prop) (m : M S E A) f :
  triple P m Q (fun _ => False) -> (forall a, triple (Q a) (f a) Q' R) -> triple P (m ≫= f) Q' R.
Proof. intros Hm Hf. eapply triple_bind; [apply triple_no_error, Hm|exact Hf]. Qed.
(** What is known of the state in which a step starts. *)
Lemma triple_pure {A} (P R : S -> Prop) (H : Prop) (Q : A -> S -> Prop) (m : M S E A) :
  (H -> triple P m Q R) -> triple (fun s => H /\ P s) m Q R.
Proof. intros Hm s [HH Hs]. by apply Hm. Qed.
Lemma triple_done {A} (J R : S -> Prop) (Q : A -> S -> Prop) a :
  (forall s, J s -> Q a s) -> triple J (mret a : M S E A) Q R.
Proof. intros H s Hs. by apply H. Qed.
Lemma triple_ret {A} (Q : A -> S -> Prop) R a : triple (Q a) (mret a : M S E A) Q R.
Proof. by intros s Hs. Qed.
End triples.

(** Whatever it answers, a computation moves along [Q]. *)
Definition moving {S E A} (Q : S -> S -> Prop) (m : M S E A) : Prop := forall s r s', m s = (r, s') -> Q s s'.

Create HintDb moving.
Section moving.
Context {S E : Type} (Q : S -> S -> Prop) `{HQ : !PreOrder Q}.
Lemma moving_bind {A B} (m : M S E A) (f : A -> M S E B) : moving Q m -> (forall a, moving Q (f a)) -> moving Q (m ≫= f).
Proof.
  intros Hm Hf s r s' H. apply M_bind_inv in H as [(a & s1 & H1 & H)|[(e & H & _)|[H _]]]; [|by eapply Hm..].
  etrans; [by eapply Hm|by eapply Hf].
Qed.
Lemma moving_ret {A} (a : A) : moving (E := E) Q (mret a).
Proof. by intros s r s' [= _ <-]. Qed.
Lemma moving_fail {A} (e : E) : moving (A := A) Q (fail e).
Proof. by intros s r s' [= _ <-]. Qed.
Lemma moving_lift {A} (o : outcome E A) : moving Q (lift o).
Proof. by intros s r s' [= _ <-]. Qed.
Lemma moving_gets {A} (f : S -> A) : moving (E := E) Q (gets f).
Proof. by intros s r s' [= _ <-]. Qed.
Lemma moving_modify (f : S -> S) : (forall s, Q s (f s)) -> moving (E := E) Q (modify f).
Proof. by intros Hf s r s' [= _ <-]. Qed.
Lemma moving_attempt {F A} (m : M S E A) : moving Q m -> moving Q (attempt m : M S F (E + A)).
Proof.
  intros Hm s r s' H. unfold attempt in H. destruct (m s) as [r1 s1] eqn:H1. apply Hm in H1. by destruct r1; injection H as _ <-.
Qed.
Lemma moving_with_err {F A} (f : E -> F) (m : M S E A) : moving Q m -> moving Q (with_err f m).
Proof. intros Hm s r s' H. unfold with_err in H. destruct (m s) as [r1 s1] eqn:H1. apply Hm in H1. by injection H as _ <-. Qed.
End moving.
Lemma moving_zoom {S T E A} (Q : S -> S -> Prop) (R : T -> T -> Prop) g (h : T -> S -> S) (m : M T E A) :
  (forall s t, R (g s) t -> Q s (h t s)) -> moving R m -> moving Q (zoom g h m).
Proof.
  intros Hh Hm s r s' H. unfold zoom in H. destruct (m (g s)) as [r1 t] eqn:H1. apply Hm in H1. injection H as _ <-. by apply Hh.
Qed.
#[export] Hint Extern 1 (moving _ (mret _)) => apply moving_ret; apply _ : moving.
#[export] Hint Extern 1 (moving _ (fail _)) => apply moving_fail; apply _ : moving.
#[export] Hint Extern 1 (moving _ (lift _)) => apply moving_lift; apply _ : moving.
#[export] Hint Extern 1 (moving _ (gets _)) => apply moving_gets; apply _ : moving.
#[export] Hint Resolve moving_attempt moving_with_err : moving.

Ltac solve_moving :=
  repeat first
    [ solve [auto with moving]
    | (apply moving_bind; [apply _| |intros ?])
    | case_match ].
