(* ===== verification/Eof.v ===== *)
(** EOF containers: [crates/primitives/src/bytecode/eof.rs] and
    [eof/{decode_helpers,types_section,header,body}.rs].

    Decoding and encoding of the header and of the body, with the checks in the
    order of the source.  The arithmetic is the one of a release build: the
    [u16] product [num_sections * 2] wraps. *)

From S2P Require Import Prelude Bytes.

Inductive EofDecodeError : Type :=
  | MissingInput | MissingBodyWithoutData | DanglingData | InvalidTypesSection
  | InvalidTypesSectionSize | InvalidEOFMagicNumber | InvalidEOFVersion
  | InvalidTypesKind | InvalidCodeKind | InvalidTerminalByte | InvalidDataKind
  | InvalidKindAfterCode | MismatchCodeAndTypesSize | NonSizes
  | ShortInputForSizes | ZeroSize | TooManyCodeSections | ZeroCodeSections
  | TooManyContainerSections.

#[export] Instance EofDecodeError_eq_dec : EqDecision EofDecodeError.
Proof. solve_decision. Defined.

Abbreviation eof_outcome := (outcome EofDecodeError).

Record TypesSection : Type := mkTypesSection {
  inputs : Z;
  outputs : Z;
  max_stack_size : Z;
}.

Record EofHeader : Type := mkEofHeader {
  types_size : Z;
  code_sizes : list Z;
  container_sizes : list Z;
  data_size : Z;
  sum_code_sizes : Z;
  sum_container_sizes : Z;
}.

Record EofBody : Type := mkEofBody {
  types_section : list TypesSection;
  code_section : list bytes;
  container_section : list bytes;
  data_section : bytes;
  is_data_filled : bool;
}.

Record Eof : Type := mkEof { header : EofHeader; body : EofBody; raw : bytes }.

#[export] Instance TypesSection_eq_dec : EqDecision TypesSection.
Proof. solve_decision. Defined.
#[export] Instance EofHeader_eq_dec : EqDecision EofHeader.
Proof. solve_decision. Defined.
#[export] Instance EofBody_eq_dec : EqDecision EofBody.
Proof. solve_decision. Defined.
#[export] Instance Eof_eq_dec : EqDecision Eof.
Proof. solve_decision. Defined.

Definition KIND_TERMINAL : Z := 0.
Definition KIND_TYPES : Z := 1.
Definition KIND_CODE : Z := 2.
Definition KIND_CONTAINER : Z := 3.
Definition KIND_DATA : Z := 4.

(** ** [decode_helpers.rs] *)

Definition consume_u8 (input : bytes) : eof_outcome (bytes * Z) :=
  match input with
  | [] => Err MissingInput
  | b :: rest => Ok (rest, b)
  end.

Definition consume_u16 (input : bytes) : eof_outcome (bytes * Z) :=
  if len input <? 2 then Err MissingInput
  else match input with
       | b0 :: b1 :: rest => Ok (rest, from_be_bytes [b0; b1])
       | _ => Panic
       end.

(** ** [types_section.rs] *)

Definition TypesSection_io_diff (t : TypesSection) : Z := outputs t - inputs t.

Definition TypesSection_encode (t : TypesSection) : bytes :=
  [inputs t; outputs t] ++ to_be_bytes 2 (max_stack_size t).

Definition TypesSection_validate (t : TypesSection) : eof_outcome unit :=
  if (127 <? inputs t) || (128 <? outputs t) || (1023 <? max_stack_size t)
  then Err InvalidTypesSection
  else if max_stack_size t <? inputs t then Err InvalidTypesSection
  else Ok tt.

Definition TypesSection_decode (input : bytes) : eof_outcome (TypesSection * bytes) :=
  '(input, inputs) ← consume_u8 input;
  '(input, outputs) ← consume_u8 input;
  '(input, max_stack_size) ← consume_u16 input;
  let section := mkTypesSection inputs outputs max_stack_size in
  _ ← TypesSection_validate section;
  Ok (section, input).

(** ** [header.rs] *)

(** The loop [for i in 0..num_sections]; [input[i * 2]] panics out of range. *)
Fixpoint read_sizes (input : bytes) (n : nat) (i : Z) (sizes : list Z) (sum : Z)
  : eof_outcome (list Z * Z) :=
  match n with
  | O => Ok (sizes, sum)
  | S n =>
      hi ← index input (i * 2);
      lo ← index input (i * 2 + 1);
      let code_size := from_be_bytes [hi; lo] in
      if code_size =? 0 then Err ZeroSize
      else read_sizes input n (i + 1) (sizes ++ [code_size]) (sum + code_size)
  end.

Definition consume_header_section_size (input : bytes)
  : eof_outcome (bytes * list Z * Z) :=
  '(input, num_sections) ← consume_u16 input;
  if num_sections =? 0 then Err NonSizes
  else
    let byte_size := wrapping_mul 16 num_sections 2 in
    if len input <? byte_size then Err ShortInputForSizes
    else
      '(sizes, sum) ← read_sizes input (Z.to_nat num_sections) 0 [] 0;
      rest ← slice_from input byte_size;
      Ok (rest, sizes, sum).

Definition EofHeader_size (h : EofHeader) : Z :=
  let optional_container_sizes :=
    match container_sizes h with
    | [] => 0
    | _ => 3 + len (container_sizes h) * 2
    end in
  13 + len (code_sizes h) * 2 + optional_container_sizes.

Definition types_count (h : EofHeader) : Z := types_size h / 4.

Definition body_size (h : EofHeader) : Z :=
  sum_code_sizes h + sum_container_sizes h + data_size h.

Definition eof_size (h : EofHeader) : Z := EofHeader_size h + body_size h.

Definition encode_sizes (sizes : list Z) : bytes :=
  to_be_bytes 2 (cast 16 (len sizes)) ++ concat (map (to_be_bytes 2) sizes).

Definition EofHeader_encode (h : EofHeader) : bytes :=
  to_be_bytes 2 61184 (* 0xEF00 *) ++ [1] ++ [KIND_TYPES]
  ++ to_be_bytes 2 (types_size h)
  ++ [KIND_CODE] ++ encode_sizes (code_sizes h)
  ++ match container_sizes h with
     | [] => [KIND_DATA]
     | _ => [KIND_CONTAINER] ++ encode_sizes (container_sizes h) ++ [KIND_DATA]
     end
  ++ to_be_bytes 2 (data_size h) ++ [KIND_TERMINAL].

Definition EofHeader_decode (input : bytes) : eof_outcome (EofHeader * bytes) :=
  '(input, kind) ← consume_u16 input;
  if negb (kind =? 61184) then Err InvalidEOFMagicNumber else
  '(input, version) ← consume_u8 input;
  if negb (version =? 1) then Err InvalidEOFVersion else
  '(input, kind_types) ← consume_u8 input;
  if negb (kind_types =? KIND_TYPES) then Err InvalidTypesKind else
  '(input, types_size) ← consume_u16 input;
  if negb (types_size mod 4 =? 0) then Err InvalidTypesSection else
  '(input, kind_code) ← consume_u8 input;
  if negb (kind_code =? KIND_CODE) then Err InvalidCodeKind else
  '(input, sizes, sum) ← consume_header_section_size input;
  if 1024 <? len sizes then Err TooManyCodeSections else
  if len sizes =? 0 then Err ZeroCodeSections else
  if negb (len sizes =? types_size / 4) then Err MismatchCodeAndTypesSize else
  '(input, kind_container_or_data) ← consume_u8 input;
  '(input, c_sizes, c_sum) ←
    (if kind_container_or_data =? KIND_CONTAINER then
       '(input, c_sizes, c_sum) ← consume_header_section_size input;
       if 256 <? len c_sizes then Err TooManyContainerSections else
       '(input, kind_data) ← consume_u8 input;
       if negb (kind_data =? KIND_DATA) then Err InvalidDataKind
       else Ok (input, c_sizes, c_sum)
     else if kind_container_or_data =? KIND_DATA then Ok (input, [], 0)
     else Err InvalidKindAfterCode);
  '(input, data_size) ← consume_u16 input;
  '(input, terminator) ← consume_u8 input;
  if negb (terminator =? KIND_TERMINAL) then Err InvalidTerminalByte else
  Ok (mkEofHeader types_size sizes c_sizes data_size sum c_sum, input).

(** ** [body.rs] *)

Definition EofBody_code (b : EofBody) (i : nat) : option bytes := code_section b !! i.

Definition sum_len (l : list bytes) : Z := foldr (fun b acc => len b + acc) 0 l.

Definition EofBody_encode (b : EofBody) : bytes :=
  concat (map TypesSection_encode (types_section b))
  ++ concat (code_section b) ++ concat (container_section b) ++ data_section b.

Definition EofBody_into_eof (b : EofBody) : Eof :=
  let header := mkEofHeader
    (wrapping_mul 16 (cast 16 (len (types_section b))) 4)
    (map (fun x => cast 16 (len x)) (code_section b))
    (map (fun x => cast 16 (len x)) (container_section b))
    (cast 16 (len (data_section b)))
    (sum_len (code_section b))
    (sum_len (container_section b)) in
  mkEof header b (EofHeader_encode header ++ EofBody_encode b).

Fixpoint decode_types (n : nat) (input : bytes) : eof_outcome (list TypesSection) :=
  match n with
  | O => Ok []
  | S n =>
      '(section, input) ← TypesSection_decode input;
      rest ← decode_types n input;
      Ok (section :: rest)
  end.

(** The two slicing loops of the body: one section of [input] per size. *)
Fixpoint slice_sections (input : bytes) (start : Z) (sizes : list Z)
  : eof_outcome (list bytes * Z) :=
  match sizes with
  | [] => Ok ([], start)
  | size :: sizes =>
      s ← slice input start (start + size);
      '(rest, stop) ← slice_sections input (start + size) sizes;
      Ok (s :: rest, stop)
  end.

Definition EofBody_decode (input : bytes) (h : EofHeader) : eof_outcome EofBody :=
  let header_len := EofHeader_size h in
  let partial_body_len := sum_code_sizes h + sum_container_sizes h + types_size h in
  let full_body_len := partial_body_len + data_size h in
  if len input <? header_len + partial_body_len then Err MissingBodyWithoutData else
  if header_len + full_body_len <? len input then Err DanglingData else
  types_input ← slice_from input header_len;
  types ← decode_types (Z.to_nat (types_count h)) types_input;
  let start := header_len + types_size h in
  '(code, start) ← slice_sections input start (code_sizes h);
  '(containers, start) ← slice_sections input start (container_sizes h);
  data ← slice_from input start;
  Ok (mkEofBody types code containers data (len data =? data_size h)).

(** ** [eof.rs] *)

Definition Eof_size (e : Eof) : Z := EofHeader_size (header e) + body_size (header e).

Definition Eof_data_slice (e : Eof) (offset n : Z) : bytes :=
  if len (data_section (body e)) <? offset then []
  else let d := drop (Z.to_nat offset) (data_section (body e)) in
       take (Z.to_nat (Z.min n (len d))) d.

Definition Eof_encode_slow (e : Eof) : bytes :=
  EofHeader_encode (header e) ++ EofBody_encode (body e).

Definition Eof_decode (raw : bytes) : eof_outcome Eof :=
  '(header, _) ← EofHeader_decode raw;
  body ← EofBody_decode raw header;
  Ok (mkEof header body raw).

Definition Eof_default : Eof :=
  EofBody_into_eof
    (mkEofBody [mkTypesSection 0 0 0] [[0]] [] [] true).

(** ** Well-formed headers *)

Definition sum_sizes (l : list Z) : Z := foldr Z.add 0 l.

Definition valid_size (s : Z) : Prop := 1 <= s < 65536.

(** What EIP-3540 asks of a header, with the redundant sums consistent. *)
Record valid_header (h : EofHeader) : Prop := {
  vh_types : types_size h = 4 * len (code_sizes h);
  vh_types_fit : fits 16 (types_size h);
  vh_code : 1 <= len (code_sizes h) <= 1024;
  vh_code_sizes : Forall valid_size (code_sizes h);
  vh_containers : len (container_sizes h) <= 256;
  vh_container_sizes : Forall valid_size (container_sizes h);
  vh_data : fits 16 (data_size h);
  vh_sum_code : sum_code_sizes h = sum_sizes (code_sizes h);
  vh_sum_container : sum_container_sizes h = sum_sizes (container_sizes h);
}.

(** ** Lemmas *)

Lemma consume_u8_cons b rest : consume_u8 (b :: rest) = Ok (rest, b).
Proof. done. Qed.

Lemma consume_u8_inv input rest b : consume_u8 input = Ok (rest, b) -> input = b :: rest.
Proof. destruct input; intros H; by simplify_eq/=. Qed.

Lemma consume_u16_ok z rest : fits 16 z -> consume_u16 (to_be_bytes 2 z ++ rest) = Ok (rest, z).
Proof.
  intros Hz. unfold fits in Hz. unfold consume_u16.
  rewrite len_app, len_to_be_bytes. pose proof (len_nonneg rest).
  destruct (Z.ltb_spec (Z.of_nat 2 + len rest) 2); [lia|]. simpl.
  f_equal. f_equal.
  change (from_be_bytes (to_be_bytes 2 z) = z). apply from_to_be_bytes_id. simpl. lia.
Qed.

Lemma consume_u16_inv input rest z :
  Forall is_byte input -> consume_u16 input = Ok (rest, z) ->
  input = to_be_bytes 2 z ++ rest /\ fits 16 z /\ Forall is_byte rest.
Proof.
  intros Hin. unfold consume_u16. destruct (len input <? 2); [done|].
  destruct input as [|b0 [|b1 tl]]; intros H; simplify_eq.
  apply Forall_cons in Hin as [H0 [H1 Hr]%Forall_cons].
  assert (Hb : Forall is_byte [b0; b1]) by (repeat constructor; apply H0 || apply H1).
  split; [|split; [|done]].
  - pose proof (to_from_be_bytes _ Hb) as Heq. cbn [length] in Heq. by rewrite Heq.
  - apply (from_be_bytes_bound _ Hb).
Qed.

Lemma length_encoded sizes :
  length (concat (map (to_be_bytes 2) sizes)) = (2 * length sizes)%nat.
Proof.
  induction sizes as [|s l IH]; [done|].
  cbn [map concat length]. rewrite length_app, length_to_be_bytes, IH. lia.
Qed.

(** One step of the loop over a list that starts with [2 * i] bytes already read. *)
Lemma index_pair pre z rest :
  fits 16 z ->
  exists hi lo, from_be_bytes [hi; lo] = z /\
    index (E := EofDecodeError) (pre ++ to_be_bytes 2 z ++ rest) (len pre) = Ok hi /\
    index (E := EofDecodeError) (pre ++ to_be_bytes 2 z ++ rest) (len pre + 1) = Ok lo.
Proof.
  intros Hz. exists (z / 256 mod 256), (z mod 256). split; [|split].
  - change (from_be_bytes (to_be_bytes 2 z) = z). by apply from_to_be_bytes_id.
  - unfold index, len. destruct (Z.leb_spec 0 (Z.of_nat (length pre))); [|lia].
    rewrite Nat2Z.id. by rewrite lookup_app_r, Nat.sub_diag by lia.
  - unfold index, len. destruct (Z.leb_spec 0 (Z.of_nat (length pre) + 1)); [|lia].
    rewrite lookup_app_r by lia. by replace (Z.to_nat _ - _)%nat with 1%nat by lia.
Qed.

Lemma read_sizes_encoded done todo rest sizes sum :
  Forall valid_size todo ->
  read_sizes (concat (map (to_be_bytes 2) done) ++ concat (map (to_be_bytes 2) todo) ++ rest)
    (length todo) (len done) sizes sum
  = Ok (sizes ++ todo, sum + sum_sizes todo).
Proof.
  revert done sizes sum. induction todo as [|z todo IH]; intros done sizes sum Hv.
  - simpl. by rewrite app_nil_r, Z.add_0_r.
  - apply Forall_cons in Hv as [Hz Hv]. unfold valid_size in Hz.
    set (pre := concat (map (to_be_bytes 2) done)).
    assert (Hlen : len done * 2 = len pre).
    { unfold len, pre. rewrite length_encoded. lia. }
    cbn [map concat]. rewrite <- app_assoc.
    destruct (index_pair pre z (concat (map (to_be_bytes 2) todo) ++ rest))
      as (hi & lo & Hval & Hhi & Hlo); [unfold fits; lia|].
    cbn [length read_sizes]. rewrite Hlen, Hhi, Hlo. cbn [mbind outcome_bind].
    rewrite Hval. destruct (Z.eqb_spec z 0); [lia|].
    replace (len done + 1) with (len (done ++ [z])) by (unfold len; rewrite length_app; simpl; lia).
    specialize (IH (done ++ [z]) (sizes ++ [z]) (sum + z) Hv).
    rewrite map_app, concat_app in IH. cbn [map concat] in IH.
    rewrite app_nil_r, <- app_assoc in IH. fold pre in IH. rewrite IH.
    rewrite <- app_assoc. simpl. do 2 f_equal. lia.
Qed.

Lemma consume_sizes_ok sizes rest :
  1 <= len sizes <= 1024 -> Forall valid_size sizes ->
  consume_header_section_size (encode_sizes sizes ++ rest) = Ok (rest, sizes, sum_sizes sizes).
Proof.
  intros Hlen Hv. unfold consume_header_section_size, encode_sizes.
  rewrite cast_fits by (unfold fits; lia).
  rewrite <- app_assoc, consume_u16_ok by (unfold fits; lia). cbn [mbind outcome_bind].
  destruct (Z.eqb_spec (len sizes) 0); [lia|].
  assert (Hw : wrapping_mul 16 (len sizes) 2 = 2 * len sizes).
  { unfold wrapping_mul. rewrite Z.mod_small; lia. }
  rewrite Hw, len_app.
  assert (He : len (concat (map (to_be_bytes 2) sizes)) = 2 * len sizes).
  { unfold len. rewrite length_encoded. lia. }
  rewrite He. pose proof (len_nonneg rest).
  destruct (Z.ltb_spec (2 * len sizes + len rest) (2 * len sizes)); [lia|].
  replace (Z.to_nat (len sizes)) with (length sizes) by (unfold len; lia).
  pose proof (read_sizes_encoded [] sizes rest [] 0 Hv) as Hr.
  cbn [map concat app] in Hr. change (len (@nil Z)) with 0 in Hr.
  rewrite Hr. cbn [mbind outcome_bind].
  unfold slice_from. rewrite len_app, He.
  destruct (Z.leb_spec 0 (2 * len sizes)); [|lia].
  destruct (Z.leb_spec (2 * len sizes) (2 * len sizes + len rest)); [|lia]. simpl.
  rewrite drop_app_length'; [done|]. rewrite length_encoded. unfold len. lia.
Qed.

(** Encoding and then decoding a header gives it back, with the rest of the
    input untouched. *)
Lemma header_decode_encode_aux h rest :
  valid_header h -> EofHeader_decode (EofHeader_encode h ++ rest) = Ok (h, rest).
Proof.
  intros [Ht Htf Hc Hcs Hk Hks Hd Hsc Hsk].
  destruct h as [ts cs ks ds sc sk]; cbn [types_size code_sizes container_sizes data_size
    sum_code_sizes sum_container_sizes] in *.
  unfold EofHeader_encode, EofHeader_decode.
  cbn [types_size code_sizes container_sizes data_size]. rewrite <- !app_assoc.
  rewrite consume_u16_ok by done. cbn [mbind outcome_bind].
  change (61184 =? 61184) with true. cbn [negb app consume_u8 mbind outcome_bind].
  change (1 =? 1) with true. cbn [negb]. change (KIND_TYPES =? KIND_TYPES) with true. cbn [negb].
  rewrite consume_u16_ok by done. cbn [mbind outcome_bind].
  assert (Hm : ts mod 4 = 0) by (subst ts; rewrite Z.mul_comm; apply Z.mod_mul; lia).
  assert (Hq : ts / 4 = len cs) by (subst ts; rewrite Z.mul_comm; apply Z.div_mul; lia).
  rewrite Hm, Hq. cbn [Z.eqb negb consume_u8 mbind outcome_bind].
  change (KIND_CODE =? KIND_CODE) with true. cbn [negb].
  rewrite consume_sizes_ok by done. cbn [mbind outcome_bind].
  destruct (Z.ltb_spec 1024 (len cs)); [lia|]. destruct (Z.eqb_spec (len cs) 0); [lia|].
  rewrite Z.eqb_refl. cbn [negb].
  assert (Hks' : ks = [] \/ 1 <= len ks).
  { destruct ks; [by left|right; rewrite len_cons; pose proof (len_nonneg ks); lia]. }
  destruct ks as [|k ks].
  - cbn [app consume_u8 mbind outcome_bind].
    change (KIND_DATA =? KIND_CONTAINER) with false. change (KIND_DATA =? KIND_DATA) with true.
    cbn [mbind outcome_bind]. rewrite consume_u16_ok by done. cbn [mbind outcome_bind consume_u8].
    change (KIND_TERMINAL =? KIND_TERMINAL) with true. cbn [negb].
    simpl in Hsk. by subst.
  - destruct Hks' as [?|Hks']; [done|].
    cbn [app consume_u8 mbind outcome_bind]. rewrite <- ?app_assoc.
    change (KIND_CONTAINER =? KIND_CONTAINER) with true. cbv iota.
    rewrite consume_sizes_ok by (done || lia). cbn [mbind outcome_bind].
    destruct (Z.ltb_spec 256 (len (k :: ks))); [lia|]. cbn [app consume_u8 mbind outcome_bind].
    change (KIND_DATA =? KIND_DATA) with true. cbn [negb mbind outcome_bind].
    rewrite consume_u16_ok by done. cbn [mbind outcome_bind consume_u8].
    change (KIND_TERMINAL =? KIND_TERMINAL) with true. cbn [negb]. by subst.
Qed.

Lemma index_cons_2 (pre : bytes) b0 b1 (rest : bytes) i b b' :
  i * 2 = len pre ->
  index (E := EofDecodeError) (pre ++ b0 :: b1 :: rest) (i * 2) = Ok b ->
  index (E := EofDecodeError) (pre ++ b0 :: b1 :: rest) (i * 2 + 1) = Ok b' ->
  b = b0 /\ b' = b1.
Proof.
  intros Hi. rewrite Hi. unfold index, len.
  destruct (Z.leb_spec 0 (Z.of_nat (length pre))); [|lia].
  destruct (Z.leb_spec 0 (Z.of_nat (length pre) + 1)); [|lia].
  rewrite !lookup_app_r by lia. rewrite Nat2Z.id, Nat.sub_diag.
  replace (Z.to_nat _ - _)%nat with 1%nat by lia. simpl. by intros [= ->] [= ->].
Qed.

(** The loop reads the sizes its input starts with, when it does not panic. *)
Lemma read_sizes_inv input n pre rest i sizes sum sizes' sum' :
  Forall is_byte rest -> input = pre ++ rest -> i * 2 = len pre ->
  read_sizes input n i sizes sum = Ok (sizes', sum') ->
  exists todo rest', length todo = n /\ Forall valid_size todo /\
    rest = concat (map (to_be_bytes 2) todo) ++ rest' /\
    sizes' = sizes ++ todo /\ sum' = sum + sum_sizes todo.
Proof.
  revert pre rest i sizes sum. induction n as [|n IH]; intros pre rest i sizes sum Hb Hin Hi H.
  - simpl in H. simplify_eq. exists [], rest. rewrite app_nil_r. simpl. auto using Z.add_0_r.
  - cbn [read_sizes] in H. inv_bind H.
    destruct rest as [|b0 [|b1 rest]].
    + exfalso. subst input. rewrite app_nil_r in *. unfold index, len in *.
      destruct (0 <=? i * 2); [|done].
      rewrite (lookup_ge_None_2 pre (Z.to_nat (i * 2))) in * by lia. done.
    + exfalso. subst input. unfold index, len in *.
      destruct (0 <=? i * 2 + 1); [|done].
      rewrite (lookup_ge_None_2 (pre ++ [b0]) (Z.to_nat (i * 2 + 1))) in *; [done|].
      rewrite length_app. simpl. lia.
    + subst input. destruct (index_cons_2 pre b0 b1 rest i x x0) as [-> ->]; [done..|].
      apply Forall_cons in Hb as [Hb0 [Hb1 Hb]%Forall_cons].
      destruct (Z.eqb_spec (from_be_bytes [b0; b1]) 0) as [|Hnz]; [done|].
      assert (Hbb : Forall is_byte [b0; b1]) by (repeat constructor; apply Hb0 || apply Hb1).
      apply (IH (pre ++ [b0; b1]) rest) in H; [|done|by rewrite <- app_assoc|].
      2: { rewrite len_app. change (len [b0; b1]) with 2. lia. }
      destruct H as (todo & rest' & Hl & Hv & -> & -> & ->).
      exists (from_be_bytes [b0; b1] :: todo), rest'.
      pose proof (from_be_bytes_bound _ Hbb) as Hbd. change (256 ^ len [b0; b1]) with 65536 in Hbd.
      split; [simpl; lia|]. split; [constructor; [unfold valid_size; lia|done]|].
      cbn [map concat]. pose proof (to_from_be_bytes _ Hbb) as Heq. cbn [length] in Heq.
      rewrite Heq. split; [done|]. rewrite <- app_assoc. split; [done|]. simpl. lia.
Qed.

Lemma consume_sizes_inv input rest sizes sum :
  Forall is_byte input -> len sizes <= 1024 ->
  consume_header_section_size input = Ok (rest, sizes, sum) ->
  input = encode_sizes sizes ++ rest /\ 1 <= len sizes /\ Forall valid_size sizes /\
  sum = sum_sizes sizes /\ Forall is_byte rest.
Proof.
  intros Hb Hlen H. unfold consume_header_section_size in H. inv_bind H.
  destruct x as [input1 num]. apply consume_u16_inv in Hx as (-> & Hnum & Hb1); [|done].
  destruct (Z.eqb_spec num 0) as [|Hnz]; [done|].
  destruct (len input1 <? wrapping_mul 16 num 2) eqn:Hshort; [done|].
  inv_bind H. destruct x as [sizes' sum']. inv_bind H. simplify_eq.
  apply (read_sizes_inv input1 (Z.to_nat num) [] input1) in Hx as
    (todo & rest' & Hl & Hv & Heq & Hs & Hsum); [|done..].
  simpl in Hs. subst sizes sum input1. unfold fits in Hnum.
  assert (Hn : num = len todo) by (unfold len; lia).
  assert (Hw : wrapping_mul 16 num 2 = 2 * len todo).
  { unfold wrapping_mul. rewrite Z.mod_small; lia. }
  rewrite Hw in *. unfold slice_from in Hx0.
  destruct (_ && _); [|done]. simplify_eq.
  rewrite drop_app_length' by (rewrite length_encoded; unfold len; lia).
  apply Forall_app in Hb1 as [_ Hb1].
  unfold encode_sizes. rewrite cast_fits by (unfold fits; lia).
  rewrite <- app_assoc. split; [done|]. split; [|done]. pose proof (len_nonneg todo). lia.
Qed.

Ltac inv_check H :=
  match type of H with
  | (if negb (?a =? ?b) then Err _ else _) = Ok _ =>
      destruct (Z.eqb_spec a b); cbn [negb] in H; [|discriminate H]
  | (if ?a <? ?b then Err _ else _) = Ok _ =>
      destruct (Z.ltb_spec a b); [discriminate H|]
  | (if ?a =? ?b then Err _ else _) = Ok _ =>
      destruct (Z.eqb_spec a b); [discriminate H|]
  end.

(** The part of the header between the code sizes and the data size. *)
Lemma container_part_inv kind input input' c_sizes c_sum :
  Forall is_byte input ->
  (if kind =? KIND_CONTAINER then
     '(input, c_sizes, c_sum) ← consume_header_section_size input;
     if 256 <? len c_sizes then Err TooManyContainerSections else
     '(input, kind_data) ← consume_u8 input;
     if negb (kind_data =? KIND_DATA) then Err InvalidDataKind
     else Ok (input, c_sizes, c_sum)
   else if kind =? KIND_DATA then Ok (input, [], 0)
   else Err InvalidKindAfterCode) = Ok (input', c_sizes, c_sum) ->
  kind :: input =
    (match c_sizes with
     | [] => [KIND_DATA]
     | _ => [KIND_CONTAINER] ++ encode_sizes c_sizes ++ [KIND_DATA]
     end) ++ input' /\
  len c_sizes <= 256 /\ Forall valid_size c_sizes /\ c_sum = sum_sizes c_sizes /\
  Forall is_byte input'.
Proof.
  intros Hb H. destruct (Z.eqb_spec kind KIND_CONTAINER) as [->|].
  - inv_bind H. destruct x as [[in1 cs] cm]. inv_check H. inv_bind H. destruct x as [in2 kd].
    inv_check H. simplify_eq.
    apply consume_sizes_inv in Hx as (-> & Hl & Hv & -> & Hb1); [|done|lia].
    apply consume_u8_inv in Hx0 as ->. apply Forall_cons in Hb1 as [_ Hb1].
    split; [|done]. destruct c_sizes; [by rewrite len_nil in Hl|]. cbn [app].
    by rewrite <- app_assoc.
  - destruct (Z.eqb_spec kind KIND_DATA) as [->|]; [|done]. simplify_eq.
    split; [done|]. split; [done|]. auto.
Qed.

Lemma header_encode_decode_aux input h rest :
  Forall is_byte input -> EofHeader_decode input = Ok (h, rest) ->
  input = EofHeader_encode h ++ rest /\ valid_header h /\ Forall is_byte rest.
Proof.
  intros Hb H. unfold EofHeader_decode in H.
  inv_bind H. destruct x as [in1 magic]. apply consume_u16_inv in Hx as (-> & Hm & Hb1); [|done].
  inv_check H. inv_bind H. destruct x as [in2 version]. apply consume_u8_inv in Hx as ->.
  inv_check H. inv_bind H. destruct x as [in3 kt]. apply consume_u8_inv in Hx as ->.
  inv_check H. inv_bind H. destruct x as [in4 ts]. rewrite !Forall_cons in Hb1.
  apply consume_u16_inv in Hx as (-> & Hts & Hb4); [|tauto].
  inv_check H. inv_bind H. destruct x as [in5 kc]. apply consume_u8_inv in Hx as ->.
  inv_check H. inv_bind H. destruct x as [[in6 cs] csum]. rewrite Forall_cons in Hb4.
  inv_check H. inv_check H. inv_check H.
  apply consume_sizes_inv in Hx as (-> & Hl & Hv & -> & Hb6); [|tauto|lia].
  inv_bind H. destruct x as [in7 kcd]. apply consume_u8_inv in Hx as ->.
  inv_bind H. destruct x as [[in8 ks] ksum]. rewrite Forall_cons in Hb6.
  apply container_part_inv in Hx as (Heq & Hkl & Hkv & -> & Hb8); [|tauto].
  inv_bind H. destruct x as [in9 ds]. apply consume_u16_inv in Hx as (-> & Hds & Hb9); [|done].
  inv_bind H. destruct x as [in10 tm]. apply consume_u8_inv in Hx as ->.
  inv_check H. simplify_eq. apply Forall_cons in Hb9 as [_ Hb9].
  split; [|split; [|done]].
  - unfold EofHeader_encode. cbn [types_size code_sizes container_sizes data_size].
    rewrite <- !app_assoc. rewrite Heq. done.
  - split; cbn [types_size code_sizes container_sizes data_size sum_code_sizes
      sum_container_sizes]; try done.
    pose proof (Z.div_mod ts 4). lia.
Qed.

(** *** Bodies *)

Definition valid_types (t : TypesSection) : Prop :=
  0 <= inputs t <= 127 /\ 0 <= outputs t <= 128 /\ inputs t <= max_stack_size t <= 1023.

Lemma TypesSection_decode_encode t rest :
  valid_types t -> TypesSection_decode (TypesSection_encode t ++ rest) = Ok (t, rest).
Proof.
  intros (Hi & Ho & Hm). unfold TypesSection_decode, TypesSection_encode.
  rewrite <- app_assoc. cbn [app consume_u8 mbind outcome_bind].
  rewrite consume_u16_ok by (unfold fits; lia). cbn [mbind outcome_bind].
  unfold TypesSection_validate. cbn [inputs outputs max_stack_size].
  destruct (Z.ltb_spec 127 (inputs t)); [lia|]. destruct (Z.ltb_spec 128 (outputs t)); [lia|].
  destruct (Z.ltb_spec 1023 (max_stack_size t)); [lia|].
  destruct (Z.ltb_spec (max_stack_size t) (inputs t)); [lia|]. simpl. by destruct t.
Qed.

Lemma TypesSection_decode_inv input t rest :
  Forall is_byte input -> TypesSection_decode input = Ok (t, rest) ->
  input = TypesSection_encode t ++ rest /\ valid_types t /\ Forall is_byte rest.
Proof.
  intros Hb H. unfold TypesSection_decode in H.
  inv_bind H. destruct x as [in1 i]. apply consume_u8_inv in Hx as ->.
  inv_bind H. destruct x as [in2 o]. apply consume_u8_inv in Hx as ->.
  rewrite !Forall_cons in Hb. destruct Hb as (Hi & Ho & Hb). unfold is_byte in *.
  inv_bind H. destruct x as [in3 m]. apply consume_u16_inv in Hx as (-> & Hm & Hb3); [|done].
  inv_bind H. simplify_eq. unfold TypesSection_validate in Hx.
  cbn [inputs outputs max_stack_size] in *.
  destruct (Z.ltb_spec 127 i); [done|]. destruct (Z.ltb_spec 128 o); [done|].
  destruct (Z.ltb_spec 1023 m); [done|]. cbn [orb] in Hx.
  destruct (Z.ltb_spec m i); [done|]. split; [done|]. split; [|done].
  unfold valid_types, fits in *. simpl. lia.
Qed.

Lemma decode_types_encode ts rest :
  Forall valid_types ts ->
  decode_types (length ts) (concat (map TypesSection_encode ts) ++ rest) = Ok ts.
Proof.
  induction ts as [|t ts IH]; intros Hv; [done|].
  apply Forall_cons in Hv as [Ht Hv]. cbn [map concat length decode_types].
  rewrite <- app_assoc, TypesSection_decode_encode by done. cbn [mbind outcome_bind].
  by rewrite IH.
Qed.

Lemma decode_types_inv n input ts :
  Forall is_byte input -> decode_types n input = Ok ts ->
  exists rest, input = concat (map TypesSection_encode ts) ++ rest /\ length ts = n /\
    Forall valid_types ts.
Proof.
  revert input ts. induction n as [|n IH]; intros input ts Hb H; cbn [decode_types] in H.
  - simplify_eq. by exists input.
  - inv_bind H. destruct x as [t in1]. apply TypesSection_decode_inv in Hx as (-> & Ht & Hb1); [|done].
    inv_bind H. simplify_eq. apply IH in Hx as (rest & -> & Hl & Hv); [|done].
    exists rest. cbn [map concat length]. rewrite <- app_assoc. auto.
Qed.

Lemma len_TypesSection_encode t : len (TypesSection_encode t) = 4.
Proof. unfold TypesSection_encode. by rewrite len_app, len_to_be_bytes. Qed.

Lemma len_types ts : len (concat (map TypesSection_encode ts)) = 4 * len ts.
Proof.
  induction ts as [|t ts IH]; [done|]. cbn [map concat].
  rewrite len_app, IH, len_TypesSection_encode, len_cons. lia.
Qed.

Lemma len_encode_sizes sizes : len (encode_sizes sizes) = 2 + 2 * len sizes.
Proof.
  unfold encode_sizes. rewrite len_app, len_to_be_bytes. unfold len. rewrite length_encoded. lia.
Qed.

(** [EofHeader::size] is the length of what [EofHeader::encode] writes. *)
Lemma len_EofHeader_encode h : len (EofHeader_encode h) = EofHeader_size h.
Proof.
  unfold EofHeader_encode, EofHeader_size. rewrite !len_app, !len_to_be_bytes, len_encode_sizes.
  destruct (container_sizes h).
  - rewrite !len_cons, len_nil. lia.
  - rewrite !len_app, len_encode_sizes, !len_cons, len_nil. lia.
Qed.

Lemma sum_len_sizes (secs : list bytes) : sum_len secs = sum_sizes (map len secs).
Proof. induction secs as [|s l IH]; simpl; [done|]. by rewrite IH. Qed.

Lemma len_concat (secs : list bytes) : len (concat secs) = sum_sizes (map len secs).
Proof. induction secs as [|s l IH]; simpl; [done|]. by rewrite len_app, IH. Qed.

(** The slicing loop cuts [concat secs] back into [secs]. *)
Lemma slice_sections_ok (secs : list bytes) pre rest :
  slice_sections (pre ++ concat secs ++ rest) (len pre) (map len secs)
  = Ok (secs, len pre + len (concat secs)).
Proof.
  revert pre. induction secs as [|s secs IH]; intros pre; cbn [map slice_sections concat].
  - by rewrite len_nil, Z.add_0_r.
  - unfold slice. rewrite <- app_assoc, !len_app.
    pose proof (len_nonneg pre); pose proof (len_nonneg s); pose proof (len_nonneg rest).
    pose proof (len_nonneg (concat secs)).
    destruct (Z.leb_spec 0 (len pre)); [|lia].
    destruct (Z.leb_spec (len pre) (len pre + len s)); [|lia].
    destruct (Z.leb_spec (len pre + len s) (len pre + (len s + (len (concat secs) + len rest)))); [|lia].
    cbn [andb mbind outcome_bind].
    rewrite drop_app_length' by (unfold len; lia).
    rewrite take_app_length' by (unfold len; lia).
    specialize (IH (pre ++ s)). rewrite <- app_assoc, len_app in IH. rewrite IH.
    cbn [mbind outcome_bind]. by rewrite Z.add_assoc.
Qed.

Lemma slice_sections_inv input start sizes secs stop :
  slice_sections input start sizes = Ok (secs, stop) -> 0 <= start ->
  Forall (fun s => 0 <= s) sizes ->
  drop (Z.to_nat start) input = concat secs ++ drop (Z.to_nat stop) input /\
  stop = start + sum_sizes sizes.
Proof.
  revert start secs. induction sizes as [|s sizes IH]; intros start secs H Hs Hp;
    cbn [slice_sections] in H.
  - simplify_eq. simpl. split; [done|lia].
  - inv_bind H. destruct x0 as [rest stop']. simplify_eq.
    apply Forall_cons in Hp as [Hs0 Hp].
    apply IH in Hx0 as [Hd ->]; [|lia|done]. simpl. split; [|lia].
    unfold slice in Hx. destruct (_ && _ && _); [|done]. simplify_eq.
    rewrite <- app_assoc, <- Hd.
    replace (Z.to_nat (start + s)) with (Z.to_nat start + Z.to_nat s)%nat by lia.
    rewrite <- drop_drop. replace (start + s - start) with s by lia. by rewrite take_drop.
Qed.

(** ** The container round trips *)

(** A body [EofBody::into_eof] can encode: every section fits its 16-bit size. *)
Record valid_body (b : EofBody) : Prop := {
  vb_types : length (types_section b) = length (code_section b);
  vb_types_valid : Forall valid_types (types_section b);
  vb_code : 1 <= len (code_section b) <= 1024;
  vb_code_sizes : Forall (fun s => valid_size (len s)) (code_section b);
  vb_containers : len (container_section b) <= 256;
  vb_container_sizes : Forall (fun s => valid_size (len s)) (container_section b);
  vb_data : fits 16 (len (data_section b));
  vb_filled : is_data_filled b = true;
}.

Lemma map_cast_len secs :
  Forall (fun s : bytes => valid_size (len s)) secs ->
  map (fun x : bytes => cast 16 (len x)) secs = map len secs.
Proof.
  induction 1 as [|s l Hs Hl IH]; [done|]. cbn [map].
  rewrite cast_fits by (unfold fits, valid_size in *; lia). by rewrite IH.
Qed.

Lemma valid_body_header b : valid_body b -> valid_header (header (EofBody_into_eof b)).
Proof.
  intros [Ht Htv Hc Hcs Hk Hks Hd Hf].
  assert (Hlt : len (types_section b) = len (code_section b)) by (unfold len; lia).
  assert (Hts : wrapping_mul 16 (cast 16 (len (types_section b))) 4 = 4 * len (code_section b)).
  { rewrite cast_fits by (unfold fits; lia). unfold wrapping_mul. rewrite Z.mod_small; lia. }
  unfold EofBody_into_eof. cbn [header]. rewrite Hts, !map_cast_len, !sum_len_sizes by done.
  assert (Hml : forall l : list bytes, len (map (@len Z) l) = len l).
  { intros l. unfold len. by rewrite length_map. }
  split; cbn [types_size code_sizes container_sizes data_size sum_code_sizes
    sum_container_sizes]; rewrite ?Hml; try done; try (unfold fits; lia).
  - by apply Forall_map.
  - by apply Forall_map.
  - by rewrite cast_fits.
Qed.

(** [h] describes the sections of [b]. *)
Record header_for (h : EofHeader) (b : EofBody) : Prop := {
  hf_types : types_size h = 4 * len (types_section b);
  hf_code : code_sizes h = map len (code_section b);
  hf_container : container_sizes h = map len (container_section b);
  hf_data : data_size h = len (data_section b);
  hf_sum_code : sum_code_sizes h = len (concat (code_section b));
  hf_sum_container : sum_container_sizes h = len (concat (container_section b));
}.

Lemma slice_from_app {E} (pre rest : bytes) :
  slice_from (E := E) (pre ++ rest) (len pre) = Ok rest.
Proof.
  unfold slice_from. rewrite len_app. pose proof (len_nonneg pre). pose proof (len_nonneg rest).
  bool_lia. f_equal. apply drop_app_length'. unfold len. lia.
Qed.

Lemma body_decode_encode h b pre :
  header_for h b -> Forall valid_types (types_section b) -> len pre = EofHeader_size h ->
  EofBody_decode (pre ++ EofBody_encode b) h
  = Ok (mkEofBody (types_section b) (code_section b) (container_section b) (data_section b) true).
Proof.
  intros [Ht Hc Hk Hd Hsc Hsk] Hv Hpre. unfold EofBody_decode, EofBody_encode.
  rewrite Hsc, Hsk, Hd, Hc, Hk. set (T := concat (map TypesSection_encode (types_section b))).
  assert (HT : len T = types_size h) by (unfold T; rewrite len_types; lia).
  rewrite !len_app. pose proof (len_nonneg (data_section b)). bool_lia.
  rewrite <- Hpre, slice_from_app. cbn [mbind outcome_bind].
  replace (Z.to_nat (types_count h)) with (length (types_section b)).
  2: { unfold types_count. rewrite Ht, Z.mul_comm, Z.div_mul by lia. unfold len. lia. }
  unfold T at 2. rewrite decode_types_encode by done. fold T. cbn [mbind outcome_bind].
  rewrite <- HT, <- len_app, (app_assoc pre), slice_sections_ok. cbn [mbind outcome_bind].
  rewrite <- len_app, (app_assoc (pre ++ T)), slice_sections_ok. cbn [mbind outcome_bind].
  rewrite <- len_app, app_assoc, slice_from_app. cbn [mbind outcome_bind].
  by rewrite Z.eqb_refl.
Qed.

Lemma valid_body_header_for b : valid_body b -> header_for (header (EofBody_into_eof b)) b.
Proof.
  intros Hb. pose proof (valid_body_header b Hb) as Hh. destruct Hb as [Ht Htv Hc Hcs Hk Hks Hd Hf].
  assert (Hlt : len (types_section b) = len (code_section b)) by (unfold len; lia).
  split.
  - rewrite (vh_types _ Hh), Hlt. simpl. f_equal. unfold len. by rewrite length_map.
  - by apply map_cast_len.
  - by apply map_cast_len.
  - by apply cast_fits.
  - simpl. by rewrite len_concat, sum_len_sizes.
  - simpl. by rewrite len_concat, sum_len_sizes.
Qed.

Lemma Eof_decode_into_eof b :
  valid_body b -> Eof_decode (raw (EofBody_into_eof b)) = Ok (EofBody_into_eof b).
Proof.
  intros Hb. pose proof (valid_body_header b Hb) as Hh.
  pose proof (valid_body_header_for b Hb) as Hf. unfold Eof_decode.
  change (raw (EofBody_into_eof b))
    with (EofHeader_encode (header (EofBody_into_eof b)) ++ EofBody_encode b).
  rewrite header_decode_encode_aux by done. cbn [mbind outcome_bind].
  rewrite body_decode_encode; [|done|apply Hb|apply len_EofHeader_encode].
  cbn [mbind outcome_bind]. pose proof (vb_filled _ Hb) as Hfill.
  destruct b. cbn in Hfill. by subst.
Qed.

Lemma valid_size_nonneg sizes : Forall valid_size sizes -> Forall (fun s => 0 <= s) sizes.
Proof. intros H. eapply Forall_impl; [exact H|]. unfold valid_size. lia. Qed.

Lemma sum_sizes_nonneg sizes : Forall valid_size sizes -> 0 <= sum_sizes sizes.
Proof. unfold valid_size. induction 1; simpl; lia. Qed.

Lemma drop_app_app (a b c : bytes) : drop (Z.to_nat (len a + len b)) (a ++ b ++ c) = c.
Proof. rewrite app_assoc. apply drop_app_length'. rewrite length_app. unfold len. lia. Qed.

(** A container that decodes is the encoding of what it decodes to. *)
Lemma Eof_encode_decode_aux r e :
  Forall is_byte r -> Eof_decode r = Ok e -> Eof_encode_slow e = r /\ raw e = r.
Proof.
  intros Hb H. unfold Eof_decode in H. inv_bind H. destruct x as [h rest]. inv_bind H.
  simplify_eq. split; [|done].
  apply header_encode_decode_aux in Hx as (-> & Hh & Hbr); [|done].
  unfold Eof_encode_slow. cbn [header body]. f_equal.
  unfold EofBody_decode in Hx0. inv_check Hx0. inv_check Hx0. inv_bind Hx0.
  rewrite <- len_EofHeader_encode, slice_from_app in Hx. simplify_eq.
  destruct x2 as [code start1]. inv_bind Hx0. destruct x2 as [cont start2]. inv_bind Hx0.
  rename x1 into types. simplify_eq. pose proof (vh_types _ Hh) as Hts. pose proof (len_nonneg (code_sizes h)).
  apply decode_types_inv in Hx1 as (rest' & -> & Hlt & Hvt); [|done].
  assert (HT : len (concat (map TypesSection_encode types)) = types_size h).
  { rewrite len_types. unfold types_count in Hlt. rewrite Hts, Z.mul_comm, Z.div_mul in Hlt by lia.
    unfold len in *. lia. }
  pose proof (len_nonneg (EofHeader_encode h)) as Hp. rewrite len_EofHeader_encode in Hp.
  apply slice_sections_inv in Hx2 as [Hd1 ->]; [|lia|apply valid_size_nonneg, Hh].
  pose proof (sum_sizes_nonneg _ (vh_code_sizes _ Hh)).
  apply slice_sections_inv in Hx as [Hd2 ->]; [|lia|apply valid_size_nonneg, Hh].
  rewrite <- HT, <- len_EofHeader_encode, drop_app_app in Hd1.
  rewrite HT, len_EofHeader_encode in Hd1.
  unfold EofBody_encode. cbn [types_section code_section container_section data_section].
  f_equal. rewrite Hd1. f_equal. rewrite Hd2. f_equal.
  unfold slice_from in Hx3. destruct (_ && _); [|done]. by simplify_eq.
Qed.

(** ** Theorems *)

(** Decoding an encoded valid header returns that header and leaves what
    follows it untouched. *)
Theorem header_decode_encode (h : EofHeader) (rest : bytes) (Hh : valid_header h) :
  EofHeader_decode (EofHeader_encode h ++ rest) = Ok (h, rest).
Proof. by apply header_decode_encode_aux. Qed.

Definition sample_header : EofHeader := mkEofHeader 8 [3; 260] [20] 2 263 20.

Lemma header_decode_encode_witness :
  valid_header sample_header /\
  EofHeader_decode (EofHeader_encode sample_header ++ [7; 7]) = Ok (sample_header, [7; 7]).
Proof.
  assert (valid_header sample_header) as H.
  { split; try reflexivity; try (vm_compute; intuition congruence);
      unfold valid_size; repeat constructor; lia. }
  split; [exact H | exact (header_decode_encode sample_header [7; 7] H)].
Defined.

(** The container encoding is canonical: whatever bytes decode, re-encoding
    the decoded container yields exactly those bytes. *)
Theorem Eof_encode_decode (r : bytes) (e : Eof) (Hb : Forall is_byte r)
  (Hd : Eof_decode r = Ok e) : Eof_encode_slow e = r /\ raw e = r.
Proof. by apply Eof_encode_decode_aux. Qed.

Definition sample_raw : bytes :=
  [239;0;1;1;0;4;2;0;1;0;1;4;0;0;0;0;128;0;0;254].

Lemma Eof_encode_decode_witness :
  exists e, Eof_decode sample_raw = Ok e /\ Eof_encode_slow e = sample_raw /\ raw e = sample_raw.
Proof.
  assert (Hb : Forall is_byte sample_raw) by (repeat constructor; vm_compute; congruence).
  eexists. split; [vm_compute; reflexivity|].
  apply (Eof_encode_decode sample_raw _ Hb). vm_compute. reflexivity.
Defined.

(** C40: a well-formed body survives [into_eof] followed by [Eof::decode]: one with
    as many types as code sections, from 1 to 1024 of them; with types of at most 127
    inputs and 128 outputs and a maximal stack from the inputs to 1023; with at most
    256 containers; every code section and every container not empty and of a size of
    16 bits; and with filled data, possibly empty, of a size of 16 bits.  *)
Theorem Eof_decode_encode (b : EofBody) (Hb : valid_body b) :
  Eof_decode (raw (EofBody_into_eof b)) = Ok (EofBody_into_eof b).
Proof. by apply Eof_decode_into_eof. Qed.

Definition sample_body : EofBody :=
  mkEofBody [mkTypesSection 0 128 2; mkTypesSection 1 1 3] [[0]; [228]] [[239; 0; 1]] [1; 2] true.

Lemma Eof_decode_encode_witness :
  valid_body sample_body /\
  Eof_decode (raw (EofBody_into_eof sample_body)) = Ok (EofBody_into_eof sample_body).
Proof.
  assert (valid_body sample_body) as H.
  { split; try reflexivity; try (vm_compute; intuition congruence);
      unfold valid_size, valid_types; repeat constructor; vm_compute; congruence. }
  split; [exact H | exact (Eof_decode_encode sample_body H)].
Defined.

(** A section count of 2^15 makes the [u16] byte count wrap to zero, so the
    short-input check passes and the size loop indexes past the input: decoding
    such a truncated container panics instead of returning an error. *)
Theorem header_section_count_overflow (tail : bytes)
  (Htail : tail = [] \/ exists b, 1 <= b < 256 /\ tail = [0; b]) :
  EofHeader_decode ([239; 0; 1; KIND_TYPES; 0; 4; KIND_CODE; 128; 0] ++ tail) = Panic.
Proof.
  destruct Htail as [->|(b & Hb & ->)]; [vm_compute; reflexivity|].
  cbn. destruct b; [lia|reflexivity|lia].
Qed.

Lemma header_section_count_overflow_witness :
  EofHeader_decode ([239; 0; 1; KIND_TYPES; 0; 4; KIND_CODE; 128; 0] ++ [0; 1]) = Panic.
Proof. apply (header_section_count_overflow [0; 1]). right. exists 1. split; [lia|reflexivity]. Defined.
