(* ===== verification/Bytecode.v ===== *)
(** Contract bytecode: [crates/primitives/src/bytecode.rs] and
    [bytecode/legacy.rs], [bytecode/legacy/jump_map.rs].

    The jump table is the bit vector of the source, a [list bool]; hashing is
    the parameter [keccak256] of the library (the [alloy] crate). *)

From S2P Require Import Prelude Bytes Eof.

(** The Keccak-256 function, on a byte string, as a 256-bit word. *)
Class Keccak : Type := keccak256 : bytes -> Z.

(** A concrete hash function, to evaluate examples. *)
Definition sample_keccak : Keccak := foldl (fun h b => (h * 257 + b + 1) mod 2 ^ 256) 5381.

(** [KECCAK_EMPTY], the constant of [crates/primitives/src/utilities.rs]. *)
Definition KECCAK_EMPTY : Z :=
  0xc5d2460186f7233c927e7db2dcc703c0e500b653ca82273b7bfad8045d85a470.

Definition JumpTable : Type := list bool.

Definition is_valid_jump (t : JumpTable) (pc : Z) : bool :=
  (pc <? len t) && (match t !! Z.to_nat pc with Some b => b | None => false end).

Record LegacyAnalyzedBytecode : Type := mkLegacyAnalyzed {
  analyzed_bytecode : bytes;
  original_len : Z;
  jump_table : JumpTable;
}.

Inductive Bytecode : Type :=
  | LegacyRaw (b : bytes)
  | LegacyAnalyzed (a : LegacyAnalyzedBytecode)
  | BytecodeEof (e : Eof).

#[export] Instance LegacyAnalyzedBytecode_eq_dec : EqDecision LegacyAnalyzedBytecode.
Proof. solve_decision. Defined.
#[export] Instance Bytecode_eq_dec : EqDecision Bytecode.
Proof. solve_decision. Defined.

Definition LegacyAnalyzed_default : LegacyAnalyzedBytecode := mkLegacyAnalyzed [0] 0 [].

(** [&self.bytecode[..self.original_len]]. *)
Definition LegacyAnalyzed_original_bytes (a : LegacyAnalyzedBytecode) : bytes :=
  take (Z.to_nat (original_len a)) (analyzed_bytecode a).

Definition Bytecode_new : Bytecode := LegacyAnalyzed LegacyAnalyzed_default.

Definition legacy_jump_table (c : Bytecode) : option JumpTable :=
  match c with LegacyAnalyzed a => Some (jump_table a) | _ => None end.

Definition Bytecode_eof (c : Bytecode) : option Eof :=
  match c with BytecodeEof e => Some e | _ => None end.

Definition is_eof (c : Bytecode) : bool :=
  match c with BytecodeEof _ => true | _ => false end.

Definition new_raw (b : bytes) : Bytecode := LegacyRaw b.

Definition new_analyzed (b : bytes) (original_len : Z) (t : JumpTable) : Bytecode :=
  LegacyAnalyzed (mkLegacyAnalyzed b original_len t).

(** The bytes the interpreter runs; [None] is the [expect] of an EOF container
    without a code section. *)
Definition Bytecode_bytecode (c : Bytecode) : option bytes :=
  match c with
  | LegacyRaw b => Some b
  | LegacyAnalyzed a => Some (analyzed_bytecode a)
  | BytecodeEof e => EofBody_code (body e) 0
  end.

Definition is_execution_ready (c : Bytecode) : bool :=
  match c with LegacyRaw _ => false | _ => true end.

Definition bytes_slice (c : Bytecode) : bytes :=
  match c with
  | LegacyRaw b => b
  | LegacyAnalyzed a => analyzed_bytecode a
  | BytecodeEof e => raw e
  end.

Definition original_byte_slice (c : Bytecode) : bytes :=
  match c with
  | LegacyRaw b => b
  | LegacyAnalyzed a => LegacyAnalyzed_original_bytes a
  | BytecodeEof e => raw e
  end.

Definition Bytecode_len (c : Bytecode) : Z :=
  match c with
  | LegacyRaw b => len b
  | LegacyAnalyzed a => original_len a
  | BytecodeEof e => Eof_size e
  end.

Definition Bytecode_is_empty (c : Bytecode) : bool := Bytecode_len c =? 0.

Definition hash_slow `{Keccak} (c : Bytecode) : Z :=
  if Bytecode_is_empty c then KECCAK_EMPTY else keccak256 (original_byte_slice c).

(** ** Lemmas *)

Lemma is_valid_jump_spec t pc :
  0 <= pc -> (is_valid_jump t pc = true) <-> t !! Z.to_nat pc = Some true.
Proof.
  intros Hpc. unfold is_valid_jump. split.
  - intros [Hlt H]%andb_true_iff. destruct (t !! Z.to_nat pc); congruence.
  - intros Ht. rewrite Ht. apply lookup_lt_Some in Ht.
    assert ((pc <? len t) = true) as -> by (apply Z.ltb_lt; unfold len; lia). done.
Qed.

Lemma hash_slow_new `{Keccak} : hash_slow Bytecode_new = KECCAK_EMPTY.
Proof. done. Qed.
