(* ===== verification/State.v ===== *)
(** Accounts and token balances: [crates/primitives/src/state.rs], with the
    constants of [constants.rs] and [utilities.rs] they use.

    A [HashMap] is a [gmap]; a status is the [u8] bit set of [bitflags!], and
    the flag operations are the bit operations that macro defines. *)

From S2P Require Import Prelude Bytes Eof Bytecode.

Definition BASE_TOKEN_ID : Z := 0.
Definition PRECOMPILE3 : Z := 3.

Abbreviation Address := Z.
Abbreviation TokenBalances := (gmap Z Z).

(** ** [AccountStatus] *)

Definition Loaded : Z := 0.
Definition Created : Z := 1.
Definition SelfDestructed : Z := 2.
Definition Touched : Z := 4.
Definition LoadedAsNotExisting : Z := 8.

(** [contains], [|=] and [-=] of a [bitflags] set. *)
Definition flags_contains (s f : Z) : bool := Z.land s f =? f.
Definition flags_insert (s f : Z) : Z := Z.lor s f.
Definition flags_remove (s f : Z) : Z := Z.ldiff s f.

(** ** [EvmStorageSlot] *)

Record EvmStorageSlot : Type := mkSlot { original_value : Z; present_value : Z }.

Definition EvmStorageSlot_new (original : Z) : EvmStorageSlot := mkSlot original original.
Definition EvmStorageSlot_new_changed (original present : Z) : EvmStorageSlot :=
  mkSlot original present.
Definition EvmStorageSlot_default : EvmStorageSlot := mkSlot 0 0.
Definition slot_is_changed (s : EvmStorageSlot) : bool :=
  negb (original_value s =? present_value s).

Abbreviation EvmStorage := (gmap Z EvmStorageSlot).

(** ** [AccountInfo] *)

Record AccountInfo : Type := mkInfo {
  balances : TokenBalances;
  nonce : Z;
  code_hash : Z;
  code : option Bytecode;
}.

Definition set_balances (f : TokenBalances -> TokenBalances) (i : AccountInfo) : AccountInfo :=
  mkInfo (f (balances i)) (nonce i) (code_hash i) (code i).
Definition set_nonce (n : Z) (i : AccountInfo) : AccountInfo :=
  mkInfo (balances i) n (code_hash i) (code i).
Definition set_code_hash (h : Z) (i : AccountInfo) : AccountInfo :=
  mkInfo (balances i) (nonce i) h (code i).
Definition set_info_code (c : option Bytecode) (i : AccountInfo) : AccountInfo :=
  mkInfo (balances i) (nonce i) (code_hash i) c.

Definition AccountInfo_default : AccountInfo := mkInfo ∅ 0 KECCAK_EMPTY (Some Bytecode_new).

Definition AccountInfo_new (b : TokenBalances) (n h : Z) (c : Bytecode) : AccountInfo :=
  mkInfo b n h (Some c).

Definition AccountInfo_from_balances (b : TokenBalances) : AccountInfo :=
  mkInfo b 0 KECCAK_EMPTY (Some Bytecode_new).

(** [init_balances]: a map with the base token only. *)
Definition init_balances (base_balance : Z) : TokenBalances := {[ BASE_TOKEN_ID := base_balance ]}.

(** [PartialEq]: the code is not compared. *)
Definition AccountInfo_eqb (a b : AccountInfo) : bool :=
  if negb (nonce a =? nonce b) || negb (code_hash a =? code_hash b)
     || negb (bool_decide (size (balances a) = size (balances b)))
  then false
  else bool_decide (balances a = balances b).

Definition take_bytecode (i : AccountInfo) : option Bytecode * AccountInfo :=
  (code i, set_info_code None i).

Definition without_code (i : AccountInfo) : AccountInfo := snd (take_bytecode i).

Definition get_balance (i : AccountInfo) (token_id : Z) : Z := default 0 (balances i !! token_id).
Definition get_base_balance (i : AccountInfo) : Z := get_balance i BASE_TOKEN_ID.

Definition set_balance (token_id balance : Z) : AccountInfo -> AccountInfo :=
  set_balances (<[token_id := balance]>).
Definition set_base_balance (balance : Z) : AccountInfo -> AccountInfo :=
  set_balance BASE_TOKEN_ID balance.

Definition decrease_balance (token_id balance : Z) (i : AccountInfo) : AccountInfo :=
  set_balances (<[token_id := wrapping_sub 256 (get_balance i token_id) balance]>) i.
Definition decrease_balance_saturating (token_id balance : Z) (i : AccountInfo) : AccountInfo :=
  set_balances (<[token_id := saturating_sub (get_balance i token_id) balance]>) i.
Definition decrease_base_balance (balance : Z) : AccountInfo -> AccountInfo :=
  decrease_balance BASE_TOKEN_ID balance.
Definition decrease_base_balance_saturating (balance : Z) : AccountInfo -> AccountInfo :=
  decrease_balance_saturating BASE_TOKEN_ID balance.

Definition increase_balance (token_id value : Z) (i : AccountInfo) : AccountInfo :=
  set_balances (<[token_id := wrapping_add 256 (get_balance i token_id) value]>) i.
Definition increase_balance_saturating (token_id value : Z) (i : AccountInfo) : AccountInfo :=
  set_balances (<[token_id := saturating_add 256 (get_balance i token_id) value]>) i.
Definition increase_base_balance (value : Z) : AccountInfo -> AccountInfo :=
  increase_balance BASE_TOKEN_ID value.
Definition increase_base_balance_saturating (value : Z) : AccountInfo -> AccountInfo :=
  increase_balance_saturating BASE_TOKEN_ID value.

Definition is_empty_code_hash (i : AccountInfo) : bool := code_hash i =? KECCAK_EMPTY.

Definition only_has_base_balance (i : AccountInfo) : bool :=
  bool_decide (size (balances i) = 1%nat) && bool_decide (is_Some (balances i !! BASE_TOKEN_ID)).

Definition is_base_balance_zero (i : AccountInfo) : bool := get_base_balance i =? 0.

Definition info_is_empty (i : AccountInfo) : bool :=
  let code_empty := is_empty_code_hash i || (code_hash i =? 0) in
  code_empty
  && (bool_decide (size (balances i) = 0%nat)
      || only_has_base_balance i && is_base_balance_zero i)
  && (nonce i =? 0).

Definition info_exists (i : AccountInfo) : bool := negb (info_is_empty i).

Definition has_no_code_and_nonce (i : AccountInfo) : bool :=
  is_empty_code_hash i && (nonce i =? 0).

(** ** [Account] *)

Record Account : Type := mkAccount {
  info : AccountInfo;
  storage : EvmStorage;
  status : Z;
}.

Definition set_info (f : AccountInfo -> AccountInfo) (a : Account) : Account :=
  mkAccount (f (info a)) (storage a) (status a).
Definition set_storage (f : EvmStorage -> EvmStorage) (a : Account) : Account :=
  mkAccount (info a) (f (storage a)) (status a).
Definition set_status (f : Z -> Z) (a : Account) : Account :=
  mkAccount (info a) (storage a) (f (status a)).

Definition Account_default : Account := mkAccount AccountInfo_default ∅ Loaded.
Definition Account_new_not_existing : Account :=
  mkAccount AccountInfo_default ∅ LoadedAsNotExisting.
Definition Account_from_info (i : AccountInfo) : Account := mkAccount i ∅ Loaded.

Definition mark_selfdestruct : Account -> Account := set_status (fun s => flags_insert s SelfDestructed).
Definition unmark_selfdestruct : Account -> Account := set_status (fun s => flags_remove s SelfDestructed).
Definition is_selfdestructed (a : Account) : bool := flags_contains (status a) SelfDestructed.
Definition mark_touch : Account -> Account := set_status (fun s => flags_insert s Touched).
Definition unmark_touch : Account -> Account := set_status (fun s => flags_remove s Touched).
Definition is_touched (a : Account) : bool := flags_contains (status a) Touched.
Definition mark_created : Account -> Account := set_status (fun s => flags_insert s Created).
Definition unmark_created : Account -> Account := set_status (fun s => flags_remove s Created).
Definition is_created (a : Account) : bool := flags_contains (status a) Created.
Definition is_loaded_as_not_existing (a : Account) : bool :=
  flags_contains (status a) LoadedAsNotExisting.
Definition Account_is_empty (a : Account) : bool := info_is_empty (info a).

Definition changed_storage_slots (a : Account) : EvmStorage :=
  filter (fun kv => slot_is_changed kv.2 = true) (storage a).

(** ** [EvmState] *)

Record EvmState : Type := mkEvmState {
  accounts : gmap Address Account;
  token_ids : list Z;
}.

Definition set_accounts (f : gmap Address Account -> gmap Address Account) (s : EvmState) : EvmState :=
  mkEvmState (f (accounts s)) (token_ids s).
Definition set_token_ids (f : list Z -> list Z) (s : EvmState) : EvmState :=
  mkEvmState (accounts s) (f (token_ids s)).

Definition EvmState_default : EvmState := mkEvmState ∅ [].

Abbreviation TransientStorage := (gmap (Address * Z) Z).

(** [token_id_address]: the hash of the 20 address bytes and the sub identifier. *)
Definition token_id_address `{Keccak} (address sub_id : Z) : Z :=
  keccak256 (to_be_bytes 20 address ++ to_be_bytes 32 sub_id).

(** ** Lemmas *)

(** Balances are 256-bit words and the nonce is a 64-bit one. *)
Record wf_info (i : AccountInfo) : Prop := {
  wf_balance : forall t, fits 256 (get_balance i t);
  wf_nonce : fits 64 (nonce i);
}.

(** For single flags, [contains] is a bit test. *)
Lemma flags_contains_bit s n : 0 <= n -> flags_contains s (2 ^ n) = Z.testbit s n.
Proof.
  intros Hn. unfold flags_contains. destruct (Z.testbit s n) eqn:Hb.
  - apply Z.eqb_eq. apply Z.bits_inj'. intros m Hm. rewrite Z.land_spec, Z.pow2_bits_eqb by done.
    destruct (Z.eqb_spec n m) as [->|]; [by rewrite Hb|]. by rewrite andb_false_r.
  - apply Z.eqb_neq. intros Heq. apply (f_equal (fun z => Z.testbit z n)) in Heq.
    by rewrite Z.land_spec, Hb, Z.pow2_bits_true in Heq.
Qed.

(** Setting a clear flag and clearing it again is the identity. *)
Lemma flags_remove_insert s n :
  0 <= n -> flags_contains s (2 ^ n) = false -> flags_remove (flags_insert s (2 ^ n)) (2 ^ n) = s.
Proof.
  intros Hn. rewrite flags_contains_bit by done. intros Hb.
  unfold flags_remove, flags_insert. apply Z.bits_inj'. intros m Hm.
  rewrite Z.ldiff_spec, Z.lor_spec, Z.pow2_bits_eqb by done.
  destruct (Z.eqb_spec n m) as [->|]; [by rewrite Hb|].
  by rewrite orb_false_r, andb_true_r.
Qed.

Lemma flags_insert_insert s f : flags_insert (flags_insert s f) f = flags_insert s f.
Proof. unfold flags_insert. rewrite <- Z.lor_assoc. by rewrite Z.lor_diag. Qed.

Lemma flags_insert_id s n :
  0 <= n -> flags_contains s (2 ^ n) = true -> flags_insert s (2 ^ n) = s.
Proof.
  intros Hn. rewrite flags_contains_bit by done. intros Hb. unfold flags_insert.
  apply Z.bits_inj'. intros m Hm. rewrite Z.lor_spec, Z.pow2_bits_eqb by done.
  destruct (Z.eqb_spec n m) as [->|]; [by rewrite Hb|]. by rewrite orb_false_r.
Qed.

Lemma get_balance_set_same i t b : get_balance (set_balance t b i) t = b.
Proof. unfold get_balance, set_balance, set_balances. simpl. by rewrite lookup_insert_eq. Qed.

Lemma get_balance_set_ne i t t' b :
  t <> t' -> get_balance (set_balance t b i) t' = get_balance i t'.
Proof. intros. unfold get_balance, set_balance, set_balances. simpl. by rewrite lookup_insert_ne. Qed.

Lemma get_balance_set i t t' b :
  get_balance (set_balance t b i) t' = if decide (t = t') then b else get_balance i t'.
Proof. case_decide; subst; [apply get_balance_set_same | by apply get_balance_set_ne]. Qed.

Lemma increase_balance_set t v i :
  increase_balance t v i = set_balance t (wrapping_add 256 (get_balance i t) v) i.
Proof. done. Qed.

Lemma decrease_balance_set t v i :
  decrease_balance t v i = set_balance t (wrapping_sub 256 (get_balance i t) v) i.
Proof. done. Qed.
