(* ===== verification/Result.v ===== *)
(** Results and errors of an execution: [crates/primitives/src/result.rs]. The
    variants of the [optimism] feature, which only [Optimism.v] makes, are there. *)

From S2P Require Import Prelude Bytes Eof Bytecode State.

(** [alloy]'s log record. *)
Record Log : Type := mkLog { log_address : Address; log_topics : list Z; log_data : bytes }.

#[export] Instance Log_eq_dec : EqDecision Log.
Proof. solve_decision. Defined.

Inductive SuccessReason : Type := SR_Stop | SR_Return | SR_SelfDestruct.

Inductive OutOfGasError : Type :=
  | OOG_Basic | OOG_MemoryLimit | OOG_Memory | OOG_Precompile | OOG_InvalidOperand.

Inductive HaltReason : Type :=
  | HR_OutOfGas (e : OutOfGasError)
  | HR_OpcodeNotFound | HR_InvalidFEOpcode | HR_InvalidJump | HR_NotActivated
  | HR_StackUnderflow | HR_StackOverflow | HR_OutOfOffset | HR_CreateCollision
  | HR_PrecompileError | HR_NonceOverflow | HR_CreateContractSizeLimit
  | HR_CreateContractStartingWithEF | HR_CreateInitCodeSizeLimit
  | HR_OverflowPayment | HR_StateChangeDuringStaticCall
  | HR_CallNotAllowedInsideStatic | HR_OutOfFunds | HR_CallTooDeep
  | HR_FailedDeposit
  | HR_UnauthorizedCaller.

#[export] Instance SuccessReason_eq_dec : EqDecision SuccessReason.
Proof. solve_decision. Defined.
#[export] Instance OutOfGasError_eq_dec : EqDecision OutOfGasError.
Proof. solve_decision. Defined.
#[export] Instance HaltReason_eq_dec : EqDecision HaltReason.
Proof. solve_decision. Defined.

Inductive Output : Type :=
  | OutputCall (data : bytes)
  | OutputCreate (data : bytes) (address : option Address).

Definition Output_data (o : Output) : bytes :=
  match o with OutputCall d => d | OutputCreate d _ => d end.

Definition Output_address (o : Output) : option Address :=
  match o with OutputCall _ => None | OutputCreate _ a => a end.

Inductive ExecutionResult : Type :=
  | Success (reason : SuccessReason) (gas_used gas_refunded : Z) (logs : list Log) (output : Output)
  | Revert (gas_used : Z) (output : bytes)
  | Halt (reason : HaltReason) (gas_used : Z).

Definition ExecutionResult_is_success (r : ExecutionResult) : bool :=
  match r with Success _ _ _ _ _ => true | _ => false end.

Definition ExecutionResult_is_halt (r : ExecutionResult) : bool :=
  match r with Halt _ _ => true | _ => false end.

Definition ExecutionResult_output (r : ExecutionResult) : option bytes :=
  match r with
  | Success _ _ _ _ output => Some (Output_data output)
  | Revert _ output => Some output
  | _ => None
  end.

Definition ExecutionResult_logs (r : ExecutionResult) : list Log :=
  match r with Success _ _ _ logs _ => logs | _ => [] end.

Definition ExecutionResult_gas_used (r : ExecutionResult) : Z :=
  match r with Success _ g _ _ _ | Revert g _ | Halt _ g => g end.

Inductive InvalidTransaction : Type :=
  | PriorityFeeGreaterThanMaxFee
  | GasPriceLessThanBasefee
  | CallerGasLimitMoreThanBlock
  | CallGasCostMoreThanGasLimit
  | RejectCallerWithCode
  | LackOfFundForMaxFee (fee balance : Z)
  | OverflowPaymentInTransaction
  | NonceOverflowInTransaction
  | NonceTooHigh (tx state : Z)
  | NonceTooLow (tx state : Z)
  | CreateInitCodeSizeLimit
  | InvalidChainId
  | AccessListNotSupported
  | MaxFeePerBlobGasNotSupported
  | BlobVersionedHashesNotSupported
  | BlobGasPriceGreaterThanMax
  | EmptyBlobs
  | BlobCreateTransaction
  | TooManyBlobs (max have : Z)
  | BlobVersionNotSupported
  | EofCrateShouldHaveToAddress
  | DepositSystemTxPostRegolith
  | HaltedDepositPostRegolith
  | InvalidTokenId (token_id : Z)
  | NotEnoughTokenBalanceForTransfer (token_id required_balance actual_balance : Z)
  | TokenIdsNotUnique.

Inductive InvalidHeader : Type := PrevrandaoNotSet | ExcessBlobGasNotSet.

Inductive EVMError (DbErr : Type) : Type :=
  | EVMTransaction (e : InvalidTransaction)
  | EVMHeader (e : InvalidHeader)
  | EVMDatabase (e : DbErr)
  | EVMCustom (s : string).
Arguments EVMTransaction {DbErr} e.
Arguments EVMHeader {DbErr} e.
Arguments EVMDatabase {DbErr} e.
Arguments EVMCustom {DbErr} s.

#[export] Instance InvalidTransaction_eq_dec : EqDecision InvalidTransaction.
Proof. solve_decision. Defined.
#[export] Instance InvalidHeader_eq_dec : EqDecision InvalidHeader.
Proof. solve_decision. Defined.
#[export] Instance EVMError_eq_dec `{EqDecision E} : EqDecision (EVMError E).
Proof. solve_decision. Defined.
