(* ===== verification/InstructionResult.v ===== *)
(** Instruction results: [crates/interpreter/src/instruction_result.rs]. *)

From S2P Require Import Prelude Bytes Eof Bytecode State Result.

Inductive InstructionResult : Type :=
  | IR_Continue | IR_Stop | IR_Return | IR_SelfDestruct | IR_ReturnContract
  | IR_Revert | IR_CallTooDeep | IR_OutOfFunds
  | IR_CallOrCreate
  | IR_OutOfGas | IR_MemoryOOG | IR_MemoryLimitOOG | IR_PrecompileOOG
  | IR_InvalidOperandOOG | IR_OpcodeNotFound | IR_CallNotAllowedInsideStatic
  | IR_StateChangeDuringStaticCall | IR_InvalidFEOpcode | IR_InvalidJump
  | IR_NotActivated | IR_StackUnderflow | IR_StackOverflow | IR_OutOfOffset
  | IR_CreateCollision | IR_OverflowPayment | IR_PrecompileError
  | IR_NonceOverflow | IR_CreateContractSizeLimit
  | IR_CreateContractStartingWithEF | IR_CreateInitCodeSizeLimit
  | IR_FatalExternalError | IR_ReturnContractInNotInitEOF
  | IR_EOFOpcodeDisabledInLegacy | IR_EOFFunctionStackOverflow
  | IR_UnauthorizedCaller.

#[export] Instance InstructionResult_eq_dec : EqDecision InstructionResult.
Proof. solve_decision. Defined.

Definition IR_from_success (r : SuccessReason) : InstructionResult :=
  match r with
  | SR_Return => IR_Return
  | SR_Stop => IR_Stop
  | SR_SelfDestruct => IR_SelfDestruct
  end.

Definition IR_from_halt (r : HaltReason) : InstructionResult :=
  match r with
  | HR_OutOfGas error =>
      match error with
      | OOG_Basic => IR_OutOfGas
      | OOG_InvalidOperand => IR_InvalidOperandOOG
      | OOG_Memory => IR_MemoryOOG
      | OOG_MemoryLimit => IR_MemoryLimitOOG
      | OOG_Precompile => IR_PrecompileOOG
      end
  | HR_OpcodeNotFound => IR_OpcodeNotFound
  | HR_InvalidFEOpcode => IR_InvalidFEOpcode
  | HR_InvalidJump => IR_InvalidJump
  | HR_NotActivated => IR_NotActivated
  | HR_StackOverflow => IR_StackOverflow
  | HR_StackUnderflow => IR_StackUnderflow
  | HR_OutOfOffset => IR_OutOfOffset
  | HR_CreateCollision => IR_CreateCollision
  | HR_PrecompileError => IR_PrecompileError
  | HR_NonceOverflow => IR_NonceOverflow
  | HR_CreateContractSizeLimit => IR_CreateContractSizeLimit
  | HR_CreateContractStartingWithEF => IR_CreateContractStartingWithEF
  | HR_CreateInitCodeSizeLimit => IR_CreateInitCodeSizeLimit
  | HR_OverflowPayment => IR_OverflowPayment
  | HR_StateChangeDuringStaticCall => IR_StateChangeDuringStaticCall
  | HR_CallNotAllowedInsideStatic => IR_CallNotAllowedInsideStatic
  | HR_OutOfFunds => IR_OutOfFunds
  | HR_CallTooDeep => IR_CallTooDeep
  | HR_FailedDeposit => IR_FatalExternalError
  | HR_UnauthorizedCaller => IR_UnauthorizedCaller
  end.

(** The three pattern macros. *)
Definition return_ok (r : InstructionResult) : bool :=
  match r with
  | IR_Continue | IR_Stop | IR_Return | IR_SelfDestruct | IR_ReturnContract => true
  | _ => false
  end.

Definition return_revert (r : InstructionResult) : bool :=
  match r with IR_Revert | IR_CallTooDeep | IR_OutOfFunds => true | _ => false end.

Definition return_error (r : InstructionResult) : bool :=
  match r with
  | IR_OutOfGas | IR_MemoryOOG | IR_MemoryLimitOOG | IR_PrecompileOOG
  | IR_InvalidOperandOOG | IR_OpcodeNotFound | IR_CallNotAllowedInsideStatic
  | IR_StateChangeDuringStaticCall | IR_InvalidFEOpcode | IR_InvalidJump
  | IR_NotActivated | IR_StackUnderflow | IR_StackOverflow | IR_OutOfOffset
  | IR_CreateCollision | IR_OverflowPayment | IR_PrecompileError
  | IR_NonceOverflow | IR_CreateContractSizeLimit
  | IR_CreateContractStartingWithEF | IR_CreateInitCodeSizeLimit
  | IR_FatalExternalError | IR_ReturnContractInNotInitEOF
  | IR_EOFOpcodeDisabledInLegacy | IR_EOFFunctionStackOverflow => true
  | _ => false
  end.

Definition IR_is_ok (r : InstructionResult) : bool := return_ok r.
Definition IR_is_revert (r : InstructionResult) : bool := return_revert r.
Definition IR_is_error (r : InstructionResult) : bool := return_error r.

Inductive SuccessOrHalt : Type :=
  | SOH_Success (r : SuccessReason)
  | SOH_Revert
  | SOH_Halt (r : HaltReason)
  | SOH_FatalExternalError
  | SOH_InternalContinue
  | SOH_InternalCallOrCreate.

Definition SOH_is_success (s : SuccessOrHalt) : bool :=
  match s with SOH_Success _ => true | _ => false end.
Definition SOH_to_success (s : SuccessOrHalt) : option SuccessReason :=
  match s with SOH_Success r => Some r | _ => None end.
Definition SOH_is_revert (s : SuccessOrHalt) : bool :=
  match s with SOH_Revert => true | _ => false end.
Definition SOH_is_halt (s : SuccessOrHalt) : bool :=
  match s with SOH_Halt _ => true | _ => false end.
Definition SOH_to_halt (s : SuccessOrHalt) : option HaltReason :=
  match s with SOH_Halt r => Some r | _ => None end.

(** [impl From<InstructionResult> for SuccessOrHalt]; [ReturnContract] panics. *)
Definition SOH_from (result : InstructionResult) : outcome False SuccessOrHalt :=
  match result with
  | IR_Continue => Ok SOH_InternalContinue
  | IR_Stop => Ok (SOH_Success SR_Stop)
  | IR_Return => Ok (SOH_Success SR_Return)
  | IR_SelfDestruct => Ok (SOH_Success SR_SelfDestruct)
  | IR_Revert => Ok SOH_Revert
  | IR_CallOrCreate => Ok SOH_InternalCallOrCreate
  | IR_CallTooDeep => Ok (SOH_Halt HR_CallTooDeep)
  | IR_OutOfFunds => Ok (SOH_Halt HR_OutOfFunds)
  | IR_OutOfGas => Ok (SOH_Halt (HR_OutOfGas OOG_Basic))
  | IR_MemoryLimitOOG => Ok (SOH_Halt (HR_OutOfGas OOG_MemoryLimit))
  | IR_MemoryOOG => Ok (SOH_Halt (HR_OutOfGas OOG_Memory))
  | IR_PrecompileOOG => Ok (SOH_Halt (HR_OutOfGas OOG_Precompile))
  | IR_InvalidOperandOOG => Ok (SOH_Halt (HR_OutOfGas OOG_InvalidOperand))
  | IR_OpcodeNotFound | IR_ReturnContractInNotInitEOF => Ok (SOH_Halt HR_OpcodeNotFound)
  | IR_CallNotAllowedInsideStatic => Ok (SOH_Halt HR_CallNotAllowedInsideStatic)
  | IR_StateChangeDuringStaticCall => Ok (SOH_Halt HR_StateChangeDuringStaticCall)
  | IR_InvalidFEOpcode => Ok (SOH_Halt HR_InvalidFEOpcode)
  | IR_InvalidJump => Ok (SOH_Halt HR_InvalidJump)
  | IR_NotActivated => Ok (SOH_Halt HR_NotActivated)
  | IR_StackUnderflow => Ok (SOH_Halt HR_StackUnderflow)
  | IR_StackOverflow => Ok (SOH_Halt HR_StackOverflow)
  | IR_OutOfOffset => Ok (SOH_Halt HR_OutOfOffset)
  | IR_CreateCollision => Ok (SOH_Halt HR_CreateCollision)
  | IR_OverflowPayment => Ok (SOH_Halt HR_OverflowPayment)
  | IR_PrecompileError => Ok (SOH_Halt HR_PrecompileError)
  | IR_NonceOverflow => Ok (SOH_Halt HR_NonceOverflow)
  | IR_CreateContractSizeLimit | IR_CreateContractStartingWithEF =>
      Ok (SOH_Halt HR_CreateContractSizeLimit)
  | IR_CreateInitCodeSizeLimit => Ok (SOH_Halt HR_CreateInitCodeSizeLimit)
  | IR_FatalExternalError => Ok SOH_FatalExternalError
  | IR_EOFOpcodeDisabledInLegacy => Ok (SOH_Halt HR_OpcodeNotFound)
  | IR_EOFFunctionStackOverflow => Ok SOH_FatalExternalError
  | IR_ReturnContract => Panic
  | IR_UnauthorizedCaller => Ok (SOH_Halt HR_UnauthorizedCaller)
  end.

(** Every halt reason of a frame but [CreateContractStartingWithEF] survives the
    conversion to an instruction result and back, that one becomes
    [CreateContractSizeLimit]; and a result is in exactly one of the classes ok,
    revert and error, except the two the macros leave out. *)
Theorem halt_reason_roundtrip_and_classes :
  (forall r, r <> HR_FailedDeposit -> SOH_from (IR_from_halt r)
    = Ok (SOH_Halt (if decide (r = HR_CreateContractStartingWithEF)
                    then HR_CreateContractSizeLimit else r))) /\
  (forall r, SOH_from (IR_from_success r) = Ok (SOH_Success r)) /\
  (forall r, (Nat.b2n (IR_is_ok r) + Nat.b2n (IR_is_revert r) + Nat.b2n (IR_is_error r) =
    if decide (r = IR_CallOrCreate \/ r = IR_UnauthorizedCaller) then 0 else 1)%nat).
Proof.
  split; [|split].
  - intros r Hr. destruct r; try destruct e; done.
  - intros []; reflexivity.
  - intros []; reflexivity.
Qed.
