(* ===== verification/Database.v ===== *)
(** The database interface: the [Database] trait of [crates/primitives/src/db.rs].

    An implementation is a state type [DB] with its error type and the six
    methods; the journal is verified against this interface, and
    [InMemoryDb.v] gives the implementation of the repository. *)

From S2P Require Import Prelude Bytes Eof Bytecode State Result.

Class Database (DB DbErr : Type) : Type := {
  basic : Address -> M DB DbErr (option AccountInfo);
  code_by_hash : Z -> M DB DbErr Bytecode;
  db_storage : Address -> Z -> M DB DbErr Z;
  block_hash : Z -> M DB DbErr Z;
  get_token_ids : DB -> outcome DbErr (list Z);
  is_token_id_valid : DB -> Z -> outcome DbErr bool;
}.

(** The read-only variant, [DatabaseRef]. *)
Class DatabaseRef (DB DbErr : Type) : Type := {
  basic_ref : DB -> Address -> outcome DbErr (option AccountInfo);
  code_by_hash_ref : DB -> Z -> outcome DbErr Bytecode;
  storage_ref : DB -> Address -> Z -> outcome DbErr Z;
  block_hash_ref : DB -> Z -> outcome DbErr Z;
  get_token_ids_ref : DB -> outcome DbErr (list Z);
  is_token_id_valid_ref : DB -> Z -> outcome DbErr bool;
}.

(** [WrapDatabaseRef]: a read-only database is a database. *)
Definition WrapDatabaseRef {DB DbErr} (R : DatabaseRef DB DbErr) : Database DB DbErr := {|
  basic a := fun db => (basic_ref db a, db);
  code_by_hash h := fun db => (code_by_hash_ref db h, db);
  db_storage a k := fun db => (storage_ref db a k, db);
  block_hash n := fun db => (block_hash_ref db n, db);
  get_token_ids := get_token_ids_ref;
  is_token_id_valid := is_token_id_valid_ref;
|}.

(** What the journal relies on: from a state that satisfies its invariant, an
    implementation returns well-formed accounts and keeps the invariant. *)
Class DatabaseOk (DB DbErr : Type) `{Database DB DbErr} : Type := {
  db_ok : DB -> Prop;
  basic_ok a d r d' : db_ok d -> basic a d = (r, d') ->
    db_ok d' /\ (forall i, r = Ok (Some i) -> wf_info i);
  code_by_hash_ok h d r d' : db_ok d -> code_by_hash h d = (r, d') -> db_ok d';
  db_storage_ok a k d r d' : db_ok d -> db_storage a k d = (r, d') -> db_ok d';
  block_hash_ok n d r d' : db_ok d -> block_hash n d = (r, d') -> db_ok d';
}.
