(* ===== verification/Journal.v ===== *)
(** The journaled state: [crates/revm/src/journaled_state.rs].

    One definition per method.  [&mut self] is the state of the monad; methods
    that also take a database run on the pair of the journaled state and the
    database.  A map access the source unwraps panics when the key is absent,
    and the mutations made before an early return are kept. *)

From S2P Require Import Prelude Specification Bytes Eof Bytecode State Result InstructionResult.
From S2P Require Import Database.

Inductive JournalEntry : Type :=
  | AccountLoaded (address : Address)
  | AccountDestroyed (address target : Address) (was_destroyed : bool) (had_balance : Z)
  | AccountTouched (address : Address)
  | BalanceTransfer (from to : Address) (token_id amount : Z)
  | NonceChange (address : Address)
  | AccountCreated (address : Address)
  | StorageChange (address : Address) (key : Z) (had_value : option Z)
  | TransientStorageChange (address : Address) (key had_value : Z)
  | CodeChange (address : Address)
  | TokensBurned (token_holder : Address) (token_id burned_amount : Z)
  | TokenIdsLoaded (token_ids : list Z)
  | TokensMinted (minter recipient : Address) (token_id minted_amount : Z).

Record JournaledState : Type := mkJournaledState {
  state : EvmState;
  transient_storage : TransientStorage;
  logs : list Log;
  depth : Z;
  journal : list (list JournalEntry);
  spec : SpecId;
  warm_preloaded_addresses : gset Address;
}.

Definition set_state (f : EvmState -> EvmState) (j : JournaledState) : JournaledState :=
  mkJournaledState (f (state j)) (transient_storage j) (logs j) (depth j) (journal j) (spec j)
    (warm_preloaded_addresses j).
Definition set_transient (f : TransientStorage -> TransientStorage) (j : JournaledState)
  : JournaledState :=
  mkJournaledState (state j) (f (transient_storage j)) (logs j) (depth j) (journal j) (spec j)
    (warm_preloaded_addresses j).
Definition set_logs (f : list Log -> list Log) (j : JournaledState) : JournaledState :=
  mkJournaledState (state j) (transient_storage j) (f (logs j)) (depth j) (journal j) (spec j)
    (warm_preloaded_addresses j).
Definition set_depth (f : Z -> Z) (j : JournaledState) : JournaledState :=
  mkJournaledState (state j) (transient_storage j) (logs j) (f (depth j)) (journal j) (spec j)
    (warm_preloaded_addresses j).
Definition set_journal (f : list (list JournalEntry) -> list (list JournalEntry))
  (j : JournaledState) : JournaledState :=
  mkJournaledState (state j) (transient_storage j) (logs j) (depth j) (f (journal j)) (spec j)
    (warm_preloaded_addresses j).
Definition set_spec_id (s : SpecId) (j : JournaledState) : JournaledState :=
  mkJournaledState (state j) (transient_storage j) (logs j) (depth j) (journal j) s
    (warm_preloaded_addresses j).

Record JournalCheckpoint : Type := mkCheckpoint { log_i : Z; journal_i : Z }.

Record TokenTransfer : Type := mkTransfer { transfer_id : Z; transfer_amount : Z }.

Record LoadAccountResult : Type := mkLoadAccountResult { load_is_cold : bool; load_is_empty : bool }.

Record SStoreResult : Type := mkSStoreResult {
  ss_original_value : Z; ss_present_value : Z; ss_new_value : Z; ss_is_cold : bool }.

Record SelfDestructResult : Type := mkSelfDestructResult {
  had_value : bool; target_exists : bool; sd_is_cold : bool; previously_destroyed : bool }.

(** [JournaledState::new]. *)
Definition JournaledState_new (spec : SpecId) (warm : gset Address) : JournaledState :=
  mkJournaledState EvmState_default ∅ [] 0 [[]] spec warm.

Definition clear (j : JournaledState) : JournaledState := JournaledState_new (spec j) ∅.

(** [finalize] returns the state and the logs, and resets everything but the
    spec and the warm addresses. *)
Definition finalize (j : JournaledState) : (EvmState * list Log) * JournaledState :=
  ((state j, logs j),
   mkJournaledState EvmState_default ∅ [] 0 [[]] (spec j) (warm_preloaded_addresses j)).

(** [self.journal.last_mut().unwrap().push(e)]. *)
Fixpoint push_last {A} (e : A) (l : list (list A)) : option (list (list A)) :=
  match l with
  | [] => None
  | [last] => Some [last ++ [e]]
  | x :: l => cons x <$> push_last e l
  end.

Section journal_ops.
Context {E : Type}.
Abbreviation JM := (M JournaledState E).

Definition push_entry (e : JournalEntry) : JM unit := fun j =>
  match push_last e (journal j) with
  | Some l => (Ok tt, set_journal (fun _ => l) j)
  | None => (Panic, j)
  end.

(** [self.state.accounts.get_mut(&address).unwrap()] and what is then done
    with the reference. *)
Definition account (address : Address) : JM Account := fun j =>
  (unwrap (accounts (state j) !! address), j).

Definition update_account (address : Address) (f : Account -> Account) : JM unit :=
  _ ← account address;
  modify (set_state (set_accounts (alter f address))).

Definition touch_account (address : Address) : JM unit :=
  acc ← account address;
  if is_touched acc then mret tt
  else _ ← push_entry (AccountTouched address); update_account address mark_touch.

Definition touch (address : Address) : JM unit := fun j =>
  match accounts (state j) !! address with
  | Some _ => touch_account address j
  | None => (Ok tt, j)
  end.

Definition set_code `{Keccak} (address : Address) (c : Bytecode) : JM unit :=
  _ ← account address;
  _ ← touch_account address;
  _ ← push_entry (CodeChange address);
  update_account address
    (set_info (fun i => set_info_code (Some c) (set_code_hash (hash_slow c) i))).

Definition inc_nonce (address : Address) : JM (option Z) :=
  acc ← account address;
  if nonce (info acc) =? U64_MAX then mret None
  else
    _ ← touch_account address;
    _ ← push_entry (NonceChange address);
    _ ← update_account address (set_info (set_nonce (nonce (info acc) + 1)));
    mret (Some (nonce (info acc) + 1)).

(** The body of the loop of [transfer]. *)
Fixpoint transfer_loop (from to : Address) (transfers : list TokenTransfer)
  : JM (option InstructionResult) :=
  match transfers with
  | [] => mret None
  | t :: rest =>
      let token_id := transfer_id t in
      let amount := transfer_amount t in
      _ ← touch_account from;
      from_account ← account from;
      match checked_sub (get_balance (info from_account) token_id) amount with
      | None => mret (Some IR_OutOfFunds)
      | Some from_balance_decr =>
          _ ← update_account from (set_info (set_balance token_id from_balance_decr));
          _ ← touch_account to;
          to_account ← account to;
          match checked_add 256 (get_balance (info to_account) token_id) amount with
          | None => mret (Some IR_OverflowPayment)
          | Some to_balance_incr =>
              _ ← update_account to (set_info (set_balance token_id to_balance_incr));
              _ ← push_entry (BalanceTransfer from to token_id amount);
              transfer_loop from to rest
          end
      end
  end.

Definition checkpoint : JM JournalCheckpoint := fun j =>
  (Ok (mkCheckpoint (len (logs j)) (len (journal j))),
   set_journal (fun l => l ++ [[]]) (set_depth (fun d => wrapping_add 64 d 1) j)).

Definition checkpoint_commit : JM unit := modify (set_depth (fun d => wrapping_sub 64 d 1)).

Definition tload (address : Address) (key : Z) : JM Z :=
  gets (fun j => default 0 (transient_storage j !! (address, key))).

Definition tstore (address : Address) (key new : Z) : JM unit := fun j =>
  let old := transient_storage j !! (address, key) in
  let '(had_value, ts) :=
    if new =? 0 then (old, delete (address, key) (transient_storage j))
    else
      let previous_value := default 0 old in
      (if negb (previous_value =? new) then Some previous_value else None,
       <[(address, key) := new]> (transient_storage j)) in
  let j := set_transient (fun _ => ts) j in
  match had_value with
  | Some had_value => push_entry (TransientStorageChange address key had_value) j
  | None => (Ok tt, j)
  end.

Definition log (l : Log) : JM unit := modify (set_logs (fun ls => ls ++ [l])).
End journal_ops.

(** ** Reverting *)

Abbreviation undo_state := (EvmState * TransientStorage)%type.

(** [state.accounts.get_mut(&a).unwrap()] inside [journal_revert]: [None] is
    the panic. *)
Definition undo_account (a : Address) (f : Account -> Account) (s : undo_state)
  : option undo_state :=
  _ ← accounts s.1 !! a;
  Some (set_accounts (alter f a) s.1, s.2).

(** One iteration of the loop of [journal_revert]. *)
Definition revert_entry (is_spurious_dragon_enabled : bool) (e : JournalEntry) (s : undo_state)
  : option undo_state :=
  match e with
  | AccountLoaded address => Some (set_accounts (delete address) s.1, s.2)
  | AccountTouched address =>
      if is_spurious_dragon_enabled && (address =? PRECOMPILE3) then Some s
      else undo_account address unmark_touch s
  | AccountDestroyed address target was_destroyed had_balance =>
      s ← undo_account address
            (fun a => set_info (increase_base_balance had_balance)
                        (if was_destroyed then mark_selfdestruct a else unmark_selfdestruct a)) s;
      if negb (address =? target)
      then undo_account target (set_info (decrease_base_balance had_balance)) s
      else Some s
  | BalanceTransfer from to token_id amount =>
      s ← undo_account from (set_info (increase_balance token_id amount)) s;
      undo_account to (set_info (decrease_balance token_id amount)) s
  | NonceChange address =>
      undo_account address (set_info (fun i => set_nonce (wrapping_sub 64 (nonce i) 1) i)) s
  | AccountCreated address =>
      undo_account address (fun a => set_info (set_nonce 0) (unmark_created a)) s
  | StorageChange address key had_value =>
      match had_value with
      | Some had_value =>
          acc ← accounts s.1 !! address;
          slot ← storage acc !! key;
          undo_account address
            (set_storage (<[key := mkSlot (original_value slot) had_value]>)) s
      | None => undo_account address (set_storage (delete key)) s
      end
  | TransientStorageChange address key had_value =>
      if had_value =? 0 then Some (s.1, delete (address, key) s.2)
      else Some (s.1, <[(address, key) := had_value]> s.2)
  | CodeChange address =>
      undo_account address
        (set_info (fun i => set_info_code None (set_code_hash KECCAK_EMPTY i))) s
  | TokensBurned token_holder token_id burned_amount =>
      undo_account token_holder (set_info (increase_balance token_id burned_amount)) s
  | TokenIdsLoaded _ => Some (set_token_ids (fun _ => []) s.1, s.2)
  | TokensMinted _ recipient token_id minted_amount =>
      undo_account recipient (set_info (decrease_balance token_id minted_amount)) s
  end.

(** [journal_revert]: the entries in reverse order. *)
Fixpoint journal_revert (sd : bool) (entries_rev : list JournalEntry) (s : undo_state)
  : option undo_state :=
  match entries_rev with
  | [] => Some s
  | e :: rest => s ← revert_entry sd e s; journal_revert sd rest s
  end.

(** The [for_each] over the reversed journal sets. *)
Fixpoint revert_sets (sd : bool) (sets_rev : list (list JournalEntry)) (s : undo_state)
  : option undo_state :=
  match sets_rev with
  | [] => Some s
  | cs :: rest => s ← journal_revert sd (reverse cs) s; revert_sets sd rest s
  end.

Definition checkpoint_revert {E} (cp : JournalCheckpoint) : M JournaledState E unit := fun j =>
  let sd := enabled (spec j) SPURIOUS_DRAGON in
  let j := set_depth (fun d => wrapping_sub 64 d 1) j in
  let leng := len (journal j) in
  let sets := take (Z.to_nat (usize_sub leng (journal_i cp))) (reverse (journal j)) in
  match revert_sets sd sets (state j, transient_storage j) with
  | Some (st, ts) =>
      (Ok tt,
       set_logs (take (Z.to_nat (log_i cp)))
         (set_journal (take (Z.to_nat (journal_i cp)))
            (set_transient (fun _ => ts) (set_state (fun _ => st) j))))
  | None => (Panic, j)
  end.

(** [create_account_checkpoint]: enter a sub-call that creates [address]. *)
Definition create_account_checkpoint (caller address : Address) (balance : Z) (spec_id : SpecId)
  : M JournaledState InstructionResult JournalCheckpoint :=
  cp ← checkpoint;
  acc ← account address;
  warm ← gets warm_preloaded_addresses;
  if negb (code_hash (info acc) =? KECCAK_EMPTY) || negb (nonce (info acc) =? 0)
     || bool_decide (address ∈ warm)
  then _ ← checkpoint_revert cp; fail IR_CreateCollision
  else
    _ ← update_account address mark_created;
    _ ← push_entry (AccountCreated address);
    _ ← update_account address
          (fun a => set_storage (fmap (fun _ => EvmStorageSlot_default))
                      (set_info (set_info_code None) a));
    _ ← touch_account address;
    acc ← account address;
    match checked_add 256 (get_base_balance (info acc)) balance with
    | None => _ ← checkpoint_revert cp; fail IR_OverflowPayment
    | Some new_base_balance =>
        _ ← update_account address (set_info (set_base_balance new_base_balance));
        _ ← (if is_enabled_in spec_id SPURIOUS_DRAGON
             then update_account address (set_info (set_nonce 1)) else mret tt);
        _ ← update_account caller (set_info (decrease_base_balance balance));
        _ ← push_entry (BalanceTransfer caller address BASE_TOKEN_ID balance);
        mret cp
    end.

(** ** Operations that read the database *)

Section with_database.
Context {DB DbErr : Type} `{Database DB DbErr}.

Abbreviation DM := (M (JournaledState * DB) (EVMError DbErr)).

(** A method call on [self], and one on [db] with [map_err(EVMError::Database)]. *)
Definition on_js {A} (m : M JournaledState (EVMError DbErr) A) : DM A :=
  zoom fst (fun j s => (j, s.2)) m.
Definition on_db {A} (m : M DB DbErr A) : DM A :=
  with_err EVMDatabase (zoom snd (fun d s => (s.1, d)) m).

Definition load_native_token_ids : DM bool :=
  js ← gets fst;
  match token_ids (state js) with
  | _ :: _ => mret false
  | [] =>
      ids ← on_db (fun db => (get_token_ids db, db));
      _ ← on_js (modify (set_state (set_token_ids (fun _ => ids))));
      _ ← on_js (push_entry (TokenIdsLoaded ids));
      mret true
  end.

Definition load_account (address : Address) : DM (Account * bool) :=
  js ← gets fst;
  match accounts (state js) !! address with
  | Some acc => mret (acc, false)
  | None =>
      o ← on_db (basic address);
      let acc := match o with
                 | Some i => Account_from_info i
                 | None => Account_new_not_existing
                 end in
      _ ← on_js (push_entry (AccountLoaded address));
      let is_cold := negb (bool_decide (address ∈ warm_preloaded_addresses js)) in
      _ ← on_js (modify (set_state (set_accounts (<[address := acc]>))));
      mret (acc, is_cold)
  end.

Definition load_account_exist (address : Address) : DM LoadAccountResult :=
  spec ← gets (fun s => spec s.1);
  '(acc, is_cold) ← load_account address;
  let is_spurious_dragon_enabled := enabled spec SPURIOUS_DRAGON in
  let is_empty :=
    if is_spurious_dragon_enabled then Account_is_empty acc
    else is_loaded_as_not_existing acc && negb (is_touched acc) in
  mret (mkLoadAccountResult is_cold is_empty).

Definition load_code (address : Address) : DM (Account * bool) :=
  '(acc, is_cold) ← load_account address;
  _ ← match code (info acc) with
      | Some _ => mret tt
      | None =>
          if code_hash (info acc) =? KECCAK_EMPTY
          then on_js (update_account address (set_info (set_info_code (Some Bytecode_new))))
          else
            c ← on_db (code_by_hash (code_hash (info acc)));
            on_js (update_account address (set_info (set_info_code (Some c))))
      end;
  acc ← on_js (account address);
  mret (acc, is_cold).

(** The loop over the preloaded slots. *)
Fixpoint preload_slots (address : Address) (slots : list Z) : DM unit :=
  match slots with
  | [] => mret tt
  | slot :: rest =>
      acc ← on_js (account address);
      _ ← match storage acc !! slot with
          | Some _ => mret tt
          | None =>
              v ← on_db (db_storage address slot);
              on_js (update_account address (set_storage (<[slot := EvmStorageSlot_new v]>)))
          end;
      preload_slots address rest
  end.

Definition initial_account_load (address : Address) (slots : list Z) : DM Account :=
  js ← gets fst;
  _ ← match accounts (state js) !! address with
      | Some _ => mret tt
      | None =>
          o ← on_db (basic address);
          on_js (modify (set_state (set_accounts
            (<[address := from_option Account_from_info Account_new_not_existing o]>))))
      end;
  _ ← preload_slots address slots;
  on_js (account address).

Definition sload (address : Address) (key : Z) : DM (Z * bool) :=
  acc ← on_js (account address);
  match storage acc !! key with
  | Some slot => mret (present_value slot, false)
  | None =>
      value ← (if is_created acc then mret 0 else on_db (db_storage address key));
      _ ← on_js (push_entry (StorageChange address key None));
      _ ← on_js (update_account address (set_storage (<[key := EvmStorageSlot_new value]>)));
      mret (value, true)
  end.

Definition sstore (address : Address) (key new : Z) : DM SStoreResult :=
  '(present, is_cold) ← sload address key;
  acc ← on_js (account address);
  slot ← lift (unwrap (storage acc !! key));
  if present =? new
  then mret (mkSStoreResult (original_value slot) present new is_cold)
  else
    _ ← on_js (push_entry (StorageChange address key (Some present)));
    _ ← on_js (update_account address
          (set_storage (<[key := mkSlot (original_value slot) new]>)));
    mret (mkSStoreResult (original_value slot) present new is_cold).

Definition transfer (from to : Address) (transfers : list TokenTransfer)
  : DM (option InstructionResult) :=
  _ ← load_native_token_ids;
  _ ← load_account from;
  _ ← load_account to;
  on_js (transfer_loop from to transfers).

Definition selfdestruct (address target : Address) : DM SelfDestructResult :=
  load_result ← load_account_exist target;
  _ ← (if negb (address =? target) then
         acc ← on_js (account address);
         let acc_balance := get_base_balance (info acc) in
         _ ← on_js (touch_account target);
         on_js (update_account target (set_info (increase_base_balance acc_balance)))
       else mret tt);
  acc ← on_js (account address);
  spec ← gets (fun s => spec s.1);
  let balance := get_base_balance (info acc) in
  let previously_destroyed := is_selfdestructed acc in
  let is_cancun_enabled := enabled spec CANCUN in
  journal_entry ←
    (if is_created acc || negb is_cancun_enabled then
       _ ← on_js (update_account address
             (fun a => set_info (set_base_balance 0) (mark_selfdestruct a)));
       mret (Some (AccountDestroyed address target previously_destroyed balance))
     else if negb (address =? target) then
       _ ← on_js (update_account address (set_info (set_base_balance 0)));
       mret (Some (BalanceTransfer address target BASE_TOKEN_ID balance))
     else mret None);
  _ ← match journal_entry with
      | Some entry => on_js (push_entry entry)
      | None => mret tt
      end;
  mret (mkSelfDestructResult (negb (balance =? 0)) (negb (load_is_empty load_result))
          (load_is_cold load_result) previously_destroyed).

(** [burn] and [mint] answer [false] where a step fails. *)
Definition burn `{Keccak} (burner : Address) (sub_id : Z) (token_holder : Address) (amount : Z)
  : DM bool :=
  if amount =? 0 then mret false else
  r ← attempt load_native_token_ids;
  match r with inl _ => mret false | inr _ =>
  r ← attempt (load_account token_holder);
  match r with inl _ => mret false | inr _ =>
  let token_id := token_id_address burner sub_id in
  r ← attempt (on_db (fun db => (is_token_id_valid db token_id, db)));
  match r with inl _ => mret false | inr false => mret false | inr true =>
  acc ← on_js (account token_holder);
  match checked_sub (get_balance (info acc) token_id) amount with
  | None => mret false
  | Some new_balance =>
      _ ← on_js (update_account token_holder (set_info (set_balance token_id new_balance)));
      _ ← on_js (push_entry (TokensBurned token_holder token_id amount));
      mret true
  end end end end.

Definition mint `{Keccak} (minter recipient : Address) (sub_id amount : Z) : DM bool :=
  r ← attempt load_native_token_ids;
  match r with inl _ => mret false | inr _ =>
  r ← attempt (load_account minter);
  match r with inl _ => mret false | inr _ =>
  let token_id := token_id_address minter sub_id in
  acc ← on_js (account recipient);
  match checked_add 256 (get_balance (info acc) token_id) amount with
  | None => mret false
  | Some new_balance =>
      _ ← on_js (update_account recipient (set_info (set_balance token_id new_balance)));
      js ← gets fst;
      _ ← (if bool_decide (token_id ∈ token_ids (state js)) then mret tt
           else on_js (modify (set_state (set_token_ids (fun ids => ids ++ [token_id])))));
      _ ← on_js (push_entry (TokensMinted minter recipient token_id amount));
      mret true
  end end end.
End with_database.
