(* ===== verification/JournalRevert.v ===== *)
(** Checkpoints: every sequence of journaled operations can be rewound.

    [jext j j' es] says that [j'] is reached from [j] by operations that
    journaled exactly the entries [es], and that reverting [es] from [j'] gives
    back [j].  It is reflexive and transitive, each operation of the journal
    establishes it, and [checkpoint_revert] uses it.

    Reverting does not restore a state bit for bit: a balance that was first
    written stays in the map as an explicit zero, a loaded code stays cached,
    and the touched flag of precompile 3 is kept on purpose. [st_equiv] is the
    equality that ignores exactly these; reverting an entry respects it. *)

From S2P Require Import Prelude Specification Bytes Eof Bytecode State Result InstructionResult.
From S2P Require Import Database.
From S2P Require Import Journal.

(** ** Observational equality of states *)

(** The status of an account, the touched flag of precompile 3 forced. *)
Definition norm_status (a : Address) (s : Z) : Z :=
  if decide (a = PRECOMPILE3) then flags_insert s Touched else s.

Record acc_equiv (a : Address) (x y : Account) : Prop := {
  ae_balance : forall t, get_balance (info x) t = get_balance (info y) t;
  ae_nonce : nonce (info x) = nonce (info y);
  ae_code_hash : code_hash (info x) = code_hash (info y);
  ae_storage : storage x = storage y;
  ae_status : norm_status a (status x) = norm_status a (status y);
}.

Definition accs_equiv (m n : gmap Address Account) : Prop :=
  forall a, option_Forall2 (acc_equiv a) (m !! a) (n !! a).

Definition st_equiv (s t : undo_state) : Prop :=
  accs_equiv (accounts s.1) (accounts t.1) /\ s.2 = t.2.

Definition opt_equiv : option undo_state -> option undo_state -> Prop := option_Forall2 st_equiv.

(** The part of a journaled state that reverting rewinds. *)
Definition undo_part (j : JournaledState) : undo_state := (state j, transient_storage j).

#[export] Instance acc_equiv_equivalence a : Equivalence (acc_equiv a).
Proof.
  split.
  - by split.
  - intros x y []. by split.
  - intros x y z [] []. split; intros; etrans; eauto.
Qed.

#[export] Instance accs_equiv_equivalence : Equivalence accs_equiv.
Proof.
  split.
  - intros m a. destruct (m !! a); by constructor.
  - intros m n H a. specialize (H a). by symmetry.
  - intros m n k H1 H2 a. by etrans; [apply H1 | apply H2].
Qed.

#[export] Instance st_equiv_equivalence : Equivalence st_equiv.
Proof.
  split.
  - intros s. by split.
  - intros s t []. by split.
  - intros s t u [] []. split; by etrans.
Qed.

#[export] Instance opt_equiv_equivalence : Equivalence opt_equiv.
Proof. unfold opt_equiv. split; apply _. Qed.

Lemma accs_equiv_lookup m n a x :
  accs_equiv m n -> m !! a = Some x -> exists y, n !! a = Some y /\ acc_equiv a x y.
Proof. intros Hmn Hx. specialize (Hmn a). rewrite Hx in Hmn. inversion Hmn; eauto. Qed.

(** ** Updates that respect the equality *)

Lemma accs_equiv_alter a f m n :
  (forall x y, acc_equiv a x y -> acc_equiv a (f x) (f y)) ->
  accs_equiv m n -> accs_equiv (alter f a m) (alter f a n).
Proof.
  intros Hf Hmn b. rewrite !lookup_alter. case_decide as Hab; [|apply Hmn].
  subst b. destruct (Hmn a); constructor. by apply Hf.
Qed.

Lemma accs_equiv_delete a m n : accs_equiv m n -> accs_equiv (delete a m) (delete a n).
Proof.
  intros Hmn b. rewrite !lookup_delete. case_decide; [constructor | apply Hmn].
Qed.

(** Two updates of one account that together change nothing. *)
Lemma accs_equiv_alter_alter a f g m :
  (forall x, m !! a = Some x -> acc_equiv a (g (f x)) x) ->
  accs_equiv (alter g a (alter f a m)) m.
Proof.
  intros Hgf b. destruct (decide (a = b)) as [<-|Hab].
  - rewrite !lookup_alter_eq. destruct (m !! a) as [x|] eqn:Hx; constructor. by apply Hgf.
  - by rewrite !lookup_alter_ne.
Qed.

Lemma norm_status_insert a s t f :
  norm_status a s = norm_status a t ->
  norm_status a (flags_insert s f) = norm_status a (flags_insert t f).
Proof.
  unfold norm_status, flags_insert. case_decide; [|by intros ->].
  rewrite <- !Z.lor_assoc, (Z.lor_comm f), !Z.lor_assoc. by intros ->.
Qed.

Lemma norm_status_remove a s t f :
  norm_status a s = norm_status a t ->
  norm_status a (flags_remove s f) = norm_status a (flags_remove t f).
Proof.
  unfold norm_status, flags_insert, flags_remove. case_decide; [|by intros ->].
  intros Heq. apply Z.bits_inj'. intros n Hn.
  apply (f_equal (fun z => Z.testbit z n)) in Heq. rewrite !Z.lor_spec in Heq.
  rewrite !Z.lor_spec, !Z.ldiff_spec.
  destruct (Z.testbit s n), (Z.testbit t n), (Z.testbit f n), (Z.testbit Touched n); done.
Qed.

Lemma increase_balance_equiv a t v x y :
  acc_equiv a x y -> acc_equiv a (set_info (increase_balance t v) x) (set_info (increase_balance t v) y).
Proof.
  intros [Hb Hn Hc Hs Hst]. split; simpl; try done. intros t'.
  rewrite !increase_balance_set, !get_balance_set. case_decide; [by rewrite Hb|apply Hb].
Qed.

Lemma decrease_balance_equiv a t v x y :
  acc_equiv a x y -> acc_equiv a (set_info (decrease_balance t v) x) (set_info (decrease_balance t v) y).
Proof.
  intros [Hb Hn Hc Hs Hst]. split; simpl; try done. intros t'.
  rewrite !decrease_balance_set, !get_balance_set. case_decide; [by rewrite Hb|apply Hb].
Qed.

Lemma set_nonce_equiv a (f : Z -> Z) x y :
  acc_equiv a x y ->
  acc_equiv a (set_info (fun i => set_nonce (f (nonce i)) i) x)
              (set_info (fun i => set_nonce (f (nonce i)) i) y).
Proof. intros [Hb Hn Hc Hs Hst]. split; simpl; try done. by rewrite Hn. Qed.

Lemma set_status_insert_equiv a f x y :
  acc_equiv a x y ->
  acc_equiv a (set_status (fun s => flags_insert s f) x) (set_status (fun s => flags_insert s f) y).
Proof. intros []. split; simpl; try done. by apply norm_status_insert. Qed.

Lemma set_status_remove_equiv a f x y :
  acc_equiv a x y ->
  acc_equiv a (set_status (fun s => flags_remove s f) x) (set_status (fun s => flags_remove s f) y).
Proof. intros []. split; simpl; try done. by apply norm_status_remove. Qed.

Lemma set_storage_equiv a f x y :
  acc_equiv a x y -> acc_equiv a (set_storage f x) (set_storage f y).
Proof. intros [Hb Hn Hc Hs Hst]. split; simpl; try done. by rewrite Hs. Qed.

Create HintDb undo.
#[export] Hint Resolve increase_balance_equiv decrease_balance_equiv set_nonce_equiv
  set_status_insert_equiv set_status_remove_equiv set_storage_equiv : undo.

Lemma undo_account_equiv a f s t :
  (forall x y, acc_equiv a x y -> acc_equiv a (f x) (f y)) ->
  st_equiv s t -> opt_equiv (undo_account a f s) (undo_account a f t).
Proof.
  intros Hf [Ha Hts]. unfold undo_account. pose proof (Ha a) as Hl.
  destruct Hl; simpl; constructor. split; [|done]. by apply accs_equiv_alter.
Qed.

Lemma opt_equiv_bind (o1 o2 : option undo_state) (f g : undo_state -> option undo_state) :
  opt_equiv o1 o2 -> (forall s t, st_equiv s t -> opt_equiv (f s) (g t)) ->
  opt_equiv (o1 ≫= f) (o2 ≫= g).
Proof. intros [] Hf; simpl; [by apply Hf | constructor]. Qed.

(** Reverting one entry respects the equality. *)
#[export] Instance revert_entry_proper sd e : Proper (st_equiv ==> opt_equiv) (revert_entry sd e).
Proof.
  intros s t Hst. pose proof Hst as [Ha Hts].
  destruct e; cbn [revert_entry].
  - constructor. split; [|done]. by apply accs_equiv_delete.
  - apply opt_equiv_bind.
    + apply undo_account_equiv; [|done]. intros x y Hxy.
      destruct was_destroyed; apply increase_balance_equiv; unfold mark_selfdestruct, unmark_selfdestruct; auto with undo.
    + intros s' t' Hst'. destruct (negb _); [|by constructor].
      apply undo_account_equiv; [|done]. apply decrease_balance_equiv.
  - destruct (sd && _); [by constructor|]. apply undo_account_equiv; [|done].
    apply set_status_remove_equiv.
  - apply opt_equiv_bind; [apply undo_account_equiv; auto with undo|].
    intros. apply undo_account_equiv; auto with undo.
  - apply undo_account_equiv; [|done]. intros x y Hxy.
    apply (set_nonce_equiv address (fun n => wrapping_sub 64 n 1) x y Hxy).
  - apply undo_account_equiv; [|done]. intros x y Hxy.
    apply (set_nonce_equiv address (fun _ => 0)). by apply set_status_remove_equiv.
  - destruct had_value as [v|].
    + pose proof (Ha address) as Hl. destruct Hl as [x y Hxy|]; simpl; [|constructor].
      rewrite (ae_storage _ _ _ Hxy). destruct (storage y !! key); simpl; [|constructor].
      apply undo_account_equiv; auto with undo.
    + apply undo_account_equiv; auto with undo.
  - rewrite Hts. destruct (had_value =? 0); by constructor.
  - apply undo_account_equiv; [|done]. intros x y []. by split.
  - apply undo_account_equiv; auto with undo.
  - constructor. by split.
  - apply undo_account_equiv; auto with undo.
Qed.

#[export] Instance journal_revert_proper sd es : Proper (st_equiv ==> opt_equiv) (journal_revert sd es).
Proof.
  induction es as [|e es IH]; intros s t Hst; simpl; [by constructor|].
  apply opt_equiv_bind; [by apply revert_entry_proper | apply IH].
Qed.

Lemma journal_revert_app sd es es' s :
  journal_revert sd (es ++ es') s = journal_revert sd es s ≫= journal_revert sd es'.
Proof.
  revert s. induction es as [|e es IH]; intros s; simpl; [done|].
  destruct (revert_entry sd e s); simpl; [apply IH | done].
Qed.

(** Reverting the journal sets one by one is reverting their concatenation. *)
Lemma revert_sets_concat sd sets s :
  revert_sets sd (reverse sets) s = journal_revert sd (reverse (concat sets)) s.
Proof.
  revert s. induction sets as [|cs sets IH] using rev_ind; intros s; [done|].
  rewrite reverse_app, concat_app, reverse_app. simpl. rewrite app_nil_r.
  rewrite journal_revert_app. destruct (journal_revert sd (reverse cs) s); simpl; [apply IH | done].
Qed.

(** ** Well-formed states *)

Definition wf_account (x : Account) : Prop := wf_info (info x).

Definition wf_accounts (m : gmap Address Account) : Prop :=
  forall a x, m !! a = Some x -> wf_account x.

Definition wf_transient (ts : TransientStorage) : Prop :=
  forall k v, ts !! k = Some v -> v <> 0.

Record wf_js (j : JournaledState) : Prop := {
  wf_accs : wf_accounts (accounts (state j));
  wf_ts : wf_transient (transient_storage j);
  wf_depth : fits 64 (depth j);
}.

(** ** Extension of the journal *)

(** [J'] is [J] with the entries [es] added, in its last set and in new ones. *)
Definition journal_ext (J J' : list (list JournalEntry)) (es : list JournalEntry) : Prop :=
  exists pre l k rest, J = pre ++ [l] /\ J' = pre ++ (l ++ k) :: rest /\ es = k ++ concat rest.

Definition sd (j : JournaledState) : bool := enabled (spec j) SPURIOUS_DRAGON.

Record jext (j j' : JournaledState) (es : list JournalEntry) : Prop := {
  jx_journal : journal_ext (journal j) (journal j') es;
  jx_undo : opt_equiv (journal_revert (sd j) (reverse es) (undo_part j')) (Some (undo_part j));
  jx_logs : exists ls, logs j' = logs j ++ ls;
  jx_depth : depth j' = depth j;
  jx_spec : spec j' = spec j;
  jx_warm : warm_preloaded_addresses j' = warm_preloaded_addresses j;
  jx_wf : wf_js j';
}.

Definition jpush (e : JournalEntry) (j : JournaledState) : JournaledState :=
  set_journal (fun l => default l (push_last e l)) j.

Lemma journal_ext_nonempty J J' es : journal_ext J J' es -> J' <> [].
Proof. intros (pre & l & k & rest & _ & -> & _). by destruct pre. Qed.

Lemma journal_ext_refl J : J <> [] -> journal_ext J J [].
Proof.
  intros HJ. destruct J as [|l pre _] using rev_ind; [done|].
  exists pre, l, [], []. by rewrite app_nil_r.
Qed.

Lemma journal_ext_trans J1 J2 J3 es es' :
  journal_ext J1 J2 es -> journal_ext J2 J3 es' -> journal_ext J1 J3 (es ++ es').
Proof.
  intros (pre & l & k & rest & -> & -> & ->) (pre' & l' & k' & rest' & Heq & -> & ->).
  destruct rest as [|x rest _] using rev_ind.
  - apply app_inj_tail in Heq as [<- <-].
    exists pre, l, (k ++ k'), rest'. rewrite app_nil_r, <- !app_assoc. auto.
  - change (pre ++ (l ++ k) :: rest ++ [x]) with (pre ++ ((l ++ k) :: rest) ++ [x]) in Heq.
    rewrite app_assoc in Heq. apply app_inj_tail in Heq as [<- <-].
    exists pre, l, k, (rest ++ (x ++ k') :: rest'). split; [done|].
    rewrite !concat_app. cbn [concat]. rewrite app_nil_r, <- !app_assoc. done.
Qed.

Lemma push_last_app {A} (e : A) pre l : push_last e (pre ++ [l]) = Some (pre ++ [l ++ [e]]).
Proof.
  induction pre as [|x pre IH]; [done|]. simpl. rewrite IH. by destruct pre.
Qed.

Lemma journal_ext_push J e :
  J <> [] -> journal_ext J (default J (push_last e J)) [e].
Proof.
  intros HJ. destruct J as [|l pre _] using rev_ind; [done|].
  rewrite push_last_app. exists pre, l, [e], []. done.
Qed.

Lemma push_entry_ok {E} e j :
  journal j <> [] -> push_entry (E := E) e j = (Ok tt, jpush e j).
Proof.
  intros HJ. unfold push_entry, jpush, set_journal.
  destruct (journal j) as [|l pre _] using rev_ind; [done|]. by rewrite push_last_app.
Qed.

Lemma jpush_nonempty e j : journal j <> [] -> journal (jpush e j) <> [].
Proof. intros H. eapply journal_ext_nonempty. by apply (journal_ext_push _ e). Qed.

Lemma jext_refl j : journal j <> [] -> wf_js j -> jext j j [].
Proof.
  intros HJ Hwf. split; auto using journal_ext_refl.
  - constructor. reflexivity.
  - exists []. by rewrite app_nil_r.
Qed.

Lemma jext_trans j1 j2 j3 es es' : jext j1 j2 es -> jext j2 j3 es' -> jext j1 j3 (es ++ es').
Proof.
  intros [HJ Hu [ls Hl] Hd Hs Hw Hwf] [HJ' Hu' [ls' Hl'] Hd' Hs' Hw' Hwf'].
  assert (Hsd : sd j2 = sd j1) by (unfold sd; by rewrite Hs).
  split; try congruence; try done.
  - by eapply journal_ext_trans.
  - rewrite reverse_app, journal_revert_app, <- Hsd. rewrite Hsd in Hu' |- *.
    etrans; [|exact Hu].
    apply (opt_equiv_bind _ (Some (undo_part j2))); [done|].
    apply journal_revert_proper.
  - exists (ls ++ ls'). by rewrite Hl', Hl, app_assoc.
Qed.

(** A change the equality ignores journals nothing. *)
Lemma jext_silent j st' :
  journal j <> [] -> wf_js j -> wf_accounts (accounts st') ->
  accs_equiv (accounts st') (accounts (state j)) ->
  jext j (set_state (fun _ => st') j) [].
Proof.
  intros HJ [Ha Ht Hd] Hwf Heq. split; simpl; try done.
  - by apply journal_ext_refl.
  - constructor. by split.
  - exists []. by rewrite app_nil_r.
Qed.

(** One journaled step: a new state and transient storage, and the entry that
    undoes them. *)
Lemma jext_entry e j st' ts' :
  journal j <> [] -> wf_js j -> wf_accounts (accounts st') -> wf_transient ts' ->
  opt_equiv (revert_entry (sd j) e (st', ts')) (Some (undo_part j)) ->
  jext j (jpush e (set_transient (fun _ => ts') (set_state (fun _ => st') j))) [e].
Proof.
  intros HJ [Ha Ht Hd] Hwf Hwt Hu. split; simpl; try done.
  - by apply journal_ext_push.
  - cbn [reverse rev_append journal_revert]. unfold undo_part. simpl.
    destruct (revert_entry (sd j) e (st', ts')); inversion Hu; subst. by constructor.
  - exists []. by rewrite app_nil_r.
Qed.

(** ** Updates of accounts *)

Lemma wf_alter a f m :
  wf_accounts m -> (forall x, m !! a = Some x -> wf_account (f x)) -> wf_accounts (alter f a m).
Proof.
  intros Hm Hf b y. rewrite lookup_alter. case_decide as Hab; [subst b|apply Hm].
  destruct (m !! a) as [x|] eqn:Hx; simpl; [|done]. intros [= <-]. by apply Hf.
Qed.

Lemma wf_set_balance t b x : fits 256 b -> wf_account x -> wf_account (set_info (set_balance t b) x).
Proof.
  intros Hb [Hbal Hn]. split; simpl; [|done]. intros t'. rewrite get_balance_set. by case_decide.
Qed.

Lemma wf_increase t v x : wf_account x -> wf_account (set_info (increase_balance t v) x).
Proof.
  intros Hx. apply (wf_set_balance t (wrapping_add 256 (get_balance (info x) t) v));
    [apply fits_wrapping_add; lia | done].
Qed.

Lemma wf_decrease t v x : wf_account x -> wf_account (set_info (decrease_balance t v) x).
Proof.
  intros Hx. apply (wf_set_balance t (wrapping_sub 256 (get_balance (info x) t) v));
    [apply fits_wrapping_sub; lia | done].
Qed.

Lemma wf_set_status f x : wf_account x -> wf_account (set_status f x).
Proof. by destruct x. Qed.

Lemma wf_set_storage f x : wf_account x -> wf_account (set_storage f x).
Proof. by destruct x. Qed.

#[export] Hint Resolve wf_increase wf_decrease wf_set_status wf_set_storage : undo.

(** Increasing and decreasing a balance by the same amount cancel. *)
Lemma decrease_increase a t v x :
  wf_account x ->
  acc_equiv a (set_info (decrease_balance t v) (set_info (increase_balance t v) x)) x.
Proof.
  intros [Hb _]. split; simpl; try done. intros t'.
  rewrite decrease_balance_set, increase_balance_set, !get_balance_set.
  case_decide; subst; [|done]. rewrite decide_True by done. by apply wrapping_sub_add.
Qed.

Lemma increase_decrease a t v x :
  wf_account x ->
  acc_equiv a (set_info (increase_balance t v) (set_info (decrease_balance t v) x)) x.
Proof.
  intros [Hb _]. split; simpl; try done. intros t'.
  rewrite decrease_balance_set, increase_balance_set, !get_balance_set.
  case_decide; subst; [|done]. rewrite decide_True by done. by apply wrapping_add_sub.
Qed.

Abbreviation dec t v := (set_info (decrease_balance t v)).
Abbreviation inc t v := (set_info (increase_balance t v)).

Lemma lookup_alter_None_keep (f : Account -> Account) a b (m : gmap Address Account) :
  m !! b = None -> alter f a m !! b = None.
Proof. intros Hb. rewrite lookup_alter. case_decide; subst; by rewrite Hb. Qed.

(** A transfer between two accounts, possibly the same, is undone by the
    transfer back: increase the sender, decrease the receiver. *)
Lemma move_undo from to t v m :
  wf_accounts m ->
  accs_equiv (alter (dec t v) to (alter (inc t v) from (alter (inc t v) to (alter (dec t v) from m)))) m.
Proof.
  intros Hm b. destruct (m !! b) as [x|] eqn:Hx.
  - destruct (decide (from = b)) as [->|Hf], (decide (to = b)) as [->|Ht];
      rewrite ?lookup_alter_eq, ?lookup_alter_ne, ?lookup_alter_eq, ?lookup_alter_ne,
        ?lookup_alter_eq, ?lookup_alter_ne, ?lookup_alter_eq, ?lookup_alter_ne, Hx by done;
      constructor; specialize (Hm _ _ Hx).
    + etrans; [apply decrease_increase; auto with undo|]. by apply increase_decrease.
    + by apply increase_decrease.
    + by apply decrease_increase.
    + reflexivity.
  - rewrite !lookup_alter_None_keep by (repeat apply lookup_alter_None_keep; done). constructor.
Qed.

(** A one-account entry whose undo is [g] undoes the update [f]. *)
Lemma undo_single a f g m st' ts :
  accounts st' = alter f a m -> is_Some (m !! a) ->
  (forall x, m !! a = Some x -> acc_equiv a (g (f x)) x) ->
  forall st, accounts st = m ->
  opt_equiv (undo_account a g (st', ts)) (Some (st, ts)).
Proof.
  intros Hst' [x Hx] Hg st Hst. unfold undo_account. simpl. rewrite Hst', lookup_alter_eq, Hx.
  constructor. split; [|done]. simpl. rewrite Hst', Hst. by apply accs_equiv_alter_alter.
Qed.

(** ** Equations of the primitives *)

Section primitives.
Context {E A : Type}.
Implicit Types (j : JournaledState).

Lemma account_bind a x (k : Account -> M JournaledState E A) j :
  accounts (state j) !! a = Some x -> (account a ≫= k) j = k x j.
Proof. intros Hx. unfold mbind, M_bind, account. by rewrite Hx. Qed.

Lemma account_bind_None a (k : Account -> M JournaledState E A) j :
  accounts (state j) !! a = None -> (account a ≫= k) j = (Panic, j).
Proof. intros Hx. unfold mbind, M_bind, account. by rewrite Hx. Qed.

Lemma push_bind e (k : unit -> M JournaledState E A) j :
  journal j <> [] -> (push_entry e ≫= k) j = k tt (jpush e j).
Proof. intros Hj. unfold mbind, M_bind. by rewrite push_entry_ok. Qed.

Lemma update_account_ok a f j :
  is_Some (accounts (state j) !! a) ->
  update_account (E := E) a f j = (Ok tt, set_state (set_accounts (alter f a)) j).
Proof.
  intros [x Hx]. unfold update_account. unfold mbind, M_bind, account. by rewrite Hx.
Qed.

Lemma update_bind a f (k : unit -> M JournaledState E A) j :
  is_Some (accounts (state j) !! a) ->
  (update_account a f ≫= k) j = k tt (set_state (set_accounts (alter f a)) j).
Proof. intros Hx. unfold mbind at 1, M_bind. by rewrite update_account_ok. Qed.
End primitives.

Lemma lookup_alter_is_Some (f : Account -> Account) a b (m : gmap Address Account) :
  is_Some (m !! b) -> is_Some (alter f a m !! b).
Proof. intros [x Hx]. rewrite lookup_alter. case_decide; subst; rewrite Hx; simpl; eauto. Qed.

(** One account changes, and one entry is pushed. *)
Lemma jext_update e a f g j st' :
  journal j <> [] -> wf_js j -> is_Some (accounts (state j) !! a) ->
  accounts st' = alter f a (accounts (state j)) ->
  (forall x, accounts (state j) !! a = Some x -> wf_account x -> wf_account (f x)) ->
  (forall x, accounts (state j) !! a = Some x -> wf_account x -> acc_equiv a (g (f x)) x) ->
  revert_entry (sd j) e (st', transient_storage j) = undo_account a g (st', transient_storage j) ->
  jext j (jpush e (set_state (fun _ => st') j)) [e].
Proof.
  intros HJ Hwf Ha Hst Hf Hg He.
  replace (set_state (fun _ => st') j)
    with (set_transient (fun _ => transient_storage j) (set_state (fun _ => st') j)) by by destruct j.
  destruct Hwf as [Hm Hts Hd]. apply jext_entry; try done.
  - rewrite Hst. apply wf_alter; [done|]. eauto.
  - rewrite He. eapply undo_single; eauto.
Qed.

(** *** Touching *)

Lemma touch_account_eq {E} a x j :
  journal j <> [] -> accounts (state j) !! a = Some x ->
  touch_account (E := E) a j =
    (Ok tt, if is_touched x then j
            else jpush (AccountTouched a) (set_state (set_accounts (alter mark_touch a)) j)).
Proof.
  intros HJ Hx. unfold touch_account. rewrite (account_bind _ x) by done.
  destruct (is_touched x); [done|]. rewrite push_bind by done.
  rewrite update_account_ok; [by destruct j|]. destruct j; simpl in *. eauto.
Qed.

Lemma touch_undo_status a x : is_touched x = false -> acc_equiv a (unmark_touch (mark_touch x)) x.
Proof.
  intros Ht. split; try done. unfold unmark_touch, mark_touch, set_status. cbn [status].
  by rewrite (flags_remove_insert _ 2).
Qed.

Lemma jext_touch a x j :
  journal j <> [] -> wf_js j -> accounts (state j) !! a = Some x -> is_touched x = false ->
  jext j (jpush (AccountTouched a) (set_state (set_accounts (alter mark_touch a)) j))
    [AccountTouched a].
Proof.
  intros HJ Hwf Hx Ht.
  replace (set_state (set_accounts (alter mark_touch a)) j)
    with (set_transient (fun _ => transient_storage j)
      (set_state (fun _ => set_accounts (alter mark_touch a) (state j)) j)) by by destruct j.
  destruct Hwf as [Hm Hts Hd]. apply jext_entry; try done.
  - simpl. apply wf_alter; [done|]. intros y Hy. apply wf_set_status. by eapply Hm.
  - cbn [revert_entry]. destruct (sd j && (a =? PRECOMPILE3)) eqn:Hp.
    + apply andb_true_iff in Hp as [_ ->%Z.eqb_eq]. constructor. split; [|done]. simpl.
      intros b. rewrite lookup_alter. case_decide as Hb; [subst b|reflexivity].
      rewrite Hx. constructor. split; try done. unfold norm_status, mark_touch, set_status.
      cbn [status]. rewrite decide_True by done. apply flags_insert_insert.
    + eapply (undo_single a mark_touch _ (accounts (state j))); [done|eauto| |done].
      intros y Hy. simplify_eq. by apply touch_undo_status.
Qed.

Lemma touch_jext {E} a x j :
  journal j <> [] -> wf_js j -> accounts (state j) !! a = Some x ->
  exists j' es, touch_account (E := E) a j = (Ok tt, j') /\ jext j j' es.
Proof.
  intros HJ Hwf Hx. rewrite (touch_account_eq a x) by done. destruct (is_touched x) eqn:Ht.
  - exists j, []. split; [done|]. by apply jext_refl.
  - eexists _, _. split; [done|]. by eapply jext_touch.
Qed.

(** ** The operations on the journaled state alone *)

(** From any state, either [m] panics or it extends the journal. *)
Definition jrewindable {E A} (m : M JournaledState E A) : Prop :=
  forall j r j', journal j <> [] -> wf_js j -> m j = (r, j') ->
    r = Panic \/ exists es, jext j j' es.

Lemma jext_nonempty j j' es : jext j j' es -> journal j' <> [].
Proof. intros []. by eapply journal_ext_nonempty. Qed.

Lemma jrewindable_ret {E A} (a : A) : jrewindable (mret a : M JournaledState E A).
Proof. intros j r j' HJ Hwf [= <- <-]. right. eexists. by apply jext_refl. Qed.

Lemma jrewindable_gets {E A} (f : JournaledState -> A) :
  jrewindable (gets f : M JournaledState E A).
Proof. intros j r j' HJ Hwf [= <- <-]. right. eexists. by apply jext_refl. Qed.

Lemma jrewindable_bind {E A B} (m : M JournaledState E A) (f : A -> M JournaledState E B) :
  jrewindable m -> (forall a, jrewindable (f a)) -> jrewindable (m ≫= f).
Proof.
  intros Hm Hf j r j' HJ Hwf H. apply M_bind_inv in H as [(a & j1 & H1 & H2)|[(e & H1 & ->)|[H1 ->]]].
  - apply Hm in H1 as [?|[es He]]; [done| |done..].
    apply Hf in H2 as [->|[es' He']]; [by left| | |].
    + right. eexists. by eapply jext_trans.
    + by eapply jext_nonempty.
    + apply He.
  - apply Hm in H1 as [?|[es He]]; [done|eauto|done..].
  - by left.
Qed.

Lemma jrewindable_account {E} a : jrewindable (account (E := E) a).
Proof.
  intros j r j' HJ Hwf H. unfold account in H. simplify_eq.
  right. eexists. by apply jext_refl.
Qed.

Lemma jrewindable_touch_account {E} a : jrewindable (touch_account (E := E) a).
Proof.
  intros j r j' HJ Hwf H. destruct (accounts (state j) !! a) as [x|] eqn:Hx.
  - destruct (touch_jext (E := E) a x j) as (j1 & es & Heq & He); [done..|].
    rewrite Heq in H. simplify_eq. eauto.
  - unfold touch_account in H. rewrite account_bind_None in H by done. simplify_eq. by left.
Qed.

Lemma jrewindable_touch {E} a : jrewindable (touch (E := E) a).
Proof.
  intros j r j' HJ Hwf H. unfold touch in H. destruct (accounts (state j) !! a).
  - by eapply jrewindable_touch_account.
  - simplify_eq. right. eexists. by apply jext_refl.
Qed.

Lemma jrewindable_log {E} l : jrewindable (log (E := E) l).
Proof.
  intros j r j' HJ Hwf [= <- <-]. right. exists [].
  destruct Hwf. split; try done.
  - by apply journal_ext_refl.
  - by exists [l].
Qed.

(** The last step of an operation: push an entry and update one account. *)
Lemma push_update_jext {E} e a f g j :
  journal j <> [] -> wf_js j -> is_Some (accounts (state j) !! a) ->
  (forall x, accounts (state j) !! a = Some x -> wf_account x -> wf_account (f x)) ->
  (forall x, accounts (state j) !! a = Some x -> wf_account x -> acc_equiv a (g (f x)) x) ->
  (forall s, revert_entry (sd j) e s = undo_account a g s) ->
  exists j', (_ ← push_entry e; update_account (E := E) a f) j = (Ok tt, j') /\ jext j j' [e].
Proof.
  intros HJ Hwf Ha Hf Hg He. exists (jpush e (set_state (set_accounts (alter f a)) j)). split.
  - rewrite push_bind, update_account_ok; [by destruct j|by destruct j|done].
  - replace (set_state (set_accounts (alter f a)) j)
      with (set_state (fun _ => set_accounts (alter f a) (state j)) j) by by destruct j.
    by eapply jext_update.
Qed.

Lemma lookup_touched a x j j' :
  accounts (state j) !! a = Some x ->
  touch_account (E := False) a j = (Ok tt, j') -> journal j <> [] ->
  accounts (state j') !! a = Some (if is_touched x then x else mark_touch x).
Proof.
  intros Hx H HJ. rewrite (touch_account_eq a x) in H by done.
  destruct (is_touched x); simplify_eq; [done|]. destruct j. simpl in *.
  by rewrite lookup_alter_eq, Hx.
Qed.

Lemma nonce_step_undo a n x :
  nonce (info x) = n -> fits 64 n -> n <> U64_MAX ->
  acc_equiv a
    (set_info (fun i => set_nonce (wrapping_sub 64 (nonce i) 1) i) (set_info (set_nonce (n + 1)) x)) x.
Proof.
  intros Hn Hf Hm. unfold fits, U64_MAX in *. split; try done. simpl.
  rewrite wrapping_sub_fits by (unfold fits; lia). lia.
Qed.

(** The two operations that touch an account and then change it. *)
Lemma touch_then_update {E A} e a f g (k : A) :
  (forall x, wf_account x -> wf_account (f x)) ->
  (forall sd s, revert_entry sd e s = undo_account a g s) ->
  forall j x r j', journal j <> [] -> wf_js j -> accounts (state j) !! a = Some x ->
  (forall y, (y = x \/ y = mark_touch x) -> wf_account y -> acc_equiv a (g (f y)) y) ->
  (_ ← touch_account (E := E) a; _ ← push_entry e; _ ← update_account a f; mret k) j = (r, j') ->
  exists es, jext j j' es.
Proof.
  intros Hf He j x r j' HJ Hwf Hx Hg H.
  set (j1 := if is_touched x then j
        else jpush (AccountTouched a) (set_state (set_accounts (alter mark_touch a)) j)).
  assert (exists es, jext j j1 es) as [es1 He1].
  { unfold j1. destruct (is_touched x) eqn:Ht; eexists; [by apply jext_refl|by eapply jext_touch]. }
  assert (Hy : accounts (state j1) !! a = Some (if is_touched x then x else mark_touch x)).
  { unfold j1. destruct (is_touched x); [done|]. destruct j. simpl in *. by rewrite lookup_alter_eq, Hx. }
  erewrite M_bind_ok in H by (by apply touch_account_eq). fold j1 in H.
  destruct (push_update_jext (E := E) e a f g j1) as (j2 & H2 & He2).
  - by eapply jext_nonempty.
  - apply He1.
  - eauto.
  - eauto.
  - intros y Hy' Hwy. rewrite Hy in Hy'. simplify_eq. apply Hg; [|done]. destruct (is_touched x); auto.
  - intros s. apply He.
  - exists (es1 ++ [e]). eapply jext_trans; [done|].
    assert (journal j1 <> []) by (eapply jext_nonempty; eassumption).
    rewrite push_bind in H by done. rewrite push_bind in H2 by done.
    erewrite M_bind_ok in H by exact H2. by injection H as _ <-.
Qed.

Lemma jrewindable_inc_nonce {E} a : jrewindable (inc_nonce (E := E) a).
Proof.
  intros j r j' HJ Hwf H. unfold inc_nonce in H.
  destruct (accounts (state j) !! a) as [x|] eqn:Hx.
  2: { rewrite account_bind_None in H by done. simplify_eq. by left. }
  rewrite (account_bind _ x) in H by done. pose proof (wf_accs _ Hwf _ _ Hx) as Hwx.
  destruct (Z.eqb_spec (nonce (info x)) U64_MAX) as [|Hm].
  { injection H as <- <-. right. eexists. by apply jext_refl. }
  right. eapply (touch_then_update (NonceChange a) a) in H; [exact H| |done|done|done|exact Hx|].
  - intros y [Hb Hn]. split; [done|]. simpl. pose proof (wf_nonce _ Hwx). unfold fits, U64_MAX in *. lia.
  - intros y Hy Hwy. apply nonce_step_undo; [|apply Hwx|done]. by destruct Hy; subst.
Qed.

Lemma set_code_jext `{Keccak} {E} a c j r j' :
  journal j <> [] -> wf_js j ->
  (forall x, accounts (state j) !! a = Some x -> code_hash (info x) = KECCAK_EMPTY) ->
  set_code (E := E) a c j = (r, j') -> r = Panic \/ exists es, jext j j' es.
Proof.
  intros HJ Hwf Hc H0. unfold set_code in H0.
  destruct (accounts (state j) !! a) as [x|] eqn:Hx.
  2: { rewrite account_bind_None in H0 by done. simplify_eq. by left. }
  rewrite (account_bind _ x) in H0 by done. right.
  assert (Hmr : (_ ← touch_account (E := E) a; _ ← push_entry (CodeChange a);
    _ ← update_account a (set_info (fun i => set_info_code (Some c) (set_code_hash (hash_slow c) i)));
    mret tt) j = (r, j')).
  { rewrite <- H0. unfold mbind, M_bind. destruct (touch_account a j) as [[[]|e|] j1]; try done.
    destruct (push_entry (CodeChange a) j1) as [[[]|e|] j2]; try done.
    by destruct (update_account a _ j2) as [[[]|e|] j3]. }
  eapply (touch_then_update (CodeChange a) a) in Hmr; [exact Hmr| |done|done|done|exact Hx|].
  - intros y [Hb Hn]. by split.
  - intros y Hy Hwy. specialize (Hc _ eq_refl). split; try done. simpl. by destruct Hy; subst.
Qed.

(** *** Transient storage *)

Lemma jrewindable_tstore {E} a k v : jrewindable (tstore (E := E) a k v).
Proof.
  intros j r j' HJ Hwf H. unfold tstore in H. destruct Hwf as [Hm Hts Hd].
  assert (Hsame : set_transient (fun _ => transient_storage j) j = j) by by destruct j.
  destruct (Z.eqb_spec v 0) as [->|Hv].
  - destruct (transient_storage j !! (a, k)) as [w|] eqn:Hw.
    + rewrite push_entry_ok in H by by destruct j. simplify_eq. right. eexists.
      replace (set_transient (fun _ => delete (a, k) (transient_storage j)) j)
        with (set_transient (fun _ => delete (a, k) (transient_storage j))
          (set_state (fun _ => state j) j)) by by destruct j.
      apply jext_entry; try done.
      * intros k' v' [_ Hk]%lookup_delete_Some. by eapply Hts.
      * cbn [revert_entry]. destruct (Z.eqb_spec w 0); [by apply Hts in Hw|].
        constructor. split; [done|]. simpl. by apply insert_delete_id.
    + simplify_eq. rewrite delete_id, Hsame by done. right. eexists. by apply jext_refl.
  - destruct (transient_storage j !! (a, k)) as [w|] eqn:Hw; cbn [default from_option id] in H.
    + destruct (Z.eqb_spec w v) as [->|Hwv]; cbn [negb] in H.
      * simplify_eq. rewrite insert_id, Hsame by done. right. eexists. by apply jext_refl.
      * rewrite push_entry_ok in H by by destruct j. simplify_eq. right. eexists.
        replace (set_transient (fun _ => <[(a, k):=v]> (transient_storage j)) j)
          with (set_transient (fun _ => <[(a, k):=v]> (transient_storage j))
            (set_state (fun _ => state j) j)) by by destruct j.
        apply jext_entry; try done.
        -- intros k' v' [[_ <-]|[_ Hk]]%lookup_insert_Some; [done|]. by eapply Hts.
        -- cbn [revert_entry]. destruct (Z.eqb_spec w 0); [by apply Hts in Hw|].
           constructor. split; [done|]. simpl. rewrite insert_insert_eq. by apply insert_id.
    + destruct (Z.eqb_spec 0 v); [lia|]. cbn [negb] in H.
      rewrite push_entry_ok in H by by destruct j. simplify_eq. right. eexists.
      replace (set_transient (fun _ => <[(a, k):=v]> (transient_storage j)) j)
        with (set_transient (fun _ => <[(a, k):=v]> (transient_storage j))
          (set_state (fun _ => state j) j)) by by destruct j.
      apply jext_entry; try done.
      * intros k' v' [[_ <-]|[_ Hk]]%lookup_insert_Some; [done|]. by eapply Hts.
      * cbn [revert_entry]. rewrite Z.eqb_refl. constructor. split; [done|]. simpl.
        by apply delete_insert_id.
Qed.
