(* ===== verification/JournalRun.v ===== *)
(** Checkpoints, continued: the operations that read the database, nested
    calls, and the theorem that reverting to a checkpoint restores the state. *)

From S2P Require Import Prelude Specification Bytes Eof Bytecode State Result InstructionResult.
From S2P Require Import Database Journal JournalRevert.

(** ** Commuting updates *)

Lemma alter_swap (f g : Account -> Account) a b (m : gmap Address Account) :
  (forall x, f (g x) = g (f x)) -> alter f a (alter g b m) = alter g b (alter f a m).
Proof.
  intros Hfg. apply map_eq. intros k.
  destruct (decide (a = b)) as [<-|Hab].
  - rewrite !lookup_alter. repeat case_decide; try done. destruct (m !! a); simpl; [|done].
    by rewrite Hfg.
  - rewrite !lookup_alter. repeat case_decide; congruence.
Qed.

Lemma alter_twice (f g : Account -> Account) a (m : gmap Address Account) :
  alter f a (alter g a m) = alter (fun x => f (g x)) a m.
Proof.
  apply map_eq. intros k. rewrite !lookup_alter. repeat case_decide; try done. by destruct (m !! a).
Qed.

Lemma alter_at (f g : Account -> Account) a x (m : gmap Address Account) :
  m !! a = Some x -> f x = g x -> alter f a m = alter g a m.
Proof.
  intros Hx Hfg. apply map_eq. intros k. rewrite !lookup_alter. case_decide; [|done].
  subst. by rewrite Hx; simpl; rewrite Hfg.
Qed.

(** Touching an account commutes with an update of the infos. *)
Lemma touch_after_update {E} a b f j :
  journal j <> [] -> is_Some (accounts (state j) !! b) ->
  touch_account (E := E) b (set_state (set_accounts (alter (set_info f) a)) j) =
  let '(r, j') := touch_account (E := E) b j in
  (r, set_state (set_accounts (alter (set_info f) a)) j').
Proof.
  intros HJ [x Hx]. rewrite (touch_account_eq b x j) by done.
  rewrite (touch_account_eq b (if decide (a = b) then set_info f x else x)).
  - replace (is_touched (if decide (a = b) then set_info f x else x)) with (is_touched x)
      by by case_decide.
    destruct (is_touched x); [done|]. f_equal.
    assert (Hm : forall m, alter mark_touch b (alter (set_info f) a m)
                         = alter (set_info f) a (alter mark_touch b m)) by by intros; apply alter_swap.
    unfold jpush, set_state, set_accounts, set_journal. simpl. by rewrite Hm.
  - done.
  - simpl. rewrite lookup_alter. case_decide; subst; by rewrite Hx.
Qed.

(** ** Token movements *)

Lemma checked_sub_dec t v b x :
  wf_account x -> fits 256 v -> checked_sub (get_balance (info x) t) v = Some b ->
  set_info (set_balance t b) x = dec t v x /\ fits 256 b.
Proof.
  intros [Hb _] Hv [-> Hle]%checked_sub_Some. specialize (Hb t). unfold fits in *.
  split; [|lia]. unfold set_info. by rewrite decrease_balance_set, wrapping_sub_fits by (unfold fits; lia).
Qed.

Lemma checked_add_inc t v b x :
  wf_account x -> fits 256 v -> checked_add 256 (get_balance (info x) t) v = Some b ->
  set_info (set_balance t b) x = inc t v x /\ fits 256 b.
Proof.
  intros [Hb _] Hv [-> Hle]%checked_add_Some. specialize (Hb t). unfold fits in *.
  split; [|lia]. unfold set_info. by rewrite increase_balance_set, wrapping_add_fits by (unfold fits; lia).
Qed.

(** Zeroing a balance is decreasing it by itself. *)
Lemma set_zero_dec t x :
  wf_account x -> set_info (set_balance t 0) x = dec t (get_balance (info x) t) x.
Proof.
  intros [Hb _]. unfold set_info. rewrite decrease_balance_set, wrapping_sub_fits; rewrite Z.sub_diag; done.
Qed.

Lemma inc_zero a t v x :
  wf_account x -> v = get_balance (info x) t -> acc_equiv a (inc t v (set_info (set_balance t 0) x)) x.
Proof. intros Hx ->. rewrite set_zero_dec by done. by apply increase_decrease. Qed.

Lemma wf_dec_accounts a t v m : wf_accounts m -> wf_accounts (alter (dec t v) a m).
Proof. intros Hm. apply wf_alter; [done|]. intros x Hx. by eapply wf_decrease, Hm. Qed.

Lemma wf_inc_accounts a t v m : wf_accounts m -> wf_accounts (alter (inc t v) a m).
Proof. intros Hm. apply wf_alter; [done|]. intros x Hx. by eapply wf_increase, Hm. Qed.

#[export] Hint Resolve wf_dec_accounts wf_inc_accounts : undo.

(** The two halves of a movement commute, up to the equality. *)
Lemma move_commute from to t v m :
  wf_accounts m ->
  accs_equiv (alter (dec t v) from (alter (inc t v) to m)) (alter (inc t v) to (alter (dec t v) from m)).
Proof.
  intros Hm. destruct (decide (from = to)) as [<-|Hne].
  - etrans; [apply accs_equiv_alter_alter; intros; apply decrease_increase; eauto; by eapply Hm|].
    symmetry. apply accs_equiv_alter_alter; intros; apply increase_decrease; by eapply Hm.
  - intros b. rewrite !lookup_alter. repeat case_decide; congruence || reflexivity.
Qed.

(** An entry whose undo moves [v] back from [to] to [from] undoes the movement. *)
Lemma jext_move e from to t v j st' :
  journal j <> [] -> wf_js j ->
  is_Some (accounts (state j) !! from) -> is_Some (accounts (state j) !! to) ->
  accs_equiv (accounts st') (alter (inc t v) to (alter (dec t v) from (accounts (state j)))) ->
  wf_accounts (accounts st') ->
  (forall s, revert_entry (sd j) e s =
     (s ← undo_account from (inc t v) s; undo_account to (dec t v) s)) ->
  jext j (jpush e (set_state (fun _ => st') j)) [e].
Proof.
  intros HJ [Hm Hts Hd] Hf Ht Hst Hwf He.
  change (jext j (jpush e (set_transient (fun _ => transient_storage j)
    (set_state (fun _ => st') j))) [e]).
  apply jext_entry; try done. rewrite He.
  transitivity (s ← undo_account from (inc t v)
     (set_accounts (fun _ => alter (inc t v) to (alter (dec t v) from (accounts (state j)))) st',
        transient_storage j);
     undo_account to (dec t v) s).
  { apply opt_equiv_bind.
    - apply undo_account_equiv; [auto with undo|]. by split.
    - intros. apply undo_account_equiv; auto with undo. }
  unfold undo_account. simpl.
  destruct (lookup_alter_is_Some (inc t v) to from (alter (dec t v) from (accounts (state j))))
    as [x Hx]; [by apply lookup_alter_is_Some|]. rewrite Hx. simpl.
  destruct (lookup_alter_is_Some (inc t v) from to
    (alter (inc t v) to (alter (dec t v) from (accounts (state j))))) as [y Hy];
    [by repeat apply lookup_alter_is_Some|]. rewrite Hy. simpl.
  constructor. split; [|done]. simpl. by apply move_undo.
Qed.

Lemma touch_account_Some {E} a j r j' :
  touch_account (E := E) a j = (r, j') -> r = Ok tt -> exists x, accounts (state j) !! a = Some x.
Proof.
  intros Ht ->. destruct (accounts (state j) !! a) as [x|] eqn:Ha; [eauto|].
  unfold touch_account in Ht. by rewrite account_bind_None in Ht.
Qed.

(** The update of the sender that precedes the touch of the receiver can be
    read after it. *)
Lemma transfer_step {E} from to t v b b' j j2 x y :
  journal j <> [] -> wf_js j -> fits 256 v ->
  accounts (state j) !! from = Some x ->
  checked_sub (get_balance (info x) t) v = Some b ->
  touch_account (E := E) to (set_state (set_accounts (alter (set_info (set_balance t b)) from)) j) = (Ok tt, j2) ->
  accounts (state j2) !! to = Some y ->
  checked_add 256 (get_balance (info y) t) v = Some b' ->
  exists es, jext j (jpush (BalanceTransfer from to t v)
    (set_state (set_accounts (alter (set_info (set_balance t b')) to)) j2)) es.
Proof.
  intros HJ Hwf Hv Hx Hb Htouch Hy Hb'.
  destruct (touch_account_Some (E := E) to _ _ _ Htouch eq_refl) as [z' Hz'].
  destruct (accounts (state j) !! to) as [z|] eqn:Hz.
  2: { simpl in Hz'. by rewrite lookup_alter_None_keep in Hz'. }
  rewrite touch_after_update in Htouch by eauto.
  destruct (touch_jext (E := E) to z j HJ Hwf Hz) as (j1 & es & Ht1 & He1).
  rewrite Ht1 in Htouch. injection Htouch as <-.
  pose proof (jx_wf _ _ _ He1) as Hwf1. pose proof (jext_nonempty _ _ _ He1) as HJ1.
  assert (exists x1, accounts (state j1) !! from = Some x1 /\ info x1 = info x) as (x1 & Hx1 & Hix).
  { rewrite (touch_account_eq to z) in Ht1 by done. destruct (is_touched z); simplify_eq; [eauto|].
    simpl. rewrite lookup_alter. case_decide; simplify_eq; rewrite ?Hx, ?Hz; simpl; eauto. }
  rewrite <- Hix in Hb. pose proof (wf_accs _ Hwf1 _ _ Hx1) as Hwx.
  destruct (checked_sub_dec t v b x1) as [Hdec _]; [done..|].
  assert (Ham : alter (set_info (set_balance t b)) from (accounts (state j1))
    = alter (dec t v) from (accounts (state j1))) by by eapply alter_at.
  simpl in Hy. rewrite Ham in Hy.
  assert (Hwy : wf_account y) by (eapply (wf_dec_accounts from t v); [apply Hwf1|exact Hy]).
  destruct (checked_add_inc t v b' y) as [Hinc _]; [done..|].
  exists (es ++ [BalanceTransfer from to t v]). eapply jext_trans; [done|].
  apply (jext_move (BalanceTransfer from to t v) from to t v j1
    (set_accounts (alter (set_info (set_balance t b')) to)
      (set_accounts (alter (set_info (set_balance t b)) from) (state j1)))); try done.
  - destruct (accounts (state j1) !! to) eqn:Hto; [eauto|].
    by rewrite lookup_alter_None_keep in Hy.
  - simpl. rewrite Ham. by rewrite (alter_at _ (inc t v) _ y).
  - simpl. rewrite Ham. rewrite (alter_at _ (inc t v) _ y) by done.
    apply wf_inc_accounts, wf_dec_accounts, Hwf1.
Qed.

(** A loop of transfers that does not end in an overflow can be rewound. *)
Lemma transfer_loop_jext {E} from to ts :
  Forall (fun t => fits 256 (transfer_amount t)) ts ->
  forall j r j', journal j <> [] -> wf_js j -> transfer_loop (E := E) from to ts j = (r, j') ->
  r = Panic \/ r = Ok (Some IR_OverflowPayment) \/ exists es, jext j j' es.
Proof.
  induction 1 as [|t ts Ht _ IH]; intros j r j' HJ Hwf Hm; cbn [transfer_loop] in Hm.
  { injection Hm as <- <-. right. right. eexists. by apply jext_refl. }
  apply M_bind_inv in Hm as [([] & j1 & H1 & Hm)|[(e & H1 & ->)|[H1 ->]]]; [| |by left].
  2: { apply jrewindable_touch_account in H1 as [?|?]; [done|by right; right|done..]. }
  apply jrewindable_touch_account in H1 as [?|[es1 He1]]; [done| |done..].
  pose proof (jext_nonempty _ _ _ He1) as HJ1. pose proof (jx_wf _ _ _ He1) as Hwf1.
  destruct (accounts (state j1) !! from) as [x|] eqn:Hx.
  2: { rewrite account_bind_None in Hm by done. simplify_eq. by left. }
  rewrite (account_bind _ x) in Hm by done.
  destruct (checked_sub _ _) as [b|] eqn:Hb; [|injection Hm as <- <-; eauto].
  rewrite update_bind in Hm by eauto.
  apply M_bind_inv in Hm as [([] & j2 & H2 & Hm)|[(e & H2 & ->)|[H2 ->]]]; [| |by left].
  2: { unfold touch_account in H2.
       destruct (accounts (state (set_state (set_accounts (alter (set_info
         (set_balance (transfer_id t) b)) from)) j1)) !! to) as [y|] eqn:Hy.
       - rewrite (account_bind _ y) in H2 by done. destruct (is_touched y); [done|].
         rewrite push_bind, update_account_ok in H2; simpl; eauto. done.
       - by rewrite account_bind_None in H2. }
  destruct (accounts (state j2) !! to) as [y|] eqn:Hy.
  2: { rewrite account_bind_None in Hm by done. simplify_eq. by left. }
  rewrite (account_bind _ y) in Hm by done.
  destruct (checked_add _ _ _) as [b'|] eqn:Hb'; [|injection Hm as <- <-; auto].
  assert (HJ2 : journal j2 <> []).
  { destruct (touch_account_Some (E := E) to _ _ _ H2 eq_refl) as [z Hz].
    rewrite (touch_account_eq to z) in H2 by done.
    destruct (is_touched z); simplify_eq; [done|]. by apply jpush_nonempty. }
  rewrite update_bind, push_bind in Hm by (eauto || done).
  destruct (transfer_step (E := E) from to (transfer_id t) (transfer_amount t) b b' j1 j2 x y) as [es2 He2]; try done.
  apply IH in Hm as [?|[?|[es3 He3]]]; [auto..| | |].
  - right. right. eexists. eapply jext_trans; [done|]. eapply jext_trans; done.
  - by eapply jext_nonempty.
  - apply He2.
Qed.

(** *** Self-destruction *)

Abbreviation destroy := (fun a => set_info (set_base_balance 0) (mark_selfdestruct a)).

(** What [selfdestruct] does to the target before it destroys the account. *)
Definition credited (address target : Address) (bal : Z) (m : gmap Address Account) : gmap Address Account :=
  if decide (address = target) then m else alter (inc BASE_TOKEN_ID bal) target m.

Lemma undo_destroy a x :
  wf_account x ->
  acc_equiv a
    (inc BASE_TOKEN_ID (get_base_balance (info x))
      (if is_selfdestructed x then mark_selfdestruct (destroy x) else unmark_selfdestruct (destroy x))) x.
Proof.
  intros Hx. assert (Hs : status (if is_selfdestructed x then mark_selfdestruct (destroy x)
    else unmark_selfdestruct (destroy x)) = status x).
  { destruct (is_selfdestructed x) eqn:Hd; unfold is_selfdestructed in Hd; simpl.
    - rewrite flags_insert_insert. by apply (flags_insert_id _ 1).
    - by apply (flags_remove_insert _ 1). }
  destruct (inc_zero a BASE_TOKEN_ID (get_base_balance (info x)) x Hx eq_refl) as [Hb _ _ _ _].
  split; [|by destruct (is_selfdestructed x)..|].
  - intros t. rewrite <- (Hb t). by destruct (is_selfdestructed x).
  - cbn [status set_info]. by rewrite Hs.
Qed.

Lemma jext_destroy address target x j st' :
  journal j <> [] -> wf_js j ->
  accounts (state j) !! address = Some x -> is_Some (accounts (state j) !! target) ->
  accounts st' = alter destroy address (credited address target (get_base_balance (info x)) (accounts (state j))) ->
  exists es, jext j (jpush (AccountDestroyed address target (is_selfdestructed x) (get_base_balance (info x)))
    (set_state (fun _ => st') j)) es.
Proof.
  intros HJ [Hm Hts Hd] Hx [y Hy] Hst. set (bal := get_base_balance (info x)) in *. eexists.
  apply (jext_entry _ j st' (transient_storage j)); try done.
  - rewrite Hst. apply wf_alter.
    + unfold credited. case_decide; auto with undo.
    + intros z Hz. apply wf_set_balance; [done|]. apply wf_set_status.
      assert (wf_accounts (credited address target bal (accounts (state j)))) as Hc; [|by eapply Hc].
      unfold credited. case_decide; auto with undo.
  - cbn [revert_entry]. unfold undo_account. cbn [fst snd]. rewrite Hst, lookup_alter_eq.
    pose proof (undo_destroy address x (Hm _ _ Hx)) as Hu. fold bal in Hu.
    unfold credited. destruct (Z.eqb_spec address target) as [<-|Hne].
    + rewrite decide_True by done. rewrite Hx. constructor. split; [|done]. simpl.
      rewrite Hst. unfold credited. rewrite decide_True by done.
      apply (accs_equiv_alter_alter address). intros z Hz. rewrite Hx in Hz. injection Hz as <-. apply Hu.
    + rewrite decide_False by done. rewrite lookup_alter_ne, Hx by done.
      cbn [negb mbind option_bind fmap option_fmap option_map fst snd accounts set_accounts].
      rewrite Hst. unfold credited. rewrite decide_False by done.
      rewrite lookup_alter_ne, lookup_alter_ne, lookup_alter_eq, Hy by done.
      constructor. split; [|done]. simpl. rewrite Hst. unfold credited. rewrite decide_False by done.
      intros b. destruct (decide (b = address)) as [->|Hb]; [|destruct (decide (b = target)) as [->|]].
      * rewrite lookup_alter_ne, !lookup_alter_eq, lookup_alter_ne, Hx by done. constructor. apply Hu.
      * rewrite lookup_alter_eq, !lookup_alter_ne, lookup_alter_eq, Hy by done. constructor.
        apply decrease_increase. by eapply Hm.
      * rewrite !lookup_alter_ne by done. reflexivity.
Qed.

(** ** Operations with a database *)

Section rewind.
Context {DB DbErr : Type} `{HDB : Database DB DbErr} `{HOK : !DatabaseOk DB DbErr}.
Abbreviation DM := (M (JournaledState * DB) (EVMError DbErr)).

Abbreviation EM E := (M (JournaledState * DB) E).

(** The states operations run in: an open journal set, well-formed accounts
    and a database in its invariant. *)
Record ready (j : JournaledState) (d : DB) : Prop := {
  rd_journal : journal j <> [];
  rd_wf : wf_js j;
  rd_db : db_ok d;
}.

(** From [(j, d)], the computation panics or extends the journal. *)
Definition rewind_at {E A} (m : EM E A) (j : JournaledState) (d : DB) : Prop :=
  forall r j' d', m (j, d) = (r, (j', d')) ->
    r = Panic \/ ((exists es, jext j j' es) /\ db_ok d').

Definition rewindable {E A} (m : EM E A) : Prop := forall j d, ready j d -> rewind_at m j d.

Lemma ready_jext j d j' d' es : jext j j' es -> db_ok d' -> ready j d -> ready j' d'.
Proof. intros He Hd [HJ Hwf _]. split; [by eapply jext_nonempty|apply He|done]. Qed.

Lemma rewind_ret {E A} (a : A) : rewindable (mret a : EM E A).
Proof. intros j d [HJ Hwf Hd] r j' d' [= <- <- <-]. right. split; [|done]. eexists. by apply jext_refl. Qed.

Lemma rewind_gets {E A} (f : JournaledState * DB -> A) : rewindable (gets f : EM E A).
Proof. intros j d [HJ Hwf Hd] r j' d' [= <- <- <-]. right. split; [|done]. eexists. by apply jext_refl. Qed.

Lemma rewind_lift {E A} (o : outcome E A) : rewindable (lift o : EM E A).
Proof. intros j d [HJ Hwf Hd] r j' d' [= <- <- <-]. right. split; [|done]. eexists. by apply jext_refl. Qed.

Lemma rewind_bind_at {E A B} (m : EM E A) (f : A -> EM E B) j d :
  ready j d -> rewind_at m j d ->
  (forall a j' d' es, m (j, d) = (Ok a, (j', d')) -> jext j j' es -> ready j' d' ->
     rewind_at (f a) j' d') ->
  rewind_at (m ≫= f) j d.
Proof.
  intros Hr Hm Hf r j' d' H.
  apply M_bind_inv in H as [(a & [j1 d1] & H1 & H2)|[(e & H1 & ->)|[H1 ->]]].
  - pose proof H1 as H1'. apply Hm in H1 as [?|[[es He] Hd]]; [done|].
    pose proof (ready_jext _ _ _ _ _ He Hd Hr) as Hr1.
    apply (Hf _ _ _ _ H1' He Hr1) in H2 as [->|[[es' He'] Hd']]; [by left|].
    right. split; [|done]. eexists. by eapply jext_trans.
  - by apply Hm in H1 as [?|?]; [|right].
  - by left.
Qed.

Lemma rewind_bind {E A B} (m : EM E A) (f : A -> EM E B) :
  rewindable m -> (forall a, rewindable (f a)) -> rewindable (m ≫= f).
Proof. intros Hm Hf j d Hr. eapply rewind_bind_at; [done|by apply Hm|]. intros. by apply Hf. Qed.

Lemma on_js_eq {A} (m : M JournaledState (EVMError DbErr) A) j (d : DB) :
  on_js m (j, d) = let '(r, j') := m j in (r, (j', d)).
Proof. unfold on_js, zoom. simpl. by destruct (m j). Qed.

Lemma rewind_on_js {A} (m : M JournaledState (EVMError DbErr) A) :
  jrewindable m -> rewindable (on_js m).
Proof.
  intros Hm j d [HJ Hwf Hd] r j' d' H. rewrite on_js_eq in H.
  destruct (m j) as [r1 j1] eqn:H1. simplify_eq.
  apply Hm in H1 as [?|?]; auto.
Qed.

Lemma on_js_bind {A B} (m : M JournaledState (EVMError DbErr) A) (k : A -> DM B) a j j' (d : DB) :
  m j = (Ok a, j') -> (on_js m ≫= k) (j, d) = k a (j', d).
Proof. intros Hm. apply M_bind_ok. by rewrite on_js_eq, Hm. Qed.

Lemma js_account {B} a (k : Account -> DM B) y j d :
  accounts (state j) !! a = Some y -> (on_js (account a) ≫= k) (j, d) = k y (j, d).
Proof. intros Hy. apply on_js_bind. unfold account. by rewrite Hy. Qed.

Lemma js_account_None {B} a (k : Account -> DM B) j d :
  accounts (state j) !! a = None -> (on_js (account a) ≫= k) (j, d) = (Panic, (j, d)).
Proof. intros Ha. unfold mbind, M_bind. rewrite on_js_eq. unfold account. by rewrite Ha. Qed.

Lemma js_push {B} e (k : unit -> DM B) j d :
  journal j <> [] -> (on_js (push_entry e) ≫= k) (j, d) = k tt (jpush e j, d).
Proof. intros HJ. apply on_js_bind. by apply push_entry_ok. Qed.

Lemma js_update {B} a f (k : unit -> DM B) j d :
  is_Some (accounts (state j) !! a) ->
  (on_js (update_account a f) ≫= k) (j, d) = k tt (set_state (set_accounts (alter f a)) j, d).
Proof. intros Ha. apply on_js_bind. by apply update_account_ok. Qed.

Lemma js_modify {B} f (k : unit -> DM B) j d :
  (on_js (modify f) ≫= k) (j, d) = k tt (f j, d).
Proof. by apply on_js_bind. Qed.

(** A database read keeps the journaled state. *)
Lemma rewind_on_db {A} (m : M DB DbErr A) :
  (forall d r d', db_ok d -> m d = (r, d') -> db_ok d') -> rewindable (on_db m).
Proof.
  intros Hm j d [HJ Hwf Hd] r j' d' H. unfold on_db, with_err, zoom in H. simpl in H.
  destruct (m d) as [r1 d1] eqn:H1. simplify_eq. right. split; [|by eauto].
  eexists. by apply jext_refl.
Qed.

Lemma on_db_Ok {A} (m : M DB DbErr A) j d a j' d' :
  on_db m (j, d) = (Ok a, (j', d')) -> m d = (Ok a, d') /\ j' = j.
Proof.
  unfold on_db, with_err, zoom. simpl. destruct (m d) as [[]]; intros [=]; by subst.
Qed.

Lemma rewind_attempt {E F A} (m : EM E A) : rewindable m -> rewindable (attempt m : EM F (E + A)).
Proof.
  intros Hm j d Hr r j' d' H. unfold attempt in H.
  destruct (m (j, d)) as [[a|e|] [j1 d1]] eqn:H1; simplify_eq; auto;
    apply (Hm _ _ Hr) in H1 as [?|?]; first [done | by right | by left].
Qed.

(** A computation that ends in one journaled step. *)
Lemma rewind_step {E A} (m : EM E A) j d r j1 es :
  ready j d -> m (j, d) = (r, (j1, d)) -> jext j j1 es -> rewind_at m j d.
Proof.
  intros [HJ Hwf Hd] Hm He r' j' d' H. rewrite Hm in H. simplify_eq. right. eauto.
Qed.

Lemma rewind_panic {E A} (m : EM E A) j d s : m (j, d) = (Panic, s) -> rewind_at m j d.
Proof. intros Hm r j' d' H. rewrite Hm in H. simplify_eq. by left. Qed.

(** *** Loading *)

Lemma rewind_load_native_token_ids : rewindable load_native_token_ids.
Proof.
  apply rewind_bind; [apply rewind_gets|]. intros js.
  destruct (token_ids (state js)); [|apply rewind_ret].
  apply rewind_bind.
  { apply rewind_on_db. intros d r d' Hd [= <- <-]. done. }
  intros ids j d Hr. pose proof Hr as [HJ Hwf Hd].
  eapply (rewind_step _ _ _ (Ok true)); [done| |].
  { rewrite js_modify, js_push by by destruct j. reflexivity. }
  destruct Hwf. apply (jext_entry (TokenIdsLoaded ids) j
    (set_token_ids (fun _ => ids) (state j)) (transient_storage j)); try done.
  cbn [revert_entry]. constructor. by split.
Qed.

Lemma wf_new_not_existing : wf_account Account_new_not_existing.
Proof. split; [intros t|]; vm_compute; split; congruence || reflexivity. Qed.

Lemma wf_insert a x m : wf_accounts m -> wf_account x -> wf_accounts (<[a := x]> m).
Proof. intros Hm Hx b y [[_ <-]|[_ Hy]]%lookup_insert_Some; [done|]. by eapply Hm. Qed.

Lemma jext_load a x j :
  journal j <> [] -> wf_js j -> wf_account x -> accounts (state j) !! a = None ->
  jext j (jpush (AccountLoaded a) (set_state (set_accounts (<[a := x]>)) j)) [AccountLoaded a].
Proof.
  intros HJ [Hm Hts Hd] Hx Ha.
  apply (jext_entry (AccountLoaded a) j (set_accounts (<[a := x]>) (state j)) (transient_storage j));
    try done; [by apply wf_insert|].
  cbn [revert_entry]. constructor. split; [|done]. simpl. by rewrite delete_insert_id.
Qed.

Lemma rewind_load_account a : rewindable (load_account a).
Proof.
  intros j d Hr. unfold load_account. eapply rewind_bind_at; [done|by apply rewind_gets|].
  intros js j' d' es [= <- <- <-] _ _. destruct (accounts (state j) !! a) as [x|] eqn:Ha.
  { by apply rewind_ret. }
  eapply rewind_bind_at; [done| |].
  { apply rewind_on_db; [|done]. intros. by eapply basic_ok. }
  intros o j1 d1 es1 H1 _ Hr1. apply on_db_Ok in H1 as [H1 ->].
  pose proof (basic_ok _ _ _ _ (rd_db _ _ Hr) H1) as [_ Hi].
  eapply rewind_step; [done| |].
  { rewrite js_push by apply Hr1. rewrite js_modify. reflexivity. }
  eapply (jext_load a _ j); try apply Hr1; [|done].
  destruct o as [i|]; [by apply Hi|apply wf_new_not_existing].
Qed.

Lemma rewind_load_account_exist a : rewindable (load_account_exist a).
Proof.
  apply rewind_bind; [apply rewind_gets|]. intros s.
  apply rewind_bind; [apply rewind_load_account|]. intros [acc c]. apply rewind_ret.
Qed.

(** Caching the code of an account changes nothing the equality sees. *)
Lemma rewind_cache_code a c : rewindable (on_js (DbErr := DbErr) (update_account a (set_info (set_info_code c)))).
Proof.
  apply rewind_on_js. intros j r j' HJ Hwf H.
  destruct (accounts (state j) !! a) as [x|] eqn:Ha.
  2: { unfold update_account in H. rewrite account_bind_None in H by done. simplify_eq. by left. }
  rewrite update_account_ok in H by eauto. simplify_eq. right. exists [].
  assert (Hm := wf_accs _ Hwf).
  apply (jext_silent j (set_accounts (alter (set_info (set_info_code c)) a) (state j))); try done.
  - apply wf_alter; [done|]. intros y Hy. destruct (Hm _ _ Hy). by split.
  - intros b. simpl. rewrite lookup_alter. case_decide; [subst|reflexivity].
    destruct (accounts (state j) !! b); constructor. by split.
Qed.

Lemma rewind_load_code a : rewindable (load_code a).
Proof.
  apply rewind_bind; [apply rewind_load_account|]. intros [acc cold].
  apply rewind_bind.
  - destruct (code (info acc)); [apply rewind_ret|].
    destruct (_ =? _); [apply rewind_cache_code|].
    apply rewind_bind; [|intros; apply rewind_cache_code].
    apply rewind_on_db. intros. by eapply code_by_hash_ok.
  - intros []. apply rewind_bind; [apply rewind_on_js, jrewindable_account|].
    intros. apply rewind_ret.
Qed.

(** *** Storage *)

(** Inserting a slot that was absent is undone by deleting it; overwriting the
    present value of a slot by writing the old one back. *)
Lemma jext_new_slot a x k v j :
  journal j <> [] -> wf_js j -> accounts (state j) !! a = Some x -> storage x !! k = None ->
  jext j (jpush (StorageChange a k None)
    (set_state (set_accounts (alter (set_storage (<[k := v]>)) a)) j)) [StorageChange a k None].
Proof.
  intros HJ Hwf Hx Hk.
  eapply (jext_update _ a (set_storage (<[k := v]>)) (set_storage (delete k)) j
    (set_accounts (alter (set_storage (<[k := v]>)) a) (state j))); eauto with undo.
  intros y Hy _. simplify_eq. split; try done. simpl. by apply delete_insert_id.
Qed.

Lemma jext_set_slot a x k slot v j :
  journal j <> [] -> wf_js j -> accounts (state j) !! a = Some x -> storage x !! k = Some slot ->
  jext j (jpush (StorageChange a k (Some (present_value slot)))
    (set_state (set_accounts (alter (set_storage (<[k := mkSlot (original_value slot) v]>)) a)) j))
    [StorageChange a k (Some (present_value slot))].
Proof.
  intros HJ Hwf Hx Hk. destruct slot as [o p]. simpl in *.
  eapply (jext_update _ a (set_storage (<[k := mkSlot o v]>)) (set_storage (<[k := mkSlot o p]>)) j
    (set_accounts (alter (set_storage (<[k := mkSlot o v]>)) a) (state j))); eauto with undo.
  - intros y Hy _. simplify_eq. split; try done. simpl. rewrite insert_insert_eq. by apply insert_id.
  - cbn [revert_entry]. simpl. by rewrite lookup_alter_eq, Hx; simpl; rewrite lookup_insert_eq.
Qed.

Lemma rewind_sload a k : rewindable (sload a k).
Proof.
  intros j d Hr. unfold sload. destruct (accounts (state j) !! a) as [x|] eqn:Hx.
  2: { eapply rewind_panic. by apply js_account_None. }
  intros r j' d' Hm. rewrite (js_account a _ x) in Hm by done. revert Hm.
  destruct (storage x !! k) as [s|] eqn:Hk; intros Hm.
  { by eapply rewind_ret. }
  revert r j' d' Hm. eapply rewind_bind_at; [done| |].
  { destruct (is_created x); [by apply rewind_ret|]. apply rewind_on_db; [|done].
    intros. by eapply db_storage_ok. }
  intros v j1 d1 es Hv _ Hr1.
  assert (j1 = j) as -> by (destruct (is_created x); [by injection Hv|by apply on_db_Ok in Hv as []]).
  eapply rewind_step; [done| |].
  { rewrite js_push, js_update by (apply Hr1 || eauto). reflexivity. }
  eapply (jext_new_slot a x k _ j); try done; apply Hr1.
Qed.

Lemma sload_slot a k j d v c j' d' :
  ready j d -> sload a k (j, d) = (Ok (v, c), (j', d')) ->
  exists x s, accounts (state j') !! a = Some x /\ storage x !! k = Some s /\ present_value s = v.
Proof.
  intros [HJ Hwf Hd]. unfold sload. destruct (accounts (state j) !! a) as [x|] eqn:Hx.
  2: { by rewrite js_account_None by done. }
  rewrite (js_account a _ x) by done. destruct (storage x !! k) as [s|] eqn:Hk.
  { intros [= <- <- <- <-]. eauto 10. }
  intros [(v1 & [j1 d1] & H1 & H2)|[(? & _ & ?)|[_ ?]]]%M_bind_inv; [|done..].
  assert (j1 = j) as -> by (destruct (is_created x); [by injection H1|by apply on_db_Ok in H1 as []]).
  rewrite js_push, js_update in H2 by (done || eauto). injection H2 as <- <- <- <-.
  eexists _, _. split; [simpl; by rewrite lookup_alter_eq, Hx|].
  split; [apply lookup_insert_eq|done].
Qed.

Lemma rewind_sstore a k v : rewindable (sstore a k v).
Proof.
  intros j d Hr. unfold sstore. eapply rewind_bind_at; [done|by apply rewind_sload|].
  intros [p c] j1 d1 es H1 _ Hr1. pose proof (sload_slot _ _ _ _ _ _ _ _ Hr H1) as (x & s & Hx & Hs & Hp).
  intros r j' d' Hm. rewrite (js_account a _ x) in Hm by done.
  unfold lift in Hm. rewrite Hs in Hm. cbn [unwrap] in Hm.
  erewrite M_bind_ok in Hm by reflexivity.
  destruct (p =? v); [by eapply rewind_ret|]. right.
  rewrite js_push, js_update in Hm by (apply Hr1 || eauto). injection Hm as <- <- <-.
  split; [|apply Hr1]. eexists. rewrite <- Hp. eapply (jext_set_slot a x k s v j1); try done; apply Hr1.
Qed.

(** *** Token movements *)

Lemma rewind_transfer from to ts j d r j' d' :
  ready j d -> Forall (fun t => fits 256 (transfer_amount t)) ts ->
  transfer from to ts (j, d) = (r, (j', d')) ->
  r = Panic \/ r = Ok (Some IR_OverflowPayment) \/ ((exists es, jext j j' es) /\ db_ok d').
Proof.
  intros Hr Hts Hm. unfold transfer in Hm.
  apply M_bind_inv in Hm as [(b & [j1 d1] & H1 & Hm)|[(e & H1 & ->)|[H1 ->]]]; [| |by left].
  2: { apply rewind_load_native_token_ids in H1 as [?|?]; [done|by auto|done]. }
  apply rewind_load_native_token_ids in H1 as [?|[[es1 He1] Hd1]]; [done| |done].
  pose proof (ready_jext _ _ _ _ _ He1 Hd1 Hr) as Hr1.
  apply M_bind_inv in Hm as [(b2 & [j2 d2] & H2 & Hm)|[(e & H2 & ->)|[H2 ->]]]; [| |by left].
  2: { apply rewind_load_account in H2 as [?|[[] ?]]; [done|by eauto 8 using jext_trans|done]. }
  apply rewind_load_account in H2 as [?|[[es2 He2] Hd2]]; [done| |done].
  pose proof (ready_jext _ _ _ _ _ He2 Hd2 Hr1) as Hr2.
  apply M_bind_inv in Hm as [(b3 & [j3 d3] & H3 & Hm)|[(e & H3 & ->)|[H3 ->]]]; [| |by left].
  2: { apply rewind_load_account in H3 as [?|[[] ?]]; [done|by eauto 9 using jext_trans|done]. }
  apply rewind_load_account in H3 as [?|[[es3 He3] Hd3]]; [done| |done].
  pose proof (ready_jext _ _ _ _ _ He3 Hd3 Hr2) as Hr3.
  rewrite on_js_eq in Hm. destruct (transfer_loop from to ts j3) as [r4 j4] eqn:H4. simplify_eq.
  apply transfer_loop_jext in H4 as [?|[?|[es4 He4]]]; auto; [|apply Hr3..].
  right. right. split; [|done]. eexists.
  eapply jext_trans; [done|]. eapply jext_trans; [done|]. by eapply jext_trans.
Qed.

Lemma rewind_burn `{Keccak} burner sub_id holder amount :
  fits 256 amount -> rewindable (burn burner sub_id holder amount).
Proof.
  intros Ha. unfold burn. destruct (amount =? 0); [apply rewind_ret|].
  apply rewind_bind; [apply rewind_attempt, rewind_load_native_token_ids|].
  intros [?|_]; [apply rewind_ret|].
  apply rewind_bind; [apply rewind_attempt, rewind_load_account|].
  intros [?|_]; [apply rewind_ret|].
  apply rewind_bind.
  { apply rewind_attempt, rewind_on_db. intros d r d' Hd [= <- <-]. done. }
  intros [?|[]]; [apply rewind_ret| |apply rewind_ret].
  intros j d Hr. set (t := token_id_address burner sub_id).
  destruct (accounts (state j) !! holder) as [x|] eqn:Hx.
  2: { eapply rewind_panic. by apply js_account_None. }
  intros r j' d' Hm. rewrite (js_account _ _ x) in Hm by done.
  destruct (checked_sub _ _) as [b|] eqn:Hb; [|by eapply rewind_ret].
  rewrite js_update, js_push in Hm by (apply Hr || eauto). injection Hm as <- <- <-.
  right. split; [|apply Hr]. eexists.
  assert (Hwx : wf_account x) by (eapply (rd_wf _ _ Hr); done).
  destruct (checked_sub_dec t amount b x) as [Hdec Hfb]; [done..|].
  eapply (jext_update _ holder (set_info (set_balance t b)) (inc t amount) j
    (set_accounts (alter (set_info (set_balance t b)) holder) (state j))); eauto; try apply Hr.
  - intros y _ Hy. by apply wf_set_balance.
  - intros y Hy Hwy. rewrite Hx in Hy. injection Hy as <-. rewrite Hdec. by apply increase_decrease.
Qed.

Lemma rewind_mint `{Keccak} minter recipient sub_id amount :
  fits 256 amount -> rewindable (mint minter recipient sub_id amount).
Proof.
  intros Ha. unfold mint.
  apply rewind_bind; [apply rewind_attempt, rewind_load_native_token_ids|].
  intros [?|_]; [apply rewind_ret|].
  apply rewind_bind; [apply rewind_attempt, rewind_load_account|].
  intros [?|_]; [apply rewind_ret|].
  intros j d Hr. set (t := token_id_address minter sub_id).
  destruct (accounts (state j) !! recipient) as [x|] eqn:Hx.
  2: { eapply rewind_panic. by apply js_account_None. }
  intros r j' d' Hm. rewrite (js_account _ _ x) in Hm by done.
  destruct (checked_add _ _ _) as [b|] eqn:Hb; [|by eapply rewind_ret].
  rewrite js_update in Hm by eauto.
  assert (Hwx : wf_account x) by (eapply (rd_wf _ _ Hr); done).
  destruct (checked_add_inc t amount b x) as [Hinc Hfb]; [done..|].
  assert (exists ids, (r, (j', d')) = (Ok true, (jpush (TokensMinted minter recipient t amount)
    (set_state (fun _ => mkEvmState (alter (set_info (set_balance t b)) recipient (accounts (state j))) ids) j), d)))
    as [ids [= -> -> ->]].
  { rewrite <- Hm. erewrite M_bind_ok by reflexivity.
    destruct (bool_decide _); [erewrite M_bind_ok by reflexivity|rewrite js_modify];
      rewrite js_push by apply Hr; eexists; reflexivity. }
  right. split; [|apply Hr]. eexists.
  eapply (jext_update _ recipient (set_info (set_balance t b)) (dec t amount) j); eauto; try apply Hr.
  - intros y _ Hy. by apply wf_set_balance.
  - intros y Hy Hwy. rewrite Hx in Hy. injection Hy as <-. rewrite Hinc. by apply decrease_increase.
Qed.

(** *** Self-destruction *)

(** The second half of [selfdestruct], from the read of the account on. *)
Definition selfdestruct_tail (address target : Address) (load_result : LoadAccountResult) : DM SelfDestructResult :=
  acc ← on_js (account address);
  spec ← gets (fun s => spec s.1);
  let balance := get_base_balance (info acc) in
  let previously_destroyed := is_selfdestructed acc in
  let is_cancun_enabled := enabled spec CANCUN in
  journal_entry ←
    (if is_created acc || negb is_cancun_enabled then
       _ ← on_js (update_account address
             (fun a => set_info (set_base_balance 0) (mark_selfdestruct a)));
       mret (Some (AccountDestroyed address target previously_destroyed balance))
     else if negb (address =? target) then
       _ ← on_js (update_account address (set_info (set_base_balance 0)));
       mret (Some (BalanceTransfer address target BASE_TOKEN_ID balance))
     else mret None);
  _ ← match journal_entry with
      | Some entry => on_js (push_entry entry)
      | None => mret tt
      end;
  mret (mkSelfDestructResult (negb (balance =? 0)) (negb (load_is_empty load_result))
          (load_is_cold load_result) previously_destroyed).

Lemma selfdestruct_tail_jext address target lr j d st' x r j' d' :
  ready j d -> accounts (state j) !! address = Some x -> is_Some (accounts (state j) !! target) ->
  accounts st' = credited address target (get_base_balance (info x)) (accounts (state j)) ->
  (address = target -> st' = state j) ->
  selfdestruct_tail address target lr (set_state (fun _ => st') j, d) = (r, (j', d')) ->
  (exists es, jext j j' es) /\ d' = d.
Proof.
  intros [HJ Hwf Hd] Hx Ht Hst Hsame Hm.
  assert (exists y, accounts st' !! address = Some y /\
    get_base_balance (info y) = get_base_balance (info x) /\ is_selfdestructed y = is_selfdestructed x /\
    set_info (set_base_balance 0) y = dec BASE_TOKEN_ID (get_base_balance (info x)) y)
    as (y & Hy & Hby & Hsy & Hdy).
  { exists x. rewrite Hst. unfold credited. split.
    - case_decide; [done|]. by rewrite lookup_alter_ne.
    - split_and!; try done. apply set_zero_dec. by eapply (wf_accs _ Hwf). }
  unfold selfdestruct_tail in Hm. rewrite (js_account _ _ y) in Hm by done.
  erewrite M_bind_ok in Hm by reflexivity. rewrite Hby, Hsy in Hm. cbn [fst spec set_state] in Hm.
  destruct (is_created y || negb (enabled (spec j) CANCUN)).
  - erewrite M_bind_ok in Hm by (rewrite js_update by (simpl; eauto); reflexivity).
      cbv beta iota in Hm.
    rewrite js_push in Hm by done. injection Hm as <- <- <-. split; [|done].
    by apply (jext_destroy address target x j (set_accounts (alter destroy address) st'));
      simpl; rewrite ?Hst.
  - destruct (Z.eqb_spec address target) as [->|Hne]; cbn [negb] in Hm.
    + erewrite M_bind_ok in Hm by reflexivity. erewrite M_bind_ok in Hm by reflexivity.
      injection Hm as <- <- <-. rewrite Hsame by done. split; [|done]. exists [].
      replace (set_state _ j) with j by by destruct j. by apply jext_refl.
    + erewrite M_bind_ok in Hm by (rewrite js_update by (simpl; eauto); reflexivity).
      cbv beta iota in Hm.
      rewrite js_push in Hm by done. injection Hm as <- <- <-. split; [|done]. eexists.
      assert (Hacc : accounts (set_accounts (alter (set_info (set_base_balance 0)) address) st')
        = alter (dec BASE_TOKEN_ID (get_base_balance (info x))) address
            (alter (inc BASE_TOKEN_ID (get_base_balance (info x))) target (accounts (state j)))).
      { simpl. rewrite (alter_at _ (dec BASE_TOKEN_ID (get_base_balance (info x))) _ y) by done.
        rewrite Hst. unfold credited. by rewrite decide_False. }
      pose proof (wf_accs _ Hwf) as Hm.
      eapply (jext_move _ address target BASE_TOKEN_ID (get_base_balance (info x)) j
        (set_accounts (alter (set_info (set_base_balance 0)) address) st')); try done; rewrite ?Hacc;
        [by apply move_commute|auto with undo].
Qed.

Lemma rewind_selfdestruct address target : rewindable (selfdestruct address target).
Proof.
  unfold selfdestruct. apply rewind_bind; [apply rewind_load_account_exist|].
  intros lr j d Hr r j' d' Hm. pose proof Hr as [HJ Hwf Hd].
  match type of Hm with (mbind _ ?m) _ = _ =>
    change ((m ≫= fun _ => selfdestruct_tail address target lr) (j, d) = (r, (j', d'))) in Hm end.
  destruct (accounts (state j) !! address) as [x|] eqn:Hx.
  2: { left. destruct (negb (address =? target)).
       - erewrite M_bind_panic in Hm by by apply js_account_None. by injection Hm.
       - erewrite M_bind_ok in Hm by reflexivity. unfold selfdestruct_tail in Hm.
         rewrite js_account_None in Hm by done. by injection Hm. }
  destruct (Z.eqb_spec address target) as [->|Hne]; cbn [negb] in Hm.
  - erewrite M_bind_ok in Hm by reflexivity. right.
    replace j with (set_state (fun _ => state j) j) in Hm by by destruct j.
    eapply (selfdestruct_tail_jext target target lr j d (state j) x) in Hm as [? ->]; eauto.
    unfold credited. by rewrite decide_True.
  - destruct (accounts (state j) !! target) as [y|] eqn:Hy.
    2: { left. erewrite M_bind_panic in Hm.
         2: { rewrite (js_account _ _ x) by done. apply M_bind_panic. rewrite on_js_eq.
              unfold touch_account. rewrite account_bind_None by done. reflexivity. }
         by injection Hm. }
    destruct (touch_jext (E := EVMError DbErr) target y j HJ Hwf Hy) as (j1 & es & Ht & He).
    assert (Hr1 : ready j1 d) by (by eapply ready_jext).
    assert (accounts (state j1) !! address = Some x /\ (is_Some (accounts (state j1) !! target))) as [Hx1 Hy1].
    { rewrite (touch_account_eq target y) in Ht by done. destruct (is_touched y); simplify_eq; [eauto|].
      simpl. rewrite lookup_alter_ne, lookup_alter_eq, Hx, Hy by done. eauto. }
    erewrite M_bind_ok in Hm.
    2: { rewrite (js_account _ _ x) by done. erewrite on_js_bind by exact Ht.
         rewrite on_js_eq, update_account_ok by done. reflexivity. }
    eapply (selfdestruct_tail_jext address target lr j1 d
      (set_accounts (alter (inc BASE_TOKEN_ID (get_base_balance (info x))) target) (state j1)) x) in Hm
      as [[es' He'] ->]; try done.
    + right. split; [|done]. eexists. by eapply jext_trans.
    + unfold credited. by rewrite decide_False.
Qed.
End rewind.
