(* ===== verification/InMemoryDb.v ===== *)
(** The in-memory databases: [crates/revm/src/db/emptydb.rs] and
    [db/in_memory_db.rs].

    [CacheDB] caches what it reads from an underlying read-only database and is
    written by [commit].  It is verified to be a [Database] in the sense of
    [Database.v], to answer like the read-only view of itself, and to serve
    after a commit what was committed. *)

From S2P Require Import Prelude Bytes Eof Bytecode State Result Database.
From stdpp Require Import pretty.
#[local] Open Scope Z_scope.

(** ** [EmptyDB] *)

Definition string_bytes (s : string) : bytes :=
  (fun a => Z.of_N (Ascii.N_of_ascii a)) <$> String.list_ascii_of_string s.

(** The state of the empty database carries nothing. *)
Definition EmptyDB : Type := unit.

#[export] Instance EmptyDB_ref `{Keccak} {DbErr} : DatabaseRef EmptyDB DbErr := {|
  basic_ref _ _ := Ok None;
  code_by_hash_ref _ _ := Ok Bytecode_new;
  storage_ref _ _ _ := Ok 0;
  block_hash_ref _ n := Ok (keccak256 (string_bytes (pretty (Z.to_N n))));
  get_token_ids_ref _ := Ok [];
  is_token_id_valid_ref _ _ := Ok false;
|}.

Definition EmptyDB_database `{Keccak} {DbErr} : Database EmptyDB DbErr := WrapDatabaseRef EmptyDB_ref.

(** ** [CacheDB] *)

Inductive AccountState : Type := AS_NotExisting | AS_Touched | AS_StorageCleared | AS_None.

#[export] Instance AccountState_eq_dec : EqDecision AccountState.
Proof. solve_decision. Defined.

Definition is_storage_cleared (s : AccountState) : bool := bool_decide (s = AS_StorageCleared).

Record DbAccount : Type := mkDbAccount {
  db_info : AccountInfo;
  account_state : AccountState;
  db_slots : gmap Z Z;
}.

Definition DbAccount_default : DbAccount := mkDbAccount AccountInfo_default AS_None ∅.
Definition DbAccount_new_not_existing : DbAccount := mkDbAccount AccountInfo_default AS_NotExisting ∅.
Definition DbAccount_info (a : DbAccount) : option AccountInfo :=
  match account_state a with AS_NotExisting => None | _ => Some (db_info a) end.
Definition DbAccount_from_info (i : AccountInfo) : DbAccount := mkDbAccount i AS_None ∅.
Definition DbAccount_from (o : option AccountInfo) : DbAccount :=
  from_option DbAccount_from_info DbAccount_new_not_existing o.

Definition set_slots (f : gmap Z Z -> gmap Z Z) (a : DbAccount) : DbAccount :=
  mkDbAccount (db_info a) (account_state a) (f (db_slots a)).

Record CacheDB (ExtDB : Type) : Type := mkCacheDB {
  cache_accounts : gmap Address DbAccount;
  contracts : gmap Z Bytecode;
  cache_logs : list Log;
  block_hashes : gmap Z Z;
  ext_db : ExtDB;
  cache_token_ids : list Z;
}.
Arguments mkCacheDB {ExtDB}.
Arguments cache_accounts {ExtDB}.
Arguments contracts {ExtDB}.
Arguments cache_logs {ExtDB}.
Arguments block_hashes {ExtDB}.
Arguments ext_db {ExtDB}.
Arguments cache_token_ids {ExtDB}.

Section cache_db.
Context {ExtDB : Type}.
Implicit Types (db : CacheDB ExtDB).

Definition set_cache_accounts (f : gmap Address DbAccount -> gmap Address DbAccount) db : CacheDB ExtDB :=
  mkCacheDB (f (cache_accounts db)) (contracts db) (cache_logs db) (block_hashes db) (ext_db db)
    (cache_token_ids db).
Definition set_contracts (f : gmap Z Bytecode -> gmap Z Bytecode) db : CacheDB ExtDB :=
  mkCacheDB (cache_accounts db) (f (contracts db)) (cache_logs db) (block_hashes db) (ext_db db)
    (cache_token_ids db).
Definition set_block_hashes (f : gmap Z Z -> gmap Z Z) db : CacheDB ExtDB :=
  mkCacheDB (cache_accounts db) (contracts db) (cache_logs db) (f (block_hashes db)) (ext_db db)
    (cache_token_ids db).
Definition set_cache_token_ids (f : list Z -> list Z) db : CacheDB ExtDB :=
  mkCacheDB (cache_accounts db) (contracts db) (cache_logs db) (block_hashes db) (ext_db db)
    (f (cache_token_ids db)).

Definition CacheDB_new (e : ExtDB) : CacheDB ExtDB :=
  mkCacheDB ∅ (<[0 := Bytecode_new]> {[KECCAK_EMPTY := Bytecode_new]}) [] ∅ e [BASE_TOKEN_ID].

(** [insert_contract] also normalises the code hash of the info. *)
Definition insert_contract `{Keccak} (account : AccountInfo) db : AccountInfo * CacheDB ExtDB :=
  let '(account, db) :=
    match code account with
    | Some c =>
        if negb (Bytecode_is_empty c) then
          let account :=
            if code_hash account =? KECCAK_EMPTY then set_code_hash (hash_slow c) account else account in
          (account,
           set_contracts (fun cs =>
             match cs !! code_hash account with
             | Some _ => cs
             | None => <[code_hash account := c]> cs
             end) db)
        else (account, db)
    | None => (account, db)
    end in
  (if code_hash account =? 0 then set_code_hash KECCAK_EMPTY account else account, db).

(** [self.accounts.entry(address).or_default()]. *)
Definition entry_or_default (address : Address) db : DbAccount :=
  default DbAccount_default (cache_accounts db !! address).

Definition insert_account_info `{Keccak} (address : Address) (i : AccountInfo) db : CacheDB ExtDB :=
  let '(i, db) := insert_contract i db in
  let a := entry_or_default address db in
  set_cache_accounts (<[address := mkDbAccount i (account_state a) (db_slots a)]>) db.

(** One iteration of the loop of [commit]. *)
Definition commit_account `{Keccak} (address : Address) (account : Account) db : CacheDB ExtDB :=
  if negb (is_touched account) then db
  else if is_selfdestructed account then
    set_cache_accounts (<[address := mkDbAccount AccountInfo_default AS_NotExisting ∅]>) db
  else
    let '(i, db) := insert_contract (info account) db in
    let db_account := entry_or_default address db in
    let '(st, slots) :=
      if is_created account then (AS_StorageCleared, ∅)
      else if is_storage_cleared (account_state db_account) then (AS_StorageCleared, db_slots db_account)
      else (AS_Touched, db_slots db_account) in
    set_cache_accounts
      (<[address := mkDbAccount i st ((present_value <$> storage account) ∪ slots)]>) db.

(** [commit]: the accounts of the map in some order, then the token ids. *)
Definition commit_accounts `{Keccak} (changes : list (Address * Account)) db : CacheDB ExtDB :=
  foldl (fun db kv => commit_account kv.1 kv.2 db) db changes.
Definition commit `{Keccak} (changes : EvmState) db : CacheDB ExtDB :=
  set_cache_token_ids (fun _ => token_ids changes) (commit_accounts (map_to_list (accounts changes)) db).

(** *** Reading *)

Context {DbErr : Type} `{R : DatabaseRef ExtDB DbErr}.
Abbreviation CM := (M (CacheDB ExtDB) DbErr).

(** [load_account]: the entry of the cache, read from the underlying database
    when it is vacant. *)
Definition cache_load_account (address : Address) : CM DbAccount := fun db =>
  match cache_accounts db !! address with
  | Some a => (Ok a, db)
  | None =>
      match basic_ref (ext_db db) address with
      | Ok o => (Ok (DbAccount_from o), set_cache_accounts (<[address := DbAccount_from o]>) db)
      | Err e => (Err e, db)
      | Panic => (Panic, db)
      end
  end.

Definition insert_account_storage (address : Address) (slot value : Z) : CM unit :=
  a ← cache_load_account address;
  modify (set_cache_accounts (<[address := set_slots (<[slot := value]>) a]>)).

Definition replace_account_storage (address : Address) (storage : gmap Z Z) : CM unit :=
  a ← cache_load_account address;
  modify (set_cache_accounts (<[address := mkDbAccount (db_info a) AS_StorageCleared storage]>)).

Definition cache_basic (address : Address) : CM (option AccountInfo) :=
  a ← cache_load_account address; mret (DbAccount_info a).

Definition cache_code_by_hash (h : Z) : CM Bytecode := fun db =>
  match contracts db !! h with
  | Some c => (Ok c, db)
  | None =>
      match code_by_hash_ref (ext_db db) h with
      | Ok c => (Ok c, set_contracts (<[h := c]>) db)
      | Err e => (Err e, db)
      | Panic => (Panic, db)
      end
  end.

(** [AccountState::StorageCleared | AccountState::NotExisting]. *)
Definition storage_is_known (s : AccountState) : bool :=
  match s with AS_StorageCleared | AS_NotExisting => true | _ => false end.

Definition cache_storage (address : Address) (index : Z) : CM Z := fun db =>
  match cache_accounts db !! address with
  | Some acc =>
      match db_slots acc !! index with
      | Some v => (Ok v, db)
      | None =>
          if storage_is_known (account_state acc) then (Ok 0, db)
          else
            match storage_ref (ext_db db) address index with
            | Ok slot =>
                (Ok slot, set_cache_accounts (<[address := set_slots (<[index := slot]>) acc]>) db)
            | Err e => (Err e, db)
            | Panic => (Panic, db)
            end
      end
  | None =>
      match basic_ref (ext_db db) address with
      | Ok (Some i) =>
          match storage_ref (ext_db db) address index with
          | Ok value =>
              (Ok value, set_cache_accounts
                 (<[address := set_slots (<[index := value]>) (DbAccount_from (Some i))]>) db)
          | Err e => (Err e, db)
          | Panic => (Panic, db)
          end
      | Ok None => (Ok 0, set_cache_accounts (<[address := DbAccount_from None]>) db)
      | Err e => (Err e, db)
      | Panic => (Panic, db)
      end
  end.

Definition cache_block_hash (number : Z) : CM Z := fun db =>
  match block_hashes db !! number with
  | Some h => (Ok h, db)
  | None =>
      match block_hash_ref (ext_db db) number with
      | Ok h => (Ok h, set_block_hashes (<[number := h]>) db)
      | Err e => (Err e, db)
      | Panic => (Panic, db)
      end
  end.

#[export] Instance CacheDB_database : Database (CacheDB ExtDB) DbErr := {|
  basic := cache_basic;
  code_by_hash := cache_code_by_hash;
  db_storage := cache_storage;
  block_hash := cache_block_hash;
  get_token_ids db := Ok (cache_token_ids db);
  is_token_id_valid db t := Ok (bool_decide (t ∈ cache_token_ids db));
|}.

Definition cache_basic_ref db (address : Address) : outcome DbErr (option AccountInfo) :=
  match cache_accounts db !! address with
  | Some acc => Ok (DbAccount_info acc)
  | None => basic_ref (ext_db db) address
  end.

Definition cache_code_by_hash_ref db (h : Z) : outcome DbErr Bytecode :=
  match contracts db !! h with
  | Some c => Ok c
  | None => code_by_hash_ref (ext_db db) h
  end.

Definition cache_storage_ref db (address : Address) (index : Z) : outcome DbErr Z :=
  match cache_accounts db !! address with
  | Some acc =>
      match db_slots acc !! index with
      | Some v => Ok v
      | None => if storage_is_known (account_state acc) then Ok 0 else storage_ref (ext_db db) address index
      end
  | None => storage_ref (ext_db db) address index
  end.

Definition cache_block_hash_ref db (number : Z) : outcome DbErr Z :=
  match block_hashes db !! number with
  | Some h => Ok h
  | None => block_hash_ref (ext_db db) number
  end.

(** The read-only view; its token ids are those of the underlying database. *)
#[export] Instance CacheDB_ref : DatabaseRef (CacheDB ExtDB) DbErr := {|
  basic_ref := cache_basic_ref;
  code_by_hash_ref := cache_code_by_hash_ref;
  storage_ref := cache_storage_ref;
  block_hash_ref := cache_block_hash_ref;
  get_token_ids_ref db := get_token_ids_ref (ext_db db);
  is_token_id_valid_ref db t := is_token_id_valid_ref (ext_db db) t;
|}.
End cache_db.

(** ** Lemmas *)

Section cache_lemmas.
Context {ExtDB DbErr : Type} `{R : DatabaseRef ExtDB DbErr} `{HK : Keccak}.
Implicit Types (db : CacheDB ExtDB).

(** The slots a cache stands for. Of an account that is neither in the cache nor in
    the database every slot is zero, whatever the database answers for it; when the
    account cannot be read, neither can the slot. *)
Definition slot_answer db (a k : Z) : outcome DbErr Z :=
  match cache_accounts db !! a with
  | Some _ => cache_storage_ref (R := R) db a k
  | None =>
      match basic_ref (ext_db db) a with
      | Ok (Some _) => cache_storage_ref (R := R) db a k
      | Ok None => Ok 0
      | Err e => Err e
      | Panic => Panic
      end
  end.

(** Two caches that answer every read alike. *)
Record same_view db db' : Prop := {
  sv_basic a : cache_basic_ref (R := R) db a = cache_basic_ref (R := R) db' a;
  sv_storage a k : slot_answer db a k = slot_answer db' a k;
  sv_code h : cache_code_by_hash_ref (R := R) db h = cache_code_by_hash_ref (R := R) db' h;
  sv_block n : cache_block_hash_ref (R := R) db n = cache_block_hash_ref (R := R) db' n;
}.

#[export] Instance same_view_equivalence : Equivalence same_view.
Proof.
  split.
  - by split.
  - intros x y []. by split.
  - intros x y z [] []. split; congruence.
Qed.

(** What an underlying database owes to the cache: well-formed accounts. *)
Class DatabaseRefOk : Prop :=
  basic_ref_wf d a i : basic_ref d a = Ok (Some i) -> wf_info i.

Lemma DbAccount_from_spec o :
  DbAccount_info (DbAccount_from o) = o /\ db_slots (DbAccount_from o) = ∅ /\
  storage_is_known (account_state (DbAccount_from o)) = negb (bool_decide (is_Some o)).
Proof. by destruct o. Qed.

(** Filling a vacant entry, possibly with one slot, changes no answer. *)
Lemma fill_same_view db a o slots :
  cache_accounts db !! a = None -> basic_ref (ext_db db) a = Ok o ->
  (forall k v, slots !! k = Some v -> storage_ref (ext_db db) a k = Ok v) -> (o = None -> slots = ∅) ->
  same_view db (set_cache_accounts (<[a := set_slots (fun _ => slots) (DbAccount_from o)]>) db).
Proof.
  intros Ha Ho Hs Hn. destruct (DbAccount_from_spec o) as (Hi & _ & Hk).
  split; try done.
  - intros b. unfold cache_basic_ref. simpl. rewrite lookup_insert. case_decide; [|done].
    subst b. rewrite Ha, Ho. destruct o; simpl; done.
  - intros b k. unfold slot_answer, cache_storage_ref. simpl. rewrite lookup_insert. case_decide; [|done].
    subst b. rewrite Ha, Ho. cbn [set_slots db_slots account_state]. rewrite Hk.
    destruct (slots !! k) as [v|] eqn:Hsk; [|by destruct o]. destruct o; [by apply Hs|]. by rewrite (Hn eq_refl) in Hsk.
Qed.

Lemma set_slots_from o : set_slots (fun _ => ∅) (DbAccount_from o) = DbAccount_from o.
Proof. by destruct o. Qed.

Lemma fill_empty_same_view db a o :
  cache_accounts db !! a = None -> basic_ref (ext_db db) a = Ok o ->
  same_view db (set_cache_accounts (<[a := DbAccount_from o]>) db).
Proof. intros Ha Ho. rewrite <- set_slots_from. by apply fill_same_view. Qed.

Lemma cache_basic_spec a db r db' :
  cache_basic (R := R) a db = (r, db') -> r = cache_basic_ref (R := R) db a /\ same_view db db'.
Proof.
  unfold cache_basic, cache_basic_ref, mbind, M_bind, cache_load_account. intros Hm.
  destruct (cache_accounts db !! a) as [acc|] eqn:Ha; [by injection Hm as <- <-|].
  destruct (basic_ref (ext_db db) a) as [o|e|] eqn:Ho; injection Hm as <- <-; try done.
  destruct (DbAccount_from_spec o) as [-> _]. split; [done|]. by apply fill_empty_same_view.
Qed.

Lemma cache_storage_spec a k db r db' :
  cache_storage (R := R) a k db = (r, db') -> r = slot_answer db a k /\ same_view db db'.
Proof.
  unfold cache_storage, slot_answer. intros Hm.
  destruct (cache_accounts db !! a) as [acc|] eqn:Ha; unfold cache_storage_ref; rewrite Ha.
  - destruct (db_slots acc !! k) as [v|] eqn:Hk; [by simplify_eq|].
    destruct (storage_is_known (account_state acc)) eqn:Hkn; [by simplify_eq|].
    destruct (storage_ref (ext_db db) a k) as [v|e|] eqn:Hv; simplify_eq; try done.
    split; [done|]. split; try done.
    + intros b. unfold cache_basic_ref. simpl. rewrite lookup_insert. case_decide; [|done].
      subst. by rewrite Ha.
    + intros b k'. unfold slot_answer, cache_storage_ref. simpl. rewrite lookup_insert. case_decide; [|done].
      subst. rewrite Ha. simpl. rewrite lookup_insert, Hkn. case_decide; [|done]. subst. by rewrite Hk.
  - destruct (basic_ref (ext_db db) a) as [[i|]|e|] eqn:Ho; [| |by simplify_eq..].
    + destruct (storage_ref (ext_db db) a k) as [v|e|] eqn:Hv; simplify_eq; try done.
      split; [done|]. apply (fill_same_view db a (Some i) (<[k := v]> ∅)); [done..| |done].
      intros k' v' [[<- <-]|[_ [=]]]%lookup_insert_Some. done.
    + simplify_eq. split; [done|]. by apply fill_empty_same_view.
Qed.

Lemma cache_code_spec h db r db' :
  cache_code_by_hash (R := R) h db = (r, db') ->
  r = cache_code_by_hash_ref (R := R) db h /\ same_view db db'.
Proof.
  unfold cache_code_by_hash, cache_code_by_hash_ref. intros Hm.
  destruct (contracts db !! h) as [c|] eqn:Hc; [by simplify_eq|].
  destruct (code_by_hash_ref (ext_db db) h) as [c|e|] eqn:Ho; simplify_eq; try done.
  split; [done|]. split; try done. intros h'. unfold cache_code_by_hash_ref. simpl.
  rewrite lookup_insert. case_decide; [|done]. subst. by rewrite Hc.
Qed.

Lemma cache_block_hash_spec n db r db' :
  cache_block_hash (R := R) n db = (r, db') ->
  r = cache_block_hash_ref (R := R) db n /\ same_view db db'.
Proof.
  unfold cache_block_hash, cache_block_hash_ref. intros Hm.
  destruct (block_hashes db !! n) as [h|] eqn:Hh; [by simplify_eq|].
  destruct (block_hash_ref (ext_db db) n) as [h|e|] eqn:Ho; simplify_eq; try done.
  split; [done|]. split; try done. intros n'. unfold cache_block_hash_ref. simpl.
  rewrite lookup_insert. case_decide; [|done]. subst. by rewrite Hh.
Qed.

(** *** The interface of [Database.v] *)

Definition wf_cache db : Prop :=
  forall a acc, cache_accounts db !! a = Some acc -> wf_info (db_info acc).

Lemma wf_info_default : wf_info AccountInfo_default.
Proof. split; [intros t|]; vm_compute; split; congruence || reflexivity. Qed.

Lemma wf_from `{!DatabaseRefOk} db a o :
  basic_ref (ext_db db) a = Ok o -> wf_info (db_info (DbAccount_from o)).
Proof. destruct o as [i|]; [apply basic_ref_wf|intros; apply wf_info_default]. Qed.

Lemma wf_cache_insert db a acc :
  wf_cache db -> wf_info (db_info acc) -> wf_cache (set_cache_accounts (<[a := acc]>) db).
Proof.
  intros Hdb Ha b y Hy. simpl in Hy.
  apply lookup_insert_Some in Hy as [[_ <-]|[_ Hy]]; [done|by eapply Hdb].
Qed.

#[export] Instance CacheDB_ok `{!DatabaseRefOk} :
  DatabaseOk (H := CacheDB_database (R := R)) (CacheDB ExtDB) DbErr.
Proof.
  refine {| db_ok := wf_cache |}.
  - intros a db r db' Hdb. cbn [basic CacheDB_database]. unfold cache_basic, mbind, M_bind, cache_load_account.
    destruct (cache_accounts db !! a) as [acc|] eqn:Ha.
    { intros [= <- <-]. split; [done|]. intros i. unfold DbAccount_info.
      destruct (account_state acc); intros [= <-]; by eapply Hdb. }
    destruct (basic_ref (ext_db db) a) as [o|e|] eqn:Ho; intros [= <- <-]; try done.
    split; [eapply wf_cache_insert; [done|by eapply wf_from]|].
    destruct (DbAccount_from_spec o) as [-> _]. intros i [= ->]. by eapply basic_ref_wf.
  - intros h db r db' Hdb. cbn [code_by_hash CacheDB_database]. unfold cache_code_by_hash.
    destruct (contracts db !! h); [by intros [= <- <-]|].
    by destruct (code_by_hash_ref (ext_db db) h); intros [= <- <-].
  - intros a k db r db' Hdb. cbn [db_storage CacheDB_database]. unfold cache_storage.
    destruct (cache_accounts db !! a) as [acc|] eqn:Ha.
    + destruct (db_slots acc !! k); [by intros [= <- <-]|].
      destruct (storage_is_known _); [by intros [= <- <-]|].
      destruct (storage_ref (ext_db db) a k); intros [= <- <-]; try done.
      apply wf_cache_insert; [done|]. exact (Hdb _ _ Ha).
    + destruct (basic_ref (ext_db db) a) as [[i|]|e|] eqn:Ho; try (by intros [= <- <-]).
      * destruct (storage_ref (ext_db db) a k); intros [= <- <-]; try done.
        apply wf_cache_insert; [done|]. exact (basic_ref_wf _ _ _ Ho).
      * intros [= <- <-]. apply wf_cache_insert; [done|]. apply wf_info_default.
  - intros n db r db' Hdb. cbn [block_hash CacheDB_database]. unfold cache_block_hash.
    destruct (block_hashes db !! n); [by intros [= <- <-]|].
    by destruct (block_hash_ref (ext_db db) n); intros [= <- <-].
Defined.

(** *** Committing *)

(** The info as it is stored: its code hash made explicit. *)
Definition stored_info (i : AccountInfo) : AccountInfo := (insert_contract i (CacheDB_new tt)).1.

Lemma insert_contract_info (i : AccountInfo) db : (insert_contract i db).1 = stored_info i.
Proof.
  unfold stored_info, insert_contract. destruct (code i) as [c|]; [|done].
  destruct (negb (Bytecode_is_empty c)); done.
Qed.

Lemma insert_contract_accounts (i : AccountInfo) db :
  cache_accounts (insert_contract i db).2 = cache_accounts db /\
  ext_db (insert_contract i db).2 = ext_db db /\
  cache_token_ids (insert_contract i db).2 = cache_token_ids db.
Proof.
  unfold insert_contract. destruct (code i) as [c|]; [|done].
  by destruct (negb (Bytecode_is_empty c)).
Qed.

(** The entry an account leaves in the cache. *)
Definition committed_entry (x : Account) (old : option DbAccount) : option DbAccount :=
  if negb (is_touched x) then old
  else if is_selfdestructed x then Some (mkDbAccount AccountInfo_default AS_NotExisting ∅)
  else
    let d := default DbAccount_default old in
    let st := if is_created x || is_storage_cleared (account_state d) then AS_StorageCleared else AS_Touched in
    let slots := if is_created x then ∅ else db_slots d in
    Some (mkDbAccount (stored_info (info x)) st ((present_value <$> storage x) ∪ slots)).

Lemma commit_account_lookup a x db b :
  cache_accounts (commit_account a x db) !! b =
    if decide (a = b) then committed_entry x (cache_accounts db !! b) else cache_accounts db !! b.
Proof.
  unfold commit_account, committed_entry.
  destruct (negb (is_touched x)); [by case_decide|].
  destruct (is_selfdestructed x).
  { simpl. rewrite lookup_insert. by case_decide. }
  pose proof (insert_contract_info (info x) db) as Hi.
  pose proof (insert_contract_accounts (info x) db) as (Ha & _ & _).
  destruct (insert_contract (info x) db) as [i db1]. cbn [fst snd] in Hi, Ha. subst i.
  unfold entry_or_default. rewrite Ha.
  destruct (is_created x); [|destruct (is_storage_cleared _) eqn:Hs];
    simpl; rewrite lookup_insert, Ha; (case_decide; [subst; by rewrite ?Hs|done]).
Qed.

Lemma commit_accounts_lookup l db b :
  NoDup l.*1 ->
  cache_accounts (commit_accounts l db) !! b =
    match (list_to_map l : gmap Address Account) !! b with
    | Some x => committed_entry x (cache_accounts db !! b)
    | None => cache_accounts db !! b
    end.
Proof.
  revert db. induction l as [|[a x] l IH]; intros db Hnd; [done|].
  apply NoDup_cons in Hnd as [Ha Hnd]. unfold commit_accounts in *. cbn [foldl fst snd].
  rewrite IH, commit_account_lookup by done. simpl. rewrite lookup_insert.
  case_decide; [|done]. subst b. apply not_elem_of_list_to_map in Ha. simpl in Ha.
  by rewrite Ha.
Qed.

Lemma commit_lookup changes db b :
  cache_accounts (commit changes db) !! b =
    match accounts changes !! b with
    | Some x => committed_entry x (cache_accounts db !! b)
    | None => cache_accounts db !! b
    end.
Proof.
  unfold commit. cbn [cache_accounts set_cache_token_ids].
  rewrite commit_accounts_lookup by apply NoDup_fst_map_to_list. by rewrite list_to_map_to_list.
Qed.

Lemma commit_ext_db changes db : ext_db (commit changes db) = ext_db db.
Proof.
  unfold commit, commit_accounts. simpl. generalize (map_to_list (accounts changes)). intros l.
  revert db. induction l as [|[a x] l IH]; intros db; [done|]. simpl. rewrite IH.
  unfold commit_account. destruct (negb (is_touched x)); [done|]. destruct (is_selfdestructed x); [done|].
  pose proof (insert_contract_accounts (info x) db) as (_ & He & _).
  destruct (insert_contract (info x) db) as [i db1]. cbn [fst snd] in He.
  by destruct (is_created x); [|destruct (is_storage_cleared _)].
Qed.
End cache_lemmas.

#[export] Instance EmptyDB_ok `{Keccak} {DbErr} : DatabaseRefOk (R := EmptyDB_ref (DbErr := DbErr)).
Proof. intros d a i. discriminate. Qed.

(** ** Theorems *)

Section cache_theorems.
Context {ExtDB DbErr : Type} `{R : DatabaseRef ExtDB DbErr} `{HK : Keccak}.

(** C38: reading through the cache answers what the cache stands for, and
    changes none of its later answers, over any underlying database. Accounts, code
    and block hashes are those of the read-only methods. So is a slot, when its
    account is in the cache or in the database; where the database has no such
    account a slot is zero, though the read-only method asks the database for it,
    and where the account cannot be read, the error is the one of that read. *)
Theorem cache_refines_view (db : CacheDB ExtDB) :
  (forall a, (cache_basic a db).1 = cache_basic_ref db a /\ same_view db (cache_basic a db).2) /\
  (forall h, (cache_code_by_hash h db).1 = cache_code_by_hash_ref db h /\
     same_view db (cache_code_by_hash h db).2) /\
  (forall n, (cache_block_hash n db).1 = cache_block_hash_ref db n /\
     same_view db (cache_block_hash n db).2) /\
  (forall a k, same_view db (cache_storage a k db).2 /\
     (cache_storage a k db).1 =
       match cache_accounts db !! a, basic_ref (ext_db db) a with
       | None, Ok None => Ok 0
       | None, Err e => Err e
       | None, Panic => Panic
       | _, _ => cache_storage_ref db a k
       end).
Proof.
  split_and!; intros.
  - eapply cache_basic_spec, surjective_pairing.
  - eapply cache_code_spec, surjective_pairing.
  - eapply cache_block_hash_spec, surjective_pairing.
  - destruct (cache_storage_spec a k db _ _ (surjective_pairing _)) as [-> Hv]. split; [done|].
    unfold slot_answer. destruct (cache_accounts db !! a); by destruct (basic_ref (ext_db db) a) as [[]| |].
Qed.

(** After a commit the cache serves the committed state.  A touched
    account is served with its committed info and the present values of its
    slots, a created one with no other slot; a destroyed one does not exist
    and has no storage; accounts that were not touched, or are not among the
    changes, are served as before; the token ids are those of the changes. *)
Theorem commit_serves (changes : EvmState) (db : CacheDB ExtDB) (a : Address) :
  let db' := commit changes db in
  cache_token_ids db' = token_ids changes /\
  match accounts changes !! a with
  | Some x =>
      if is_touched x then
        if is_selfdestructed x then
          cache_basic_ref db' a = Ok None /\ forall k, cache_storage_ref db' a k = Ok 0
        else
          cache_basic_ref db' a = Ok (Some (stored_info (info x))) /\
          (forall k s, storage x !! k = Some s -> cache_storage_ref db' a k = Ok (present_value s)) /\
          (is_created x = true -> forall k, storage x !! k = None -> cache_storage_ref db' a k = Ok 0)
      else
        cache_basic_ref db' a = cache_basic_ref db a /\
        forall k, cache_storage_ref db' a k = cache_storage_ref db a k
  | None =>
      cache_basic_ref db' a = cache_basic_ref db a /\
      forall k, cache_storage_ref db' a k = cache_storage_ref db a k
  end.
Proof.
  intros db'. split; [done|]. pose proof (commit_lookup changes db a) as Hl. fold db' in Hl.
  pose proof (commit_ext_db changes db) as He. fold db' in He.
  unfold cache_basic_ref, cache_storage_ref. rewrite Hl, He.
  destruct (accounts changes !! a) as [x|]; [|done]. unfold committed_entry.
  destruct (is_touched x); cbn [negb]; [|done]. destruct (is_selfdestructed x); [done|].
  cbn [db_info account_state db_slots]. split_and!.
  - unfold DbAccount_info. simpl. by destruct (_ || _).
  - intros k s Hs. by rewrite lookup_union_l', lookup_fmap, Hs by (rewrite lookup_fmap, Hs; eauto).
  - intros -> k Hk. rewrite map_union_empty, lookup_fmap, Hk. done.
Qed.

(** Storage cleared by a self-destruction comes back.  Committing the
    destruction of an account and then a change that touches it without
    creating it makes the cache read its slots from the underlying database
    again. *)
Theorem destroyed_storage_comes_back (db : CacheDB ExtDB) a x y ids ids' k :
  is_touched x = true -> is_selfdestructed x = true ->
  is_touched y = true -> is_selfdestructed y = false -> is_created y = false -> storage y !! k = None ->
  let db1 := commit (mkEvmState {[a := x]} ids) db in
  let db2 := commit (mkEvmState {[a := y]} ids') db1 in
  cache_storage_ref db1 a k = Ok 0 /\ cache_storage_ref db2 a k = storage_ref (ext_db db) a k.
Proof.
  intros Hx Hxd Hy Hyd Hyc Hk db1 db2.
  assert (H1 : cache_accounts db1 !! a = Some (mkDbAccount AccountInfo_default AS_NotExisting ∅)).
  { unfold db1. rewrite commit_lookup. cbn [accounts]. rewrite lookup_singleton_eq.
    unfold committed_entry. by rewrite Hx, Hxd. }
  assert (H2 : cache_accounts db2 !! a = Some (mkDbAccount (stored_info (info y)) AS_Touched
    ((present_value <$> storage y) ∪ ∅))).
  { unfold db2. rewrite commit_lookup, H1. cbn [accounts]. rewrite lookup_singleton_eq.
    unfold committed_entry. by rewrite Hy, Hyd, Hyc. }
  assert (He : ext_db db2 = ext_db db) by (unfold db2, db1; by rewrite !commit_ext_db).
  unfold cache_storage_ref. rewrite H1, H2, He. split; [done|].
  cbn [db_slots account_state storage_is_known]. by rewrite map_union_empty, lookup_fmap, Hk.
Qed.
End cache_theorems.

(** *** Witnesses *)

Section witnesses.
#[local] Instance hash : Keccak := sample_keccak.

Definition sample_account (st : Z) : Account :=
  mkAccount (AccountInfo_from_balances (init_balances 7)) {[ 1 := mkSlot 0 5 ]} st.

Lemma cache_refines_view_witness :
  let R0 := EmptyDB_ref (DbErr := False) in
  let db := commit (mkEvmState {[9 := sample_account 5]} [0; 3]) (CacheDB_new tt) in
  (cache_basic (R := R0) 9 db).1 = cache_basic_ref db 9 /\
  (cache_storage (R := R0) 9 1 db).1 = Ok 5.
Proof.
  intros R0 db. destruct (cache_refines_view (R := R0) db) as (Hb & _ & _ & Hs).
  split; [apply Hb|]. rewrite (proj2 (Hs 9 1)). vm_compute. reflexivity.
Defined.

Lemma commit_serves_witness :
  let R0 := EmptyDB_ref (DbErr := False) in
  let db := commit (mkEvmState {[9 := sample_account 5]} [0; 3]) (CacheDB_new tt) in
  cache_token_ids db = [0; 3] /\ cache_storage_ref (R := R0) db 9 1 = Ok 5 /\
  cache_storage_ref (R := R0) db 9 2 = Ok 0.
Proof.
  intros R0 db.
  destruct (commit_serves (R := R0) (mkEvmState {[9 := sample_account 5]} [0; 3]) (CacheDB_new tt) 9)
    as [Hids Hm]. vm_compute (accounts _ !! _) in Hm.
  destruct Hm as (_ & Hs & Hc). split; [exact Hids|]. split.
  - apply (Hs 1 (mkSlot 0 5)). vm_compute. reflexivity.
  - apply Hc; vm_compute; reflexivity.
Defined.

Lemma destroyed_storage_comes_back_witness :
  let base := commit (mkEvmState {[9 := sample_account Touched]} [0]) (CacheDB_new tt) in
  let db := CacheDB_new base in
  let R0 := CacheDB_ref (R := EmptyDB_ref (DbErr := False)) in
  let db1 := commit (mkEvmState {[9 := sample_account 6]} [0]) db in
  let db2 := commit (mkEvmState {[9 := mkAccount AccountInfo_default ∅ Touched]} [0]) db1 in
  cache_storage_ref (R := R0) db1 9 1 = Ok 0 /\
  cache_storage_ref (R := R0) db2 9 1 = storage_ref (DatabaseRef := R0) base 9 1 /\
  storage_ref (DatabaseRef := R0) base 9 1 = Ok 5.
Proof.
  intros base db R0 db1 db2.
  destruct (destroyed_storage_comes_back (R := R0) db 9 (sample_account 6)
    (mkAccount AccountInfo_default ∅ Touched) [0] [0] 1) as [H1 H2]; try reflexivity.
  split; [exact H1|]. split; [exact H2|]. vm_compute. reflexivity.
Defined.
End witnesses.
