(* ===== verification/JournalSpec.v ===== *)
(** What the operations of the journal compute: token movements against a
    ledger and the conservation of supplies, storage, transient storage. *)

From S2P Require Import Prelude Specification Bytes Eof Bytecode State Result InstructionResult.
From S2P Require Import Database Journal JournalRevert JournalRun InMemoryDb.

(** ** The ledger *)

(** The balances of a state, as a function. *)
Definition ledger (m : gmap Address Account) (a : Address) (t : Z) : Z :=
  from_option (fun x => get_balance (info x) t) 0 (m !! a).

Definition ledger_set (a : Address) (t v : Z) (b : Address -> Z -> Z) : Address -> Z -> Z :=
  fun a' t' => if decide (a = a' /\ t = t') then v else b a' t'.

(** The reference semantics of a list of transfers. *)
Fixpoint ledger_transfer (from to : Address) (ts : list TokenTransfer) (b : Address -> Z -> Z)
  : option InstructionResult * (Address -> Z -> Z) :=
  match ts with
  | [] => (None, b)
  | t :: ts =>
      let id := transfer_id t in
      let v := transfer_amount t in
      if b from id <? v then (Some IR_OutOfFunds, b)
      else
        let b := ledger_set from id (b from id - v) b in
        if 2 ^ 256 <=? b to id + v then (Some IR_OverflowPayment, b)
        else ledger_transfer from to ts (ledger_set to id (b to id + v) b)
  end.

(** The supply of a token: the sum of the balances of all loaded accounts. *)
Definition supply (t : Z) (m : gmap Address Account) : Z :=
  map_fold (fun _ x s => get_balance (info x) t + s) 0 m.

(** ** Lemmas *)

Lemma supply_insert t a x m :
  m !! a = None -> supply t (<[a := x]> m) = get_balance (info x) t + supply t m.
Proof. intros Ha. unfold supply. rewrite map_fold_insert_L; [done| |done]. intros. lia. Qed.

Lemma supply_delete t a x m :
  m !! a = Some x -> supply t m = get_balance (info x) t + supply t (delete a m).
Proof.
  intros Ha. rewrite <- (insert_delete_id m a x) at 1 by done. by rewrite supply_insert by apply lookup_delete_eq.
Qed.

Lemma supply_alter t a x f m :
  m !! a = Some x ->
  supply t (alter f a m) = supply t m - get_balance (info x) t + get_balance (info (f x)) t.
Proof.
  intros Ha. rewrite (supply_delete t a x m) by done.
  rewrite (supply_delete t a (f x)) by (by rewrite lookup_alter_eq, Ha).
  replace (delete a (alter f a m)) with (delete a m); [lia|].
  apply map_eq. intros k. rewrite !lookup_delete. case_decide; [done|]. by rewrite lookup_alter_ne.
Qed.

Lemma supply_alter_same t a f m :
  (forall x, get_balance (info (f x)) t = get_balance (info x) t) -> supply t (alter f a m) = supply t m.
Proof.
  intros Hf. destruct (m !! a) as [x|] eqn:Ha.
  - rewrite (supply_alter _ _ x) by done. rewrite Hf. lia.
  - f_equal. apply map_eq. intros k. rewrite lookup_alter. case_decide; [|done]. subst. by rewrite Ha.
Qed.

Lemma ledger_alter a f m b t :
  ledger (alter f a m) b t =
    if decide (a = b) then from_option (fun x => get_balance (info (f x)) t) 0 (m !! b) else ledger m b t.
Proof.
  unfold ledger. rewrite lookup_alter. case_decide; [subst|done]. by destruct (m !! b).
Qed.

Lemma ledger_alter_same a f m b t :
  (forall x, info (f x) = info x) -> ledger (alter f a m) b t = ledger m b t.
Proof.
  intros Hf. rewrite ledger_alter. case_decide; [|done]. unfold ledger. destruct (m !! b); simpl; [|done].
  by rewrite Hf.
Qed.

Lemma ledger_set_balance a x t v m b t' :
  m !! a = Some x ->
  ledger (alter (set_info (set_balance t v)) a m) b t' = ledger_set a t v (ledger m) b t'.
Proof.
  intros Hx. rewrite ledger_alter. unfold ledger_set, ledger. case_decide as Ha; [subst b|].
  - rewrite Hx. simpl. rewrite get_balance_set. by repeat case_decide; destruct_and?; subst; auto; exfalso; auto.
  - rewrite decide_False; [done|]. by intros [? _].
Qed.

(** Touching changes no balance, keeps the accounts and the journal open. *)
Lemma touch_account_spec {E} a j :
  journal j <> [] -> is_Some (accounts (state j) !! a) ->
  exists j', touch_account (E := E) a j = (Ok tt, j') /\ journal j' <> [] /\
    (forall b, is_Some (accounts (state j) !! b) -> is_Some (accounts (state j') !! b)) /\
    (forall b t, ledger (accounts (state j')) b t = ledger (accounts (state j)) b t) /\
    (forall t, supply t (accounts (state j')) = supply t (accounts (state j))).
Proof.
  intros HJ [x Hx]. eexists. split; [by apply (touch_account_eq a x)|].
  destruct (is_touched x); [done|]. split_and!.
  - by apply jpush_nonempty.
  - intros b Hb. simpl. by apply lookup_alter_is_Some.
  - intros b t. simpl. by apply ledger_alter_same.
  - intros t. simpl. by apply supply_alter_same.
Qed.

Lemma lookup_ledger j a x t :
  accounts (state j) !! a = Some x -> get_balance (info x) t = ledger (accounts (state j)) a t.
Proof. intros Hx. unfold ledger. by rewrite Hx. Qed.

#[local] Abbreviation bal j := (ledger (accounts (state j))).

Lemma ledger_transfer_ext from to ts b b' :
  (forall a t, b a t = b' a t) ->
  (ledger_transfer from to ts b).1 = (ledger_transfer from to ts b').1 /\
  forall a t, (ledger_transfer from to ts b).2 a t = (ledger_transfer from to ts b').2 a t.
Proof.
  revert b b'. induction ts as [|x ts IH]; intros b b' Hb; simpl; [done|].
  rewrite Hb. destruct (_ <? _); [done|].
  assert (Hs : forall a t, ledger_set from (transfer_id x) (b' from (transfer_id x) - transfer_amount x) b a t
    = ledger_set from (transfer_id x) (b' from (transfer_id x) - transfer_amount x) b' a t).
  { intros a t. unfold ledger_set. by case_decide. }
  rewrite Hs. destruct (_ <=? _); [done|]. apply IH. intros a t. unfold ledger_set at 1 4.
  case_decide; [done|]. apply Hs.
Qed.

Lemma supply_set_balance a x t v m t' :
  m !! a = Some x ->
  supply t' (alter (set_info (set_balance t v)) a m) =
    supply t' m + (if decide (t = t') then v - get_balance (info x) t else 0).
Proof.
  intros Hx. rewrite (supply_alter _ _ x) by done. simpl. rewrite get_balance_set.
  case_decide; subst; lia.
Qed.

(** What a loop of transfers does to the supplies: nothing, unless it ends in an
    overflow, which has taken the amount from the sender already. *)
Definition supply_after (ts : list TokenTransfer) (r : option InstructionResult)
  (m m' : gmap Address Account) : Prop :=
  match r with
  | Some IR_OverflowPayment =>
      exists x, x ∈ ts /\ forall t, supply t m' =
        supply t m - (if decide (t = transfer_id x) then transfer_amount x else 0)
  | _ => forall t, supply t m' = supply t m
  end.

Lemma supply_after_step x ts r m1 m2 m3 :
  (forall t, supply t m2 = supply t m1) -> supply_after ts r m2 m3 -> supply_after (x :: ts) r m1 m3.
Proof.
  intros H12 H23. unfold supply_after in *. destruct r as [[]|]; try (intros; by rewrite H23, H12).
  destruct H23 as (y & Hy & H23). exists y. split; [by right|]. intros t. by rewrite H23, H12.
Qed.

(** The loop of transfers follows the ledger, and never panics on loaded
    accounts. *)
Lemma transfer_loop_ledger {E} from to ts j :
  journal j <> [] -> is_Some (accounts (state j) !! from) -> is_Some (accounts (state j) !! to) ->
  exists r j', transfer_loop (E := E) from to ts j = (Ok r, j') /\
    (ledger_transfer from to ts (bal j)).1 = r /\
    (forall a t, bal j' a t = (ledger_transfer from to ts (bal j)).2 a t) /\
    supply_after ts r (accounts (state j)) (accounts (state j')).
Proof.
  revert j. induction ts as [|x ts IH]; intros j HJ Hf Ht; cbn [transfer_loop ledger_transfer].
  { by exists None, j. }
  destruct (touch_account_spec (E := E) from j HJ Hf) as (j1 & H1 & HJ1 & Hk1 & Hb1 & Hs1).
  erewrite M_bind_ok by exact H1. destruct (Hk1 _ Hf) as [xf Hxf].
  rewrite (account_bind _ xf) by done. rewrite (lookup_ledger j1 from) by done. rewrite Hb1.
  set (id := transfer_id x). set (v := transfer_amount x). unfold checked_sub.
  destruct (Z.ltb_spec (bal j from id) v) as [Hlt|Hge]; bool_lia; [by exists (Some IR_OutOfFunds), j1|].
  rewrite update_bind by eauto.
  assert (Hxb : get_balance (info xf) id = bal j from id) by (by rewrite (lookup_ledger j1 from), Hb1).
  set (j2 := set_state _ j1).
  assert (Hb2 : forall a t, bal j2 a t = ledger_set from id (bal j from id - v) (bal j) a t).
  { intros a t. unfold j2. cbn [state set_state accounts set_accounts].
    rewrite (ledger_set_balance _ xf) by done. unfold ledger_set. by case_decide. }
  assert (Hs2 : forall t, supply t (accounts (state j2)) =
    supply t (accounts (state j)) - (if decide (t = id) then v else 0)).
  { intros t. unfold j2. cbn [state set_state accounts set_accounts].
    rewrite (supply_set_balance _ xf), Hs1, Hxb by done. repeat case_decide; subst; lia || done. }
  destruct (touch_account_spec (E := E) to j2) as (j3 & H3 & HJ3 & Hk3 & Hb3 & Hs3);
    [done|by apply lookup_alter_is_Some, Hk1|].
  erewrite M_bind_ok by exact H3.
  destruct (Hk3 to) as [xt Hxt]; [by apply lookup_alter_is_Some, Hk1|].
  rewrite (account_bind _ xt) by done. rewrite (lookup_ledger j3 to) by done. rewrite Hb3, Hb2.
  unfold checked_add. destruct (Z.leb_spec (2 ^ 256) (ledger_set from id (bal j from id - v) (bal j) to id + v)); bool_lia.
  { exists (Some IR_OverflowPayment), j3. split_and!; [done..| |].
    - intros a t. by rewrite Hb3.
    - exists x. split; [by left|]. intros t. by rewrite Hs3, Hs2. }
  rewrite update_bind, push_bind by (eauto || done).
  match goal with |- context [transfer_loop from to ts ?j] => destruct (IH j) as (r & j' & Hr & He & Hl & Hsup) end.
  - by apply jpush_nonempty.
  - simpl. by apply lookup_alter_is_Some, Hk3, lookup_alter_is_Some, Hk1.
  - simpl. apply lookup_alter_is_Some. eauto.
  - exists r, j'. split; [exact Hr|].
    edestruct (ledger_transfer_ext from to ts) as [He2 Hl2]; [|rewrite He2 in He; split; [exact He|]].
    + intros a t. cbn. rewrite (ledger_set_balance _ xt) by done. unfold ledger_set at 1.
      transitivity (ledger_set to id (ledger_set from id (bal j from id - v) (bal j) to id + v)
        (ledger_set from id (bal j from id - v) (bal j)) a t); [|reflexivity].
      unfold ledger_set at 2. case_decide; [done|]. by rewrite Hb3, Hb2.
    + split; [intros a t; rewrite Hl; apply Hl2|]. eapply supply_after_step; [|exact Hsup].
      intros t. cbn. rewrite (supply_set_balance _ xt), Hs3, Hs2 by done.
      rewrite (lookup_ledger j3 to), Hb3, Hb2 by done. repeat case_decide; subst; lia || done.
Qed.

(** *** Storage *)

Definition slot_of (j : JournaledState) (a : Address) (k : Z) : option EvmStorageSlot :=
  accounts (state j) !! a ≫= fun x => storage x !! k.

Lemma slot_of_update a k v j b k' :
  is_Some (accounts (state j) !! a) ->
  slot_of (set_state (set_accounts (alter (set_storage (<[k := v]>)) a)) j) b k' =
    if decide (a = b /\ k = k') then Some v else slot_of j b k'.
Proof.
  intros [x Hx]. unfold slot_of. cbn. rewrite lookup_alter.
  destruct (decide (a = b)) as [->|Ha]; [|rewrite decide_False by (by intros []); done].
  rewrite Hx. simpl. rewrite lookup_insert. by repeat case_decide; destruct_and?; auto; exfalso; auto.
Qed.

Lemma slot_of_push e j a k : slot_of (jpush e j) a k = slot_of j a k.
Proof. done. Qed.

(** ** Theorems *)

Section journal_theorems.
Context {DB DbErr : Type} `{HDB : Database DB DbErr}.
Implicit Types (j : JournaledState) (d : DB).

Lemma token_ids_loaded j d :
  token_ids (state j) <> [] -> load_native_token_ids (DbErr := DbErr) (j, d) = (Ok false, (j, d)).
Proof.
  intros Hids. unfold load_native_token_ids. erewrite M_bind_ok by reflexivity. simpl.
  by destruct (token_ids (state j)).
Qed.

Lemma account_loaded j d a x :
  accounts (state j) !! a = Some x -> load_account (DbErr := DbErr) a (j, d) = (Ok (x, false), (j, d)).
Proof.
  intros Hx. unfold load_account. erewrite M_bind_ok by reflexivity. simpl. by rewrite Hx.
Qed.

Lemma transfer_loaded j d from to ts :
  journal j <> [] -> token_ids (state j) <> [] ->
  is_Some (accounts (state j) !! from) -> is_Some (accounts (state j) !! to) ->
  exists r j', transfer (DbErr := DbErr) from to ts (j, d) = (Ok r, (j', d)) /\
    r = (ledger_transfer from to ts (ledger (accounts (state j)))).1 /\
    (forall a t, ledger (accounts (state j')) a t =
       (ledger_transfer from to ts (ledger (accounts (state j)))).2 a t) /\
    supply_after ts r (accounts (state j)) (accounts (state j')).
Proof.
  intros HJ Hids [xf Hf] [xt Ht]. unfold transfer.
  erewrite M_bind_ok by by apply token_ids_loaded.
  erewrite M_bind_ok by by eapply account_loaded.
  erewrite M_bind_ok by by eapply account_loaded. rewrite on_js_eq.
  destruct (transfer_loop_ledger (E := EVMError DbErr) from to ts j) as (r & j' & Hr & He & Hl & Hs);
    [done|eauto..|].
  exists r, j'. by rewrite Hr.
Qed.

(** C18: [transfer] between loaded accounts implements the ledger.  It does
    not panic, its answer and all balances are those of moving each amount in
    turn on a function from addresses and tokens to balances, and it conserves
    the supply of every token, unless it answers [OverflowPayment]: then the
    amount of one transfer has left the sender and arrived nowhere. *)
Theorem transfer_implements_ledger j d from to ts :
  journal j <> [] -> token_ids (state j) <> [] ->
  is_Some (accounts (state j) !! from) -> is_Some (accounts (state j) !! to) ->
  exists r j', transfer (DbErr := DbErr) from to ts (j, d) = (Ok r, (j', d)) /\
    r = (ledger_transfer from to ts (ledger (accounts (state j)))).1 /\
    (forall a t, ledger (accounts (state j')) a t =
       (ledger_transfer from to ts (ledger (accounts (state j)))).2 a t) /\
    supply_after ts r (accounts (state j)) (accounts (state j')).
Proof. exact (transfer_loaded j d from to ts). Qed.

Lemma mint_loaded `{HK : Keccak} j d minter recipient sub_id amount m x :
  journal j <> [] -> token_ids (state j) <> [] ->
  accounts (state j) !! minter = Some m -> accounts (state j) !! recipient = Some x ->
  let t := token_id_address minter sub_id in
  let b := get_balance (info x) t in
  if b + amount <? 2 ^ 256 then
    exists j', mint (DbErr := DbErr) minter recipient sub_id amount (j, d) = (Ok true, (j', d)) /\
      (forall a t', ledger (accounts (state j')) a t' =
         ledger_set recipient t (b + amount) (ledger (accounts (state j))) a t') /\
      (forall t', supply t' (accounts (state j')) =
         supply t' (accounts (state j)) + (if decide (t = t') then amount else 0)) /\
      t ∈ token_ids (state j')
  else mint (DbErr := DbErr) minter recipient sub_id amount (j, d) = (Ok false, (j, d)).
Proof.
  intros HJ Hids Hm Hx t b. unfold mint.
  erewrite M_bind_ok by (unfold attempt; by rewrite token_ids_loaded). cbv beta iota.
  erewrite M_bind_ok by (unfold attempt; by erewrite account_loaded). cbv beta iota zeta.
  rewrite (js_account _ _ x) by done. fold t b. unfold checked_add.
  destruct (b + amount <? 2 ^ 256) eqn:Hlt; [|done].
  rewrite js_update by eauto. erewrite M_bind_ok by reflexivity. cbn [fst].
  set (j1 := set_state (set_accounts _) j).
  assert (Hb : forall a t', ledger (accounts (state j1)) a t' =
      ledger_set recipient t (b + amount) (ledger (accounts (state j))) a t').
  { intros a t'. unfold j1. cbn. by rewrite (ledger_set_balance _ x). }
  assert (Hs : forall t', supply t' (accounts (state j1)) =
      supply t' (accounts (state j)) + (if decide (t = t') then amount else 0)).
  { intros t'. unfold j1. cbn. rewrite (supply_set_balance _ x) by done. fold b. case_decide; lia. }
  case_bool_decide as Hin.
  - erewrite M_bind_ok by reflexivity. rewrite js_push by done. eexists. split; [reflexivity|]. done.
  - rewrite js_modify, js_push by done. eexists. split; [reflexivity|]. split_and!; [done..|].
    cbn. apply elem_of_app. right. by left.
Qed.

(** C31: [mint], the minter and the recipient loaded, adds the amount to the
    recipient's balance of the minter's token and to nothing else, and makes
    the token known; when the new balance is no 256-bit word it answers
    [false] and changes nothing. *)
Theorem mint_spec `{HK : Keccak} j d minter recipient sub_id amount m x :
  journal j <> [] -> token_ids (state j) <> [] ->
  accounts (state j) !! minter = Some m -> accounts (state j) !! recipient = Some x ->
  let t := token_id_address minter sub_id in
  let b := get_balance (info x) t in
  if b + amount <? 2 ^ 256 then
    exists j', mint (DbErr := DbErr) minter recipient sub_id amount (j, d) = (Ok true, (j', d)) /\
      (forall a t', ledger (accounts (state j')) a t' =
         ledger_set recipient t (b + amount) (ledger (accounts (state j))) a t') /\
      (forall t', supply t' (accounts (state j')) =
         supply t' (accounts (state j)) + (if decide (t = t') then amount else 0)) /\
      t ∈ token_ids (state j')
  else mint (DbErr := DbErr) minter recipient sub_id amount (j, d) = (Ok false, (j, d)).
Proof. exact (mint_loaded j d minter recipient sub_id amount m x). Qed.

Lemma burn_loaded `{HK : Keccak} j d burner sub_id holder amount x v :
  journal j <> [] -> token_ids (state j) <> [] -> accounts (state j) !! holder = Some x ->
  let t := token_id_address burner sub_id in
  is_token_id_valid d t = Ok v ->
  let b := get_balance (info x) t in
  if v && negb (amount =? 0) && (amount <=? b) then
    exists j', burn (DbErr := DbErr) burner sub_id holder amount (j, d) = (Ok true, (j', d)) /\
      (forall a t', ledger (accounts (state j')) a t' =
         ledger_set holder t (b - amount) (ledger (accounts (state j))) a t') /\
      (forall t', supply t' (accounts (state j')) =
         supply t' (accounts (state j)) - (if decide (t = t') then amount else 0))
  else burn (DbErr := DbErr) burner sub_id holder amount (j, d) = (Ok false, (j, d)).
Proof.
  intros HJ Hids Hx t Hv b. unfold burn.
  destruct (amount =? 0) eqn:H0; [by rewrite andb_false_r|]. rewrite andb_true_r.
  erewrite M_bind_ok by (unfold attempt; by rewrite token_ids_loaded). cbv beta iota.
  erewrite M_bind_ok by (unfold attempt; by erewrite account_loaded). cbv beta iota zeta.
  fold t. erewrite M_bind_ok.
  2: { unfold attempt, on_db, with_err, zoom. cbn. rewrite Hv. reflexivity. }
  cbv beta iota.
  destruct v; [|done]. rewrite (js_account _ _ x) by done. fold b. unfold checked_sub.
  destruct (amount <=? b) eqn:Hle; [|done]. cbn [andb].
  rewrite js_update, js_push by (done || eauto). eexists. split; [reflexivity|]. split.
  - intros a t'. cbn. by rewrite (ledger_set_balance _ x).
  - intros t'. cbn. rewrite (supply_set_balance _ x) by done. fold b. case_decide; lia.
Qed.

(** [burn], the holder loaded, removes a positive amount the holder has of
    a token the database knows, from the holder's balance and from the supply,
    and from nothing else; in every other case it answers [false] and changes
    nothing.  In particular it refuses the tokens minted since the last
    commit, which the database does not know yet. *)
Theorem burn_spec `{HK : Keccak} j d burner sub_id holder amount x v :
  journal j <> [] -> token_ids (state j) <> [] -> accounts (state j) !! holder = Some x ->
  let t := token_id_address burner sub_id in
  is_token_id_valid d t = Ok v ->
  let b := get_balance (info x) t in
  if v && negb (amount =? 0) && (amount <=? b) then
    exists j', burn (DbErr := DbErr) burner sub_id holder amount (j, d) = (Ok true, (j', d)) /\
      (forall a t', ledger (accounts (state j')) a t' =
         ledger_set holder t (b - amount) (ledger (accounts (state j))) a t') /\
      (forall t', supply t' (accounts (state j')) =
         supply t' (accounts (state j)) - (if decide (t = t') then amount else 0))
  else burn (DbErr := DbErr) burner sub_id holder amount (j, d) = (Ok false, (j, d)).
Proof. exact (burn_loaded j d burner sub_id holder amount x v). Qed.

(** Minting to a recipient that is not loaded panics: [mint] loads the
    minter and reads the recipient. *)
Theorem mint_unloaded_recipient_panics `{HK : Keccak} j d minter recipient sub_id amount m :
  token_ids (state j) <> [] ->
  accounts (state j) !! minter = Some m -> accounts (state j) !! recipient = None ->
  mint (DbErr := DbErr) minter recipient sub_id amount (j, d) = (Panic, (j, d)).
Proof.
  intros Hids Hm Hx. unfold mint.
  erewrite M_bind_ok by (unfold attempt; by rewrite token_ids_loaded). cbv beta iota.
  erewrite M_bind_ok by (unfold attempt; by erewrite account_loaded). cbv beta iota zeta.
  by apply js_account_None.
Qed.

(** [sload] answers the present value of the slot, and loads exactly that slot
    when it is cold. *)
Lemma sload_spec a k j d p c j' d' :
  journal j <> [] -> sload (DbErr := DbErr) a k (j, d) = (Ok (p, c), (j', d')) ->
  journal j' <> [] /\ is_Some (accounts (state j') !! a) /\
  exists s, slot_of j' a k = Some s /\ present_value s = p /\
    (slot_of j a k = Some s \/ slot_of j a k = None /\ s = EvmStorageSlot_new p) /\
    c = negb (bool_decide (is_Some (slot_of j a k))) /\
    forall b k', (b, k') <> (a, k) -> slot_of j' b k' = slot_of j b k'.
Proof.
  intros HJ. unfold sload. destruct (accounts (state j) !! a) as [x|] eqn:Hx.
  2: { by rewrite js_account_None. }
  rewrite (js_account _ _ x) by done.
  assert (Hsl : slot_of j a k = storage x !! k) by (unfold slot_of; by rewrite Hx).
  destruct (storage x !! k) as [s|] eqn:Hk.
  { intros [= <- <- <- <-]. split_and!; [done|eauto|]. exists s. rewrite Hsl. auto. }
  intros [(v & [j1 d1] & H1 & H2)|[(? & _ & ?)|[_ ?]]]%M_bind_inv; [|done..].
  assert (j1 = j) as -> by (destruct (is_created x); [by injection H1|by apply on_db_Ok in H1 as []]).
  rewrite js_push, js_update in H2 by (done || eauto). injection H2 as <- <- <- <-.
  split; [by apply jpush_nonempty|]. split; [by apply lookup_alter_is_Some; eauto|].
  exists (EvmStorageSlot_new v).
  split; [by rewrite slot_of_update, decide_True by eauto|]. rewrite Hsl. split_and!; auto.
  intros b k' Hne. rewrite slot_of_update by (cbn; eauto). rewrite decide_False; [done|].
  intros [-> ->]. done.
Qed.

(** Storing then loading.  A successful [sstore] makes the slot hold the
    new value, keeps its original value (the loaded value, for a slot that was
    cold), reports the present value from before and whether the slot was
    cold, and changes no other slot; loading the slot again answers the new
    value, warm, and changes nothing. *)
Theorem sstore_spec a k v j d r j' d' :
  journal j <> [] -> sstore (DbErr := DbErr) a k v (j, d) = (Ok r, (j', d')) ->
  slot_of j' a k = Some (mkSlot (ss_original_value r) v) /\ ss_new_value r = v /\
  ss_is_cold r = negb (bool_decide (is_Some (slot_of j a k))) /\
  match slot_of j a k with
  | Some s => ss_original_value r = original_value s /\ ss_present_value r = present_value s
  | None => ss_original_value r = ss_present_value r
  end /\
  (forall b k', (b, k') <> (a, k) -> slot_of j' b k' = slot_of j b k') /\
  sload a k (j', d') = (Ok (v, false), (j', d')).
Proof.
  intros HJ. unfold sstore.
  intros [([p c] & [j1 d1] & H1 & H2)|[(? & _ & ?)|[_ ?]]]%M_bind_inv; [|done..].
  apply sload_spec in H1 as (HJ1 & [x Hx] & s & Hs & Hp & Hold & Hc & Hoth); [|done].
  rewrite (js_account _ _ x) in H2 by done.
  assert (Hk : storage x !! k = Some s) by (unfold slot_of in Hs; by rewrite Hx in Hs).
  unfold lift in H2. rewrite Hk in H2. cbn [unwrap] in H2. erewrite M_bind_ok in H2 by reflexivity.
  assert (Hload : forall j2 y, accounts (state j2) !! a = Some y ->
    storage y !! k = Some (mkSlot (original_value s) v) ->
    sload (DbErr := DbErr) a k (j2, d1) = (Ok (v, false), (j2, d1))).
  { intros j2 y Hy Hky. unfold sload. rewrite (js_account _ _ y) by done. by rewrite Hky. }
  assert (Hmatch : match slot_of j a k with
    | Some s0 => original_value s = original_value s0 /\ p = present_value s0
    | None => original_value s = p end).
  { destruct Hold as [->|[-> ->]]; done. }
  destruct (Z.eqb_spec p v) as [->|Hne].
  - injection H2 as <- <- <-. cbn. subst v. destruct s as [o pv]. cbn in *.
    split_and!; try done. by apply (Hload j1 x).
  - rewrite js_push, js_update in H2 by (done || eauto). injection H2 as <- <- <-. cbn.
    split_and!; try done.
    + by rewrite slot_of_update, decide_True by eauto.
    + intros b k' Hbk. rewrite slot_of_update by (cbn; eauto). rewrite decide_False; [by apply Hoth|].
      intros [-> ->]. done.
    + eapply Hload; [cbn; by rewrite lookup_alter_eq, Hx|]. apply lookup_insert_eq.
Qed.

(** Transient storage.  Storing then loading answers the new value, other
    keys keep theirs, accounts and logs are not touched, and storing zero
    removes the key. *)
Theorem tstore_spec {E} j a k v b k' :
  journal j <> [] ->
  exists j', tstore (E := E) a k v j = (Ok tt, j') /\
    (tload (E := E) b k' j').1 = (if decide (a = b /\ k = k') then Ok v else (tload b k' j).1) /\
    (v = 0 -> transient_storage j' !! (a, k) = None) /\
    state j' = state j /\ logs j' = logs j /\ depth j' = depth j.
Proof.
  intros HJ. unfold tstore, tload, gets.
  destruct (Z.eqb_spec v 0) as [->|Hv].
  - assert (Hload : @Ok E Z (default 0 (delete (a, k) (transient_storage j) !! (b, k'))) =
      if decide (a = b /\ k = k') then Ok 0 else Ok (default 0 (transient_storage j !! (b, k')))).
    { rewrite lookup_delete. by repeat case_decide; destruct_and?; simplify_eq; auto; exfalso; auto. }
    destruct (transient_storage j !! (a, k)) as [w|] eqn:Hw; [rewrite push_entry_ok by done|];
      eexists; (split; [reflexivity|]); cbn; split_and!; try done; intros _; apply lookup_delete_eq.
  - assert (Hload : @Ok E Z (default 0 (<[(a, k) := v]> (transient_storage j) !! (b, k'))) =
      if decide (a = b /\ k = k') then Ok v else Ok (default 0 (transient_storage j !! (b, k')))).
    { rewrite lookup_insert. by repeat case_decide; destruct_and?; simplify_eq; auto; exfalso; auto. }
    destruct (negb _); [rewrite push_entry_ok by done|]; eexists; (split; [reflexivity|]); by cbn.
Qed.
End journal_theorems.

(** ** Witnesses *)

(** Evaluate the condition of the first conditional of a hypothesis. *)
Ltac eval_if H :=
  cbv zeta in H;
  match type of H with
  | if ?c then _ else _ =>
      let b := eval vm_compute in c in
      replace c with b in H by (vm_compute; reflexivity); cbv iota in H
  end.

(** Two accounts, and a database with the base token only. *)
Definition sample_hash : Keccak := sample_keccak.
Definition sample_db : Database (CacheDB EmptyDB) False :=
  CacheDB_database (R := EmptyDB_ref (H := sample_hash)).

Definition sample_js : JournaledState :=
  mkJournaledState
    (mkEvmState {[ 9 := mkAccount (AccountInfo_from_balances (init_balances 7)) {[ 1 := mkSlot 5 5 ]} 0;
                   8 := mkAccount (AccountInfo_from_balances (init_balances 1)) ∅ 0 ]} [BASE_TOKEN_ID])
    ∅ [] 0 [[]] CANCUN ∅.

Abbreviation cdb := (CacheDB_new tt : CacheDB EmptyDB).

Section journal_witnesses.
#[local] Existing Instances sample_hash sample_db.

Definition sample_account_9 : Account :=
  mkAccount (AccountInfo_from_balances (init_balances 7)) {[ 1 := mkSlot 5 5 ]} 0.
Definition sample_token : Z := token_id_address 9 4.

Lemma transfer_implements_ledger_witness :
  exists r j', transfer (DbErr := False) 9 8 [mkTransfer 0 3; mkTransfer 0 5] (sample_js, cdb) = (Ok r, (j', cdb)) /\
    r = Some IR_OutOfFunds /\ ledger (accounts (state j')) 8 0 = 4.
Proof.
  destruct (transfer_implements_ledger (DbErr := False) sample_js cdb 9 8 [mkTransfer 0 3; mkTransfer 0 5])
    as (r & j' & H & Hr & Hl & _); [discriminate|discriminate|by eexists|by eexists|].
  exists r, j'. split; [exact H|]. split; [rewrite Hr; vm_compute; reflexivity|].
  rewrite Hl. vm_compute. reflexivity.
Defined.

Lemma mint_spec_witness :
  exists j', mint (DbErr := False) 9 8 4 50 (sample_js, cdb) = (Ok true, (j', cdb)) /\
    ledger (accounts (state j')) 8 sample_token = 50.
Proof.
  pose proof (mint_spec (DbErr := False) sample_js cdb 9 8 4 50 sample_account_9
    (mkAccount (AccountInfo_from_balances (init_balances 1)) ∅ 0)
    ltac:(discriminate) ltac:(discriminate) eq_refl eq_refl) as Hm.
  eval_if Hm. destruct Hm as (j' & H & Hl & _).
  exists j'. split; [exact H|]. unfold sample_token. rewrite Hl. vm_compute. reflexivity.
Defined.

(** A database that knows the sample token, and a holder of it. *)
Definition token_db : CacheDB EmptyDB := set_cache_token_ids (fun l => l ++ [sample_token]) cdb.
Definition holder_9 : Account := set_info (set_balance sample_token 10) sample_account_9.

Lemma burn_spec_witness :
  let j := set_state (set_accounts (<[ 9 := holder_9 ]>)) sample_js in
  exists j', burn (DbErr := False) 9 4 9 6 (j, token_db) = (Ok true, (j', token_db)) /\
    ledger (accounts (state j')) 9 sample_token = 4.
Proof.
  intros j.
  pose proof (burn_spec (DbErr := False) j token_db 9 4 9 6 holder_9 true
    ltac:(discriminate) ltac:(discriminate) eq_refl ltac:(vm_compute; reflexivity)) as Hb.
  eval_if Hb. destruct Hb as (j' & H & Hl & _).
  exists j'. split; [exact H|]. unfold sample_token. rewrite Hl. vm_compute. reflexivity.
Defined.

Lemma mint_unloaded_recipient_panics_witness :
  mint (DbErr := False) 9 77 4 50 (sample_js, cdb) = (Panic, (sample_js, cdb)).
Proof.
  apply (mint_unloaded_recipient_panics (DbErr := False) sample_js cdb 9 77 4 50 sample_account_9);
    [discriminate|reflexivity|reflexivity].
Defined.

Lemma sstore_spec_witness :
  let r := sstore (DbErr := False) 9 1 42 (sample_js, cdb) in
  r.1 = Ok (mkSStoreResult 5 5 42 false) /\
  sload (DbErr := False) 9 1 r.2 = (Ok (42, false), r.2).
Proof.
  intros r. split; [vm_compute; reflexivity|].
  pose proof (sstore_spec (DbErr := False) 9 1 42 sample_js cdb (mkSStoreResult 5 5 42 false) r.2.1 r.2.2) as H.
  destruct H as (_ & _ & _ & _ & _ & H); [discriminate|vm_compute; reflexivity|].
  rewrite <- (surjective_pairing r.2) in H. exact H.
Defined.

Lemma tstore_spec_witness :
  exists j', tstore (E := False) 9 1 5 sample_js = (Ok tt, j') /\ (tload (E := False) 9 1 j').1 = Ok 5.
Proof.
  destruct (tstore_spec (E := False) sample_js 9 1 5 9 1) as (j' & H & Hl & _); [discriminate|].
  exists j'. split; [exact H|]. rewrite Hl. reflexivity.
Defined.
End journal_witnesses.
