(* ===== verification/Checkpoint.v ===== *)
(** Checkpoints: nested calls and creations, and the theorem that reverting to
    a checkpoint restores the state, whatever ran since. *)

From S2P Require Import Prelude Specification Bytes Eof Bytecode State Result InstructionResult.
From S2P Require Import Database Journal JournalRevert JournalRun InMemoryDb JournalSpec.

(** The state [checkpoint] enters, and the checkpoint it answers. *)
Definition entered (j : JournaledState) : JournaledState :=
  set_journal (fun l => l ++ [[]]) (set_depth (fun d => wrapping_add 64 d 1) j).
Definition checkpoint_of (j : JournaledState) : JournalCheckpoint :=
  mkCheckpoint (len (logs j)) (len (journal j)).
Definition left (j : JournaledState) : JournaledState := set_depth (fun d => wrapping_sub 64 d 1) j.

(** [jr] is [j], up to the equality on the state and the cached token ids. *)
Record restored (j jr : JournaledState) : Prop := {
  rs_state : st_equiv (undo_part jr) (undo_part j);
  rs_journal : journal jr = journal j;
  rs_logs : logs jr = logs j;
  rs_depth : depth jr = depth j;
  rs_spec : spec jr = spec j;
  rs_warm : warm_preloaded_addresses jr = warm_preloaded_addresses j;
}.

(** The address of a creation carries nothing that [create_account_checkpoint]
    overwrites without journaling it: no earlier creation, empty slots only. *)
Definition fresh_target (a : Address) (j : JournaledState) : Prop :=
  forall x, accounts (state j) !! a = Some x ->
    is_created x = false /\ fmap (fun _ => EvmStorageSlot_default) (storage x) = storage x.

(** ** Entering and leaving *)

Lemma entered_nonempty j : journal (entered j) <> [].
Proof. simpl. by destruct (journal j). Qed.

Lemma wf_entered j : wf_js j -> wf_js (entered j).
Proof. intros [Ha Ht Hd]. split; try done. simpl. by apply fits_wrapping_add. Qed.

Lemma journal_ext_entered J J' es :
  journal_ext (J ++ [[]]) J' es -> exists k rest, J' = J ++ k :: rest /\ es = concat (k :: rest).
Proof.
  intros (pre & l & k & rest & Heq & -> & ->). apply app_inj_tail in Heq as [<- <-].
  by exists k, rest.
Qed.

(** Committing keeps the entries of the sub-call in the journal. *)
Lemma jext_commit j j' es :
  journal j <> [] -> fits 64 (depth j) -> jext (entered j) j' es -> jext j (left j') es.
Proof.
  intros HJ Hdep [Hj Hu Hl Hd Hs Hw [Ha Ht Hdw]]. split; try done.
  - apply journal_ext_entered in Hj as (k & rest & Hj & ->). simpl in Hj |- *. rewrite Hj.
    destruct (journal j) as [|l pre _] using rev_ind; [done|].
    exists pre, l, [], (k :: rest). split_and!; [done| |done]. by rewrite app_nil_r, <- app_assoc.
  - simpl. rewrite Hd. by apply wrapping_sub_add.
  - split; try done. simpl. by apply fits_wrapping_sub.
Qed.

Lemma restored_jext j jr : journal j <> [] -> wf_js j -> restored j jr -> jext j jr [].
Proof.
  intros HJ [Ha Ht Hd] [[Hst Hts] Hjr Hlg Hdp Hsp Hw]. split; try done.
  - rewrite Hjr. by apply journal_ext_refl.
  - by constructor.
  - exists []. by rewrite app_nil_r.
  - split; [|by simpl in Hts; rewrite Hts|by rewrite Hdp].
    intros a x Hx. destruct (accs_equiv_lookup _ _ _ _ Hst Hx) as (y & Hy & Hxy).
    destruct (Ha _ _ Hy) as [Hb Hn]. split.
    + intros t. by rewrite (ae_balance _ _ _ Hxy).
    + by rewrite (ae_nonce _ _ _ Hxy).
Qed.

(** Reverting to a checkpoint whose sub-call extended the journal. *)
Lemma revert_restores {E} j j' es :
  fits 64 (depth j) -> jext (entered j) j' es ->
  exists jr, checkpoint_revert (E := E) (checkpoint_of j) j' = (Ok tt, jr) /\ restored j jr.
Proof.
  intros Hdep [Hj Hu [ls Hl] Hd Hs Hw Hwf].
  apply journal_ext_entered in Hj as (k & rest & Hj & ->). simpl in Hj.
  unfold checkpoint_revert. cbn [journal_i log_i checkpoint_of].
  rewrite Hs. cbn [journal set_depth spec entered set_journal transient_storage state].
  assert (Htake : take (Z.to_nat (usize_sub (len (journal j')) (len (journal j)))) (reverse (journal j'))
    = reverse (k :: rest)).
  { rewrite Hj, reverse_app. unfold usize_sub, len. rewrite length_app. bool_lia.
    apply take_app_length'. rewrite length_reverse. lia. }
  rewrite Htake, revert_sets_concat.
  change (sd (entered j)) with (enabled (spec j) SPURIOUS_DRAGON) in Hu.
  unfold undo_part in Hu. inversion Hu as [[st ts] ? Heq Hr|Hr]; subst.
  cbn [concat]. rewrite <- Hr. eexists. split; [reflexivity|]. split; try done.
  - simpl. rewrite Hj. unfold len. rewrite Nat2Z.id. by rewrite take_app_length.
  - simpl. rewrite Hl. unfold len. rewrite Nat2Z.id. by rewrite take_app_length.
  - simpl. rewrite Hd. by apply wrapping_sub_add.
Qed.

(** ** Creating an account *)

(** What [create_account_checkpoint] writes before the token movement: the
    creation mark, the reset of code and storage, and (from Spurious Dragon on)
    the nonce, which it writes last. *)
Definition reset_code_storage (x : Account) : Account :=
  set_storage (fmap (fun _ => EvmStorageSlot_default)) (set_info (set_info_code None) x).
Definition initial_nonce (b : bool) : AccountInfo -> AccountInfo := if b then set_nonce 1 else fun i => i.
Definition create_mark (b : bool) (x : Account) : Account :=
  set_info (initial_nonce b) (reset_code_storage (mark_created x)).

Lemma jext_created a b x j :
  journal j <> [] -> wf_js j -> fresh_target a j -> accounts (state j) !! a = Some x ->
  nonce (info x) = 0 ->
  jext j (jpush (AccountCreated a) (set_state (set_accounts (alter (create_mark b) a)) j)) [AccountCreated a].
Proof.
  intros HJ Hwf Hfr Hx Hn.
  eapply (jext_update _ a (create_mark b) (fun y => set_info (set_nonce 0) (unmark_created y)) j
    (set_accounts (alter (create_mark b) a) (state j))); eauto.
  - intros y Hy [Hb Hny]. split; destruct b; try done.
  - intros y Hy Hwy. rewrite Hx in Hy. injection Hy as <-. destruct (Hfr _ Hx) as [Hc Hst].
    assert (Hs : flags_remove (flags_insert (status x) Created) Created = status x)
      by by apply (flags_remove_insert _ 0).
    split; try (by destruct b). destruct b; simpl; by rewrite Hs.
Qed.

Lemma no_initial_nonce a j : set_state (set_accounts (alter (set_info (initial_nonce false)) a)) j = j.
Proof.
  destruct j as [[m ids] ? ? ? ? ? ?]. unfold set_state, set_accounts. simpl.
  rewrite alter_id; [done|]. by intros [[]].
Qed.

(** The nonce can be read as written with the creation mark. *)
Lemma create_nonce_first {E} a b j j2 :
  journal j <> [] -> is_Some (accounts (state j) !! a) ->
  touch_account (E := E) a (jpush (AccountCreated a) (set_state (set_accounts (alter (create_mark false) a)) j)) = (Ok tt, j2) ->
  touch_account (E := E) a (jpush (AccountCreated a) (set_state (set_accounts (alter (create_mark b) a)) j))
    = (Ok tt, set_state (set_accounts (alter (set_info (initial_nonce b)) a)) j2).
Proof.
  intros HJ Ha Ht.
  set (j1 := jpush (AccountCreated a) (set_state (set_accounts (alter (create_mark false) a)) j)) in *.
  replace (jpush (AccountCreated a) (set_state (set_accounts (alter (create_mark b) a)) j))
    with (set_state (set_accounts (alter (set_info (initial_nonce b)) a)) j1).
  - rewrite touch_after_update, Ht; [done|by apply jpush_nonempty|]. by apply lookup_alter_is_Some.
  - unfold j1, jpush, set_state, set_accounts, set_journal. simpl. by rewrite alter_twice.
Qed.

(** The last step of a creation, from the state [j2] after the touch. *)
Lemma jext_create_move caller a b v nb j2 y :
  journal j2 <> [] -> wf_js (set_state (set_accounts (alter (set_info (initial_nonce b)) a)) j2) ->
  fits 256 v -> accounts (state j2) !! a = Some y -> is_Some (accounts (state j2) !! caller) ->
  checked_add 256 (get_base_balance (info y)) v = Some nb ->
  jext (set_state (set_accounts (alter (set_info (initial_nonce b)) a)) j2)
    (jpush (BalanceTransfer caller a BASE_TOKEN_ID v)
      (set_state (set_accounts (alter (dec BASE_TOKEN_ID v) caller))
        (set_state (set_accounts (alter (set_info (initial_nonce b)) a))
          (set_state (set_accounts (alter (set_info (set_base_balance nb)) a)) j2))))
    [BalanceTransfer caller a BASE_TOKEN_ID v].
Proof.
  intros HJ Hwf Hv Hy Hc Hnb.
  set (j3 := set_state (set_accounts (alter (set_info (initial_nonce b)) a)) j2) in *.
  set (y3 := set_info (initial_nonce b) y).
  assert (Hy3 : accounts (state j3) !! a = Some y3) by (simpl; by rewrite lookup_alter_eq, Hy).
  assert (Hnb3 : checked_add 256 (get_balance (info y3) BASE_TOKEN_ID) v = Some nb)
    by (rewrite <- Hnb; by destruct b).
  destruct (checked_add_inc BASE_TOKEN_ID v nb y3) as [Hinc _];
    [by eapply (wf_accs _ Hwf)|done..|].
  assert (Hacc : alter (dec BASE_TOKEN_ID v) caller (alter (set_info (initial_nonce b)) a
      (alter (set_info (set_base_balance nb)) a (accounts (state j2))))
    = alter (dec BASE_TOKEN_ID v) caller (alter (inc BASE_TOKEN_ID v) a (accounts (state j3)))).
  { f_equal. rewrite <- (alter_at (set_info (set_base_balance nb)) (inc BASE_TOKEN_ID v) _ y3) by done.
    simpl. apply alter_swap. intros z. by destruct b. }
  pose proof (wf_accs _ Hwf) as Hm.
  apply (jext_move _ caller a BASE_TOKEN_ID v j3
    (set_accounts (alter (dec BASE_TOKEN_ID v) caller) (set_accounts (alter (set_info (initial_nonce b)) a)
      (set_accounts (alter (set_info (set_base_balance nb)) a) (state j2))))); try done.
  - simpl. by apply lookup_alter_is_Some.
  - simpl. rewrite Hacc. by apply move_commute.
  - simpl. rewrite Hacc. auto with undo.
Qed.

Lemma checkpoint_eq {E} j : checkpoint (E := E) j = (Ok (checkpoint_of j), entered j).
Proof. done. Qed.

Lemma revert_bind {E} j j' es (e : InstructionResult) :
  fits 64 (depth j) -> jext (entered j) j' es ->
  exists jr, (_ ← checkpoint_revert (checkpoint_of j); fail (A := E) e) j' = (Err e, jr) /\ restored j jr.
Proof.
  intros Hd He. destruct (revert_restores (E := InstructionResult) j j' es Hd He) as (jr & Hr & Hres).
  exists jr. split; [|done]. by erewrite M_bind_ok by exact Hr.
Qed.

(** Entering a creation either extends the journal from the entered state, or
    fails with the state restored. *)
Lemma create_jext caller a v sp j r j' :
  journal j <> [] -> wf_js j -> fits 256 v -> fresh_target a j ->
  create_account_checkpoint caller a v sp j = (r, j') ->
  match r with
  | Ok cp => cp = checkpoint_of j /\ exists es, jext (entered j) j' es
  | Err _ => restored j j'
  | Panic => True
  end.
Proof.
  intros HJ Hwf Hv Hfr Hm. pose proof (entered_nonempty j) as HJ0. pose proof (wf_entered j Hwf) as Hwf0.
  unfold create_account_checkpoint in Hm. erewrite M_bind_ok in Hm by apply checkpoint_eq.
  destruct (accounts (state j) !! a) as [x|] eqn:Hx.
  2: { rewrite account_bind_None in Hm by done. by injection Hm as <- <-. }
  rewrite (account_bind _ x) in Hm by done. erewrite M_bind_ok in Hm by reflexivity.
  destruct (negb (code_hash (info x) =? KECCAK_EMPTY) || _ || _) eqn:Hcol.
  { destruct (revert_bind (E := JournalCheckpoint) j (entered j) [] IR_CreateCollision) as (jr & Hr & Hres);
      [apply Hwf|by apply jext_refl|]. rewrite Hr in Hm. by injection Hm as <- <-. }
  apply orb_false_iff in Hcol as [Hcol _]. apply orb_false_iff in Hcol as [_ Hn].
  apply negb_false_iff, Z.eqb_eq in Hn.
  rewrite update_bind in Hm by (simpl; eauto). rewrite push_bind in Hm by done.
  rewrite update_bind in Hm by (simpl; rewrite lookup_alter_eq, Hx; eauto).
  set (j1 := jpush (AccountCreated a) (set_state (set_accounts (alter (create_mark false) a)) (entered j))).
  match type of Hm with (_ ≫= ?k) ?s = _ => replace s with j1 in Hm end.
  2: { unfold j1, jpush, set_state, set_accounts, set_journal. simpl. by rewrite alter_twice. }
  pose proof (jext_created a false x (entered j) HJ0 Hwf0 Hfr Hx Hn) as He1. fold j1 in He1.
  assert (Hx1 : accounts (state j1) !! a = Some (create_mark false x)) by (simpl; by rewrite lookup_alter_eq, Hx).
  destruct (touch_jext (E := InstructionResult) a (create_mark false x) j1) as (j2 & es2 & Ht & He2);
    [by apply jpush_nonempty|apply He1|done|].
  erewrite M_bind_ok in Hm by exact Ht.
  destruct (accounts (state j2) !! a) as [y|] eqn:Hy.
  2: { rewrite account_bind_None in Hm by done. by injection Hm as <- <-. }
  rewrite (account_bind _ y) in Hm by done.
  destruct (checked_add 256 _ v) as [nb|] eqn:Hnb.
  2: { destruct (revert_bind (E := JournalCheckpoint) j j2 ([AccountCreated a] ++ es2) IR_OverflowPayment)
         as (jr & Hr & Hres); [apply Hwf|by eapply jext_trans|].
       rewrite Hr in Hm. by injection Hm as <- <-. }
  rewrite update_bind in Hm by eauto.
  set (b := is_enabled_in sp SPURIOUS_DRAGON) in *.
  erewrite M_bind_ok with (s' := set_state (set_accounts (alter (set_info (initial_nonce b)) a))
    (set_state (set_accounts (alter (set_info (set_base_balance nb)) a)) j2)) (a := tt) in Hm.
  2: { destruct b.
       - rewrite update_account_ok; [done|]. simpl. rewrite lookup_alter_eq, Hy. eauto.
       - by rewrite no_initial_nonce. }
  destruct (accounts (state j2) !! caller) as [z|] eqn:Hz.
  2: { unfold update_account in Hm at 1. unfold mbind at 1, M_bind at 1 in Hm.
       rewrite account_bind_None in Hm by (simpl; by repeat apply lookup_alter_None_keep).
       by injection Hm as <- <-. }
  rewrite update_bind in Hm by (simpl; repeat apply lookup_alter_is_Some; eauto).
  pose proof (create_nonce_first (E := InstructionResult) a b (entered j) j2 HJ0 (ex_intro _ x Hx) Ht) as Htb.
  pose proof (jext_created a b x (entered j) HJ0 Hwf0 Hfr Hx Hn) as He1b.
  set (j1b := jpush (AccountCreated a) (set_state (set_accounts (alter (create_mark b) a)) (entered j))) in *.
  assert (HJ1b : journal j1b <> []) by (by eapply jext_nonempty).
  apply jrewindable_touch_account in Htb as [?|[es3 He3]]; [done| |done|apply He1b].
  rewrite push_bind in Hm by (simpl; by eapply (jext_nonempty _ _ _ He2)).
  injection Hm as <- <-. split; [done|]. eexists.
  eapply jext_trans; [exact He1b|]. eapply jext_trans; [exact He3|].
  eapply (jext_create_move caller a b v nb j2 y); eauto; [by eapply (jext_nonempty _ _ _ He2)|apply He3].
Qed.

Section runs.
Context {DB DbErr : Type} `{HDB : Database DB DbErr} `{HOK : !DatabaseOk DB DbErr} `{HK : Keccak}.

(** One call of a method of the journal, on arguments that are words. *)
Inductive op_step : JournaledState * DB -> JournaledState * DB -> Prop :=
  | op_touch a r s s' : on_js (DbErr := DbErr) (touch a) s = (r, s') -> r <> Panic -> op_step s s'
  | op_inc_nonce a r s s' : on_js (DbErr := DbErr) (inc_nonce a) s = (r, s') -> r <> Panic -> op_step s s'
  | op_set_code a c r s s' :
      (forall x, accounts (state s.1) !! a = Some x -> code_hash (info x) = KECCAK_EMPTY) ->
      on_js (DbErr := DbErr) (set_code a c) s = (r, s') -> r <> Panic -> op_step s s'
  | op_tstore a k v r s s' : on_js (DbErr := DbErr) (tstore a k v) s = (r, s') -> r <> Panic -> op_step s s'
  | op_log l r s s' : on_js (DbErr := DbErr) (log l) s = (r, s') -> r <> Panic -> op_step s s'
  | op_load_native_token_ids r s s' : load_native_token_ids s = (r, s') -> r <> Panic -> op_step s s'
  | op_load_account a r s s' : load_account a s = (r, s') -> r <> Panic -> op_step s s'
  | op_load_account_exist a r s s' : load_account_exist a s = (r, s') -> r <> Panic -> op_step s s'
  | op_load_code a r s s' : load_code a s = (r, s') -> r <> Panic -> op_step s s'
  | op_sload a k r s s' : sload a k s = (r, s') -> r <> Panic -> op_step s s'
  | op_sstore a k v r s s' : sstore a k v s = (r, s') -> r <> Panic -> op_step s s'
  | op_selfdestruct a t r s s' : selfdestruct a t s = (r, s') -> r <> Panic -> op_step s s'
  | op_transfer f t ts r s s' :
      Forall (fun t => fits 256 (transfer_amount t)) ts ->
      transfer f t ts s = (r, s') -> r <> Panic -> r <> Ok (Some IR_OverflowPayment) -> op_step s s'
  | op_burn b i h v r s s' : fits 256 v -> burn b i h v s = (r, s') -> r <> Panic -> op_step s s'
  | op_mint m t i v r s s' : fits 256 v -> mint m t i v s = (r, s') -> r <> Panic -> op_step s s'.

(** Enter a sub-call: a plain checkpoint, or one that creates an account. *)
Inductive enter (j : JournaledState) : outcome InstructionResult JournalCheckpoint -> JournaledState -> Prop :=
  | enter_call r j' : checkpoint j = (r, j') -> enter j r j'
  | enter_create caller a balance sp r j' :
      fits 256 balance -> fresh_target a j ->
      create_account_checkpoint caller a balance sp j = (r, j') -> r <> Panic -> enter j r j'.

(** A run: operations and well-bracketed sub-calls, each committed or
    reverted; a creation may also fail when it is entered. *)
Inductive run : JournaledState * DB -> JournaledState * DB -> Prop :=
  | run_nil s : run s s
  | run_op s1 s2 s3 : op_step s1 s2 -> run s2 s3 -> run s1 s3
  | run_commit j d cp j1 j2 d2 s3 :
      enter j (Ok cp) j1 -> run (j1, d) (j2, d2) ->
      run (left j2, d2) s3 -> run (j, d) s3
  | run_revert j d cp j1 j2 d2 j3 s3 :
      enter j (Ok cp) j1 -> run (j1, d) (j2, d2) ->
      checkpoint_revert (E := False) cp j2 = (Ok tt, j3) -> run (j3, d2) s3 -> run (j, d) s3
  | run_fail j d e j1 s3 :
      enter j (Err e) j1 -> run (j1, d) s3 -> run (j, d) s3.

(** *** Every run extends the journal *)

Lemma op_step_jext j d j' d' :
  ready j d -> op_step (j, d) (j', d') -> (exists es, jext j j' es) /\ ready j' d'.
Proof.
  intros Hr Hop. pose proof Hr as [HJ Hwf Hd].
  assert (Hgoal : (exists es, jext j j' es) /\ db_ok d').
  2: { destruct Hgoal as [[es He] Hd']. split; [eauto|]. by eapply ready_jext. }
  inversion Hop as [? ? ? ? Hm|? ? ? ? Hm|? ? ? ? ? Hc Hm|? ? ? ? ? ? Hm|? ? ? ? Hm|? ? ? Hm|? ? ? ? Hm
    |? ? ? ? Hm|? ? ? ? Hm|? ? ? ? ? Hm|? ? ? ? ? ? Hm|? ? ? ? ? Hm|? ? ? ? ? ? Hts Hm
    |? ? ? ? ? ? ? Hv Hm|? ? ? ? ? ? ? Hv Hm]; subst.
  - apply (rewind_on_js _ (jrewindable_touch _)) in Hm as [?|?]; done.
  - apply (rewind_on_js _ (jrewindable_inc_nonce _)) in Hm as [?|?]; done.
  - rewrite on_js_eq in Hm. destruct (set_code _ _ j) as [r1 j1] eqn:H1. simplify_eq.
    apply set_code_jext in H1 as [?|?]; done.
  - apply (rewind_on_js _ (jrewindable_tstore _ _ _)) in Hm as [?|?]; done.
  - apply (rewind_on_js _ (jrewindable_log _)) in Hm as [?|?]; done.
  - apply rewind_load_native_token_ids in Hm as [?|?]; done.
  - apply rewind_load_account in Hm as [?|?]; done.
  - apply rewind_load_account_exist in Hm as [?|?]; done.
  - apply rewind_load_code in Hm as [?|?]; done.
  - apply rewind_sload in Hm as [?|?]; done.
  - apply rewind_sstore in Hm as [?|?]; done.
  - apply rewind_selfdestruct in Hm as [?|?]; done.
  - apply rewind_transfer in Hm as [?|[?|?]]; done.
  - by apply (rewind_burn _ _ _ _ Hv) in Hm as [?|?].
  - by apply (rewind_mint _ _ _ _ Hv) in Hm as [?|?].
Qed.

Lemma enter_jext j r j' :
  journal j <> [] -> wf_js j -> enter j r j' ->
  match r with
  | Ok cp => cp = checkpoint_of j /\ exists es, jext (entered j) j' es
  | Err _ => restored j j'
  | Panic => True
  end.
Proof.
  intros HJ Hwf [r' j1 Hc|caller a v sp r' j1 Hv Hfr Hc _].
  - rewrite checkpoint_eq in Hc. injection Hc as <- <-. split; [done|]. eexists.
    apply jext_refl; [apply entered_nonempty|by apply wf_entered].
  - by apply (create_jext caller a v sp).
Qed.

Lemma run_jext s s' :
  run s s' -> ready s.1 s.2 -> (exists es, jext s.1 s'.1 es) /\ ready s'.1 s'.2.
Proof.
  induction 1 as [s|[j d] [j1 d1] s3 Hop _ IH|j d cp j1 j2 d2 s3 He _ IH1 _ IH2
    |j d cp j1 j2 d2 j3 s3 He _ IH1 Hrev _ IH2|j d e j1 s3 He _ IH]; simpl in *; intros Hr;
    pose proof Hr as [HJ Hwf Hd].
  - split; [|done]. eexists. by apply jext_refl.
  - apply op_step_jext in Hop as [[es Hes] Hr1]; [|done].
    destruct (IH Hr1) as [[es' Hes'] Hr3]. split; [|done]. eexists. by eapply jext_trans.
  - apply enter_jext in He as [-> [es Hes]]; [|done..].
    assert (Hr1 : ready j1 d).
    { eapply ready_jext; [done..|]. split; [apply entered_nonempty|by apply wf_entered|done]. }
    destruct (IH1 Hr1) as [[es' Hes'] Hr2].
    assert (Hcm : jext j (left j2) (es ++ es')).
    { apply jext_commit; [done|apply Hwf|]. by eapply jext_trans. }
    destruct IH2 as [[es3 Hes3] Hr3]; [eapply ready_jext; [done|apply Hr2|done]|].
    split; [|done]. eexists. by eapply jext_trans.
  - apply enter_jext in He as [-> [es Hes]]; [|done..].
    assert (Hr1 : ready j1 d).
    { eapply ready_jext; [done..|]. split; [apply entered_nonempty|by apply wf_entered|done]. }
    destruct (IH1 Hr1) as [[es' Hes'] Hr2].
    destruct (revert_restores (E := False) j j2 (es ++ es')) as (jr & Heq & Hres);
      [apply Hwf|by eapply jext_trans|].
    rewrite Heq in Hrev. injection Hrev as <-.
    apply restored_jext in Hres; [|done..].
    destruct IH2 as [[es3 Hes3] Hr3]; [eapply ready_jext; [done|apply Hr2|done]|].
    split; [|done]. eexists. by eapply jext_trans.
  - apply enter_jext in He; [|done..]. apply restored_jext in He; [|done..].
    destruct IH as [[es3 Hes3] Hr3]; [by eapply ready_jext|].
    split; [|done]. eexists. by eapply jext_trans.
Qed.

(** ** Theorems *)


(** What every run keeps.  From a state with an open journal set,
    word-sized balances and nonces and a database in its invariant, any run, in the
    sense above, leads to such a state again, keeps the call depth, the spec and the
    warm addresses, and only appends to the logs.  *)
Theorem run_preserves s s' :
  run s s' -> ready s.1 s.2 ->
  ready s'.1 s'.2 /\ depth s'.1 = depth s.1 /\ spec s'.1 = spec s.1 /\
  warm_preloaded_addresses s'.1 = warm_preloaded_addresses s.1 /\
  logs s.1 `prefix_of` logs s'.1.
Proof.
  intros Hrun Hr. destruct (run_jext _ _ Hrun Hr) as [[es He] Hr'].
  split_and!; [done|apply He..|]. destruct (jx_logs _ _ _ He) as [ls ->]. by exists ls.
Qed.

(** A creation that fails when it is entered, because of a collision or of
    an overflow of the balance, leaves the state restored. *)
Theorem failed_creation_restores caller a v sp j e j' :
  journal j <> [] -> wf_js j -> fits 256 v -> fresh_target a j ->
  create_account_checkpoint caller a v sp j = (Err e, j') -> restored j j'.
Proof. intros HJ Hwf Hv Hfr Hc. by apply (create_jext caller a v sp j (Err e) j'). Qed.
End runs.

(** ** Witnesses *)

Section checkpoint_witnesses.
#[local] Existing Instances sample_hash sample_db.
#[local] Instance sample_db_ok : DatabaseOk (CacheDB EmptyDB) False := CacheDB_ok.

(** Create account 8 with a balance of 3, store, and in a committed sub-call
    store to the transient storage. *)
Definition sample_created := create_account_checkpoint 9 8 3 CANCUN sample_js.
Definition sample_stored := sstore 9 1 42 (sample_created.2, cdb).
Definition sample_inner := checkpoint (E := False) sample_stored.2.1.
Definition sample_tstored := on_js (DbErr := False) (tstore 8 2 6) (sample_inner.2, sample_stored.2.2).
Definition sample_end : JournaledState := left sample_tstored.2.1.

Lemma sample_ready : ready sample_js cdb.
Proof.
  split; [discriminate| |intros a acc [=]]. split; [|intros k v [=]|by vm_compute].
  intros a x Hx. simpl in Hx.
  assert (exists b, fits 256 b /\ info x = AccountInfo_from_balances (init_balances b)) as (b & Hb & Hi).
  { apply lookup_insert_Some in Hx as [[<- <-]|[_ [<- <-]%lookup_singleton_Some]];
      eexists; (split; [|reflexivity]); by vm_compute. }
  unfold wf_account. rewrite Hi. split; [|by vm_compute]. intros t. unfold get_balance. simpl.
  unfold init_balances. rewrite lookup_singleton. case_decide; [done|by vm_compute].
Qed.

Lemma sample_fresh : fresh_target 8 sample_js.
Proof. intros x [= <-]. split; reflexivity. Qed.

Lemma sample_enter : enter sample_js (Ok (mkCheckpoint 0 1)) sample_created.2.
Proof.
  apply (enter_create sample_js 9 8 3 CANCUN); [by vm_compute|apply sample_fresh|by vm_compute|done].
Qed.

Lemma sample_run : run (sample_created.2, cdb) (sample_end, sample_tstored.2.2).
Proof.
  eapply run_op.
  { apply (op_sstore 9 1 42 sample_stored.1 _ sample_stored.2); [apply surjective_pairing|by vm_compute]. }
  rewrite (surjective_pairing sample_stored.2).
  apply (run_commit _ _ (checkpoint_of sample_stored.2.1) sample_inner.2 sample_tstored.2.1 sample_tstored.2.2);
    [by apply enter_call| |apply run_nil].
  apply (run_op _ (sample_tstored.2.1, sample_tstored.2.2)); [|apply run_nil].
  apply (op_tstore 8 2 6 sample_tstored.1); [|by vm_compute].
  rewrite <- (surjective_pairing sample_tstored.2). apply surjective_pairing.
Qed.

Lemma sample_created_ready : ready sample_created.2 cdb.
Proof.
  pose proof sample_ready as Hr. destruct Hr as [HJ Hwf Hd].
  destruct (enter_jext _ _ _ HJ Hwf sample_enter) as [_ [es He]].
  eapply ready_jext; [exact He|exact Hd|].
  split; [apply entered_nonempty|by apply wf_entered|exact Hd].
Qed.


Lemma run_preserves_witness : depth sample_end = depth sample_created.2 /\ depth sample_end = 1.
Proof.
  split; [|by vm_compute].
  apply (run_preserves (sample_created.2, cdb) (sample_end, sample_tstored.2.2) sample_run).
  apply sample_created_ready.
Defined.

Lemma failed_creation_restores_witness :
  (create_account_checkpoint 9 8 (2 ^ 256 - 1) CANCUN sample_js).1 = Err IR_OverflowPayment /\
  restored sample_js (create_account_checkpoint 9 8 (2 ^ 256 - 1) CANCUN sample_js).2.
Proof.
  split; [by vm_compute|].
  apply (failed_creation_restores 9 8 (2 ^ 256 - 1) CANCUN sample_js IR_OverflowPayment).
  - discriminate.
  - apply sample_ready.
  - by vm_compute.
  - apply sample_fresh.
  - by vm_compute.
Defined.
End checkpoint_witnesses.
