(* ===== verification/CallInputs.v ===== *)
(** The inputs of a call and the results of a precompile:
    [crates/interpreter/src/interpreter_action/call_inputs.rs] and
    [crates/primitives/src/precompile.rs]. *)

From S2P Require Import Prelude Bytes Eof Bytecode State Result InstructionResult Database.
From S2P Require Import Journal.

Inductive CallScheme : Type := CS_Call | CS_CallCode | CS_DelegateCall | CS_StaticCall.

(** The values of a call: transferred, or only apparent. *)
Inductive CallValues : Type :=
  | CV_Transfer (values : list TokenTransfer)
  | CV_Apparent (values : list TokenTransfer).

Definition CallValues_default : CallValues := CV_Transfer [mkTransfer BASE_TOKEN_ID 0].

Definition CallValues_get (v : CallValues) : list TokenTransfer :=
  match v with CV_Transfer values | CV_Apparent values => values end.
Definition CallValues_transfer (v : CallValues) : list TokenTransfer :=
  match v with CV_Transfer values => values | CV_Apparent _ => [] end.
Definition CallValues_is_transfer (v : CallValues) : bool :=
  match v with CV_Transfer _ => true | CV_Apparent _ => false end.
Definition CallValues_apparent (v : CallValues) : list TokenTransfer :=
  match v with CV_Transfer _ => [] | CV_Apparent values => values end.
Definition CallValues_is_apparent (v : CallValues) : bool :=
  match v with CV_Transfer _ => false | CV_Apparent _ => true end.

Record CallInputs : Type := mkCallInputs {
  ci_input : bytes;
  return_memory_offset : Z * Z;
  ci_gas_limit : Z;
  bytecode_address : Address;
  target_address : Address;
  ci_caller : Address;
  ci_values : CallValues;
  scheme : CallScheme;
  is_static : bool;
  ci_is_eof : bool;
}.

Definition transfers_value (i : CallInputs) : bool :=
  existsb (fun x => 0 <? transfer_amount x) (CallValues_transfer (ci_values i)).
Definition transfer_value (i : CallInputs) : list TokenTransfer := CallValues_transfer (ci_values i).
Definition apparent_value (i : CallInputs) : list TokenTransfer := CallValues_apparent (ci_values i).
Definition transfer_from (i : CallInputs) : Address := ci_caller i.
Definition transfer_to (i : CallInputs) : Address := target_address i.
Definition call_values (i : CallInputs) : list TokenTransfer := CallValues_get (ci_values i).

(** ** Precompiles *)

Inductive PrecompileError : Type :=
  | PE_OutOfGas | PE_Blake2WrongLength | PE_Blake2WrongFinalIndicatorFlag
  | PE_ModexpExpOverflow | PE_ModexpBaseOverflow | PE_ModexpModOverflow
  | PE_Bn128FieldPointNotAMember | PE_Bn128AffineGFailedToCreate | PE_Bn128PairLength
  | PE_BlobInvalidInputLength | PE_BlobMismatchedVersion | PE_BlobVerifyKzgProofFailed
  | PE_InvalidInput | PE_UnauthorizedCaller | PE_AttemptedStateChangeDuringStaticCall
  | PE_Other (s : string).

#[export] Instance PrecompileError_eq_dec : EqDecision PrecompileError.
Proof. solve_decision. Defined.

Record ResultInfo : Type := mkResultInfo { gas_used : Z; returned_bytes : bytes }.

Record PrimitiveCallInfo : Type := mkPrimitiveCallInfo {
  pci_target_address : Address;
  token_transfers : list TokenTransfer;
  input_data : bytes;
}.

Inductive ResultOrNewCall : Type :=
  | RNC_Result (r : ResultInfo)
  | RNC_Call (c : PrimitiveCallInfo).

Abbreviation PrecompileResult := (outcome PrecompileError ResultOrNewCall).
