(* ===== verification/NativeTokens.v ===== *)
(** The native-token precompile: [crates/revm/src/sablier/native_tokens.rs].

    One definition per function of the file, over the journaled state and the
    database of the context.  The inputs are parsed with [bytes_parsing]; what
    the parsing of one call shares is a definition used by all of them, with
    the code's order of checks. *)

From S2P Require Import Prelude Specification Bytes Eof Bytecode State Result InstructionResult.
From S2P Require Import Database Journal JournalRevert JournalRun InMemoryDb JournalSpec CallInputs.

(** [u64_to_prefixed_address] of [sablier/mod.rs]. *)
Definition u64_to_prefixed_address (x : Z) : Address :=
  from_be_bytes ([112; 96; 0; 0; 0; 0; 0; 0; 0; 0; 0; 0] ++ to_be_bytes 8 x).

Definition NATIVE_TOKENS_ADDRESS : Address := u64_to_prefixed_address 1.

Definition BASE_GAS_COST : Z := 15.
Definition BALANCEOF_SELECTOR : Z := 0x00fdd58e.
Definition BURN_SELECTOR : Z := 0x9eea5f66.
Definition GET_CALL_VALUES_SELECTOR : Z := 0x6141a8b9.
Definition MINT_SELECTOR : Z := 0x836a1040.
Definition TRANSFER_AND_CALL_SELECTOR : Z := 0xd1c673e9.
Definition TRANSFER_MULTIPLE_SELECTOR : Z := 0x99583417.
Definition TRANSFER_MULTIPLE_AND_CALL_SELECTOR : Z := 0x822bbe4c.
Definition TRANSFER_SELECTOR : Z := 0x095bcdb6.

(** [Vec::with_capacity] panics when the allocation exceeds [isize::MAX] bytes;
    a [TokenTransfer] takes 64. *)
Definition with_capacity_ok (capacity : Z) : bool := capacity * 64 <=? 2 ^ 63 - 1.

(** [usize::try_from(u256).unwrap_or_default()]. *)
Definition usize_or_default (v : Z) : Z := if v <? 2 ^ 64 then v else 0.

(** [n] words read in a loop.  Every iteration consumes 32 bytes or fails, so a
    fuel of the length of the input is never exhausted. *)
Fixpoint consume_words_aux (fuel : nat) (n : Z) (input : bytes)
  : outcome BytesParsingError (list Z * bytes) :=
  if n <=? 0 then Ok ([], input)
  else
    '(w, input) ← consume_u256_from input;
    match fuel with
    | O => Err BytesInvalidInput
    | S fuel =>
        '(ws, input) ← consume_words_aux fuel (n - 1) input;
        Ok (w :: ws, input)
    end.
Definition consume_words (n : Z) (input : bytes) : outcome BytesParsingError (list Z * bytes) :=
  consume_words_aux (length input) n input.

Section native_tokens.
Context {DB DbErr : Type} `{HDB : Database DB DbErr} `{HK : Keccak}.

Abbreviation PM := (M (JournaledState * DB) PrecompileError).

(** [.map_err(|_| Error::InvalidInput)?] on a parsing step. *)
Definition parse {A} (m : outcome BytesParsingError A) : PM A :=
  lift (map_err (fun _ => PE_InvalidInput) m).

(** A journal operation whose error becomes [e]. *)
Definition journal_call {A} (e : PrecompileError)
  (m : M (JournaledState * DB) (EVMError DbErr) A) : PM A := with_err (fun _ => e) m.

(** [InnerEvmContext::balance] and [InnerEvmContext::code]. *)
Definition ctx_balance (token_id : Z) (address : Address)
  : M (JournaledState * DB) (EVMError DbErr) (Z * bool) :=
  '(acc, is_cold) ← load_account address;
  mret (get_balance (info acc) token_id, is_cold).

Definition ctx_code (address : Address)
  : M (JournaledState * DB) (EVMError DbErr) (Bytecode * bool) :=
  '(acc, is_cold) ← load_code address;
  c ← lift (unwrap (code (info acc)));
  mret (c, is_cold).

Definition is_address_eoa (address : Address)
  : M (JournaledState * DB) (EVMError DbErr) bool :=
  '(bytecode, _) ← ctx_code address;
  mret (Bytecode_is_empty bytecode).

(** The check at the top of every function but [balance_of]: not in a static
    call, and called by a contract. *)
Definition check_caller (inputs : CallInputs) : PM unit :=
  if is_static inputs then fail PE_AttemptedStateChangeDuringStaticCall
  else
    eoa ← journal_call PE_UnauthorizedCaller (is_address_eoa (target_address inputs));
    if eoa : bool then fail PE_UnauthorizedCaller else mret tt.

(** [if !input.is_empty()]. *)
Definition check_consumed (input : bytes) : PM unit :=
  match input with [] => mret tt | _ => fail PE_InvalidInput end.

Definition success (gas_used : Z) : PM ResultOrNewCall :=
  mret (RNC_Result (mkResultInfo gas_used [])).

Definition balance_of (gas_used : Z) (input : bytes) : PM ResultOrNewCall :=
  '(address, input) ← parse (consume_address_from input);
  '(token_id, input) ← parse (consume_u256_from input);
  _ ← check_consumed input;
  '(balance, _) ← journal_call PE_InvalidInput (ctx_balance token_id address);
  mret (RNC_Result (mkResultInfo gas_used (to_be_bytes 32 balance))).

Definition mint (inputs : CallInputs) (gas_used : Z) (input : bytes) : PM ResultOrNewCall :=
  _ ← check_caller inputs;
  '(sub_id, input) ← parse (consume_u256_from input);
  '(recipient, input) ← parse (consume_address_from input);
  '(amount, input) ← parse (consume_u256_from input);
  _ ← check_consumed input;
  ok ← journal_call PE_InvalidInput (Journal.mint (target_address inputs) recipient sub_id amount);
  if ok : bool then success gas_used else fail (PE_Other "Mint failed").

Definition burn (inputs : CallInputs) (gas_used : Z) (input : bytes) : PM ResultOrNewCall :=
  _ ← check_caller inputs;
  '(sub_id, input) ← parse (consume_u256_from input);
  '(token_holder, input) ← parse (consume_address_from input);
  '(amount, input) ← parse (consume_u256_from input);
  _ ← check_consumed input;
  ok ← journal_call PE_InvalidInput (Journal.burn (target_address inputs) sub_id token_holder amount);
  if ok : bool then success gas_used else fail (PE_Other "Burn failed").

(** [journaled_state.transfer(..).is_ok()]: the [Option<InstructionResult>]
    inside the [Ok] is not looked at. *)
Definition transfer_is_ok (sender recipient : Address) (transfers : list TokenTransfer) : PM bool :=
  r ← attempt (Journal.transfer (DbErr := DbErr) sender recipient transfers);
  mret (match r with inr _ => true | inl _ => false end).

Definition transfer (inputs : CallInputs) (gas_used : Z) (input : bytes) : PM ResultOrNewCall :=
  _ ← check_caller inputs;
  '(recipient, input) ← parse (consume_address_from input);
  '(token_id, input) ← parse (consume_u256_from input);
  '(amount, input) ← parse (consume_u256_from input);
  _ ← check_consumed input;
  ok ← transfer_is_ok (target_address inputs) recipient [mkTransfer token_id amount];
  if ok : bool then success gas_used else fail (PE_Other "Transfer failed").

(** The callee of the "and call" functions must be a contract. *)
Definition check_callee (callee : Address) : PM unit :=
  eoa ← journal_call PE_InvalidInput (is_address_eoa callee);
  if eoa : bool then fail PE_InvalidInput else mret tt.

Definition transfer_and_call (inputs : CallInputs) (input : bytes) : PM ResultOrNewCall :=
  _ ← check_caller inputs;
  '(recipient_and_callee, input) ← parse (consume_address_from input);
  _ ← check_callee recipient_and_callee;
  '(token_id, input) ← parse (consume_u256_from input);
  '(amount, input) ← parse (consume_u256_from input);
  '(_, input) ← parse (consume_u256_from input);
  '(calldata_size, input) ← parse (consume_u256_from input);
  '(calldata, input) ← parse (consume_bytes_from input (usize_or_default calldata_size));
  _ ← check_consumed input;
  calldata ← lift (slice_from calldata 28);
  mret (RNC_Call (mkPrimitiveCallInfo recipient_and_callee [mkTransfer token_id amount] calldata)).

Definition transfer_multiple (inputs : CallInputs) (gas_used : Z) (input : bytes)
  : PM ResultOrNewCall :=
  _ ← check_caller inputs;
  '(recipient, input) ← parse (consume_address_from input);
  '(_, input) ← parse (consume_u256_from input);
  '(_, input) ← parse (consume_u256_from input);
  '(token_ids_len, input) ← parse (consume_u256_from input);
  '(ids, input) ← parse (consume_words (cast 64 token_ids_len) input);
  if negb (bool_decide (NoDup ids)) then fail PE_InvalidInput else
  '(transfer_amounts_len, input) ← parse (consume_u256_from input);
  if negb (token_ids_len =? transfer_amounts_len) then fail PE_InvalidInput else
  '(amounts, input) ← parse (consume_words (cast 64 transfer_amounts_len) input);
  _ ← check_consumed input;
  ok ← transfer_is_ok (target_address inputs) recipient (zip_with mkTransfer ids amounts);
  if ok : bool then success gas_used else fail (PE_Other "Transfer failed").

Definition transfer_multiple_and_call (inputs : CallInputs) (input : bytes) : PM ResultOrNewCall :=
  _ ← check_caller inputs;
  '(recipient_and_callee, input) ← parse (consume_address_from input);
  _ ← check_callee recipient_and_callee;
  '(_, input) ← parse (consume_u256_from input);
  '(_, input) ← parse (consume_u256_from input);
  '(_, input) ← parse (consume_u256_from input);
  '(token_ids_len, input) ← parse (consume_u256_from input);
  let capacity := usize_or_default token_ids_len in
  _ ← lift (if with_capacity_ok capacity then Ok tt else Panic);
  '(ids, input) ← parse (consume_words capacity input);
  if negb (bool_decide (NoDup ids)) then fail PE_InvalidInput else
  '(transfer_amounts_len, input) ← parse (consume_u256_from input);
  if negb (token_ids_len =? transfer_amounts_len) then fail PE_InvalidInput else
  '(amounts, input) ← parse (consume_words (len ids) input);
  '(calldata_size, input) ← parse (consume_u256_from input);
  '(calldata, input) ← parse (consume_bytes_from input (usize_or_default calldata_size));
  _ ← check_consumed input;
  calldata ← lift (slice_from calldata 28);
  mret (RNC_Call (mkPrimitiveCallInfo recipient_and_callee (zip_with mkTransfer ids amounts) calldata)).

(** The words [getCallValues] returns. *)
Definition encode_words (ws : list Z) : bytes := concat (to_be_bytes 32 <$> ws).
Definition call_values_data (values : list TokenTransfer) : bytes :=
  let n := len values in
  to_be_bytes 32 64
  ++ to_be_bytes 32 (wrapping_add 256 (wrapping_add 256 64 32) (wrapping_mul 256 n 32))
  ++ to_be_bytes 32 n ++ encode_words (transfer_id <$> values)
  ++ to_be_bytes 32 n ++ encode_words (transfer_amount <$> values).

Definition get_call_values (inputs : CallInputs) (gas_used : Z) : PM ResultOrNewCall :=
  _ ← check_caller inputs;
  mret (RNC_Result (mkResultInfo gas_used (call_values_data (call_values inputs)))).

(** [call_mut]: the dispatch on the selector. *)
Definition call_mut (inputs : CallInputs) (gas_limit : Z) : PM ResultOrNewCall :=
  let gas_used := BASE_GAS_COST in
  if gas_limit <? gas_used then fail PE_OutOfGas
  else
    '(function_selector, input) ← parse (consume_u32_from (ci_input inputs));
    if function_selector =? BALANCEOF_SELECTOR then balance_of gas_used input
    else if function_selector =? BURN_SELECTOR then burn inputs gas_used input
    else if function_selector =? GET_CALL_VALUES_SELECTOR then get_call_values inputs gas_used
    else if function_selector =? MINT_SELECTOR then mint inputs gas_used input
    else if function_selector =? TRANSFER_AND_CALL_SELECTOR then transfer_and_call inputs input
    else if function_selector =? TRANSFER_MULTIPLE_AND_CALL_SELECTOR
    then transfer_multiple_and_call inputs input
    else if function_selector =? TRANSFER_MULTIPLE_SELECTOR
    then transfer_multiple inputs gas_used input
    else if function_selector =? TRANSFER_SELECTOR then transfer inputs gas_used input
    else fail PE_InvalidInput.
End native_tokens.

(** ** Lemmas *)

Lemma encode_words_cons w ws rest :
  encode_words (w :: ws) ++ rest = to_be_bytes 32 w ++ encode_words ws ++ rest.
Proof. unfold encode_words. rewrite fmap_cons. cbn [concat]. by rewrite app_assoc. Qed.

Lemma length_encode_words ws : length (encode_words ws) = (32 * length ws)%nat.
Proof.
  induction ws as [|w ws IH]; [done|]. rewrite <- (app_nil_r (encode_words _)), encode_words_cons.
  rewrite app_nil_r, length_app, length_to_be_bytes, IH. cbn [length]. lia.
Qed.

(** Reading back the words of an encoding; the fuel suffices. *)
Lemma consume_words_aux_ok fuel ws rest :
  (length ws <= fuel)%nat -> Forall (fits 256) ws ->
  consume_words_aux fuel (len ws) (encode_words ws ++ rest) = Ok (ws, rest).
Proof.
  revert ws. induction fuel as [|fuel IH]; intros [|w ws] Hf Hws; simpl in Hf; try lia; try done.
  apply Forall_cons in Hws as [Hw Hws]. cbn [consume_words_aux].
  pose proof (len_nonneg ws). rewrite len_cons. bool_lia.
  rewrite encode_words_cons, consume_u256_from_ok by done. cbn [mbind outcome_bind].
  replace (1 + len ws - 1) with (len ws) by lia. rewrite IH by (done || lia). done.
Qed.

Lemma consume_words_ok ws rest :
  Forall (fits 256) ws -> consume_words (len ws) (encode_words ws ++ rest) = Ok (ws, rest).
Proof.
  intros Hws. apply consume_words_aux_ok; [|done]. rewrite length_app, length_encode_words. lia.
Qed.

(** The loop fails exactly when the input is too short: more fuel changes
    nothing. *)
Lemma consume_words_short fuel n input :
  0 <= n -> len input < 32 * n -> exists e, consume_words_aux fuel n input = Err e.
Proof.
  revert n input. induction fuel as [|fuel IH]; intros n input Hn Hl; cbn [consume_words_aux];
    pose proof (len_nonneg input); bool_lia; unfold consume_u256_from, consume_bytes_from;
    destruct (Z.ltb_spec (len input) 32) as [|Hge]; cbn [mbind outcome_bind]; eauto.
  destruct (IH (n - 1) (drop (Z.to_nat 32) input)) as [e He]; [lia| |].
  - rewrite len_drop; lia.
  - rewrite He. eauto.
Qed.

(** An ABI reader of what [getCallValues] returns: two arrays, found through
    their offsets. *)
Definition decode_array (data : bytes) (offset : Z) : outcome BytesParsingError (list Z) :=
  '(n, rest) ← consume_u256_from (drop (Z.to_nat offset) data);
  '(ws, _) ← consume_words n rest;
  Ok ws.
Definition decode_call_values (data : bytes) : outcome BytesParsingError (list TokenTransfer) :=
  '(ids_offset, rest) ← consume_u256_from data;
  '(amounts_offset, _) ← consume_u256_from rest;
  ids ← decode_array data ids_offset;
  amounts ← decode_array data amounts_offset;
  Ok (zip_with mkTransfer ids amounts).

Lemma decode_array_ok pre ws rest offset :
  len pre = offset -> fits 256 (len ws) -> Forall (fits 256) ws ->
  decode_array (pre ++ to_be_bytes 32 (len ws) ++ encode_words ws ++ rest) offset = Ok ws.
Proof.
  intros Hp Hl Hws. unfold decode_array. subst offset.
  rewrite drop_app_length' by (unfold len; lia). rewrite consume_u256_from_ok by done.
  cbn [mbind outcome_bind]. by rewrite consume_words_ok.
Qed.

Lemma zip_transfers values :
  zip_with mkTransfer (transfer_id <$> values) (transfer_amount <$> values) = values.
Proof.
  induction values as [|[i a] values IH]; [done|]. rewrite !fmap_cons. cbn [zip_with]. by rewrite IH.
Qed.

Lemma len_fmap {A B} (f : A -> B) l : len (f <$> l) = len l.
Proof. unfold len. by rewrite length_fmap. Qed.

Lemma len_encode_words ws : len (encode_words ws) = 32 * len ws.
Proof. unfold len. rewrite length_encode_words. lia. Qed.

Section native_token_lemmas.
Context {DB DbErr : Type} `{HDB : Database DB DbErr} `{HK : Keccak}.
Implicit Types (j : JournaledState) (d : DB) (inputs : CallInputs).
Abbreviation PM := (M (JournaledState * DB) PrecompileError).

Lemma parse_bind {A B} (m : outcome BytesParsingError A) (k : A -> PM B) a s :
  m = Ok a -> (parse m ≫= k) s = k a s.
Proof. intros ->. done. Qed.

(** [a] is loaded, with code. *)
Definition contract_at j (a : Address) : Prop :=
  exists x c, accounts (state j) !! a = Some x /\ code (info x) = Some c /\ Bytecode_is_empty c = false.

Lemma contract_loaded j a : contract_at j a -> is_Some (accounts (state j) !! a).
Proof. intros (x & c & Hx & _). eauto. Qed.

Lemma load_code_loaded j d a x c :
  accounts (state j) !! a = Some x -> code (info x) = Some c ->
  load_code (DbErr := DbErr) a (j, d) = (Ok (x, false), (j, d)).
Proof.
  intros Hx Hc. unfold load_code. erewrite M_bind_ok by by apply account_loaded.
  cbv beta iota. rewrite Hc. erewrite M_bind_ok by reflexivity. by rewrite (js_account _ _ x).
Qed.

Lemma contract_is_not_eoa j d a :
  contract_at j a -> is_address_eoa (DbErr := DbErr) a (j, d) = (Ok false, (j, d)).
Proof.
  intros (x & c & Hx & Hc & He). unfold is_address_eoa, ctx_code.
  rewrite (M_bind_ok _ _ _ (c, false) (j, d)); [by rewrite <- He|].
  erewrite M_bind_ok by by apply (load_code_loaded j d a x c).
  cbv beta iota. unfold lift. rewrite Hc. by erewrite M_bind_ok by reflexivity.
Qed.

Lemma check_caller_contract {A} inputs (k : unit -> PM A) j d :
  is_static inputs = false -> contract_at j (target_address inputs) ->
  (check_caller (DbErr := DbErr) inputs ≫= k) (j, d) = k tt (j, d).
Proof.
  intros Hs Hc. unfold check_caller. rewrite Hs. apply M_bind_ok.
  rewrite (M_bind_ok _ _ _ false (j, d)); [reflexivity|]. unfold journal_call, with_err. by rewrite contract_is_not_eoa.
Qed.

Lemma check_callee_contract {A} a (k : unit -> PM A) j d :
  contract_at j a -> (check_callee (DbErr := DbErr) a ≫= k) (j, d) = k tt (j, d).
Proof.
  intros Hc. unfold check_callee. apply M_bind_ok. rewrite (M_bind_ok _ _ _ false (j, d)); [reflexivity|].
  unfold journal_call, with_err. by rewrite contract_is_not_eoa.
Qed.

Lemma check_consumed_bind {A} (k : unit -> PM A) s : (check_consumed [] ≫= k) s = k tt s.
Proof. done. Qed.

(** The dispatch on a selector of the precompile. *)
Lemma call_mut_selector inputs gas_limit s sel rest :
  BASE_GAS_COST <= gas_limit -> fits 32 sel -> ci_input inputs = to_be_bytes 4 sel ++ rest ->
  call_mut (DbErr := DbErr) inputs gas_limit s =
    (if sel =? BALANCEOF_SELECTOR then balance_of (DbErr := DbErr) BASE_GAS_COST rest
     else if sel =? BURN_SELECTOR then burn (DbErr := DbErr) inputs BASE_GAS_COST rest
     else if sel =? GET_CALL_VALUES_SELECTOR then get_call_values (DbErr := DbErr) inputs BASE_GAS_COST
     else if sel =? MINT_SELECTOR then mint (DbErr := DbErr) inputs BASE_GAS_COST rest
     else if sel =? TRANSFER_AND_CALL_SELECTOR then transfer_and_call (DbErr := DbErr) inputs rest
     else if sel =? TRANSFER_MULTIPLE_AND_CALL_SELECTOR
     then transfer_multiple_and_call (DbErr := DbErr) inputs rest
     else if sel =? TRANSFER_MULTIPLE_SELECTOR
     then transfer_multiple (DbErr := DbErr) inputs BASE_GAS_COST rest
     else if sel =? TRANSFER_SELECTOR then transfer (DbErr := DbErr) inputs BASE_GAS_COST rest
     else fail PE_InvalidInput) s.
Proof.
  intros Hg Hsel Hin. unfold call_mut. bool_lia. rewrite Hin.
  erewrite parse_bind by by apply consume_u32_from_ok. done.
Qed.
End native_token_lemmas.

(** ** Theorems *)

Section native_token_theorems.
Context {DB DbErr : Type} `{HDB : Database DB DbErr} `{HK : Keccak}.
Implicit Types (j : JournaledState) (d : DB) (inputs : CallInputs).

(** A static call changes nothing.  In a static context every input of the
    precompile but [balanceOf] is refused with an error, with the journaled
    state and the database exactly as they were. *)
Theorem static_call_is_refused inputs gas_limit (s : JournaledState * DB) :
  is_static inputs = true ->
  (exists e, call_mut (DbErr := DbErr) inputs gas_limit s = (Err e, s)) \/
  (exists input, consume_u32_from (ci_input inputs) = Ok (BALANCEOF_SELECTOR, input) /\
     call_mut (DbErr := DbErr) inputs gas_limit s = balance_of (DbErr := DbErr) BASE_GAS_COST input s).
Proof.
  intros Hs.
  assert (Hc : forall A (k : unit -> M (JournaledState * DB) PrecompileError A),
    (check_caller (DbErr := DbErr) inputs ≫= k) s = (Err PE_AttemptedStateChangeDuringStaticCall, s)).
  { intros A k. apply M_bind_err. unfold check_caller. by rewrite Hs. }
  unfold call_mut. destruct (gas_limit <? BASE_GAS_COST); [left; by eexists|].
  destruct (consume_u32_from (ci_input inputs)) as [[sel input]|e|] eqn:Hsel.
  2: { left. exists PE_InvalidInput. apply M_bind_err. unfold parse, lift. by rewrite ?Hsel. }
  2: { unfold consume_u32_from, consume_bytes_from in Hsel. by destruct (_ <? _) in Hsel. }
  erewrite parse_bind by done. cbv beta iota.
  destruct (Z.eqb_spec sel BALANCEOF_SELECTOR) as [->|_]; [right; eauto|left].
  exists (if existsb (Z.eqb sel) [BURN_SELECTOR; GET_CALL_VALUES_SELECTOR; MINT_SELECTOR;
     TRANSFER_AND_CALL_SELECTOR; TRANSFER_MULTIPLE_AND_CALL_SELECTOR; TRANSFER_MULTIPLE_SELECTOR;
     TRANSFER_SELECTOR] then PE_AttemptedStateChangeDuringStaticCall else PE_InvalidInput).
  cbn [existsb].
  repeat (case_match; cbn [orb]; [by (unfold burn, get_call_values, mint, transfer_and_call,
    transfer_multiple_and_call, transfer_multiple, transfer; rewrite Hc)|]).
  done.
Qed.

(** C32: [transfer(to, tokenID, amount)] called by a contract moves the amount
    from that contract to the recipient as the ledger does, at the price of
    the base gas.  It always answers success: where the ledger refuses the
    movement (not enough funds, overflow of the recipient's balance) the
    precompile still reports success. *)
Theorem transfer_call_spec inputs gas_limit j d to id amount :
  BASE_GAS_COST <= gas_limit -> is_static inputs = false -> contract_at j (target_address inputs) ->
  fits 160 to -> fits 256 id -> fits 256 amount ->
  ci_input inputs = to_be_bytes 4 TRANSFER_SELECTOR ++ encode_words [to; id; amount] ->
  journal j <> [] -> token_ids (state j) <> [] -> is_Some (accounts (state j) !! to) ->
  exists j', call_mut (DbErr := DbErr) inputs gas_limit (j, d) =
      (Ok (RNC_Result (mkResultInfo BASE_GAS_COST [])), (j', d)) /\
    forall a t, ledger (accounts (state j')) a t =
      (ledger_transfer (target_address inputs) to [mkTransfer id amount] (ledger (accounts (state j)))).2 a t.
Proof.
  intros Hg Hs Hc Hto Hid Ham Hin HJ Hids Ht.
  rewrite (call_mut_selector _ _ _ TRANSFER_SELECTOR (encode_words [to; id; amount])) by done.
  change (if TRANSFER_SELECTOR =? BALANCEOF_SELECTOR then _ else _)
    with (transfer (DbErr := DbErr) (DB := DB) inputs BASE_GAS_COST (encode_words [to; id; amount])).
  unfold transfer. rewrite check_caller_contract by done.
  rewrite <- (app_nil_r (encode_words _)), encode_words_cons.
  erewrite parse_bind by by apply consume_address_from_ok. cbv beta iota. rewrite encode_words_cons.
  erewrite parse_bind by by apply consume_u256_from_ok. cbv beta iota. rewrite encode_words_cons.
  erewrite parse_bind by by apply consume_u256_from_ok. cbv beta iota. rewrite check_consumed_bind.
  destruct (transfer_loaded (DbErr := DbErr) j d (target_address inputs) to [mkTransfer id amount])
    as (r & j' & Htr & _ & Hl & _); [done..|by apply contract_loaded|done|].
  exists j'. split; [|done].
  erewrite M_bind_ok; [|unfold transfer_is_ok, attempt; erewrite M_bind_ok by (by rewrite Htr); reflexivity].
  done.
Qed.

(** [mint(subID, recipient, amount)] called by a contract credits the
    recipient, if loaded, with the amount of the token of that contract and
    that sub identifier, adds it to that token's supply, and changes no other
    balance or supply; an overflow is an error that changes nothing. *)
Theorem mint_call_spec inputs gas_limit j d sub_id recipient amount x :
  BASE_GAS_COST <= gas_limit -> is_static inputs = false -> contract_at j (target_address inputs) ->
  fits 256 sub_id -> fits 160 recipient -> fits 256 amount ->
  ci_input inputs = to_be_bytes 4 MINT_SELECTOR ++ encode_words [sub_id; recipient; amount] ->
  journal j <> [] -> token_ids (state j) <> [] -> accounts (state j) !! recipient = Some x ->
  let t := token_id_address (target_address inputs) sub_id in
  let b := get_balance (info x) t in
  if b + amount <? 2 ^ 256 then
    exists j', call_mut (DbErr := DbErr) inputs gas_limit (j, d) =
        (Ok (RNC_Result (mkResultInfo BASE_GAS_COST [])), (j', d)) /\
      (forall a t', ledger (accounts (state j')) a t' =
         ledger_set recipient t (b + amount) (ledger (accounts (state j))) a t') /\
      (forall t', supply t' (accounts (state j')) =
         supply t' (accounts (state j)) + (if decide (t = t') then amount else 0))
  else call_mut (DbErr := DbErr) inputs gas_limit (j, d) = (Err (PE_Other "Mint failed"), (j, d)).
Proof.
  intros Hg Hs Hc Hsub Hr Ham Hin HJ Hids Hx t b.
  rewrite (call_mut_selector _ _ _ MINT_SELECTOR (encode_words [sub_id; recipient; amount])) by done.
  change (if MINT_SELECTOR =? BALANCEOF_SELECTOR then _ else _)
    with (mint (DbErr := DbErr) (DB := DB) inputs BASE_GAS_COST (encode_words [sub_id; recipient; amount])).
  unfold mint. rewrite check_caller_contract by done.
  rewrite <- (app_nil_r (encode_words _)), encode_words_cons.
  erewrite parse_bind by by apply consume_u256_from_ok. cbv beta iota. rewrite encode_words_cons.
  erewrite parse_bind by by apply consume_address_from_ok. cbv beta iota. rewrite encode_words_cons.
  erewrite parse_bind by by apply consume_u256_from_ok. cbv beta iota. rewrite check_consumed_bind.
  pose proof Hc as (m & c & Hm & _).
  pose proof (mint_loaded (DbErr := DbErr) j d (target_address inputs) recipient sub_id amount m x HJ Hids Hm Hx) as Hmint.
  cbv zeta in Hmint. fold t b in Hmint.
  destruct (b + amount <? 2 ^ 256).
  - destruct Hmint as (j' & Heq & Hl & Hsup & _). exists j'. split; [|done].
    erewrite M_bind_ok by (unfold journal_call, with_err; by rewrite Heq). done.
  - erewrite M_bind_ok by (unfold journal_call, with_err; by rewrite Hmint). done.
Qed.

(** An externally owned account cannot mint, burn, transfer or read its
    call values: a caller without code is refused, and nothing changes. *)
Theorem eoa_is_unauthorized inputs gas_limit j d sel rest x c :
  BASE_GAS_COST <= gas_limit -> is_static inputs = false ->
  accounts (state j) !! target_address inputs = Some x -> code (info x) = Some c ->
  Bytecode_is_empty c = true ->
  ci_input inputs = to_be_bytes 4 sel ++ rest ->
  sel ∈ [BURN_SELECTOR; GET_CALL_VALUES_SELECTOR; MINT_SELECTOR; TRANSFER_AND_CALL_SELECTOR;
    TRANSFER_MULTIPLE_AND_CALL_SELECTOR; TRANSFER_MULTIPLE_SELECTOR; TRANSFER_SELECTOR] ->
  call_mut (DbErr := DbErr) inputs gas_limit (j, d) = (Err PE_UnauthorizedCaller, (j, d)).
Proof.
  intros Hg Hs Hx Hc He Hin Hsel.
  assert (Hcheck : forall A (k : unit -> M (JournaledState * DB) PrecompileError A),
    (check_caller (DbErr := DbErr) inputs ≫= k) (j, d) = (Err PE_UnauthorizedCaller, (j, d))).
  { intros A k. apply M_bind_err. unfold check_caller. rewrite Hs.
    rewrite (M_bind_ok _ _ _ true (j, d)); [done|]. unfold journal_call, with_err, is_address_eoa, ctx_code.
    rewrite (M_bind_ok _ _ _ (c, false) (j, d)); [by rewrite He|].
    erewrite M_bind_ok by by apply (load_code_loaded j d _ x c).
    cbv beta iota. unfold lift. rewrite Hc. by erewrite M_bind_ok by reflexivity. }
  assert (Hfit : fits 32 sel).
  { rewrite !elem_of_cons, elem_of_nil in Hsel. repeat destruct Hsel as [->|Hsel];
      [split; [discriminate|reflexivity]..|done]. }
  rewrite (call_mut_selector _ _ _ sel rest) by done.
  rewrite !elem_of_cons, elem_of_nil in Hsel.
  repeat destruct Hsel as [->|Hsel]; [..|done];
    [change (burn (DbErr := DbErr) inputs BASE_GAS_COST rest (j, d) = (Err PE_UnauthorizedCaller, (j, d)))
    |change (get_call_values (DbErr := DbErr) inputs BASE_GAS_COST (j, d) = (Err PE_UnauthorizedCaller, (j, d)))
    |change (mint (DbErr := DbErr) inputs BASE_GAS_COST rest (j, d) = (Err PE_UnauthorizedCaller, (j, d)))
    |change (transfer_and_call (DbErr := DbErr) inputs rest (j, d) = (Err PE_UnauthorizedCaller, (j, d)))
    |change (transfer_multiple_and_call (DbErr := DbErr) inputs rest (j, d) = (Err PE_UnauthorizedCaller, (j, d)))
    |change (transfer_multiple (DbErr := DbErr) inputs BASE_GAS_COST rest (j, d) = (Err PE_UnauthorizedCaller, (j, d)))
    |change (transfer (DbErr := DbErr) inputs BASE_GAS_COST rest (j, d) = (Err PE_UnauthorizedCaller, (j, d)))];
    apply Hcheck.
Qed.

(** [getCallValues()] called by a contract returns, in the two ABI arrays
    it lays out, exactly the tokens and amounts of the call, transferred or
    apparent, in order. *)
Theorem get_call_values_roundtrip inputs gas_limit j d :
  BASE_GAS_COST <= gas_limit -> is_static inputs = false -> contract_at j (target_address inputs) ->
  ci_input inputs = to_be_bytes 4 GET_CALL_VALUES_SELECTOR ->
  Forall (fun t => fits 256 (transfer_id t) /\ fits 256 (transfer_amount t)) (call_values inputs) ->
  len (call_values inputs) < 2 ^ 64 ->
  exists data, call_mut (DbErr := DbErr) inputs gas_limit (j, d) =
      (Ok (RNC_Result (mkResultInfo BASE_GAS_COST data)), (j, d)) /\
    decode_call_values data = Ok (call_values inputs).
Proof.
  intros Hg Hs Hc Hin Hv Hlen. set (vs := call_values inputs) in *.
  exists (call_values_data vs). split.
  - rewrite (call_mut_selector _ _ _ GET_CALL_VALUES_SELECTOR []) by (done || by rewrite app_nil_r).
    change (get_call_values (DbErr := DbErr) inputs BASE_GAS_COST (j, d) =
      (Ok (RNC_Result (mkResultInfo BASE_GAS_COST (call_values_data vs))), (j, d))).
    unfold get_call_values. by rewrite check_caller_contract.
  - pose proof (len_nonneg vs) as Hn.
    assert (Hoff : wrapping_add 256 (wrapping_add 256 64 32) (wrapping_mul 256 (len vs) 32) = 96 + 32 * len vs).
    { unfold wrapping_add, wrapping_mul. rewrite (Z.mod_small (64 + 32)), (Z.mod_small (len vs * 32)) by lia.
      rewrite Z.mod_small by lia. lia. }
    set (ids := transfer_id <$> vs). set (ams := transfer_amount <$> vs).
    assert (Hi : len ids = len vs) by apply len_fmap. assert (Ha : len ams = len vs) by apply len_fmap.
    assert (Hfi : Forall (fits 256) ids) by (apply Forall_fmap; eapply Forall_impl; [exact Hv|by intros ? []]).
    assert (Hfa : Forall (fits 256) ams) by (apply Forall_fmap; eapply Forall_impl; [exact Hv|by intros ? []]).
    set (h := to_be_bytes 32 64 ++ to_be_bytes 32 (96 + 32 * len vs)).
    assert (Hd1 : call_values_data vs = h ++ to_be_bytes 32 (len ids) ++ encode_words ids
      ++ to_be_bytes 32 (len ams) ++ encode_words ams).
    { unfold call_values_data, h. by rewrite Hoff, Hi, Ha, <- app_assoc. }
    assert (Hd2 : call_values_data vs = (h ++ to_be_bytes 32 (len ids) ++ encode_words ids)
      ++ to_be_bytes 32 (len ams) ++ encode_words ams ++ []).
    { rewrite Hd1, app_nil_r. by rewrite <- !app_assoc. }
    unfold decode_call_values. rewrite Hd1 at 1. unfold h at 1. rewrite <- app_assoc.
    rewrite consume_u256_from_ok by by split; vm_compute. cbn [mbind outcome_bind].
    rewrite consume_u256_from_ok by (unfold fits; lia). cbn [mbind outcome_bind].
    rewrite Hd1 at 1. rewrite decode_array_ok; [|by unfold h; rewrite len_app, !len_to_be_bytes|unfold fits; lia|done].
    cbn [mbind outcome_bind]. rewrite Hd2, decode_array_ok; [|..|unfold fits; lia|done].
    + cbn [mbind outcome_bind]. unfold ids, ams. by rewrite zip_transfers.
    + unfold h. rewrite !len_app, !len_to_be_bytes, len_encode_words. lia.
Qed.

Lemma transfer_and_call_loaded inputs gas_limit j d callee id amount offset cd :
  BASE_GAS_COST <= gas_limit -> is_static inputs = false ->
  contract_at j (target_address inputs) -> contract_at j callee ->
  fits 160 callee -> fits 256 id -> fits 256 amount -> fits 256 offset -> len cd < 2 ^ 64 ->
  ci_input inputs = to_be_bytes 4 TRANSFER_AND_CALL_SELECTOR
    ++ encode_words [callee; id; amount; offset; len cd] ++ cd ->
  call_mut (DbErr := DbErr) inputs gas_limit (j, d) =
    if len cd <? 28 then (Panic, (j, d))
    else (Ok (RNC_Call (mkPrimitiveCallInfo callee [mkTransfer id amount] (drop 28 cd))), (j, d)).
Proof.
  intros Hg Hs Hc Hcc Hto Hid Ham Hoff Hcd Hin. pose proof (len_nonneg cd) as Hn.
  rewrite (call_mut_selector _ _ _ TRANSFER_AND_CALL_SELECTOR
    (encode_words [callee; id; amount; offset; len cd] ++ cd)) by done.
  change (if TRANSFER_AND_CALL_SELECTOR =? BALANCEOF_SELECTOR then _ else _)
    with (transfer_and_call (DbErr := DbErr) (DB := DB) inputs
      (encode_words [callee; id; amount; offset; len cd] ++ cd)).
  unfold transfer_and_call. rewrite check_caller_contract by done. rewrite encode_words_cons.
  erewrite parse_bind by by apply consume_address_from_ok. cbv beta iota.
  rewrite check_callee_contract by done. rewrite encode_words_cons.
  erewrite parse_bind by by apply consume_u256_from_ok. cbv beta iota. rewrite encode_words_cons.
  erewrite parse_bind by by apply consume_u256_from_ok. cbv beta iota. rewrite encode_words_cons.
  erewrite parse_bind by by apply consume_u256_from_ok. cbv beta iota. rewrite encode_words_cons.
  erewrite parse_bind by (apply consume_u256_from_ok; unfold fits; lia). cbv beta iota.
  unfold usize_or_default. bool_lia.
  erewrite parse_bind.
  2: { change (encode_words [] ++ cd) with cd. rewrite <- (app_nil_r cd) at 1. by apply consume_bytes_from_ok. }
  cbv beta iota. rewrite check_consumed_bind. unfold slice_from, lift.
  destruct (Z.ltb_spec (len cd) 28); bool_lia; [by apply M_bind_panic|].
  by erewrite M_bind_ok by reflexivity.
Qed.

(** [transferAndCall(callee, tokenID, amount, data)] called by a contract on
    a contract, with [cd] as the bytes of [data], answers the call to make: the
    callee, the one transfer, and the data without its first 28 bytes; nothing
    is moved yet.  With fewer than 28 bytes of data it panics. *)
Theorem transfer_and_call_spec inputs gas_limit j d callee id amount offset cd :
  BASE_GAS_COST <= gas_limit -> is_static inputs = false ->
  contract_at j (target_address inputs) -> contract_at j callee ->
  fits 160 callee -> fits 256 id -> fits 256 amount -> fits 256 offset -> len cd < 2 ^ 64 ->
  ci_input inputs = to_be_bytes 4 TRANSFER_AND_CALL_SELECTOR
    ++ encode_words [callee; id; amount; offset; len cd] ++ cd ->
  call_mut (DbErr := DbErr) inputs gas_limit (j, d) =
    if len cd <? 28 then (Panic, (j, d))
    else (Ok (RNC_Call (mkPrimitiveCallInfo callee [mkTransfer id amount] (drop 28 cd))), (j, d)).
Proof. exact (transfer_and_call_loaded inputs gas_limit j d callee id amount offset cd). Qed.

(** [transferMultipleAndCall] panics on a length of the token array between
    2^57 and 2^64, whatever follows it in the input: it reserves that many
    transfers before reading any. *)
Theorem transfer_multiple_and_call_capacity_panics inputs gas_limit j d callee o1 o2 o3 n rest :
  BASE_GAS_COST <= gas_limit -> is_static inputs = false ->
  contract_at j (target_address inputs) -> contract_at j callee ->
  fits 160 callee -> fits 256 o1 -> fits 256 o2 -> fits 256 o3 -> 2 ^ 57 <= n < 2 ^ 64 ->
  ci_input inputs = to_be_bytes 4 TRANSFER_MULTIPLE_AND_CALL_SELECTOR
    ++ encode_words [callee; o1; o2; o3; n] ++ rest ->
  call_mut (DbErr := DbErr) inputs gas_limit (j, d) = (Panic, (j, d)).
Proof.
  intros Hg Hs Hc Hcc Hto H1 H2 H3 Hn Hin.
  rewrite (call_mut_selector _ _ _ TRANSFER_MULTIPLE_AND_CALL_SELECTOR
    (encode_words [callee; o1; o2; o3; n] ++ rest)) by done.
  change (if TRANSFER_MULTIPLE_AND_CALL_SELECTOR =? BALANCEOF_SELECTOR then _ else _)
    with (transfer_multiple_and_call (DbErr := DbErr) (DB := DB) inputs
      (encode_words [callee; o1; o2; o3; n] ++ rest)).
  unfold transfer_multiple_and_call. rewrite check_caller_contract by done. rewrite encode_words_cons.
  erewrite parse_bind by by apply consume_address_from_ok. cbv beta iota.
  rewrite check_callee_contract by done. rewrite encode_words_cons.
  erewrite parse_bind by by apply consume_u256_from_ok. cbv beta iota. rewrite encode_words_cons.
  erewrite parse_bind by by apply consume_u256_from_ok. cbv beta iota. rewrite encode_words_cons.
  erewrite parse_bind by by apply consume_u256_from_ok. cbv beta iota. rewrite encode_words_cons.
  erewrite parse_bind by (apply consume_u256_from_ok; unfold fits; lia). cbv beta iota zeta.
  unfold usize_or_default, with_capacity_ok, lift. bool_lia. by apply M_bind_panic.
Qed.
End native_token_theorems.

(** ** Witnesses *)

Section native_token_witnesses.
#[local] Existing Instances sample_hash sample_db.

(** Contracts 7 and 8, and account 9 without code. *)
Definition sample_contract (b : Z) : Account :=
  mkAccount (AccountInfo_new (init_balances b) 1 5 (LegacyRaw [0])) ∅ 0.
Definition sample_world : JournaledState :=
  mkJournaledState (mkEvmState {[ 7 := sample_contract 100; 8 := sample_contract 1;
    9 := Account_new_not_existing ]} [BASE_TOKEN_ID]) ∅ [] 0 [[]] CANCUN ∅.
Definition sample_call (caller : Address) (static : bool) (input : bytes) : CallInputs :=
  mkCallInputs input (0, 0) 100 NATIVE_TOKENS_ADDRESS caller caller
    (CV_Apparent [mkTransfer 0 5; mkTransfer 77 6]) CS_DelegateCall static false.

Lemma sample_contract_at a : a = 7 \/ a = 8 -> contract_at sample_world a.
Proof.
  intros [->| ->]; eexists _, (LegacyRaw [0]); (split; [reflexivity|split; reflexivity]).
Qed.

Lemma static_call_is_refused_witness :
  let i := sample_call 7 true (to_be_bytes 4 MINT_SELECTOR) in
  call_mut (DbErr := False) i 100 (sample_world, cdb) =
    (Err PE_AttemptedStateChangeDuringStaticCall, (sample_world, cdb)).
Proof.
  intros i. destruct (static_call_is_refused (DbErr := False) i 100 (sample_world, cdb))
    as [[e He]|(input & Hin & _)]; [reflexivity| |exfalso; vm_compute in Hin; discriminate].
  rewrite He. f_equal. assert (H : (call_mut (DbErr := False) i 100 (sample_world, cdb)).1 = Err e) by by rewrite He.
  vm_compute in H. congruence.
Defined.

(** The ledger refuses to move 500 of a balance of 100, and the precompile
    answers success. *)
Lemma transfer_call_spec_witness :
  let i := sample_call 7 false (to_be_bytes 4 TRANSFER_SELECTOR ++ encode_words [8; 0; 500]) in
  exists j', call_mut (DbErr := False) i 100 (sample_world, cdb) =
      (Ok (RNC_Result (mkResultInfo 15 [])), (j', cdb)) /\
    ledger (accounts (state j')) 7 0 = 100 /\ ledger (accounts (state j')) 8 0 = 1.
Proof.
  intros i. destruct (transfer_call_spec (DbErr := False) i 100 sample_world cdb 8 0 500)
    as (j' & H & Hl); [by vm_compute|reflexivity|apply sample_contract_at; auto|by vm_compute..|reflexivity
      |discriminate|discriminate|eexists; reflexivity|].
  exists j'. split; [exact H|]. rewrite !Hl. split; vm_compute; reflexivity.
Defined.

Lemma mint_call_spec_witness :
  let i := sample_call 7 false (to_be_bytes 4 MINT_SELECTOR ++ encode_words [4; 8; 50]) in
  exists j', call_mut (DbErr := False) i 100 (sample_world, cdb) =
      (Ok (RNC_Result (mkResultInfo 15 [])), (j', cdb)) /\
    ledger (accounts (state j')) 8 (token_id_address 7 4) = 50.
Proof.
  intros i. pose proof (mint_call_spec (DbErr := False) i 100 sample_world cdb 4 8 50 (sample_contract 1)
    ltac:(by vm_compute) eq_refl (sample_contract_at 7 (or_introl eq_refl)) ltac:(by vm_compute)
    ltac:(by vm_compute) ltac:(by vm_compute) eq_refl ltac:(discriminate) ltac:(discriminate) eq_refl) as Hm.
  eval_if Hm. destruct Hm as (j' & H & Hl & _). exists j'. split; [exact H|].
  rewrite Hl. vm_compute. reflexivity.
Defined.

Lemma eoa_is_unauthorized_witness :
  let i := sample_call 9 false (to_be_bytes 4 BURN_SELECTOR) in
  call_mut (DbErr := False) i 100 (sample_world, cdb) = (Err PE_UnauthorizedCaller, (sample_world, cdb)).
Proof.
  intros i. apply (eoa_is_unauthorized (DbErr := False) i 100 sample_world cdb BURN_SELECTOR []
    Account_new_not_existing Bytecode_new);
    [by vm_compute|reflexivity|reflexivity|reflexivity|reflexivity|reflexivity|by left].
Defined.

Lemma get_call_values_roundtrip_witness :
  let i := sample_call 7 false (to_be_bytes 4 GET_CALL_VALUES_SELECTOR) in
  exists data, call_mut (DbErr := False) i 100 (sample_world, cdb) =
      (Ok (RNC_Result (mkResultInfo 15 data)), (sample_world, cdb)) /\
    decode_call_values data = Ok [mkTransfer 0 5; mkTransfer 77 6].
Proof.
  intros i. apply (get_call_values_roundtrip (DbErr := False) i 100 sample_world cdb);
    [by vm_compute|reflexivity|apply sample_contract_at; auto|reflexivity| |by vm_compute].
  repeat constructor; simpl; by vm_compute.
Defined.

(** Four bytes of call data: the precompile panics. *)
Lemma transfer_and_call_spec_witness :
  let i := sample_call 7 false
    (to_be_bytes 4 TRANSFER_AND_CALL_SELECTOR ++ encode_words [8; 0; 5; 128; 4] ++ [1; 2; 3; 4]) in
  call_mut (DbErr := False) i 100 (sample_world, cdb) = (Panic, (sample_world, cdb)).
Proof.
  intros i. apply (transfer_and_call_spec (DbErr := False) i 100 sample_world cdb 8 0 5 128 [1; 2; 3; 4]);
    [by vm_compute|reflexivity|apply sample_contract_at; auto|apply sample_contract_at; auto|by vm_compute..].
Defined.

Lemma transfer_multiple_and_call_capacity_panics_witness :
  let i := sample_call 7 false
    (to_be_bytes 4 TRANSFER_MULTIPLE_AND_CALL_SELECTOR ++ encode_words [8; 0; 0; 0; 2 ^ 60] ++ []) in
  call_mut (DbErr := False) i 100 (sample_world, cdb) = (Panic, (sample_world, cdb)).
Proof.
  intros i. apply (transfer_multiple_and_call_capacity_panics (DbErr := False) i 100 sample_world cdb
    8 0 0 0 (2 ^ 60) []);
    [by vm_compute|reflexivity|apply sample_contract_at; auto|apply sample_contract_at; auto|by vm_compute..].
Defined.
End native_token_witnesses.
