(* ===== verification/Gas.v ===== *)
(** Gas accounting: [crates/interpreter/src/gas.rs], [gas/constants.rs] and
    [gas/calc.rs], with [num_words] of [interpreter/shared_memory.rs] and the
    blob gas functions of [crates/primitives/src/utilities.rs].

    Gas is a [u64], refunds an [i64]; plain arithmetic wraps as in a release
    build, and checked and saturating operations are those of the source. *)

From S2P Require Import Prelude Specification Bytes Eof Bytecode State Result InstructionResult.
From S2P Require Import Database Journal.

(** The [i64] of a sum, and of a [u64] read with [as i64]. *)
Definition wrap_i64 (z : Z) : Z := signed 64 (cast 64 z).

(** ** [Gas] *)

Record Gas : Type := mkGas { limit : Z; remaining : Z; refunded : Z }.

Definition Gas_new (limit : Z) : Gas := mkGas limit limit 0.
Definition Gas_new_spent (limit : Z) : Gas := mkGas limit 0 0.
Definition spent (g : Gas) : Z := wrapping_sub 64 (limit g) (remaining g).
Definition erase_cost (returned : Z) (g : Gas) : Gas :=
  mkGas (limit g) (wrapping_add 64 (remaining g) returned) (refunded g).
Definition spend_all (g : Gas) : Gas := mkGas (limit g) 0 (refunded g).
Definition record_refund (refund : Z) (g : Gas) : Gas :=
  mkGas (limit g) (remaining g) (wrap_i64 (refunded g + refund)).
Definition set_final_refund (is_london : bool) (g : Gas) : Gas :=
  let max_refund_quotient := if is_london then 5 else 2 in
  mkGas (limit g) (remaining g)
    (wrap_i64 (Z.min (cast 64 (refunded g)) (spent g / max_refund_quotient))).
Definition set_refund (refund : Z) (g : Gas) : Gas := mkGas (limit g) (remaining g) refund.
Definition record_cost (cost : Z) (g : Gas) : bool * Gas :=
  let overflow := remaining g <? cost in
  if negb overflow then (true, mkGas (limit g) (wrapping_sub 64 (remaining g) cost) (refunded g))
  else (false, g).

(** ** Constants *)

Definition G_ZERO : Z := 0.
Definition G_BASE : Z := 2.
Definition G_VERYLOW : Z := 3.
Definition G_DATA_LOADN_GAS : Z := 3.
Definition G_CONDITION_JUMP_GAS : Z := 4.
Definition G_RETF_GAS : Z := 4.
Definition G_DATA_LOAD_GAS : Z := 4.
Definition G_LOW : Z := 5.
Definition G_MID : Z := 8.
Definition G_HIGH : Z := 10.
Definition G_JUMPDEST : Z := 1.
Definition G_SELFDESTRUCT : Z := 24000.
Definition G_CREATE : Z := 32000.
Definition G_CALLVALUE : Z := 9000.
Definition G_NEWACCOUNT : Z := 25000.
Definition G_EXP : Z := 10.
Definition G_MEMORY : Z := 3.
Definition G_LOG : Z := 375.
Definition G_LOGDATA : Z := 8.
Definition G_LOGTOPIC : Z := 375.
Definition G_KECCAK256 : Z := 30.
Definition G_KECCAK256WORD : Z := 6.
Definition G_COPY : Z := 3.
Definition G_BLOCKHASH : Z := 20.
Definition CODEDEPOSIT : Z := 200.
Definition INSTANBUL_SLOAD_GAS : Z := 800.
Definition SSTORE_SET : Z := 20000.
Definition SSTORE_RESET : Z := 5000.
Definition REFUND_SSTORE_CLEARS : Z := 15000.
Definition TRANSACTION_ZERO_DATA : Z := 4.
Definition TRANSACTION_NON_ZERO_DATA_INIT : Z := 16.
Definition TRANSACTION_NON_ZERO_DATA_FRONTIER : Z := 68.
Definition EOF_CREATE_GAS : Z := 32000.
Definition ACCESS_LIST_ADDRESS : Z := 2400.
Definition ACCESS_LIST_STORAGE_KEY : Z := 1900.
Definition COLD_SLOAD_COST : Z := 2100.
Definition COLD_ACCOUNT_ACCESS_COST : Z := 2600.
Definition WARM_STORAGE_READ_COST : Z := 100.
Definition WARM_SSTORE_RESET : Z := SSTORE_RESET - COLD_SLOAD_COST.
Definition INITCODE_WORD_COST : Z := 2.
Definition CALL_STIPEND : Z := 2300.
Definition BURN_TOKENS : Z := 10000.
Definition MINT_TOKENS : Z := 10000.
Definition TRANSFERRED_TOKEN : Z := 50.

(** ** Costs *)

Definition num_words (len : Z) : Z := saturating_add 64 len 31 / 32.

Definition sload_cost (spec_id : SpecId) (is_cold : bool) : Z :=
  if is_enabled_in spec_id BERLIN then
    if is_cold then COLD_SLOAD_COST else WARM_STORAGE_READ_COST
  else if is_enabled_in spec_id ISTANBUL then INSTANBUL_SLOAD_GAS
  else if is_enabled_in spec_id TANGERINE then 200
  else 50.

Definition sstore_refund (spec_id : SpecId) (original current new : Z) : Z :=
  if is_enabled_in spec_id ISTANBUL then
    let sstore_clears_schedule :=
      if is_enabled_in spec_id LONDON
      then wrap_i64 (SSTORE_RESET - COLD_SLOAD_COST + ACCESS_LIST_STORAGE_KEY)
      else REFUND_SSTORE_CLEARS in
    if current =? new then 0
    else if (original =? current) && (new =? 0) then sstore_clears_schedule
    else
      let refund := 0 in
      let refund :=
        if negb (original =? 0) then
          if current =? 0 then refund - sstore_clears_schedule
          else if new =? 0 then refund + sstore_clears_schedule
          else refund
        else refund in
      if original =? new then
        let '(gas_sstore_reset, gas_sload) :=
          if is_enabled_in spec_id BERLIN
          then (SSTORE_RESET - COLD_SLOAD_COST, WARM_STORAGE_READ_COST)
          else (SSTORE_RESET, sload_cost spec_id false) in
        if original =? 0 then refund + wrap_i64 (SSTORE_SET - gas_sload)
        else refund + wrap_i64 (gas_sstore_reset - gas_sload)
      else refund
  else if negb (current =? 0) && (new =? 0) then REFUND_SSTORE_CLEARS else 0.

Definition cost_per_word (len multiple : Z) : option Z := checked_mul 64 multiple (num_words len).

Definition create2_cost (len : Z) : option Z :=
  c ← cost_per_word len G_KECCAK256WORD; checked_add 64 G_CREATE c.

(** The limbs of a word, and [u64::leading_zeros]. *)
Definition limb (value : Z) (i : nat) : Z := (value / 2 ^ (64 * Z.of_nat i)) mod 2 ^ 64.
Definition leading_zeros (limb : Z) : Z := if limb =? 0 then 64 else 63 - Z.log2 limb.

(** The loop of [log2floor], from limb [i] down. *)
Fixpoint log2floor_loop (value l : Z) (i : nat) : Z :=
  if limb value i =? 0 then
    let l := l - 64 in
    match i with O => l | S i => log2floor_loop value l i end
  else
    let l := l - leading_zeros (limb value i) in
    if l =? 0 then l else l - 1.
Definition log2floor (value : Z) : Z := log2floor_loop value 256 3.

Definition exp_cost (spec_id : SpecId) (power : Z) : option Z :=
  if power =? 0 then Some G_EXP
  else
    let gas_byte := if is_enabled_in spec_id SPURIOUS_DRAGON then 50 else 10 in
    m ← checked_mul 256 gas_byte (log2floor power / 8 + 1);
    gas ← checked_add 256 G_EXP m;
    if gas <? 2 ^ 64 then Some gas else None.

Definition verylowcopy_cost (len : Z) : option Z :=
  c ← cost_per_word len G_COPY; checked_add 64 G_VERYLOW c.

Definition warm_cold_cost (is_cold : bool) : Z :=
  if is_cold then COLD_ACCOUNT_ACCESS_COST else WARM_STORAGE_READ_COST.

Definition extcodecopy_cost (spec_id : SpecId) (len : Z) (is_cold : bool) : option Z :=
  let base_gas :=
    if is_enabled_in spec_id BERLIN then warm_cold_cost is_cold
    else if is_enabled_in spec_id TANGERINE then 700
    else 20 in
  c ← cost_per_word len G_COPY; checked_add 64 base_gas c.

Definition log_cost (n len : Z) : option Z :=
  d ← checked_mul 64 G_LOGDATA len;
  c ← checked_add 64 G_LOG d;
  checked_add 64 c (wrapping_mul 64 G_LOGTOPIC n).

Definition keccak256_cost (len : Z) : option Z :=
  c ← cost_per_word len G_KECCAK256WORD; checked_add 64 G_KECCAK256 c.

(** [None] is the panic of [initcode_cost]. *)
Definition initcode_cost (len : Z) : option Z := cost_per_word len INITCODE_WORD_COST.

Definition istanbul_sstore_cost (SLOAD_GAS SSTORE_RESET_GAS original current new : Z) : Z :=
  if new =? current then SLOAD_GAS
  else if (original =? current) && (original =? 0) then SSTORE_SET
  else if original =? current then SSTORE_RESET_GAS
  else SLOAD_GAS.

Definition frontier_sstore_cost (current new : Z) : Z :=
  if (current =? 0) && negb (new =? 0) then SSTORE_SET else SSTORE_RESET.

Definition sstore_cost (spec_id : SpecId) (original current new gas : Z) (is_cold : bool) : option Z :=
  if is_enabled_in spec_id ISTANBUL && (gas <=? CALL_STIPEND) then None
  else if is_enabled_in spec_id BERLIN then
    let gas_cost := istanbul_sstore_cost WARM_STORAGE_READ_COST WARM_SSTORE_RESET original current new in
    Some (if is_cold then gas_cost + COLD_SLOAD_COST else gas_cost)
  else if is_enabled_in spec_id ISTANBUL then
    Some (istanbul_sstore_cost INSTANBUL_SLOAD_GAS SSTORE_RESET original current new)
  else Some (frontier_sstore_cost current new).

Definition selfdestruct_cost (spec_id : SpecId) (res : SelfDestructResult) : Z :=
  let should_charge_topup :=
    if is_enabled_in spec_id SPURIOUS_DRAGON then had_value res && negb (target_exists res)
    else negb (target_exists res) in
  let selfdestruct_gas_topup :=
    if is_enabled_in spec_id TANGERINE && should_charge_topup then 25000 else 0 in
  let selfdestruct_gas := if is_enabled_in spec_id TANGERINE then 5000 else 0 in
  let gas := selfdestruct_gas + selfdestruct_gas_topup in
  if is_enabled_in spec_id BERLIN && sd_is_cold res then gas + COLD_ACCOUNT_ACCESS_COST else gas.

Definition call_cost (spec_id : SpecId) (transfers_value is_cold new_account_accounting : bool) : Z :=
  let gas :=
    if is_enabled_in spec_id BERLIN then warm_cold_cost is_cold
    else if is_enabled_in spec_id TANGERINE then 700
    else 40 in
  let gas := if transfers_value then gas + G_CALLVALUE else gas in
  if new_account_accounting then
    if is_enabled_in spec_id SPURIOUS_DRAGON then
      if transfers_value then gas + G_NEWACCOUNT else gas
    else gas + G_NEWACCOUNT
  else gas.

Definition memory_gas (num_words : Z) : Z :=
  saturating_add 64 (saturating_mul 64 G_MEMORY num_words)
    (saturating_mul 64 num_words num_words / 512).

Definition memory_gas_for_len (len : Z) : Z := memory_gas (num_words len).

(** [None] is the panic of [initcode_cost]. *)
Definition validate_initial_tx_gas (spec_id : SpecId) (input : bytes) (is_create : bool)
  (access_list : list (Address * list Z)) (_transferred_tokens : list TokenTransfer) : option Z :=
  let add := wrapping_add 64 in
  let mul := wrapping_mul 64 in
  let zero_data_len := len (filter (fun v => v = 0) input) in
  let non_zero_data_len := wrapping_sub 64 (len input) zero_data_len in
  let initial_gas := mul zero_data_len TRANSACTION_ZERO_DATA in
  let initial_gas :=
    add initial_gas (mul non_zero_data_len (if is_enabled_in spec_id ISTANBUL then 16 else 68)) in
  let initial_gas :=
    if is_enabled_in spec_id BERLIN then
      let accessed_slots := foldl (fun slot_count a => add slot_count (len a.2)) 0 access_list in
      add (add initial_gas (mul (len access_list) ACCESS_LIST_ADDRESS))
        (mul accessed_slots ACCESS_LIST_STORAGE_KEY)
    else initial_gas in
  let initial_gas :=
    add initial_gas (if is_create then if is_enabled_in spec_id HOMESTEAD then 53000 else 21000 else 21000) in
  if is_enabled_in spec_id SHANGHAI && is_create then
    c ← initcode_cost (len input); Some (add initial_gas c)
  else Some initial_gas.

(** ** Blob gas *)

Definition GAS_PER_BLOB : Z := Z.shiftl 1 17.
Definition TARGET_BLOB_NUMBER_PER_BLOCK : Z := 3.
Definition MAX_BLOB_NUMBER_PER_BLOCK : Z := 2 * TARGET_BLOB_NUMBER_PER_BLOCK.
Definition MAX_BLOB_GAS_PER_BLOCK : Z := MAX_BLOB_NUMBER_PER_BLOCK * GAS_PER_BLOB.
Definition TARGET_BLOB_GAS_PER_BLOCK : Z := TARGET_BLOB_NUMBER_PER_BLOCK * GAS_PER_BLOB.
Definition MIN_BLOB_GASPRICE : Z := 1.
Definition BLOB_GASPRICE_UPDATE_FRACTION : Z := 3338477.

Definition calc_excess_blob_gas (parent_excess_blob_gas parent_blob_gas_used : Z) : Z :=
  saturating_sub (wrapping_add 64 parent_excess_blob_gas parent_blob_gas_used)
    TARGET_BLOB_GAS_PER_BLOCK.

(** The loop of [fake_exponential], on [u128] values: [Ok None] when out of fuel,
    [Panic] when the divisor has wrapped to zero. *)
Fixpoint fake_exponential_loop {E} (fuel : nat) (numerator denominator i output numerator_accum : Z)
  : outcome E (option Z) :=
  if 0 <? numerator_accum then
    match fuel with
    | O => Ok None
    | S fuel =>
        let divisor := wrapping_mul 128 denominator i in
        if divisor =? 0 then Panic
        else
          fake_exponential_loop fuel numerator denominator (wrapping_add 128 i 1)
            (wrapping_add 128 output numerator_accum)
            (wrapping_mul 128 numerator_accum numerator / divisor)
    end
  else Ok (Some output).

Definition fake_exponential {E} (fuel : nat) (factor numerator denominator : Z)
  : outcome E (option Z) :=
  if denominator =? 0 then Panic
  else
    fake_exponential_loop fuel numerator denominator 1 0 (wrapping_mul 128 factor denominator)
      ≫= fun o : option Z => Ok ((fun output => output / denominator) <$> o).

Definition calc_blob_gasprice {E} (fuel : nat) (excess_blob_gas : Z) : outcome E (option Z) :=
  fake_exponential fuel MIN_BLOB_GASPRICE excess_blob_gas BLOB_GASPRICE_UPDATE_FRACTION.

Example calc_blob_gasprice_ex :
  calc_blob_gasprice (E := False) 100 (10 * 1024 * 1024) = Ok (Some 23).
Proof. reflexivity. Qed.

(** ** Lemmas *)

(** *** The exponential loop *)

Section exponential.
Context {E : Type} (num den : Z) (Hnum : 0 <= num < 2 ^ 62) (Hden : 0 < den < 2 ^ 64).

Abbreviation loop := (fake_exponential_loop (E := E)).

Lemma divisor_exact i : 0 < i < 2 ^ 64 -> wrapping_mul 128 den i = den * i.
Proof. intros Hi. apply Z.mod_small. nia. Qed.

Lemma next_accum i acc :
  0 < i < 2 ^ 64 -> 0 <= acc ->
  0 <= wrapping_mul 128 acc num / (den * i) <= acc * num / (den * i).
Proof.
  intros Hi Ha. unfold wrapping_mul. split.
  - apply Z.div_pos; [apply Z.mod_pos_bound; lia|nia].
  - apply Z.div_le_mono; [nia|]. apply Z.mod_le; nia.
Qed.

(** From twice the numerator on, the accumulator halves at every step. *)
Lemma loop_halving k i out acc :
  0 <= acc < 2 ^ Z.of_nat k -> 2 * num < i -> 0 < i -> i + Z.of_nat k < 2 ^ 64 ->
  exists r, loop k num den i out acc = Ok (Some r).
Proof.
  revert i out acc. induction k as [|k IH]; intros i out acc Ha Hi Hpos Hik; cbn [fake_exponential_loop].
  { destruct (Z.ltb_spec 0 acc); [simpl in Ha; lia|eauto]. }
  destruct (Z.ltb_spec 0 acc) as [Hacc|]; [|eauto].
  rewrite divisor_exact by lia. destruct (Z.eqb_spec (den * i) 0); [nia|].
  rewrite wrapping_add_fits by (unfold fits; lia).
  apply IH; [|lia..]. pose proof (next_accum i acc ltac:(lia) ltac:(lia)) as [Hge Hle]. split; [done|].
  eapply Z.le_lt_trans; [exact Hle|]. apply Z.div_lt_upper_bound; [nia|].
  rewrite Nat2Z.inj_succ, Z.pow_succ_r in Ha by lia. set (p := 2 ^ Z.of_nat k) in *.
  assert (0 < p) by (apply Z.pow_pos_nonneg; lia).
  apply Z.le_lt_trans with (2 * p * num); [nia|].
  apply Z.lt_le_trans with (p * i); [nia|]. apply Z.le_trans with (1 * i * p); [lia|].
  apply Z.mul_le_mono_nonneg_r; nia.
Qed.

Lemma loop_terminates m i out acc :
  0 <= acc < 2 ^ 128 -> 0 < i -> 2 * num + 1 - i <= Z.of_nat m -> i <= 2 ^ 63 ->
  exists fuel r, loop fuel num den i out acc = Ok (Some r).
Proof.
  revert i out acc. induction m as [|m IH]; intros i out acc Ha Hpos Hm Hi.
  { exists 128%nat. apply loop_halving; [done|lia..]. }
  destruct (Z.leb_spec i (2 * num)).
  2: { exists 128%nat. apply loop_halving; [done|lia..]. }
  destruct (Z.ltb_spec 0 acc) as [Hacc|Hacc].
  2: { exists O. eexists. cbn [fake_exponential_loop]. bool_lia. done. }
  destruct (IH (i + 1) (wrapping_add 128 out acc) (wrapping_mul 128 acc num / (den * i)))
    as (fuel & r & Hr); [|lia..|].
  - assert (0 <= wrapping_mul 128 acc num < 2 ^ 128) by (apply Z.mod_pos_bound; lia).
    split; [apply Z.div_pos; nia|]. apply Z.div_lt_upper_bound; nia.
  - exists (S fuel), r. cbn [fake_exponential_loop]. bool_lia.
    rewrite divisor_exact by lia. destruct (Z.eqb_spec (den * i) 0); [nia|].
    by rewrite (wrapping_add_fits _ i) by (unfold fits; lia).
Qed.
End exponential.

(** *** Logarithms *)

Lemma limb_top v i : 0 <= v < 2 ^ (64 * (Z.of_nat i + 1)) -> limb v i = v / 2 ^ (64 * Z.of_nat i).
Proof.
  intros Hv. unfold limb. apply Z.mod_small. split; [apply Z.div_pos; lia|].
  apply Z.div_lt_upper_bound; [lia|]. rewrite <- Z.pow_add_r by lia.
  replace (64 * Z.of_nat i + 64) with (64 * (Z.of_nat i + 1)) by lia. lia.
Qed.

Lemma log2floor_loop_log2 v i :
  0 < v < 2 ^ (64 * (Z.of_nat i + 1)) ->
  log2floor_loop v (64 * (Z.of_nat i + 1)) i = Z.log2 v.
Proof.
  revert v. induction i as [|i IH]; intros v Hv; cbn [log2floor_loop]; rewrite limb_top by lia.
  - change (2 ^ (64 * Z.of_nat 0)) with 1. rewrite Z.div_1_r.
    destruct (Z.eqb_spec v 0); [lia|]. unfold leading_zeros. destruct (Z.eqb_spec v 0); [lia|].
    pose proof (Z.log2_nonneg v). change (64 * (Z.of_nat 0 + 1)) with 64.
    destruct (Z.eqb_spec (64 - (63 - Z.log2 v)) 0); lia.
  - set (p := 64 * Z.of_nat (S i)) in *.
    destruct (Z.eqb_spec (v / 2 ^ p) 0) as [H0|Hne].
    + replace (64 * (Z.of_nat (S i) + 1) - 64) with (64 * (Z.of_nat i + 1)) by lia.
      apply IH. split; [lia|]. replace (64 * (Z.of_nat i + 1)) with p by (unfold p; lia).
      apply Z.div_small_iff in H0; lia.
    + unfold leading_zeros. destruct (Z.eqb_spec (v / 2 ^ p) 0); [done|].
      assert (Hl : Z.log2 (v / 2 ^ p) = Z.log2 v - p).
      { rewrite <- Z.shiftr_div_pow2 by (unfold p; lia).
        assert (2 ^ p <= v).
        { destruct (Z.le_gt_cases (2 ^ p) v); [done|]. exfalso. apply Hne, Z.div_small. lia. }
        assert (p <= Z.log2 v) by (apply Z.log2_le_pow2; lia).
        rewrite Z.log2_shiftr by lia. lia. }
      assert (0 <= Z.log2 (v / 2 ^ p)) by apply Z.log2_nonneg.
      destruct (Z.eqb_spec (64 * (Z.of_nat (S i) + 1) - (63 - Z.log2 (v / 2 ^ p))) 0); unfold p in *; lia.
Qed.

(** Remove the wrap-arounds of a goal from the inside out. *)
Ltac unwrap_64 :=
  repeat match goal with
  | |- context [?a mod 2 ^ 64] =>
      lazymatch a with
      | context [_ mod _] => fail
      | _ => rewrite (Z.mod_small a (2 ^ 64)) by lia
      end
  end.

(** *** Fuel *)

Lemma fake_exponential_loop_mono {E} fuel fuel' num den i out acc r :
  (fuel <= fuel')%nat -> fake_exponential_loop (E := E) fuel num den i out acc = Ok (Some r) ->
  fake_exponential_loop (E := E) fuel' num den i out acc = Ok (Some r).
Proof.
  revert fuel' i out acc. induction fuel as [|fuel IH]; intros [|fuel'] i out acc Hle;
    cbn [fake_exponential_loop]; destruct (0 <? acc); try done; try lia.
  destruct (wrapping_mul 128 den i =? 0); [done|]. apply IH. lia.
Qed.

(** *** Refunds of a sequence of stores *)

(** The refunds of storing [writes] in turn in a slot whose original value is
    [original] and whose present value is [current]. *)
Fixpoint refund_path (spec_id : SpecId) (original current : Z) (writes : list Z) : Z :=
  match writes with
  | [] => 0
  | w :: writes => sstore_refund spec_id original current w + refund_path spec_id original w writes
  end.

Definition clears_schedule (spec_id : SpecId) : Z :=
  if is_enabled_in spec_id LONDON then 4800 else 15000.

(** The refund a slot has earned so far: for having been cleared. *)
Definition cleared (spec_id : SpecId) (original current : Z) : Z :=
  if negb (original =? 0) && (current =? 0) then clears_schedule spec_id else 0.

(** The refund for restoring the original value. *)
Definition restored_refund (spec_id : SpecId) (original : Z) : Z :=
  let gas_sload := if is_enabled_in spec_id BERLIN then 100 else 800 in
  if original =? 0 then 20000 - gas_sload
  else if is_enabled_in spec_id BERLIN then 2900 - gas_sload else 5000 - gas_sload.

Lemma sstore_refund_step spec_id original current new :
  is_enabled_in spec_id ISTANBUL = true ->
  sstore_refund spec_id original current new =
    cleared spec_id original new - cleared spec_id original current
    + (if (original =? new) && negb (current =? new) then restored_refund spec_id original else 0).
Proof.
  intros Hi. unfold sstore_refund, cleared, clears_schedule, restored_refund, sload_cost. rewrite Hi.
  change (wrap_i64 (SSTORE_RESET - COLD_SLOAD_COST + ACCESS_LIST_STORAGE_KEY)) with 4800.
  destruct (is_enabled_in spec_id LONDON), (is_enabled_in spec_id BERLIN);
    destruct (Z.eqb_spec current new); destruct (Z.eqb_spec original current);
    destruct (Z.eqb_spec new 0); destruct (Z.eqb_spec original 0); destruct (Z.eqb_spec current 0);
    destruct (Z.eqb_spec original new); subst; try lia; reflexivity.
Qed.

Lemma restored_refund_pos spec_id original : 0 < restored_refund spec_id original.
Proof. unfold restored_refund. destruct (original =? 0), (is_enabled_in spec_id BERLIN); lia. Qed.

Lemma last_cons {A} (w d : A) l : List.last (w :: l) d = List.last l w.
Proof.
  revert w d. induction l as [|v l IH]; intros w d; [done|].
  change (List.last (v :: l) d = List.last (v :: l) w). by rewrite !IH.
Qed.

(** *** Memory *)

Lemma num_words_exact len : 0 <= len <= 2 ^ 64 - 32 -> num_words len = (len + 31) / 32.
Proof. intros Hl. unfold num_words, saturating_add. by rewrite Z.min_l by lia. Qed.

Lemma num_words_bound len : 0 <= len -> 0 <= num_words len <= 2 ^ 59 - 1.
Proof.
  intros Hl. unfold num_words, saturating_add. split; [apply Z.div_pos; lia|].
  apply Z.lt_succ_r, Z.div_lt_upper_bound; lia.
Qed.

Lemma memory_gas_mono a b : 0 <= a <= b -> memory_gas a <= memory_gas b.
Proof.
  intros Hab. unfold memory_gas, saturating_add, saturating_mul, G_MEMORY.
  apply Z.min_le_compat_r, Z.add_le_mono.
  - apply Z.min_le_compat_r. lia.
  - apply Z.div_le_mono; [lia|]. apply Z.min_le_compat_r. nia.
Qed.

(** ** Theorems *)

(** [exp_cost] charges 10 or 50 gas per byte of the exponent.  The scan of
    the limbs of [log2floor] computes the binary logarithm of any non-zero
    256-bit word, and the checked arithmetic never overflows. *)
Theorem exp_cost_spec spec_id power :
  0 < power < 2 ^ 256 ->
  exp_cost spec_id power =
    Some (10 + (if is_enabled_in spec_id SPURIOUS_DRAGON then 50 else 10) * (Z.log2 power / 8 + 1)).
Proof.
  intros Hp. unfold exp_cost. destruct (Z.eqb_spec power 0); [lia|].
  assert (Hlog : log2floor power = Z.log2 power) by exact (log2floor_loop_log2 power 3 Hp).
  rewrite Hlog.
  assert (0 <= Z.log2 power < 256) by (split; [apply Z.log2_nonneg|apply Z.log2_lt_pow2; lia]).
  assert (0 <= Z.log2 power / 8 <= 31).
  { split; [apply Z.div_pos; lia|]. apply Z.lt_succ_r, Z.div_lt_upper_bound; lia. }
  unfold checked_mul, checked_add, G_EXP.
  destruct (is_enabled_in spec_id SPURIOUS_DRAGON); bool_lia; cbn [mbind option_bind]; bool_lia;
    cbn [mbind option_bind]; bool_lia; done.
Qed.

(** The refunds of storage writes never go below zero.  Over any sequence of
    stores to a slot, from its original value on and from Istanbul on, the
    refunds add up to the clearing refund if the slot ends cleared, plus a
    whole number of refunds for restoring the original value. *)
Theorem refunds_never_negative spec_id original writes :
  is_enabled_in spec_id ISTANBUL = true ->
  exists k, 0 <= k /\
    refund_path spec_id original original writes =
      cleared spec_id original (List.last writes original) + k * restored_refund spec_id original /\
    0 <= refund_path spec_id original original writes.
Proof.
  intros Hi.
  assert (Hc : forall cur, 0 <= cleared spec_id original cur).
  { intros cur. unfold cleared, clears_schedule. destruct (_ && _); [|done].
    by destruct (is_enabled_in spec_id LONDON). }
  assert (Hgen : forall current, exists k, 0 <= k /\
    refund_path spec_id original current writes =
      cleared spec_id original (List.last writes current) - cleared spec_id original current
      + k * restored_refund spec_id original).
  { induction writes as [|w writes IH]; intros current.
    { exists 0. simpl. lia. }
    destruct (IH w) as (k & Hk & Heq). cbn [refund_path]. rewrite Heq, sstore_refund_step by done.
    rewrite last_cons.
    destruct (_ && _).
    - exists (k + 1). lia.
    - exists k. lia. }
  destruct (Hgen original) as (k & Hk & Heq). exists k.
  assert (Hz : cleared spec_id original original = 0).
  { unfold cleared. by destruct (Z.eqb_spec original 0). }
  pose proof (restored_refund_pos spec_id original). pose proof (Hc (List.last writes original)).
  rewrite Heq, Hz. split_and!; nia.
Qed.

(** Charging gas.  [record_cost] succeeds exactly when the cost is at most
    what remains, then the remaining gas drops and the spent gas grows by the
    cost; a refusal changes nothing.  Given back gas is spent gas reduced. *)
Theorem record_cost_spec g cost returned :
  0 <= remaining g <= limit g -> limit g < 2 ^ 64 -> 0 <= cost -> 0 <= returned <= limit g - remaining g ->
  let '(ok, g') := record_cost cost g in
  ok = (cost <=? remaining g) /\
  spent g' = spent g + (if ok then cost else 0) /\
  remaining g' = remaining g - (if ok then cost else 0) /\
  0 <= remaining g' <= limit g' /\ limit g' = limit g /\ refunded g' = refunded g /\
  spent (erase_cost returned g) = spent g - returned.
Proof.
  intros Hr Hl Hc Hret. unfold record_cost, spent, erase_cost.
  assert (Hs : wrapping_sub 64 (limit g) (wrapping_add 64 (remaining g) returned) = limit g - remaining g - returned).
  { unfold wrapping_sub, wrapping_add. rewrite (Z.mod_small (remaining g + returned)) by lia.
    rewrite Z.mod_small by lia. lia. }
  destruct (Z.ltb_spec (remaining g) cost); cbn [negb remaining limit refunded]; bool_lia;
    unfold wrapping_sub, wrapping_add in *; rewrite !Z.mod_small by (rewrite ?Z.mod_small; lia);
    rewrite ?Z.mod_small by lia; split_and!; lia || done.
Qed.

(** The final refund is what was refunded, capped at a fifth (from London
    on) or half of the gas spent. *)
Theorem final_refund_capped g is_london :
  0 <= remaining g <= limit g -> limit g < 2 ^ 63 -> 0 <= refunded g < 2 ^ 63 ->
  refunded (set_final_refund is_london g) =
    Z.min (refunded g) ((limit g - remaining g) / (if is_london then 5 else 2)).
Proof.
  intros Hr Hl Hf. unfold set_final_refund, spent. cbn [refunded].
  rewrite (cast_fits 64) by (unfold fits; lia). rewrite wrapping_sub_fits by (unfold fits; lia).
  set (q := if is_london then 5 else 2). assert (0 < q) by (unfold q; destruct is_london; lia).
  assert (0 <= (limit g - remaining g) / q) by (apply Z.div_pos; lia).
  unfold wrap_i64. rewrite cast_fits by (unfold fits; lia). unfold signed. bool_lia; done.
Qed.

(** Memory gas.  For a memory of up to 2^32 bytes the cost is three gas a word
    plus a 512th of the square of the number of words, where a started word
    counts; and for memories of any length the cost never decreases when the
    length grows. *)
Theorem memory_gas_spec len :
  0 <= len ->
  (len <= 2 ^ 32 -> memory_gas_for_len len =
     3 * ((len + 31) / 32) + ((len + 31) / 32) * ((len + 31) / 32) / 512) /\
  (forall len', len <= len' -> memory_gas_for_len len <= memory_gas_for_len len').
Proof.
  intros Hl. unfold memory_gas_for_len. split.
  - intros Hu. rewrite num_words_exact by lia. set (w := (len + 31) / 32).
    assert (0 <= w <= 2 ^ 28) by (unfold w; split; [apply Z.div_pos; lia|apply Z.div_le_upper_bound; lia]).
    assert (Hww : 0 <= w * w <= 2 ^ 56) by nia.
    assert (0 <= w * w / 512 <= 2 ^ 56).
    { split; [apply Z.div_pos; lia|apply Z.div_le_upper_bound; lia]. }
    unfold memory_gas, saturating_add, saturating_mul, G_MEMORY. rewrite (Z.min_l (w * w)), (Z.min_l (3 * w)), Z.min_l by lia. done.
  - intros len' Hle. apply memory_gas_mono. split; [by apply num_words_bound|].
    unfold num_words, saturating_add. apply Z.div_le_mono; [lia|]. lia.
Qed.

(** [fake_exponential] terminates.  For a divisor that is not zero, the loop
    ends with a result and without a division by zero, for every factor and
    every numerator below 2^62; more fuel does not change the result. *)
Theorem fake_exponential_terminates {E} factor numerator denominator :
  0 <= numerator < 2 ^ 62 -> 0 < denominator < 2 ^ 64 ->
  exists fuel r, forall fuel', (fuel <= fuel')%nat ->
    fake_exponential (E := E) fuel' factor numerator denominator = Ok (Some r).
Proof.
  intros Hn Hd.
  destruct (loop_terminates (E := E) numerator denominator Hn Hd (Z.to_nat (2 * numerator)) 1 0
    (wrapping_mul 128 factor denominator)) as (fuel & r & Hr); [apply Z.mod_pos_bound; lia|lia..|].
  exists fuel, (r / denominator). intros fuel' Hle. unfold fake_exponential.
  destruct (Z.eqb_spec denominator 0); [lia|].
  by rewrite (fake_exponential_loop_mono fuel fuel' _ _ _ _ _ r).
Qed.

(** The gas a transaction pays up front.  With an input of less than 2^32
    bytes and less than 2^32 access-list entries, no step of
    [validate_initial_tx_gas] wraps or panics, and the result is the sum of the
    base stipend, the call data, the access list and the init code. *)
Theorem initial_tx_gas_spec spec_id input is_create access_list tokens :
  len input < 2 ^ 32 -> len access_list < 2 ^ 32 ->
  foldr (fun a n => len a.2 + n) 0 access_list < 2 ^ 32 ->
  validate_initial_tx_gas spec_id input is_create access_list tokens =
    let zeros := len (filter (fun v => v = 0) input) in
    Some (4 * zeros + (if is_enabled_in spec_id ISTANBUL then 16 else 68) * (len input - zeros)
      + (if is_enabled_in spec_id BERLIN
         then 2400 * len access_list + 1900 * foldr (fun a n => len a.2 + n) 0 access_list else 0)
      + (if is_create && is_enabled_in spec_id HOMESTEAD then 53000 else 21000)
      + (if is_enabled_in spec_id SHANGHAI && is_create then 2 * ((len input + 31) / 32) else 0)).
Proof.
  intros Hi Ha Hs. cbv zeta. set (zeros := len (filter (fun v => v = 0) input)).
  pose proof (len_nonneg input). pose proof (len_nonneg access_list).
  assert (Hz : 0 <= zeros <= len input).
  { unfold zeros, len. split; [lia|]. apply inj_le, length_filter. }
  assert (Hfold : forall l n, 0 <= n -> n + foldr (fun a n => len a.2 + n) 0 l < 2 ^ 64 ->
    foldl (fun slot_count (a : Address * list Z) => wrapping_add 64 slot_count (len a.2)) n l
      = n + foldr (fun a n => len a.2 + n) 0 l).
  { induction l as [|a l IH]; intros n Hn Hb; simpl in *; [lia|].
    assert (0 <= foldr (fun (a : Address * list Z) n => len a.2 + n) 0 l)
      by (clear; induction l as [|a l IH]; simpl; [done|]; pose proof (len_nonneg a.2); lia).
    pose proof (len_nonneg a.2). rewrite (wrapping_add_fits 64 n) by (unfold fits; lia). rewrite IH; lia. }
  assert (Hslots : 0 <= foldr (fun (a : Address * list Z) n => len a.2 + n) 0 access_list).
  { clear. induction access_list as [|a l IH]; simpl; [done|]. pose proof (len_nonneg a.2). lia. }
  assert (Hc : initcode_cost (len input) = Some (2 * ((len input + 31) / 32))).
  { unfold initcode_cost, cost_per_word, INITCODE_WORD_COST. rewrite num_words_exact by lia.
    assert (0 <= (len input + 31) / 32 <= 2 ^ 32)
      by (split; [apply Z.div_pos; lia|apply Z.div_le_upper_bound; lia]).
    unfold checked_mul. by bool_lia. }
  assert (0 <= (len input + 31) / 32 <= 2 ^ 32)
    by (split; [apply Z.div_pos; lia|apply Z.div_le_upper_bound; lia]).
  unfold validate_initial_tx_gas. fold zeros. rewrite Hfold by lia. rewrite Hc.
  unfold TRANSACTION_ZERO_DATA, ACCESS_LIST_ADDRESS, ACCESS_LIST_STORAGE_KEY.
  unfold wrapping_add, wrapping_mul, wrapping_sub.
  destruct (is_enabled_in spec_id ISTANBUL), (is_enabled_in spec_id BERLIN),
    (is_enabled_in spec_id HOMESTEAD), (is_enabled_in spec_id SHANGHAI), is_create;
    cbn [andb mbind option_bind]; f_equal;
    unwrap_64; lia.
Qed.

(** ** Witnesses *)

Lemma exp_cost_spec_witness : exp_cost LATEST 0x10000 = Some 160.
Proof. rewrite (exp_cost_spec LATEST 0x10000); [reflexivity|split; reflexivity]. Defined.

Lemma refunds_never_negative_witness :
  exists k, 0 <= k /\ refund_path LATEST 5 5 [0; 5; 0] = 4800 + k * 2800.
Proof.
  destruct (refunds_never_negative LATEST 5 [0; 5; 0] eq_refl) as (k & Hk & Heq & _).
  exists k. split; [exact Hk|exact Heq].
Defined.

Lemma record_cost_spec_witness :
  let '(ok, g) := record_cost 30 (mkGas 100 70 0) in ok = true /\ remaining g = 40 /\ spent g = 60.
Proof.
  pose proof (record_cost_spec (mkGas 100 70 0) 30 0) as H. cbn [record_cost remaining limit refunded] in H.
  destruct H as (Hok & Hsp & Hrem & _); [lia..|]. split; [exact Hok|]. split; [exact Hrem|exact Hsp].
Defined.

Lemma final_refund_capped_witness : refunded (set_final_refund true (mkGas 100 40 50)) = 12.
Proof. rewrite (final_refund_capped (mkGas 100 40 50) true); [reflexivity|simpl; lia..]. Defined.

Lemma memory_gas_spec_witness : memory_gas_for_len 1000 = 98 /\ memory_gas_for_len 1000 <= memory_gas_for_len 2000.
Proof.
  destruct (memory_gas_spec 1000) as [H1 H2]; [lia|]. split; [rewrite H1; [reflexivity|lia]|]. apply H2. lia.
Defined.

Lemma fake_exponential_terminates_witness :
  exists fuel r, forall fuel', (fuel <= fuel')%nat -> fake_exponential (E := False) fuel' 1 5000 3338477 = Ok (Some r).
Proof. apply (fake_exponential_terminates 1 5000 3338477); lia. Defined.

Lemma initial_tx_gas_spec_witness :
  validate_initial_tx_gas LATEST [0; 1; 2] true [(9, [1; 2])] [] = Some 59238.
Proof. rewrite (initial_tx_gas_spec LATEST [0; 1; 2] true [(9, [1; 2])]); [reflexivity|reflexivity..]. Defined.
