(* ===== verification/Stack.v ===== *)
(** The operand stack: [crates/interpreter/src/interpreter/stack.rs].

    The stack is the [Vec] of the source, bottom first.  The [unsafe] accessors
    are undefined behaviour on a stack that is too short, here a [Panic]; the
    writes of [push_slice] through a pointer to 64-bit limbs are modelled limb
    by limb. *)

From S2P Require Import Prelude Bytes Eof Bytecode State Result InstructionResult.

Definition STACK_LIMIT : Z := 1024.

Abbreviation Stack := (list Z).
Abbreviation SM := (M Stack InstructionResult).

Definition Stack_new : Stack := [].

Definition pop : SM Z := fun data =>
  match reverse data with
  | [] => (Err IR_StackUnderflow, data)
  | top :: _ => (Ok top, take (length data - 1) data)
  end.

(** [get_unchecked(len - 1 - no_from_top)]. *)
Definition nth_from_top (data : Stack) (n : Z) : option Z :=
  data !! Z.to_nat (len data - 1 - n).

Definition pop_unsafe : SM Z := fun data =>
  match reverse data with
  | [] => (Panic, data)
  | top :: _ => (Ok top, take (length data - 1) data)
  end.
Definition top_unsafe : SM Z := fun data => (unwrap (last data), data).
(** A write through the reference [top_unsafe] returns. *)
Definition set_top_unsafe (v : Z) : SM unit := fun data =>
  match data with
  | [] => (Panic, data)
  | _ => (Ok tt, <[ (length data - 1)%nat := v ]> data)
  end.
Definition pop_top_unsafe : SM (Z * Z) := pop1 ← pop_unsafe; top ← top_unsafe; mret (pop1, top).
Definition pop2_unsafe : SM (Z * Z) := pop1 ← pop_unsafe; pop2 ← pop_unsafe; mret (pop1, pop2).
Definition pop2_top_unsafe : SM (Z * Z * Z) :=
  pop1 ← pop_unsafe; pop2 ← pop_unsafe; top ← top_unsafe; mret (pop1, pop2, top).
Definition pop3_unsafe : SM (Z * Z * Z) :=
  pop1 ← pop_unsafe; pop2 ← pop_unsafe; pop3 ← pop_unsafe; mret (pop1, pop2, pop3).
Definition pop4_unsafe : SM (Z * Z * Z * Z) :=
  pop1 ← pop_unsafe; pop2 ← pop_unsafe; pop3 ← pop_unsafe; pop4 ← pop_unsafe;
  mret (pop1, pop2, pop3, pop4).
Definition pop5_unsafe : SM (Z * Z * Z * Z * Z) :=
  pop1 ← pop_unsafe; pop2 ← pop_unsafe; pop3 ← pop_unsafe; pop4 ← pop_unsafe; pop5 ← pop_unsafe;
  mret (pop1, pop2, pop3, pop4, pop5).

Definition push (value : Z) : SM unit := fun data =>
  if len data =? STACK_LIMIT then (Err IR_StackOverflow, data)
  else (Ok tt, data ++ [value]).

Definition push_b256 (value : Z) : SM unit := push value.

Definition peek (no_from_top : Z) : SM Z := fun data =>
  if no_from_top <? len data then (unwrap (nth_from_top data no_from_top), data)
  else (Err IR_StackUnderflow, data).

(** [assume!] on a false condition is undefined behaviour. *)
Definition dup (n : Z) : SM unit := fun data =>
  if negb (0 <? n) then (Panic, data)
  else if len data <? n then (Err IR_StackUnderflow, data)
  else if STACK_LIMIT <? len data + 1 then (Err IR_StackOverflow, data)
  else
    match data !! Z.to_nat (len data - n) with
    | Some v => (Ok tt, data ++ [v])
    | None => (Panic, data)
    end.

Definition exchange (n m : Z) : SM unit := fun data =>
  if negb (0 <? m) then (Panic, data)
  else
    let n_m_index := n + m in
    if len data <=? n_m_index then (Err IR_StackUnderflow, data)
    else
      let i := Z.to_nat (len data - 1 - n) in
      let k := Z.to_nat (len data - 1 - n_m_index) in
      match data !! i, data !! k with
      | Some x, Some y => (Ok tt, <[ k := x ]> (<[ i := y ]> data))
      | _, _ => (Panic, data)
      end.

Definition swap (n : Z) : SM unit := exchange 0 n.

Definition set (no_from_top val : Z) : SM unit := fun data =>
  if no_from_top <? len data
  then (Ok tt, <[ Z.to_nat (len data - no_from_top - 1) := val ]> data)
  else (Err IR_StackUnderflow, data).

(** ** [push_slice] *)

(** [chunks_exact(32)] and its remainder. *)
Fixpoint chunks_exact (n : nat) (fuel : nat) (l : bytes) : list bytes * bytes :=
  match fuel with
  | O => ([], l)
  | S fuel =>
      if (length l <? n)%nat then ([], l)
      else let '(cs, r) := chunks_exact n fuel (drop n l) in (take n l :: cs, r)
  end.

(** [rchunks_exact(8)], from the end, and its remainder. *)
Fixpoint rchunks_exact (n : nat) (fuel : nat) (l : bytes) : list bytes * bytes :=
  match fuel with
  | O => ([], l)
  | S fuel =>
      if (length l <? n)%nat then ([], l)
      else
        let k := (length l - n)%nat in
        let '(cs, r) := rchunks_exact n fuel (take k l) in (drop k l :: cs, r)
  end.

(** The limbs written for a full word. *)
Definition word_limbs (word : bytes) : list Z :=
  from_be_bytes <$> (rchunks_exact 8 (length word) word).1.

(** The limbs written for the partial last word: full limbs, then the partial
    one padded with zeros in front. *)
Definition partial_limbs (partial_last_word : bytes) : list Z :=
  let '(limbs, partial_last_limb) := rchunks_exact 8 (length partial_last_word) partial_last_word in
  (from_be_bytes <$> limbs)
  ++ match partial_last_limb with
     | [] => []
     | _ => [from_be_bytes (replicate (8 - length partial_last_limb) 0 ++ partial_last_limb)]
     end.

(** The limbs [dst[..]] holds at the end, the upper ones of the last word zeroed. *)
Definition slice_limbs (slice : bytes) : list Z :=
  let '(words, partial_last_word) := chunks_exact 32 (length slice) slice in
  let full := concat (word_limbs <$> words) in
  match partial_last_word with
  | [] => full
  | _ =>
      let written := full ++ partial_limbs partial_last_word in
      let m := (length written mod 4)%nat in
      written ++ (if (m =? 0)%nat then [] else replicate (4 - m) 0)
  end.

(** A word of the stack is four limbs, least significant first. *)
Definition limbs_value (limbs : list Z) : Z := foldr (fun l acc => l + 2 ^ 64 * acc) 0 limbs.

Fixpoint limbs_to_words (fuel : nat) (limbs : list Z) : list Z :=
  match fuel, limbs with
  | S fuel, _ :: _ => limbs_value (take 4 limbs) :: limbs_to_words fuel (drop 4 limbs)
  | _, _ => []
  end.

Definition push_slice (slice : bytes) : SM unit := fun data =>
  match slice with
  | [] => (Ok tt, data)
  | _ =>
      let n_words := (len slice + 31) / 32 in
      let new_len := len data + n_words in
      if STACK_LIMIT <? new_len then (Err IR_StackOverflow, data)
      else
        let limbs := slice_limbs slice in
        (Ok tt, data ++ limbs_to_words (length limbs) limbs)
  end.

(** ** Lemmas *)

Lemma limbs_value_app ls k : limbs_value (ls ++ k) = limbs_value ls + 2 ^ (64 * len ls) * limbs_value k.
Proof.
  induction ls as [|l ls IH]; [by rewrite Z.mul_1_l|]. cbn [app limbs_value foldr].
  fold (limbs_value (ls ++ k)) (limbs_value ls). rewrite IH, len_cons.
  replace (64 * (1 + len ls)) with (64 + 64 * len ls) by lia.
  rewrite Z.pow_add_r by (pose proof (len_nonneg ls); lia). lia.
Qed.

Lemma limbs_value_zeros n : limbs_value (replicate n 0) = 0.
Proof. induction n as [|n IH]; [done|]. cbn [replicate limbs_value foldr]. unfold limbs_value in IH. lia. Qed.

Lemma from_be_bytes_app a b : from_be_bytes (a ++ b) = from_be_bytes a * 256 ^ len b + from_be_bytes b.
Proof. unfold from_be_bytes. by rewrite from_be_acc_app, from_be_acc_shift. Qed.

Lemma from_be_bytes_zeros n l : from_be_bytes (replicate n 0 ++ l) = from_be_bytes l.
Proof.
  rewrite from_be_bytes_app. replace (from_be_bytes (replicate n 0)) with 0; [lia|].
  induction n as [|n IH]; [done|]. cbn [replicate]. rewrite from_be_bytes_cons. lia.
Qed.

(** The chunks cut from the end spell the number, least significant first. *)
Lemma rchunks_value fuel l :
  (length l <= fuel)%nat ->
  let '(cs, r) := rchunks_exact 8 fuel l in
  limbs_value (from_be_bytes <$> cs) + 2 ^ (64 * len cs) * from_be_bytes r = from_be_bytes l /\
  (length l = 8 * length cs + length r)%nat /\ (length r < 8)%nat.
Proof.
  revert l. induction fuel as [|fuel IH]; intros l Hl; cbn [rchunks_exact].
  { destruct l; [|simpl in Hl; lia]. split_and!; simpl; lia || done. }
  destruct (Nat.ltb_spec (length l) 8).
  { split_and!; [|simpl; lia|done]. change (0 + 1 * from_be_bytes l = from_be_bytes l). lia. }
  specialize (IH (take (length l - 8) l)). rewrite length_take in IH.
  destruct (rchunks_exact 8 fuel (take (length l - 8) l)) as [cs r].
  destruct IH as (Hv & Hlen & Hr); [lia|]. split_and!; [|simpl; lia|done].
  rewrite fmap_cons, len_cons. cbn [limbs_value foldr]. fold (limbs_value (from_be_bytes <$> cs)).
  replace (64 * (1 + len cs)) with (64 + 64 * len cs) by lia.
  rewrite Z.pow_add_r by (pose proof (len_nonneg cs); lia).
  assert (Hl8 : len (drop (length l - 8) l) = 8) by (unfold len; rewrite length_drop; lia).
  assert (Hsplit : from_be_bytes l = from_be_bytes (take (length l - 8) l) * 2 ^ 64
    + from_be_bytes (drop (length l - 8) l)).
  { rewrite <- (take_drop (length l - 8) l) at 1. by rewrite from_be_bytes_app, Hl8. }
  rewrite Hsplit, <- Hv. lia.
Qed.

Lemma word_limbs_spec word :
  length word = 32%nat -> length (word_limbs word) = 4%nat /\ limbs_value (word_limbs word) = from_be_bytes word.
Proof.
  intros Hw. unfold word_limbs. pose proof (rchunks_value (length word) word ltac:(lia)) as H.
  destruct (rchunks_exact 8 (length word) word) as [cs r]. destruct H as (Hv & Hlen & Hr).
  cbn [fst]. rewrite length_fmap. assert (length r = 0%nat /\ length cs = 4%nat) as [Hr0 Hc] by lia.
  split; [done|]. apply nil_length_inv in Hr0 as ->. rewrite <- Hv. change (from_be_bytes []) with 0. cbn [limbs_value foldr]. lia.
Qed.

Lemma partial_limbs_spec p :
  (0 < length p < 32)%nat ->
  (0 < length (partial_limbs p) <= 4)%nat /\ limbs_value (partial_limbs p) = from_be_bytes p.
Proof.
  intros Hp. unfold partial_limbs. pose proof (rchunks_value (length p) p ltac:(lia)) as H.
  destruct (rchunks_exact 8 (length p) p) as [cs r]. destruct H as (Hv & Hlen & Hr).
  rewrite length_app, length_fmap, limbs_value_app, <- Hv.
  unfold len at 1. rewrite length_fmap. fold (len cs). destruct r as [|b r].
  - simpl length in *. split; [lia|]. change (from_be_bytes []) with 0. cbn [limbs_value foldr]. lia.
  - rewrite from_be_bytes_zeros. split; [simpl in *; lia|]. cbn [limbs_value foldr]. lia.
Qed.

(** The words a slice stands for: 32 bytes each, the last one possibly shorter. *)
Fixpoint slice_words (fuel : nat) (l : bytes) : list Z :=
  match fuel, l with
  | S fuel, _ :: _ => from_be_bytes (take 32 l) :: slice_words fuel (drop 32 l)
  | _, _ => []
  end.

Lemma limbs_to_words_word fuel ls k :
  length ls = 4%nat -> limbs_to_words (S fuel) (ls ++ k) = limbs_value ls :: limbs_to_words fuel k.
Proof.
  intros Hl. destruct ls as [|a [|b [|c [|d [|e ls]]]]]; try (simpl in Hl; lia). done.
Qed.

Lemma chunks_spec fuel l :
  (length l <= fuel)%nat ->
  let '(ws, p) := chunks_exact 32 fuel l in
  slice_words fuel l = (from_be_bytes <$> ws) ++ match p with [] => [] | _ => [from_be_bytes p] end /\
  Forall (fun w => length w = 32%nat) ws /\ (length p < 32)%nat.
Proof.
  revert l. induction fuel as [|fuel IH]; intros l Hl; cbn [chunks_exact].
  { destruct l; [|simpl in Hl; lia]. split_and!; [done|done|simpl; lia]. }
  destruct (Nat.ltb_spec (length l) 32) as [Hlt|Hge].
  - split_and!; [|done|done]. destruct l as [|b l]; [done|]. cbn [slice_words fmap list_fmap app].
    rewrite take_ge, drop_ge by lia. by destruct fuel.
  - specialize (IH (drop 32 l)). rewrite length_drop in IH.
    destruct (chunks_exact 32 fuel (drop 32 l)) as [ws p]. destruct IH as (Heq & Hws & Hp); [lia|].
    split_and!; [|constructor; [rewrite length_take; lia|done]|done].
    destruct l as [|b l]; [simpl in Hge; lia|]. cbn [slice_words]. rewrite fmap_cons. cbn [app]. by rewrite Heq.
Qed.

Lemma limbs_to_words_full fuel ws k :
  Forall (fun w => length w = 32%nat) ws -> (length ws <= fuel)%nat ->
  limbs_to_words fuel (concat (word_limbs <$> ws) ++ k) =
    (from_be_bytes <$> ws) ++ limbs_to_words (fuel - length ws) k.
Proof.
  intros Hws. revert fuel. induction Hws as [|w ws Hw _ IH]; intros fuel Hf.
  { cbn. by rewrite Nat.sub_0_r. }
  destruct fuel as [|fuel]; [simpl in Hf; lia|]. rewrite !fmap_cons. cbn [concat].
  destruct (word_limbs_spec w Hw) as [Hl Hv]. rewrite <- app_assoc, limbs_to_words_word by done.
  rewrite Hv, IH by (simpl in Hf; lia). done.
Qed.

Lemma length_full_limbs ws :
  Forall (fun w => length w = 32%nat) ws -> length (concat (word_limbs <$> ws)) = (4 * length ws)%nat.
Proof.
  induction 1 as [|w ws Hw _ IH]; [done|]. rewrite fmap_cons. cbn [concat].
  rewrite length_app, IH. destruct (word_limbs_spec w Hw) as [-> _]. simpl. lia.
Qed.

(** The limbs of the source are the words of the slice. *)
Lemma slice_limbs_words l : limbs_to_words (length (slice_limbs l)) (slice_limbs l) = slice_words (length l) l.
Proof.
  unfold slice_limbs. pose proof (chunks_spec (length l) l ltac:(lia)) as H.
  destruct (chunks_exact 32 (length l) l) as [ws p]. destruct H as (-> & Hws & Hp).
  pose proof (length_full_limbs ws Hws) as Hlen.
  destruct p as [|b p].
  - rewrite <- (app_nil_r (concat _)) at 2. rewrite limbs_to_words_full by (done || lia). f_equal.
    by destruct (_ - _)%nat.
  - destruct (partial_limbs_spec (b :: p)) as [Hq Hv]; [simpl in *; lia|].
    set (q := partial_limbs (b :: p)) in *.
    set (tail := q ++ (if (length (concat (word_limbs <$> ws) ++ q) mod 4 =? 0)%nat then []
      else replicate (4 - length (concat (word_limbs <$> ws) ++ q) mod 4) 0)).
    assert (Htail : length tail = 4%nat /\ limbs_value tail = from_be_bytes (b :: p)).
    { unfold tail. rewrite !length_app, Hlen.
      replace ((4 * length ws + length q) mod 4)%nat with (length q mod 4)%nat
        by (rewrite (Nat.mul_comm 4), Nat.add_comm, Nat.Div0.mod_add; done).
      destruct (Nat.eqb_spec (length q mod 4) 0) as [H0|H0].
      - rewrite app_nil_r. split; [|done].
        assert (length q = 4 \/ length q < 4)%nat as [Hq4|Hq4] by lia.
        + simpl. lia.
        + rewrite Nat.mod_small in H0 by done. lia.
      - assert (length q < 4)%nat.
        { assert (length q = 4%nat \/ length q < 4)%nat as [Hq4|?] by lia; [|done]. by rewrite Hq4 in H0. }
        rewrite Nat.mod_small by done. rewrite length_replicate. split; [lia|].
        rewrite limbs_value_app, limbs_value_zeros, Hv. lia. }
    destruct Htail as [Ht4 Htv].
    match goal with |- limbs_to_words (length ?x) ?x = _ =>
      replace x with (concat (word_limbs <$> ws) ++ tail) by (unfold tail; by rewrite app_assoc) end.
    rewrite length_app, Ht4, Hlen. rewrite limbs_to_words_full by (done || lia). f_equal.
    replace (4 * length ws + 4 - length ws)%nat with (S (3 * length ws + 3)) by lia.
    rewrite <- (app_nil_r tail), limbs_to_words_word, Htv by done. by destruct (_ + _)%nat.
Qed.

Lemma length_slice_words l : len (slice_words (length l) l) = (len l + 31) / 32.
Proof.
  assert (H : forall fuel k, (length k <= fuel)%nat -> len (slice_words fuel k) = (len k + 31) / 32); [|by apply H].
  induction fuel as [|fuel IH]; intros k Hk; [destruct k; [done|simpl in Hk; lia]|].
  destruct k as [|b k]; [done|]. cbn [slice_words]. rewrite len_cons, IH by (rewrite length_drop; simpl in *; lia).
  destruct (Nat.le_gt_cases (length (b :: k)) 32) as [Hle|Hgt].
  - rewrite drop_ge by done. change (len []) with 0. change ((0 + 31) / 32) with 0.
    change (1 + 0) with 1. apply Z.div_unique with (len (b :: k) - 1); [|lia].
    unfold len. simpl length in *. lia.
  - unfold len. rewrite length_drop. replace (Z.of_nat (length (b :: k)) + 31)
      with ((Z.of_nat (length (b :: k) - 32) + 31) + 1 * 32) by lia.
    rewrite Z.div_add by lia. lia.
Qed.

(** The stack seen from its top. *)
Lemma nth_from_top_insert data i j v :
  0 <= i < len data -> 0 <= j < len data ->
  nth_from_top (<[ Z.to_nat (len data - 1 - i) := v ]> data) j =
    if decide (i = j) then Some v else nth_from_top data j.
Proof.
  intros Hi Hj. unfold nth_from_top. unfold len in *. rewrite length_insert. case_decide as Hij.
  - subst. apply list_lookup_insert_eq. lia.
  - apply list_lookup_insert_ne. lia.
Qed.

Lemma nth_from_top_app data v j :
  0 <= j <= len data ->
  nth_from_top (data ++ [v]) j = if decide (j = 0) then Some v else nth_from_top data (j - 1).
Proof.
  intros Hj. unfold nth_from_top. rewrite len_app. change (len [v]) with 1. case_decide as H0.
  - subst. apply list_lookup_middle. unfold len. lia.
  - rewrite lookup_app_l by (unfold len in *; lia). f_equal. lia.
Qed.

Lemma nth_from_top_is_Some data i : 0 <= i < len data -> is_Some (nth_from_top data i).
Proof. intros Hi. apply lookup_lt_is_Some. unfold len in *. lia. Qed.

Lemma push_slice_eq slice data :
  push_slice slice data =
    if (negb (len slice =? 0)) && (STACK_LIMIT <? len data + (len slice + 31) / 32)
    then (Err IR_StackOverflow, data)
    else (Ok tt, data ++ slice_words (length slice) slice).
Proof.
  unfold push_slice. destruct slice as [|b l]; [cbn; by rewrite app_nil_r|].
  rewrite slice_limbs_words. destruct (Z.eqb_spec (len (b :: l)) 0) as [H0|_]; [|done].
  rewrite len_cons in H0. pose proof (len_nonneg l). lia.
Qed.

(** ** Theorems *)

(** [push_slice], which writes 64-bit limbs through a raw pointer, pushes the
    bytes of the slice as big-endian words of 32 bytes, the last one possibly
    shorter and read as a number; a slice that does not fit leaves the stack
    unchanged with [StackOverflow]. *)
Theorem push_slice_words slice data :
  push_slice slice data =
    if (negb (len slice =? 0)) && (STACK_LIMIT <? len data + (len slice + 31) / 32)
    then (Err IR_StackOverflow, data)
    else (Ok tt, data ++ slice_words (length slice) slice).
Proof. apply push_slice_eq. Qed.

(** [exchange] swaps the values at the depths [n] and [n + m] and nothing
    else; it refuses a depth the stack does not have and then changes nothing. *)
Theorem exchange_spec n m data :
  0 <= n -> 0 < m ->
  if n + m <? len data then
    exists data', exchange n m data = (Ok tt, data') /\ len data' = len data /\
      forall i, 0 <= i < len data ->
        nth_from_top data' i =
          nth_from_top data (if decide (i = n) then n + m else if decide (i = n + m) then n else i)
  else exchange n m data = (Err IR_StackUnderflow, data).
Proof.
  intros Hn Hm. unfold exchange. destruct (Z.ltb_spec (n + m) (len data)); bool_lia; [|done].
  destruct (nth_from_top_is_Some data n) as [x Hx]; [lia|].
  destruct (nth_from_top_is_Some data (n + m)) as [y Hy]; [lia|].
  unfold nth_from_top in Hx, Hy. rewrite Hx, Hy. eexists. split; [reflexivity|].
  assert (Hlen : len (<[Z.to_nat (len data - 1 - n):=y]> data) = len data) by (unfold len; by rewrite length_insert).
  split; [unfold len; by rewrite !length_insert|]. intros i Hi.
  rewrite <- Hlen at 1. rewrite nth_from_top_insert by lia. rewrite nth_from_top_insert by lia.
  repeat case_decide; subst; try lia; unfold nth_from_top; by rewrite ?Hx, ?Hy.
Qed.

(** [dup] pushes a copy of the [n]th value from the top, and shifts the
    others; it refuses a stack that is too short or full, unchanged. *)
Theorem dup_spec n data :
  0 < n -> len data <= STACK_LIMIT ->
  if len data <? n then dup n data = (Err IR_StackUnderflow, data)
  else if len data =? STACK_LIMIT then dup n data = (Err IR_StackOverflow, data)
  else
    exists data', dup n data = (Ok tt, data') /\ len data' = len data + 1 /\
      nth_from_top data' 0 = nth_from_top data (n - 1) /\
      forall i, 0 < i <= len data -> nth_from_top data' i = nth_from_top data (i - 1).
Proof.
  intros Hn Hl. unfold dup. bool_lia. destruct (Z.ltb_spec (len data) n) as [|Hge]; [done|].
  destruct (Z.eqb_spec (len data) STACK_LIMIT) as [Heq|Hne]; bool_lia; [done|].
  destruct (nth_from_top_is_Some data (n - 1)) as [x Hx]; [lia|].
  assert (Hx' : data !! Z.to_nat (len data - n) = Some x)
    by (rewrite <- Hx; unfold nth_from_top; f_equal; lia).
  rewrite Hx'. eexists. split; [reflexivity|]. rewrite len_app. split; [done|]. split.
  - rewrite nth_from_top_app, decide_True by (lia || done). done.
  - intros i Hi. rewrite nth_from_top_app, decide_False by lia. done.
Qed.

(** The stack never exceeds its limit: every operation keeps a stack of at
    most 1024 values at most 1024 values long, and one that answers an error
    leaves it as it was. *)
Lemma stack_operations_bounded data :
  len data <= STACK_LIMIT ->
  let ok {A} (m : SM A) := len (m data).2 <= STACK_LIMIT /\ (forall e, (m data).1 = Err e -> (m data).2 = data) in
  ok pop /\ (forall v, ok (push v)) /\ (forall n, ok (peek n)) /\ (forall n, ok (dup n)) /\
  (forall n m, ok (exchange n m)) /\ (forall n, ok (swap n)) /\ (forall n v, ok (set n v)) /\
  (forall s, ok (push_slice s)).
Proof.
  intros Hl ok.
  assert (Hex : forall n m, ok unit (exchange n m)).
  { intros n m. unfold ok, exchange. repeat (case_match; try done); simpl; split; try done.
    unfold len in *. by rewrite !length_insert. }
  split_and!; [|intros v|intros n|intros n|exact Hex|intros n; apply Hex|intros n v|intros s]; unfold ok.
  - unfold pop. case_match; [done|]. simpl. split; [|done]. unfold len in *. rewrite length_take. lia.
  - unfold push. destruct (Z.eqb_spec (len data) STACK_LIMIT); [done|]. simpl. split; [|done].
    rewrite len_app. change (len [v]) with 1. lia.
  - unfold peek. by case_match.
  - unfold dup. destruct (negb (0 <? n)); [done|]. destruct (len data <? n); [done|].
    destruct (Z.ltb_spec STACK_LIMIT (len data + 1)); [done|]. case_match; [|done]. simpl. split; [|done].
    rewrite len_app. by change (len [_]) with 1.
  - unfold set. case_match; [|done]. simpl. split; [|done]. unfold len in *. by rewrite length_insert.
  - unfold push_slice. destruct s as [|b s]; [done|].
    destruct (Z.ltb_spec STACK_LIMIT (len data + (len (b :: s) + 31) / 32)); [done|]. cbn [fst snd]. split; [|done].
    rewrite slice_limbs_words, len_app, length_slice_words. lia.
Qed.

(** ** Witnesses *)

Lemma exchange_spec_witness : exchange 0 2 [1; 2; 3] = (Ok tt, [3; 2; 1]) /\ nth_from_top [3; 2; 1] 2 = Some 3.
Proof.
  split; [reflexivity|].
  pose proof (exchange_spec 0 2 [1; 2; 3] ltac:(lia) ltac:(lia)) as H.
  cbn in H. destruct H as (data' & Heq & _ & Hn). injection Heq as <-. apply (Hn 2). split; reflexivity || lia.
Defined.

Lemma dup_spec_witness : exists data', dup 2 [1; 2; 3] = (Ok tt, data') /\ nth_from_top data' 0 = Some 2.
Proof.
  pose proof (dup_spec 2 [1; 2; 3] ltac:(lia) ltac:(by vm_compute)) as H.
  destruct H as (data' & Heq & _ & Hn & _). exists data'. split; [exact Heq|exact Hn].
Defined.

