(* ===== verification/I256.v ===== *)
(** Signed words: [crates/interpreter/src/instructions/i256.rs], and the word
    operations of [arithmetic.rs] and [bitwise.rs], against two's complement
    arithmetic on integers. *)

From S2P Require Import Prelude.

Inductive Sign : Type := Minus | Zero | Plus.

#[export] Instance Sign_eq_dec : EqDecision Sign.
Proof. solve_decision. Defined.

(** The discriminants, which the derived order compares. *)
Definition Sign_repr (s : Sign) : Z := match s with Minus => -1 | Zero => 0 | Plus => 1 end.

Definition MAX_POSITIVE_VALUE : Z := 2 ^ 255 - 1.
Definition MIN_NEGATIVE_VALUE : Z := 2 ^ 255.
Definition FLIPH_BITMASK_U64 : Z := 0x7FFFFFFFFFFFFFFF.

Definition i256_sign (val : Z) : Sign :=
  if Z.testbit val 255 then Minus else if negb (val =? 0) then Plus else Zero.

Definition two_compl (op : Z) : Z := wrapping_sub 256 0 op.

(** [i256_sign_compl]: the sign, and the value as it leaves it. *)
Definition i256_sign_compl (val : Z) : Sign * Z :=
  let sign := i256_sign val in
  (sign, if bool_decide (sign = Minus) then two_compl val else val).

(** The top limb is masked. *)
Definition u256_remove_sign (val : Z) : Z :=
  val mod 2 ^ 192 + 2 ^ 192 * Z.land (val / 2 ^ 192) FLIPH_BITMASK_U64.

Definition i256_cmp (first second : Z) : comparison :=
  match Sign_repr (i256_sign first) ?= Sign_repr (i256_sign second) with
  | Eq => first ?= second
  | o => o
  end.

Definition i256_div (first second : Z) : Z :=
  let '(second_sign, second) := i256_sign_compl second in
  if bool_decide (second_sign = Zero) then 0
  else
    let '(first_sign, first) := i256_sign_compl first in
    if (first =? MIN_NEGATIVE_VALUE) && (second =? 1) then two_compl MIN_NEGATIVE_VALUE
    else
      let d := u256_remove_sign (first / second) in
      if (bool_decide (first_sign = Minus) && negb (bool_decide (second_sign = Minus)))
         || (bool_decide (second_sign = Minus) && negb (bool_decide (first_sign = Minus)))
      then two_compl d else d.

Definition i256_mod (first second : Z) : Z :=
  let '(first_sign, first) := i256_sign_compl first in
  if bool_decide (first_sign = Zero) then 0
  else
    let '(second_sign, second) := i256_sign_compl second in
    if bool_decide (second_sign = Zero) then 0
    else
      let r := u256_remove_sign (first mod second) in
      if bool_decide (first_sign = Minus) then two_compl r else r.

(** ** Words of [arithmetic.rs] and [bitwise.rs] *)

(** [!x]. *)
Definition word_not (x : Z) : Z := U256_MAX - x.

(** The result of SIGNEXTEND. *)
Definition signextend_word (ext x : Z) : Z :=
  if ext <? 31 then
    let bit_index := 8 * ext + 7 in
    let bit := Z.testbit x bit_index in
    let mask := cast 256 (Z.shiftl 1 bit_index) - 1 in
    if bit then Z.lor x (word_not mask) else Z.land x mask
  else x.

(** [as_usize_saturated] is applied to the operand before these. *)
Definition byte_word (o1 x : Z) : Z :=
  if o1 <? 32 then Z.land (Z.shiftr x (8 * (31 - o1))) 0xFF else 0.
Definition shl_word (shift x : Z) : Z := if shift <? 256 then cast 256 (Z.shiftl x shift) else 0.
Definition shr_word (shift x : Z) : Z := if shift <? 256 then Z.shiftr x shift else 0.
Definition sar_word (shift x : Z) : Z :=
  if 256 <=? shift then if Z.testbit x 255 then U256_MAX else 0
  else if Z.testbit x 255 then
    let shifted_value := Z.shiftr x shift in
    let mask := cast 256 (Z.shiftl U256_MAX (256 - shift)) in
    Z.lor shifted_value mask
  else Z.shiftr x shift.

(** ** Lemmas *)

Lemma testbit_top w x : 0 < w -> fits w x -> Z.testbit x (w - 1) = (2 ^ (w - 1) <=? x).
Proof.
  intros Hw [H0 H1]. rewrite Z.testbit_odd, Z.shiftr_div_pow2 by lia.
  replace w with (1 + (w - 1)) in H1 by lia. rewrite Z.pow_add_r in H1 by lia. change (2 ^ 1) with 2 in H1.
  destruct (Z.leb_spec (2 ^ (w - 1)) x).
  - replace (x / 2 ^ (w - 1)) with 1; [done|]. apply (Z.div_unique _ _ 1 (x - 2 ^ (w - 1))); lia.
  - by rewrite Z.div_small by lia.
Qed.

Lemma signed_range w x : 0 < w -> fits w x -> - 2 ^ (w - 1) <= signed w x < 2 ^ (w - 1).
Proof.
  intros Hw [H0 H1]. unfold signed. replace w with (1 + (w - 1)) in H1 |- * by lia.
  rewrite Z.pow_add_r in * by lia. change (2 ^ 1) with 2 in *.
  replace (1 + (w - 1) - 1) with (w - 1) by lia. destruct (Z.ltb_spec x (2 ^ (w - 1))); lia.
Qed.

Lemma i256_sign_spec x :
  fits 256 x -> Sign_repr (i256_sign x) = Z.sgn (signed 256 x).
Proof.
  intros Hx. unfold i256_sign. rewrite (testbit_top 256) by done. unfold signed.
  change (256 - 1) with 255. destruct Hx as [H0 H1].
  destruct (Z.leb_spec (2 ^ 255) x); bool_lia.
  - rewrite Z.sgn_neg by lia. done.
  - destruct (Z.eqb_spec x 0) as [->|]; [done|]. by rewrite Z.sgn_pos by lia.
Qed.

Lemma sign_Minus x : fits 256 x -> i256_sign x = Minus <-> signed 256 x < 0.
Proof.
  intros Hx. pose proof (i256_sign_spec x Hx) as Hs.
  destruct (i256_sign x); simpl in Hs; split; intros; first [done|lia].
Qed.

Lemma sign_Zero x : fits 256 x -> i256_sign x = Zero <-> x = 0.
Proof.
  intros [H0 H1]. unfold i256_sign. rewrite (testbit_top 256) by done. change (256 - 1) with 255.
  destruct (Z.leb_spec (2 ^ 255) x); [split; [done|lia]|].
  destruct (Z.eqb_spec x 0); simpl; split; done || lia.
Qed.

(** The value [i256_sign_compl] leaves is the magnitude. *)
Lemma i256_sign_compl_spec x :
  fits 256 x -> i256_sign_compl x = (i256_sign x, Z.abs (signed 256 x)).
Proof.
  intros Hx. unfold i256_sign_compl. f_equal. case_bool_decide as Hs.
  - apply sign_Minus in Hs as Hn; [|done]. unfold signed in *. change (256 - 1) with 255 in *.
    destruct (Z.ltb_spec x (2 ^ 255)); destruct Hx; [lia|].
    unfold two_compl, wrapping_sub. rewrite Z.abs_neq by lia.
    symmetry. apply (Z.mod_unique _ _ (-1)); lia.
  - assert (0 <= signed 256 x) by (rewrite sign_Minus in Hs by done; lia).
    unfold signed in *. change (256 - 1) with 255 in *.
    destruct (Z.ltb_spec x (2 ^ 255)); destruct Hx; lia.
Qed.

(** Clearing the sign bit of a non-negative word does nothing. *)
Lemma u256_remove_sign_id x : 0 <= x < 2 ^ 255 -> u256_remove_sign x = x.
Proof.
  intros Hx. unfold u256_remove_sign, FLIPH_BITMASK_U64.
  change 0x7FFFFFFFFFFFFFFF with (Z.ones 63). rewrite Z.land_ones by lia.
  rewrite (Z.mod_small (x / 2 ^ 192)).
  - pose proof (Z.div_mod x (2 ^ 192)). lia.
  - split; [apply Z.div_pos; lia|]. apply Z.div_lt_upper_bound; lia.
Qed.

Lemma two_compl_cast x : two_compl x = cast 256 (- x).
Proof. done. Qed.

Lemma quot_abs_div a b :
  b <> 0 ->
  Z.quot a b = if xorb (a <? 0) (b <? 0) then - (Z.abs a / Z.abs b) else Z.abs a / Z.abs b.
Proof.
  intros Hb. rewrite <- Z.quot_div_nonneg by lia.
  destruct (Z.ltb_spec a 0), (Z.ltb_spec b 0); cbn [xorb];
    rewrite ?(Z.abs_neq a), ?(Z.abs_neq b), ?(Z.abs_eq a), ?(Z.abs_eq b) by lia.
  - by rewrite Z.quot_opp_opp.
  - rewrite Z.quot_opp_l by done. lia.
  - rewrite Z.quot_opp_r by done. lia.
  - done.
Qed.

Lemma rem_abs_mod a b :
  b <> 0 -> Z.rem a b = if a <? 0 then - (Z.abs a mod Z.abs b) else Z.abs a mod Z.abs b.
Proof.
  intros Hb. rewrite <- Z.rem_mod_nonneg by lia. rewrite Z.rem_abs_r by done.
  destruct (Z.ltb_spec a 0); [rewrite Z.abs_neq, Z.rem_opp_l by lia; lia|by rewrite Z.abs_eq by lia].
Qed.

Lemma sign_Minus_ltb x :
  fits 256 x -> bool_decide (i256_sign x = Minus) = (signed 256 x <? 0).
Proof.
  intros Hx. pose proof (sign_Minus x Hx). case_bool_decide; symmetry; [apply Z.ltb_lt|apply Z.ltb_ge]; [tauto|].
  destruct (Z.lt_ge_cases (signed 256 x) 0); tauto || lia.
Qed.

Lemma signed_zero x : fits 256 x -> signed 256 x = 0 -> x = 0.
Proof. intros [H0 H1]. unfold signed. destruct (Z.ltb_spec x (2 ^ (256 - 1))); lia. Qed.

(** [i256_div] is division of two's complement words: truncated, zero for a
    zero divisor, and wrapping in the one case that overflows. *)
Theorem i256_div_spec a b :
  fits 256 a -> fits 256 b ->
  i256_div a b =
    if b =? 0 then 0 else cast 256 (Z.quot (signed 256 a) (signed 256 b)).
Proof.
  intros Ha Hb. unfold i256_div. rewrite !i256_sign_compl_spec by done.
  destruct (Z.eqb_spec b 0) as [->|Hb0]; [done|].
  rewrite bool_decide_eq_false_2 by (by rewrite sign_Zero).
  assert (Hsb : signed 256 b <> 0) by (intros H; by apply Hb0, signed_zero).
  pose proof (signed_range 256 a ltac:(lia) Ha) as Hra. pose proof (signed_range 256 b ltac:(lia) Hb) as Hrb.
  change (256 - 1) with 255 in *.
  rewrite quot_abs_div, !sign_Minus_ltb by done.
  set (sa := signed 256 a) in *. set (sb := signed 256 b) in *. unfold MIN_NEGATIVE_VALUE.
  destruct (Z.eqb_spec (Z.abs sa) (2 ^ 255)) as [HA|HA], (Z.eqb_spec (Z.abs sb) 1) as [HB|HB]; cbn [andb].
  1: { rewrite HA, HB, Z.div_1_r. by destruct (xorb _ _). }
  all: assert (Hd : 0 <= Z.abs sa / Z.abs sb < 2 ^ 255)
    by (split; [apply Z.div_pos; lia|apply Z.div_lt_upper_bound; nia]).
  all: rewrite u256_remove_sign_id by done.
  all: destruct (sa <? 0), (sb <? 0); cbn [andb orb negb xorb];
    rewrite ?two_compl_cast; try done; symmetry; apply cast_fits; unfold fits; lia.
Qed.

(** [i256_mod] is the remainder of two's complement words: it has the sign of
    the dividend, and is zero for a zero divisor. *)
Theorem i256_mod_spec a b :
  fits 256 a -> fits 256 b ->
  i256_mod a b =
    if b =? 0 then 0 else cast 256 (Z.rem (signed 256 a) (signed 256 b)).
Proof.
  intros Ha Hb. unfold i256_mod. rewrite !i256_sign_compl_spec by done.
  destruct (Z.eqb_spec b 0) as [->|Hb0]; [by case_bool_decide|].
  rewrite (bool_decide_eq_false_2 (i256_sign b = Zero)) by (by rewrite sign_Zero).
  assert (Hsb : signed 256 b <> 0) by (intros H; by apply Hb0, signed_zero).
  pose proof (signed_range 256 a ltac:(lia) Ha) as Hra. pose proof (signed_range 256 b ltac:(lia) Hb) as Hrb.
  change (256 - 1) with 255 in *.
  case_bool_decide as Hz.
  { apply sign_Zero in Hz as ->; [|done]. change (signed 256 0) with 0. by rewrite Z.rem_0_l. }
  rewrite rem_abs_mod, sign_Minus_ltb by done.
  set (sa := signed 256 a) in *. set (sb := signed 256 b) in *.
  pose proof (Z.mod_pos_bound (Z.abs sa) (Z.abs sb) ltac:(lia)) as Hm.
  rewrite u256_remove_sign_id by lia.
  destruct (sa <? 0); [done|]. symmetry. apply cast_fits. unfold fits. lia.
Qed.

(** [i256_cmp] compares two's complement words. *)
Theorem i256_cmp_spec a b :
  fits 256 a -> fits 256 b -> i256_cmp a b = (signed 256 a ?= signed 256 b).
Proof.
  intros Ha Hb. unfold i256_cmp. rewrite !i256_sign_spec by done.
  assert (Hsame : (signed 256 a < 0 <-> signed 256 b < 0) ->
    a < b <-> signed 256 a < signed 256 b).
  { unfold signed. destruct Ha, Hb.
    destruct (Z.ltb_spec a (2 ^ (256 - 1))), (Z.ltb_spec b (2 ^ (256 - 1))); lia. }
  assert (Heq : a = b <-> signed 256 a = signed 256 b).
  { split; [by intros ->|]. unfold signed. destruct Ha, Hb.
    destruct (Z.ltb_spec a (2 ^ (256 - 1))), (Z.ltb_spec b (2 ^ (256 - 1))); lia. }
  set (sa := signed 256 a) in *. set (sb := signed 256 b) in *. clearbody sa sb.
  destruct (Z.compare_spec (Z.sgn sa) (Z.sgn sb)), (Z.compare_spec a b), (Z.compare_spec sa sb);
    done || lia.
Qed.

(** *** Bit patterns *)

Lemma lor_disjoint a b n :
  0 <= n -> 0 <= a < 2 ^ n -> Z.lor a (b * 2 ^ n) = a + b * 2 ^ n.
Proof.
  intros Hn Ha. symmetry. rewrite <- Z.lxor_lor, Z.add_nocarry_lxor; [done| |];
    apply Z.bits_inj'; intros m Hm; rewrite Z.land_spec, Z.bits_0;
    (destruct (Z.lt_ge_cases m n);
      [by rewrite Z.mul_pow2_bits_low, andb_false_r
      |rewrite <- (Z.mod_small a (2 ^ n)) by lia; by rewrite Z.mod_pow2_bits_high]).
Qed.

(** The words whose low [k] bits are clear and whose other bits are set. *)
Lemma high_ones_bit k m :
  0 <= k <= 256 -> 0 <= m -> Z.testbit (2 ^ 256 - 2 ^ k) m = (k <=? m) && (m <? 256).
Proof.
  intros Hk Hm. replace (2 ^ 256 - 2 ^ k) with (Z.shiftl (Z.ones (256 - k)) k).
  - rewrite Z.shiftl_spec by done. destruct (Z.leb_spec k m).
    + rewrite Z.testbit_ones by lia. destruct (Z.ltb_spec m 256); bool_lia; done.
    + by rewrite Z.testbit_neg_r by lia.
  - rewrite Z.shiftl_mul_pow2, Z.ones_equiv by lia.
    replace (2 ^ 256) with (2 ^ (256 - k) * 2 ^ k) by (rewrite <- Z.pow_add_r by lia; f_equal; lia). lia.
Qed.

Lemma fits_bit_high x m : fits 256 x -> 256 <= m -> Z.testbit x m = false.
Proof. intros Hx Hm. rewrite <- (Z.mod_small x (2 ^ 256)) by done. apply Z.mod_pow2_bits_high. lia. Qed.

Lemma lor_high_ones x k :
  fits 256 x -> 0 <= k <= 256 -> Z.lor x (2 ^ 256 - 2 ^ k) = x mod 2 ^ k + (2 ^ 256 - 2 ^ k).
Proof.
  intros Hx Hk.
  replace (2 ^ 256 - 2 ^ k) with ((2 ^ (256 - k) - 1) * 2 ^ k) at 2
    by (rewrite Z.mul_sub_distr_r, <- Z.pow_add_r by lia; replace (256 - k + k) with 256 by lia; lia).
  rewrite <- lor_disjoint by (try apply Z.mod_pos_bound; lia).
  replace ((2 ^ (256 - k) - 1) * 2 ^ k) with (2 ^ 256 - 2 ^ k)
    by (rewrite Z.mul_sub_distr_r, <- Z.pow_add_r by lia; replace (256 - k + k) with 256 by lia; lia).
  apply Z.bits_inj'. intros m Hm. rewrite !Z.lor_spec, high_ones_bit by done.
  destruct (Z.leb_spec k m); cbn [andb].
  - rewrite Z.mod_pow2_bits_high by lia. destruct (Z.ltb_spec m 256); [by rewrite !orb_true_r|].
    by rewrite fits_bit_high.
  - by rewrite Z.mod_pow2_bits_low by lia.
Qed.

(** SAR is the arithmetic shift: it divides the signed value by a power of
    two, rounding down. *)
Theorem sar_word_spec shift x :
  0 <= shift -> fits 256 x -> sar_word shift x = cast 256 (signed 256 x / 2 ^ shift).
Proof.
  intros Hs Hx. pose proof Hx as [H0 H1]. unfold sar_word. rewrite (testbit_top 256) by done.
  unfold signed. change (256 - 1) with 255. rewrite !Z.shiftr_div_pow2 by done.
  assert (Hpos : 0 < 2 ^ shift) by (apply Z.pow_pos_nonneg; lia).
  destruct (Z.leb_spec 256 shift) as [Hbig|Hsmall].
  - assert (Hge : 2 ^ 256 <= 2 ^ shift) by (apply Z.pow_le_mono_r; lia).
    destruct (Z.leb_spec (2 ^ 255) x); bool_lia.
    + replace ((x - 2 ^ 256) / 2 ^ shift) with (-1); [done|].
      apply (Z.div_unique _ _ _ (x - 2 ^ 256 + 2 ^ shift)); lia.
    + by rewrite Z.div_small by lia.
  - assert (Hsplit : 2 ^ 256 = 2 ^ (256 - shift) * 2 ^ shift)
      by (rewrite <- Z.pow_add_r by lia; f_equal; lia).
    assert (Hq : 0 <= x / 2 ^ shift < 2 ^ (256 - shift))
      by (split; [apply Z.div_pos; lia|apply Z.div_lt_upper_bound; lia]).
    assert (0 < 2 ^ (256 - shift) <= 2 ^ 256)
      by (split; [apply Z.pow_pos_nonneg; lia|apply Z.pow_le_mono_r; lia]).
    destruct (Z.leb_spec (2 ^ 255) x); bool_lia.
    + replace (cast 256 (Z.shiftl U256_MAX (256 - shift))) with (2 ^ 256 - 2 ^ (256 - shift)).
      2: { rewrite Z.shiftl_mul_pow2 by lia. unfold cast, U256_MAX.
           apply (Z.mod_unique _ _ (2 ^ (256 - shift) - 1)); [|lia].
           assert (0 < 2 ^ (256 - shift)) by lia. left. lia. }
      rewrite lor_high_ones by (unfold fits; lia). rewrite Z.mod_small by done.
      replace ((x - 2 ^ 256) / 2 ^ shift) with (x / 2 ^ shift - 2 ^ (256 - shift)).
      2: { rewrite Hsplit at 1. replace (x - 2 ^ (256 - shift) * 2 ^ shift)
             with (x + - 2 ^ (256 - shift) * 2 ^ shift) by lia. rewrite Z.div_add by lia. lia. }
      unfold cast. apply (Z.mod_unique _ _ (-1)); [|lia]. left. lia.
    + symmetry. apply cast_fits. unfold fits. lia.
Qed.

(** SIGNEXTEND reads the low [ext + 1] bytes as a two's complement number. *)
Theorem signextend_word_spec ext x :
  0 <= ext -> fits 256 x ->
  signextend_word ext x =
    if ext <? 31 then cast 256 (signed (8 * (ext + 1)) (x mod 2 ^ (8 * (ext + 1)))) else x.
Proof.
  intros He Hx. unfold signextend_word. destruct (Z.ltb_spec ext 31); [|done]. cbv zeta.
  set (k := 8 * ext + 7). replace (8 * (ext + 1)) with (k + 1) by lia.
  assert (Hk : 0 <= k < 255) by lia.
  assert (Hp : 0 < 2 ^ k) by (apply Z.pow_pos_nonneg; lia).
  assert (Hp2 : 2 ^ (k + 1) = 2 * 2 ^ k) by (rewrite Z.pow_add_r by lia; lia).
  assert (Hle : 2 ^ (k + 1) <= 2 ^ 255) by (apply Z.pow_le_mono_r; lia).
  replace (cast 256 (Z.shiftl 1 k)) with (2 ^ k).
  2: { rewrite Z.shiftl_1_l. symmetry. apply cast_fits. unfold fits. lia. }
  pose proof (Z.mod_pos_bound x (2 ^ k) Hp) as Hm.
  assert (Hbit : x mod 2 ^ (k + 1) = x mod 2 ^ k + (if Z.testbit x k then 2 ^ k else 0)).
  { rewrite Hp2, (Z.mul_comm 2), Z.rem_mul_r by lia. rewrite Z.testbit_odd, Z.shiftr_div_pow2 by lia.
    rewrite Zmod_odd. destruct (Z.odd _); lia. }
  unfold signed. replace (k + 1 - 1) with k by lia. rewrite Hbit.
  destruct (Z.testbit x k); bool_lia.
  - replace (word_not (2 ^ k - 1)) with (2 ^ 256 - 2 ^ k) by (unfold word_not, U256_MAX; lia).
    rewrite lor_high_ones by (done || lia). unfold cast. rewrite Hp2. apply (Z.mod_unique _ _ (-1)); [|lia].
    left. lia.
  - replace (2 ^ k - 1) with (Z.ones k) by (rewrite Z.ones_equiv; lia). rewrite Z.land_ones by lia.
    symmetry. rewrite Z.add_0_r. apply cast_fits. unfold fits. lia.
Qed.

(** BYTE counts from the most significant end. *)
Lemma byte_word_spec i x :
  0 <= i -> byte_word i x = if i <? 32 then (x / 256 ^ (31 - i)) mod 256 else 0.
Proof.
  intros Hi. unfold byte_word. destruct (Z.ltb_spec i 32); [|done].
  change 0xFF with (Z.ones 8). rewrite Z.land_ones, Z.shiftr_div_pow2 by lia.
  by rewrite Z.pow_mul_r by lia.
Qed.

(** ** Witnesses *)

Lemma i256_div_spec_witness : i256_div (2 ^ 256 - 7) 2 = 2 ^ 256 - 3.
Proof. rewrite (i256_div_spec (2 ^ 256 - 7) 2) by (vm_compute; intuition congruence). reflexivity. Defined.

Lemma i256_mod_spec_witness : i256_mod (2 ^ 256 - 7) 2 = 2 ^ 256 - 1.
Proof. rewrite (i256_mod_spec (2 ^ 256 - 7) 2) by (vm_compute; intuition congruence). reflexivity. Defined.

Lemma i256_cmp_spec_witness : i256_cmp (2 ^ 256 - 1) 1 = Lt.
Proof. rewrite (i256_cmp_spec (2 ^ 256 - 1) 1) by (vm_compute; intuition congruence). reflexivity. Defined.

Lemma sar_word_spec_witness : sar_word 1 (2 ^ 256 - 7) = 2 ^ 256 - 4.
Proof. rewrite (sar_word_spec 1 (2 ^ 256 - 7)) by (vm_compute; intuition congruence). reflexivity. Defined.

Lemma signextend_word_spec_witness : signextend_word 0 0x1FE = 2 ^ 256 - 2.
Proof. rewrite (signextend_word_spec 0 0x1FE) by (vm_compute; intuition congruence). reflexivity. Defined.
