(* ===== verification/SharedMemory.v ===== *)
(** The memory shared between call contexts:
    [crates/interpreter/src/interpreter/shared_memory.rs] (default features).

    One buffer holds the memories of all contexts; the memory of the current
    context starts at the last checkpoint.  An access out of bounds is
    unreachable in the source, here a [Panic]. *)

From S2P Require Import Prelude Bytes.

Record SharedMemory : Type := mkSharedMemory {
  buffer : bytes;
  checkpoints : list Z;
  last_checkpoint : Z;
}.

Definition EMPTY_SHARED_MEMORY : SharedMemory := mkSharedMemory [] [] 0.
Definition SharedMemory_new : SharedMemory := mkSharedMemory [] [] 0.

Definition new_context (m : SharedMemory) : SharedMemory :=
  let new_checkpoint := len (buffer m) in
  mkSharedMemory (buffer m) (checkpoints m ++ [new_checkpoint]) new_checkpoint.

(** [set_len] below the length truncates. *)
Definition free_context (m : SharedMemory) : SharedMemory :=
  match last (checkpoints m) with
  | None => m
  | Some old_checkpoint =>
      let cs := take (length (checkpoints m) - 1) (checkpoints m) in
      mkSharedMemory (take (Z.to_nat old_checkpoint) (buffer m)) cs (default 0 (last cs))
  end.

Definition mem_len (m : SharedMemory) : Z := usize_sub (len (buffer m)) (last_checkpoint m).
Definition mem_is_empty (m : SharedMemory) : bool := mem_len m =? 0.

(** [Vec::resize] with zeros. *)
Definition vec_resize (n : Z) (l : bytes) : bytes :=
  take (Z.to_nat n) l ++ replicate (Z.to_nat n - length l) 0.

Definition resize (new_size : Z) (m : SharedMemory) : SharedMemory :=
  mkSharedMemory (vec_resize (wrapping_add 64 (last_checkpoint m) new_size) (buffer m))
    (checkpoints m) (last_checkpoint m).

Definition context_memory (m : SharedMemory) : bytes := drop (Z.to_nat (last_checkpoint m)) (buffer m).

Definition set_context (f : bytes -> bytes) (m : SharedMemory) : SharedMemory :=
  mkSharedMemory (take (Z.to_nat (last_checkpoint m)) (buffer m) ++ f (context_memory m))
    (checkpoints m) (last_checkpoint m).

Section memory.
Context {E : Type}.
Abbreviation MM := (M SharedMemory E).

Definition mem_slice_range (start stop : Z) : MM bytes := fun m =>
  (slice (context_memory m) start stop, m).
Definition mem_slice (offset size : Z) : MM bytes :=
  mem_slice_range offset (wrapping_add 64 offset size).

(** What is done with [slice_mut(offset, size)]: overwrite it. *)
Definition overwrite (offset : Z) (value l : bytes) : bytes :=
  take (Z.to_nat offset) l ++ value ++ drop (Z.to_nat offset + length value) l.
Definition write_slice (offset size : Z) (value : bytes) : MM unit := fun m =>
  let stop := wrapping_add 64 offset size in
  if (0 <=? offset) && (offset <=? stop) && (stop <=? len (context_memory m))
     && (len value =? stop - offset)
  then (Ok tt, set_context (overwrite offset value) m)
  else (Panic, m).

Definition get_byte (offset : Z) : MM Z :=
  s ← mem_slice offset 1; lift (index s 0).
Definition get_word (offset : Z) : MM Z :=
  s ← mem_slice offset 32; mret (from_be_bytes s).
Definition get_u256 (offset : Z) : MM Z := get_word offset.

Definition mem_set (offset : Z) (value : bytes) : MM unit :=
  match value with
  | [] => mret tt
  | _ => write_slice offset (len value) value
  end.
Definition set_byte (offset byte : Z) : MM unit := mem_set offset [byte].
Definition set_word (offset value : Z) : MM unit := mem_set offset (to_be_bytes 32 value).
Definition set_u256 (offset value : Z) : MM unit := mem_set offset (to_be_bytes 32 value).

Definition set_data (memory_offset data_offset length : Z) (data : bytes) : MM unit :=
  if len data <=? data_offset then
    write_slice memory_offset length (replicate (Z.to_nat length) 0)
  else
    let data_end := Z.min (wrapping_add 64 data_offset length) (len data) in
    let data_len := usize_sub data_end data_offset in
    piece ← lift (slice data data_offset data_end);
    _ ← write_slice memory_offset data_len piece;
    let rest := usize_sub length data_len in
    write_slice (wrapping_add 64 memory_offset data_len) rest (replicate (Z.to_nat rest) 0).

(** [copy_within]. *)
Definition mem_copy (dst src length : Z) : MM unit :=
  piece ← mem_slice_range src (wrapping_add 64 src length);
  write_slice dst (len piece) piece.
End memory.

(** ** Lemmas *)

(** The checkpoints are in bounds and increasing, and [last_checkpoint] is the
    last of them. *)
Record wf_memory (m : SharedMemory) : Prop := {
  wm_last : last_checkpoint m = default 0 (last (checkpoints m));
  wm_bounds : Forall (fun c => 0 <= c <= len (buffer m)) (checkpoints m);
  wm_sorted : forall i k c c', (i <= k)%nat ->
    checkpoints m !! i = Some c -> checkpoints m !! k = Some c' -> c <= c';
  wm_fits : len (buffer m) < 2 ^ 63;
}.

Lemma wf_last_bound m : wf_memory m -> 0 <= last_checkpoint m <= len (buffer m).
Proof.
  intros [Hl Hb _ _]. rewrite Hl. destruct (last (checkpoints m)) as [c|] eqn:Hc; simpl.
  - apply last_Some_elem_of in Hc. rewrite Forall_forall in Hb. by apply Hb.
  - split; [done|apply len_nonneg].
Qed.

Lemma len_context m : wf_memory m -> len (context_memory m) = len (buffer m) - last_checkpoint m.
Proof. intros Hwf. pose proof (wf_last_bound m Hwf). unfold context_memory. apply len_drop. lia. Qed.

Lemma mem_len_context m : wf_memory m -> mem_len m = len (context_memory m).
Proof.
  intros Hwf. pose proof (wf_last_bound m Hwf). rewrite len_context by done.
  unfold mem_len, usize_sub. by bool_lia.
Qed.

Lemma len_overwrite offset value l :
  0 <= offset -> offset + len value <= len l -> len (overwrite offset value l) = len l.
Proof.
  intros Ho Hl. unfold overwrite, len in *. rewrite !length_app, length_take, length_drop. lia.
Qed.

Lemma lookup_overwrite offset value l i :
  0 <= offset -> offset + len value <= len l -> 0 <= i < len l ->
  overwrite offset value l !! Z.to_nat i =
    if decide (offset <= i < offset + len value) then value !! Z.to_nat (i - offset) else l !! Z.to_nat i.
Proof.
  intros Ho Hl Hi. unfold overwrite. unfold len in *. case_decide as Hin.
  - rewrite lookup_app_r by (rewrite length_take; lia). rewrite length_take.
    rewrite lookup_app_l by lia. f_equal. lia.
  - destruct (Z.lt_ge_cases i offset).
    + rewrite lookup_app_l by (rewrite length_take; lia). apply lookup_take_lt. lia.
    + rewrite lookup_app_r by (rewrite length_take; lia). rewrite length_take.
      rewrite lookup_app_r by lia. rewrite lookup_drop. f_equal. lia.
Qed.

Lemma read_overwrite offset value l :
  0 <= offset -> offset + len value <= len l ->
  take (Z.to_nat (len value)) (drop (Z.to_nat offset) (overwrite offset value l)) = value.
Proof.
  intros Ho Hl. unfold overwrite, len in *. rewrite drop_app_length' by (rewrite length_take; lia).
  apply take_app_length'. lia.
Qed.

Lemma len_set_context f m :
  wf_memory m -> len (f (context_memory m)) = len (context_memory m) ->
  len (buffer (set_context f m)) = len (buffer m).
Proof.
  intros Hwf Hf. pose proof (wf_last_bound m Hwf). unfold set_context. simpl. rewrite len_app, Hf, len_context by done.
  rewrite len_take by lia. lia.
Qed.

Lemma context_set_context f m : wf_memory m -> context_memory (set_context f m) = f (context_memory m).
Proof.
  intros Hwf. pose proof (wf_last_bound m Hwf). unfold context_memory at 1, set_context. cbn [buffer last_checkpoint].
  apply drop_app_length'. unfold len in *. rewrite length_take. lia.
Qed.

Lemma wf_set_context f m :
  wf_memory m -> len (f (context_memory m)) = len (context_memory m) -> wf_memory (set_context f m).
Proof.
  intros Hwf Hf. pose proof (len_set_context f m Hwf Hf) as Hlen. destruct Hwf as [Hl Hb Hs Hfit].
  split; try done; by rewrite Hlen.
Qed.

Lemma checkpoints_below_last m c : wf_memory m -> c ∈ checkpoints m -> c <= last_checkpoint m.
Proof.
  intros [Hl Hb Hs _] [i Hi]%list_elem_of_lookup_1. rewrite Hl, last_lookup.
  assert (i < length (checkpoints m))%nat by by eapply lookup_lt_Some.
  destruct (checkpoints m !! pred (length (checkpoints m))) as [c'|] eqn:Hc; simpl.
  - apply (Hs i (pred (length (checkpoints m))) c c'); [lia|done..].
  - apply lookup_ge_None in Hc. lia.
Qed.

(** What every operation of a context keeps: the context stack, and the buffer
    below the context. *)
Record keeps (m m' : SharedMemory) : Prop := {
  kp_wf : wf_memory m';
  kp_checkpoints : checkpoints m' = checkpoints m;
  kp_last : last_checkpoint m' = last_checkpoint m;
  kp_below : take (Z.to_nat (last_checkpoint m)) (buffer m') = take (Z.to_nat (last_checkpoint m)) (buffer m);
}.

Lemma keeps_refl m : wf_memory m -> keeps m m.
Proof. by split. Qed.

Lemma keeps_trans m1 m2 m3 : keeps m1 m2 -> keeps m2 m3 -> keeps m1 m3.
Proof.
  intros [_ Hc Hl Hb] [Hwf' Hc' Hl' Hb']. split; [done|congruence|congruence|].
  rewrite Hl in Hb'. by rewrite Hb'.
Qed.

Lemma keeps_set_context f m :
  wf_memory m -> len (f (context_memory m)) = len (context_memory m) -> keeps m (set_context f m).
Proof.
  intros Hwf Hf. pose proof (wf_last_bound m Hwf). split; try done; [by apply wf_set_context|].
  unfold set_context. cbn [buffer]. apply take_app_length'. unfold len in *. rewrite length_take. lia.
Qed.

Lemma len_vec_resize n l : 0 <= n -> len (vec_resize n l) = n.
Proof. intros Hn. unfold vec_resize, len. rewrite length_app, length_take, length_replicate. lia. Qed.

Lemma keeps_resize n m :
  wf_memory m -> 0 <= n -> last_checkpoint m + n < 2 ^ 63 -> keeps m (resize n m).
Proof.
  intros Hwf Hn Hf. pose proof (wf_last_bound m Hwf) as Hlb. unfold resize.
  rewrite wrapping_add_fits by (unfold fits; lia).
  pose proof (len_vec_resize (last_checkpoint m + n) (buffer m) ltac:(lia)) as Hlen.
  split; try done; [split; try apply Hwf|]; cbn [buffer checkpoints].
  - apply Forall_forall. intros c Hc. pose proof (checkpoints_below_last m c Hwf Hc).
    destruct Hwf as [_ Hb _ _]. rewrite Forall_forall in Hb. specialize (Hb c Hc). lia.
  - lia.
  - unfold vec_resize. rewrite take_app_le by (unfold len in *; rewrite length_take; lia).
    rewrite take_take. f_equal. lia.
Qed.

Section memory_lemmas.
Context {E : Type}.

Lemma write_slice_ok offset size value m :
  wf_memory m -> 0 <= offset -> len value = size -> offset + size <= len (context_memory m) ->
  write_slice (E := E) offset size value m = (Ok tt, set_context (overwrite offset value) m).
Proof.
  intros Hwf Ho Hv Hl. pose proof (wf_last_bound m Hwf). pose proof (len_context m Hwf).
  destruct Hwf as [_ _ _ Hf]. pose proof (len_nonneg value).
  unfold write_slice. rewrite wrapping_add_fits by (unfold fits; lia). bool_lia. done.
Qed.

Lemma keeps_write_slice offset size value m r m' :
  wf_memory m -> write_slice (E := E) offset size value m = (r, m') -> r <> Panic -> keeps m m'.
Proof.
  intros Hwf Hw Hr. unfold write_slice in Hw.
  destruct ((0 <=? offset) && (offset <=? wrapping_add 64 offset size) && (wrapping_add 64 offset size <=? len (context_memory m))
    && (len value =? wrapping_add 64 offset size - offset)) eqn:Hc; simplify_eq.
  rewrite !andb_true_iff, !Z.leb_le, Z.eqb_eq in Hc.
  apply keeps_set_context; [done|]. apply len_overwrite; lia.
Qed.

Lemma keeps_mem_set offset value m r m' :
  wf_memory m -> mem_set (E := E) offset value m = (r, m') -> r <> Panic -> keeps m m'.
Proof.
  intros Hwf Hw Hr. destruct value as [|b v]; [injection Hw as <- <-; by apply keeps_refl|].
  by eapply keeps_write_slice.
Qed.

Lemma keeps_set_data mo do_ n data m r m' :
  wf_memory m -> set_data (E := E) mo do_ n data m = (r, m') -> r <> Panic -> keeps m m'.
Proof.
  intros Hwf Hw Hr. unfold set_data in Hw. destruct (len data <=? do_); [by eapply keeps_write_slice|].
  apply M_bind_inv in Hw as [(piece & m1 & H1 & Hw)|[(e & H1 & ->)|[H1 ->]]]; [| |done].
  2: { unfold lift in H1. injection H1 as _ <-. by apply keeps_refl. }
  unfold lift in H1. injection H1 as _ <-.
  apply M_bind_inv in Hw as [([] & m2 & H2 & Hw)|[(e & H2 & ->)|[H2 ->]]]; [| |done].
  - apply keeps_write_slice in H2; [|done..]. apply keeps_write_slice in Hw; [|apply H2|done].
    by eapply keeps_trans.
  - by eapply keeps_write_slice.
Qed.

Lemma keeps_mem_copy dst src n m r m' :
  wf_memory m -> mem_copy (E := E) dst src n m = (r, m') -> r <> Panic -> keeps m m'.
Proof.
  intros Hwf Hw Hr. unfold mem_copy in Hw.
  apply M_bind_inv in Hw as [(piece & m1 & H1 & Hw)|[(e & H1 & ->)|[H1 ->]]]; [| |done];
    injection H1 as _ <-; [by eapply keeps_write_slice|by apply keeps_refl].
Qed.
End memory_lemmas.

Lemma wf_new_context m : wf_memory m -> wf_memory (new_context m).
Proof.
  intros Hwf. pose proof (wf_last_bound m Hwf). pose proof (checkpoints_below_last m) as Hbl.
  pose proof Hwf as [Hl Hb Hs Hf]. split; cbn [new_context last_checkpoint checkpoints buffer].
  - by rewrite last_snoc.
  - apply Forall_app. split; [done|]. constructor; [|done]. pose proof (len_nonneg (buffer m)). lia.
  - intros i k c c' Hik Hi Hk.
    apply lookup_app_Some in Hi as [Hi|[Hi1 Hi2]], Hk as [Hk|[Hk1 Hk2]].
    + by eapply (Hs i k).
    + apply list_lookup_singleton_Some in Hk2 as [_ <-].
      apply list_elem_of_lookup_2 in Hi. apply Hbl in Hi; [|done]. lia.
    + apply lookup_lt_Some in Hk. lia.
    + apply list_lookup_singleton_Some in Hi2 as [_ <-]. apply list_lookup_singleton_Some in Hk2 as [_ <-]. lia.
  - done.
Qed.

(** Leaving a context whose operations kept what lies below it. *)
Lemma free_keeps m m' : wf_memory m -> keeps (new_context m) m' -> free_context m' = m.
Proof.
  intros [Hl _ _ _] [_ Hc Hla Hb]. cbn [new_context checkpoints last_checkpoint buffer] in *.
  unfold free_context. rewrite Hc, last_snoc, length_app. cbn [length].
  rewrite take_app_length' by lia. rewrite Hb, <- Hl. destruct m as [b cs lc]. cbn [buffer checkpoints last_checkpoint].
  f_equal. apply take_ge. unfold len. lia.
Qed.

(** The operations a context performs, and the contexts it calls. *)
Inductive mem_run {E : Type} : SharedMemory -> SharedMemory -> Prop :=
  | mr_nil m : mem_run m m
  | mr_resize n m m' : 0 <= n -> last_checkpoint m + n < 2 ^ 63 -> mem_run (resize n m) m' -> mem_run m m'
  | mr_set o v m r m1 m' : mem_set (E := E) o v m = (r, m1) -> r <> Panic -> mem_run m1 m' -> mem_run m m'
  | mr_set_data mo d n data m r m1 m' :
      set_data (E := E) mo d n data m = (r, m1) -> r <> Panic -> mem_run m1 m' -> mem_run m m'
  | mr_copy dst src n m r m1 m' :
      mem_copy (E := E) dst src n m = (r, m1) -> r <> Panic -> mem_run m1 m' -> mem_run m m'
  | mr_call m m1 m' : mem_run (new_context m) m1 -> mem_run (free_context m1) m' -> mem_run m m'.

Lemma mem_run_keeps {E} m m' : mem_run (E := E) m m' -> wf_memory m -> keeps m m'.
Proof.
  induction 1 as [m|n m m' Hn Hf _ IH|o v m r m1 m' H Hr _ IH|mo d n data m r m1 m' H Hr _ IH
    |dst src n m r m1 m' H Hr _ IH|m m1 m' _ IH1 _ IH2]; intros Hwf.
  - by apply keeps_refl.
  - pose proof (keeps_resize n m Hwf Hn Hf) as Hk. eapply keeps_trans; [exact Hk|]. apply IH, Hk.
  - apply keeps_mem_set in H; [|done..]. eapply keeps_trans; [exact H|]. apply IH, H.
  - apply keeps_set_data in H; [|done..]. eapply keeps_trans; [exact H|]. apply IH, H.
  - apply keeps_mem_copy in H; [|done..]. eapply keeps_trans; [exact H|]. apply IH, H.
  - specialize (IH1 (wf_new_context m Hwf)). apply free_keeps in IH1; [|done]. rewrite IH1 in IH2. by apply IH2.
Qed.

(** ** Theorems *)

(** A context cannot reach the memory of its caller.  Whatever a new context
    does, resizing, writing, copying and calling further contexts, freeing it
    gives back the memory exactly as it was when it was entered. *)
Theorem context_isolated {E} m m' :
  wf_memory m -> mem_run (E := E) (new_context m) m' -> free_context m' = m.
Proof.
  intros Hwf Hrun. apply free_keeps; [done|]. eapply mem_run_keeps; [exact Hrun|]. by apply wf_new_context.
Qed.

(** A word written is the word read.  In bounds, [set_u256] succeeds, the
    word is read back, every byte outside the 32 keeps its value, and the length
    of the memory and the contexts below do not change. *)
Theorem set_then_get_u256 {E} m offset value :
  wf_memory m -> 0 <= offset -> offset + 32 <= mem_len m -> fits 256 value ->
  exists m', set_u256 (E := E) offset value m = (Ok tt, m') /\
    get_u256 (E := E) offset m' = (Ok value, m') /\
    mem_len m' = mem_len m /\ keeps m m' /\
    forall i, 0 <= i < mem_len m -> i < offset \/ offset + 32 <= i ->
      context_memory m' !! Z.to_nat i = context_memory m !! Z.to_nat i.
Proof.
  intros Hwf Ho Hl Hv. rewrite mem_len_context in * by done.
  set (w := to_be_bytes 32 value). assert (Hw : len w = 32) by apply len_to_be_bytes.
  assert (Hlen : len (overwrite offset w (context_memory m)) = len (context_memory m)) by (apply len_overwrite; lia).
  pose proof (keeps_set_context (overwrite offset w) m Hwf Hlen) as Hk.
  exists (set_context (overwrite offset w) m). split.
  { unfold set_u256, mem_set. fold w. destruct w as [|b v] eqn:Heq; [by rewrite len_nil in Hw|].
    rewrite <- Heq in *. apply write_slice_ok; [done|lia|done|lia]. }
  pose proof (context_set_context (overwrite offset w) m Hwf) as Hctx. split.
  { pose proof (len_context m Hwf). pose proof (wf_last_bound m Hwf). pose proof (wm_fits m Hwf).
    unfold get_u256, get_word, mem_slice, mem_slice_range. rewrite wrapping_add_fits by (unfold fits; lia).
    rewrite (M_bind_ok _ _ _ w (set_context (overwrite offset w) m)).
    - unfold w. rewrite from_to_be_bytes_id by exact Hv. done.
    - unfold slice. rewrite Hctx, Hlen. bool_lia.
      replace (offset + 32 - offset) with (len w) by lia. by rewrite read_overwrite by lia. }
  split; [by rewrite (mem_len_context _ (kp_wf _ _ Hk)), Hctx, Hlen|]. split; [done|].
  intros i Hi Hout. rewrite Hctx, lookup_overwrite by lia. rewrite decide_False by lia. done.
Qed.

Lemma lookup_slice (data : bytes) a b i :
  0 <= a -> b <= len data -> 0 <= i < b - a ->
  take (Z.to_nat (b - a)) (drop (Z.to_nat a) data) !! Z.to_nat i = data !! Z.to_nat (a + i).
Proof.
  intros Ha Hb Hi. rewrite lookup_take_lt by lia. rewrite lookup_drop. f_equal. lia.
Qed.

(** Copying data into memory, as CALLDATACOPY and its siblings do.  In bounds
    of the memory, [set_data] succeeds for every offset into the data, even one
    beyond its end: the destination holds the data from the offset on, zeros
    where the data has ended, and every other byte keeps its value. *)
Theorem set_data_spec {E} m memory_offset data_offset n data :
  wf_memory m -> 0 <= memory_offset -> 0 <= n -> memory_offset + n <= mem_len m ->
  0 <= data_offset -> len data < 2 ^ 63 ->
  exists m', set_data (E := E) memory_offset data_offset n data m = (Ok tt, m') /\
    keeps m m' /\ mem_len m' = mem_len m /\
    forall i, 0 <= i < mem_len m ->
      context_memory m' !! Z.to_nat i =
        if decide (memory_offset <= i < memory_offset + n)
        then Some (default 0 (data !! Z.to_nat (data_offset + (i - memory_offset))))
        else context_memory m !! Z.to_nat i.
Proof.
  intros Hwf Hmo Hn Hl Hdo Hdata. rewrite mem_len_context in * by done.
  pose proof (wm_fits m Hwf) as Hfit. pose proof (len_context m Hwf). pose proof (wf_last_bound m Hwf).
  assert (Hz : forall k, 0 <= k -> len (replicate (Z.to_nat k) 0) = k)
    by (intros; unfold len; rewrite length_replicate; lia).
  unfold set_data. destruct (Z.leb_spec (len data) data_offset) as [Hge|Hlt].
  - assert (Hlen : len (overwrite memory_offset (replicate (Z.to_nat n) 0) (context_memory m)) = len (context_memory m))
      by (apply len_overwrite; rewrite ?Hz; lia).
    eexists. split; [apply write_slice_ok; [done|lia|by apply Hz|lia]|].
    pose proof (keeps_set_context _ m Hwf Hlen) as Hk. split; [done|].
    rewrite (mem_len_context _ (kp_wf _ _ Hk)), context_set_context, Hlen by done. split; [done|].
    intros i Hi. rewrite lookup_overwrite by (rewrite ?Hz; lia). rewrite Hz by lia. case_decide; [|done].
    rewrite (lookup_ge_None_2 data) by (unfold len in *; lia). apply lookup_replicate_2. lia.
  - assert (Hstop : wrapping_add 64 data_offset n = data_offset + n) by (apply wrapping_add_fits; unfold fits; lia).
    rewrite Hstop. set (stop := Z.min (data_offset + n) (len data)).
    assert (Hst : data_offset <= stop <= len data /\ stop - data_offset <= n) by (unfold stop; lia).
    unfold usize_sub. bool_lia. set (k := stop - data_offset) in *.
    set (piece := take (Z.to_nat k) (drop (Z.to_nat data_offset) data)).
    assert (Hpl : len piece = k) by (unfold piece; apply len_take; rewrite len_drop; lia).
    erewrite M_bind_ok; [|unfold lift, slice; bool_lia; reflexivity]. fold k piece.
    assert (Hlen1 : len (overwrite memory_offset piece (context_memory m)) = len (context_memory m))
      by (apply len_overwrite; rewrite ?Hpl; lia).
    pose proof (keeps_set_context _ m Hwf Hlen1) as Hk1.
    erewrite M_bind_ok by (apply write_slice_ok; [done|lia|done|lia]).
    set (m1 := set_context (overwrite memory_offset piece) m) in *.
    assert (Hc1 : context_memory m1 = overwrite memory_offset piece (context_memory m)) by by apply context_set_context.
    rewrite (wrapping_add_fits 64 memory_offset k) by (unfold fits; lia).
    assert (Hlen2 : len (overwrite (memory_offset + k) (replicate (Z.to_nat (n - k)) 0) (context_memory m1)) = len (context_memory m1))
      by (apply len_overwrite; rewrite ?Hz, ?Hc1, ?Hlen1; lia).
    eexists. split; [apply write_slice_ok; [apply Hk1|lia|apply Hz; lia|rewrite Hc1, Hlen1; lia]|].
    pose proof (keeps_set_context _ m1 (kp_wf _ _ Hk1) Hlen2) as Hk2. split; [by eapply keeps_trans|].
    rewrite (mem_len_context _ (kp_wf _ _ Hk2)), context_set_context, Hlen2, Hc1, Hlen1 by apply Hk1. split; [done|].
    intros i Hi. rewrite lookup_overwrite by (rewrite ?Hz, ?Hlen1; lia). rewrite Hz by lia.
    rewrite lookup_overwrite by (rewrite ?Hpl; lia). rewrite Hpl.
    destruct (decide (memory_offset <= i < memory_offset + n)).
    + case_decide as Hrest.
      * rewrite (lookup_ge_None_2 data) by (unfold stop, len in *; lia). apply lookup_replicate_2. lia.
      * rewrite decide_True by lia. unfold piece, k. rewrite lookup_slice by lia.
        destruct (lookup_lt_is_Some_2 data (Z.to_nat (data_offset + (i - memory_offset)))) as [v ->]; [|done].
        unfold len in *. lia.
    + rewrite !decide_False by lia. done.
Qed.

(** ** Witnesses *)

Definition sample_memory : SharedMemory := mkSharedMemory (replicate 64 7) [0] 0.

Lemma sample_memory_wf : wf_memory sample_memory.
Proof.
  split; [done| |intros [|i] [|k] c c' Hik Hi Hk; simplify_eq/=; lia|by vm_compute].
  constructor; [|done]. by vm_compute.
Qed.

Lemma context_isolated_witness :
  free_context (resize 32 (new_context sample_memory)) = sample_memory.
Proof.
  apply (context_isolated (E := False) sample_memory); [apply sample_memory_wf|].
  apply (mr_resize 32); [lia|by vm_compute|apply mr_nil].
Defined.

Lemma set_then_get_u256_witness :
  exists m', set_u256 (E := False) 5 1000 sample_memory = (Ok tt, m') /\
    get_u256 (E := False) 5 m' = (Ok 1000, m').
Proof.
  destruct (set_then_get_u256 (E := False) sample_memory 5 1000) as (m' & H1 & H2 & _);
    [apply sample_memory_wf|lia|by vm_compute|by vm_compute|].
  exists m'. split; [exact H1|exact H2].
Defined.

Lemma set_data_spec_witness :
  exists m', set_data (E := False) 2 1 4 [1; 2; 3] sample_memory = (Ok tt, m') /\
    context_memory m' !! 3%nat = Some 3 /\ context_memory m' !! 4%nat = Some 0.
Proof.
  destruct (set_data_spec (E := False) sample_memory 2 1 4 [1; 2; 3]) as (m' & H1 & _ & _ & Hi);
    [apply sample_memory_wf|lia|lia|by vm_compute|lia|by vm_compute|].
  exists m'. split; [exact H1|]. split.
  - apply (Hi 3). split; reflexivity || lia.
  - apply (Hi 4). split; reflexivity || lia.
Defined.
