(* ===== verification/Analysis.v ===== *)
(** Bytecode analysis: the jump destinations of legacy code,
    [crates/interpreter/src/interpreter/analysis.rs].

    The analysis is verified against a reference definition, the positions
    where an instruction starts when the code is read from its beginning. *)

From S2P Require Import Prelude Bytes Eof Bytecode.

Definition JUMPDEST : Z := 0x5B.
Definition PUSH1 : Z := 0x60.

(** The loop of [analyze]; the iterator is an offset from the start.  One unit
    of fuel is one iteration, and every iteration advances. *)
Fixpoint analyze_loop (fuel : nat) (code : bytes) (iterator : nat) (jumps : list bool) : list bool :=
  match fuel with
  | O => jumps
  | S fuel =>
      match code !! iterator with
      | None => jumps
      | Some opcode =>
          if opcode =? JUMPDEST
          then analyze_loop fuel code (iterator + 1) (<[iterator := true]> jumps)
          else
            let push_offset := wrapping_sub 8 opcode PUSH1 in
            if push_offset <? 32
            then analyze_loop fuel code (iterator + Z.to_nat (push_offset + 2)) jumps
            else analyze_loop fuel code (iterator + 1) jumps
      end
  end.

Definition analyze (code : bytes) : JumpTable :=
  analyze_loop (S (length code)) code 0 (replicate (length code) false).

Definition to_analysed (c : Bytecode) : Bytecode :=
  match c with
  | LegacyRaw code =>
      let padded_bytecode := code ++ replicate 33 0 in
      LegacyAnalyzed (mkLegacyAnalyzed padded_bytecode (len code) (analyze padded_bytecode))
  | n => n
  end.

(** ** Where instructions start *)

(** A push carries its immediate bytes. *)
Definition instruction_len (opcode : Z) : nat :=
  if (0x60 <=? opcode) && (opcode <=? 0x7F) then Z.to_nat (opcode - 0x60 + 2) else 1%nat.

Definition next_instruction (code : bytes) (i j : nat) : Prop :=
  exists opcode, code !! i = Some opcode /\ j = (i + instruction_len opcode)%nat.
Definition instruction_start (code : bytes) : nat -> Prop := rtc (next_instruction code) 0%nat.

Lemma instruction_len_pos opcode : (1 <= instruction_len opcode)%nat.
Proof. unfold instruction_len. destruct (Z.leb_spec 0x60 opcode); [case_match|]; simpl; lia. Qed.

Lemma push_offset_len opcode :
  is_byte opcode ->
  instruction_len opcode =
    if wrapping_sub 8 opcode PUSH1 <? 32 then Z.to_nat (wrapping_sub 8 opcode PUSH1 + 2) else 1%nat.
Proof.
  intros [H0 H1]. unfold instruction_len, wrapping_sub, PUSH1. change (2 ^ 8) with 256.
  destruct (Z.leb_spec 0x60 opcode).
  - rewrite Z.mod_small by lia. destruct (Z.leb_spec opcode 0x7F); bool_lia; done.
  - replace ((opcode - 96) mod 256) with (opcode + 160) by (apply (Z.mod_unique _ _ (-1)); lia).
    bool_lia. done.
Qed.

(** The next instruction is unique, and reading on never comes back. *)
Lemma reach_inv code i k opcode :
  code !! i = Some opcode ->
  rtc (next_instruction code) i k <->
  k = i \/ rtc (next_instruction code) (i + instruction_len opcode)%nat k.
Proof.
  intros Hi. split.
  - intros H. apply rtc_inv in H as [->|(j & (op & Ho & ->) & H)]; [by left|].
    simplify_eq. by right.
  - intros [->|H]; [done|]. eapply rtc_l; [|done]. by exists opcode.
Qed.

Lemma reach_end code i k : code !! i = None -> rtc (next_instruction code) i k -> k = i.
Proof. intros Hi H. apply rtc_inv in H as [->|(j & (op & Ho & ->) & H)]; congruence. Qed.

Lemma reach_le code i k : rtc (next_instruction code) i k -> (i <= k)%nat.
Proof.
  induction 1 as [|i j k (op & _ & ->) _ IH]; [done|]. pose proof (instruction_len_pos op). lia.
Qed.

(** ** The analysis *)

Lemma analyze_loop_spec fuel code i jumps k :
  Forall is_byte code -> length jumps = length code -> (length code < i + fuel)%nat ->
  analyze_loop fuel code i jumps !! k = Some true <->
  jumps !! k = Some true \/ (rtc (next_instruction code) i k /\ code !! k = Some JUMPDEST).
Proof.
  intros Hb. revert i jumps. induction fuel as [|fuel IH]; intros i jumps Hl Hf; cbn [analyze_loop].
  { split; [by left|]. intros [H|[H Hk]]; [done|]. apply reach_le in H.
    apply lookup_lt_Some in Hk. lia. }
  destruct (code !! i) as [opcode|] eqn:Hi.
  2: { split; [by left|]. intros [H|[H Hk]]; [done|]. apply reach_end in H; congruence. }
  rewrite (reach_inv code i k opcode Hi).
  pose proof (lookup_lt_Some _ _ _ Hi). pose proof (instruction_len_pos opcode).
  destruct (Z.eqb_spec opcode JUMPDEST) as [->|Hne].
  - rewrite IH by (rewrite ?length_insert; lia).
    change (i + instruction_len JUMPDEST)%nat with (i + 1)%nat.
    destruct (decide (k = i)) as [->|Hk].
    + rewrite list_lookup_insert_eq by lia. tauto.
    + rewrite list_lookup_insert_ne by done. tauto.
  - assert (Hki : (k = i -> code !! k = Some JUMPDEST -> False)) by (intros ->; congruence).
    rewrite push_offset_len in * by by eapply Forall_lookup_1.
    destruct (_ <? 32); rewrite IH by lia; tauto.
Qed.

Lemma analyze_loop_length fuel code i jumps : length (analyze_loop fuel code i jumps) = length jumps.
Proof.
  revert i jumps. induction fuel as [|fuel IH]; intros i jumps; cbn [analyze_loop]; [done|].
  repeat case_match; rewrite ?IH, ?length_insert; done.
Qed.

Lemma analyze_spec code k :
  Forall is_byte code ->
  analyze code !! k = Some true <-> instruction_start code k /\ code !! k = Some JUMPDEST.
Proof.
  intros Hb. unfold analyze. rewrite analyze_loop_spec by (done || rewrite ?length_replicate; lia).
  split; [|by right]. intros [H|H]; [|done]. apply lookup_replicate in H as [? _]. done.
Qed.

(** Appending bytes to a code does not move its instructions. *)
Lemma reach_app code rest i k :
  (k <= length code)%nat ->
  rtc (next_instruction (code ++ rest)) i k <-> rtc (next_instruction code) i k.
Proof.
  intros Hk. split; intros H.
  - revert Hk. induction H as [|i j k (op & Ho & ->) H IH]; [done|]. intros Hk.
    pose proof (reach_le _ _ _ H). pose proof (instruction_len_pos op).
    rewrite lookup_app_l in Ho by lia. eapply rtc_l; [by exists op|auto].
  - induction H as [|i j k (op & Ho & ->) H IH]; [done|].
    eapply rtc_l; [|auto]. exists op. split; [|done].
    by apply lookup_app_l_Some.
Qed.

(** The table of an analysed code: a position is a valid jump destination
    exactly when an instruction of the original code starts there and is a
    JUMPDEST. *)
Lemma to_analysed_jumps code pc :
  Forall is_byte code -> 0 <= pc ->
  is_valid_jump (analyze (code ++ replicate 33 0)) pc = true <->
  instruction_start code (Z.to_nat pc) /\ code !! Z.to_nat pc = Some JUMPDEST.
Proof.
  intros Hb Hpc. rewrite is_valid_jump_spec by done.
  rewrite analyze_spec by (apply Forall_app; split; [done|by apply Forall_replicate]).
  destruct (decide (Z.to_nat pc < length code)%nat) as [Hlt|Hge].
  - unfold instruction_start. rewrite reach_app by lia. by rewrite lookup_app_l by done.
  - split; intros [_ H].
    + rewrite lookup_app_r in H by lia. apply lookup_replicate in H as [? _]. done.
    + apply lookup_lt_Some in H. lia.
Qed.

(** Analysing keeps the code and its hash. *)
Lemma original_to_analysed code : original_byte_slice (to_analysed (new_raw code)) = code.
Proof.
  simpl. unfold LegacyAnalyzed_original_bytes. cbn [original_len analyzed_bytecode].
  by rewrite take_app_length' by (unfold len; lia).
Qed.

Lemma hash_to_analysed `{Keccak} code : hash_slow (to_analysed (new_raw code)) = hash_slow (new_raw code).
Proof. unfold hash_slow. by rewrite original_to_analysed. Qed.

(** ** Theorems *)

(** C37: the jump table is right.  Analysing a raw code keeps its bytes, its
    length and its hash, adds 33 zero bytes that no push can reach over, and
    marks as a jump destination exactly the positions of the original code
    where an instruction starts and is a JUMPDEST; analysing again changes
    nothing. *)
Theorem jump_table_correct `{Keccak} code :
  Forall is_byte code ->
  exists a, to_analysed (new_raw code) = LegacyAnalyzed a /\
    LegacyAnalyzed_original_bytes a = code /\
    hash_slow (LegacyAnalyzed a) = hash_slow (new_raw code) /\
    (forall pc opcode, instruction_start code pc -> code !! pc = Some opcode ->
       (pc + instruction_len opcode < length (analyzed_bytecode a))%nat) /\
    (forall pc, 0 <= pc ->
       is_valid_jump (jump_table a) pc = true <->
       instruction_start code (Z.to_nat pc) /\ code !! Z.to_nat pc = Some JUMPDEST) /\
    to_analysed (LegacyAnalyzed a) = LegacyAnalyzed a.
Proof.
  intros Hb. eexists. split; [reflexivity|].
  split_and!; [apply (original_to_analysed code)|apply (hash_to_analysed code)|..|done].
  - intros pc opcode _ Hpc. apply lookup_lt_Some in Hpc. cbn [analyzed_bytecode].
    rewrite length_app, length_replicate. unfold instruction_len. case_match; lia.
  - intros pc Hpc. by apply to_analysed_jumps.
Qed.

(** PUSH2 with a JUMPDEST byte in its immediate, then a JUMPDEST. *)
Lemma jump_table_correct_witness :
  let t := analyze ([0x61; 0x5B; 0x5B; 0x5B] ++ replicate 33 0) in
  is_valid_jump t 1 = false /\ is_valid_jump t 3 = true.
Proof.
  destruct (jump_table_correct (H := sample_keccak) [0x61; 0x5B; 0x5B; 0x5B])
    as (a & Ha & _ & _ & _ & Hj & _).
  { repeat constructor; done. }
  injection Ha as <-. cbn [jump_table] in Hj. split.
  - vm_compute. reflexivity.
  - apply Hj; [done|]. split; [|reflexivity].
    eapply rtc_l; [exists 0x61; split; reflexivity|]. apply rtc_refl.
Defined.
