(* ===== verification/Env.v ===== *)
(** The environment of a transaction and its validation:
    [crates/primitives/src/env.rs] (default features, where every check that a
    feature could disable is on). *)

From S2P Require Import Prelude Specification Bytes Eof Bytecode State Result InstructionResult.
From S2P Require Import Database Journal Gas.

Definition MAX_CODE_SIZE : Z := 0x6000.
Definition MAX_INITCODE_SIZE : Z := 2 * MAX_CODE_SIZE.
Definition BLOCK_HASH_HISTORY : Z := 256.
Definition BLOCKHASH_STORAGE_ADDRESS : Address := 0x25a219378dad9b3503c8268c9ca836a52427a4fb.
Definition VERSIONED_HASH_VERSION_KZG : Z := 1.

Inductive AnalysisKind : Type := AK_Raw | AK_Analyse.

Record CfgEnv : Type := mkCfgEnv {
  cfg_chain_id : Z;
  perf_analyse_created_bytecodes : AnalysisKind;
  limit_contract_code_size : option Z;
}.

Definition CfgEnv_default : CfgEnv := mkCfgEnv 706 AK_Analyse None.
Definition with_chain_id (chain_id : Z) (c : CfgEnv) : CfgEnv :=
  mkCfgEnv chain_id (perf_analyse_created_bytecodes c) (limit_contract_code_size c).

(** The checks that only optional features disable. *)
Definition is_eip3607_disabled (c : CfgEnv) : bool := false.
Definition is_balance_check_disabled (c : CfgEnv) : bool := false.
Definition is_gas_refund_disabled (c : CfgEnv) : bool := false.
Definition is_base_fee_check_disabled (c : CfgEnv) : bool := false.
Definition is_block_gas_limit_disabled (c : CfgEnv) : bool := false.
Definition is_beneficiary_reward_disabled (c : CfgEnv) : bool := false.

Record BlobExcessGasAndPrice : Type := mkBlobExcess { excess_blob_gas : Z; blob_gasprice : Z }.

(** [BlobExcessGasAndPrice::new], with the fuel of the price. *)
Definition BlobExcessGasAndPrice_new {E} (fuel : nat) (excess : Z)
  : outcome E (option BlobExcessGasAndPrice) :=
  price ← calc_blob_gasprice fuel excess;
  Ok (mkBlobExcess excess <$> (price : option Z)).

Record BlockEnv : Type := mkBlockEnv {
  block_number : Z;
  coinbase : Address;
  timestamp : Z;
  block_gas_limit : Z;
  basefee : Z;
  difficulty : Z;
  prevrandao : option Z;
  blob_excess_gas_and_price : option BlobExcessGasAndPrice;
  block_transferred_tokens : list TokenTransfer;
}.

Definition BlockEnv_default : BlockEnv :=
  mkBlockEnv 0 0 1 U256_MAX 0 0 (Some 0) (Some (mkBlobExcess 0 1)) [].
Definition get_blob_gasprice (b : BlockEnv) : option Z :=
  blob_gasprice <$> blob_excess_gas_and_price b.
Definition get_blob_excess_gas (b : BlockEnv) : option Z :=
  excess_blob_gas <$> blob_excess_gas_and_price b.

Inductive TransactTo : Type := TT_Call (a : Address) | TT_Create.
Definition TT_is_call (t : TransactTo) : bool := match t with TT_Call _ => true | _ => false end.
Definition TT_is_create (t : TransactTo) : bool := match t with TT_Create => true | _ => false end.

Record TxEnv : Type := mkTxEnv {
  tx_caller : Address;
  tx_gas_limit : Z;
  gas_price : Z;
  transact_to : TransactTo;
  tx_data : bytes;
  tx_nonce : option Z;
  tx_chain_id : option Z;
  access_list : list (Address * list Z);
  gas_priority_fee : option Z;
  blob_hashes : list Z;
  max_fee_per_blob_gas : option Z;
  transferred_tokens : list TokenTransfer;
}.

Definition TxEnv_default : TxEnv :=
  mkTxEnv 0 U64_MAX 0 (TT_Call 0) [] None None [] None [] None [].

Definition get_total_blob_gas (t : TxEnv) : Z := wrapping_mul 64 GAS_PER_BLOB (len (blob_hashes t)).

Definition get_base_transfer_value (t : TxEnv) : Z :=
  match transferred_tokens t with
  | [] => 0
  | tokens =>
      match list_find (fun token => transfer_id token = BASE_TOKEN_ID) tokens with
      | Some (_, token) => transfer_amount token
      | None => 0
      end
  end.

Record Env : Type := mkEnv { cfg : CfgEnv; block : BlockEnv; tx : TxEnv }.

Definition Env_default : Env := mkEnv CfgEnv_default BlockEnv_default TxEnv_default.

(** The sum of two [U256] wraps. *)
Definition effective_gas_price (e : Env) : Z :=
  match gas_priority_fee (tx e) with
  | Some priority_fee => Z.min (gas_price (tx e)) (wrapping_add 256 (basefee (block e)) priority_fee)
  | None => gas_price (tx e)
  end.

Definition calc_data_fee (e : Env) : option Z :=
  (fun price => saturating_mul 256 price (get_total_blob_gas (tx e))) <$> get_blob_gasprice (block e).

Definition calc_max_data_fee (e : Env) : option Z :=
  (fun fee => saturating_mul 256 fee (get_total_blob_gas (tx e))) <$> max_fee_per_blob_gas (tx e).

(** ** Validation *)

Definition is_none {A} (o : option A) : bool := match o with None => true | Some _ => false end.

(** [if cond { return Err(e) }]. *)
Definition ensure {E} (cond : bool) (e : E) : outcome E unit := if cond then Err e else Ok tt.

Definition validate_block_env (spec : SpecId) (e : Env) : outcome InvalidHeader unit :=
  _ ← ensure (enabled spec MERGE && is_none (prevrandao (block e))) PrevrandaoNotSet;
  _ ← ensure (enabled spec CANCUN && is_none (blob_excess_gas_and_price (block e))) ExcessBlobGasNotSet;
  Ok tt.

(** The first byte of a [B256]. *)
Definition first_byte (h : Z) : Z := h / 2 ^ 248.

(** The blob checks, from Cancun on. *)
Definition validate_blobs (e : Env) : outcome InvalidTransaction unit :=
  match max_fee_per_blob_gas (tx e) with
  | None => Ok tt
  | Some max =>
      price ← unwrap (get_blob_gasprice (block e));
      _ ← ensure (max <? price) BlobGasPriceGreaterThanMax;
      _ ← ensure (len (blob_hashes (tx e)) =? 0) EmptyBlobs;
      _ ← ensure (TT_is_create (transact_to (tx e))) BlobCreateTransaction;
      _ ← ensure (existsb (fun blob => negb (first_byte blob =? VERSIONED_HASH_VERSION_KZG))
                    (blob_hashes (tx e))) BlobVersionNotSupported;
      let num_blobs := len (blob_hashes (tx e)) in
      ensure (MAX_BLOB_NUMBER_PER_BLOCK <? num_blobs) (TooManyBlobs MAX_BLOB_NUMBER_PER_BLOCK num_blobs)
  end.

Definition validate_tx (spec : SpecId) (e : Env) : outcome InvalidTransaction unit :=
  _ ← (if enabled spec LONDON then
         _ ← match gas_priority_fee (tx e) with
             | Some priority_fee => ensure (gas_price (tx e) <? priority_fee) PriorityFeeGreaterThanMaxFee
             | None => Ok tt
             end;
         ensure (negb (is_base_fee_check_disabled (cfg e)) && (effective_gas_price e <? basefee (block e)))
           GasPriceLessThanBasefee
       else Ok tt);
  _ ← ensure (negb (is_block_gas_limit_disabled (cfg e)) && (block_gas_limit (block e) <? tx_gas_limit (tx e)))
        CallerGasLimitMoreThanBlock;
  _ ← (if enabled spec SHANGHAI && TT_is_create (transact_to (tx e)) then
         let max_initcode_size :=
           match limit_contract_code_size (cfg e) with
           | Some limit => saturating_mul 64 limit 2
           | None => MAX_INITCODE_SIZE
           end in
         ensure (max_initcode_size <? len (tx_data (tx e))) CreateInitCodeSizeLimit
       else Ok tt);
  _ ← match tx_chain_id (tx e) with
      | Some tx_chain_id => ensure (negb (tx_chain_id =? cfg_chain_id (cfg e))) InvalidChainId
      | None => Ok tt
      end;
  _ ← ensure (negb (enabled spec BERLIN) && negb (len (access_list (tx e)) =? 0)) AccessListNotSupported;
  _ ← (if enabled spec CANCUN then validate_blobs e
       else
         _ ← ensure (negb (len (blob_hashes (tx e)) =? 0)) BlobVersionedHashesNotSupported;
         ensure (negb (is_none (max_fee_per_blob_gas (tx e)))) MaxFeePerBlobGasNotSupported);
  ensure (negb (len (transferred_tokens (tx e)) =? 0)
          && negb (bool_decide (NoDup (transfer_id <$> transferred_tokens (tx e))))) TokenIdsNotUnique.

(** The loop over the tokens other than the base token. *)
Fixpoint check_token_balances (account : Account) (tokens : list TokenTransfer)
  : outcome InvalidTransaction unit :=
  match tokens with
  | [] => Ok tt
  | t :: rest =>
      if transfer_id t =? BASE_TOKEN_ID then check_token_balances account rest
      else
        let token_balance := get_balance (info account) (transfer_id t) in
        if transfer_amount t <=? token_balance then check_token_balances account rest
        else Err (NotEnoughTokenBalanceForTransfer (transfer_id t) (transfer_amount t) token_balance)
  end.

(** The base balance a transaction needs: gas, value and, from Cancun on, blobs. *)
Definition required_base_balance (spec : SpecId) (e : Env) : outcome InvalidTransaction Z :=
  let required :=
    c ← checked_mul 256 (tx_gas_limit (tx e)) (gas_price (tx e));
    checked_add 256 c (get_base_transfer_value (tx e)) in
  required ← ok_or OverflowPaymentInTransaction required;
  if enabled spec CANCUN
  then ok_or OverflowPaymentInTransaction (checked_add 256 required (default 0 (calc_max_data_fee e)))
  else Ok required.

(** The account as the check leaves it. *)
Definition validate_tx_against_state (spec : SpecId) (e : Env) (account : Account)
  : outcome InvalidTransaction Account :=
  _ ← ensure (negb (is_eip3607_disabled (cfg e)) && negb (code_hash (info account) =? KECCAK_EMPTY))
        RejectCallerWithCode;
  _ ← match tx_nonce (tx e) with
      | Some n =>
          let state := nonce (info account) in
          _ ← ensure (state <? n) (NonceTooHigh n state);
          ensure (n <? state) (NonceTooLow n state)
      | None => Ok tt
      end;
  required ← required_base_balance spec e;
  let base_token_balance := get_base_balance (info account) in
  account ←
    (if base_token_balance <? required then
       if is_balance_check_disabled (cfg e)
       then Ok (set_info (set_base_balance required) account)
       else Err (LackOfFundForMaxFee required base_token_balance)
     else Ok account);
  _ ← check_token_balances account (transferred_tokens (tx e));
  Ok account.

(** ** Lemmas *)

Lemma ensure_Ok {E} cond (e : E) : ensure cond e = Ok tt <-> cond = false.
Proof. destruct cond; simpl; split; congruence. Qed.

Lemma check_token_balances_Ok account tokens :
  check_token_balances account tokens = Ok tt ->
  Forall (fun t => transfer_id t <> BASE_TOKEN_ID ->
    transfer_amount t <= get_balance (info account) (transfer_id t)) tokens.
Proof.
  induction tokens as [|t rest IH]; [constructor|]. cbn [check_token_balances].
  destruct (Z.eqb_spec (transfer_id t) BASE_TOKEN_ID) as [He|Hne].
  { intros H. constructor; [by intros []|auto]. }
  destruct (Z.leb_spec (transfer_amount t) (get_balance (info account) (transfer_id t))) as [Hle|]; [|done].
  intros H. constructor; auto.
Qed.
