(* ===== verification/Interpreter.v ===== *)
(** The interpreter: [crates/interpreter/src/interpreter.rs],
    [interpreter/contract.rs], [function_stack.rs], [interpreter_action.rs] with
    the files of [interpreter_action/], and the macros of
    [instructions/macros.rs].

    The instruction pointer is an offset into the bytecode.  An instruction is a
    computation on the interpreter whose error is the [instruction_result] it
    sets before returning early; [settle] stores it. *)

From S2P Require Import Prelude Specification Bytes Eof Bytecode State Result InstructionResult.
From S2P Require Import Database Journal CallInputs Gas Stack SharedMemory Analysis.

(** ** Contracts *)

Record Contract : Type := mkContract {
  c_input : bytes;
  c_bytecode : Bytecode;
  c_hash : option Z;
  c_target_address : Address;
  c_caller : Address;
  c_call_values : list TokenTransfer;
}.

Definition Contract_new (input : bytes) (bytecode : Bytecode) (hash : option Z)
  (target_address caller : Address) (call_values : list TokenTransfer) : Contract :=
  mkContract input (to_analysed bytecode) hash target_address caller call_values.

Definition Contract_new_with_context (input : bytes) (bytecode : Bytecode) (hash : option Z)
  (call_context : CallInputs) : Contract :=
  Contract_new input bytecode hash (target_address call_context) (ci_caller call_context)
    (call_values call_context).

Definition Contract_is_valid_jump (c : Contract) (pos : Z) : bool :=
  match legacy_jump_table (c_bytecode c) with Some t => is_valid_jump t pos | None => false end.

(** ** The function stack of EOF code *)

Record FunctionReturnFrame : Type := mkFunctionReturnFrame { frame_idx : Z; frame_pc : Z }.

Record FunctionStack : Type := mkFunctionStack {
  return_stack : list FunctionReturnFrame;
  current_code_idx : Z;
}.

Definition FunctionStack_new : FunctionStack := mkFunctionStack [] 0.
Definition fs_push (program_counter new_idx : Z) (s : FunctionStack) : FunctionStack :=
  mkFunctionStack (return_stack s ++ [mkFunctionReturnFrame (current_code_idx s) program_counter])
    new_idx.
Definition return_stack_len (s : FunctionStack) : Z := len (return_stack s).
Definition fs_pop (s : FunctionStack) : option FunctionReturnFrame * FunctionStack :=
  match last (return_stack s) with
  | None => (None, s)
  | Some f =>
      (Some f, mkFunctionStack (take (length (return_stack s) - 1) (return_stack s)) (frame_idx f))
  end.
Definition set_current_code_idx (idx : Z) (s : FunctionStack) : FunctionStack :=
  mkFunctionStack (return_stack s) idx.

(** ** Results, outcomes and actions *)

Record InterpreterResult : Type := mkInterpreterResult {
  ir_result : InstructionResult;
  ir_output : bytes;
  ir_gas : Gas;
}.

Definition InterpreterResult_is_ok (r : InterpreterResult) : bool := IR_is_ok (ir_result r).
Definition InterpreterResult_is_revert (r : InterpreterResult) : bool := IR_is_revert (ir_result r).
Definition InterpreterResult_is_error (r : InterpreterResult) : bool := IR_is_error (ir_result r).

(** [CallInfo] and the [ResultOrNewCall] of this file. *)
Record CallInfo : Type := mkCallInfo {
  cinfo_target_address : Address;
  cinfo_call_values : CallValues;
  cinfo_input_data : bytes;
}.
Inductive ResultOrCallInfo : Type :=
  | RC_Result (r : InterpreterResult)
  | RC_NewCall (c : CallInfo).

Inductive CreateScheme : Type := Create | Create2 (salt : Z).

Record CreateInputs : Type := mkCreateInputs {
  cr_caller : Address;
  cr_scheme : CreateScheme;
  cr_value : Z;
  cr_init_code : bytes;
  cr_gas_limit : Z;
}.

Record EOFCreateInput : Type := mkEOFCreateInput {
  ec_caller : Address;
  ec_created_address : Address;
  ec_value : Z;
  ec_eof_init_code : Eof;
  ec_gas_limit : Z;
  ec_return_memory_range : Z * Z;
}.

Record CallOutcome : Type := mkCallOutcome { co_result : InterpreterResult; memory_offset : Z * Z }.
Definition memory_start (o : CallOutcome) : Z := (memory_offset o).1.
(** [Range::len]. *)
Definition range_len (r : Z * Z) : Z := Z.max (r.2 - r.1) 0.
Definition memory_length (o : CallOutcome) : Z := range_len (memory_offset o).

Record CreateOutcome : Type := mkCreateOutcome {
  cro_result : InterpreterResult;
  cro_address : option Address;
}.
Record EOFCreateOutcome : Type := mkEOFCreateOutcome {
  eco_result : InterpreterResult;
  eco_address : Address;
  eco_return_memory_range : Z * Z;
}.

Inductive InterpreterAction : Type :=
  | IA_Call (inputs : CallInputs)
  | IA_Create (inputs : CreateInputs)
  | IA_EOFCreate (inputs : EOFCreateInput)
  | IA_Return (result : InterpreterResult)
  | IA_None.

Definition IA_is_call (a : InterpreterAction) : bool := match a with IA_Call _ => true | _ => false end.
Definition IA_is_create (a : InterpreterAction) : bool :=
  match a with IA_Create _ => true | _ => false end.
Definition IA_is_return (a : InterpreterAction) : bool :=
  match a with IA_Return _ => true | _ => false end.
Definition IA_is_none (a : InterpreterAction) : bool := match a with IA_None => true | _ => false end.
Definition IA_is_some (a : InterpreterAction) : bool := negb (IA_is_none a).
Definition into_result_return (a : InterpreterAction) : option InterpreterResult :=
  match a with IA_Return r => Some r | _ => None end.

(** ** The interpreter *)

Record Interpreter : Type := mkInterpreter {
  instruction_pointer : Z;
  in_gas : Gas;
  contract : Contract;
  instruction_result : InstructionResult;
  in_bytecode : bytes;
  in_is_eof : bool;
  is_eof_init : bool;
  shared_memory : SharedMemory;
  stack : Stack;
  function_stack : FunctionStack;
  return_data_buffer : bytes;
  in_is_static : bool;
  next_action : InterpreterAction;
}.

Definition set_pc (v : Z) (i : Interpreter) : Interpreter :=
  mkInterpreter v (in_gas i) (contract i) (instruction_result i) (in_bytecode i) (in_is_eof i)
    (is_eof_init i) (shared_memory i) (stack i) (function_stack i) (return_data_buffer i)
    (in_is_static i) (next_action i).
Definition set_gas (v : Gas) (i : Interpreter) : Interpreter :=
  mkInterpreter (instruction_pointer i) v (contract i) (instruction_result i) (in_bytecode i)
    (in_is_eof i) (is_eof_init i) (shared_memory i) (stack i) (function_stack i)
    (return_data_buffer i) (in_is_static i) (next_action i).
Definition set_result (v : InstructionResult) (i : Interpreter) : Interpreter :=
  mkInterpreter (instruction_pointer i) (in_gas i) (contract i) v (in_bytecode i) (in_is_eof i)
    (is_eof_init i) (shared_memory i) (stack i) (function_stack i) (return_data_buffer i)
    (in_is_static i) (next_action i).
Definition set_bytecode (v : bytes) (i : Interpreter) : Interpreter :=
  mkInterpreter (instruction_pointer i) (in_gas i) (contract i) (instruction_result i) v (in_is_eof i)
    (is_eof_init i) (shared_memory i) (stack i) (function_stack i) (return_data_buffer i)
    (in_is_static i) (next_action i).
Definition set_is_eof_init (i : Interpreter) : Interpreter :=
  mkInterpreter (instruction_pointer i) (in_gas i) (contract i) (instruction_result i) (in_bytecode i)
    (in_is_eof i) true (shared_memory i) (stack i) (function_stack i) (return_data_buffer i)
    (in_is_static i) (next_action i).
Definition set_memory (v : SharedMemory) (i : Interpreter) : Interpreter :=
  mkInterpreter (instruction_pointer i) (in_gas i) (contract i) (instruction_result i) (in_bytecode i)
    (in_is_eof i) (is_eof_init i) v (stack i) (function_stack i) (return_data_buffer i)
    (in_is_static i) (next_action i).
Definition set_stack (v : Stack) (i : Interpreter) : Interpreter :=
  mkInterpreter (instruction_pointer i) (in_gas i) (contract i) (instruction_result i) (in_bytecode i)
    (in_is_eof i) (is_eof_init i) (shared_memory i) v (function_stack i) (return_data_buffer i)
    (in_is_static i) (next_action i).
Definition set_function_stack (v : FunctionStack) (i : Interpreter) : Interpreter :=
  mkInterpreter (instruction_pointer i) (in_gas i) (contract i) (instruction_result i) (in_bytecode i)
    (in_is_eof i) (is_eof_init i) (shared_memory i) (stack i) v (return_data_buffer i)
    (in_is_static i) (next_action i).
Definition set_return_data (v : bytes) (i : Interpreter) : Interpreter :=
  mkInterpreter (instruction_pointer i) (in_gas i) (contract i) (instruction_result i) (in_bytecode i)
    (in_is_eof i) (is_eof_init i) (shared_memory i) (stack i) (function_stack i) v
    (in_is_static i) (next_action i).
Definition set_next_action (v : InterpreterAction) (i : Interpreter) : Interpreter :=
  mkInterpreter (instruction_pointer i) (in_gas i) (contract i) (instruction_result i) (in_bytecode i)
    (in_is_eof i) (is_eof_init i) (shared_memory i) (stack i) (function_stack i)
    (return_data_buffer i) (in_is_static i) v.

(** [Interpreter::new]; it panics on a code that is not analysed. *)
Definition Interpreter_new {E} (c : Contract) (gas_limit : Z) (is_static : bool)
  : outcome E Interpreter :=
  if negb (is_execution_ready (c_bytecode c)) then Panic
  else
    let is_eof := is_eof (c_bytecode c) in
    bytecode ← unwrap (Bytecode_bytecode (c_bytecode c));
    Ok (mkInterpreter 0 (Gas_new gas_limit) c IR_Continue bytecode is_eof false
          EMPTY_SHARED_MEMORY Stack_new FunctionStack_new [] is_static IA_None).

Definition program_counter (i : Interpreter) : Z := instruction_pointer i.
Definition in_eof (i : Interpreter) : option Eof := Bytecode_eof (c_bytecode (contract i)).

(** ** Instructions as computations *)

Abbreviation IM := (M Interpreter InstructionResult).

(** Store the error of an instruction that returned early. *)
Definition settle (m : IM unit) : M Interpreter Empty_set unit := fun i =>
  match m i with
  | (Ok _, i') => (Ok tt, i')
  | (Err e, i') => (Ok tt, set_result e i')
  | (Panic, i') => (Panic, i')
  end.

Definition on_stack {A} : SM A -> IM A := zoom stack set_stack.
Definition on_memory {A} : M SharedMemory InstructionResult A -> IM A := zoom shared_memory set_memory.

(** *** The macros *)

Definition require_non_staticcall : IM unit := fun i =>
  if in_is_static i then (Err IR_StateChangeDuringStaticCall, i) else (Ok tt, i).
Definition require_eof : IM unit := fun i =>
  if negb (in_is_eof i) then (Err IR_EOFOpcodeDisabledInLegacy, i) else (Ok tt, i).
Definition require_init_eof : IM unit := fun i =>
  if negb (is_eof_init i) then (Err IR_ReturnContractInNotInitEOF, i) else (Ok tt, i).
(** [check!], with the hard fork of the generic [SPEC]. *)
Definition check (spec min : SpecId) : IM unit :=
  if negb (enabled spec min) then fail IR_NotActivated else mret tt.

Definition gas (cost : Z) : IM unit := fun i =>
  let '(ok, g) := record_cost cost (in_gas i) in
  (if ok : bool then Ok tt else Err IR_OutOfGas, set_gas g i).
Definition refund (r : Z) : IM unit := modify (fun i => set_gas (record_refund r (in_gas i)) i).
Definition gas_or_fail (cost : option Z) : IM unit :=
  match cost with Some gas_used => gas gas_used | None => fail IR_OutOfGas end.

(** The length check of the popping macros. *)
Definition require_stack (n : Z) : IM unit := fun i =>
  if len (stack i) <? n then (Err IR_StackUnderflow, i) else (Ok tt, i).
Definition pop1 : IM Z := _ ← require_stack 1; on_stack pop_unsafe.
Definition pop2 : IM (Z * Z) := _ ← require_stack 2; on_stack pop2_unsafe.
Definition pop3 : IM (Z * Z * Z) := _ ← require_stack 3; on_stack pop3_unsafe.
Definition pop4 : IM (Z * Z * Z * Z) := _ ← require_stack 4; on_stack pop4_unsafe.
(** [Address::from_word]: the last 20 bytes. *)
Definition address_from_word (w : Z) : Address := cast 160 w.
Definition pop_address : IM Address := w ← pop1; mret (address_from_word w).
Definition top1 : IM Z := _ ← require_stack 1; on_stack top_unsafe.
Definition pop_top2 : IM (Z * Z) := _ ← require_stack 2; on_stack pop_top_unsafe.
Definition pop_top3 : IM (Z * Z * Z) := _ ← require_stack 3; on_stack pop2_top_unsafe.
Definition set_top (v : Z) : IM unit := on_stack (set_top_unsafe v).
Definition push_value (v : Z) : IM unit := on_stack (push v).

(** The conversions look at the limbs, and keep the lowest. *)
Definition as_u64_saturated (v : Z) : Z := if v <? 2 ^ 64 then cast 64 v else U64_MAX.
Definition as_usize_saturated (v : Z) : Z := as_u64_saturated v.
Definition as_isize_saturated (v : Z) : Z := Z.min (as_u64_saturated v) (2 ^ 63 - 1).
Definition as_usize_or_fail_with (reason : InstructionResult) (v : Z) : IM Z :=
  if 2 ^ 64 <=? v then fail reason else mret (cast 64 v).
Definition as_usize_or_fail (v : Z) : IM Z := as_usize_or_fail_with IR_InvalidOperandOOG v.

(** *** Memory *)

Definition current_expansion_cost (m : SharedMemory) : Z := memory_gas_for_len (mem_len m).

(** The function [resize_memory], and the macro of that name. *)
Definition resize_memory (new_size : Z) (m : SharedMemory) (g : Gas) : bool * SharedMemory * Gas :=
  let new_words := num_words new_size in
  let cost := wrapping_sub 64 (memory_gas new_words) (current_expansion_cost m) in
  let '(success, g) := record_cost cost g in
  (success, if success : bool then resize (wrapping_mul 64 new_words 32) m else m, g).
Definition resize_memory_to (offset length : Z) : IM unit := fun i =>
  let new_size := saturating_add 64 offset length in
  if mem_len (shared_memory i) <? new_size then
    let '(success, m, g) := resize_memory new_size (shared_memory i) (in_gas i) in
    (if success : bool then Ok tt else Err IR_MemoryOOG, set_gas g (set_memory m i))
  else (Ok tt, i).

(** ** Results of sub-calls *)

Definition erase (g : Gas) : IM unit :=
  modify (fun i => set_gas (erase_cost (remaining g) (in_gas i)) i).

Definition insert_create_outcome (o : CreateOutcome) : M Interpreter Empty_set unit :=
  let r := cro_result o in
  settle (
    _ ← modify (set_result IR_Continue);
    _ ← modify (set_return_data (if IR_is_revert (ir_result r) then ir_output r else []));
    if return_ok (ir_result r) then
      _ ← push_value (default 0 (cro_address o));
      _ ← erase (ir_gas r);
      refund (refunded (ir_gas r))
    else if return_revert (ir_result r) then _ ← push_value 0; erase (ir_gas r)
    else if bool_decide (ir_result r = IR_FatalExternalError) then lift Panic
    else push_value 0).

Definition insert_eofcreate_outcome (o : EOFCreateOutcome) : M Interpreter Empty_set unit :=
  let r := eco_result o in
  settle (
    _ ← modify (set_return_data (if bool_decide (ir_result r = IR_Revert) then ir_output r else []));
    if bool_decide (ir_result r = IR_ReturnContract) then
      _ ← push_value (eco_address o);
      _ ← erase (ir_gas r);
      refund (refunded (ir_gas r))
    else if return_revert (ir_result r) then _ ← push_value 0; erase (ir_gas r)
    else if bool_decide (ir_result r = IR_FatalExternalError) then lift Panic
    else push_value 0).

(** [insert_call_outcome] takes the shared memory apart; the two are a pair. *)
Definition insert_call_outcome (o : CallOutcome) : M (Interpreter * SharedMemory) Empty_set unit :=
  let r := co_result o in
  let on_int (m : IM unit) : M (Interpreter * SharedMemory) Empty_set unit :=
    zoom fst (fun i s => (i, s.2)) (settle m) in
  let copy_output (i : Interpreter) : M (Interpreter * SharedMemory) Empty_set unit :=
    let target_len := Z.min (memory_length o) (len (return_data_buffer i)) in
    zoom snd (fun m s => (s.1, m))
      (mem_set (memory_start o) (take (Z.to_nat target_len) (return_data_buffer i))) in
  _ ← on_int (_ ← modify (set_result IR_Continue); modify (set_return_data (ir_output r)));
  i ← gets fst;
  if return_ok (ir_result r) then
    _ ← on_int (_ ← erase (ir_gas r); refund (refunded (ir_gas r)));
    _ ← copy_output i;
    on_int (push_value 1)
  else if return_revert (ir_result r) then
    _ ← on_int (erase (ir_gas r));
    _ ← copy_output i;
    on_int (push_value 0)
  else if bool_decide (ir_result r = IR_FatalExternalError) then lift Panic
  else on_int (push_value 0).
