(* ===== verification/Context.v ===== *)
(** The context of an execution and its call frames:
    [crates/revm/src/context/inner_evm_context.rs], [context/evm_context.rs],
    [context/context_precompiles.rs] and [frame.rs].

    The environment is read only here, an argument; the journaled state and the
    database are the state of the monad. *)

From S2P Require Import Prelude Specification Bytes Eof Bytecode State Result InstructionResult.
From S2P Require Import Database Journal CallInputs NativeTokens Gas Stack SharedMemory.
From S2P Require Import Analysis Env Interpreter.

Definition CALL_STACK_LIMIT : Z := 1024.

(** The addresses [alloy] derives for CREATE and CREATE2. *)
Class CreateAddress : Type := {
  create_address : Address -> Z -> Address;
  create2_address : Address -> Z -> Z -> Address;
}.

(** ** Frames *)

Record FrameData : Type := mkFrameData {
  fd_checkpoint : JournalCheckpoint;
  fd_interpreter : Interpreter;
}.

Inductive Frame : Type :=
  | Frame_Call (return_memory_range : Z * Z) (frame_data : FrameData)
  | Frame_Create (created_address : Address) (frame_data : FrameData)
  | Frame_EOFCreate (created_address : Address) (return_memory_range : Z * Z) (frame_data : FrameData).

Inductive FrameResult : Type :=
  | FR_Call (o : CallOutcome)
  | FR_Create (o : CreateOutcome)
  | FR_EOFCreate (o : EOFCreateOutcome).

Inductive FrameOrResult : Type :=
  | FOR_Frame (f : Frame)
  | FOR_Result (r : FrameResult).

Definition frame_is_call (f : Frame) : bool := match f with Frame_Call _ _ => true | _ => false end.
Definition frame_is_create (f : Frame) : bool := match f with Frame_Create _ _ => true | _ => false end.
Definition frame_created_address (f : Frame) : option Address :=
  match f with Frame_Create a _ => Some a | _ => None end.
Definition frame_data (f : Frame) : FrameData :=
  match f with Frame_Call _ d | Frame_Create _ d | Frame_EOFCreate _ _ d => d end.
Definition frame_interpreter (f : Frame) : Interpreter := fd_interpreter (frame_data f).
Definition set_frame_interpreter (i : Interpreter) (f : Frame) : Frame :=
  let upd d := mkFrameData (fd_checkpoint d) i in
  match f with
  | Frame_Call r d => Frame_Call r (upd d)
  | Frame_Create a d => Frame_Create a (upd d)
  | Frame_EOFCreate a r d => Frame_EOFCreate a r (upd d)
  end.

Definition interpreter_result (r : FrameResult) : InterpreterResult :=
  match r with
  | FR_Call o => co_result o
  | FR_Create o => cro_result o
  | FR_EOFCreate o => eco_result o
  end.
Definition set_interpreter_result (v : InterpreterResult) (r : FrameResult) : FrameResult :=
  match r with
  | FR_Call o => FR_Call (mkCallOutcome v (memory_offset o))
  | FR_Create o => FR_Create (mkCreateOutcome v (cro_address o))
  | FR_EOFCreate o => FR_EOFCreate (mkEOFCreateOutcome v (eco_address o) (eco_return_memory_range o))
  end.
(** [output]: an EOF creation is never the outermost frame, there it panics. *)
Definition frame_output {E} (r : FrameResult) : outcome E Output :=
  match r with
  | FR_Call o => Ok (OutputCall (ir_output (co_result o)))
  | FR_Create o => Ok (OutputCreate (ir_output (cro_result o)) (cro_address o))
  | FR_EOFCreate _ => Panic
  end.
Definition frame_gas (r : FrameResult) : Gas := ir_gas (interpreter_result r).
Definition frame_instruction_result (r : FrameResult) : InstructionResult :=
  ir_result (interpreter_result r).

Definition new_call_result (r : InterpreterResult) (memory_offset : Z * Z) : FrameOrResult :=
  FOR_Result (FR_Call (mkCallOutcome r memory_offset)).
Definition new_create_result (r : InterpreterResult) (address : option Address) : FrameOrResult :=
  FOR_Result (FR_Create (mkCreateOutcome r address)).
Definition new_eofcreate_result (r : InterpreterResult) (address : Address) (range : Z * Z)
  : FrameOrResult :=
  FOR_Result (FR_EOFCreate (mkEOFCreateOutcome r address range)).
Definition new_call_frame (range : Z * Z) (cp : JournalCheckpoint) (i : Interpreter) : FrameOrResult :=
  FOR_Frame (Frame_Call range (mkFrameData cp i)).
Definition new_create_frame (a : Address) (cp : JournalCheckpoint) (i : Interpreter) : FrameOrResult :=
  FOR_Frame (Frame_Create a (mkFrameData cp i)).
Definition new_eofcreate_frame (a : Address) (range : Z * Z) (cp : JournalCheckpoint) (i : Interpreter)
  : FrameOrResult :=
  FOR_Frame (Frame_EOFCreate a range (mkFrameData cp i)).

(** ** Precompiles *)

Section context.
Context {DB DbErr : Type} `{HDB : Database DB DbErr} `{HK : Keccak}.
Abbreviation CtxM := (M (JournaledState * DB) (EVMError DbErr)).
Abbreviation PM := (M (JournaledState * DB) PrecompileError).

(** An ordinary precompile sees its input, the gas limit and the environment;
    a stateful one also the journaled state and the database. *)
Inductive ContextPrecompile : Type :=
  | CP_Ordinary (p : bytes -> Z -> Env -> PrecompileResult)
  | CP_ContextStateful (p : bytes -> Z -> PM ResultOrNewCall)
  | CP_ContextStatefulMut (p : CallInputs -> Z -> PM ResultOrNewCall).

Definition ContextPrecompiles : Type := gmap Address ContextPrecompile.

(** [ContextPrecompiles::call]: the result of the precompile, if there is one. *)
Definition precompiles_call (ps : ContextPrecompiles) (env : Env) (inputs : CallInputs) (gas_price : Z)
  : CtxM (option (PrecompileError + ResultOrNewCall)) :=
  match ps !! bytecode_address inputs with
  | None => mret None
  | Some precompile =>
      let run (m : PM ResultOrNewCall) : CtxM (option (PrecompileError + ResultOrNewCall)) :=
        r ← attempt m; mret (Some r) in
      match precompile with
      | CP_Ordinary p => run (lift (p (ci_input inputs) gas_price env))
      | CP_ContextStatefulMut p => run (p inputs gas_price)
      | CP_ContextStateful p => run (p (ci_input inputs) gas_price)
      end
  end.

(** The precompiles of the handler: those of the hard fork and the native
    tokens ([load_precompiles]). *)
Definition with_native_tokens (ps : ContextPrecompiles) : ContextPrecompiles :=
  <[NATIVE_TOKENS_ADDRESS := CP_ContextStatefulMut call_mut]> ps.

Definition set_warm (f : gset Address) (j : JournaledState) : JournaledState :=
  mkJournaledState (state j) (transient_storage j) (logs j) (depth j) (journal j) (spec j) f.
Definition set_precompiles (ps : ContextPrecompiles) : CtxM unit :=
  on_js (modify (set_warm (dom ps))).

Definition call_precompile (ps : ContextPrecompiles) (env : Env) (inputs : CallInputs) (gas : Gas)
  : CtxM (option ResultOrCallInfo) :=
  out ← precompiles_call ps env inputs (limit gas);
  mret (match out with
  | None => None
  | Some (inr (RNC_Call info)) =>
      Some (RC_NewCall (mkCallInfo (pci_target_address info) (CV_Transfer (token_transfers info))
        (input_data info)))
  | Some (inr (RNC_Result info)) =>
      let '(ok, g) := record_cost (gas_used info) gas in
      Some (RC_Result (if ok : bool then mkInterpreterResult IR_Return (returned_bytes info) g
                       else mkInterpreterResult IR_PrecompileOOG [] g))
  | Some (inl e) =>
      Some (RC_Result (mkInterpreterResult
        (if bool_decide (e = PE_OutOfGas) then IR_PrecompileOOG else IR_PrecompileError) [] gas))
  end).

(** ** Operations of the inner context *)

Fixpoint load_accounts_slots (l : list (Address * list Z)) : CtxM unit :=
  match l with
  | [] => mret tt
  | (address, slots) :: rest => _ ← initial_account_load address slots; load_accounts_slots rest
  end.
Definition load_access_list (env : Env) : CtxM unit := load_accounts_slots (access_list (tx env)).

Definition ctx_block_hash (number : Z) : CtxM Z := on_db (block_hash number).

Definition ctx_code_hash (address : Address) : CtxM (Z * bool) :=
  '(acc, is_cold) ← load_code address;
  mret (if Account_is_empty acc then 0 else code_hash (info acc), is_cold).

Definition base_balance (address : Address) : CtxM (Z * bool) :=
  '(acc, is_cold) ← load_account address;
  mret (get_base_balance (info acc), is_cold).

(** ** Calls *)

(** The body of the contract at an address: its code hash and its code. *)
Definition load_bytecode (address : Address) : CtxM (Z * Bytecode) :=
  '(acc, _) ← load_code address;
  mret (code_hash (info acc), default Bytecode_new (code (info acc))).

(** Move the values of a call.  [Some result] is a refusal. *)
Definition transfer_values (inputs : CallInputs) : CtxM (option InstructionResult) :=
  match ci_values inputs with
  | CV_Transfer values =>
      if forallb (fun tt => transfer_amount tt =? 0) values then
        _ ← load_account (target_address inputs);
        _ ← on_js (touch (target_address inputs));
        mret None
      else Journal.transfer (ci_caller inputs) (target_address inputs) values
  | CV_Apparent _ => mret None
  end.

(** The inputs of the call a precompile asks for. *)
Definition new_call_inputs (inputs : CallInputs) (gas : Gas) (info : CallInfo) : CallInputs :=
  mkCallInputs (cinfo_input_data info) (0, 0) (limit gas) (cinfo_target_address info)
    (cinfo_target_address info) (ci_caller inputs) (cinfo_call_values info) CS_Call
    (is_static inputs) false.

Definition make_call_frame (ps : ContextPrecompiles) (env : Env) (inputs : CallInputs)
  : CtxM FrameOrResult :=
  let gas := Gas_new (ci_gas_limit inputs) in
  let return_result (r : InstructionResult) : CtxM FrameOrResult :=
    mret (new_call_result (mkInterpreterResult r [] gas) (return_memory_offset inputs)) in
  js ← gets fst;
  if CALL_STACK_LIMIT <? depth js then return_result IR_CallTooDeep
  else
    '(code_hash, bytecode) ← load_bytecode (bytecode_address inputs);
    cp ← on_js checkpoint;
    refused ← transfer_values inputs;
    match refused with
    | Some result => _ ← on_js (checkpoint_revert cp); return_result result
    | None =>
        out ← call_precompile ps env inputs gas;
        match out with
        | Some (RC_NewCall call_info) =>
            '(code_hash, bytecode) ← load_bytecode (cinfo_target_address call_info);
            let call_inputs := new_call_inputs inputs gas call_info in
            refused ← Journal.transfer (ci_caller call_inputs) (target_address call_inputs)
                        (CallValues_get (ci_values call_inputs));
            match refused with
            | Some result => _ ← on_js (checkpoint_revert cp); return_result result
            | None =>
                let contract := Contract_new_with_context (cinfo_input_data call_info) bytecode
                  (Some code_hash) call_inputs in
                interpreter ← lift (Interpreter_new contract (ci_gas_limit call_inputs)
                  (is_static call_inputs));
                mret (new_call_frame (return_memory_offset call_inputs) cp interpreter)
            end
        | Some (RC_Result result) =>
            _ ← (if return_ok (ir_result result) then on_js checkpoint_commit
                 else on_js (checkpoint_revert cp));
            mret (new_call_result result (return_memory_offset inputs))
        | None =>
            if negb (Bytecode_is_empty bytecode) then
              let contract := Contract_new_with_context (ci_input inputs) bytecode (Some code_hash) inputs in
              interpreter ← lift (Interpreter_new contract (limit gas) (is_static inputs));
              mret (new_call_frame (return_memory_offset inputs) cp interpreter)
            else _ ← on_js checkpoint_commit; return_result IR_Stop
        end
    end.

Definition call_return (r : InterpreterResult) (cp : JournalCheckpoint) : CtxM unit :=
  if return_ok (ir_result r) then on_js checkpoint_commit else on_js (checkpoint_revert cp).

(** ** Creations *)

Definition create_contract (address caller : Address) (code : Bytecode) (hash : option Z) (value : Z)
  : Contract := Contract_new [] code hash address caller [mkTransfer BASE_TOKEN_ID value].

Definition make_create_frame `{CreateAddress} (spec_id : SpecId) (inputs : CreateInputs)
  : CtxM FrameOrResult :=
  let gas := Gas_new (cr_gas_limit inputs) in
  let return_error (e : InstructionResult) : CtxM FrameOrResult :=
    mret (new_create_result (mkInterpreterResult e [] gas) None) in
  js ← gets fst;
  if CALL_STACK_LIMIT <? depth js then return_error IR_CallTooDeep
  else
    '(caller_balance, _) ← base_balance (cr_caller inputs);
    if caller_balance <? cr_value inputs then return_error IR_OutOfFunds
    else
      nonce ← on_js (inc_nonce (cr_caller inputs));
      match nonce with
      | None => return_error IR_Return
      | Some nonce =>
          let old_nonce := nonce - 1 in
          let '(created_address, init_code_hash) :=
            match cr_scheme inputs with
            | Create => (create_address (cr_caller inputs) old_nonce, 0)
            | Create2 salt =>
                let init_code_hash := keccak256 (cr_init_code inputs) in
                (create2_address (cr_caller inputs) salt init_code_hash, init_code_hash)
            end in
          _ ← load_account created_address;
          r ← on_js (attempt (create_account_checkpoint (cr_caller inputs) created_address
                (cr_value inputs) spec_id));
          match r with
          | inl e => return_error e
          | inr cp =>
              let contract := create_contract created_address (cr_caller inputs)
                (new_raw (cr_init_code inputs)) (Some init_code_hash) (cr_value inputs) in
              interpreter ← lift (Interpreter_new contract (limit gas) false);
              mret (new_create_frame created_address cp interpreter)
          end
      end.

Definition make_eofcreate_frame (spec_id : SpecId) (inputs : EOFCreateInput) : CtxM FrameOrResult :=
  let return_error (e : InstructionResult) : CtxM FrameOrResult :=
    mret (new_eofcreate_result (mkInterpreterResult e [] (Gas_new (ec_gas_limit inputs)))
      (ec_created_address inputs) (ec_return_memory_range inputs)) in
  js ← gets fst;
  if CALL_STACK_LIMIT <? depth js then return_error IR_CallTooDeep
  else
    '(caller_balance, _) ← base_balance (ec_caller inputs);
    if caller_balance <? ec_value inputs then return_error IR_OutOfFunds
    else
      nonce ← on_js (inc_nonce (ec_caller inputs));
      match nonce with
      | None => return_error IR_Return
      | Some _ =>
          _ ← load_account (ec_created_address inputs);
          r ← on_js (attempt (create_account_checkpoint (ec_caller inputs) (ec_created_address inputs)
                (ec_value inputs) spec_id));
          match r with
          | inl e => return_error e
          | inr cp =>
              let contract := create_contract (ec_created_address inputs) (ec_caller inputs)
                (BytecodeEof (ec_eof_init_code inputs)) None (ec_value inputs) in
              interpreter ← lift (Interpreter_new contract (ec_gas_limit inputs) false);
              mret (new_eofcreate_frame (ec_created_address inputs) (ec_return_memory_range inputs) cp
                (set_is_eof_init interpreter))
          end
      end.

Definition set_ir_result (e : InstructionResult) (r : InterpreterResult) : InterpreterResult :=
  mkInterpreterResult e (ir_output r) (ir_gas r).

(** [create_return]; the answer is the interpreter result as it leaves it. *)
Definition create_return (spec_id : SpecId) (env : Env) (r : InterpreterResult) (address : Address)
  (cp : JournalCheckpoint) : CtxM InterpreterResult :=
  let revert_with (r : InterpreterResult) : CtxM InterpreterResult :=
    _ ← on_js (checkpoint_revert cp); mret r in
  if negb (return_ok (ir_result r)) then revert_with r
  else if enabled spec_id LONDON && bool_decide (head (ir_output r) = Some 0xEF)
  then revert_with (set_ir_result IR_CreateContractStartingWithEF r)
  else if enabled spec_id SPURIOUS_DRAGON
          && (default MAX_CODE_SIZE (limit_contract_code_size (cfg env)) <? len (ir_output r))
  then revert_with (set_ir_result IR_CreateContractSizeLimit r)
  else
    let gas_for_code := wrapping_mul 64 (len (ir_output r)) CODEDEPOSIT in
    let '(ok, g) := record_cost gas_for_code (ir_gas r) in
    let r := mkInterpreterResult (ir_result r) (ir_output r) g in
    if negb ok && enabled spec_id HOMESTEAD then revert_with (set_ir_result IR_OutOfGas r)
    else
      let r := if ok : bool then r else mkInterpreterResult (ir_result r) [] (ir_gas r) in
      _ ← on_js checkpoint_commit;
      let bytecode :=
        match perf_analyse_created_bytecodes (cfg env) with
        | AK_Raw => new_raw (ir_output r)
        | AK_Analyse => to_analysed (new_raw (ir_output r))
        end in
      _ ← on_js (set_code address bytecode);
      mret (set_ir_result IR_Return r).

Definition eofcreate_return (r : InterpreterResult) (address : Address) (cp : JournalCheckpoint)
  : CtxM unit :=
  if negb (bool_decide (ir_result r = IR_ReturnContract)) then on_js (checkpoint_revert cp)
  else
    _ ← on_js checkpoint_commit;
    bytecode ← lift (match Eof_decode (ir_output r) with Ok e => Ok e | _ => Panic end);
    on_js (set_code address (BytecodeEof bytecode)).
End context.
