(* ===== verification/NativeTokensRewind.v ===== *)
(** The native-token precompile journals what it changes: whatever a call of the
    precompile did can be reverted, except the loss of a payment that
    overflowed, which only happens in calls that report success. *)

From S2P Require Import Prelude Specification Bytes Eof Bytecode State Result InstructionResult.
From S2P Require Import Database Journal JournalRevert JournalRun InMemoryDb JournalSpec.
From S2P Require Import CallInputs NativeTokens.

(** ** The call depth *)

Definition keeps_depth {E A} (m : M JournaledState E A) : Prop :=
  forall j r j', m j = (r, j') -> depth j' = depth j.

Lemma keeps_depth_bind {E A B} (m : M JournaledState E A) (f : A -> M JournaledState E B) :
  keeps_depth m -> (forall a, keeps_depth (f a)) -> keeps_depth (m ≫= f).
Proof.
  intros Hm Hf j r j' H. apply M_bind_inv in H as [(a & j1 & H1 & H2)|[(e & H1 & _)|[H1 _]]].
  - apply Hm in H1. apply Hf in H2. congruence.
  - by apply Hm in H1.
  - by apply Hm in H1.
Qed.

Lemma keeps_depth_ret {E A} (a : A) : keeps_depth (mret a : M JournaledState E A).
Proof. by intros j r j' [= _ <-]. Qed.
Lemma keeps_depth_push {E} e : keeps_depth (push_entry (E := E) e).
Proof. intros j r j' H. unfold push_entry in H. by case_match; injection H as _ <-. Qed.
Lemma keeps_depth_account {E} a : keeps_depth (account (E := E) a).
Proof. by intros j r j' [= _ <-]. Qed.
Lemma keeps_depth_update {E} a f : keeps_depth (update_account (E := E) a f).
Proof. apply keeps_depth_bind; [apply keeps_depth_account|]. by intros x j r j' [= _ <-]. Qed.

Create HintDb depth.
#[export] Hint Resolve keeps_depth_bind keeps_depth_ret keeps_depth_push keeps_depth_account
  keeps_depth_update : depth.

Lemma keeps_depth_touch {E} a : keeps_depth (touch_account (E := E) a).
Proof.
  apply keeps_depth_bind; [auto with depth|]. intros x. destruct (is_touched x); auto with depth.
Qed.
#[export] Hint Resolve keeps_depth_touch : depth.

Lemma keeps_depth_transfer_loop {E} from to ts : keeps_depth (transfer_loop (E := E) from to ts).
Proof.
  induction ts as [|t ts IH]; cbn [transfer_loop]; [auto with depth|].
  apply keeps_depth_bind; [auto with depth|]. intros _.
  apply keeps_depth_bind; [auto with depth|]. intros x.
  destruct (checked_sub _ _); [|auto with depth].
  repeat (apply keeps_depth_bind; [auto with depth|]; intros ?).
  destruct (checked_add _ _ _); auto 6 with depth.
Qed.

(** ** Calls that rewind *)

Section rewinds.
Context {DB DbErr : Type} `{HDB : Database DB DbErr} `{HOK : !DatabaseOk DB DbErr} `{HK : Keccak}.
Implicit Types (j : JournaledState) (d : DB) (inputs : CallInputs).
Abbreviation PM := (M (JournaledState * DB) PrecompileError).

(** The amounts of the call an answer asks for are words. *)
Definition asks_words (r : outcome PrecompileError ResultOrNewCall) : Prop :=
  forall c, r = Ok (RNC_Call c) -> Forall (fun t => fits 256 (transfer_amount t)) (token_transfers c).

(** A call within [gas] panics, or extends the journal by what undoes it, or
    answers a result it can pay for. *)
Definition call_rewinds (m : PM ResultOrNewCall) (gas : Z) : Prop :=
  forall j d r j' d', ready j d -> m (j, d) = (r, (j', d')) -> asks_words r /\
    (r = Panic \/ ((exists es, jext j j' es) /\ db_ok d') \/
    (depth j' = depth j /\ exists info, r = Ok (RNC_Result info) /\ gas_used info <= gas)).

Lemma call_rewinds_of m gas :
  rewindable m -> (forall s, asks_words (m s).1) -> call_rewinds m gas.
Proof.
  intros Hm Ha j d r j' d' Hr H. specialize (Ha (j, d)). rewrite H in Ha. split; [done|].
  destruct (Hm _ _ Hr _ _ _ H); auto.
Qed.

Lemma call_rewinds_bind {A} (m : PM A) f gas :
  rewindable m -> (forall a s s', m s = (Ok a, s') -> call_rewinds (f a) gas) -> call_rewinds (m ≫= f) gas.
Proof.
  intros Hm Hf j d r j' d' Hr H.
  apply M_bind_inv in H as [(a & [j1 d1] & H1 & H2)|[(e & H1 & ->)|[H1 ->]]]; [|..|by split; [|left]].
  - pose proof H1 as Ha. apply Hm in H1 as [?|[[es He] Hd]]; [done| |done].
    pose proof (ready_jext _ _ _ _ _ He Hd Hr) as Hr1.
    destruct (Hf _ _ _ Ha _ _ _ _ _ Hr1 H2) as [Hw [?|[[[es' He'] Hd']|[Hdep Hi]]]]; (split; [done|]);
      [by left|..].
    + right. left. split; [eexists; by eapply jext_trans|done].
    + right. right. split; [|done]. rewrite Hdep. apply He.
  - split; [done|]. apply Hm in H1 as [?|?]; [done|auto|done].
Qed.

Lemma call_rewinds_parse {A} (m : outcome BytesParsingError A) f gas :
  (forall a, m = Ok a -> call_rewinds (f a) gas) -> call_rewinds (parse m ≫= f) gas.
Proof.
  intros Hf. apply call_rewinds_bind; [apply rewind_lift|]. intros a s s' [= H _].
  apply Hf. by destruct m; [injection H as ->|..].
Qed.

Lemma rewind_with_err {E F A} (f : E -> F) (m : M (JournaledState * DB) E A) :
  rewindable m -> rewindable (with_err f m).
Proof.
  intros Hm j d Hr r j' d' H. unfold with_err in H. destruct (m (j, d)) as [r1 s1] eqn:H1.
  injection H as <- ->. destruct (Hm _ _ Hr _ _ _ H1) as [->|?]; auto.
Qed.

Lemma rewind_fail {E A} (e : E) : rewindable (fail e : M (JournaledState * DB) E A).
Proof. exact (rewind_lift (Err e)). Qed.

Lemma rewind_is_address_eoa a : rewindable (is_address_eoa (DbErr := DbErr) a).
Proof.
  apply rewind_bind; [|intros []; apply rewind_ret].
  apply rewind_bind; [apply rewind_load_code|]. intros [acc cold].
  apply rewind_bind; [apply rewind_lift|]. intros; apply rewind_ret.
Qed.

Lemma rewind_check_caller inputs : rewindable (check_caller (DbErr := DbErr) inputs).
Proof.
  unfold check_caller. destruct (is_static inputs); [apply rewind_fail|].
  apply rewind_bind; [apply rewind_with_err, rewind_is_address_eoa|].
  intros []; [apply rewind_fail|apply rewind_ret].
Qed.

Lemma rewind_check_callee a : rewindable (check_callee (DbErr := DbErr) a).
Proof.
  apply rewind_bind; [apply rewind_with_err, rewind_is_address_eoa|].
  intros []; [apply rewind_fail|apply rewind_ret].
Qed.

Lemma rewind_check_consumed input : rewindable (check_consumed (DB := DB) input).
Proof. destruct input; [apply rewind_ret|apply rewind_fail]. Qed.

(** The last step of the transfers. *)
Lemma transfer_is_ok_rewinds from to ts gas_used gas msg :
  Forall (fun t => fits 256 (transfer_amount t)) ts -> gas_used <= gas ->
  call_rewinds (ok ← transfer_is_ok (DbErr := DbErr) from to ts;
    if ok : bool then success gas_used else fail (PE_Other msg)) gas.
Proof.
  intros Hts Hg j d r j' d' Hr H.
  apply M_bind_inv in H as [(ok & s1 & H1 & H2)|[(e & H1 & ->)|[H1 ->]]]; [| |by split; [|left]];
    unfold transfer_is_ok in H1;
    apply M_bind_inv in H1 as [(o & s2 & H3 & H1)|[(? & H3 & ?)|[H3 ?]]]; try done;
    unfold attempt in H3;
    destruct (Journal.transfer from to ts (j, d)) as [[a|e2|] [j3 d3]] eqn:Ht; try done.
  - injection H3 as <- <-. injection H1 as <- <-. injection H2 as <- <- <-. split; [done|].
    destruct (decide (a = Some IR_OverflowPayment)) as [->|Hne].
    + right. right. split; [|by eexists]. clear -Ht Hr HOK.
      apply M_bind_inv in Ht as [(b & [j1 d1] & H1 & H2)|[(? & _ & ?)|[_ ?]]]; [|done..].
      apply rewind_load_native_token_ids in H1 as [?|[[es1 He1] Hd1]]; [done| |done].
      apply M_bind_inv in H2 as [(b2 & [j2 d2] & H2 & H3)|[(? & _ & ?)|[_ ?]]]; [|done..].
      apply rewind_load_account in H2 as [?|[[es2 He2] Hd2]]; [done| |by eapply ready_jext].
      apply M_bind_inv in H3 as [(b3 & [j4 d4] & H3 & H4)|[(? & _ & ?)|[_ ?]]]; [|done..].
      apply rewind_load_account in H3 as [?|[[es3 He3] Hd3]];
        [done| |eapply ready_jext, ready_jext; eauto].
      rewrite on_js_eq in H4. destruct (transfer_loop from to ts j4) as [r5 j5] eqn:H5.
      injection H4 as -> <- <-. apply keeps_depth_transfer_loop in H5. rewrite H5.
      rewrite (jx_depth _ _ _ He3), (jx_depth _ _ _ He2). apply He1.
    + apply rewind_transfer in Ht as [?|[?|?]]; [done|congruence|by right; left|done..].
  - injection H3 as <- <-. injection H1 as <- <-. injection H2 as <- <- <-. split; [done|].
    apply rewind_transfer in Ht as [?|[?|?]]; [done..|by right; left|done|done].
Qed.

(** *** The functions of the precompile *)

Lemma call_rewinds_fail e gas : call_rewinds (fail e) gas.
Proof. apply call_rewinds_of; [apply rewind_fail|done]. Qed.
Lemma call_rewinds_result gas_used data gas :
  call_rewinds (mret (RNC_Result (mkResultInfo gas_used data))) gas.
Proof. apply call_rewinds_of; [apply rewind_ret|done]. Qed.
Lemma call_rewinds_success (ok : bool) gas_used e gas :
  call_rewinds (if ok then success gas_used else fail e) gas.
Proof. destruct ok; [apply call_rewinds_result|apply call_rewinds_fail]. Qed.
Lemma call_rewinds_call c gas :
  Forall (fun t => fits 256 (transfer_amount t)) (token_transfers c) -> call_rewinds (mret (RNC_Call c)) gas.
Proof. intros Hc. apply call_rewinds_of; [apply rewind_ret|]. by intros s c' [= <-]. Qed.

Lemma consume_address_from_byte input a rest :
  Forall is_byte input -> consume_address_from input = Ok (a, rest) -> Forall is_byte rest.
Proof.
  intros Hb H. unfold consume_address_from, consume_word_from in H. inv_bind H.
  destruct x as [b r]. injection H as _ <-.
  apply consume_bytes_from_inv in Hx as [-> _]; [|lia]. by apply Forall_app in Hb as [_ ?].
Qed.

Lemma consume_words_aux_fits fuel n input ws rest :
  Forall is_byte input -> consume_words_aux fuel n input = Ok (ws, rest) ->
  Forall (fits 256) ws /\ Forall is_byte rest.
Proof.
  revert n input ws. induction fuel as [|fuel IH]; intros n input ws Hb H; cbn [consume_words_aux] in H;
    (destruct (n <=? 0); [injection H as <- <-; split; [apply List.Forall_nil|exact Hb]|]); inv_bind H; destruct x as [w r]; [done|].
  inv_bind H. apply consume_u256_from_fits in Hx as [Hw Hr]; [|done].
  destruct x as [ws' r']. injection H as <- <-.
  apply IH in Hx0 as [Hws Hr']; [|done]. auto.
Qed.

Lemma zip_amounts_fit ids amounts :
  Forall (fits 256) amounts ->
  Forall (fun t => fits 256 (transfer_amount t)) (zip_with mkTransfer ids amounts).
Proof.
  intros H. revert ids. induction H as [|a amounts Ha _ IH]; intros [|i ids]; simpl; constructor; auto.
Qed.

Lemma consume_u32_from_byte input z rest :
  Forall is_byte input -> consume_u32_from input = Ok (z, rest) -> Forall is_byte rest.
Proof.
  intros Hb H. unfold consume_u32_from in H. inv_bind H. destruct x as [b r]. injection H as _ <-.
  apply consume_bytes_from_inv in Hx as [-> _]; [|lia]. by apply Forall_app in Hb as [_ ?].
Qed.

(** Peel one step of a function of the precompile: a parsed word or address, a
    check, or a step that rewinds; the rest of the input stays bytes. *)
Ltac peel :=
  match goal with
  | |- call_rewinds (parse (consume_u256_from ?i) ≫= _) _ =>
      let w := fresh "w" in let r := fresh "r" in let H := fresh "H" in
      apply call_rewinds_parse; intros [w r] H;
      apply consume_u256_from_fits in H as [? ?]; [|done]
  | |- call_rewinds (parse (consume_address_from ?i) ≫= _) _ =>
      let w := fresh "w" in let r := fresh "r" in let H := fresh "H" in
      apply call_rewinds_parse; intros [w r] H;
      apply consume_address_from_byte in H; [|done]
  | |- call_rewinds (parse (consume_words _ ?i) ≫= _) _ =>
      let w := fresh "ws" in let r := fresh "r" in let H := fresh "H" in
      apply call_rewinds_parse; intros [w r] H;
      apply consume_words_aux_fits in H as [? ?]; [|done]
  | |- call_rewinds (parse _ ≫= _) _ =>
      let w := fresh "w" in let r := fresh "r" in
      apply call_rewinds_parse; intros [w r] _
  | |- call_rewinds (check_caller _ ≫= _) _ =>
      apply call_rewinds_bind; [apply rewind_check_caller|intros _ _ _ _]
  | |- call_rewinds (check_callee _ ≫= _) _ =>
      apply call_rewinds_bind; [apply rewind_check_callee|intros _ _ _ _]
  | |- call_rewinds (check_consumed _ ≫= _) _ =>
      apply call_rewinds_bind; [apply rewind_check_consumed|intros _ _ _ _]
  | |- call_rewinds (lift _ ≫= _) _ =>
      apply call_rewinds_bind; [apply rewind_lift|intros ? _ _ _]
  | |- call_rewinds (if _ then fail _ else _) _ => case_match; [apply call_rewinds_fail|]
  end; cbv beta iota zeta.

Section functions.
Context (inputs : CallInputs) (gas : Z) (input : bytes).
Hypothesis Hin : Forall is_byte input.

Lemma balance_of_rewinds : call_rewinds (balance_of (DbErr := DbErr) BASE_GAS_COST input) gas.
Proof.
  unfold balance_of. repeat peel.
  apply call_rewinds_bind; [|intros []; intros; apply call_rewinds_result].
  apply rewind_with_err, rewind_bind; [apply rewind_load_account|]. intros []. apply rewind_ret.
Qed.

Lemma mint_rewinds : call_rewinds (mint (DbErr := DbErr) inputs BASE_GAS_COST input) gas.
Proof.
  unfold mint. repeat peel. apply call_rewinds_bind; [|intros; apply call_rewinds_success].
  by apply rewind_with_err, rewind_mint.
Qed.

Lemma burn_rewinds : call_rewinds (burn (DbErr := DbErr) inputs BASE_GAS_COST input) gas.
Proof.
  unfold burn. repeat peel. apply call_rewinds_bind; [|intros; apply call_rewinds_success].
  by apply rewind_with_err, rewind_burn.
Qed.

Lemma get_call_values_rewinds :
  call_rewinds (get_call_values (DbErr := DbErr) inputs BASE_GAS_COST) gas.
Proof. unfold get_call_values. repeat peel. apply call_rewinds_result. Qed.

Lemma transfer_rewinds :
  BASE_GAS_COST <= gas -> call_rewinds (transfer (DbErr := DbErr) inputs BASE_GAS_COST input) gas.
Proof.
  intros Hg. unfold transfer. repeat peel. apply transfer_is_ok_rewinds; [|done]. by constructor.
Qed.

Lemma transfer_multiple_rewinds :
  BASE_GAS_COST <= gas -> call_rewinds (transfer_multiple (DbErr := DbErr) inputs BASE_GAS_COST input) gas.
Proof.
  intros Hg. unfold transfer_multiple. repeat peel.
  apply transfer_is_ok_rewinds; [|done]. by apply zip_amounts_fit.
Qed.

Lemma transfer_and_call_rewinds :
  call_rewinds (transfer_and_call (DbErr := DbErr) inputs input) gas.
Proof. unfold transfer_and_call. repeat peel. apply call_rewinds_call. by constructor. Qed.

Lemma transfer_multiple_and_call_rewinds :
  call_rewinds (transfer_multiple_and_call (DbErr := DbErr) inputs input) gas.
Proof.
  unfold transfer_multiple_and_call. repeat peel. apply call_rewinds_call. by apply zip_amounts_fit.
Qed.
End functions.

(** Every call of the precompile rewinds. *)
Lemma call_mut_rewinds inputs gas :
  Forall is_byte (ci_input inputs) -> call_rewinds (call_mut (DbErr := DbErr) inputs gas) gas.
Proof.
  intros Hb. unfold call_mut. destruct (Z.ltb_spec gas BASE_GAS_COST); [apply call_rewinds_fail|].
  apply call_rewinds_parse. intros [sel input] Hsel.
  assert (Hin : Forall is_byte input) by by eapply consume_u32_from_byte.
  repeat case_match.
  - by apply balance_of_rewinds.
  - by apply burn_rewinds.
  - apply get_call_values_rewinds.
  - by apply mint_rewinds.
  - by apply transfer_and_call_rewinds.
  - by apply transfer_multiple_and_call_rewinds.
  - by apply transfer_multiple_rewinds.
  - by apply transfer_rewinds.
  - apply call_rewinds_fail.
Qed.
End rewinds.
