(* ===== verification/Frames.v ===== *)
(** Call frames: what a failing call or creation leaves behind, what a creation
    stores, and whose tokens the calls of the native-token precompile move. *)

From S2P Require Import Prelude Specification Bytes Eof Bytecode State Result InstructionResult.
From S2P Require Import Database Journal JournalRevert JournalRun InMemoryDb JournalSpec.
From S2P Require Import Checkpoint CallInputs NativeTokens NativeTokensRewind Gas Stack SharedMemory.
From S2P Require Import Analysis Env Interpreter Context.

(** Split a successful bind [H] at its first step. *)
Ltac bind_ok H x s H1 :=
  apply M_bind_inv in H as [(x & s & H1 & H)|[(? & ? & ?)|[? ?]]]; [|discriminate..].

Section frames.
Context {DB DbErr : Type} `{HDB : Database DB DbErr} `{HOK : !DatabaseOk DB DbErr} `{HK : Keccak}.
Implicit Types (j : JournaledState) (d : DB) (inputs : CallInputs).
Abbreviation CtxM := (M (JournaledState * DB) (EVMError DbErr)).

(** Precompiles that rewind, on inputs that are bytes. *)
Definition precompile_rewinds (p : ContextPrecompile (DB := DB)) : Prop :=
  match p with
  | CP_Ordinary p => forall input gas env, asks_words (p input gas env)
  | CP_ContextStateful p => forall input gas, Forall is_byte input -> call_rewinds (DbErr := DbErr) (p input gas) gas
  | CP_ContextStatefulMut p => forall inputs gas,
      Forall is_byte (ci_input inputs) -> call_rewinds (DbErr := DbErr) (p inputs gas) gas
  end.

(** [(j', d)] is reached inside the sub-call entered from [j]. *)
Definition within j (s : JournaledState * DB) : Prop :=
  (exists es, jext (entered j) s.1 es) /\ ready s.1 s.2.

Lemma restored_refl j : restored j j.
Proof. split; reflexivity. Qed.

Lemma within_entered j d : ready j d -> within j (entered j, d).
Proof.
  intros [HJ Hwf Hd]. split.
  - exists []. apply jext_refl; [apply entered_nonempty|by apply wf_entered].
  - split; [apply entered_nonempty|by apply wf_entered|done].
Qed.

Lemma within_step {A} (m : CtxM A) j s r s' :
  rewindable m -> within j s -> m s = (r, s') -> r = Panic \/ within j s'.
Proof.
  destruct s as [j1 d1], s' as [j2 d2]. intros Hm [[es He] Hr] H. simpl in *.
  destruct (Hm _ _ Hr _ _ _ H) as [?|[[es' He'] Hd']]; [by left|right].
  split; [eexists; by eapply jext_trans|]. by eapply ready_jext.
Qed.

Lemma within_run j s s' : run s s' -> within j s -> within j s'.
Proof.
  intros Hrun [[es He] Hr]. apply run_jext in Hrun as [[es' He'] Hr']; [|done].
  split; [eexists; by eapply jext_trans|done].
Qed.

(** Leaving a sub-call, on either outcome. *)
Lemma within_revert j j1 d :
  fits 64 (depth j) -> within j (j1, d) ->
  exists jr, on_js (DbErr := DbErr) (checkpoint_revert (checkpoint_of j)) (j1, d) = (Ok tt, (jr, d))
    /\ restored j jr.
Proof.
  intros Hd [[es He] _]. destruct (revert_restores (E := EVMError DbErr) j j1 es Hd He) as (jr & Hr & Hres).
  exists jr. by rewrite on_js_eq, Hr.
Qed.

Lemma within_commit j j1 d0 d :
  ready j d0 -> within j (j1, d) ->
  on_js (DbErr := DbErr) checkpoint_commit (j1, d) = (Ok tt, (left j1, d)) /\ depth (left j1) = depth j /\
  exists es, jext j (left j1) es.
Proof.
  intros [HJ Hwf Hd] [[es He] _]. assert (Hc : jext j (left j1) es) by by apply jext_commit; [|apply Hwf|].
  split_and!; [by rewrite on_js_eq|apply Hc|by eexists].
Qed.

(** ** The steps of [make_call_frame] *)

Lemma rewind_load_bytecode a : rewindable (load_bytecode (DbErr := DbErr) a).
Proof. apply rewind_bind; [apply rewind_load_code|]. intros [acc c]. apply rewind_ret. Qed.

Lemma transfer_values_within j inputs s r s' :
  Forall (fun t => fits 256 (transfer_amount t)) (CallValues_get (ci_values inputs)) ->
  within j s -> transfer_values (DbErr := DbErr) inputs s = (r, s') ->
  r = Panic \/ r = Ok (Some IR_OverflowPayment) \/ within j s'.
Proof.
  intros Hv Hw H. unfold transfer_values in H. destruct (ci_values inputs) as [values|values].
  2: { injection H as <- <-. auto. }
  destruct (forallb _ _).
  - destruct (within_step _ _ _ _ _ (rewind_bind _ _ (rewind_load_account _) (fun _ =>
      rewind_bind _ _ (rewind_on_js _ (jrewindable_touch _)) (fun _ => rewind_ret _))) Hw H); auto.
  - destruct s as [j1 d1], s' as [j2 d2]. destruct Hw as [[es He] Hr]. simpl in *.
    apply rewind_transfer in H as [?|[?|[[es' He'] Hd']]]; auto. right. right.
    split; [eexists; by eapply jext_trans|]. by eapply ready_jext.
Qed.

(** A precompile runs as a computation that rewinds. *)
Lemma precompiles_call_eq (ps : ContextPrecompiles (DB := DB)) env inputs gas p :
  map_Forall (fun _ => precompile_rewinds) ps -> Forall is_byte (ci_input inputs) ->
  ps !! bytecode_address inputs = Some p ->
  exists m : M (JournaledState * DB) PrecompileError ResultOrNewCall,
    call_rewinds (DbErr := DbErr) m gas /\
    precompiles_call (DbErr := DbErr) ps env inputs gas = (r ← attempt m; mret (Some r)).
Proof.
  intros Hps Hb Hp. unfold precompiles_call. rewrite Hp. specialize (Hps _ _ Hp).
  destruct p as [p|p|p]; simpl in Hps; eexists; (split; [|reflexivity]); auto.
  apply call_rewinds_of; [apply rewind_lift|]. intros s. apply Hps.
Qed.

Lemma call_precompile_within (ps : ContextPrecompiles (DB := DB)) env inputs g j s out s' :
  map_Forall (fun _ => precompile_rewinds) ps -> Forall is_byte (ci_input inputs) ->
  within j s -> call_precompile (DbErr := DbErr) ps env inputs (Gas_new g) s = (Ok out, s') ->
  (forall c, out = Some (RC_NewCall c) ->
     Forall (fun t => fits 256 (transfer_amount t)) (CallValues_get (cinfo_call_values c))) /\
  (within j s' \/ depth s'.1 = depth (entered j) /\
     exists r, out = Some (RC_Result r) /\ return_ok (ir_result r) = true).
Proof.
  intros Hps Hb Hw H. bind_ok H o s1 H1. cbn [limit Gas_new] in H1.
  destruct (ps !! bytecode_address inputs) as [p|] eqn:Hp.
  2: { unfold precompiles_call in H1. rewrite Hp in H1. injection H1 as <- <-. injection H as <- <-. split; [done|by left]. }
  destruct (precompiles_call_eq ps env inputs g p Hps Hb Hp) as (m & Hm & Heq). rewrite Heq in H1.
  bind_ok H1 r s2 H2. injection H1 as <- <-. destruct s as [j1 d1], s2 as [j2 d2].
  destruct Hw as [[es He] Hr]. unfold attempt in H2. simpl in Hr, He.
  destruct (m (j1, d1)) as [r1 [j3 d3]] eqn:Hm1.
  destruct (Hm _ _ _ _ _ Hr Hm1) as [Hwords Hcase].
  assert (r1 <> Panic /\ (j2, d2) = (j3, d3)) as [Hne [= -> ->]] by (destruct r1; by simplify_eq).
  assert (Hin : within j (j3, d3) \/ depth j3 = depth j1 /\ exists info,
    r1 = Ok (RNC_Result info) /\ gas_used info <= g).
  { destruct Hcase as [?|[[[es' He'] Hd']|?]]; [done| |by right]. left.
    split; [eexists; by eapply jext_trans|]. by eapply ready_jext. }
  clear Hcase. destruct r1 as [[info|c]|e|]; [..|done]; injection H2 as <-; cbv beta iota zeta in H.
  - destruct (record_cost (gas_used info) (Gas_new g)) as [ok gg] eqn:Hg. injection H as <- <-.
    split; [done|]. destruct Hin as [?|(Hdep & i & [= <-] & Hle)]; [by left|].
    right. split; [simpl; rewrite Hdep; apply He|]. eexists. split; [done|].
    unfold record_cost in Hg. cbn [remaining Gas_new] in Hg.
    destruct (Z.ltb_spec g (gas_used info)); [lia|]. by injection Hg as <- <-.
  - injection H as <- <-. split; [|destruct Hin as [?|(_ & ? & ? & _)]; [by left|done]].
    intros c' [= <-]. by apply Hwords.
  - injection H as <- <-. split; [done|]. destruct Hin as [?|(_ & ? & ? & _)]; [by left|done].
Qed.

(** What a made frame promises: a result that failed leaves the state of [j]
    restored (unless a payment overflowed); a frame reverts to [j] whatever ran
    in it. *)
Definition frame_promise j (fr : FrameOrResult) (s : JournaledState * DB) : Prop :=
  match fr with
  | FOR_Result (FR_Call o) =>
      ir_result (co_result o) = IR_OverflowPayment \/
      depth s.1 = depth j /\ (return_ok (ir_result (co_result o)) = false -> restored j s.1)
  | FOR_Frame (Frame_Call _ fd) =>
      forall r j2 d2, run s (j2, d2) -> return_ok (ir_result r) = false ->
        exists jr, call_return (DbErr := DbErr) r (fd_checkpoint fd) (j2, d2) = (Ok tt, (jr, d2)) /\
          restored j jr
  | _ => False
  end.

Lemma refuse_promise j r inputs gas s fr s' :
  fits 64 (depth j) -> r = IR_OverflowPayment \/ within j s ->
  (_ ← on_js (checkpoint_revert (checkpoint_of j));
   mret (new_call_result (mkInterpreterResult r [] gas) (return_memory_offset inputs)) : CtxM _) s
    = (Ok fr, s') ->
  frame_promise j fr s'.
Proof.
  intros Hd Hw H. apply M_bind_inv in H as [([] & s1 & H1 & [= <- <-])|[(? & ? & ?)|[? ?]]]; [|done..].
  destruct Hw as [->|Hw]; [by left|]. right. destruct s as [j1 d1].
  destruct (within_revert j j1 d1 Hd Hw) as (jr & Hr & Hres). rewrite Hr in H1. injection H1 as <-.
  split; [apply Hres|done].
Qed.

Lemma frame_ok_promise j contract limit st off s fr s' :
  fits 64 (depth j) -> within j s ->
  (interpreter ← lift (Interpreter_new contract limit st);
   mret (new_call_frame off (checkpoint_of j) interpreter) : CtxM _) s = (Ok fr, s') ->
  frame_promise j fr s'.
Proof.
  intros Hd Hw H. apply M_bind_inv in H as [(i & s1 & H1 & [= <- <-])|[(? & ? & ?)|[? ?]]]; [|done..].
  injection H1 as _ <-. intros r j2 d2 Hrun Hr. unfold call_return. rewrite Hr.
  apply within_revert; [done|]. by eapply within_run.
Qed.

(** The frame made for the call a precompile asks for. *)
Lemma new_call_promise inputs gas info j s fr s' :
  fits 64 (depth j) -> within j s ->
  Forall (fun t => fits 256 (transfer_amount t)) (CallValues_get (cinfo_call_values info)) ->
  ('(code_hash, bytecode) ← load_bytecode (cinfo_target_address info);
   let call_inputs := new_call_inputs inputs gas info in
   refused ← Journal.transfer (ci_caller call_inputs) (target_address call_inputs)
               (CallValues_get (ci_values call_inputs));
   match refused with
   | Some result =>
       _ ← on_js (checkpoint_revert (checkpoint_of j));
       mret (new_call_result (mkInterpreterResult result [] gas) (return_memory_offset inputs))
   | None =>
       let contract := Contract_new_with_context (cinfo_input_data info) bytecode
         (Some code_hash) call_inputs in
       interpreter ← lift (Interpreter_new contract (ci_gas_limit call_inputs) (is_static call_inputs));
       mret (new_call_frame (return_memory_offset call_inputs) (checkpoint_of j) interpreter)
   end : CtxM _) s = (Ok fr, s') ->
  frame_promise j fr s'.
Proof.
  intros Hd Hw Hv H. bind_ok H x s1 H1. destruct x as [h c].
  apply (within_step _ _ _ _ _ (rewind_load_bytecode _) Hw) in H1 as [?|Hw1]; [done|].
  cbv zeta in H. bind_ok H r s2 H2.
  assert (Hw2 : r = Some IR_OverflowPayment \/ within j s2).
  { destruct s1 as [j1 d1], s2 as [j2 d2]. destruct Hw1 as [[es He] Hr]. simpl in *.
    apply rewind_transfer in H2 as [?|[?|[[es' He'] Hd']]]; [done|left; congruence| |done|done].
    right. split; [eexists; by eapply jext_trans|]. by eapply ready_jext. }
  destruct r as [r|].
  - eapply refuse_promise; [done| |exact H]. destruct Hw2 as [[= ->]|?]; auto.
  - destruct Hw2 as [?|Hw2]; [done|]. by eapply frame_ok_promise.
Qed.

(** [make_call_frame], from the checkpoint on. *)
Lemma make_call_frame_promise (ps : ContextPrecompiles (DB := DB)) env inputs j d fr s' :
  (CALL_STACK_LIMIT <? depth j) = false ->
  ready j d -> map_Forall (fun _ => precompile_rewinds) ps -> Forall is_byte (ci_input inputs) ->
  Forall (fun t => fits 256 (transfer_amount t)) (CallValues_get (ci_values inputs)) ->
  make_call_frame (DbErr := DbErr) ps env inputs (j, d) = (Ok fr, s') ->
  exists cb jl dl, load_bytecode (DbErr := DbErr) (bytecode_address inputs) (j, d) = (Ok cb, (jl, dl)) /\
    ready jl dl /\ depth jl = depth j /\ frame_promise jl fr s'.
Proof.
  intros Hdep Hr Hps Hb Hv H. unfold make_call_frame in H.
  erewrite M_bind_ok in H by reflexivity. cbn [fst] in H. rewrite Hdep in H.
  bind_ok H cb sl H1. destruct cb as [h c], sl as [jl dl].
  destruct (rewind_load_bytecode _ _ _ Hr _ _ _ H1) as [?|[[es He] Hd]]; [done|].
  pose proof (ready_jext _ _ _ _ _ He Hd Hr) as Hrl.
  exists (h, c), jl, dl. split; [done|]. split; [done|]. split; [apply He|].
  assert (Hfd : fits 64 (depth jl)) by apply (rd_wf _ _ Hrl).
  erewrite (M_bind_ok (on_js checkpoint)) in H by (rewrite on_js_eq, checkpoint_eq; reflexivity).
  bind_ok H refused s1 H2.
  apply (transfer_values_within jl) in H2 as [?|H2]; [done| |done|by apply within_entered].
  destruct refused as [r|].
  { eapply refuse_promise; [done| |exact H]. destruct H2 as [[= ->]|?]; auto. }
  destruct H2 as [?|Hw]; [done|]. bind_ok H out s2 H3.
  apply (call_precompile_within ps env inputs _ jl) in H3 as [Hwords Hw2]; [|done..].
  destruct s2 as [j2 d2]. destruct out as [[r|info]|].
  - bind_ok H u s3 H4. injection H as <- <-. right. simpl.
    destruct (return_ok (ir_result r)) eqn:Hok.
    + rewrite on_js_eq in H4. injection H4 as _ <-. split; [|done]. simpl.
      assert (Hd2 : depth j2 = depth (entered jl)) by (destruct Hw2 as [[[? He2] _]|[? _]]; [apply He2|done]).
      rewrite Hd2. by apply wrapping_sub_add.
    + destruct Hw2 as [Hw2|(_ & ? & [= <-] & ?)]; [|congruence].
      destruct (within_revert jl j2 d2 Hfd Hw2) as (jr & Hrev & Hres). rewrite Hrev in H4.
      injection H4 as _ <-. split; [apply Hres|done].
  - destruct Hw2 as [Hw2|(_ & ? & ? & _)]; [|done].
    eapply (new_call_promise inputs); [done|exact Hw2| |exact H]. by apply Hwords.
  - destruct Hw2 as [Hw2|(_ & ? & ? & _)]; [|done]. destruct (negb _).
    + by eapply frame_ok_promise.
    + bind_ok H u s3 H4. injection H as <- <-.
      destruct (within_commit jl j2 dl d2 Hrl Hw2) as (Hc & Hdc & _). rewrite Hc in H4. injection H4 as _ <-.
      right. split; [done|]. discriminate.
Qed.

(** The native tokens are among the precompiles that rewind. *)
Lemma native_tokens_rewind (ps : ContextPrecompiles (DB := DB)) :
  map_Forall (fun _ => precompile_rewinds) ps ->
  map_Forall (fun _ => precompile_rewinds) (with_native_tokens (DbErr := DbErr) ps).
Proof.
  intros Hps a p Hp. unfold with_native_tokens, ContextPrecompiles in *.
  apply lookup_insert_Some in Hp as [[<- <-]|[_ Hp]]; [|by eapply Hps].
  intros inputs gas Hb. by apply call_mut_rewinds.
Qed.

(** ** Frames of loaded contracts *)

Lemma load_bytecode_loaded j d a x c :
  accounts (state j) !! a = Some x -> code (info x) = Some c ->
  load_bytecode (DbErr := DbErr) a (j, d) = (Ok (code_hash (info x), c), (j, d)).
Proof.
  intros Hx Hc. unfold load_bytecode. erewrite M_bind_ok by by eapply load_code_loaded.
  cbv beta iota. by rewrite Hc.
Qed.

(** Legacy code runs, once analysed. *)
Lemma Interpreter_new_legacy {E} input c hash target caller values limit st :
  is_eof c = false ->
  exists i, Interpreter_new (E := E) (Contract_new input c hash target caller values) limit st = Ok i /\
    contract i = Contract_new input c hash target caller values /\ in_is_static i = st /\
    in_gas i = Gas_new limit /\ instruction_result i = IR_Continue.
Proof. intros Hc. destruct c; [eexists; split_and!; reflexivity..|done]. Qed.

(** ** What a creation stores *)

Lemma set_code_stores j d a c x :
  journal j <> [] -> accounts (state j) !! a = Some x ->
  exists j' x', on_js (DbErr := DbErr) (set_code a c) (j, d) = (Ok tt, (j', d)) /\
    depth j' = depth j /\ accounts (state j') !! a = Some x' /\
    code (info x') = Some c /\ code_hash (info x') = hash_slow c.
Proof.
  intros HJ Hx. rewrite on_js_eq. unfold set_code.
  rewrite (account_bind _ x) by done.
  assert (Htouch : exists j1 x1, touch_account (E := EVMError DbErr) a j = (Ok tt, j1) /\ depth j1 = depth j /\
    journal j1 <> [] /\ accounts (state j1) !! a = Some x1).
  { unfold touch_account. rewrite (account_bind _ x) by done.
    destruct (is_touched x); [by eexists _, x|]. rewrite push_bind by done.
    rewrite update_account_ok by eauto. eexists _, _.
    split; [reflexivity|]. split_and!; [done|by apply jpush_nonempty|].
    simpl. by rewrite lookup_alter_eq, Hx. }
  destruct Htouch as (j1 & x1 & Ht & Hd1 & HJ1 & Hx1).
  erewrite M_bind_ok by exact Ht. rewrite push_bind by done.
  rewrite update_account_ok by eauto. eexists _, _. split; [reflexivity|].
  split; [done|]. simpl. rewrite lookup_alter_eq, Hx1. by split.
Qed.
End frames.

(** ** Theorems *)

Section frame_theorems.
Context {DB DbErr : Type} `{HDB : Database DB DbErr} `{HOK : !DatabaseOk DB DbErr} `{HK : Keccak}.
Implicit Types (j : JournaledState) (d : DB) (inputs : CallInputs).


(** [transferAndCall] takes the tokens of the caller of the calling contract.
    A contract that delegate-calls the precompile with [transferAndCall] gets a
    frame for the callee whose caller is the caller of that contract, and the
    tokens have moved from there, not from the contract that asked for it. *)
Theorem delegated_transfer_and_call_debits_caller (ps : ContextPrecompiles (DB := DB)) env inputs j d
  x0 c0 y c values callee id amount offset cd :
  depth j <= CALL_STACK_LIMIT -> journal j <> [] -> token_ids (state j) <> [] ->
  bytecode_address inputs = NATIVE_TOKENS_ADDRESS ->
  accounts (state j) !! NATIVE_TOKENS_ADDRESS = Some x0 -> code (info x0) = Some c0 ->
  ci_values inputs = CV_Apparent values -> is_static inputs = false ->
  BASE_GAS_COST <= ci_gas_limit inputs ->
  contract_at j (target_address inputs) -> is_Some (accounts (state j) !! ci_caller inputs) ->
  accounts (state j) !! callee = Some y -> code (info y) = Some c ->
  Bytecode_is_empty c = false -> is_eof c = false ->
  fits 160 callee -> fits 256 id -> fits 256 amount -> fits 256 offset -> 28 <= len cd < 2 ^ 64 ->
  ci_input inputs = to_be_bytes 4 TRANSFER_AND_CALL_SELECTOR
    ++ encode_words [callee; id; amount; offset; len cd] ++ cd ->
  let moved := ledger_transfer (ci_caller inputs) callee [mkTransfer id amount] (ledger (accounts (state j))) in
  moved.1 = None ->
  exists fd j',
    make_call_frame (DbErr := DbErr) (with_native_tokens ps) env inputs (j, d) =
      (Ok (FOR_Frame (Frame_Call (0, 0) fd)), (j', d)) /\
    c_caller (contract (fd_interpreter fd)) = ci_caller inputs /\
    c_target_address (contract (fd_interpreter fd)) = callee /\
    c_call_values (contract (fd_interpreter fd)) = [mkTransfer id amount] /\
    forall a t, ledger (accounts (state j')) a t = moved.2 a t.
Proof.
  intros Hdep HJ Hids Hba Hx0 Hc0 Hval Hst Hg Hct Hcl Hy Hc Hce Hceof Hto Hid Ham Hoff Hcd Hin moved Hmoved.
  unfold make_call_frame. erewrite M_bind_ok by reflexivity. cbn [fst]. bool_lia.
  rewrite Hba. erewrite M_bind_ok by by eapply load_bytecode_loaded. cbv beta iota.
  erewrite (M_bind_ok (on_js checkpoint)) by (rewrite on_js_eq, checkpoint_eq; reflexivity).
  unfold transfer_values. rewrite Hval. erewrite M_bind_ok by reflexivity. cbv beta iota.
  assert (Hpre : call_mut (DbErr := DbErr) inputs (ci_gas_limit inputs) (entered j, d) =
    (Ok (RNC_Call (mkPrimitiveCallInfo callee [mkTransfer id amount] (drop 28 cd))), (entered j, d))).
  { rewrite (transfer_and_call_loaded inputs (ci_gas_limit inputs) (entered j) d callee id amount offset cd);
      [bool_lia; done|done..| |done|done|done|done|lia|done].
    exact (ex_intro _ y (ex_intro _ c (conj Hy (conj Hc Hce)))). }
  erewrite (M_bind_ok (call_precompile _ _ _ _)).
  2: { unfold call_precompile, precompiles_call, with_native_tokens, ContextPrecompiles in *. rewrite Hba.
       rewrite lookup_insert_eq. cbn [limit Gas_new].
       erewrite M_bind_ok by (erewrite M_bind_ok by (unfold attempt; rewrite Hpre; reflexivity); reflexivity).
       reflexivity. }
  cbv beta iota. cbn [cinfo_target_address pci_target_address].
  erewrite M_bind_ok by by eapply (load_bytecode_loaded (entered j)). cbv beta iota zeta.
  destruct (transfer_loaded (DbErr := DbErr) (entered j) d (ci_caller inputs) callee [mkTransfer id amount])
    as (r & j' & Htr & Hr & Hl & _); [apply entered_nonempty|done|done|by eexists|].
  erewrite M_bind_ok by exact Htr.
  change (state (entered j)) with (state j) in Hr, Hl. fold moved in Hr, Hl. rewrite Hr, Hmoved.
  unfold Contract_new_with_context, new_call_inputs. cbn [target_address ci_caller call_values
    cinfo_input_data ci_gas_limit is_static ci_values return_memory_offset].
  edestruct (Interpreter_new_legacy (E := EVMError DbErr)) as (i & Hi & Hci & _); [exact Hceof|].
  erewrite M_bind_ok by (unfold lift; rewrite Hi; reflexivity).
  eexists _, j'. split; [reflexivity|]. cbn [fd_interpreter]. rewrite Hci.
  by split_and!.
Qed.

(** The end of a creation.  A creation that did not succeed, whose code
    starts with 0xEF (from London on), is larger than the limit (from Spurious
    Dragon on), or costs more than the gas left (from Homestead on) is reverted
    and says why; otherwise the account holds the returned code with its hash,
    at 200 gas a byte (before Homestead no code, when the gas does not suffice). *)
Theorem create_return_spec spec_id env r a j j1 d x :
  fits 64 (depth j) -> within j (j1, d) -> accounts (state j1) !! a = Some x ->
  0 <= remaining (ir_gas r) < 2 ^ 64 -> len (ir_output r) < 2 ^ 32 ->
  let ret := create_return (DbErr := DbErr) spec_id env r a (checkpoint_of j) (j1, d) in
  let failed e := exists jr, ret = (Ok (mkInterpreterResult e (ir_output r) (ir_gas r)), (jr, d)) /\ restored j jr in
  let stored out gas := exists j' x' c, ret = (Ok (mkInterpreterResult IR_Return out gas), (j', d)) /\
    depth j' = depth j /\ accounts (state j') !! a = Some x' /\ code_hash (info x') = hash_slow (new_raw out) /\
    code (info x') = Some c /\ original_byte_slice c = out in
  let cost := 200 * len (ir_output r) in
  if negb (return_ok (ir_result r)) then failed (ir_result r)
  else if enabled spec_id LONDON && bool_decide (head (ir_output r) = Some 0xEF)
  then failed IR_CreateContractStartingWithEF
  else if enabled spec_id SPURIOUS_DRAGON
    && (default MAX_CODE_SIZE (limit_contract_code_size (cfg env)) <? len (ir_output r))
  then failed IR_CreateContractSizeLimit
  else if cost <=? remaining (ir_gas r)
  then stored (ir_output r)
    (mkGas (limit (ir_gas r)) (remaining (ir_gas r) - cost) (refunded (ir_gas r)))
  else if enabled spec_id HOMESTEAD then failed IR_OutOfGas
  else stored [] (ir_gas r).
Proof.
  intros Hd Hw Hx Hg Hl ret.
  assert (Hret : ret = create_return (DbErr := DbErr) spec_id env r a (checkpoint_of j) (j1, d)) by done.
  clearbody ret. intros failed stored cost.
  destruct (within_revert (DbErr := DbErr) j j1 d Hd Hw) as (jr & Hrev & Hres).
  assert (Hfail : forall e, (_ ← on_js (DbErr := DbErr) (checkpoint_revert (checkpoint_of j));
      mret (mkInterpreterResult e (ir_output r) (ir_gas r))) (j1, d) = ret -> failed e).
  { intros e <-. exists jr. split; [by erewrite M_bind_ok by exact Hrev|done]. }
  assert (HJ1 : journal (left j1) <> []) by apply Hw.
  assert (Hdl : depth (left j1) = depth j).
  { destruct Hw as [[es He] _]. apply jx_depth in He. simpl in He |- *. rewrite He. by apply wrapping_sub_add. }
  assert (Hstore : forall out gas, (_ ← on_js (DbErr := DbErr) checkpoint_commit;
      _ ← on_js (set_code a (match perf_analyse_created_bytecodes (cfg env) with
        | AK_Raw => new_raw out | AK_Analyse => to_analysed (new_raw out) end));
      mret (mkInterpreterResult IR_Return out gas)) (j1, d) = ret -> stored out gas).
  { intros out gas <-. unfold stored. match goal with |- context [set_code a ?code] => set (c := code) end.
    destruct (set_code_stores (DbErr := DbErr) (left j1) d a c x HJ1 Hx) as (j' & x' & Hs & Hd' & Hx' & Hc & Hh).
    exists j', x', c. erewrite M_bind_ok by (rewrite on_js_eq; reflexivity).
    erewrite M_bind_ok by exact Hs. split_and!; [done|by rewrite Hd'|done| |done|].
    - rewrite Hh. unfold c. case_match; [done|apply hash_to_analysed].
    - unfold c. case_match; [done|apply original_to_analysed]. }
  pose proof (len_nonneg (ir_output r)) as Hn.
  assert (Hcost : wrapping_mul 64 (len (ir_output r)) CODEDEPOSIT = cost).
  { unfold wrapping_mul, CODEDEPOSIT, cost. rewrite Z.mod_small by lia. lia. }
  unfold create_return in Hret. rewrite Hcost in Hret. unfold record_cost in Hret.
  cbv zeta in Hret. unfold set_ir_result in Hret.
  destruct (negb (return_ok (ir_result r))); [apply Hfail; rewrite Hret; by destruct r|].
  destruct (_ && bool_decide _); [by apply Hfail|].
  destruct (_ && (_ <? _)); [by apply Hfail|].
  destruct (Z.leb_spec cost (remaining (ir_gas r))) as [Hle|Hgt].
  - apply Hstore. rewrite Hret.
    replace (remaining (ir_gas r) <? cost) with false by (symmetry; apply Z.ltb_ge; lia).
    unfold wrapping_sub. rewrite Z.mod_small by (unfold cost in *; lia). done.
  - replace (remaining (ir_gas r) <? cost) with true in Hret by (symmetry; apply Z.ltb_lt; lia).
    destruct (enabled spec_id HOMESTEAD); [by apply Hfail|by apply Hstore].
Qed.
End frame_theorems.

(** ** Witnesses *)

Section frame_witnesses.
#[local] Existing Instances sample_hash sample_db sample_db_ok.

(** A call that transfers more than its caller has. *)
Definition sample_poor_call : CallInputs :=
  mkCallInputs [] (0, 0) 1000 8 8 9 (CV_Transfer [mkTransfer 0 500]) CS_Call false false.
Definition sample_poor_frame :=
  make_call_frame (DbErr := False) (with_native_tokens ∅) Env_default sample_poor_call (sample_js, cdb).


(** Contract 7, called by account 10, delegate-calls [transferAndCall] to 8. *)
Definition sample_delegate_world : JournaledState :=
  mkJournaledState (mkEvmState {[ 7 := sample_contract 100; 8 := sample_contract 1;
    10 := mkAccount (AccountInfo_from_balances (init_balances 50)) ∅ 0;
    NATIVE_TOKENS_ADDRESS := sample_contract 0 ]} [BASE_TOKEN_ID]) ∅ [] 0 [[]] CANCUN ∅.
Definition sample_delegate_call : CallInputs :=
  mkCallInputs (to_be_bytes 4 TRANSFER_AND_CALL_SELECTOR
      ++ encode_words [8; 0; 5; 128; 28] ++ replicate 28 1)
    (0, 0) 1000 NATIVE_TOKENS_ADDRESS 7 10 (CV_Apparent []) CS_DelegateCall false false.

Lemma delegated_transfer_and_call_debits_caller_witness :
  exists fd j',
    make_call_frame (DbErr := False) (with_native_tokens ∅) Env_default sample_delegate_call
      (sample_delegate_world, cdb) = (Ok (FOR_Frame (Frame_Call (0, 0) fd)), (j', cdb)) /\
    c_caller (contract (fd_interpreter fd)) = 10 /\
    ledger (accounts (state j')) 10 0 = 45 /\ ledger (accounts (state j')) 7 0 = 100 /\
    ledger (accounts (state j')) 8 0 = 6.
Proof.
  destruct (delegated_transfer_and_call_debits_caller (DbErr := False) ∅ Env_default sample_delegate_call
    sample_delegate_world cdb (sample_contract 0) (LegacyRaw [0]) (sample_contract 1) (LegacyRaw [0]) []
    8 0 5 128 (replicate 28 1)) as (fd & j' & H & Hc & _ & _ & Hl);
    [by vm_compute|discriminate|discriminate|reflexivity|vm_compute; reflexivity|reflexivity|reflexivity
    |reflexivity|by vm_compute| | |vm_compute; reflexivity|reflexivity|reflexivity|reflexivity|by vm_compute..
    |vm_compute; reflexivity|vm_compute; reflexivity|].
  - exists (sample_contract 100), (LegacyRaw [0]). split; [vm_compute; reflexivity|split; reflexivity].
  - eexists. vm_compute. reflexivity.
  - exists fd, j'. split; [exact H|]. split; [exact Hc|]. rewrite !Hl.
    split; [vm_compute; reflexivity|]. split; vm_compute; reflexivity.
Defined.

(** Two bytes of code deposited with 1000 gas left. *)
Lemma create_return_spec_witness :
  exists j' x' c, create_return (DbErr := False) CANCUN Env_default
      (mkInterpreterResult IR_Return [0x60; 0] (mkGas 2000 1000 0)) 8 (mkCheckpoint 0 1)
      (sample_created.2, cdb)
    = (Ok (mkInterpreterResult IR_Return [0x60; 0] (mkGas 2000 600 0)), (j', cdb)) /\
    depth j' = 0 /\ accounts (state j') !! 8 = Some x' /\ code (info x') = Some c /\
    original_byte_slice c = [0x60; 0].
Proof.
  pose proof (create_return_spec (DbErr := False) CANCUN Env_default
    (mkInterpreterResult IR_Return [0x60; 0] (mkGas 2000 1000 0)) 8 sample_js sample_created.2 cdb) as H.
  assert (Hx : exists x, accounts (state sample_created.2) !! 8 = Some x) by (eexists; vm_compute; reflexivity).
  destruct Hx as [x Hx]. specialize (H x).
  assert (Hw : within sample_js (sample_created.2, cdb)).
  { split; [|apply sample_created_ready].
    destruct (enter_jext sample_js _ _ ltac:(discriminate) (rd_wf _ _ sample_ready) sample_enter) as [_ He].
    exact He. }
  specialize (H ltac:(by vm_compute) Hw Hx ltac:(by vm_compute) ltac:(by vm_compute)).
  cbv zeta in H. repeat eval_if H.
  destruct H as (j' & x' & c & H1 & H2 & H3 & _ & H4 & H5).
  exists j', x', c. split; [exact H1|]. split; [exact H2|]. split; [exact H3|]. split; [exact H4|exact H5].
Defined.
End frame_witnesses.
