(* ===== verification/Handler.v ===== *)
(** The handlers of the main network, in the order a transaction goes through
    them: [crates/revm/src/handler/mainnet/validation.rs], [pre_execution.rs],
    [execution.rs] (the return of the last frame) and [post_execution.rs].

    The error a host operation leaves in the context is part of the state of an
    [EvmM]; the handlers that never look at it are computations on the journal
    and the database alone. *)

From S2P Require Import Prelude.
From S2P Require Import Specification.
From S2P Require Import Bytes.
From S2P Require Import Eof.
From S2P Require Import Bytecode.
From S2P Require Import State.
From S2P Require Import Result.
From S2P Require Import InstructionResult.
From S2P Require Import Database.
From S2P Require Import Journal.
From S2P Require Import JournalRun.
From S2P Require Import JournalSpec.
From S2P Require Import CallInputs.
From S2P Require Import Gas.
From S2P Require Import Env.
From S2P Require Import Interpreter.
From S2P Require Import Context.

(** The inputs of the first frame. *)
Definition CallInputs_new (t : TxEnv) (gas_limit : Z) : option CallInputs :=
  match transact_to t with
  | TT_Call target =>
      Some (mkCallInputs (tx_data t) (0, 0) gas_limit target target (tx_caller t)
              (CV_Transfer (transferred_tokens t)) CS_Call false false)
  | TT_Create => None
  end.

Definition CreateInputs_new (t : TxEnv) (gas_limit : Z) : option CreateInputs :=
  match transact_to t with
  | TT_Create =>
      Some (mkCreateInputs (tx_caller t) Create (get_base_transfer_value t) (tx_data t) gas_limit)
  | TT_Call _ => None
  end.

(** ** Validation *)

Definition validate_env {DbErr} (spec : SpecId) (env : Env) : outcome (EVMError DbErr) unit :=
  _ ← map_err EVMHeader (validate_block_env spec env);
  map_err EVMTransaction (validate_tx spec env).

Definition initial_tx_gas {DbErr} (spec : SpecId) (env : Env) : outcome (EVMError DbErr) Z :=
  initial_gas_spend ← unwrap (validate_initial_tx_gas spec (tx_data (tx env))
    (TT_is_create (transact_to (tx env))) (access_list (tx env)) (transferred_tokens (tx env)));
  if tx_gas_limit (tx env) <? initial_gas_spend
  then Err (EVMTransaction CallGasCostMoreThanGasLimit)
  else Ok initial_gas_spend.

(** ** Fees *)

(** [deduct_caller_inner]. *)
Definition deduct_caller_inner {E} (spec : SpecId) (caller_account : Account) (env : Env)
  : outcome E Account :=
  let gas_cost := saturating_mul 256 (tx_gas_limit (tx env)) (effective_gas_price env) in
  gas_cost ← (if enabled spec CANCUN then
                data_fee ← unwrap (calc_data_fee env);
                Ok (saturating_add 256 gas_cost data_fee)
              else Ok gas_cost);
  let acc := set_info (decrease_base_balance_saturating gas_cost) caller_account in
  let acc :=
    if TT_is_call (transact_to (tx env))
    then set_info (fun i => set_nonce (saturating_add 64 (nonce i) 1) i) acc
    else acc in
  Ok (mark_touch acc).

(** The gas the transaction pays for. *)
Definition final_gas_used (g : Gas) : Z := wrapping_sub 64 (spent g) (cast 64 (refunded g)).
Definition gas_returned (g : Gas) : Z := wrapping_add 64 (remaining g) (cast 64 (refunded g)).

Definition coinbase_gas_price (spec : SpecId) (env : Env) : Z :=
  if enabled spec LONDON then saturating_sub (effective_gas_price env) (basefee (block env))
  else effective_gas_price env.

Definition set_frame_gas (g : Gas) (r : FrameResult) : FrameResult :=
  let ir := interpreter_result r in
  set_interpreter_result (mkInterpreterResult (ir_result ir) (ir_output ir) g) r.

Definition frame_return_with_refund_flag (spec : SpecId) (env : Env) (r : FrameResult)
  (refund_enabled : bool) : FrameResult :=
  let instruction_result := frame_instruction_result r in
  let remaining := remaining (frame_gas r) in
  let refunded := refunded (frame_gas r) in
  let gas := Gas_new_spent (tx_gas_limit (tx env)) in
  let gas :=
    if return_ok instruction_result then record_refund refunded (erase_cost remaining gas)
    else if return_revert instruction_result then erase_cost remaining gas
    else gas in
  set_frame_gas (if refund_enabled then set_final_refund (is_enabled_in spec LONDON) gas else gas) r.

Definition last_frame_return (spec : SpecId) (env : Env) (r : FrameResult) : FrameResult :=
  frame_return_with_refund_flag spec env r true.

Section handler.
Context {DB DbErr : Type} `{HDB : Database DB DbErr}.
Abbreviation CtxM := (M (JournaledState * DB) (EVMError DbErr)).

(** *** The check against the state *)

Fixpoint check_token_ids (tokens : list TokenTransfer) : CtxM unit :=
  match tokens with
  | [] => mret tt
  | token :: rest =>
      db ← gets snd;
      match is_token_id_valid db (transfer_id token) with
      | Ok true => check_token_ids rest
      | Ok false | Err _ => fail (EVMTransaction (InvalidTokenId (transfer_id token)))
      | Panic => lift Panic
      end
  end.

Definition tx_against_state (spec : SpecId) (env : Env) : CtxM unit :=
  _ ← check_token_ids (transferred_tokens (tx env));
  '(caller_account, _) ← load_account (tx_caller (tx env));
  acc ← lift (map_err EVMTransaction (validate_tx_against_state spec env caller_account));
  on_js (update_account (tx_caller (tx env)) (fun _ => acc)).

(** *** Before the execution *)

Definition load_accounts (spec : SpecId) (env : Env) : CtxM unit :=
  _ ← on_js (modify (set_spec_id spec));
  _ ← (if enabled spec SHANGHAI
       then _ ← initial_account_load (coinbase (block env)) []; mret tt else mret tt);
  _ ← (if enabled spec PRAGUE
       then _ ← initial_account_load BLOCKHASH_STORAGE_ADDRESS []; mret tt else mret tt);
  load_access_list env.

Definition deduct_caller (spec : SpecId) (env : Env) : CtxM unit :=
  '(caller_account, _) ← load_account (tx_caller (tx env));
  acc ← lift (deduct_caller_inner spec caller_account env);
  on_js (update_account (tx_caller (tx env)) (fun _ => acc)).

(** *** After the execution *)

Definition reimburse_caller (env : Env) (gas : Gas) : CtxM unit :=
  _ ← load_account (tx_caller (tx env));
  on_js (update_account (tx_caller (tx env)) (set_info (increase_base_balance_saturating
    (wrapping_mul 256 (effective_gas_price env) (gas_returned gas))))).

Definition reward_beneficiary (spec : SpecId) (env : Env) (gas : Gas) : CtxM unit :=
  _ ← load_account (coinbase (block env));
  _ ← on_js (update_account (coinbase (block env)) mark_touch);
  on_js (update_account (coinbase (block env)) (set_info (increase_base_balance_saturating
    (wrapping_mul 256 (coinbase_gas_price spec env) (final_gas_used gas))))).

(** *** The result *)

Record ResultAndState : Type := mkResultAndState { rs_result : ExecutionResult; rs_state : EvmState }.

(** The context, with the error that a host operation leaves in it. *)
Abbreviation EvmState' := ((JournaledState * DB) * option (EVMError DbErr))%type.
Abbreviation EvmM := (M EvmState' (EVMError DbErr)).

Definition on_ctx {A} (m : CtxM A) : EvmM A := zoom fst (fun c s => (c, s.2)) m.

(** [take_error]. *)
Definition take_error : EvmM unit := fun s =>
  match s.2 with
  | None => (Ok tt, s)
  | Some e => (Err e, (s.1, None))
  end.

Definition output (r : FrameResult) : EvmM ResultAndState :=
  _ ← take_error;
  let gas_refunded := cast 64 (refunded (frame_gas r)) in
  let used := final_gas_used (frame_gas r) in
  out ← lift (frame_output r);
  '(state, logs) ← (fun s => let '(out, j) := finalize s.1.1 in (Ok out, ((j, s.1.2), s.2)));
  result ← lift (
    match SOH_from (frame_instruction_result r) with
    | Ok (SOH_Success reason) => Ok (Success reason used gas_refunded logs out)
    | Ok SOH_Revert => Ok (Revert used (Output_data out))
    | Ok (SOH_Halt reason) => Ok (Halt reason used)
    | _ => Panic
    end);
  mret (mkResultAndState result state).

Definition clear_context : EvmM unit := fun s => (Ok tt, ((Journal.clear s.1.1, s.1.2), None)).
End handler.
