(* ===== verification/Fees.v ===== *)
(** What a transaction costs: a validated transaction can pay, its caller is
    charged before the execution, and the settlement afterwards burns the base
    fee and the blob fee and nothing else. *)

From S2P Require Import Prelude.
From S2P Require Import Specification.
From S2P Require Import Bytes.
From S2P Require Import Eof.
From S2P Require Import Bytecode.
From S2P Require Import State.
From S2P Require Import Result.
From S2P Require Import InstructionResult.
From S2P Require Import Database.
From S2P Require Import Journal.
From S2P Require Import JournalRevert.
From S2P Require Import JournalRun.
From S2P Require Import InMemoryDb.
From S2P Require Import JournalSpec.
From S2P Require Import CallInputs.
From S2P Require Import Gas.
From S2P Require Import Env.
From S2P Require Import Interpreter.
From S2P Require Import Context.
From S2P Require Import Handler.

(** The fields of a transaction and its block are machine integers. *)
Record wf_env (env : Env) : Prop := {
  wf_gas_limit : fits 64 (tx_gas_limit (tx env));
  wf_gas_price : fits 256 (gas_price (tx env));
  wf_basefee : fits 256 (basefee (block env));
  wf_blob_price : forall p, get_blob_gasprice (block env) = Some p -> fits 128 p;
  wf_max_blob_fee : forall p, max_fee_per_blob_gas (tx env) = Some p -> fits 256 p;
  wf_amounts : Forall (fun t => fits 256 (transfer_amount t)) (transferred_tokens (tx env));
}.

(** What the caller is charged before the execution. *)
Definition transaction_cost (spec : SpecId) (env : Env) : Z :=
  tx_gas_limit (tx env) * effective_gas_price env +
  (if enabled spec CANCUN
   then default 0 (get_blob_gasprice (block env)) * get_total_blob_gas (tx env) else 0).

Lemma get_total_blob_gas_fits t : fits 64 (get_total_blob_gas t).
Proof. apply Z.mod_pos_bound. lia. Qed.

(** ** What validation promises *)

Lemma ensure_inv {E} cond (e : E) u : ensure cond e = Ok u -> cond = false.
Proof. by destruct cond. Qed.

Ltac inv_ok H :=
  repeat match type of H with
  | (ensure ?c ?e ≫= ?f) = Ok _ =>
      let Hc := fresh "Hc" in
      apply outcome_bind_Ok in H as ([] & Hc & H); apply ensure_inv in Hc
  | (?m ≫= ?f) = Ok _ =>
      let x := fresh "x" in let Hx := fresh "Hx" in apply outcome_bind_Ok in H as (x & Hx & H)
  end.

Lemma map_err_Ok {E F A} (f : E -> F) (m : outcome E A) a : map_err f m = Ok a <-> m = Ok a.
Proof. destruct m; simpl; split; congruence. Qed.

Lemma validate_env_Ok {DbErr} spec env :
  validate_env (DbErr := DbErr) spec env = Ok tt ->
  validate_block_env spec env = Ok tt /\ validate_tx spec env = Ok tt.
Proof. unfold validate_env. intros H. inv_ok H. destruct x. by rewrite !map_err_Ok in *. Qed.

Lemma validate_block_env_Ok spec env :
  validate_block_env spec env = Ok tt -> enabled spec CANCUN = true ->
  exists p, get_blob_gasprice (block env) = Some p.
Proof.
  unfold validate_block_env. intros H HC. inv_ok H. rewrite HC in Hc0.
  unfold get_blob_gasprice. destruct (blob_excess_gas_and_price (block env)) as [b|]; [by eexists|done].
Qed.

Lemma validate_blobs_Ok env max :
  validate_blobs env = Ok tt -> max_fee_per_blob_gas (tx env) = Some max ->
  exists p, get_blob_gasprice (block env) = Some p /\ p <= max.
Proof.
  unfold validate_blobs. intros H Hmax. rewrite Hmax in H. inv_ok H.
  destruct (get_blob_gasprice (block env)) as [p|]; [|done]. simpl in Hx. simplify_eq.
  exists x. split; [done|]. by apply Z.ltb_ge.
Qed.

Lemma validate_tx_Ok spec env :
  validate_tx spec env = Ok tt ->
  (enabled spec LONDON = true -> basefee (block env) <= effective_gas_price env) /\
  (enabled spec CANCUN = true -> validate_blobs env = Ok tt) /\
  NoDup (transfer_id <$> transferred_tokens (tx env)).
Proof.
  unfold validate_tx. intros H. inv_ok H. split_and!.
  - intros HL. rewrite HL in Hx. inv_ok Hx. apply ensure_inv in Hx. simpl in Hx. by apply Z.ltb_ge.
  - intros HC. rewrite HC in Hx2. by destruct x2.
  - apply ensure_inv in H. apply andb_false_iff in H as [H|H].
    + apply negb_false_iff, Z.eqb_eq in H. unfold len in H.
      destruct (transferred_tokens (tx env)); [constructor|simpl in H; lia].
    + by apply negb_false_iff, bool_decide_eq_true in H.
Qed.

Lemma required_base_balance_Ok spec env r :
  required_base_balance spec env = Ok r ->
  r = tx_gas_limit (tx env) * gas_price (tx env) + get_base_transfer_value (tx env)
      + (if enabled spec CANCUN then default 0 (calc_max_data_fee env) else 0) /\ r < 2 ^ 256.
Proof.
  unfold required_base_balance. intros H. inv_ok H.
  destruct (checked_mul _ _ _) as [c|] eqn:Hm; [|done]. apply checked_mul_Some in Hm as [-> Hm].
  cbn [mbind option_bind] in Hx.
  destruct (checked_add 256 _ (get_base_transfer_value _)) as [v|] eqn:Ha; [|done].
  apply checked_add_Some in Ha as [-> Ha]. simpl in Hx. simplify_eq.
  destruct (enabled spec CANCUN); [|simplify_eq; lia].
  destruct (checked_add 256 _ (default _ _)) as [v|] eqn:Hb; [|done].
  apply checked_add_Some in Hb as [-> Hb]. simpl in H. by simplify_eq.
Qed.

Lemma validate_tx_against_state_Ok spec env acc acc' :
  validate_tx_against_state spec env acc = Ok acc' ->
  acc' = acc /\ exists r, required_base_balance spec env = Ok r /\
    r <= get_base_balance (info acc) /\
    check_token_balances acc (transferred_tokens (tx env)) = Ok tt.
Proof.
  unfold validate_tx_against_state. intros H. inv_ok H.
  destruct (Z.ltb_spec (get_base_balance (info acc)) x0); [done|]. simplify_eq. destruct x2; eauto 6.
Qed.

(** The value of the base token among unique token ids. *)
Lemma get_base_transfer_value_spec t x :
  NoDup (transfer_id <$> transferred_tokens t) ->
  x ∈ transferred_tokens t -> transfer_id x = BASE_TOKEN_ID ->
  get_base_transfer_value t = transfer_amount x.
Proof.
  intros Hnd Hx Hid. unfold get_base_transfer_value.
  destruct (transferred_tokens t) as [|y l] eqn:Ht; [by apply elem_of_nil in Hx|].
  rewrite <- Ht in *. clear Ht y l.
  destruct (list_find _ _) as [[i y]|] eqn:Hf.
  2: { apply list_find_None in Hf. rewrite Forall_forall in Hf. by destruct (Hf x). }
  apply list_find_Some in Hf as (Hi & Hy & _). apply list_elem_of_lookup in Hx as [k Hk].
  assert (i = k) as ->; [|congruence].
  eapply NoDup_lookup; [exact Hnd| |]; rewrite list_lookup_fmap.
  - rewrite Hi. simpl. by rewrite Hy.
  - rewrite Hk. simpl. by rewrite Hid.
Qed.

(** ** The cost of a transaction *)

Lemma effective_gas_price_bounds env :
  wf_env env -> 0 <= effective_gas_price env <= gas_price (tx env).
Proof.
  intros H. pose proof (wf_gas_price _ H) as [? _]. unfold effective_gas_price.
  destruct (gas_priority_fee (tx env)) as [p|]; [|lia].
  pose proof (fits_wrapping_add 256 (basefee (block env)) p ltac:(lia)) as [? _]. lia.
Qed.

(** The blob fee is not larger than the maximum the transaction names. *)
Lemma blob_fee_le spec env :
  wf_env env -> validate_tx spec env = Ok tt -> enabled spec CANCUN = true ->
  (max_fee_per_blob_gas (tx env) = None -> blob_hashes (tx env) = []) ->
  default 0 (get_blob_gasprice (block env)) * get_total_blob_gas (tx env)
    <= default 0 (calc_max_data_fee env).
Proof.
  intros Hwf Hv HC Hno. apply validate_tx_Ok in Hv as (_ & Hb & _). specialize (Hb HC).
  pose proof (get_total_blob_gas_fits (tx env)) as [Hg0 Hg1]. unfold calc_max_data_fee.
  destruct (max_fee_per_blob_gas (tx env)) as [max|] eqn:Hmax; simpl.
  - destruct (validate_blobs_Ok _ _ Hb Hmax) as (p & Hp & Hle). rewrite Hp. simpl.
    pose proof (wf_blob_price _ Hwf p Hp) as [Hp0 Hp1]. unfold saturating_mul. nia.
  - unfold get_total_blob_gas. rewrite Hno by done. change (wrapping_mul 64 GAS_PER_BLOB (len [])) with 0. lia.
Qed.

Lemma cost_covered {DbErr} spec env acc acc' :
  wf_env env -> validate_env (DbErr := DbErr) spec env = Ok tt ->
  (max_fee_per_blob_gas (tx env) = None -> blob_hashes (tx env) = []) ->
  validate_tx_against_state spec env acc = Ok acc' ->
  0 <= transaction_cost spec env /\
  transaction_cost spec env + get_base_transfer_value (tx env) < 2 ^ 256 /\
  transaction_cost spec env + get_base_transfer_value (tx env) <= get_base_balance (info acc).
Proof.
  intros Hwf Hv Hno Hst. apply validate_env_Ok in Hv as [Hh Hv].
  apply validate_tx_against_state_Ok in Hst as (_ & r & Hr & Hle & _).
  apply required_base_balance_Ok in Hr as [Hr Hlt].
  pose proof (effective_gas_price_bounds _ Hwf) as [He0 He1].
  pose proof (wf_gas_limit _ Hwf) as [Hl0 Hl1]. pose proof (wf_gas_price _ Hwf) as [Hp0 Hp1].
  unfold transaction_cost.
  assert (Hblob : 0 <= (if enabled spec CANCUN
    then default 0 (get_blob_gasprice (block env)) * get_total_blob_gas (tx env) else 0)
    <= (if enabled spec CANCUN then default 0 (calc_max_data_fee env) else 0)).
  { destruct (enabled spec CANCUN) eqn:HC; [|lia]. split; [|by eapply blob_fee_le].
    destruct (get_blob_gasprice (block env)) as [p|] eqn:Hp; simpl; [|lia].
    pose proof (wf_blob_price _ Hwf p Hp) as [? _].
    pose proof (get_total_blob_gas_fits (tx env)) as [? _]. nia. }
  nia.
Qed.

(** The account of the caller after the deduction. *)
Definition charged (env : Env) (cost : Z) (acc : Account) : Account :=
  let acc := set_info (set_base_balance (get_base_balance (info acc) - cost)) acc in
  mark_touch (if TT_is_call (transact_to (tx env))
              then set_info (fun i => set_nonce (saturating_add 64 (nonce i) 1) i) acc else acc).

Lemma deduct_caller_inner_eq {E DbErr} spec env acc :
  wf_env env -> validate_env (DbErr := DbErr) spec env = Ok tt ->
  0 <= transaction_cost spec env < 2 ^ 256 ->
  transaction_cost spec env <= get_base_balance (info acc) ->
  deduct_caller_inner (E := E) spec acc env = Ok (charged env (transaction_cost spec env) acc).
Proof.
  intros Hwf Hv Hc Hle. apply validate_env_Ok in Hv as [Hh _]. unfold deduct_caller_inner.
  pose proof (effective_gas_price_bounds _ Hwf) as [He0 _]. pose proof (wf_gas_limit _ Hwf) as [Hl0 Hl1].
  unfold charged, transaction_cost in *.
  assert (Hsat : forall g, g <= get_base_balance (info acc) ->
    set_info (decrease_base_balance_saturating g) acc
      = set_info (set_base_balance (get_base_balance (info acc) - g)) acc).
  { intros g Hg. unfold set_info. f_equal.
    unfold decrease_base_balance_saturating, decrease_balance_saturating, saturating_sub, get_base_balance in *.
    by rewrite Z.max_l by lia. }
  unfold saturating_mul. destruct (enabled spec CANCUN) eqn:HC.
  - destruct (validate_block_env_Ok _ _ Hh HC) as (p & Hp).
    pose proof (wf_blob_price _ Hwf p Hp) as [? _].
    pose proof (get_total_blob_gas_fits (tx env)) as [? _].
    unfold calc_data_fee. rewrite Hp in Hc, Hle |- *. cbn [default from_option id fmap option_fmap option_map unwrap mbind outcome_bind] in *.
    unfold saturating_mul, saturating_add. rewrite !Z.min_l by nia. by rewrite Hsat.
  - cbn [mbind outcome_bind]. rewrite Z.min_l by nia. rewrite Z.add_0_r in *. by rewrite Hsat.
Qed.

(** ** The gas of the last frame *)

(** What a transaction that ends in [r] gets back: gas it did not use, and the
    refund, a fifth (before London a half) of the gas spent at most. *)
Definition unused_gas (r : FrameResult) : Z :=
  if return_ok (frame_instruction_result r) || return_revert (frame_instruction_result r)
  then remaining (frame_gas r) else 0.
Definition granted_refund (spec : SpecId) (env : Env) (r : FrameResult) : Z :=
  if return_ok (frame_instruction_result r)
  then Z.min (refunded (frame_gas r))
         ((tx_gas_limit (tx env) - unused_gas r) / (if is_enabled_in spec LONDON then 5 else 2))
  else 0.

Lemma wrap_i64_small z : 0 <= z < 2 ^ 63 -> wrap_i64 z = z.
Proof.
  intros H. unfold wrap_i64, cast, signed. rewrite Z.mod_small by lia. change (64 - 1) with 63. by bool_lia.
Qed.

Lemma set_final_refund_eq london limit remaining refunded :
  0 <= remaining <= limit -> limit < 2 ^ 64 -> 0 <= refunded < 2 ^ 63 ->
  set_final_refund london (mkGas limit remaining refunded) =
    mkGas limit remaining (Z.min refunded ((limit - remaining) / (if london : bool then 5 else 2))).
Proof.
  intros Hr Hl Hf. unfold set_final_refund, spent, cast. cbn [Gas.limit Gas.remaining Gas.refunded].
  rewrite wrapping_sub_fits by (unfold fits; lia). rewrite Z.mod_small by lia. f_equal.
  apply wrap_i64_small.
  assert (0 <= (limit - remaining) / (if london then 5 else 2)) by (apply Z.div_pos; destruct london; lia).
  lia.
Qed.

Lemma interpreter_result_set v r : interpreter_result (set_interpreter_result v r) = v.
Proof. by destruct r. Qed.

Lemma last_frame_gas spec env r :
  fits 64 (tx_gas_limit (tx env)) ->
  0 <= remaining (frame_gas r) <= tx_gas_limit (tx env) -> 0 <= refunded (frame_gas r) < 2 ^ 63 ->
  frame_gas (last_frame_return spec env r)
    = mkGas (tx_gas_limit (tx env)) (unused_gas r) (granted_refund spec env r).
Proof.
  intros [Hl0 Hl1] Hr Hf. unfold last_frame_return, frame_return_with_refund_flag, set_frame_gas.
  unfold frame_gas at 1. rewrite interpreter_result_set. cbn [ir_gas].
  unfold unused_gas, granted_refund. unfold erase_cost, record_refund, Gas_new_spent.
  cbn [Gas.limit Gas.remaining Gas.refunded]. rewrite wrapping_add_fits by (unfold fits; lia).
  assert (Hz : forall g, Z.min 0 (g / (if is_enabled_in spec LONDON then 5 else 2)) = 0 \/ g < 0).
  { intros g. destruct (Z.ltb_spec g 0); [by right|left].
    rewrite Z.min_l; [done|]. apply Z.div_pos; destruct (is_enabled_in spec LONDON); lia. }
  unfold unused_gas. destruct (return_ok _); cbn [orb].
  - rewrite wrap_i64_small by lia. by rewrite set_final_refund_eq by lia.
  - destruct (return_revert _); rewrite set_final_refund_eq by lia; f_equal.
    + destruct (Hz (tx_gas_limit (tx env) - (0 + remaining (frame_gas r)))); [done|lia].
    + destruct (Hz (tx_gas_limit (tx env) - 0)); [done|lia].
Qed.

(** The refund and the unused gas are within the gas that was bought. *)
Lemma granted_bounds spec env r :
  0 <= remaining (frame_gas r) <= tx_gas_limit (tx env) -> 0 <= refunded (frame_gas r) ->
  0 <= unused_gas r <= tx_gas_limit (tx env) /\
  0 <= granted_refund spec env r <= tx_gas_limit (tx env) - unused_gas r.
Proof.
  intros Hr Hf. assert (Hu : 0 <= unused_gas r <= tx_gas_limit (tx env))
    by (unfold unused_gas; destruct (_ || _); lia).
  split; [done|]. unfold granted_refund. destruct (return_ok _); [|lia].
  assert (0 <= (tx_gas_limit (tx env) - unused_gas r) / (if is_enabled_in spec LONDON then 5 else 2)
    <= tx_gas_limit (tx env) - unused_gas r).
  { split; [apply Z.div_pos; destruct (is_enabled_in spec LONDON); lia|].
    apply Z.div_le_upper_bound; destruct (is_enabled_in spec LONDON); lia. }
  lia.
Qed.

Lemma get_base_transfer_value_nonneg env : wf_env env -> 0 <= get_base_transfer_value (tx env).
Proof.
  intros Hwf. pose proof (wf_amounts _ Hwf) as Hl. unfold get_base_transfer_value.
  destruct (transferred_tokens (tx env)) as [|x l] eqn:Ht; [done|]. rewrite <- Ht in *.
  destruct (list_find _ _) as [[i y]|] eqn:Hf; [|done].
  apply list_find_Some in Hf as (Hi & _). by eapply Forall_lookup_1 in Hl as [? _]; [|exact Hi].
Qed.

Lemma get_balance_charged env cost acc t :
  get_balance (info (charged env cost acc)) t =
    if decide (BASE_TOKEN_ID = t) then get_base_balance (info acc) - cost
    else get_balance (info acc) t.
Proof.
  unfold charged. transitivity (get_balance (set_base_balance (get_base_balance (info acc) - cost) (info acc)) t).
  - by destruct (TT_is_call _).
  - unfold set_base_balance. apply get_balance_set.
Qed.

Section fees.
Context {DB DbErr : Type} `{HDB : Database DB DbErr}.
Implicit Types (j : JournaledState) (d : DB).

(** C19: a validated transaction pays for itself.  When the environment and the
    caller's account pass the validation (and a transaction with blobs names a
    maximum blob fee), [deduct_caller] takes exactly the gas limit times the
    effective gas price plus the blob fee from the caller, without saturating;
    it changes no other balance, and afterwards the caller still holds every
    amount the transaction transfers. *)
Theorem validated_transaction_is_funded spec env j d acc acc' :
  accounts (state j) !! tx_caller (tx env) = Some acc -> wf_env env ->
  validate_env (DbErr := DbErr) spec env = Ok tt ->
  (max_fee_per_blob_gas (tx env) = None -> blob_hashes (tx env) = []) ->
  validate_tx_against_state spec env acc = Ok acc' ->
  let caller := tx_caller (tx env) in
  let cost := transaction_cost spec env in
  exists j', deduct_caller (DbErr := DbErr) spec env (j, d) = (Ok tt, (j', d)) /\
    (forall a t, ledger (accounts (state j')) a t =
       ledger_set caller BASE_TOKEN_ID (ledger (accounts (state j)) caller BASE_TOKEN_ID - cost)
         (ledger (accounts (state j))) a t) /\
    (forall t, supply t (accounts (state j')) =
       supply t (accounts (state j)) - (if decide (BASE_TOKEN_ID = t) then cost else 0)) /\
    Forall (fun t => transfer_amount t <= ledger (accounts (state j')) caller (transfer_id t))
      (transferred_tokens (tx env)).
Proof.
  intros Hx Hwf Hv Hno Hst caller cost. fold caller in Hx.
  destruct (cost_covered _ _ _ _ Hwf Hv Hno Hst) as (Hc0 & Hc1 & Hc2).
  pose proof (get_base_transfer_value_nonneg _ Hwf).
  set (j' := set_state (set_accounts (alter (fun _ => charged env cost acc) caller)) j).
  assert (Hl : forall a t, ledger (accounts (state j')) a t =
    ledger_set caller BASE_TOKEN_ID (ledger (accounts (state j)) caller BASE_TOKEN_ID - cost)
      (ledger (accounts (state j))) a t).
  { intros a t. unfold j', ledger_set. cbn [state set_state accounts set_accounts]. rewrite ledger_alter.
    unfold ledger. destruct (decide (caller = a)) as [<-|]; [|rewrite decide_False by tauto; done].
    rewrite Hx. cbn [from_option]. rewrite get_balance_charged.
    repeat case_decide; try tauto; done. }
  exists j'. split_and!; [|exact Hl| |].
  - unfold deduct_caller. erewrite M_bind_ok by by eapply account_loaded. cbv beta iota.
    rewrite (deduct_caller_inner_eq spec env acc Hwf Hv) by (fold cost; lia).
    erewrite M_bind_ok by reflexivity. rewrite on_js_eq. by rewrite update_account_ok by eauto.
  - intros t. unfold j'. cbn [state set_state accounts set_accounts].
    rewrite (supply_alter _ _ acc), get_balance_charged by done. unfold get_base_balance.
    case_decide; subst; lia.
  - apply validate_tx_against_state_Ok in Hst as (_ & _ & _ & _ & Htok).
    apply check_token_balances_Ok in Htok. rewrite Forall_forall in Htok |- *. intros x Hin.
    rewrite Hl. unfold ledger_set. rewrite <- !(lookup_ledger j caller acc) by done.
    apply validate_env_Ok in Hv as [_ Hv]. apply validate_tx_Ok in Hv as (_ & _ & Hnd).
    case_decide as Hd; [|apply Htok; [done|intros Hid; apply Hd; by rewrite Hid]].
    destruct Hd as [_ Hd]. rewrite <- (get_base_transfer_value_spec _ x Hnd Hin) by done.
    unfold get_base_balance in Hc2. unfold cost. lia.
Qed.

(** Crediting a loaded account. *)
Lemma credit_spec a v x j d :
  accounts (state j) !! a = Some x -> get_base_balance (info x) + v < 2 ^ 256 ->
  exists j',
    on_js (DbErr := DbErr) (update_account a (set_info (increase_base_balance_saturating v))) (j, d)
      = (Ok tt, (j', d)) /\
    (forall b t, ledger (accounts (state j')) b t =
       ledger_set a BASE_TOKEN_ID (ledger (accounts (state j)) a BASE_TOKEN_ID + v)
         (ledger (accounts (state j))) b t) /\
    (forall t, supply t (accounts (state j')) =
       supply t (accounts (state j)) + (if decide (BASE_TOKEN_ID = t) then v else 0)) /\
    (forall b, is_Some (accounts (state j) !! b) -> is_Some (accounts (state j') !! b)).
Proof.
  intros Hx Hle. rewrite on_js_eq, update_account_ok by eauto. eexists. split; [reflexivity|].
  assert (Hs : set_info (increase_base_balance_saturating v) x
    = set_info (set_balance BASE_TOKEN_ID (ledger (accounts (state j)) a BASE_TOKEN_ID + v)) x).
  { unfold set_info. f_equal. rewrite <- (lookup_ledger j a x) by done.
    unfold increase_base_balance_saturating, increase_balance_saturating, saturating_add.
    unfold get_base_balance in Hle. by rewrite Z.min_l by lia. }
  cbn [state set_state accounts set_accounts].
  rewrite (alter_ext _ (set_info (set_balance BASE_TOKEN_ID (ledger (accounts (state j)) a BASE_TOKEN_ID + v))))
    by (intros y Hy; congruence).
  split_and!.
  - intros b t. by rewrite (ledger_set_balance _ x).
  - intros t. rewrite (supply_set_balance _ x) by done. rewrite (lookup_ledger j a x) by done.
    case_decide; lia.
  - intros b Hb. by apply lookup_alter_is_Some.
Qed.

Lemma reimburse_spec env g j d x :
  accounts (state j) !! tx_caller (tx env) = Some x ->
  fits 64 (remaining g) -> fits 64 (refunded g) -> fits 64 (remaining g + refunded g) ->
  let v := effective_gas_price env * (remaining g + refunded g) in
  0 <= v -> 0 <= get_base_balance (info x) -> get_base_balance (info x) + v < 2 ^ 256 ->
  exists j', reimburse_caller (DbErr := DbErr) env g (j, d) = (Ok tt, (j', d)) /\
    (forall b t, ledger (accounts (state j')) b t =
       ledger_set (tx_caller (tx env)) BASE_TOKEN_ID
         (ledger (accounts (state j)) (tx_caller (tx env)) BASE_TOKEN_ID + v)
         (ledger (accounts (state j))) b t) /\
    (forall t, supply t (accounts (state j')) =
       supply t (accounts (state j)) + (if decide (BASE_TOKEN_ID = t) then v else 0)) /\
    (forall b, is_Some (accounts (state j) !! b) -> is_Some (accounts (state j') !! b)).
Proof.
  intros Hx H1 H2 H3 v Hv Hb Hle. unfold reimburse_caller.
  erewrite M_bind_ok by by eapply account_loaded.
  unfold gas_returned. rewrite (cast_fits 64) by done. rewrite wrapping_add_fits by done.
  unfold wrapping_mul. rewrite Z.mod_small by (fold v; lia). by eapply credit_spec.
Qed.

Lemma reward_spec spec env g j d x :
  accounts (state j) !! coinbase (block env) = Some x ->
  fits 64 (refunded g) -> fits 64 (spent g - refunded g) ->
  let v := coinbase_gas_price spec env * (spent g - refunded g) in
  0 <= v -> 0 <= get_base_balance (info x) -> get_base_balance (info x) + v < 2 ^ 256 ->
  exists j', reward_beneficiary (DbErr := DbErr) spec env g (j, d) = (Ok tt, (j', d)) /\
    (forall b t, ledger (accounts (state j')) b t =
       ledger_set (coinbase (block env)) BASE_TOKEN_ID
         (ledger (accounts (state j)) (coinbase (block env)) BASE_TOKEN_ID + v)
         (ledger (accounts (state j))) b t) /\
    (forall t, supply t (accounts (state j')) =
       supply t (accounts (state j)) + (if decide (BASE_TOKEN_ID = t) then v else 0)) /\
    (forall b, is_Some (accounts (state j) !! b) -> is_Some (accounts (state j') !! b)).
Proof.
  intros Hx H1 H2 v Hv Hb Hle. unfold reward_beneficiary.
  erewrite M_bind_ok by by eapply account_loaded. cbv beta.
  erewrite M_bind_ok by (rewrite on_js_eq, update_account_ok by eauto; reflexivity).
  unfold final_gas_used. rewrite (cast_fits 64) by done. rewrite wrapping_sub_fits by done.
  unfold wrapping_mul. rewrite Z.mod_small by (fold v; lia). fold v.
  destruct (credit_spec (coinbase (block env)) v (mark_touch x)
    (set_state (set_accounts (alter mark_touch (coinbase (block env)))) j) d) as (j' & H' & Hl & Hs & Hk);
    [cbn [state set_state accounts set_accounts]; by rewrite lookup_alter_eq, Hx|done|].
  exists j'. split; [exact H'|]. cbn [state set_state accounts set_accounts] in Hl, Hs, Hk. split_and!.
  - intros b t. rewrite Hl. unfold ledger_set.
    case_decide; by rewrite ledger_alter_same.
  - intros t. by rewrite Hs, supply_alter_same.
  - intros b Hk'. by apply Hk, lookup_alter_is_Some.
Qed.

(** C20: what the settlement pays out.  After the last frame returned, the caller
    gets back the effective gas price of the gas it did not use and of its
    refund, the beneficiary the price above the base fee of the gas used; unless
    a balance saturates, the supply of the base token grows by what the caller
    was charged for gas, less the base fee of the gas used, which is burned (from
    London on), and no other token moves. *)
Theorem settlement_burns_base_fee spec env r j d xc xb :
  wf_env env ->
  (enabled spec LONDON = true -> basefee (block env) <= effective_gas_price env) ->
  accounts (state j) !! tx_caller (tx env) = Some xc ->
  accounts (state j) !! coinbase (block env) = Some xb ->
  0 <= get_base_balance (info xc) -> 0 <= get_base_balance (info xb) ->
  get_base_balance (info xc) + get_base_balance (info xb)
    + tx_gas_limit (tx env) * effective_gas_price env < 2 ^ 256 ->
  0 <= remaining (frame_gas r) <= tx_gas_limit (tx env) -> 0 <= refunded (frame_gas r) < 2 ^ 63 ->
  let gas := frame_gas (last_frame_return spec env r) in
  let returned := unused_gas r + granted_refund spec env r in
  let used := tx_gas_limit (tx env) - returned in
  let burned := if enabled spec LONDON then basefee (block env) * used else 0 in
  let b := ledger (accounts (state j)) in
  let b1 := ledger_set (tx_caller (tx env)) BASE_TOKEN_ID
    (b (tx_caller (tx env)) BASE_TOKEN_ID + effective_gas_price env * returned) b in
  exists j',
    (_ ← reimburse_caller (DbErr := DbErr) env gas; reward_beneficiary spec env gas) (j, d)
      = (Ok tt, (j', d)) /\
    final_gas_used gas = used /\
    (forall a t, ledger (accounts (state j')) a t =
       ledger_set (coinbase (block env)) BASE_TOKEN_ID
         (b1 (coinbase (block env)) BASE_TOKEN_ID + (effective_gas_price env * used - burned)) b1 a t) /\
    (forall t, supply t (accounts (state j')) = supply t (accounts (state j)) +
       (if decide (BASE_TOKEN_ID = t)
        then tx_gas_limit (tx env) * effective_gas_price env - burned else 0)).
Proof.
  intros Hwf Hbf Hc Hb Hc0 Hb0 Hsum Hr Hf gas returned used burned b b1.
  pose proof (wf_gas_limit _ Hwf) as Hl. pose proof (effective_gas_price_bounds _ Hwf) as [He _].
  pose proof (wf_basefee _ Hwf) as [Hbf0 _].
  destruct (granted_bounds spec env r Hr (proj1 Hf)) as [Hu Hg].
  assert (Hgas : gas = mkGas (tx_gas_limit (tx env)) (unused_gas r) (granted_refund spec env r))
    by (by apply last_frame_gas).
  set (limit := tx_gas_limit (tx env)) in *. set (eff := effective_gas_price env) in *.
  assert (Hspent : spent gas = limit - unused_gas r).
  { rewrite Hgas. unfold spent. cbn. apply wrapping_sub_fits. unfold fits in *. lia. }
  rewrite Hgas in Hspent |- *. clear gas Hgas.
  assert (Hused : 0 <= used /\ 0 <= returned /\ used + returned = limit) by (unfold used, returned; lia).
  assert (Hpay : coinbase_gas_price spec env * used = eff * used - burned /\ 0 <= eff * used - burned).
  { unfold coinbase_gas_price, burned, saturating_sub. fold eff. destruct (enabled spec LONDON); [|nia].
    specialize (Hbf eq_refl). rewrite Z.max_l by lia. nia. }
  assert (Hburned : 0 <= burned) by (unfold burned; destruct (enabled spec LONDON); nia).
  destruct (reimburse_spec env (mkGas limit (unused_gas r) (granted_refund spec env r)) j d xc)
    as (j1 & H1 & Hl1 & Hs1 & Hk1); [done|cbn; unfold fits in *; fold eff; fold returned; nia..|].
  destruct (Hk1 _ (mk_is_Some _ _ Hb)) as [xb1 Hb1].
  assert (Hxb1 : get_base_balance (info xb1) = b1 (coinbase (block env)) BASE_TOKEN_ID).
  { unfold get_base_balance. by rewrite (lookup_ledger j1 _ _ BASE_TOKEN_ID Hb1), Hl1. }
  unfold get_base_balance in Hc0, Hb0, Hsum. rewrite (lookup_ledger j _ _ BASE_TOKEN_ID Hc) in Hc0, Hsum.
  rewrite (lookup_ledger j _ _ BASE_TOKEN_ID Hb) in Hb0, Hsum. fold b in Hc0, Hb0, Hsum.
  assert (Hb1le : 0 <= b1 (coinbase (block env)) BASE_TOKEN_ID
    <= b (tx_caller (tx env)) BASE_TOKEN_ID + b (coinbase (block env)) BASE_TOKEN_ID + eff * returned).
  { unfold b1, ledger_set. case_decide; nia. }
  destruct (reward_spec spec env (mkGas limit (unused_gas r) (granted_refund spec env r)) j1 d xb1)
    as (j2 & H2 & Hl2 & Hs2 & _); [done|rewrite ?Hspent, ?Hxb1; cbn [Gas.refunded];
      replace (limit - unused_gas r - granted_refund spec env r) with used by (unfold used, returned; lia);
      unfold fits in *; nia..|].
  rewrite Hspent in Hl2, Hs2. cbn [Gas.refunded] in Hl2, Hs2.
  replace (limit - unused_gas r - granted_refund spec env r) with used in Hl2, Hs2
    by (unfold used, returned; lia).
  exists j2. split_and!.
  - erewrite M_bind_ok by exact H1. exact H2.
  - unfold final_gas_used. rewrite Hspent. cbn [Gas.refunded].
    rewrite cast_fits by (unfold fits in *; lia). rewrite wrapping_sub_fits by (unfold fits in *; lia).
    unfold used, returned. lia.
  - intros a t. rewrite Hl2, (proj1 Hpay). unfold ledger_set at 1 2. case_decide; by rewrite Hl1.
  - intros t. rewrite Hs2, Hs1, (proj1 Hpay). cbn [Gas.remaining Gas.refunded]. fold eff returned.
    case_decide; nia.
Qed.
End fees.

(** A transaction without a maximum blob fee is validated as if it had no blobs,
    though its blobs are charged. *)
Lemma blobs_without_maximum_fee spec env hashes :
  enabled spec CANCUN = true -> max_fee_per_blob_gas (tx env) = None ->
  let t := tx env in
  validate_tx spec env = validate_tx spec (mkEnv (cfg env) (block env)
    (mkTxEnv (tx_caller t) (tx_gas_limit t) (gas_price t) (transact_to t) (tx_data t) (tx_nonce t)
      (tx_chain_id t) (access_list t) (gas_priority_fee t) hashes None (transferred_tokens t))).
Proof. intros HC Hmax t. unfold validate_tx, validate_blobs. rewrite HC. cbn [tx block]. by rewrite Hmax. Qed.

(** ** Witnesses *)

Definition sample_tx : TxEnv :=
  mkTxEnv 9 100000 10 (TT_Call 8) [1; 0] (Some 0) None [] (Some 2) [] None [mkTransfer 0 3; mkTransfer 5 4].
Definition sample_block : BlockEnv := mkBlockEnv 1 8 1 30000000 7 0 (Some 0) (Some (mkBlobExcess 0 1)) [].
Definition sample_env : Env := mkEnv CfgEnv_default sample_block sample_tx.
Definition sample_payer : Account := mkAccount (AccountInfo_from_balances {[ 0 := 2000000; 5 := 4 ]}) ∅ 0.
Definition sample_coinbase : Account := mkAccount (AccountInfo_from_balances (init_balances 1)) ∅ 0.
Definition sample_fee_js : JournaledState :=
  mkJournaledState (mkEvmState {[ 9 := sample_payer; 8 := sample_coinbase ]} [BASE_TOKEN_ID])
    ∅ [] 0 [[]] CANCUN ∅.
(** The outermost frame, which succeeded with 30000 gas left and a refund of 20000. *)
Definition sample_last_frame : FrameResult :=
  FR_Call (mkCallOutcome (mkInterpreterResult IR_Return [] (mkGas 78000 30000 20000)) (0, 0)).

Lemma wf_sample_env : wf_env sample_env.
Proof.
  split; try (split; [discriminate|reflexivity]).
  - intros p [= <-]. split; [discriminate|reflexivity].
  - discriminate.
  - repeat constructor; discriminate.
Qed.

Section fee_witnesses.
#[local] Existing Instances sample_hash sample_db.

Lemma validated_transaction_is_funded_witness :
  exists j', deduct_caller (DbErr := False) CANCUN sample_env (sample_fee_js, cdb) = (Ok tt, (j', cdb)) /\
    ledger (accounts (state j')) 9 0 = 1100000 /\ ledger (accounts (state j')) 9 5 = 4.
Proof.
  destruct (validated_transaction_is_funded (DbErr := False) CANCUN sample_env sample_fee_js cdb
    sample_payer sample_payer) as (j' & H & Hl & _);
    [reflexivity|apply wf_sample_env|vm_compute; reflexivity|reflexivity|vm_compute; reflexivity|].
  exists j'. split; [exact H|]. rewrite !Hl. split; vm_compute; reflexivity.
Defined.

Lemma settlement_burns_base_fee_witness :
  exists j',
    (_ ← reimburse_caller (DbErr := False) sample_env (frame_gas (last_frame_return CANCUN sample_env sample_last_frame));
     reward_beneficiary CANCUN sample_env (frame_gas (last_frame_return CANCUN sample_env sample_last_frame)))
      (sample_fee_js, cdb) = (Ok tt, (j', cdb)) /\
    ledger (accounts (state j')) 9 0 = 2396000 /\ ledger (accounts (state j')) 8 0 = 112001.
Proof.
  destruct (settlement_burns_base_fee (DbErr := False) CANCUN sample_env sample_last_frame sample_fee_js cdb
    sample_payer sample_coinbase) as (j' & H & _ & Hl & _);
    [apply wf_sample_env|intros _; discriminate|reflexivity|reflexivity|discriminate|discriminate
    |reflexivity|split; discriminate|split; [discriminate|reflexivity]|].
  exists j'. split; [exact H|]. rewrite !Hl. split; vm_compute; reflexivity.
Defined.
End fee_witnesses.
