(* ===== verification/Instructions.v ===== *)
(** The instructions that only see the interpreter: [arithmetic.rs],
    [bitwise.rs], [stack.rs], [memory.rs], [control.rs], [data.rs] and
    [system.rs] of [crates/interpreter/src/instructions/], with [utility.rs].

    The name of an instruction is that of its file and function.  A read of the
    code through the instruction pointer is a raw pointer access in the source:
    out of bounds it is undefined behaviour, here a [Panic]. *)

From S2P Require Import Prelude.
From S2P Require Import Specification.
From S2P Require Import Bytes.
From S2P Require Import Eof.
From S2P Require Import Bytecode.
From S2P Require Import State.
From S2P Require Import Result.
From S2P Require Import InstructionResult.
From S2P Require Import Database.
From S2P Require Import Journal.
From S2P Require Import CallInputs.
From S2P Require Import Gas.
From S2P Require Import Stack.
From S2P Require Import SharedMemory.
From S2P Require Import I256.
From S2P Require Import Analysis.
From S2P Require Import Interpreter.

(** ** Access to the code and the interpreter *)

(** [*instruction_pointer.add(n)]. *)
Definition read_u8_at (n : Z) : IM Z := fun i =>
  (index (in_bytecode i) (instruction_pointer i + n), i).
Definition read_u16_at (n : Z) : IM Z :=
  hi ← read_u8_at n; lo ← read_u8_at (n + 1); mret (hi * 256 + lo).
Definition read_i16_at (n : Z) : IM Z := v ← read_u16_at n; mret (signed 16 v).

(** [instruction_pointer.offset(n)]. *)
Definition advance (n : Z) : IM unit := modify (fun i => set_pc (instruction_pointer i + n) i).
Definition goto (target : Z) : IM unit := modify (set_pc target).

(** Set [instruction_result] and go on. *)
Definition halt (r : InstructionResult) : IM unit := modify (set_result r).
Definition or_halt (m : IM unit) : IM unit := fun i =>
  match m i with
  | (Err e, i') => (Ok tt, set_result e i')
  | x => x
  end.

Definition bool_word (b : bool) : Z := if b then 1 else 0.

(** ** [arithmetic.rs] *)

(** An instruction with a fixed cost on two words, the result in place. *)
Definition binary_op (cost : Z) (f : Z -> Z -> Z) : IM unit :=
  _ ← gas cost; '(op1, op2) ← pop_top2; set_top (f op1 op2).
Definition unary_op (cost : Z) (f : Z -> Z) : IM unit :=
  _ ← gas cost; op1 ← top1; set_top (f op1).
Definition ternary_op (cost : Z) (f : Z -> Z -> Z -> Z) : IM unit :=
  _ ← gas cost; '(op1, op2, op3) ← pop_top3; set_top (f op1 op2 op3).

Definition arithmetic_add : IM unit := binary_op G_VERYLOW (wrapping_add 256).
Definition arithmetic_mul : IM unit := binary_op G_LOW (wrapping_mul 256).
Definition arithmetic_sub : IM unit := binary_op G_VERYLOW (wrapping_sub 256).
Definition arithmetic_div : IM unit :=
  _ ← gas G_LOW; '(op1, op2) ← pop_top2;
  if negb (op2 =? 0) then set_top (op1 / op2) else mret tt.
Definition arithmetic_sdiv : IM unit := binary_op G_LOW i256_div.
Definition arithmetic_rem : IM unit :=
  _ ← gas G_LOW; '(op1, op2) ← pop_top2;
  if negb (op2 =? 0) then set_top (op1 mod op2) else mret tt.
Definition arithmetic_smod : IM unit := binary_op G_LOW i256_mod.
(** [add_mod] and [mul_mod] do not wrap, and are zero for a zero modulus. *)
Definition arithmetic_addmod : IM unit :=
  ternary_op G_MID (fun op1 op2 op3 => if op3 =? 0 then 0 else (op1 + op2) mod op3).
Definition arithmetic_mulmod : IM unit :=
  ternary_op G_MID (fun op1 op2 op3 => if op3 =? 0 then 0 else (op1 * op2) mod op3).

(** The wrapping power. *)
Definition wrapping_pow (b e : Z) : Z :=
  match e with
  | Zpos p => Pos.iter_op (fun x y => wrapping_mul 256 x y) p b
  | _ => 1
  end.
Definition arithmetic_exp (spec : SpecId) : IM unit :=
  '(op1, op2) ← pop_top2;
  _ ← gas_or_fail (exp_cost spec op2);
  set_top (wrapping_pow op1 op2).
Definition arithmetic_signextend : IM unit := binary_op G_LOW signextend_word.

(** ** [bitwise.rs] *)

Definition bitwise_lt : IM unit := binary_op G_VERYLOW (fun a b => bool_word (a <? b)).
Definition bitwise_gt : IM unit := binary_op G_VERYLOW (fun a b => bool_word (b <? a)).
Definition bitwise_slt : IM unit :=
  binary_op G_VERYLOW (fun a b => bool_word (bool_decide (i256_cmp a b = Lt))).
Definition bitwise_sgt : IM unit :=
  binary_op G_VERYLOW (fun a b => bool_word (bool_decide (i256_cmp a b = Gt))).
Definition bitwise_eq : IM unit := binary_op G_VERYLOW (fun a b => bool_word (a =? b)).
Definition bitwise_iszero : IM unit := unary_op G_VERYLOW (fun a => bool_word (a =? 0)).
Definition bitwise_bitand : IM unit := binary_op G_VERYLOW Z.land.
Definition bitwise_bitor : IM unit := binary_op G_VERYLOW Z.lor.
Definition bitwise_bitxor : IM unit := binary_op G_VERYLOW Z.lxor.
Definition bitwise_not : IM unit := unary_op G_VERYLOW word_not.
Definition bitwise_byte : IM unit :=
  binary_op G_VERYLOW (fun op1 op2 => byte_word (as_usize_saturated op1) op2).
Definition bitwise_shl (spec : SpecId) : IM unit :=
  _ ← check spec CONSTANTINOPLE;
  binary_op G_VERYLOW (fun op1 op2 => shl_word (as_usize_saturated op1) op2).
Definition bitwise_shr (spec : SpecId) : IM unit :=
  _ ← check spec CONSTANTINOPLE;
  binary_op G_VERYLOW (fun op1 op2 => shr_word (as_usize_saturated op1) op2).
Definition bitwise_sar (spec : SpecId) : IM unit :=
  _ ← check spec CONSTANTINOPLE;
  binary_op G_VERYLOW (fun op1 op2 => sar_word (as_usize_saturated op1) op2).

(** ** [stack.rs] *)

Definition stack_pop : IM unit := _ ← gas G_BASE; _ ← on_stack Stack.pop; mret tt.
Definition stack_push0 (spec : SpecId) : IM unit :=
  _ ← check spec SHANGHAI; _ ← gas G_BASE; on_stack (Stack.push 0).
(** [push::<N>]; the immediate bytes are read through the pointer. *)
Definition stack_push (n : Z) : IM unit :=
  _ ← gas G_VERYLOW;
  i ← get;
  immediate ← lift (slice (in_bytecode i) (instruction_pointer i) (instruction_pointer i + n));
  _ ← on_stack (push_slice immediate);
  advance n.
Definition stack_dup (n : Z) : IM unit := _ ← gas G_VERYLOW; on_stack (Stack.dup n).
Definition stack_swap (n : Z) : IM unit := _ ← gas G_VERYLOW; on_stack (Stack.swap n).
Definition stack_dupn : IM unit :=
  _ ← require_eof; _ ← gas G_VERYLOW;
  imm ← read_u8_at 0;
  _ ← or_halt (on_stack (Stack.dup (imm + 1)));
  advance 1.
Definition stack_swapn : IM unit :=
  _ ← require_eof; _ ← gas G_VERYLOW;
  imm ← read_u8_at 0;
  _ ← or_halt (on_stack (Stack.swap (imm + 1)));
  advance 1.
Definition stack_exchange : IM unit :=
  _ ← require_eof; _ ← gas G_VERYLOW;
  imm ← read_u8_at 0;
  let n := Z.shiftr imm 4 + 1 in
  let m := Z.land imm 0x0F + 1 in
  _ ← or_halt (on_stack (Stack.exchange n m));
  advance 1.

(** ** [memory.rs] *)

Definition memory_mload : IM unit :=
  _ ← gas G_VERYLOW; top ← top1;
  offset ← as_usize_or_fail top;
  _ ← resize_memory_to offset 32;
  v ← on_memory (get_u256 offset);
  set_top v.
Definition memory_mstore : IM unit :=
  _ ← gas G_VERYLOW; '(offset, value) ← pop2;
  offset ← as_usize_or_fail offset;
  _ ← resize_memory_to offset 32;
  on_memory (set_u256 offset value).
Definition memory_mstore8 : IM unit :=
  _ ← gas G_VERYLOW; '(offset, value) ← pop2;
  offset ← as_usize_or_fail offset;
  _ ← resize_memory_to offset 1;
  on_memory (set_byte offset (value mod 256)).
Definition memory_msize : IM unit :=
  _ ← gas G_BASE; n ← gets (fun i => mem_len (shared_memory i)); push_value n.
Definition memory_mcopy (spec : SpecId) : IM unit :=
  _ ← check spec CANCUN;
  '(dst, src, len) ← pop3;
  len ← as_usize_or_fail len;
  _ ← gas_or_fail (verylowcopy_cost len);
  if len =? 0 then mret tt
  else
    dst ← as_usize_or_fail dst;
    src ← as_usize_or_fail src;
    _ ← resize_memory_to (Z.max dst src) len;
    on_memory (mem_copy dst src len).

(** ** [control.rs] *)

Definition control_rjump : IM unit :=
  _ ← require_eof; _ ← gas G_BASE;
  offset ← read_i16_at 0;
  advance (offset + 2).
Definition control_rjumpi : IM unit :=
  _ ← require_eof; _ ← gas G_CONDITION_JUMP_GAS;
  condition ← pop1;
  if negb (condition =? 0) then offset ← read_i16_at 0; advance (2 + offset) else advance 2.
Definition control_rjumpv : IM unit :=
  _ ← require_eof; _ ← gas G_CONDITION_JUMP_GAS;
  case ← pop1;
  let case := as_isize_saturated case in
  max_index ← read_u8_at 0;
  let offset := (max_index + 1) * 2 + 1 in
  if case <=? max_index then o ← read_i16_at (1 + case * 2); advance (offset + o) else advance offset.

Definition jump_inner (target : Z) : IM unit :=
  target ← as_usize_or_fail_with IR_InvalidJump target;
  i ← get;
  if negb (Contract_is_valid_jump (contract i) target) then fail IR_InvalidJump else goto target.
Definition control_jump : IM unit := _ ← gas G_MID; target ← pop1; jump_inner target.
Definition control_jumpi : IM unit :=
  _ ← gas G_HIGH; '(target, cond) ← pop2;
  if negb (cond =? 0) then jump_inner target else mret tt.
Definition control_jumpdest_or_nop : IM unit := gas G_JUMPDEST.

(** [load_eof_code] of the interpreter; it panics on legacy code or a missing section. *)
Definition load_eof_code (idx pc : Z) : IM unit :=
  i ← get;
  eof ← lift (unwrap (in_eof i));
  code ← lift (unwrap (EofBody_code (body eof) (Z.to_nat idx)));
  _ ← modify (set_bytecode code);
  goto pc.

(** The types of a code section and the check of the stack height it needs. *)
Definition check_callee_stack (idx : Z) : IM unit :=
  i ← get;
  eof ← lift (unwrap (in_eof i));
  types ← lift (unwrap (types_section (body eof) !! Z.to_nat idx));
  if 1024 <? len (stack i) + wrapping_sub 16 (max_stack_size types) (inputs types)
  then fail IR_StackOverflow else mret tt.

Definition control_callf : IM unit :=
  _ ← require_eof; _ ← gas G_LOW;
  idx ← read_u16_at 0;
  i ← get;
  if 1024 <=? return_stack_len (function_stack i) then fail IR_EOFFunctionStackOverflow
  else
    _ ← check_callee_stack idx;
    _ ← modify (fun i => set_function_stack (fs_push (program_counter i + 2) idx (function_stack i)) i);
    load_eof_code idx 0.
Definition control_retf : IM unit :=
  _ ← require_eof; _ ← gas G_RETF_GAS;
  i ← get;
  let '(fframe, fs) := fs_pop (function_stack i) in
  _ ← modify (set_function_stack fs);
  fframe ← lift (unwrap fframe);
  load_eof_code (frame_idx fframe) (frame_pc fframe).
Definition control_jumpf : IM unit :=
  _ ← require_eof; _ ← gas G_LOW;
  idx ← read_u16_at 0;
  _ ← check_callee_stack idx;
  _ ← modify (fun i => set_function_stack (set_current_code_idx idx (function_stack i)) i);
  load_eof_code idx 0.

Definition control_pc : IM unit :=
  _ ← gas G_BASE; pc ← gets program_counter; push_value (pc - 1).

Definition return_inner (r : InstructionResult) : IM unit :=
  '(offset, len) ← pop2;
  len ← as_usize_or_fail len;
  output ←
    (if negb (len =? 0) then
       offset ← as_usize_or_fail offset;
       _ ← resize_memory_to offset len;
       on_memory (mem_slice offset len)
     else mret []);
  _ ← halt r;
  modify (fun i => set_next_action (IA_Return (mkInterpreterResult r output (in_gas i))) i).
Definition control_ret : IM unit := return_inner IR_Return.
Definition control_revert (spec : SpecId) : IM unit :=
  _ ← check spec BYZANTIUM; return_inner IR_Revert.
Definition control_stop : IM unit := halt IR_Stop.
Definition control_invalid : IM unit := halt IR_InvalidFEOpcode.
Definition control_unknown : IM unit := halt IR_OpcodeNotFound.

(** ** [data.rs] *)

(** A slice at the front of a zero word. *)
Definition left_aligned_word (slice : bytes) : Z :=
  from_be_bytes (slice ++ replicate (32 - length slice) 0).

Definition data_data_load : IM unit :=
  _ ← require_eof; _ ← gas G_DATA_LOAD_GAS;
  offset ← top1;
  i ← get;
  eof ← lift (unwrap (in_eof i));
  set_top (left_aligned_word (Eof_data_slice eof (as_usize_saturated offset) 32)).
Definition data_data_loadn : IM unit :=
  _ ← require_eof; _ ← gas G_VERYLOW;
  offset ← read_u16_at 0;
  i ← get;
  eof ← lift (unwrap (in_eof i));
  _ ← push_value (left_aligned_word (Eof_data_slice eof offset 32));
  advance 2.
Definition data_data_size : IM unit :=
  _ ← require_eof; _ ← gas G_BASE;
  i ← get;
  eof ← lift (unwrap (in_eof i));
  push_value (data_size (header eof)).
Definition data_data_copy : IM unit :=
  _ ← require_eof; _ ← gas G_VERYLOW;
  '(mem_offset, offset, size) ← pop3;
  size ← as_usize_or_fail size;
  if size =? 0 then mret tt
  else
    mem_offset ← as_usize_or_fail mem_offset;
    _ ← resize_memory_to mem_offset size;
    i ← get;
    eof ← lift (unwrap (in_eof i));
    on_memory (set_data mem_offset (as_usize_saturated offset) size (data_section (body eof))).

(** ** [system.rs] *)

(** What a copying instruction does once its cost is known: nothing for an
    empty piece, otherwise make room and copy from [data]. *)
Definition copy_to_memory (memory_offset data_offset len : Z) (data : Interpreter -> outcome InstructionResult bytes)
  : IM unit :=
  if len =? 0 then mret tt
  else
    memory_offset ← as_usize_or_fail memory_offset;
    let data_offset := as_usize_saturated data_offset in
    _ ← resize_memory_to memory_offset len;
    i ← get;
    data ← lift (data i);
    on_memory (set_data memory_offset data_offset len data).

Definition system_keccak256 `{Keccak} : IM unit :=
  '(offset, len_ptr) ← pop_top2;
  len ← as_usize_or_fail len_ptr;
  _ ← gas_or_fail (keccak256_cost len);
  hash ←
    (if len =? 0 then mret KECCAK_EMPTY
     else
       from ← as_usize_or_fail offset;
       _ ← resize_memory_to from len;
       data ← on_memory (mem_slice from len);
       mret (keccak256 data));
  set_top hash.
Definition system_address : IM unit :=
  _ ← gas G_BASE; i ← get; push_value (c_target_address (contract i)).
Definition system_caller : IM unit :=
  _ ← gas G_BASE; i ← get; push_value (c_caller (contract i)).
(** [assume!] excludes EOF code. *)
Definition assume_legacy : IM unit := fun i =>
  if is_eof (c_bytecode (contract i)) then (Panic, i) else (Ok tt, i).
Definition system_codesize : IM unit :=
  _ ← gas G_BASE; _ ← assume_legacy; i ← get; push_value (Bytecode_len (c_bytecode (contract i))).
Definition system_codecopy : IM unit :=
  '(memory_offset, code_offset, len) ← pop3;
  len ← as_usize_or_fail len;
  _ ← gas_or_fail (verylowcopy_cost len);
  copy_to_memory memory_offset code_offset len
    (fun i => if is_eof (c_bytecode (contract i)) then Panic
              else Ok (original_byte_slice (c_bytecode (contract i)))).
Definition system_calldataload : IM unit :=
  _ ← gas G_VERYLOW;
  offset_ptr ← top1;
  i ← get;
  let input := c_input (contract i) in
  let offset := as_usize_saturated offset_ptr in
  let word :=
    if offset <? len input then
      let count := Z.min 32 (len input - offset) in
      take (Z.to_nat count) (drop (Z.to_nat offset) input)
    else [] in
  set_top (left_aligned_word word).
Definition system_calldatasize : IM unit :=
  _ ← gas G_BASE; i ← get; push_value (len (c_input (contract i))).
Definition system_callvalue : IM unit :=
  _ ← gas G_BASE;
  i ← get;
  push_value
    match list_find (fun tt => transfer_id tt = BASE_TOKEN_ID) (c_call_values (contract i)) with
    | Some (_, t) => transfer_amount t
    | None => 0
    end.
Definition system_calldatacopy : IM unit :=
  '(memory_offset, data_offset, len) ← pop3;
  len ← as_usize_or_fail len;
  _ ← gas_or_fail (verylowcopy_cost len);
  copy_to_memory memory_offset data_offset len (fun i => Ok (c_input (contract i))).
Definition system_returndatasize (spec : SpecId) : IM unit :=
  _ ← check spec BYZANTIUM; _ ← gas G_BASE; i ← get; push_value (len (return_data_buffer i)).
Definition system_returndatacopy (spec : SpecId) : IM unit :=
  _ ← check spec BYZANTIUM;
  '(memory_offset, offset, length) ← pop3;
  length ← as_usize_or_fail length;
  _ ← gas_or_fail (verylowcopy_cost length);
  let data_offset := as_usize_saturated offset in
  let data_end := saturating_add 64 data_offset length in
  i ← get;
  if len (return_data_buffer i) <? data_end then fail IR_OutOfOffset
  else if negb (length =? 0) then
    memory_offset ← as_usize_or_fail memory_offset;
    _ ← resize_memory_to memory_offset length;
    data ← lift (slice (return_data_buffer i) data_offset data_end);
    on_memory (mem_set memory_offset data)
  else mret tt.
Definition system_returndataload : IM unit :=
  _ ← require_eof; _ ← gas G_VERYLOW;
  offset ← top1;
  offset_usize ← as_usize_or_fail offset;
  i ← get;
  if len (return_data_buffer i) <? saturating_add 64 offset_usize 32 then fail IR_OutOfOffset
  else
    data ← lift (slice (return_data_buffer i) offset_usize (offset_usize + 32));
    set_top (from_be_bytes data).
Definition system_gas : IM unit :=
  _ ← gas G_BASE; i ← get; push_value (remaining (in_gas i)).
