(* ===== verification/HostInstructions.v ===== *)
(** The host interface, [trait Host] of [crates/interpreter/src/host.rs], and the
    instructions that use it: [host.rs], [host_env.rs], [contract.rs] and
    [contract/call_helpers.rs] of [crates/interpreter/src/instructions/]. *)

From S2P Require Import Prelude.
From S2P Require Import Specification.
From S2P Require Import Bytes.
From S2P Require Import Eof.
From S2P Require Import Bytecode.
From S2P Require Import State.
From S2P Require Import Result.
From S2P Require Import InstructionResult.
From S2P Require Import Database.
From S2P Require Import Journal.
From S2P Require Import CallInputs.
From S2P Require Import Gas.
From S2P Require Import Stack.
From S2P Require Import SharedMemory.
From S2P Require Import I256.
From S2P Require Import Analysis.
From S2P Require Import Env.
From S2P Require Import Interpreter.
From S2P Require Import Context.
From S2P Require Import Instructions.

(** A host method may panic; a failure of the database is a [None], with the
    error kept by the host. *)
Class Host (H : Type) : Type := {
  h_env : H -> Env;
  h_load_account : Address -> M H Empty_set (option LoadAccountResult);
  h_block_hash : Z -> M H Empty_set (option Z);
  h_code : Address -> M H Empty_set (option (Bytecode * bool));
  h_code_hash : Address -> M H Empty_set (option (Z * bool));
  h_sload : Address -> Z -> M H Empty_set (option (Z * bool));
  h_sstore : Address -> Z -> Z -> M H Empty_set (option SStoreResult);
  h_tload : Address -> Z -> M H Empty_set Z;
  h_tstore : Address -> Z -> Z -> M H Empty_set unit;
  h_log : Log -> M H Empty_set unit;
  h_selfdestruct : Address -> Address -> M H Empty_set (option SelfDestructResult);
  h_balance : Z -> Address -> M H Empty_set (option (Z * bool));
  h_base_balance : Address -> M H Empty_set (option (Z * bool));
  h_burn : Address -> Z -> Address -> Z -> M H Empty_set bool;
  h_mint : Address -> Address -> Z -> Z -> M H Empty_set bool;
}.

Section host_instructions.
Context {H : Type} `{HH : Host H} `{HK : Keccak} `{HC : CreateAddress}.

Abbreviation HM := (M (Interpreter * H) InstructionResult).

Definition on_int {A} (m : IM A) : HM A := zoom fst (fun i s => (i, s.2)) m.
Definition on_host {A} (m : M H Empty_set A) : HM A :=
  with_err (fun e : Empty_set => match e with end) (zoom snd (fun h s => (s.1, h)) m).
(** [let Some(x) = host.f(..) else { FatalExternalError; return }]. *)
Definition host_some {A} (m : M H Empty_set (option A)) : HM A :=
  o ← on_host m;
  match o with Some a => mret a | None => fail IR_FatalExternalError end.
Definition env_of : HM Env := gets (fun s => h_env s.2).
Definition self_address : HM Address := gets (fun s => c_target_address (contract s.1)).

(** ** [host_env.rs] *)

Definition host_env_chainid (spec : SpecId) : HM unit :=
  _ ← on_int (check spec ISTANBUL); _ ← on_int (gas G_BASE); e ← env_of;
  on_int (push_value (cfg_chain_id (cfg e))).
Definition host_env_coinbase : HM unit :=
  _ ← on_int (gas G_BASE); e ← env_of; on_int (push_value (coinbase (block e))).
Definition host_env_timestamp : HM unit :=
  _ ← on_int (gas G_BASE); e ← env_of; on_int (push_value (timestamp (block e))).
Definition host_env_block_number : HM unit :=
  _ ← on_int (gas G_BASE); e ← env_of; on_int (push_value (block_number (block e))).
Definition host_env_difficulty (spec : SpecId) : HM unit :=
  _ ← on_int (gas G_BASE); e ← env_of;
  if enabled spec MERGE then v ← lift (unwrap (prevrandao (block e))); on_int (push_value v)
  else on_int (push_value (difficulty (block e))).
Definition host_env_gaslimit : HM unit :=
  _ ← on_int (gas G_BASE); e ← env_of; on_int (push_value (block_gas_limit (block e))).
Definition host_env_gasprice : HM unit :=
  _ ← on_int (gas G_BASE); e ← env_of; on_int (push_value (effective_gas_price e)).
Definition host_env_basefee (spec : SpecId) : HM unit :=
  _ ← on_int (check spec LONDON); _ ← on_int (gas G_BASE); e ← env_of;
  on_int (push_value (basefee (block e))).
Definition host_env_origin : HM unit :=
  _ ← on_int (gas G_BASE); e ← env_of; on_int (push_value (tx_caller (tx e))).
Definition host_env_blob_hash (spec : SpecId) : HM unit :=
  _ ← on_int (check spec CANCUN); _ ← on_int (gas G_VERYLOW);
  index ← on_int top1; e ← env_of;
  on_int (set_top (default 0 (blob_hashes (tx e) !! Z.to_nat (as_usize_saturated index)))).
Definition host_env_blob_basefee (spec : SpecId) : HM unit :=
  _ ← on_int (check spec CANCUN); _ ← on_int (gas G_BASE); e ← env_of;
  on_int (push_value (default 0 (get_blob_gasprice (block e)))).

(** ** [host.rs] *)

Definition host_balance (spec : SpecId) : HM unit :=
  address ← on_int pop_address;
  '(balance, is_cold) ← host_some (h_base_balance address);
  _ ← on_int (gas (if enabled spec BERLIN then warm_cold_cost is_cold
                   else if enabled spec ISTANBUL then 700
                   else if enabled spec TANGERINE then 400 else 20));
  on_int (push_value balance).
Definition host_selfbalance (spec : SpecId) : HM unit :=
  _ ← on_int (check spec ISTANBUL); _ ← on_int (gas G_LOW);
  a ← self_address;
  '(balance, _) ← host_some (h_base_balance a);
  on_int (push_value balance).
Definition host_extcodesize (spec : SpecId) : HM unit :=
  address ← on_int pop_address;
  '(code, is_cold) ← host_some (h_code address);
  _ ← on_int (if enabled spec BERLIN then gas (warm_cold_cost is_cold)
              else if enabled spec TANGERINE then gas 700 else gas 20);
  on_int (push_value (Bytecode_len code)).
Definition host_extcodehash (spec : SpecId) : HM unit :=
  _ ← on_int (check spec CONSTANTINOPLE);
  address ← on_int pop_address;
  '(code_hash, is_cold) ← host_some (h_code_hash address);
  _ ← on_int (if enabled spec BERLIN then gas (warm_cold_cost is_cold)
              else if enabled spec ISTANBUL then gas 700 else gas 400);
  on_int (push_value code_hash).
Definition host_extcodecopy (spec : SpecId) : HM unit :=
  address ← on_int pop_address;
  '(memory_offset, code_offset, len_u256) ← on_int pop3;
  '(code, is_cold) ← host_some (h_code address);
  on_int (
    len ← as_usize_or_fail len_u256;
    _ ← gas_or_fail (extcodecopy_cost spec len is_cold);
    if len =? 0 then mret tt
    else
      memory_offset ← as_usize_or_fail memory_offset;
      let code_offset := Z.min (as_usize_saturated code_offset) (Bytecode_len code) in
      _ ← resize_memory_to memory_offset len;
      on_memory (set_data memory_offset code_offset len (original_byte_slice code))).
Definition host_blockhash : HM unit :=
  _ ← on_int (gas G_BLOCKHASH);
  number ← on_int top1;
  hash ← host_some (h_block_hash number);
  on_int (set_top hash).
Definition host_sload (spec : SpecId) : HM unit :=
  index ← on_int top1;
  a ← self_address;
  '(value, is_cold) ← host_some (h_sload a index);
  _ ← on_int (gas (sload_cost spec is_cold));
  on_int (set_top value).
Definition host_sstore (spec : SpecId) : HM unit :=
  _ ← on_int require_non_staticcall;
  '(index, value) ← on_int pop2;
  a ← self_address;
  r ← host_some (h_sstore a index value);
  remaining_gas ← gets (fun s => remaining (in_gas s.1));
  _ ← on_int (gas_or_fail (sstore_cost spec (ss_original_value r) (ss_present_value r)
        (ss_new_value r) remaining_gas (ss_is_cold r)));
  on_int (refund (sstore_refund spec (ss_original_value r) (ss_present_value r) (ss_new_value r))).
Definition host_tstore (spec : SpecId) : HM unit :=
  _ ← on_int (check spec CANCUN); _ ← on_int require_non_staticcall;
  _ ← on_int (gas WARM_STORAGE_READ_COST);
  '(index, value) ← on_int pop2;
  a ← self_address;
  on_host (h_tstore a index value).
Definition host_tload (spec : SpecId) : HM unit :=
  _ ← on_int (check spec CANCUN); _ ← on_int (gas WARM_STORAGE_READ_COST);
  index ← on_int top1;
  a ← self_address;
  v ← on_host (h_tload a index);
  on_int (set_top v).

(** The topics of a log, popped one by one without a check. *)
Fixpoint pop_topics (n : nat) : IM (list Z) :=
  match n with
  | O => mret []
  | S n => t ← on_stack pop_unsafe; ts ← pop_topics n; mret (t :: ts)
  end.
Definition host_log (n : nat) : HM unit :=
  _ ← on_int require_non_staticcall;
  '(data, topics) ← on_int (
    '(offset, len) ← pop2;
    len ← as_usize_or_fail len;
    _ ← gas_or_fail (log_cost (Z.of_nat n) len);
    data ← (if len =? 0 then mret []
            else
              offset ← as_usize_or_fail offset;
              _ ← resize_memory_to offset len;
              on_memory (mem_slice offset len));
    _ ← require_stack (Z.of_nat n);
    topics ← pop_topics n;
    mret (data, topics));
  a ← self_address;
  on_host (h_log (mkLog a topics data)).
Definition host_selfdestruct (spec : SpecId) : HM unit :=
  _ ← on_int require_non_staticcall;
  beneficiary ← on_int pop_address;
  a ← self_address;
  res ← host_some (h_selfdestruct a beneficiary);
  _ ← on_int (if negb (enabled spec LONDON) && negb (previously_destroyed res)
              then refund G_SELFDESTRUCT else mret tt);
  _ ← on_int (gas (selfdestruct_cost spec res));
  on_int (halt IR_SelfDestruct).

(** ** [call_helpers.rs] *)

Definition resize_memory_and_return_range (offset len : Z) : IM (Z * Z) :=
  len ← as_usize_or_fail len;
  offset ←
    (if negb (len =? 0) then
       offset ← as_usize_or_fail offset;
       _ ← resize_memory_to offset len;
       mret offset
     else mret U64_MAX);
  mret (offset, wrapping_add 64 offset len).

Definition range_is_empty (r : Z * Z) : bool := negb (r.1 <? r.2).

Definition get_memory_input_and_out_ranges : IM (bytes * (Z * Z)) :=
  '(in_offset, in_len, out_offset, out_len) ← pop4;
  in_range ← resize_memory_and_return_range in_offset in_len;
  input ← (if negb (range_is_empty in_range) then on_memory (mem_slice_range in_range.1 in_range.2)
           else mret []);
  ret_range ← resize_memory_and_return_range out_offset out_len;
  mret (input, ret_range).

Definition calc_call_gas (spec : SpecId) (is_cold has_transfer new_account_accounting : bool)
  (local_gas_limit : Z) : IM Z :=
  _ ← gas (call_cost spec has_transfer is_cold new_account_accounting);
  if enabled spec TANGERINE then
    g ← gets (fun i => remaining (in_gas i));
    mret (Z.min (wrapping_sub 64 g (g / 64)) local_gas_limit)
  else mret local_gas_limit.

(** ** [contract.rs] *)

(** Emit a call, and stop to have it executed. *)
Definition emit_call (inputs : CallInputs) : IM unit :=
  _ ← modify (set_next_action (IA_Call inputs));
  halt IR_CallOrCreate.

(** The [resize_memory] of this file. *)
Definition resize_memory_range (offset len : Z) : IM (Z * Z) :=
  len ← as_usize_or_fail len;
  if negb (len =? 0) then
    offset ← as_usize_or_fail offset;
    _ ← resize_memory_to offset len;
    mret (offset, wrapping_add 64 offset len)
  else mret (U64_MAX, U64_MAX).

(** An inner container that the validation of the outer one has decoded. *)
Definition verified_container (e : Eof) (idx : Z) : IM (bytes * Eof) :=
  sub_container ← lift (unwrap (container_section (body e) !! Z.to_nat idx));
  eof ← lift (match Eof_decode sub_container with Ok eof => Ok eof | _ => Panic end);
  mret (sub_container, eof).

(** The instruction does not set [instruction_result]. *)
Definition contract_eofcreate : IM unit :=
  _ ← require_eof; _ ← gas EOF_CREATE_GAS;
  initcontainer_index ← read_u8_at 0;
  '(value, salt, data_offset, data_size) ← pop4;
  i ← get;
  outer ← lift (unwrap (in_eof i));
  sub_container ← lift (unwrap (container_section (body outer) !! Z.to_nat initcontainer_index));
  return_range ← resize_memory_range data_offset data_size;
  eof ← lift (match Eof_decode sub_container with Ok eof => Ok eof | _ => Panic end);
  if negb (is_data_filled (body eof)) then lift Panic
  else
    _ ← gas_or_fail (cost_per_word (len sub_container) G_KECCAK256WORD);
    i ← get;
    let created_address := create2_address (c_caller (contract i)) salt (keccak256 sub_container) in
    _ ← modify (set_next_action (IA_EOFCreate (mkEOFCreateInput (c_target_address (contract i))
          created_address value eof (remaining (in_gas i)) return_range)));
    advance 1.

Definition contract_return_contract : IM unit :=
  _ ← require_init_eof;
  deploy_container_index ← read_u16_at 0;
  '(aux_data_offset, aux_data_size) ← pop2;
  aux_data_size ← as_usize_or_fail aux_data_size;
  i ← get;
  outer ← lift (unwrap (in_eof i));
  '(_, new_eof) ← verified_container outer deploy_container_index;
  aux_slice ←
    (if negb (aux_data_size =? 0) then
       aux_data_offset ← as_usize_or_fail aux_data_offset;
       _ ← resize_memory_to aux_data_offset aux_data_size;
       on_memory (mem_slice aux_data_offset aux_data_size)
     else mret []);
  let new_data_size := len (data_section (body new_eof)) + len aux_slice in
  if 0xFFFF <? new_data_size then fail IR_FatalExternalError
  else if new_data_size <? data_size (header new_eof) then fail IR_FatalExternalError
  else
    let output := raw new_eof ++ aux_slice in
    _ ← halt IR_ReturnContract;
    modify (fun i => set_next_action
      (IA_Return (mkInterpreterResult IR_ReturnContract output (in_gas i))) i).

Definition extcall_input : IM bytes :=
  '(input_offset, input_size) ← pop2;
  range ← resize_memory_and_return_range input_offset input_size;
  on_memory (mem_slice_range range.1 range.2).

Definition extcall_gas_calc (to : Address) (transfers_value : bool) : HM Z :=
  load_result ← host_some (h_load_account to);
  on_int (
    _ ← (if load_is_cold load_result then gas COLD_ACCOUNT_ACCESS_COST else mret tt);
    _ ← gas (call_cost BERLIN transfers_value (load_is_cold load_result) (load_is_empty load_result));
    g ← gets (fun i => remaining (in_gas i));
    let gas_reduce := Z.max (g / 64) 5000 in
    let gas_limit := saturating_sub g gas_reduce in
    if gas_limit <? 2300 then fail IR_CallNotAllowedInsideStatic
    else _ ← gas gas_limit; mret gas_limit).

(** The inputs of an EOF call to [to]. *)
Definition ext_call_inputs (input : bytes) (gas_limit : Z) (to : Address) (i : Interpreter)
  (values : CallValues) (scheme : CallScheme) : CallInputs :=
  mkCallInputs input (0, 0) gas_limit to to (c_target_address (contract i)) values scheme
    (in_is_static i) true.

Definition contract_extcall : HM unit :=
  _ ← on_int require_eof;
  to ← on_int pop_address;
  input ← on_int extcall_input;
  value ← on_int pop1;
  gas_limit ← extcall_gas_calc to (negb (value =? 0));
  on_int (i ← get; emit_call (ext_call_inputs input gas_limit to i
    (CV_Transfer [mkTransfer BASE_TOKEN_ID value]) CS_Call)).
Definition contract_extdelegatecall : HM unit :=
  _ ← on_int require_eof;
  to ← on_int pop_address;
  input ← on_int extcall_input;
  gas_limit ← extcall_gas_calc to false;
  on_int (i ← get; emit_call (ext_call_inputs input gas_limit to i
    (CV_Apparent (c_call_values (contract i))) CS_DelegateCall)).
Definition contract_extstaticcall : HM unit :=
  _ ← on_int require_eof;
  to ← on_int pop_address;
  input ← on_int extcall_input;
  gas_limit ← extcall_gas_calc to false;
  on_int (i ← get; emit_call (ext_call_inputs input gas_limit to i (CV_Transfer []) CS_Call)).

(** The limit on the init code of CREATE, in bytes. *)
Definition max_initcode_size (e : Env) : Z :=
  match limit_contract_code_size (cfg e) with
  | Some limit => saturating_mul 64 limit 2
  | None => MAX_INITCODE_SIZE
  end.

(** Read the init code, after its length is checked and paid for. *)
Definition create_code (spec : SpecId) (e : Env) (code_offset length : Z) : IM bytes :=
  if negb (length =? 0) then
    _ ← (if enabled spec SHANGHAI then
           if max_initcode_size e <? length then fail IR_CreateInitCodeSizeLimit
           else cost ← lift (unwrap (initcode_cost length)); gas cost
         else mret tt);
    code_offset ← as_usize_or_fail code_offset;
    _ ← resize_memory_to code_offset length;
    on_memory (mem_slice code_offset length)
  else mret [].

Definition contract_create (is_create2 : bool) (spec : SpecId) : HM unit :=
  e ← env_of;
  on_int (
    _ ← require_non_staticcall;
    _ ← (if is_create2 then check spec PETERSBURG else mret tt);
    '(value, code_offset, length) ← pop3;
    length ← as_usize_or_fail length;
    code ← create_code spec e code_offset length;
    scheme ←
      (if is_create2 then
         salt ← pop1; _ ← gas_or_fail (create2_cost length); mret (Create2 salt)
       else _ ← gas G_CREATE; mret Create);
    g ← gets (fun i => remaining (in_gas i));
    let gas_limit := if enabled spec TANGERINE then wrapping_sub 64 g (g / 64) else g in
    _ ← gas gas_limit;
    i ← get;
    _ ← modify (set_next_action (IA_Create
          (mkCreateInputs (c_target_address (contract i)) scheme value code gas_limit)));
    halt IR_CallOrCreate).

(** [u64::try_from(local_gas_limit).unwrap_or(u64::MAX)] is a saturation. *)
Definition pop_call_gas_and_target : IM (Z * Address) :=
  local_gas_limit ← pop1; to ← pop_address; mret (as_u64_saturated local_gas_limit, to).

Definition with_stipend (has_transfer : bool) (gas_limit : Z) : Z :=
  if has_transfer then saturating_add 64 gas_limit CALL_STIPEND else gas_limit.

Definition contract_call (spec : SpecId) : HM unit :=
  '(local_gas_limit, to) ← on_int pop_call_gas_and_target;
  value ← on_int pop1;
  let has_transfer := negb (value =? 0) in
  static ← gets (fun s => in_is_static s.1);
  if static && has_transfer then fail IR_CallNotAllowedInsideStatic
  else
    '(input, return_memory_offset) ← on_int get_memory_input_and_out_ranges;
    acc ← host_some (h_load_account to);
    on_int (
      gas_limit ← calc_call_gas spec (load_is_cold acc) has_transfer (load_is_empty acc) local_gas_limit;
      _ ← gas gas_limit;
      i ← get;
      emit_call (mkCallInputs input return_memory_offset (with_stipend has_transfer gas_limit) to to
        (c_target_address (contract i)) (CV_Transfer [mkTransfer BASE_TOKEN_ID value]) CS_Call
        (in_is_static i) false)).
Definition contract_call_code (spec : SpecId) : HM unit :=
  '(local_gas_limit, to) ← on_int pop_call_gas_and_target;
  value ← on_int pop1;
  let has_transfer := negb (value =? 0) in
  '(input, return_memory_offset) ← on_int get_memory_input_and_out_ranges;
  acc ← host_some (h_load_account to);
  on_int (
    gas_limit ← calc_call_gas spec (load_is_cold acc) has_transfer false local_gas_limit;
    _ ← gas gas_limit;
    i ← get;
    emit_call (mkCallInputs input return_memory_offset (with_stipend has_transfer gas_limit) to
      (c_target_address (contract i)) (c_target_address (contract i))
      (CV_Transfer [mkTransfer BASE_TOKEN_ID value]) CS_CallCode (in_is_static i) false)).
Definition contract_delegate_call (spec : SpecId) : HM unit :=
  _ ← on_int (check spec HOMESTEAD);
  '(local_gas_limit, to) ← on_int pop_call_gas_and_target;
  '(input, return_memory_offset) ← on_int get_memory_input_and_out_ranges;
  acc ← host_some (h_load_account to);
  on_int (
    gas_limit ← calc_call_gas spec (load_is_cold acc) false false local_gas_limit;
    _ ← gas gas_limit;
    i ← get;
    emit_call (mkCallInputs input return_memory_offset gas_limit to (c_target_address (contract i))
      (c_caller (contract i)) (CV_Apparent (c_call_values (contract i))) CS_DelegateCall
      (in_is_static i) false)).
Definition contract_static_call (spec : SpecId) : HM unit :=
  _ ← on_int (check spec BYZANTIUM);
  '(local_gas_limit, to) ← on_int pop_call_gas_and_target;
  '(input, return_memory_offset) ← on_int get_memory_input_and_out_ranges;
  acc ← host_some (h_load_account to);
  on_int (
    gas_limit ← calc_call_gas spec (load_is_cold acc) false false local_gas_limit;
    _ ← gas gas_limit;
    i ← get;
    emit_call (mkCallInputs input return_memory_offset gas_limit to to (c_target_address (contract i))
      (CV_Transfer []) CS_StaticCall true false)).
End host_instructions.
