(* ===== verification/Opcode.v ===== *)
(** The opcodes and the loop of the interpreter: [crates/interpreter/src/opcode.rs],
    and [step] and [run] of [interpreter.rs]. *)

From Stdlib Require Import Sorting.Sorted.
From S2P Require Import Prelude.
From S2P Require Import Specification.
From S2P Require Import Bytes.
From S2P Require Import Eof.
From S2P Require Import Bytecode.
From S2P Require Import State.
From S2P Require Import Result.
From S2P Require Import InstructionResult.
From S2P Require Import Database.
From S2P Require Import Journal.
From S2P Require Import CallInputs.
From S2P Require Import Gas.
From S2P Require Import Stack.
From S2P Require Import SharedMemory.
From S2P Require Import Analysis.
From S2P Require Import Env.
From S2P Require Import Interpreter.
From S2P Require Import Context.
From S2P Require Import Instructions.
From S2P Require Import HostInstructions.

(** ** Opcodes *)

Record OpCodeInfo : Type := mkOpCodeInfo {
  op_name : string;
  op_inputs : Z;
  op_outputs : Z;
  op_immediate_size : Z;
  op_not_eof : bool;
  op_terminating : bool;
}.

Definition opcode_infos : list (Z * OpCodeInfo) :=
  [(0x00, mkOpCodeInfo "STOP" 0 0 0 false true); (0x01, mkOpCodeInfo "ADD" 2 1 0 false false);
   (0x02, mkOpCodeInfo "MUL" 2 1 0 false false); (0x03, mkOpCodeInfo "SUB" 2 1 0 false false);
   (0x04, mkOpCodeInfo "DIV" 2 1 0 false false); (0x05, mkOpCodeInfo "SDIV" 2 1 0 false false);
   (0x06, mkOpCodeInfo "MOD" 2 1 0 false false); (0x07, mkOpCodeInfo "SMOD" 2 1 0 false false);
   (0x08, mkOpCodeInfo "ADDMOD" 3 1 0 false false); (0x09, mkOpCodeInfo "MULMOD" 3 1 0 false false);
   (0x0A, mkOpCodeInfo "EXP" 2 1 0 false false); (0x0B, mkOpCodeInfo "SIGNEXTEND" 2 1 0 false false);
   (0x10, mkOpCodeInfo "LT" 2 1 0 false false); (0x11, mkOpCodeInfo "GT" 2 1 0 false false);
   (0x12, mkOpCodeInfo "SLT" 2 1 0 false false); (0x13, mkOpCodeInfo "SGT" 2 1 0 false false);
   (0x14, mkOpCodeInfo "EQ" 2 1 0 false false); (0x15, mkOpCodeInfo "ISZERO" 1 1 0 false false);
   (0x16, mkOpCodeInfo "AND" 2 1 0 false false); (0x17, mkOpCodeInfo "OR" 2 1 0 false false);
   (0x18, mkOpCodeInfo "XOR" 2 1 0 false false); (0x19, mkOpCodeInfo "NOT" 1 1 0 false false);
   (0x1A, mkOpCodeInfo "BYTE" 2 1 0 false false); (0x1B, mkOpCodeInfo "SHL" 2 1 0 false false);
   (0x1C, mkOpCodeInfo "SHR" 2 1 0 false false); (0x1D, mkOpCodeInfo "SAR" 2 1 0 false false);
   (0x20, mkOpCodeInfo "KECCAK256" 2 1 0 false false);
   (0x30, mkOpCodeInfo "ADDRESS" 0 1 0 false false); (0x31, mkOpCodeInfo "BALANCE" 1 1 0 false false);
   (0x32, mkOpCodeInfo "ORIGIN" 0 1 0 false false); (0x33, mkOpCodeInfo "CALLER" 0 1 0 false false);
   (0x34, mkOpCodeInfo "CALLVALUE" 0 1 0 false false);
   (0x35, mkOpCodeInfo "CALLDATALOAD" 1 1 0 false false);
   (0x36, mkOpCodeInfo "CALLDATASIZE" 0 1 0 false false);
   (0x37, mkOpCodeInfo "CALLDATACOPY" 3 0 0 false false);
   (0x38, mkOpCodeInfo "CODESIZE" 0 1 0 true false); (0x39, mkOpCodeInfo "CODECOPY" 3 0 0 true false);
   (0x3A, mkOpCodeInfo "GASPRICE" 0 1 0 false false);
   (0x3B, mkOpCodeInfo "EXTCODESIZE" 1 1 0 true false);
   (0x3C, mkOpCodeInfo "EXTCODECOPY" 4 0 0 true false);
   (0x3D, mkOpCodeInfo "RETURNDATASIZE" 0 1 0 false false);
   (0x3E, mkOpCodeInfo "RETURNDATACOPY" 3 0 0 false false);
   (0x3F, mkOpCodeInfo "EXTCODEHASH" 1 1 0 true false);
   (0x40, mkOpCodeInfo "BLOCKHASH" 1 1 0 false false);
   (0x41, mkOpCodeInfo "COINBASE" 0 1 0 false false);
   (0x42, mkOpCodeInfo "TIMESTAMP" 0 1 0 false false); (0x43, mkOpCodeInfo "NUMBER" 0 1 0 false false);
   (0x44, mkOpCodeInfo "DIFFICULTY" 0 1 0 false false);
   (0x45, mkOpCodeInfo "GASLIMIT" 0 1 0 false false); (0x46, mkOpCodeInfo "CHAINID" 0 1 0 false false);
   (0x47, mkOpCodeInfo "SELFBALANCE" 0 1 0 false false);
   (0x48, mkOpCodeInfo "BASEFEE" 0 1 0 false false); (0x49, mkOpCodeInfo "BLOBHASH" 1 1 0 false false);
   (0x4A, mkOpCodeInfo "BLOBBASEFEE" 0 1 0 false false); (0x50, mkOpCodeInfo "POP" 1 0 0 false false);
   (0x51, mkOpCodeInfo "MLOAD" 1 1 0 false false); (0x52, mkOpCodeInfo "MSTORE" 2 0 0 false false);
   (0x53, mkOpCodeInfo "MSTORE8" 2 0 0 false false); (0x54, mkOpCodeInfo "SLOAD" 1 1 0 false false);
   (0x55, mkOpCodeInfo "SSTORE" 2 0 0 false false); (0x56, mkOpCodeInfo "JUMP" 1 0 0 true false);
   (0x57, mkOpCodeInfo "JUMPI" 2 0 0 true false); (0x58, mkOpCodeInfo "PC" 0 1 0 true false);
   (0x59, mkOpCodeInfo "MSIZE" 0 1 0 false false); (0x5A, mkOpCodeInfo "GAS" 0 1 0 true false);
   (0x5B, mkOpCodeInfo "JUMPDEST" 0 0 0 false false); (0x5C, mkOpCodeInfo "TLOAD" 1 1 0 false false);
   (0x5D, mkOpCodeInfo "TSTORE" 2 0 0 false false); (0x5E, mkOpCodeInfo "MCOPY" 3 0 0 false false);
   (0x5F, mkOpCodeInfo "PUSH0" 0 1 0 false false); (0x60, mkOpCodeInfo "PUSH1" 0 1 1 false false);
   (0x61, mkOpCodeInfo "PUSH2" 0 1 2 false false); (0x62, mkOpCodeInfo "PUSH3" 0 1 3 false false);
   (0x63, mkOpCodeInfo "PUSH4" 0 1 4 false false); (0x64, mkOpCodeInfo "PUSH5" 0 1 5 false false);
   (0x65, mkOpCodeInfo "PUSH6" 0 1 6 false false); (0x66, mkOpCodeInfo "PUSH7" 0 1 7 false false);
   (0x67, mkOpCodeInfo "PUSH8" 0 1 8 false false); (0x68, mkOpCodeInfo "PUSH9" 0 1 9 false false);
   (0x69, mkOpCodeInfo "PUSH10" 0 1 10 false false); (0x6A, mkOpCodeInfo "PUSH11" 0 1 11 false false);
   (0x6B, mkOpCodeInfo "PUSH12" 0 1 12 false false); (0x6C, mkOpCodeInfo "PUSH13" 0 1 13 false false);
   (0x6D, mkOpCodeInfo "PUSH14" 0 1 14 false false); (0x6E, mkOpCodeInfo "PUSH15" 0 1 15 false false);
   (0x6F, mkOpCodeInfo "PUSH16" 0 1 16 false false); (0x70, mkOpCodeInfo "PUSH17" 0 1 17 false false);
   (0x71, mkOpCodeInfo "PUSH18" 0 1 18 false false); (0x72, mkOpCodeInfo "PUSH19" 0 1 19 false false);
   (0x73, mkOpCodeInfo "PUSH20" 0 1 20 false false); (0x74, mkOpCodeInfo "PUSH21" 0 1 21 false false);
   (0x75, mkOpCodeInfo "PUSH22" 0 1 22 false false); (0x76, mkOpCodeInfo "PUSH23" 0 1 23 false false);
   (0x77, mkOpCodeInfo "PUSH24" 0 1 24 false false); (0x78, mkOpCodeInfo "PUSH25" 0 1 25 false false);
   (0x79, mkOpCodeInfo "PUSH26" 0 1 26 false false); (0x7A, mkOpCodeInfo "PUSH27" 0 1 27 false false);
   (0x7B, mkOpCodeInfo "PUSH28" 0 1 28 false false); (0x7C, mkOpCodeInfo "PUSH29" 0 1 29 false false);
   (0x7D, mkOpCodeInfo "PUSH30" 0 1 30 false false); (0x7E, mkOpCodeInfo "PUSH31" 0 1 31 false false);
   (0x7F, mkOpCodeInfo "PUSH32" 0 1 32 false false); (0x80, mkOpCodeInfo "DUP1" 1 2 0 false false);
   (0x81, mkOpCodeInfo "DUP2" 2 3 0 false false); (0x82, mkOpCodeInfo "DUP3" 3 4 0 false false);
   (0x83, mkOpCodeInfo "DUP4" 4 5 0 false false); (0x84, mkOpCodeInfo "DUP5" 5 6 0 false false);
   (0x85, mkOpCodeInfo "DUP6" 6 7 0 false false); (0x86, mkOpCodeInfo "DUP7" 7 8 0 false false);
   (0x87, mkOpCodeInfo "DUP8" 8 9 0 false false); (0x88, mkOpCodeInfo "DUP9" 9 10 0 false false);
   (0x89, mkOpCodeInfo "DUP10" 10 11 0 false false); (0x8A, mkOpCodeInfo "DUP11" 11 12 0 false false);
   (0x8B, mkOpCodeInfo "DUP12" 12 13 0 false false); (0x8C, mkOpCodeInfo "DUP13" 13 14 0 false false);
   (0x8D, mkOpCodeInfo "DUP14" 14 15 0 false false); (0x8E, mkOpCodeInfo "DUP15" 15 16 0 false false);
   (0x8F, mkOpCodeInfo "DUP16" 16 17 0 false false); (0x90, mkOpCodeInfo "SWAP1" 2 2 0 false false);
   (0x91, mkOpCodeInfo "SWAP2" 3 3 0 false false); (0x92, mkOpCodeInfo "SWAP3" 4 4 0 false false);
   (0x93, mkOpCodeInfo "SWAP4" 5 5 0 false false); (0x94, mkOpCodeInfo "SWAP5" 6 6 0 false false);
   (0x95, mkOpCodeInfo "SWAP6" 7 7 0 false false); (0x96, mkOpCodeInfo "SWAP7" 8 8 0 false false);
   (0x97, mkOpCodeInfo "SWAP8" 9 9 0 false false); (0x98, mkOpCodeInfo "SWAP9" 10 10 0 false false);
   (0x99, mkOpCodeInfo "SWAP10" 11 11 0 false false);
   (0x9A, mkOpCodeInfo "SWAP11" 12 12 0 false false);
   (0x9B, mkOpCodeInfo "SWAP12" 13 13 0 false false);
   (0x9C, mkOpCodeInfo "SWAP13" 14 14 0 false false);
   (0x9D, mkOpCodeInfo "SWAP14" 15 15 0 false false);
   (0x9E, mkOpCodeInfo "SWAP15" 16 16 0 false false);
   (0x9F, mkOpCodeInfo "SWAP16" 17 17 0 false false); (0xA0, mkOpCodeInfo "LOG0" 2 0 0 false false);
   (0xA1, mkOpCodeInfo "LOG1" 3 0 0 false false); (0xA2, mkOpCodeInfo "LOG2" 4 0 0 false false);
   (0xA3, mkOpCodeInfo "LOG3" 5 0 0 false false); (0xA4, mkOpCodeInfo "LOG4" 6 0 0 false false);
   (0xD0, mkOpCodeInfo "DATALOAD" 1 1 0 false false);
   (0xD1, mkOpCodeInfo "DATALOADN" 0 1 2 false false);
   (0xD2, mkOpCodeInfo "DATASIZE" 0 1 0 false false);
   (0xD3, mkOpCodeInfo "DATACOPY" 3 0 0 false false); (0xE0, mkOpCodeInfo "RJUMP" 0 0 2 false true);
   (0xE1, mkOpCodeInfo "RJUMPI" 1 0 2 false false); (0xE2, mkOpCodeInfo "RJUMPV" 1 0 1 false false);
   (0xE3, mkOpCodeInfo "CALLF" 0 0 2 false false); (0xE4, mkOpCodeInfo "RETF" 0 0 0 false true);
   (0xE5, mkOpCodeInfo "JUMPF" 0 0 2 false true); (0xE6, mkOpCodeInfo "DUPN" 0 1 1 false false);
   (0xE7, mkOpCodeInfo "SWAPN" 0 0 1 false false); (0xE8, mkOpCodeInfo "EXCHANGE" 0 0 1 false false);
   (0xEC, mkOpCodeInfo "EOFCREATE" 4 1 1 false false);
   (0xEE, mkOpCodeInfo "RETURNCONTRACT" 2 0 1 false true);
   (0xF0, mkOpCodeInfo "CREATE" 3 1 0 true false); (0xF1, mkOpCodeInfo "CALL" 7 1 0 true false);
   (0xF2, mkOpCodeInfo "CALLCODE" 7 1 0 true false); (0xF3, mkOpCodeInfo "RETURN" 2 0 0 false true);
   (0xF4, mkOpCodeInfo "DELEGATECALL" 6 1 0 true false);
   (0xF5, mkOpCodeInfo "CREATE2" 4 1 0 true false);
   (0xF7, mkOpCodeInfo "RETURNDATALOAD" 1 1 0 false false);
   (0xF8, mkOpCodeInfo "EXTCALL" 4 1 0 false false);
   (0xF9, mkOpCodeInfo "EXTDELEGATECALL" 3 1 0 false false);
   (0xFA, mkOpCodeInfo "STATICCALL" 6 1 0 true false);
   (0xFB, mkOpCodeInfo "EXTSTATICCALL" 3 1 0 false false);
   (0xFD, mkOpCodeInfo "REVERT" 2 0 0 false true); (0xFE, mkOpCodeInfo "INVALID" 0 0 0 false true);
   (0xFF, mkOpCodeInfo "SELFDESTRUCT" 1 0 0 true true)].

Definition assoc {A} (k : Z) (l : list (Z * A)) : option A :=
  snd <$> (snd <$> list_find (fun p => p.1 = k) l).

(** [OPCODE_INFO_JUMPTABLE]. *)
Definition opcode_info (opcode : Z) : option OpCodeInfo := assoc opcode opcode_infos.

(** Methods of [OpCode]; [new] is the test that there is an info. *)
Definition is_valid_opcode (opcode : Z) : bool := bool_decide (is_Some (opcode_info opcode)).
Definition is_jumpdest_by_op (opcode : Z) : bool := is_valid_opcode opcode && (opcode =? JUMPDEST).
Definition is_jump_by_op (opcode : Z) : bool := is_valid_opcode opcode && (opcode =? 0x56).
Definition is_push_by_op (opcode : Z) : bool :=
  is_valid_opcode opcode && ((PUSH1 <=? opcode) && (opcode <=? 0x7F)).
Definition name_by_op (opcode : Z) : string :=
  match opcode_info opcode with Some i => op_name i | None => "Unknown" end.
Definition io_diff (i : OpCodeInfo) : Z := op_outputs i - op_inputs i.
Definition modifies_memory (opcode : Z) : bool :=
  bool_decide (opcode ∈ [0x3C; 0x51; 0x52; 0x53; 0x5E; 0x39; 0x37; 0x3E; 0xF1; 0xF2; 0xF4; 0xFA]).

Section loop.
Context {H : Type} `{HH : Host H} `{HK : Keccak} `{HC : CreateAddress}.
Abbreviation HM := (M (Interpreter * H) InstructionResult).
Abbreviation LM := (M (Interpreter * H) Empty_set).

(** [instruction]: the table of a hard fork. *)
Definition instructions (spec : SpecId) : list (Z * HM unit) :=
  [(0x00, on_int control_stop); (0x01, on_int arithmetic_add); (0x02, on_int arithmetic_mul);
   (0x03, on_int arithmetic_sub); (0x04, on_int arithmetic_div); (0x05, on_int arithmetic_sdiv);
   (0x06, on_int arithmetic_rem); (0x07, on_int arithmetic_smod); (0x08, on_int arithmetic_addmod);
   (0x09, on_int arithmetic_mulmod); (0x0A, on_int (arithmetic_exp spec));
   (0x0B, on_int arithmetic_signextend); (0x10, on_int bitwise_lt); (0x11, on_int bitwise_gt);
   (0x12, on_int bitwise_slt); (0x13, on_int bitwise_sgt); (0x14, on_int bitwise_eq);
   (0x15, on_int bitwise_iszero); (0x16, on_int bitwise_bitand); (0x17, on_int bitwise_bitor);
   (0x18, on_int bitwise_bitxor); (0x19, on_int bitwise_not); (0x1A, on_int bitwise_byte);
   (0x1B, on_int (bitwise_shl spec)); (0x1C, on_int (bitwise_shr spec));
   (0x1D, on_int (bitwise_sar spec)); (0x20, on_int system_keccak256); (0x30, on_int system_address);
   (0x31, host_balance spec); (0x32, host_env_origin); (0x33, on_int system_caller);
   (0x34, on_int system_callvalue); (0x35, on_int system_calldataload);
   (0x36, on_int system_calldatasize); (0x37, on_int system_calldatacopy);
   (0x38, on_int system_codesize); (0x39, on_int system_codecopy); (0x3A, host_env_gasprice);
   (0x3B, host_extcodesize spec); (0x3C, host_extcodecopy spec);
   (0x3D, on_int (system_returndatasize spec)); (0x3E, on_int (system_returndatacopy spec));
   (0x3F, host_extcodehash spec); (0x40, host_blockhash); (0x41, host_env_coinbase);
   (0x42, host_env_timestamp); (0x43, host_env_block_number); (0x44, host_env_difficulty spec);
   (0x45, host_env_gaslimit); (0x46, host_env_chainid spec); (0x47, host_selfbalance spec);
   (0x48, host_env_basefee spec); (0x49, host_env_blob_hash spec); (0x4A, host_env_blob_basefee spec);
   (0x50, on_int stack_pop); (0x51, on_int memory_mload); (0x52, on_int memory_mstore);
   (0x53, on_int memory_mstore8); (0x54, host_sload spec); (0x55, host_sstore spec);
   (0x56, on_int control_jump); (0x57, on_int control_jumpi); (0x58, on_int control_pc);
   (0x59, on_int memory_msize); (0x5A, on_int system_gas); (0x5B, on_int control_jumpdest_or_nop);
   (0x5C, host_tload spec); (0x5D, host_tstore spec); (0x5E, on_int (memory_mcopy spec));
   (0x5F, on_int (stack_push0 spec)); (0x60, on_int (stack_push 1)); (0x61, on_int (stack_push 2));
   (0x62, on_int (stack_push 3)); (0x63, on_int (stack_push 4)); (0x64, on_int (stack_push 5));
   (0x65, on_int (stack_push 6)); (0x66, on_int (stack_push 7)); (0x67, on_int (stack_push 8));
   (0x68, on_int (stack_push 9)); (0x69, on_int (stack_push 10)); (0x6A, on_int (stack_push 11));
   (0x6B, on_int (stack_push 12)); (0x6C, on_int (stack_push 13)); (0x6D, on_int (stack_push 14));
   (0x6E, on_int (stack_push 15)); (0x6F, on_int (stack_push 16)); (0x70, on_int (stack_push 17));
   (0x71, on_int (stack_push 18)); (0x72, on_int (stack_push 19)); (0x73, on_int (stack_push 20));
   (0x74, on_int (stack_push 21)); (0x75, on_int (stack_push 22)); (0x76, on_int (stack_push 23));
   (0x77, on_int (stack_push 24)); (0x78, on_int (stack_push 25)); (0x79, on_int (stack_push 26));
   (0x7A, on_int (stack_push 27)); (0x7B, on_int (stack_push 28)); (0x7C, on_int (stack_push 29));
   (0x7D, on_int (stack_push 30)); (0x7E, on_int (stack_push 31)); (0x7F, on_int (stack_push 32));
   (0x80, on_int (stack_dup 1)); (0x81, on_int (stack_dup 2)); (0x82, on_int (stack_dup 3));
   (0x83, on_int (stack_dup 4)); (0x84, on_int (stack_dup 5)); (0x85, on_int (stack_dup 6));
   (0x86, on_int (stack_dup 7)); (0x87, on_int (stack_dup 8)); (0x88, on_int (stack_dup 9));
   (0x89, on_int (stack_dup 10)); (0x8A, on_int (stack_dup 11)); (0x8B, on_int (stack_dup 12));
   (0x8C, on_int (stack_dup 13)); (0x8D, on_int (stack_dup 14)); (0x8E, on_int (stack_dup 15));
   (0x8F, on_int (stack_dup 16)); (0x90, on_int (stack_swap 1)); (0x91, on_int (stack_swap 2));
   (0x92, on_int (stack_swap 3)); (0x93, on_int (stack_swap 4)); (0x94, on_int (stack_swap 5));
   (0x95, on_int (stack_swap 6)); (0x96, on_int (stack_swap 7)); (0x97, on_int (stack_swap 8));
   (0x98, on_int (stack_swap 9)); (0x99, on_int (stack_swap 10)); (0x9A, on_int (stack_swap 11));
   (0x9B, on_int (stack_swap 12)); (0x9C, on_int (stack_swap 13)); (0x9D, on_int (stack_swap 14));
   (0x9E, on_int (stack_swap 15)); (0x9F, on_int (stack_swap 16)); (0xA0, host_log 0);
   (0xA1, host_log 1); (0xA2, host_log 2); (0xA3, host_log 3); (0xA4, host_log 4);
   (0xD0, on_int data_data_load); (0xD1, on_int data_data_loadn); (0xD2, on_int data_data_size);
   (0xD3, on_int data_data_copy); (0xE0, on_int control_rjump); (0xE1, on_int control_rjumpi);
   (0xE2, on_int control_rjumpv); (0xE3, on_int control_callf); (0xE4, on_int control_retf);
   (0xE5, on_int control_jumpf); (0xE6, on_int stack_dupn); (0xE7, on_int stack_swapn);
   (0xE8, on_int stack_exchange); (0xEC, on_int contract_eofcreate);
   (0xEE, on_int contract_return_contract); (0xF0, contract_create false spec);
   (0xF1, contract_call spec); (0xF2, contract_call_code spec); (0xF3, on_int control_ret);
   (0xF4, contract_delegate_call spec); (0xF5, contract_create true spec);
   (0xF7, on_int system_returndataload); (0xF8, contract_extcall); (0xF9, contract_extdelegatecall);
   (0xFA, contract_static_call spec); (0xFB, contract_extstaticcall);
   (0xFD, on_int (control_revert spec)); (0xFE, on_int control_invalid); (0xFF, host_selfdestruct spec)].

Definition instruction (spec : SpecId) (opcode : Z) : HM unit :=
  default (on_int control_unknown) (assoc opcode (instructions spec)).

(** ** The loop *)

(** An instruction that returned early has set its result. *)
Definition settle_instruction (m : HM unit) : LM unit := fun s =>
  match m s with
  | (Ok _, s') => (Ok tt, s')
  | (Err e, s') => (Ok tt, (set_result e s'.1, s'.2))
  | (Panic, s') => (Panic, s')
  end.

Definition step (spec : SpecId) : LM unit :=
  i ← gets fst;
  opcode ← lift (index (in_bytecode i) (instruction_pointer i));
  _ ← modify (fun s => (set_pc (instruction_pointer s.1 + 1) s.1, s.2));
  settle_instruction (instruction spec opcode).

Definition running (i : Interpreter) : bool := bool_decide (instruction_result i = IR_Continue).

(** The [while] loop; [false] when the fuel, in steps, runs out. *)
Fixpoint run_loop (fuel : nat) (spec : SpecId) : LM bool :=
  i ← gets fst;
  if running i then
    match fuel with
    | O => mret false
    | S fuel => _ ← step spec; run_loop fuel spec
    end
  else mret true.

Definition take_memory (i : Interpreter) : SharedMemory * Interpreter :=
  (shared_memory i, set_memory EMPTY_SHARED_MEMORY i).

(** [run], without an action when the fuel runs out. *)
Definition run (fuel : nat) (spec : SpecId) (memory : SharedMemory) : LM (option InterpreterAction) :=
  _ ← modify (fun s => (set_memory memory (set_next_action IA_None s.1), s.2));
  finished ← run_loop fuel spec;
  if finished : bool then
    i ← gets fst;
    if IA_is_some (next_action i) then
      _ ← modify (fun s => (set_next_action IA_None s.1, s.2));
      mret (Some (next_action i))
    else mret (Some (IA_Return (mkInterpreterResult (instruction_result i) [] (in_gas i))))
  else mret None.
End loop.

(** The two tables list the same opcodes, in increasing order. *)
Example opcode_tables_agree `{Host H} `{Keccak} `{CreateAddress} spec :
  fst <$> instructions spec = fst <$> opcode_infos.
Proof. reflexivity. Qed.
Example opcodes_increase : StronglySorted Z.lt (fst <$> opcode_infos).
Proof. vm_compute. repeat constructor. Qed.
