(* ===== verification/InterpreterSteps.v ===== *)
(** What one instruction can do to the interpreter: a relation that every
    instruction obeys, and the gas that every instruction spends. *)

From S2P Require Import Prelude.
From S2P Require Import Specification.
From S2P Require Import Bytes.
From S2P Require Import Eof.
From S2P Require Import Bytecode.
From S2P Require Import State.
From S2P Require Import Result.
From S2P Require Import InstructionResult.
From S2P Require Import Database.
From S2P Require Import Journal.
From S2P Require Import CallInputs.
From S2P Require Import Gas.
From S2P Require Import Stack.
From S2P Require Import SharedMemory.
From S2P Require Import I256.
From S2P Require Import Analysis.
From S2P Require Import Env.
From S2P Require Import Interpreter.
From S2P Require Import Context.
From S2P Require Import Instructions.
From S2P Require Import HostInstructions.
From S2P Require Import Opcode.

(** ** Relations between two states of an interpreter *)

(** What no instruction changes: the contract and the mode; gas is not created,
    the stack stays within its limit, and an interpreter that halted stays so. *)
Record base_step (i i' : Interpreter) : Prop := {
  bs_contract : contract i' = contract i;
  bs_eof : in_is_eof i' = in_is_eof i;
  bs_static : in_is_static i' = in_is_static i;
  bs_gas : fits 64 (remaining (in_gas i)) ->
    fits 64 (remaining (in_gas i')) /\ remaining (in_gas i') <= remaining (in_gas i);
  bs_stack : len (stack i) <= STACK_LIMIT -> len (stack i') <= STACK_LIMIT;
  bs_halted : running i = false -> running i' = false;
}.

(** In legacy code an instruction keeps the code, and, unless it is a push or a
    jump, the instruction pointer. *)
Record quiet_step (i i' : Interpreter) : Prop := {
  qs_base : base_step i i';
  qs_code : in_is_eof i = false ->
    in_bytecode i' = in_bytecode i /\ instruction_pointer i' = instruction_pointer i;
}.

(** Most steps do not ask the caller for anything either. *)
Record silent_step (i i' : Interpreter) : Prop := {
  ss_quiet : quiet_step i i';
  ss_action : next_action i' = next_action i;
}.

#[export] Instance base_step_preorder : PreOrder base_step.
Proof.
  split.
  - intros i. by split.
  - intros i j k [] []. split; try congruence; auto.
    intros Hg. destruct bs_gas0 as [Hg1 Hg2]; [done|]. destruct bs_gas1 as [Hg3 Hg4]; [done|]. split; [done|lia].
Qed.

#[export] Instance quiet_step_preorder : PreOrder quiet_step.
Proof.
  split.
  - intros i. by split.
  - intros i j k [H1 Hc1] [H2 Hc2]. split; [by etrans|]. intros He.
    destruct (Hc1 He) as [<- <-]. apply Hc2. by rewrite (bs_eof _ _ H1).
Qed.

(** A relation that allows every silent step, and to ask for a return. *)
Class Coarse (R : Interpreter -> Interpreter -> Prop) : Prop := {
  coarse_preorder : PreOrder R;
  coarse : forall i i', silent_step i i' -> R i i';
  coarse_return : forall i r output,
    R i (set_next_action (IA_Return (mkInterpreterResult r output (in_gas i))) i);
  coarse_gas : forall i i', R i i' -> fits 64 (remaining (in_gas i)) -> fits 64 (remaining (in_gas i'));
}.
#[export] Existing Instance coarse_preorder.
#[export] Instance base_step_coarse : Coarse base_step.
Proof. split; [apply _|by intros i i' [[]]|done|]. intros i i' HR Hg. by apply (bs_gas _ _ HR). Qed.
#[export] Instance quiet_step_coarse : Coarse quiet_step.
Proof. split; [apply _|by intros i i' []|done|]. intros i i' [HR _] Hg. by apply (bs_gas _ _ HR). Qed.

(** A relation that allows any request. *)
Class Loose (R : Interpreter -> Interpreter -> Prop) : Prop :=
  loose : forall i a, R i (set_next_action a i).
#[export] Instance base_step_loose : Loose base_step.
Proof. done. Qed.
#[export] Instance quiet_step_loose : Loose quiet_step.
Proof. done. Qed.

(** ** Computations that obey a relation *)

(** The state is seen through [p]; an early return never reports [Continue]. *)
Definition obeys {S A} (p : S -> Interpreter) (R : Interpreter -> Interpreter -> Prop)
  (m : M S InstructionResult A) : Prop :=
  forall s r s', fits 64 (remaining (in_gas (p s))) -> m s = (r, s') ->
    R (p s) (p s') /\ r <> Err IR_Continue.

(** What a computation that succeeds answers. *)
Definition returns {S A} (p : S -> Interpreter) (P : A -> Prop) (m : M S InstructionResult A) : Prop :=
  forall s a s', fits 64 (remaining (in_gas (p s))) -> m s = (Ok a, s') -> P a.

(** It spends gas when it goes on. *)
Definition spends {S A} (p : S -> Interpreter) (m : M S InstructionResult A) : Prop :=
  forall s a s', fits 64 (remaining (in_gas (p s))) -> m s = (Ok a, s') ->
    remaining (in_gas (p s')) < remaining (in_gas (p s)) \/ running (p s') = false.

Create HintDb obeys.

Section composition.
Context {S : Type} (p : S -> Interpreter).

Lemma obeys_mono {A} (R R' : Interpreter -> Interpreter -> Prop) (m : M S InstructionResult A) :
  (forall i i', R i i' -> R' i i') -> obeys p R m -> obeys p R' m.
Proof. intros HR Hm s r s' Hg H. destruct (Hm _ _ _ Hg H). auto. Qed.

Lemma obeys_ret {A} R `{!Coarse R} (a : A) : obeys p R (mret a).
Proof. intros s r s' _ [= <- <-]. by split. Qed.

Lemma obeys_fail {A} R `{!Coarse R} e : e <> IR_Continue -> obeys p R (fail (A := A) e).
Proof. intros He s r s' _ [= <- <-]. split; [done|congruence]. Qed.

Lemma obeys_lift {A} R `{!Coarse R} (m : outcome InstructionResult A) :
  m <> Err IR_Continue -> obeys p R (lift m).
Proof. by intros Hm s r s' _ [= <- <-]. Qed.

Lemma obeys_unwrap {A} R `{!Coarse R} (o : option A) : obeys p R (lift (unwrap o)).
Proof. apply obeys_lift; [done|]. by destruct o. Qed.

Lemma obeys_gets {A} R `{!Coarse R} (f : S -> A) : obeys p R (gets f).
Proof. by intros s r s' _ [= <- <-]. Qed.

Lemma obeys_get R `{!Coarse R} : obeys p R get.
Proof. by intros s r s' _ [= <- <-]. Qed.

Lemma obeys_bind_inv {A B} R (m : M S InstructionResult A) (f : A -> M S InstructionResult B) s r s' :
  obeys p R m -> fits 64 (remaining (in_gas (p s))) -> (m ≫= f) s = (r, s') ->
  (exists a s1, m s = (Ok a, s1) /\ R (p s) (p s1) /\ f a s1 = (r, s')) \/
  (R (p s) (p s') /\ r <> Err IR_Continue).
Proof.
  intros Hm Hg H. apply M_bind_inv in H as [(a & s1 & H1 & H)|[(e & H1 & ->)|[H1 ->]]].
  - left. exists a, s1. pose proof (Hm _ _ _ Hg H1) as [? _]. done.
  - right. apply Hm in H1 as [? He]; [|done]. split; [done|congruence].
  - right. pose proof (Hm _ _ _ Hg H1) as [? _]. done.
Qed.

(** The continuation may use what the first part answers. *)
Lemma obeys_bind_step {A B} (P : A -> Prop) (R1 R2 R3 : Interpreter -> Interpreter -> Prop) `{!Coarse R1}
  (m : M S InstructionResult A) (f : A -> M S InstructionResult B) :
  (forall i i', R1 i i' -> R3 i i') -> (forall i j k, R1 i j -> R2 j k -> R3 i k) ->
  obeys p R1 m -> returns p P m -> (forall a, P a -> obeys p R2 (f a)) -> obeys p R3 (m ≫= f).
Proof.
  intros H13 H123 Hm HP Hf s r s' Hg H.
  apply (obeys_bind_inv R1) in H as [(a & s1 & H1 & HR & H)|[? ?]]; [|auto..].
  pose proof (HP _ _ _ Hg H1) as Ha.
  apply (Hf _ Ha) in H as [H2 Hr]; [eauto|by eapply coarse_gas].
Qed.

Lemma returns_True {A} (m : M S InstructionResult A) : returns p (fun _ => True) m.
Proof. done. Qed.

Lemma obeys_bind_with {A B} (P : A -> Prop) R `{!Coarse R}
  (m : M S InstructionResult A) (f : A -> M S InstructionResult B) :
  obeys p R m -> returns p P m -> (forall a, P a -> obeys p R (f a)) -> obeys p R (m ≫= f).
Proof. apply obeys_bind_step; [done..|]. intros. by etrans. Qed.

Lemma obeys_bind {A B} R `{!Coarse R} (m : M S InstructionResult A) (f : A -> M S InstructionResult B) :
  obeys p R m -> (forall a, obeys p R (f a)) -> obeys p R (m ≫= f).
Proof. intros Hm Hf. by apply (obeys_bind_with (fun _ => True)). Qed.

Lemma spends_bind_l {A B} (m : M S InstructionResult A) (f : A -> M S InstructionResult B) :
  obeys p base_step m -> spends p m -> (forall a, obeys p base_step (f a)) -> spends p (m ≫= f).
Proof.
  intros Hb Hm Hf s b s' Hg H.
  apply M_bind_inv in H as [(a & s1 & H1 & H)|[(? & _ & ?)|[_ ?]]]; [|done..].
  pose proof (Hb _ _ _ Hg H1) as [B1 _].
  apply (bs_gas _ _ B1) in Hg as Hg'. destruct Hg' as [Hg' _].
  pose proof (Hf _ _ _ _ Hg' H) as [B2 _]. destruct (bs_gas _ _ B2 Hg') as [_ Hle].
  destruct (Hm _ _ _ Hg H1) as [Hlt|Hr]; [left; lia|right]. by apply (bs_halted _ _ B2).
Qed.

Lemma spends_bind_with {A B} (P : A -> Prop) (m : M S InstructionResult A) (f : A -> M S InstructionResult B) :
  obeys p base_step m -> returns p P m -> (forall a, P a -> spends p (f a)) -> spends p (m ≫= f).
Proof.
  intros Hb HP Hf s b s' Hg H.
  apply M_bind_inv in H as [(a & s1 & H1 & H)|[(? & _ & ?)|[_ ?]]]; [|done..].
  pose proof (Hb _ _ _ Hg H1) as [B1 _]. destruct (bs_gas _ _ B1 Hg) as [Hg' Hle].
  destruct (Hf _ (HP _ _ _ Hg H1) _ _ _ Hg' H) as [Hlt|Hr]; [left; lia|by right].
Qed.

Lemma spends_bind_r {A B} (m : M S InstructionResult A) (f : A -> M S InstructionResult B) :
  obeys p base_step m -> (forall a, spends p (f a)) -> spends p (m ≫= f).
Proof. intros Hb Hf. by apply (spends_bind_with (fun _ => True)). Qed.

Lemma returns_ret {A} (P : A -> Prop) a : P a -> returns p P (mret a).
Proof. by intros Ha s b s' _ [= <- <-]. Qed.

Lemma returns_bind {A B} (P : A -> Prop) (Q : B -> Prop) (m : M S InstructionResult A)
  (f : A -> M S InstructionResult B) :
  obeys p base_step m -> returns p P m -> (forall a, P a -> returns p Q (f a)) -> returns p Q (m ≫= f).
Proof.
  intros Hb HP Hf s b s' Hg H.
  apply M_bind_inv in H as [(a & s1 & H1 & H)|[(? & _ & ?)|[_ ?]]]; [|done..].
  pose proof (Hb _ _ _ Hg H1) as [B1 _]. destruct (bs_gas _ _ B1 Hg) as [Hg' Hle].
  exact (Hf _ (HP _ _ _ Hg H1) _ _ _ Hg' H).
Qed.

Lemma spends_fail {A} e : spends p (fail (A := A) e).
Proof. by intros s a s' _ [=]. Qed.

Lemma spends_panic {A} : spends p (lift (A := A) Panic).
Proof. by intros s a s' _ [=]. Qed.
End composition.

(** ** The stack and the memory *)

Definition stack_fine {A} (m : SM A) : Prop :=
  forall data r data', m data = (r, data') ->
    (len data <= STACK_LIMIT -> len data' <= STACK_LIMIT) /\ r <> Err IR_Continue.

Lemma stack_fine_bind {A B} (m : SM A) (f : A -> SM B) :
  stack_fine m -> (forall a, stack_fine (f a)) -> stack_fine (m ≫= f).
Proof.
  intros Hm Hf data r data' H.
  apply M_bind_inv in H as [(a & s1 & H1 & H)|[(e & H1 & ->)|[H1 ->]]].
  - apply Hm in H1 as [H1 _]. apply Hf in H as [H2 Hr]. eauto.
  - apply Hm in H1 as [H1 He]. split; [auto|]. congruence.
  - apply Hm in H1 as [H1 _]. auto.
Qed.

Lemma stack_fine_ret {A} (a : A) : stack_fine (mret a).
Proof. by intros data r data' [= <- <-]. Qed.

(** The operations with their own bounds, from the stack's own invariant. *)
Lemma stack_fine_ops :
  stack_fine Stack.pop /\ (forall v, stack_fine (Stack.push v)) /\ (forall n, stack_fine (Stack.dup n)) /\
  (forall n m, stack_fine (Stack.exchange n m)) /\ (forall s, stack_fine (push_slice s)).
Proof.
  assert (Herr : forall A (m : SM A),
    (forall data, len data <= STACK_LIMIT -> len (m data).2 <= STACK_LIMIT) ->
    (forall data, (m data).1 <> Err IR_Continue) -> stack_fine m).
  { intros A m H1 H2 data r data' H. specialize (H1 data). specialize (H2 data). by rewrite H in *. }
  split_and!; intros; apply Herr; intros data; try (intros Hl; pose proof (stack_operations_bounded data Hl) as Hops; cbv zeta in Hops; naive_solver).
  - unfold Stack.pop. by case_match.
  - unfold Stack.push. by case_match.
  - unfold Stack.dup. by repeat case_match.
  - unfold Stack.exchange. by repeat case_match.
  - unfold push_slice. by repeat case_match.
Qed.

Lemma stack_fine_pop_unsafe : stack_fine pop_unsafe.
Proof.
  intros data r data'. unfold pop_unsafe. case_match; intros [= <- <-]; split; try done.
  unfold len. rewrite length_take. lia.
Qed.

Lemma stack_fine_top_unsafe : stack_fine top_unsafe.
Proof. intros data r data' [= <- <-]. split; [done|]. by destruct (last data). Qed.

Lemma stack_fine_set_top v : stack_fine (set_top_unsafe v).
Proof.
  intros data r data'. unfold set_top_unsafe. case_match; intros [= <- <-]; split; try done.
  unfold len. by rewrite length_insert.
Qed.

#[export] Hint Resolve stack_fine_pop_unsafe stack_fine_top_unsafe stack_fine_set_top stack_fine_ret : obeys.

(** A memory operation panics or succeeds. *)
Definition no_error {S E A} (m : M S E A) : Prop := forall s e s', m s <> (Err e, s').

Lemma no_error_bind {S E A B} (m : M S E A) (f : A -> M S E B) :
  no_error m -> (forall a, no_error (f a)) -> no_error (m ≫= f).
Proof.
  intros Hm Hf s e s' H. apply M_bind_inv in H as [(a & s1 & H1 & H)|[(e1 & H1 & _)|[_ ?]]]; [|by eapply Hm|done].
  by eapply Hf.
Qed.

Lemma no_error_ret {S E A} (a : A) : no_error (mret a : M S E A).
Proof. by intros s e s'. Qed.
Lemma no_error_slice {S E A} (l : list A) a b : no_error (lift (slice l a b) : M S E (list A)).
Proof. intros s e s'. unfold lift, slice. by case_match. Qed.
Lemma no_error_index {S E A} (l : list A) i : no_error (lift (index l i) : M S E A).
Proof. intros s e s' [= H _]. revert H. unfold index, unwrap. by repeat case_match. Qed.
Lemma no_error_mem_slice_range {E} a b : no_error (mem_slice_range (E := E) a b).
Proof. intros m e m'. unfold mem_slice_range, slice. by case_match. Qed.
Lemma no_error_write_slice {E} a b v : no_error (write_slice (E := E) a b v).
Proof. intros m e m'. unfold write_slice. by case_match. Qed.

Create HintDb no_error.
#[export] Hint Resolve no_error_ret no_error_slice no_error_index no_error_mem_slice_range
  no_error_write_slice : no_error.
Ltac solve_no_error :=
  repeat first [solve [auto with no_error] | apply no_error_bind; [|intros ?] | case_match].

Lemma no_error_mem_slice {E} a b : no_error (mem_slice (E := E) a b).
Proof. apply no_error_mem_slice_range. Qed.
Lemma no_error_mem_set {E} a v : no_error (mem_set (E := E) a v).
Proof. unfold mem_set. solve_no_error. Qed.
#[export] Hint Resolve no_error_mem_slice no_error_mem_set : no_error.
Lemma no_error_get_u256 {E} a : no_error (get_u256 (E := E) a).
Proof. unfold get_u256, get_word. solve_no_error. Qed.
Lemma no_error_set_data {E} a b c d : no_error (set_data (E := E) a b c d).
Proof. unfold set_data. solve_no_error. Qed.
Lemma no_error_mem_copy {E} a b c : no_error (mem_copy (E := E) a b c).
Proof. unfold mem_copy. solve_no_error. Qed.
Lemma no_error_set_u256 {E} a v : no_error (set_u256 (E := E) a v).
Proof. apply no_error_mem_set. Qed.
Lemma no_error_set_byte {E} a v : no_error (set_byte (E := E) a v).
Proof. apply no_error_mem_set. Qed.
#[export] Hint Resolve no_error_get_u256 no_error_set_data no_error_mem_copy no_error_set_u256
  no_error_set_byte : no_error.

(** ** The primitives of an instruction *)

Section primitives.
Context (R : Interpreter -> Interpreter -> Prop) `{!Coarse R}.
Abbreviation obeys_i := (obeys (fun i : Interpreter => i) R).

Lemma obeys_modify (f : Interpreter -> Interpreter) : (forall i, R i (f i)) -> obeys_i (modify f).
Proof. intros Hf s r s' _ [= <- <-]. by split. Qed.

Lemma silent_gas c i :
  0 <= c -> silent_step i (set_gas (record_cost c (in_gas i)).2 i).
Proof.
  intros Hc. unfold record_cost. destruct (Z.ltb_spec (remaining (in_gas i)) c); simpl; split; try done.
  - split; [|done]. split; try done. intros [H0 H1]. cbn. rewrite wrapping_sub_fits by (unfold fits; lia). unfold fits. lia.
Qed.

Lemma obeys_gas c : 0 <= c -> obeys_i (gas c).
Proof.
  intros Hc s r s' _ H. unfold gas in H. pose proof (silent_gas c s Hc) as Hq.
  destruct (record_cost c (in_gas s)) as [[] g]; simplify_eq; (split; [by apply coarse|done]).
Qed.

Lemma spends_gas c : 1 <= c -> spends (fun i : Interpreter => i) (gas c).
Proof.
  intros Hc s a s' [H0 H1] H. unfold gas, record_cost in H.
  destruct (Z.ltb_spec (remaining (in_gas s)) c); simplify_eq/=. left.
  rewrite wrapping_sub_fits by (unfold fits; lia). lia.
Qed.

Lemma obeys_gas_or_fail o : (forall c, o = Some c -> 0 <= c) -> obeys_i (gas_or_fail o).
Proof. intros Ho. destruct o as [c|]; [by apply obeys_gas, Ho|by apply obeys_fail]. Qed.

Lemma spends_gas_or_fail o :
  (forall c, o = Some c -> 1 <= c) -> spends (fun i : Interpreter => i) (gas_or_fail o).
Proof. intros Ho. destruct o as [c|]; [by apply spends_gas, Ho|apply spends_fail]. Qed.

Lemma obeys_refund r : obeys_i (refund r).
Proof. apply obeys_modify. intros i. apply coarse. by split. Qed.

Lemma obeys_require_non_staticcall : obeys_i require_non_staticcall.
Proof. intros s r s' _. unfold require_non_staticcall. by case_match; intros [= <- <-]. Qed.
Lemma obeys_require_eof : obeys_i require_eof.
Proof. intros s r s' _. unfold require_eof. by case_match; intros [= <- <-]. Qed.
Lemma obeys_require_init_eof : obeys_i require_init_eof.
Proof. intros s r s' _. unfold require_init_eof. by case_match; intros [= <- <-]. Qed.
Lemma obeys_check spec min : obeys_i (check spec min).
Proof. unfold check. case_match; [by apply obeys_fail|by apply obeys_ret]. Qed.
Lemma obeys_require_stack n : obeys_i (require_stack n).
Proof. intros s r s' _. unfold require_stack. by case_match; intros [= <- <-]. Qed.

Lemma obeys_on_stack {A} (m : SM A) : stack_fine m -> obeys_i (on_stack m).
Proof.
  intros Hm s r s' _ H. unfold on_stack, zoom in H. destruct (m (stack s)) as [r1 st] eqn:H1. simplify_eq.
  apply Hm in H1 as [Hb Hr]. split; [|done]. apply coarse. by split.
Qed.

Lemma obeys_on_memory {A} (m : M SharedMemory InstructionResult A) : no_error m -> obeys_i (on_memory m).
Proof.
  intros Hm s r s' _ H. unfold on_memory, zoom in H. destruct (m (shared_memory s)) as [r1 st] eqn:H1. simplify_eq.
  split; [apply coarse; by split|]. intros ->. by eapply Hm.
Qed.

Lemma obeys_resize_memory_to offset n : obeys_i (resize_memory_to offset n).
Proof.
  intros s r s' _. unfold resize_memory_to. case_match; [|by intros [= <- <-]].
  unfold resize_memory. set (c := wrapping_sub 64 _ _).
  assert (Hc : 0 <= c) by (apply fits_wrapping_sub; lia).
  pose proof (silent_gas c s Hc) as [[[] Hqc] Ha]. destruct (record_cost c (in_gas s)) as [[] g];
    intros [= <- <-]; (split; [apply coarse; split; [split; [by split|done]|done]|done]).
Qed.

Lemma obeys_as_usize_or_fail_with e v : e <> IR_Continue -> obeys_i (as_usize_or_fail_with e v).
Proof. intros He. unfold as_usize_or_fail_with. case_match; [by apply obeys_fail|by apply obeys_ret]. Qed.
Lemma obeys_as_usize_or_fail v : obeys_i (as_usize_or_fail v).
Proof. by apply obeys_as_usize_or_fail_with. Qed.

Lemma obeys_halt e : e <> IR_Continue -> obeys_i (halt e).
Proof.
  intros He. apply obeys_modify. intros i. apply coarse. split; [|done]. split; [|done]. split; try done.
  intros _. by apply bool_decide_eq_false.
Qed.
Lemma spends_halt e : e <> IR_Continue -> spends (fun i : Interpreter => i) (halt e).
Proof. intros He s a s' _ [= <- <-]. right. by apply bool_decide_eq_false. Qed.

Lemma obeys_set_next_action `{!Loose R} a : obeys_i (modify (set_next_action a)).
Proof. apply obeys_modify. intros i. apply loose. Qed.
Lemma obeys_set_return r output :
  obeys_i (modify (fun i => set_next_action (IA_Return (mkInterpreterResult r output (in_gas i))) i)).
Proof. apply obeys_modify. intros i. apply coarse_return. Qed.
Lemma obeys_set_function_stack (f : Interpreter -> FunctionStack) :
  obeys_i (modify (fun i => set_function_stack (f i) i)).
Proof. apply obeys_modify. intros i. apply coarse. by split. Qed.

Lemma obeys_or_halt m : obeys_i m -> obeys_i (or_halt m).
Proof.
  intros Hm s r s' Hg H. unfold or_halt in H. destruct (m s) as [r1 s1] eqn:H1. apply Hm in H1 as [HR Hr]; [|done].
  destruct r1 as [a|e|]; simplify_eq; (split; [|done]); [done| |done].
  etrans; [exact HR|]. apply coarse. split; [|done]. split; [|done]. split; try done.
  intros _. apply bool_decide_eq_false. cbn. intros ->. by apply Hr.
Qed.

Lemma obeys_read_u8_at n : obeys_i (read_u8_at n).
Proof.
  intros s r s' _ [= <- <-]. split; [done|]. unfold index, unwrap. by repeat case_match.
Qed.
End primitives.

(** Moving the instruction pointer, or the code. *)
Lemma base_set_pc (f : Interpreter -> Z) : obeys (fun i : Interpreter => i) base_step (modify (fun i => set_pc (f i) i)).
Proof. apply obeys_modify. by intros i. Qed.
Lemma base_set_bytecode c : obeys (fun i : Interpreter => i) base_step (modify (set_bytecode c)).
Proof. apply obeys_modify. by intros i. Qed.

(** What an instruction does after checking that the code is an EOF container is
    out of reach of legacy code. *)
Lemma obeys_after_require_eof {A} R `{!Coarse R} (f : unit -> IM A) :
  (forall i i', base_step i i' -> in_is_eof i = true -> R i i') ->
  (forall u, obeys (fun i => i) base_step (f u)) -> obeys (fun i => i) R (require_eof ≫= f).
Proof.
  intros HR Hf s r s' Hg H. unfold mbind, M_bind, require_eof in H. destruct (in_is_eof s) eqn:He; simpl in H.
  - apply Hf in H as [Hb Hr]; [|done]. split; [|done]. auto.
  - by simplify_eq.
Qed.

(** ** Costs are positive *)

Create HintDb costs.
#[export] Hint Unfold G_ZERO G_BASE G_VERYLOW G_DATA_LOADN_GAS G_CONDITION_JUMP_GAS G_RETF_GAS
  G_DATA_LOAD_GAS G_LOW G_MID G_HIGH G_JUMPDEST G_SELFDESTRUCT G_CREATE G_CALLVALUE G_NEWACCOUNT
  G_EXP G_MEMORY G_LOG G_LOGDATA G_LOGTOPIC G_KECCAK256 G_KECCAK256WORD G_COPY G_BLOCKHASH
  EOF_CREATE_GAS COLD_SLOAD_COST COLD_ACCOUNT_ACCESS_COST WARM_STORAGE_READ_COST INSTANBUL_SLOAD_GAS
  WARM_SSTORE_RESET SSTORE_RESET SSTORE_SET INITCODE_WORD_COST warm_cold_cost sload_cost call_cost
  selfdestruct_cost istanbul_sstore_cost frontier_sstore_cost : costs.

Ltac solve_cost := cbv zeta; autounfold with costs; repeat case_match; lia.

Lemma cost_per_word_nonneg len m c : 0 <= len -> 0 <= m -> cost_per_word len m = Some c -> 0 <= c.
Proof.
  intros Hl Hm H. apply checked_mul_Some in H as [-> _]. pose proof (num_words_bound len Hl). nia.
Qed.

(** A base cost and a cost per word. *)
Lemma base_and_words_pos base len m c :
  1 <= base -> 0 <= m -> fits 64 len ->
  (w ← cost_per_word len m; checked_add 64 base w) = Some c -> 1 <= c.
Proof.
  intros Hb Hm [Hl _] H. destruct (cost_per_word len m) as [w|] eqn:Hw; [|done]. simpl in H.
  apply checked_add_Some in H as [-> _]. apply cost_per_word_nonneg in Hw; lia.
Qed.

Lemma verylowcopy_cost_pos len c : fits 64 len -> verylowcopy_cost len = Some c -> 1 <= c.
Proof. apply base_and_words_pos; done. Qed.
Lemma keccak256_cost_pos len c : fits 64 len -> keccak256_cost len = Some c -> 1 <= c.
Proof. apply base_and_words_pos; done. Qed.
Lemma create2_cost_pos len c : fits 64 len -> create2_cost len = Some c -> 1 <= c.
Proof. apply base_and_words_pos; done. Qed.
Lemma extcodecopy_cost_pos spec len is_cold c :
  fits 64 len -> extcodecopy_cost spec len is_cold = Some c -> 1 <= c.
Proof. apply base_and_words_pos; [|done]. solve_cost. Qed.

Lemma log_cost_pos n len c : 0 <= n -> fits 64 len -> log_cost n len = Some c -> 1 <= c.
Proof.
  intros Hn [Hl _] H. unfold log_cost in H.
  destruct (checked_mul 64 G_LOGDATA len) as [d|] eqn:Hd; [|done]. apply checked_mul_Some in Hd as [-> _].
  cbn [mbind option_bind] in H. destruct (checked_add 64 G_LOG (G_LOGDATA * len)) as [e|] eqn:He; [|done].
  apply checked_add_Some in He as [-> _]. cbn [mbind option_bind] in H.
  apply checked_add_Some in H as [-> _]. unfold wrapping_mul, G_LOG, G_LOGDATA in *.
  pose proof (Z.mod_pos_bound (G_LOGTOPIC * n) (2 ^ 64) ltac:(lia)). lia.
Qed.

Lemma leading_zeros_bounds value i :
  limb value i <> 0 -> 0 <= leading_zeros (limb value i) <= 63.
Proof.
  intros Hne. unfold leading_zeros. destruct (Z.eqb_spec (limb value i) 0); [done|].
  assert (Hl : 0 <= limb value i < 2 ^ 64) by (apply Z.mod_pos_bound; lia).
  pose proof (Z.log2_nonneg (limb value i)).
  assert (Z.log2 (limb value i) < 64) by (apply Z.log2_lt_pow2; lia). lia.
Qed.

Lemma log2floor_loop_nonneg value l i : 64 * (Z.of_nat i + 1) <= l -> 0 <= log2floor_loop value l i.
Proof.
  revert l. induction i as [|i IH]; intros l Hl; cbn [log2floor_loop].
  - destruct (Z.eqb_spec (limb value 0) 0) as [|Hne]; [lia|]. apply leading_zeros_bounds in Hne. case_match; lia.
  - destruct (Z.eqb_spec (limb value (S i)) 0) as [|Hne]; [apply IH; lia|].
    apply leading_zeros_bounds in Hne. case_match; lia.
Qed.

Lemma exp_cost_pos spec power c : exp_cost spec power = Some c -> 1 <= c.
Proof.
  unfold exp_cost. destruct (power =? 0); [by intros [= <-]|]. intros H.
  destruct (checked_mul 256 _ _) as [m|] eqn:Hm; [|done]. apply checked_mul_Some in Hm as [-> _].
  cbn [mbind option_bind] in H. destruct (checked_add 256 _ _) as [g|] eqn:Hg; [|done].
  apply checked_add_Some in Hg as [-> _]. cbn [mbind option_bind] in H. case_match; [|done]. simplify_eq.
  assert (0 <= log2floor power / 8) by (apply Z.div_pos; [by apply log2floor_loop_nonneg|done]).
  unfold G_EXP. case_match; lia.
Qed.

Lemma sstore_cost_pos spec original current new gas is_cold c :
  sstore_cost spec original current new gas is_cold = Some c -> 1 <= c.
Proof. unfold sstore_cost. repeat case_match; intros [= <-]; solve_cost. Qed.
