(* ===== verification/InterpreterSafety.v ===== *)
(** Every instruction of the table obeys the relation of [InterpreterSteps.v] and
    spends gas, so the loop of the interpreter terminates within its gas, keeps
    its stack bounded, and on legacy code never reads past the end. *)

From S2P Require Import Prelude.
From S2P Require Import Specification.
From S2P Require Import Bytes.
From S2P Require Import Eof.
From S2P Require Import Bytecode.
From S2P Require Import State.
From S2P Require Import Result.
From S2P Require Import InstructionResult.
From S2P Require Import Database.
From S2P Require Import Journal.
From S2P Require Import CallInputs.
From S2P Require Import Gas.
From S2P Require Import Stack.
From S2P Require Import SharedMemory.
From S2P Require Import I256.
From S2P Require Import Analysis.
From S2P Require Import Env.
From S2P Require Import Interpreter.
From S2P Require Import Context.
From S2P Require Import Instructions.
From S2P Require Import HostInstructions.
From S2P Require Import Opcode.
From S2P Require Import InterpreterSteps.

Abbreviation self := (fun i : Interpreter => i).

(** ** Computations on the interpreter alone *)

Lemma returns_usize e v : returns self (fits 64) (as_usize_or_fail_with e v).
Proof.
  intros s a s' _. unfold as_usize_or_fail_with. case_match; [done|]. intros [= <- <-]. by apply fits_cast.
Qed.

Lemma obeys_usize_bind {A} R `{!Coarse R} e v (f : Z -> IM A) :
  e <> IR_Continue -> (forall a, fits 64 a -> obeys self R (f a)) ->
  obeys self R (as_usize_or_fail_with e v ≫= f).
Proof.
  intros He Hf. apply (obeys_bind_with self (fits 64));
    [done|by apply obeys_as_usize_or_fail_with|apply returns_usize|done].
Qed.

Lemma spends_usize_bind {A} e v (f : Z -> IM A) :
  e <> IR_Continue -> (forall a, fits 64 a -> spends self (f a)) ->
  spends self (as_usize_or_fail_with e v ≫= f).
Proof.
  intros He Hf. apply (spends_bind_with self (fits 64)); [by apply obeys_as_usize_or_fail_with; [apply _|]|apply returns_usize|done].
Qed.

(** The gas left is a 64-bit number. *)
Lemma obeys_remaining_bind {A} R `{!Coarse R} (f : Z -> IM A) :
  (forall g, fits 64 g -> obeys self R (f g)) ->
  obeys self R (gets (fun i => remaining (in_gas i)) ≫= f).
Proof.
  intros Hf. apply (obeys_bind_with self (fits 64)); [done|by apply obeys_gets| |done].
  by intros s a s' Hg [= <- <-].
Qed.
Lemma spends_remaining_bind {A} (f : Z -> IM A) :
  (forall g, fits 64 g -> spends self (f g)) -> spends self (gets (fun i => remaining (in_gas i)) ≫= f).
Proof.
  intros Hf. apply (spends_bind_with self (fits 64)); [by apply obeys_gets; apply _| |done].
  by intros s a s' Hg [= <- <-].
Qed.

#[export] Hint Resolve stack_fine_bind : obeys.
#[export] Hint Extern 2 (stack_fine Stack.pop) => apply stack_fine_ops : obeys.
#[export] Hint Extern 2 (stack_fine (Stack.push _)) => apply stack_fine_ops : obeys.
#[export] Hint Extern 2 (stack_fine (Stack.dup _)) => apply stack_fine_ops : obeys.
#[export] Hint Extern 2 (stack_fine (Stack.swap _)) => apply stack_fine_ops : obeys.
#[export] Hint Extern 2 (stack_fine (Stack.exchange _ _)) => apply stack_fine_ops : obeys.
#[export] Hint Extern 2 (stack_fine (push_slice _)) => apply stack_fine_ops : obeys.

Ltac solve_stack_fine :=
  repeat first [solve [auto with obeys] | apply stack_fine_bind; [|intros ?]].

(** Costs are handed to these, positivity being the stronger condition. *)
Lemma obeys_gas_or_fail_pos R `{!Coarse R} o :
  (forall c, o = Some c -> 1 <= c) -> obeys self R (gas_or_fail o).
Proof. intros Ho. apply obeys_gas_or_fail; [done|]. intros c Hc. specialize (Ho c Hc). lia. Qed.

#[export] Hint Resolve obeys_refund obeys_require_non_staticcall obeys_require_eof obeys_require_init_eof
  obeys_check obeys_require_stack obeys_resize_memory_to obeys_as_usize_or_fail obeys_set_next_action obeys_set_return
  obeys_set_function_stack obeys_read_u8_at obeys_get obeys_gets obeys_unwrap obeys_ret : obeys.
#[export] Hint Resolve verylowcopy_cost_pos keccak256_cost_pos create2_cost_pos extcodecopy_cost_pos
  log_cost_pos exp_cost_pos sstore_cost_pos : costs.

Ltac obeys_leaf :=
  lazymatch goal with
  | |- obeys _ _ (gas _) => apply obeys_gas; [apply _|first [solve_cost|unfold fits in *; lia|apply fits_wrapping_sub; lia]]
  | |- obeys _ _ (gas_or_fail (cost_per_word _ _)) =>
      apply obeys_gas_or_fail; [apply _|intros; eapply cost_per_word_nonneg; [| |eassumption]; [apply len_nonneg|done]]
  | |- obeys _ _ (gas_or_fail _) =>
      apply obeys_gas_or_fail_pos; [apply _|intros; eauto using Nat2Z.is_nonneg with costs]
  | |- obeys _ _ (fail _) => apply obeys_fail; [apply _|done]
  | |- obeys _ _ (halt _) => apply obeys_halt; [apply _|done]
  | |- obeys _ _ (on_stack _) => apply obeys_on_stack; [apply _|solve_stack_fine]
  | |- obeys _ _ (on_memory _) => apply obeys_on_memory; [apply _|solve [auto with no_error]]
  | |- obeys _ _ (or_halt _) => apply obeys_or_halt; [apply _|]
  | |- obeys _ _ (lift Panic) => apply obeys_lift; [apply _|done]
  | |- obeys _ _ (lift (slice _ _ _)) =>
      apply obeys_lift; [apply _|unfold slice; by case_match]
  | |- obeys _ _ (lift (Ok _)) => apply obeys_lift; [apply _|done]
  | |- obeys _ _ _ => solve [eauto with obeys typeclass_instances]
  end.

Ltac obeys_bind_tac :=
  lazymatch goal with
  | |- obeys _ _ (as_usize_or_fail _ ≫= _) => apply obeys_usize_bind; [apply _|done|]
  | |- obeys _ _ (as_usize_or_fail_with _ _ ≫= _) => apply obeys_usize_bind; [apply _|done|]
  | |- obeys _ _ (gets (fun i => remaining (in_gas i)) ≫= _) => apply obeys_remaining_bind; [apply _|]
  | |- obeys _ _ (_ ≫= _) => apply obeys_bind; [apply _| |]
  end.

Ltac solve_obeys :=
  repeat (intros; cbv beta zeta;
    first [ obeys_leaf | obeys_bind_tac | progress case_match ]).

Section stack_macros.
Context (R : Interpreter -> Interpreter -> Prop) `{!Coarse R}.

Lemma obeys_pop1 : obeys self R pop1.
Proof. unfold pop1. solve_obeys. Qed.
Lemma obeys_pop2 : obeys self R pop2.
Proof. unfold pop2, pop2_unsafe. solve_obeys. Qed.
Lemma obeys_pop3 : obeys self R pop3.
Proof. unfold pop3, pop3_unsafe. solve_obeys. Qed.
Lemma obeys_pop4 : obeys self R pop4.
Proof. unfold pop4, pop4_unsafe. solve_obeys. Qed.
Lemma obeys_top1 : obeys self R top1.
Proof. unfold top1. solve_obeys. Qed.
Lemma obeys_pop_top2 : obeys self R pop_top2.
Proof. unfold pop_top2, pop_top_unsafe. solve_obeys. Qed.
Lemma obeys_pop_top3 : obeys self R pop_top3.
Proof. unfold pop_top3, pop2_top_unsafe. solve_obeys. Qed.
Lemma obeys_set_top v : obeys self R (set_top v).
Proof. unfold set_top. solve_obeys. Qed.
Lemma obeys_push_value v : obeys self R (push_value v).
Proof. unfold push_value. solve_obeys. Qed.
Lemma obeys_read_u16_at n : obeys self R (read_u16_at n).
Proof. unfold read_u16_at. solve_obeys. Qed.
End stack_macros.

#[export] Hint Resolve obeys_pop1 obeys_pop2 obeys_pop3 obeys_pop4 obeys_top1 obeys_pop_top2
  obeys_pop_top3 obeys_set_top obeys_push_value obeys_read_u16_at : obeys.

(** ** The instructions *)

Create HintDb instructions.
#[export] Hint Unfold arithmetic_add arithmetic_mul arithmetic_sub arithmetic_div arithmetic_sdiv
  arithmetic_rem arithmetic_smod arithmetic_addmod arithmetic_mulmod arithmetic_exp
  arithmetic_signextend bitwise_lt bitwise_gt bitwise_slt bitwise_sgt bitwise_eq bitwise_iszero
  bitwise_bitand bitwise_bitor bitwise_bitxor bitwise_not bitwise_byte bitwise_shl bitwise_shr
  bitwise_sar stack_pop stack_push0 stack_push stack_dup stack_swap stack_dupn stack_swapn
  stack_exchange memory_mload memory_mstore memory_mstore8 memory_msize memory_mcopy control_rjump
  control_rjumpi control_rjumpv control_jump control_jumpi control_jumpdest_or_nop control_callf
  control_retf control_jumpf control_pc control_ret control_revert control_stop control_invalid
  control_unknown data_data_load data_data_loadn data_data_size data_data_copy system_keccak256
  system_address system_caller system_codesize system_codecopy system_calldataload
  system_calldatasize system_callvalue system_calldatacopy system_returndatasize
  system_returndatacopy system_returndataload system_gas binary_op unary_op ternary_op : instructions.
#[export] Hint Unfold host_env_chainid host_env_coinbase host_env_timestamp host_env_block_number
  host_env_difficulty host_env_gaslimit host_env_gasprice host_env_basefee host_env_origin
  host_env_blob_hash host_env_blob_basefee host_balance host_selfbalance host_extcodesize
  host_extcodehash host_extcodecopy host_blockhash host_sload host_sstore host_tstore host_tload
  host_log host_selfdestruct contract_eofcreate contract_return_contract contract_extcall
  contract_extdelegatecall contract_extstaticcall contract_create contract_call contract_call_code
  contract_delegate_call contract_static_call : instructions.

Section helpers.
Context (R : Interpreter -> Interpreter -> Prop) `{!Coarse R}.

Lemma obeys_read_i16_at n : obeys self R (read_i16_at n).
Proof. unfold read_i16_at. solve_obeys. Qed.
Lemma obeys_copy_to_memory a b n data :
  (forall i, data i <> Err IR_Continue) -> obeys self R (copy_to_memory a b n data).
Proof.
  intros Hd. unfold copy_to_memory. solve_obeys. apply obeys_lift; [done|auto].
Qed.
Lemma obeys_check_callee_stack idx : obeys self R (check_callee_stack idx).
Proof. unfold check_callee_stack. solve_obeys. Qed.
Lemma obeys_assume_legacy : obeys self R assume_legacy.
Proof. intros s r s' _. unfold assume_legacy. by case_match; intros [= <- <-]. Qed.
Lemma obeys_pop_address : obeys self R pop_address.
Proof. unfold pop_address. solve_obeys. Qed.
Lemma obeys_return_inner r : r <> IR_Continue -> obeys self R (return_inner r).
Proof.
  intros Hr. unfold return_inner. solve_obeys.
Qed.
Lemma obeys_verified_container e idx : obeys self R (verified_container e idx).
Proof.
  unfold verified_container. solve_obeys.
Qed.
Lemma obeys_resize_memory_range a n : obeys self R (resize_memory_range a n).
Proof. unfold resize_memory_range. solve_obeys. Qed.
Lemma obeys_resize_memory_and_return_range a n : obeys self R (resize_memory_and_return_range a n).
Proof. unfold resize_memory_and_return_range. solve_obeys. Qed.
Lemma obeys_pop_topics n : obeys self R (pop_topics n).
Proof. induction n; cbn [pop_topics]; solve_obeys; done. Qed.
End helpers.

#[export] Hint Resolve obeys_read_i16_at obeys_check_callee_stack obeys_assume_legacy obeys_pop_address
  obeys_verified_container obeys_resize_memory_range obeys_resize_memory_and_return_range
  obeys_pop_topics : obeys.
#[export] Hint Extern 2 (obeys _ _ (return_inner _)) => apply obeys_return_inner; [apply _|done] : obeys.

Section call_helpers.
Context (R : Interpreter -> Interpreter -> Prop) `{!Coarse R}.

Lemma obeys_get_memory_input_and_out_ranges : obeys self R get_memory_input_and_out_ranges.
Proof. unfold get_memory_input_and_out_ranges. solve_obeys. Qed.
Lemma obeys_extcall_input : obeys self R extcall_input.
Proof. unfold extcall_input. solve_obeys. Qed.
Lemma obeys_calc_call_gas spec b1 b2 b3 l : obeys self R (calc_call_gas spec b1 b2 b3 l).
Proof. unfold calc_call_gas. solve_obeys. Qed.
Lemma returns_calc_call_gas spec b1 b2 b3 l :
  0 <= l -> returns self (fun g => 0 <= g) (calc_call_gas spec b1 b2 b3 l).
Proof.
  intros Hl. unfold calc_call_gas. apply (returns_bind self (fun _ => True)); [solve_obeys|done|].
  intros [] _. case_match; [|by apply returns_ret].
  apply (returns_bind self (fun _ => True)); [solve_obeys|done|]. intros g _. apply returns_ret.
  pose proof (fits_wrapping_sub 64 g (g / 64) ltac:(lia)) as [? _]. lia.
Qed.
Lemma obeys_pop_call_gas_and_target : obeys self R pop_call_gas_and_target.
Proof. unfold pop_call_gas_and_target. solve_obeys. Qed.
Lemma returns_pop_call_gas_and_target : returns self (fun r => 0 <= r.1) pop_call_gas_and_target.
Proof.
  unfold pop_call_gas_and_target. apply (returns_bind self (fun _ => True)); [solve_obeys|done|].
  intros g _. apply (returns_bind self (fun _ => True)); [solve_obeys|done|]. intros a _. apply returns_ret.
  simpl. unfold as_u64_saturated. case_match; [by apply fits_cast|done].
Qed.
Lemma obeys_emit_call `{!Loose R} inputs : obeys self R (emit_call inputs).
Proof. unfold emit_call. solve_obeys. Qed.
Lemma obeys_initcode_gas n :
  fits 64 n -> obeys self R (cost ← lift (unwrap (initcode_cost n)); gas cost).
Proof.
  intros [Hn _]. apply (obeys_bind_with self (fun c => 0 <= c)); [done|solve_obeys| |].
  - intros s c s' _. unfold lift, unwrap. destruct (initcode_cost n) as [w|] eqn:Hw; [|done].
    intros [= <- _]. by apply (cost_per_word_nonneg n INITCODE_WORD_COST).
  - intros c Hc. by apply obeys_gas.
Qed.
Lemma obeys_create_code spec e a n : fits 64 n -> obeys self R (create_code spec e a n).
Proof.
  intros Hn. unfold create_code. case_match; [|solve_obeys]. apply obeys_bind; [done| |solve_obeys].
  repeat case_match; [solve_obeys|by apply obeys_initcode_gas|solve_obeys].
Qed.
End call_helpers.

#[export] Hint Resolve obeys_get_memory_input_and_out_ranges obeys_extcall_input obeys_emit_call
  obeys_create_code : obeys.

(** ** Computations with a host *)

Section host_computations.
Context {H : Type} `{HH : Host H}.
Context (R : Interpreter -> Interpreter -> Prop) `{!Coarse R}.
Abbreviation on_state := (fun s : Interpreter * H => s.1).

Lemma obeys_on_int {A} (m : IM A) R' : obeys self R' m -> obeys on_state R' (on_int (H := H) m).
Proof.
  intros Hm s r s' Hg Hr. unfold on_int, zoom in Hr. destruct (m s.1) as [r1 i1] eqn:H1. simplify_eq/=.
  by eapply Hm.
Qed.
Lemma spends_on_int {A} (m : IM A) : spends self m -> spends on_state (on_int (H := H) m).
Proof.
  intros Hm s r s' Hg Hr. unfold on_int, zoom in Hr. destruct (m s.1) as [r1 i1] eqn:H1. simplify_eq/=.
  by eapply Hm.
Qed.
Lemma returns_on_int {A} P (m : IM A) : returns self P m -> returns on_state P (on_int (H := H) m).
Proof.
  intros Hm s r s' Hg Hr. unfold on_int, zoom in Hr. destruct (m s.1) as [r1 i1] eqn:H1. simplify_eq/=.
  by eapply Hm.
Qed.
Lemma obeys_on_host {A} (m : M H Empty_set A) : obeys on_state R (on_host m).
Proof.
  intros s r s' _ Hr. unfold on_host, with_err, zoom in Hr. destruct (m s.2) as [[a|e|] h1]; [|done|];
    by simplify_eq/=.
Qed.
Lemma obeys_host_some {A} (m : M H Empty_set (option A)) : obeys on_state R (host_some m).
Proof.
  unfold host_some. apply obeys_bind; [done|apply obeys_on_host|].
  intros []; [by apply obeys_ret|by apply obeys_fail].
Qed.
Lemma obeys_env_of : obeys on_state R env_of.
Proof. by apply obeys_gets. Qed.
Lemma obeys_self_address : obeys on_state R (self_address (H := H)).
Proof. by apply obeys_gets. Qed.
End host_computations.
#[export] Hint Resolve obeys_on_host obeys_host_some obeys_env_of obeys_self_address : obeys.
#[export] Hint Extern 1 (obeys _ _ (on_int _)) => apply obeys_on_int; solve [solve_obeys] : obeys.

(** ** Where an instruction leaves the instruction pointer *)

(** In legacy code an instruction keeps the code, and unless it halts it moves
    the instruction pointer over its [n] immediate bytes, or to a valid jump
    destination. *)
Definition legacy_move (n : Z) (i i' : Interpreter) : Prop :=
  in_is_eof i = false ->
  in_bytecode i' = in_bytecode i /\
  (running i' = false \/ instruction_pointer i' = instruction_pointer i + n \/
   (0 <= instruction_pointer i' /\
    Contract_is_valid_jump (contract i) (instruction_pointer i') = true)).

Definition arrives {S A} (p : S -> Interpreter) (n : Z) (m : M S InstructionResult A) : Prop :=
  forall s a s', fits 64 (remaining (in_gas (p s))) -> m s = (Ok a, s') -> legacy_move n (p s) (p s').

Lemma arrives_quiet {S A} (p : S -> Interpreter) (m : M S InstructionResult A) :
  obeys p quiet_step m -> arrives p 0 m.
Proof.
  intros Hm s a s' Hg H. apply Hm in H as [[_ Hc] _]; [|done]. intros He. destruct (Hc He) as [-> ->].
  split; [done|]. right. left. lia.
Qed.

Lemma arrives_bind_with {A B} (P : A -> Prop) n (m : IM A) (f : A -> IM B) :
  obeys self quiet_step m -> returns self P m -> (forall a, P a -> arrives self n (f a)) ->
  arrives self n (m ≫= f).
Proof.
  intros Hm HP Hf s b s' Hg H.
  apply M_bind_inv in H as [(a & s1 & H1 & H)|[(? & _ & ?)|[_ ?]]]; [|done..].
  pose proof (HP _ _ _ Hg H1) as Ha. apply Hm in H1 as [[Hb Hc] _]; [|done].
  apply (Hf _ Ha) in H; [|by apply (bs_gas _ _ Hb)].
  intros He. destruct (Hc He) as [<- <-]. rewrite <- (bs_contract _ _ Hb). apply H. by rewrite (bs_eof _ _ Hb).
Qed.

Lemma arrives_bind {A B} n (m : IM A) (f : A -> IM B) :
  obeys self quiet_step m -> (forall a, arrives self n (f a)) -> arrives self n (m ≫= f).
Proof. intros Hm Hf. by apply (arrives_bind_with (fun _ => True)). Qed.

Lemma arrives_advance n : arrives self n (advance n).
Proof. intros s a s' _ [= <- <-] _. split; [done|]. right. by left. Qed.

Lemma arrives_jump_inner target : arrives self 0 (jump_inner target).
Proof.
  unfold jump_inner.
  apply (arrives_bind_with (fits 64)); [by apply obeys_as_usize_or_fail_with; [apply _|]|apply returns_usize|].
  intros dest [Hd _] s a s' Hg H. rewrite (M_bind_ok get _ s s s eq_refl) in H.
  destruct (Contract_is_valid_jump (contract s) dest) eqn:Hv; simpl in H; unfold goto, modify, fail in H;
    simplify_eq; intros _; (split; [done|]); right; right; done.
Qed.

Lemma arrives_push n : arrives self n (stack_push n).
Proof.
  unfold stack_push. repeat (apply arrives_bind; [|intros ?]); [..|apply arrives_advance]; solve_obeys.
Qed.

Lemma arrives_jump : arrives self 0 control_jump.
Proof. unfold control_jump. do 2 (apply arrives_bind; [solve_obeys|intros ?]). apply arrives_jump_inner. Qed.

Lemma arrives_jumpi : arrives self 0 control_jumpi.
Proof.
  unfold control_jumpi. apply arrives_bind; [solve_obeys|intros _]. apply arrives_bind; [solve_obeys|].
  intros [target cond]. case_match; [apply arrives_jump_inner|]. apply arrives_quiet. solve_obeys.
Qed.

Lemma arrives_on_int {H A} (n : Z) (m : IM A) :
  arrives self n m -> arrives (fun s : Interpreter * H => s.1) n (on_int m).
Proof.
  intros Hm s r s' Hg Hr. unfold on_int, zoom in Hr. destruct (m s.1) as [r1 i1] eqn:H1. simplify_eq/=.
  by eapply Hm.
Qed.

(** The rest of an EOF instruction. *)
Lemma base_advance n : obeys self base_step (advance n).
Proof. apply (base_set_pc (fun i => instruction_pointer i + n)). Qed.
Lemma base_load_eof_code idx pc : obeys self base_step (load_eof_code idx pc).
Proof.
  unfold load_eof_code, goto. solve_obeys; [apply base_set_bytecode|intros _].
  apply (base_set_pc (fun _ => pc)).
Qed.
#[export] Hint Resolve base_advance base_load_eof_code : obeys.

Lemma base_jump_inner target : obeys self base_step (jump_inner target).
Proof. unfold jump_inner, goto. solve_obeys; [apply (base_set_pc (fun _ => _))|..]. Qed.
#[export] Hint Resolve base_jump_inner : obeys.

Ltac solve_quiet :=
  autounfold with instructions;
  first [ apply obeys_after_require_eof; [apply _|intros; split; [done|congruence]|]; solve_obeys; fail
        | solve_obeys; fail ].



(** The calls, with the gas they hand on. *)
Lemma obeys_call_gas_bind {A} R `{!Coarse R} spec b1 b2 b3 l (f : Z -> IM A) :
  0 <= l -> (forall g, 0 <= g -> obeys self R (f g)) -> obeys self R (calc_call_gas spec b1 b2 b3 l ≫= f).
Proof.
  intros Hl. by apply obeys_bind_with; [|apply obeys_calc_call_gas|apply returns_calc_call_gas].
Qed.

Section calls.
Context {H : Type} `{HH : Host H} (R : Interpreter -> Interpreter -> Prop) `{!Coarse R}.
Abbreviation on_state := (fun s : Interpreter * H => s.1).

Lemma obeys_pop_call_bind {A} (f : Z * Address -> M (Interpreter * H) InstructionResult A) :
  (forall l to, 0 <= l -> obeys on_state R (f (l, to))) ->
  obeys on_state R (on_int pop_call_gas_and_target ≫= f).
Proof.
  intros Hf. apply (obeys_bind_with _ (fun r => 0 <= r.1)); [done| | |intros [l to]; apply Hf].
  - by apply obeys_on_int, obeys_pop_call_gas_and_target.
  - apply returns_on_int, returns_pop_call_gas_and_target.
Qed.

Lemma obeys_extcall_gas_calc to b : obeys on_state R (extcall_gas_calc to b).
Proof.
  unfold extcall_gas_calc. apply obeys_bind; [done|apply obeys_host_some; done|intros acc].
  apply obeys_on_int. solve_obeys.
Qed.
End calls.
#[export] Hint Resolve obeys_extcall_gas_calc : obeys.

#[export] Hint Extern 2 (obeys _ _ (copy_to_memory _ _ _ _)) =>
  apply obeys_copy_to_memory; [apply _|intros; by repeat case_match] : obeys.

Ltac solve_obeys_calls :=
  repeat (intros; cbv beta zeta;
    first
    [ lazymatch goal with
      | |- obeys _ _ (calc_call_gas _ _ _ _ _ ≫= _) => apply obeys_call_gas_bind; [apply _|simpl in *; lia|]
      | |- obeys _ _ (on_int pop_call_gas_and_target ≫= _) => apply obeys_pop_call_bind; [apply _|]
      | |- obeys _ _ (on_int ?m) => apply obeys_on_int
      end
    | obeys_leaf | obeys_bind_tac | progress case_match ]).

(** ** Every instruction *)

Section table.
Context {H : Type} `{HH : Host H} `{HK : Keccak} `{HC : CreateAddress}.
Abbreviation on_state := (fun s : Interpreter * H => s.1).

(** Tactics for one entry of the table. *)
Ltac obeys_entry := first [ solve_quiet | autounfold with instructions; solve_obeys_calls; fail ].

(** Apart from the pushes and the jumps, an instruction is quiet. *)
Lemma quiet_table spec :
  Forall (fun q : Z * M (Interpreter * H) InstructionResult unit =>
    instruction_len q.1 = 1%nat -> q.1 <> 0x56 -> q.1 <> 0x57 -> obeys on_state quiet_step q.2)
    (instructions spec).
Proof.
  unfold instructions.
  repeat (apply List.Forall_cons; [cbn [fst snd];
    first [ by intros Hl; vm_compute in Hl
          | by intros _ Hj | by intros _ _ Hj
          | intros _ _ _; first [ apply obeys_on_int; obeys_entry | obeys_entry ] ]|]).
  constructor.
Qed.

(** A lookup in the table satisfies what every entry does. *)
Lemma instruction_ind (P : Z -> M (Interpreter * H) InstructionResult unit -> Prop) spec opcode :
  Forall (fun q => P q.1 q.2) (instructions spec) -> P opcode (on_int control_unknown) ->
  P opcode (instruction spec opcode).
Proof.
  intros Ht Hu. unfold instruction, assoc. destruct (list_find _ _) as [[k q]|] eqn:Hf; simpl; [|done].
  apply list_find_Some in Hf as (Hk & <- & _). rewrite Forall_lookup in Ht. exact (Ht _ _ Hk).
Qed.

Lemma base_push n : obeys self base_step (stack_push n).
Proof. unfold stack_push. solve_obeys. Qed.
Lemma base_jump : obeys self base_step control_jump.
Proof. unfold control_jump. solve_obeys. Qed.
Lemma base_jumpi : obeys self base_step control_jumpi.
Proof. unfold control_jumpi. solve_obeys. Qed.

(** What the pushes and the jumps are. *)
Lemma moving_table spec :
  Forall (fun q : Z * M (Interpreter * H) InstructionResult unit =>
    (exists n, q.2 = on_int (stack_push n) /\ n = Z.of_nat (instruction_len q.1) - 1) \/
    q.2 = on_int control_jump /\ q.1 = 0x56 \/ q.2 = on_int control_jumpi /\ q.1 = 0x57 \/
    (instruction_len q.1 = 1%nat /\ q.1 <> 0x56 /\ q.1 <> 0x57)) (instructions spec).
Proof.
  unfold instructions.
  repeat (apply List.Forall_cons; [cbn [fst snd]|]); [..|constructor].
  all: first [ by right; right; right | by right; left | by right; right; left
             | left; eexists; split; reflexivity ].
Qed.

Lemma obeys_instruction spec opcode : obeys on_state base_step (instruction spec opcode).
Proof.
  apply (instruction_ind (fun _ q => obeys on_state base_step q)).
  - apply Forall_lookup_2. intros k q Hq.
    pose proof (Forall_lookup_1 _ _ _ _ (quiet_table spec) Hq) as Hqt.
    pose proof (Forall_lookup_1 _ _ _ _ (moving_table spec) Hq)
      as [(n & -> & _)|[[-> _]|[[-> _]|(H1 & H2 & H3)]]].
    + apply obeys_on_int, base_push.
    + apply obeys_on_int, base_jump.
    + apply obeys_on_int, base_jumpi.
    + apply (obeys_mono _ quiet_step); [by intros ? ? []|auto].
  - apply obeys_on_int. unfold control_unknown. solve_obeys.
Qed.

Lemma arrives_instruction spec opcode :
  arrives on_state (Z.of_nat (instruction_len opcode) - 1) (instruction spec opcode).
Proof.
  apply (instruction_ind (fun op q => arrives on_state (Z.of_nat (instruction_len op) - 1) q)).
  - apply Forall_lookup_2. intros k q Hq.
    pose proof (Forall_lookup_1 _ _ _ _ (quiet_table spec) Hq) as Hqt.
    pose proof (Forall_lookup_1 _ _ _ _ (moving_table spec) Hq)
      as [(n & -> & ->)|[[-> ->]|[[-> ->]|(H1 & H2 & H3)]]].
    + apply arrives_on_int, arrives_push.
    + apply arrives_on_int, arrives_jump.
    + apply arrives_on_int, arrives_jumpi.
    + rewrite H1. apply arrives_quiet. auto.
  - intros s a s' _ Hu. unfold on_int, zoom, control_unknown, halt, modify in Hu. simplify_eq/=.
    intros _. split; [done|by left].
Qed.
End table.
(** ** Every instruction spends gas, or halts *)


Ltac spends_leaf :=
  lazymatch goal with
  | |- spends _ (gas _) => apply spends_gas; solve_cost
  | |- spends _ (gas_or_fail _) =>
      apply spends_gas_or_fail; intros; eauto using Nat2Z.is_nonneg with costs
  | |- spends _ (halt _) => apply spends_halt; done
  | |- spends _ (fail _) => apply spends_fail
  | |- spends _ (lift Panic) => apply spends_panic
  end.

Lemma spends_emit_call inputs : spends self (emit_call inputs).
Proof.
  unfold emit_call. apply spends_bind_r; [solve_obeys|intros _]. spends_leaf.
Qed.

Lemma spends_gas_bind {A} c (f : unit -> IM A) :
  1 <= c -> (forall a, obeys self base_step (f a)) -> spends self (gas c ≫= f).
Proof. intros Hc. apply spends_bind_l; [apply obeys_gas; [apply _|lia]|by apply spends_gas]. Qed.

Section host_spends.
Context {H : Type} `{HH : Host H}.
Abbreviation on_state := (fun s : Interpreter * H => s.1).

Lemma spends_pop_call_bind {A} (f : Z * Address -> M (Interpreter * H) InstructionResult A) :
  (forall l to, 0 <= l -> spends on_state (f (l, to))) ->
  spends on_state (on_int pop_call_gas_and_target ≫= f).
Proof.
  intros Hf. apply (spends_bind_with _ (fun r => 0 <= r.1)); [| |intros [l to]; apply Hf].
  - by apply obeys_on_int, obeys_pop_call_gas_and_target; apply _.
  - apply returns_on_int, returns_pop_call_gas_and_target.
Qed.
End host_spends.

Lemma spends_call_gas_bind {A} spec b1 b2 b3 l (f : Z -> IM A) :
  0 <= l -> (forall g, 0 <= g -> spends self (f g)) -> spends self (calc_call_gas spec b1 b2 b3 l ≫= f).
Proof.
  intros Hl. by apply spends_bind_with; [apply obeys_calc_call_gas; apply _|apply returns_calc_call_gas].
Qed.

(** A block on the interpreter alone, whose gas is charged in the middle. *)
Ltac spends_block :=
  repeat (intros; cbv beta zeta;
    first
    [ lazymatch goal with
      | |- spends _ (as_usize_or_fail _ ≫= _) => apply spends_usize_bind; [done|]
      | |- spends _ (gas_or_fail _ ≫= _) =>
          apply spends_bind_l; [solve_obeys; fail|spends_leaf|solve_obeys; fail]
      | |- spends _ (pop2 ≫= _) => apply spends_bind_r; [solve_obeys; fail|]
      end
    | case_match ]); fail.

Ltac spends_bind :=
  lazymatch goal with
  | |- spends _ (as_usize_or_fail _ ≫= _) => apply spends_usize_bind; [done|]
  | |- spends _ (gets (fun i => remaining (in_gas i)) ≫= _) => apply spends_remaining_bind
  | |- spends _ (calc_call_gas _ _ _ _ _ ≫= _) => apply spends_call_gas_bind; [simpl in *; lia|]
  | |- spends _ (on_int pop_call_gas_and_target ≫= _) => apply spends_pop_call_bind
  | |- spends _ (?m ≫= _) =>
      lazymatch m with
      | gas ?c => first [ apply spends_gas_bind; [solve_cost|solve_obeys_calls; fail]
                        | apply spends_bind_r; [solve_obeys_calls; fail|] ]
      | on_int _ =>
          first [ apply spends_bind_l;
                  [solve_obeys_calls; fail
                  |apply spends_on_int; repeat case_match; first [spends_leaf|spends_block]
                  |solve_obeys_calls; fail]
                | apply spends_bind_r; [solve_obeys_calls; fail|] ]
      | gas_or_fail ?o => apply spends_bind_l; [solve_obeys_calls; fail|spends_leaf|solve_obeys_calls; fail]
      | halt _ => apply spends_bind_l; [solve_obeys_calls; fail|spends_leaf|solve_obeys_calls; fail]
      | _ => apply spends_bind_r; [solve_obeys_calls; fail|]
      end
  end.

Ltac solve_spends :=
  autounfold with instructions;
  repeat (intros; cbv beta zeta;
    first
    [ lazymatch goal with
      | |- spends _ (on_int (emit_call _)) => apply spends_on_int, spends_emit_call
      | |- spends _ (emit_call _) => apply spends_emit_call
      | |- spends _ (return_inner _) => unfold return_inner
      | |- spends _ (on_int ?m) => apply spends_on_int
      end
    | spends_leaf | spends_bind | progress case_match ]).

Section spending_table.
Context {H : Type} `{HH : Host H} `{HK : Keccak} `{HC : CreateAddress}.
Lemma spends_table spec :
  Forall (fun q : Z * M (Interpreter * H) InstructionResult unit =>
    spends (fun s => s.1) q.2) (instructions spec).
Proof.
  unfold instructions.
  repeat (apply List.Forall_cons; [cbn [snd]; solve_spends|]).
  constructor.
Qed.

Lemma spends_instruction spec opcode : spends (fun s => s.1) (instruction (H := H) spec opcode).
Proof.
  apply (instruction_ind (fun _ q => spends (fun s => s.1) q)); [apply spends_table|].
  apply spends_on_int. unfold control_unknown. spends_leaf.
Qed.
End spending_table.
