(* ===== verification/InterpreterLoop.v ===== *)
(** The loop of the interpreter, [Interpreter::run]: it ends within its gas, it
    preserves the invariants of an interpreter, and on legacy code it stays on
    the instructions of the code and never reads out of it. *)

From S2P Require Import Prelude.
From S2P Require Import Specification.
From S2P Require Import Bytes.
From S2P Require Import Eof.
From S2P Require Import Bytecode.
From S2P Require Import State.
From S2P Require Import Result.
From S2P Require Import InstructionResult.
From S2P Require Import Database.
From S2P Require Import Journal.
From S2P Require Import CallInputs.
From S2P Require Import Gas.
From S2P Require Import Stack.
From S2P Require Import SharedMemory.
From S2P Require Import Analysis.
From S2P Require Import Env.
From S2P Require Import Interpreter.
From S2P Require Import Context.
From S2P Require Import Instructions.
From S2P Require Import HostInstructions.
From S2P Require Import Opcode.
From S2P Require Import InterpreterSteps.
From S2P Require Import InterpreterSafety.

Section loop.
Context {H : Type} `{HH : Host H} `{HK : Keccak} `{HC : CreateAddress} (spec : SpecId).

(** ** One step *)

Lemma step_inv (i : Interpreter) (h : H) r s' :
  step spec (i, h) = (r, s') ->
  (r = Panic /\ s' = (i, h)) \/
  (exists opcode, index (E := Empty_set) (in_bytecode i) (instruction_pointer i) = Ok opcode /\
     settle_instruction (instruction spec opcode) (set_pc (instruction_pointer i + 1) i, h) = (r, s')).
Proof.
  intros Hs. unfold step in Hs.
  apply M_bind_inv in Hs as [(i1 & s1 & [= <- <-] & Hs)|[(? & ? & _)|[? _]]]; [|done..].
  apply M_bind_inv in Hs as [(op & s1 & [= Ho <-] & Hs)|[([] & _)|[[= _ <-] ->]]]; [|by left].
  apply M_bind_inv in Hs as [(u & s1 & [= <- <-] & Hs)|[(? & ? & _)|[? _]]]; [|done..].
  right. by exists op.
Qed.

Lemma settle_instruction_inv opcode (s : Interpreter * H) r s' :
  fits 64 (remaining (in_gas s.1)) ->
  settle_instruction (instruction spec opcode) s = (r, s') ->
  base_step s.1 s'.1 /\
  (r = Ok tt -> remaining (in_gas s'.1) < remaining (in_gas s.1) \/ running s'.1 = false) /\
  (r = Ok tt -> running s'.1 = true -> legacy_move (Z.of_nat (instruction_len opcode) - 1) s.1 s'.1).
Proof.
  intros Hg Hs. unfold settle_instruction in Hs.
  destruct (instruction spec opcode s) as [r1 s1] eqn:Hi.
  destruct (obeys_instruction spec opcode _ _ _ Hg Hi) as [Hb Hc].
  destruct r1 as [[]|e|]; simplify_eq; split_and!; try done.
  - intros _. exact (spends_instruction spec opcode _ _ _ Hg Hi).
  - intros _ _. exact (arrives_instruction spec opcode _ _ _ Hg Hi).
  - destruct Hb. split; try done. intros _. apply bool_decide_eq_false. cbn. congruence.
  - intros _. right. apply bool_decide_eq_false. cbn. congruence.
  - intros _ Hr. apply bool_decide_eq_true in Hr. cbn in Hr. congruence.
Qed.

Lemma step_base s r s' :
  fits 64 (remaining (in_gas s.1)) -> step spec s = (r, s') ->
  base_step s.1 s'.1 /\
  (r = Ok tt -> remaining (in_gas s'.1) < remaining (in_gas s.1) \/ running s'.1 = false).
Proof.
  destruct s as [i h]. intros Hg Hs. apply step_inv in Hs as [[-> ->]|(op & _ & Hs)]; [by split|].
  apply settle_instruction_inv in Hs as (Hb & Hsp & _); [|done]. split; [|done]. by destruct Hb.
Qed.

(** ** Termination *)

Lemma run_loop_terminates n : forall fuel s,
  fits 64 (remaining (in_gas s.1)) -> (Z.to_nat (remaining (in_gas s.1)) <= n)%nat -> (n < fuel)%nat ->
  run_loop fuel spec s = run_loop (S n) spec s /\ (run_loop (S n) spec s).1 <> Ok false.
Proof.
  induction n as [n IH] using lt_wf_ind. intros [|fuel] s Hg Hn Hf; [lia|].
  cbn [run_loop]. unfold mbind, M_bind, gets. destruct (running s.1) eqn:Hr; [|done].
  destruct (step spec s) as [[[]|e|] s1] eqn:Hs; [|done..].
  apply step_base in Hs as [Hb Hsp]; [|done]. destruct (bs_gas _ _ Hb Hg) as [Hg1 Hle].
  destruct (Hsp eq_refl) as [Hlt|Hh].
  - destruct n as [|n]; [destruct Hg1; lia|]. destruct Hg1 as [? ?], Hg as [? ?].
    apply IH; [lia|split; lia|lia|lia].
  - destruct fuel, n; cbn [run_loop]; unfold mbind, M_bind, gets; by rewrite Hh.
Qed.

(** As much fuel as gas and one more step is enough. *)
Lemma run_fuel_enough memory i (h : H) :
  fits 64 (remaining (in_gas i)) ->
  let n := S (Z.to_nat (remaining (in_gas i))) in
  (run n spec memory (i, h)).1 <> Ok None /\
  forall fuel, remaining (in_gas i) < Z.of_nat fuel -> run fuel spec memory (i, h) = run n spec memory (i, h).
Proof.
  intros Hg. cbv zeta. set (s0 := (set_memory memory (set_next_action IA_None i), h)).
  set (n := Z.to_nat (remaining (in_gas i))).
  assert (Hl := fun fuel => run_loop_terminates n fuel s0 Hg ltac:(done)).
  unfold run. rewrite (M_bind_ok (modify _) _ (i, h) tt s0 eq_refl). split.
  - destruct (Hl (S n) ltac:(lia)) as [_ Hne]. unfold mbind at 1, M_bind.
    destruct (run_loop (S n) spec s0) as [[[]|e|] s1]; [|done..]. unfold mbind, M_bind, gets. cbn. by case_match.
  - intros fuel Hf. rewrite (M_bind_ok (modify _) _ (i, h) tt s0 eq_refl).
    destruct (Hl fuel ltac:(subst n; destruct Hg; lia)) as [Heq _]. unfold mbind at 1 3, M_bind. by rewrite Heq.
Qed.

(** C16: the interpreter terminates.  Whatever the host answers and whatever the
    code, a fuel of more steps than the gas of the interpreter lets [run] end,
    with an action to do next or with a panic, and more fuel changes nothing:
    the loop of [run] makes at most one step more than it has gas. *)
Theorem run_terminates memory i (h : H) :
  fits 64 (remaining (in_gas i)) ->
  exists r s', r <> Ok None /\
    forall fuel, remaining (in_gas i) < Z.of_nat fuel -> run fuel spec memory (i, h) = (r, s').
Proof.
  intros Hg. destruct (run_fuel_enough memory i h Hg) as [Hne Hf].
  destruct (run _ spec memory (i, h)) as [r s']. exists r, s'. auto.
Qed.

(** ** Invariants *)

(** Rule induction over the steps of the loop. *)
Lemma run_loop_ind (P : Interpreter * H -> Prop) :
  (forall s r s', P s -> running s.1 = true -> step spec s = (r, s') -> r = Ok tt -> P s') ->
  forall fuel s b s', P s -> run_loop fuel spec s = (Ok b, s') -> P s'.
Proof.
  intros Hstep. induction fuel as [|fuel IH]; intros s b s' HP; cbn [run_loop];
    unfold mbind, M_bind, gets; destruct (running s.1) eqn:Hr; try by intros [= <- <-].
  destruct (step spec s) as [[[]|e|] s1] eqn:Hs; [|done..]. apply IH. by eapply Hstep.
Qed.

Lemma run_loop_false fuel s s' : run_loop fuel spec s = (Ok false, s') -> running s'.1 = true.
Proof.
  revert s. induction fuel as [|fuel IH]; intros s; cbn [run_loop];
    unfold mbind, M_bind, gets; destruct (running s.1) eqn:Hr; try done; try by intros [= <-].
  destruct (step spec s) as [[[]|e|] s1]; [apply IH|done..].
Qed.

Lemma run_loop_base fuel s r s' :
  fits 64 (remaining (in_gas s.1)) -> run_loop fuel spec s = (r, s') -> base_step s.1 s'.1.
Proof.
  revert s. induction fuel as [|fuel IH]; intros s Hg; cbn [run_loop];
    unfold mbind, M_bind, gets; destruct (running s.1); try by intros [= <- <-].
  destruct (step spec s) as [[[]|e|] s1] eqn:Hs; apply step_base in Hs as [Hb _]; try done.
  - intros H1. etrans; [exact Hb|]. apply IH; [|done]. by apply (bs_gas _ _ Hb).
  - by intros [= <- <-].
Qed.

(** A relation that every instruction obeys, and that lets the pointer move, holds
    between the ends of a step and of the loop. *)
Section relates.
Context (R : Interpreter -> Interpreter -> Prop) `{!Coarse R}.
Context (Hpc : forall i n, R i (set_pc n i)).
Context (Hop : forall opcode, obeys (fun s => s.1) R (instruction spec opcode)).

Lemma step_relates s r s' :
  fits 64 (remaining (in_gas s.1)) -> step spec s = (r, s') -> R s.1 s'.1.
Proof.
  destruct s as [i h]. intros Hg Hs. apply step_inv in Hs as [[_ ->]|(op & _ & Hs)]; [done|].
  unfold settle_instruction in Hs. etrans; [apply (Hpc i (instruction_pointer i + 1))|].
  destruct (instruction spec op _) as [r1 s1] eqn:Hi. apply Hop in Hi as [HR He]; [|done].
  etrans; [exact HR|]. destruct r1 as [[]|e|]; simplify_eq; [done| |done].
  apply coarse. split; [|done]. split; [|done]. split; try done.
  intros _. apply bool_decide_eq_false. cbn. congruence.
Qed.

Lemma run_loop_relates fuel s r s' :
  fits 64 (remaining (in_gas s.1)) -> run_loop fuel spec s = (r, s') -> R s.1 s'.1.
Proof.
  revert s. induction fuel as [|fuel IH]; intros s Hg; cbn [run_loop];
    unfold mbind, M_bind, gets; destruct (running s.1); try by intros [= <- <-].
  destruct (step spec s) as [[[]|e|] s1] eqn:Hs; apply step_relates in Hs as HR; try done.
  - intros H1. etrans; [exact HR|]. apply IH; [|done]. by apply (coarse_gas s.1).
  - by intros [= <- <-].
Qed.
End relates.

(** What [run] answers: the action that the loop left, or the return of its
    result. *)
Lemma run_inv fuel memory i (h : H) a i' h' :
  run fuel spec memory (i, h) = (Ok (Some a), (i', h')) ->
  exists i1, run_loop fuel spec (set_memory memory (set_next_action IA_None i), h) = (Ok true, (i1, h')) /\
    ((IA_is_some (next_action i1) = true /\ a = next_action i1 /\ i' = set_next_action IA_None i1) \/
     (IA_is_some (next_action i1) = false /\ i' = i1 /\ a = IA_Return (mkInterpreterResult (instruction_result i1) [] (in_gas i1)))).
Proof.
  intros Hr. unfold run in Hr. set (s0 := (set_memory memory (set_next_action IA_None i), h)) in *.
  rewrite (M_bind_ok (modify _) _ (i, h) tt s0 eq_refl) in Hr.
  apply M_bind_inv in Hr as [(b & [i1 h1] & H1 & Hr)|[(? & _ & ?)|[_ ?]]]; [|done..].
  destruct b; [|done]. unfold mbind, M_bind, gets, modify in Hr. simpl in Hr.
  destruct (IA_is_some (next_action i1)) eqn:Ha; simpl in Hr; injection Hr as <- <- <-; exists i1; auto.
Qed.

(** What execution preserves.  Stopped after any number of steps, by the
    fuel, by the end of the code or by a panic, the interpreter has the
    contract, the mode and the staticness it was given, at most the gas it was
    given, and at most 1024 words on the stack. *)
Theorem run_preserves_interpreter fuel memory i (h : H) r i' h' :
  fits 64 (remaining (in_gas i)) -> len (stack i) <= STACK_LIMIT ->
  run fuel spec memory (i, h) = (r, (i', h')) ->
  contract i' = contract i /\ in_is_eof i' = in_is_eof i /\ in_is_static i' = in_is_static i /\
  0 <= remaining (in_gas i') <= remaining (in_gas i) /\ len (stack i') <= STACK_LIMIT.
Proof.
  intros Hg Hst Hr. unfold run in Hr.
  set (s0 := (set_memory memory (set_next_action IA_None i), h)) in *.
  rewrite (M_bind_ok (modify _) _ (i, h) tt s0 eq_refl) in Hr.
  enough (base_step i i') as [? ? ? Hgas ? _] by (destruct (Hgas Hg) as [[? ?] ?]; split_and!; auto).
  assert (base_step i s0.1) as Hb0 by by split.
  etrans; [exact Hb0|].
  apply M_bind_inv in Hr as [(b & s1 & H1 & Hr)|[(? & H1 & ?)|[H1 _]]];
    apply run_loop_base in H1; try done.
  etrans; [exact H1|]. revert Hr. unfold mbind, M_bind, gets, modify. destruct b; repeat case_match;
    intros Hr; injection Hr; intros; subst; by split.
Qed.

(** ** Legacy code *)

(** The interpreter is at an instruction of the padded code. *)
Definition on_instruction (code : bytes) (i : Interpreter) : Prop :=
  let padded := code ++ replicate 33 0 in
  0 <= instruction_pointer i /\
  instruction_start padded (Z.to_nat (instruction_pointer i)) /\
  exists opcode, padded !! Z.to_nat (instruction_pointer i) = Some opcode /\
    instruction_pointer i + Z.of_nat (instruction_len opcode) <= len padded.

Record legacy_state (code : bytes) (i : Interpreter) : Prop := {
  ls_gas : fits 64 (remaining (in_gas i));
  ls_eof : in_is_eof i = false;
  ls_contract : c_bytecode (contract i) = to_analysed (new_raw code);
  ls_code : running i = true -> in_bytecode i = code ++ replicate 33 0 /\ on_instruction code i;
}.

(** An instruction within the code is followed by one within the padding, and
    the padding halts. *)
Lemma on_instruction_at code i :
  0 <= instruction_pointer i -> instruction_start (code ++ replicate 33 0) (Z.to_nat (instruction_pointer i)) ->
  instruction_pointer i <= len code + 32 -> on_instruction code i.
Proof.
  intros H0 Hs Hle. split_and!; [done..|].
  assert (Hlen : len (code ++ replicate 33 0) = len code + 33) by (rewrite len_app; done).
  destruct (decide (instruction_pointer i < len code)) as [Hlt|Hge].
  - destruct (lookup_lt_is_Some_2 code (Z.to_nat (instruction_pointer i))) as [op Hop]; [unfold len in *; lia|].
    exists op. split; [by apply lookup_app_l_Some|]. rewrite Hlen. unfold instruction_len.
    destruct (Z.leb_spec 0x60 op), (Z.leb_spec op 0x7F); simpl; lia.
  - exists 0. rewrite lookup_app_r by (unfold len in *; lia). rewrite lookup_replicate. unfold len in *.
    split; [split; [done|lia]|]. rewrite length_app, length_replicate. unfold instruction_len. simpl. lia.
Qed.

Lemma legacy_valid_jump code i pc :
  Forall is_byte code -> c_bytecode (contract i) = to_analysed (new_raw code) -> 0 <= pc ->
  Contract_is_valid_jump (contract i) pc = true ->
  instruction_start (code ++ replicate 33 0) (Z.to_nat pc) /\ pc < len code.
Proof.
  intros Hb Hc Hpc Hj. unfold Contract_is_valid_jump in Hj. rewrite Hc in Hj.
  apply to_analysed_jumps in Hj as [Hs Hj]; [|done..]. apply lookup_lt_Some in Hj.
  split; [|unfold len; lia]. apply reach_app; [lia|done].
Qed.

Lemma index_Some {E A} (l : list A) n a : index (E := E) l n = Ok a -> l !! Z.to_nat n = Some a.
Proof. unfold index, unwrap. repeat case_match; congruence. Qed.

Lemma instruction_len_le opcode : (instruction_len opcode <= 33)%nat.
Proof.
  unfold instruction_len. destruct (Z.leb_spec 0x60 opcode), (Z.leb_spec opcode 0x7F); simpl; lia.
Qed.

Lemma stop_halts (s : Interpreter * H) r s' :
  settle_instruction (instruction spec 0) s = (r, s') -> running s'.1 = false.
Proof. by intros [= <- <-]. Qed.

Lemma legacy_step code s s' :
  Forall is_byte code -> legacy_state code s.1 -> running s.1 = true -> step spec s = (Ok tt, s') ->
  legacy_state code s'.1.
Proof.
  destruct s as [i h]. intros Hb [Hg He Hc Hcode] Hr Hs.
  destruct (step_base _ _ _ Hg Hs) as [HB _]. cbn [fst] in HB, Hg, He, Hc, Hcode, Hr.
  destruct (Hcode Hr) as (Hpad & H0 & Hstart & op & Hop & _).
  split; [by apply (bs_gas _ _ HB)|by rewrite (bs_eof _ _ HB)|by rewrite (bs_contract _ _ HB)|].
  intros Hr'. apply step_inv in Hs as [[? _]|(op' & Ho & Hs)]; [done|].
  assert (op' = op) as ->.
  { apply index_Some in Ho. rewrite Hpad in Ho. congruence. }
  assert (Hin : instruction_pointer i < len code).
  { apply Z.nle_gt. intros Hge. rewrite lookup_app_r in Hop by (unfold len in *; lia).
    apply lookup_replicate in Hop as [-> _]. by apply stop_halts in Hs; rewrite Hs in Hr'. }
  apply settle_instruction_inv in Hs as (_ & _ & Hmove); [|done].
  destruct (Hmove eq_refl Hr' He) as [-> [?|[Hpc|[Hpc Hj]]]]; [congruence|..]; (split; [done|]).
  - simpl in Hpc. apply on_instruction_at; rewrite Hpc.
    + lia.
    + eapply rtc_r; [exact Hstart|]. exists op. split; [done|].
      pose proof (instruction_len_pos op). lia.
    + pose proof (instruction_len_le op). lia.
  - apply legacy_valid_jump with (code := code) in Hj as [? ?]; [|done..]. apply on_instruction_at; [done..|lia].
Qed.

Lemma legacy_start code c gas_limit is_static i :
  c_bytecode c = to_analysed (new_raw code) -> fits 64 gas_limit ->
  Interpreter_new (E := Empty_set) c gas_limit is_static = Ok i -> legacy_state code i.
Proof.
  intros Hc Hg Hi. unfold Interpreter_new in Hi. rewrite Hc in Hi. injection Hi as <-.
  split; [done..|]. intros _. split; [done|]. apply on_instruction_at; [done|apply rtc_refl|].
  cbn [instruction_pointer]. pose proof (len_nonneg code). lia.
Qed.

(** C7: legacy code is executed along its instructions.  An interpreter made
    for a contract with raw legacy code, stopped while it runs after any number
    of steps, whatever the host and the gas, has its instruction pointer where
    an instruction of the code starts when the code is read from its beginning,
    so never inside the immediate bytes of a push, and the instruction with its
    immediate bytes lies within the 33 bytes of padding: no read of the code is
    out of bounds. *)
Theorem legacy_code_stays_on_instructions code input hash target caller values gas_limit is_static
  i memory fuel (h : H) i' h' :
  Forall is_byte code -> fits 64 gas_limit ->
  Interpreter_new (E := Empty_set) (Contract_new input (new_raw code) hash target caller values)
    gas_limit is_static = Ok i ->
  run_loop fuel spec (set_memory memory i, h) = (Ok false, (i', h')) ->
  in_bytecode i' = code ++ replicate 33 0 /\ on_instruction code i'.
Proof.
  intros Hb Hg Hi Hr.
  assert (Hl : legacy_state code (set_memory memory i)).
  { apply legacy_start with (code := code) in Hi; [|done..]. by destruct Hi. }
  pose proof (run_loop_false _ _ _ Hr) as Hrun.
  apply (run_loop_ind (fun s => legacy_state code s.1)) in Hr as [_ _ _ Hcode]; [by apply Hcode| |done].
  intros s r s' Hs Hrs Hstep ->. by eapply legacy_step.
Qed.
End loop.

(** A host for the witnesses: every account is loaded and empty, and it answers
    nothing else. *)
Definition sample_host : Host unit := {|
  h_env := fun _ => Env_default;
  h_load_account := fun _ => mret (Some (mkLoadAccountResult false true));
  h_block_hash := fun _ => mret None;
  h_code := fun _ => mret None;
  h_code_hash := fun _ => mret None;
  h_sload := fun _ _ => mret None;
  h_sstore := fun _ _ _ => mret None;
  h_tload := fun _ _ => mret 0;
  h_tstore := fun _ _ _ => mret tt;
  h_log := fun _ => mret tt;
  h_selfdestruct := fun _ _ => mret None;
  h_balance := fun _ _ => mret None;
  h_base_balance := fun _ => mret None;
  h_burn := fun _ _ _ _ => mret false;
  h_mint := fun _ _ _ _ => mret false;
|}.
#[local] Existing Instances sample_host sample_keccak.
Definition sample_create_address : CreateAddress := {|
  create_address := fun a n => a + n; create2_address := fun a s h => a + s + h
|}.
#[local] Existing Instance sample_create_address.

(** PUSH2 0x5B5B; JUMPDEST; PUSH1 3; JUMP: an endless loop over the JUMPDEST. *)
Definition sample_code : bytes := [0x61; 0x5B; 0x5B; 0x5B; 0x60; 3; 0x56].
Definition sample_interpreter_on (code : bytes) (gas_limit : Z) : Interpreter :=
  mkInterpreter 0 (Gas_new gas_limit) (Contract_new [] (new_raw code) None 1 2 []) IR_Continue
    (code ++ replicate 33 0) false false EMPTY_SHARED_MEMORY Stack_new FunctionStack_new []
    false IA_None.
Definition sample_interpreter : Interpreter := sample_interpreter_on sample_code 100.

Lemma run_terminates_witness :
  exists r s', r <> Ok None /\
    forall fuel, 100 < Z.of_nat fuel -> run fuel CANCUN SharedMemory_new (sample_interpreter, tt) = (r, s').
Proof. apply (run_terminates CANCUN SharedMemory_new sample_interpreter tt). split; vm_compute; done. Defined.

Lemma run_preserves_interpreter_witness :
  let '(_, (i', _)) := run 5 CANCUN SharedMemory_new (sample_interpreter, tt) in
  0 <= remaining (in_gas i') <= 100 /\ len (stack i') <= STACK_LIMIT.
Proof.
  destruct (run 5 CANCUN SharedMemory_new (sample_interpreter, tt)) as [r [i' h']] eqn:Hr.
  apply (run_preserves_interpreter CANCUN 5 SharedMemory_new sample_interpreter tt r i' h') in Hr;
    [tauto|split; vm_compute; done|vm_compute; done].
Defined.

Lemma legacy_code_stays_on_instructions_witness :
  exists i', (run_loop 5 CANCUN (set_memory SharedMemory_new sample_interpreter, tt)).2 = (i', tt) /\
    instruction_pointer i' = 4 /\ on_instruction sample_code i'.
Proof.
  eexists. split; [vm_compute; reflexivity|]. split; [vm_compute; reflexivity|].
  eapply (legacy_code_stays_on_instructions CANCUN sample_code [] None 1 2 [] 100 false
    sample_interpreter SharedMemory_new 5 tt _ tt); [..|vm_compute; reflexivity].
  - repeat constructor; done.
  - by vm_compute.
  - vm_compute. reflexivity.
Defined.
