(* ===== verification/InterpreterGas.v ===== *)
(** The gas an interpreter hands on: a call or a creation that legacy code asks
    for carries no more gas than the code was charged. *)

From S2P Require Import Prelude.
From S2P Require Import Specification.
From S2P Require Import Bytes.
From S2P Require Import Eof.
From S2P Require Import Bytecode.
From S2P Require Import State.
From S2P Require Import Result.
From S2P Require Import InstructionResult.
From S2P Require Import Database.
From S2P Require Import Journal.
From S2P Require Import CallInputs.
From S2P Require Import Gas.
From S2P Require Import Stack.
From S2P Require Import SharedMemory.
From S2P Require Import Analysis.
From S2P Require Import Env.
From S2P Require Import Interpreter.
From S2P Require Import Context.
From S2P Require Import Instructions.
From S2P Require Import HostInstructions.
From S2P Require Import Opcode.
From S2P Require Import InterpreterSteps.
From S2P Require Import InterpreterSafety.
From S2P Require Import InterpreterLoop.

(** What an action may carry, when the gas went from [before] to [after]. *)
Definition action_is_paid (before after : Z) (a : InterpreterAction) : Prop :=
  match a with
  | IA_Call c => 0 <= ci_gas_limit c /\ after + ci_gas_limit c < before
  | IA_Create c => 0 <= cr_gas_limit c /\ after + cr_gas_limit c < before
  | IA_EOFCreate _ => False
  | IA_Return r => 0 <= remaining (ir_gas r) <= before
  | IA_None => True
  end.

Lemma action_is_paid_mono b1 a1 b2 a2 a :
  b1 <= b2 -> a2 <= a1 -> action_is_paid b1 a1 a -> action_is_paid b2 a2 a.
Proof. destruct a; simpl; lia || done. Qed.

Record pays (i i' : Interpreter) : Prop := {
  pays_base : base_step i i';
  pays_action : in_is_eof i = false -> fits 64 (remaining (in_gas i)) ->
    next_action i' = next_action i \/
    action_is_paid (remaining (in_gas i)) (remaining (in_gas i')) (next_action i');
}.

#[export] Instance pays_preorder : PreOrder pays.
Proof.
  split.
  - intros i. split; [done|by left].
  - intros i j k [B1 P1] [B2 P2]. split; [by etrans|]. intros He Hg.
    destruct (bs_gas _ _ B1 Hg) as [Hg' Hle]. destruct (bs_gas _ _ B2 Hg') as [_ Hle'].
    destruct (P2 ltac:(by rewrite (bs_eof _ _ B1)) Hg') as [Ha|Ha].
    + rewrite Ha. destruct (P1 He Hg) as [?|Hp]; [by left|right].
      by eapply action_is_paid_mono; [..|exact Hp].
    + right. by eapply action_is_paid_mono; [..|exact Ha].
Qed.

#[export] Instance pays_coarse : Coarse pays.
Proof.
  split; [apply _| | |].
  - intros i i' [[Hb _] Ha]. split; [done|by left].
  - intros i r output. split; [done|]. intros _ [? _]. right. simpl. lia.
  - intros i i' [Hb _] Hg. by apply (bs_gas _ _ Hb).
Qed.

Lemma call_cost_pays_stipend spec (has_transfer : bool) is_cold new_account :
  (if has_transfer then CALL_STIPEND else 0) < call_cost spec has_transfer is_cold new_account.
Proof. unfold CALL_STIPEND. solve_cost. Qed.

(** Charging gas that the interpreter has. *)
Lemma gas_inv c i u i' :
  0 <= c -> fits 64 (remaining (in_gas i)) -> gas c i = (Ok u, i') ->
  i' = set_gas (in_gas i') i /\ remaining (in_gas i') + c = remaining (in_gas i) /\
  fits 64 (remaining (in_gas i')).
Proof.
  intros Hc [H0 H1] H. unfold gas, record_cost in H.
  destruct (Z.ltb_spec (remaining (in_gas i)) c); simplify_eq/=. split; [done|].
  rewrite wrapping_sub_fits by (unfold fits; lia). unfold fits. lia.
Qed.

(** The end of a call: its cost, the gas it forwards, and the request. *)
Lemma calc_call_gas_inv spec is_cold (has_transfer : bool) new_account l i g i' :
  0 <= l -> fits 64 (remaining (in_gas i)) ->
  calc_call_gas spec is_cold has_transfer new_account l i = (Ok g, i') ->
  silent_step i i' /\ 0 <= g /\
  remaining (in_gas i') + (if has_transfer then CALL_STIPEND else 0) < remaining (in_gas i).
Proof.
  intros Hl Hg H. pose proof (returns_calc_call_gas spec is_cold has_transfer new_account l Hl _ _ _ Hg H).
  pose proof (call_cost_pays_stipend spec has_transfer is_cold new_account) as Hc.
  assert (Hc0 : 0 <= call_cost spec has_transfer is_cold new_account) by (unfold CALL_STIPEND in *; case_match; lia).
  unfold calc_call_gas in H. apply M_bind_inv in H as [(u & s1 & H1 & H)|[(? & _ & ?)|[_ ?]]]; [|done..].
  pose proof (silent_gas (call_cost spec has_transfer is_cold new_account) i Hc0) as Hs.
  destruct (gas_inv _ _ _ _ Hc0 Hg H1) as (_ & Hr & _).
  assert (Hs1 : s1 = set_gas (record_cost (call_cost spec has_transfer is_cold new_account) (in_gas i)).2 i).
  { unfold gas in H1. destruct (record_cost _ _) as [[] ?]; by simplify_eq/=. }
  assert (i' = s1) as -> by (destruct (enabled spec TANGERINE); by inversion H).
  rewrite <- Hs1 in Hs. split_and!; [done..|lia].
Qed.

Lemma pays_call spec is_cold (has_transfer : bool) new_account l (mk : Z -> Interpreter -> CallInputs) :
  0 <= l -> (forall g i, 0 <= g -> 0 <= ci_gas_limit (mk g i) <= g + (if has_transfer then CALL_STIPEND else 0)) ->
  obeys self pays (g ← calc_call_gas spec is_cold has_transfer new_account l;
    _ ← gas g; i ← get; emit_call (mk g i)).
Proof.
  intros Hl Hmk s r s' Hg H.
  apply (obeys_bind_inv self pays) in H as [(g & s1 & H1 & P1 & H)|?]; [|done|by apply obeys_calc_call_gas, _|done].
  destruct (calc_call_gas_inv _ _ _ _ _ _ _ _ Hl Hg H1) as (Hs & Hg0 & Hc).
  assert (Hg1 : fits 64 (remaining (in_gas s1))) by (by apply (coarse_gas (R := pays) s)).
  apply (obeys_bind_inv self pays) in H as [(u & s2 & H2 & _ & H)|[P2 ?]]; [| |by apply obeys_gas, Hg0; apply _|done].
  2: { split; [by etrans|done]. }
  destruct (gas_inv _ _ _ _ Hg0 Hg1 H2) as (_ & Hr2 & _).
  apply (obeys_gas base_step g Hg0) in H2 as [B2 _]; [|done].
  injection H as <- <-. split; [|done]. destruct P1 as [B1 _]. split.
  - etrans; [exact B1|]. etrans; [exact B2|]. by split.
  - intros _ _. right. cbn. specialize (Hmk g s2 Hg0). lia.
Qed.

(** A computation that charges gas when it succeeds. *)
Definition charges {A} (m : IM A) : Prop := forall i a i',
  fits 64 (remaining (in_gas i)) -> m i = (Ok a, i') -> remaining (in_gas i') < remaining (in_gas i).

Lemma charges_gas c : 1 <= c -> charges (gas c).
Proof. intros Hc i a i' Hg Hr. apply gas_inv in Hr as (_ & ? & _); lia || done. Qed.
Lemma charges_gas_or_fail o : (forall c, o = Some c -> 1 <= c) -> charges (gas_or_fail o).
Proof. intros Ho. destruct o as [c|]; [by apply charges_gas, Ho|by intros i a i' _ [=]]. Qed.
Lemma charges_bind_l {A B} (m : IM A) (f : A -> IM B) :
  obeys self base_step m -> charges m -> (forall a, obeys self base_step (f a)) -> charges (m ≫= f).
Proof.
  intros Hb Hm Hf i b i' Hg H. apply M_bind_inv in H as [(a & i1 & H1 & H)|[(? & _ & ?)|[_ ?]]]; [|done..].
  apply Hb in H1 as HB; [|done]. destruct HB as [B1 _]. destruct (bs_gas _ _ B1 Hg) as [Hg1 _].
  apply Hf in H as [B2 _]; [|done]. destruct (bs_gas _ _ B2 Hg1) as [_ ?]. apply Hm in H1; [lia|done].
Qed.
Lemma charges_bind_r {A B} (m : IM A) (f : A -> IM B) :
  obeys self base_step m -> (forall a, charges (f a)) -> charges (m ≫= f).
Proof.
  intros Hb Hf i b i' Hg H. apply M_bind_inv in H as [(a & i1 & H1 & H)|[(? & _ & ?)|[_ ?]]]; [|done..].
  apply Hb in H1 as [B1 _]; [|done]. destruct (bs_gas _ _ B1 Hg) as [Hg1 ?]. apply Hf in H; [lia|done].
Qed.

(** The end of a creation, from its cost on. *)
Lemma pays_create {A} spec (m : IM A) (mk : A -> Z -> Interpreter -> CreateInputs) :
  obeys self pays m -> charges m -> (forall a g i, cr_gas_limit (mk a g i) = g) ->
  obeys self pays (a ← m; g ← gets (fun i => remaining (in_gas i));
    let gas_limit := if enabled spec TANGERINE then wrapping_sub 64 g (g / 64) else g in
    _ ← gas gas_limit; i ← get; _ ← modify (set_next_action (IA_Create (mk a gas_limit i)));
    halt IR_CallOrCreate).
Proof.
  intros Hm Hch Hmk s r s' Hg H.
  apply (obeys_bind_inv self pays) in H as [(a & s1 & H1 & P1 & H)|?]; [|done..].
  apply Hch in H1; [|done]. assert (Hg1 : fits 64 (remaining (in_gas s1))) by (by apply (coarse_gas (R := pays) s)).
  rewrite (M_bind_ok (gets _) _ s1 (remaining (in_gas s1)) s1 eq_refl) in H. cbv zeta in H.
  set (gl := if enabled spec TANGERINE then _ else _) in *.
  assert (Hgl : 0 <= gl) by (subst gl; case_match; [apply fits_wrapping_sub; lia|apply Hg1]).
  clearbody gl.
  apply (obeys_bind_inv self pays) in H as [(u & s2 & H2 & _ & H)|[P2 ?]]; [| |by apply obeys_gas, Hgl; apply _|done].
  2: { split; [by etrans|done]. }
  destruct (gas_inv _ _ _ _ Hgl Hg1 H2) as (_ & Hr2 & _).
  apply (obeys_gas base_step gl Hgl) in H2 as [B2 _]; [|done].
  injection H as <- <-. split; [|done]. destruct P1 as [B1 _]. split.
  - etrans; [exact B1|]. etrans; [exact B2|]. by split.
  - intros _ _. right. cbn. rewrite Hmk. lia.
Qed.

(** ** Every instruction *)

Section table.
Context {H : Type} `{HH : Host H} `{HK : Keccak} `{HC : CreateAddress}.
Abbreviation on_state := (fun s : Interpreter * H => s.1).

Lemma pays_when_eof i i' : base_step i i' -> in_is_eof i = true -> pays i i'.
Proof. intros Hb He. split; [done|congruence]. Qed.

Lemma pays_ext {A} (f : unit -> M (Interpreter * H) InstructionResult A) :
  (forall u, obeys on_state base_step (f u)) -> obeys on_state pays (on_int require_eof ≫= f).
Proof.
  intros Hf [i h] r s' Hg Hr. unfold mbind, M_bind, on_int, zoom, require_eof in Hr. cbn [fst snd] in Hr.
  destruct (in_is_eof i) eqn:He; simpl in Hr.
  - apply Hf in Hr as [Hb Hr]; [|done]. split; [by apply pays_when_eof|done].
  - by simplify_eq.
Qed.

Lemma pays_set_pc (f : Interpreter -> Z) : obeys self pays (modify (fun i => set_pc (f i) i)).
Proof. apply obeys_modify. intros i. split; [done|by left]. Qed.
Lemma pays_advance n : obeys self pays (advance n).
Proof. apply (pays_set_pc (fun i => instruction_pointer i + n)). Qed.
Lemma pays_jump_inner target : obeys self pays (jump_inner target).
Proof. unfold jump_inner, goto. solve_obeys; [apply (pays_set_pc (fun _ => _))|..]. Qed.
#[local] Hint Resolve pays_advance pays_jump_inner : obeys.

(** The calls and the creations. *)
Ltac pays_call_tail :=
  apply obeys_on_int, pays_call; [simpl in *; lia|intros g i ?; cbn; unfold with_stipend;
    first [case_match; [|lia]|lia]; unfold saturating_add, CALL_STIPEND; lia].
Ltac pays_prefix :=
  repeat (intros; cbv beta zeta;
    first
    [ lazymatch goal with
      | |- obeys _ _ (on_int (calc_call_gas _ _ _ _ _ ≫= _)) => pays_call_tail
      | |- obeys _ _ (on_int pop_call_gas_and_target ≫= _) => apply obeys_pop_call_bind; [apply _|]
      end
    | obeys_leaf | obeys_bind_tac | case_match ]).

Lemma pays_contract_call spec : obeys on_state pays (contract_call spec).
Proof. unfold contract_call. pays_prefix. Qed.
Lemma pays_contract_call_code spec : obeys on_state pays (contract_call_code spec).
Proof. unfold contract_call_code. pays_prefix. Qed.
Lemma pays_contract_delegate_call spec : obeys on_state pays (contract_delegate_call spec).
Proof. unfold contract_delegate_call. pays_prefix. Qed.
Lemma pays_contract_static_call spec : obeys on_state pays (contract_static_call spec).
Proof. unfold contract_static_call. pays_prefix. Qed.
Lemma pays_contract_create b spec : obeys on_state pays (contract_create b spec).
Proof.
  unfold contract_create. apply obeys_bind; [apply _|by apply obeys_env_of; apply _|intros e].
  apply obeys_on_int. do 2 (apply obeys_bind; [apply _|solve_obeys|intros ?]).
  apply obeys_bind; [apply _|solve_obeys|intros [[value code_offset] size]].
  apply obeys_usize_bind; [apply _|done|intros n Hn].
  apply obeys_bind; [apply _|solve_obeys|intros code].
  apply (pays_create spec _ (fun scheme gas_limit i =>
    mkCreateInputs (c_target_address (contract i)) scheme value code gas_limit)); [solve_obeys| |done].
  destruct b.
  - apply charges_bind_r; [solve_obeys|intros salt]. apply charges_bind_l; [solve_obeys| |solve_obeys].
    apply charges_gas_or_fail. eauto with costs.
  - by apply charges_bind_l; [solve_obeys|apply charges_gas|solve_obeys].
Qed.

Ltac pays_entry :=
  autounfold with instructions;
  first
  [ apply pays_ext; solve_obeys_calls; fail
  | apply obeys_on_int, obeys_after_require_eof; [apply _|apply pays_when_eof|]; solve_obeys_calls; fail
  | apply obeys_on_int; solve_obeys_calls; fail
  | solve_obeys_calls; fail ].

Lemma pays_table spec :
  Forall (fun q : Z * M (Interpreter * H) InstructionResult unit => obeys on_state pays q.2)
    (instructions spec).
Proof.
  unfold instructions.
  repeat (apply List.Forall_cons; [cbn [snd];
    first [ apply pays_contract_call | apply pays_contract_call_code | apply pays_contract_delegate_call
          | apply pays_contract_static_call | apply pays_contract_create | pays_entry ]|]); constructor.
Qed.

Lemma pays_instruction spec opcode : obeys on_state pays (instruction spec opcode).
Proof.
  apply (instruction_ind (fun _ q => obeys on_state pays q)); [apply pays_table|].
  apply obeys_on_int. unfold control_unknown. solve_obeys.
Qed.

Lemma pays_run_loop spec fuel s r s' :
  fits 64 (remaining (in_gas s.1)) -> run_loop fuel spec s = (r, s') -> pays s.1 s'.1.
Proof.
  apply run_loop_relates; [apply _| |apply pays_instruction]. intros i n. split; [done|by left].
Qed.

(** The action of a run is paid for, and the interpreter is left in the same mode
    with no more gas than it had. *)
Lemma run_is_paid spec fuel memory i (h : H) a i' h' :
  fits 64 (remaining (in_gas i)) -> in_is_eof i = false ->
  run fuel spec memory (i, h) = (Ok (Some a), (i', h')) ->
  action_is_paid (remaining (in_gas i)) (remaining (in_gas i')) a /\
  fits 64 (remaining (in_gas i')) /\ remaining (in_gas i') <= remaining (in_gas i) /\
  base_step i i'.
Proof.
  intros Hg He Hr. apply run_inv in Hr as (i1 & H1 & Hr).
  apply pays_run_loop in H1 as [B1 P1]; [|done]. destruct (bs_gas _ _ B1 Hg) as [Hg1 Hle]. cbn [fst] in *.
  assert (B0 : base_step i i1) by (etrans; [|exact B1]; by split).
  destruct Hr as [(Ha & -> & ->)|(Ha & -> & ->)].
  - split; [|split_and!; [apply Hg1|done|etrans; [exact B0|by split]]].
    destruct (P1 He Hg) as [P1'|?]; [by rewrite P1' in Ha|done].
  - split; [destruct Hg1; simpl in *; lia|]. split_and!; [apply Hg1|done|done].
Qed.
End table.

(** ** The outcome of a call *)

(** The gas after an outcome: what there was, with what the callee left if it
    returned or reverted. *)
Definition gas_after (i i' : Interpreter) (g : Gas) : Prop :=
  remaining (in_gas i') = remaining (in_gas i) \/
  remaining (in_gas i') = wrapping_add 64 (remaining (in_gas i)) (remaining g).

(** An insertion keeps the mode of the interpreter. *)
Record outcome_inserted (i i' : Interpreter) (g : Gas) : Prop := {
  oi_gas : gas_after i i' g;
  oi_eof : in_is_eof i' = in_is_eof i;
}.

Lemma push_value_gas v i r i' : push_value v i = (r, i') -> in_gas i' = in_gas i /\ in_is_eof i' = in_is_eof i.
Proof. unfold push_value, on_stack, zoom. case_match. by intros [= <- <-]. Qed.

Lemma settle_gas (m : IM unit) i r i' :
  settle m i = (r, i') -> exists r1 i1, m i = (r1, i1) /\ in_gas i' = in_gas i1 /\ in_is_eof i' = in_is_eof i1.
Proof. unfold settle. destruct (m i) as [[[]|e|] i1]; intros [= <- <-]; by eexists _, _. Qed.

Ltac outcome_gas :=
  unfold modify in *; simplify_eq/=;
  repeat match goal with Hp : push_value _ _ = _ |- _ => apply push_value_gas in Hp as [??]; simpl in * end;
  split; unfold gas_after; simpl;
  repeat match goal with
    | Hp : in_gas _ = _ |- _ => rewrite Hp
    | Hp : in_is_eof _ = _ |- _ => rewrite Hp
    end; simpl; auto.

Lemma insert_create_gas o i r i' :
  insert_create_outcome o i = (r, i') -> outcome_inserted i i' (ir_gas (cro_result o)).
Proof.
  unfold insert_create_outcome. intros H. apply settle_gas in H as (r1 & i1 & H & Hg & He).
  enough (outcome_inserted i i1 (ir_gas (cro_result o))) as [H1 H2].
  { split; [|congruence]. unfold gas_after in *. by rewrite Hg. }
  clear Hg He r i'. unfold mbind, M_bind, modify, erase, refund, lift in H.
  repeat case_match; outcome_gas.
Qed.

Lemma insert_call_gas o i m r i' m' :
  insert_call_outcome o (i, m) = (r, (i', m')) -> outcome_inserted i i' (ir_gas (co_result o)).
Proof.
  unfold insert_call_outcome, settle. intros H.
  unfold mbind, M_bind, modify, erase, refund, lift, zoom, gets in H. cbn [fst snd] in H.
  repeat case_match; outcome_gas.
Qed.

Lemma gas_after_lt before i i' g given :
  gas_after i i' g -> 0 <= remaining g <= given -> 0 <= remaining (in_gas i) ->
  remaining (in_gas i) + given < before -> before < 2 ^ 64 ->
  0 <= remaining (in_gas i') < before.
Proof.
  intros [->| ->] Hg H0 Hle Hb; [lia|]. rewrite wrapping_add_fits by (unfold fits; lia). lia.
Qed.

(** ** Theorems *)

(** C8: calls cost gas.  When legacy code stops with a request, the gas forwarded
    with a call, stipend included, or with a creation was deducted from the
    interpreter, and more than it; a returned result reports no more gas than
    there was.  So if the callee ends with at most the gas it was given, the
    caller, once the outcome is inserted, has less gas than it started with.
    Legacy code never asks for an EOF creation. *)
Theorem calls_do_not_create_gas {H} `{HH : Host H} `{HK : Keccak} `{HC : CreateAddress}
  spec fuel memory i (h : H) a i' h' :
  fits 64 (remaining (in_gas i)) -> in_is_eof i = false ->
  run fuel spec memory (i, h) = (Ok (Some a), (i', h')) ->
  action_is_paid (remaining (in_gas i)) (remaining (in_gas i')) a /\
  (forall c o m r i2 m2, a = IA_Call c ->
     0 <= remaining (ir_gas (co_result o)) <= ci_gas_limit c ->
     insert_call_outcome o (i', m) = (r, (i2, m2)) -> remaining (in_gas i2) < remaining (in_gas i)) /\
  (forall c o r i2, a = IA_Create c ->
     0 <= remaining (ir_gas (cro_result o)) <= cr_gas_limit c ->
     insert_create_outcome o i' = (r, i2) -> remaining (in_gas i2) < remaining (in_gas i)).
Proof.
  intros Hg He Hr.
  destruct (run_is_paid _ _ _ _ _ _ _ _ Hg He Hr) as (Hp & [H0 _] & _).
  destruct Hg as [_ Hlt]. split; [done|]. split.
  - intros c o m r i2 m2 -> Ho Hi. apply insert_call_gas in Hi as [Hi _]. destruct Hp. by eapply gas_after_lt.
  - intros c o r i2 -> Ho Hi. apply insert_create_gas in Hi as [Hi _]. destruct Hp. by eapply gas_after_lt.
Qed.

#[local] Existing Instances sample_host sample_keccak sample_create_address.

(** A call with a value of 1 and as much gas as possible. *)
Definition sample_call_code : bytes :=
  [0x5F; 0x5F; 0x5F; 0x5F; 0x60; 1; 0x60; 9; 0x63; 0xFF; 0xFF; 0xFF; 0xFF; 0xF1].

Lemma calls_do_not_create_gas_witness :
  exists c i' h', run 30 SHANGHAI SharedMemory_new (sample_interpreter_on sample_call_code 100000, tt) =
    (Ok (Some (IA_Call c)), (i', h')) /\
  ci_gas_limit c = 67154 /\ action_is_paid 100000 (remaining (in_gas i')) (IA_Call c).
Proof.
  eexists _, _, _. split; [vm_compute; reflexivity|]. split; [vm_compute; reflexivity|].
  eapply (calls_do_not_create_gas SHANGHAI 30 SharedMemory_new
    (sample_interpreter_on sample_call_code 100000) tt (IA_Call _) _ tt);
    [by vm_compute|done|vm_compute; reflexivity].
Defined.
