(* ===== verification/EofInstructions.v ===== *)
(** What the instructions of EOF code do with gas, memory and staticness: the
    create and the calls of [crates/interpreter/src/instructions/contract.rs],
    which the source marks as unfinished. *)

From S2P Require Import Prelude.
From S2P Require Import Specification.
From S2P Require Import Bytes.
From S2P Require Import Eof.
From S2P Require Import Bytecode.
From S2P Require Import State.
From S2P Require Import Result.
From S2P Require Import InstructionResult.
From S2P Require Import Database.
From S2P Require Import Journal.
From S2P Require Import CallInputs.
From S2P Require Import Gas.
From S2P Require Import Stack.
From S2P Require Import SharedMemory.
From S2P Require Import Analysis.
From S2P Require Import Env.
From S2P Require Import Interpreter.
From S2P Require Import Context.
From S2P Require Import Instructions.
From S2P Require Import HostInstructions.
From S2P Require Import Opcode.
From S2P Require Import InterpreterSteps.
From S2P Require Import InterpreterSafety.
From S2P Require Import InterpreterLoop.

(** ** EOFCREATE *)

Lemma M_bind_Ok {S E A B} (m : M S E A) (f : A -> M S E B) s b s' :
  (m ≫= f) s = (Ok b, s') -> exists a s1, m s = (Ok a, s1) /\ f a s1 = (Ok b, s').
Proof. intros H. by apply M_bind_inv in H as [?|[(? & _ & ?)|[_ ?]]]. Qed.

(** A computation that leaves [instruction_result] when it succeeds. *)
Definition keeps_result {A} (m : IM A) : Prop :=
  forall i a i', m i = (Ok a, i') -> instruction_result i' = instruction_result i.

Lemma keeps_result_bind {A B} (m : IM A) (f : A -> IM B) :
  keeps_result m -> (forall a, keeps_result (f a)) -> keeps_result (m ≫= f).
Proof.
  intros Hm Hf i b i' H. apply M_bind_Ok in H as (a & i1 & H1 & H).
  rewrite (Hf _ _ _ _ H). by eapply Hm.
Qed.

Lemma keeps_result_on_stack {A} (m : SM A) : keeps_result (on_stack m).
Proof. intros i a i'. unfold on_stack, zoom. destruct (m (stack i)). by intros [= _ <-]. Qed.
Lemma keeps_result_lift {A} (m : outcome InstructionResult A) : keeps_result (lift m).
Proof. by intros i a i' [= _ <-]. Qed.
Lemma keeps_result_gas c : keeps_result (gas c).
Proof. intros i a i'. unfold gas. destruct (record_cost c (in_gas i)) as [[] g]; by intros [= _ <-]. Qed.
Lemma keeps_result_gas_or_fail o : keeps_result (gas_or_fail o).
Proof. destruct o; [apply keeps_result_gas|done]. Qed.
Lemma keeps_result_resize a n : keeps_result (resize_memory_to a n).
Proof.
  intros i u i'. unfold resize_memory_to. repeat case_match; intros; by simplify_eq.
Qed.
Lemma keeps_result_require_stack n : keeps_result (require_stack n).
Proof. intros i a i'. unfold require_stack. case_match; by intros [= _ <-]. Qed.
Lemma keeps_result_require_eof : keeps_result require_eof.
Proof. intros i a i'. unfold require_eof. case_match; by intros [= _ <-]. Qed.
Lemma keeps_result_get : keeps_result get.
Proof. by intros i a i' [= _ <-]. Qed.
Lemma keeps_result_ret {A} (a : A) : keeps_result (mret a).
Proof. by intros i b i' [= _ <-]. Qed.
Lemma keeps_result_fail {A} e : keeps_result (fail (A := A) e).
Proof. done. Qed.
Lemma keeps_result_read n : keeps_result (read_u8_at n).
Proof. by intros i a i' [= _ <-]. Qed.

Create HintDb keeps.
#[local] Hint Resolve keeps_result_on_stack keeps_result_lift keeps_result_gas keeps_result_gas_or_fail
  keeps_result_resize keeps_result_require_stack keeps_result_require_eof keeps_result_get
  keeps_result_ret keeps_result_fail keeps_result_read : keeps.
Ltac solve_keeps :=
  repeat first [solve [auto with keeps] | apply keeps_result_bind; intros | case_match].

Lemma keeps_result_resize_memory_range a n : keeps_result (resize_memory_range a n).
Proof. unfold resize_memory_range, as_usize_or_fail, as_usize_or_fail_with. solve_keeps. Qed.
Lemma keeps_result_pop4 : keeps_result pop4.
Proof. unfold pop4. solve_keeps. Qed.
#[local] Hint Resolve keeps_result_resize_memory_range keeps_result_pop4 : keeps.

(** It ends by asking for an EOF creation with all the gas there is. *)
Definition asks_for_eofcreate (m : IM unit) : Prop :=
  forall i u i', m i = (Ok u, i') ->
    exists inputs, next_action i' = IA_EOFCreate inputs /\
      ec_gas_limit inputs = remaining (in_gas i') /\ instruction_result i' = instruction_result i.

Lemma asks_bind {A} (m : IM A) (f : A -> IM unit) :
  keeps_result m -> (forall a, asks_for_eofcreate (f a)) -> asks_for_eofcreate (m ≫= f).
Proof.
  intros Hm Hf i u i' H. apply M_bind_Ok in H as (a & i1 & H1 & H).
  apply Hm in H1 as <-. by eapply Hf.
Qed.

Section eof.
Context `{HK : Keccak} `{HC : CreateAddress}.

Lemma contract_eofcreate_asks : asks_for_eofcreate contract_eofcreate.
Proof.
  unfold contract_eofcreate.
  repeat match goal with
    | |- asks_for_eofcreate (get ≫= _) => intros i u i' [= _ <-]; by eexists
    | |- asks_for_eofcreate (_ ≫= _) => apply asks_bind; [solve_keeps|intros ?]
    | |- asks_for_eofcreate (let '(_, _) := ?x in _) => destruct x
    | |- asks_for_eofcreate (if ?b then _ else _) => destruct b; [by intros ? ? ?|]
    end.
Qed.

(** EOFCREATE forwards gas it does not charge.  Whenever the instruction
    succeeds, it asks for a creation whose gas limit is all the gas that the
    interpreter still has, none of it deducted, and it does not stop the
    interpreter: [instruction_result] is as before.  When the outcome of the
    creation is inserted, the interpreter holds both all the gas it forwarded
    and the gas the creation did not use, and its [instruction_result] is not
    reset either. *)
Theorem eofcreate_forwards_uncharged_gas i u i' :
  contract_eofcreate i = (Ok u, i') ->
  exists inputs, next_action i' = IA_EOFCreate inputs /\
    ec_gas_limit inputs = remaining (in_gas i') /\ instruction_result i' = instruction_result i /\
    forall o i2, ir_result (eco_result o) = IR_ReturnContract ->
      2 * remaining (in_gas i') < 2 ^ 64 -> len (stack i') < STACK_LIMIT ->
      0 <= remaining (ir_gas (eco_result o)) <= ec_gas_limit inputs ->
      insert_eofcreate_outcome o i' = (Ok tt, i2) ->
      remaining (in_gas i2) = remaining (in_gas i') + remaining (ir_gas (eco_result o)) /\
      instruction_result i2 = instruction_result i.
Proof.
  intros H. destruct (contract_eofcreate_asks i u i' H) as (inputs & Ha & Hg & Hr).
  exists inputs. split_and!; [done..|].
  intros o i2 Hrc H2 Hst Ho Hi. unfold insert_eofcreate_outcome, settle in Hi. rewrite Hrc in Hi.
  rewrite (bool_decide_eq_true_2 (IR_ReturnContract = IR_ReturnContract)) in Hi by done.
  unfold mbind, M_bind, modify, push_value, on_stack, zoom, push, erase, refund in Hi. cbn in Hi.
  destruct (Z.eqb_spec (len (stack i')) STACK_LIMIT); [lia|]. injection Hi as <-. cbn.
  rewrite wrapping_add_fits by (unfold fits; lia). done.
Qed.

(** ** EXTCALL, EXTDELEGATECALL and EXTSTATICCALL *)

Lemma pop_unsafe_snoc l v : pop_unsafe (l ++ [v]) = (Ok v, l).
Proof.
  unfold pop_unsafe. rewrite reverse_snoc, length_app. simpl. by rewrite take_app_length' by lia.
Qed.

Lemma require_stack_ok n i : n <= len (stack i) -> require_stack n i = (Ok tt, i).
Proof. intros Hn. unfold require_stack. by bool_lia. Qed.

Lemma on_stack_eq {A} (m : SM A) i r st : m (stack i) = (r, st) -> on_stack m i = (r, set_stack st i).
Proof. unfold on_stack, zoom. by intros ->. Qed.

Lemma pop1_snoc i l v : stack i = l ++ [v] -> pop1 i = (Ok v, set_stack l i).
Proof.
  intros Hs. unfold pop1. rewrite (M_bind_ok _ _ i tt i).
  - apply on_stack_eq. rewrite Hs. apply pop_unsafe_snoc.
  - apply require_stack_ok. rewrite Hs, len_app. pose proof (len_nonneg l). unfold len at 2. simpl. lia.
Qed.

(** With an empty input, the range of the input is out of the memory. *)
Lemma extcall_input_empty i offset rest :
  stack i = rest ++ [0; offset] -> len (context_memory (shared_memory i)) < U64_MAX ->
  exists i', extcall_input i = (Panic, i').
Proof.
  intros Hs Hm. unfold extcall_input, pop2. exists (set_stack rest i).
  rewrite (M_bind_ok _ _ i (offset, 0) (set_stack rest i)).
  2: { rewrite (M_bind_ok _ _ i tt i).
       - apply on_stack_eq. unfold pop2_unsafe. rewrite Hs.
         rewrite (M_bind_ok _ _ _ offset (rest ++ [0]))
           by (change [0; offset] with ([0] ++ [offset]); rewrite app_assoc; apply pop_unsafe_snoc).
         by rewrite (M_bind_ok _ _ _ 0 rest) by apply pop_unsafe_snoc.
       - apply require_stack_ok. rewrite Hs, len_app. pose proof (len_nonneg rest). unfold len at 2. simpl. lia. }
  unfold resize_memory_and_return_range.
  rewrite (M_bind_ok _ _ _ (U64_MAX, U64_MAX) (set_stack rest i)) by reflexivity.
  unfold on_memory, zoom, mem_slice_range, slice. cbn [fst snd].
  change (shared_memory (set_stack rest i)) with (shared_memory i).
  assert ((U64_MAX <=? len (context_memory (shared_memory i))) = false) as -> by (apply Z.leb_gt; lia).
  rewrite andb_false_r. by destruct i.
Qed.

(** An EOF call with an empty input panics.  In EOF code, whatever the host,
    EXTCALL, EXTDELEGATECALL and EXTSTATICCALL with an input of length zero read
    the memory at [usize::MAX], a read that is out of bounds. *)
Theorem ext_calls_with_empty_input_panic {H} `{HH : Host H} i (h : H) offset to rest :
  in_is_eof i = true -> stack i = rest ++ [0; offset; to] ->
  len (context_memory (shared_memory i)) < U64_MAX ->
  (contract_extcall (i, h)).1 = Panic /\ (contract_extdelegatecall (i, h)).1 = Panic /\
  (contract_extstaticcall (i, h)).1 = Panic.
Proof.
  intros He Hs Hm.
  assert (Hpop : pop_address i = (Ok (address_from_word to), set_stack (rest ++ [0; offset]) i)).
  { unfold pop_address. rewrite (M_bind_ok _ _ i to (set_stack (rest ++ [0; offset]) i)); [done|].
    apply pop1_snoc. rewrite Hs. by rewrite <- app_assoc. }
  destruct (extcall_input_empty (set_stack (rest ++ [0; offset]) i) offset rest) as [i' Hi']; [done..|].
  assert (Hbind : forall f : Address -> bytes -> M (Interpreter * H) InstructionResult unit,
    ((_ ← on_int require_eof; t ← on_int pop_address; b ← on_int extcall_input; f t b) (i, h)).1 = Panic).
  { intros f. rewrite (M_bind_ok (on_int require_eof) _ (i, h) tt (i, h)).
    - erewrite (M_bind_ok (on_int pop_address)) by (unfold on_int, zoom; cbn [fst snd]; by rewrite Hpop).
      erewrite M_bind_panic; [done|]. unfold on_int, zoom. cbn [fst snd]. by rewrite Hi'.
    - unfold on_int, zoom, require_eof. cbn [fst snd]. by rewrite He. }
  split_and!; apply Hbind.
Qed.

(** What EXTSTATICCALL asks for. *)
Definition asks_for_call {S} (p : S -> Interpreter) (P : Interpreter -> CallInputs -> Prop)
  (m : M S InstructionResult unit) : Prop :=
  forall s u s', fits 64 (remaining (in_gas (p s))) -> m s = (Ok u, s') ->
    exists c, next_action (p s') = IA_Call c /\ P (p s) c.

Lemma asks_call_bind {S A} (p : S -> Interpreter) P (m : M S InstructionResult A)
  (f : A -> M S InstructionResult unit) :
  (forall i i' c, base_step i i' -> P i' c -> P i c) ->
  obeys p base_step m -> (forall a, asks_for_call p P (f a)) -> asks_for_call p P (m ≫= f).
Proof.
  intros HP Hm Hf s u s' Hg H. apply M_bind_Ok in H as (a & s1 & H1 & H).
  apply Hm in H1 as [Hb _]; [|done]. apply Hf in H as (c & Hc & Hp); [|by apply (bs_gas _ _ Hb)].
  exists c. split; [done|]. by eapply HP.
Qed.

(** EXTSTATICCALL is not static.  When it succeeds, the call it asks for is
    an ordinary CALL, static only if the caller already is; and an EXTCALL of a
    static frame is not refused, whatever its value. *)
Theorem ext_static_call_is_not_static {H} `{HH : Host H} i (h : H) u s' :
  fits 64 (remaining (in_gas i)) ->
  (contract_extstaticcall (i, h) = (Ok u, s') \/ contract_extcall (i, h) = (Ok u, s')) ->
  exists c, next_action s'.1 = IA_Call c /\ scheme c = CS_Call /\ is_static c = in_is_static i.
Proof.
  set (P := fun i c => scheme c = CS_Call /\ is_static c = in_is_static i).
  assert (HP : forall i i' c, base_step i i' -> P i' c -> P i c).
  { intros j j' c Hb [? ?]. split; [done|]. by rewrite <- (bs_static _ _ Hb). }
  assert (Hemit : forall input g to v, asks_for_call (fun s : Interpreter * H => s.1) P
    (on_int (i ← get; emit_call (ext_call_inputs input g to i v CS_Call)))).
  { intros input g to v s u' s1 _ [= _ <-]. by eexists. }
  assert (Hstat : asks_for_call (fun s : Interpreter * H => s.1) P contract_extstaticcall).
  { unfold contract_extstaticcall. do 4 (apply asks_call_bind; [exact HP|solve_obeys_calls|intros ?]). auto. }
  assert (Hcall : asks_for_call (fun s : Interpreter * H => s.1) P contract_extcall).
  { unfold contract_extcall. do 5 (apply asks_call_bind; [exact HP|solve_obeys_calls|intros ?]). auto. }
  intros Hg [Hr|Hr]; [exact (Hstat (i, h) u s' Hg Hr)|exact (Hcall (i, h) u s' Hg Hr)].
Qed.
End eof.

(** ** Witnesses *)

#[local] Existing Instances sample_host sample_keccak sample_create_address.

(** An interpreter of EOF code about to execute at the start of [code], whose
    container holds one other container. *)
Definition sample_eof_interpreter (code : bytes) (st : list Z) : Interpreter :=
  let e := EofBody_into_eof (mkEofBody [mkTypesSection 0 128 4] [code] [sample_raw] [] true) in
  mkInterpreter 0 (Gas_new 100000) (Contract_new [] (BytecodeEof e) None 1 2 []) IR_Continue
    code true false EMPTY_SHARED_MEMORY st FunctionStack_new [] false IA_None.

Lemma eofcreate_forwards_uncharged_gas_witness :
  let i := sample_eof_interpreter [0; 0] [0; 0; 0; 0] in
  (contract_eofcreate i).1 = Ok tt /\
  exists inputs, next_action (contract_eofcreate i).2 = IA_EOFCreate inputs /\
    ec_gas_limit inputs = 67994.
Proof.
  intros i. split; [vm_compute; reflexivity|].
  destruct (eofcreate_forwards_uncharged_gas i tt (contract_eofcreate i).2) as (inputs & Ha & Hg & _).
  - vm_compute. reflexivity.
  - exists inputs. split; [exact Ha|]. rewrite Hg. vm_compute. reflexivity.
Defined.

Lemma ext_calls_with_empty_input_panic_witness :
  (contract_extcall (sample_eof_interpreter [] [5; 0; 7; 9], tt)).1 = Panic.
Proof.
  apply (ext_calls_with_empty_input_panic (sample_eof_interpreter [] [5; 0; 7; 9]) tt 7 9 [5]);
    [reflexivity|reflexivity|vm_compute; reflexivity].
Defined.

Lemma ext_static_call_is_not_static_witness :
  exists c, next_action (contract_extstaticcall (sample_eof_interpreter [] [1; 0; 9], tt)).2.1 = IA_Call c /\
    is_static c = false.
Proof.
  destruct (ext_static_call_is_not_static (sample_eof_interpreter [] [1; 0; 9]) tt tt
    (contract_extstaticcall (sample_eof_interpreter [] [1; 0; 9], tt)).2) as (c & Hc & _ & Hs).
  - by vm_compute.
  - left. vm_compute. reflexivity.
  - exists c. split; [exact Hc|exact Hs].
Defined.
