(* ===== verification/Evm.v ===== *)
(** The execution of a transaction: [crates/revm/src/evm.rs], the host that the
    context is to the interpreter ([crates/revm/src/context.rs]), and the
    handlers that run and return frames
    ([crates/revm/src/handler/mainnet/execution.rs]).

    The context is the environment, the journaled state and the database, and
    the error that a host method leaves behind. *)

From S2P Require Import Prelude.
From S2P Require Import Specification.
From S2P Require Import Bytes.
From S2P Require Import Eof.
From S2P Require Import Bytecode.
From S2P Require Import State.
From S2P Require Import Result.
From S2P Require Import InstructionResult.
From S2P Require Import Database.
From S2P Require Import Journal.
From S2P Require Import CallInputs.
From S2P Require Import NativeTokens.
From S2P Require Import Gas.
From S2P Require Import Stack.
From S2P Require Import SharedMemory.
From S2P Require Import Analysis.
From S2P Require Import Env.
From S2P Require Import Interpreter.
From S2P Require Import Context.
From S2P Require Import Handler.
From S2P Require Import Instructions.
From S2P Require Import HostInstructions.
From S2P Require Import Opcode.

Section evm.
Context {DB DbErr : Type} `{HDB : Database DB DbErr} `{HK : Keccak} `{HC : CreateAddress}.
Abbreviation CtxM := (M (JournaledState * DB) (EVMError DbErr)).
Abbreviation EvmState' := ((JournaledState * DB) * option (EVMError DbErr))%type.
Abbreviation EvmM := (M EvmState' (EVMError DbErr)).

(** ** The context as a host *)

Definition EvmContext : Type := (Env * EvmState')%type.
Abbreviation CM := (M EvmContext (EVMError DbErr)).
Abbreviation HostM := (M EvmContext Empty_set).

(** [.map_err(|e| self.evm.error = Err(e)).ok()]. *)
Definition host_try {A} (m : CtxM A) : HostM (option A) := fun c =>
  match m c.2.1 with
  | (Ok a, s) => (Ok (Some a), (c.1, (s, c.2.2)))
  | (Err e, s) => (Ok None, (c.1, (s, Some e)))
  | (Panic, s) => (Panic, (c.1, (s, c.2.2)))
  end.
(** A method that has no error. *)
Definition host_do {A} (m : M JournaledState Empty_set A) : HostM A := fun c =>
  let '(r, j) := m c.2.1.1 in (r, (c.1, ((j, c.2.1.2), c.2.2))).
Definition host_bool (m : CtxM bool) : HostM bool := fun c =>
  match m c.2.1 with
  | (Ok b, s) => (Ok b, (c.1, (s, c.2.2)))
  | (_, s) => (Panic, (c.1, (s, c.2.2)))
  end.

Definition ctx_code (address : Address) : CtxM (Bytecode * bool) :=
  '(acc, is_cold) ← load_code address;
  c ← lift (unwrap (code (info acc)));
  mret (c, is_cold).
Definition ctx_balance (token_id : Z) (address : Address) : CtxM (Z * bool) :=
  '(acc, is_cold) ← load_account address;
  mret (get_balance (info acc) token_id, is_cold).

Definition context_block_hash (number : Z) : HostM (option Z) :=
  e ← gets fst;
  let block_number := as_usize_saturated (block_number (block e)) in
  let requested_number := as_usize_saturated number in
  match checked_sub block_number requested_number with
  | None => mret (Some 0)
  | Some diff =>
      if diff =? 0 then mret (Some 0)
      else if diff <=? BLOCK_HASH_HISTORY then host_try (ctx_block_hash number)
      else mret (Some 0)
  end.

Definition context_mint (minter recipient : Address) (sub_id amount : Z) : HostM bool :=
  if amount =? 0 then mret false else host_bool (Journal.mint minter recipient sub_id amount).

#[export] Instance context_host : Host EvmContext := {|
  h_env := fst;
  h_load_account a := host_try (load_account_exist a);
  h_block_hash := context_block_hash;
  h_code a := host_try (ctx_code a);
  h_code_hash a := host_try (ctx_code_hash a);
  h_sload a k := host_try (sload a k);
  h_sstore a k v := host_try (sstore a k v);
  h_tload a k := host_do (tload a k);
  h_tstore a k v := host_do (tstore a k v);
  h_log l := host_do (Journal.log l);
  h_selfdestruct a t := host_try (selfdestruct a t);
  h_balance t a := host_try (ctx_balance t a);
  h_base_balance a := host_try (base_balance a);
  h_burn b i h v := host_bool (Journal.burn b i h v);
  h_mint := context_mint;
|}.

(** ** Executing a frame *)

Definition on_evm {A} (m : EvmM A) : CM A := zoom snd (fun s c => (c.1, s)) m.
Definition on_inner {A} (m : CtxM A) : CM A := on_evm (on_ctx m).

(** The loop of a frame makes at most one step more than it has gas. *)
Definition frame_fuel (i : Interpreter) : nat := S (Z.to_nat (remaining (in_gas i))).

(** [execute_frame]: the action, the frame and the memory it leaves.  Running
    out of the fuel is not reachable, and counts as a panic. *)
Definition execute_frame (spec : SpecId) (frame : Frame) (shared_memory : SharedMemory)
  : CM (InterpreterAction * Frame * SharedMemory) := fun c =>
  let i := frame_interpreter frame in
  match run (frame_fuel i) spec shared_memory (i, c) with
  | (Ok (Some next_action), (i, c)) =>
      let '(memory, i) := take_memory i in
      (Ok (next_action, set_frame_interpreter i frame, memory), c)
  | (_, (_, c)) => (Panic, c)
  end.

(** The handlers that return a frame and that insert an outcome. *)
Definition frame_return (spec : SpecId) (frame : Frame) (result : InterpreterResult) : CM FrameResult :=
  '(env, _) ← get;
  let cp := fd_checkpoint (frame_data frame) in
  match frame with
  | Frame_Call range _ =>
      _ ← on_inner (call_return result cp); mret (FR_Call (mkCallOutcome result range))
  | Frame_Create address _ =>
      result ← on_inner (create_return spec env result address cp);
      mret (FR_Create (mkCreateOutcome result (Some address)))
  | Frame_EOFCreate address range _ =>
      _ ← on_inner (eofcreate_return result address cp);
      mret (FR_EOFCreate (mkEOFCreateOutcome result address range))
  end.

(** An insertion has no error of its own. *)
Definition pure_outcome {E A S} (m : outcome Empty_set A * S) : outcome E (A * S) :=
  match m with (Ok a, s) => Ok (a, s) | (Err e, _) => match e with end | (Panic, _) => Panic end.

Definition insert_outcome (result : FrameResult) (frame : Frame) (shared_memory : SharedMemory)
  : CM (Frame * SharedMemory) :=
  _ ← on_evm take_error;
  let i := frame_interpreter frame in
  match result with
  | FR_Call o =>
      '(_, (i, memory)) ← lift (pure_outcome (insert_call_outcome o (i, shared_memory)));
      mret (set_frame_interpreter i frame, memory)
  | FR_Create o =>
      '(_, i) ← lift (pure_outcome (insert_create_outcome o i));
      mret (set_frame_interpreter i frame, shared_memory)
  | FR_EOFCreate o =>
      '(_, i) ← lift (pure_outcome (insert_eofcreate_outcome o i));
      mret (set_frame_interpreter i frame, shared_memory)
  end.

(** ** The loop over the call stack *)

(** The call stack, the running frame first, and the shared memory. *)
Record LoopState : Type := mkLoop { call_stack : list Frame; loop_memory : SharedMemory }.

Context (ps : ContextPrecompiles (DB := DB)).

(** What an action leads to: a frame to enter, or a result for the frame below;
    a return takes the running frame off the stack. *)
Definition handle_action (spec : SpecId) (next_action : InterpreterAction) (top : Frame)
  (rest : list Frame) (memory : SharedMemory) : CM (FrameOrResult * LoopState) :=
  '(env, _) ← get;
  match next_action with
  | IA_Call inputs =>
      r ← on_inner (make_call_frame ps env inputs); mret (r, mkLoop (top :: rest) memory)
  | IA_Create inputs =>
      r ← on_inner (make_create_frame spec inputs); mret (r, mkLoop (top :: rest) memory)
  | IA_EOFCreate inputs =>
      r ← on_inner (make_eofcreate_frame spec inputs); mret (r, mkLoop (top :: rest) memory)
  | IA_Return result =>
      r ← frame_return spec top result; mret (FOR_Result r, mkLoop rest (free_context memory))
  | IA_None => lift Panic
  end.

Definition handle_result (fr : FrameOrResult) (s : LoopState) : CM (FrameResult + LoopState) :=
  match fr with
  | FOR_Frame frame => mret (inr (mkLoop (frame :: call_stack s) (new_context (loop_memory s))))
  | FOR_Result result =>
      match call_stack s with
      | [] => mret (inl result)
      | top :: rest =>
          '(top, memory) ← insert_outcome result top (loop_memory s);
          mret (inr (mkLoop (top :: rest) memory))
      end
  end.

(** One iteration of the loop: the final result, or the next state. *)
Definition loop_step (spec : SpecId) (s : LoopState) : CM (FrameResult + LoopState) :=
  match call_stack s with
  | [] => lift Panic
  | top :: rest =>
      '(next_action, top, memory) ← execute_frame spec top (loop_memory s);
      _ ← on_evm take_error;
      '(fr, s) ← handle_action spec next_action top rest memory;
      handle_result fr s
  end.

(** The [loop], one unit of fuel an iteration; [None] when the fuel runs out. *)
Fixpoint frames_loop (fuel : nat) (spec : SpecId) (s : LoopState) : CM (option FrameResult) :=
  match fuel with
  | O => mret None
  | S fuel =>
      r ← loop_step spec s;
      match r with
      | inl result => mret (Some result)
      | inr s => frames_loop fuel spec s
      end
  end.

Definition run_the_loop (fuel : nat) (spec : SpecId) (first_frame : Frame) : CM (option FrameResult) :=
  frames_loop fuel spec (mkLoop [first_frame] (new_context SharedMemory_new)).

End evm.

(** ** Transactions *)

Section transact.
Context {DB DbErr : Type} `{HDB : Database DB DbErr} `{HK : Keccak} `{HC : CreateAddress}.
Abbreviation CM := (M (EvmContext (DB := DB) (DbErr := DbErr)) (EVMError DbErr)).

(** The precompiles of a hard fork, to which [load_precompiles] adds the native
    tokens. *)
Context (precompiles_of : SpecId -> ContextPrecompiles (DB := DB)).
Definition load_precompiles (spec : SpecId) : ContextPrecompiles :=
  with_native_tokens (DbErr := DbErr) (precompiles_of spec).

Definition preverify_transaction_inner (spec : SpecId) : CM Z :=
  '(env, _) ← get;
  _ ← lift (validate_env spec env);
  initial_gas_spend ← lift (initial_tx_gas spec env);
  _ ← on_inner (tx_against_state spec env);
  mret initial_gas_spend.

(** The first frame, or the result when there is none to run. *)
Definition first_frame (spec : SpecId) (gas_limit : Z) : CM FrameOrResult :=
  '(env, _) ← get;
  match transact_to (tx env) with
  | TT_Call _ =>
      inputs ← lift (unwrap (CallInputs_new (tx env) gas_limit));
      on_inner (make_call_frame (load_precompiles spec) env inputs)
  | TT_Create =>
      inputs ← lift (unwrap (CreateInputs_new (tx env) gas_limit));
      on_inner (make_create_frame spec inputs)
  end.

Definition run_first_frame (fuel : nat) (spec : SpecId) (fr : FrameOrResult) : CM (option FrameResult) :=
  match fr with
  | FOR_Frame f => run_the_loop (load_precompiles spec) fuel spec f
  | FOR_Result r => mret (Some r)
  end.

(** The gas of a result, settled with the caller and the beneficiary. *)
Definition finish_transaction (spec : SpecId) (result : FrameResult) : CM ResultAndState :=
  '(env, _) ← get;
  let result := last_frame_return spec env result in
  _ ← on_inner (reimburse_caller env (frame_gas result));
  _ ← on_inner (reward_beneficiary spec env (frame_gas result));
  on_evm (output result).

Definition transact_preverified_inner (fuel : nat) (spec : SpecId) (initial_gas_spend : Z)
  : CM (option ResultAndState) :=
  '(env, _) ← get;
  _ ← on_inner (load_accounts spec env);
  _ ← on_inner (set_precompiles (load_precompiles spec));
  _ ← on_inner (deduct_caller spec env);
  let gas_limit := wrapping_sub 64 (tx_gas_limit (tx env)) initial_gas_spend in
  fr ← first_frame spec gas_limit;
  result ← run_first_frame fuel spec fr;
  match result with
  | None => mret None
  | Some result => r ← finish_transaction spec result; mret (Some r)
  end.

(** [clear] after the computation, whether it fails or not. *)
Definition then_clear {A} (m : CM A) : CM A := fun c =>
  match m c with
  | (Panic, c) => (Panic, c)
  | (r, c) => (r, (on_evm clear_context c).2)
  end.
(** [inspect_err(|_| self.clear())?]. *)
Definition clear_on_error {A} (m : CM A) : CM A := fun c =>
  match m c with
  | (Err e, c) => (Err e, (on_evm clear_context c).2)
  | r => r
  end.

Definition preverify_transaction (spec : SpecId) : CM unit :=
  then_clear (_ ← preverify_transaction_inner spec; mret tt).

Definition transact_preverified (fuel : nat) (spec : SpecId) : CM (option ResultAndState) :=
  initial_gas_spend ← clear_on_error ('(env, _) ← get; lift (initial_tx_gas spec env));
  then_clear (transact_preverified_inner fuel spec initial_gas_spend).

Definition transact (fuel : nat) (spec : SpecId) : CM (option ResultAndState) :=
  initial_gas_spend ← clear_on_error (preverify_transaction_inner spec);
  then_clear (transact_preverified_inner fuel spec initial_gas_spend).

(** [transact_commit], over the [commit] of the database. *)
Definition transact_commit (commit : EvmState -> DB -> DB) (fuel : nat) (spec : SpecId)
  : CM (option ExecutionResult) :=
  r ← transact fuel spec;
  match r with
  | None => mret None
  | Some r =>
      _ ← modify (fun c => (c.1, ((c.2.1.1, commit (rs_state r) c.2.1.2), c.2.2)));
      mret (Some (rs_result r))
  end.
End transact.
