(* ===== verification/ContextSteps.v ===== *)
(** What the operations of the context keep: the depth of the calls, the spec,
    and that no EOF code is around; proved for every operation of the journal,
    of the context and of the native-token precompile. *)

From S2P Require Import Prelude.
From S2P Require Import Specification.
From S2P Require Import Bytes.
From S2P Require Import Eof.
From S2P Require Import Bytecode.
From S2P Require Import State.
From S2P Require Import Result.
From S2P Require Import InstructionResult.
From S2P Require Import Database.
From S2P Require Import Journal.
From S2P Require Import CallInputs.
From S2P Require Import NativeTokens.
From S2P Require Import Gas.
From S2P Require Import Analysis.
From S2P Require Import Env.
From S2P Require Import Interpreter.
From S2P Require Import Context.
From S2P Require Import Handler.

(** ** Legacy worlds *)

Definition legacy_code (c : option Bytecode) : Prop := forall b, c = Some b -> is_eof b = false.
Definition legacy_account (x : Account) : Prop := legacy_code (code (info x)).
Definition legacy_accounts (m : gmap Address Account) : Prop := map_Forall (fun _ => legacy_account) m.

(** A database that serves no EOF code, and goes on so. *)
Class DatabaseLegacy (DB DbErr : Type) `{Database DB DbErr} : Type := {
  db_legacy : DB -> Prop;
  basic_legacy a d r d' : db_legacy d -> basic a d = (r, d') ->
    db_legacy d' /\ (forall i, r = Ok (Some i) -> legacy_code (code i));
  code_by_hash_legacy h d r d' : db_legacy d -> code_by_hash h d = (r, d') ->
    db_legacy d' /\ (forall c, r = Ok c -> is_eof c = false);
  db_storage_legacy a k d r d' : db_legacy d -> db_storage a k d = (r, d') -> db_legacy d';
  block_hash_legacy n d r d' : db_legacy d -> block_hash n d = (r, d') -> db_legacy d';
}.

(** ** The journaled state alone *)

(** [j'] has the depth and the spec of [j], and no EOF code if [j] has none. *)
Record jcalm (j j' : JournaledState) : Prop := {
  jc_depth : depth j' = depth j;
  jc_spec : spec j' = spec j;
  jc_legacy : legacy_accounts (accounts (state j)) -> legacy_accounts (accounts (state j'));
}.
#[export] Instance jcalm_preorder : PreOrder jcalm.
Proof. split; [done|]. intros j k l [] []. split; try congruence. auto. Qed.

Definition jcalms {E A} (m : M JournaledState E A) : Prop := forall j r j', m j = (r, j') -> jcalm j j'.

Create HintDb calm.

Section journal.
Context {E : Type}.

Lemma jcalms_bind {A B} (m : M JournaledState E A) (f : A -> M JournaledState E B) :
  jcalms m -> (forall a, jcalms (f a)) -> jcalms (m ≫= f).
Proof.
  intros Hm Hf j r j' H. apply M_bind_inv in H as [(a & s & H1 & H)|[(e & H & _)|[H _]]]; [|by eapply Hm..].
  etrans; [by eapply Hm|by eapply Hf].
Qed.
Lemma jcalms_ret {A} (a : A) : jcalms (E := E) (mret a).
Proof. by intros j r j' [= _ <-]. Qed.
Lemma jcalms_fail {A} (e : E) : jcalms (fail (A := A) e).
Proof. by intros j r j' [= _ <-]. Qed.
Lemma jcalms_lift {A} (o : outcome E A) : jcalms (lift o).
Proof. by intros j r j' [= _ <-]. Qed.
Lemma jcalms_gets {A} (f : JournaledState -> A) : jcalms (E := E) (gets f).
Proof. by intros j r j' [= _ <-]. Qed.
Lemma jcalms_account a : jcalms (E := E) (account a).
Proof. by intros j r j' [= _ <-]. Qed.
Lemma jcalms_modify (f : JournaledState -> JournaledState) :
  (forall j, jcalm j (f j)) -> jcalms (E := E) (modify f).
Proof. by intros Hf j r j' [= _ <-]. Qed.
Lemma jcalms_push e : jcalms (E := E) (push_entry e).
Proof. intros j r j'. unfold push_entry. by case_match; intros [= _ <-]. Qed.

(** An update of an account that keeps its code, or sets a legacy one. *)
Lemma jcalm_alter a (f : Account -> Account) j :
  (forall x, legacy_account x -> legacy_account (f x)) -> jcalm j (set_state (set_accounts (alter f a)) j).
Proof.
  intros Hf. split; [done..|]. intros Hl b x. simpl. rewrite lookup_alter_Some.
  intros [(-> & y & Hy & ->)|[_ Hx]]; [|by eapply Hl]. by apply Hf, (Hl b).
Qed.
Lemma jcalms_update a f :
  (forall x, legacy_account x -> legacy_account (f x)) -> jcalms (E := E) (update_account a f).
Proof.
  intros Hf. apply jcalms_bind; [apply jcalms_account|]. intros _. apply jcalms_modify. intros j.
  by apply jcalm_alter.
Qed.
End journal.

Lemma legacy_code_None : legacy_code None.
Proof. done. Qed.
Lemma legacy_code_Some c : is_eof c = false -> legacy_code (Some c).
Proof. by intros Hc ? [= <-]. Qed.
#[export] Hint Resolve legacy_code_None legacy_code_Some : calm.
#[export] Hint Resolve jcalms_ret jcalms_fail jcalms_lift jcalms_gets jcalms_account jcalms_push : calm.
#[export] Hint Extern 2 (jcalms (update_account _ _)) =>
  apply jcalms_update; intros; first [assumption | done | (unfold legacy_account; simpl; auto with calm)] : calm.

Ltac solve_jcalm :=
  repeat first
    [ solve [auto with calm]
    | apply jcalms_bind; [|intros ?]
    | case_match ].

Section journal_ops.
Context {E : Type}.

Lemma jcalms_touch_account a : jcalms (E := E) (touch_account a).
Proof. unfold touch_account. solve_jcalm. Qed.
Lemma jcalms_touch a : jcalms (E := E) (touch a).
Proof. intros j r j'. unfold touch. case_match; [apply jcalms_touch_account|by intros [= _ <-]]. Qed.
Lemma jcalms_set_code `{Keccak} a c : is_eof c = false -> jcalms (E := E) (set_code a c).
Proof.
  intros Hc. unfold set_code. apply jcalms_bind; [apply jcalms_account|intros _].
  apply jcalms_bind; [apply jcalms_touch_account|intros _]. solve_jcalm.
Qed.
Lemma jcalms_inc_nonce a : jcalms (E := E) (inc_nonce a).
Proof.
  unfold inc_nonce. apply jcalms_bind; [apply jcalms_account|intros x]. case_match; [solve_jcalm|].
  apply jcalms_bind; [apply jcalms_touch_account|intros _]. solve_jcalm.
Qed.
Lemma jcalms_transfer_loop from to ts : jcalms (E := E) (transfer_loop from to ts).
Proof.
  induction ts as [|t ts IH]; cbn [transfer_loop]; [apply jcalms_ret|].
  apply jcalms_bind; [apply jcalms_touch_account|intros _]. apply jcalms_bind; [apply jcalms_account|intros x].
  case_match; [|solve_jcalm]. apply jcalms_bind; [solve_jcalm|intros _].
  apply jcalms_bind; [apply jcalms_touch_account|intros _]. solve_jcalm.
Qed.
Lemma jcalms_tload a k : jcalms (E := E) (tload a k).
Proof. apply jcalms_gets. Qed.
Lemma jcalms_tstore a k v : jcalms (E := E) (tstore a k v).
Proof.
  intros j r j'. unfold tstore. generalize (transient_storage j !! (a, k)). intros old.
  set (p := if v =? 0 then _ else _). destruct p as [[had|] ts]; [|by intros [= _ <-]].
  intros Hp. apply jcalms_push in Hp as [? ? Hl]. by split.
Qed.
Lemma jcalms_log l : jcalms (E := E) (Journal.log l).
Proof. by apply jcalms_modify. Qed.
Lemma jcalms_token_ids f : jcalms (E := E) (modify (set_state (set_token_ids f))).
Proof. by apply jcalms_modify. Qed.
End journal_ops.
#[export] Hint Resolve jcalms_touch_account jcalms_touch jcalms_inc_nonce jcalms_transfer_loop jcalms_tload
  jcalms_tstore jcalms_log jcalms_token_ids : calm.

(** ** With a database *)

Section calm.
Context {DB DbErr : Type} `{HDB : Database DB DbErr} `{HL : !DatabaseLegacy DB DbErr}.

Definition legacy_world (s : JournaledState * DB) : Prop :=
  legacy_accounts (accounts (state s.1)) /\ db_legacy s.2.

(** From a legacy world, a computation keeps depth and spec, ends in a legacy
    world, and answers in [P]. *)
Record calm (s s' : JournaledState * DB) : Prop := {
  cm_depth : depth s'.1 = depth s.1;
  cm_spec : spec s'.1 = spec s.1;
  cm_legacy : legacy_world s';
}.
Lemma calm_refl s : legacy_world s -> calm s s.
Proof. done. Qed.
Lemma calm_trans s t u : calm s t -> calm t u -> calm s u.
Proof. intros [] []. split; [congruence..|done]. Qed.

Abbreviation EM E := (M (JournaledState * DB) E).
Definition calms {E A} (P : A -> Prop) (m : EM E A) : Prop :=
  forall s r s', legacy_world s -> m s = (r, s') -> calm s s' /\ (forall a, r = Ok a -> P a).
Abbreviation calm_m := (calms (fun _ => True)).

Lemma calms_bind_with {E A B} (P : A -> Prop) (Q : B -> Prop) (m : EM E A) (f : A -> EM E B) :
  calms P m -> (forall a, P a -> calms Q (f a)) -> calms Q (m ≫= f).
Proof.
  intros Hm Hf s r s' Hl H. apply M_bind_inv in H as [(a & s1 & H1 & H)|[(e & H & ->)|[H ->]]].
  - apply Hm in H1 as [Hc HP]; [|done]. apply Hf in H as [Hc' HQ]; [|by apply HP|by apply Hc].
    split; [by eapply calm_trans|done].
  - by apply Hm in H as [? _].
  - by apply Hm in H as [? _].
Qed.
Lemma calms_bind {E A B} (Q : B -> Prop) (m : EM E A) (f : A -> EM E B) :
  calm_m m -> (forall a, calms Q (f a)) -> calms Q (m ≫= f).
Proof. intros Hm Hf. by apply (calms_bind_with (fun _ => True)). Qed.
Lemma calms_weaken {E A} (P Q : A -> Prop) (m : EM E A) : (forall a, P a -> Q a) -> calms P m -> calms Q m.
Proof. intros HPQ Hm s r s' Hl H. apply Hm in H as [? HP]; [|done]. split; [done|]. auto. Qed.
Lemma calms_ret {E A} (P : A -> Prop) (a : A) : P a -> calms (E := E) P (mret a).
Proof. intros Ha s r s' Hl [= <- <-]. split; [done|]. by intros ? [= <-]. Qed.
Lemma calms_fail {E A} (P : A -> Prop) e : calms (E := E) P (fail e).
Proof. by intros s r s' Hl [= <- <-]. Qed.
Lemma calms_lift {E A} (P : A -> Prop) (o : outcome E A) : (forall a, o = Ok a -> P a) -> calms P (lift o).
Proof. by intros Ho s r s' Hl [= <- <-]. Qed.
Lemma calms_lift_any {E A} (o : outcome E A) : calm_m (lift o).
Proof. by apply calms_lift. Qed.
Lemma calms_gets {E A} (f : JournaledState * DB -> A) : calms (E := E) (fun _ => True) (gets f).
Proof. by intros s r s' Hl [= <- <-]. Qed.
Lemma calms_attempt {E F A} (m : EM E A) : calm_m m -> calm_m (attempt m : EM F (E + A)).
Proof.
  intros Hm s r s' Hl H. unfold attempt in H. destruct (m s) as [r1 s1] eqn:H1.
  apply Hm in H1 as [? _]; [|done]. split; [|done]. destruct r1; injection H as _ <-; done.
Qed.
Lemma calms_on_js {A} (m : M JournaledState (EVMError DbErr) A) : jcalms m -> calm_m (on_js (DB := DB) m).
Proof.
  intros Hm [j d] r s' [Hj Hd] H. unfold on_js, zoom in H. simpl in H. destruct (m j) as [r1 j1] eqn:H1.
  simplify_eq. apply Hm in H1 as [? ? Hl]. split; [|done]. split; [done..|]. split; [by apply Hl|done].
Qed.
Lemma calms_on_db {A} (P : A -> Prop) (m : M DB DbErr A) :
  (forall d r d', db_legacy d -> m d = (r, d') -> db_legacy d' /\ (forall a, r = Ok a -> P a)) ->
  calms P (on_db m).
Proof.
  intros Hm [j d] r s' [Hj Hd] H. unfold on_db, with_err, zoom in H. simpl in H.
  destruct (m d) as [r1 d1] eqn:H1. apply Hm in H1 as [? HP]; [|done].
  destruct r1; simplify_eq; (split; [by split|]); intros ? [= <-]; auto.
Qed.

(** Reading an account answers the one that is there. *)
Lemma calms_account a : calms legacy_account (on_js (DB := DB) (DbErr := DbErr) (account a)).
Proof.
  intros [j d] r s' [Hj Hd] [= <- <-]. split; [done|]. intros x Hx.
  destruct (accounts (state j) !! a) eqn:He; simplify_eq/=. by eapply Hj.
Qed.
End calm.
Abbreviation calm_m := (calms (fun _ => True)).
#[export] Hint Resolve calms_lift_any calms_gets calms_fail calms_account : calm.
#[export] Hint Extern 1 (calms _ (mret _)) => apply calms_ret; done : calm.
#[export] Hint Extern 2 (calms _ (on_js _)) => apply calms_on_js; solve [solve_jcalm] : calm.
#[export] Hint Extern 2 (calms _ (attempt _)) => apply calms_attempt : calm.

Ltac solve_calm :=
  repeat first
    [ solve [auto with calm]
    | apply calms_bind; [|intros ?]
    | case_match ].

(** ** The operations of the journal *)

Section operations.
Context {DB DbErr : Type} `{HDB : Database DB DbErr} `{HL : !DatabaseLegacy DB DbErr}.
Abbreviation CtxM := (M (JournaledState * DB) (EVMError DbErr)).

Lemma calms_token_ids : calm_m (load_native_token_ids (DB := DB)).
Proof.
  unfold load_native_token_ids. apply calms_bind; [solve_calm|intros j]. case_match; [|solve_calm].
  apply calms_bind; [|intros ids; solve_calm]. apply calms_on_db. by intros d r d' Hd [= _ <-].
Qed.

Lemma legacy_insert a x m : legacy_accounts m -> legacy_account x -> legacy_accounts (<[a := x]> m).
Proof. intros. by apply map_Forall_insert_2. Qed.

Lemma calms_insert_account a x :
  legacy_account x -> calm_m (on_js (DB := DB) (DbErr := DbErr) (modify (set_state (set_accounts (<[a := x]>))))).
Proof.
  intros Hx. apply calms_on_js, jcalms_modify. intros j. split; [done..|]. intros Hl. by apply legacy_insert.
Qed.

Lemma calms_basic a :
  calms (fun o => forall i, o = Some i -> legacy_code (code i)) (on_db (DB := DB) (basic a)).
Proof.
  apply calms_on_db. intros d r d' Hd H. apply basic_legacy in H as [? Hi]; [|done]. split; [done|].
  intros o -> i ->. auto.
Qed.

Lemma legacy_from_basic (o : option AccountInfo) :
  (forall i, o = Some i -> legacy_code (code i)) ->
  legacy_account (match o with Some i => Account_from_info i | None => Account_new_not_existing end).
Proof. intros Ho. destruct o; [by apply Ho|]. by intros ? [= <-]. Qed.

Lemma calms_load_account a : calms (fun r => legacy_account r.1) (load_account (DB := DB) a).
Proof.
  intros s r s' Hl H. unfold load_account in H. rewrite (M_bind_ok (gets fst) _ s s.1 s eq_refl) in H.
  destruct (accounts (state s.1) !! a) as [x|] eqn:Hx.
  - injection H as <- <-. split; [done|]. intros ? [= <-]. by apply (proj1 Hl a).
  - revert H. apply (calms_bind_with _ _ _ _ (calms_basic a)); [|done]. intros o Ho.
    apply calms_bind; [solve_calm|intros _]. apply calms_bind; [by apply calms_insert_account, legacy_from_basic|].
    intros _. apply calms_ret. by apply legacy_from_basic.
Qed.

Lemma calms_load_account_any a : calm_m (load_account (DB := DB) a).
Proof. eapply calms_weaken, calms_load_account. done. Qed.

Lemma calms_load_account_exist a : calm_m (load_account_exist (DB := DB) a).
Proof.
  unfold load_account_exist. apply calms_bind; [solve_calm|intros sp].
  apply calms_bind; [apply calms_load_account_any|intros [x is_cold]; solve_calm].
Qed.

Lemma calms_update_code a c :
  is_eof c = false -> calm_m (on_js (DB := DB) (DbErr := DbErr) (update_account a (set_info (set_info_code (Some c))))).
Proof. intros Hc. apply calms_on_js, jcalms_update. intros x _. by apply legacy_code_Some. Qed.

(** The code that is loaded is not EOF. *)
Lemma calms_load_code a : calms (fun r => legacy_account r.1) (load_code (DB := DB) a).
Proof.
  unfold load_code. apply calms_bind; [apply calms_load_account_any|intros [x is_cold]].
  apply calms_bind.
  - case_match; [solve_calm|]. case_match; [by apply calms_update_code|].
    eapply (calms_bind_with (fun c => is_eof c = false)); [|intros c; apply calms_update_code].
    apply calms_on_db. intros d r d' Hd Hr. apply code_by_hash_legacy in Hr as [? Hc]; [|done].
    split; [done|]. intros c' ->. auto.
  - intros _. eapply calms_bind_with; [apply calms_account|]. intros y Hy. by apply calms_ret.
Qed.
Lemma calms_load_code_any a : calm_m (load_code (DB := DB) a).
Proof. eapply calms_weaken, calms_load_code. done. Qed.

Lemma calms_on_db_any {A} (m : M DB DbErr A) :
  (forall d r d', db_legacy d -> m d = (r, d') -> db_legacy d') -> calm_m (on_db m).
Proof. intros Hm. apply calms_on_db. eauto. Qed.
Lemma calms_db_read {A} (f : DB -> outcome DbErr A) : calm_m (on_db (fun d => (f d, d))).
Proof. apply calms_on_db_any. by intros d r d' Hd [= _ <-]. Qed.
Lemma calms_db_storage a k : calm_m (on_db (DB := DB) (db_storage a k)).
Proof. apply calms_on_db_any. apply db_storage_legacy. Qed.
Lemma calms_block_hash n : calm_m (ctx_block_hash (DB := DB) n).
Proof. apply calms_on_db_any. apply block_hash_legacy. Qed.
#[local] Hint Resolve calms_load_account_any calms_load_account_exist calms_load_code_any calms_db_storage
  calms_db_read calms_token_ids : calm.

Lemma calms_sload a k : calm_m (sload (DB := DB) a k).
Proof. unfold sload. solve_calm. Qed.
#[local] Hint Resolve calms_sload : calm.
Lemma calms_sstore a k v : calm_m (sstore (DB := DB) a k v).
Proof. unfold sstore. solve_calm. Qed.
Lemma calms_transfer from to ts : calm_m (Journal.transfer (DB := DB) from to ts).
Proof. unfold Journal.transfer. solve_calm. Qed.
Lemma calms_selfdestruct a t : calm_m (selfdestruct (DB := DB) a t).
Proof. unfold selfdestruct. solve_calm. Qed.
Lemma calms_burn `{Keccak} b i h v : calm_m (Journal.burn (DB := DB) b i h v).
Proof. unfold Journal.burn. solve_calm. Qed.
Lemma calms_mint `{Keccak} m r i v : calm_m (Journal.mint (DB := DB) m r i v).
Proof. unfold Journal.mint. solve_calm. Qed.
Lemma calms_preload_slots a ks : calm_m (preload_slots (DB := DB) a ks).
Proof. induction ks; cbn [preload_slots]; solve_calm. Qed.
#[local] Hint Resolve calms_preload_slots : calm.
Lemma calms_initial_account_load a ks : calm_m (initial_account_load (DB := DB) a ks).
Proof.
  unfold initial_account_load. apply calms_bind; [solve_calm|intros j].
  apply calms_bind; [|intros _; apply calms_bind; [solve_calm|intros _]].
  - case_match; [solve_calm|]. apply (calms_bind_with _ _ _ _ (calms_basic a)). intros o Ho.
    apply calms_insert_account. destruct o; [by apply Ho|]. by intros ? [= <-].
  - apply calms_on_js, jcalms_account.
Qed.
Lemma calms_code_hash a : calm_m (ctx_code_hash (DB := DB) a).
Proof. unfold ctx_code_hash. solve_calm. Qed.
Lemma calms_base_balance a : calm_m (base_balance (DB := DB) a).
Proof. unfold base_balance. solve_calm. Qed.
End operations.
#[export] Hint Resolve calms_load_account_any calms_load_account_exist calms_load_code_any calms_db_storage
  calms_db_read calms_block_hash calms_token_ids calms_sload calms_sstore calms_transfer calms_selfdestruct calms_burn
  calms_mint calms_initial_account_load calms_code_hash calms_base_balance : calm.

(** ** The native-token precompile *)

Section native_tokens.
Context {DB DbErr : Type} `{HDB : Database DB DbErr} `{HL : !DatabaseLegacy DB DbErr} `{HK : Keccak}.

Lemma calms_with_err {E F A} (f : E -> F) (m : M (JournaledState * DB) E A) : calm_m m -> calm_m (with_err f m).
Proof.
  intros Hm s r s' Hl H. unfold with_err in H. destruct (m s) as [r1 s1] eqn:H1.
  apply Hm in H1 as [? _]; [|done]. by simplify_eq.
Qed.
Lemma calms_parse {A} (m : outcome BytesParsingError A) : calm_m (parse (DB := DB) m).
Proof. apply calms_lift_any. Qed.
Lemma calms_is_address_eoa a : calm_m (is_address_eoa (DB := DB) a).
Proof. unfold is_address_eoa, NativeTokens.ctx_code. solve_calm. Qed.
Lemma calms_journal_call {A} e (m : M (JournaledState * DB) (EVMError DbErr) A) :
  calm_m m -> calm_m (journal_call e m).
Proof. apply calms_with_err. Qed.
#[local] Hint Resolve calms_parse calms_is_address_eoa calms_journal_call : calm.
Lemma calms_check_caller inputs : calm_m (check_caller (DB := DB) inputs).
Proof. unfold check_caller. solve_calm. Qed.
Lemma calms_check_callee a : calm_m (check_callee (DB := DB) a).
Proof. unfold check_callee. solve_calm. Qed.
Lemma calms_check_consumed input : calm_m (check_consumed (DB := DB) input).
Proof. unfold check_consumed. solve_calm. Qed.
Lemma calms_ctx_balance t a : calm_m (NativeTokens.ctx_balance (DB := DB) t a).
Proof. unfold NativeTokens.ctx_balance. solve_calm. Qed.
Lemma calms_transfer_is_ok from to ts : calm_m (transfer_is_ok (DB := DB) from to ts).
Proof. unfold transfer_is_ok. solve_calm. Qed.
#[local] Hint Resolve calms_check_caller calms_check_callee calms_check_consumed calms_ctx_balance
  calms_transfer_is_ok : calm.

(** A result of a precompile that charges no negative gas. *)
Definition result_charges (r : ResultOrNewCall) : Prop :=
  match r with RNC_Result info => 0 <= gas_used info | RNC_Call _ => True end.

Lemma calms_call_mut inputs gas_limit : calms result_charges (call_mut (DB := DB) inputs gas_limit).
Proof.
  unfold call_mut. cbv zeta. assert (Hg : 0 <= BASE_GAS_COST) by done. revert Hg. generalize BASE_GAS_COST.
  intros g Hg. unfold balance_of, burn, get_call_values, mint, transfer_and_call, transfer_multiple,
    transfer_multiple_and_call, transfer, success. solve_calm.
Qed.

(** The precompiles of a handler act so. *)
Definition precompile_fine (p : ContextPrecompile (DB := DB)) : Prop :=
  match p with
  | CP_Ordinary p => forall input gas env r, p input gas env = Ok r -> result_charges r
  | CP_ContextStateful p => forall input gas, calms result_charges (p input gas)
  | CP_ContextStatefulMut p => forall inputs gas, calms result_charges (p inputs gas)
  end.
Definition precompiles_fine (ps : ContextPrecompiles (DB := DB)) : Prop := map_Forall (fun _ => precompile_fine) ps.

Lemma native_tokens_fine ps : precompiles_fine ps -> precompiles_fine (with_native_tokens (DbErr := DbErr) ps).
Proof. intros Hps. apply (map_Forall_insert_2 (fun _ => precompile_fine)); [|done]. intros i g. apply calms_call_mut. Qed.

Definition fine_answer (o : option (PrecompileError + ResultOrNewCall)) : Prop :=
  match o with Some (inr r) => result_charges r | _ => True end.

Lemma calms_attempt_with {E F A} (P : A -> Prop) (m : M (JournaledState * DB) E A) :
  calms P m -> calms (fun r => match r with inr a => P a | inl _ => True end) (attempt m : M _ F (E + A)).
Proof.
  intros Hm s r s' Hl H. unfold attempt in H. destruct (m s) as [r1 s1] eqn:H1.
  apply Hm in H1 as [? HP]; [|done].
  destruct r1; injection H as <- <-; (split; [done|]); intros ? [= <-]; [by apply HP|done].
Qed.

Lemma calms_precompiles_call ps env inputs gas :
  precompiles_fine ps -> calms fine_answer (precompiles_call (DbErr := DbErr) ps env inputs gas).
Proof.
  intros Hps. unfold precompiles_call. destruct (ps !! bytecode_address inputs) as [p|] eqn:Hp; [|by apply calms_ret].
  apply Hps in Hp. destruct p; simpl in Hp; (eapply calms_bind_with; [apply calms_attempt_with|]); try apply Hp;
    try (intros [e|r] Hr; by apply calms_ret).
  apply calms_lift. apply Hp.
Qed.

(** What a precompile leaves of the gas. *)
Definition outcome_within (g : Z) (o : option ResultOrCallInfo) : Prop :=
  match o with Some (RC_Result r) => 0 <= remaining (ir_gas r) <= g | _ => True end.

Lemma record_cost_within c g : 0 <= c -> 0 <= remaining g < 2 ^ 64 -> 0 <= remaining (record_cost c g).2 <= remaining g.
Proof.
  intros Hc Hg. unfold record_cost. destruct (Z.ltb_spec (remaining g) c); simpl; [lia|].
  rewrite wrapping_sub_fits by (unfold fits; lia). lia.
Qed.

Lemma calms_call_precompile ps env inputs gas :
  precompiles_fine ps -> fits 64 (remaining gas) ->
  calms (outcome_within (remaining gas)) (call_precompile (DbErr := DbErr) ps env inputs gas).
Proof.
  intros Hps Hg. unfold call_precompile. eapply calms_bind_with; [by apply calms_precompiles_call|].
  intros o Ho. apply calms_ret. destruct o as [[e|[info|info]]|]; simpl in *; try done.
  - destruct Hg. lia.
  - pose proof (record_cost_within (gas_used info) gas Ho Hg). by destruct (record_cost _ _) as [[] ?].
Qed.
End native_tokens.
