(* ===== verification/HostSafety.v ===== *)
(** What the interpreter does to its host: it reads and writes the host through
    the methods of the [Host] trait only, and in a static frame it only reads,
    and asks only for static calls that move no value. *)

From S2P Require Import Prelude.
From S2P Require Import Specification.
From S2P Require Import Bytes.
From S2P Require Import Eof.
From S2P Require Import Bytecode.
From S2P Require Import State.
From S2P Require Import InstructionResult.
From S2P Require Import Journal.
From S2P Require Import CallInputs.
From S2P Require Import Gas.
From S2P Require Import Stack.
From S2P Require Import SharedMemory.
From S2P Require Import Analysis.
From S2P Require Import Env.
From S2P Require Import Interpreter.
From S2P Require Import Context.
From S2P Require Import Instructions.
From S2P Require Import HostInstructions.
From S2P Require Import Opcode.
From S2P Require Import InterpreterSteps.
From S2P Require Import InterpreterSafety.
From S2P Require Import InterpreterLoop.

(** ** What the methods of a host keep *)

Definition host_keeps {H A} (Q : H -> H -> Prop) (m : M H Empty_set A) : Prop :=
  forall h r h', m h = (r, h') -> Q h h'.

(** The methods that read, and those that write, move the host along [Q]. *)
Class HostReads {H} `{Host H} (Q : H -> H -> Prop) : Prop := {
  reads_load_account a : host_keeps Q (h_load_account a);
  reads_block_hash n : host_keeps Q (h_block_hash n);
  reads_code a : host_keeps Q (h_code a);
  reads_code_hash a : host_keeps Q (h_code_hash a);
  reads_sload a k : host_keeps Q (h_sload a k);
  reads_tload a k : host_keeps Q (h_tload a k);
  reads_base_balance a : host_keeps Q (h_base_balance a);
}.
Class HostWrites {H} `{Host H} (Q : H -> H -> Prop) : Prop := {
  writes_sstore a k v : host_keeps Q (h_sstore a k v);
  writes_tstore a k v : host_keeps Q (h_tstore a k v);
  writes_log l : host_keeps Q (h_log l);
  writes_selfdestruct a t : host_keeps Q (h_selfdestruct a t);
}.

Create HintDb keeps.
#[export] Hint Resolve reads_load_account reads_block_hash reads_code reads_code_hash reads_sload
  reads_tload reads_base_balance writes_sstore writes_tstore writes_log writes_selfdestruct : keeps.

Section keeps.
Context {H : Type} `{HH : Host H} (static : bool) (Q : H -> H -> Prop) `{!PreOrder Q}.
Abbreviation on_state := (fun s : Interpreter * H => s.1).
Abbreviation HM := (M (Interpreter * H) InstructionResult).

(** A computation moves the host along [Q], started in a static frame if
    [static] says so. *)
Definition keeps {A} (m : HM A) : Prop := forall s r s',
  fits 64 (remaining (in_gas s.1)) -> (static = true -> in_is_static s.1 = true) ->
  m s = (r, s') -> Q s.2 s'.2.

Lemma keeps_bind {A B} (m : HM A) (f : A -> HM B) :
  obeys on_state base_step m -> keeps m -> (forall a, keeps (f a)) -> keeps (m ≫= f).
Proof.
  intros Hb Hm Hf s r s' Hg Hs H0.
  apply M_bind_inv in H0 as [(a & s1 & H1 & H0)|[(e & H1 & _)|[H1 _]]]; [|by eapply Hm..].
  apply Hb in H1 as HB; [|done]. destruct HB as [B1 _]. etrans; [by eapply Hm|].
  eapply Hf; [| |done]; [by apply (bs_gas _ _ B1)|]. intros Hst. rewrite (bs_static _ _ B1). auto.
Qed.

Lemma keeps_same {A} (m : HM A) : (forall s r s', m s = (r, s') -> s'.2 = s.2) -> keeps m.
Proof. intros Hm s r s' _ _ Hr. by rewrite (Hm _ _ _ Hr). Qed.
Lemma keeps_ret {A} (a : A) : keeps (mret a).
Proof. apply keeps_same. by intros s r s' [= _ <-]. Qed.
Lemma keeps_fail {A} e : keeps (fail (A := A) e).
Proof. apply keeps_same. by intros s r s' [= _ <-]. Qed.
Lemma keeps_lift {A} (o : outcome InstructionResult A) : keeps (lift o).
Proof. apply keeps_same. by intros s r s' [= _ <-]. Qed.
Lemma keeps_gets {A} (f : Interpreter * H -> A) : keeps (gets f).
Proof. apply keeps_same. by intros s r s' [= _ <-]. Qed.
Lemma keeps_on_int {A} (m : IM A) : keeps (on_int m).
Proof.
  apply keeps_same. intros s r s' Hr. unfold on_int, zoom in Hr. destruct (m s.1). by simplify_eq.
Qed.
Lemma keeps_on_host {A} (m : M H Empty_set A) : host_keeps Q m -> keeps (on_host m).
Proof.
  intros Hm s r s' _ _ Hr. unfold on_host, with_err, zoom in Hr. destruct (m s.2) as [r1 h1] eqn:H1.
  apply Hm in H1. by simplify_eq.
Qed.
Lemma keeps_host_some {A} (m : M H Empty_set (option A)) : host_keeps Q m -> keeps (host_some m).
Proof.
  intros Hm. unfold host_some. apply keeps_bind; [apply obeys_on_host; apply _|by apply keeps_on_host|].
  intros []; [apply keeps_ret|apply keeps_fail].
Qed.

(** After the check against a static frame, the frame is not static. *)
Lemma keeps_guarded {A} (f : unit -> HM A) :
  (static = false -> forall u, keeps (f u)) -> keeps (on_int require_non_staticcall ≫= f).
Proof.
  intros Hf s r s' Hg Hs Hr. unfold mbind, M_bind, on_int, zoom, require_non_staticcall in Hr.
  destruct (in_is_static s.1) eqn:Hi; simpl in Hr; [by simplify_eq|].
  assert (Hst : static = false) by (by destruct static; [specialize (Hs eq_refl)|]).
  apply (Hf Hst tt) in Hr; [done..|]. by rewrite Hst.
Qed.
End keeps.

(** ** Every instruction *)

Section keeps_table.
Context {H : Type} `{HH : Host H} `{HK : Keccak} `{HC : CreateAddress}.
Context (static : bool) (Q : H -> H -> Prop) `{!PreOrder Q} `{!HostReads Q}.
Context (HW : static = false -> HostWrites Q).

Ltac solve_keeps :=
  autounfold with instructions;
  repeat (intros; cbv beta zeta;
    first
    [ lazymatch goal with
      | |- keeps _ _ (on_int require_non_staticcall ≫= _) =>
          apply keeps_guarded; [apply _|intros Hst ?; specialize (HW Hst)]
      | |- keeps _ _ (on_int pop_call_gas_and_target ≫= _) =>
          apply keeps_bind; [apply _|apply obeys_on_int, obeys_pop_call_gas_and_target; apply _|by apply keeps_on_int; apply _|]
      | |- keeps _ _ (on_int _ ≫= _) => apply keeps_bind; [apply _|solve_obeys_calls; fail|by apply keeps_on_int; apply _|]
      | |- keeps _ _ (on_int _) => apply keeps_on_int; apply _
      | |- keeps _ _ (on_host _) => apply keeps_on_host; solve [auto with keeps]
      | |- keeps _ _ (host_some _) => apply keeps_host_some; solve [eauto with keeps typeclass_instances]
      | |- keeps _ _ (mret _) => apply keeps_ret; apply _
      | |- keeps _ _ (fail _) => apply keeps_fail; apply _
      | |- keeps _ _ (lift _) => apply keeps_lift; apply _
      | |- keeps _ _ (gets _) => apply keeps_gets; apply _
      | |- keeps _ _ env_of => apply keeps_gets; apply _
      | |- keeps _ _ self_address => apply keeps_gets; apply _
      | |- keeps _ _ (extcall_gas_calc _ _) => unfold extcall_gas_calc
      | |- keeps _ _ (_ ≫= _) => apply keeps_bind; [apply _|solve_obeys_calls; fail| |]
      end
    | progress case_match ]).

Lemma keeps_table spec :
  Forall (fun q : Z * M (Interpreter * H) InstructionResult unit => keeps static Q q.2) (instructions spec).
Proof.
  unfold instructions.
  repeat (apply List.Forall_cons; [cbn [snd]; solve [solve_keeps]|]). constructor.
Qed.

Lemma keeps_instruction spec opcode : keeps static Q (instruction spec opcode).
Proof.
  apply (instruction_ind (fun _ q => keeps static Q q)); [apply keeps_table|apply keeps_on_int; apply _].
Qed.

Lemma keeps_step spec s r s' :
  fits 64 (remaining (in_gas s.1)) -> (static = true -> in_is_static s.1 = true) ->
  step spec s = (r, s') -> Q s.2 s'.2.
Proof.
  destruct s as [i h]. intros Hg Hst Hs. apply step_inv in Hs as [[_ ->]|(op & _ & Hs)]; [done|].
  unfold settle_instruction in Hs. destruct (instruction spec op _) as [r1 s1] eqn:Hi.
  apply keeps_instruction in Hi; [|done..]. by destruct r1; simplify_eq.
Qed.

Lemma keeps_run_loop spec fuel s r s' :
  fits 64 (remaining (in_gas s.1)) -> (static = true -> in_is_static s.1 = true) ->
  run_loop fuel spec s = (r, s') -> Q s.2 s'.2.
Proof.
  revert s. induction fuel as [|fuel IH]; intros s Hg Hst; cbn [run_loop];
    unfold mbind, M_bind, gets; destruct (running s.1); try by intros [= <- <-].
  destruct (step spec s) as [[[]|e|] s1] eqn:Hs; apply keeps_step in Hs as Hq; try done.
  - apply step_base in Hs as [B1 _]; [|done]. intros H1. etrans; [exact Hq|].
    eapply IH; [| |done]; [by apply (bs_gas _ _ B1)|]. intros Ht. rewrite (bs_static _ _ B1). auto.
  - by intros [= <- <-].
Qed.

Lemma keeps_run spec fuel memory i h r i' h' :
  fits 64 (remaining (in_gas i)) -> (static = true -> in_is_static i = true) ->
  run fuel spec memory (i, h) = (r, (i', h')) -> Q h h'.
Proof.
  intros Hg Hst Hr. unfold run in Hr. set (s0 := (set_memory memory (set_next_action IA_None i), h)) in *.
  rewrite (M_bind_ok (modify _) _ (i, h) tt s0 eq_refl) in Hr.
  apply M_bind_inv in Hr as [(b & s1 & H1 & Hr)|[(? & H1 & ?)|[H1 _]]];
    apply keeps_run_loop in H1; try done.
  destruct s1 as [i1 h1]. revert Hr. unfold mbind, M_bind, gets, modify.
  destruct b; [|by intros [= _ _ <-]]. simpl. case_match; intros [= _ _ <-]; done.
Qed.
End keeps_table.

(** ** The requests of a static frame *)

(** A call that passes the values on, or moves nothing, or moves from an account
    to itself. *)
Definition moves_no_value (c : CallInputs) : Prop :=
  match ci_values c with
  | CV_Transfer values =>
      Forall (fun t => transfer_amount t = 0) values \/ ci_caller c = target_address c
  | CV_Apparent _ => True
  end.
Definition static_action (a : InterpreterAction) : Prop :=
  match a with
  | IA_Call c => is_static c = true /\ moves_no_value c
  | IA_Create _ | IA_EOFCreate _ => False
  | IA_Return _ | IA_None => True
  end.

Record asks_statically (i i' : Interpreter) : Prop := {
  as_base : base_step i i';
  as_action : in_is_eof i = false -> in_is_static i = true ->
    next_action i' = next_action i \/ static_action (next_action i');
}.

#[export] Instance asks_statically_preorder : PreOrder asks_statically.
Proof.
  split.
  - intros i. split; [done|by left].
  - intros i j k [B1 P1] [B2 P2]. split; [by etrans|]. intros He Hs.
    destruct P2 as [->|?]; [by rewrite (bs_eof _ _ B1)|by rewrite (bs_static _ _ B1)|auto|by right].
Qed.

#[export] Instance asks_statically_coarse : Coarse asks_statically.
Proof.
  split; [apply _| | |].
  - intros i i' [[Hb _] Ha]. split; [done|by left].
  - intros i r output. split; [done|]. intros _ _. by right.
  - intros i i' [Hb _] Hg. by apply (bs_gas _ _ Hb).
Qed.

Lemma asks_ext {H} `{HH : Host H} {A} (f : unit -> M (Interpreter * H) InstructionResult A) :
  (forall u, obeys (fun s => s.1) base_step (f u)) ->
  obeys (fun s => s.1) asks_statically (on_int require_eof ≫= f).
Proof.
  intros Hf [i h] r s' Hg Hr. unfold mbind, M_bind, on_int, zoom, require_eof in Hr. cbn [fst snd] in Hr.
  destruct (in_is_eof i) eqn:He; simpl in Hr.
  - apply Hf in Hr as [Hb Hr]; [|done]. split; [|done]. split; [done|]. simpl. congruence.
  - by simplify_eq.
Qed.

(** The check against a static frame leaves out what follows. *)
Lemma asks_guarded {A} (f : unit -> IM A) :
  (forall u, obeys self base_step (f u)) -> obeys self asks_statically (require_non_staticcall ≫= f).
Proof.
  intros Hf i r s' Hg Hr. unfold mbind, M_bind, require_non_staticcall in Hr.
  destruct (in_is_static i) eqn:Hi; simpl in Hr.
  - by simplify_eq.
  - apply Hf in Hr as [Hb Hr]; [|done]. split; [|done]. split; [done|]. simpl. congruence.
Qed.

Lemma asks_emit_call (mk : Interpreter -> CallInputs) :
  (forall i, in_is_static i = true -> is_static (mk i) = true /\ moves_no_value (mk i)) ->
  obeys self asks_statically (i ← get; emit_call (mk i)).
Proof.
  intros Hmk i r i' Hg [= <- <-]. split; [|done]. split; [by split|]. intros _ Hs. right. simpl. auto.
Qed.

Section asks_table.
Context {H : Type} `{HH : Host H} `{HK : Keccak} `{HC : CreateAddress}.
Abbreviation on_state := (fun s : Interpreter * H => s.1).

(** The end of a call. *)
Lemma asks_call spec b1 b2 b3 l (mk : Z -> Interpreter -> CallInputs) :
  0 <= l -> (forall g i, in_is_static i = true -> is_static (mk g i) = true /\ moves_no_value (mk g i)) ->
  obeys on_state asks_statically (on_int (g ← calc_call_gas spec b1 b2 b3 l; _ ← gas g; i ← get; emit_call (mk g i))).
Proof.
  intros Hl Hmk. apply obeys_on_int, obeys_call_gas_bind; [apply _|done|]. intros g Hg.
  apply obeys_bind; [apply _|by apply obeys_gas, Hg; apply _|]. intros _. apply asks_emit_call. auto.
Qed.

Ltac asks_prefix :=
  repeat (intros; cbv beta zeta;
    first
    [ lazymatch goal with
      | |- obeys _ _ (on_int (calc_call_gas _ _ _ _ _ ≫= _)) =>
          apply asks_call; [simpl in *; lia|intros g i Hi; split; [done|]]
      | |- obeys _ _ (on_int pop_call_gas_and_target ≫= _) => apply obeys_pop_call_bind; [apply _|]
      | |- moves_no_value _ => unfold moves_no_value; simpl; auto
      end
    | obeys_leaf | obeys_bind_tac | case_match ]).

Lemma asks_contract_call_code spec : obeys on_state asks_statically (contract_call_code spec).
Proof. unfold contract_call_code. asks_prefix. Qed.
Lemma asks_contract_delegate_call spec : obeys on_state asks_statically (contract_delegate_call spec).
Proof. unfold contract_delegate_call. asks_prefix. Qed.
Lemma asks_contract_static_call spec : obeys on_state asks_statically (contract_static_call spec).
Proof. unfold contract_static_call. asks_prefix. Qed.
Lemma asks_contract_create b spec : obeys on_state asks_statically (contract_create b spec).
Proof.
  unfold contract_create. apply obeys_bind; [apply _|by apply obeys_env_of; apply _|intros e].
  apply obeys_on_int, asks_guarded. intros _. solve_obeys_calls.
Qed.

Lemma asks_ext_entries :
  obeys on_state asks_statically contract_extcall /\ obeys on_state asks_statically contract_extdelegatecall /\
  obeys on_state asks_statically contract_extstaticcall.
Proof. split_and!; apply asks_ext; solve_obeys_calls. Qed.

(** A frame that is not static may ask for anything. *)
Lemma asks_static_bind {A} (f : bool -> M (Interpreter * H) InstructionResult A) :
  obeys on_state asks_statically (f true) -> obeys on_state base_step (f false) ->
  obeys on_state asks_statically (gets (fun s => in_is_static s.1) ≫= f).
Proof.
  intros Ht Hf s r s' Hg Hr. unfold mbind, M_bind, gets in Hr.
  destruct (in_is_static s.1) eqn:Hs; [by eapply Ht|]. apply Hf in Hr as [Hb Hr]; [|done].
  split; [|done]. split; [done|congruence].
Qed.

Lemma asks_contract_call spec : obeys on_state asks_statically (contract_call spec).
Proof.
  unfold contract_call. apply obeys_pop_call_bind; [apply _|]. intros l to Hl.
  apply obeys_bind; [apply _|solve_obeys_calls|]. intros value. cbv beta zeta.
  apply asks_static_bind; simpl; [|solve_obeys_calls].
  destruct (Z.eqb_spec value 0) as [->|]; simpl; [|solve_obeys_calls].
  asks_prefix.
Qed.

Ltac asks_entry :=
  autounfold with instructions;
  first
  [ apply asks_ext; solve_obeys_calls; fail
  | apply obeys_on_int, obeys_after_require_eof; [apply _|intros; split; [done|congruence]|]; solve_obeys_calls; fail
  | apply obeys_on_int; solve_obeys_calls; fail
  | solve_obeys_calls; fail ].

Lemma asks_set_pc (f : Interpreter -> Z) : obeys self asks_statically (modify (fun i => set_pc (f i) i)).
Proof. apply obeys_modify. intros i. split; [done|by left]. Qed.
Lemma asks_advance n : obeys self asks_statically (advance n).
Proof. apply (asks_set_pc (fun i => instruction_pointer i + n)). Qed.
Lemma asks_jump_inner target : obeys self asks_statically (jump_inner target).
Proof. unfold jump_inner, goto. solve_obeys; [apply (asks_set_pc (fun _ => _))|..]. Qed.
#[local] Hint Resolve asks_advance asks_jump_inner : obeys.

Lemma asks_table spec :
  Forall (fun q : Z * M (Interpreter * H) InstructionResult unit => obeys on_state asks_statically q.2)
    (instructions spec).
Proof.
  unfold instructions.
  repeat (apply List.Forall_cons; [cbn [snd];
    first [ apply asks_contract_call | apply asks_contract_call_code | apply asks_contract_delegate_call
          | apply asks_contract_static_call | apply asks_contract_create | apply asks_ext_entries
          | asks_entry ]|]); constructor.
Qed.

Lemma asks_instruction spec opcode : obeys on_state asks_statically (instruction spec opcode).
Proof.
  apply (instruction_ind (fun _ q => obeys on_state asks_statically q)); [apply asks_table|].
  apply obeys_on_int. unfold control_unknown. solve_obeys.
Qed.
End asks_table.

(** What a run asks for in a static frame of legacy code. *)
Lemma run_asks {H} `{HH : Host H} `{HK : Keccak} `{HC : CreateAddress} spec fuel memory i (h : H) a i' h' :
  fits 64 (remaining (in_gas i)) -> in_is_eof i = false -> in_is_static i = true ->
  run fuel spec memory (i, h) = (Ok (Some a), (i', h')) -> static_action a.
Proof.
  intros Hg He Hs Hr. apply run_inv in Hr as (i1 & H1 & Hr).
  eapply (run_loop_relates spec asks_statically) in H1; [|intros j n; split; [done|by left]|apply asks_instruction|done].
  destruct H1 as [_ Ha]. destruct Hr as [(Hn & -> & _)|(_ & _ & ->)]; [|done].
  cbn [fst] in Ha. destruct (Ha He Hs) as [Heq|?]; [by rewrite Heq in Hn|done].
Qed.
