(* ===== verification/EvmFrames.v ===== *)
(** The life of a frame: what making, running and returning one does to the
    depth of the calls and to the gas, and that the loop over the call stack
    ends. *)

From S2P Require Import Prelude.
From S2P Require Import Specification.
From S2P Require Import Bytes.
From S2P Require Import Eof.
From S2P Require Import Bytecode.
From S2P Require Import State.
From S2P Require Import Result.
From S2P Require Import InstructionResult.
From S2P Require Import Database.
From S2P Require Import Journal.
From S2P Require Import CallInputs.
From S2P Require Import NativeTokens.
From S2P Require Import Gas.
From S2P Require Import SharedMemory.
From S2P Require Import Analysis.
From S2P Require Import Env.
From S2P Require Import Interpreter.
From S2P Require Import Context.
From S2P Require Import Handler.
From S2P Require Import Instructions.
From S2P Require Import HostInstructions.
From S2P Require Import Opcode.
From S2P Require Import InterpreterSteps.
From S2P Require Import InterpreterSafety.
From S2P Require Import InterpreterLoop.
From S2P Require Import InterpreterGas.
From S2P Require Import Evm.
From S2P Require Import ContextSteps.
From S2P Require Import HostSafety.

(** ** Checkpoints *)

(** The undoing of the entries leaves no code that was not there. *)
Lemma legacy_undo a f s s' :
  (forall x, legacy_account x -> legacy_account (f x)) ->
  legacy_accounts (accounts s.1) -> undo_account a f s = Some s' -> legacy_accounts (accounts s'.1).
Proof.
  intros Hf Hl H. unfold undo_account in H. destruct (accounts s.1 !! a); [|done].
  simplify_option_eq. intros b x. simpl. rewrite lookup_alter_Some.
  intros [(-> & y & Hy & ->)|[_ Hx]]; [by eapply Hf, Hl|by eapply Hl].
Qed.

Lemma legacy_revert_entry sd e s s' :
  legacy_accounts (accounts s.1) -> revert_entry sd e s = Some s' -> legacy_accounts (accounts s'.1).
Proof.
  intros Hl H. assert (Hk : forall x, legacy_account x -> legacy_account x) by done.
  destruct e; cbn [revert_entry] in H; unfold mbind, option_bind in H;
    repeat (case_match; try done); simplify_eq; try done;
    repeat match goal with Hu : undo_account _ _ _ = Some _ |- _ => apply legacy_undo in Hu; [|by auto..] end;
    try done.
  all: simpl. intros b x. rewrite lookup_delete_Some. intros [_ Hx]. by eapply Hl.
Qed.

Lemma legacy_journal_revert sd es s s' :
  legacy_accounts (accounts s.1) -> journal_revert sd es s = Some s' -> legacy_accounts (accounts s'.1).
Proof.
  revert s. induction es as [|e es IH]; cbn [journal_revert]; intros s Hl H; [by simplify_eq|].
  destruct (revert_entry sd e s) as [s1|] eqn:He; [|done]. apply legacy_revert_entry in He; [|done]. eauto.
Qed.
Lemma legacy_revert_sets sd cs s s' :
  legacy_accounts (accounts s.1) -> revert_sets sd cs s = Some s' -> legacy_accounts (accounts s'.1).
Proof.
  revert s. induction cs as [|c cs IH]; cbn [revert_sets]; intros s Hl H; [by simplify_eq|].
  destruct (journal_revert sd (reverse c) s) as [s1|] eqn:He; [|done].
  apply legacy_journal_revert in He; [|done]. eauto.
Qed.

Section frames.
Context {DB DbErr : Type} `{HDB : Database DB DbErr} `{HL : !DatabaseLegacy DB DbErr}.
Implicit Types (s t : JournaledState * DB).
Abbreviation CtxM := (M (JournaledState * DB) (EVMError DbErr)).

(** [s'] is a legacy world [n] calls deeper than [s]. *)
Record moved (n : Z) (s s' : JournaledState * DB) : Prop := {
  mv_legacy : legacy_world s';
  mv_spec : spec s'.1 = spec s.1;
  mv_depth : depth s'.1 = depth s.1 + n;
}.
Lemma moved_trans n m k s t u : moved n s t -> moved m t u -> k = n + m -> moved k s u.
Proof. intros [] [] ->. split; [done|congruence|lia]. Qed.
Lemma moved_refl s : legacy_world s -> moved 0 s s.
Proof. split; [done..|lia]. Qed.

(** From a state that is [n] calls deeper than [s]. *)
Lemma wp_calms {E A} (P : A -> Prop) (m : M (JournaledState * DB) E A) (Q : A -> _ -> Prop) n s t :
  moved n s t -> calms P m -> (forall a t', P a -> moved n s t' -> Q a t') -> wp m Q t.
Proof.
  intros Mt Hm HQ. apply wp_intro. intros a t' H. apply Hm in H as [[] HP]; [|apply Mt].
  apply HQ; [by apply HP|]. destruct Mt. split; [done|congruence|lia].
Qed.
Lemma wp_checkpoint (Q : _ -> _ -> Prop) s t :
  moved 0 s t -> 0 <= depth s.1 < 2 ^ 64 - 1 -> (forall cp t', moved 1 s t' -> Q cp t') ->
  wp (on_js (DB := DB) (DbErr := DbErr) checkpoint) Q t.
Proof.
  intros [L S D] Hd HQ. apply HQ. split; [done..|]. simpl. rewrite wrapping_add_fits by (unfold fits; lia). lia.
Qed.
Lemma wp_commit (Q : _ -> _ -> Prop) s t :
  moved 1 s t -> 0 <= depth s.1 < 2 ^ 64 - 1 -> (forall t', moved 0 s t' -> Q tt t') ->
  wp (on_js (DB := DB) (DbErr := DbErr) checkpoint_commit) Q t.
Proof.
  intros [L S D] Hd HQ. apply HQ. split; [done..|]. simpl. rewrite wrapping_sub_fits by (unfold fits; lia). lia.
Qed.

Lemma checkpoint_revert_inv {E} cp j r j' :
  0 < depth j < 2 ^ 64 -> legacy_accounts (accounts (state j)) ->
  checkpoint_revert (E := E) cp j = (r, j') ->
  r = Panic \/ (r = Ok tt /\ legacy_accounts (accounts (state j')) /\ spec j' = spec j /\ depth j' = depth j - 1).
Proof.
  intros Hd Hl H. unfold checkpoint_revert in H.
  destruct (revert_sets _ _ _) as [[st ts]|] eqn:Hr; simplify_eq; [right|by left].
  apply legacy_revert_sets in Hr; [|done]. split_and!; try done.
  simpl. rewrite wrapping_sub_fits by (unfold fits; lia). lia.
Qed.
Lemma wp_revert cp (Q : _ -> _ -> Prop) s t :
  moved 1 s t -> 0 <= depth s.1 < 2 ^ 64 - 1 -> (forall t', moved 0 s t' -> Q tt t') ->
  wp (on_js (DB := DB) (DbErr := DbErr) (checkpoint_revert cp)) Q t.
Proof.
  intros [[Hl Hdb] S D] Hd HQ. apply wp_zoom, wp_intro. intros [] j' H.
  apply checkpoint_revert_inv in H as [?|(_ & Hl' & Hs & Hd')]; [done| |lia|done].
  apply HQ. split; [by split|simpl; congruence|]. simpl. lia.
Qed.

Lemma wp_revert_with {A} cp (a : A) (Q : A -> _ -> Prop) s t :
  moved 1 s t -> 0 <= depth s.1 < 2 ^ 64 - 1 -> (forall t', moved 0 s t' -> Q a t') ->
  wp (_ ← on_js (DB := DB) (DbErr := DbErr) (checkpoint_revert cp); mret a) Q t.
Proof. intros Mt Hd HQ. by apply wp_bind, (wp_revert _ _ s). Qed.

(** From inside a sub-call: a computation that stays there when it answers, and
    leaves it when it fails. *)
Definition jleaves {E A} (m : M JournaledState E A) : Prop := forall j r j',
  legacy_accounts (accounts (state j)) -> 0 < depth j < 2 ^ 64 -> m j = (r, j') ->
  match r with
  | Ok _ => jcalm j j'
  | Err _ => legacy_accounts (accounts (state j')) /\ spec j' = spec j /\ depth j' = depth j - 1
  | Panic => True
  end.
Lemma jleaves_bind {E A B} (m : M JournaledState E A) (f : A -> M JournaledState E B) :
  jcalms m -> no_error m -> (forall a, jleaves (f a)) -> jleaves (m ≫= f).
Proof.
  intros Hm Hn Hf j r j' Hl Hd H. apply M_bind_inv in H as [(a & j1 & H1 & H)|[(e & H1 & ->)|[H1 ->]]];
    [|by apply Hn in H1|done].
  apply Hm in H1 as [Hd1 Hs1 Hl1]. apply Hf in H; [|by apply Hl1|by rewrite Hd1].
  destruct r; [|split_and!; [by apply H|etrans; [apply H|done]|rewrite <- Hd1; apply H]|done].
  etrans; [|exact H]. by split.
Qed.
Lemma jleaves_ret {E A} (a : A) : jleaves (E := E) (mret a).
Proof. by intros j r j' _ _ [= <- <-]. Qed.
Lemma jleaves_revert {E A} cp e : jleaves (_ ← checkpoint_revert cp; fail (A := A) (e : E)).
Proof.
  intros j r j' Hl Hd H. apply M_bind_inv in H as [(a & j1 & H1 & H)|[(e' & H1 & ->)|[H1 ->]]]; [| |done].
  - apply checkpoint_revert_inv in H1 as [?|(_ & ?)]; [done| |done..]. by injection H as <- <-.
  - by apply checkpoint_revert_inv in H1 as [?|(? & _)].
Qed.

Lemma no_error_account {E} a : no_error (account (E := E) a).
Proof. intros j e j'. unfold account, unwrap. by case_match. Qed.
Lemma no_error_gets {S E A} (f : S -> A) : no_error (gets (E := E) f).
Proof. by intros j e j'. Qed.
Lemma no_error_push_entry {E} x : no_error (push_entry (E := E) x).
Proof. intros j e j'. unfold push_entry. by case_match. Qed.
Lemma no_error_update_account {E} a f : no_error (update_account (E := E) a f).
Proof. apply no_error_bind; [apply no_error_account|by intros _ ? ? ?]. Qed.
Lemma no_error_touch_account {E} a : no_error (touch_account (E := E) a).
Proof.
  unfold touch_account. apply no_error_bind; [apply no_error_account|intros x]. case_match; [apply no_error_ret|].
  apply no_error_bind; [apply no_error_push_entry|intros _; apply no_error_update_account].
Qed.
#[local] Hint Resolve no_error_account no_error_gets no_error_push_entry no_error_update_account
  no_error_touch_account : no_error.

Ltac solve_leaves :=
  repeat first
    [ apply jleaves_revert | apply jleaves_ret
    | apply jleaves_bind; [solve [solve_jcalm]|solve [solve_no_error]|intros ?]
    | case_match ].

Lemma create_account_leaves caller address value sp j r j' :
  legacy_accounts (accounts (state j)) -> 0 <= depth j < 2 ^ 64 - 1 ->
  create_account_checkpoint caller address value sp j = (r, j') ->
  match r with
  | Panic => True
  | _ => legacy_accounts (accounts (state j')) /\ spec j' = spec j /\
         depth j' = depth j + (if is_ok r then 1 else 0)
  end.
Proof.
  intros Hl Hd H. unfold create_account_checkpoint in H.
  set (j1 := set_journal (fun l => l ++ [[]]) (set_depth (fun d => wrapping_add 64 d 1) j)).
  rewrite (M_bind_ok checkpoint _ j (mkCheckpoint (len (logs j)) (len (journal j))) j1 eq_refl) in H.
  assert (Hd1 : depth j1 = depth j + 1) by (apply wrapping_add_fits; unfold fits; lia).
  match type of H with ?m j1 = _ => assert (Hm : jleaves m) by solve_leaves end.
  apply Hm in H; [|done|lia]. rewrite Hd1 in H. destruct r; simpl; [|destruct_and!; split_and!; lia || done|done].
  destruct H as [H1 H2 H3]. split_and!; [by apply H3|done|lia].
Qed.

(** The creation of an account enters the sub-call, or fails at the depth it was
    called at. *)
Lemma wp_create_account caller address value sp (Q : _ -> _ -> Prop) s t :
  moved 0 s t -> 0 <= depth s.1 < 2 ^ 64 - 1 ->
  (forall r t', moved (match r with inl _ => 0 | inr _ => 1 end) s t' -> Q r t') ->
  wp (on_js (DB := DB) (DbErr := DbErr) (attempt (create_account_checkpoint caller address value sp))) Q t.
Proof.
  intros [[Hl Hdb] S D] Hd HQ. apply wp_zoom, wp_intro. intros o j' H. unfold attempt in H.
  destruct (create_account_checkpoint _ _ _ _ _) as [r j1] eqn:H1.
  apply create_account_leaves in H1; [|done|lia].
  destruct r; simplify_eq; destruct H1 as (? & ? & H1); simpl in H1; apply HQ;
    (split; [by split|simpl; congruence|simpl; lia]).
Qed.

(** ** Making a frame *)

(** A frame of legacy code. *)
Record frame_fine (f : Frame) : Prop := {
  ff_kind : match f with Frame_EOFCreate _ _ _ => False | _ => True end;
  ff_legacy : in_is_eof (frame_interpreter f) = false;
  ff_gas : fits 64 (remaining (in_gas (frame_interpreter f)));
}.
(** A result with at most [g] gas. *)
Record result_fine (g : Z) (r : FrameResult) : Prop := {
  rf_kind : match r with FR_EOFCreate _ => False | _ => True end;
  rf_gas : 0 <= remaining (frame_gas r) <= g;
}.

(** Made with [g] gas from [s]: a frame, one call deeper, or a result. *)
Definition entered (g : Z) (s : JournaledState * DB) (fr : FrameOrResult) (s' : JournaledState * DB) : Prop :=
  match fr with
  | FOR_Frame f =>
      frame_fine f /\ remaining (in_gas (frame_interpreter f)) = g /\ moved 1 s s' /\ depth s.1 <= CALL_STACK_LIMIT
  | FOR_Result r => result_fine g r /\ moved 0 s s'
  end.

Context `{HK : Keccak}.

Lemma legacy_interpreter {E} c gas_limit static i :
  is_eof (c_bytecode c) = false -> Interpreter_new (E := E) c gas_limit static = Ok i ->
  in_is_eof i = false /\ remaining (in_gas i) = gas_limit.
Proof.
  intros Hc H. unfold Interpreter_new in H. destruct (is_execution_ready _); [|done].
  simpl in H. destruct (Bytecode_bytecode _); simplify_eq/=. by rewrite Hc.
Qed.

Lemma to_analysed_legacy b : is_eof b = false -> is_eof (to_analysed b) = false.
Proof. unfold to_analysed. by repeat case_match. Qed.

Lemma calms_load_bytecode a : calms (fun r => is_eof r.2 = false) (load_bytecode (DB := DB) a).
Proof.
  unfold load_bytecode. eapply calms_bind_with; [apply calms_load_code|]. intros [x is_cold] Hx.
  apply calms_ret. simpl in *. destruct (code (info x)) eqn:Hc; simpl; [by apply Hx|done].
Qed.

Lemma calms_transfer_values inputs : calms (fun _ => True) (transfer_values (DB := DB) inputs).
Proof. unfold transfer_values. solve_calm. Qed.

Lemma Contract_new_legacy input b hash target caller values :
  is_eof b = false -> is_eof (c_bytecode (Contract_new input b hash target caller values)) = false.
Proof. apply to_analysed_legacy. Qed.

(** A result that keeps all of its gas. *)
Lemma result_all g e range : fits 64 g ->
  result_fine g (FR_Call (mkCallOutcome (mkInterpreterResult e [] (Gas_new g)) range)).
Proof. intros [Hg _]. split; [done|]. simpl. lia. Qed.

(** A new frame. *)
Lemma wp_new_frame {A} c gas_limit static (k : Interpreter -> A) (Q : A -> _ -> Prop) t :
  is_eof (c_bytecode c) = false ->
  (forall i, in_is_eof i = false -> remaining (in_gas i) = gas_limit -> Q (k i) t) ->
  wp (E := EVMError DbErr) (S := JournaledState * DB) (i ← lift (Interpreter_new c gas_limit static); mret (k i)) Q t.
Proof.
  intros Hc HQ. apply wp_bind, wp_lift. intros i Hi. apply wp_ret.
  apply legacy_interpreter in Hi as [He Hr]; auto.
Qed.
Lemma entered_frame g s f t :
  (match f with Frame_EOFCreate _ _ _ => False | _ => True end) -> in_is_eof (frame_interpreter f) = false ->
  remaining (in_gas (frame_interpreter f)) = g -> fits 64 g -> moved 1 s t -> depth s.1 <= CALL_STACK_LIMIT ->
  entered g s (FOR_Frame f) t.
Proof. intros Hk He Hr Hg Mt Hd. split_and!; try done. split; [done..|]. by rewrite Hr. Qed.

Lemma make_call_frame_spec ps env inputs s :
  precompiles_fine ps -> legacy_world s -> fits 64 (ci_gas_limit inputs) -> 0 <= depth s.1 ->
  wp (make_call_frame ps env inputs) (entered (ci_gas_limit inputs) s) s.
Proof.
  intros Hps Hl Hg Hd. unfold make_call_frame. apply wp_bind, wp_gets.
  destruct (Z.ltb_spec CALL_STACK_LIMIT (depth s.1)) as [|Hlim].
  { split; [|by apply moved_refl]. by apply result_all. }
  unfold CALL_STACK_LIMIT in Hlim. assert (Hb0 : 0 <= depth s.1 < 2 ^ 64 - 1) by lia.
  apply wp_bind, (wp_calms _ _ _ 0 s s (moved_refl s Hl) (calms_load_bytecode _)).
  intros [code_hash bytecode] s1 Hb M1. simpl in Hb.
  apply wp_bind, (wp_checkpoint _ s s1 M1 Hb0). intros cp s2 M2.
  apply wp_bind, (wp_calms _ _ _ 1 s s2 M2 (calms_transfer_values _)). intros refused s3 _ M3.
  destruct refused as [e|].
  { apply (wp_revert_with cp _ _ s s3 M3 Hb0). intros t' Mt'. split; [|done]. by apply result_all. }
  apply wp_bind, (wp_calms _ _ _ 1 s s3 M3 (calms_call_precompile ps env inputs (Gas_new (ci_gas_limit inputs)) Hps Hg)).
  intros [[result|info]|] s4 Hout M4; simpl in Hout.
  - destruct (return_ok (ir_result result)).
    + apply wp_bind, (wp_commit _ s s4 M4 Hb0). intros t' Mt'. by split.
    + apply (wp_revert_with cp _ _ s s4 M4 Hb0). intros t' Mt'. by split.
  - apply wp_bind, (wp_calms _ _ _ 1 s s4 M4 (calms_load_bytecode _)).
    intros [code_hash' bytecode'] s5 Hb' M5. simpl in Hb'.
    apply wp_bind, (wp_calms _ _ _ 1 s s5 M5 (calms_transfer _ _ _)). intros [e|] s6 _ M6.
    + apply (wp_revert_with cp _ _ s s6 M6 Hb0). intros t' Mt'. split; [|done]. by apply result_all.
    + apply wp_new_frame; [by apply Contract_new_legacy|]. intros i He Hr.
      by apply entered_frame.
  - destruct (negb (Bytecode_is_empty bytecode)).
    + apply wp_new_frame; [by apply Contract_new_legacy|]. intros i He Hr.
      by apply entered_frame.
    + apply wp_bind, (wp_commit _ s s4 M4 Hb0). intros t' Mt'. split; [|done]. by apply result_all.
Qed.

Lemma calms_jcalms {A} (m : M JournaledState (EVMError DbErr) A) : jcalms m -> calms (fun _ => True) (on_js (DB := DB) m).
Proof. apply calms_on_js. Qed.

(** A refused creation keeps all of its gas. *)
Lemma created_all g e address : fits 64 g ->
  result_fine g (FR_Create (mkCreateOutcome (mkInterpreterResult e [] (Gas_new g)) address)).
Proof. intros [Hg _]. split; [done|]. simpl. lia. Qed.

Lemma make_create_frame_spec `{HC : CreateAddress} sp inputs s :
  legacy_world s -> fits 64 (cr_gas_limit inputs) -> 0 <= depth s.1 ->
  wp (make_create_frame (DB := DB) sp inputs) (entered (cr_gas_limit inputs) s) s.
Proof.
  intros Hl Hg Hd. unfold make_create_frame. apply wp_bind, wp_gets.
  assert (Hre : forall e t, moved 0 s t -> entered (cr_gas_limit inputs) s
    (new_create_result (mkInterpreterResult e [] (Gas_new (cr_gas_limit inputs))) None) t).
  { intros e t Mt. split; [by apply created_all|done]. }
  destruct (Z.ltb_spec CALL_STACK_LIMIT (depth s.1)) as [|Hlim]; [by apply wp_ret, Hre, moved_refl|].
  unfold CALL_STACK_LIMIT in Hlim. assert (Hb0 : 0 <= depth s.1 < 2 ^ 64 - 1) by lia.
  apply wp_bind, (wp_calms _ _ _ 0 s s (moved_refl s Hl) (calms_base_balance _)).
  intros [caller_balance is_cold] s1 _ M1.
  destruct (caller_balance <? cr_value inputs); [by apply wp_ret, Hre|].
  apply wp_bind, (wp_calms _ _ _ 0 s s1 M1 (calms_jcalms _ (jcalms_inc_nonce _))). intros [nonce|] s2 _ M2;
    [|by apply wp_ret, Hre].
  cbv zeta. case_match. apply wp_bind, (wp_calms _ _ _ 0 s s2 M2 (calms_load_account_any _)). intros acc s3 _ M3.
  apply wp_bind, (wp_create_account _ _ _ _ _ s s3 M3 Hb0). intros [e|cp] s4 M4; [by apply wp_ret, Hre|].
  apply wp_new_frame; [by apply Contract_new_legacy|]. intros i He Hr. by apply entered_frame.
Qed.
End frames.
