(* ===== verification/EvmLoop.v ===== *)
(** The loop over the call stack: its invariant, its bounds, and that it ends. *)

From S2P Require Import Prelude.
From S2P Require Import Specification.
From S2P Require Import Bytes.
From S2P Require Import Eof.
From S2P Require Import Bytecode.
From S2P Require Import State.
From S2P Require Import Result.
From S2P Require Import InstructionResult.
From S2P Require Import Database.
From S2P Require Import Journal.
From S2P Require Import CallInputs.
From S2P Require Import NativeTokens.
From S2P Require Import Gas.
From S2P Require Import SharedMemory.
From S2P Require Import Analysis.
From S2P Require Import Env.
From S2P Require Import Interpreter.
From S2P Require Import Context.
From S2P Require Import Handler.
From S2P Require Import Instructions.
From S2P Require Import HostInstructions.
From S2P Require Import Opcode.
From S2P Require Import InterpreterSteps.
From S2P Require Import InterpreterSafety.
From S2P Require Import InterpreterLoop.
From S2P Require Import InterpreterGas.
From S2P Require Import Evm.
From S2P Require Import ContextSteps.
From S2P Require Import JournalSpec.
From S2P Require Import InMemoryDb.
From S2P Require Import Fees.
From S2P Require Import HostSafety.
From S2P Require Import EvmFrames.

Section context_host.
Context {DB DbErr : Type} `{HDB : Database DB DbErr} `{HL : !DatabaseLegacy DB DbErr} `{HK : Keccak}.
Abbreviation Ctx := (EvmContext (DB := DB) (DbErr := DbErr)).

(** ** The context as a host *)

(** From a legacy world, [c'] is at the same depth, in a legacy world. *)
Definition calm_context (c c' : Ctx) : Prop := legacy_world c.2.1 -> calm c.2.1 c'.2.1.
#[export] Instance calm_context_preorder : PreOrder calm_context.
Proof.
  split; [done|]. intros a b c Hab Hbc Hl. specialize (Hab Hl). eapply calm_trans; [done|]. by apply Hbc, Hab.
Qed.

Lemma host_try_calm {A} (m : M (JournaledState * DB) (EVMError DbErr) A) :
  calms (fun _ => True) m -> host_keeps calm_context (host_try m).
Proof.
  intros Hm c r c' H Hl. unfold host_try in H. destruct (m c.2.1) as [r1 s1] eqn:H1.
  apply Hm in H1 as [Hc _]; [|done]. by destruct r1; simplify_eq/=.
Qed.
Lemma host_bool_calm (m : M (JournaledState * DB) (EVMError DbErr) bool) :
  calms (fun _ => True) m -> host_keeps calm_context (host_bool m).
Proof.
  intros Hm c r c' H Hl. unfold host_bool in H. destruct (m c.2.1) as [r1 s1] eqn:H1.
  apply Hm in H1 as [Hc _]; [|done]. by destruct r1; simplify_eq/=.
Qed.
Lemma host_do_calm {A} (m : M JournaledState Empty_set A) : jcalms m -> host_keeps calm_context (host_do m).
Proof.
  intros Hm c r c' H [Hj Hd]. unfold host_do in H. destruct (m c.2.1.1) as [r1 j1] eqn:H1. simplify_eq/=.
  apply Hm in H1 as [? ? Hl]. split; [done..|]. split; [by apply Hl|done].
Qed.

#[export] Instance context_reads : HostReads calm_context.
Proof.
  split; intros; simpl; try (apply host_try_calm; unfold ctx_code; solve_calm).
  - unfold context_block_hash. intros c r c' H. unfold mbind, M_bind, gets in H.
    repeat case_match; try (injection H as _ <-; reflexivity).
    eapply host_try_calm; [|done]. solve_calm.
  - apply host_do_calm. solve_jcalm.
Qed.
#[export] Instance context_writes : HostWrites calm_context.
Proof.
  split; intros; simpl; try (apply host_try_calm; solve_calm); apply host_do_calm; solve_jcalm.
Qed.
End context_host.

(** ** Running a frame *)

Section loop.
Context {DB DbErr : Type} `{HDB : Database DB DbErr} `{HL : !DatabaseLegacy DB DbErr} `{HK : Keccak}
  `{HC : CreateAddress}.
Abbreviation Ctx := (EvmContext (DB := DB) (DbErr := DbErr)).
Implicit Types (c : Ctx).

Definition frame_left (f : Frame) : Z := remaining (in_gas (frame_interpreter f)).

Lemma frame_interpreter_set i f : frame_interpreter (set_frame_interpreter i f) = i.
Proof. by destruct f. Qed.
Lemma frame_kind_set i f :
  match f with Frame_EOFCreate _ _ _ => False | _ => True end ->
  match set_frame_interpreter i f with Frame_EOFCreate _ _ _ => False | _ => True end.
Proof. by destruct f. Qed.

(** The context at depth [n] of a spec. *)
Record context_at (sp : SpecId) (n : Z) (c : Ctx) : Prop := {
  ca_legacy : legacy_world c.2.1;
  ca_spec : spec c.2.1.1 = sp;
  ca_depth : depth c.2.1.1 = n;
}.

(** The fuel of a frame does not run out. *)
Lemma frame_fuel_enough sp0 i memory c :
  fits 64 (remaining (in_gas i)) -> (run (frame_fuel i) sp0 memory (i, c)).1 <> Ok None.
Proof. intros Hg. apply (run_fuel_enough sp0 memory i c Hg). Qed.

Lemma execute_frame_spec sp0 sp n f memory c :
  frame_fine f -> context_at sp n c ->
  wp (execute_frame sp0 f memory) (fun r c' =>
    let '(a, f', _) := r in
    frame_fine f' /\ context_at sp n c' /\ frame_left f' <= frame_left f /\
    action_is_paid (frame_left f) (frame_left f') a) c.
Proof.
  intros [Hk He Hg] [L S D]. apply wp_intro. intros [[a f'] mem'] c' H. unfold execute_frame in H.
  destruct (run _ sp0 memory (frame_interpreter f, c)) as [[[o|]| |] [i1 c1]] eqn:Hr; try done.
  injection H as <- <- <- <-.
  apply run_is_paid in Hr as Hp; [|done..]. destruct Hp as (Hp & Hg1 & Hle & B).
  eapply (keeps_run false calm_context) in Hr; [|apply _|done|done]. specialize (Hr L). destruct Hr as [Hd Hs Hl].
  split_and!.
  - split; rewrite ?frame_interpreter_set; [by apply frame_kind_set| |done]. simpl. by rewrite (bs_eof _ _ B).
  - split; [done|congruence|congruence].
  - unfold frame_left. by rewrite frame_interpreter_set.
  - unfold frame_left. by rewrite frame_interpreter_set.
Qed.

Lemma wp_on_inner {A} (m : M (JournaledState * DB) (EVMError DbErr) A) (Q : A -> Ctx -> Prop) c :
  wp m (fun a s' => Q a (c.1, (s', c.2.2))) c.2.1 -> wp (on_inner m) Q c.
Proof. intros Hm. apply wp_zoom, wp_zoom. exact Hm. Qed.
Lemma wp_take_error {Q : unit -> Ctx -> Prop} c : Q tt c -> wp (on_evm take_error) Q c.
Proof.
  intros HQ. apply wp_zoom. unfold wp, take_error. destruct c as [env [s [e|]]]; [done|exact HQ].
Qed.

Lemma context_moved sp n c :
  context_at sp (n + 1) c -> exists s, moved 1 s c.2.1 /\ spec s.1 = sp /\ depth s.1 = n.
Proof.
  intros [L S D]. exists (set_depth (fun _ => n) c.2.1.1, c.2.1.2). split; [|done]. by split.
Qed.
Lemma moved_context sp n c s t : moved n s t -> spec s.1 = sp -> context_at sp (depth s.1 + n) (c.1, (t, c.2.2)).
Proof. intros [L S D] <-. by split. Qed.

(** ** Returning from a frame *)

Lemma wp_call_return r cp (Q : unit -> JournaledState * DB -> Prop) s t :
  moved 1 s t -> 0 <= depth s.1 < 2 ^ 64 - 1 -> (forall t', moved 0 s t' -> Q tt t') ->
  wp (call_return (DbErr := DbErr) r cp) Q t.
Proof. intros. unfold call_return. case_match; [by eapply wp_commit|by eapply wp_revert]. Qed.

Lemma wp_create_return sp0 env r address cp g (Q : InterpreterResult -> JournaledState * DB -> Prop) s t :
  moved 1 s t -> 0 <= depth s.1 < 2 ^ 64 - 1 -> 0 <= remaining (ir_gas r) <= g -> g < 2 ^ 64 ->
  (forall r' t', 0 <= remaining (ir_gas r') <= g -> moved 0 s t' -> Q r' t') ->
  wp (create_return (DbErr := DbErr) sp0 env r address cp) Q t.
Proof.
  intros Mt Hb Hr Hg HQ. unfold create_return.
  assert (Hrev : forall r' t', 0 <= remaining (ir_gas r') <= g -> moved 1 s t' ->
    wp (_ ← on_js (DB := DB) (DbErr := DbErr) (checkpoint_revert cp); mret r') Q t').
  { intros r' t' Hr' Mt'. eapply wp_revert_with; [done..|]. auto. }
  case_match; [by apply Hrev|]. case_match; [by apply Hrev|]. case_match; [by apply Hrev|]. cbv zeta.
  pose proof (record_cost_within (wrapping_mul 64 (len (ir_output r)) CODEDEPOSIT) (ir_gas r)) as Hc.
  destruct (record_cost _ _) as [ok gas']. simpl in Hc.
  assert (Hgas : 0 <= remaining gas' <= g) by (specialize (Hc ltac:(apply Z.mod_pos_bound; lia)); lia).
  case_match; [by apply Hrev|]. 
  apply wp_bind, (wp_commit _ s t Mt Hb). intros t' Mt'.
  apply wp_bind. eapply wp_calms; [exact Mt'|apply calms_on_js, jcalms_set_code; by case_match|].
  intros _ t2 _ M2. apply wp_ret, HQ; [|done]. by destruct ok.
Qed.

Lemma frame_return_spec sp0 sp n f r g c :
  frame_fine f -> context_at sp (n + 1) c -> 0 <= n < 2 ^ 64 - 1 -> 0 <= remaining (ir_gas r) <= g -> g < 2 ^ 64 ->
  wp (frame_return sp0 f r) (fun fr c' => result_fine g fr /\ context_at sp n c') c.
Proof.
  intros [Hk _ _] Hc Hn Hr Hg. apply context_moved in Hc as (s & Ms & Hs & Hd).
  unfold frame_return. apply wp_bind. destruct c as [env [t err]]. cbn [snd fst] in *.
  unfold wp at 1, get. destruct f; [..|done]; apply wp_bind, wp_on_inner; cbn [snd fst].
  - apply (wp_call_return _ _ _ s t Ms); [lia|]. intros t' Mt. apply wp_ret. split; [by split|].
    pose proof (moved_context sp 0 (env, (t, err)) s t' Mt Hs) as Hc. rewrite Hd in Hc. by rewrite Z.add_0_r in Hc.
  - apply (wp_create_return _ _ _ _ _ g _ s t Ms); [lia|done|done|]. intros r' t' Hr' Mt. apply wp_ret.
    split; [by split|]. pose proof (moved_context sp 0 (env, (t, err)) s t' Mt Hs) as Hc.
    rewrite Hd in Hc. by rewrite Z.add_0_r in Hc.
Qed.

(** ** The invariant of the loop *)

(** The gas of all the frames. *)
Definition gas_of (fs : list Frame) : Z := foldr (fun f a => frame_left f + a) 0 fs.
Lemma gas_of_nonneg fs : Forall frame_fine fs -> 0 <= gas_of fs.
Proof. induction 1 as [|f fs [_ _ [Hf _]] _ IH]; simpl; [done|]. unfold frame_left. lia. Qed.

Context (ps : ContextPrecompiles (DB := DB)) (Hps : precompiles_fine (DbErr := DbErr) ps).
Context (sp : SpecId) (n0 : Z) (Hn0 : 0 <= n0).

(** Frames of legacy code, as many as there are calls, no deeper than the limit
    of the stack allows. *)
Record loop_inv (l : LoopState) (c : Ctx) : Prop := {
  li_context : context_at sp (n0 + len (call_stack l)) c;
  li_frames : Forall frame_fine (call_stack l);
  li_depth : n0 + len (call_stack l) <= CALL_STACK_LIMIT + 1;
}.

(** A frame to enter, or a result to hand on, with [g] gas. *)
Record pending (g : Z) (fr : FrameOrResult) (l : LoopState) (c : Ctx) : Prop := {
  pd_what : match fr with
    | FOR_Frame f =>
        frame_fine f /\ frame_left f <= g /\ context_at sp (n0 + len (call_stack l) + 1) c /\
        n0 + len (call_stack l) <= CALL_STACK_LIMIT
    | FOR_Result r => result_fine g r /\ context_at sp (n0 + len (call_stack l)) c
    end;
  pd_frames : Forall frame_fine (call_stack l);
  pd_depth : n0 + len (call_stack l) <= CALL_STACK_LIMIT + 1;
}.
Definition enters (fr : FrameOrResult) : Z := match fr with FOR_Frame _ => 1 | FOR_Result _ => 0 end.

Lemma insert_outcome_spec r f memory g c :
  result_fine g r -> frame_fine f -> frame_left f + g < 2 ^ 64 ->
  wp (insert_outcome r f memory) (fun '(f', _) c' =>
    frame_fine f' /\ frame_left f' <= frame_left f + g /\ c'.2.1 = c.2.1) c.
Proof.
  intros [Hk Hr] [Hfk Hfe Hfg] Hlt. unfold insert_outcome. apply wp_bind, wp_take_error. cbv zeta.
  assert (Hins : forall i', outcome_inserted (frame_interpreter f) i' (frame_gas r) ->
    frame_fine (set_frame_interpreter i' f) /\ frame_left (set_frame_interpreter i' f) <= frame_left f + g).
  { intros i' [Hg He]. unfold frame_left in *. destruct Hfg. 
    assert (Hi : 0 <= remaining (in_gas i') <= remaining (in_gas (frame_interpreter f)) + g).
    { destruct Hg as [->| ->]; [lia|]. rewrite wrapping_add_fits by (unfold fits; lia). lia. }
    split; [|rewrite frame_interpreter_set; lia].
    split; rewrite ?frame_interpreter_set; [by apply frame_kind_set|congruence|unfold fits; lia]. }
  destruct r as [o|o|o]; [..|done]; apply wp_bind, wp_lift.
  - intros [[] [i' m']] H. unfold pure_outcome in H.
    destruct (insert_call_outcome _ _) as [[[]|[]|] [i2 m2]] eqn:Hi; simplify_eq.
    apply insert_call_gas in Hi. apply wp_ret. destruct (Hins _ Hi). done.
  - intros [[] i'] H. unfold pure_outcome in H.
    destruct (insert_create_outcome _ _) as [[[]|[]|] i2] eqn:Hi; simplify_eq.
    apply insert_create_gas in Hi. apply wp_ret. destruct (Hins _ Hi). done.
Qed.

Lemma handle_result_spec g fr l c :
  pending g fr l c -> 0 <= g -> gas_of (call_stack l) + g < 2 ^ 64 ->
  wp (handle_result fr l) (fun r c' =>
    match r with
    | inl r => result_fine g r /\ context_at sp n0 c'
    | inr l' =>
        loop_inv l' c' /\ gas_of (call_stack l') <= gas_of (call_stack l) + g /\
        len (call_stack l') = len (call_stack l) + enters fr
    end) c.
Proof.
  intros [Hw Hfs Hd] Hg Hlt. destruct fr as [f|r]; cbn [handle_result enters].
  - destruct Hw as (Hf & Hfg & Hc & Hlim). apply wp_ret. cbn [call_stack]. rewrite len_cons. split_and!; [|simpl; lia|lia].
    split; cbn [call_stack]; rewrite ?len_cons; [|by constructor|lia].
    by replace (n0 + (1 + len (call_stack l))) with (n0 + len (call_stack l) + 1) by lia.
  - destruct Hw as [Hr Hc]. destruct l as [[|f fs] mem]; cbn [call_stack loop_memory] in *.
    { apply wp_ret. by rewrite Z.add_0_r in Hc. }
    apply Forall_cons in Hfs as [Hf Hfs]. pose proof (gas_of_nonneg _ Hfs). simpl in Hlt.
    apply wp_bind. eapply wp_mono; [apply (insert_outcome_spec _ _ _ g); [done..|lia]|].
    intros [f' m'] c' (Hf' & Hle & Heq). apply wp_ret. cbn [call_stack]. rewrite !len_cons in *.
    split_and!; [|simpl; lia|lia]. split; cbn [call_stack]; rewrite ?len_cons; [|by constructor|lia].
    destruct Hc as [L S D]. split; by rewrite Heq.
Qed.

(** What follows a run: with [g] gas in the frame to enter or in the result, the
    gas is at most [total], and gas and frames together are fewer than before. *)
Definition leads (total frames : Z) (r : FrameOrResult * LoopState) (c : Ctx) : Prop :=
  exists g, 0 <= g /\ pending g r.1 r.2 c /\ gas_of (call_stack r.2) + g <= total /\
    2 * (gas_of (call_stack r.2) + g) + len (call_stack r.2) + enters r.1 < 2 * total + frames.

Lemma leads_entered (m : M (JournaledState * DB) (EVMError DbErr) FrameOrResult) top rest memory g g0 c :
  frame_fine top -> Forall frame_fine rest -> context_at sp (n0 + len rest + 1) c ->
  n0 + len rest <= CALL_STACK_LIMIT -> 0 <= g -> frame_left top + g < g0 -> wp m (entered g c.2.1) c.2.1 ->
  wp (r ← on_inner m; mret (r, mkLoop (top :: rest) memory))
    (leads (g0 + gas_of rest) (len rest + 1)) c.
Proof.
  intros Ht Hr [L S D] Hd Hg Hl Hm. apply wp_bind, wp_on_inner. eapply wp_mono; [exact Hm|]. intros fr t' He.
  apply wp_ret. exists g. cbn [fst snd call_stack gas_of foldr]. rewrite len_cons. pose proof (len_nonneg rest).
  assert (Hmv : forall n, moved n c.2.1 t' -> context_at sp (n0 + (1 + len rest) + n) (c.1, (t', c.2.2))).
  { intros n Mt. pose proof (moved_context sp n c c.2.1 t' Mt S) as Hcx. rewrite D in Hcx.
    by replace (n0 + (1 + len rest) + n) with (n0 + len rest + 1 + n) by lia. }
  split_and!; [done| |fold (gas_of rest); lia|fold (gas_of rest); destruct fr; simpl; lia].
  split; cbn [call_stack]; rewrite ?len_cons; [|by constructor|unfold CALL_STACK_LIMIT in *; lia].
  destruct fr as [f|r].
  - destruct He as (Hf & Hrem & Mt & Hlim). split_and!; [done|unfold frame_left; lia|by apply Hmv|].
    rewrite D in Hlim. lia.
  - destruct He as [Hf Mt]. split; [done|]. specialize (Hmv 0 Mt). by rewrite Z.add_0_r in Hmv.
Qed.

Lemma handle_action_spec sp0 a top rest memory g0 c :
  frame_fine top -> Forall frame_fine rest -> context_at sp (n0 + len rest + 1) c ->
  n0 + len rest <= CALL_STACK_LIMIT -> g0 + gas_of rest < 2 ^ 64 -> action_is_paid g0 (frame_left top) a ->
  wp (handle_action ps sp0 a top rest memory) (leads (g0 + gas_of rest) (len rest + 1)) c.
Proof.
  intros Ht Hr Hc Hd Hlt Hp. unfold handle_action. apply wp_bind.
  pose proof (len_nonneg rest). pose proof (gas_of_nonneg rest Hr). pose proof (ff_gas _ Ht) as [Htop _].
  fold (frame_left top) in Htop. pose proof (ca_legacy _ _ _ Hc) as L. pose proof (ca_depth _ _ _ Hc) as D.
  unfold wp at 1, get. destruct c as [env [t err]]. cbn [fst snd] in *.
  destruct a as [inputs|inputs|inputs|result|]; cbn [action_is_paid] in Hp.
  - apply (leads_entered _ _ _ _ (ci_gas_limit inputs)); try done; [lia..|].
    apply make_call_frame_spec; [done|done|split; lia|cbn [fst snd]; lia].
  - apply (leads_entered _ _ _ _ (cr_gas_limit inputs)); try done; [lia..|].
    apply make_create_frame_spec; [done|split; lia|cbn [fst snd]; lia].
  - done.
  - apply wp_bind. eapply wp_mono; [apply (frame_return_spec sp0 sp (n0 + len rest) top result g0)|]; [done..| | |lia|].
    + unfold CALL_STACK_LIMIT in *. lia.
    + done.
    + intros fr c' [Hf Hc']. apply wp_ret. exists g0. cbn [fst snd call_stack enters]. split_and!; [lia| |lia|lia].
      split; cbn [call_stack]; [by split|done|unfold CALL_STACK_LIMIT in *; lia].
  - by apply wp_lift.
Qed.

Lemma loop_step_spec sp0 l c :
  loop_inv l c -> gas_of (call_stack l) < 2 ^ 64 ->
  wp (loop_step ps sp0 l) (fun r c' =>
    match r with
    | inl r => result_fine (gas_of (call_stack l)) r /\ context_at sp n0 c'
    | inr l' =>
        loop_inv l' c' /\ gas_of (call_stack l') <= gas_of (call_stack l) /\
        2 * gas_of (call_stack l') + len (call_stack l') < 2 * gas_of (call_stack l) + len (call_stack l)
    end) c.
Proof.
  intros [Hc Hfs Hd] Hlt. unfold loop_step. destruct l as [[|top rest] memory]; cbn [call_stack loop_memory] in *.
  { by apply wp_lift. }
  apply Forall_cons in Hfs as [Ht Hr]. rewrite len_cons in *.
  replace (n0 + (1 + len rest)) with (n0 + len rest + 1) in Hc by lia.
  change (gas_of (top :: rest)) with (frame_left top + gas_of rest) in *.
  apply wp_bind. eapply wp_mono; [eapply (execute_frame_spec sp0 sp); [done|exact Hc]|].
  intros [[a top'] memory'] c1 (Ht' & Hc1 & _ & Hp). apply wp_bind, wp_take_error.
  apply wp_bind. eapply wp_mono; [apply (handle_action_spec _ _ _ rest _ (frame_left top)); [done|done|done|lia|done|done]|].
  intros [fr l] c2 (g & Hg & Hpd & Hle & Hm). cbn [fst snd] in *.
  eapply wp_mono; [apply (handle_result_spec g); [done|done|lia]|]. pose proof (gas_of_nonneg _ (pd_frames _ _ _ _ Hpd)).
  intros [r|l'] c'; [|intros (Hl' & Hg' & Hn'); split_and!; [done|lia|lia]].
  intros [[Hk Hrg] Hc']. split; [|done]. split; [done|lia].
Qed.

Lemma frames_loop_ends sp0 n : forall fuel l c,
  loop_inv l c -> gas_of (call_stack l) < 2 ^ 64 ->
  2 * gas_of (call_stack l) + len (call_stack l) <= Z.of_nat n -> (n < fuel)%nat ->
  frames_loop ps fuel sp0 l c = frames_loop ps (S n) sp0 l c /\ (frames_loop ps (S n) sp0 l c).1 <> Ok None.
Proof.
  induction n as [n IH] using lt_wf_ind. intros [|fuel] l c Hinv Hlt Hn Hf; [lia|].
  pose proof (loop_step_spec sp0 l c Hinv Hlt) as Hs.
  cbn [frames_loop]. unfold mbind, M_bind. unfold wp in Hs.
  destruct (loop_step ps sp0 l c) as [[[r|l']|e|] c'] eqn:Hstep; [done| |done..].
  destruct Hs as (Hinv' & Hg' & Hm'). pose proof (gas_of_nonneg _ (li_frames _ _ Hinv')).
  pose proof (len_nonneg (call_stack l')). destruct n as [|n]; [lia|].
  apply IH; [lia|done|lia|lia|lia].
Qed.

Lemma frames_loop_spec sp0 fuel l c :
  loop_inv l c -> gas_of (call_stack l) < 2 ^ 64 ->
  wp (frames_loop ps fuel sp0 l) (fun r c' =>
    match r with
    | Some r => result_fine (gas_of (call_stack l)) r /\ context_at sp n0 c'
    | None => True
    end) c.
Proof.
  revert l c. induction fuel as [|fuel IH]; intros l c Hinv Hlt; cbn [frames_loop]; [by apply wp_ret|].
  apply wp_bind. eapply wp_mono; [by apply loop_step_spec|]. intros [r|l'] c'; [intros H; by apply wp_ret|].
  intros (Hinv' & Hg' & _). eapply wp_mono; [apply IH; [done|lia]|]. intros [r|] c2; [|done].
  intros [[Hk Hr] Hc]. split; [|done]. split; [done|lia].
Qed.
End loop.

(** ** Enough fuel *)

Section settles.
Context {S E : Type}.
Implicit Types (c : S).

(** With more fuel than [n], a computation has one outcome, and does not run
    out of fuel. *)
Definition settles {A} (n : Z) (m : nat -> M S E (option A)) (c : S) : Prop :=
  exists r c', r <> Ok None /\ forall fuel, n < Z.of_nat fuel -> m fuel c = (r, c').

Lemma settles_fixed {A} n (m : M S E A) c : settles n (fun _ => a ← m; mret (Some a)) c.
Proof.
  unfold settles, mbind, M_bind. destruct (m c) as [[a|e|] c'] eqn:Hm;
    [exists (Ok (Some a)), c'|exists (Err e), c'|exists Panic, c']; done.
Qed.
Lemma settles_bind_l {A B} n (m : M S E A) (f : A -> nat -> M S E (option B)) c :
  wp m (fun a => settles n (f a)) c -> settles n (fun fuel => a ← m; f a fuel) c.
Proof.
  unfold settles, wp, mbind, M_bind. destruct (m c) as [[a|e|] c'] eqn:Hm; [done| |].
  - intros _. exists (Err e), c'. done.
  - intros _. exists Panic, c'. done.
Qed.
Lemma settles_bind_r {A B} n (m : nat -> M S E (option A)) (f : A -> M S E B) c :
  settles n m c ->
  settles n (fun fuel => o ← m fuel; match o with None => mret None | Some a => b ← f a; mret (Some b) end) c.
Proof.
  intros (r & c1 & Hr & Hm). destruct r as [[a|]|e|]; [|done|..].
  - destruct (settles_fixed n (f a) c1) as (r2 & c2 & Hr2 & Hf). exists r2, c2. split; [done|].
    intros fuel Hfu. unfold mbind at 1, M_bind. rewrite (Hm fuel Hfu). by apply (Hf fuel).
  - exists (Err e), c1. split; [done|]. intros fuel Hfu. unfold mbind, M_bind. by rewrite (Hm fuel Hfu).
  - exists Panic, c1. split; [done|]. intros fuel Hfu. unfold mbind, M_bind. by rewrite (Hm fuel Hfu).
Qed.
End settles.

(** ** Transactions *)

Section transaction.
Context {DB DbErr : Type} `{HDB : Database DB DbErr} `{HL : !DatabaseLegacy DB DbErr} `{HK : Keccak}
  `{HC : CreateAddress}.
Abbreviation Ctx := (EvmContext (DB := DB) (DbErr := DbErr)).
Abbreviation CM := (M Ctx (EVMError DbErr)).
Implicit Types (c : Ctx).

Lemma settles_then_clear {A} n (m : nat -> CM (option A)) c :
  settles n m c -> settles n (fun fuel => then_clear (m fuel)) c.
Proof.
  intros (r & c1 & Hr & Hm). unfold settles, then_clear.
  destruct r as [a|e|]; [exists (Ok a), (on_evm clear_context c1).2|exists (Err e), (on_evm clear_context c1).2
    |exists Panic, c1]; (split; [done|]); intros fuel Hfu; by rewrite (Hm fuel Hfu).
Qed.

(** One iteration of the loop that goes on. *)
Definition goes_on (ps : ContextPrecompiles (DB := DB)) (sp : SpecId) (s s' : LoopState * Ctx) : Prop :=
  loop_step ps sp s.1 s.2 = (Ok (inr s'.1), s'.2).

(** The first state of the loop satisfies its invariant. *)
Lemma first_loop_inv f c :
  frame_fine f -> legacy_world c.2.1 -> 1 <= depth c.2.1.1 <= CALL_STACK_LIMIT + 1 ->
  loop_inv (spec c.2.1.1) (depth c.2.1.1 - 1) (mkLoop [f] (new_context SharedMemory_new)) c /\
  gas_of [f] = frame_left f /\ 0 <= frame_left f < 2 ^ 64.
Proof.
  intros Hf Hl Hd. split_and!; [|simpl; lia|by apply ff_gas in Hf as []|by apply ff_gas in Hf as []].
  split; cbn [call_stack]; change (len [f]) with 1; [|by apply Forall_singleton|lia].
  split; [done|done|lia].
Qed.

(** C9: the bounds of the call stack.  In a world without EOF code, stored
    or served by the database, with precompiles that charge no negative gas and keep
    the depth and that world, from a first frame of legacy code at a depth of 1 to
    1025: whatever iteration the loop is in,
    its stack has as many frames as there are open calls, so never more than the 1025
    it has the capacity for; all of them run legacy code; and together they have at
    most the gas of the first frame.  When the loop ends with a result, every call is
    closed, and the result reports at most the gas of the first frame. (An EOFCREATE
    hands on gas that is not charged; that is why EOF code is excluded.)  *)
Theorem call_stack_is_bounded (ps : ContextPrecompiles (DB := DB)) sp f c :
  precompiles_fine (DbErr := DbErr) ps -> frame_fine f -> legacy_world c.2.1 ->
  1 <= depth c.2.1.1 <= CALL_STACK_LIMIT + 1 ->
  (forall l c', rtc (goes_on ps sp) (mkLoop [f] (new_context SharedMemory_new), c) (l, c') ->
     len (call_stack l) = depth c'.2.1.1 - (depth c.2.1.1 - 1) /\ len (call_stack l) <= CALL_STACK_LIMIT + 1 /\
     Forall frame_fine (call_stack l) /\ gas_of (call_stack l) <= frame_left f) /\
  (forall fuel r c', run_the_loop ps fuel sp f c = (Ok (Some r), c') ->
     depth c'.2.1.1 = depth c.2.1.1 - 1 /\ 0 <= remaining (frame_gas r) <= frame_left f).
Proof.
  intros Hps Hf Hl Hd. destruct (first_loop_inv f c Hf Hl Hd) as (Hinv & Hgas & Hlt). split.
  - intros l c' Hr.
    enough (loop_inv (spec c.2.1.1) (depth c.2.1.1 - 1) l c' /\ gas_of (call_stack l) <= frame_left f) as [[[_ _ Hdep] Hfs Hlim] Hg]
      by (split_and!; [lia|lia|done|done]).
    apply (rtc_ind_r (fun s => loop_inv (spec c.2.1.1) (depth c.2.1.1 - 1) s.1 s.2 /\ gas_of (call_stack s.1) <= frame_left f))
      in Hr; [done|split; [done|cbn [fst call_stack]; lia]|].
    intros [l1 c1] [l2 c2] _ Hstep [Hi Hg]. cbn [fst snd] in *.
    eapply wp_elim in Hstep; [|apply (loop_step_spec ps Hps (spec c.2.1.1) (depth c.2.1.1 - 1)); [lia|done|cbn [fst]; lia]]. destruct Hstep as (? & ? & _). split; [done|cbn [fst] in *; lia].
  - intros fuel r c' Hr. eapply wp_elim in Hr; [|apply (frames_loop_spec ps Hps (spec c.2.1.1) (depth c.2.1.1 - 1)); [lia|done|cbn [call_stack]; lia]].
    destruct Hr as [[_ Hrg] Hc]. cbn [call_stack] in Hrg. rewrite Hgas in Hrg. split; [by destruct Hc|done].
Qed.

(** The loop over the call stack ends.  From a frame of legacy code, at most
    1024 calls deep, in a world without EOF code, and with precompiles that
    charge no negative gas, twice the gas of the frame and two more iterations
    let the loop end, with a result, an error or a panic, and more fuel changes
    nothing. *)
Lemma run_the_loop_ends (ps : ContextPrecompiles (DB := DB)) sp f c :
  precompiles_fine (DbErr := DbErr) ps -> frame_fine f -> legacy_world c.2.1 ->
  1 <= depth c.2.1.1 <= CALL_STACK_LIMIT + 1 ->
  settles (2 * frame_left f + 1) (fun fuel => run_the_loop ps fuel sp f) c.
Proof.
  intros Hps Hf Hl Hd. destruct (first_loop_inv f c Hf Hl Hd) as (Hinv & Hgas & Hlt).
  set (n := Z.to_nat (2 * frame_left f + 1)).
  assert (Hends := fun fuel => frames_loop_ends ps Hps (spec c.2.1.1) (depth c.2.1.1 - 1) ltac:(lia) sp n fuel _ _ Hinv).
  cbn [call_stack] in Hends. rewrite Hgas in Hends. change (len [f]) with 1 in Hends.
  unfold settles, run_the_loop. destruct (frames_loop ps (S n) sp _ c) as [r c'] eqn:Hr. exists r, c'. split.
  - destruct (Hends (S n)) as [_ Hne]; [lia..|]. exact Hne.
  - intros fuel Hfu. by apply Hends; lia.
Qed.

(** *** The steps around the loop *)

(** A legacy world, with calls open or none, and what keeps it one. *)
Definition grounded (s : JournaledState * DB) : Prop := legacy_world s /\ 0 <= depth s.1.
Definition steady {A} (P : A -> Prop) (m : M (JournaledState * DB) (EVMError DbErr) A) : Prop :=
  forall s, grounded s -> wp m (fun a s' => P a /\ grounded s') s.

Lemma steady_calms {A} (P : A -> Prop) (m : M (JournaledState * DB) (EVMError DbErr) A) : calms P m -> steady P m.
Proof.
  intros Hm s [L D]. apply wp_intro. intros a s' H. apply Hm in H as [[Hd _ Hl] HP]; [|done].
  split; [by apply HP|]. split; [done|lia].
Qed.
Lemma steady_bind {A B} (P : A -> Prop) (Q : B -> Prop) (m : M (JournaledState * DB) (EVMError DbErr) A) f :
  steady P m -> (forall a, P a -> steady Q (f a)) -> steady Q (m ≫= f).
Proof.
  intros Hm Hf s Hs. apply wp_bind. eapply wp_mono; [by apply Hm|]. intros a s' [HP Hs']. by apply (Hf a HP).
Qed.
Lemma steady_modify (f : JournaledState -> JournaledState) :
  (forall j, depth (f j) = depth j /\ state (f j) = state j) -> steady (fun _ => True) (on_js (modify f)).
Proof.
  intros Hf s [[L Ld] D]. split; [done|]. destruct (Hf s.1) as [Hd Hs].
  split; [split; [cbn; by rewrite Hs|done]|cbn; by rewrite Hd].
Qed.

Lemma wp_steady {A} (P : A -> Prop) (m : M (JournaledState * DB) (EVMError DbErr) A) (Q : A -> Ctx -> Prop) c :
  steady P m -> grounded c.2.1 -> (forall a c', P a -> grounded c'.2.1 -> c'.1 = c.1 -> Q a c') -> wp (on_inner m) Q c.
Proof.
  intros Hm Hc HQ. apply wp_on_inner. eapply wp_mono; [by apply Hm|]. intros a s' [HP Hs']. by apply HQ.
Qed.

Lemma calms_check_token_ids tokens : calms (fun _ => True) (check_token_ids (DbErr := DbErr) (DB := DB) tokens).
Proof.
  induction tokens as [|token rest IH]; cbn [check_token_ids]; [by apply calms_ret|].
  apply calms_bind; [apply calms_gets|intros db]. destruct (is_token_id_valid db _) as [[]|e|];
    [exact IH|apply calms_fail..|apply calms_lift_any].
Qed.

(** An update with a value that is not EOF code. *)
Lemma calms_replace a x : legacy_account x ->
  calms (fun _ => True) (on_js (DB := DB) (DbErr := DbErr) (update_account a (fun _ => x))).
Proof. intros Hx. by apply calms_on_js, jcalms_update. Qed.

Lemma validated_code sp env x y : validate_tx_against_state sp env x = Ok y -> code (info y) = code (info x).
Proof.
  intros H. unfold validate_tx_against_state in H. inv_bind H. injection H as <-.
  repeat case_match; try discriminate; by simplify_eq.
Qed.

Lemma calms_tx_against_state sp env : calms (fun _ => True) (tx_against_state (DB := DB) (DbErr := DbErr) sp env).
Proof.
  unfold tx_against_state. apply calms_bind; [apply calms_check_token_ids|intros _].
  eapply calms_bind_with; [apply calms_load_account|]. intros [x is_cold] Hx. cbn [fst] in Hx.
  eapply (calms_bind_with legacy_account); [|intros y; apply calms_replace].
  apply calms_lift. intros y Hy. destruct (validate_tx_against_state sp env x) eqn:Hv; simplify_eq/=.
  apply validated_code in Hv. unfold legacy_account. by rewrite Hv.
Qed.

Lemma deducted_code {E} sp x env y : deduct_caller_inner (E := E) sp x env = Ok y -> code (info y) = code (info x).
Proof. intros H. unfold deduct_caller_inner in H. inv_bind H. injection H as <-. by destruct (TT_is_call _). Qed.

Lemma calms_deduct_caller sp env : calms (fun _ => True) (deduct_caller (DB := DB) (DbErr := DbErr) sp env).
Proof.
  unfold deduct_caller. eapply calms_bind_with; [apply calms_load_account|]. intros [x is_cold] Hx. cbn [fst] in Hx.
  eapply (calms_bind_with legacy_account); [|intros y; apply calms_replace].
  apply calms_lift. intros y Hy. apply deducted_code in Hy. unfold legacy_account. by rewrite Hy.
Qed.

Lemma calms_access_list env : calms (fun _ => True) (load_access_list (DB := DB) (DbErr := DbErr) env).
Proof.
  unfold load_access_list. induction (access_list (tx env)) as [|[a slots] l IH]; cbn [load_accounts_slots];
    [by apply calms_ret|]. apply calms_bind; [apply calms_initial_account_load|done].
Qed.

Lemma steady_load_accounts sp env : steady (fun _ => True) (load_accounts (DB := DB) sp env).
Proof.
  unfold load_accounts. apply (steady_bind (fun _ => True)); [by apply steady_modify|intros _ _].
  apply steady_calms. repeat (apply calms_bind; [|intros _]); [..|apply calms_access_list];
    (case_match; [|by apply calms_ret]); (apply calms_bind; [apply calms_initial_account_load|intros _; by apply calms_ret]).
Qed.

Lemma initial_tx_gas_nonneg sp env g :
  initial_tx_gas (DbErr := DbErr) sp env = Ok g -> 0 <= g <= tx_gas_limit (tx env).
Proof.
  intros H. unfold initial_tx_gas in H. inv_bind H. destruct (Z.ltb_spec (tx_gas_limit (tx env)) x) as [|Hle]; [done|].
  injection H as <-. split; [|done]. unfold unwrap in Hx. destruct (validate_initial_tx_gas _ _ _ _ _) as [v|] eqn:Hv; [|done].
  injection Hx as <-. unfold validate_initial_tx_gas in Hv.
  assert (Ha : forall a b, 0 <= wrapping_add 64 a b) by (intros; apply Z.mod_pos_bound; lia).
  destruct (_ && _); [destruct (initcode_cost _); [|done]|]; simpl in Hv; injection Hv as <-; apply Ha.
Qed.

(** *** The whole transaction *)

Context (precompiles_of : SpecId -> ContextPrecompiles (DB := DB)).

Lemma preverify_keeps sp c :
  grounded c.2.1 ->
  wp (preverify_transaction_inner sp) (fun g c' => 0 <= g <= tx_gas_limit (tx c.1) /\ grounded c'.2.1 /\ c'.1 = c.1) c.
Proof.
  intros Hc. unfold preverify_transaction_inner. apply wp_bind. destruct c as [env s]. unfold wp at 1, get.
  apply wp_bind, wp_lift. intros [] _. apply wp_bind, wp_lift. intros g Hg. apply initial_tx_gas_nonneg in Hg.
  apply wp_bind, (wp_steady (fun _ => True)); [apply steady_calms, calms_tx_against_state|done|].
  intros [] c' _ Hc' He. apply wp_ret. done.
Qed.

(** What entering a call or a creation promises to the loop. *)
Definition ready (gas_limit : Z) (fr : FrameOrResult) (s : JournaledState * DB) : Prop :=
  match fr with
  | FOR_Frame f =>
      frame_fine f /\ frame_left f = gas_limit /\ legacy_world s /\ 1 <= depth s.1 <= CALL_STACK_LIMIT + 1
  | FOR_Result _ => True
  end.

Lemma entered_ready gas_limit s fr s' :
  legacy_world s -> 0 <= depth s.1 -> entered gas_limit s fr s' -> ready gas_limit fr s'.
Proof.
  intros Hl Hd. destruct fr as [f|r]; [|done]. intros (Hf & Hr & [L S D] & Hlim). split_and!; [done..|lia|lia].
Qed.

(** The first frame, or the result when there is none. *)
Lemma first_frame_entered sp gas_limit c :
  precompiles_fine (DbErr := DbErr) (precompiles_of sp) -> grounded c.2.1 -> fits 64 gas_limit ->
  wp (first_frame precompiles_of sp gas_limit) (fun fr c' => entered gas_limit c.2.1 fr c'.2.1) c.
Proof.
  intros Hps [Hl Hd] Hg. unfold first_frame. apply wp_bind. destruct c as [env [t err]]. unfold wp at 1, get. cbn [fst snd] in *.
  destruct (transact_to (tx env)) eqn:Hto; apply wp_bind, wp_lift; intros inputs Hi; apply wp_on_inner.
  - unfold CallInputs_new in Hi. rewrite Hto in Hi. injection Hi as <-.
    eapply wp_mono; [apply make_call_frame_spec; [by apply native_tokens_fine|done|exact Hg|done]|done].
  - unfold CreateInputs_new in Hi. rewrite Hto in Hi. injection Hi as <-.
    eapply wp_mono; [apply make_create_frame_spec; [done|exact Hg|done]|done].
Qed.
Lemma first_frame_spec sp gas_limit c :
  precompiles_fine (DbErr := DbErr) (precompiles_of sp) -> grounded c.2.1 -> fits 64 gas_limit ->
  wp (first_frame precompiles_of sp gas_limit) (fun fr c' => ready gas_limit fr c'.2.1) c.
Proof.
  intros Hps Hc Hg. eapply wp_mono; [by apply first_frame_entered|]. intros fr c' H. eapply entered_ready; [..|exact H]; apply Hc.
Qed.

(** The result of the first call or creation reports at most its gas. *)
Lemma first_result_gas sp fuel gas_limit s fr c r c' :
  precompiles_fine (DbErr := DbErr) (precompiles_of sp) -> grounded s -> entered gas_limit s fr c.2.1 ->
  run_first_frame precompiles_of fuel sp fr c = (Ok (Some r), c') -> 0 <= remaining (frame_gas r) <= gas_limit.
Proof.
  intros Hps [Hl Hd] He H. destruct fr as [f|r'].
  - destruct (entered_ready gas_limit s (FOR_Frame f) c.2.1 Hl Hd He) as (Hf & Hleft & Hl' & Hd').
    destruct (first_loop_inv f c Hf Hl' Hd') as (Hinv & Hgas & Hlt). rewrite <- Hleft. cbn [run_first_frame] in H.
    eapply wp_elim in H; [|apply (frames_loop_spec (load_precompiles precompiles_of sp) (native_tokens_fine _ Hps)
      (spec c.2.1.1) (depth c.2.1.1 - 1)); [lia|done|cbn [call_stack]; lia]].
    destruct H as [[_ Hr] _]. cbn [call_stack] in Hr. by rewrite Hgas in Hr.
  - injection H as <- _. by destruct He as [[_ Hr] _].
Qed.

(** Executing a transaction settles, with any precompiles that charge no negative
    gas: [transact] ends, with a result, an error or a panic, within twice the gas
    limit of the transaction and two more iterations of the loop over the call
    stack; more fuel changes nothing. *)
Lemma transact_settles sp c :
  precompiles_fine (DbErr := DbErr) (precompiles_of sp) -> legacy_world c.2.1 -> 0 <= depth c.2.1.1 ->
  fits 64 (tx_gas_limit (tx c.1)) ->
  settles (2 * tx_gas_limit (tx c.1) + 1) (fun fuel => transact precompiles_of fuel sp) c.
Proof.
  intros Hps Hl Hd Hg. unfold transact. apply settles_bind_l.
  assert (Hpre := preverify_keeps sp c (conj Hl Hd)). unfold wp, clear_on_error in *.
  destruct (preverify_transaction_inner sp c) as [[g|e|] c1]; [|done..]. destruct Hpre as (Hgi & Hc1 & He1).
  apply settles_then_clear. unfold transact_preverified_inner. rewrite <- He1 in *. clear Hl Hd He1 c.
  set (limit := tx_gas_limit (tx c1.1)) in *.
  apply settles_bind_l. destruct c1 as [env s1]. unfold wp at 1, get. cbn [fst snd] in *.
  apply settles_bind_l, (wp_steady (fun _ => True)); [apply steady_load_accounts|done|]. intros [] c2 _ Hc2 _.
  apply settles_bind_l, (wp_steady (fun _ => True)); [by apply steady_modify|done|]. intros [] c3 _ Hc3 _.
  apply settles_bind_l, (wp_steady (fun _ => True)); [apply steady_calms, calms_deduct_caller|done|].
  intros [] c4 _ Hc4 _. cbv zeta. fold limit.
  assert (Hfit : wrapping_sub 64 limit g = limit - g) by (apply wrapping_sub_fits; destruct Hg; unfold fits; lia).
  rewrite Hfit. apply settles_bind_l.
  eapply wp_mono; [apply first_frame_spec; [done|done|destruct Hg; unfold fits; lia]|].
  intros fr c5 Hfr. apply (settles_bind_r _ (fun fuel => run_first_frame precompiles_of fuel sp fr)).
  destruct fr as [f|r]; cbn [run_first_frame].
  - destruct Hfr as (Hf & Hleft & Hl5 & Hd5).
    destruct (run_the_loop_ends (load_precompiles precompiles_of sp) sp f c5) as (r & c6 & Hr & Hrun);
      [by apply native_tokens_fine|done..|].
    exists r, c6. split; [done|]. intros fuel Hfu. apply Hrun. lia.
  - exists (Ok (Some r)), c5. done.
Qed.
End transaction.

(** ** Witnesses *)

Section witnesses.
#[local] Existing Instances sample_hash sample_create_address.
#[local] Instance empty_database : Database EmptyDB False := EmptyDB_database.

(** The empty database serves no EOF code. *)
#[local] Program Instance empty_legacy : DatabaseLegacy EmptyDB False := {| db_legacy := fun _ => True |}.
Solve All Obligations with (simpl; intros; simplify_eq; repeat split; intros; by simplify_eq).

(** An account with code that loops, called with enough gas for the transaction
    and 100 more. *)
Definition looping_account : Account :=
  mkAccount (mkInfo (init_balances 0) 1 7 (Some (new_raw sample_code))) ∅ 0.
Definition looping_js (n : Z) : JournaledState :=
  mkJournaledState (mkEvmState {[ 9 := sample_payer; 8 := looping_account ]} [BASE_TOKEN_ID]) ∅ [] n [[]] CANCUN ∅.
Definition looping_tx : TxEnv := mkTxEnv 9 21100 10 (TT_Call 8) [] (Some 0) None [] (Some 2) [] None [].
Definition looping_context (n : Z) : EvmContext (DB := EmptyDB) (DbErr := False) :=
  (mkEnv CfgEnv_default sample_block looping_tx, ((looping_js n, tt), None)).
Definition no_precompiles : ContextPrecompiles (DB := EmptyDB) := ∅.

Lemma no_precompiles_fine : precompiles_fine (DbErr := False) no_precompiles.
Proof. intros a p Hp. discriminate Hp. Qed.
Lemma looping_world n : legacy_world (looping_js n, tt).
Proof.
  split; [|done]. intros a x Hx. cbn in Hx. apply lookup_insert_Some in Hx as [[_ <-]|[_ Hx]];
    [by intros ? [= <-]|]. apply lookup_singleton_Some in Hx as [_ <-]. by intros ? [= <-].
Qed.

Definition looping_frame : Frame :=
  Frame_Call (0, 0) (mkFrameData (mkCheckpoint 0 0) (sample_interpreter_on sample_code 100)).

Lemma call_stack_is_bounded_witness :
  match run_the_loop no_precompiles 5 CANCUN looping_frame (looping_context 1) with
  | (Ok (Some r), c') => depth c'.2.1.1 = 0 /\ 0 <= remaining (frame_gas r) <= 100
  | _ => False
  end.
Proof.
  destruct (call_stack_is_bounded no_precompiles CANCUN looping_frame (looping_context 1)
    no_precompiles_fine) as [_ Hb]; [by split|apply looping_world|by split|].
  destruct (run_the_loop _ 5 _ _ _) as [[[r|]|e|] c'] eqn:Hr; [exact (Hb 5%nat r c' Hr)|..];
    vm_compute in Hr; discriminate Hr.
Defined.

(** The loop runs out of gas. *)
Example looping_transaction_halts :
  match (transact (fun _ => no_precompiles) 5 CANCUN (looping_context 0)).1 with
  | Ok (Some r) => rs_result r = Halt (HR_OutOfGas OOG_Basic) 21100
  | _ => False
  end.
Proof. vm_compute. reflexivity. Qed.
End witnesses.
