(* ===== verification/StaticCalls.v ===== *)
(** A frame in static mode over the context of the virtual machine: what the
    accounts hold is not changed by it. *)

From S2P Require Import Prelude.
From S2P Require Import Specification.
From S2P Require Import Bytes.
From S2P Require Import Eof.
From S2P Require Import Bytecode.
From S2P Require Import State.
From S2P Require Import Result.
From S2P Require Import InstructionResult.
From S2P Require Import Database.
From S2P Require Import Journal.
From S2P Require Import CallInputs.
From S2P Require Import NativeTokens.
From S2P Require Import Gas.
From S2P Require Import SharedMemory.
From S2P Require Import Stack.
From S2P Require Import Analysis.
From S2P Require Import Env.
From S2P Require Import Interpreter.
From S2P Require Import Context.
From S2P Require Import Handler.
From S2P Require Import Instructions.
From S2P Require Import HostInstructions.
From S2P Require Import Opcode.
From S2P Require Import InterpreterSteps.
From S2P Require Import InterpreterSafety.
From S2P Require Import InterpreterLoop.
From S2P Require Import InterpreterGas.
From S2P Require Import Evm.
From S2P Require Import ContextSteps.
From S2P Require Import JournalSpec.
From S2P Require Import InMemoryDb.
From S2P Require Import Fees.
From S2P Require Import HostSafety.
From S2P Require Import EvmFrames.
From S2P Require Import EvmLoop.

(** ** What reading keeps *)

(** The account holds and stores what it did; slots may have been loaded, and its
    code. *)
Record account_kept (x x' : Account) : Prop := {
  ak_balances : balances (info x') = balances (info x);
  ak_nonce : nonce (info x') = nonce (info x);
  ak_code_hash : code_hash (info x') = code_hash (info x);
  ak_status : status x' = status x;
  ak_storage : storage x ⊆ storage x';
}.
#[export] Instance account_kept_preorder : PreOrder account_kept.
Proof. split; [done|]. intros x y z [] []. split; try congruence. by etrans. Qed.

(** Accounts may have been loaded; nothing else has changed, but the journal. *)
Record only_read (j j' : JournaledState) : Prop := {
  or_accounts : forall a x, accounts (state j) !! a = Some x ->
    exists x', accounts (state j') !! a = Some x' /\ account_kept x x';
  or_transient : transient_storage j' = transient_storage j;
  or_logs : logs j' = logs j;
  or_depth : depth j' = depth j;
  or_spec : spec j' = spec j;
}.
#[export] Instance only_read_preorder : PreOrder only_read.
Proof.
  split.
  - intros j. split; [|done..]. intros a x Hx. by exists x.
  - intros i j k [A1] [A2]. split; try congruence. intros a x Hx.
    destruct (A1 _ _ Hx) as (y & Hy & Hxy). destruct (A2 _ _ Hy) as (z & Hz & Hyz). exists z. split; [done|by etrans].
Qed.

(** Computations that only read, whatever they answer. *)
Definition reads {E A} (m : M JournaledState E A) : Prop := forall j r j', m j = (r, j') -> only_read j j'.

Section reads.
Context {E : Type}.
Lemma reads_bind {A B} (m : M JournaledState E A) (f : A -> M JournaledState E B) :
  reads m -> (forall a, reads (f a)) -> reads (m ≫= f).
Proof.
  intros Hm Hf j r j' H. apply M_bind_inv in H as [(a & s & H1 & H)|[(e & H & _)|[H _]]]; [|by eapply Hm..].
  etrans; [by eapply Hm|by eapply Hf].
Qed.
Lemma reads_same {A} (m : M JournaledState E A) : (forall j r j', m j = (r, j') -> j' = j) -> reads m.
Proof. intros Hm j r j' H. by rewrite (Hm _ _ _ H). Qed.
Lemma reads_push e : reads (E := E) (push_entry e).
Proof. intros j r j'. unfold push_entry. case_match; intros [= _ <-]; split; try done; intros a x Hx; by exists x. Qed.
Lemma reads_update a f : (forall x, account_kept x (f x)) -> reads (E := E) (update_account a f).
Proof.
  intros Hf. apply reads_bind; [by apply reads_same; intros j r j' [= _ <-]|]. intros _ j r j' [= _ <-].
  split; [|done..]. intros b x Hx. destruct (decide (b = a)) as [->|Hne].
  - exists (f x). split; [|done]. simpl. by rewrite lookup_alter_eq, Hx.
  - exists x. split; [|done]. simpl. by rewrite lookup_alter_ne by done.
Qed.

Lemma only_read_insert a x j : accounts (state j) !! a = None -> only_read j (set_state (set_accounts (<[a := x]>)) j).
Proof.
  intros Ha. split; [|done..]. intros b y Hy. exists y. split; [|done]. simpl. apply lookup_insert_Some. right.
  split; [congruence|done].
Qed.
Lemma only_read_slot a k v x j :
  accounts (state j) !! a = Some x -> storage x !! k = None ->
  only_read j (set_state (set_accounts (alter (set_storage (<[k := v]>)) a)) j).
Proof.
  intros Hx Hk. split; [|done..]. intros b y Hy. destruct (decide (b = a)) as [->|Hne].
  - exists (set_storage (<[k := v]>) y). simpl. rewrite lookup_alter_eq, Hy. split; [done|]. simplify_eq.
    split; try done. by apply insert_subseteq.
  - exists y. split; [|done]. simpl. by rewrite lookup_alter_ne by done.
Qed.
End reads.

Section context_reads.
Context {DB DbErr : Type} `{HDB : Database DB DbErr} `{HK : Keccak}.
Abbreviation EM E := (M (JournaledState * DB) E).

(** With a database. *)
Definition creads {E A} (m : EM E A) : Prop := forall s r s', m s = (r, s') -> only_read s.1 s'.1.

Lemma creads_bind {E A B} (m : EM E A) (f : A -> EM E B) : creads m -> (forall a, creads (f a)) -> creads (m ≫= f).
Proof.
  intros Hm Hf s r s' H. apply M_bind_inv in H as [(a & s1 & H1 & H)|[(e & H & _)|[H _]]]; [|by eapply Hm..].
  etrans; [by eapply Hm|by eapply Hf].
Qed.
Lemma creads_ret {E A} (a : A) : creads (E := E) (mret a).
Proof. by intros s r s' [= _ <-]. Qed.
Lemma creads_lift {E A} (o : outcome E A) : creads (lift o).
Proof. by intros s r s' [= _ <-]. Qed.
Lemma creads_gets {E A} (f : JournaledState * DB -> A) : creads (E := E) (gets f).
Proof. by intros s r s' [= _ <-]. Qed.
Lemma creads_on_js {A} (m : M JournaledState (EVMError DbErr) A) : reads m -> creads (on_js (DB := DB) m).
Proof.
  intros Hm s r s' H. unfold on_js, zoom in H. destruct (m s.1) as [r1 j1] eqn:H1. simplify_eq. by eapply Hm.
Qed.
Lemma on_db_journal {A} (m : M DB DbErr A) s r s' : on_db m s = (r, s') -> s'.1 = s.1.
Proof. unfold on_db, with_err, zoom. destruct (m s.2). by intros [= _ <-]. Qed.
Lemma creads_on_db {A} (m : M DB DbErr A) : creads (on_db m).
Proof. intros s r s' H. by rewrite (on_db_journal _ _ _ _ H). Qed.

Lemma creads_load_account a : creads (load_account (DB := DB) a).
Proof.
  intros s r s' H. unfold load_account in H. rewrite (M_bind_ok (gets fst) _ s s.1 s eq_refl) in H.
  destruct (accounts (state s.1) !! a) as [x|] eqn:Hx; [by injection H as _ <-|].
  apply M_bind_inv in H as [(o & s1 & H1 & H)|[(e & H & _)|[H _]]]; apply on_db_journal in H1 || apply on_db_journal in H;
    [|by rewrite H..]. rewrite <- H1 in Hx, H |- *. clear H1 s.
  destruct s1 as [j d]. unfold on_js, push_entry, modify, zoom, mbind, M_bind in H. cbn [fst snd] in *.
  destruct (push_last _ _) as [l|]; simpl in H; injection H as _ <-; [|done].
  etrans; [|by apply only_read_insert]. split; try done. intros b y Hy. by exists y.
Qed.

Lemma creads_load_account_exist a : creads (load_account_exist (DB := DB) a).
Proof.
  unfold load_account_exist. apply creads_bind; [apply creads_gets|intros sp].
  apply creads_bind; [apply creads_load_account|intros [x is_cold]; apply creads_ret].
Qed.
Lemma creads_update a f : (forall x, account_kept x (f x)) -> creads (on_js (DB := DB) (DbErr := DbErr) (update_account a f)).
Proof. intros Hf. by apply creads_on_js, reads_update. Qed.
Lemma creads_load_code a : creads (load_code (DB := DB) a).
Proof.
  unfold load_code. apply creads_bind; [apply creads_load_account|intros [x is_cold]].
  apply creads_bind.
  - case_match; [apply creads_ret|]. case_match; [by apply creads_update|].
    apply creads_bind; [apply creads_on_db|intros c; by apply creads_update].
  - intros _. apply creads_bind; [apply creads_on_js; by intros j r j' [= _ <-]|intros y; apply creads_ret].
Qed.

(** A slot that is not loaded is read and remembered. *)
Lemma creads_sload a k : creads (sload (DB := DB) a k).
Proof.
  intros s r s' H. unfold sload in H.
  apply M_bind_inv in H as [(x & s1 & H1 & H)|[(e & H & _)|[H _]]];
    [|unfold on_js, zoom, account in H; by injection H as _ <-..].
  unfold on_js, zoom, account, unwrap in H1. destruct (accounts (state s.1) !! a) as [y|] eqn:Hx; [|done].
  injection H1 as <- <-. replace (s.1, s.2) with s in H by (by destruct s).
  destruct (storage y !! k) eqn:Hk; [by injection H as _ <-|].
  apply M_bind_inv in H as [(v & s1 & H1 & H)|[(e & H & _)|[H _]]].
  2, 3: destruct (is_created y); [by injection H as _ <-|apply on_db_journal in H; by rewrite H].
  assert (Hs1 : s1.1 = s.1) by (destruct (is_created y); [by injection H1 as _ <-|by apply on_db_journal in H1]).
  rewrite <- Hs1 in Hx |- *. clear H1 Hs1 s.
  destruct s1 as [j d]. cbn [fst snd] in *. unfold on_js, push_entry, zoom, mbind, M_bind in H. cbn [fst snd] in *.
  destruct (push_last _ _) as [l|]; simpl in H; [|by injection H as _ <-].
  unfold update_account, account, mbind, M_bind, modify in H. cbn in H. rewrite Hx in H. cbn in H. injection H as _ <-.
  etrans; [|by eapply only_read_slot]. split; try done. intros b z Hz. by exists z.
Qed.

(** ** The context as a host *)

Definition context_only_read (c c' : EvmContext (DB := DB) (DbErr := DbErr)) : Prop :=
  c'.1 = c.1 /\ only_read c.2.1.1 c'.2.1.1.
#[export] Instance context_only_read_preorder : PreOrder context_only_read.
Proof. split; [done|]. intros a b c [E1 R1] [E2 R2]. split; [congruence|by etrans]. Qed.

Lemma host_try_reads {A} (m : EM (EVMError DbErr) A) : creads m -> host_keeps context_only_read (host_try m).
Proof.
  intros Hm c r c' H. unfold host_try in H. destruct (m c.2.1) as [r1 s1] eqn:H1. apply Hm in H1.
  by destruct r1; injection H as _ <-.
Qed.

#[export] Instance context_host_reads : HostReads context_only_read.
Proof.
  split; intros; simpl.
  - apply host_try_reads, creads_load_account_exist.
  - unfold context_block_hash. intros c r c' H. unfold mbind, M_bind, gets in H.
    repeat case_match; try (injection H as _ <-; reflexivity).
    eapply host_try_reads; [|done]. apply creads_on_db.
  - apply host_try_reads. unfold ctx_code. apply creads_bind; [apply creads_load_code|intros [x is_cold]].
    apply creads_bind; [apply creads_lift|intros code; apply creads_ret].
  - apply host_try_reads. unfold ctx_code_hash. apply creads_bind; [apply creads_load_code|intros [x is_cold]].
    apply creads_ret.
  - apply host_try_reads, creads_sload.
  - intros c r c' [= _ <-]. by split.
  - apply host_try_reads. unfold base_balance. apply creads_bind; [apply creads_load_account|intros [x is_cold]].
    apply creads_ret.
Qed.
End context_reads.

(** ** Theorem *)

(** C6: a static frame changes nothing.  Whatever the code, stopped after any
    number of steps, the run of a static frame over the context leaves every
    account that was loaded with its balances of every token, its nonce, its
    code hash, its status and the slots it had, and leaves the environment, the
    transient storage and the logs as they were: accounts, code and slots may
    have been loaded.  When legacy code stops with a request, it is a return, or
    a call that is static itself and moves no value to another account. *)
Theorem static_frame_changes_nothing {DB DbErr} `{HDB : Database DB DbErr} `{HK : Keccak} `{HC : CreateAddress}
  spec fuel memory i (c : EvmContext (DB := DB) (DbErr := DbErr)) r i' c' :
  fits 64 (remaining (in_gas i)) -> in_is_static i = true ->
  run fuel spec memory (i, c) = (r, (i', c')) ->
  c'.1 = c.1 /\ only_read c.2.1.1 c'.2.1.1 /\
  (forall a, in_is_eof i = false -> r = Ok (Some a) -> static_action a).
Proof.
  intros Hg Hs Hr. assert (Hk := Hr). eapply (keeps_run true context_only_read) in Hk as [He Ho]; [|done|done|done].
  split_and!; [done|done|]. intros a Heof ->. by eapply run_asks.
Qed.

(** ** Witness *)

Section witness.
#[local] Existing Instances sample_hash sample_create_address sample_db.

(** SLOAD of slot 1; a call of account 8 without value, in a static frame of
    account 9. *)
Definition sample_static_code : bytes :=
  [0x60; 1; 0x54; 0x5F; 0x5F; 0x5F; 0x5F; 0x5F; 0x60; 8; 0x61; 0xFF; 0xFF; 0xF1].
Definition sample_static : Interpreter :=
  mkInterpreter 0 (Gas_new 100000) (Contract_new [] (new_raw sample_static_code) None 9 2 []) IR_Continue
    (sample_static_code ++ replicate 33 0) false false EMPTY_SHARED_MEMORY Stack_new FunctionStack_new []
    true IA_None.
Definition sample_static_context : EvmContext (DB := CacheDB EmptyDB) (DbErr := False) :=
  (sample_env, ((sample_js, cdb), None)).

Lemma static_frame_changes_nothing_witness :
  match run 30 CANCUN SharedMemory_new (sample_static, sample_static_context) with
  | (Ok (Some (IA_Call c)), (_, c')) =>
      only_read sample_js c'.2.1.1 /\ is_static c = true /\ moves_no_value c /\ target_address c = 8
  | _ => False
  end.
Proof.
  destruct (run 30 _ _ _) as [r [i' c']] eqn:Hr.
  pose proof (static_frame_changes_nothing CANCUN 30 SharedMemory_new sample_static sample_static_context
    r i' c') as Ht.
  destruct Ht as (_ & Ho & Ha); [by split|done|exact Hr|].
  destruct r as [[a|]|e|]; [specialize (Ha a eq_refl eq_refl)|..]; [|vm_compute in Hr; discriminate Hr..].
  destruct a as [c|c|c|c|]; [|vm_compute in Hr; discriminate Hr..]. destruct Ha.
  split; [exact Ho|]. split; [done|]. split; [done|]. vm_compute in Hr. by injection Hr as <- _ _.
Defined.
End witness.
