(* ===== verification/EofValidation.v ===== *)
(** The validation of EOF code: [validate_raw_eof], [validate_eof],
    [validate_eof_codes] and [validate_eof_code] of
    [crates/interpreter/src/interpreter/analysis.rs].

    A code section is scanned once, forward; the scan keeps, for every byte of
    the code, whether it is immediate, whether a jump lands on it, and the
    smallest and the biggest height of the stack that reach it.  The heights are
    [i32]; those of an accepted section are between 0 and 1023, so no width is
    modelled. *)

From S2P Require Import Prelude.
From S2P Require Import Bytes.
From S2P Require Import Eof.
From S2P Require Import Stack.
From S2P Require Import Opcode.

Inductive EofValidationError : Type :=
  | FalsePossitive | UnknownOpcode | OpcodeDisabled | InstructionNotForwardAccessed
  | MissingImmediateBytes | MissingRJUMPVImmediateBytes | JumpToImmediateBytes
  | BackwardJumpToImmediateBytes | RJUMPVZeroMaxIndex | JumpZeroOffset | EOFCREATEInvalidIndex
  | CodeSectionOutOfBounds | CALLFNonReturningFunction | StackOverflow | JUMPFEnoughOutputs
  | JUMPFStackHigherThanOutputs | DataLoadOutOfBounds | RETFBiggestStackNumMoreThenOutputs
  | StackUnderflow | TypesStackUnderflow | JumpUnderflow | JumpOverflow
  | BackwardJumpBiggestNumMismatch | BackwardJumpSmallestNumMismatch
  | LastInstructionNotTerminating | CodeSectionNotAccessed | InvalidTypesSection
  | InvalidFirstTypesSection | MaxStackMismatch | NoCodeSections.

Inductive EofError : Type :=
  | EofError_Decode (e : EofDecodeError)
  | EofError_Validation (e : EofValidationError).

Definition EOF_NON_RETURNING_FUNCTION : Z := 0x80.

Abbreviation valid := (outcome EofValidationError).

Definition I32_MAX : Z := 2 ^ 31 - 1.
Definition I32_MIN : Z := - 2 ^ 31.

Record InstructionInfo : Type := mkInstructionInfo {
  is_immediate : bool;
  is_jumpdest : bool;
  smallest : Z;
  biggest : Z;
}.
Definition InstructionInfo_default : InstructionInfo := mkInstructionInfo false false I32_MAX I32_MIN.

Definition mark_as_immediate (x : InstructionInfo) : valid InstructionInfo :=
  if is_jumpdest x then Err JumpToImmediateBytes
  else Ok (mkInstructionInfo true (is_jumpdest x) (smallest x) (biggest x)).

(** [for imm in 0..n { jumps[start + imm].mark_as_immediate()?; }]. *)
Fixpoint mark_immediates (n : nat) (start : Z) (jumps : list InstructionInfo) : valid (list InstructionInfo) :=
  match n with
  | O => Ok jumps
  | S n =>
      x ← index jumps start;
      x ← mark_as_immediate x;
      mark_immediates n (start + 1) (<[Z.to_nat start := x]> jumps)
  end.

Definition read_u16 (code : bytes) (i : Z) : valid Z :=
  hi ← index code i; lo ← index code (i + 1); Ok (from_be_bytes [hi; lo]).
Definition read_i16 (code : bytes) (i : Z) : valid Z := v ← read_u16 code i; Ok (signed 16 v).

(** What the [match] on the opcode computes. *)
Record OpEffect : Type := mkOpEffect {
  stack_io_diff : Z;
  stack_requirement : Z;
  rjumpv_additional_immediates : Z;
  absolute_jumpdest : list Z;
  accessed_code : option Z;
}.

(** The jump table of RJUMPV, [len] entries from the entry [vtablei]. *)
Fixpoint read_vtable (n : nat) (code : bytes) (i vtablei additional : Z) : valid (list Z) :=
  match n with
  | O => Ok []
  | S n =>
      offset ← read_i16 code (i + 2 + 2 * vtablei);
      rest ← read_vtable n code i (vtablei + 1) additional;
      Ok (offset + i + 2 + additional :: rest)
  end.

Section code.
Context (code : bytes) (eof_data_size : Z) (num_of_containers : Z).
Context (types : list TypesSection) (this_types : TypesSection).

Definition rjumpv_effect (i : Z) (info : OpCodeInfo) (jumps : list InstructionInfo)
  : valid (OpEffect * list InstructionInfo) :=
  max_index ← index code (i + 1);
  let n := max_index + 1 in
  let additional := n * 2 in
  if len code <=? i + 1 + additional then Err MissingRJUMPVImmediateBytes
  else
    jumps ← mark_immediates (Z.to_nat additional) (i + 2) jumps;
    dests ← read_vtable (Z.to_nat n) code i 0 additional;
    Ok (mkOpEffect (op_outputs info - op_inputs info) (op_inputs info) additional dests None, jumps).

Definition callf_effect (i : Z) (this : InstructionInfo) : valid OpEffect :=
  section_i ← read_u16 code (i + 1);
  match types !! Z.to_nat section_i with
  | None => Err CodeSectionOutOfBounds
  | Some target =>
      if outputs target =? EOF_NON_RETURNING_FUNCTION then Err CALLFNonReturningFunction
      else if STACK_LIMIT <? biggest this - inputs target + max_stack_size target then Err StackOverflow
      else Ok (mkOpEffect (TypesSection_io_diff target) (inputs target) 0 [] (Some section_i))
  end.

Definition jumpf_effect (i : Z) (info : OpCodeInfo) (this : InstructionInfo) : valid OpEffect :=
  target_index ← read_u16 code (i + 1);
  match types !! Z.to_nat target_index with
  | None => Err CodeSectionOutOfBounds
  | Some target =>
      if STACK_LIMIT <? biggest this - inputs target + max_stack_size target then Err StackOverflow
      else
        let effect requirement :=
          mkOpEffect (op_outputs info - op_inputs info) requirement 0 [] (Some target_index) in
        if outputs target =? EOF_NON_RETURNING_FUNCTION then Ok (effect (inputs target))
        else if outputs this_types <? outputs target then Err JUMPFEnoughOutputs
        else
          let requirement := outputs this_types + inputs target - outputs target in
          if requirement <? biggest this then Err JUMPFStackHigherThanOutputs
          else if STACK_LIMIT <? biggest this + requirement then Err StackOverflow
          else Ok (effect requirement)
  end.

(** The [match op].  Only RJUMPV changes the table. *)
Definition op_effect (i op : Z) (info : OpCodeInfo) (this : InstructionInfo) (jumps : list InstructionInfo)
  : valid (OpEffect * list InstructionInfo) :=
  let io_diff := op_outputs info - op_inputs info in
  let plain requirement := Ok (mkOpEffect io_diff requirement 0 [] None, jumps) in
  if (op =? 0xE0) || (op =? 0xE1) then (* RJUMP, RJUMPI *)
    offset ← read_i16 code (i + 1);
    Ok (mkOpEffect io_diff (op_inputs info) 0 [offset + 3 + i] None, jumps)
  else if op =? 0xE2 then rjumpv_effect i info jumps
  else if op =? 0xE3 then e ← callf_effect i this; Ok (e, jumps)
  else if op =? 0xE5 then e ← jumpf_effect i info this; Ok (e, jumps)
  else if op =? 0xEC then (* EOFCREATE *)
    idx ← index code (i + 1);
    if num_of_containers <=? idx then Err EOFCREATEInvalidIndex else plain (op_inputs info)
  else if op =? 0xD1 then (* DATALOADN *)
    idx ← read_u16 code (i + 1);
    if (eof_data_size <? 32) || (eof_data_size - 32 <? idx) then Err DataLoadOutOfBounds
    else plain (op_inputs info)
  else if op =? 0xE4 then (* RETF *)
    if outputs this_types <? biggest this then Err RETFBiggestStackNumMoreThenOutputs
    else plain (outputs this_types)
  else if op =? 0xE6 then imm ← index code (i + 1); plain (imm + 1) (* DUPN *)
  else if op =? 0xE7 then imm ← index code (i + 1); plain (imm + 2) (* SWAPN *)
  else if op =? 0xE8 then (* EXCHANGE *)
    imm ← index code (i + 1);
    let n := Z.shiftr imm 4 + 1 in let m := Z.land imm 0x0F + 1 in
    plain (n + m + 1)
  else plain (op_inputs info).

(** One jump of the instruction at [i], whose successors have these heights. *)
Definition check_jump (i next_smallest next_biggest absolute_jump : Z) (jumps : list InstructionInfo)
  : valid (list InstructionInfo) :=
  if absolute_jump <? 0 then Err JumpUnderflow
  else if len code <=? absolute_jump then Err JumpOverflow
  else
    target ← index jumps absolute_jump;
    if is_immediate target then Err BackwardJumpToImmediateBytes
    else if absolute_jump <=? i then
      if negb (biggest target =? next_biggest) then Err BackwardJumpBiggestNumMismatch
      else if negb (smallest target =? next_smallest) then Err BackwardJumpSmallestNumMismatch
      else Ok (<[Z.to_nat absolute_jump :=
        mkInstructionInfo (is_immediate target) true (smallest target) (biggest target)]> jumps)
    else Ok (<[Z.to_nat absolute_jump :=
      mkInstructionInfo (is_immediate target) true (Z.min (smallest target) next_smallest)
        (Z.max (biggest target) next_biggest)]> jumps).

Fixpoint check_jumps (i next_smallest next_biggest : Z) (dests : list Z) (jumps : list InstructionInfo)
  : valid (list InstructionInfo) :=
  match dests with
  | [] => Ok jumps
  | d :: rest =>
      jumps ← check_jump i next_smallest next_biggest d jumps;
      check_jumps i next_smallest next_biggest rest jumps
  end.

(** The state of the [while] loop. *)
Record Scan : Type := mkScan {
  sc_i : Z;
  sc_jumps : list InstructionInfo;
  sc_after_termination : bool;
  sc_next_smallest : Z;
  sc_next_biggest : Z;
  sc_accessed : gset Z;
}.

(** The heights at an instruction: those handed on by the one before, unless it
    terminated. *)
Definition reached (s : Scan) (x : InstructionInfo) : InstructionInfo :=
  if sc_after_termination s then x
  else mkInstructionInfo (is_immediate x) (is_jumpdest x) (Z.min (smallest x) (sc_next_smallest s))
         (Z.max (biggest x) (sc_next_biggest s)).

(** One iteration. *)
Definition scan_instruction (s : Scan) : valid Scan :=
  let i := sc_i s in
  op ← index code i;
  match opcode_info op with
  | None => Err UnknownOpcode
  | Some info =>
      if op_not_eof info then Err OpcodeDisabled
      else
        x ← index (sc_jumps s) i;
        let this := reached s x in
        let jumps := <[Z.to_nat i := this]> (sc_jumps s) in
        if sc_after_termination s && negb (is_jumpdest this) then Err InstructionNotForwardAccessed
        else
          jumps ←
            (if negb (op_immediate_size info =? 0) then
               if len code <=? i + op_immediate_size info then Err MissingImmediateBytes
               else mark_immediates (Z.to_nat (op_immediate_size info)) (i + 1) jumps
             else Ok jumps);
          '(e, jumps) ← op_effect i op info this jumps;
          if smallest this <? stack_requirement e then Err StackUnderflow
          else
            let next_smallest := smallest this + stack_io_diff e in
            let next_biggest := biggest this + stack_io_diff e in
            jumps ← check_jumps i next_smallest next_biggest (absolute_jumpdest e) jumps;
            Ok (mkScan (i + (1 + op_immediate_size info + rjumpv_additional_immediates e)) jumps
                  (op_terminating info) next_smallest next_biggest
                  (match accessed_code e with Some c => {[c]} ∪ sc_accessed s | None => sc_accessed s end))
  end.

(** The loop; an iteration advances, so that the length of the code is enough
    fuel. *)
Fixpoint scan_loop (fuel : nat) (s : Scan) : valid (option Scan) :=
  if sc_i s <? len code then
    match fuel with
    | O => Ok None
    | S fuel => s ← scan_instruction s; scan_loop fuel s
    end
  else Ok (Some s).

Definition scan_start : Scan :=
  mkScan 0 (replicate (length code) InstructionInfo_default) false (inputs this_types) (inputs this_types) ∅.

Definition max_stack_requirement (jumps : list InstructionInfo) : Z :=
  foldl (fun m x => Z.max (biggest x) m) 0 jumps.
End code.

(** [validate_eof_code]: the code sections it calls or jumps to. *)
Definition validate_eof_code (code : bytes) (eof_data_size this_types_index num_of_containers : Z)
  (types : list TypesSection) : valid (gset Z) :=
  this_types ← index types this_types_index;
  r ← scan_loop code eof_data_size num_of_containers types this_types (length code) (scan_start code this_types);
  match r with
  | None => Panic
  | Some s =>
      if negb (sc_after_termination s) then Err LastInstructionNotTerminating
      else if negb (max_stack_requirement (sc_jumps s) =? max_stack_size this_types) then Err MaxStackMismatch
      else Ok (sc_accessed s)
  end.

(** ** All code sections *)

Section codes.
(** The order in which the iterator of a [HashSet] answers is not specified. *)
Context (order : gset Z -> list Z).

(** Queue the sections that have not been queued yet; the queue is a stack, its
    top first. *)
Fixpoint enqueue (l : list Z) (queued : list bool) (queue : list Z) : valid (list bool * list Z) :=
  match l with
  | [] => Ok (queued, queue)
  | i :: rest =>
      q ← index queued i;
      if q : bool then enqueue rest queued queue
      else enqueue rest (<[Z.to_nat i := true]> queued) (i :: queue)
  end.

(** The [while let Some(index) = queue.pop()]; a section is queued once, so that
    their number is enough fuel. *)
Fixpoint codes_loop (fuel : nat) (eof : Eof) (queued : list bool) (queue : list Z) : valid (option (list bool)) :=
  match queue with
  | [] => Ok (Some queued)
  | index :: queue =>
      match fuel with
      | O => Ok None
      | S fuel =>
          code ← Bytes.index (code_section (body eof)) index;
          accessed ← validate_eof_code code (data_size (header eof)) index (len (container_section (body eof)))
                       (types_section (body eof));
          '(queued, queue) ← enqueue (order accessed) queued queue;
          codes_loop fuel eof queued queue
      end
  end.

Definition validate_eof_codes (eof : Eof) : valid unit :=
  let n := length (code_section (body eof)) in
  if negb (bool_decide (n = length (types_section (body eof)))) then Err InvalidTypesSection
  else match types_section (body eof) with
  | [] => Err NoCodeSections
  | first_types :: _ =>
      if negb (inputs first_types =? 0) || negb (outputs first_types =? EOF_NON_RETURNING_FUNCTION)
      then Err InvalidTypesSection
      else
        r ← codes_loop n eof (<[0%nat := true]> (replicate n false)) [0];
        match r with
        | None => Panic
        | Some queued => if forallb id queued then Ok tt else Err CodeSectionNotAccessed
        end
  end.

(** ** Containers *)

Fixpoint decode_all (containers : list bytes) (queue : list Eof) : outcome EofError (list Eof) :=
  match containers with
  | [] => Ok queue
  | c :: rest =>
      e ← map_err EofError_Decode (Eof_decode c);
      decode_all rest (e :: queue)
  end.

(** The [while let Some(eof) = queue.pop()]; [None] when the fuel runs out. *)
Fixpoint eofs_loop (fuel : nat) (queue : list Eof) : outcome EofError (option unit) :=
  match queue with
  | [] => Ok (Some tt)
  | eof :: queue =>
      match fuel with
      | O => Ok None
      | S fuel =>
          _ ← map_err EofError_Validation (validate_eof_codes eof);
          queue ← decode_all (container_section (body eof)) queue;
          eofs_loop fuel queue
      end
  end.

Definition validate_eof (fuel : nat) (eof : Eof) : outcome EofError (option unit) := eofs_loop fuel [eof].

Definition validate_raw_eof (fuel : nat) (bytecode : bytes) : outcome EofError (option Eof) :=
  eof ← map_err EofError_Decode (Eof_decode bytecode);
  r ← validate_eof fuel eof;
  Ok (match r with Some _ => Some eof | None => None end).
End codes.

(** ** The reference semantics of the heights

    What an instruction needs of the stack, how it changes its height, and where
    it goes, read off the code without any check. *)

Definition offset_at (code : bytes) (i : Z) : Z := signed 16 (from_be_bytes [byte_at code i; byte_at code (i + 1)]).
Definition word_at (code : bytes) (i : Z) : Z := from_be_bytes [byte_at code i; byte_at code (i + 1)].

Definition vtable_len (code : bytes) (i : Z) : Z := byte_at code (i + 1) + 1.
Definition extra_immediates (code : bytes) (i op : Z) : Z := if op =? 0xE2 then vtable_len code i * 2 else 0.
Definition instruction_width (code : bytes) (i op : Z) (info : OpCodeInfo) : Z :=
  1 + op_immediate_size info + extra_immediates code i op.

Definition destinations (code : bytes) (i op : Z) : list Z :=
  if (op =? 0xE0) || (op =? 0xE1) then [offset_at code (i + 1) + 3 + i]
  else if op =? 0xE2 then
    (fun k => offset_at code (i + 2 + 2 * k) + i + 2 + vtable_len code i * 2)
      <$> (Z.of_nat <$> seq 0 (Z.to_nat (vtable_len code i)))
  else [].

(** The section that CALLF and JUMPF name. *)
Definition target_at (types : list TypesSection) (code : bytes) (i : Z) : TypesSection :=
  default (mkTypesSection 0 0 0) (types !! Z.to_nat (word_at code (i + 1))).

Definition height_change (types : list TypesSection) (code : bytes) (i op : Z) (info : OpCodeInfo) : Z :=
  if op =? 0xE3 then TypesSection_io_diff (target_at types code i) else op_outputs info - op_inputs info.

Definition height_needed (types : list TypesSection) (this_types : TypesSection) (code : bytes) (i op : Z)
  (info : OpCodeInfo) : Z :=
  if op =? 0xE3 then inputs (target_at types code i)
  else if op =? 0xE5 then
    let target := target_at types code i in
    if outputs target =? EOF_NON_RETURNING_FUNCTION then inputs target
    else outputs this_types + inputs target - outputs target
  else if op =? 0xE4 then outputs this_types
  else if op =? 0xE6 then byte_at code (i + 1) + 1
  else if op =? 0xE7 then byte_at code (i + 1) + 2
  else if op =? 0xE8 then
    (Z.shiftr (byte_at code (i + 1)) 4 + 1) + (Z.land (byte_at code (i + 1)) 0x0F + 1) + 1
  else op_inputs info.

(** ** The checks compute the reference semantics *)

Lemma read_u16_word code i v : read_u16 code i = Ok v -> word_at code i = v.
Proof. intros H. unfold read_u16 in H. inv_bind H. simplify_eq. unfold word_at. by erewrite !index_byte_at. Qed.
Lemma read_i16_offset code i v : read_i16 code i = Ok v -> offset_at code i = v.
Proof.
  intros H. unfold read_i16 in H. inv_bind H. simplify_eq. unfold offset_at. f_equal.
  by apply read_u16_word in Hx.
Qed.

Lemma read_vtable_offsets code i additional n : forall v l,
  read_vtable n code i (Z.of_nat v) additional = Ok l ->
  l = (fun k => offset_at code (i + 2 + 2 * k) + i + 2 + additional) <$> (Z.of_nat <$> seq v n).
Proof.
  induction n as [|n IH]; intros v l H; cbn [read_vtable] in H; [by simplify_eq|].
  inv_bind H. simplify_eq. apply read_i16_offset in Hx.
  replace (Z.of_nat v + 1) with (Z.of_nat (S v)) in Hx0 by lia. apply IH in Hx0 as ->.
  cbn [seq fmap list_fmap]. by rewrite Hx.
Qed.

(** What an instruction refers to exists. *)
Definition references_ok (code : bytes) (eof_data_size num_of_containers : Z) (types : list TypesSection)
  (i op : Z) : Prop :=
  ((op = 0xE3 \/ op = 0xE5) -> is_Some (types !! Z.to_nat (word_at code (i + 1)))) /\
  (op = 0xE3 -> outputs (target_at types code i) <> EOF_NON_RETURNING_FUNCTION) /\
  (op = 0xEC -> byte_at code (i + 1) < num_of_containers) /\
  (op = 0xD1 -> word_at code (i + 1) + 32 <= eof_data_size).

Definition names_section (code : bytes) (i op : Z) : option Z :=
  if (op =? 0xE3) || (op =? 0xE5) then Some (word_at code (i + 1)) else None.

(** The callee of an instruction has room on the stack. *)
Definition callee_fits (types : list TypesSection) (code : bytes) (i op height : Z) : Prop :=
  (op = 0xE3 \/ op = 0xE5) ->
  height - inputs (target_at types code i) + max_stack_size (target_at types code i) <= STACK_LIMIT.

(** RETF, and a JUMPF to a function that returns, leave exactly the outputs of
    their section. *)
Definition returns (types : list TypesSection) (code : bytes) (i op : Z) : bool :=
  (op =? 0xE4) || (op =? 0xE5) && negb (outputs (target_at types code i) =? EOF_NON_RETURNING_FUNCTION).
Definition leaves_outputs (types : list TypesSection) (this_types : TypesSection) (code : bytes) (i op : Z)
  (info : OpCodeInfo) (height : Z) : Prop :=
  returns types code i op = true ->
  height <= height_needed types this_types code i op info /\
  (op = 0xE5 -> outputs (target_at types code i) <= outputs this_types).

Section effects.
Context (code : bytes) (eof_data_size num_of_containers : Z).
Context (types : list TypesSection) (this_types : TypesSection).

Record effect_spec (i op : Z) (info : OpCodeInfo) (this : InstructionInfo) (e : OpEffect) : Prop := {
  es_diff : stack_io_diff e = height_change types code i op info;
  es_need : stack_requirement e = height_needed types this_types code i op info;
  es_extra : rjumpv_additional_immediates e = extra_immediates code i op;
  es_dests : absolute_jumpdest e = destinations code i op;
  es_section : accessed_code e = names_section code i op;
  es_refs : references_ok code eof_data_size num_of_containers types i op;
  es_fits : callee_fits types code i op (biggest this);
  es_leaves : leaves_outputs types this_types code i op info (biggest this);
}.

(** An opcode that is none of the special ones, or one whose effect is evaluated. *)
Ltac effect_of_op :=
  unfold leaves_outputs, height_change, height_needed, extra_immediates, destinations, names_section, references_ok, callee_fits,
    returns;
  repeat match goal with Hne : ?op <> ?c |- context [?op =? ?c] => rewrite (proj2 (Z.eqb_neq op c) Hne) end;
  cbn [Z.eqb Pos.eqb orb andb negb stack_io_diff stack_requirement rjumpv_additional_immediates absolute_jumpdest accessed_code].

Ltac done_effect :=
  cbn [negb]; split_and?; first [done | (by intros [?|?]) | (intros; lia) | (by intros; split; [lia|]) | naive_solver].

Lemma callf_spec i info this e :
  callf_effect code types i this = Ok e -> effect_spec i 0xE3 info this e.
Proof.
  intros H. unfold callf_effect in H. inv_bind H. apply read_u16_word in Hx.
  destruct (types !! Z.to_nat x) as [t|] eqn:Ht; [|done].
  destruct (Z.eqb_spec (outputs t) EOF_NON_RETURNING_FUNCTION); [done|].
  destruct (Z.ltb_spec STACK_LIMIT (biggest this - inputs t + max_stack_size t)); [done|]. injection H as <-.
  assert (Htt : target_at types code i = t) by (unfold target_at; by rewrite Hx, Ht).
  split; effect_of_op; rewrite ?Htt, ?Hx; done_effect.
Qed.

Lemma jumpf_spec i info this e :
  jumpf_effect code types this_types i info this = Ok e -> effect_spec i 0xE5 info this e.
Proof.
  intros H. unfold jumpf_effect in H. inv_bind H. apply read_u16_word in Hx.
  destruct (types !! Z.to_nat x) as [t|] eqn:Ht; [|done].
  destruct (Z.ltb_spec STACK_LIMIT (biggest this - inputs t + max_stack_size t)); [done|]. cbv zeta in H.
  assert (Htt : target_at types code i = t) by (unfold target_at; by rewrite Hx, Ht).
  destruct (outputs t =? EOF_NON_RETURNING_FUNCTION) eqn:Hn;
    [|destruct (Z.ltb_spec (outputs this_types) (outputs t)); [done|];
      destruct (Z.ltb_spec (outputs this_types + inputs t - outputs t) (biggest this)); [done|];
      destruct (_ <? _); [done|]]; injection H as <-;
    (split; effect_of_op; rewrite ?Htt, ?Hx, ?Hn; done_effect).
Qed.

Lemma rjumpv_spec i info this J e J' :
  rjumpv_effect code i info J = Ok (e, J') ->
  effect_spec i 0xE2 info this e /\ i + 1 + extra_immediates code i 0xE2 < len code /\
  mark_immediates (Z.to_nat (extra_immediates code i 0xE2)) (i + 2) J = Ok J'.
Proof.
  intros H. unfold rjumpv_effect in H. inv_bind H. apply index_byte_at in Hx.
  assert (Hl : vtable_len code i = x + 1) by (unfold vtable_len; by rewrite Hx).
  destruct (Z.leb_spec (len code) (i + 1 + (x + 1) * 2)); [done|]. inv_bind H. injection H as <- <-.
  apply (read_vtable_offsets _ _ _ _ 0%nat) in Hx1.
  split; [split; effect_of_op; rewrite ?Hl; done_effect|]. effect_of_op. rewrite Hl. split; [lia|done].
Qed.

Lemma op_effect_spec i op info this J e J' :
  op_effect code eof_data_size num_of_containers types this_types i op info this J = Ok (e, J') ->
  effect_spec i op info this e /\
  (op <> 0xE2 /\ J' = J \/
   op = 0xE2 /\ i + 1 + extra_immediates code i op < len code /\
   mark_immediates (Z.to_nat (extra_immediates code i op)) (i + 2) J = Ok J').
Proof.
  unfold op_effect. intros H.
  destruct (Z.eqb_spec op 0xE0) as [->|]; cbn [orb] in H.
  { inv_bind H. injection H as <- <-. apply read_i16_offset in Hx. split; [|by left].
    split; effect_of_op; rewrite ?Hx; done_effect. }
  destruct (Z.eqb_spec op 0xE1) as [->|]; cbn [orb] in H.
  { inv_bind H. injection H as <- <-. apply read_i16_offset in Hx. split; [|by left].
    split; effect_of_op; rewrite ?Hx; done_effect. }
  destruct (Z.eqb_spec op 0xE2) as [->|].
  { apply (rjumpv_spec _ _ this) in H as (? & ? & ?). split; [done|]. by right. }
  destruct (Z.eqb_spec op 0xE3) as [->|]; [inv_bind H; injection H as <- <-; split; [by apply callf_spec|by left]|].
  destruct (Z.eqb_spec op 0xE5) as [->|]; [inv_bind H; injection H as <- <-; split; [by apply jumpf_spec|by left]|].
  destruct (Z.eqb_spec op 0xEC) as [->|].
  { inv_bind H. apply index_byte_at in Hx. destruct (Z.leb_spec num_of_containers x); [done|]. injection H as <- <-.
    split; [|by left]. split; effect_of_op; rewrite ?Hx; done_effect. }
  destruct (Z.eqb_spec op 0xD1) as [->|].
  { inv_bind H. apply read_u16_word in Hx. destruct (Z.ltb_spec eof_data_size 32); [done|].
    destruct (Z.ltb_spec (eof_data_size - 32) x); [done|]. injection H as <- <-.
    split; [|by left]. split; effect_of_op; rewrite ?Hx; done_effect. }
  destruct (Z.eqb_spec op 0xE4) as [->|].
  { destruct (Z.ltb_spec (outputs this_types) (biggest this)); [done|]. injection H as <- <-.
    split; [|by left]. split; effect_of_op; done_effect. }
  destruct (Z.eqb_spec op 0xE6) as [->|].
  { inv_bind H. injection H as <- <-. apply index_byte_at in Hx. split; [|by left].
    split; effect_of_op; rewrite ?Hx; done_effect. }
  destruct (Z.eqb_spec op 0xE7) as [->|].
  { inv_bind H. injection H as <- <-. apply index_byte_at in Hx. split; [|by left].
    split; effect_of_op; rewrite ?Hx; done_effect. }
  destruct (Z.eqb_spec op 0xE8) as [->|].
  { inv_bind H. injection H as <- <-. apply index_byte_at in Hx. split; [|by left].
    split; effect_of_op; rewrite ?Hx; done_effect. }
  injection H as <- <-. split; [|by left]. split; effect_of_op; done_effect.
Qed.
End effects.

(** ** The table of the scan *)

Definition mark (x : InstructionInfo) : InstructionInfo :=
  mkInstructionInfo true (is_jumpdest x) (smallest x) (biggest x).

(** [J'] is [J] with the bytes from [a] to [b] marked as immediate; no jump landed
    on them. *)
Record marked (a b : Z) (J J' : list InstructionInfo) : Prop := {
  mk_lookup : forall k : nat, J' !! k = (if decide (a <= Z.of_nat k < b) then mark <$> J !! k else J !! k);
  mk_free : forall (k : nat) x, a <= Z.of_nat k < b -> J !! k = Some x -> is_jumpdest x = false;
}.

Lemma marked_empty a J : marked a a J J.
Proof. split; intros; [by case_decide; [lia|]|lia]. Qed.
Lemma marked_app a b c J J' J'' : a <= b <= c -> marked a b J J' -> marked b c J' J'' -> marked a c J J''.
Proof.
  intros Hb [L1 F1] [L2 F2]. split.
  - intros k. rewrite L2, L1. repeat case_decide; try lia; done.
  - intros k x Hk Hx. destruct (decide (Z.of_nat k < b)); [eapply F1; [|done]; lia|].
    eapply (F2 k); [lia|]. rewrite L1. by rewrite decide_False by lia.
Qed.

Lemma mark_immediates_spec n start J J' :
  0 <= start -> mark_immediates n start J = Ok J' -> marked start (start + Z.of_nat n) J J'.
Proof.
  revert start J. induction n as [|n IH]; intros start J Hs H; cbn [mark_immediates] in H.
  { injection H as <-. replace (start + Z.of_nat 0) with start by lia. apply marked_empty. }
  inv_bind H. apply index_Ok in Hx as [_ Hx]. unfold mark_as_immediate in Hx0.
  destruct (is_jumpdest x) eqn:Hd; [done|]. injection Hx0 as <-.
  apply IH in H; [|lia]. eapply (marked_app start (start + 1)); [lia| |].
  - split.
    + intros k. pose proof (lookup_lt_Some _ _ _ Hx). destruct (decide (k = Z.to_nat start)) as [->|Hne].
      * rewrite decide_True by lia. rewrite list_lookup_insert_eq, Hx by done. simpl. unfold mark. by rewrite Hd.
      * rewrite decide_False by lia. by rewrite list_lookup_insert_ne by done.
    + intros k y Hk Hy. replace k with (Z.to_nat start) in Hy by lia. congruence.
  - by replace (start + Z.of_nat (S n)) with (start + 1 + Z.of_nat n) by lia.
Qed.

Lemma marked_length a b J J' : marked a b J J' -> length J' = length J.
Proof.
  intros [HL _]. apply Nat.le_antisymm; apply Nat.nlt_ge; intros Hlt; apply lookup_lt_is_Some_2 in Hlt as [x Hx].
  - rewrite HL in Hx. assert (Hn : J !! length J = None) by (by apply lookup_ge_None_2).
    rewrite Hn in Hx. by case_decide.
  - assert (Hn : J' !! length J' = None) by (by apply lookup_ge_None_2). rewrite HL, Hx in Hn. by case_decide.
Qed.

(** The heights that are handed on are within those recorded. *)
Definition flows (lo hi : Z) (x : InstructionInfo) : Prop := smallest x <= lo /\ hi <= biggest x.

(** Checking the jumps of [i]: only heights after [i] change, and they widen. *)
Record jumped (i : Z) (J J' : list InstructionInfo) : Prop := {
  jd_length : length J' = length J;
  jd_widen : forall (k : nat) x, J !! k = Some x -> exists x', J' !! k = Some x' /\
    is_immediate x' = is_immediate x /\ (is_jumpdest x = true -> is_jumpdest x' = true) /\
    flows (smallest x) (biggest x) x' /\
    (Z.of_nat k <= i -> smallest x' = smallest x /\ biggest x' = biggest x);
  jd_dest : forall (k : nat) x', J' !! k = Some x' -> is_jumpdest x' = true ->
    exists x, J !! k = Some x /\ (is_jumpdest x = true \/ is_immediate x = false);
}.
#[export] Instance jumped_preorder i : PreOrder (jumped i).
Proof.
  split.
  - intros J. split; [done| |].
    + intros k x Hx. exists x. split_and!; try done.
    + intros k x Hx Hd. exists x. auto.
  - intros J J1 J2 [L1 W1 D1] [L2 W2 D2]. split; [congruence| |].
    + intros k x Hx. destruct (W1 _ _ Hx) as (x1 & Hx1 & I1 & J1' & [F1 F1'] & S1).
      destruct (W2 _ _ Hx1) as (x2 & Hx2 & I2 & J2' & [F2 F2'] & S2). exists x2.
      split_and!; [done|congruence|auto|split; lia|]. intros Hk. destruct (S1 Hk), (S2 Hk). split; congruence.
    + intros k x2 Hx2 Hd. destruct (D2 _ _ Hx2 Hd) as (x1 & Hx1 & [Hd1|Hi1]).
      * by apply (D1 _ _ Hx1).
      * assert (is_Some (J !! k)) as [x Hx] by (apply lookup_lt_is_Some; rewrite <- L1; by eapply lookup_lt_Some).
        destruct (W1 _ _ Hx) as (x1' & Hx1' & Hi & _). exists x. split; [done|right]. congruence.
Qed.

Lemma check_jump_spec code i ns nb d J J' :
  0 <= i -> length J = length code -> check_jump code i ns nb d J = Ok J' ->
  jumped i J J' /\ 0 <= d < len code /\
  exists t, J' !! Z.to_nat d = Some t /\ is_immediate t = false /\ is_jumpdest t = true /\ flows ns nb t.
Proof.
  intros Hi HL H. unfold check_jump in H. destruct (Z.ltb_spec d 0); [done|].
  destruct (Z.leb_spec (len code) d); [done|]. inv_bind H. apply index_Ok in Hx as [_ Hx].
  destruct (is_immediate x) eqn:Him; [done|].
  set (t := if d <=? i then mkInstructionInfo (is_immediate x) true (smallest x) (biggest x)
            else mkInstructionInfo (is_immediate x) true (Z.min (smallest x) ns) (Z.max (biggest x) nb)).
  assert (Ht : J' = <[Z.to_nat d := t]> J /\ flows ns nb t).
  { subst t. rewrite Him. destruct (d <=? i).
    - destruct (Z.eqb_spec (biggest x) nb); [|done]. destruct (Z.eqb_spec (smallest x) ns); [|done].
      injection H as <-. split; [done|]. split; simpl; lia.
    - injection H as <-. split; [done|]. split; simpl; lia. }
  destruct Ht as [-> Hfl]. clear H. pose proof (lookup_lt_Some _ _ _ Hx).
  assert (Htk : J !! Z.to_nat d = Some x /\ is_immediate t = false /\ is_jumpdest t = true /\ flows (smallest x) (biggest x) t /\
    (d <= i -> smallest t = smallest x /\ biggest t = biggest x)).
  { subst t. destruct (Z.leb_spec d i); simpl; split_and!; try done; try (split; simpl; lia); lia. }
  destruct Htk as (_ & Hti & Htd & Htf & Hts). split; [|split; [lia|]; exists t; split_and!; try done; by apply list_lookup_insert_eq].
  split; [by rewrite length_insert| |].
  - intros k y Hy. destruct (decide (k = Z.to_nat d)) as [->|Hne].
    + exists t. rewrite list_lookup_insert_eq by done. simplify_eq. split_and!; [done|congruence|done|done|].
      intros Hk. apply Hts. lia.
    + exists y. rewrite list_lookup_insert_ne by done. split_and!; try done.
  - intros k y Hy Hd. destruct (decide (k = Z.to_nat d)) as [->|Hne]; [exists x; auto|].
    rewrite list_lookup_insert_ne in Hy by done. exists y. auto.
Qed.

Lemma check_jumps_spec code i ns nb dests J J' :
  0 <= i -> length J = length code -> check_jumps code i ns nb dests J = Ok J' ->
  jumped i J J' /\
  forall d, d ∈ dests -> 0 <= d < len code /\
    exists t, J' !! Z.to_nat d = Some t /\ is_immediate t = false /\ is_jumpdest t = true /\ flows ns nb t.
Proof.
  intros Hi. revert J. induction dests as [|d dests IH]; intros J HL H; cbn [check_jumps] in H.
  { injection H as <-. split; [done|]. intros d Hd. by apply elem_of_nil in Hd. }
  inv_bind H. apply check_jump_spec in Hx as (J1 & Hd & t & Ht & Hti & Htd & Htf); [|done..].
  apply IH in H as [J2 Hds]; [|by rewrite (jd_length _ _ _ J1)]. split; [by etrans|].
  intros d' [->|Hd']%elem_of_cons; [|auto]. split; [done|].
  destruct (jd_widen _ _ _ J2 _ _ Ht) as (t' & Ht' & Hi' & Hj' & [F1 F2] & _).
  destruct Htf. exists t'. split_and!; [done|congruence|auto|split; lia].
Qed.

(** ** The invariant of the scan *)

(** The instruction after the one at [i], and the starts of instructions when the
    code is read from its beginning. *)
Definition eof_next (code : bytes) (i j : Z) : Prop :=
  exists op info, index (E := EofValidationError) code i = Ok op /\ opcode_info op = Some info /\
    j = i + instruction_width code i op info.
Definition eof_start (code : bytes) : Z -> Prop := rtc (eof_next code) 0.

Section scan.
Context (code : bytes) (eof_data_size num_of_containers : Z).
Context (types : list TypesSection) (this_types : TypesSection).
Context (Hbytes : Forall is_byte code).

(** An instruction that is well formed, with heights that suffice for it. *)
Record well_formed (i op : Z) (info : OpCodeInfo) (x : InstructionInfo) : Prop := {
  wf_op : index (E := EofValidationError) code i = Ok op;
  wf_info : opcode_info op = Some info;
  wf_enabled : op_not_eof info = false;
  wf_complete : i + instruction_width code i op info <= len code;
  wf_refs : references_ok code eof_data_size num_of_containers types i op;
  wf_need : height_needed types this_types code i op info <= smallest x;
  wf_fits : callee_fits types code i op (biggest x);
  wf_leaves : leaves_outputs types this_types code i op info (biggest x);
}.

(** The heights it hands on reach where it goes. *)
Record typed (s : Scan) (i op : Z) (info : OpCodeInfo) (x : InstructionInfo) : Prop := {
  ty_wf : well_formed i op info x;
  ty_section : forall c, names_section code i op = Some c -> c ∈ sc_accessed s;
  ty_dests : forall d, d ∈ destinations code i op -> 0 <= d < len code /\
    exists t, sc_jumps s !! Z.to_nat d = Some t /\ is_jumpdest t = true /\
      flows (smallest x + height_change types code i op info) (biggest x + height_change types code i op info) t;
  ty_next : op_terminating info = false ->
    let j := i + instruction_width code i op info in
    (j < sc_i s /\ exists t, sc_jumps s !! Z.to_nat j = Some t /\ is_immediate t = false /\
       flows (smallest x + height_change types code i op info) (biggest x + height_change types code i op info) t) \/
    (j = sc_i s /\ sc_after_termination s = false /\
     sc_next_smallest s = smallest x + height_change types code i op info /\
     sc_next_biggest s = biggest x + height_change types code i op info);
}.

Record scan_inv (s : Scan) : Prop := {
  si_length : length (sc_jumps s) = length code;
  si_range : 0 <= sc_i s <= len code;
  si_accessed : forall c, c ∈ sc_accessed s -> 0 <= c /\ is_Some (types !! Z.to_nat c);
  si_start : eof_start code (sc_i s);
  si_fresh : forall (k : nat) x, sc_jumps s !! k = Some x -> sc_i s <= Z.of_nat k -> is_immediate x = false;
  si_dest : forall (k : nat) x, sc_jumps s !! k = Some x -> is_jumpdest x = true -> is_immediate x = false;
  si_visited : forall (k : nat) x, sc_jumps s !! k = Some x -> Z.of_nat k < sc_i s -> is_immediate x = false ->
    eof_start code (Z.of_nat k) /\ exists op info, typed s (Z.of_nat k) op info x;
  si_entry : (sc_i s = 0 /\ sc_after_termination s = false /\ sc_next_smallest s = inputs this_types /\
              sc_next_biggest s = inputs this_types) \/
    (0 < sc_i s /\ exists x, sc_jumps s !! 0%nat = Some x /\ is_immediate x = false /\
       flows (inputs this_types) (inputs this_types) x);
}.

Lemma scan_start_inv : scan_inv (scan_start code this_types).
Proof.
  assert (Hr : forall (k : nat) x, replicate (length code) InstructionInfo_default !! k = Some x -> x = InstructionInfo_default).
  { intros k x Hx. by apply lookup_replicate in Hx as [-> _]. }
  pose proof (len_nonneg code). split; cbn [scan_start sc_jumps sc_i sc_after_termination sc_next_smallest sc_next_biggest].
  - by rewrite length_replicate.
  - lia.
  - intros c Hc. set_solver.
  - apply rtc_refl.
  - intros k x Hx _. by apply Hr in Hx as ->.
  - intros k x Hx Hd. by apply Hr in Hx as ->.
  - intros k x _ Hk. lia.
  - by left.
Qed.

(** What an iteration does to the table. *)
Record scanned (s s' : Scan) (op : Z) (info : OpCodeInfo) (this : InstructionInfo) : Prop := {
  sd_wf : well_formed (sc_i s) op info this;
  sd_i : sc_i s' = sc_i s + instruction_width code (sc_i s) op info;
  sd_after : sc_after_termination s' = op_terminating info;
  sd_smallest : sc_next_smallest s' = smallest this + height_change types code (sc_i s) op info;
  sd_biggest : sc_next_biggest s' = biggest this + height_change types code (sc_i s) op info;
  sd_accessed : sc_accessed s' =
    match names_section code (sc_i s) op with Some c => {[c]} ∪ sc_accessed s | None => sc_accessed s end;
  sd_this : exists x, sc_jumps s !! Z.to_nat (sc_i s) = Some x /\ this = reached s x;
  sd_table : exists J, marked (sc_i s + 1) (sc_i s') (<[Z.to_nat (sc_i s) := this]> (sc_jumps s)) J /\
    jumped (sc_i s) J (sc_jumps s');
  sd_dests : forall d, d ∈ destinations code (sc_i s) op -> 0 <= d < len code /\
    exists t, sc_jumps s' !! Z.to_nat d = Some t /\ is_immediate t = false /\ is_jumpdest t = true /\
      flows (sc_next_smallest s') (sc_next_biggest s') t;
  sd_width : 1 <= instruction_width code (sc_i s) op info;
}.

Lemma immediate_size_nonneg op info : opcode_info op = Some info -> 0 <= op_immediate_size info.
Proof.
  intros H. unfold opcode_info, assoc in H. destruct (list_find _ _) as [[k p]|] eqn:Hf; [|done]. injection H as <-.
  apply list_find_Some in Hf as (Hk & _ & _). revert k p Hk. 
  assert (Hall : Forall (fun p : Z * OpCodeInfo => 0 <= op_immediate_size p.2) opcode_infos)
    by (repeat constructor; discriminate).
  intros k p Hk. rewrite Forall_lookup in Hall. by apply (Hall k).
Qed.

Lemma extra_immediates_nonneg i op : 0 <= extra_immediates code i op.
Proof.
  unfold extra_immediates, vtable_len, byte_at. case_match; [|done].
  destruct (code !! Z.to_nat (i + 1)) as [b|] eqn:Hb; simpl; [|done].
  eapply Forall_lookup_1 in Hb; [|done]. destruct Hb. lia.
Qed.

(** The immediate bytes of the opcode are complete, and marked. *)
Lemma immediates_marked i info J J' :
  0 <= i < len code -> 0 <= op_immediate_size info ->
  (if negb (op_immediate_size info =? 0) then
     if len code <=? i + op_immediate_size info then Err MissingImmediateBytes
     else mark_immediates (Z.to_nat (op_immediate_size info)) (i + 1) J
   else Ok J) = Ok J' ->
  i + 1 + op_immediate_size info <= len code /\ marked (i + 1) (i + 1 + op_immediate_size info) J J'.
Proof.
  intros Hi Hs H. destruct (Z.eqb_spec (op_immediate_size info) 0) as [->|Hne]; cbn [negb] in H.
  - injection H as <-. rewrite Z.add_0_r. split; [lia|apply marked_empty].
  - destruct (Z.leb_spec (len code) (i + op_immediate_size info)); [done|]. split; [lia|].
    apply mark_immediates_spec in H; [|lia]. by rewrite Z2Nat.id in H by lia.
Qed.

Lemma scan_instruction_spec s s' :
  0 <= sc_i s < len code -> length (sc_jumps s) = length code ->
  scan_instruction code eof_data_size num_of_containers types this_types s = Ok s' ->
  exists op info this, scanned s s' op info this /\
    (sc_after_termination s = true -> is_jumpdest this = true).
Proof.
  intros Hi HL H. unfold scan_instruction in H. set (i := sc_i s) in *.
  destruct (index code i) as [op| |] eqn:Hop; [|done..]. cbn [mbind outcome_bind] in H.
  destruct (opcode_info op) as [info|] eqn:Hinfo; [|done]. destruct (op_not_eof info) eqn:Hen; [done|].
  pose proof (immediate_size_nonneg _ _ Hinfo) as Hs0.
  destruct (index (sc_jumps s) i) as [x| |] eqn:Hx; [|done..]. cbn [mbind outcome_bind] in H. cbv zeta in H.
  apply index_Ok in Hx as [_ Hx]. set (this := reached s x) in *.
  destruct (sc_after_termination s && negb (is_jumpdest this)) eqn:Hd; [done|].
  apply outcome_bind_Ok in H as (J1 & H1 & H). apply immediates_marked in H1 as [Hc1 M1]; [|done..].
  apply outcome_bind_Ok in H as ([e J2] & H2 & H). apply op_effect_spec in H2 as [[] H2].
  destruct (Z.ltb_spec (smallest this) (stack_requirement e)) as [|Hneed]; [done|].
  apply outcome_bind_Ok in H as (J3 & H3 & H). injection H as <-. rewrite es_diff0, es_extra0, es_dests0 in *.
  assert (HM : i + instruction_width code i op info <= len code /\
    marked (i + 1) (i + instruction_width code i op info) (<[Z.to_nat i := this]> (sc_jumps s)) J2).
  { unfold instruction_width. destruct H2 as [[Hne ->]|(-> & Hc2 & M2)].
    - unfold extra_immediates. rewrite (proj2 (Z.eqb_neq op 0xE2) Hne). rewrite Z.add_0_r, Z.add_assoc. by split.
    - assert (op_immediate_size info = 1) as Hone by (by injection Hinfo as <-). rewrite Hone in *.
      pose proof (extra_immediates_nonneg i 0xE2). split; [lia|].
      apply mark_immediates_spec in M2; [|lia]. rewrite Z2Nat.id in M2 by lia.
      eapply (marked_app (i + 1) (i + 1 + 1)); [lia|exact M1|].
      replace (i + 1 + 1) with (i + 2) by lia.
      by replace (i + (1 + 1 + extra_immediates code i 226)) with (i + 2 + extra_immediates code i 226) by lia. }
  destruct HM as [Hcomp HM].
  apply check_jumps_spec in H3 as [HJ Hdest]; [|lia|by rewrite (marked_length _ _ _ _ HM), length_insert].
  exists op, info, this. split.
  - split; cbn [sc_i sc_jumps sc_after_termination sc_next_smallest sc_next_biggest sc_accessed]; try done.
    + split; try done. by rewrite es_need0 in Hneed.
    + fold i. by rewrite es_section0.
    + by exists x.
    + exists J2. by split.
    + unfold instruction_width. fold i. pose proof (extra_immediates_nonneg i op). lia.
  - intros Ha. rewrite Ha in Hd. by destruct (is_jumpdest this).
Qed.

(** The entries of the table after an iteration. *)
Lemma scanned_lookup s s' op info this (k : nat) x :
  scanned s s' op info this -> 0 <= sc_i s -> sc_jumps s !! k = Some x ->
  let y := if decide (Z.of_nat k = sc_i s) then this else x in
  exists x', sc_jumps s' !! k = Some x' /\
    is_immediate x' = (bool_decide (sc_i s + 1 <= Z.of_nat k < sc_i s') || is_immediate y) /\
    (is_jumpdest y = true -> is_jumpdest x' = true) /\ flows (smallest y) (biggest y) x' /\
    (Z.of_nat k <= sc_i s -> smallest x' = smallest y /\ biggest x' = biggest y).
Proof.
  intros [_ _ _ _ _ _ _ (J & [HM HF] & HJ) _ _] Hi Hx y.
  assert (Hy : <[Z.to_nat (sc_i s) := this]> (sc_jumps s) !! k = Some y).
  { subst y. case_decide as Hk.
    - replace (Z.to_nat (sc_i s)) with k by lia. apply list_lookup_insert_eq. by eapply lookup_lt_Some.
    - by rewrite list_lookup_insert_ne by lia. }
  specialize (HM k). rewrite Hy in HM. case_decide as Hk; simpl in HM.
  - destruct (jd_widen _ _ _ HJ _ _ HM) as (x' & Hx' & Him & Hd & Hf & Hs). exists x'.
    rewrite bool_decide_eq_true_2 by done. by split_and!.
  - destruct (jd_widen _ _ _ HJ _ _ HM) as (x' & Hx' & Him & Hd & Hf & Hs). exists x'.
    rewrite bool_decide_eq_false_2 by done. by split_and!.
Qed.

Lemma scanned_length s s' op info this : scanned s s' op info this -> length (sc_jumps s') = length (sc_jumps s).
Proof.
  intros [_ _ _ _ _ _ _ (J & HM & HJ) _ _].
  by rewrite (jd_length _ _ _ HJ), (marked_length _ _ _ _ HM), length_insert.
Qed.

(** An entry comes from one. *)
Lemma scanned_lookup_inv s s' op info this (k : nat) x' :
  scanned s s' op info this -> sc_jumps s' !! k = Some x' -> exists x, sc_jumps s !! k = Some x.
Proof.
  intros Hs Hx'. apply lookup_lt_Some in Hx'. rewrite (scanned_length _ _ _ _ _ Hs) in Hx'.
  by apply lookup_lt_is_Some_2.
Qed.

(** The heights at the instruction are within those handed on, and those of the
    jumps that landed on it. *)
Lemma reached_flows s x :
  flows (smallest x) (biggest x) (reached s x) /\ is_immediate (reached s x) = is_immediate x /\
  is_jumpdest (reached s x) = is_jumpdest x /\
  (sc_after_termination s = false -> flows (sc_next_smallest s) (sc_next_biggest s) (reached s x)).
Proof. unfold reached. destruct (sc_after_termination s); simpl; split_and!; try done; try (split; simpl; lia); intros _; split; simpl; lia. Qed.

Lemma flows_trans lo hi x y : flows lo hi x -> flows (smallest x) (biggest x) y -> flows lo hi y.
Proof. intros [? ?] [? ?]. split; lia. Qed.

(** An instruction that was typed stays so. *)
Lemma typed_preserved s s' op info this k op' info' x x' :
  scan_inv s -> scanned s s' op info this ->
  0 <= k < sc_i s -> typed s k op' info' x -> smallest x' = smallest x -> biggest x' = biggest x ->
  typed s' k op' info' x'.
Proof.
  intros Hinv Hs Hk [[] Hsec Hd Hn] Hsm Hbg. pose proof (si_range _ Hinv) as Hr.
  assert (Hacc : sc_accessed s ⊆ sc_accessed s') by (rewrite (sd_accessed _ _ _ _ _ Hs); case_match; set_solver).
  split.
  - split; try done; by rewrite ?Hsm, ?Hbg.
  - intros c Hc. apply Hacc. auto.
  - intros d Hdd. destruct (Hd d Hdd) as (Hdr & t & Ht & Htd & Htf). split; [done|]. rewrite Hsm, Hbg.
    destruct (scanned_lookup _ _ _ _ _ _ _ Hs ltac:(lia) Ht) as (t' & Ht' & _ & Hd' & Hf' & _).
    case_decide as Hdi.
    + destruct (sd_this _ _ _ _ _ Hs) as (y & Hy & ->). destruct (reached_flows s y) as (F1 & _ & D1 & _).
      replace (Z.to_nat (sc_i s)) with (Z.to_nat d) in Hy by lia. assert (y = t) as -> by congruence.
      exists t'. split_and!; [done|apply Hd'; congruence|]. by eapply flows_trans, flows_trans; [| |done].
    + exists t'. split_and!; [done|auto|]. by eapply flows_trans.
  - intros Hterm. specialize (Hn Hterm). cbv zeta in *. left. pose proof (sd_width _ _ _ _ _ Hs).
    rewrite (sd_i _ _ _ _ _ Hs), Hsm, Hbg.
    destruct Hn as [(Hj & t & Ht & Hti & Htf)|(Hj & Ha & Hns & Hnb)].
    + split; [lia|]. destruct (scanned_lookup _ _ _ _ _ _ _ Hs ltac:(lia) Ht) as (t' & Ht' & Hi' & _ & Hf' & _).
      rewrite decide_False in Hi', Hf' by lia. exists t'. split_and!; [done| |by eapply flows_trans].
      rewrite Hi', Hti. by rewrite bool_decide_eq_false_2 by lia.
    + split; [lia|]. rewrite Hj. destruct (sd_this _ _ _ _ _ Hs) as (y & Hy & Hthis).
      destruct (reached_flows s y) as (_ & I1 & _ & F1). specialize (F1 Ha). rewrite <- Hthis in F1, I1.
      destruct (scanned_lookup _ _ _ _ _ _ _ Hs ltac:(lia) Hy) as (t' & Ht' & Hi' & _ & Hf' & _).
      rewrite decide_True in Hi', Hf' by lia. exists t'. split_and!; [done| |].
      * rewrite Hi', I1, (si_fresh _ Hinv _ _ Hy) by lia. by rewrite bool_decide_eq_false_2 by lia.
      * rewrite <- Hns, <- Hnb. by eapply flows_trans.
Qed.

(** The entry of the instruction that was scanned. *)
Lemma scanned_this s s' op info this :
  scan_inv s -> sc_i s < len code -> scanned s s' op info this ->
  is_immediate this = false /\ exists x', sc_jumps s' !! Z.to_nat (sc_i s) = Some x' /\ is_immediate x' = false /\
    smallest x' = smallest this /\ biggest x' = biggest this.
Proof.
  intros Hinv Hlt Hs. pose proof (si_range _ Hinv). destruct (sd_this _ _ _ _ _ Hs) as (x & Hx & Hthis).
  destruct (reached_flows s x) as (_ & Hi & _). rewrite <- Hthis in Hi.
  rewrite (si_fresh _ Hinv _ _ Hx) in Hi by lia. split; [done|].
  destruct (scanned_lookup _ _ _ _ _ _ _ Hs ltac:(lia) Hx) as (x' & Hx' & Hi' & _ & _ & Hsame).
  rewrite decide_True in Hi', Hsame by lia. destruct (Hsame ltac:(lia)). exists x'. split_and!; try done.
  rewrite Hi', Hi. by rewrite bool_decide_eq_false_2 by lia.
Qed.

Lemma typed_scanned s s' op info this x' :
  scan_inv s -> sc_i s < len code -> scanned s s' op info this ->
  smallest x' = smallest this -> biggest x' = biggest this -> typed s' (sc_i s) op info x'.
Proof.
  intros Hinv Hlt Hs Hsm Hbg. destruct (sd_wf _ _ _ _ _ Hs). split.
  - split; try done; by rewrite ?Hsm, ?Hbg.
  - intros c Hc. rewrite (sd_accessed _ _ _ _ _ Hs), Hc. set_solver.
  - intros d Hd. destruct (sd_dests _ _ _ _ _ Hs d Hd) as (Hr & t & Ht & _ & Htd & Htf).
    rewrite (sd_smallest _ _ _ _ _ Hs), (sd_biggest _ _ _ _ _ Hs) in Htf. rewrite Hsm, Hbg.
    split; [done|]. by exists t.
  - intros Hterm. right. rewrite (sd_i _ _ _ _ _ Hs), (sd_after _ _ _ _ _ Hs), (sd_smallest _ _ _ _ _ Hs),
      (sd_biggest _ _ _ _ _ Hs), Hsm, Hbg. done.
Qed.

Lemma accessed_named i op acc c :
  references_ok code eof_data_size num_of_containers types i op ->
  c ∈ match names_section code i op with Some c => {[c]} ∪ acc | None => acc end ->
  0 <= c /\ is_Some (types !! Z.to_nat c) \/ c ∈ (acc : gset Z).
Proof.
  intros (Href & _) Hc. unfold names_section in Hc. destruct ((op =? 0xE3) || (op =? 0xE5)) eqn:Hop; [|by right].
  apply elem_of_union in Hc as [->%elem_of_singleton|]; [left|by right]. split.
  - unfold word_at. apply from_be_bytes_bound. repeat constructor; by apply byte_at_is_byte.
  - apply Href. apply orb_true_iff in Hop as [H1%Z.eqb_eq|H1%Z.eqb_eq]; auto.
Qed.

Lemma scan_inv_step s s' op info this :
  scan_inv s -> sc_i s < len code -> scanned s s' op info this -> scan_inv s'.
Proof.
  intros Hinv Hlt Hs. pose proof (si_range _ Hinv) as Hr. pose proof (sd_i _ _ _ _ _ Hs) as Hi'.
  pose proof (sd_width _ _ _ _ _ Hs) as Hw. destruct (sd_wf _ _ _ _ _ Hs).
  destruct (scanned_this _ _ _ _ _ Hinv Hlt Hs) as (Hti & xi & Hxi & Hxii & Hxs & Hxb).
  split.
  - by rewrite (scanned_length _ _ _ _ _ Hs), (si_length _ Hinv).
  - rewrite Hi'. lia.
  - intros c Hc. rewrite (sd_accessed _ _ _ _ _ Hs) in Hc. apply (accessed_named _ _ _ _ wf_refs0) in Hc.
    destruct Hc; [done|]. by apply (si_accessed _ Hinv).
  - eapply rtc_r; [apply (si_start _ Hinv)|]. exists op, info. by rewrite Hi'.
  - intros k x' Hx' Hk. destruct (scanned_lookup_inv _ _ _ _ _ _ _ Hs Hx') as [x Hx].
    destruct (scanned_lookup _ _ _ _ _ _ _ Hs ltac:(lia) Hx) as (x2 & Hx2 & Him & _).
    rewrite decide_False in Him by lia. assert (x2 = x') as -> by congruence.
    rewrite Him, (si_fresh _ Hinv _ _ Hx) by lia. by rewrite bool_decide_eq_false_2 by lia.
  - intros k x' Hx' Hd. destruct (sd_table _ _ _ _ _ Hs) as (J & [HM HF] & HJ).
    destruct (jd_dest _ _ _ HJ _ _ Hx' Hd) as (y & Hy & Hcase).
    destruct (jd_widen _ _ _ HJ _ _ Hy) as (y' & Hy' & Himm & _). assert (y' = x') as -> by congruence.
    rewrite Himm. destruct Hcase as [Hyd|?]; [|done]. specialize (HM k). rewrite Hy in HM.
    case_decide as Hk.
    + destruct (<[_ := this]> (sc_jumps s) !! k) as [z|] eqn:Hz; [|done]. simpl in HM. injection HM as ->.
      simpl in Hyd. by rewrite (HF k z Hk Hz) in Hyd.
    + destruct (decide (k = Z.to_nat (sc_i s))) as [->|Hne].
      * rewrite list_lookup_insert_eq in HM; [by injection HM as ->|]. 
        rewrite (si_length _ Hinv). unfold len in Hlt. lia.
      * rewrite list_lookup_insert_ne in HM by done. by apply (si_dest _ Hinv k).
  - intros k x' Hx' Hk Him. destruct (scanned_lookup_inv _ _ _ _ _ _ _ Hs Hx') as [x Hx].
    destruct (scanned_lookup _ _ _ _ _ _ _ Hs ltac:(lia) Hx) as (x2 & Hx2 & Himm & _ & _ & Hsame).
    assert (x2 = x') as -> by congruence. destruct (decide (Z.of_nat k = sc_i s)) as [Hki|Hki].
    + assert (k = Z.to_nat (sc_i s)) as -> by lia. assert (x' = xi) as -> by congruence.
      rewrite Hki. split; [apply (si_start _ Hinv)|]. exists op, info. by apply (typed_scanned _ _ _ _ this).
    + destruct (decide (Z.of_nat k < sc_i s)) as [Hlk|Hlk].
      * rewrite bool_decide_eq_false_2 in Himm by lia. simpl in Himm.
        destruct (si_visited _ Hinv k x Hx Hlk ltac:(congruence)) as (Hst & op' & info' & Ht). split; [done|].
        exists op', info'. destruct (Hsame ltac:(lia)).
        apply (typed_preserved s s' op info this _ _ _ x); try done. lia.
      * rewrite bool_decide_eq_true_2 in Himm by lia. simpl in Himm. congruence.
  - right. split; [lia|]. destruct (si_entry _ Hinv) as [(H0 & Ha & Hns & Hnb)|(H0 & x & Hx & Hxim & Hxf)].
    + destruct (sd_this _ _ _ _ _ Hs) as (y & Hy & Hthis). destruct (reached_flows s y) as (_ & _ & _ & F1).
      specialize (F1 Ha). rewrite <- Hthis, Hns, Hnb in F1. exists xi. rewrite H0 in Hxi. split_and!; [done|done|].
      destruct F1. split; lia.
    + destruct (scanned_lookup _ _ _ _ _ 0%nat _ Hs ltac:(lia) Hx) as (x' & Hx' & Himm & _ & Hf & _).
      rewrite decide_False in Himm, Hf by lia. exists x'. split_and!; [done| |by eapply flows_trans].
      rewrite Himm, Hxim. by rewrite bool_decide_eq_false_2 by lia.
Qed.

Lemma scan_loop_inv fuel s s' :
  scan_inv s -> scan_loop code eof_data_size num_of_containers types this_types fuel s = Ok (Some s') ->
  scan_inv s' /\ sc_i s' = len code.
Proof.
  revert s. induction fuel as [|fuel IH]; intros s Hinv H; cbn [scan_loop] in H;
    destruct (Z.ltb_spec (sc_i s) (len code)) as [Hlt|Hge]; try done.
  - injection H as <-. split; [done|]. pose proof (si_range _ Hinv). lia.
  - apply outcome_bind_Ok in H as (s1 & H1 & H). pose proof (si_range _ Hinv).
    apply scan_instruction_spec in H1 as (op & info & this & Hs & _); [|lia|by apply si_length].
    apply (IH s1); [|done]. by eapply scan_inv_step.
  - injection H as <-. split; [done|]. pose proof (si_range _ Hinv). lia.
Qed.
End scan.

(** ** The test vectors of [analysis.rs] *)

Definition verdict (raw : bytes) : option EofError :=
  match validate_raw_eof elements (length raw) raw with Err e => Some e | _ => None end.
Example validation_test1 : verdict
   [239; 0; 1; 1; 0; 4; 2; 0; 1; 0; 7; 4; 0; 0; 0; 0; 128; 0; 1; 96; 0; 226; 0; 255; 252; 0] = Some (EofError_Validation BackwardJumpBiggestNumMismatch).
Proof. vm_compute. reflexivity. Qed.
Example validation_test2 : verdict
   [239; 0; 1; 1; 0; 12; 2; 0; 3; 0; 4; 0; 4; 0; 2; 4; 0; 0; 0; 0; 128; 0; 2; 0; 2; 0; 1; 0; 1; 0;
    1; 227; 0; 1; 0; 95; 229; 0; 2; 95; 228] = None.
Proof. vm_compute. reflexivity. Qed.
Example validation_test3 : verdict
   [239; 0; 1; 1; 0; 12; 2; 0; 3; 0; 4; 0; 8; 0; 3; 4; 0; 0; 0; 0; 128; 0; 2; 0; 2; 0; 5; 3; 1; 0;
    3; 227; 0; 1; 0; 95; 95; 95; 95; 95; 229; 0; 2; 80; 80; 228] = Some (EofError_Validation JUMPFStackHigherThanOutputs).
Proof. vm_compute. reflexivity. Qed.
