(* ===== verification/EofSafety.v ===== *)
(** What the validation of EOF code guarantees.

    It answers on every container, without a panic; the code it accepts runs
    without reaching an undefined opcode, an incomplete immediate, a jump outside
    the code or a stack underflow, also across CALLF, RETF and JUMPF; and the
    order in which the sections are visited does not matter. *)

From S2P Require Import Prelude.
From S2P Require Import Bytes.
From S2P Require Import Eof.
From S2P Require Import Stack.
From S2P Require Import Opcode.
From S2P Require Import EofValidation.

(** * The scan does not panic *)

Lemma mark_immediates_safely n start J :
  0 <= start -> start + Z.of_nat n <= len J ->
  safely (mark_immediates n start J) (fun J' => length J' = length J).
Proof.
  revert start J. induction n as [|n IH]; intros start J Hs HL; cbn [mark_immediates]; [done|].
  eapply safely_bind; [apply index_safely; lia|]. intros x _ Hx.
  eapply (safely_bind _ _ (fun _ => True)); [unfold mark_as_immediate; by destruct (is_jumpdest x)|]. intros y _ _.
  eapply safely_mono; [apply IH; [lia|]; unfold len in *; rewrite length_insert; lia|].
  intros J' _ ->. by rewrite length_insert.
Qed.

Lemma read_u16_safely code i : 0 <= i -> i + 1 < len code -> safely (read_u16 code i) (fun _ => True).
Proof.
  intros Hi Hl. unfold read_u16. eapply safely_bind; [apply index_safely; lia|]. intros hi _ _.
  eapply safely_bind; [apply index_safely; lia|]. done.
Qed.
Lemma read_i16_safely code i : 0 <= i -> i + 1 < len code -> safely (read_i16 code i) (fun _ => True).
Proof. intros Hi Hl. unfold read_i16. by eapply safely_bind; [apply read_u16_safely|]. Qed.

Lemma read_vtable_safely code i additional n : forall v,
  0 <= i -> 0 <= v -> i + 2 + 2 * (v + Z.of_nat n) <= len code ->
  safely (read_vtable n code i v additional) (fun _ => True).
Proof.
  induction n as [|n IH]; intros v Hi Hv Hl; cbn [read_vtable]; [done|].
  eapply safely_bind; [apply read_i16_safely; lia|]. intros o _ _.
  eapply safely_bind; [apply IH; lia|]. done.
Qed.

Lemma check_jumps_safely code i ns nb dests : forall J,
  length J = length code -> safely (check_jumps code i ns nb dests J) (fun _ => True).
Proof.
  induction dests as [|d dests IH]; intros J HL; cbn [check_jumps]; [done|].
  eapply (safely_bind _ _ (fun J' => length J' = length code)); [|eauto].
  unfold check_jump. destruct (Z.ltb_spec d 0); [done|]. destruct (Z.leb_spec (len code) d); [done|].
  eapply safely_bind; [apply index_safely; unfold len in *; lia|]. intros t _ _.
  repeat case_match; simpl; try done; by rewrite length_insert.
Qed.

Section no_panic.
Context (code : bytes) (eof_data_size num_of_containers : Z).
Context (types : list TypesSection) (this_types : TypesSection).
Context (Hbytes : Forall is_byte code).

(** The operations that read immediates have as many as they read. *)
Lemma op_effect_safely i op info this J :
  0 <= i -> opcode_info op = Some info -> i + 1 + op_immediate_size info <= len code -> length J = length code ->
  safely (op_effect code eof_data_size num_of_containers types this_types i op info this J)
    (fun r => length r.2 = length code).
Proof.
  intros Hi Hinfo Hl HJ. unfold op_effect.
  assert (Hsize : forall o n, op = o -> (opcode_info o ≫= fun x => Some (op_immediate_size x)) = Some n ->
    i + 1 + n <= len code) by (intros o n -> Ho; rewrite Hinfo in Ho; injection Ho as <-; lia).
  destruct ((op =? 0xE0) || (op =? 0xE1)) eqn:H0.
  { eapply safely_bind; [apply read_i16_safely|done]; [lia|].
    apply orb_true_iff in H0 as [H1%Z.eqb_eq|H1%Z.eqb_eq]; specialize (Hsize _ 2 H1 eq_refl); lia. }
  destruct (Z.eqb_spec op 0xE2) as [H2|_].
  { specialize (Hsize _ 1 H2 eq_refl). unfold rjumpv_effect.
    eapply safely_bind; [apply index_safely; lia|]. intros mi _ Hmi.
    eapply Forall_lookup_1 in Hmi; [|done]. destruct Hmi. case_match eqn:Hb; [done|]. apply Z.leb_gt in Hb.
    eapply safely_bind; [apply mark_immediates_safely; unfold len in *; lia|]. intros J' _ HJ'.
    eapply safely_bind; [apply read_vtable_safely; lia|]. intros l _ _. simpl. congruence. }
  destruct (Z.eqb_spec op 0xE3) as [H3|_].
  { specialize (Hsize _ 2 H3 eq_refl). unfold callf_effect.
    eapply (safely_bind _ _ (fun _ => True)); [|done]. eapply safely_bind; [apply read_u16_safely; lia|].
    intros v _ _. by repeat case_match. }
  destruct (Z.eqb_spec op 0xE5) as [H5|_].
  { specialize (Hsize _ 2 H5 eq_refl). unfold jumpf_effect.
    eapply (safely_bind _ _ (fun _ => True)); [|done]. eapply safely_bind; [apply read_u16_safely; lia|].
    intros v _ _. by repeat case_match. }
  destruct (Z.eqb_spec op 0xEC) as [HEC|_].
  { specialize (Hsize _ 1 HEC eq_refl). eapply safely_bind; [apply index_safely; lia|]. intros v _ _. by case_match. }
  destruct (Z.eqb_spec op 0xD1) as [HD1|_].
  { specialize (Hsize _ 2 HD1 eq_refl). eapply safely_bind; [apply read_u16_safely; lia|]. intros v _ _. by case_match. }
  destruct (Z.eqb_spec op 0xE4) as [_|_]; [by case_match|].
  destruct (Z.eqb_spec op 0xE6) as [HE|_]; [|destruct (Z.eqb_spec op 0xE7) as [HE|_]; [|destruct (Z.eqb_spec op 0xE8) as [HE|_]; [|done]]];
    (specialize (Hsize _ 1 HE eq_refl); by eapply safely_bind; [apply index_safely; lia|]).
Qed.

Lemma scan_instruction_safely s :
  0 <= sc_i s < len code -> length (sc_jumps s) = length code ->
  safely (scan_instruction code eof_data_size num_of_containers types this_types s) (fun _ => True).
Proof.
  intros Hi HL. unfold scan_instruction. eapply safely_bind; [by apply index_safely|]. intros op _ _.
  destruct (opcode_info op) as [info|] eqn:Hinfo; [|done]. case_match; [done|].
  eapply safely_bind; [apply index_safely; unfold len in *; lia|]. intros x _ _. cbv zeta. case_match; [done|].
  pose proof (immediate_size_nonneg _ _ Hinfo).
  eapply (safely_bind _ _ (fun J => length J = length code /\ sc_i s + 1 + op_immediate_size info <= len code)).
  { destruct (Z.eqb_spec (op_immediate_size info) 0) as [->|]; cbn [negb].
    - simpl. rewrite length_insert. split; [done|lia].
    - case_match eqn:Hb; [done|]. apply Z.leb_gt in Hb. 
      eapply safely_mono; [apply mark_immediates_safely; unfold len in *; rewrite ?length_insert; lia|].
      intros J _. rewrite length_insert. intros ->. split; [done|lia]. }
  intros J _ [HJ Hc]. eapply safely_bind; [apply op_effect_safely; try done; lia|]. intros [e J'] _ HJ'.
  case_match; [done|]. by eapply safely_bind; [apply check_jumps_safely|].
Qed.

(** Each iteration advances, so that the loop ends; and it keeps its invariant. *)
Lemma scan_loop_safely fuel s :
  scan_inv code eof_data_size num_of_containers types this_types s -> len code - sc_i s <= Z.of_nat fuel ->
  safely (scan_loop code eof_data_size num_of_containers types this_types fuel s)
    (fun r => exists s', r = Some s' /\ sc_i s' = len code /\
       scan_inv code eof_data_size num_of_containers types this_types s').
Proof.
  revert s. induction fuel as [|fuel IH]; intros s Hinv Hf; cbn [scan_loop];
    (destruct (Z.ltb_spec (sc_i s) (len code)); [|exists s; pose proof (si_range _ _ _ _ _ _ Hinv); split_and!; try done; lia]);
    pose proof (si_range _ _ _ _ _ _ Hinv); [lia|].
  eapply safely_bind; [apply scan_instruction_safely; [lia|by eapply si_length]|].
  intros s1 H1 _. apply scan_instruction_spec in H1 as (op & info & this & Hs & _); [|done|lia|by eapply si_length].
  apply IH; [by eapply scan_inv_step|]. pose proof (sd_i _ _ _ _ _ _ _ _ _ _ Hs). pose proof (sd_width _ _ _ _ _ _ _ _ _ _ Hs). lia.
Qed.
End no_panic.

(** * What an accepted code section is

    [T] gives the heights of the stack recorded at every instruction. *)

Section accepted.
Context (code : bytes) (eof_data_size num_of_containers : Z).
Context (types : list TypesSection) (this_types : TypesSection).
Context (Hbytes : Forall is_byte code).

Record instruction_typed (acc : gset Z) (T : Z -> option InstructionInfo) (i op : Z) (info : OpCodeInfo)
  (x : InstructionInfo) : Prop := {
  it_wf : well_formed code eof_data_size num_of_containers types this_types i op info x;
  it_section : forall c, names_section code i op = Some c -> c ∈ acc;
  it_dests : forall d, d ∈ destinations code i op -> exists t, T d = Some t /\
    flows (smallest x + height_change types code i op info) (biggest x + height_change types code i op info) t;
  it_next : op_terminating info = false -> exists t, T (i + instruction_width code i op info) = Some t /\
    flows (smallest x + height_change types code i op info) (biggest x + height_change types code i op info) t;
}.

Record section_typed (acc : gset Z) (T : Z -> option InstructionInfo) : Prop := {
  tt_entry : exists x, T 0 = Some x /\ flows (inputs this_types) (inputs this_types) x;
  tt_typed : forall i x, T i = Some x -> 0 <= i < len code /\ eof_start code i /\
    biggest x <= max_stack_size this_types /\ exists op info, instruction_typed acc T i op info x;
}.

Lemma instruction_width_pos i op info : opcode_info op = Some info -> 1 <= instruction_width code i op info.
Proof.
  intros H. pose proof (immediate_size_nonneg _ _ H). pose proof (extra_immediates_nonneg code Hbytes i op).
  unfold instruction_width. lia.
Qed.

(** The heights that the scan has recorded. *)
Definition recorded (J : list InstructionInfo) (i : Z) : option InstructionInfo :=
  if i <? 0 then None
  else match J !! Z.to_nat i with Some x => if is_immediate x then None else Some x | None => None end.

Lemma recorded_Some J i x :
  recorded J i = Some x <-> 0 <= i /\ J !! Z.to_nat i = Some x /\ is_immediate x = false.
Proof.
  unfold recorded. destruct (Z.ltb_spec i 0); [split; [done|lia]|].
  destruct (J !! Z.to_nat i) as [y|]; [|naive_solver].
  destruct (is_immediate y) eqn:Hi; split; [done| |intros [= <-]; naive_solver|naive_solver].
  intros (_ & [= ->] & Hx). congruence.
Qed.

Lemma max_stack_requirement_bound J (k : nat) x : J !! k = Some x -> biggest x <= max_stack_requirement J.
Proof.
  unfold max_stack_requirement. assert (Hmono : forall l m, m <= foldl (fun m x => Z.max (biggest x) m) m l).
  { induction l as [|y l IH]; intros m; simpl; [lia|]. etrans; [|apply IH]. lia. }
  generalize 0. revert k. induction J as [|y J IH]; intros [|k] m H; simpl in *; try done.
  - injection H as ->. etrans; [|apply Hmono]. lia.
  - eauto.
Qed.

Lemma scanned_section s :
  scan_inv code eof_data_size num_of_containers types this_types s -> sc_i s = len code ->
  sc_after_termination s = true -> max_stack_requirement (sc_jumps s) = max_stack_size this_types ->
  section_typed (sc_accessed s) (recorded (sc_jumps s)).
Proof.
  intros Hinv Hi Ha Hmax. split.
  - destruct (si_entry _ _ _ _ _ _ Hinv) as [(_ & Hn & _)|(_ & x & Hx & Hxi & Hf)]; [congruence|].
    exists x. split; [|done]. by apply recorded_Some.
  - intros i x (Hi0 & Hx & Hxi)%recorded_Some.
    assert (Hr : 0 <= i < len code).
    { pose proof (lookup_lt_Some _ _ _ Hx). pose proof (si_length _ _ _ _ _ _ Hinv). unfold len. lia. }
    destruct (si_visited _ _ _ _ _ _ Hinv _ _ Hx ltac:(lia) Hxi) as (Hst & op & info & [Hwf Hsec Hdest Hnext]).
    rewrite Z2Nat.id in * by lia. split_and!; [lia|lia|done| |].
    { rewrite <- Hmax. by eapply max_stack_requirement_bound. }
    exists op, info. split; [done|done| |].
    + intros d Hd. destruct (Hdest d Hd) as (Hdr & t & Ht & Htd & Hf). exists t. split; [|done].
      apply recorded_Some. split_and!; [lia|done|]. by eapply si_dest.
    + intros Hterm. destruct (Hnext Hterm) as [(Hj & t & Ht & Hti & Hf)|(_ & Hn & _)]; [|congruence].
      exists t. split; [|done]. apply recorded_Some. split_and!; [|done|done].
      pose proof (instruction_width_pos i op info (wf_info _ _ _ _ _ _ _ _ _ Hwf)). lia.
Qed.

Lemma validate_eof_code_safely idx :
  types !! Z.to_nat idx = Some this_types -> 0 <= idx ->
  safely (validate_eof_code code eof_data_size idx num_of_containers types)
    (fun acc => (forall c, c ∈ acc -> 0 <= c /\ is_Some (types !! Z.to_nat c)) /\ exists T, section_typed acc T).
Proof.
  intros Hidx Hi. unfold validate_eof_code.
  eapply safely_bind; [apply index_safely; apply lookup_lt_Some in Hidx; unfold len; lia|].
  intros t _ Ht. assert (t = this_types) as -> by congruence.
  eapply safely_bind; [apply scan_loop_safely; [done|by apply scan_start_inv|simpl; unfold len; lia]|].
  intros r _ (s & -> & Hsi & Hinv). destruct (sc_after_termination s) eqn:Ha; cbn [negb]; [|done].
  destruct (Z.eqb_spec (max_stack_requirement (sc_jumps s)) (max_stack_size this_types)); cbn [negb]; [|done].
  split; [by apply (si_accessed _ _ _ _ _ _ Hinv)|]. exists (recorded (sc_jumps s)). by apply scanned_section.
Qed.
End accepted.

(** * All code sections

    [order] lists the elements of a [HashSet] in the order its iterator yields. *)

Section codes.
Context (order : gset Z -> list Z).
Context (Horder : forall s x, x ∈ order s <-> x ∈ s).
Context (eof : Eof).

Abbreviation sections := (code_section (body eof)).
Abbreviation all_types := (types_section (body eof)).

(** What decoding has established. *)
Definition sections_are_bytes : Prop := Forall (Forall is_byte) sections.
Context (Hbytes : sections_are_bytes) (Hlen : length sections = length all_types).

(** The validation of the section [k], and the sections it calls or jumps to. *)
Definition validation_of (k : Z) : outcome EofValidationError (gset Z) :=
  code ← index sections k;
  validate_eof_code code (data_size (header eof)) k (len (container_section (body eof))) all_types.
Definition accesses (k c : Z) : Prop := exists acc, validation_of k = Ok acc /\ c ∈ acc.

(** The section [k] was accepted, with a set of sections that satisfies [P]. *)
Definition accepted (P : Z -> Prop) (k : nat) : Prop :=
  exists code t acc T, sections !! k = Some code /\ all_types !! k = Some t /\
    validation_of (Z.of_nat k) = Ok acc /\
    section_typed code (data_size (header eof)) (len (container_section (body eof))) all_types t acc T /\
    forall c, c ∈ acc -> P c.

Lemma accepted_mono (P Q : Z -> Prop) k : (forall c, P c -> Q c) -> accepted P k -> accepted Q k.
Proof. intros HPQ (code & t & acc & T & ? & ? & ? & ? & Hacc). exists code, t, acc, T. split_and!; auto. Qed.

Definition is_queued (queued : list bool) (k : Z) : Prop := 0 <= k /\ queued !! Z.to_nat k = Some true.

(** The sections that wait to be queued, and how many iterations they can cause. *)
Definition unqueued (queued : list bool) : nat := foldr (fun (q : bool) n => if q then n else S n) O queued.

Lemma unqueued_insert queued k :
  queued !! k = Some false -> unqueued queued = S (unqueued (<[k := true]> queued)).
Proof.
  revert k. induction queued as [|q queued IH]; intros [|k] H; simpl in *; try done; [by injection H as ->|].
  rewrite (IH k H). by destruct q.
Qed.

(** [enqueue] marks the sections it is given, and those new are in the queue. *)
Record enqueued (l : list Z) (queued : list bool) (queue : list Z) (queued' : list bool) (queue' : list Z) : Prop := {
  en_length : length queued' = length queued;
  en_all : forall i, i ∈ l -> is_queued queued' i;
  en_keep : forall k : nat, queued !! k = Some true -> queued' !! k = Some true;
  en_new : forall k : nat, queued' !! k = Some true -> queued !! k = Some true \/ Z.of_nat k ∈ queue';
  en_queue : forall i, i ∈ queue -> i ∈ queue';
  en_range : forall i, i ∈ queue' -> i ∈ queue \/ i ∈ l;
  en_measure : (unqueued queued' + length queue' = unqueued queued + length queue)%nat;
}.

Lemma enqueue_safely l : forall queued queue,
  (forall i, i ∈ l -> 0 <= i < len queued) ->
  safely (enqueue l queued queue) (fun '(queued', queue') => enqueued l queued queue queued' queue').
Proof.
  induction l as [|i l IH]; intros queued queue Hl; cbn [enqueue].
  { simpl. split; try done; [|naive_solver..]. intros i Hi. by apply elem_of_nil in Hi. }
  assert (Hi : 0 <= i < len queued) by (apply Hl; set_solver).
  eapply safely_bind; [by apply index_safely|]. intros q _ Hq. destruct q.
  - eapply safely_mono; [apply IH; set_solver|]. intros [queued' queue'] _ []. split; try done; [|set_solver].
    intros j [->|Hj]%elem_of_cons; [split; [lia|by apply en_keep0]|auto].
  - eapply safely_mono; [apply IH|].
    { intros j Hj. unfold len. rewrite length_insert. apply Hl. set_solver. }
    intros [queued' queue'] _ []. rewrite length_insert in *.
    pose proof (lookup_lt_Some _ _ _ Hq) as Hlt. pose proof (unqueued_insert _ _ Hq).
    assert (Hself : <[Z.to_nat i := true]> queued !! Z.to_nat i = Some true) by by apply list_lookup_insert_eq.
    split; [done| | | | | |simpl in *; lia].
    + intros j [->|Hj]%elem_of_cons; [split; [lia|by apply en_keep0]|auto].
    + intros k Hk. apply en_keep0. destruct (decide (k = Z.to_nat i)) as [->|]; [done|by rewrite list_lookup_insert_ne].
    + intros k Hk. destruct (decide (k = Z.to_nat i)) as [->|Hne].
      * right. rewrite Z2Nat.id by lia. apply en_queue0. set_solver.
      * destruct (en_new0 k Hk) as [Hk'|]; [|by right]. rewrite list_lookup_insert_ne in Hk' by done. by left.
    + intros j Hj. apply en_queue0. set_solver.
    + intros j Hj. destruct (en_range0 j Hj); set_solver.
Qed.

(** Every section that was queued is accepted, or in the queue. *)
Record codes_inv (queued : list bool) (queue : list Z) : Prop := {
  ci_length : length queued = length sections;
  ci_range : forall i, i ∈ queue -> 0 <= i < len sections /\ is_queued queued i;
  ci_reached : forall k : nat, queued !! k = Some true -> rtc accesses 0 (Z.of_nat k);
  ci_first : queued !! 0%nat = Some true;
  ci_done : forall k : nat, queued !! k = Some true -> Z.of_nat k ∈ queue \/ accepted (is_queued queued) k;
}.

Lemma codes_loop_safely fuel : forall queued queue,
  codes_inv queued queue -> (unqueued queued + length queue <= fuel)%nat ->
  safely (codes_loop order fuel eof queued queue)
    (fun r => exists queued', r = Some queued' /\ codes_inv queued' []).
Proof.
  induction fuel as [|fuel IH]; intros queued [|i queue] Hinv Hf; cbn [codes_loop]; simpl in Hf; try lia.
  1, 2: by exists queued.
  destruct (ci_range _ _ Hinv i ltac:(set_solver)) as [Hi Hiq].
  eapply safely_bind; [by apply index_safely|]. intros code Hcodei Hcode.
  assert (is_Some (all_types !! Z.to_nat i)) as [t Ht].
  { apply lookup_lt_is_Some. rewrite <- Hlen. exact (lookup_lt_Some _ _ _ Hcode). }
  eapply safely_bind.
  { apply (validate_eof_code_safely code _ _ all_types t); [|done|lia].
    apply (Forall_lookup_1 _ _ _ _ Hbytes Hcode). }
  intros acc Hvalid (Hacc & T & HT).
  assert (Hval : validation_of i = Ok acc) by (unfold validation_of; by rewrite Hcodei).
  eapply safely_bind.
  { apply enqueue_safely. intros c Hc. apply Horder, Hacc in Hc as [? Hc].
    apply lookup_lt_is_Some in Hc. unfold len. rewrite (ci_length _ _ Hinv), Hlen. lia. }
  intros [queued' queue'] _ []. apply IH; [|lia]. split.
  - rewrite en_length0. apply Hinv.
  - intros j Hj. destruct (en_range0 j Hj) as [Hjq|Hj'].
    + destruct (ci_range _ _ Hinv j ltac:(set_solver)) as [? [? Hq]]. split; [done|]. split; [done|]. by apply en_keep0.
    + split; [|by apply en_all0]. apply Horder, Hacc in Hj' as [? Hc]. apply lookup_lt_is_Some in Hc. unfold len. lia.
  - intros k Hk. destruct (en_new0 k Hk) as [Hk'|Hkq]; [by apply (ci_reached _ _ Hinv)|].
    destruct (en_range0 _ Hkq) as [Hkq'|Hkl].
    + destruct (ci_range _ _ Hinv (Z.of_nat k) ltac:(set_solver)) as [_ [_ Hq]]. apply (ci_reached _ _ Hinv).
      by rewrite Nat2Z.id in Hq.
    + eapply rtc_r; [|exists acc; split; [exact Hval|by apply Horder]].
      pose proof (ci_reached _ _ Hinv (Z.to_nat i) (proj2 Hiq)) as Hr. by rewrite Z2Nat.id in Hr by lia.
  - apply en_keep0. apply Hinv.
  - intros k Hk. destruct (en_new0 k Hk) as [Hk'|]; [|by left].
    destruct (ci_done _ _ Hinv k Hk') as [[Hki|]%elem_of_cons|Hd]; [|by auto|].
    + right. exists code, t, acc, T. rewrite Hki. rewrite <- Hki, Nat2Z.id in *. split_and!; try done.
      intros c Hc. apply en_all0. by apply Horder.
    + right. eapply accepted_mono; [|done]. intros c [? ?]. split; [done|by apply en_keep0].
Qed.

Lemma codes_start : (0 < length sections)%nat -> codes_inv (<[0%nat := true]> (replicate (length sections) false)) [0].
Proof.
  intros Hn. split.
  - by rewrite length_insert, length_replicate.
  - intros i Hi. apply list_elem_of_singleton in Hi as ->. split; [unfold len; lia|].
    split; [done|]. apply list_lookup_insert_eq. by rewrite length_replicate.
  - intros k Hk. destruct k as [|k]; [apply rtc_refl|].
    rewrite list_lookup_insert_ne in Hk by done. by apply lookup_replicate in Hk as [[=] _].
  - apply list_lookup_insert_eq. by rewrite length_replicate.
  - intros k Hk. left. destruct k as [|k]; [set_solver|].
    rewrite list_lookup_insert_ne in Hk by done. by apply lookup_replicate in Hk as [[=] _].
Qed.

Lemma unqueued_start n : (0 < n)%nat -> unqueued (<[0%nat := true]> (replicate n false)) = pred n.
Proof.
  destruct n as [|n]; [lia|]. intros _. cbn [replicate list_insert insert]. unfold unqueued. simpl.
  induction n as [|n IH]; [done|]. simpl. by f_equal.
Qed.

Lemma validate_eof_codes_safely :
  safely (validate_eof_codes order eof)
    (fun _ => forall k : nat, (k < length sections)%nat -> accepted (fun _ => True) k /\ rtc accesses 0 (Z.of_nat k)).
Proof.
  unfold validate_eof_codes. rewrite bool_decide_eq_true_2 by done. cbn [negb].
  assert (all_types = [] \/ exists t rest, all_types = t :: rest) as [Hty|(t & rest & Hty)]
    by (destruct all_types; eauto); rewrite Hty; [done|]. case_match; [done|].
  assert (Hn : (0 < length sections)%nat) by (rewrite Hlen, Hty; simpl; lia).
  eapply safely_bind.
  { apply codes_loop_safely; [by apply codes_start|]. rewrite unqueued_start by done. simpl. lia. }
  intros r _ (queued & -> & Hinv). destruct (forallb id queued) eqn:Hall; [|done].
  intros k Hk. rewrite forallb_forall in Hall. rewrite <- (ci_length _ _ Hinv) in Hk.
  apply lookup_lt_is_Some in Hk as [q Hq].
  assert (q = true) as -> by (apply (Hall q); apply list_elem_of_In; by eapply list_elem_of_lookup_2).
  split; [|by apply (ci_reached _ _ Hinv)].
  destruct (ci_done _ _ Hinv k Hq) as [Hnil|Hd]; [by apply elem_of_nil in Hnil|]. by eapply accepted_mono; [|exact Hd].
Qed.

(** *** When validation accepts *)

Lemma enqueue_no_err l : forall queued queue e, enqueue l queued queue <> Err e.
Proof.
  induction l as [|i l IH]; intros queued queue e; cbn [enqueue]; [done|]. unfold index, unwrap.
  destruct (0 <=? i); [|done]. destruct (queued !! _) as [[]|]; [apply IH|apply IH|done].
Qed.

Lemma codes_loop_no_err fuel : (forall k e, validation_of k <> Err e) ->
  forall queued queue e, codes_loop order fuel eof queued queue <> Err e.
Proof.
  intros Hval. induction fuel as [|fuel IH]; intros queued [|i queue] e; cbn [codes_loop]; try done.
  specialize (Hval i). unfold validation_of in Hval. unfold mbind, outcome_bind in *.
  destruct (index sections i) as [code|e'|]; [|by specialize (Hval e')|done].
  destruct (validate_eof_code _ _ _ _ _) as [acc|e'|]; [|by specialize (Hval e')|done].
  pose proof (enqueue_no_err (order acc) queued queue) as He.
  destruct (enqueue _ _ _) as [[queued' queue']|e'|]; [apply IH|by destruct (He e')|done].
Qed.

(** What the validator decides: the type of the first section, that every section
    is valid, and that every section is reached from the first. *)
Definition codes_valid : Prop :=
  (exists first_types rest, all_types = first_types :: rest /\ inputs first_types = 0 /\
     outputs first_types = EOF_NON_RETURNING_FUNCTION) /\
  forall k : nat, (k < length sections)%nat ->
    (exists acc, validation_of (Z.of_nat k) = Ok acc) /\ rtc accesses 0 (Z.of_nat k).

Lemma codes_valid_complete : codes_valid -> validate_eof_codes order eof = Ok tt.
Proof.
  intros [(first_types & rest & Hty & Hin & Hout) Hall]. unfold validate_eof_codes.
  rewrite bool_decide_eq_true_2 by done. cbn [negb]. rewrite Hty, Hin, Hout. cbn [Z.eqb negb orb].
  assert (Hn : (0 < length sections)%nat) by (rewrite Hlen, Hty; simpl; lia).
  assert (Hno : forall k e, validation_of k <> Err e).
  { intros k e Hk. destruct (decide (0 <= k < len sections)) as [Hr|Hr].
    - destruct (Hall (Z.to_nat k)) as [[acc Hacc] _]; [unfold len in Hr; lia|]. rewrite Z2Nat.id in Hacc by lia. congruence.
    - unfold validation_of, index, unwrap in Hk. destruct (Z.leb_spec 0 k); [|done].
      destruct (sections !! Z.to_nat k) eqn:Hs; [|done]. apply lookup_lt_Some in Hs. unfold len in Hr. lia. }
  pose proof (codes_loop_safely (length sections) _ _ (codes_start Hn) ltac:(rewrite unqueued_start by done; simpl; lia)) as Hsafe.
  destruct (codes_loop order _ _ _ _) as [r|e|] eqn:Hr; [|by apply codes_loop_no_err in Hr|done].
  destruct Hsafe as (queued & -> & Hinv). simpl.
  assert (Hq : forall z, rtc accesses 0 z -> is_queued queued z).
  { apply (rtc_ind_r (is_queued queued) 0); [split; [done|apply (ci_first _ _ Hinv)]|].
    intros y z _ (acc & Hacc & Hin') [Hy IH].
    destruct (ci_done _ _ Hinv (Z.to_nat y) IH) as [Hnil|(code & t & acc' & T & _ & _ & Hv & _ & Hc)]; [by apply elem_of_nil in Hnil|].
    rewrite Z2Nat.id in Hv by done. assert (acc' = acc) as -> by congruence. by apply Hc. }
  assert (Hb : forallb id queued = true); [|by rewrite Hb].
  apply forallb_forall. intros q Hin'%list_elem_of_In. apply list_elem_of_lookup_1 in Hin' as [k Hk].
  pose proof (lookup_lt_Some _ _ _ Hk) as Hlt. rewrite (ci_length _ _ Hinv) in Hlt.
  destruct (Hall k Hlt) as [_ Hr']. apply Hq in Hr' as [_ Hr']. rewrite Nat2Z.id in Hr'. by simplify_eq.
Qed.

Lemma codes_valid_sound : validate_eof_codes order eof = Ok tt -> codes_valid.
Proof.
  intros H. pose proof validate_eof_codes_safely as Hs. rewrite H in Hs. simpl in Hs. split.
  - unfold validate_eof_codes in H. case_bool_decide; [|done]. cbn [negb] in H.
    destruct all_types as [|t rest]; [done|]. exists t, rest. destruct (Z.eqb_spec (inputs t) 0); [|done].
    destruct (Z.eqb_spec (outputs t) EOF_NON_RETURNING_FUNCTION); done.
  - intros k Hk. destruct (Hs k Hk) as [(code & t & acc & T & _ & _ & Hv & _) Hr]. split; [by exists acc|done].
Qed.
End codes.

(** ** Decoded containers *)

Lemma decoded_types r e : Forall is_byte r -> Eof_decode r = Ok e -> Forall valid_types (types_section (body e)).
Proof.
  intros Hb H. unfold Eof_decode in H. inv_bind H. destruct x as [h rest]. inv_bind H. simplify_eq.
  apply header_encode_decode_aux in Hx as (-> & Hh & Hbr); [|done]. cbn [body].
  unfold EofBody_decode in Hx0. inv_check Hx0. inv_check Hx0. inv_bind Hx0.
  rewrite <- len_EofHeader_encode, slice_from_app in Hx. simplify_eq.
  destruct x2 as [code start1]. inv_bind Hx0. destruct x2 as [cont start2]. inv_bind Hx0. simplify_eq.
  by apply decode_types_inv in Hx1 as (rest' & -> & Hlt & Hvt).
Qed.

Lemma concat_sections (P : Z -> Prop) (secs : list bytes) : Forall P (concat secs) <-> Forall (Forall P) secs.
Proof. induction secs as [|s secs IH]; simpl; [by split|]. by rewrite Forall_app, Forall_cons, IH. Qed.

(** The sections of a decoded container are made of bytes. *)
Lemma decoded_bytes r e :
  Forall is_byte r -> Eof_decode r = Ok e ->
  Forall (Forall is_byte) (code_section (body e)) /\ Forall (Forall is_byte) (container_section (body e)).
Proof.
  intros Hb H. apply Eof_encode_decode_aux in H as [<- _]; [|done].
  unfold Eof_encode_slow, EofBody_encode in Hb. rewrite !Forall_app, !concat_sections in Hb. tauto.
Qed.

(** The containers in a container are smaller than it. *)
Definition containers_size (e : Eof) : Z := sum_len (container_section (body e)).

Lemma decoded_smaller r e : Forall is_byte r -> Eof_decode r = Ok e -> 1 + containers_size e <= len r.
Proof.
  intros Hb H. apply Eof_encode_decode_aux in H as [<- _]; [|done].
  unfold Eof_encode_slow, EofBody_encode, containers_size. rewrite sum_len_sizes, <- len_concat, !len_app.
  assert (1 <= len (EofHeader_encode (header e))).
  { unfold EofHeader_encode. rewrite ?len_app. unfold len. cbn [length app]. lia. }
  pose proof (len_nonneg (concat (map TypesSection_encode (types_section (body e))))).
  pose proof (len_nonneg (concat (code_section (body e)))). pose proof (len_nonneg (data_section (body e))). lia.
Qed.

(** ** Containers inside containers *)

Section containers.
Context (order : gset Z -> list Z).

Definition bytes_inside (e : Eof) : Prop := Forall (Forall is_byte) (container_section (body e)).
(** The iterations that a queue can still cause. *)
Definition eof_weight (queue : list Eof) : Z := foldr (fun e n => 1 + containers_size e + n) 0 queue.

Lemma decode_all_spec cs : forall queue queue',
  Forall (Forall is_byte) cs -> Forall bytes_inside queue -> decode_all cs queue = Ok queue' ->
  Forall bytes_inside queue' /\ eof_weight queue' <= sum_len cs + eof_weight queue.
Proof.
  induction cs as [|c cs IH]; intros queue queue' Hcs Hq H; cbn [decode_all] in H; [by simplify_eq|].
  apply Forall_cons in Hcs as [Hc Hcs]. inv_bind H. unfold map_err in Hx. destruct (Eof_decode c) eqn:Hd; [|done..].
  simplify_eq. apply IH in H as [Hq' Hw]; [|done|].
  - split; [done|]. simpl in *. pose proof (decoded_smaller _ _ Hc Hd). lia.
  - apply Forall_cons. split; [|done]. by eapply decoded_bytes.
Qed.

Lemma containers_size_nonneg e : 0 <= containers_size e.
Proof. unfold containers_size. rewrite sum_len_sizes, <- len_concat. apply len_nonneg. Qed.

Lemma eofs_loop_answers fuel : forall queue,
  Forall bytes_inside queue -> eof_weight queue <= Z.of_nat fuel -> eofs_loop order fuel queue <> Ok None.
Proof.
  induction fuel as [|fuel IH]; intros [|e queue] Hq Hf; cbn [eofs_loop]; try done; simpl in Hf;
    apply Forall_cons in Hq as [He Hq].
  - exfalso. assert (0 <= eof_weight queue); [|pose proof (containers_size_nonneg e); lia].
    clear. induction queue as [|e queue IH]; simpl; [done|]. pose proof (containers_size_nonneg e). lia.
  - intros H. inv_bind H. apply decode_all_spec in Hx0 as [Hq' Hw]; [|done..].
    apply (IH x0); [done| |done]. unfold containers_size in Hf. lia.
Qed.
End containers.

(** ** Theorems *)

(** C14: validation accepts the code of a decoded container exactly when its first
    section takes nothing and does not return, every section is valid by itself,
    and every section is reached from the first through CALLF and JUMPF.  The right
    side does not mention the order in which the sections were visited, which comes
    from the iterator of a hash set: the verdict does not depend on it. *)
Theorem code_validation_decides (order : gset Z -> list Z) (raw : bytes) (eof : Eof)
  (Horder : forall s x, x ∈ order s <-> x ∈ s) (Hb : Forall is_byte raw) (Hd : Eof_decode raw = Ok eof) :
  validate_eof_codes order eof = Ok tt <->
  length (code_section (body eof)) = length (types_section (body eof)) /\ codes_valid eof.
Proof.
  destruct (decoded_bytes _ _ Hb Hd) as [Hbytes _]. split.
  - intros H. assert (Hl : length (code_section (body eof)) = length (types_section (body eof))).
    { unfold validate_eof_codes in H. by case_bool_decide. }
    split; [done|]. by apply (codes_valid_sound order).
  - intros [Hl Hv]. by apply codes_valid_complete.
Qed.

(** PUSH0; CALLF 1; STOP, with a section that pops and returns. *)
Definition sample_container : bytes := raw (EofBody_into_eof
  (mkEofBody [mkTypesSection 0 128 1; mkTypesSection 1 0 1] [[0x5F; 0xE3; 0; 1; 0x00]; [0x50; 0xE4]] [] [] true)).
Definition sample_eof : Eof := EofBody_into_eof
  (mkEofBody [mkTypesSection 0 128 1; mkTypesSection 1 0 1] [[0x5F; 0xE3; 0; 1; 0x00]; [0x50; 0xE4]] [] [] true).

Lemma sample_container_bytes : Forall is_byte sample_container.
Proof. apply (Forall_impl (fun b => is_byteb b = true)); [|intros b Hb; unfold is_byteb, is_byte in *; lia]. vm_compute. repeat constructor. Qed.
Lemma sample_container_valid : validate_raw_eof elements 20 sample_container = Ok (Some sample_eof).
Proof. vm_compute. reflexivity. Qed.

(** Validation terminates: on a byte string of length [n], [n] iterations of
    the loop over nested containers are enough, because the containers inside a
    container are smaller than it. *)
Theorem validation_terminates (order : gset Z -> list Z) (raw : bytes) (Hb : Forall is_byte raw) :
  validate_raw_eof order (length raw) raw <> Ok None.
Proof.
  intros H. unfold validate_raw_eof in H. inv_bind H. unfold map_err in Hx. destruct (Eof_decode raw) as [e| |] eqn:Hd; [|done..].
  simplify_eq. destruct x0; [done|]. revert Hx0. apply eofs_loop_answers.
  - constructor; [by eapply decoded_bytes|done].
  - simpl. pose proof (decoded_smaller _ _ Hb Hd). unfold len in *. lia.
Qed.

(** C36: the code sections of a container that decodes are validated without a
    panic: every index that the validator computes from the code is in range. *)
Theorem code_validation_does_not_panic (order : gset Z -> list Z) (raw : bytes) (eof : Eof)
  (Horder : forall s x, x ∈ order s <-> x ∈ s) (Hb : Forall is_byte raw) (Hd : Eof_decode raw = Ok eof) :
  validate_eof_codes order eof <> Panic.
Proof.
  destruct (decide (length (code_section (body eof)) = length (types_section (body eof)))) as [Hl|Hl].
  - eapply safely_no_panic, validate_eof_codes_safely; [done|by eapply decoded_bytes|done].
  - unfold validate_eof_codes. by rewrite bool_decide_eq_false_2.
Qed.

Lemma validation_terminates_witness : validate_raw_eof elements (length sample_container) sample_container <> Ok None.
Proof. exact (validation_terminates elements sample_container sample_container_bytes). Defined.

Lemma code_validation_does_not_panic_witness :
  Eof_decode sample_container = Ok sample_eof /\ validate_eof_codes elements sample_eof <> Panic.
Proof.
  assert (Hd : Eof_decode sample_container = Ok sample_eof) by (vm_compute; reflexivity).
  split; [exact Hd|].
  exact (code_validation_does_not_panic elements sample_container sample_eof
    (fun s x => elem_of_elements s x) sample_container_bytes Hd).
Defined.

Lemma code_validation_decides_witness : validate_eof_codes elements sample_eof = Ok tt /\ codes_valid sample_eof.
Proof.
  assert (Hd : Eof_decode sample_container = Ok sample_eof) by (vm_compute; reflexivity).
  assert (Hv : validate_eof_codes elements sample_eof = Ok tt) by (vm_compute; reflexivity).
  split; [exact Hv|].
  exact (proj2 (proj1 (code_validation_decides elements sample_container sample_eof (fun s x => elem_of_elements s x)
    sample_container_bytes Hd) Hv)).
Defined.
