(* ===== verification/EofRun.v ===== *)
(** Running an accepted EOF container.

    The machine of this file has the call stack, the code section, the program
    counter and the height of the operand stack; the opcode table gives the effect
    of every other instruction on the height.  CALLF and JUMPF have the guard of
    [callf] and [jumpf] in [instructions/control.rs]. *)

From S2P Require Import Prelude.
From S2P Require Import Bytes.
From S2P Require Import Eof.
From S2P Require Import Stack.
From S2P Require Import Opcode.
From S2P Require Import EofValidation.
From S2P Require Import EofSafety.

Record Config : Type := mkConfig {
  c_frames : list (Z * Z);
  c_section : Z;
  c_pc : Z;
  c_height : Z;
}.

Section run.
Context (eof : Eof).

Abbreviation all_types := (types_section (body eof)).
Definition code_of (k : Z) : bytes := default [] (code_section (body eof) !! Z.to_nat k).
Definition types_of (k : Z) : TypesSection := default (mkTypesSection 0 0 0) (all_types !! Z.to_nat k).

(** The instruction at the program counter. *)
Record executes (c : Config) (op : Z) (info : OpCodeInfo) : Prop := {
  ex_op : index (E := EofValidationError) (code_of (c_section c)) (c_pc c) = Ok op;
  ex_info : opcode_info op = Some info;
}.

(** The function entered by CALLF and JUMPF fits on the stack. *)
Definition enters (height : Z) (target : TypesSection) : Prop :=
  height + (max_stack_size target - inputs target) <= STACK_LIMIT.

Inductive eof_step : Config -> Config -> Prop :=
  | step_next c op info :
      executes c op info -> op_terminating info = false -> op <> 0xE3 ->
      eof_step c (mkConfig (c_frames c) (c_section c)
        (c_pc c + instruction_width (code_of (c_section c)) (c_pc c) op info)
        (c_height c + height_change all_types (code_of (c_section c)) (c_pc c) op info))
  | step_jump c op info d :
      executes c op info -> d ∈ destinations (code_of (c_section c)) (c_pc c) op ->
      eof_step c (mkConfig (c_frames c) (c_section c) d
        (c_height c + height_change all_types (code_of (c_section c)) (c_pc c) op info))
  | step_callf c info :
      executes c 0xE3 info ->
      let target := word_at (code_of (c_section c)) (c_pc c + 1) in
      enters (c_height c) (types_of target) ->
      eof_step c (mkConfig ((c_section c, c_pc c + 3) :: c_frames c) target 0 (c_height c))
  | step_jumpf c info :
      executes c 0xE5 info ->
      let target := word_at (code_of (c_section c)) (c_pc c + 1) in
      enters (c_height c) (types_of target) ->
      eof_step c (mkConfig (c_frames c) target 0 (c_height c))
  | step_retf c info k i frames :
      executes c 0xE4 info -> c_frames c = (k, i) :: frames ->
      eof_step c (mkConfig frames k i (c_height c)).

Definition eof_entry : Config := mkConfig [] 0 0 0.

(** The instruction can execute: it is an enabled opcode with its immediates, its
    operands are on the stack, what it refers to exists, and a return finds the
    frame it returns to. *)
Record runs_safely (c : Config) (op : Z) (info : OpCodeInfo) : Prop := {
  rs_executes : executes c op info;
  rs_enabled : op_not_eof info = false;
  rs_complete : c_pc c + instruction_width (code_of (c_section c)) (c_pc c) op info <= len (code_of (c_section c));
  rs_references : references_ok (code_of (c_section c)) (data_size (header eof))
    (len (container_section (body eof))) all_types (c_pc c) op;
  rs_operands : height_needed all_types (types_of (c_section c)) (code_of (c_section c)) (c_pc c) op info <= c_height c;
  rs_height : c_height c <= STACK_LIMIT;
  rs_returns : op = 0xE4 -> c_frames c <> [];
}.

(** A section declared as non-returning has no RETF, and no JUMPF to a section
    that returns. *)
Definition non_returning_ok : Prop := forall k i op,
  0 <= k < len all_types -> outputs (types_of k) = EOF_NON_RETURNING_FUNCTION -> eof_start (code_of k) i ->
  index (E := EofValidationError) (code_of k) i = Ok op -> returns all_types (code_of k) i op = false.

Section sound.
Context (Hlen : length (code_section (body eof)) = length all_types).
Context (Htypes : Forall valid_types all_types) (Hbytes : Forall (Forall is_byte) (code_section (body eof))).
Context (Haccepted : forall k : nat, (k < length (code_section (body eof)))%nat -> accepted eof (fun _ => True) k).
Context (Hnr : non_returning_ok).

(** The heights of the section [k], with their table. *)
Definition section_heights (k : Z) (T : Z -> option InstructionInfo) : Prop :=
  0 <= k < len all_types /\ exists acc,
    section_typed (code_of k) (data_size (header eof)) (len (container_section (body eof))) all_types (types_of k) acc T.

Lemma section_known k : 0 <= k < len all_types -> all_types !! Z.to_nat k = Some (types_of k) /\ valid_types (types_of k).
Proof.
  intros Hk. assert (is_Some (all_types !! Z.to_nat k)) as [t Ht] by (apply lookup_lt_is_Some; unfold len in Hk; lia).
  unfold types_of. rewrite Ht. split; [done|]. by eapply Forall_lookup_1 in Ht.
Qed.

Lemma section_has_heights k : 0 <= k < len all_types -> exists T, section_heights k T.
Proof.
  intros Hk. destruct (Haccepted (Z.to_nat k)) as (code & t & acc & T & Hc & Ht & _ & HT & _).
  { rewrite Hlen. unfold len in Hk. lia. }
  exists T. split; [done|]. exists acc. unfold code_of, types_of. by rewrite Hc, Ht.
Qed.

(** [returns_to base out frames]: the return of a function that leaves [out] items
    above [base] finds its caller at a height it expects. *)
Inductive returns_to : Z -> Z -> list (Z * Z) -> Prop :=
  | returns_never base frames : returns_to base EOF_NON_RETURNING_FUNCTION frames
  | returns_frame base out k i frames base' T t :
      out <> EOF_NON_RETURNING_FUNCTION -> section_heights k T -> T i = Some t ->
      flows (base - base' + out) (base - base' + out) t ->
      0 <= base' -> base' + max_stack_size (types_of k) <= STACK_LIMIT ->
      returns_to base' (outputs (types_of k)) frames ->
      returns_to base out ((k, i) :: frames).

(** The height above [base] is one recorded for the instruction. *)
Inductive config_typed (c : Config) : Prop :=
  | config_typed_intro base T x :
      0 <= base -> base + max_stack_size (types_of (c_section c)) <= STACK_LIMIT ->
      section_heights (c_section c) T -> T (c_pc c) = Some x ->
      flows (c_height c - base) (c_height c - base) x ->
      returns_to base (outputs (types_of (c_section c))) (c_frames c) ->
      config_typed c.

(** A function starts at its entry with its inputs above the new base. *)
Lemma enter_typed frames target height :
  0 <= target < len all_types -> 0 <= height - inputs (types_of target) -> enters height (types_of target) ->
  returns_to (height - inputs (types_of target)) (outputs (types_of target)) frames ->
  config_typed (mkConfig frames target 0 height).
Proof.
  intros Ht Hb He Hr. destruct (section_has_heights target Ht) as [T HT].
  destruct (HT) as (_ & acc & Hsec). destruct (tt_entry _ _ _ _ _ _ _ Hsec) as (x & Hx & Hf).
  apply (config_typed_intro _ (height - inputs (types_of target)) T x); cbn [c_frames c_section c_pc c_height]; try done.
  - unfold enters in He. lia.
  - by replace (height - (height - inputs (types_of target))) with (inputs (types_of target)) by lia.
Qed.

Lemma entry_typed : 0 < len all_types -> inputs (types_of 0) = 0 -> outputs (types_of 0) = EOF_NON_RETURNING_FUNCTION ->
  config_typed eof_entry.
Proof.
  intros Hn Hi Ho. apply enter_typed; rewrite ?Hi, ?Ho; [lia|done| |constructor].
  destruct (section_known 0) as [_ (_ & _ & ? & ?)]; [lia|]. unfold enters, STACK_LIMIT. lia.
Qed.

(** What is known of the instruction of a typed configuration. *)
Lemma typed_executes c op info :
  executes c op info -> forall T x acc,
  section_typed (code_of (c_section c)) (data_size (header eof)) (len (container_section (body eof))) all_types
    (types_of (c_section c)) acc T ->
  T (c_pc c) = Some x ->
  eof_start (code_of (c_section c)) (c_pc c) /\ biggest x <= max_stack_size (types_of (c_section c)) /\
  instruction_typed (code_of (c_section c)) (data_size (header eof)) (len (container_section (body eof))) all_types
    (types_of (c_section c)) acc T (c_pc c) op info x.
Proof.
  intros [Hop Hinfo] T x acc Hsec Hx. destruct (tt_typed _ _ _ _ _ _ _ Hsec _ _ Hx) as (_ & Hst & Hm & op' & info' & Hit).
  pose proof (wf_op _ _ _ _ _ _ _ _ _ (it_wf _ _ _ _ _ _ _ _ _ _ _ Hit)).
  pose proof (wf_info _ _ _ _ _ _ _ _ _ (it_wf _ _ _ _ _ _ _ _ _ _ _ Hit)).
  assert (op' = op) as -> by congruence. assert (info' = info) as -> by congruence. done.
Qed.

(** A typed configuration, with its instruction. *)
Record typed_here (c : Config) (op : Z) (info : OpCodeInfo) (base : Z) (T : Z -> option InstructionInfo)
  (x : InstructionInfo) (acc : gset Z) : Prop := {
  th_base : 0 <= base;
  th_room : base + max_stack_size (types_of (c_section c)) <= STACK_LIMIT;
  th_section : section_heights (c_section c) T;
  th_at : T (c_pc c) = Some x;
  th_flows : flows (c_height c - base) (c_height c - base) x;
  th_returns : returns_to base (outputs (types_of (c_section c))) (c_frames c);
  th_start : eof_start (code_of (c_section c)) (c_pc c);
  th_biggest : biggest x <= max_stack_size (types_of (c_section c));
  th_typed : instruction_typed (code_of (c_section c)) (data_size (header eof)) (len (container_section (body eof)))
    all_types (types_of (c_section c)) acc T (c_pc c) op info x;
}.

Lemma config_typed_here c op info :
  config_typed c -> executes c op info -> exists base T x acc, typed_here c op info base T x acc.
Proof.
  intros [base T x Hb Hr HT Hx Hf Hret] He. pose proof HT as (_ & acc & Hsec).
  destruct (typed_executes c op info He T x acc Hsec Hx) as (Hst & Hm & Hit). exists base, T, x, acc. by split.
Qed.

(** Moving within the section. *)
Lemma moved_typed c op info base T x acc j t :
  typed_here c op info base T x acc -> T j = Some t ->
  let change := height_change all_types (code_of (c_section c)) (c_pc c) op info in
  flows (smallest x + change) (biggest x + change) t ->
  config_typed (mkConfig (c_frames c) (c_section c) j (c_height c + change)).
Proof.
  intros [] Ht change Hf. apply (config_typed_intro _ base T t); cbn [c_frames c_section c_pc c_height]; try done.
  destruct th_flows0, Hf. split; lia.
Qed.

Lemma target_exists c op info base T x acc :
  typed_here c op info base T x acc -> op = 0xE3 \/ op = 0xE5 ->
  0 <= word_at (code_of (c_section c)) (c_pc c + 1) < len all_types.
Proof.
  intros H Hop. destruct (wf_refs _ _ _ _ _ _ _ _ _ (it_wf _ _ _ _ _ _ _ _ _ _ _ (th_typed _ _ _ _ _ _ _ H))) as (Href & _).
  specialize (Href Hop). apply lookup_lt_is_Some in Href. unfold len. 
  assert (0 <= word_at (code_of (c_section c)) (c_pc c + 1)); [|lia].
  assert (Hb : Forall is_byte (code_of (c_section c))).
  { unfold code_of. destruct (code_section (body eof) !! _) eqn:Hc; [|done]. by eapply Forall_lookup_1 in Hc. }
  unfold word_at. apply from_be_bytes_bound. repeat constructor; by apply byte_at_is_byte.
Qed.

(** CALLF: the caller waits for the outputs of its callee. *)
Lemma callf_typed c info :
  config_typed c -> executes c 0xE3 info ->
  let target := word_at (code_of (c_section c)) (c_pc c + 1) in
  enters (c_height c) (types_of target) ->
  config_typed (mkConfig ((c_section c, c_pc c + 3) :: c_frames c) target 0 (c_height c)).
Proof.
  intros Hc He target Hg. destruct (config_typed_here _ _ _ Hc He) as (base & T & x & acc & Hh).
  pose proof (target_exists _ _ _ _ _ _ _ Hh (or_introl eq_refl)) as Htg.
  destruct Hh as [Hb Hroom HT Hx [F1 F2] Hret _ _ [[_ _ _ _ (_ & Hout & _) Hneed _ _] _ _ Hnext]].
  specialize (Hout eq_refl). unfold height_needed in Hneed. simpl in Hneed.
  assert (info = mkOpCodeInfo "CALLF" 0 0 2 false false) as -> by (by destruct He as [_ [= <-]]).
  destruct (Hnext eq_refl) as (t & Ht & [G1 G2]). change (instruction_width _ _ _ _) with 3 in Ht.
  unfold height_change, TypesSection_io_diff in G1, G2. simpl in G1, G2.
  change (target_at all_types (code_of (c_section c)) (c_pc c)) with (types_of target) in *.
  apply enter_typed; try done; [lia|]. apply (returns_frame _ _ _ _ _ base T t); try done. split; lia.
Qed.

(** The frame that a returning function goes back to. *)
Lemma returning_frame c op info base T x acc :
  typed_here c op info base T x acc -> returns all_types (code_of (c_section c)) (c_pc c) op = true ->
  outputs (types_of (c_section c)) <> EOF_NON_RETURNING_FUNCTION.
Proof.
  intros Hh Hr Ho. destruct (th_section _ _ _ _ _ _ _ Hh) as [Hk _].
  rewrite (Hnr (c_section c) (c_pc c) op Hk Ho) in Hr; [done|apply Hh|]. by destruct (th_typed _ _ _ _ _ _ _ Hh) as [[]].
Qed.

(** JUMPF: the callee returns to the caller of the section, with the outputs of
    the section. *)
Lemma jumpf_typed c info :
  config_typed c -> executes c 0xE5 info ->
  let target := word_at (code_of (c_section c)) (c_pc c + 1) in
  enters (c_height c) (types_of target) -> config_typed (mkConfig (c_frames c) target 0 (c_height c)).
Proof.
  intros Hc He target Hg. destruct (config_typed_here _ _ _ Hc He) as (base & T & x & acc & Hh).
  pose proof (target_exists _ _ _ _ _ _ _ Hh (or_intror eq_refl)) as Htg.
  pose proof (returning_frame _ _ _ _ _ _ _ Hh) as Hrf.
  destruct Hh as [Hb Hroom _ Hx [F1 F2] Hret _ _ [[_ _ _ _ _ Hneed _ Hlv] _ _ _]].
  unfold leaves_outputs, height_needed, returns in *. simpl in Hneed, Hlv, Hrf.
  change (target_at all_types (code_of (c_section c)) (c_pc c)) with (types_of target) in *.
  destruct (section_known target Htg) as [_ (? & ? & ?)].
  destruct (Z.eqb_spec (outputs (types_of target)) EOF_NON_RETURNING_FUNCTION) as [Ho|Ho].
  { apply enter_typed; try done; [lia|]. rewrite Ho. constructor. }
  destruct (Hlv eq_refl) as [Hle Hout]. specialize (Hout eq_refl). apply enter_typed; try done; [lia|].
  inversion Hret as [b fs Hnon|b out k i fs base' T' t Hne HT' Ht' [G1 G2] Hb' Hroom' Hr' Eb Eo Ef].
  - by destruct (Hrf eq_refl).
  - apply (returns_frame _ _ _ _ _ base' T' t); try done. split; lia.
Qed.

(** RETF finds its caller, which gets the outputs. *)
Lemma retf_frame c info :
  config_typed c -> executes c 0xE4 info ->
  exists k i frames, c_frames c = (k, i) :: frames /\ config_typed (mkConfig frames k i (c_height c)).
Proof.
  intros Hc He. destruct (config_typed_here _ _ _ Hc He) as (base & T & x & acc & Hh).
  pose proof (returning_frame _ _ _ _ _ _ _ Hh eq_refl) as Hrf.
  destruct Hh as [Hb Hroom _ Hx [F1 F2] Hret _ _ [[_ _ _ _ _ Hneed _ Hlv] _ _ _]].
  destruct (Hlv eq_refl) as [Hle _]. unfold height_needed in Hneed, Hle. simpl in Hneed, Hle.
  inversion Hret as [b fs Hnon|b out k i fs base' T' t Hne HT' Ht' [G1 G2] Hb' Hroom' Hr' Eb Eo Ef]; [by destruct Hrf|].
  exists k, i, fs. split; [done|].
  apply (config_typed_intro _ base' T' t); cbn [c_frames c_section c_pc c_height]; try done. split; lia.
Qed.

Lemma step_typed c c' : config_typed c -> eof_step c c' -> config_typed c'.
Proof.
  intros Hc Hstep.
  destruct Hstep as [c op info He Hterm _|c op info d He Hd|c info He target Hg|c info He target Hg|c info k i frames He Hfr].
  - destruct (config_typed_here _ _ _ Hc He) as (base & T & x & acc & Hh).
    destruct (it_next _ _ _ _ _ _ _ _ _ _ _ (th_typed _ _ _ _ _ _ _ Hh) Hterm) as (t & Ht & Hf). by eapply moved_typed.
  - destruct (config_typed_here _ _ _ Hc He) as (base & T & x & acc & Hh).
    destruct (it_dests _ _ _ _ _ _ _ _ _ _ _ (th_typed _ _ _ _ _ _ _ Hh) d Hd) as (t & Ht & Hf). by eapply moved_typed.
  - by eapply callf_typed.
  - by eapply jumpf_typed.
  - destruct (retf_frame _ _ Hc He) as (k' & i' & fs & Hfr' & Ht). by rewrite Hfr' in Hfr; simplify_eq.
Qed.

Lemma typed_runs_safely c : config_typed c -> exists op info, runs_safely c op info.
Proof.
  intros Hc. destruct (Hc) as [base T x Hb Hr [Hk (acc & Hsec)] Hx [F1 F2] Hret].
  destruct (tt_typed _ _ _ _ _ _ _ Hsec _ _ Hx) as (_ & Hst & Hm & op & info & [[] _ _ _]). exists op, info.
  assert (He : executes c op info) by done. split; try done; [lia|lia|]. intros ->.
  destruct (retf_frame _ _ Hc He) as (k & i & fs & -> & _). done.
Qed.
End sound.
End run.

(** A container that was accepted has been decoded, and its code validated. *)
Lemma validated_codes order fuel raw eof :
  Forall is_byte raw -> validate_raw_eof order fuel raw = Ok (Some eof) ->
  Eof_decode raw = Ok eof /\ validate_eof_codes order eof = Ok tt.
Proof.
  intros Hb H. unfold validate_raw_eof, validate_eof in H. inv_bind H.
  unfold map_err in Hx. destruct (Eof_decode raw) as [e| |]; simplify_eq. destruct x0; [|done]. simplify_eq.
  split; [done|]. destruct fuel; [done|]. cbn [eofs_loop] in Hx0. inv_bind Hx0. unfold map_err in Hx.
  by destruct (validate_eof_codes order eof) as [[]| |].
Qed.

Lemma validated_first order eof :
  validate_eof_codes order eof = Ok tt ->
  length (code_section (body eof)) = length (types_section (body eof)) /\ 0 < len (types_section (body eof)) /\
  inputs (types_of eof 0) = 0 /\ outputs (types_of eof 0) = EOF_NON_RETURNING_FUNCTION.
Proof.
  unfold validate_eof_codes, types_of. case_bool_decide as Hl; cbn [negb]; [|done].
  destruct (types_section (body eof)) as [|t rest]; [done|]. destruct (Z.eqb_spec (inputs t) 0); [|done].
  destruct (Z.eqb_spec (outputs t) EOF_NON_RETURNING_FUNCTION); [|done]. intros _. split_and!; try done.
Qed.

(** Type soundness of EOF validation.  Run an accepted container from its
    first section: every instruction reached is an enabled opcode with complete
    immediates, it finds its operands on the stack, the height is at most 1024, the
    sections and containers it names exist, and every RETF finds the frame of its
    caller.  CALLF and JUMPF check the room for the callee at run time; RETF in a
    section declared as non-returning, which the validator does not refuse, is
    excluded by hypothesis. *)
Theorem accepted_container_runs_safely (order : gset Z -> list Z) (fuel : nat) (raw : bytes) (eof : Eof)
  (Horder : forall s x, x ∈ order s <-> x ∈ s) (Hb : Forall is_byte raw)
  (Hv : validate_raw_eof order fuel raw = Ok (Some eof)) (Hnr : non_returning_ok eof) (c : Config)
  (Hc : rtc (eof_step eof) eof_entry c) :
  exists op info, runs_safely eof c op info.
Proof.
  destruct (validated_codes order fuel raw eof Hb Hv) as [Hd Hcodes].
  pose proof (decoded_types _ _ Hb Hd) as Htypes. destruct (decoded_bytes _ _ Hb Hd) as [Hbytes _].
  destruct (validated_first _ _ Hcodes) as (Hlen & Hn & Hi & Ho).
  pose proof (safely_elim _ _ _ (validate_eof_codes_safely order Horder eof Hbytes Hlen) Hcodes) as Hacc0.
  assert (Hacc : forall k, (k < length (code_section (body eof)))%nat -> accepted eof (fun _ => True) k) by (intros; by apply Hacc0).
  apply typed_runs_safely; try done.
  assert (Hentry : config_typed eof eof_entry) by (by apply entry_typed).
  revert Hentry. induction Hc as [|c1 c2 c3 Hstep _ IH]; [done|]. intros H1. apply IH. by eapply step_typed.
Qed.

Lemma index_in {E} (code : bytes) i op : index (E := E) code i = Ok op -> op ∈ code.
Proof. intros [_ H]%index_Ok. by eapply list_elem_of_lookup_2. Qed.

Lemma sample_non_returning : non_returning_ok sample_eof.
Proof.
  intros k i op Hk Ho _ Hop. assert (k = 0 \/ k = 1) as [->| ->] by (unfold len in Hk; simpl in Hk; lia); [|done].
  apply index_in in Hop. simpl in Hop.
  repeat (apply elem_of_cons in Hop as [->|Hop]; [done|]). by apply elem_of_nil in Hop.
Qed.

(** PUSH0 and CALLF lead to the POP of the called section. *)
Lemma accepted_container_runs_safely_witness :
  exists op info, runs_safely sample_eof (mkConfig [(0, 4)] 1 0 1) op info /\ op = 0x50.
Proof.
  destruct (accepted_container_runs_safely elements 20 sample_container sample_eof (fun s x => elem_of_elements s x)
    sample_container_bytes sample_container_valid sample_non_returning (mkConfig [(0, 4)] 1 0 1)) as (op & info & Hs).
  - eapply rtc_l; [|apply rtc_once].
    + apply (step_next sample_eof eof_entry 0x5F (mkOpCodeInfo "PUSH0" 0 1 0 false false)); [split; vm_compute; reflexivity|done|done].
    + apply (step_callf sample_eof (mkConfig [] 0 1 1) (mkOpCodeInfo "CALLF" 0 0 2 false false)); [split; vm_compute; reflexivity|].
      vm_compute. intros Hc. discriminate Hc.
  - exists op, info. split; [exact Hs|]. destruct (rs_executes _ _ _ _ Hs) as [Hop _]. vm_compute in Hop. congruence.
Defined.
