(* ===== verification/InstructionHeights.v ===== *)
(** The instructions do to the operand stack what the opcode table says.

    [shifts p L L' k m]: from a running interpreter with [L] operands, [m] goes on
    with [L'] operands, the instruction pointer moved by [k], in the same code; if
    it stops early, the reason is not the height of the stack. *)

From S2P Require Import Prelude.
From S2P Require Import Specification.
From S2P Require Import Bytes.
From S2P Require Import Eof.
From S2P Require Import Bytecode.
From S2P Require Import State.
From S2P Require Import Result.
From S2P Require Import InstructionResult.
From S2P Require Import Database.
From S2P Require Import Journal.
From S2P Require Import CallInputs.
From S2P Require Import Gas.
From S2P Require Import Stack.
From S2P Require Import SharedMemory.
From S2P Require Import I256.
From S2P Require Import Analysis.
From S2P Require Import Env.
From S2P Require Import Interpreter.
From S2P Require Import Context.
From S2P Require Import Instructions.
From S2P Require Import HostInstructions.
From S2P Require Import Opcode.
From S2P Require Import InterpreterSteps.
From S2P Require Import InterpreterSafety.
From S2P Require Import InterpreterLoop.

(** The reasons to stop that validation excludes. *)
Definition harmless (r : InstructionResult) : bool :=
  match r with
  | IR_StackUnderflow | IR_StackOverflow | IR_OpcodeNotFound | IR_EOFOpcodeDisabledInLegacy => false
  | _ => true
  end.

(** Still running, [k] bytes further in the same code. *)
Record stays (k : Z) (i i' : Interpreter) : Prop := {
  st_running : instruction_result i' = instruction_result i;
  st_pc : instruction_pointer i' = instruction_pointer i + k;
  st_bytecode : in_bytecode i' = in_bytecode i;
  st_contract : contract i' = contract i;
  st_functions : function_stack i' = function_stack i;
  st_eof : in_is_eof i' = in_is_eof i;
}.
Lemma stays_refl i : stays 0 i i.
Proof. split; try done. lia. Qed.
Lemma stays_trans k1 k2 i1 i2 i3 : stays k1 i1 i2 -> stays k2 i2 i3 -> stays (k1 + k2) i1 i3.
Proof. intros [] []. split; try congruence. lia. Qed.

(** Apart from the stack, the memory, the gas and the like, a silent step changes
    nothing. *)
Definition ready (L : Z) (i : Interpreter) : Prop := running i = true /\ in_is_eof i = true /\ len (stack i) = L.

Lemma ready_stays L L' k i i' : ready L i -> stays k i i' -> len (stack i') = L' -> ready L' i'.
Proof.
  intros (Hr & He & _) [] HL. unfold ready, running in *. split_and!; [|congruence|done].
  by rewrite st_running0.
Qed.

Section composition.
Context {S : Type} (p : S -> Interpreter).

Definition shifts {A} (L L' k : Z) (m : M S InstructionResult A) : Prop := forall s, ready L (p s) ->
  match m s with
  | (Ok _, s') => stays k (p s) (p s') /\ len (stack (p s')) = L'
  | (Err e, _) => harmless e = true /\ e <> IR_Continue
  | (Panic, _) => True
  end.

(** The end of an instruction may also halt. *)
Definition completes {A} (L L' k : Z) (m : M S InstructionResult A) : Prop := forall s, ready L (p s) ->
  match m s with
  | (Ok _, s') => harmless (instruction_result (p s')) = true /\
      (running (p s') = true -> stays k (p s) (p s') /\ len (stack (p s')) = L')
  | (Err e, _) => harmless e = true /\ e <> IR_Continue
  | (Panic, _) => True
  end.

Lemma shifts_eq {A} L L1 L2 k1 k2 (m : M S InstructionResult A) :
  shifts L L1 k1 m -> L1 = L2 -> k1 = k2 -> shifts L L2 k2 m.
Proof. by intros H -> ->. Qed.

Lemma completes_shifts {A} L L1 L2 k1 k2 (m : M S InstructionResult A) :
  shifts L L1 k1 m -> L1 = L2 -> k1 = k2 -> completes L L2 k2 m.
Proof.
  intros H -> -> s Hs. specialize (H s Hs). destruct (m s) as [[| |] s']; try done.
  destruct H as [Hst HL]. split; [|done]. destruct Hs as [Hr _]. apply bool_decide_eq_true in Hr.
  by rewrite (st_running _ _ _ Hst), Hr.
Qed.

Lemma shifts_bind {A B} L L1 L2 k1 k2 k (m : M S InstructionResult A) (f : A -> M S InstructionResult B) :
  shifts L L1 k1 m -> (forall a, shifts L1 L2 k2 (f a)) -> k1 + k2 = k -> shifts L L2 k (m ≫= f).
Proof.
  intros Hm Hf <- s Hs. specialize (Hm s Hs). unfold mbind, M_bind. destruct (m s) as [[a| |] s1]; try done.
  destruct Hm as [Hst HL]. specialize (Hf a s1 (ready_stays _ _ _ _ _ Hs Hst HL)).
  destruct (f a s1) as [[b| |] s2]; try done. destruct Hf as [Hst2 HL2]. split; [|done]. by eapply stays_trans.
Qed.

Lemma completes_bind {A B} L L1 L2 k1 k (m : M S InstructionResult A) (f : A -> M S InstructionResult B) :
  shifts L L1 k1 m -> (forall a, completes L1 L2 (k - k1) (f a)) -> completes L L2 k (m ≫= f).
Proof.
  intros Hm Hf s Hs. specialize (Hm s Hs). unfold mbind, M_bind. destruct (m s) as [[a| |] s1]; try done.
  destruct Hm as [Hst HL]. specialize (Hf a s1 (ready_stays _ _ _ _ _ Hs Hst HL)).
  destruct (f a s1) as [[b| |] s2]; try done. destruct Hf as [Hh Hf]. split; [done|]. intros Hr.
  destruct (Hf Hr) as [Hst2 HL2]. split; [|done]. replace k with (k1 + (k - k1)) by lia. by eapply stays_trans.
Qed.

Lemma shifts_ret {A} L (a : A) : shifts L L 0 (mret a).
Proof. intros s (_ & _ & HL). simpl. split; [apply stays_refl|done]. Qed.
Lemma shifts_get L : shifts L L 0 get.
Proof. intros s (_ & _ & HL). simpl. split; [apply stays_refl|done]. Qed.
Lemma shifts_gets {A} L (f : S -> A) : shifts L L 0 (gets f).
Proof. intros s (_ & _ & HL). simpl. split; [apply stays_refl|done]. Qed.
Lemma shifts_fail {A} L e : harmless e = true -> e <> IR_Continue -> forall L' k, shifts L L' k (fail (A := A) e).
Proof. intros He Hc L' k s _. done. Qed.
Lemma shifts_panic {A} L L' k : shifts L L' k (lift (A := A) Panic).
Proof. by intros s _. Qed.
Lemma shifts_lift {A} L (o : outcome InstructionResult A) :
  (forall e, o <> Err e) -> shifts L L 0 (lift o).
Proof.
  intros Ho s (_ & _ & HL). unfold lift. destruct o as [a|e|]; [|by destruct (Ho e)|done].
  split; [apply stays_refl|done].
Qed.
End composition.

(** ** The macros *)

(** A computation on the interpreter that leaves the stack alone. *)
Lemma shifts_modify L (f : Interpreter -> Interpreter) :
  (forall i, stays 0 i (f i) /\ len (stack (f i)) = len (stack i)) -> shifts self L L 0 (modify f).
Proof. intros Hf i (_ & _ & HL). destruct (Hf i). split; [done|congruence]. Qed.

Lemma shifts_gas c L : shifts self L L 0 (gas c).
Proof.
  intros i (_ & _ & HL). unfold gas. destruct (record_cost c (in_gas i)) as [[] g]; [|done].
  split; [split; try done; simpl; lia|done].
Qed.
Lemma shifts_gas_or_fail o L : shifts self L L 0 (gas_or_fail o).
Proof. destruct o; [apply shifts_gas|by apply shifts_fail]. Qed.
Lemma shifts_refund r L : shifts self L L 0 (refund r).
Proof. apply shifts_modify. intros i. split; [split; try done; simpl; lia|done]. Qed.
Lemma shifts_require_non_staticcall L : shifts self L L 0 require_non_staticcall.
Proof. intros i (_ & _ & HL). unfold require_non_staticcall. destruct (in_is_static i); [done|]. split; [apply stays_refl|done]. Qed.
Lemma shifts_require_eof L : shifts self L L 0 require_eof.
Proof. intros i (_ & He & HL). unfold require_eof. rewrite He. split; [apply stays_refl|done]. Qed.
Lemma shifts_require_init_eof L : shifts self L L 0 require_init_eof.
Proof. intros i (_ & _ & HL). unfold require_init_eof. destruct (is_eof_init i); simpl; [|done]. split; [apply stays_refl|done]. Qed.
Lemma shifts_check spec min L : shifts self L L 0 (check spec min).
Proof. unfold check. case_match; [by apply shifts_fail|apply shifts_ret]. Qed.
Lemma shifts_as_usize e v L : harmless e = true -> e <> IR_Continue -> shifts self L L 0 (as_usize_or_fail_with e v).
Proof. intros. unfold as_usize_or_fail_with. case_match; [by apply shifts_fail|apply shifts_ret]. Qed.
Lemma shifts_resize a n L : shifts self L L 0 (resize_memory_to a n).
Proof.
  intros i (_ & _ & HL). unfold resize_memory_to. destruct (_ <? _); [|split; [apply stays_refl|done]].
  destruct (resize_memory _ _ _) as [[[] m] g]; [|done]. split; [split; try done; simpl; lia|done].
Qed.
Lemma shifts_on_memory {A} (m : M SharedMemory InstructionResult A) L : no_error m -> shifts self L L 0 (on_memory m).
Proof.
  intros Hm i (_ & _ & HL). unfold on_memory, zoom. destruct (m (shared_memory i)) as [[a|e|] s'] eqn:He;
    [|by destruct (Hm _ _ _ He)|done].
  split; [split; try done; simpl; lia|done].
Qed.
Lemma shifts_advance k L : shifts self L L k (advance k).
Proof. intros i (_ & _ & HL). split; [split; try done; simpl; lia|done]. Qed.
Lemma shifts_read_u8_at n L : shifts self L L 0 (read_u8_at n).
Proof.
  intros i (_ & _ & HL). unfold read_u8_at, index, unwrap.
  destruct (0 <=? _); [|done]. destruct (in_bytecode i !! _); [|done]. split; [apply stays_refl|done].
Qed.

(** *** The stack *)

(** An operation of the stack that succeeds on a stack of [L] words. *)
Definition stack_shifts {A} (L L' : Z) (m : SM A) : Prop :=
  forall data, len data = L -> match m data with (Ok _, data') => len data' = L' | (Err _, _) => False | (Panic, _) => True end.

Lemma shifts_on_stack {A} L L' (m : SM A) : stack_shifts L L' m -> shifts self L L' 0 (on_stack m).
Proof.
  intros Hm i (_ & _ & HL). specialize (Hm _ HL). unfold on_stack, zoom.
  destruct (m (stack i)) as [[| |] data']; [|done..]. split; [split; try done; simpl; lia|done].
Qed.

Lemma stack_shifts_bind {A B} L L1 L2 (m : SM A) (f : A -> SM B) :
  stack_shifts L L1 m -> (forall a, stack_shifts L1 L2 (f a)) -> stack_shifts L L2 (m ≫= f).
Proof.
  intros Hm Hf data HL. specialize (Hm _ HL). unfold mbind, M_bind. destruct (m data) as [[a| |] data1]; [|done..].
  by apply Hf.
Qed.
Lemma stack_shifts_ret {A} L (a : A) : stack_shifts L L (mret a).
Proof. by intros data HL. Qed.
Lemma stack_shifts_pop_unsafe L : 0 < L -> stack_shifts L (L - 1) pop_unsafe.
Proof.
  intros HL data Hd. unfold pop_unsafe. destruct (reverse data); [done|]. unfold len in *. rewrite length_take. lia.
Qed.
Lemma stack_shifts_pop L : 0 < L -> stack_shifts L (L - 1) Stack.pop.
Proof.
  intros HL data Hd. unfold Stack.pop. destruct (reverse data) eqn:Hr.
  - apply (f_equal length) in Hr. rewrite length_reverse in Hr. unfold len in Hd. simpl in Hr. lia.
  - unfold len in *. rewrite length_take. lia.
Qed.
Lemma stack_shifts_top_unsafe L : stack_shifts L L top_unsafe.
Proof. intros data Hd. unfold top_unsafe. by destruct (last data). Qed.
Lemma stack_shifts_set_top L v : stack_shifts L L (set_top_unsafe v).
Proof. intros data Hd. unfold set_top_unsafe. destruct data; [done|]. unfold len in *. by rewrite length_insert. Qed.
Lemma stack_shifts_push L v : L < STACK_LIMIT -> stack_shifts L (L + 1) (Stack.push v).
Proof.
  intros HL data Hd. unfold Stack.push. destruct (Z.eqb_spec (len data) STACK_LIMIT); [lia|].
  rewrite len_app, Hd. done.
Qed.
Lemma stack_shifts_dup L n : n <= L < STACK_LIMIT -> stack_shifts L (L + 1) (Stack.dup n).
Proof.
  intros HL data Hd. unfold Stack.dup. destruct (negb (0 <? n)); [done|]. destruct (Z.ltb_spec (len data) n); [lia|].
  destruct (Z.ltb_spec STACK_LIMIT (len data + 1)); [lia|].
  destruct (data !! _); [|done]. by rewrite len_app, Hd.
Qed.
Lemma stack_shifts_exchange L n m : n + m < L -> stack_shifts L L (Stack.exchange n m).
Proof.
  intros HL data Hd. unfold Stack.exchange. destruct (negb (0 <? m)); [done|]. destruct (Z.leb_spec (len data) (n + m)); [lia|].
  destruct (data !! _); [|done]. destruct (data !! _); [|done]. unfold len in *. by rewrite !length_insert.
Qed.
Lemma stack_shifts_push_slice L s :
  0 < len s <= 32 -> L < STACK_LIMIT -> stack_shifts L (L + 1) (push_slice s).
Proof.
  intros Hs HL data Hd. rewrite push_slice_eq.
  assert (H1 : (len s + 31) / 32 = 1) by (symmetry; apply Z.div_unique with (len s - 1); lia).
  rewrite H1, Hd. destruct (Z.ltb_spec STACK_LIMIT (L + 1)); [lia|]. rewrite andb_false_r.
  by rewrite len_app, length_slice_words, H1, Hd.
Qed.

(** *** The popping and pushing macros *)

Lemma shifts_require_stack n L : n <= L -> shifts self L L 0 (require_stack n).
Proof.
  intros Hn i (_ & _ & HL). unfold require_stack. destruct (Z.ltb_spec (len (stack i)) n); [lia|].
  split; [apply stays_refl|done].
Qed.
Lemma shifts_checked {A} n L L' (m : SM A) :
  n <= L -> stack_shifts L L' m -> shifts self L L' 0 (_ ← require_stack n; on_stack m).
Proof.
  intros Hn Hm. eapply shifts_bind; [by apply shifts_require_stack|intros _; by apply shifts_on_stack|done].
Qed.

Ltac solve_stack_shifts :=
  repeat (intros; first
    [ apply stack_shifts_ret
    | eapply stack_shifts_bind; [first [apply stack_shifts_pop_unsafe; lia | apply stack_shifts_top_unsafe]|] ]).

Lemma shifts_pop1 L : 1 <= L -> shifts self L (L - 1) 0 pop1.
Proof. intros HL. apply shifts_checked; [lia|]. apply stack_shifts_pop_unsafe. lia. Qed.
Lemma shifts_pop2 L : 2 <= L -> shifts self L (L - 1 - 1) 0 pop2.
Proof. intros HL. apply shifts_checked; [lia|]. unfold pop2_unsafe. solve_stack_shifts. Qed.
Lemma shifts_pop3 L : 3 <= L -> shifts self L (L - 1 - 1 - 1) 0 pop3.
Proof. intros HL. apply shifts_checked; [lia|]. unfold pop3_unsafe. solve_stack_shifts. Qed.
Lemma shifts_pop4 L : 4 <= L -> shifts self L (L - 1 - 1 - 1 - 1) 0 pop4.
Proof. intros HL. apply shifts_checked; [lia|]. unfold pop4_unsafe. solve_stack_shifts. Qed.
Lemma shifts_pop_address L : 1 <= L -> shifts self L (L - 1) 0 pop_address.
Proof. intros HL. eapply shifts_bind; [by apply shifts_pop1|intros w; apply shifts_ret|done]. Qed.
Lemma shifts_top1 L : 1 <= L -> shifts self L L 0 top1.
Proof. intros HL. apply shifts_checked; [lia|]. apply stack_shifts_top_unsafe. Qed.
Lemma shifts_pop_top2 L : 2 <= L -> shifts self L (L - 1) 0 pop_top2.
Proof. intros HL. apply shifts_checked; [lia|]. unfold pop_top_unsafe. solve_stack_shifts. Qed.
Lemma shifts_pop_top3 L : 3 <= L -> shifts self L (L - 1 - 1) 0 pop_top3.
Proof. intros HL. apply shifts_checked; [lia|]. unfold pop2_top_unsafe. solve_stack_shifts. Qed.
Lemma shifts_set_top v L : shifts self L L 0 (set_top v).
Proof. apply shifts_on_stack, stack_shifts_set_top. Qed.
Lemma shifts_push_value v L : L < STACK_LIMIT -> shifts self L (L + 1) 0 (push_value v).
Proof. intros HL. by apply shifts_on_stack, stack_shifts_push. Qed.

Lemma shifts_lift_bind {A B} (o : outcome InstructionResult A) (f : A -> IM B) L L' k :
  (forall e, o <> Err e) -> (forall a, o = Ok a -> shifts self L L' k (f a)) -> shifts self L L' k (lift o ≫= f).
Proof.
  intros Ho Hf s Hs. unfold mbind, M_bind, lift. destruct o as [a|e|]; [|by destruct (Ho e)|done]. by apply Hf.
Qed.

Lemma shifts_push n L : 1 <= n <= 32 -> L < STACK_LIMIT -> shifts self L (L + 1) n (stack_push n).
Proof.
  intros Hn HL. unfold stack_push. eapply shifts_bind; [apply shifts_gas|intros _|by apply Z.add_0_l].
  eapply shifts_bind; [apply shifts_get|intros i|by apply Z.add_0_l].
  apply shifts_lift_bind; [intros e; unfold slice; by case_match|]. intros s Hs.
  assert (len s = n).
  { unfold slice in Hs. destruct (_ && _) eqn:Hb; [|done]. simplify_eq.
    apply andb_true_iff in Hb as [[H1%Z.leb_le H2%Z.leb_le]%andb_true_iff H3%Z.leb_le].
    unfold len in *. rewrite length_take, length_drop. lia. }
  eapply shifts_bind; [|intros _; apply shifts_advance|by apply Z.add_0_l].
  apply shifts_on_stack, stack_shifts_push_slice; lia.
Qed.

(** *** Halting *)

Lemma completes_halt r L L' k : harmless r = true -> r <> IR_Continue -> completes self L L' k (halt r).
Proof. intros Hr Hc i _. simpl. split; [done|]. unfold running. by rewrite bool_decide_eq_false_2. Qed.

(** Halting, with the action for the caller set before or after. *)
Lemma completes_halt_then r (f : Interpreter -> InterpreterAction) L L' k :
  harmless r = true -> r <> IR_Continue ->
  completes self L L' k (_ ← halt r; modify (fun i => set_next_action (f i) i)).
Proof. intros Hr Hc i _. simpl. split; [done|]. unfold running. simpl. by rewrite bool_decide_eq_false_2. Qed.
Lemma completes_then_halt r a L L' k :
  harmless r = true -> r <> IR_Continue -> completes self L L' k (_ ← modify (set_next_action a); halt r).
Proof. intros Hr Hc i _. simpl. split; [done|]. unfold running. simpl. by rewrite bool_decide_eq_false_2. Qed.

(** ** The host *)

Section host.
Context {H : Type} `{HH : Host H}.
Abbreviation on_state := (fun s : Interpreter * H => s.1).

Lemma shifts_on_int {A} L L' k (m : IM A) : shifts self L L' k m -> shifts on_state L L' k (on_int (H := H) m).
Proof. intros Hm [i h] Hs. specialize (Hm i Hs). unfold on_int, zoom. simpl. by destruct (m i) as [[]]. Qed.
Lemma completes_on_int {A} L L' k (m : IM A) : completes self L L' k m -> completes on_state L L' k (on_int (H := H) m).
Proof. intros Hm [i h] Hs. specialize (Hm i Hs). unfold on_int, zoom. simpl. by destruct (m i) as [[]]. Qed.
Lemma shifts_on_host {A} (m : M H Empty_set A) L : shifts on_state L L 0 (on_host m).
Proof.
  intros [i h] (_ & _ & HL). unfold on_host, with_err, zoom. simpl. destruct (m h) as [[a|[]|] h']; [|done].
  split; [apply stays_refl|done].
Qed.
Lemma shifts_host_some {A} (m : M H Empty_set (option A)) L : shifts on_state L L 0 (host_some m).
Proof.
  eapply shifts_bind; [apply shifts_on_host| |by apply Z.add_0_l]. intros [a|]; [apply shifts_ret|by apply shifts_fail].
Qed.
End host.
Lemma shifts_env_of {H} `{Host H} L : shifts (fun s : Interpreter * H => s.1) L L 0 env_of.
Proof. apply shifts_gets. Qed.
Lemma shifts_self_address {H} L : shifts (fun s : Interpreter * H => s.1) L L 0 self_address.
Proof. apply shifts_gets. Qed.

Lemma shifts_pop_topics n L : Z.of_nat n <= L -> shifts self L (L - Z.of_nat n) 0 (pop_topics n).
Proof.
  revert L. induction n as [|n IH]; intros L HL; cbn [pop_topics].
  - eapply shifts_eq; [apply shifts_ret|lia|done].
  - eapply shifts_bind; [apply shifts_on_stack, stack_shifts_pop_unsafe; lia|intros t|by apply Z.add_0_l].
    eapply shifts_bind; [apply IH; lia|intros ts|by apply Z.add_0_l]. eapply shifts_eq; [apply shifts_ret|lia|done].
Qed.

Create HintDb shifts.
#[export] Hint Resolve shifts_gas shifts_gas_or_fail shifts_refund shifts_require_non_staticcall shifts_require_eof
  shifts_require_init_eof shifts_check shifts_resize shifts_advance shifts_read_u8_at shifts_set_top shifts_get
  shifts_gets shifts_ret shifts_env_of shifts_self_address shifts_on_host shifts_host_some : shifts.

(** One step of an instruction that goes on. *)
Ltac shifts_leaf :=
  lazymatch goal with
  | |- shifts _ _ _ _ (lift (Ok _)) => apply shifts_lift; done
  | |- shifts _ _ _ _ (lift Panic) => apply shifts_panic
  | |- shifts _ _ _ _ (lift (unwrap ?o)) => apply shifts_lift; by destruct o
  | |- shifts _ _ _ _ (lift (slice _ _ _)) => apply shifts_lift; intros ?; unfold slice; by case_match
  | |- shifts _ _ _ _ (lift (match Eof_decode ?c with _ => _ end)) => apply shifts_lift; by destruct (Eof_decode c)
  | |- shifts _ _ _ _ (fail _) => apply shifts_fail; done
  | |- shifts _ _ _ _ (as_usize_or_fail_with _ _) => apply shifts_as_usize; done
  | |- shifts _ _ _ _ (as_usize_or_fail _) => apply shifts_as_usize; done
  | |- shifts _ _ _ _ (on_memory _) => apply shifts_on_memory; solve [auto with no_error]
  | |- shifts _ _ _ _ (require_stack _) => apply shifts_require_stack; lia
  | |- shifts _ _ _ _ pop1 => apply shifts_pop1; lia
  | |- shifts _ _ _ _ pop2 => apply shifts_pop2; lia
  | |- shifts _ _ _ _ pop3 => apply shifts_pop3; lia
  | |- shifts _ _ _ _ pop4 => apply shifts_pop4; lia
  | |- shifts _ _ _ _ pop_address => apply shifts_pop_address; lia
  | |- shifts _ _ _ _ top1 => apply shifts_top1; lia
  | |- shifts _ _ _ _ pop_top2 => apply shifts_pop_top2; lia
  | |- shifts _ _ _ _ pop_top3 => apply shifts_pop_top3; lia
  | |- shifts _ _ _ _ (push_value _) => apply shifts_push_value; unfold STACK_LIMIT; lia
  | |- shifts _ _ _ _ (stack_push _) => apply shifts_push; unfold STACK_LIMIT; lia
  | |- shifts _ _ _ _ (pop_topics _) => apply shifts_pop_topics; lia
  | |- shifts _ _ _ _ (on_stack Stack.pop) => apply shifts_on_stack, stack_shifts_pop; lia
  | |- shifts _ _ _ _ (on_stack (Stack.push _)) => apply shifts_on_stack, stack_shifts_push; unfold STACK_LIMIT; lia
  | |- shifts _ _ _ _ (on_stack (Stack.dup _)) => apply shifts_on_stack, stack_shifts_dup; unfold STACK_LIMIT; lia
  | |- shifts _ _ _ _ (on_stack (Stack.swap _)) => apply shifts_on_stack, stack_shifts_exchange; lia
  | |- shifts _ _ _ _ _ => solve [auto with shifts]
  end.

Ltac shifts_side := first [reflexivity | lia].

Ltac solve_shifts :=
  repeat (intros; cbv beta zeta;
    lazymatch goal with
    | |- shifts _ _ _ _ (on_int _) => apply shifts_on_int
    | |- shifts _ _ _ _ (_ ≫= _) => eapply shifts_bind; [solve_shifts; fail| |shifts_side]
    | |- shifts _ _ _ _ (match _ with _ => _ end) => case_match
    | |- shifts _ _ _ _ _ => eapply shifts_eq; [shifts_leaf|shifts_side|shifts_side]
    end).

Lemma shifts_read_u16_at n L : shifts self L L 0 (read_u16_at n).
Proof. unfold read_u16_at. solve_shifts. Qed.
Lemma shifts_copy_to_memory a b n data L :
  (forall i e, data i <> Err e) -> shifts self L L 0 (copy_to_memory a b n data).
Proof.
  intros Hd. unfold copy_to_memory. case_match; [solve_shifts|]. cbv zeta.
  eapply shifts_bind; [by apply shifts_as_usize|intros ?|by apply Z.add_0_l].
  eapply shifts_bind; [apply shifts_resize|intros ?|by apply Z.add_0_l].
  eapply shifts_bind; [apply shifts_get|intros i|by apply Z.add_0_l].
  eapply shifts_bind; [by apply shifts_lift|intros ?|by apply Z.add_0_l]. solve_shifts.
Qed.
#[export] Hint Resolve shifts_read_u16_at : shifts.
#[export] Hint Extern 2 (shifts _ _ _ _ (copy_to_memory _ _ _ _)) => apply shifts_copy_to_memory; done : shifts.

(** What the instructions of [contract.rs] are made of. *)
Lemma shifts_memory_range a n L : shifts self L L 0 (resize_memory_and_return_range a n).
Proof. unfold resize_memory_and_return_range. solve_shifts. Qed.
Lemma shifts_verified_container e idx L : shifts self L L 0 (verified_container e idx).
Proof. unfold verified_container. solve_shifts. Qed.
#[export] Hint Resolve shifts_memory_range shifts_verified_container : shifts.
Lemma shifts_extcall_input L : 2 <= L -> shifts self L (L - 1 - 1) 0 extcall_input.
Proof. intros HL. unfold extcall_input. solve_shifts. Qed.
Lemma shifts_extcall_gas {H} `{Host H} to b L : shifts (fun s : Interpreter * H => s.1) L L 0 (extcall_gas_calc to b).
Proof. unfold extcall_gas_calc. solve_shifts. Qed.
#[export] Hint Resolve shifts_extcall_gas : shifts.
#[export] Hint Extern 2 (shifts _ _ _ _ extcall_input) => apply shifts_extcall_input; lia : shifts.

Ltac solve_completes :=
  repeat (intros; cbv beta zeta;
    lazymatch goal with
    | |- completes _ _ _ _ (on_int _) => apply completes_on_int
    | |- completes _ _ _ _ (halt _) => apply completes_halt; done
    | |- completes _ _ _ _ (halt _ ≫= _) => apply completes_halt_then; done
    | |- completes _ _ _ _ (modify _ ≫= _) => apply completes_then_halt; done
    | |- completes _ _ _ _ (emit_call _) => unfold emit_call
    | |- completes _ _ _ _ (return_inner _) => unfold return_inner
    | |- completes _ _ _ _ (_ ≫= _) => eapply completes_bind; [solve_shifts; fail|]
    | |- completes _ _ _ _ (match _ with _ => _ end) => case_match
    | |- completes _ _ _ _ _ => eapply completes_shifts; [shifts_leaf|shifts_side|shifts_side]
    end).

(** ** Every instruction that EOF code may use

    The jumps, CALLF, RETF and JUMPF choose where to go on, DUPN, SWAPN and
    EXCHANGE read their depth from the code, and EOFCREATE leaves its result to
    the caller; they are apart. *)

Definition ordinary (op : Z) : bool :=
  negb (bool_decide (op ∈ [0xE0; 0xE1; 0xE2; 0xE3; 0xE4; 0xE5; 0xE6; 0xE7; 0xE8; 0xEC])).

Section table.
Context {H : Type} `{HH : Host H} `{HK : Keccak} `{HC : CreateAddress}.
Abbreviation on_state := (fun s : Interpreter * H => s.1).

Definition follows_table (op : Z) (m : M (Interpreter * H) InstructionResult unit) : Prop :=
  ordinary op = true -> forall info, opcode_info op = Some info -> op_not_eof info = false ->
  forall L, op_inputs info <= L -> L + (op_outputs info - op_inputs info) <= STACK_LIMIT ->
  completes on_state L (L + (op_outputs info - op_inputs info)) (op_immediate_size info) m.

Ltac table_entry :=
  unfold STACK_LIMIT in *; cbn [op_outputs op_inputs op_immediate_size] in *;
  first [ solve_completes; fail | autounfold with instructions; solve_completes; fail ].

Lemma heights_table spec :
  Forall (fun q : Z * M (Interpreter * H) InstructionResult unit => follows_table q.1 q.2) (instructions spec).
Proof.
  unfold instructions.
  repeat (apply List.Forall_cons; [cbn [fst snd]; intros Ho info [= <-]; try done; intros Hn L H1 H2; table_entry|]).
  constructor.
Qed.

(** After a terminating instruction the interpreter does not run: no height is
    the one that it leaves. *)
Definition never_goes_on (op : Z) (m : M (Interpreter * H) InstructionResult unit) : Prop :=
  ordinary op = true -> forall info, opcode_info op = Some info -> op_not_eof info = false ->
  op_terminating info = true -> forall L, op_inputs info <= L -> completes on_state L (-1) 0 m.

Lemma terminating_table spec :
  Forall (fun q : Z * M (Interpreter * H) InstructionResult unit => never_goes_on q.1 q.2) (instructions spec).
Proof.
  unfold instructions.
  repeat (apply List.Forall_cons; [cbn [fst snd]; intros Ho info [= <-]; try done; intros Hn Ht L H1; table_entry|]).
  constructor.
Qed.

(** An entry of the opcode table has an instruction. *)
Lemma instruction_of_info (P : Z -> M (Interpreter * H) InstructionResult unit -> Prop) spec op info :
  opcode_info op = Some info -> Forall (fun q => P q.1 q.2) (instructions spec) -> P op (instruction spec op).
Proof.
  intros Hinfo Ht. unfold instruction, assoc. destruct (list_find (fun q => q.1 = op) (instructions spec)) as [[k q]|] eqn:Hf; simpl.
  - apply list_find_Some in Hf as (Hk & <- & _). rewrite Forall_lookup in Ht. exact (Ht _ _ Hk).
  - exfalso. unfold opcode_info, assoc in Hinfo. destruct (list_find _ opcode_infos) as [[k q]|] eqn:Hg; [|done].
    apply list_find_Some in Hg as (Hk & <- & _). apply list_find_None in Hf.
    assert (Hin : q.1 ∈ fst <$> instructions spec).
    { change (fst <$> instructions spec) with (fst <$> opcode_infos). apply list_elem_of_fmap.
      exists q. split; [done|]. by eapply list_elem_of_lookup_2. }
    apply list_elem_of_fmap in Hin as (q' & Hq & Hin). rewrite Forall_forall in Hf. by apply (Hf q' Hin).
Qed.

(** C30: The instructions and the opcode table agree.  For every opcode that EOF
    code may use, apart from the jumps, the calls within the container, DUPN, SWAPN,
    EXCHANGE and EOFCREATE: with the operands the table asks for and room for the
    results, the instruction never reports a stack error or an undefined opcode; and
    if the interpreter goes on, the height has changed as the table says, and the
    instruction pointer is past the immediate bytes, in the same code. *)
Theorem instructions_follow_table (spec : SpecId) (op : Z) (info : OpCodeInfo) (i i' : Interpreter) (h h' : H)
  (r : outcome InstructionResult unit)
  (Hop : ordinary op = true) (Hinfo : opcode_info op = Some info) (Henabled : op_not_eof info = false)
  (Hrun : running i = true) (Heof : in_is_eof i = true)
  (Hneed : op_inputs info <= len (stack i))
  (Hroom : len (stack i) + (op_outputs info - op_inputs info) <= STACK_LIMIT)
  (Hr : instruction spec op (i, h) = (r, (i', h'))) :
  match r with
  | Ok _ => harmless (instruction_result i') = true /\
      (running i' = true ->
       len (stack i') = len (stack i) + (op_outputs info - op_inputs info) /\
       instruction_pointer i' = instruction_pointer i + op_immediate_size info /\ in_bytecode i' = in_bytecode i)
  | Err e => harmless e = true
  | Panic => True
  end.
Proof.
  pose proof (instruction_of_info follows_table spec op info Hinfo (heights_table spec) Hop info Hinfo Henabled
    (len (stack i)) Hneed Hroom (i, h)) as Ht. rewrite Hr in Ht. cbn [fst] in Ht.
  destruct r as [a|e|]; [|by apply Ht|done]. destruct Ht as [Hh Ht]; [done|]. split; [done|]. intros Hr'.
  destruct (Ht Hr') as [[] HL]. done.
Qed.
End table.

#[local] Existing Instances sample_host sample_keccak sample_create_address.

(** ADD on a stack of three words. *)
Lemma instructions_follow_table_witness :
  let i := set_stack [7; 2; 3] (mkInterpreter 1 (Gas_new 100) (Contract_new [] (new_raw []) None 1 2 []) IR_Continue
    [0x01; 0x00] true false EMPTY_SHARED_MEMORY [] FunctionStack_new [] false IA_None) in
  let '(_, (i', _)) := instruction (H := unit) CANCUN 0x01 (i, tt) in
  stack i' = [7; 5] /\ len (stack i') = len (stack i) + (1 - 2) /\ instruction_pointer i' = 1.
Proof.
  intros i. destruct (instruction CANCUN 0x01 (i, tt)) as [r [i' h']] eqn:Hr.
  pose proof (instructions_follow_table CANCUN 0x01 (mkOpCodeInfo "ADD" 2 1 0 false false) i i' tt h' r
    eq_refl eq_refl eq_refl eq_refl eq_refl ltac:(done) ltac:(done) Hr) as H.
  vm_compute in Hr. injection Hr as <- <- <-. destruct H as [_ H]. destruct (H eq_refl) as (HL & Hpc & _).
  split; [reflexivity|]. split; [exact HL|exact Hpc].
Defined.
