(* ===== verification/EofExecution.v ===== *)
(** The interpreter runs an accepted EOF container the way the machine of
    [EofRun] does, so that what validation guarantees holds of the interpreter. *)

From S2P Require Import Prelude.
From S2P Require Import Specification.
From S2P Require Import Bytes.
From S2P Require Import Eof.
From S2P Require Import Bytecode.
From S2P Require Import State.
From S2P Require Import Result.
From S2P Require Import InstructionResult.
From S2P Require Import Database.
From S2P Require Import Journal.
From S2P Require Import CallInputs.
From S2P Require Import Gas.
From S2P Require Import Stack.
From S2P Require Import SharedMemory.
From S2P Require Import I256.
From S2P Require Import Analysis.
From S2P Require Import Env.
From S2P Require Import Interpreter.
From S2P Require Import Context.
From S2P Require Import Instructions.
From S2P Require Import HostInstructions.
From S2P Require Import Opcode.
From S2P Require Import InterpreterSteps.
From S2P Require Import InterpreterSafety.
From S2P Require Import InterpreterLoop.
From S2P Require Import EofValidation.
From S2P Require Import EofSafety.
From S2P Require Import EofRun.
From S2P Require Import InstructionHeights.

(** What validation excludes; a CALLF or a JUMPF may still overflow the stack. *)
Definition sound_result (r : InstructionResult) : bool :=
  match r with
  | IR_StackUnderflow | IR_OpcodeNotFound | IR_EOFOpcodeDisabledInLegacy => false
  | _ => true
  end.
Lemma harmless_sound r : harmless r = true -> sound_result r = true.
Proof. by destruct r. Qed.

(** [reaches m Q i]: [m] does not panic from [i]; it answers with [Q], or stops
    early for a reason that validation does not exclude. *)
Definition reaches {A} (m : IM A) (Q : A -> Interpreter -> Prop) (i : Interpreter) : Prop :=
  match m i with
  | (Ok a, i') => Q a i'
  | (Err e, _) => sound_result e = true /\ e <> IR_Continue
  | (Panic, _) => False
  end.

Lemma reaches_bind {A B} (m : IM A) (f : A -> IM B) Q i :
  reaches m (fun a => reaches (f a) Q) i -> reaches (m ≫= f) Q i.
Proof. unfold reaches, mbind, M_bind. by destruct (m i) as [[]]. Qed.
Lemma reaches_gas c Q i : (forall g, Q tt (set_gas g i)) -> reaches (gas c) Q i.
Proof. intros HQ. unfold reaches, gas. destruct (record_cost c (in_gas i)) as [[] g]; [apply HQ|done]. Qed.
Lemma reaches_require_eof Q i : in_is_eof i = true -> Q tt i -> reaches require_eof Q i.
Proof. intros He HQ. unfold reaches, require_eof. by rewrite He. Qed.
Lemma reaches_read_u8_at n (Q : Z -> Interpreter -> Prop) i b :
  index (E := InstructionResult) (in_bytecode i) (instruction_pointer i + n) = Ok b -> Q b i -> reaches (read_u8_at n) Q i.
Proof. intros Hb HQ. unfold reaches, read_u8_at. by rewrite Hb. Qed.
Lemma reaches_on_stack {A} (m : SM A) Q i L :
  stack_shifts (len (stack i)) L m -> (m (stack i)).1 <> Panic ->
  (forall a st, len st = L -> Q a (set_stack st i)) -> reaches (on_stack m) Q i.
Proof.
  intros Hm Hp HQ. unfold reaches, on_stack, zoom. specialize (Hm _ eq_refl).
  destruct (m (stack i)) as [[a|e|] st]; [by apply HQ|done|done].
Qed.
Lemma reaches_pop1 Q i :
  1 <= len (stack i) -> (forall v st, len st = len (stack i) - 1 -> Q v (set_stack st i)) -> reaches pop1 Q i.
Proof.
  intros HL HQ. apply reaches_bind. unfold reaches at 1, require_stack. destruct (Z.ltb_spec (len (stack i)) 1); [lia|].
  eapply reaches_on_stack; [apply stack_shifts_pop_unsafe; lia| |done].
  unfold pop_unsafe. destruct (reverse (stack i)) eqn:Hr; [|done].
  apply (f_equal length) in Hr. rewrite length_reverse in Hr. unfold len in HL. simpl in Hr. lia.
Qed.
Lemma reaches_modify f (Q : unit -> Interpreter -> Prop) i : Q tt (f i) -> reaches (modify f) Q i.
Proof. done. Qed.
Lemma reaches_mono {A} (m : IM A) (P Q : A -> Interpreter -> Prop) i :
  reaches m P i -> (forall a i', P a i' -> Q a i') -> reaches m Q i.
Proof. unfold reaches. destruct (m i) as [[]]; auto. Qed.

(** ** An interpreter in a configuration of the machine *)

Definition frames_of (fs : FunctionStack) : list (Z * Z) :=
  (fun f => (frame_idx f, frame_pc f)) <$> reverse (return_stack fs).

Record represents (eof : Eof) (c : Config) (i : Interpreter) : Prop := {
  rp_running : running i = true;
  rp_eof : in_is_eof i = true;
  rp_container : in_eof i = Some eof;
  rp_code : in_bytecode i = code_of eof (c_section c);
  rp_section : current_code_idx (function_stack i) = c_section c;
  rp_frames : frames_of (function_stack i) = c_frames c;
  rp_pc : instruction_pointer i = c_pc c;
  rp_height : len (stack i) = c_height c;
}.

(** The configuration after the opcode has been read. *)
Definition fetched (c : Config) : Config := mkConfig (c_frames c) (c_section c) (c_pc c + 1) (c_height c).

Lemma represents_gas eof c i g : represents eof c i -> represents eof c (set_gas g i).
Proof. by intros []. Qed.
Lemma represents_stack eof c i st :
  represents eof c i -> represents eof (mkConfig (c_frames c) (c_section c) (c_pc c) (len st)) (set_stack st i).
Proof. by intros []. Qed.
Lemma represents_pc eof c i k :
  represents eof c i -> represents eof (mkConfig (c_frames c) (c_section c) (c_pc c + k) (c_height c))
    (set_pc (instruction_pointer i + k) i).
Proof. intros []. split; try done. simpl. lia. Qed.

Lemma index_byte {E} (code : bytes) j : 0 <= j < len code -> index (E := E) code j = Ok (byte_at code j).
Proof.
  intros Hj. apply index_Ok. split; [lia|]. unfold byte_at.
  destruct (code !! Z.to_nat j) eqn:Hb; [done|]. apply lookup_ge_None in Hb. unfold len in Hj. lia.
Qed.

(** The immediates are read from the code of the section. *)
Lemma reaches_byte eof d n (Q : Z -> Interpreter -> Prop) i :
  represents eof d i -> 0 <= c_pc d + n < len (code_of eof (c_section d)) ->
  Q (byte_at (code_of eof (c_section d)) (c_pc d + n)) i -> reaches (read_u8_at n) Q i.
Proof.
  intros [] Hn HQ. eapply reaches_read_u8_at; [|exact HQ]. rewrite rp_code0, rp_pc0. by apply index_byte.
Qed.
Lemma reaches_word eof d n (Q : Z -> Interpreter -> Prop) i :
  represents eof d i -> 0 <= c_pc d + n -> c_pc d + n + 1 < len (code_of eof (c_section d)) ->
  Q (word_at (code_of eof (c_section d)) (c_pc d + n)) i -> reaches (read_u16_at n) Q i.
Proof.
  intros Hi Hn Hl HQ. unfold read_u16_at. apply reaches_bind. eapply reaches_byte; [done|lia|].
  apply reaches_bind. eapply reaches_byte; [done|lia|]. unfold reaches. simpl.
  unfold word_at, from_be_bytes in HQ. simpl in HQ. by rewrite <- Z.add_assoc in HQ.
Qed.
Lemma reaches_offset eof d n (Q : Z -> Interpreter -> Prop) i :
  represents eof d i -> 0 <= c_pc d + n -> c_pc d + n + 1 < len (code_of eof (c_section d)) ->
  Q (offset_at (code_of eof (c_section d)) (c_pc d + n)) i -> reaches (read_i16_at n) Q i.
Proof. intros Hi Hn Hl HQ. unfold read_i16_at. apply reaches_bind. by eapply reaches_word. Qed.

(** A popped operand. *)
Lemma reaches_pop eof d (Q : Z -> Interpreter -> Prop) i :
  represents eof d i -> 1 <= c_height d ->
  (forall v i', represents eof (mkConfig (c_frames d) (c_section d) (c_pc d) (c_height d - 1)) i' -> Q v i') ->
  reaches pop1 Q i.
Proof.
  intros Hi HL HQ. pose proof (rp_height _ _ _ Hi) as Hh. apply reaches_pop1; [lia|].
  intros v st Hst. rewrite Hh in Hst. apply HQ. apply (represents_stack _ _ _ st) in Hi. by rewrite Hst in Hi.
Qed.

(** Instructions of EOF code charge first. *)
Lemma reaches_charged {A} eof d c (f : unit -> unit -> IM A) (Q : A -> Interpreter -> Prop) i :
  represents eof d i -> (forall i', represents eof d i' -> reaches (f tt tt) Q i') ->
  reaches (a ← require_eof; b ← gas c; f a b) Q i.
Proof.
  intros Hi HQ. apply reaches_bind, reaches_require_eof; [apply Hi|].
  apply reaches_bind, reaches_gas. intros g. by apply HQ, represents_gas.
Qed.

Section control.
Context (eof : Eof) (c : Config).
Abbreviation code := (code_of eof (c_section c)).
Context (Hbytes : Forall is_byte code).

(** What an instruction leads to. *)
Definition leads (m : IM unit) (i : Interpreter) : Prop :=
  reaches m (fun _ i' => sound_result (instruction_result i') = true /\
    (running i' = true -> exists c', eof_step eof c c' /\ represents eof c' i')) i.

Lemma leads_ret c' i : eof_step eof c c' -> represents eof c' i ->
  sound_result (instruction_result i) = true /\ (running i = true -> exists c', eof_step eof c c' /\ represents eof c' i).
Proof.
  intros Hs Hr. split; [|by exists c']. pose proof (rp_running _ _ _ Hr) as Hrun.
  apply bool_decide_eq_true in Hrun. by rewrite Hrun.
Qed.

Context (op : Z) (info : OpCodeInfo) (Hsafe : runs_safely eof c op info).

(** Going on at [c_pc c + 1 + k]. *)
Lemma leads_advance c' d k i :
  eof_step eof c c' -> represents eof d i ->
  c' = mkConfig (c_frames d) (c_section d) (c_pc d + k) (c_height d) -> leads (advance k) i.
Proof. intros Hs Hi ->. apply reaches_modify. eapply leads_ret; [done|]. by apply represents_pc. Qed.

Lemma rjump_leads i : op = 0xE0 -> represents eof (fetched c) i -> leads control_rjump i.
Proof.
  intros -> Hi. destruct Hsafe as [He _ Hcomp _ _ _ _]. pose proof He as [Hop [= <-]]. apply index_Ok in Hop as [Hpc _].
  change (instruction_width _ _ _ _) with 3 in Hcomp. eapply reaches_charged; [done|]. clear i Hi. intros i Hi.
  apply reaches_bind. eapply reaches_offset; [done|simpl; lia..|].
  eapply leads_advance; [eapply (step_jump _ _ _ _ _ He); by apply list_elem_of_singleton|done|].
  unfold height_change. cbn [fetched c_frames c_section c_pc c_height]. rewrite (Z.add_0_r (c_pc c + 1)). f_equal; cbn [op_outputs op_inputs Z.eqb Pos.eqb]; lia.
Qed.

Lemma rjumpi_leads i : op = 0xE1 -> represents eof (fetched c) i -> leads control_rjumpi i.
Proof.
  intros -> Hi. destruct Hsafe as [He _ Hcomp _ Hneed _ _]. pose proof He as [Hop [= <-]]. apply index_Ok in Hop as [Hpc _].
  change (instruction_width _ _ _ _) with 3 in Hcomp. unfold height_needed in Hneed. simpl in Hneed.
  eapply reaches_charged; [done|]. clear i Hi. intros i Hi.
  apply reaches_bind. eapply reaches_pop; [done|simpl; lia|]. clear i Hi. intros v i Hi. destruct (negb (v =? 0)).
  - apply reaches_bind. eapply reaches_offset; [done|simpl; lia..|].
    eapply leads_advance; [eapply (step_jump _ _ _ _ _ He); by apply list_elem_of_singleton|done|].
    unfold height_change. cbn [fetched c_frames c_section c_pc c_height]. rewrite (Z.add_0_r (c_pc c + 1)). f_equal; cbn [op_outputs op_inputs Z.eqb Pos.eqb]; lia.
  - eapply leads_advance; [by apply (step_next _ _ _ _ He)|done|].
    unfold height_change. cbn [fetched c_frames c_section c_pc c_height].
    change (instruction_width _ _ _ _) with 3. f_equal; cbn [op_outputs op_inputs Z.eqb Pos.eqb]; lia.
Qed.

Lemma rjumpv_leads i : op = 0xE2 -> represents eof (fetched c) i -> leads control_rjumpv i.
Proof.
  intros -> Hi. destruct Hsafe as [He _ Hcomp _ Hneed _ _]. pose proof He as [Hop [= <-]]. apply index_Ok in Hop as [Hpc _].
  change (instruction_width _ _ _ _) with (1 + 1 + vtable_len code (c_pc c) * 2) in Hcomp.
  unfold height_needed in Hneed. simpl in Hneed.
  assert (Hv : vtable_len code (c_pc c) = byte_at code (c_pc c + 1) + 1) by done.
  destruct (byte_at_is_byte code (c_pc c + 1) Hbytes) as [Hb _].
  eapply reaches_charged; [done|]. clear i Hi. intros i Hi.
  apply reaches_bind. eapply reaches_pop; [done|simpl; lia|]. clear i Hi. intros v i Hi. cbv zeta.
  assert (Hcase : 0 <= as_isize_saturated v).
  { unfold as_isize_saturated, as_u64_saturated, cast, U64_MAX. pose proof (Z.mod_pos_bound v (2 ^ 64) eq_refl). case_match; lia. }
  apply reaches_bind. eapply reaches_byte; [done|simpl; lia|]. cbn [fetched c_frames c_section c_pc c_height].
  rewrite (Z.add_0_r (c_pc c + 1)). destruct (Z.leb_spec (as_isize_saturated v) (byte_at code (c_pc c + 1))).
  - apply reaches_bind. eapply reaches_offset; [done|cbn [fetched c_frames c_section c_pc c_height]; lia..|]. cbn [fetched c_frames c_section c_pc c_height].
    eapply leads_advance; [eapply (step_jump _ _ _ _ _ He)|done|].
    + unfold destinations. simpl. apply list_elem_of_fmap. exists (as_isize_saturated v). split; [reflexivity|].
      apply list_elem_of_fmap. exists (Z.to_nat (as_isize_saturated v)). split; [lia|]. apply elem_of_seq. lia.
    + unfold height_change. cbn [fetched c_frames c_section c_pc c_height]. f_equal; cbn [op_outputs op_inputs Z.eqb Pos.eqb].
      rewrite Hv. replace (c_pc c + 1 + (1 + as_isize_saturated v * 2)) with (c_pc c + 2 + 2 * as_isize_saturated v) by lia. lia.
  - eapply leads_advance; [by apply (step_next _ _ _ _ He)|done|].
    unfold height_change. cbn [fetched c_frames c_section c_pc c_height].
    change (instruction_width _ _ _ _) with (1 + 1 + vtable_len code (c_pc c) * 2). rewrite Hv.
    f_equal; cbn [op_outputs op_inputs Z.eqb Pos.eqb]; lia.
Qed.

(** *** Functions *)

(** [load_eof_code] enters a section that exists. *)
Lemma load_leads k j c' i :
  eof_step eof c c' -> c' = mkConfig (frames_of (function_stack i)) k j (len (stack i)) ->
  0 <= k < len (code_section (body eof)) ->
  running i = true -> in_is_eof i = true -> in_eof i = Some eof -> current_code_idx (function_stack i) = k ->
  leads (load_eof_code k j) i.
Proof.
  intros Hs -> Hk Hrun He Heof Hidx. unfold leads, load_eof_code.
  destruct (lookup_lt_is_Some_2 (code_section (body eof)) (Z.to_nat k)) as [b Hb]; [unfold len in Hk; lia|].
  apply reaches_bind. unfold reaches at 1, get. apply reaches_bind. unfold reaches at 1, lift. rewrite Heof. simpl.
  apply reaches_bind. unfold reaches at 1, lift, EofBody_code. rewrite Hb. simpl.
  eapply leads_ret; [exact Hs|]. split; cbn [c_section c_frames c_pc c_height]; try done.
  - unfold code_of. by rewrite Hb.
Qed.

Context (Hlen : length (code_section (body eof)) = length (types_section (body eof))).
Context (Htypes : Forall valid_types (types_section (body eof))).

(** The run-time check of CALLF and JUMPF is the guard of the machine. *)
Lemma reaches_callee_check d target Q i :
  represents eof d i -> 0 <= target < len (types_section (body eof)) ->
  (enters (c_height d) (types_of eof target) -> Q tt i) -> reaches (check_callee_stack target) Q i.
Proof.
  intros Hi Ht HQ. destruct (section_known eof Hlen Htypes target Ht) as [Hty (? & ? & ?)]. unfold check_callee_stack.
  apply reaches_bind. unfold reaches at 1, get. apply reaches_bind. unfold reaches at 1, lift. rewrite (rp_container _ _ _ Hi). simpl.
  apply reaches_bind. unfold reaches at 1, lift. rewrite Hty. simpl.
  unfold wrapping_sub. rewrite Z.mod_small by lia. rewrite (rp_height _ _ _ Hi).
  destruct (Z.ltb_spec 1024 (c_height d + (max_stack_size (types_of eof target) - inputs (types_of eof target)))); [done|].
  apply HQ. unfold enters, STACK_LIMIT. lia.
Qed.

(** The target of CALLF and JUMPF exists. *)
Lemma target_in_range : op = 0xE3 \/ op = 0xE5 ->
  0 <= word_at code (c_pc c + 1) < len (types_section (body eof)).
Proof.
  intros Hop. destruct (rs_references _ _ _ _ Hsafe) as (Href & _). specialize (Href Hop).
  apply lookup_lt_is_Some in Href. assert (0 <= word_at code (c_pc c + 1)); [|unfold len; lia].
  unfold word_at. apply from_be_bytes_bound. repeat constructor; by apply byte_at_is_byte.
Qed.

Lemma callf_leads i : op = 0xE3 -> represents eof (fetched c) i -> leads control_callf i.
Proof.
  intros Hop Hi. pose proof (target_in_range (or_introl Hop)) as Htr. destruct Hsafe as [He _ Hcomp _ _ _ _]. subst op.
  pose proof He as [Hix [= <-]]. apply index_Ok in Hix as [Hpc _]. change (instruction_width _ _ _ _) with 3 in Hcomp.
  eapply reaches_charged; [done|]. clear i Hi. intros i Hi.
  apply reaches_bind. eapply reaches_word; [done|simpl; lia..|]. cbn [fetched c_section c_pc]. rewrite (Z.add_0_r (c_pc c + 1)).
  apply reaches_bind. unfold reaches at 1, get. case_match; [done|].
  apply reaches_bind. eapply reaches_callee_check; [done..|]. intros Hg. apply reaches_bind, reaches_modify.
  destruct Hi. eapply load_leads; [by apply (step_callf _ _ _ He)| |unfold len in *; lia|done|done|done|done].
  unfold frames_of, fs_push, program_counter in *. cbn [fetched c_frames c_section c_pc c_height] in *.
  cbn [set_function_stack function_stack return_stack stack]. rewrite reverse_app, fmap_app, rp_frames0. simpl.
  rewrite rp_section0, rp_pc0, rp_height0. by replace (c_pc c + 1 + 2) with (c_pc c + 3) by lia.
Qed.

Lemma jumpf_leads i : op = 0xE5 -> represents eof (fetched c) i -> leads control_jumpf i.
Proof.
  intros Hop Hi. pose proof (target_in_range (or_intror Hop)) as Htr. destruct Hsafe as [He _ Hcomp _ _ _ _]. subst op.
  pose proof He as [Hix [= <-]]. apply index_Ok in Hix as [Hpc _]. change (instruction_width _ _ _ _) with 3 in Hcomp.
  eapply reaches_charged; [done|]. clear i Hi. intros i Hi.
  apply reaches_bind. eapply reaches_word; [done|simpl; lia..|]. cbn [fetched c_section c_pc]. rewrite (Z.add_0_r (c_pc c + 1)).
  apply reaches_bind. eapply reaches_callee_check; [done..|]. intros Hg. apply reaches_bind, reaches_modify.
  destruct Hi. eapply load_leads; [by apply (step_jumpf _ _ _ He)| |unfold len in *; lia|done|done|done|done].
  unfold frames_of in *. cbn [fetched c_frames c_section c_pc c_height] in *.
  cbn [set_function_stack set_current_code_idx function_stack return_stack stack]. by rewrite rp_frames0, rp_height0.
Qed.

(** The caller that RETF goes back to exists, because it has been running. *)
Lemma retf_leads i k j frames :
  op = 0xE4 -> c_frames c = (k, j) :: frames -> 0 <= k < len (code_section (body eof)) ->
  represents eof (fetched c) i -> leads control_retf i.
Proof.
  intros Hop Hfr Hk Hi. destruct Hsafe as [He _ _ _ _ _ _]. subst op.
  eapply reaches_charged; [done|]. clear i Hi. intros i Hi.
  apply reaches_bind. unfold reaches at 1, get. pose proof (rp_frames _ _ _ Hi) as Hfs. cbn [fetched c_frames] in Hfs.
  rewrite Hfr in Hfs. unfold frames_of in Hfs. destruct (return_stack (function_stack i)) as [|f rest _] eqn:Hrs using rev_ind; [done|].
  rewrite reverse_app in Hfs. simpl in Hfs. injection Hfs as Hk1 Hj1 Hrest.
  unfold fs_pop. rewrite Hrs, last_snoc. apply reaches_bind, reaches_modify. apply reaches_bind. unfold reaches at 1, lift. simpl.
  rewrite Hk1, Hj1. destruct Hi. eapply load_leads; [by apply (step_retf _ _ _ _ _ _ He Hfr)| |done|done|done|done|done].
  unfold frames_of. simpl. rewrite length_app, Nat.add_sub, take_app_length. 
  cbn [fetched c_height] in rp_height0. rewrite rp_height0, <- Hrest. done.
Qed.

(** *** DUPN, SWAPN and EXCHANGE *)

Lemma stack_operation_leads (m : Z -> SM unit) L' i :
  op_immediate_size info = 1 -> op_terminating info = false -> op <> 0xE2 -> op <> 0xE3 ->
  represents eof (fetched c) i -> let imm := byte_at code (c_pc c + 1) in
  stack_shifts (c_height c) L' (m imm) -> (m imm (stack i)).1 <> Panic ->
  L' = c_height c + (op_outputs info - op_inputs info) ->
  leads (_ ← require_eof; _ ← gas G_VERYLOW; imm ← read_u8_at 0; _ ← or_halt (on_stack (m imm)); advance 1) i.
Proof.
  intros Hsize Hterm H2 H3 Hi imm Hm Hp ->. destruct Hsafe as [He _ Hcomp _ _ _ _].
  pose proof He as [Hix _]. apply index_Ok in Hix as [Hpc _].
  assert (Hw : instruction_width code (c_pc c) op info = 2).
  { unfold instruction_width, extra_immediates. rewrite Hsize, (proj2 (Z.eqb_neq op 0xE2) H2). lia. }
  assert (Hch : height_change (types_section (body eof)) code (c_pc c) op info = op_outputs info - op_inputs info).
  { unfold height_change. by rewrite (proj2 (Z.eqb_neq op 0xE3) H3). }
  pose proof (rp_height _ _ _ Hi) as Hh0. cbn [fetched c_height] in Hh0.
  assert (Hst : forall i', represents eof (fetched c) i' -> stack i' = stack i -> reaches
    (imm ← read_u8_at 0; _ ← or_halt (on_stack (m imm)); advance 1)
    (fun _ i' => sound_result (instruction_result i') = true /\
      (running i' = true -> exists c', eof_step eof c c' /\ represents eof c' i')) i').
  { intros i' Hi' Hs. apply reaches_bind. eapply reaches_byte; [done|simpl; lia|]. cbn [fetched c_section c_pc].
    rewrite (Z.add_0_r (c_pc c + 1)). fold imm. apply reaches_bind. unfold reaches at 1, or_halt, on_stack, zoom.
    specialize (Hm _ Hh0). rewrite Hs. destruct (m imm (stack i)) as [[[]|e|] st]; [|done|done].
    apply (represents_stack _ _ _ st) in Hi'. eapply leads_advance; [by apply (step_next _ _ _ _ He)|exact Hi'|].
    cbn [fetched c_frames c_section c_pc c_height]. rewrite Hw, Hch, Hm. f_equal. lia. }
  apply reaches_bind, reaches_require_eof; [apply Hi|]. apply reaches_bind, reaches_gas. intros g.
  apply Hst; [by apply represents_gas|done].
Qed.
End control.

(** What an operation of the stack needs so as not to panic. *)
Lemma dup_no_panic n data : 0 < n <= len data -> (Stack.dup n data).1 <> Panic.
Proof.
  intros Hn. unfold Stack.dup. destruct (Z.ltb_spec 0 n); [|lia]. simpl.
  destruct (len data <? n); [done|]. destruct (_ <? _); [done|].
  destruct (lookup_lt_is_Some_2 data (Z.to_nat (len data - n))) as [v ->]; [unfold len in *; lia|done].
Qed.
Lemma exchange_no_panic n m data : 0 < m -> 0 <= n -> (Stack.exchange n m data).1 <> Panic.
Proof.
  intros Hm Hn. unfold Stack.exchange. destruct (Z.ltb_spec 0 m); [|lia]. simpl.
  destruct (Z.leb_spec (len data) (n + m)); [done|].
  destruct (lookup_lt_is_Some_2 data (Z.to_nat (len data - 1 - n))) as [v ->]; [unfold len in *; lia|].
  destruct (lookup_lt_is_Some_2 data (Z.to_nat (len data - 1 - (n + m)))) as [w ->]; [unfold len in *; lia|done].
Qed.

Section simulation.
Context {H : Type} `{HH : Host H} `{HK : Keccak} `{HC : CreateAddress}.
Context (eof : Eof).
Context (Hlen : length (code_section (body eof)) = length (types_section (body eof))).
Context (Htypes : Forall valid_types (types_section (body eof))).
Context (Hbytes : Forall (Forall is_byte) (code_section (body eof))).
Context (Haccepted : forall k : nat, (k < length (code_section (body eof)))%nat -> accepted eof (fun _ => True) k).
Context (Hnr : non_returning_ok eof).

Lemma code_of_bytes k : Forall is_byte (code_of eof k).
Proof. unfold code_of. destruct (code_section (body eof) !! _) eqn:Hc; [by eapply Forall_lookup_1 in Hc|done]. Qed.

(** What one instruction leads to, with the host beside. *)
Definition instruction_leads (spec : SpecId) (c : Config) (op : Z) : Prop := forall i h,
  represents eof (fetched c) i ->
  match instruction spec op (i, h) with
  | (Ok _, (i', _)) => sound_result (instruction_result i') = true /\
      (running i' = true -> exists c', eof_step eof c c' /\ represents eof c' i')
  | (Err e, _) => sound_result e = true /\ e <> IR_Continue
  | (Panic, _) => ordinary op = true
  end.

(** An instruction on the interpreter that the table lists for [op]. *)
Lemma leads_on_int spec c op (m : IM unit) :
  instruction (H := H) spec op = on_int m -> (forall i, represents eof (fetched c) i -> leads eof c m i) ->
  instruction_leads spec c op.
Proof.
  intros Hin Hm i h Hi. specialize (Hm i Hi). rewrite Hin. unfold leads, reaches in Hm. unfold on_int, zoom. simpl.
  by destruct (m i) as [[| |] i'].
Qed.

(** An accepted configuration has a next height within the limit. *)
Lemma next_height c op info :
  config_typed eof c -> executes eof c op info -> op_terminating info = false -> op <> 0xE3 ->
  c_height c + height_change (types_section (body eof)) (code_of eof (c_section c)) (c_pc c) op info <= STACK_LIMIT.
Proof.
  intros Hc He Hterm Hop.
  pose proof (step_typed eof Hlen Htypes Hbytes Haccepted Hnr _ _ Hc (step_next eof c op info He Hterm Hop)) as Hc'.
  destruct (typed_runs_safely eof Hlen Hnr _ Hc') as (op' & info' & Hs'). exact (rs_height _ _ _ _ Hs').
Qed.

Lemma ordinary_leads spec c op info :
  config_typed eof c -> runs_safely eof c op info -> ordinary op = true -> instruction_leads spec c op.
Proof.
  intros Hc Hs Hop i h Hi. destruct Hs as [He Hen _ _ Hneed Hh _]. pose proof He as [Hix Hinfo].
  assert (Hne : op <> 0xE2 /\ op <> 0xE3 /\ op <> 0xE4 /\ op <> 0xE5 /\ op <> 0xE6 /\ op <> 0xE7 /\ op <> 0xE8).
  { unfold ordinary in Hop. apply negb_true_iff, bool_decide_eq_false in Hop. set_solver. }
  destruct Hne as (N2 & N3 & N4 & N5 & N6 & N7 & N8).
  assert (Hn : op_inputs info <= len (stack i)).
  { rewrite (rp_height _ _ _ Hi). simpl. unfold height_needed in Hneed.
    by rewrite !(proj2 (Z.eqb_neq op _)) in Hneed by done. }
  assert (Hr : ready (len (stack i)) i) by (split_and!; [apply Hi|apply Hi|done]).
  destruct (op_terminating info) eqn:Hterm.
  - pose proof (instruction_of_info never_goes_on spec op info Hinfo (terminating_table spec) Hop info Hinfo Hen Hterm _ Hn (i, h) Hr) as Ht.
    destruct (instruction spec op (i, h)) as [[[]|e|] [i' h']]; [|split; [by apply harmless_sound, Ht|apply Ht]|done].
    destruct Ht as [Hh' Ht]. split; [by apply harmless_sound|]. intros Hrun. destruct (Ht Hrun) as [_ Hneg].
    simpl in Hneg. pose proof (len_nonneg (stack i')). lia.
  - pose proof (next_height c op info Hc He Hterm N3) as Hroom. unfold height_change in Hroom.
    rewrite (proj2 (Z.eqb_neq op 0xE3) N3) in Hroom. pose proof (rp_height _ _ _ Hi) as HL. simpl in HL.
    pose proof (instruction_of_info follows_table spec op info Hinfo (heights_table spec) Hop info Hinfo Hen _ Hn
      ltac:(rewrite HL; exact Hroom) (i, h) Hr) as Ht.
    destruct (instruction spec op (i, h)) as [[[]|e|] [i' h']]; [|split; [by apply harmless_sound, Ht|apply Ht]|done].
    destruct Ht as [Hh' Ht]. split; [by apply harmless_sound|]. intros Hrun. destruct (Ht Hrun) as [[] HL'].
    eexists. split; [by apply (step_next _ _ _ _ He)|]. destruct Hi. cbn [fetched c_frames c_section c_pc c_height fst] in *.
    split; cbn [c_frames c_section c_pc c_height]; [done|congruence|unfold in_eof in *; congruence|congruence| | | |].
    + by rewrite st_functions.
    + by rewrite st_functions.
    + unfold instruction_width, extra_immediates. rewrite (proj2 (Z.eqb_neq op 0xE2) N2). lia.
    + unfold height_change. rewrite (proj2 (Z.eqb_neq op 0xE3) N3). congruence.
Qed.

(** A caller on the call stack is a section that exists. *)
Lemma caller_exists c info :
  config_typed eof c -> executes eof c 0xE4 info ->
  exists k j frames, c_frames c = (k, j) :: frames /\ 0 <= k < len (code_section (body eof)).
Proof.
  intros Hc He. destruct (retf_frame eof Hlen Hnr c info Hc He) as (k & j & fs & Hfr & [base T x _ _ [Hk _] _ _ _]).
  exists k, j, fs. split; [done|]. simpl in Hk. unfold len in *. lia.
Qed.

Lemma typed_leads spec c op info :
  config_typed eof c -> runs_safely eof c op info -> op <> 0xEC -> instruction_leads spec c op.
Proof.
  intros Hc Hs Hec. destruct (ordinary op) eqn:Hord; [by eapply ordinary_leads|].
  unfold ordinary in Hord. apply negb_false_iff, bool_decide_eq_true in Hord.
  pose proof (code_of_bytes (c_section c)) as Hb. pose proof (rs_executes _ _ _ _ Hs) as He. pose proof He as [Hix Hinfo].
  pose proof (rs_operands _ _ _ _ Hs) as Hneed.
  repeat (apply elem_of_cons in Hord as [Hop|Hord]); [..|by apply elem_of_nil in Hord].
  - subst. apply (leads_on_int _ _ _ control_rjump); [done|]. intros i. by eapply rjump_leads.
  - subst. apply (leads_on_int _ _ _ control_rjumpi); [done|]. intros i. by eapply rjumpi_leads.
  - subst. apply (leads_on_int _ _ _ control_rjumpv); [done|]. intros i. by eapply rjumpv_leads.
  - subst. apply (leads_on_int _ _ _ control_callf); [done|]. intros i. by eapply callf_leads.
  - subst. apply (leads_on_int _ _ _ control_retf); [done|]. intros i Hi.
    destruct (caller_exists c info Hc He) as (k & j & frames & Hfr & Hk). by eapply retf_leads.
  - subst. apply (leads_on_int _ _ _ control_jumpf); [done|]. intros i. by eapply jumpf_leads.
  - subst. apply (leads_on_int _ _ _ stack_dupn); [done|]. intros i Hi. injection Hinfo as <-.
    pose proof (next_height c _ _ Hc He eq_refl ltac:(done)) as Hroom. unfold height_change in Hroom. simpl in Hroom.
    unfold height_needed in Hneed. simpl in Hneed. destruct (byte_at_is_byte (code_of eof (c_section c)) (c_pc c + 1) Hb) as [Hb0 _].
    pose proof (rp_height _ _ _ Hi) as HL. simpl in HL.
    eapply (stack_operation_leads eof c) with (m := fun imm => Stack.dup (imm + 1)) (L' := c_height c + 1); try done.
    + apply stack_shifts_dup. lia.
    + apply dup_no_panic. lia.
  - subst. apply (leads_on_int _ _ _ stack_swapn); [done|]. intros i Hi. injection Hinfo as <-.
    unfold height_needed in Hneed. simpl in Hneed. destruct (byte_at_is_byte (code_of eof (c_section c)) (c_pc c + 1) Hb) as [Hb0 _].
    eapply (stack_operation_leads eof c) with (m := fun imm => Stack.swap (imm + 1)) (L' := c_height c); try done.
    + apply stack_shifts_exchange. lia.
    + apply exchange_no_panic; lia.
    + simpl. lia.
  - subst. apply (leads_on_int _ _ _ stack_exchange); [done|]. intros i Hi. injection Hinfo as <-.
    unfold height_needed in Hneed. simpl in Hneed. destruct (byte_at_is_byte (code_of eof (c_section c)) (c_pc c + 1) Hb) as [Hb0 _].
    assert (0 <= Z.shiftr (byte_at (code_of eof (c_section c)) (c_pc c + 1)) 4) by (by apply Z.shiftr_nonneg).
    assert (0 <= Z.land (byte_at (code_of eof (c_section c)) (c_pc c + 1)) 0x0F) by (apply Z.land_nonneg; by left).
    eapply (stack_operation_leads eof c)
      with (m := fun imm => Stack.exchange (Z.shiftr imm 4 + 1) (Z.land imm 0x0F + 1)) (L' := c_height c); try done.
    + apply stack_shifts_exchange. lia.
    + apply exchange_no_panic; lia.
    + simpl. lia.
  - done.
Qed.

(** The next instruction is not EOFCREATE. *)
Definition not_eofcreate (c : Config) : Prop :=
  index (E := EofValidationError) (code_of eof (c_section c)) (c_pc c) <> Ok 0xEC.

Lemma step_simulates spec c i h :
  config_typed eof c -> not_eofcreate c -> represents eof c i ->
  match step spec (i, h) with
  | (Ok _, (i', _)) => sound_result (instruction_result i') = true /\
      (running i' = true -> exists c', eof_step eof c c' /\ represents eof c' i')
  | (Err _, _) => False
  | (Panic, _) => exists op info, executes eof c op info /\ ordinary op = true
  end.
Proof.
  intros Hc Hec Hi. destruct (typed_runs_safely eof Hlen Hnr c Hc) as (op & info & Hs).
  pose proof (rs_executes _ _ _ _ Hs) as He. pose proof He as [Hix _].
  assert (Hne : op <> 0xEC) by (intros ->; done).
  assert (Hf : represents eof (fetched c) (set_pc (instruction_pointer i + 1) i)) by (by apply (represents_pc _ _ _ 1)).
  pose proof (typed_leads spec c op info Hc Hs Hne _ h Hf) as Hl.
  assert (Hfetch : index (E := Empty_set) (in_bytecode i) (instruction_pointer i) = Ok op).
  { rewrite (rp_code _ _ _ Hi), (rp_pc _ _ _ Hi). apply index_Ok. by apply index_Ok in Hix. }
  unfold step. rewrite (M_bind_ok (gets fst) _ (i, h) i (i, h) eq_refl).
  rewrite (M_bind_ok (lift _) _ (i, h) op (i, h)) by (unfold lift; by rewrite Hfetch).
  rewrite (M_bind_ok (modify _) _ (i, h) tt (set_pc (instruction_pointer i + 1) i, h) eq_refl). unfold settle_instruction.
  destruct (instruction spec op (set_pc (instruction_pointer i + 1) i, h)) as [[[]|e|] [i' h']].
  - done.
  - destruct Hl as [He1 He2]. split; [done|]. intros Hrun. unfold running in Hrun. simpl in Hrun.
    by apply bool_decide_eq_true in Hrun.
  - by exists op, info.
Qed.
End simulation.

Section run.
Context {H : Type} `{HH : Host H} `{HK : Keccak} `{HC : CreateAddress}.
Context (eof : Eof).
Context (Hlen : length (code_section (body eof)) = length (types_section (body eof))).
Context (Htypes : Forall valid_types (types_section (body eof))).
Context (Hbytes : Forall (Forall is_byte) (code_section (body eof))).
Context (Haccepted : forall k : nat, (k < length (code_section (body eof)))%nat -> accepted eof (fun _ => True) k).
Context (Hnr : non_returning_ok eof).

(** No section uses EOFCREATE. *)
Definition no_eofcreate : Prop := forall k i,
  0 <= k < len (types_section (body eof)) -> eof_start (code_of eof k) i ->
  index (E := EofValidationError) (code_of eof k) i <> Ok 0xEC.

Lemma typed_not_eofcreate c : no_eofcreate -> config_typed eof c -> not_eofcreate eof c.
Proof.
  intros Hno [base T x _ _ [Hk (acc & Hsec)] Hx _ _]. apply Hno; [done|].
  by destruct (tt_typed _ _ _ _ _ _ _ Hsec _ _ Hx) as (_ & Hst & _).
Qed.

Lemma run_loop_sound (spec : SpecId) (Hno : no_eofcreate) n : forall c i h,
  config_typed eof c -> represents eof c i ->
  match run_loop n spec (i, h) with
  | (Ok _, (i', _)) => sound_result (instruction_result i') = true
  | (Err _, _) => False
  | (Panic, _) => exists c' op info, rtc (eof_step eof) c c' /\ executes eof c' op info /\ ordinary op = true
  end.
Proof.
  assert (Hsound : forall c i, represents eof c i -> sound_result (instruction_result i) = true).
  { intros c i Hi. pose proof (rp_running _ _ _ Hi) as Hr. apply bool_decide_eq_true in Hr. by rewrite Hr. }
  induction n as [|n IH]; intros c i h Hc Hi; cbn [run_loop]; rewrite (M_bind_ok (gets fst) _ (i, h) i (i, h) eq_refl);
    rewrite (rp_running _ _ _ Hi); [by eapply Hsound|].
  pose proof (step_simulates eof Hlen Htypes Hbytes Haccepted Hnr spec c i h Hc (typed_not_eofcreate c Hno Hc) Hi) as Hs.
  unfold mbind at 1, M_bind at 1. destruct (step spec (i, h)) as [[[]|[]|] [i1 h1]].
  - destruct Hs as [Hs1 Hs2]. destruct (running i1) eqn:Hrun.
    + destruct (Hs2 eq_refl) as (c1 & Hstep & Hi1).
      pose proof (step_typed eof Hlen Htypes Hbytes Haccepted Hnr _ _ Hc Hstep) as Hc1.
      specialize (IH c1 i1 h1 Hc1 Hi1). destruct (run_loop n spec (i1, h1)) as [[b|e|] [i2 h2]]; [done|done|].
      destruct IH as (c' & op & info & Hrtc & He). exists c', op, info. split; [by eapply rtc_l|done].
    + assert (Hstop : run_loop n spec (i1, h1) = (Ok true, (i1, h1))).
      { destruct n; cbn [run_loop]; unfold mbind, M_bind, gets; simpl; by rewrite Hrun. }
      by rewrite Hstop.
  - destruct Hs as (op & info & He & Ho). by exists c, op, info.
Qed.
End run.

(** ** Theorems *)

(** A new interpreter on the container is at the entry of the machine. *)
Lemma new_represents {E} (ct : Contract) gas_limit is_static (i : Interpreter) eof :
  c_bytecode ct = BytecodeEof eof -> Interpreter_new (E := E) ct gas_limit is_static = Ok i ->
  represents eof eof_entry i.
Proof.
  intros Hb Hi. unfold Interpreter_new in Hi. rewrite Hb in Hi. cbn [is_execution_ready negb Bytecode_bytecode] in Hi.
  destruct (EofBody_code (body eof) 0) as [code|] eqn:Hc; [|done]. injection Hi as <-.
  split; try done; [by unfold in_eof; simpl; rewrite Hb|]. simpl. unfold code_of. unfold EofBody_code in Hc. change (Z.to_nat 0) with 0%nat. by rewrite Hc.
Qed.

(** C5: what EOF validation promises holds of the interpreter.  Run the first
    section of an accepted container, for any number of steps, on any host: the
    interpreter never stops with a stack underflow, an undefined opcode or an opcode
    that EOF code may not use; and a panic can only come from an ordinary
    instruction, never from a jump, CALLF, JUMPF, RETF, DUPN, SWAPN or EXCHANGE.
    RETF in a non-returning section, which the validator accepts, and EOFCREATE,
    which goes on without its result, are excluded by hypothesis. *)
Theorem accepted_container_executes_safely {H : Type} `{HH : Host H} `{HK : Keccak} `{HC : CreateAddress}
  (order : gset Z -> list Z) (fuel : nat) (raw : bytes) (eof : Eof)
  (Horder : forall s x, x ∈ order s <-> x ∈ s) (Hb : Forall is_byte raw)
  (Hv : validate_raw_eof order fuel raw = Ok (Some eof)) (Hnr : non_returning_ok eof) (Hno : no_eofcreate eof)
  (ct : Contract) (gas_limit : Z) (is_static : bool) (i : Interpreter)
  (Hct : c_bytecode ct = BytecodeEof eof) (Hi : Interpreter_new (E := Empty_set) ct gas_limit is_static = Ok i)
  (spec : SpecId) (n : nat) (h : H) :
  match run_loop n spec (i, h) with
  | (Ok _, (i', _)) => sound_result (instruction_result i') = true
  | (Err _, _) => False
  | (Panic, _) => exists c op info, rtc (eof_step eof) eof_entry c /\ executes eof c op info /\ ordinary op = true
  end.
Proof.
  destruct (validated_codes order fuel raw eof Hb Hv) as [Hd Hcodes].
  pose proof (decoded_types _ _ Hb Hd) as Htypes. destruct (decoded_bytes _ _ Hb Hd) as [Hbytes _].
  destruct (validated_first _ _ Hcodes) as (Hlen & Hn & Hi0 & Ho).
  pose proof (safely_elim _ _ _ (validate_eof_codes_safely order Horder eof Hbytes Hlen) Hcodes) as Hacc0.
  assert (Hacc : forall k, (k < length (code_section (body eof)))%nat -> accepted eof (fun _ => True) k) by (intros; by apply Hacc0).
  apply run_loop_sound; try done; [by apply entry_typed|]. by eapply new_represents.
Qed.

Lemma sample_no_eofcreate : no_eofcreate sample_eof.
Proof.
  intros k i Hk _ Hop%index_in. assert (k = 0 \/ k = 1) as [->| ->] by (unfold len in Hk; simpl in Hk; lia);
    simpl in Hop; repeat (apply elem_of_cons in Hop as [Hop|Hop]; [done|]); by apply elem_of_nil in Hop.
Qed.

#[local] Existing Instances sample_host sample_keccak sample_create_address.

Lemma accepted_container_executes_safely_witness :
  match Interpreter_new (E := Empty_set) (Contract_new [] (BytecodeEof sample_eof) None 1 2 []) 1000 false with
  | Ok i => match run_loop (H := unit) 10 CANCUN (i, tt) with
            | (Ok b, (i', _)) => b = true /\ instruction_result i' = IR_Stop /\ sound_result (instruction_result i') = true
            | _ => False
            end
  | _ => False
  end.
Proof.
  pose (ct := Contract_new [] (BytecodeEof sample_eof) None 1 2 []).
  destruct (Interpreter_new (E := Empty_set) ct 1000 false) as [i| |] eqn:Hi; [|vm_compute in Hi; discriminate Hi..].
  pose proof (accepted_container_executes_safely elements 20 sample_container sample_eof
    (fun s x => elem_of_elements s x) sample_container_bytes sample_container_valid sample_non_returning sample_no_eofcreate
    ct 1000 false i eq_refl Hi CANCUN 10 tt) as H.
  vm_compute in Hi. injection Hi as <-. vm_compute in H. vm_compute. split; [reflexivity|]. split; [reflexivity|exact H].
Defined.

Definition retf_body : EofBody :=
  mkEofBody [mkTypesSection 0 128 128] [replicate 128 0x5F ++ [0xE4]] [] [] true.

(** The validator accepts a RETF in a section declared as non-returning, when
    the height is the 128 that stands for it: the container decodes and validates,
    and the interpreter panics on the missing frame after 129 steps. *)
Theorem retf_without_caller_is_accepted :
  is_ok (validate_raw_eof elements 200 (raw (EofBody_into_eof retf_body))) = true /\
  match Interpreter_new (E := Empty_set) (Contract_new [] (BytecodeEof (EofBody_into_eof retf_body)) None 1 2 []) 1000 false with
  | Ok i => (run_loop (H := unit) 129 CANCUN (i, tt)).1 = Panic
  | _ => False
  end.
Proof. vm_compute. split; reflexivity. Qed.
