(* ===== verification/DbAccounts.v ===== *)
(** Accounts of the cache, and the transitions they make:
    [plain_account.rs], [cache_account.rs], [transition_account.rs],
    [transition_state.rs] and [cache.rs] of [crates/revm/src/db/states/].

    A loop over the entries of a [HashMap] that updates another one key by key is
    a [merge] of the two maps: the keys are distinct, so the order of the iterator
    does not matter.

    First the status of an account between the database and the block,
    [account_status.rs]: a transition that the source declares [unreachable!] is a
    [Panic]. *)

From S2P Require Import Prelude Bytes Eof Bytecode State.

(** ** [account_status.rs] *)

Inductive AccountStatus : Type :=
  | LoadedNotExisting | Loaded | LoadedEmptyEIP161 | InMemoryChange
  | Changed | Destroyed | DestroyedChanged | DestroyedAgain.

#[export] Instance AccountStatus_eq_dec : EqDecision AccountStatus.
Proof. solve_decision. Defined.

Definition AccountStatus_default : AccountStatus := LoadedNotExisting.

Definition is_not_modified (s : AccountStatus) : bool :=
  match s with LoadedNotExisting | Loaded | LoadedEmptyEIP161 => true | _ => false end.

Definition was_destroyed (s : AccountStatus) : bool :=
  match s with Destroyed | DestroyedChanged | DestroyedAgain => true | _ => false end.

Definition is_storage_known (s : AccountStatus) : bool :=
  match s with
  | LoadedNotExisting | InMemoryChange | Destroyed | DestroyedChanged | DestroyedAgain => true
  | _ => false
  end.

Definition is_modified_and_not_destroyed (s : AccountStatus) : bool :=
  match s with Changed | InMemoryChange => true | _ => false end.

Definition on_created (s : AccountStatus) : AccountStatus :=
  match s with
  | DestroyedAgain | Destroyed | DestroyedChanged => DestroyedChanged
  | LoadedNotExisting | LoadedEmptyEIP161 | Loaded | Changed | InMemoryChange => InMemoryChange
  end.

Definition on_touched_empty_post_eip161 {E} (s : AccountStatus) : outcome E AccountStatus :=
  match s with
  | LoadedNotExisting => Ok LoadedNotExisting
  | InMemoryChange | Destroyed | LoadedEmptyEIP161 => Ok Destroyed
  | DestroyedAgain | DestroyedChanged => Ok DestroyedAgain
  | Loaded | Changed => Panic
  end.

Definition on_touched_created_pre_eip161 {E} (s : AccountStatus) (had_no_info : bool)
  : outcome E (option AccountStatus) :=
  match s with
  | LoadedEmptyEIP161 => Ok None
  | DestroyedChanged => if had_no_info then Ok None else Ok (Some DestroyedChanged)
  | Destroyed | DestroyedAgain => Ok (Some DestroyedChanged)
  | InMemoryChange | LoadedNotExisting => Ok (Some InMemoryChange)
  | Loaded | Changed => Panic
  end.

Definition on_changed (s : AccountStatus) (had_no_nonce_and_code : bool) : AccountStatus :=
  match s with
  | LoadedNotExisting => InMemoryChange
  | LoadedEmptyEIP161 => InMemoryChange
  | Loaded => if had_no_nonce_and_code then InMemoryChange else Changed
  | Changed => Changed
  | InMemoryChange => InMemoryChange
  | DestroyedChanged => DestroyedChanged
  | Destroyed | DestroyedAgain => DestroyedChanged
  end.

Definition on_selfdestructed (s : AccountStatus) : AccountStatus :=
  match s with
  | LoadedNotExisting => LoadedNotExisting
  | DestroyedChanged | DestroyedAgain | Destroyed => DestroyedAgain
  | _ => Destroyed
  end.

(** [transition] of [self] to [other]. *)
Definition transition (self other : AccountStatus) : AccountStatus :=
  match was_destroyed self, was_destroyed other with
  | true, false => DestroyedChanged
  | false, false => if bool_decide (self = InMemoryChange) then InMemoryChange else other
  | _, _ => other
  end.

(** ** What the predicates say of the transitions *)

(** Whether an account with this status exists; [is_some] of [CacheAccount]. *)
Definition status_exists (s : AccountStatus) : bool :=
  match s with Changed | InMemoryChange | DestroyedChanged | Loaded | LoadedEmptyEIP161 => true | _ => false end.

(** The status after a step of the cache: a change, a creation, a selfdestruct or
    a touch of an account that is empty, before and after EIP-161. *)
Inductive status_step : AccountStatus -> AccountStatus -> Prop :=
  | step_changed s b : status_step s (on_changed s b)
  | step_created s : s <> Changed -> status_step s (on_created s)
  | step_selfdestructed s : status_step s (on_selfdestructed s)
  | step_touched_empty s s' : on_touched_empty_post_eip161 (E := Empty_set) s = Ok s' -> status_step s s'
  | step_touched_created s b s' : on_touched_created_pre_eip161 (E := Empty_set) s b = Ok (Some s') -> status_step s s'.

(** What several steps lead to. *)
Definition status_leads (s s' : AccountStatus) : bool :=
  bool_decide (s = s') ||
  match s, s' with
  | LoadedNotExisting, (InMemoryChange | Destroyed | DestroyedChanged | DestroyedAgain) => true
  | Loaded, (InMemoryChange | Changed | Destroyed | DestroyedChanged | DestroyedAgain) => true
  | LoadedEmptyEIP161, (InMemoryChange | Destroyed | DestroyedChanged | DestroyedAgain) => true
  | InMemoryChange, (Destroyed | DestroyedChanged | DestroyedAgain) => true
  | Changed, (Destroyed | DestroyedChanged | DestroyedAgain) => true
  | Destroyed, (DestroyedChanged | DestroyedAgain) => true
  | DestroyedChanged, DestroyedAgain => true
  | DestroyedAgain, DestroyedChanged => true
  | _, _ => false
  end.

Lemma status_step_leads s s' : status_step s s' -> status_leads s s' = true.
Proof.
  destruct 1 as [[] []|[]|[]|[] s' H|[] [] s' H]; try done; simpl in H; by simplify_eq.
Qed.
Lemma status_leads_trans s1 s2 s3 : status_leads s1 s2 = true -> status_leads s2 s3 = true -> status_leads s1 s3 = true.
Proof. by destruct s1, s2, s3. Qed.
Lemma status_leads_refl s : status_leads s s = true.
Proof. by destruct s. Qed.

(** The life cycle of an account between two writes to the database: however
    many changes, creations, selfdestructs and touches happen, the status that
    results is in the table; a status that records a destruction is never left for
    one that does not. *)
Theorem status_steps_lead (s s' : AccountStatus) (Hs : rtc status_step s s') :
  status_leads s s' = true /\ (was_destroyed s = true -> was_destroyed s' = true) /\
  (is_storage_known s = true -> is_storage_known s' = true).
Proof.
  assert (H : status_leads s s' = true).
  { induction Hs; [apply status_leads_refl|]. eapply status_leads_trans; [|done]. by apply status_step_leads. }
  split; [done|]. by destruct s, s'.
Qed.

Lemma status_steps_lead_witness :
  rtc status_step Loaded DestroyedChanged /\ status_leads Loaded DestroyedChanged = true.
Proof.
  assert (H : rtc status_step Loaded DestroyedChanged).
  { eapply rtc_l; [apply (step_selfdestructed Loaded)|]. apply rtc_once, (step_changed Destroyed true). }
  split; [exact H|]. exact (proj1 (status_steps_lead _ _ H)).
Defined.

(** ** [plain_account.rs] *)

Record StorageSlot : Type := mkStorageSlot { previous_or_original_value : Z; slot_present : Z }.

#[export] Instance StorageSlot_eq_dec : EqDecision StorageSlot.
Proof. solve_decision. Defined.

Definition StorageSlot_new (original : Z) : StorageSlot := mkStorageSlot original original.
Definition StorageSlot_new_changed (previous present : Z) : StorageSlot := mkStorageSlot previous present.
Definition StorageSlot_is_changed (s : StorageSlot) : bool :=
  negb (previous_or_original_value s =? slot_present s).
(** [From<EvmStorageSlot>]. *)
Definition StorageSlot_from (s : EvmStorageSlot) : StorageSlot :=
  StorageSlot_new_changed (original_value s) (present_value s).

Abbreviation StorageWithOriginalValues := (gmap Z StorageSlot).
Abbreviation PlainStorage := (gmap Z Z).

Record PlainAccount : Type := mkPlainAccount { pa_info : AccountInfo; pa_storage : PlainStorage }.
Definition PlainAccount_default : PlainAccount := mkPlainAccount AccountInfo_default ∅.
Definition PlainAccount_new_empty_with_storage (s : PlainStorage) : PlainAccount :=
  mkPlainAccount AccountInfo_default s.
Definition PlainAccount_from (i : AccountInfo) : PlainAccount := mkPlainAccount i ∅.
Definition PlainAccount_into_components (a : PlainAccount) : AccountInfo * PlainStorage := (pa_info a, pa_storage a).

(** [.iter().map(|(k, s)| (k, s.present_value)).collect()]. *)
Definition present_values (s : StorageWithOriginalValues) : PlainStorage := slot_present <$> s.

(** ** [transition_account.rs] *)

Record TransitionAccount : Type := mkTransitionAccount {
  ta_info : option AccountInfo;
  ta_status : AccountStatus;
  ta_previous_info : option AccountInfo;
  ta_previous_status : AccountStatus;
  ta_storage : StorageWithOriginalValues;
  ta_storage_was_destroyed : bool;
}.

Definition TransitionAccount_new_empty_eip161 (s : StorageWithOriginalValues) : TransitionAccount :=
  mkTransitionAccount (Some AccountInfo_default) InMemoryChange None LoadedNotExisting s false.

Definition has_new_contract (t : TransitionAccount) : option (Z * Bytecode) :=
  if bool_decide ((code_hash <$> ta_info t) = (code_hash <$> ta_previous_info t)) then None
  else i ← ta_info t; c ← code i; Some (code_hash i, c).

Definition previous_balance (t : TransitionAccount) : Z := default 0 (get_base_balance <$> ta_previous_info t).
Definition current_balance (t : TransitionAccount) : Z := default 0 (get_base_balance <$> ta_info t).

(** The difference as a signed word, when it fits one. *)
Definition balance_delta (t : TransitionAccount) : option Z :=
  let delta := Z.abs (previous_balance t - current_balance t) in
  if delta <? 2 ^ 255 then
    if previous_balance t <=? current_balance t then Some delta else Some (- delta)
  else None.

(** One slot of the later transition against the earlier one. *)
Definition update_slot (this other : option StorageSlot) : option StorageSlot :=
  match other with
  | None => this
  | Some slot =>
      match this with
      | None => Some slot
      | Some value =>
          if previous_or_original_value value =? slot_present slot then None
          else Some (mkStorageSlot (previous_or_original_value value) (slot_present slot))
      end
  end.

(** [update]: the transition followed by [other]. *)
Definition TransitionAccount_update (other t : TransitionAccount) : TransitionAccount :=
  match ta_status other with
  | Destroyed | DestroyedAgain =>
      mkTransitionAccount (ta_info other) (ta_status other) (ta_previous_info t) (ta_previous_status t)
        (ta_storage other) true
  | _ =>
      mkTransitionAccount (ta_info other) (ta_status other) (ta_previous_info t) (ta_previous_status t)
        (merge update_slot (ta_storage t) (ta_storage other)) (ta_storage_was_destroyed t)
  end.

(** ** [cache_account.rs] *)

Record CacheAccount : Type := mkCacheAccount { ca_account : option PlainAccount; ca_status : AccountStatus }.

Definition CacheAccount_new_loaded (i : AccountInfo) (s : PlainStorage) : CacheAccount :=
  mkCacheAccount (Some (mkPlainAccount i s)) Loaded.
Definition CacheAccount_new_loaded_empty_eip161 (s : PlainStorage) : CacheAccount :=
  mkCacheAccount (Some (PlainAccount_new_empty_with_storage s)) LoadedEmptyEIP161.
Definition CacheAccount_new_loaded_not_existing : CacheAccount := mkCacheAccount None LoadedNotExisting.
Definition CacheAccount_new_newly_created (i : AccountInfo) (s : PlainStorage) : CacheAccount :=
  mkCacheAccount (Some (mkPlainAccount i s)) InMemoryChange.
Definition CacheAccount_new_destroyed : CacheAccount := mkCacheAccount None Destroyed.
Definition CacheAccount_new_changed (i : AccountInfo) (s : PlainStorage) : CacheAccount :=
  mkCacheAccount (Some (mkPlainAccount i s)) Changed.

Definition CacheAccount_is_some (a : CacheAccount) : bool := status_exists (ca_status a).
Definition CacheAccount_storage_slot (a : CacheAccount) (slot : Z) : option Z :=
  acc ← ca_account a; pa_storage acc !! slot.
Definition CacheAccount_account_info (a : CacheAccount) : option AccountInfo := pa_info <$> ca_account a.

(** The info, the storage when the account exists, and the status. *)
Definition CacheAccount_into_components (a : CacheAccount) : option (AccountInfo * PlainStorage) * AccountStatus :=
  (PlainAccount_into_components <$> ca_account a, ca_status a).

Section cache_account.
Context {E : Type}.
Abbreviation CM := (M CacheAccount E).

Definition touch_create_pre_eip161 (storage : StorageWithOriginalValues) : CM (option TransitionAccount) := fun a =>
  let previous_status := ca_status a in
  let had_no_info := default false (info_is_empty <$> CacheAccount_account_info a) in
  match on_touched_created_pre_eip161 previous_status had_no_info with
  | Ok None => (Ok None, a)
  | Ok (Some status) =>
      (Ok (Some (mkTransitionAccount (Some AccountInfo_default) status (CacheAccount_account_info a) previous_status
         storage false)),
       mkCacheAccount (Some (PlainAccount_new_empty_with_storage (present_values storage))) status)
  | Err e => (Err e, a)
  | Panic => (Panic, a)
  end.

(** The account is taken before the status is computed. *)
Definition touch_empty_eip161 : CM (option TransitionAccount) := fun a =>
  let previous_status := ca_status a in
  let previous_info := CacheAccount_account_info a in
  match on_touched_empty_post_eip161 previous_status with
  | Ok status =>
      (Ok match previous_status with
          | LoadedNotExisting | Destroyed | DestroyedAgain => None
          | _ => Some (mkTransitionAccount None status previous_info previous_status ∅ true)
          end, mkCacheAccount None status)
  | Err e => (Err e, mkCacheAccount None previous_status)
  | Panic => (Panic, mkCacheAccount None previous_status)
  end.
End cache_account.

Definition selfdestruct (a : CacheAccount) : option TransitionAccount * CacheAccount :=
  let previous_status := ca_status a in
  let status := on_selfdestructed previous_status in
  (if bool_decide (previous_status = LoadedNotExisting) then None
   else Some (mkTransitionAccount None status (CacheAccount_account_info a) previous_status ∅ true),
   mkCacheAccount None status).

Definition newly_created (new_info : AccountInfo) (new_storage : StorageWithOriginalValues) (a : CacheAccount)
  : TransitionAccount * CacheAccount :=
  let status := on_created (ca_status a) in
  (mkTransitionAccount (Some new_info) status (CacheAccount_account_info a) (ca_status a) new_storage false,
   mkCacheAccount (Some (mkPlainAccount new_info (present_values new_storage))) status).

(** [account_info_change]: a change of the info that answers something. *)
Definition account_info_change {T} (change : AccountInfo -> T * AccountInfo) (a : CacheAccount)
  : T * TransitionAccount * CacheAccount :=
  let previous_info := CacheAccount_account_info a in
  let account := default PlainAccount_default (ca_account a) in
  let '(output, info) := change (pa_info account) in
  let status := on_changed (ca_status a) (default false (has_no_code_and_nonce <$> previous_info)) in
  (output, mkTransitionAccount (Some info) status previous_info (ca_status a) ∅ false,
   mkCacheAccount (Some (mkPlainAccount info (pa_storage account))) status).

Definition CacheAccount_increment_balance (token_id value : Z) (a : CacheAccount)
  : option TransitionAccount * CacheAccount :=
  if value =? 0 then (None, a)
  else
    let '(_, t, a) := account_info_change (fun i => (tt, increase_balance token_id value i)) a in
    (Some t, a).
Definition CacheAccount_increment_base_balance : Z -> CacheAccount -> option TransitionAccount * CacheAccount :=
  CacheAccount_increment_balance BASE_TOKEN_ID.

(** The balance drained; the conversion to [u128] panics on a bigger one. *)
Definition drain_balance {E} (token_id : Z) (a : CacheAccount) : outcome E (Z * TransitionAccount * CacheAccount) :=
  let '(output, t, a) := account_info_change (fun i => (get_balance i token_id, set_balance token_id 0 i)) a in
  if output <? 2 ^ 128 then Ok (output, t, a) else Panic.
Definition drain_base_balance {E} : CacheAccount -> outcome E (Z * TransitionAccount * CacheAccount) :=
  drain_balance BASE_TOKEN_ID.

(** [extend] overwrites the slots that change. *)
Definition CacheAccount_change (new : AccountInfo) (storage : StorageWithOriginalValues) (a : CacheAccount)
  : TransitionAccount * CacheAccount :=
  let previous_info := CacheAccount_account_info a in
  let this_storage := default ∅ (pa_storage <$> ca_account a) in
  let status := on_changed (ca_status a) (default false (has_no_code_and_nonce <$> previous_info)) in
  (mkTransitionAccount (Some new) status previous_info (ca_status a) storage false,
   mkCacheAccount (Some (mkPlainAccount new (present_values storage ∪ this_storage))) status).

(** ** [transition_state.rs] *)

Abbreviation Transitions := (gmap Address TransitionAccount).

Definition TransitionState_single (a : Address) (t : TransitionAccount) : Transitions := {[ a := t ]}.
(** [take] leaves the default behind. *)
Definition TransitionState_take (s : Transitions) : Transitions * Transitions := (s, ∅).

Definition add_transition (s : Transitions) (p : Address * TransitionAccount) : Transitions :=
  match s !! p.1 with
  | Some entry => <[ p.1 := TransitionAccount_update p.2 entry ]> s
  | None => <[ p.1 := p.2 ]> s
  end.
Definition add_transitions (transitions : list (Address * TransitionAccount)) (s : Transitions) : Transitions :=
  foldl add_transition s transitions.

(** ** [cache.rs] *)

Record CacheState : Type := mkCacheState {
  cs_accounts : gmap Address CacheAccount;
  cs_contracts : gmap Z Bytecode;
  has_state_clear : bool;
}.

Definition CacheState_new (has_state_clear : bool) : CacheState := mkCacheState ∅ ∅ has_state_clear.
Definition CacheState_default : CacheState := CacheState_new true.
Definition set_state_clear_flag (b : bool) (s : CacheState) : CacheState :=
  mkCacheState (cs_accounts s) (cs_contracts s) b.
Definition set_cs_accounts (f : gmap Address CacheAccount -> gmap Address CacheAccount) (s : CacheState) : CacheState :=
  mkCacheState (f (cs_accounts s)) (cs_contracts s) (has_state_clear s).
Definition set_cs_contracts (f : gmap Z Bytecode -> gmap Z Bytecode) (s : CacheState) : CacheState :=
  mkCacheState (cs_accounts s) (f (cs_contracts s)) (has_state_clear s).

(** The accounts that exist, with their addresses. *)
Definition trie_account (s : CacheState) : gmap Address PlainAccount := omap ca_account (cs_accounts s).

Definition CacheState_insert_not_existing (a : Address) : CacheState -> CacheState :=
  set_cs_accounts (<[ a := CacheAccount_new_loaded_not_existing ]>).
Definition CacheState_insert_account_with_storage (a : Address) (i : AccountInfo) (storage : PlainStorage)
  : CacheState -> CacheState :=
  let account := if negb (info_is_empty i) then CacheAccount_new_loaded i storage
                 else CacheAccount_new_loaded_empty_eip161 storage in
  set_cs_accounts (<[ a := account ]>).
Definition CacheState_insert_account (a : Address) (i : AccountInfo) : CacheState -> CacheState :=
  CacheState_insert_account_with_storage a i ∅.

(** The slots of an account that changed, with their values before. *)
Definition changed_storage (a : Account) : StorageWithOriginalValues :=
  StorageSlot_from <$> changed_storage_slots a.

Section cache_state.
Context {E : Type}.

(** What happens to the entry of a touched account; [Panic] when the cache has
    not loaded it. *)
Definition apply_to_cache_account (has_state_clear : bool) (account : Account)
  : M CacheAccount E (option TransitionAccount) := fun this =>
  if is_selfdestructed account then
    let '(t, this) := selfdestruct this in (Ok t, this)
  else
    let changed := changed_storage account in
    if is_created account then
      let '(t, this) := newly_created (info account) changed this in (Ok (Some t), this)
    else if Account_is_empty account then
      if has_state_clear then touch_empty_eip161 this else touch_create_pre_eip161 changed this
    else
      let '(t, this) := CacheAccount_change (info account) changed this in (Ok (Some t), this).

Definition apply_account_state (address : Address) (account : Account)
  : M CacheState E (option TransitionAccount) := fun s =>
  if negb (is_touched account) then (Ok None, s)
  else
    match cs_accounts s !! address with
    | None => (Panic, s)
    | Some this =>
        let '(r, this) := apply_to_cache_account (has_state_clear s) account this in
        (r, set_cs_accounts (<[ address := this ]>) s)
    end.

(** [accounts] lists the entries of the map of the state, as its iterator does. *)
Fixpoint apply_evm_accounts (accounts : list (Address * Account)) : M CacheState E (list (Address * TransitionAccount)) :=
  match accounts with
  | [] => mret []
  | (address, account) :: rest =>
      t ← apply_account_state address account;
      ts ← apply_evm_accounts rest;
      mret (match t with Some t => (address, t) :: ts | None => ts end)
  end.
End cache_state.

(** The order in which a [HashMap] is iterated is not specified. *)
Class MapIteration : Type := {
  entries {A} : gmap Z A -> list (Z * A);
  entries_perm {A} (m : gmap Z A) : entries m ≡ₚ map_to_list m;
}.
Definition sorted_entries : MapIteration := {| entries _ m := map_to_list m; entries_perm _ m := reflexivity _ |}.

Definition apply_evm_state `{MapIteration} {E} (evm_state : EvmState)
  : M CacheState E (list (Address * TransitionAccount)) :=
  apply_evm_accounts (entries (accounts evm_state)).
