(* ===== verification/DbBundleAccount.v ===== *)
(** Accounts of a bundle and their reverts: [bundle_account.rs] and the
    per-account half of [reverts.rs] in [crates/revm/src/db/states/], with the
    methods of [transition_account.rs] and [cache_account.rs] that make one. *)

From S2P Require Import Prelude.
From S2P Require Import Bytes.
From S2P Require Import Eof.
From S2P Require Import Bytecode.
From S2P Require Import State.
From S2P Require Import DbAccounts.

(** ** [reverts.rs] *)

Inductive AccountInfoRevert : Type :=
  | DoNothing
  | DeleteIt
  | RevertTo (i : AccountInfo).
Inductive RevertToSlot : Type :=
  | RevertToSlot_Some (v : Z)
  | RevertToSlot_Destroyed.

Definition to_previous_value (r : RevertToSlot) : Z :=
  match r with RevertToSlot_Some v => v | RevertToSlot_Destroyed => 0 end.

Record AccountRevert : Type := mkAccountRevert {
  ar_account : AccountInfoRevert;
  ar_storage : gmap Z RevertToSlot;
  ar_previous_status : AccountStatus;
  ar_wipe_storage : bool;
}.

Definition AccountRevert_size_hint (r : AccountRevert) : Z := 1 + Z.of_nat (size (ar_storage r)).

Definition AccountRevert_is_empty (r : AccountRevert) : bool :=
  match ar_account r with DoNothing => true | _ => false end
  && bool_decide (ar_storage r = ∅) && negb (ar_wipe_storage r).

(** The values of the storage, to go back to. *)
Definition revert_to_present (s : StorageWithOriginalValues) : gmap Z RevertToSlot :=
  (fun v => RevertToSlot_Some (slot_present v)) <$> s.
(** [.entry(key).or_insert(Destroyed)] for every key of [updated]. *)
Definition revert_new_slots (updated : StorageWithOriginalValues) (r : gmap Z RevertToSlot) : gmap Z RevertToSlot :=
  r ∪ ((fun _ => RevertToSlot_Destroyed) <$> updated).

Definition new_selfdestructed_again (status : AccountStatus) (account : AccountInfoRevert)
  (previous_storage updated_storage : StorageWithOriginalValues) : AccountRevert :=
  mkAccountRevert account (revert_new_slots updated_storage (revert_to_present previous_storage)) status false.

Definition new_selfdestructed (status : AccountStatus) (account : AccountInfoRevert) (storage : StorageWithOriginalValues)
  : AccountRevert :=
  mkAccountRevert account (revert_to_present storage) status true.

(** ** [bundle_account.rs] *)

Record BundleAccount : Type := mkBundleAccount {
  ba_info : option AccountInfo;
  ba_original_info : option AccountInfo;
  ba_storage : StorageWithOriginalValues;
  ba_status : AccountStatus;
}.

Definition BundleAccount_new (original_info present_info : option AccountInfo) (s : StorageWithOriginalValues)
  (status : AccountStatus) : BundleAccount := mkBundleAccount present_info original_info s status.

Definition BundleAccount_size_hint (b : BundleAccount) : Z := 1 + Z.of_nat (size (ba_storage b)).

Definition BundleAccount_storage_slot (b : BundleAccount) (slot : Z) : option Z :=
  match ba_storage b !! slot with
  | Some s => Some (slot_present s)
  | None => if is_storage_known (ba_status b) then Some 0 else None
  end.
Definition BundleAccount_account_info (b : BundleAccount) : option AccountInfo := ba_info b.
Definition BundleAccount_was_destroyed (b : BundleAccount) : bool := was_destroyed (ba_status b).

(** The derived equality of [Option<AccountInfo>], on that of [AccountInfo]. *)
Definition info_eqb (a b : option AccountInfo) : bool :=
  match a, b with
  | Some a, Some b => AccountInfo_eqb a b
  | None, None => true
  | _, _ => false
  end.
Definition is_info_changed (b : BundleAccount) : bool := negb (info_eqb (ba_info b) (ba_original_info b)).
Definition is_contract_changed (b : BundleAccount) : bool :=
  bool_decide ((code_hash <$> ba_info b) <> (code_hash <$> ba_original_info b)).

(** One slot of a revert. *)
Definition revert_slot (this : option StorageSlot) (r : option RevertToSlot) : option StorageSlot :=
  match r with
  | None => this
  | Some (RevertToSlot_Some value) =>
      match this with
      | Some s => Some (mkStorageSlot (previous_or_original_value s) value)
      | None => Some (StorageSlot_new value)
      end
  | Some RevertToSlot_Destroyed => None
  end.

(** Whether the account has to be removed, and the account. *)
Definition BundleAccount_revert (r : AccountRevert) (b : BundleAccount) : bool * BundleAccount :=
  let revert_storage info :=
    (false, mkBundleAccount info (ba_original_info b) (merge revert_slot (ba_storage b) (ar_storage r)) (ar_previous_status r)) in
  match ar_account r with
  | DoNothing => revert_storage (ba_info b)
  | DeleteIt =>
      match ba_original_info b with
      | None => (true, mkBundleAccount None None ∅ (ar_previous_status r))
      | Some _ =>
          (false, mkBundleAccount None (ba_original_info b)
             ((fun v => mkStorageSlot (previous_or_original_value v) 0) <$> ba_storage b) (ar_previous_status r))
      end
  | RevertTo i => revert_storage (Some i)
  end.

(** [extend_storage]: the present values of the update, the first values of this. *)
Definition extend_slot (this update : option StorageSlot) : option StorageSlot :=
  match update with
  | None => this
  | Some u =>
      match this with
      | Some s => Some (mkStorageSlot (previous_or_original_value s) (slot_present u))
      | None => Some u
      end
  end.
Definition extend_storage (this update : StorageWithOriginalValues) : StorageWithOriginalValues :=
  merge extend_slot this update.

Definition previous_storage_from_update (updated : StorageWithOriginalValues) : gmap Z RevertToSlot :=
  omap (fun s => if StorageSlot_is_changed s then Some (RevertToSlot_Some (previous_or_original_value s)) else None) updated.

Definition new_selfdestructed_from_bundle (account_info_revert : AccountInfoRevert) (b : BundleAccount)
  (updated_storage : StorageWithOriginalValues) : option AccountRevert :=
  match ba_status b with
  | InMemoryChange | Changed | LoadedEmptyEIP161 | Loaded =>
      let r := new_selfdestructed_again (ba_status b) account_info_revert (ba_storage b) updated_storage in
      Some (mkAccountRevert (ar_account r) (ar_storage r) (ar_previous_status r) true)
  | _ => None
  end.

Section update.
Context {E : Type}.

Abbreviation update_result := (outcome E (option AccountRevert * BundleAccount)).

Definition update_to_changed (info_revert : AccountInfoRevert) (t : TransitionAccount) (b : BundleAccount) : update_result :=
  let previous_storage := previous_storage_from_update (ta_storage t) in
  let finish storage :=
    Ok (Some (mkAccountRevert info_revert previous_storage (ba_status b) false),
        mkBundleAccount (ta_info t) (ba_original_info b) storage Changed) in
  match ba_status b with
  | Changed | Loaded => finish (extend_storage (ba_storage b) (ta_storage t))
  | LoadedEmptyEIP161 => finish (ba_storage b)
  | _ => Panic
  end.

Definition update_to_in_memory (info_revert : AccountInfoRevert) (t : TransitionAccount) (b : BundleAccount) : update_result :=
  let previous_storage := previous_storage_from_update (ta_storage t) in
  let finish in_memory_info_revert storage :=
    Ok (Some (mkAccountRevert in_memory_info_revert previous_storage (ba_status b) false),
        mkBundleAccount (ta_info t) (ba_original_info b) storage InMemoryChange) in
  match ba_status b with
  | Loaded | InMemoryChange => finish info_revert (extend_storage (ba_storage b) (ta_storage t))
  | LoadedEmptyEIP161 => finish info_revert (ta_storage t)
  | LoadedNotExisting => finish DeleteIt (ta_storage t)
  | _ => Panic
  end.

(** The storage is drained on every path. *)
Definition update_to_destroyed (info_revert : AccountInfoRevert) (b : BundleAccount) : update_result :=
  match ba_status b with
  | InMemoryChange | Changed | Loaded | LoadedEmptyEIP161 =>
      Ok (Some (new_selfdestructed (ba_status b) info_revert (ba_storage b)),
          mkBundleAccount None (ba_original_info b) ∅ Destroyed)
  | LoadedNotExisting => Ok (None, mkBundleAccount (ba_info b) (ba_original_info b) ∅ (ba_status b))
  | _ => Panic
  end.

Definition update_to_destroyed_changed (info_revert : AccountInfoRevert) (t : TransitionAccount) (b : BundleAccount)
  : update_result :=
  let updated := ta_storage t in
  match new_selfdestructed_from_bundle info_revert b updated with
  | Some r => Ok (Some r, mkBundleAccount (ta_info t) (ba_original_info b) updated DestroyedChanged)
  | None =>
      let finish r storage :=
        Ok (Some r, mkBundleAccount (ta_info t) (ba_original_info b) (extend_storage storage updated) DestroyedChanged) in
      match ba_status b with
      | Destroyed | LoadedNotExisting =>
          finish (mkAccountRevert DeleteIt (previous_storage_from_update updated) (ba_status b) false) (ba_storage b)
      | DestroyedChanged =>
          if ta_storage_was_destroyed t then
            finish (mkAccountRevert info_revert (revert_new_slots updated (revert_to_present (ba_storage b)))
                      DestroyedChanged false) ∅
          else
            finish (mkAccountRevert info_revert (previous_storage_from_update updated) DestroyedChanged false) (ba_storage b)
      | DestroyedAgain =>
          finish (new_selfdestructed_again DestroyedAgain DeleteIt ∅ updated) (ba_storage b)
      | _ => Panic
      end
  end.

Definition update_to_destroyed_again (info_revert : AccountInfoRevert) (b : BundleAccount) : update_result :=
  let finish r := Ok (r, mkBundleAccount None (ba_original_info b) ∅ DestroyedAgain) in
  match new_selfdestructed_from_bundle info_revert b ∅ with
  | Some r => finish (Some r)
  | None =>
      match ba_status b with
      | Destroyed | DestroyedAgain | LoadedNotExisting => finish None
      | DestroyedChanged =>
          finish (Some (new_selfdestructed_again DestroyedChanged
                    (RevertTo (default AccountInfo_default (ba_info b))) (ba_storage b) ∅))
      | _ => Panic
      end
  end.

(** [update_and_create_revert]: a revert that changes nothing is dropped. *)
Definition update_and_create_revert (t : TransitionAccount) (b : BundleAccount) : update_result :=
  let info_revert :=
    if negb (info_eqb (ba_info b) (ta_info t)) then RevertTo (default AccountInfo_default (ba_info b)) else DoNothing in
  '(account_revert, b) ←
    match ta_status t with
    | Changed => update_to_changed info_revert t b
    | InMemoryChange => update_to_in_memory info_revert t b
    | Loaded | LoadedNotExisting | LoadedEmptyEIP161 => Ok (None, b)
    | Destroyed => update_to_destroyed info_revert b
    | DestroyedChanged => update_to_destroyed_changed info_revert t b
    | DestroyedAgain => update_to_destroyed_again info_revert b
    end;
  Ok (r ← account_revert; if AccountRevert_is_empty r then None else Some r, b).

(** ** Bundle accounts of transitions, and cache accounts of bundles *)

Definition present_bundle_account (t : TransitionAccount) : BundleAccount :=
  mkBundleAccount (ta_info t) (ta_previous_info t) (ta_storage t) (ta_status t).
Definition original_bundle_account (t : TransitionAccount) : BundleAccount :=
  mkBundleAccount (ta_previous_info t) (ta_previous_info t) ∅ (ta_previous_status t).
Definition create_revert (t : TransitionAccount) : outcome E (option AccountRevert) :=
  '(r, _) ← update_and_create_revert t (original_bundle_account t); Ok r.
End update.

(** [From<BundleAccount>]. *)
Definition CacheAccount_from (b : BundleAccount) : CacheAccount :=
  mkCacheAccount ((fun i => mkPlainAccount i (present_values (ba_storage b))) <$> BundleAccount_account_info b) (ba_status b).
