(* ===== verification/DbRevert.v ===== *)
(** Reverting an account of a bundle undoes the update that made the revert.

    A bundle holds the accounts that changed since the database was read; an
    account, or a slot, that it does not hold is that of the database. *)

From S2P Require Import Prelude.
From S2P Require Import Bytes.
From S2P Require Import Eof.
From S2P Require Import Bytecode.
From S2P Require Import State.
From S2P Require Import DbAccounts.
From S2P Require Import DbBundleAccount.

(** ** Equality of accounts up to their code *)

Definition info_equiv (a b : option AccountInfo) : Prop := info_eqb a b = true.

Lemma AccountInfo_eqb_spec a b :
  AccountInfo_eqb a b = true <-> nonce a = nonce b /\ code_hash a = code_hash b /\ balances a = balances b.
Proof.
  unfold AccountInfo_eqb. destruct (Z.eqb_spec (nonce a) (nonce b)); [|naive_solver].
  destruct (Z.eqb_spec (code_hash a) (code_hash b)); [|naive_solver]. cbn [negb orb].
  case_bool_decide as Hs; cbn [negb]; [rewrite bool_decide_eq_true; naive_solver|].
  split; [done|]. intros (_ & _ & Hb). by rewrite Hb in Hs.
Qed.

#[export] Instance info_equiv_equivalence : Equivalence info_equiv.
Proof.
  unfold info_equiv, info_eqb. split.
  - intros [a|]; [|done]. by apply AccountInfo_eqb_spec.
  - intros [a|] [b|]; try done. rewrite !AccountInfo_eqb_spec. naive_solver.
  - intros [a|] [b|] [c|]; try done. rewrite !AccountInfo_eqb_spec. intros (?&?&?) (?&?&?). split_and!; congruence.
Qed.

Lemma info_equiv_is_Some a b : info_equiv a b -> is_Some a <-> is_Some b.
Proof. unfold info_equiv. destruct a, b; simpl; split; intros []; try done; eauto. Qed.

(** ** What a bundle says of an account *)

Section view.
Context (base_info : option AccountInfo) (base_storage : Z -> Z).

Definition slot_value (s : StorageWithOriginalValues) (status : AccountStatus) (k : Z) : Z :=
  match s !! k with
  | Some v => slot_present v
  | None => if is_storage_known status then 0 else base_storage k
  end.

Definition bundle_info (o : option BundleAccount) : option AccountInfo :=
  match o with Some b => ba_info b | None => base_info end.
Definition bundle_value (o : option BundleAccount) (k : Z) : Z :=
  match o with Some b => slot_value (ba_storage b) (ba_status b) k | None => base_storage k end.

(** Two answers for an account that cannot be told apart. *)
Definition same_view (o1 o2 : option BundleAccount) : Prop :=
  info_equiv (bundle_info o1) (bundle_info o2) /\ forall k, bundle_value o1 k = bundle_value o2 k.

#[export] Instance same_view_equivalence : Equivalence same_view.
Proof.
  split.
  - intros o. by split.
  - intros o1 o2 [H1 H2]. split; [by symmetry|]. intros k. by rewrite H2.
  - intros o1 o2 o3 [H1 H2] [H3 H4]. split; [by etrans|]. intros k. by rewrite H2, H4.
Qed.

(** An account of the bundle: it exists when its status says so, nothing is stored
    when it does not, and it remembers what the database had; LoadedEmptyEIP161 is
    the status of an account that is only in the database. *)
Record bundle_ok (b : BundleAccount) : Prop := {
  bo_exists : is_Some (ba_info b) <-> status_exists (ba_status b) = true;
  bo_gone : status_exists (ba_status b) = false -> forall k s, ba_storage b !! k = Some s -> slot_present s = 0;
  bo_original : info_equiv (ba_original_info b) base_info;
  bo_nothing : base_info = None -> forall k, base_storage k = 0;
  bo_empty : ba_status b = LoadedEmptyEIP161 -> forall k s, ba_storage b !! k = Some s -> slot_present s = base_storage k;
}.

(** The updates that the status machine leads to. *)
Definition update_defined (s u : AccountStatus) : bool :=
  status_leads s u && negb (bool_decide (s = Destroyed /\ u = Destroyed)).

(** The transition [t] was made on top of what [b] says. *)
Record follows (t : TransitionAccount) (b : BundleAccount) : Prop := {
  fo_status : update_defined (ba_status b) (ta_status t) = true;
  fo_modified : is_not_modified (ta_status t) = false;
  fo_info : is_Some (ta_info t) <-> status_exists (ta_status t) = true;
  fo_slots : ta_storage_was_destroyed t = false -> forall k s, ta_storage t !! k = Some s ->
    previous_or_original_value s = bundle_value (Some b) k;
  fo_destroyed : ta_storage_was_destroyed t = true -> was_destroyed (ta_status t) = true;
  fo_flag : status_exists (ba_status b) = true -> was_destroyed (ba_status b) = false ->
    was_destroyed (ta_status t) = true -> ta_storage_was_destroyed t = true;
  fo_gone : status_exists (ta_status t) = false -> ta_storage t = ∅ /\ ta_storage_was_destroyed t = true;
  (** An account that becomes known has no storage in the database. *)
  fo_fresh : ta_status t = InMemoryChange -> is_storage_known (ba_status b) = false -> forall k, base_storage k = 0;
}.

(** *** Storages *)

Lemma extend_storage_lookup (this u : StorageWithOriginalValues) k : extend_storage this u !! k = extend_slot (this !! k) (u !! k).
Proof. unfold extend_storage. rewrite lookup_merge. by destruct (this !! k), (u !! k). Qed.
Lemma revert_merge_lookup (this : StorageWithOriginalValues) (r : gmap Z RevertToSlot) k :
  merge revert_slot this r !! k = revert_slot (this !! k) (r !! k).
Proof. rewrite lookup_merge. by destruct (this !! k), (r !! k) as [[]|]. Qed.
Lemma previous_lookup (u : StorageWithOriginalValues) k :
  previous_storage_from_update u !! k =
    (s ← u !! k; if StorageSlot_is_changed s then Some (RevertToSlot_Some (previous_or_original_value s)) else None).
Proof. unfold previous_storage_from_update. by rewrite lookup_omap. Qed.
Lemma present_revert_lookup (s : StorageWithOriginalValues) k : revert_to_present s !! k = (fun v => RevertToSlot_Some (slot_present v)) <$> s !! k.
Proof. unfold revert_to_present. by rewrite lookup_fmap. Qed.
Lemma new_slots_lookup (u : StorageWithOriginalValues) (r : gmap Z RevertToSlot) k :
  revert_new_slots u r !! k = match r !! k with Some x => Some x | None => (fun _ => RevertToSlot_Destroyed) <$> u !! k end.
Proof. unfold revert_new_slots. rewrite lookup_union, lookup_fmap. destruct (r !! k), (u !! k); done. Qed.

(** Extending and reverting gives back every value. *)
Lemma extend_revert_value (this u : StorageWithOriginalValues) status k :
  (forall s, u !! k = Some s -> previous_or_original_value s = slot_value this status k) ->
  slot_value (merge revert_slot (extend_storage this u) (previous_storage_from_update u)) status k = slot_value this status k.
Proof.
  intros Hu. unfold slot_value in *. rewrite revert_merge_lookup, extend_storage_lookup, previous_lookup.
  destruct (u !! k) as [s|] eqn:Hs; [|by destruct (this !! k)]. specialize (Hu s eq_refl). simpl.
  unfold StorageSlot_is_changed. destruct (Z.eqb_spec (previous_or_original_value s) (slot_present s)) as [He|He]; simpl.
  - destruct (this !! k); simpl; congruence.
  - destruct (this !! k); simpl; congruence.
Qed.

(** So does replacing the storage, with what was there in the revert. *)
Lemma replace_revert_value (this u : StorageWithOriginalValues) status k :
  slot_value (merge revert_slot u (revert_new_slots u (revert_to_present this))) status k = slot_value this status k.
Proof.
  unfold slot_value. rewrite revert_merge_lookup, new_slots_lookup, present_revert_lookup.
  destruct (this !! k) as [s|]; simpl; [by destruct (u !! k)|]. by destruct (u !! k).
Qed.

(** *** The updates, one status at a time *)

Definition reverted (r : option AccountRevert) (b' : BundleAccount) : option BundleAccount :=
  match r with
  | None => Some b'
  | Some r => let '(gone, b'') := BundleAccount_revert r b' in if gone then None else Some b''
  end.

(** The revert of the info. *)
Definition info_revert_of (b : BundleAccount) (info : option AccountInfo) : AccountInfoRevert :=
  if negb (info_eqb (ba_info b) info) then RevertTo (default AccountInfo_default (ba_info b)) else DoNothing.

(** Reverting an account that existed: its info comes back, and its storage if the
    slots do. *)
Lemma revert_existing b info storage r :
  is_Some (ba_info b) -> ar_account r = info_revert_of b info -> ar_previous_status r = ba_status b ->
  (forall k, slot_value (merge revert_slot storage (ar_storage r)) (ba_status b) k = slot_value (ba_storage b) (ba_status b) k) ->
  forall u, same_view (reverted (Some r) (mkBundleAccount info (ba_original_info b) storage u)) (Some b).
Proof.
  intros [i Hi] Hr Hp Hk u. unfold reverted, BundleAccount_revert, info_revert_of in *. cbn [ba_info ba_original_info ba_storage].
  rewrite Hr, Hp. destruct (info_eqb (ba_info b) info) eqn:Heq; cbn [negb].
  - split; [|exact Hk]. cbn. symmetry. exact Heq.
  - split; [|exact Hk]. cbn. by rewrite Hi.
Qed.

(** Reverting to nothing. *)
Lemma revert_deleted b info storage r u :
  bundle_ok b -> status_exists (ba_status b) = false -> ar_account r = DeleteIt -> ar_previous_status r = ba_status b ->
  is_storage_known (ba_status b) = true ->
  same_view (reverted (Some r) (mkBundleAccount info (ba_original_info b) storage u)) (Some b).
Proof.
  intros [He Hg Ho Hn _] Hs Hr Hp Hk.
  assert (Hb0 : ba_info b = None) by (destruct (ba_info b); [|done]; rewrite Hs in He; destruct He as [He _]; by discriminate He).
  assert (Hz : forall k, bundle_value (Some b) k = 0).
  { intros k. cbn. unfold slot_value. rewrite Hk. destruct (ba_storage b !! k) eqn:Hl; [by eapply Hg|done]. }
  unfold reverted, BundleAccount_revert. rewrite Hr, Hp. cbn [ba_original_info].
  destruct (ba_original_info b) as [i|] eqn:Hi; split; try (intros k; rewrite Hz).
  - cbn. by rewrite Hb0.
  - cbn. unfold slot_value. rewrite lookup_fmap, Hk. by destruct (storage !! k).
  - cbn. rewrite Hb0. by symmetry.
  - apply Hn. destruct base_info; [done|]. done.
Qed.

(** What the account is after the transition. *)
Definition new_value (t : TransitionAccount) (b : BundleAccount) (k : Z) : Z :=
  match ta_storage t !! k with
  | Some s => slot_present s
  | None => if ta_storage_was_destroyed t then 0 else bundle_value (Some b) k
  end.

Record updated (t : TransitionAccount) (b b' : BundleAccount) : Prop := {
  up_info : ba_info b' = ta_info t;
  up_original : ba_original_info b' = ba_original_info b;
  up_status : ba_status b' = ta_status t \/ (ba_status b' = LoadedNotExisting /\ ta_status t = Destroyed);
  up_value : forall k, bundle_value (Some b') k = new_value t b k;
}.

(** A transition that has nothing to revert changes nothing. *)
Lemma nothing_changed t b b' :
  updated t b b' -> info_eqb (ba_info b) (ta_info t) = true ->
  (forall k s, ta_storage t !! k = Some s -> slot_present s = bundle_value (Some b) k) ->
  (ta_storage_was_destroyed t = true -> forall k, bundle_value (Some b) k = 0) -> same_view (Some b') (Some b).
Proof.
  intros [Hi _ _ Hv] He Hs Hd. split.
  - cbn. rewrite Hi. symmetry. exact He.
  - intros k. rewrite Hv. unfold new_value. destruct (ta_storage t !! k) eqn:Hk; [by apply Hs|].
    destruct (ta_storage_was_destroyed t); [by rewrite Hd|done].
Qed.

Lemma is_empty_spec r : AccountRevert_is_empty r = true -> ar_account r = DoNothing /\ ar_storage r = ∅ /\ ar_wipe_storage r = false.
Proof.
  unfold AccountRevert_is_empty. destruct (ar_account r), (ar_wipe_storage r); simpl; rewrite ?andb_false_r; try done.
  rewrite andb_true_r, bool_decide_eq_true. done.
Qed.
Lemma info_revert_nothing b info : info_revert_of b info = DoNothing -> info_eqb (ba_info b) info = true.
Proof. unfold info_revert_of. by destruct (info_eqb _ _). Qed.

(** Slots that a revert has nothing to say of are as they were. *)
Lemma previous_empty u k s :
  previous_storage_from_update u = ∅ -> u !! k = Some s -> slot_present s = previous_or_original_value s.
Proof.
  intros He Hs. pose proof (previous_lookup u k) as Hp. rewrite He, lookup_empty, Hs in Hp. simpl in Hp.
  unfold StorageSlot_is_changed in Hp. by destruct (Z.eqb_spec (previous_or_original_value s) (slot_present s)).
Qed.

(** An update that extends the storage, of an account whose info is put back. *)
Lemma extending_update t b u status :
  bundle_ok b -> follows t b -> is_Some (ba_info b) -> ta_storage_was_destroyed t = false -> ta_status t = u ->
  status = ba_status b ->
  (forall k, ba_storage b !! k = None -> is_storage_known u = true -> bundle_value (Some b) k = 0) ->
  (is_storage_known u = false -> is_storage_known (ba_status b) = false) ->
  let r := mkAccountRevert (info_revert_of b (ta_info t)) (previous_storage_from_update (ta_storage t)) status false in
  let b' := mkBundleAccount (ta_info t) (ba_original_info b) (extend_storage (ba_storage b) (ta_storage t)) u in
  same_view (reverted (Some r) b') (Some b) /\ updated t b b' /\
  (AccountRevert_is_empty r = true -> same_view (Some b') (Some b)).
Proof.
  intros Hb Ht Hi Hd Hu -> Hz Hun r b'.
  assert (Hup : updated t b b').
  { split; [done|done|by left|]. intros k. unfold new_value. rewrite Hd. cbn. unfold slot_value at 1. rewrite extend_storage_lookup.
    destruct (ta_storage t !! k) as [s|]; [by destruct (ba_storage b !! k)|]. simpl. unfold slot_value.
    destruct (ba_storage b !! k) eqn:Hk; [done|]. specialize (Hz k Hk). cbn in Hz. unfold slot_value in Hz. rewrite Hk in Hz.
    destruct (is_storage_known u) eqn:Hku; [by rewrite Hz|]. by rewrite Hun. }
  split; [|split; [done|]].
  - apply revert_existing; try done. intros k. apply extend_revert_value. intros s Hs. by apply (fo_slots _ _ Ht Hd).
  - intros (H1 & H2 & _)%is_empty_spec. eapply nothing_changed; [done|by apply info_revert_nothing| |by rewrite Hd].
    intros k s Hs. rewrite (previous_empty _ _ _ H2 Hs). by apply (fo_slots _ _ Ht Hd).
Qed.

(** An update that replaces the storage, of an account whose info is put back. *)
Lemma replacing_update t b u w status :
  bundle_ok b -> is_Some (ba_info b) -> ta_status t = u -> is_storage_known u = true -> status = ba_status b ->
  ta_storage_was_destroyed t = true -> w = true \/ is_storage_known (ba_status b) = true ->
  let r := mkAccountRevert (info_revert_of b (ta_info t))
    (revert_new_slots (ta_storage t) (revert_to_present (ba_storage b))) status w in
  let b' := mkBundleAccount (ta_info t) (ba_original_info b) (ta_storage t) u in
  same_view (reverted (Some r) b') (Some b) /\ updated t b b' /\
  (AccountRevert_is_empty r = true -> same_view (Some b') (Some b)).
Proof.
  intros Hb Hi Hu Hku -> Hd Hw r b'.
  assert (Hup : updated t b b').
  { split; [done|done|by left|]. intros k. unfold new_value. rewrite Hd. cbn. unfold slot_value. by rewrite Hku. }
  split; [|split; [done|]].
  - apply revert_existing; try done. intros k. apply replace_revert_value.
  - intros (H1 & H2 & H3)%is_empty_spec. destruct Hw as [Hw|Hw]; [simpl in H3; congruence|].
    assert (Hnone : forall k, ta_storage t !! k = None /\ ba_storage b !! k = None).
    { intros k. simpl in H2. pose proof (new_slots_lookup (ta_storage t) (revert_to_present (ba_storage b)) k) as Hk.
      rewrite H2, lookup_empty, present_revert_lookup in Hk.
      destruct (ba_storage b !! k); [done|]. destruct (ta_storage t !! k); done. }
    eapply nothing_changed; [done|by apply info_revert_nothing| |].
    + intros k s Hs. destruct (Hnone k). congruence.
    + intros _ k. destruct (Hnone k) as [_ Hk]. cbn. unfold slot_value. by rewrite Hk, Hw.
Qed.

(** An update of an account that did not exist. *)
Lemma creating_update t b storage status u w rs :
  bundle_ok b -> status_exists (ba_status b) = false -> is_storage_known (ba_status b) = true ->
  ta_status t = u -> is_storage_known u = true -> status = ba_status b ->
  (forall k, storage !! k = extend_slot (ba_storage b !! k) (ta_storage t !! k) \/ storage !! k = ta_storage t !! k) ->
  let r := mkAccountRevert DeleteIt rs status w in
  let b' := mkBundleAccount (ta_info t) (ba_original_info b) storage u in
  same_view (reverted (Some r) b') (Some b) /\ updated t b b' /\
  (AccountRevert_is_empty r = true -> same_view (Some b') (Some b)).
Proof.
  intros Hb Hs Hk Hu Hku -> Hst r b'.
  assert (Hz : forall k, bundle_value (Some b) k = 0).
  { intros k. cbn. unfold slot_value. rewrite Hk. destruct (ba_storage b !! k) eqn:Hl; [by eapply bo_gone|done]. }
  split; [by apply revert_deleted|split].
  - split; [done|done|by left|]. intros k. unfold new_value. rewrite Hz. cbn. unfold slot_value. rewrite Hku.
    specialize (Hz k). cbn in Hz. unfold slot_value in Hz.
    destruct (Hst k) as [-> | ->]; destruct (ta_storage t !! k), (ba_storage b !! k), (ta_storage_was_destroyed t); done.
  - intros (H1 & _)%is_empty_spec. done.
Qed.

Lemma exists_info b : bundle_ok b -> status_exists (ba_status b) = true -> is_Some (ba_info b).
Proof. intros Hb Hs. by apply (bo_exists _ Hb). Qed.

Lemma gone_info t b : follows t b -> status_exists (ta_status t) = false -> ta_info t = None.
Proof.
  intros Ht Hs. destruct (ta_info t) eqn:Hi; [|done]. pose proof (proj1 (fo_info _ _ Ht) ltac:(eauto)). congruence.
Qed.

Lemma new_slots_of_nothing r : revert_new_slots ∅ r = r.
Proof. unfold revert_new_slots. by rewrite fmap_empty, (right_id_L ∅ (∪)). Qed.

(** Becoming an account in memory when the database has an empty one. *)
Lemma filling_update t b :
  bundle_ok b -> follows t b -> ba_status b = LoadedEmptyEIP161 -> ta_status t = InMemoryChange ->
  let r := mkAccountRevert (info_revert_of b (ta_info t)) (previous_storage_from_update (ta_storage t)) LoadedEmptyEIP161 false in
  let b' := mkBundleAccount (ta_info t) (ba_original_info b) (ta_storage t) InMemoryChange in
  same_view (reverted (Some r) b') (Some b) /\ updated t b b' /\
  (AccountRevert_is_empty r = true -> same_view (Some b') (Some b)).
Proof.
  intros Hb Ht Hs Hu r b'.
  assert (Hv : forall k, bundle_value (Some b) k = base_storage k).
  { intros k. cbn. unfold slot_value. rewrite Hs. destruct (ba_storage b !! k) eqn:Hk; [by eapply bo_empty|done]. }
  assert (Hd : ta_storage_was_destroyed t = false).
  { destruct (ta_storage_was_destroyed t) eqn:Hd; [|done]. apply (fo_destroyed _ _ Ht) in Hd. by rewrite Hu in Hd. }
  assert (Hup : updated t b b').
  { split; [done|done|by left|]. intros k. unfold new_value. rewrite Hd, Hv. cbn. unfold slot_value.
    destruct (ta_storage t !! k); [done|]. simpl. symmetry. apply (fo_fresh _ _ Ht); [done|by rewrite Hs]. }
  split; [|split; [done|]].
  - apply revert_existing; [apply exists_info; [done|by rewrite Hs]|done|done|]. intros k. cbn [ar_storage r].
    specialize (Hv k). cbn in Hv. rewrite Hv. rewrite Hs. unfold slot_value. rewrite revert_merge_lookup, previous_lookup.
    destruct (ta_storage t !! k) as [s|] eqn:Hk; [|done]. simpl. pose proof (fo_slots _ _ Ht Hd k s Hk) as Hp.
    cbn in Hp. rewrite Hv in Hp. unfold StorageSlot_is_changed.
    destruct (Z.eqb_spec (previous_or_original_value s) (slot_present s)); simpl; congruence.
  - intros (H1 & H2 & _)%is_empty_spec. eapply nothing_changed; [done|by apply info_revert_nothing| |by rewrite Hd].
    intros k s Hk. rewrite (previous_empty _ _ _ H2 Hk). by apply (fo_slots _ _ Ht Hd).
Qed.

(** *** All of the updates *)

Definition update_fine (t : TransitionAccount) (b : BundleAccount) (r : option AccountRevert) (b' : BundleAccount) : Prop :=
  same_view (reverted r b') (Some b) /\ updated t b b' /\ (status_exists (ba_status b') = false -> ba_storage b' = ∅).

Definition kept_revert (r : option AccountRevert) : option AccountRevert :=
  r ← r; if AccountRevert_is_empty r then None else Some r.

Lemma kept_fine t b r b' :
  same_view (reverted (Some r) b') (Some b) /\ updated t b b' /\ (AccountRevert_is_empty r = true -> same_view (Some b') (Some b)) ->
  (status_exists (ba_status b') = false -> ba_storage b' = ∅) -> update_fine t b (kept_revert (Some r)) b'.
Proof.
  intros (H1 & H2 & H3) H4. split_and!; [|done|done]. simpl. destruct (AccountRevert_is_empty r) eqn:He; [|done]. by apply H3.
Qed.

(** Nothing to revert: the account did not exist and does not. *)
Lemma nothing_fine t b s :
  bundle_ok b -> follows t b -> status_exists (ba_status b) = false -> status_exists (ta_status t) = false ->
  s = ta_status t \/ (s = LoadedNotExisting /\ ta_status t = Destroyed) ->
  is_storage_known (ba_status b) = true -> is_storage_known s = true ->
  update_fine t b None (mkBundleAccount None (ba_original_info b) ∅ s).
Proof.
  intros Hb Ht Hs Hu Hsu Hk Hks. destruct (fo_gone _ _ Ht Hu) as [Hst Hd]. assert (Hi := gone_info _ _ Ht Hu).
  assert (Hz : forall k, bundle_value (Some b) k = 0).
  { intros k. cbn. unfold slot_value. rewrite Hk. destruct (ba_storage b !! k) eqn:Hl; [by eapply bo_gone|done]. }
  assert (Hb0 : ba_info b = None).
  { destruct (ba_info b) eqn:Hi'; [|done]. pose proof (proj1 (bo_exists _ Hb) ltac:(eauto)). congruence. }
  assert (Hv : forall k, slot_value ∅ s k = 0) by (intros k; unfold slot_value; by rewrite lookup_empty, Hks).
  split_and!; [split|split|done].
  - cbn. by rewrite Hb0.
  - intros k. rewrite Hz. apply Hv.
  - by rewrite Hi.
  - done.
  - done.
  - intros k. unfold new_value. rewrite Hst, lookup_empty, Hd. apply Hv.
Qed.

Lemma follows_leads t b : follows t b -> status_leads (ba_status b) (ta_status t) = true.
Proof. intros Ht. pose proof (fo_status _ _ Ht) as H. unfold update_defined in H. by apply andb_true_iff in H as [H _]. Qed.

Section operations.
Context {E : Type}.
Abbreviation fine_result t b m :=
  (exists r b', m = Ok (E := E) (r, b') /\ update_fine t b (kept_revert r) b') (only parsing).

Lemma not_destroyed t b : follows t b -> was_destroyed (ta_status t) = false -> ta_storage_was_destroyed t = false.
Proof. intros Ht Hu. destruct (ta_storage_was_destroyed t) eqn:Hd; [|done]. apply (fo_destroyed _ _ Ht) in Hd. congruence. Qed.

Lemma unseen_slot t b k :
  follows t b -> ta_status t = InMemoryChange \/ is_storage_known (ba_status b) = true ->
  ba_storage b !! k = None -> bundle_value (Some b) k = 0.
Proof.
  intros Ht Hu Hk. cbn. unfold slot_value. rewrite Hk. destruct (is_storage_known (ba_status b)) eqn:Hs; [done|].
  destruct Hu as [Hu|Hu]; [|done]. by apply (fo_fresh _ _ Ht).
Qed.

Lemma update_to_changed_fine t b :
  bundle_ok b -> follows t b -> ta_status t = Changed -> fine_result t b (update_to_changed (info_revert_of b (ta_info t)) t b).
Proof.
  intros Hb Ht Hu. pose proof (follows_leads _ _ Ht) as Hl. rewrite Hu in Hl.
  assert (Hd : ta_storage_was_destroyed t = false) by (eapply not_destroyed; [done|by rewrite Hu]).
  unfold update_to_changed. destruct (ba_status b) eqn:Hs; try discriminate Hl; eexists _, _; (split; [done|]);
    (apply kept_fine; [|done]); apply extending_update; try done;
    try (apply exists_info; [done|by rewrite Hs]); by rewrite Hs.
Qed.

Lemma update_to_in_memory_fine t b :
  bundle_ok b -> follows t b -> ta_status t = InMemoryChange ->
  fine_result t b (update_to_in_memory (info_revert_of b (ta_info t)) t b).
Proof.
  intros Hb Ht Hu. pose proof (follows_leads _ _ Ht) as Hl. rewrite Hu in Hl.
  assert (Hd : ta_storage_was_destroyed t = false) by (eapply not_destroyed; [done|by rewrite Hu]).
  unfold update_to_in_memory. destruct (ba_status b) eqn:Hs; try discriminate Hl; eexists _, _; (split; [done|]); (apply kept_fine; [|done]).
  3: by apply filling_update.
  1: { apply creating_update; try done; [by rewrite Hs|by rewrite Hs|by right]. }
  all: apply extending_update; try done; try (apply exists_info; [done|by rewrite Hs]);
    intros k Hk _; eapply unseen_slot; [done|by left|done].
Qed.

Lemma update_to_destroyed_fine t b :
  bundle_ok b -> follows t b -> ta_status t = Destroyed -> fine_result t b (update_to_destroyed (info_revert_of b (ta_info t)) b).
Proof.
  intros Hb Ht Hu. pose proof (fo_status _ _ Ht) as Hl. rewrite Hu in Hl.
  destruct (fo_gone _ _ Ht) as [Hst Hd]; [by rewrite Hu|]. assert (Hi := gone_info _ _ Ht ltac:(by rewrite Hu)).
  unfold update_to_destroyed. destruct (ba_status b) eqn:Hs; try discriminate Hl; eexists _, _; (split; [done|]).
  { assert (Hb0 : ba_info b = None).
    { destruct (ba_info b) eqn:Hi'; [|done]. pose proof (proj1 (bo_exists _ Hb) ltac:(eauto)) as He. by rewrite Hs in He. }
    rewrite Hb0. apply nothing_fine; try done; [by rewrite Hs|by rewrite Hu|by right|by rewrite Hs]. }
  all: apply kept_fine; [|done]; unfold new_selfdestructed; rewrite <-(new_slots_of_nothing (revert_to_present _)), <-Hst, <-Hi;
    apply replacing_update; try done; [apply exists_info; [done|by rewrite Hs]|by left].
Qed.

Lemma update_to_destroyed_changed_fine t b :
  bundle_ok b -> follows t b -> ta_status t = DestroyedChanged ->
  fine_result t b (update_to_destroyed_changed (info_revert_of b (ta_info t)) t b).
Proof.
  intros Hb Ht Hu. pose proof (follows_leads _ _ Ht) as Hl. rewrite Hu in Hl.
  assert (Hgone : status_exists (ba_status b) = false -> is_storage_known (ba_status b) = true) by by destruct (ba_status b).
  assert (Hflag := fo_flag _ _ Ht). rewrite Hu in Hflag.
  unfold update_to_destroyed_changed, new_selfdestructed_from_bundle.
  destruct (ba_status b) eqn:Hs; try discriminate Hl; try (destruct (ta_storage_was_destroyed t) eqn:Hd);
    eexists _, _; (split; [done|]); (apply kept_fine; [|done]).
  (* The account did not exist. *)
  all: try (apply creating_update; rewrite ?Hs; try done; intros k; left; apply extend_storage_lookup).
  (* It was destroyed for the first time, or again. *)
  all: try (by discriminate Hflag).
  all: try (apply replacing_update; try done; [apply exists_info; [done|by rewrite Hs]|by left]).
  - assert (Hex : forall u, extend_storage ∅ u = u).
    { intros u. apply map_eq. intros k. rewrite extend_storage_lookup, lookup_empty. by destruct (u !! k). }
    rewrite Hex. apply replacing_update; try done;
      [apply exists_info; [done|by rewrite Hs]|right; by rewrite Hs].
  - apply extending_update; try done; [apply exists_info; [done|by rewrite Hs]|].
    intros k Hk _. eapply unseen_slot; [done|right; by rewrite Hs|done].
Qed.

Lemma update_to_destroyed_again_fine t b :
  bundle_ok b -> follows t b -> ta_status t = DestroyedAgain ->
  fine_result t b (update_to_destroyed_again (info_revert_of b (ta_info t)) b).
Proof.
  intros Hb Ht Hu. pose proof (follows_leads _ _ Ht) as Hl. rewrite Hu in Hl.
  destruct (fo_gone _ _ Ht) as [Hst Hd]; [by rewrite Hu|]. assert (Hi := gone_info _ _ Ht ltac:(by rewrite Hu)).
  unfold update_to_destroyed_again, new_selfdestructed_from_bundle.
  destruct (ba_status b) eqn:Hs; try discriminate Hl; eexists _, _; (split; [done|]).
  all: try (apply nothing_fine; try done; rewrite ?Hs, ?Hu; try done; by left).
  all: apply kept_fine; [|done].
  5: { assert (Hr : RevertTo (default AccountInfo_default (ba_info b)) = info_revert_of b (ta_info t)).
       { unfold info_revert_of. destruct (exists_info b Hb) as [i Hbi]; [by rewrite Hs|]. by rewrite Hi, Hbi. }
       rewrite Hr. unfold new_selfdestructed_again. rewrite <-Hst, <-Hi.
       apply replacing_update; try done; [apply exists_info; [done|by rewrite Hs]|right; by rewrite Hs]. }
  all: unfold new_selfdestructed_again; rewrite <-Hst, <-Hi; apply replacing_update; try done;
    [apply exists_info; [done|by rewrite Hs]|by left].
Qed.

(** Every update the status machine leads to is made, without [unreachable!]. *)
Lemma update_correct t b :
  bundle_ok b -> follows t b ->
  exists r b', update_and_create_revert t b = Ok (E := E) (r, b') /\ update_fine t b r b'.
Proof.
  intros Hb Ht.
  assert (Hall : forall m, (exists r b', m = Ok (E := E) (r, b') /\ update_fine t b (kept_revert r) b') ->
    exists r b', ('(account_revert, b) ← m; Ok (kept_revert account_revert, b)) = Ok (r, b') /\ update_fine t b r b').
  { intros m (r & b' & -> & H). by exists (kept_revert r), b'. }
  unfold update_and_create_revert. apply Hall. fold (info_revert_of b (ta_info t)). pose proof (fo_modified _ _ Ht) as Hm.
  destruct (ta_status t) eqn:Hu; try discriminate Hm.
  - by apply update_to_in_memory_fine.
  - by apply update_to_changed_fine.
  - by apply update_to_destroyed_fine.
  - by apply update_to_destroyed_changed_fine.
  - by apply update_to_destroyed_again_fine.
Qed.

(** The account is as it should be afterwards. *)
Lemma update_ok t b r b' : bundle_ok b -> follows t b -> update_fine t b r b' -> bundle_ok b'.
Proof.
  intros Hb Ht (_ & [Hi Ho Hs _] & Hg). split.
  - rewrite Hi, (fo_info _ _ Ht). destruct Hs as [-> | [-> Hu]]; [done|]. by rewrite Hu.
  - intros He k s Hk. rewrite Hg, lookup_empty in Hk by done. done.
  - rewrite Ho. by apply bo_original.
  - by apply (bo_nothing _ Hb).
  - intros He. pose proof (fo_modified _ _ Ht) as Hm. destruct Hs as [Hs | [Hs _]]; [|congruence].
    rewrite <-Hs, He in Hm. done.
Qed.

(** An account that the bundle does not have yet starts from the database. *)
Record starts (t : TransitionAccount) : Prop := {
  st_info : info_equiv (ta_previous_info t) base_info;
  st_exists : is_Some base_info <-> status_exists (ta_previous_status t) = true;
  st_nothing : base_info = None -> forall k, base_storage k = 0;
  st_known : is_storage_known (ta_previous_status t) = true -> forall k, base_storage k = 0;
}.

Lemma original_ok t : starts t -> bundle_ok (original_bundle_account t).
Proof.
  intros [Hi He Hn Hk]. split; cbn; try done. by rewrite (info_equiv_is_Some _ _ Hi).
Qed.

Lemma original_view t : starts t -> same_view (Some (original_bundle_account t)) None.
Proof.
  intros [Hi He Hn Hk]. split; [exact Hi|]. intros k. cbn. unfold slot_value. rewrite lookup_empty.
  destruct (is_storage_known _); [by rewrite Hk|done].
Qed.

(** The answer [o] is what the transition left of the account of [b]. *)
Definition tells (o : option BundleAccount) (t : TransitionAccount) (b : BundleAccount) : Prop :=
  info_equiv (bundle_info o) (ta_info t) /\ forall k, bundle_value o k = new_value t b k.

Lemma updated_tells t b b' : updated t b b' -> tells (Some b') t b.
Proof. intros [Hi _ _ Hv]. split; [cbn; by rewrite Hi|done]. Qed.

Lemma tells_proper o o' t b : same_view o o' -> tells o t b -> tells o' t b.
Proof. intros [H1 H2] [H3 H4]. split; [by rewrite <-H1|]. intros k. by rewrite <-H2. Qed.

Lemma extend_nothing u : extend_storage ∅ u = u.
Proof. apply map_eq. intros k. rewrite extend_storage_lookup, lookup_empty. by destruct (u !! k). Qed.

Lemma present_is_updated t r b' :
  follows t (original_bundle_account t) ->
  update_and_create_revert t (original_bundle_account t) = Ok (E := E) (Some r, b') -> b' = present_bundle_account t.
Proof.
  intros Ht. pose proof (fo_gone _ _ Ht) as Hg. pose proof (gone_info _ _ Ht) as Hi. pose proof (fo_status _ _ Ht) as Hl.
  unfold present_bundle_account, update_and_create_revert, original_bundle_account in *. cbn [ba_status ba_info ba_original_info] in *.
  destruct (ta_status t) eqn:Hu; unfold update_to_changed, update_to_in_memory, update_to_destroyed, update_to_destroyed_changed,
    update_to_destroyed_again, new_selfdestructed_from_bundle; cbn [ba_status ba_storage ba_info ba_original_info];
    destruct (ta_previous_status t); try discriminate Hl; try (destruct (ta_storage_was_destroyed t));
    simpl; intros Heq; simplify_eq; rewrite ?extend_nothing; try done; by rewrite ?Hi, ?(proj1 (Hg eq_refl)).
Qed.

(** What the bundle then holds is the account that the update makes. *)
Lemma present_fine t :
  starts t -> follows t (original_bundle_account t) ->
  exists r, create_revert t = Ok (E := E) r /\
    match r with
    | None => tells None t (original_bundle_account t)
    | Some r => update_fine t (original_bundle_account t) (Some r) (present_bundle_account t)
    end.
Proof.
  intros Hs Ht. destruct (update_correct t (original_bundle_account t)) as (r & b' & Hu & Hf); [by apply original_ok|done|].
  exists r. unfold create_revert. rewrite Hu. split; [done|]. destruct r as [r|].
  - by rewrite <-(present_is_updated _ _ _ Ht Hu).
  - destruct Hf as (Hv & Hup & _). eapply tells_proper; [|by apply updated_tells]. etrans; [exact Hv|]. by apply original_view.
Qed.
End operations.
End view.

(** Reverting an account undoes the update that made the revert. An account of a
    bundle in a sound state and a transition made on top of what it says can always
    be merged: the [unreachable!] arms of the status machine are not reached. The
    account then says of the info and of every slot what the transition left, it is
    sound again, and the revert that was created gives back an account that cannot
    be told apart from the first one: the same info, up to the code that goes with
    its hash, and the same value of every slot, those of the database included. *)
Theorem account_revert_undoes_update {E} (base_info : option AccountInfo) (base_storage : Z -> Z)
  (t : TransitionAccount) (b : BundleAccount)
  (Hb : bundle_ok base_info base_storage b) (Ht : follows base_storage t b) :
  exists r b', update_and_create_revert t b = Ok (E := E) (r, b') /\
    bundle_ok base_info base_storage b' /\
    tells base_info base_storage (Some b') t b /\
    same_view base_info base_storage (reverted r b') (Some b).
Proof.
  destruct (update_correct (E := E) base_info base_storage t b Hb Ht) as (r & b' & Hu & Hf). exists r, b'. split; [done|].
  split_and!; [by eapply update_ok|apply updated_tells, Hf|apply Hf].
Qed.

(** An account that is destroyed and created again in one block, of a database that
    stores 5 in its slot 1. *)
Definition example_info : AccountInfo := mkInfo ∅ 1 7 None.
Definition example_storage (k : Z) : Z := if k =? 1 then 5 else 0.
Definition example_bundle : BundleAccount :=
  mkBundleAccount (Some example_info) (Some example_info) {[ 3 := mkStorageSlot 0 4 ]} Changed.
Definition example_transition : TransitionAccount :=
  mkTransitionAccount (Some example_info) DestroyedChanged (Some example_info) Changed {[ 1 := mkStorageSlot 0 9 ]} true.

Lemma example_bundle_ok : bundle_ok (Some example_info) example_storage example_bundle.
Proof.
  split; try done.
Qed.
Lemma example_follows : follows example_storage example_transition example_bundle.
Proof. split; try done. Qed.

Lemma account_revert_undoes_update_witness :
  exists r b', update_and_create_revert example_transition example_bundle = Ok (E := Empty_set) (r, b') /\
    bundle_ok (Some example_info) example_storage b' /\
    tells (Some example_info) example_storage (Some b') example_transition example_bundle /\
    same_view (Some example_info) example_storage (reverted r b') (Some example_bundle).
Proof. exact (account_revert_undoes_update _ _ _ _ example_bundle_ok example_follows). Defined.

Definition destroying : TransitionAccount := mkTransitionAccount None Destroyed (Some example_info) Loaded ∅ true.
Definition recreating : TransitionAccount :=
  mkTransitionAccount (Some example_info) DestroyedChanged None Destroyed {[ 1 := mkStorageSlot 0 9 ]} false.

(** Two reverts in a row do not give back every account. A contract of the
    database stores 5 in slot 1; one block destroys it, without having read the slot,
    and the next one creates it again and writes to the slot. Each revert alone
    undoes its block; both of them, the last block first, give back the account with
    0 in the slot: [DeleteIt] leaves a zero for the slot instead of forgetting it,
    and the revert of the destruction does not know of the slot. *)
Theorem two_reverts_lose_storage :
  exists r1 b1 r2 b2,
    update_and_create_revert destroying (original_bundle_account destroying) = Ok (E := Empty_set) (Some r1, b1) /\
    update_and_create_revert recreating b1 = Ok (E := Empty_set) (Some r2, b2) /\
    let b := (BundleAccount_revert r1 (BundleAccount_revert r2 b2).2).2 in
    bundle_value example_storage (Some (original_bundle_account destroying)) 1 = 5 /\
    bundle_value example_storage (Some b) 1 = 0 /\ ba_status b = Loaded.
Proof. eexists _, _, _, _. do 2 (split; [vm_compute; reflexivity|]). vm_compute. done. Qed.
