(* ===== verification/DbBundleState.v ===== *)
(** Bundles: the accounts, contracts and reverts that several blocks leave.

    [bundle_state.rs], the collections of [reverts.rs] and the records of
    [changes.rs] in [crates/revm/src/db/states/]. The sizes are [usize] counters
    that wrap, as the build the crate is released with. A set of keys that is
    turned into a map is walked in the order of [elements]: neither the map nor
    a sum of sizes depends on it. *)

From S2P Require Import Prelude.
From S2P Require Import Bytes.
From S2P Require Import Eof.
From S2P Require Import Bytecode.
From S2P Require Import State.
From S2P Require Import DbAccounts.
From S2P Require Import DbBundleAccount.

(** ** [changes.rs] *)

Record PlainStorageChangeset : Type := mkPlainStorageChangeset {
  psc_address : Address;
  psc_wipe_storage : bool;
  psc_storage : list (Z * Z);
}.
Record StateChangeset : Type := mkStateChangeset {
  sc_accounts : list (Address * option AccountInfo);
  sc_storage : list PlainStorageChangeset;
  sc_contracts : list (Z * Bytecode);
}.
Record PlainStorageRevert : Type := mkPlainStorageRevert {
  psr_address : Address;
  psr_wiped : bool;
  psr_storage_revert : list (Z * RevertToSlot);
}.
Record PlainStateReverts : Type := mkPlainStateReverts {
  psr_accounts : list (list (Address * option AccountInfo));
  psr_storage : list (list PlainStorageRevert);
}.

(** ** [reverts.rs] *)

Abbreviation Reverts := (list (list (Address * AccountRevert))).

(** The sort is stable: an entry goes before the first one with a bigger key. *)
Fixpoint insert_by_address (p : Address * AccountRevert) (l : list (Address * AccountRevert)) : list (Address * AccountRevert) :=
  match l with
  | [] => [p]
  | q :: rest => if p.1 <=? q.1 then p :: l else q :: insert_by_address p rest
  end.
Definition Reverts_sort (r : Reverts) : Reverts := map (foldr insert_by_address []) r.
Definition Reverts_extend (other r : Reverts) : Reverts := r ++ other.

Section iteration.
Context `{MapIteration}.

Definition plain_revert_account (p : Address * AccountRevert) : list (Address * option AccountInfo) :=
  match ar_account p.2 with
  | RevertTo acc => [(p.1, Some acc)]
  | DeleteIt => [(p.1, None)]
  | DoNothing => []
  end.
Definition plain_revert_storage (p : Address * AccountRevert) : list PlainStorageRevert :=
  if ar_wipe_storage p.2 || negb (bool_decide (ar_storage p.2 = ∅))
  then [mkPlainStorageRevert p.1 (ar_wipe_storage p.2) (entries (ar_storage p.2))] else [].
Definition into_plain_state_reverts (r : Reverts) : PlainStateReverts :=
  mkPlainStateReverts (map (fun block => block ≫= plain_revert_account) r) (map (fun block => block ≫= plain_revert_storage) r).

(** ** [bundle_state.rs] *)

Inductive OriginalValuesKnown : Type := OriginalValuesKnown_Yes | OriginalValuesKnown_No.
Definition is_not_known (k : OriginalValuesKnown) : bool :=
  match k with OriginalValuesKnown_No => true | OriginalValuesKnown_Yes => false end.
Inductive BundleRetention : Type := BundleRetention_PlainState | BundleRetention_Reverts.
Definition includes_reverts (r : BundleRetention) : bool :=
  match r with BundleRetention_Reverts => true | BundleRetention_PlainState => false end.

Record BundleState : Type := mkBundleState {
  bs_state : gmap Address BundleAccount;
  bs_contracts : gmap Z Bytecode;
  bs_reverts : Reverts;
  bs_state_size : Z;
  bs_reverts_size : Z;
}.
Definition BundleState_default : BundleState := mkBundleState ∅ ∅ [] 0 0.

Definition usize_add (a b : Z) : Z := wrapping_add 64 a b.
Definition sum_hints {A} (hint : A -> Z) (l : list A) : Z := foldl (fun n x => usize_add n (hint x)) 0 l.

Definition revert_hint (p : Address * AccountRevert) : Z := AccountRevert_size_hint p.2.
Definition account_hint (p : Address * BundleAccount) : Z := BundleAccount_size_hint p.2.

(** What the caller gives of an account, or of a revert. *)
Definition changed_account (original present : option AccountInfo) (storage : gmap Z (Z * Z)) : BundleAccount :=
  BundleAccount_new original present ((fun v => StorageSlot_new_changed v.1 v.2) <$> storage) Changed.
Definition info_revert_from (account : option (option AccountInfo)) : AccountInfoRevert :=
  match account with
  | Some (Some account) => RevertTo account
  | Some None => DeleteIt
  | None => DoNothing
  end.
(** [collect] into a map: a later value of a key replaces an earlier one. *)
Definition collect {A} (l : list (Z * A)) : gmap Z A := list_to_map (reverse l).
Definition changed_revert (account : option (option AccountInfo)) (storage : list (Z * Z)) : AccountRevert :=
  mkAccountRevert (info_revert_from account) (RevertToSlot_Some <$> collect storage) Changed false.

Definition BundleState_new (state : list (Address * option AccountInfo * option AccountInfo * gmap Z (Z * Z)))
  (reverts : list (list (Address * option (option AccountInfo) * list (Z * Z)))) (contracts : list (Z * Bytecode)) : BundleState :=
  let state := map (fun '(address, original, present, storage) => (address, changed_account original present storage)) state in
  let reverts := map (map (fun '(address, account, storage) => (address, changed_revert account storage))) reverts in
  mkBundleState (collect state) (collect contracts) reverts (sum_hints account_hint state) (sum_hints revert_hint (concat reverts)).

Definition BundleState_size_hint (s : BundleState) : Z :=
  usize_add (usize_add (bs_state_size s) (bs_reverts_size s)) (Z.of_nat (size (bs_contracts s))).
Definition BundleState_len (s : BundleState) : Z := Z.of_nat (size (bs_state s)).
Definition BundleState_is_empty (s : BundleState) : bool := BundleState_len s =? 0.
Definition BundleState_account (s : BundleState) (a : Address) : option BundleAccount := bs_state s !! a.
Definition BundleState_bytecode (s : BundleState) (hash : Z) : option Bytecode := bs_contracts s !! hash.

(** The account of [a] with its size, or no account. *)
Definition put_account (a : Address) (b : BundleAccount) (s : BundleState) : BundleState :=
  mkBundleState (<[ a := b ]> (bs_state s)) (bs_contracts s) (bs_reverts s)
    (usize_add (bs_state_size s) (BundleAccount_size_hint b)) (bs_reverts_size s).
Definition take_account (a : Address) (b : BundleAccount) (s : BundleState) : BundleState :=
  mkBundleState (delete a (bs_state s)) (bs_contracts s) (bs_reverts s)
    (wrapping_sub 64 (bs_state_size s) (BundleAccount_size_hint b)) (bs_reverts_size s).
Definition add_contract (p : option (Z * Bytecode)) (s : BundleState) : BundleState :=
  match p with
  | Some (hash, code) =>
      mkBundleState (bs_state s) (<[ hash := code ]> (bs_contracts s)) (bs_reverts s) (bs_state_size s) (bs_reverts_size s)
  | None => s
  end.
Definition set_bs_reverts (r : Reverts) (size : Z) (s : BundleState) : BundleState :=
  mkBundleState (bs_state s) (bs_contracts s) r (bs_state_size s) size.

Section updates.
Context {E : Type}.

(** One transition: the new state, and the revert when there is one to keep. *)
Definition apply_bundle_transition (address : Address) (t : TransitionAccount) (s : BundleState)
  : outcome E (option AccountRevert * BundleState) :=
  let s := add_contract (has_new_contract t) s in
  match bs_state s !! address with
  | Some entry =>
      '(revert, entry') ← update_and_create_revert t entry;
      Ok (revert, put_account address entry' (take_account address entry s))
  | None =>
      let present_bundle := present_bundle_account t in
      revert ← create_revert t;
      Ok (revert, match revert with Some _ => put_account address present_bundle s | None => s end)
  end.

Fixpoint apply_bundle_transitions (include_reverts : bool) (transitions : list (Address * TransitionAccount)) (s : BundleState)
  : outcome E (list (Address * AccountRevert) * BundleState) :=
  match transitions with
  | [] => Ok ([], s)
  | (address, t) :: rest =>
      '(revert, s) ← apply_bundle_transition address t s;
      let revert := if include_reverts then revert else None in
      let s := match revert with
               | Some r => set_bs_reverts (bs_reverts s) (usize_add (bs_reverts_size s) (AccountRevert_size_hint r)) s
               | None => s
               end in
      '(reverts, s) ← apply_bundle_transitions include_reverts rest s;
      Ok (match revert with Some r => (address, r) :: reverts | None => reverts end, s)
  end.

Definition apply_transitions_and_create_reverts (transitions : Transitions) (retention : BundleRetention) (s : BundleState)
  : outcome E BundleState :=
  '(reverts, s) ← apply_bundle_transitions (includes_reverts retention) (entries transitions) s;
  Ok (set_bs_reverts (bs_reverts s ++ [reverts]) (bs_reverts_size s) s).
End updates.

(** *** Plain state *)

Definition plain_slot (is_value_known : OriginalValuesKnown) (destroyed : bool) (p : Z * StorageSlot) : list (Z * Z) :=
  let destroyed_and_not_zero := destroyed && negb (slot_present p.2 =? 0) in
  let not_destroyed_and_changed := negb destroyed && StorageSlot_is_changed p.2 in
  if is_not_known is_value_known || destroyed_and_not_zero || not_destroyed_and_changed then [(p.1, slot_present p.2)] else [].
Definition plain_account (is_value_known : OriginalValuesKnown) (p : Address * BundleAccount) : list (Address * option AccountInfo) :=
  if is_not_known is_value_known || is_info_changed p.2 then [(p.1, without_code <$> ba_info p.2)] else [].
Definition plain_storage (is_value_known : OriginalValuesKnown) (p : Address * BundleAccount) : list PlainStorageChangeset :=
  let destroyed := BundleAccount_was_destroyed p.2 in
  let changed := entries (ba_storage p.2) ≫= plain_slot is_value_known destroyed in
  if negb (bool_decide (changed = [])) || destroyed then [mkPlainStorageChangeset p.1 destroyed changed] else [].

Definition into_plain_state (is_value_known : OriginalValuesKnown) (s : BundleState) : StateChangeset :=
  mkStateChangeset (entries (bs_state s) ≫= plain_account is_value_known) (entries (bs_state s) ≫= plain_storage is_value_known)
    (filter (fun p => p.1 <> KECCAK_EMPTY) (entries (bs_contracts s))).

(** *** Reverts *)

Definition take_all_reverts (s : BundleState) : Reverts * BundleState := (bs_reverts s, set_bs_reverts [] 0 s).

(** A number of reverts that is the length of the list splits it; a bigger one takes all. *)
Definition take_n_reverts (reverts_to_take : nat) (s : BundleState) : Reverts * BundleState :=
  if (length (bs_reverts s) <? reverts_to_take)%nat then take_all_reverts s
  else
    let this := drop reverts_to_take (bs_reverts s) in
    (take reverts_to_take (bs_reverts s), set_bs_reverts this (sum_hints revert_hint (concat this)) s).

Definition into_plain_state_and_reverts (is_value_known : OriginalValuesKnown) (s : BundleState)
  : StateChangeset * PlainStateReverts :=
  let '(reverts, s) := take_all_reverts s in
  (into_plain_state is_value_known s, into_plain_state_reverts reverts).

(** One account of the latest reverts. *)
Definition revert_account (s : BundleState) (p : Address * AccountRevert) : BundleState :=
  let s := set_bs_reverts (bs_reverts s) (wrapping_sub 64 (bs_reverts_size s) (AccountRevert_size_hint p.2)) s in
  match bs_state s !! p.1 with
  | Some account =>
      let '(gone, account') := BundleAccount_revert p.2 account in
      if gone then take_account p.1 account s else put_account p.1 account' (take_account p.1 account s)
  | None =>
      let '(gone, account) := BundleAccount_revert p.2 (BundleAccount_new None None ∅ LoadedNotExisting) in
      if gone then s else put_account p.1 account s
  end.

Definition revert_latest (s : BundleState) : bool * BundleState :=
  match last (bs_reverts s) with
  | Some reverts =>
      (true, foldl revert_account (set_bs_reverts (removelast (bs_reverts s)) (bs_reverts_size s) s) reverts)
  | None => (false, s)
  end.

(** The loop ends with the reverts, or after [num_transitions] of them. *)
Fixpoint BundleState_revert (num_transitions : nat) (s : BundleState) : BundleState :=
  match num_transitions with
  | O => s
  | S n => let '(reverted, s) := revert_latest s in if reverted then BundleState_revert n s else s
  end.

(** *** Extension *)

Definition extend_account (this other : BundleAccount) : BundleAccount :=
  let storage := if BundleAccount_was_destroyed other then ba_storage other
                 else extend_storage (ba_storage this) (ba_storage other) in
  mkBundleAccount (ba_info other) (ba_original_info this) storage (transition (ba_status this) (ba_status other)).

Definition extend_state_entry (s : BundleState) (p : Address * BundleAccount) : BundleState :=
  match bs_state s !! p.1 with
  | Some this => put_account p.1 (extend_account this p.2) (take_account p.1 this s)
  | None => put_account p.1 p.2 s
  end.
Definition extend_state (other_state : gmap Address BundleAccount) (s : BundleState) : BundleState :=
  foldl extend_state_entry s (entries other_state).

(** The present values of what is in the bundle, for the keys the revert does not have. *)
Definition add_present_values (storage : StorageWithOriginalValues) (r : gmap Z RevertToSlot) : gmap Z RevertToSlot :=
  r ∪ revert_to_present storage.

(** One revert of the bundle that comes next: a storage that it wipes is moved out
    of this bundle; the size of this bundle is left as it is. *)
Definition extend_revert (s : BundleState) (p : Address * AccountRevert) : (Address * AccountRevert) * BundleState :=
  let '(revert, s) :=
    match bs_state s !! p.1 with
    | Some this_account =>
        if ar_wipe_storage p.2 then
          (mkAccountRevert (ar_account p.2) (add_present_values (ba_storage this_account) (ar_storage p.2))
             (ar_previous_status p.2) (negb (BundleAccount_was_destroyed this_account)),
           mkBundleState
             (<[ p.1 := mkBundleAccount (ba_info this_account) (ba_original_info this_account) ∅ (ba_status this_account) ]> (bs_state s))
             (bs_contracts s) (bs_reverts s) (bs_state_size s) (bs_reverts_size s))
        else (p.2, s)
    | None => (p.2, s)
    end in
  ((p.1, revert), set_bs_reverts (bs_reverts s) (usize_add (bs_reverts_size s) (AccountRevert_size_hint revert)) s).

Fixpoint extend_reverts (l : list (Address * AccountRevert)) (s : BundleState) : list (Address * AccountRevert) * BundleState :=
  match l with
  | [] => ([], s)
  | p :: l =>
      let '(p, s) := extend_revert s p in
      let '(l, s) := extend_reverts l s in (p :: l, s)
  end.
Fixpoint extend_blocks (blocks : Reverts) (s : BundleState) : Reverts * BundleState :=
  match blocks with
  | [] => ([], s)
  | block :: blocks =>
      let '(block, s) := extend_reverts block s in
      let '(blocks, s) := extend_blocks blocks s in (block :: blocks, s)
  end.

Definition BundleState_extend (other s : BundleState) : BundleState :=
  let '(reverts, s) := extend_blocks (bs_reverts other) s in
  let s := extend_state (bs_state other) s in
  mkBundleState (bs_state s) (bs_contracts other ∪ bs_contracts s) (Reverts_extend reverts (bs_reverts s))
    (bs_state_size s) (bs_reverts_size s).

Definition prepend_state (other this : BundleState) : BundleState :=
  let other := extend_state (bs_state this) other in
  mkBundleState (bs_state other) (bs_contracts this ∪ bs_contracts other) (bs_reverts other)
    (bs_state_size other) (bs_reverts_size other).
End iteration.

(** *** The builder *)

Record BundleBuilder : Type := mkBundleBuilder {
  bb_states : gset Address;
  bb_state_original : gmap Address AccountInfo;
  bb_state_present : gmap Address AccountInfo;
  bb_state_storage : gmap Address (gmap Z (Z * Z));
  bb_reverts : list (Z * Address);
  bb_revert_range : Z * Z;
  bb_revert_account : gmap (Z * Address) (option (option AccountInfo));
  bb_revert_storage : gmap (Z * Address) (list (Z * Z));
  bb_contracts : gmap Z Bytecode;
}.
Definition BundleBuilder_default : BundleBuilder := mkBundleBuilder ∅ ∅ ∅ ∅ [] (0, 0) ∅ ∅ ∅.
Definition BundleBuilder_new (revert_range : Z * Z) : BundleBuilder := mkBundleBuilder ∅ ∅ ∅ ∅ [] revert_range ∅ ∅ ∅.

(** The order of the pairs, and a [BTreeSet] as the sorted list of its elements. *)
Definition pair_ltb (p q : Z * Address) : bool := (p.1 <? q.1) || ((p.1 =? q.1) && (p.2 <? q.2)).
Fixpoint btree_insert (p : Z * Address) (l : list (Z * Address)) : list (Z * Address) :=
  match l with
  | [] => [p]
  | q :: rest => if pair_ltb p q then p :: l else if bool_decide (p = q) then l else q :: btree_insert p rest
  end.

Definition state_address (a : Address) (b : BundleBuilder) : BundleBuilder :=
  mkBundleBuilder ({[ a ]} ∪ bb_states b) (bb_state_original b) (bb_state_present b) (bb_state_storage b) (bb_reverts b)
    (bb_revert_range b) (bb_revert_account b) (bb_revert_storage b) (bb_contracts b).
Definition state_original_account_info (a : Address) (original : AccountInfo) (b : BundleBuilder) : BundleBuilder :=
  mkBundleBuilder ({[ a ]} ∪ bb_states b) (<[ a := original ]> (bb_state_original b)) (bb_state_present b) (bb_state_storage b)
    (bb_reverts b) (bb_revert_range b) (bb_revert_account b) (bb_revert_storage b) (bb_contracts b).
Definition state_present_account_info (a : Address) (present : AccountInfo) (b : BundleBuilder) : BundleBuilder :=
  mkBundleBuilder ({[ a ]} ∪ bb_states b) (bb_state_original b) (<[ a := present ]> (bb_state_present b)) (bb_state_storage b)
    (bb_reverts b) (bb_revert_range b) (bb_revert_account b) (bb_revert_storage b) (bb_contracts b).
Definition state_storage (a : Address) (storage : gmap Z (Z * Z)) (b : BundleBuilder) : BundleBuilder :=
  mkBundleBuilder ({[ a ]} ∪ bb_states b) (bb_state_original b) (bb_state_present b) (<[ a := storage ]> (bb_state_storage b))
    (bb_reverts b) (bb_revert_range b) (bb_revert_account b) (bb_revert_storage b) (bb_contracts b).
Definition revert_address (block_number : Z) (a : Address) (b : BundleBuilder) : BundleBuilder :=
  mkBundleBuilder (bb_states b) (bb_state_original b) (bb_state_present b) (bb_state_storage b)
    (btree_insert (block_number, a) (bb_reverts b)) (bb_revert_range b) (bb_revert_account b) (bb_revert_storage b) (bb_contracts b).
Definition revert_account_info (block_number : Z) (a : Address) (account : option (option AccountInfo)) (b : BundleBuilder)
  : BundleBuilder :=
  mkBundleBuilder (bb_states b) (bb_state_original b) (bb_state_present b) (bb_state_storage b)
    (btree_insert (block_number, a) (bb_reverts b)) (bb_revert_range b) (<[ (block_number, a) := account ]> (bb_revert_account b))
    (bb_revert_storage b) (bb_contracts b).
Definition revert_storage (block_number : Z) (a : Address) (storage : list (Z * Z)) (b : BundleBuilder) : BundleBuilder :=
  mkBundleBuilder (bb_states b) (bb_state_original b) (bb_state_present b) (bb_state_storage b)
    (btree_insert (block_number, a) (bb_reverts b)) (bb_revert_range b) (bb_revert_account b)
    (<[ (block_number, a) := storage ]> (bb_revert_storage b)) (bb_contracts b).
Definition builder_contract (hash : Z) (code : Bytecode) (b : BundleBuilder) : BundleBuilder :=
  mkBundleBuilder (bb_states b) (bb_state_original b) (bb_state_present b) (bb_state_storage b) (bb_reverts b)
    (bb_revert_range b) (bb_revert_account b) (bb_revert_storage b) (<[ hash := code ]> (bb_contracts b)).

Definition built_account (b : BundleBuilder) (a : Address) : BundleAccount :=
  changed_account (bb_state_original b !! a) (bb_state_present b !! a) (default ∅ (bb_state_storage b !! a)).
Definition built_revert (b : BundleBuilder) (p : Z * Address) : AccountRevert :=
  changed_revert (default None (bb_revert_account b !! p)) (default [] (bb_revert_storage b !! p)).

Definition BundleBuilder_build (b : BundleBuilder) : BundleState :=
  let state := map (fun a => (a, built_account b a)) (elements (bb_states b)) in
  let '(lo, hi) := bb_revert_range b in
  let in_range := filter (fun p => lo <= p.1 <= hi) (bb_reverts b) in
  let block n := map (fun p => (p.2, built_revert b p)) (filter (fun p => p.1 = n) in_range) in
  mkBundleState (list_to_map state) (bb_contracts b) (map block (seqZ lo (hi - lo + 1)))
    (sum_hints account_hint state) (sum_hints revert_hint (map (fun p => (p.2, built_revert b p)) in_range)).
