(* ===== verification/DbBundleSizes.v ===== *)
(** The size counters of a bundle, exact after every operation but for the slots that
    [extend] moves.

    Before that, the latest reverts of a bundle undo the transitions that made
    them: what the bundle and the database below it say of every address comes back.
    The database is a function for the infos and one for the slots. *)

From S2P Require Import Prelude Bytes Eof Bytecode State DbAccounts DbBundleAccount DbRevert.
From S2P Require Import DbBundleState.

(** ** One address of a bundle *)

Definition new_bundle_account : BundleAccount := BundleAccount_new None None ∅ LoadedNotExisting.

Definition revert_entry (r : AccountRevert) (o : option BundleAccount) : option BundleAccount :=
  reverted (Some r) (default new_bundle_account o).

Definition update_entry {E} (t : TransitionAccount) (o : option BundleAccount)
  : outcome E (option AccountRevert * option BundleAccount) :=
  match o with
  | Some b => '(r, b') ← update_and_create_revert t b; Ok (r, Some b')
  | None => r ← create_revert t; Ok (r, match r with Some _ => Some (present_bundle_account t) | None => None end)
  end.

Definition set_entry (a : Address) (o : option BundleAccount) (m : gmap Address BundleAccount) : gmap Address BundleAccount :=
  partial_alter (fun _ => o) a m.

#[global] Arguments set_entry : simpl never.

Lemma set_entry_same a o m : set_entry a o m !! a = o.
Proof. apply lookup_partial_alter_eq. Qed.
Lemma set_entry_other a o m a' : a <> a' -> set_entry a o m !! a' = m !! a'.
Proof. apply lookup_partial_alter_ne. Qed.
Lemma set_entry_none a m : m !! a = None -> set_entry a None m = m.
Proof. intros Hm. apply map_eq. intros a'. destruct (decide (a = a')) as [<-|Hn]; [by rewrite set_entry_same|by apply set_entry_other]. Qed.

Lemma apply_entry {E} a t s r o :
  update_entry t (bs_state s !! a) = Ok (E := E) (r, o) ->
  exists s', apply_bundle_transition a t s = Ok (E := E) (r, s') /\
    bs_state s' = set_entry a o (bs_state s) /\ bs_reverts s' = bs_reverts s.
Proof.
  unfold apply_bundle_transition, update_entry.
  assert (Hc : bs_state (add_contract (has_new_contract t) s) = bs_state s /\
    bs_reverts (add_contract (has_new_contract t) s) = bs_reverts s) by (by destruct (has_new_contract t) as [[]|]).
  destruct Hc as [Hc Hr]. rewrite Hc. destruct (bs_state s !! a) as [b|] eqn:Hb.
  - destruct (update_and_create_revert t b) as [[r' b']| |]; simpl; intros ?; simplify_eq/=.
    eexists. split; [done|]. simpl. rewrite Hc, Hr, insert_delete_eq. done.
  - destruct (create_revert t) as [[r'|]| |]; simpl; intros ?; simplify_eq/=; eexists; (split; [done|]); simpl; rewrite ?Hc, ?Hr; [done|].
    by rewrite (set_entry_none a _ Hb).
Qed.

Lemma revert_account_state s a r :
  bs_state (revert_account s (a, r)) = set_entry a (revert_entry r (bs_state s !! a)) (bs_state s) /\
  bs_reverts (revert_account s (a, r)) = bs_reverts s.
Proof.
  unfold revert_account, revert_entry, reverted, new_bundle_account. cbn [fst snd bs_state set_bs_reverts].
  destruct (bs_state s !! a) as [b|] eqn:Hb; cbn [from_option default id];
    [destruct (BundleAccount_revert r b) as [[] b'] | destruct (BundleAccount_revert r _) as [[] b']];
    simpl; rewrite ?insert_delete_eq; try done. by rewrite (set_entry_none a _ Hb).
Qed.

Lemma fst_in {A B} (l : list (A * B)) a b : (a, b) ∈ l -> a ∈ l.*1.
Proof. intros Hl. apply list_elem_of_fmap. by exists (a, b). Qed.

Section base.
Context (base_info : Address -> option AccountInfo) (base_storage : Address -> Z -> Z).

Definition entry_ok (a : Address) (o : option BundleAccount) : Prop :=
  forall b, o = Some b -> bundle_ok (base_info a) (base_storage a) b.

(** The account that the transition [t] starts from. *)
Definition before (t : TransitionAccount) (o : option BundleAccount) : BundleAccount := default (original_bundle_account t) o.

(** The transition was made on top of what the bundle says of the address. *)
Definition on_top (a : Address) (t : TransitionAccount) (o : option BundleAccount) : Prop :=
  (o = None -> starts (base_info a) (base_storage a) t) /\ follows (base_storage a) t (before t o).

Abbreviation view a := (same_view (base_info a) (base_storage a)).

Record entry_updated (a : Address) (t : TransitionAccount) (o : option BundleAccount) (r : option AccountRevert)
  (o' : option BundleAccount) : Prop := {
  eu_ok : entry_ok a o';
  eu_tells : tells (base_info a) (base_storage a) o' t (before t o);
  eu_revert : view a (match r with Some r => revert_entry r o' | None => o' end) o;
}.

Lemma update_entry_correct {E} a t o :
  entry_ok a o -> on_top a t o -> exists r o', update_entry t o = Ok (E := E) (r, o') /\ entry_updated a t o r o'.
Proof.
  intros Ho [Hst Hf]. destruct o as [b|]; cbn in *.
  - destruct (update_correct (E := E) _ _ t b (Ho b eq_refl) Hf) as (r & b' & -> & Hu). exists r, (Some b'). split; [done|]. split.
    + intros ? [= <-]. by eapply update_ok; [apply Ho| |].
    + apply updated_tells, Hu.
    + destruct r; apply Hu.
  - specialize (Hst eq_refl). destruct (present_fine (E := E) _ _ t Hst Hf) as (r & -> & Hr). destruct r as [r|]; cbn.
    + eexists _, _. split; [done|]. split.
      * intros ? [= <-]. by eapply update_ok; [apply original_ok| |].
      * apply updated_tells, Hr.
      * etrans; [apply Hr|]. by apply original_view.
    + eexists _, _. split; [done|]. by split.
Qed.

(** ** A block of transitions *)

Lemma apply_block {E} include l s :
  NoDup l.*1 -> (forall a, entry_ok a (bs_state s !! a)) -> (forall a t, (a, t) ∈ l -> on_top a t (bs_state s !! a)) ->
  exists rs s', apply_bundle_transitions include l s = Ok (E := E) (rs, s') /\
    bs_reverts s' = bs_reverts s /\ NoDup rs.*1 /\ rs.*1 ⊆ l.*1 /\
    (forall a, a ∉ l.*1 -> bs_state s' !! a = bs_state s !! a) /\
    (forall a t, (a, t) ∈ l -> exists r, update_entry t (bs_state s !! a) = Ok (E := E) (r, bs_state s' !! a) /\
       entry_updated a t (bs_state s !! a) r (bs_state s' !! a) /\
       (include = true -> match r with Some r => (a, r) ∈ rs | None => a ∉ rs.*1 end)).
Proof.
  revert s. induction l as [|[a t] l IH]; intros s Hnd Hok Hon.
  { exists [], s. simpl. split_and!; try done; by intros a t ?%elem_of_nil. }
  apply NoDup_cons in Hnd as [Ha Hnd].
  destruct (update_entry_correct (E := E) a t (bs_state s !! a)) as (r & o & Hu & He); [done|by apply Hon; left|].
  destruct (apply_entry _ _ _ _ _ Hu) as (s1 & Hs1 & Hst & Hrv). simpl. rewrite Hs1. simpl.
  set (kept := if include then r else None).
  set (s2 := match kept with Some r => set_bs_reverts _ _ _ | None => s1 end).
  assert (Hs2 : bs_state s2 = set_entry a o (bs_state s) /\ bs_reverts s2 = bs_reverts s) by (by destruct kept).
  destruct Hs2 as [Hs2 Hr2]. clearbody s2.
  assert (Hother : forall a', a' ∈ l.*1 -> bs_state s2 !! a' = bs_state s !! a').
  { intros a' Ha'. rewrite Hs2. apply set_entry_other. intros ->. done. }
  destruct (IH s2) as (rs & s' & Hrun & Hr' & Hnd' & Hsub & Hout & Hin).
  - done.
  - intros a'. rewrite Hs2. destruct (decide (a = a')) as [<-|Hne]; [rewrite set_entry_same; apply He|by rewrite set_entry_other].
  - intros a' t' Ht'. rewrite Hother by (by eapply fst_in). apply Hon. by right.
  - rewrite Hrun. simpl. eexists _, _. split; [done|]. clear Hrun IH Hs1.
    assert (Ha' : a ∉ rs.*1) by (intros H; by apply Ha, Hsub).
    assert (Hfst : (match kept with Some r => (a, r) :: rs | None => rs end).*1 = (if kept then [a] else []) ++ rs.*1) by (by destruct kept).
    split_and!.
    + congruence.
    + rewrite Hfst. destruct kept; [by constructor|done].
    + rewrite Hfst. destruct kept; set_solver.
    + intros a' Hn. apply not_elem_of_cons in Hn as [Hn1 Hn2]. rewrite Hout, Hs2 by done. by apply set_entry_other.
    + intros a' t' [Heq|Ht']%elem_of_cons.
      * simplify_eq. exists r. rewrite (Hout a Ha), Hs2, set_entry_same. do 2 (split; [done|]). intros ->. unfold kept.
        destruct r; [by left|done].
      * assert (Ha1 : a' ∈ l.*1) by (by eapply fst_in).
        destruct (Hin a' t' Ht') as (r' & Hu' & He' & Hr1). rewrite Hother in Hu', He' by done. exists r'. do 2 (split; [done|]).
        intros Hi. specialize (Hr1 Hi). destruct r'; [destruct kept; [by right|done]|].
        rewrite Hfst. destruct kept; [|done]. rewrite elem_of_app, list_elem_of_singleton. intros [->|]; done.
Qed.

(** Reverting a block goes through its addresses one by one. *)
Lemma revert_block rs s :
  NoDup rs.*1 ->
  bs_reverts (foldl revert_account s rs) = bs_reverts s /\
  (forall a, a ∉ rs.*1 -> bs_state (foldl revert_account s rs) !! a = bs_state s !! a) /\
  (forall a r, (a, r) ∈ rs -> bs_state (foldl revert_account s rs) !! a = revert_entry r (bs_state s !! a)).
Proof.
  revert s. induction rs as [|[a r] rs IH]; intros s Hnd; simpl.
  { split_and!; [done|done|]. by intros a r ?%elem_of_nil. }
  apply NoDup_cons in Hnd as [Ha Hnd]. destruct (revert_account_state s a r) as [Hs Hr].
  destruct (IH (revert_account s (a, r)) Hnd) as (Hr' & Hout & Hin). split_and!.
  - congruence.
  - intros a' Hn. apply not_elem_of_cons in Hn as [Hn1 Hn2]. rewrite Hout, Hs by done. by apply set_entry_other.
  - intros a' r' [Heq|Ht]%elem_of_cons.
    + simplify_eq. rewrite (Hout a Ha), Hs. apply set_entry_same.
    + rewrite (Hin _ _ Ht), Hs, set_entry_other; [done|]. intros ->. apply Ha. by eapply fst_in.
Qed.

Definition bundle_sound (s : BundleState) : Prop := forall a, entry_ok a (bs_state s !! a).
Definition transitions_fit (ts : Transitions) (s : BundleState) : Prop :=
  forall a t, ts !! a = Some t -> on_top a t (bs_state s !! a).
End base.

Lemma entries_fst `{MapIteration} {A} (m : gmap Z A) : NoDup (entries m).*1.
Proof. rewrite (entries_perm m). apply NoDup_fst_map_to_list. Qed.
Lemma elem_of_entries `{MapIteration} {A} (m : gmap Z A) k v : (k, v) ∈ entries m <-> m !! k = Some v.
Proof. by rewrite (entries_perm m), elem_of_map_to_list. Qed.

(** A block that fits is applied, address by address. *)
Lemma apply_block_fits `{MapIteration} {E} base_info base_storage include (ts : Transitions) s :
  bundle_sound base_info base_storage s -> transitions_fit base_info base_storage ts s ->
  exists rs s', apply_bundle_transitions include (entries ts) s = Ok (E := E) (rs, s') /\
    bs_reverts s' = bs_reverts s /\ NoDup rs.*1 /\ (forall a, ts !! a = None -> a ∉ rs.*1) /\
    (forall a, ts !! a = None -> bs_state s' !! a = bs_state s !! a) /\
    (forall a t, ts !! a = Some t -> exists r, update_entry t (bs_state s !! a) = Ok (E := E) (r, bs_state s' !! a) /\
       entry_updated base_info base_storage a t (bs_state s !! a) r (bs_state s' !! a) /\
       (include = true -> match r with Some r => (a, r) ∈ rs | None => a ∉ rs.*1 end)).
Proof.
  intros Hs Hts.
  destruct (apply_block base_info base_storage (E := E) include (entries ts) s) as (rs & s1 & Hrun & Hr & Hnd & Hsub & Hout & Hin).
  { apply entries_fst. }
  { done. }
  { intros a t Ht%elem_of_entries. by apply Hts. }
  assert (Hno : forall a, ts !! a = None -> a ∉ (entries ts).*1).
  { intros a Ha ([a' t] & -> & Ht%elem_of_entries)%list_elem_of_fmap. simpl in Ha. congruence. }
  exists rs, s1. split_and!; try done.
  - intros a Ha Hin'. by apply (Hno a Ha), Hsub.
  - intros a Ha. by apply Hout, Hno.
  - intros a t Ht. by apply Hin, elem_of_entries.
Qed.

(** What the block of transitions [ts] does to the bundle [s]. *)
Record block_applied (base_info : Address -> option AccountInfo) (base_storage : Address -> Z -> Z)
  (ts : Transitions) (s s' : BundleState) : Prop := {
  ba_sound : bundle_sound base_info base_storage s';
  ba_told a t : ts !! a = Some t -> tells (base_info a) (base_storage a) (bs_state s' !! a) t (before t (bs_state s !! a));
  ba_rest a : ts !! a = None -> bs_state s' !! a = bs_state s !! a;
}.

(** C15: merging a block of transitions into a bundle can always be done, and
    [revert_latest] takes it back. The accounts of the bundle are sound and every
    transition was made on top of what the bundle, or else the database, says of its
    address. Then no [unreachable!] is reached whatever the order of the map; the
    bundle says of each account what its transition left, and of the others what it
    said; it is sound, with one more entry of reverts; and [revert_latest] answers
    true and leaves a bundle with the reverts of before that cannot be told apart
    from the first one: every info and every slot of every address. *)
Theorem revert_latest_undoes_transitions `{MapIteration} {E} (base_info : Address -> option AccountInfo)
  (base_storage : Address -> Z -> Z) (ts : Transitions) (s : BundleState)
  (Hs : bundle_sound base_info base_storage s) (Hts : transitions_fit base_info base_storage ts s) :
  exists s', apply_transitions_and_create_reverts ts BundleRetention_Reverts s = Ok (E := E) s' /\
    block_applied base_info base_storage ts s s' /\
    (revert_latest s').1 = true /\
    bs_reverts (revert_latest s').2 = bs_reverts s /\
    (forall a, same_view (base_info a) (base_storage a) (bs_state (revert_latest s').2 !! a) (bs_state s !! a)).
Proof.
  destruct (apply_block_fits (E := E) base_info base_storage true ts s Hs Hts) as (rs & s1 & Hrun & Hr & Hnd & Hsub & Hout & Hin).
  unfold apply_transitions_and_create_reverts. simpl. rewrite Hrun. simpl. eexists. split; [done|].
  unfold revert_latest. simpl. rewrite last_snoc, removelast_last. simpl.
  destruct (revert_block rs (set_bs_reverts (bs_reverts s1) (bs_reverts_size s1) (set_bs_reverts (bs_reverts s1 ++ [rs]) (bs_reverts_size s1) s1)) Hnd)
    as (Hr2 & Hout2 & Hin2). simpl in *.
  split_and!; [split| |by rewrite Hr2|]; simpl.
  - intros a. destruct (ts !! a) as [t|] eqn:Ht; [|by rewrite Hout; [apply Hs|]].
    destruct (Hin a t Ht) as (r & _ & He & _). apply He.
  - intros a t Ht. destruct (Hin a t Ht) as (r & _ & He & _). apply He.
  - done.
  - done.
  - intros a. destruct (ts !! a) as [t|] eqn:Ht.
    + destruct (Hin a t Ht) as (r & _ & He & Hrs). specialize (Hrs eq_refl). pose proof (eu_revert _ _ _ _ _ _ _ He) as Hv.
      destruct r as [r|]; [by rewrite (Hin2 _ _ Hrs)|by rewrite Hout2].
    + rewrite Hout2, Hout; [done|done|]. by apply Hsub.
Qed.

(** An empty bundle, and a block that creates one account and destroys another. *)
Definition example_base_info (a : Address) : option AccountInfo := if a =? 1 then Some example_info else None.
Definition example_base_storage (a k : Z) : Z := if a =? 1 then example_storage k else 0.
Definition creating : TransitionAccount :=
  mkTransitionAccount (Some example_info) InMemoryChange None LoadedNotExisting {[ 4 := mkStorageSlot 0 8 ]} false.
Definition example_block : Transitions := <[ 1 := destroying ]> {[ 2 := creating ]}.

Lemma example_block_fits : transitions_fit example_base_info example_base_storage example_block BundleState_default.
Proof.
  intros a t Ht. unfold example_block in Ht. apply lookup_insert_Some in Ht as [[<- <-]|[_ [<- <-]%lookup_singleton_Some]].
  - split; [intros _|]; split; try done. split; [by intros [? ?]|done].
  - split; [intros _|]; split; try done; [split; [by intros [? ?]|done]|].
    intros _ k s. cbn. rewrite lookup_singleton_Some. by intros [<- <-].
Qed.

Lemma revert_latest_undoes_transitions_witness :
  exists s', apply_transitions_and_create_reverts (H := sorted_entries) example_block BundleRetention_Reverts BundleState_default
      = Ok (E := Empty_set) s' /\ (revert_latest s').1 = true /\
    (forall a, same_view (example_base_info a) (example_base_storage a) (bs_state (revert_latest s').2 !! a) None).
Proof.
  assert (Hs : bundle_sound example_base_info example_base_storage BundleState_default) by (intros a b; cbn; by rewrite lookup_empty).
  destruct (revert_latest_undoes_transitions (H := sorted_entries) (E := Empty_set) _ _ _ _ Hs example_block_fits)
    as (s' & H1 & _ & H2 & _ & H3).
  exists s'. split; [exact H1|]. split; [exact H2|]. intros a. specialize (H3 a). cbn in H3. rewrite lookup_empty in H3. exact H3.
Defined.

(** ** Totals *)

Definition total_hint {A} (hint : A -> Z) (l : list A) : Z := foldr (fun x n => hint x + n) 0 l.
Definition state_total (m : gmap Address BundleAccount) : Z := map_fold (fun _ b n => BundleAccount_size_hint b + n) 0 m.

Lemma sum_hints_total {A} (hint : A -> Z) l : sum_hints hint l = total_hint hint l mod 2 ^ 64.
Proof.
  assert (H : forall n, foldl (fun n x => usize_add n (hint x)) n l mod 2 ^ 64 = (n + total_hint hint l) mod 2 ^ 64 /\
    (n = n mod 2 ^ 64 -> foldl (fun n x => usize_add n (hint x)) n l = foldl (fun n x => usize_add n (hint x)) n l mod 2 ^ 64)).
  { induction l as [|x l IH]; intros n; simpl; [by rewrite Z.add_0_r|].
    destruct (IH (usize_add n (hint x))) as [H1 H2]. split.
    - rewrite H1. unfold usize_add, wrapping_add. rewrite Z.add_mod_idemp_l by lia. f_equal. lia.
    - intros _. apply H2. unfold usize_add, wrapping_add. by rewrite Z.mod_mod by lia. }
  destruct (H 0) as [H1 H2]. unfold sum_hints. rewrite H2, H1 by done. done.
Qed.

Lemma total_hint_app {A} (hint : A -> Z) l k : total_hint hint (l ++ k) = total_hint hint l + total_hint hint k.
Proof. induction l; simpl; lia. Qed.

Lemma state_total_insert m a b : m !! a = None -> state_total (<[ a := b ]> m) = BundleAccount_size_hint b + state_total m.
Proof. intros Hm. unfold state_total. apply (map_fold_insert_L (fun _ b n => BundleAccount_size_hint b + n)); [intros; lia|done]. Qed.
Lemma state_total_delete m a b : m !! a = Some b -> state_total m = BundleAccount_size_hint b + state_total (delete a m).
Proof. intros Hm. unfold state_total. apply (map_fold_delete_L (fun _ b n => BundleAccount_size_hint b + n)); [intros; lia|done]. Qed.

(** The counters are those of the maps and of the lists, as far as [usize] goes. *)
Record sizes_exact (s : BundleState) : Prop := {
  sz_state : bs_state_size s = state_total (bs_state s) mod 2 ^ 64;
  sz_reverts : bs_reverts_size s = total_hint revert_hint (concat (bs_reverts s)) mod 2 ^ 64;
}.

(** The same, but for slots that are counted and that no account has. *)
Record sizes_drift (drift : Z) (s : BundleState) : Prop := {
  sd_state : bs_state_size s = (drift + state_total (bs_state s)) mod 2 ^ 64;
  sd_reverts : bs_reverts_size s = total_hint revert_hint (concat (bs_reverts s)) mod 2 ^ 64;
}.

Section drifting.
Context (drift : Z).

(** The same with reverts that are not in the list yet, or not any more. *)
Record sizes_with (pending : Z) (s : BundleState) : Prop := {
  sw_state : bs_state_size s = (drift + state_total (bs_state s)) mod 2 ^ 64;
  sw_reverts : bs_reverts_size s = (pending + total_hint revert_hint (concat (bs_reverts s))) mod 2 ^ 64;
}.

Lemma sizes_with_0 s : sizes_drift drift s <-> sizes_with 0 s.
Proof. split; intros [H1 H2]; by split. Qed.

(** ** The steps on one address *)

Lemma take_account_sizes n a b s : bs_state s !! a = Some b -> sizes_with n s -> sizes_with n (take_account a b s).
Proof.
  intros Hb [H1 H2]. split; [|done]. simpl. rewrite H1, (state_total_delete _ _ _ Hb). unfold wrapping_sub.
  rewrite Zminus_mod_idemp_l. f_equal. lia.
Qed.
Lemma put_account_sizes n a b s : bs_state s !! a = None -> sizes_with n s -> sizes_with n (put_account a b s).
Proof.
  intros Hb [H1 H2]. split; [|done]. simpl. rewrite H1, (state_total_insert _ _ _ Hb). unfold usize_add, wrapping_add.
  rewrite Z.add_mod_idemp_l by lia. f_equal. lia.
Qed.
Lemma put_taken_sizes n a b b' s : bs_state s !! a = Some b -> sizes_with n s -> sizes_with n (put_account a b' (take_account a b s)).
Proof. intros Hb Hs. apply put_account_sizes; [apply lookup_delete_eq|by apply take_account_sizes]. Qed.
Lemma add_contract_sizes n p s : sizes_with n s -> sizes_with n (add_contract p s).
Proof. destruct p as [[hash c]|]; [|done]. intros [H1 H2]. by split. Qed.
Lemma count_revert_sizes n r s :
  sizes_with n s -> sizes_with (AccountRevert_size_hint r + n)
    (set_bs_reverts (bs_reverts s) (usize_add (bs_reverts_size s) (AccountRevert_size_hint r)) s).
Proof.
  intros [H1 H2]. split; [done|]. simpl. rewrite H2. unfold usize_add, wrapping_add. rewrite Z.add_mod_idemp_l by lia. f_equal. lia.
Qed.
Lemma uncount_revert_sizes n r s :
  sizes_with (AccountRevert_size_hint r + n) s ->
  sizes_with n (set_bs_reverts (bs_reverts s) (wrapping_sub 64 (bs_reverts_size s) (AccountRevert_size_hint r)) s).
Proof. intros [H1 H2]. split; [done|]. simpl. rewrite H2. unfold wrapping_sub. rewrite Zminus_mod_idemp_l. f_equal. lia. Qed.

Lemma apply_transition_sizes {E} n a t s r s' :
  apply_bundle_transition a t s = Ok (E := E) (r, s') -> sizes_with n s -> sizes_with n s'.
Proof.
  unfold apply_bundle_transition. intros Heq Hs. apply (add_contract_sizes n (has_new_contract t)) in Hs.
  revert Heq Hs. generalize (add_contract (has_new_contract t) s). intros s0 Heq Hs0.
  destruct (bs_state s0 !! a) as [b|] eqn:Hb.
  - destruct (update_and_create_revert t b) as [[r' b']| |]; simplify_eq/=. by apply put_taken_sizes.
  - destruct (create_revert t) as [[r'|]| |]; simplify_eq/=; [|done]. by apply put_account_sizes.
Qed.

Lemma apply_transitions_sizes {E} include l n s rs s' :
  apply_bundle_transitions include l s = Ok (E := E) (rs, s') -> sizes_with n s ->
  sizes_with (total_hint revert_hint rs + n) s' /\ bs_reverts s' = bs_reverts s.
Proof.
  revert n s rs s'. induction l as [|[a t] l IH]; intros n s rs s' Heq Hs; simpl in Heq; [by simplify_eq|].
  destruct (apply_bundle_transition a t s) as [[r s1]| |] eqn:H1; simplify_eq/=.
  assert (Hr1 : bs_reverts s1 = bs_reverts s).
  { unfold apply_bundle_transition in H1. assert (Hc : bs_reverts (add_contract (has_new_contract t) s) = bs_reverts s)
      by (by destruct (has_new_contract t) as [[]|]).
    destruct (bs_state (add_contract _ s) !! a) as [b|].
    - destruct (update_and_create_revert t b) as [[]| |]; by simplify_eq/=.
    - destruct (create_revert t) as [[]| |]; by simplify_eq/=. }
  apply (apply_transition_sizes n) in H1; [|done].
  destruct (if include then r else None) as [r'|]; cbn zeta in Heq.
  - destruct (apply_bundle_transitions include l _) as [[rs' s2]| |] eqn:H2; simplify_eq/=.
    destruct (IH (AccountRevert_size_hint r' + n) _ _ _ H2) as [Hn Hr2]; [by apply count_revert_sizes|].
    split; [|by rewrite Hr2]. simpl in *. unfold revert_hint at 1. simpl.
    by replace (AccountRevert_size_hint r' + total_hint revert_hint rs' + n) with (total_hint revert_hint rs' + (AccountRevert_size_hint r' + n)) by lia.
  - destruct (apply_bundle_transitions include l s1) as [[rs' s2]| |] eqn:H2; simplify_eq/=.
    destruct (IH n _ _ _ H2 H1) as [Hn Hr2]. split; [done|by rewrite Hr2].
Qed.

Lemma revert_account_sizes n p s :
  sizes_with (revert_hint p + n) s -> sizes_with n (revert_account s p) /\ bs_reverts (revert_account s p) = bs_reverts s.
Proof.
  intros Hs. apply uncount_revert_sizes in Hs. unfold revert_account. cbn [bs_state set_bs_reverts].
  destruct (bs_state s !! p.1) as [b|] eqn:Hb.
  - destruct (BundleAccount_revert p.2 b) as [[] b']; (split; [|done]).
    + by apply take_account_sizes.
    + by apply put_taken_sizes.
  - destruct (BundleAccount_revert p.2 _) as [[] b']; (split; [|done]); [done|]. by apply put_account_sizes.
Qed.

Lemma revert_accounts_sizes rs n s :
  sizes_with (total_hint revert_hint rs + n) s ->
  sizes_with n (foldl revert_account s rs) /\ bs_reverts (foldl revert_account s rs) = bs_reverts s.
Proof.
  revert s. induction rs as [|p rs IH]; intros s Hs; [done|]. simpl in *. rewrite <-Z.add_assoc in Hs.
  destruct (revert_account_sizes _ _ _ Hs) as [H1 H2]. destruct (IH _ H1) as [H3 H4]. split; [done|]. congruence.
Qed.

Lemma extend_state_sizes n l s : sizes_with n s -> sizes_with n (foldl extend_state_entry s l).
Proof.
  revert s. induction l as [|p l IH]; intros s Hs; [done|]. apply IH. unfold extend_state_entry.
  destruct (bs_state s !! p.1) eqn:Hb; [by apply put_taken_sizes|by apply put_account_sizes].
Qed.

End drifting.

(** ** What [extend] drains *)

Definition clear_storage (b : BundleAccount) : BundleAccount :=
  mkBundleAccount (ba_info b) (ba_original_info b) ∅ (ba_status b).
(** The accounts when the storages that some reverts wipe are moved out of them. *)
Definition cleared (l : list (Address * AccountRevert)) (m : gmap Address BundleAccount) : gmap Address BundleAccount :=
  foldl (fun m p => if ar_wipe_storage p.2 then alter clear_storage p.1 m else m) m l.
(** The slots that are moved. *)
Fixpoint drained (l : list (Address * AccountRevert)) (m : gmap Address BundleAccount) : Z :=
  match l with
  | [] => 0
  | p :: l =>
      (if ar_wipe_storage p.2 then Z.of_nat (size (from_option ba_storage ∅ (m !! p.1))) else 0) + drained l (cleared [p] m)
  end.

Lemma drained_app l k m : drained (l ++ k) m = drained l m + drained k (cleared l m).
Proof. revert m. induction l as [|p l IH]; intros m; simpl; [done|]. rewrite IH. simpl. lia. Qed.
Lemma cleared_app l k m : cleared (l ++ k) m = cleared k (cleared l m).
Proof. apply foldl_app. Qed.

Lemma state_total_clear a b m :
  m !! a = Some b -> state_total m = Z.of_nat (size (ba_storage b)) + state_total (alter clear_storage a m).
Proof.
  intros Ha. rewrite (state_total_delete _ _ _ Ha), (state_total_delete (alter clear_storage a m) a (clear_storage b))
    by (by rewrite lookup_alter_eq, Ha). rewrite delete_alter_eq. unfold BundleAccount_size_hint. simpl. rewrite map_size_empty. lia.
Qed.

(** What a part of [extend] does to the counters and to the accounts. *)
Record drains (n d : Z) (l l' : list (Address * AccountRevert)) (s s' : BundleState) : Prop := {
  dr_sizes : sizes_with (d + drained l (bs_state s)) (total_hint revert_hint l' + n) s';
  dr_state : bs_state s' = cleared l (bs_state s);
  dr_reverts : bs_reverts s' = bs_reverts s;
}.
Lemma drains_app n d l1 l1' l2 l2' s s1 s2 :
  drains n d l1 l1' s s1 ->
  drains (total_hint revert_hint l1' + n) (d + drained l1 (bs_state s)) l2 l2' s1 s2 -> drains n d (l1 ++ l2) (l1' ++ l2') s s2.
Proof.
  intros [H1 H2 H3] [G1 G2 G3]. rewrite H2 in G1, G2. split; [|by rewrite cleared_app|congruence].
  rewrite drained_app, total_hint_app.
  replace (total_hint revert_hint l1' + total_hint revert_hint l2' + n)
    with (total_hint revert_hint l2' + (total_hint revert_hint l1' + n)) by lia.
  by replace (d + (drained l1 (bs_state s) + drained l2 (cleared l1 (bs_state s))))
    with (d + drained l1 (bs_state s) + drained l2 (cleared l1 (bs_state s))) by lia.
Qed.

Lemma extend_revert_drains n d s p p' s' :
  extend_revert s p = (p', s') -> sizes_with d n s -> drains n d [p] [p'] s s'.
Proof.
  unfold extend_revert. intros He Hs. simpl in He.
  assert (Hcount : forall r s1 e, sizes_with e n s1 ->
    sizes_with e (total_hint revert_hint [(p.1, r)] + n)
      (set_bs_reverts (bs_reverts s1) (usize_add (bs_reverts_size s1) (AccountRevert_size_hint r)) s1)).
  { intros r s1 e H1. apply (count_revert_sizes e n r) in H1. unfold total_hint, revert_hint. cbn [foldr snd].
    by rewrite Z.add_0_r. }
  destruct (bs_state s !! p.1) as [b|] eqn:Hb; [destruct (ar_wipe_storage p.2) eqn:Hw|]; simplify_eq; split;
    unfold cleared; simpl; rewrite ?Hw, ?Hb; simpl; try done.
  - apply (Hcount _ (mkBundleState _ _ _ _ _)). destruct Hs as [H1 H2]. split; [|done]. simpl.
    rewrite H1, (state_total_clear _ _ _ Hb).
    replace (<[p.1 := _]> (bs_state s)) with (alter clear_storage p.1 (bs_state s)); [f_equal; lia|].
    apply map_eq. intros k. rewrite lookup_insert, lookup_alter. case_decide; [by subst k; rewrite Hb|done].
  - apply map_eq. intros k. rewrite lookup_insert, lookup_alter. case_decide; [by subst k; rewrite Hb|done].
  - rewrite Z.add_0_r. by apply Hcount.
  - rewrite map_size_empty, Z.add_0_r.
    assert (H0 : (if ar_wipe_storage p.2 then Z.of_nat 0 else 0) = 0) by (by destruct (ar_wipe_storage p.2)).
    rewrite H0, Z.add_0_r. by apply Hcount.
  - destruct (ar_wipe_storage p.2); [|done]. apply map_eq. intros k. rewrite lookup_alter. case_decide; [by subst k; rewrite Hb|done].
Qed.
Lemma extend_reverts_drains l n d s l' s' :
  extend_reverts l s = (l', s') -> sizes_with d n s -> drains n d l l' s s'.
Proof.
  revert n d s l' s'. induction l as [|p l IH]; intros n d s l' s' He Hs; simpl in He.
  { simplify_eq. split; [|done..]. simpl. by rewrite Z.add_0_r. }
  destruct (extend_revert s p) as [p' s1] eqn:H1. destruct (extend_reverts l s1) as [l1 s2] eqn:H2. simplify_eq.
  pose proof (extend_revert_drains _ _ _ _ _ _ H1 Hs) as Hd.
  apply (drains_app n d [p] [p'] l l1 s s1 s' Hd), IH; [done|apply Hd].
Qed.
Lemma extend_blocks_drains blocks n d s blocks' s' :
  extend_blocks blocks s = (blocks', s') -> sizes_with d n s -> drains n d (concat blocks) (concat blocks') s s'.
Proof.
  revert n d s blocks' s'. induction blocks as [|l blocks IH]; intros n d s blocks' s' He Hs; simpl in He.
  { simplify_eq. split; [|done..]. simpl. by rewrite Z.add_0_r. }
  destruct (extend_reverts l s) as [l1 s1] eqn:H1. destruct (extend_blocks blocks s1) as [b1 s2] eqn:H2. simplify_eq.
  pose proof (extend_reverts_drains _ _ _ _ _ _ H1 Hs) as Hd. simpl. eapply drains_app; [exact Hd|]. eapply IH; [done|apply Hd].
Qed.

(** ** Bundles that are made at once *)

Lemma state_total_list (l : list (Address * BundleAccount)) : NoDup l.*1 -> state_total (list_to_map l) = total_hint account_hint l.
Proof.
  induction l as [|[a b] l IH]; [done|]. intros [Ha Hl]%NoDup_cons. simpl.
  rewrite state_total_insert by (by apply not_elem_of_list_to_map_1). by rewrite IH.
Qed.

(** Blocks that share a list out by the number of an entry. *)
Lemma total_blocks {A B} (key : A -> Z) (f : A -> B) (hint : B -> Z) (ns : list Z) (l : list A) :
  NoDup ns ->
  total_hint hint (concat (map (fun n => map f (filter (fun p => key p = n) l)) ns)) =
  total_hint hint (map f (filter (fun p => key p ∈ ns) l)).
Proof.
  intros Hns. induction Hns as [|n ns Hn Hns IH]; simpl.
  { induction l as [|p l IH]; [done|]. rewrite filter_cons_False; [done|]. apply not_elem_of_nil. }
  rewrite total_hint_app, IH. clear IH. induction l as [|p l IH]; [done|]. rewrite !filter_cons.
  destruct (decide (key p = n)) as [He|He], (decide (key p ∈ ns)) as [Hi|Hi], (decide (key p ∈ n :: ns)) as [Hc|Hc];
    try (exfalso; rewrite elem_of_cons in Hc; naive_solver); simpl; lia.
Qed.

Lemma build_sizes b : sizes_exact (BundleBuilder_build b).
Proof.
  unfold BundleBuilder_build. destruct (bb_revert_range b) as [lo hi]. split; simpl; rewrite sum_hints_total; f_equal.
  - symmetry. apply state_total_list. rewrite <-list_fmap_compose.
    assert (Hid : (fst ∘ (fun a => (a, built_account b a))) <$> elements (bb_states b) = elements (bb_states b)).
    { apply list_fmap_id. }
    rewrite Hid. apply NoDup_elements.
  - rewrite (total_blocks fst (fun p => (p.2, built_revert b p)) revert_hint) by apply NoDup_seqZ.
    do 2 f_equal. induction (bb_reverts b) as [|p l IH]; [done|]. rewrite !filter_cons.
    destruct (decide (lo <= p.1 <= hi)) as [Hp|Hp]; [|done]. rewrite filter_cons_True; [by f_equal|].
    apply elem_of_seqZ. lia.
Qed.

Lemma new_sizes state reverts contracts :
  NoDup (map (fun p => p.1.1.1) state) -> sizes_exact (BundleState_new state reverts contracts).
Proof.
  intros Hnd. split; simpl; rewrite sum_hints_total; [|done]. f_equal. unfold collect. symmetry.
  set (l := map _ state).
  assert (Hl : l.*1 = map (fun p => p.1.1.1) state).
  { subst l. clear Hnd. induction state as [|[[[a o] p] st] state IH]; [done|]. simpl. by f_equal. }
  rewrite state_total_list by (rewrite fmap_reverse, Hl; by rewrite reverse_Permutation).
  clear Hl. clearbody l. induction l as [|p l IH]; [done|]. rewrite reverse_cons, total_hint_app, IH. simpl. lia.
Qed.

(** ** Every operation *)

(** An operation on a bundle, with the slots that are counted too many. *)
Inductive bundle_step `{MapIteration} {E} : Z * BundleState -> Z * BundleState -> Prop :=
  | step_apply n s ts retention s' :
      apply_transitions_and_create_reverts ts retention s = Ok (E := E) s' -> bundle_step (n, s) (n, s')
  | step_revert_latest n s : bundle_step (n, s) (n, (revert_latest s).2)
  | step_take_n_reverts n s k : bundle_step (n, s) (n, (take_n_reverts k s).2)
  | step_take_all_reverts n s : bundle_step (n, s) (n, (take_all_reverts s).2)
  | step_extend_state n s other : bundle_step (n, s) (n, extend_state other s)
  | step_extend n s other :
      bundle_step (n, s) (n + drained (concat (bs_reverts other)) (bs_state s), BundleState_extend other s)
  | step_prepend_state n s k other : sizes_drift k other -> bundle_step (n, s) (k, prepend_state other s).

Lemma total_concat_snoc (l : Reverts) rs : total_hint revert_hint (concat (l ++ [rs])) = total_hint revert_hint rs + total_hint revert_hint (concat l).
Proof. rewrite concat_app, total_hint_app. simpl. rewrite app_nil_r. lia. Qed.

Lemma revert_latest_sizes n s : sizes_drift n s -> sizes_drift n (revert_latest s).2.
Proof.
  intros Hs. unfold revert_latest. destruct (last (bs_reverts s)) as [rs|] eqn:Hl; [|done].
  apply last_Some in Hl as [l Hl]. rewrite Hl, removelast_last. simpl.
  apply sizes_with_0. apply revert_accounts_sizes. destruct Hs as [H1 H2]. split; [done|]. simpl.
  rewrite H2, Hl, total_concat_snoc. f_equal. lia.
Qed.
Lemma extend_state_reverts `{MapIteration} other s : bs_reverts (extend_state other s) = bs_reverts s.
Proof.
  unfold extend_state. generalize (entries other). intros l. revert s. induction l as [|p l IH]; intros s; [done|]. simpl. rewrite IH.
  unfold extend_state_entry. by destruct (bs_state s !! p.1).
Qed.
Lemma extend_sizes `{MapIteration} n s other :
  sizes_drift n s -> sizes_drift (n + drained (concat (bs_reverts other)) (bs_state s)) (BundleState_extend other s).
Proof.
  intros Hs%sizes_with_0. unfold BundleState_extend. destruct (extend_blocks (bs_reverts other) s) as [rs s1] eqn:He.
  apply (extend_blocks_drains _ 0 n) in He as [H1 _ H3]; [|done].
  apply (extend_state_sizes _ _ (entries (bs_state other))) in H1 as [H1 H2]. split; [exact H1|].
  cbn [bs_reverts bs_reverts_size Reverts_extend]. fold (extend_state (bs_state other) s1) in *. rewrite H2, extend_state_reverts, H3.
  unfold Reverts_extend. rewrite concat_app, total_hint_app. f_equal. lia.
Qed.

Lemma bundle_step_sizes `{MapIteration} {E} c c' :
  bundle_step (E := E) c c' -> sizes_drift c.1 c.2 -> sizes_drift c'.1 c'.2.
Proof.
  intros Hstep. destruct Hstep as [n s ts retention s' Happ| | | |n s other| |n s k other Ho]; cbn [fst snd]; intros Hs.
  - unfold apply_transitions_and_create_reverts in Happ.
    destruct (apply_bundle_transitions _ _ s) as [[rs s1]| |] eqn:H1; simplify_eq/=.
    apply (apply_transitions_sizes n _ _ 0) in H1 as [[H2 H3] H4]; [|by apply sizes_with_0].
    split; [done|]. simpl. rewrite H3, total_concat_snoc. f_equal. lia.
  - by apply revert_latest_sizes.
  - destruct Hs as [H1 H2]. unfold take_n_reverts. destruct (_ <? _)%nat; (split; [done|]); [done|]. simpl. apply sum_hints_total.
  - by destruct Hs.
  - apply sizes_with_0. by apply extend_state_sizes, sizes_with_0.
  - by apply extend_sizes.
  - apply sizes_with_0 in Ho. unfold prepend_state, extend_state.
    destruct (extend_state_sizes k 0 (entries (bs_state s)) other Ho) as [H1 H2]. split; [done|]. by rewrite H2.
Qed.

(** C35: the counters of a bundle are followed through every operation. Whatever
    blocks of transitions are merged, reverted or taken and whatever bundles extend
    it or are prepended to it, in any order and any number of times, the counter of
    the reverts stays the sum of their size hints, and the counter of the state the
    sum of those of the accounts and of a drift; both wrap where [usize] does. Only
    [extend] adds to the drift, by the slots of this bundle that the reverts of the
    other one wipe, which it moves out without uncounting them; to prepend a bundle
    takes over the drift of that bundle. A bundle that is exact has a drift of 0. *)
Theorem bundle_sizes_count_drained_slots `{MapIteration} {E} n (s : BundleState) n' s'
  (Hs : sizes_drift n s) (Hsteps : rtc (bundle_step (E := E)) (n, s) (n', s')) : sizes_drift n' s'.
Proof.
  enough (sizes_drift (n', s').1 (n', s').2) by done. change (sizes_drift (n, s).1 (n, s).2) in Hs.
  induction Hsteps; [done|]. eauto using bundle_step_sizes.
Qed.

(** The bundles of the tests of the source. *)
Definition test_info (n balance : Z) : AccountInfo := mkInfo {[ BASE_TOKEN_ID := balance ]} n KECCAK_EMPTY None.
Definition test_account1 : Address := 0x60.
Definition test_account2 : Address := 0x61.
Definition test_bundle1 : BundleState :=
  BundleState_new
    [(test_account1, None, Some (test_info 1 10), <[ 5 := (0, 10) ]> {[ 7 := (0, 15) ]});
     (test_account2, None, Some (test_info 1 10), ∅)]
    [[(test_account1, Some None, [(5, 0); (7, 0)]); (test_account2, Some None, [])]] [].
Definition test_bundle2 : BundleState :=
  BundleState_new [(test_account1, None, Some (test_info 3 20), {[ 5 := (0, 15) ]})]
    [[(test_account1, Some (Some (test_info 1 10)), [(5, 10)])]] [].
Definition test_bundle3 : BundleState :=
  BundleBuilder_build (revert_account_info 0 test_account2 (Some None) (revert_storage 0 test_account1 [(5, 0)]
    (revert_account_info 0 test_account1 (Some None) (revert_address 0 test_account1
    (state_present_account_info test_account2 (test_info 1 10) (state_address test_account2
    (state_storage test_account1 {[ 5 := (0, 10) ]} (state_present_account_info test_account1 (test_info 1 10)
    (BundleBuilder_new (0, 0)))))))))).
Definition test_bundle4 : BundleState :=
  BundleBuilder_build (revert_storage 0 test_account1 [(5, 10)] (revert_account_info 0 test_account1 (Some (Some (test_info 1 10)))
    (revert_address 0 test_account1 (state_storage test_account1 {[ 5 := (0, 15) ]}
    (state_present_account_info test_account1 (test_info 3 20) (BundleBuilder_new (0, 0))))))).

(** [sanity_path]. *)
Definition sanity_path (bundle1 bundle2 : BundleState) : Prop :=
  let extended := BundleState_extend (H := sorted_entries) bundle2 bundle1 in
  BundleState_revert 0 extended = extended /\ BundleState_revert 1 extended = bundle1 /\
  BundleState_revert 2 extended = BundleState_default /\ BundleState_revert 10 extended = BundleState_default.
Example test_sanity_path_1 : sanity_path test_bundle1 test_bundle2.
Proof. vm_compute. done. Qed.
Example test_sanity_path_2 : sanity_path test_bundle3 test_bundle4.
Proof. vm_compute. done. Qed.

(** The second bundle of [extend_on_destroyed_values]: it wipes a storage. *)
Definition with_status (a : Address) (status : AccountStatus) (s : BundleState) : BundleState :=
  mkBundleState (alter (fun b => mkBundleAccount (ba_info b) (ba_original_info b) (ba_storage b) status) a (bs_state s))
    (bs_contracts s) (bs_reverts s) (bs_state_size s) (bs_reverts_size s).
Definition wiping_reverts (s : BundleState) : BundleState :=
  set_bs_reverts (map (map (fun p => (p.1, mkAccountRevert (ar_account p.2) (ar_storage p.2) (ar_previous_status p.2) true)))
    (bs_reverts s)) (bs_reverts_size s) s.

(** The two slots of the test [extend_on_destroyed_values] are counted for ever. *)
Lemma bundle_sizes_count_drained_slots_witness :
  let other := wiping_reverts (with_status test_account1 Destroyed test_bundle2) in
  sizes_drift 2 (revert_latest (BundleState_extend (H := sorted_entries) other test_bundle1)).2.
Proof.
  intros other. assert (H0 : sizes_drift 0 test_bundle1) by (split; vm_compute; reflexivity).
  apply (bundle_sizes_count_drained_slots (H := sorted_entries) (E := Empty_set) 0 test_bundle1 2 _ H0).
  eapply rtc_l; [apply (step_extend 0 test_bundle1 other)|]. apply rtc_once, step_revert_latest.
Defined.

(** [extend] is the operation that does not keep the size of the state. When the
    second bundle destroys an account of the first one, the storage of the first is
    drained into the revert before its size is subtracted, so the drained slots stay
    counted for ever: on the bundles of the test [extend_on_destroyed_values] the
    counters of both are exact and those of the result are 2 too many. *)
Theorem extend_keeps_drained_slots_counted :
  let other := wiping_reverts (with_status test_account1 Destroyed test_bundle2) in
  let s := BundleState_extend (H := sorted_entries) other test_bundle1 in
  sizes_exact test_bundle1 /\ sizes_exact other /\
  bs_state_size s = state_total (bs_state s) + 2 /\
  bs_reverts_size s = total_hint revert_hint (concat (bs_reverts s)).
Proof. split_and!; try (split; vm_compute; reflexivity); vm_compute; reflexivity. Qed.
