(* ===== verification/DbPlainState.v ===== *)
(** The changes a bundle hands over, written to the database, make the database
    say what the bundle says. *)

From S2P Require Import Prelude.
From S2P Require Import Bytes.
From S2P Require Import Eof.
From S2P Require Import Bytecode.
From S2P Require Import State.
From S2P Require Import DbAccounts.
From S2P Require Import DbBundleAccount.
From S2P Require Import DbRevert.
From S2P Require Import DbBundleState.
From S2P Require Import DbBundleSizes.

(** ** Writing a changeset, as the records of [changes.rs] document it *)

Definition write_infos (c : StateChangeset) (info : Address -> option AccountInfo) (a : Address) : option AccountInfo :=
  default (info a) (collect (sc_accounts c) !! a).

(** The storage is wiped first where it has to be. *)
Definition write_slots (p : PlainStorageChangeset) (slot : Z -> Z) (k : Z) : Z :=
  default (if psc_wipe_storage p then 0 else slot k) (collect (psc_storage p) !! k).
Definition write_storages (c : StateChangeset) (storage : Address -> Z -> Z) (a : Address) : Z -> Z :=
  match collect (map (fun p => (psc_address p, p)) (sc_storage c)) !! a with
  | Some p => write_slots p (storage a)
  | None => storage a
  end.

(** ** Collecting what a map's entries give *)

Section collecting.
Context `{MapIteration} {A B : Type}.

Lemma collect_lookup (l : list (Z * B)) k v : NoDup l.*1 -> collect l !! k = Some v <-> (k, v) ∈ l.
Proof.
  intros Hl. unfold collect. rewrite <-elem_of_list_to_map.
  - by rewrite elem_of_reverse.
  - by rewrite fmap_reverse, reverse_Permutation.
Qed.

(** Every entry gives at most one, with its own key. *)
Context (f : Z * A -> option B).
Definition entry_list (p : Z * A) : list (Z * B) := match f p with Some v => [(p.1, v)] | None => [] end.

Lemma entry_list_fst (l : list (Z * A)) : NoDup l.*1 -> NoDup (l ≫= entry_list).*1 /\ (l ≫= entry_list).*1 ⊆ l.*1.
Proof.
  induction l as [|p l IH]; [done|]. intros [Hp Hl]%NoDup_cons. destruct (IH Hl) as [H1 H2].
  cbn [mbind list_bind]. unfold entry_list at 1 3. destruct (f p); simpl; [|split; [done|set_solver]].
  split; [|set_solver]. constructor; [|done]. intros Hin. by apply Hp, H2.
Qed.

Lemma collect_entries (m : gmap Z A) k : collect (entries m ≫= entry_list) !! k = (v ← m !! k; f (k, v)).
Proof.
  apply option_eq. intros v. rewrite collect_lookup by apply entry_list_fst, entries_fst.
  rewrite list_elem_of_bind. split.
  - intros ([k' a] & Hin & Hm%elem_of_entries). unfold entry_list in Hin. destruct (f (k', a)) eqn:Hf; [|by apply elem_of_nil in Hin].
    apply list_elem_of_singleton in Hin. simplify_eq/=. by rewrite Hm.
  - intros Hv. destruct (m !! k) as [a|] eqn:Hm; simplify_eq/=. exists (k, a). split; [|by apply elem_of_entries].
    unfold entry_list. rewrite Hv. simpl. by left.
Qed.
End collecting.

(** ** The database after the write *)

(** The slots of the bundle remember what the database has, and an account that is
    known without having been destroyed has no storage there. *)
Record settled (base_storage : Z -> Z) (b : BundleAccount) : Prop := {
  se_original : was_destroyed (ba_status b) = false -> forall k s, ba_storage b !! k = Some s ->
    previous_or_original_value s = base_storage k;
  se_fresh : was_destroyed (ba_status b) = false -> is_storage_known (ba_status b) = true -> forall k, base_storage k = 0;
}.

Section plain.
Context `{MapIteration}.

Definition plain_slot_value (known : OriginalValuesKnown) (destroyed : bool) (p : Z * StorageSlot) : option Z :=
  if is_not_known known || destroyed && negb (slot_present p.2 =? 0) || negb destroyed && StorageSlot_is_changed p.2
  then Some (slot_present p.2) else None.

Lemma plain_slots_lookup known b k :
  collect (entries (ba_storage b) ≫= plain_slot known (was_destroyed (ba_status b))) !! k =
  (s ← ba_storage b !! k; plain_slot_value known (was_destroyed (ba_status b)) (k, s)).
Proof.
  rewrite <-collect_entries. f_equal. unfold collect. do 2 f_equal. apply list_bind_ext; [|done].
  intros p. unfold entry_list, plain_slot, plain_slot_value. by destruct (_ || _ || _).
Qed.

(** The slots of one account. *)
Lemma plain_slots_value base_storage known b k :
  (is_not_known known = false -> forall k s, was_destroyed (ba_status b) = false -> ba_storage b !! k = Some s ->
     previous_or_original_value s = base_storage k) ->
  (was_destroyed (ba_status b) = false -> is_storage_known (ba_status b) = true -> forall k, base_storage k = 0) ->
  default (if was_destroyed (ba_status b) then 0 else base_storage k)
    (collect (entries (ba_storage b) ≫= plain_slot known (was_destroyed (ba_status b))) !! k) =
  bundle_value base_storage (Some b) k.
Proof.
  intros Ho Hf. rewrite plain_slots_lookup. cbn. unfold slot_value.
  destruct (ba_storage b !! k) as [s|] eqn:Hk; simpl.
  - unfold plain_slot_value. simpl. destruct (is_not_known known) eqn:Hn; [done|]. simpl.
    unfold StorageSlot_is_changed. destruct (was_destroyed (ba_status b)) eqn:Hd; simpl.
    + rewrite orb_false_r. destruct (Z.eqb_spec (slot_present s) 0); [by simpl|done].
    + destruct (Z.eqb_spec (previous_or_original_value s) (slot_present s)) as [He|He]; simpl; [|done].
      rewrite <-He. symmetry. by apply Ho.
  - destruct (was_destroyed (ba_status b)) eqn:Hd; [by destruct (ba_status b)|].
    destruct (is_storage_known (ba_status b)) eqn:Hk'; [by apply Hf|done].
Qed.
End plain.

(** *** The slots stay settled *)

Lemma extend_settled base_storage t b :
  follows base_storage t b -> ta_storage_was_destroyed t = false ->
  (forall k s, ba_storage b !! k = Some s -> previous_or_original_value s = base_storage k) ->
  (is_storage_known (ba_status b) = true -> forall k, base_storage k = 0) ->
  forall k s, extend_storage (ba_storage b) (ta_storage t) !! k = Some s -> previous_or_original_value s = base_storage k.
Proof.
  intros Ht Hd Ho Hf k s. rewrite extend_storage_lookup. pose proof (fo_slots _ _ _ Ht Hd k) as Hs. cbn in Hs. unfold slot_value in Hs.
  destruct (ba_storage b !! k) as [s0|] eqn:Hk.
  - destruct (ta_storage t !! k); simpl; intros [= <-]; exact (Ho k s0 Hk).
  - destruct (ta_storage t !! k) as [s1|]; simpl; [|done]. intros [= <-]. rewrite (Hs s1 eq_refl).
    destruct (is_storage_known (ba_status b)); [by rewrite Hf|done].
Qed.

(** A transition of an account that is in the database but empty. *)
Lemma fill_settled base_info base_storage t b :
  bundle_ok base_info base_storage b -> follows base_storage t b -> ta_storage_was_destroyed t = false ->
  ba_status b = LoadedEmptyEIP161 -> forall k s, ta_storage t !! k = Some s -> previous_or_original_value s = base_storage k.
Proof.
  intros Hb Ht Hd Hs k s Hk. rewrite (fo_slots _ _ _ Ht Hd k s Hk). cbn. unfold slot_value. rewrite Hs.
  destruct (ba_storage b !! k) eqn:Hbk; [by eapply bo_empty|done].
Qed.

Lemma update_settled {E} base_info base_storage t b r b' :
  bundle_ok base_info base_storage b -> follows base_storage t b -> settled base_storage b ->
  update_and_create_revert t b = Ok (E := E) (r, b') -> settled base_storage b'.
Proof.
  intros Hb Ht [Ho Hf] Hu. pose proof (follows_leads _ _ _ Ht) as Hl.
  assert (Hd : was_destroyed (ta_status t) = false -> ta_storage_was_destroyed t = false) by (by eapply not_destroyed).
  assert (Hfresh := fo_fresh _ _ _ Ht). pose proof (fill_settled _ _ t b Hb Ht) as Hfill.
  pose proof (extend_settled _ t b Ht) as Hext.
  revert Hu. unfold update_and_create_revert. pose proof (fo_modified _ _ _ Ht) as Hm.
  destruct (ta_status t) eqn:Hst; try discriminate Hm; try specialize (Hd eq_refl).
  - (* InMemoryChange *)
    unfold update_to_in_memory. destruct (ba_status b) eqn:Hs; try discriminate Hl; simpl; intros ?; simplify_eq/=;
      (split; simpl; intros _; [|intros _]); try (apply Hext; [done|exact (Ho eq_refl)|by intros; apply Hf]); try (by apply Hfresh); try (by apply Hf); try (by apply Hfill).
    intros k s Hk. rewrite (fo_slots _ _ _ Ht Hd k s Hk). cbn. unfold slot_value. rewrite Hs. simpl.
    destruct (ba_storage b !! k) eqn:Hbk; [|by rewrite Hf]. rewrite Hf by done. eapply (bo_gone _ _ _ Hb); [by rewrite Hs|done].
  - (* Changed *)
    unfold update_to_changed. destruct (ba_status b) eqn:Hs; try discriminate Hl; simpl; intros ?; simplify_eq/=;
      (split; simpl; intros _; [|by intros ?]); (apply Hext; [done|exact (Ho eq_refl)|by intros; apply Hf]).
  - (* Destroyed *)
    unfold update_to_destroyed. destruct (ba_status b) eqn:Hs; try discriminate Hl; simpl; intros ?; simplify_eq/=; (split; simpl; try done).
  - unfold update_to_destroyed_changed, new_selfdestructed_from_bundle. destruct (ba_status b), (ta_storage_was_destroyed t);
      try discriminate Hl; simpl; intros ?; simplify_eq/=; split; done.
  - unfold update_to_destroyed_again, new_selfdestructed_from_bundle. destruct (ba_status b);
      try discriminate Hl; simpl; intros ?; simplify_eq/=; split; done.
Qed.

Lemma original_settled base_info base_storage t : starts base_info base_storage t -> settled base_storage (original_bundle_account t).
Proof. intros Hs. split; cbn; [intros _ k s; by rewrite lookup_empty|]. intros _. by apply Hs. Qed.

(** *** A whole bundle *)

Section bundles.
Context `{MapIteration} (base_info : Address -> option AccountInfo) (base_storage : Address -> Z -> Z).

Definition bundle_settled (s : BundleState) : Prop := forall a b, bs_state s !! a = Some b -> settled (base_storage a) b.

Lemma without_code_equiv i : AccountInfo_eqb (without_code i) i = true.
Proof. apply AccountInfo_eqb_spec. done. Qed.

Lemma plain_info known s a :
  bundle_sound base_info base_storage s ->
  info_equiv (write_infos (into_plain_state known s) base_info a) (bundle_info (base_info a) (bs_state s !! a)).
Proof.
  intros Hs. unfold write_infos. simpl.
  assert (He : collect (entries (bs_state s) ≫= plain_account known) !! a =
    (b ← bs_state s !! a; if is_not_known known || is_info_changed b then Some (without_code <$> ba_info b) else None)).
  { etrans; [|exact (collect_entries (fun p => if is_not_known known || is_info_changed p.2 then Some (without_code <$> ba_info p.2) else None) (bs_state s) a)].
    unfold collect. do 3 f_equal. apply list_bind_ext; [|done]. intros p. unfold entry_list, plain_account. by destruct (_ || _). }
  rewrite He. clear He. destruct (bs_state s !! a) as [b|] eqn:Hb; [|done]. simpl. unfold info_equiv.
  destruct (is_not_known known || is_info_changed b) eqn:Hc; simpl.
  - destruct (ba_info b); [apply without_code_equiv|done].
  - apply orb_false_iff in Hc as [_ Hc]. unfold is_info_changed in Hc. apply negb_false_iff in Hc.
    change (info_equiv (ba_info b) (ba_original_info b)) in Hc. change (info_equiv (base_info a) (ba_info b)). rewrite Hc.
    symmetry. exact (bo_original _ _ _ (Hs a b Hb)).
Qed.

Lemma plain_slots known s a k :
  bundle_settled s ->
  write_storages (into_plain_state known s) base_storage a k = bundle_value (base_storage a) (bs_state s !! a) k.
Proof.
  intros Hs. unfold write_storages. simpl.
  set (f := fun p : Z * BundleAccount =>
    let changed := entries (ba_storage p.2) ≫= plain_slot known (was_destroyed (ba_status p.2)) in
    if negb (bool_decide (changed = [])) || was_destroyed (ba_status p.2)
    then Some (mkPlainStorageChangeset p.1 (was_destroyed (ba_status p.2)) changed) else None).
  assert (He : collect (map (fun p => (psc_address p, p)) (entries (bs_state s) ≫= plain_storage known)) !! a =
    (b ← bs_state s !! a; f (a, b))).
  { etrans; [|exact (collect_entries f (bs_state s) a)]. unfold collect. do 3 f_equal. generalize (entries (bs_state s)). intros l. induction l as [|p l IH]; [done|]. cbn [mbind list_bind]. rewrite map_app, IH. f_equal.
    unfold entry_list, plain_storage, f, BundleAccount_was_destroyed. by destruct (_ || _). }
  rewrite He. clear He. destruct (bs_state s !! a) as [b|] eqn:Hb; [|done]. cbn [mbind option_bind]. destruct (Hs a b Hb) as [Ho Hf].
  rewrite <-(plain_slots_value (base_storage a) known b k) by (intros; naive_solver).
  unfold f. simpl. destruct (was_destroyed (ba_status b)) eqn:Hd.
  - rewrite orb_true_r. done.
  - rewrite orb_false_r. case_bool_decide as Hc; simpl; [by rewrite Hc|done].
Qed.

Lemma update_entry_settled {E} a t o r o' :
  entry_ok base_info base_storage a o -> on_top base_info base_storage a t o ->
  (forall b, o = Some b -> settled (base_storage a) b) -> update_entry t o = Ok (E := E) (r, o') ->
  forall b, o' = Some b -> settled (base_storage a) b.
Proof.
  intros Hok [Hst Hf] Hs Hu b ->. destruct o as [b0|]; simpl in Hu.
  - destruct (update_and_create_revert t b0) as [[r0 b1]| |] eqn:H1; simplify_eq/=.
    eapply update_settled; [by apply Hok|exact Hf|by apply Hs|exact H1].
  - specialize (Hst eq_refl). unfold create_revert in Hu.
    destruct (update_and_create_revert t _) as [[[r0|] b1]| |] eqn:H1; simplify_eq/=.
    rewrite <-(present_is_updated _ _ _ _ Hf H1).
    eapply update_settled; [by apply original_ok|exact Hf|by eapply original_settled|exact H1].
Qed.
End bundles.

(** C34: the changes of a bundle, written to the database, are the block. For a
    sound bundle over a database and a block of transitions that fits it, the
    bundle after the block hands over a plain state, with the original values taken
    as known or not, that makes the database say of every account that the block
    changed what its transition left, and of every other account what the bundle
    said of it: infos up to the code, and the value of every slot, whether it is
    written, wiped or left alone. *)
Theorem plain_state_is_the_block `{MapIteration} {E} (base_info : Address -> option AccountInfo) (base_storage : Address -> Z -> Z)
  (known : OriginalValuesKnown) (retention : BundleRetention) (ts : Transitions) (s : BundleState)
  (Hs : bundle_sound base_info base_storage s) (Hset : bundle_settled base_storage s)
  (Hts : transitions_fit base_info base_storage ts s) :
  exists s', apply_transitions_and_create_reverts ts retention s = Ok (E := E) s' /\
    bundle_sound base_info base_storage s' /\ bundle_settled base_storage s' /\
    let c := into_plain_state known s' in
    forall a, match ts !! a with
      | Some t => info_equiv (write_infos c base_info a) (ta_info t) /\
          forall k, write_storages c base_storage a k = new_value (base_storage a) t (before t (bs_state s !! a)) k
      | None => info_equiv (write_infos c base_info a) (bundle_info (base_info a) (bs_state s !! a)) /\
          forall k, write_storages c base_storage a k = bundle_value (base_storage a) (bs_state s !! a) k
      end.
Proof.
  destruct (apply_block_fits (E := E) base_info base_storage (includes_reverts retention) ts s Hs Hts)
    as (rs & s1 & Hrun & _ & _ & _ & Hno & Hyes).
  unfold apply_transitions_and_create_reverts. rewrite Hrun. simpl. eexists. split; [done|].
  set (s' := set_bs_reverts _ _ _).
  assert (Hs' : bundle_sound base_info base_storage s').
  { intros a. simpl. destruct (ts !! a) as [t|] eqn:Ht; [|rewrite Hno by done; apply Hs].
    destruct (Hyes a t Ht) as (r & _ & He & _). apply He. }
  assert (Hset' : bundle_settled base_storage s').
  { intros a b. simpl. destruct (ts !! a) as [t|] eqn:Ht; [|rewrite Hno by done; apply Hset].
    destruct (Hyes a t Ht) as (r & Hu & _). eapply update_entry_settled; [apply Hs|by apply Hts|apply Hset|done]. }
  split_and!; [done|done|]. intros a.
  pose proof (plain_info base_info base_storage known s' a Hs') as Hpi.
  pose proof (fun k => plain_slots base_info base_storage known s' a k Hset') as Hps. simpl in Hpi, Hps.
  destruct (ts !! a) as [t|] eqn:Ht.
  - destruct (Hyes a t Ht) as (r & _ & [_ [Hi Hv] _] & _). split; [by etrans|]. intros k. by rewrite Hps, Hv.
  - rewrite (Hno a Ht) in Hpi, Hps. done.
Qed.

Lemma plain_state_is_the_block_witness :
  exists s', apply_transitions_and_create_reverts (H := sorted_entries) example_block BundleRetention_PlainState BundleState_default
      = Ok (E := Empty_set) s' /\
    write_storages (into_plain_state (H := sorted_entries) OriginalValuesKnown_Yes s') example_base_storage 1 1 = 0.
Proof.
  assert (Hs : bundle_sound example_base_info example_base_storage BundleState_default) by (intros a b; cbn; by rewrite lookup_empty).
  assert (Hset : bundle_settled example_base_storage BundleState_default) by (intros a b; cbn; by rewrite lookup_empty).
  destruct (plain_state_is_the_block (H := sorted_entries) (E := Empty_set) _ _ OriginalValuesKnown_Yes BundleRetention_PlainState _ _
    Hs Hset example_block_fits) as (s' & H1 & _ & _ & H2).
  exists s'. split; [exact H1|]. destruct (H2 1) as [_ H3]. exact (H3 1).
Defined.
