(* ===== verification/DbState.v ===== *)
(** The state of a block on top of a database: [state.rs] and [state_builder.rs]
    of [crates/revm/src/db/states/].

    A [State] is a cache of accounts, the transitions of the block, the bundle of
    the blocks before it and the hashes of recent blocks. It is a [Database], and
    it commits what a transaction leaves. *)

From S2P Require Import Prelude.
From S2P Require Import Bytes.
From S2P Require Import Eof.
From S2P Require Import Bytecode.
From S2P Require Import State.
From S2P Require Import Result.
From S2P Require Import Database.
From S2P Require Import DbAccounts.
From S2P Require Import DbBundleAccount.
From S2P Require Import DbBundleState.
From S2P Require Import Env.

Record DbState (DB : Type) : Type := mkDbState {
  st_cache : CacheState;
  st_database : DB;
  st_transition_state : option Transitions;
  st_bundle_state : BundleState;
  st_use_preloaded_bundle : bool;
  st_block_hashes : gmap Z Z;
}.
Arguments mkDbState {DB}.
Arguments st_cache {DB}.
Arguments st_database {DB}.
Arguments st_transition_state {DB}.
Arguments st_bundle_state {DB}.
Arguments st_use_preloaded_bundle {DB}.
Arguments st_block_hashes {DB}.

Section state.
Context {DB DbErr : Type} `{Database DB DbErr} `{MapIteration}.
Abbreviation SM := (M (DbState DB) DbErr).

Definition set_st_cache (c : CacheState) (s : DbState DB) : DbState DB :=
  mkDbState c (st_database s) (st_transition_state s) (st_bundle_state s) (st_use_preloaded_bundle s) (st_block_hashes s).
Definition set_st_database (db : DB) (s : DbState DB) : DbState DB :=
  mkDbState (st_cache s) db (st_transition_state s) (st_bundle_state s) (st_use_preloaded_bundle s) (st_block_hashes s).
Definition set_st_transitions (t : option Transitions) (s : DbState DB) : DbState DB :=
  mkDbState (st_cache s) (st_database s) t (st_bundle_state s) (st_use_preloaded_bundle s) (st_block_hashes s).
Definition set_st_bundle (b : BundleState) (s : DbState DB) : DbState DB :=
  mkDbState (st_cache s) (st_database s) (st_transition_state s) b (st_use_preloaded_bundle s) (st_block_hashes s).
Definition set_st_block_hashes (h : gmap Z Z) (s : DbState DB) : DbState DB :=
  mkDbState (st_cache s) (st_database s) (st_transition_state s) (st_bundle_state s) (st_use_preloaded_bundle s) h.

(** A call of the database below. *)
Definition ask_database {A} (m : M DB DbErr A) : SM A := zoom st_database set_st_database m.
(** A change of the cache. *)
Definition set_cached (a : Address) (c : CacheAccount) : DbState DB -> DbState DB := fun s =>
  set_st_cache (set_cs_accounts (<[ a := c ]>) (st_cache s)) s.

Definition bundle_size_hint (s : DbState DB) : Z := BundleState_size_hint (st_bundle_state s).

Definition set_state_clear (has_state_clear : bool) (s : DbState DB) : DbState DB :=
  set_st_cache (set_state_clear_flag has_state_clear (st_cache s)) s.
Definition State_insert_not_existing (a : Address) (s : DbState DB) : DbState DB :=
  set_st_cache (CacheState_insert_not_existing a (st_cache s)) s.
Definition State_insert_account (a : Address) (i : AccountInfo) (s : DbState DB) : DbState DB :=
  set_st_cache (CacheState_insert_account a i (st_cache s)) s.
Definition State_insert_account_with_storage (a : Address) (i : AccountInfo) (storage : PlainStorage) (s : DbState DB) : DbState DB :=
  set_st_cache (CacheState_insert_account_with_storage a i storage (st_cache s)) s.

Definition apply_transition (transitions : list (Address * TransitionAccount)) (s : DbState DB) : DbState DB :=
  set_st_transitions (add_transitions transitions <$> st_transition_state s) s.

Definition merge_transitions (retention : BundleRetention) : SM unit := fun s =>
  match st_transition_state s with
  | None => (Ok tt, s)
  | Some ts =>
      let '(transition_state, rest) := TransitionState_take ts in
      let s := set_st_transitions (Some rest) s in
      match apply_transitions_and_create_reverts transition_state retention (st_bundle_state s) with
      | Ok b => (Ok tt, set_st_bundle b s)
      | Err e => (Err e, s)
      | Panic => (Panic, s)
      end
  end.

(** What the database answers, as an account of the cache. *)
Definition loaded_account (info : option AccountInfo) : CacheAccount :=
  match info with
  | None => CacheAccount_new_loaded_not_existing
  | Some acc => if info_is_empty acc then CacheAccount_new_loaded_empty_eip161 ∅ else CacheAccount_new_loaded acc ∅
  end.

Definition load_cache_account (a : Address) : SM CacheAccount := fun s =>
  match cs_accounts (st_cache s) !! a with
  | Some c => (Ok c, s)
  | None =>
      match (if st_use_preloaded_bundle s then BundleState_account (st_bundle_state s) a else None) with
      | Some b => let c := CacheAccount_from b in (Ok c, set_cached a c s)
      | None =>
          (info ← ask_database (basic a);
           let c := loaded_account info in
           _ ← modify (set_cached a c);
           mret c) s
      end
  end.

(** A balance of zero is skipped, so that the increment answers a transition. *)
Fixpoint increment_each (balances : list (Address * Z)) : SM (list (Address * TransitionAccount)) :=
  match balances with
  | [] => mret []
  | (a, balance) :: rest =>
      if balance =? 0 then increment_each rest
      else
        original_account ← load_cache_account a;
        let '(t, c) := CacheAccount_increment_base_balance balance original_account in
        _ ← modify (set_cached a c);
        t ← lift (unwrap t);
        ts ← increment_each rest;
        mret ((a, t) :: ts)
  end.
Definition increment_balances (balances : list (Address * Z)) : SM unit :=
  transitions ← increment_each balances;
  modify (apply_transition transitions).

Fixpoint drain_each (addresses : list Address) : SM (list Z * list (Address * TransitionAccount)) :=
  match addresses with
  | [] => mret ([], [])
  | a :: rest =>
      original_account ← load_cache_account a;
      '(balance, t, c) ← lift (drain_base_balance original_account);
      _ ← modify (set_cached a c);
      '(balances, ts) ← drain_each rest;
      mret (balance :: balances, (a, t) :: ts)
  end.
Definition drain_balances (addresses : list Address) : SM (list Z) :=
  '(balances, transitions) ← drain_each addresses;
  _ ← modify (apply_transition transitions);
  mret balances.

Definition take_bundle : SM BundleState := fun s => (Ok (st_bundle_state s), set_st_bundle BundleState_default s).

(** *** The database *)

Definition State_basic (a : Address) : SM (option AccountInfo) :=
  c ← load_cache_account a;
  mret (CacheAccount_account_info c).

Definition insert_contract (hash : Z) (code : Bytecode) (s : DbState DB) : DbState DB :=
  set_st_cache (set_cs_contracts (<[ hash := code ]>) (st_cache s)) s.
Definition State_code_by_hash (hash : Z) : SM Bytecode := fun s =>
  match cs_contracts (st_cache s) !! hash with
  | Some code => (Ok code, s)
  | None =>
      match (if st_use_preloaded_bundle s then bs_contracts (st_bundle_state s) !! hash else None) with
      | Some code => (Ok code, insert_contract hash code s)
      | None =>
          (code ← ask_database (code_by_hash hash);
           _ ← modify (insert_contract hash code);
           mret code) s
      end
  end.

(** An account that was not loaded is [unreachable!]. *)
Definition State_storage (a : Address) (index : Z) : SM Z := fun s =>
  match cs_accounts (st_cache s) !! a with
  | None => (Panic, s)
  | Some c =>
      match ca_account c with
      | None => (Ok 0, s)
      | Some account =>
          match pa_storage account !! index with
          | Some value => (Ok value, s)
          | None =>
              (value ← (if is_storage_known (ca_status c) then mret 0 else ask_database (db_storage a index));
               _ ← modify (set_cached a
                     (mkCacheAccount (Some (mkPlainAccount (pa_info account) (<[ index := value ]> (pa_storage account)))) (ca_status c)));
               mret value) s
          end
      end
  end.

(** The hashes of blocks that are too old are pruned from the front of the ordered
    map: what is left are the keys from [last_block] on. *)
Definition prune_block_hashes (last_block : Z) (hashes : gmap Z Z) : gmap Z Z := filter (fun p => last_block <= p.1) hashes.
Definition State_block_hash (number : Z) : SM Z := fun s =>
  if number <? 2 ^ 64 then
    match st_block_hashes s !! number with
    | Some hash => (Ok hash, s)
    | None =>
        (ret ← ask_database (block_hash number);
         _ ← modify (fun s => set_st_block_hashes
               (prune_block_hashes (saturating_sub number BLOCK_HASH_HISTORY) (<[ number := ret ]> (st_block_hashes s))) s);
         mret ret) s
    end
  else (Panic, s).

#[export] Instance State_Database : Database (DbState DB) DbErr := {|
  basic := State_basic;
  code_by_hash := State_code_by_hash;
  db_storage := State_storage;
  block_hash := State_block_hash;
  Database.get_token_ids := fun s => Database.get_token_ids (st_database s);
  Database.is_token_id_valid := fun s => Database.is_token_id_valid (st_database s);
|}.

(** [DatabaseCommit]. *)
Definition State_commit (evm_state : EvmState) : SM unit :=
  transitions ← zoom st_cache set_st_cache (apply_evm_state evm_state);
  modify (apply_transition transitions).
End state.

(** ** [state_builder.rs] *)

Record StateBuilder (DB : Type) : Type := mkStateBuilder {
  sb_database : DB;
  sb_with_state_clear : bool;
  sb_with_bundle_prestate : option BundleState;
  sb_with_cache_prestate : option CacheState;
  sb_with_bundle_update : bool;
  sb_with_background_transition_merge : bool;
  sb_with_block_hashes : gmap Z Z;
}.
Arguments mkStateBuilder {DB}.
Arguments sb_database {DB}.
Arguments sb_with_state_clear {DB}.
Arguments sb_with_bundle_prestate {DB}.
Arguments sb_with_cache_prestate {DB}.
Arguments sb_with_bundle_update {DB}.
Arguments sb_with_background_transition_merge {DB}.
Arguments sb_with_block_hashes {DB}.

Section builder.
Context {DB : Type}.

Definition new_with_database (database : DB) : StateBuilder DB := mkStateBuilder database true None None false false ∅.
Definition with_database {ODB} (database : ODB) (b : StateBuilder DB) : StateBuilder ODB :=
  mkStateBuilder database (sb_with_state_clear b) (sb_with_bundle_prestate b) (sb_with_cache_prestate b)
    (sb_with_bundle_update b) (sb_with_background_transition_merge b) (sb_with_block_hashes b).
Definition without_state_clear (b : StateBuilder DB) : StateBuilder DB :=
  mkStateBuilder (sb_database b) false (sb_with_bundle_prestate b) (sb_with_cache_prestate b)
    (sb_with_bundle_update b) (sb_with_background_transition_merge b) (sb_with_block_hashes b).
Definition with_bundle_prestate (bundle : BundleState) (b : StateBuilder DB) : StateBuilder DB :=
  mkStateBuilder (sb_database b) (sb_with_state_clear b) (Some bundle) (sb_with_cache_prestate b)
    (sb_with_bundle_update b) (sb_with_background_transition_merge b) (sb_with_block_hashes b).
Definition with_bundle_update (b : StateBuilder DB) : StateBuilder DB :=
  mkStateBuilder (sb_database b) (sb_with_state_clear b) (sb_with_bundle_prestate b) (sb_with_cache_prestate b)
    true (sb_with_background_transition_merge b) (sb_with_block_hashes b).
Definition with_cached_prestate (cache : CacheState) (b : StateBuilder DB) : StateBuilder DB :=
  mkStateBuilder (sb_database b) (sb_with_state_clear b) (sb_with_bundle_prestate b) (Some cache)
    (sb_with_bundle_update b) (sb_with_background_transition_merge b) (sb_with_block_hashes b).
Definition with_background_transition_merge (b : StateBuilder DB) : StateBuilder DB :=
  mkStateBuilder (sb_database b) (sb_with_state_clear b) (sb_with_bundle_prestate b) (sb_with_cache_prestate b)
    (sb_with_bundle_update b) true (sb_with_block_hashes b).
Definition with_block_hashes (hashes : gmap Z Z) (b : StateBuilder DB) : StateBuilder DB :=
  mkStateBuilder (sb_database b) (sb_with_state_clear b) (sb_with_bundle_prestate b) (sb_with_cache_prestate b)
    (sb_with_bundle_update b) (sb_with_background_transition_merge b) hashes.

(** A cache that is given takes the place of the bundle and of the flag. *)
Definition StateBuilder_build (b : StateBuilder DB) : DbState DB :=
  let '(use_preloaded_bundle, prestate) :=
    match sb_with_cache_prestate b with
    | Some _ => (false, None)
    | None => (match sb_with_bundle_prestate b with Some _ => true | None => false end, sb_with_bundle_prestate b)
    end in
  mkDbState (default (CacheState_new (sb_with_state_clear b)) (sb_with_cache_prestate b)) (sb_database b)
    (if sb_with_bundle_update b then Some ∅ else None) (default BundleState_default prestate)
    use_preloaded_bundle (sb_with_block_hashes b).
End builder.
