(* ===== verification/DbTracking.v ===== *)
(** One address of a [State]: its account in the cache, its transition in the
    block, its account in the bundle, and what the database says.

    The cache runs ahead of the transition, the transition of the bundle and the
    bundle of the database; [tracked] is the invariant that says that all four
    agree, and every operation of the cache is shown to keep it. *)

From S2P Require Import Prelude.
From S2P Require Import Bytes.
From S2P Require Import Eof.
From S2P Require Import Bytecode.
From S2P Require Import State.
From S2P Require Import DbAccounts.
From S2P Require Import DbBundleAccount.
From S2P Require Import DbRevert.
From S2P Require Import DbBundleState.
From S2P Require Import DbBundleSizes.
From S2P Require Import DbPlainState.

(** The slot of an account of the cache. *)
Definition cached_slot (c : CacheAccount) (k : Z) : option Z := acc ← ca_account c; pa_storage acc !! k.

(** The statuses between which an operation of the cache makes a transition. *)
Definition steps_to (p u : AccountStatus) : bool :=
  match p, u with
  | LoadedNotExisting, InMemoryChange => true
  | LoadedEmptyEIP161, (InMemoryChange | Destroyed) => true
  | Loaded, (InMemoryChange | Changed | Destroyed) => true
  | Changed, (Changed | Destroyed) => true
  | InMemoryChange, (InMemoryChange | Destroyed) => true
  | Destroyed, (DestroyedChanged | DestroyedAgain) => true
  | DestroyedChanged, (DestroyedChanged | DestroyedAgain) => true
  | DestroyedAgain, (DestroyedChanged | DestroyedAgain) => true
  | _, _ => false
  end.

Lemma update_defined_steps s p u :
  update_defined s p = true -> is_not_modified p = false -> steps_to p u = true -> update_defined s u = true.
Proof. by destruct s, p, u. Qed.

(** The status of an account that the bundle has and that has no transition. *)
Definition bundle_status_of (s p : AccountStatus) : Prop := s = p \/ s = LoadedNotExisting /\ p = Destroyed.

Lemma bundle_status_steps s p u : bundle_status_of s p -> steps_to p u = true -> update_defined s u = true.
Proof. intros [-> | [-> ->]]; by destruct p, u || destruct u. Qed.

Section address.
Context (base_info : option AccountInfo) (base_storage : Z -> Z).

(** What an address is, with the transition and the bundle taken into account. *)
Definition current_info (o : option BundleAccount) (t : option TransitionAccount) : option AccountInfo :=
  match t with Some t => ta_info t | None => bundle_info base_info o end.
Definition current (o : option BundleAccount) (t : option TransitionAccount) (k : Z) : Z :=
  match t with Some t => new_value base_storage t (before t o) k | None => bundle_value base_storage o k end.

(** The transition is made on top of the bundle, and ends where the cache is. *)
Record transition_tracked (c : CacheAccount) (o : option BundleAccount) (t : TransitionAccount) : Prop := {
  tt_starts : o = None -> starts base_info base_storage t;
  tt_follows : follows base_storage t (before t o);
  tt_status : ta_status t = ca_status c;
  tt_wiped : ta_storage_was_destroyed t = true -> forall k s, ta_storage t !! k = Some s -> previous_or_original_value s = 0;
}.

(** No transition: the next one can start from the cache. *)
Record bundle_tracked (c : CacheAccount) (o : option BundleAccount) : Prop := {
  bt_status b : o = Some b -> bundle_status_of (ba_status b) (ca_status c);
  bt_base : o = None -> is_storage_known (ca_status c) = true -> forall k, base_storage k = 0;
  bt_nothing : o = None -> base_info = None -> forall k, base_storage k = 0;
}.

Record tracked (c : CacheAccount) (t : option TransitionAccount) (o : option BundleAccount) : Prop := {
  tr_exists : is_Some (ca_account c) <-> status_exists (ca_status c) = true;
  tr_info : info_equiv (CacheAccount_account_info c) (current_info o t);
  tr_cached k v : cached_slot c k = Some v -> v = current o t k;
  tr_other k : cached_slot c k = None -> current o t k = if is_storage_known (ca_status c) then 0 else base_storage k;
  tr_transition t' : t = Some t' -> transition_tracked c o t';
  tr_bundle : t = None -> bundle_tracked c o;
}.

(** What an operation of the cache does to an account that is [value] now. *)
Record stepped (value : Z -> Z) (c : CacheAccount) (t : TransitionAccount) (c' : CacheAccount) : Prop := {
  sp_previous_info : ta_previous_info t = CacheAccount_account_info c;
  sp_previous_status : ta_previous_status t = ca_status c;
  sp_info : ta_info t = CacheAccount_account_info c';
  sp_status : ta_status t = ca_status c';
  sp_steps : steps_to (ca_status c) (ca_status c') = true;
  sp_exists : is_Some (ca_account c') <-> status_exists (ca_status c') = true;
  sp_slots k s : ta_storage t !! k = Some s -> previous_or_original_value s = value k;
  sp_wiped : ta_storage_was_destroyed t = negb (status_exists (ca_status c'));
  sp_gone : status_exists (ca_status c') = false -> ta_storage t = ∅;
  sp_fresh : ca_status c' = InMemoryChange -> is_storage_known (ca_status c) = false -> forall k, base_storage k = 0;
}.

(** What the account is after the operation. *)
Definition after (value : Z -> Z) (t : TransitionAccount) (k : Z) : Z :=
  match ta_storage t !! k with
  | Some s => slot_present s
  | None => if ta_storage_was_destroyed t then 0 else value k
  end.

(** The cache after the operation agrees with it. *)
Record cache_stepped (value : Z -> Z) (t : TransitionAccount) (c' : CacheAccount) : Prop := {
  cp_cached k v : cached_slot c' k = Some v -> v = after value t k;
  cp_other k : cached_slot c' k = None -> after value t k = if is_storage_known (ca_status c') then 0 else base_storage k;
}.

(** The transition of the block after one more. *)
Definition joined (t : option TransitionAccount) (t1 : TransitionAccount) : TransitionAccount :=
  match t with Some t => TransitionAccount_update t1 t | None => t1 end.

Lemma steps_modified p u : steps_to p u = true -> is_not_modified u = false.
Proof. by destruct p, u. Qed.
Lemma steps_destroyed p u : steps_to p u = true -> was_destroyed p = true -> was_destroyed u = true.
Proof. by destruct p, u. Qed.
Lemma steps_unknown p u : steps_to p u = true -> status_exists u = true -> was_destroyed p = false -> was_destroyed u = false.
Proof. by destruct p, u. Qed.

(** **** The first transition of the block *)

Lemma before_starts t (o : option BundleAccount) k :
  (o = None -> starts base_info base_storage t) -> bundle_value base_storage (Some (before t o)) k = bundle_value base_storage o k.
Proof.
  intros Hs. destruct o as [b|]; [done|]. destruct (original_view _ _ _ (Hs eq_refl)) as [_ Hv]. apply Hv.
Qed.

Lemma first_transition c t c' o :
  tracked c None o -> stepped (current o None) c t c' -> transition_tracked c' o t.
Proof.
  intros Hc Hs. destruct (tr_bundle _ _ _ Hc eq_refl) as [Hbs Hbb Hbn].
  assert (Hst : o = None -> starts base_info base_storage t).
  { intros ->. pose proof (tr_info _ _ _ Hc) as Hi. cbn in Hi. split.
    - by rewrite (sp_previous_info _ _ _ _ Hs).
    - rewrite (sp_previous_status _ _ _ _ Hs), <-(tr_exists _ _ _ Hc), <-(info_equiv_is_Some _ _ Hi).
      unfold CacheAccount_account_info. by rewrite fmap_is_Some.
    - by apply Hbn.
    - rewrite (sp_previous_status _ _ _ _ Hs). by apply Hbb. }
  assert (Hstep := sp_steps _ _ _ _ Hs).
  assert (Hstatus : bundle_status_of (ba_status (before t o)) (ca_status c)).
  { destruct o as [b|]; [by apply Hbs|]. left. cbn. apply (sp_previous_status _ _ _ _ Hs). }
  split; [done| |apply (sp_status _ _ _ _ Hs)|].
  - split; rewrite ?(sp_status _ _ _ _ Hs).
    + by eapply bundle_status_steps.
    + by eapply steps_modified.
    + rewrite (sp_info _ _ _ _ Hs), <-(sp_exists _ _ _ _ Hs). unfold CacheAccount_account_info. by rewrite fmap_is_Some.
    + intros _ k s Hk. rewrite before_starts by done. exact (sp_slots _ _ _ _ Hs k s Hk).
    + rewrite (sp_wiped _ _ _ _ Hs). intros He. by destruct (ca_status c), (ca_status c').
    + rewrite (sp_wiped _ _ _ _ Hs). intros He Hd Hu.
      destruct Hstatus as [Heq | [H1 H2]]; [rewrite Heq in He, Hd|by rewrite H1 in He]. by destruct (ca_status c), (ca_status c').
    + intros He. rewrite (sp_wiped _ _ _ _ Hs), He. split; [by apply (sp_gone _ _ _ _ Hs)|done].
    + intros Hu Hk. apply (sp_fresh _ _ _ _ Hs); [done|]. by destruct Hstatus as [<- | [H1 H2]]; [|rewrite H1 in Hk].
  - rewrite (sp_wiped _ _ _ _ Hs), negb_true_iff. intros He k s. by rewrite (sp_gone _ _ _ _ Hs He), lookup_empty.
Qed.

(** **** One more transition *)

Lemma update_slot_lookup (m1 m2 : StorageWithOriginalValues) k : merge update_slot m1 m2 !! k = update_slot (m1 !! k) (m2 !! k).
Proof. rewrite lookup_merge. by destruct (m1 !! k), (m2 !! k). Qed.

Lemma before_update t1 t o : before (TransitionAccount_update t1 t) o = before t o.
Proof. destruct o; [done|]. unfold TransitionAccount_update. by destruct (ta_status t1). Qed.

(** The slots of two transitions in a row. *)
Definition kept (t t1 : TransitionAccount) : StorageWithOriginalValues := merge update_slot (ta_storage t) (ta_storage t1).

Lemma kept_origin c o t t1 k s :
  transition_tracked c o t -> (forall k s, ta_storage t1 !! k = Some s -> previous_or_original_value s = current o (Some t) k) ->
  kept t t1 !! k = Some s ->
  previous_or_original_value s = if ta_storage_was_destroyed t then 0 else bundle_value base_storage (Some (before t o)) k.
Proof.
  intros Ht Hs. unfold kept. rewrite update_slot_lookup. specialize (Hs k). cbn in Hs. unfold new_value in Hs.
  pose proof (tt_wiped _ _ _ Ht) as Hw. pose proof (fo_slots _ _ _ (tt_follows _ _ _ Ht)) as Hf.
  assert (Hin : forall s0, ta_storage t !! k = Some s0 ->
    previous_or_original_value s0 = if ta_storage_was_destroyed t then 0 else bundle_value base_storage (Some (before t o)) k).
  { intros s0 Hk. destruct (ta_storage_was_destroyed t); [by eapply Hw|by apply Hf]. }
  destruct (ta_storage t !! k) as [s0|] eqn:Hk, (ta_storage t1 !! k) as [s1|]; simpl; try done.
  - destruct (_ =? _); [done|]. intros [= <-]. exact (Hin s0 eq_refl).
  - intros [= <-]. exact (Hin s0 eq_refl).
  - intros [= <-]. by apply Hs.
Qed.

Lemma kept_value c o t t1 k :
  transition_tracked c o t -> ta_storage_was_destroyed t1 = false ->
  (forall k s, ta_storage t1 !! k = Some s -> previous_or_original_value s = current o (Some t) k) ->
  match kept t t1 !! k with
  | Some s => slot_present s
  | None => if ta_storage_was_destroyed t then 0 else bundle_value base_storage (Some (before t o)) k
  end = after (current o (Some t)) t1 k.
Proof.
  intros Ht Hd Hs. pose proof (kept_origin _ _ _ _ k (default (mkStorageSlot 0 0) (kept t t1 !! k)) Ht Hs) as Ho.
  unfold kept in *. rewrite update_slot_lookup in *. unfold after. rewrite Hd. cbn. unfold new_value.
  pose proof (tt_wiped _ _ _ Ht) as Hw. pose proof (fo_slots _ _ _ (tt_follows _ _ _ Ht)) as Hf.
  destruct (ta_storage t !! k) as [s0|] eqn:Hk, (ta_storage t1 !! k) as [s1|]; simpl in *; try done.
  destruct (Z.eqb_spec (previous_or_original_value s0) (slot_present s1)) as [He|He]; [|done]. rewrite <-He.
  destruct (ta_storage_was_destroyed t); [symmetry; by eapply Hw|symmetry; by apply Hf].
Qed.

Lemma joined_new_value c t t1 c' o k :
  (forall t0, t = Some t0 -> transition_tracked c o t0) -> stepped (current o t) c t1 c' ->
  (t = None -> o = None -> starts base_info base_storage t1) ->
  current o (Some (joined t t1)) k = after (current o t) t1 k.
Proof.
  intros Ht Hs Hst. destruct t as [t|]; cbn [joined].
  - specialize (Ht t eq_refl). cbn [current]. rewrite before_update. unfold TransitionAccount_update.
    pose proof (sp_wiped _ _ _ _ Hs) as Hw. pose proof (sp_status _ _ _ _ Hs) as Hu. pose proof (sp_gone _ _ _ _ Hs) as Hg.
    destruct (status_exists (ca_status c')) eqn:He.
    + assert (Hm : forall m x, match ta_status t1 with Destroyed | DestroyedAgain => m | _ => x end = x :> TransitionAccount)
        by (intros; rewrite Hu; by destruct (ca_status c')).
      rewrite Hm. unfold new_value. cbn [ta_storage ta_storage_was_destroyed].
      exact (kept_value c o t t1 k Ht Hw (sp_slots _ _ _ _ Hs)).
    + specialize (Hg eq_refl). unfold after. rewrite Hg, Hw, lookup_empty. simpl. unfold new_value.
      pose proof (sp_steps _ _ _ _ Hs) as Hstep. rewrite <-Hu in He, Hstep.
      destruct (ta_status t1) eqn:Ht1; try discriminate He; try (by destruct (ca_status c));
        cbn [ta_storage ta_storage_was_destroyed]; by rewrite Hg, lookup_empty.
  - cbn [current]. unfold new_value, after. destruct (ta_storage t1 !! k); [done|].
    destruct (ta_storage_was_destroyed t1); [done|]. apply before_starts. by apply Hst.
Qed.

Lemma joined_tracked c t t1 c' o :
  transition_tracked c o t -> stepped (current o (Some t)) c t1 c' -> transition_tracked c' o (TransitionAccount_update t1 t).
Proof.
  intros Ht Hs. pose proof (tt_follows _ _ _ Ht) as Hf. pose proof (sp_status _ _ _ _ Hs) as Hu.
  pose proof (sp_steps _ _ _ _ Hs) as Hstep. pose proof (tt_status _ _ _ Ht) as Hp. rewrite <-Hu in Hstep. rewrite <-Hp in Hstep.
  assert (Hu' : ta_status (TransitionAccount_update t1 t) = ta_status t1) by (unfold TransitionAccount_update; by destruct (ta_status t1)).
  assert (Hi' : ta_info (TransitionAccount_update t1 t) = ta_info t1) by (unfold TransitionAccount_update; by destruct (ta_status t1)).
  assert (Hprev : ta_previous_info (TransitionAccount_update t1 t) = ta_previous_info t /\
    ta_previous_status (TransitionAccount_update t1 t) = ta_previous_status t)
    by (unfold TransitionAccount_update; by destruct (ta_status t1)).
  assert (Hstorage : (status_exists (ta_status t1) = true /\ ta_storage (TransitionAccount_update t1 t) = kept t t1 /\
      ta_storage_was_destroyed (TransitionAccount_update t1 t) = ta_storage_was_destroyed t) \/
    (status_exists (ta_status t1) = false /\ ta_storage (TransitionAccount_update t1 t) = ∅ /\
      ta_storage_was_destroyed (TransitionAccount_update t1 t) = true)).
  { pose proof (sp_gone _ _ _ _ Hs) as Hg. rewrite <-Hu in Hg. unfold TransitionAccount_update, kept.
    destruct (ta_status t1) eqn:Ht1; try (by left); try (right; split_and!; [done|by apply Hg|done]); by destruct (ta_status t). }
  split.
  - intros Ho. destruct (tt_starts _ _ _ Ht Ho) as [H1 H2 H3 H4]. destruct Hprev as [Hpi Hps]. split; by rewrite ?Hpi, ?Hps.
  - rewrite before_update. split; rewrite ?Hu', ?Hi'.
    + eapply update_defined_steps; [apply (fo_status _ _ _ Hf)|apply (fo_modified _ _ _ Hf)|exact Hstep].
    + by eapply steps_modified.
    + rewrite (sp_info _ _ _ _ Hs), Hu, <-(sp_exists _ _ _ _ Hs). unfold CacheAccount_account_info. by rewrite fmap_is_Some.
    + destruct Hstorage as [(He & Hst & Hd) | (He & Hst & Hd)]; rewrite Hst, Hd; [|by intros ?].
      intros Hd0 k s Hk. rewrite (kept_origin _ _ _ _ k s Ht (sp_slots _ _ _ _ Hs) Hk). by rewrite Hd0.
    + destruct Hstorage as [(He & Hst & Hd) | (He & Hst & Hd)]; rewrite Hd.
      * intros Hd0. eapply steps_destroyed; [exact Hstep|by apply (fo_destroyed _ _ _ Hf)].
      * intros _. destruct (ta_status t), (ta_status t1); done.
    + destruct Hstorage as [(He & Hst & Hd) | (He & Hst & Hd)]; rewrite Hd; [|done].
      intros H1 H2 H3. apply (fo_flag _ _ _ Hf); [done|done|].
      destruct (was_destroyed (ta_status t)) eqn:Hw; [done|]. by rewrite (steps_unknown _ _ Hstep He Hw) in H3.
    + intros He. destruct Hstorage as [(He' & _ & _) | (_ & Hst & Hd)]; [congruence|done].
    + intros Hm Hk. destruct (is_storage_known (ta_status t)) eqn:Hkt.
      * apply (fo_fresh _ _ _ Hf); [|done]. pose proof (fo_modified _ _ _ Hf) as Hmod. rewrite Hm in Hstep. by destruct (ta_status t).
      * apply (sp_fresh _ _ _ _ Hs); [by rewrite <-Hu|by rewrite <-Hp].
  - by rewrite Hu'.
  - destruct Hstorage as [(He & Hst & Hd) | (He & Hst & Hd)]; rewrite Hst, Hd; [|intros _ k s; by rewrite lookup_empty].
    intros Hd0 k s Hk. rewrite (kept_origin _ _ _ _ k s Ht (sp_slots _ _ _ _ Hs) Hk). by rewrite Hd0.
Qed.

(** An operation keeps the address tracked. *)
Lemma track_step c t t1 c' o :
  tracked c t o -> stepped (current o t) c t1 c' -> cache_stepped (current o t) t1 c' ->
  tracked c' (Some (joined t t1)) o /\ forall k, current o (Some (joined t t1)) k = after (current o t) t1 k.
Proof.
  intros Hc Hs [Hcc Hco].
  assert (Htt : transition_tracked c' o (joined t t1)).
  { destruct t as [t|]; cbn [joined]; [|by eapply first_transition].
    eapply joined_tracked; [|exact Hs]. by apply (tr_transition _ _ _ Hc). }
  assert (Hv : forall k, current o (Some (joined t t1)) k = after (current o t) t1 k).
  { intros k. eapply joined_new_value; [|exact Hs|].
    - intros t0 ->. by apply (tr_transition _ _ _ Hc).
    - intros -> Ho. by apply (tt_starts _ _ _ Htt). }
  split; [|done]. split.
  - apply (sp_exists _ _ _ _ Hs).
  - cbn. assert (Hi : ta_info (joined t t1) = ta_info t1).
    { destruct t; [|done]. cbn [joined]. unfold TransitionAccount_update. by destruct (ta_status t1). }
    by rewrite Hi, (sp_info _ _ _ _ Hs).
  - intros k v Hk. rewrite Hv. by apply Hcc.
  - intros k Hk. rewrite Hv. by apply Hco.
  - by intros ? [= <-].
  - done.
Qed.
End address.
