(* ===== verification/DbStateView.v ===== *)
(** A [State] answers like the database with the committed changes written to it.

    [view_info] and [view_slot] are what a state stands for: the database, with the
    bundle of the blocks before and the transitions of the block on top. Reading
    answers the view and leaves it alone, committing a transaction changes it as
    the transaction says, and merging the transitions into the bundle keeps it.

    The operations on an account of the cache keep its address tracked first. *)

From S2P Require Import Prelude Bytes Eof Bytecode State Result Database DbAccounts.
From S2P Require Import DbBundleAccount.
From S2P Require Import DbRevert DbBundleState DbBundleSizes DbPlainState DbState DbTracking.

(** ** An account of the cache stays tracked *)

Section address.
Context (base_info : option AccountInfo) (base_storage : Z -> Z).

Abbreviation tracked := (tracked base_info base_storage).
Abbreviation current := (current base_storage).
Abbreviation stepped := (stepped base_storage).
Abbreviation cache_stepped := (cache_stepped base_storage).

Lemma gone_account c t o : tracked c t o -> status_exists (ca_status c) = false -> ca_account c = None.
Proof. intros Hc He. destruct (ca_account c) eqn:Ha; [|done]. pose proof (proj1 (tr_exists _ _ _ _ _ Hc) ltac:(eauto)). congruence. Qed.

Lemma gone_value c t o k : tracked c t o -> status_exists (ca_status c) = false -> current o t k = 0.
Proof.
  intros Hc He. rewrite (tr_other _ _ _ _ _ Hc).
  - by destruct (ca_status c).
  - unfold cached_slot. by rewrite (gone_account _ _ _ Hc He).
Qed.

(** An account that is removed. *)
Lemma removed_stepped c t o u :
  tracked c t o -> steps_to (ca_status c) u = true -> status_exists u = false ->
  let t1 := mkTransitionAccount None u (CacheAccount_account_info c) (ca_status c) ∅ true in
  stepped (current o t) c t1 (mkCacheAccount None u) /\ cache_stepped (current o t) t1 (mkCacheAccount None u).
Proof.
  intros Hc Hs He t1. split; split; cbn; try done; rewrite ?He; try done.
  - intros Hu. by rewrite Hu in He.
  - intros k _. unfold after. cbn. rewrite lookup_empty. by destruct u.
Qed.

Lemma selfdestruct_tracked c t o r c' :
  tracked c t o -> selfdestruct c = (r, c') ->
  match r with
  | Some t1 => stepped (current o t) c t1 c' /\ cache_stepped (current o t) t1 c' /\ c' = mkCacheAccount None (ca_status c')
  | None => c' = c /\ ca_account c = None
  end.
Proof.
  intros Hc. unfold selfdestruct. case_bool_decide as Hs; intros [= <- <-].
  - pose proof (gone_account _ _ _ Hc ltac:(by rewrite Hs)) as Ha. split; [|done]. rewrite Hs. simpl. destruct c. simpl in *. congruence.
  - destruct (removed_stepped c t o (on_selfdestructed (ca_status c)) Hc) as [H1 H2]; [by destruct (ca_status c)..|]. done.
Qed.

Lemma touch_empty_tracked {E} c t o r c' :
  tracked c t o -> touch_empty_eip161 c = (Ok (E := E) r, c') ->
  match r with
  | Some t1 => stepped (current o t) c t1 c' /\ cache_stepped (current o t) t1 c' /\ c' = mkCacheAccount None (ca_status c')
  | None => c' = c /\ ca_account c = None
  end.
Proof.
  intros Hc. unfold touch_empty_eip161. pose proof (gone_account _ _ _ Hc) as Hg.
  assert (Hsame : ca_account c = None -> mkCacheAccount None (ca_status c) = c) by (destruct c; simpl; by intros ->).
  destruct (ca_status c) eqn:Hs; simpl; intros [= <- <-]; try (by split; [apply Hsame|]; apply Hg); rewrite <-Hs.
  1,2: destruct (removed_stepped c t o Destroyed Hc) as [H1 H2]; [by rewrite Hs|done|done].
  destruct (removed_stepped c t o DestroyedAgain Hc) as [H1 H2]; [by rewrite Hs|done|done].
Qed.

Lemma touch_empty_defined {E} c : ca_status c <> Loaded -> ca_status c <> Changed -> exists r c', touch_empty_eip161 c = (Ok (E := E) r, c').
Proof. intros H1 H2. unfold touch_empty_eip161. destruct (ca_status c); try done; eauto. Qed.

(** An account that is replaced by a new one, over no storage. *)
Lemma replaced_stepped c t o i storage u :
  tracked c t o -> steps_to (ca_status c) u = true -> status_exists u = true -> is_storage_known u = true ->
  (forall k, current o t k = 0) -> (forall k s, storage !! k = Some s -> previous_or_original_value s = 0) ->
  (is_storage_known (ca_status c) = false -> forall k, base_storage k = 0) ->
  let t1 := mkTransitionAccount (Some i) u (CacheAccount_account_info c) (ca_status c) storage false in
  let c' := mkCacheAccount (Some (mkPlainAccount i (present_values storage))) u in
  stepped (current o t) c t1 c' /\ cache_stepped (current o t) t1 c'.
Proof.
  intros Hc Hs He Hk Hz Hst Hf t1 c'. split; split; cbn; try done; rewrite ?He; try done.
  - intros k s Hks. rewrite Hz. by eapply Hst.
  - intros k v. unfold cached_slot, after, present_values. cbn. rewrite lookup_fmap. destruct (storage !! k); simpl; [|done]. by intros [= <-].
  - intros k. unfold cached_slot, after, present_values. cbn. rewrite lookup_fmap, Hk. destruct (storage !! k); [done|]. by rewrite Hz.
Qed.

Lemma newly_created_tracked c t o i storage :
  tracked c t o -> ca_status c <> Changed -> (forall k, current o t k = 0) ->
  (forall k s, storage !! k = Some s -> previous_or_original_value s = 0) ->
  (is_storage_known (ca_status c) = false -> forall k, base_storage k = 0) ->
  let '(t1, c') := newly_created i storage c in stepped (current o t) c t1 c' /\ cache_stepped (current o t) t1 c'.
Proof. intros Hc Hn Hz Hst Hf. unfold newly_created. apply replaced_stepped; try done; by destruct (ca_status c). Qed.

Lemma touch_create_tracked {E} c t o r c' :
  tracked c t o -> (forall k, current o t k = 0) ->
  touch_create_pre_eip161 ∅ c = (Ok (E := E) r, c') ->
  match r with
  | Some t1 => stepped (current o t) c t1 c' /\ cache_stepped (current o t) t1 c' /\ CacheAccount_account_info c' = Some AccountInfo_default
  | None => c' = c /\ exists i, CacheAccount_account_info c = Some i /\ (info_is_empty i = true \/ ca_status c = LoadedEmptyEIP161)
  end.
Proof.
  intros Hc Hz. unfold touch_create_pre_eip161. set (had := default false _).
  pose proof (tr_exists _ _ _ _ _ Hc) as Hex.
  destruct (on_touched_created_pre_eip161 (ca_status c) had) as [[u|]| |] eqn:Hu; intros [= <- <-].
  - assert (Hsu : steps_to (ca_status c) u = true /\ status_exists u = true /\ is_storage_known u = true /\ is_storage_known (ca_status c) = true).
    { destruct (ca_status c), had; simplify_eq/=; done. }
    destruct Hsu as (H1 & H2 & H3 & H4). destruct (replaced_stepped c t o AccountInfo_default ∅ u) as [H5 H6]; try done.
    by rewrite H4.
  - split; [done|]. destruct (ca_status c) eqn:Hs; try (by destruct had).
    + destruct (ca_account c) as [acc|] eqn:Ha; [|destruct Hex as [_ Hex]; by destruct (Hex eq_refl)].
      exists (pa_info acc). unfold CacheAccount_account_info. rewrite Ha. split; [done|by right].
    + subst had. unfold CacheAccount_account_info in *. destruct (ca_account c) as [acc|]; simpl in Hu; [|done].
      exists (pa_info acc). split; [done|left]. by destruct (info_is_empty (pa_info acc)).
Qed.

Lemma touch_create_defined {E} storage c :
  ca_status c <> Loaded -> ca_status c <> Changed -> exists r c', touch_create_pre_eip161 storage c = (Ok (E := E) r, c').
Proof.
  intros H1 H2. unfold touch_create_pre_eip161. set (had := default false _).
  destruct (ca_status c), had; try done; simpl; eauto.
Qed.

(** The status of an account that changes. *)
Definition changed_status (c : CacheAccount) : AccountStatus :=
  on_changed (ca_status c) (default false (has_no_code_and_nonce <$> CacheAccount_account_info c)).
Definition change_fresh (c : CacheAccount) : Prop :=
  changed_status c = InMemoryChange -> is_storage_known (ca_status c) = false -> forall k, base_storage k = 0.

Lemma change_tracked c t o i storage :
  tracked c t o -> change_fresh c -> (forall k s, storage !! k = Some s -> previous_or_original_value s = current o t k) ->
  let '(t1, c') := CacheAccount_change i storage c in stepped (current o t) c t1 c' /\ cache_stepped (current o t) t1 c'.
Proof.
  intros Hc Hf Hst. unfold CacheAccount_change. fold (changed_status c). unfold change_fresh in Hf. set (u := changed_status c) in *.
  assert (Hu : steps_to (ca_status c) u = true /\ status_exists u = true /\ (is_storage_known (ca_status c) = true -> is_storage_known u = true) /\
    (is_storage_known (ca_status c) = false -> is_storage_known u = true -> u = InMemoryChange)).
  { subst u. unfold changed_status. destruct (ca_status c), (default false _); done. }
  destruct Hu as (Hs & He & Hk1 & Hk2). clearbody u.
  assert (Hslot : forall k, cached_slot (mkCacheAccount (Some (mkPlainAccount i (present_values storage ∪ default ∅ (pa_storage <$> ca_account c)))) u) k =
    match storage !! k with Some s => Some (slot_present s) | None => cached_slot c k end).
  { intros k. unfold cached_slot, present_values. cbn. rewrite lookup_union, lookup_fmap.
    destruct (storage !! k), (ca_account c) as [acc|]; simpl; rewrite ?lookup_empty; try done; by destruct (pa_storage acc !! k). }
  split; [split; cbn; rewrite ?He; done|split].
  - intros k v. rewrite Hslot. unfold after. cbn. destruct (storage !! k); [by intros [= <-]|]. apply (tr_cached _ _ _ _ _ Hc).
  - intros k. rewrite Hslot. unfold after. cbn. destruct (storage !! k); [done|]. intros Hk. rewrite (tr_other _ _ _ _ _ Hc k Hk).
    destruct (is_storage_known (ca_status c)) eqn:Hkc; [by rewrite Hk1|].
    destruct (is_storage_known u) eqn:Hku; [|done]. by apply Hf; [apply Hk2|].
Qed.

(** A change of the info is a change without slots. *)
Lemma info_change_is_change {T} (change : AccountInfo -> T * AccountInfo) c :
  let '(out, i) := change (pa_info (default PlainAccount_default (ca_account c))) in
  account_info_change change c = (out, (CacheAccount_change i ∅ c).1, (CacheAccount_change i ∅ c).2).
Proof.
  unfold account_info_change, CacheAccount_change. destruct (change _) as [out i]. simpl.
  assert (Hst : present_values ∅ ∪ default ∅ (pa_storage <$> ca_account c) = pa_storage (default PlainAccount_default (ca_account c))).
  { unfold present_values. rewrite fmap_empty, (left_id_L ∅ (∪)). by destruct (ca_account c). }
  by rewrite Hst.
Qed.

Lemma info_change_tracked {T} (change : AccountInfo -> T * AccountInfo) c t o out t1 c' :
  tracked c t o -> change_fresh c -> account_info_change change c = (out, t1, c') ->
  stepped (current o t) c t1 c' /\ cache_stepped (current o t) t1 c' /\ (forall k, after (current o t) t1 k = current o t k) /\
  CacheAccount_account_info c' = Some (change (pa_info (default PlainAccount_default (ca_account c)))).2 /\
  out = (change (pa_info (default PlainAccount_default (ca_account c)))).1.
Proof.
  intros Hc Hf Heq. pose proof (info_change_is_change change c) as H. destruct (change _) as [o' i]. rewrite Heq in H. simplify_eq.
  pose proof (change_tracked c t o i ∅ Hc Hf) as H2. destruct H2 as [H3 H4]; [intros k s; by rewrite lookup_empty|].
  split_and!; try done.
Qed.
End address.

(** ** Account by account *)

Section address.
Context (base_info : option AccountInfo) (base_storage : Z -> Z).

(** An empty account of the database has to be the default one. *)
Lemma loaded_tracked :
  (base_info = None -> forall k, base_storage k = 0) ->
  (forall i, base_info = Some i -> info_is_empty i = true -> info_equiv (Some i) (Some AccountInfo_default)) ->
  tracked base_info base_storage (loaded_account base_info) None None.
Proof.
  intros Hnothing Hempty. unfold loaded_account. destruct base_info as [i|] eqn:Hi.
  - destruct (info_is_empty i) eqn:He; (split; cbn; [by split| |by intros k v; rewrite ?lookup_empty|done|done|by split]).
    + symmetry. by apply Hempty.
    + done.
  - split; cbn; try done; [intros k _; by apply Hnothing|].
    intros _. split; try done; intros; by apply Hnothing.
Qed.

Lemma bundle_account_tracked b : bundle_ok base_info base_storage b -> tracked base_info base_storage (CacheAccount_from b) None (Some b).
Proof.
  intros Hb. unfold CacheAccount_from, BundleAccount_account_info. split; cbn.
  - rewrite <-(bo_exists _ _ _ Hb). by rewrite fmap_is_Some.
  - unfold CacheAccount_account_info. cbn. by destruct (ba_info b).
  - intros k v. unfold cached_slot, present_values. cbn. destruct (ba_info b); simpl; [|done]. rewrite lookup_fmap.
    unfold slot_value. destruct (ba_storage b !! k); simpl; [by intros [= <-]|done].
  - intros k. unfold cached_slot, present_values, slot_value. cbn. destruct (ba_info b) eqn:Hi; simpl.
    + rewrite lookup_fmap. by destruct (ba_storage b !! k).
    + intros _. assert (He : status_exists (ba_status b) = false).
      { destruct (status_exists (ba_status b)) eqn:He; [|done]. destruct (proj2 (bo_exists _ _ _ Hb) He). congruence. }
      assert (Hk : is_storage_known (ba_status b) = true) by by destruct (ba_status b).
      rewrite Hk. destruct (ba_storage b !! k) eqn:Hs; [by eapply bo_gone|done].
  - done.
  - intros _. split; try done. intros ? [= <-]. by left.
Qed.

(** A slot that is read goes to the cache. *)
Lemma insert_slot_tracked c t o acc k v :
  tracked base_info base_storage c t o -> ca_account c = Some acc -> current base_storage o t k = v ->
  tracked base_info base_storage
    (mkCacheAccount (Some (mkPlainAccount (pa_info acc) (<[ k := v ]> (pa_storage acc)))) (ca_status c)) t o.
Proof.
  intros [He Hi Hc Ho Ht Hb] Ha Hv.
  assert (Hslot : forall k', cached_slot (mkCacheAccount (Some (mkPlainAccount (pa_info acc) (<[ k := v ]> (pa_storage acc)))) (ca_status c)) k' =
    if decide (k = k') then Some v else cached_slot c k').
  { intros k'. unfold cached_slot. cbn. rewrite Ha. simpl. destruct (decide (k = k')) as [<-|Hn]; [apply lookup_insert_eq|by apply lookup_insert_ne]. }
  split; cbn [ca_status ca_account].
  - rewrite <-He, Ha. done.
  - unfold CacheAccount_account_info in *. rewrite Ha in Hi. exact Hi.
  - intros k' v'. rewrite Hslot. destruct (decide (k = k')) as [<-|]; [by intros [= <-]|apply Hc].
  - intros k'. rewrite Hslot. destruct (decide (k = k')); [done|apply Ho].
  - intros t' Ht'. destruct (Ht t' Ht'). by split.
  - intros Ht'. destruct (Hb Ht'). by split.
Qed.

(** The bundle takes the transition over. *)
Lemma merged_tracked {E} a c t o r o' :
  entry_ok (fun _ => base_info) (fun _ => base_storage) a o -> tracked base_info base_storage c (Some t) o ->
  update_entry t o = Ok (E := E) (r, o') ->
  tells base_info base_storage o' t (before t o) -> tracked base_info base_storage c None o'.
Proof.
  intros Hok Hc Hu [Hti Htv]. pose proof (tr_transition _ _ _ _ _ Hc t eq_refl) as [Hst Hf Hs _].
  split.
  - apply (tr_exists _ _ _ _ _ Hc).
  - rewrite (tr_info _ _ _ _ _ Hc). cbn. by symmetry.
  - intros k v Hk. rewrite (tr_cached _ _ _ _ _ Hc k v Hk). cbn. by rewrite Htv.
  - intros k Hk. rewrite <-(tr_other _ _ _ _ _ Hc k Hk). cbn. by rewrite Htv.
  - done.
  - intros _. destruct o as [b|]; simpl in Hu.
    + destruct (update_correct (E := E) base_info base_storage t b) as (r1 & b1 & Hu1 & Hf1); [by apply Hok|exact Hf|].
      rewrite Hu1 in Hu. simplify_eq/=. split; [|done|done]. intros ? [= <-]. rewrite <-Hs.
      destruct Hf1 as (_ & [_ _ [Hup | [Hup Hd]] _] & _); [by left|right; by split].
    + specialize (Hst eq_refl). destruct (create_revert t) as [[r1|]| |] eqn:Hr; simplify_eq/=.
      * split; [|done|done]. intros ? [= <-]. left. by rewrite <-Hs.
      * split; [done| |intros _; apply (st_nothing _ _ _ Hst)]. intros _ Hk. rewrite <-Hs in Hk.
        destruct (is_storage_known (ta_previous_status t)) eqn:Hp; [by apply (st_known _ _ _ Hst)|].
        destruct (ta_status t) eqn:Hts; try discriminate Hk; try (by apply (fo_fresh _ _ _ Hf));
          unfold create_revert, update_and_create_revert in Hr; rewrite Hts in Hr;
          [by pose proof (fo_modified _ _ _ Hf) as Hm; rewrite Hts in Hm| | |];
          unfold update_to_destroyed, update_to_destroyed_changed, update_to_destroyed_again, new_selfdestructed_from_bundle in Hr;
          cbn in Hr; destruct (ta_previous_status t) eqn:Hps; try discriminate Hp; try discriminate Hr;
          simpl in Hr; unfold AccountRevert_is_empty in Hr; simpl in Hr; rewrite ?andb_false_r in Hr; try discriminate Hr;
          pose proof (fo_status _ _ _ Hf) as Hd; cbn in Hd; by rewrite Hps, Hts in Hd.
Qed.
End address.

(** ** The whole state *)

Section state.
Context {DB DbErr : Type} `{Database DB DbErr} `{MapIteration}.
Context (base_info : Address -> option AccountInfo) (base_storage : Address -> Z -> Z).

(** A database that always answers the same, or fails; [answers] is its invariant. *)
Record serves (answers : DB -> Prop) : Prop := {
  sv_basic a db r db' : answers db -> basic a db = (r, db') -> answers db' /\ r <> Panic /\ forall i, r = Ok i -> i = base_info a;
  sv_storage a k db r db' : answers db -> db_storage a k db = (r, db') -> answers db' /\ r <> Panic /\ forall v, r = Ok v -> v = base_storage a k;
  sv_nothing a : base_info a = None -> forall k, base_storage a k = 0;
  sv_empty a i : base_info a = Some i -> info_is_empty i = true -> info_equiv (Some i) (Some AccountInfo_default);
}.

Context (answers : DB -> Prop).

(** What the state stands for, with [ts] the transitions. *)
Definition info_in (ts : Transitions) (b : BundleState) (a : Address) : option AccountInfo :=
  current_info (base_info a) (bs_state b !! a) (ts !! a).
Definition slot_in (ts : Transitions) (b : BundleState) (a : Address) (k : Z) : Z :=
  current (base_storage a) (bs_state b !! a) (ts !! a) k.

(** The cache agrees with the transitions [ts] and with the bundle. *)
Record cache_tracked (ts : Transitions) (b : BundleState) (preloaded : bool) (c : CacheState) : Prop := {
  ct_cached a x : cs_accounts c !! a = Some x -> tracked (base_info a) (base_storage a) x (ts !! a) (bs_state b !! a);
  ct_uncached a : cs_accounts c !! a = None -> ts !! a = None /\ (preloaded = false -> bs_state b !! a = None);
}.

Record tracked_with (ts : Transitions) (s : DbState DB) : Prop := {
  tw_answers : answers (st_database s);
  tw_sound : bundle_sound base_info base_storage (st_bundle_state s);
  tw_settled : bundle_settled base_storage (st_bundle_state s);
  tw_cache : cache_tracked ts (st_bundle_state s) (st_use_preloaded_bundle s) (st_cache s);
}.
Definition state_tracked (s : DbState DB) : Prop := exists ts, st_transition_state s = Some ts /\ tracked_with ts s.

Definition view_info (s : DbState DB) (a : Address) : option AccountInfo :=
  info_in (default ∅ (st_transition_state s)) (st_bundle_state s) a.
Definition view_slot (s : DbState DB) (a : Address) (k : Z) : Z :=
  slot_in (default ∅ (st_transition_state s)) (st_bundle_state s) a k.

(** Two states with the same transitions, bundle and flags; the cache and the
    database may have moved. *)
Definition same_layers (s s' : DbState DB) : Prop :=
  st_transition_state s' = st_transition_state s /\ st_bundle_state s' = st_bundle_state s /\
  st_use_preloaded_bundle s' = st_use_preloaded_bundle s /\ has_state_clear (st_cache s') = has_state_clear (st_cache s).

#[export] Instance same_layers_preorder : PreOrder same_layers.
Proof. unfold same_layers. split; [done|]. intros s1 s2 s3. naive_solver congruence. Qed.

Lemma same_layers_view s s' : same_layers s s' -> (forall a, view_info s' a = view_info s a) /\ (forall a k, view_slot s' a k = view_slot s a k).
Proof. intros (Ht & Hb & _). unfold view_info, view_slot. by rewrite Ht, Hb. Qed.

Lemma cache_insert ts b p c a x :
  cache_tracked ts b p c -> tracked (base_info a) (base_storage a) x (ts !! a) (bs_state b !! a) ->
  cache_tracked ts b p (set_cs_accounts (<[ a := x ]>) c).
Proof.
  intros [Hc Hu] Hx. split; intros a'; cbn.
  - intros x'. rewrite lookup_insert_Some. intros [[<- <-]|[_ Hx']]; [done|by apply Hc].
  - rewrite lookup_insert_None. intros [Ha _]. by apply Hu.
Qed.

Lemma set_cached_tracked ts s a x :
  tracked_with ts s -> tracked (base_info a) (base_storage a) x (ts !! a) (bs_state (st_bundle_state s) !! a) ->
  tracked_with ts (set_cached a x s) /\ same_layers s (set_cached a x s) /\ cs_accounts (st_cache (set_cached a x s)) !! a = Some x.
Proof.
  intros [Ha Hs Hset Hc] Hx. split_and!; try done; [split; try done; by apply cache_insert|]. apply lookup_insert_eq.
Qed.

Context (Hserves : serves answers).

Lemma load_cache_account_tracked ts s a r s' :
  tracked_with ts s -> load_cache_account a s = (r, s') ->
  tracked_with ts s' /\ same_layers s s' /\ r <> Panic /\
  (forall x, r = Ok x -> cs_accounts (st_cache s') !! a = Some x /\ tracked (base_info a) (base_storage a) x (ts !! a) (bs_state (st_bundle_state s') !! a)).
Proof.
  intros Hs. unfold load_cache_account. destruct (cs_accounts (st_cache s) !! a) as [x|] eqn:Hx.
  { intros [= <- <-]. split_and!; try done. intros ? [= <-]. split; [done|]. by apply (ct_cached _ _ _ _ (tw_cache _ _ Hs)). }
  destruct (ct_uncached _ _ _ _ (tw_cache _ _ Hs) a Hx) as [Ht Hp].
  destruct (if st_use_preloaded_bundle s then BundleState_account (st_bundle_state s) a else None) as [b|] eqn:Hb.
  - destruct (st_use_preloaded_bundle s); [|done]. unfold BundleState_account in Hb.
    assert (Htr : tracked (base_info a) (base_storage a) (CacheAccount_from b) (ts !! a) (bs_state (st_bundle_state s) !! a)).
    { rewrite Ht, Hb. apply bundle_account_tracked. exact (tw_sound _ _ Hs a b Hb). }
    intros [= <- <-]. destruct (set_cached_tracked ts s a _ Hs Htr) as (H1 & H2 & H3). split_and!; try done.
    intros ? [= <-]. split; [done|]. destruct H2 as (_ & -> & _). exact Htr.
  - assert (Hb' : bs_state (st_bundle_state s) !! a = None).
    { destruct (st_use_preloaded_bundle s); [exact Hb|by apply Hp]. }
    unfold ask_database, zoom, mbind, M_bind, modify, mret, M_ret. destruct (basic a (st_database s)) as [i db] eqn:Hi.
    destruct (sv_basic _ Hserves _ _ _ _ (tw_answers _ _ Hs) Hi) as (Hdb & Hnp & Hok).
    assert (Hs1 : tracked_with ts (set_st_database db s)) by (destruct Hs; by split).
    destruct i as [i|e|]; cbn; intros [= <- <-]; [|by split_and!|done].
    specialize (Hok i eq_refl). subst i.
    assert (Htr : tracked (base_info a) (base_storage a) (loaded_account (base_info a)) (ts !! a) (bs_state (st_bundle_state s) !! a)).
    { rewrite Ht, Hb'. apply loaded_tracked; [apply (sv_nothing _ Hserves)|apply (sv_empty _ Hserves)]. }
    destruct (set_cached_tracked ts _ a _ Hs1 Htr) as (H1 & H2 & H3). split_and!; try done. intros ? [= <-]. done.
Qed.

Lemma State_basic_view ts s a r s' :
  tracked_with ts s -> State_basic a s = (r, s') ->
  tracked_with ts s' /\ same_layers s s' /\ r <> Panic /\
  (forall i, r = Ok i -> info_equiv i (info_in ts (st_bundle_state s) a) /\ is_Some (cs_accounts (st_cache s') !! a)).
Proof.
  intros Hs. unfold State_basic, mbind, M_bind, mret, M_ret. destruct (load_cache_account a s) as [x s1] eqn:Hx.
  destruct (load_cache_account_tracked _ _ _ _ _ Hs Hx) as (H1 & H2 & H3 & H4).
  destruct x as [x|e|]; intros [= <- <-]; split_and!; try done. intros ? [= <-]. destruct (H4 x eq_refl) as [H5 H6].
  split; [|by eauto]. destruct H2 as (_ & Hb & _). rewrite Hb in H6. apply (tr_info _ _ _ _ _ H6).
Qed.

Lemma State_storage_view ts s a k r s' :
  tracked_with ts s -> is_Some (cs_accounts (st_cache s) !! a) -> State_storage a k s = (r, s') ->
  tracked_with ts s' /\ same_layers s s' /\ r <> Panic /\ (forall v, r = Ok v -> v = slot_in ts (st_bundle_state s) a k).
Proof.
  intros Hs [c Hc]. unfold State_storage. rewrite Hc. pose proof (ct_cached _ _ _ _ (tw_cache _ _ Hs) a c Hc) as Htr.
  destruct (ca_account c) as [acc|] eqn:Ha.
  2:{ intros [= <- <-]. split_and!; try done. intros ? [= <-]. symmetry. eapply gone_value; [exact Htr|].
      destruct (status_exists (ca_status c)) eqn:He; [|done]. destruct (proj2 (tr_exists _ _ _ _ _ Htr) He). congruence. }
  destruct (pa_storage acc !! k) as [v|] eqn:Hk.
  { intros [= <- <-]. split_and!; try done. intros ? [= <-]. apply (tr_cached _ _ _ _ _ Htr). unfold cached_slot. by rewrite Ha. }
  assert (Hother := tr_other _ _ _ _ _ Htr k). unfold cached_slot in Hother. rewrite Ha in Hother. specialize (Hother Hk).
  destruct (is_storage_known (ca_status c)).
  - intros [= <- <-]. destruct (set_cached_tracked ts s a _ Hs (insert_slot_tracked _ _ _ _ _ acc k 0 Htr Ha Hother)) as (H1 & H2 & _).
    split_and!; try done. intros ? [= <-]. by symmetry.
  - unfold ask_database, zoom, mbind, M_bind, modify, mret, M_ret. destruct (db_storage a k (st_database s)) as [v db] eqn:Hv.
    destruct (sv_storage _ Hserves _ _ _ _ _ (tw_answers _ _ Hs) Hv) as (Hdb & Hnp & Hok).
    assert (Hs1 : tracked_with ts (set_st_database db s)) by (destruct Hs; by split).
    destruct v as [v|e|]; cbn; intros [= <- <-]; [|by split_and!|done].
    specialize (Hok v eq_refl). subst v.
    destruct (set_cached_tracked ts _ a _ Hs1 (insert_slot_tracked _ _ _ _ _ acc k _ Htr Ha Hother)) as (H1 & H2 & _).
    split_and!; try done. intros ? [= <-]. by symmetry.
Qed.
End state.
