(* ===== verification/DbStateCommit.v ===== *)
(** Committing a transaction to a [State], changing balances outside of
    transactions, and merging the transitions of a block into the bundle. *)

From S2P Require Import Prelude.
From S2P Require Import Bytes.
From S2P Require Import Eof.
From S2P Require Import Bytecode.
From S2P Require Import State.
From S2P Require Import Result.
From S2P Require Import Database.
From S2P Require Import DbAccounts.
From S2P Require Import DbBundleAccount.
From S2P Require Import DbRevert.
From S2P Require Import DbBundleState.
From S2P Require Import DbBundleSizes.
From S2P Require Import DbPlainState.
From S2P Require Import DbState.
From S2P Require Import DbTracking.
From S2P Require Import DbStateView.

(** ** What a commit promises of one account *)

(** What a transaction may leave of an account whose entry in the cache is [x] and
    whose slots are [value]: the previous values of its slots are those; an account
    is only created where nothing is stored, and not over one with code or a nonce;
    and an account of the database with code or a nonce does not become empty. *)
Definition account_fits (base_storage : Z -> Z) (value : Z -> Z) (x : CacheAccount) (account : Account) : Prop :=
  if is_selfdestructed account then True
  else if is_created account then
    ca_status x <> Changed /\ (forall k, value k = 0) /\
    (forall k s, changed_storage account !! k = Some s -> previous_or_original_value s = 0) /\
    (is_storage_known (ca_status x) = false -> forall k, base_storage k = 0)
  else if Account_is_empty account then
    ca_status x <> Loaded /\ ca_status x <> Changed /\ changed_storage account = ∅ /\ (forall k, value k = 0)
  else change_fresh base_storage x /\ (forall k s, changed_storage account !! k = Some s -> previous_or_original_value s = value k).

(** The info afterwards: none when the account was destroyed, or is empty and
    empty accounts are cleared; before that rule an empty account exists. *)
Definition committed_info (has_state_clear : bool) (account : Account) (i : option AccountInfo) : Prop :=
  if is_selfdestructed account then i = None
  else if negb (is_created account) && Account_is_empty account then (if has_state_clear then i = None else is_Some i)
  else info_equiv i (Some (info account)).
Definition committed_slot (account : Account) (value : Z -> Z) (k : Z) : Z :=
  if is_selfdestructed account then 0
  else match changed_storage account !! k with Some s => slot_present s | None => value k end.

Section address.
Context (base_info : option AccountInfo) (base_storage : Z -> Z).

Abbreviation cur_info := (current_info base_info).
Abbreviation cur := (current base_storage).
Definition add_to (t : option TransitionAccount) (r : option TransitionAccount) : option TransitionAccount :=
  match r with Some t1 => Some (joined t t1) | None => t end.

Lemma info_none i : info_equiv None i -> i = None.
Proof. by destruct i. Qed.

(** The outcome of a step of the cache, in terms of the address. *)
Lemma step_outcome c t t1 c' o :
  tracked base_info base_storage c t o -> stepped base_storage (cur o t) c t1 c' -> cache_stepped base_storage (cur o t) t1 c' ->
  tracked base_info base_storage c' (add_to t (Some t1)) o /\
  info_equiv (CacheAccount_account_info c') (cur_info o (add_to t (Some t1))) /\
  forall k, cur o (add_to t (Some t1)) k = after (cur o t) t1 k.
Proof.
  intros Hc Hs Hcs. destruct (track_step _ _ c t t1 c' o Hc Hs Hcs) as [H1 H2]. split_and!; try done. apply (tr_info _ _ _ _ _ H1).
Qed.

(** An account that is gone. *)
Lemma removed_outcome x t o (r : option TransitionAccount) x' :
  tracked base_info base_storage x t o ->
  match r with
  | Some t1 => stepped base_storage (cur o t) x t1 x' /\ cache_stepped base_storage (cur o t) t1 x' /\ x' = mkCacheAccount None (ca_status x')
  | None => x' = x /\ ca_account x = None
  end ->
  tracked base_info base_storage x' (add_to t r) o /\ cur_info o (add_to t r) = None /\ forall k, cur o (add_to t r) k = 0.
Proof.
  intros Hx Hr. assert (Htr : tracked base_info base_storage x' (add_to t r) o /\ ca_account x' = None).
  { destruct r as [t1|]; [|by destruct Hr as [-> ?]]. destruct Hr as (H1 & H2 & H3). split; [by eapply step_outcome|]. by rewrite H3. }
  destruct Htr as [Htr Ha]. split; [done|].
  assert (He : status_exists (ca_status x') = false).
  { destruct (status_exists (ca_status x')) eqn:He; [|done]. destruct (proj2 (tr_exists _ _ _ _ _ Htr) He). congruence. }
  split; [|intros k; by eapply gone_value]. apply info_none. pose proof (tr_info _ _ _ _ _ Htr) as Hi.
  unfold CacheAccount_account_info in Hi. by rewrite Ha in Hi.
Qed.

(** An empty account that is touched before EIP-161. *)
Lemma touched_outcome {E} x t o :
  tracked base_info base_storage x t o -> ca_status x <> Loaded -> ca_status x <> Changed -> (forall k, cur o t k = 0) ->
  exists r x', touch_create_pre_eip161 ∅ x = (Ok (E := E) r, x') /\ tracked base_info base_storage x' (add_to t r) o /\
    is_Some (cur_info o (add_to t r)) /\ forall k, cur o (add_to t r) k = 0.
Proof.
  intros Hx H1 H2 H4. destruct (touch_create_defined (E := E) ∅ x H1 H2) as (r & x' & Hr). exists r, x'. split; [done|].
  pose proof (touch_create_tracked base_info base_storage x t o r x' Hx H4 Hr) as Ht. destruct r as [t1|].
  - destruct Ht as (H5 & H6 & H7). destruct (step_outcome _ _ _ _ _ Hx H5 H6) as (H8 & H9 & H10). split_and!; [done| |].
    + rewrite <-(info_equiv_is_Some _ _ H9), H7. done.
    + intros k. rewrite H10. unfold after.
      unfold touch_create_pre_eip161 in Hr. destruct (on_touched_created_pre_eip161 _ _) as [[u|]| |]; simplify_eq/=.
      by rewrite lookup_empty.
  - destruct Ht as (-> & i & Hi & _). split_and!; [done| |done].
    cbn. rewrite <-(info_equiv_is_Some _ _ (tr_info _ _ _ _ _ Hx)), Hi. done.
Qed.

Lemma apply_to_cache_account_spec {E} clear account x t o :
  tracked base_info base_storage x t o -> account_fits base_storage (cur o t) x account ->
  exists r x', apply_to_cache_account clear account x = (Ok (E := E) r, x') /\
    tracked base_info base_storage x' (add_to t r) o /\
    committed_info clear account (cur_info o (add_to t r)) /\
    forall k, cur o (add_to t r) k = committed_slot account (cur o t) k.
Proof.
  intros Hx Hf. unfold apply_to_cache_account, committed_info, committed_slot, account_fits in *.
  destruct (is_selfdestructed account) eqn:Hsd.
  { destruct (selfdestruct x) as [r x'] eqn:Hr. exists r, x'. split; [done|].
    apply (removed_outcome x); [done|]. by eapply (selfdestruct_tracked base_info). }
  destruct (is_created account) eqn:Hcr; cbn [negb andb].
  { destruct Hf as (H1 & H2 & H3 & H4). pose proof (newly_created_tracked _ _ x t o (info account) _ Hx H1 H2 H3 H4) as Hn.
    unfold newly_created in *. destruct Hn as [Hn1 Hn2]. destruct (step_outcome _ _ _ _ _ Hx Hn1 Hn2) as (H5 & H6 & H7).
    eexists _, _. split; [done|]. split_and!; [done|by symmetry|]. intros k. rewrite H7. done. }
  destruct (Account_is_empty account) eqn:Hem; cbn [negb andb].
  { destruct Hf as (H1 & H2 & H3 & H4). rewrite H3. destruct clear.
    - destruct (touch_empty_defined (E := E) x H1 H2) as (r & x' & Hr). rewrite Hr. exists r, x'. split; [done|].
      destruct (removed_outcome x t o r x' Hx) as (H5 & H6 & H7); [by eapply (touch_empty_tracked base_info)|]. split_and!; try done.
      intros k. by rewrite H7, lookup_empty, H4.
    - destruct (touched_outcome (E := E) x t o Hx H1 H2 H4) as (r & x' & Hr & H5 & H6 & H7). rewrite Hr. exists r, x'. split_and!; try done.
      intros k. by rewrite H7, lookup_empty, H4. }
  destruct Hf as [H1 H2]. pose proof (change_tracked _ _ x t o (info account) _ Hx H1 H2) as Hn.
  unfold CacheAccount_change in *. destruct Hn as [Hn1 Hn2]. destruct (step_outcome _ _ _ _ _ Hx Hn1 Hn2) as (H5 & H6 & H7).
  eexists _, _. split; [done|]. split_and!; [done|by symmetry|]. intros k. rewrite H7. done.
Qed.
End address.

(** ** Adding transitions *)

Lemma add_transition_same ts a t : add_transition ts (a, t) !! a = Some (joined (ts !! a) t).
Proof. unfold add_transition. cbn. destruct (ts !! a); by rewrite lookup_insert_eq. Qed.
Lemma add_transition_other ts a t a' : a <> a' -> add_transition ts (a, t) !! a' = ts !! a'.
Proof. intros Hn. unfold add_transition. cbn. destruct (ts !! a); by rewrite lookup_insert_ne. Qed.

Section state.
Context {DB DbErr : Type} `{Database DB DbErr} `{MapIteration}.
Context (base_info : Address -> option AccountInfo) (base_storage : Address -> Z -> Z) (answers : DB -> Prop).

Abbreviation cached := (cache_tracked base_info base_storage).
Abbreviation info_at := (info_in base_info).
Abbreviation slot_at := (slot_in base_storage).

(** An account of the transaction that is touched fits what the cache has. *)
Definition commit_fits (ts : Transitions) (b : BundleState) (c : CacheState) (a : Address) (account : Account) : Prop :=
  is_touched account = true ->
  exists x, cs_accounts c !! a = Some x /\ account_fits (base_storage a) (slot_at ts b a) x account.

(** What the commit of [account] makes of the address. *)
Definition committed (clear : bool) (ts ts' : Transitions) (b : BundleState) (a : Address) (account : Account) : Prop :=
  if is_touched account then
    committed_info clear account (info_at ts' b a) /\ forall k, slot_at ts' b a k = committed_slot account (slot_at ts b a) k
  else ts' !! a = ts !! a.

Definition add_step (ts : Transitions) (a : Address) (r : option TransitionAccount) : Transitions :=
  match r with Some t => add_transition ts (a, t) | None => ts end.

Lemma add_step_same ts a r : add_step ts a r !! a = add_to (ts !! a) r.
Proof. destruct r; [apply add_transition_same|done]. Qed.
Lemma add_step_other ts a r a' : a <> a' -> add_step ts a r !! a' = ts !! a'.
Proof. destruct r; [apply add_transition_other|done]. Qed.

(** One address of the cache moves on. *)
Lemma cache_step ts b p c a x r x' :
  cached ts b p c -> cs_accounts c !! a = Some x ->
  tracked (base_info a) (base_storage a) x' (add_to (ts !! a) r) (bs_state b !! a) ->
  cached (add_step ts a r) b p (set_cs_accounts (<[ a := x' ]>) c).
Proof.
  intros [Hc Hu] Hx Hx'. split; intros a'; cbn.
  - intros y. destruct (decide (a = a')) as [<-|Hn].
    + rewrite lookup_insert_eq, add_step_same. by intros [= <-].
    + rewrite lookup_insert_ne, add_step_other by done. by apply Hc.
  - rewrite lookup_insert_None. intros [Ha Hn]. rewrite add_step_other by done. by apply Hu.
Qed.

Lemma apply_account_state_spec {E} ts b p c a account :
  cached ts b p c -> commit_fits ts b c a account ->
  exists r c', apply_account_state a account c = (Ok (E := E) r, c') /\ cached (add_step ts a r) b p c' /\
    has_state_clear c' = has_state_clear c /\ (forall a', a <> a' -> cs_accounts c' !! a' = cs_accounts c !! a') /\
    committed (has_state_clear c) ts (add_step ts a r) b a account.
Proof.
  intros Hc Hf. unfold apply_account_state, committed. destruct (is_touched account) eqn:Ht; cbn [negb].
  - destruct (Hf Ht) as (x & Hx & Hfit). rewrite Hx.
    destruct (apply_to_cache_account_spec (E := E) (base_info a) (base_storage a) (has_state_clear c) account x (ts !! a) (bs_state b !! a))
      as (r & x' & Hr & Htr & Hi & Hv); [by apply (ct_cached _ _ _ _ _ _ Hc)|done|].
    rewrite Hr. exists r, (set_cs_accounts (<[ a := x' ]>) c). split_and!; try done.
    + by eapply cache_step.
    + intros a' Hn. cbn. by apply lookup_insert_ne.
    + unfold info_in. by rewrite add_step_same.
    + intros k. unfold slot_in. rewrite add_step_same. apply Hv.
  - exists None, c. by split_and!.
Qed.

Lemma apply_evm_accounts_spec {E} l ts b p c :
  NoDup l.*1 -> cached ts b p c -> (forall a account, (a, account) ∈ l -> commit_fits ts b c a account) ->
  exists trs c', apply_evm_accounts l c = (Ok (E := E) trs, c') /\ cached (add_transitions trs ts) b p c' /\
    has_state_clear c' = has_state_clear c /\
    (forall a, a ∉ l.*1 -> add_transitions trs ts !! a = ts !! a) /\
    (forall a account, (a, account) ∈ l -> committed (has_state_clear c) ts (add_transitions trs ts) b a account).
Proof.
  revert ts c. induction l as [|[a account] l IH]; intros ts c Hnd Hc Hf; simpl.
  { exists [], c. split_and!; try done. by intros a account ?%elem_of_nil. }
  apply NoDup_cons in Hnd as [Ha Hnd].
  destruct (apply_account_state_spec (E := E) ts b p c a account Hc) as (r & c1 & Hr & Hc1 & Hcl & Hother & Hcom); [by apply Hf; left|].
  assert (Hsame : forall a', a' ∈ l.*1 -> add_step ts a r !! a' = ts !! a').
  { intros a' Ha'. apply add_step_other. by intros ->. }
  destruct (IH (add_step ts a r) c1 Hnd Hc1) as (trs & c2 & Hrs & Hc2 & Hcl2 & Hout & Hin).
  { intros a' account' Hin Ht. assert (Ha' : a' ∈ l.*1) by (by eapply fst_in).
    destruct (Hf a' account' ltac:(by right) Ht) as (x & Hx & Hfit). exists x.
    rewrite Hother by (by intros ->). split; [done|]. unfold slot_in in *. by rewrite Hsame. }
  unfold mbind, M_bind, mret, M_ret. rewrite Hr, Hrs.
  exists (match r with Some t => (a, t) :: trs | None => trs end), c2. split; [done|].
  assert (Hts : add_transitions (match r with Some t => (a, t) :: trs | None => trs end) ts = add_transitions trs (add_step ts a r)).
  { by destruct r. }
  rewrite Hts. split_and!; [done|by rewrite Hcl2| |].
  - intros a' Hn. apply not_elem_of_cons in Hn as [Hn1 Hn2]. rewrite Hout by done. by apply add_step_other.
  - intros a' account' [Heq|Hin']%elem_of_cons.
    + simplify_eq. unfold committed, info_in, slot_in in *. by rewrite (Hout a Ha).
    + specialize (Hin _ _ Hin'). rewrite Hcl in Hin. assert (Ha' : a' ∈ l.*1) by (by eapply fst_in).
      unfold committed, info_in, slot_in in *. by rewrite (Hsame a' Ha') in Hin.
Qed.
End state.

(** ** The operations of a state *)

Section operations.
Context {DB DbErr : Type} `{Database DB DbErr} `{MapIteration}.
Context (base_info : Address -> option AccountInfo) (base_storage : Address -> Z -> Z) (answers : DB -> Prop).

Abbreviation tracks := (state_tracked base_info base_storage answers).
Abbreviation info_of := (view_info (DB := DB) base_info).
Abbreviation slot_of := (view_slot (DB := DB) base_storage).

(** What a transaction leaves fits the state it is committed to. *)
Definition transaction_fits (s : DbState DB) (evm_state : EvmState) : Prop :=
  forall a account, accounts evm_state !! a = Some account -> is_touched account = true ->
    exists x, cs_accounts (st_cache s) !! a = Some x /\ account_fits (base_storage a) (slot_of s a) x account.

Lemma State_commit_spec s evm_state :
  tracks s -> transaction_fits s evm_state ->
  exists s', State_commit evm_state s = (Ok (E := DbErr) tt, s') /\ tracks s' /\
    st_bundle_state s' = st_bundle_state s /\
    forall a, match accounts evm_state !! a with
      | Some account =>
          if is_touched account then
            committed_info (has_state_clear (st_cache s)) account (info_of s' a) /\
            forall k, slot_of s' a k = committed_slot account (slot_of s a) k
          else info_of s' a = info_of s a /\ forall k, slot_of s' a k = slot_of s a k
      | None => info_of s' a = info_of s a /\ forall k, slot_of s' a k = slot_of s a k
      end.
Proof.
  intros (ts & Hts & [Ha Hs Hset Hc]) Hf. unfold transaction_fits, view_slot, view_info in *. rewrite Hts in *. cbn [default from_option id] in *.
  destruct (apply_evm_accounts_spec (E := DbErr) base_info base_storage (entries (accounts evm_state)) ts _ _ _ (entries_fst _) Hc)
    as (trs & c' & Hr & Hc' & Hcl & Hout & Hin).
  { intros a account Hin%elem_of_entries Ht. by apply Hf. }
  unfold State_commit, zoom, modify, mbind, M_bind, apply_evm_state. rewrite Hr. eexists. split; [done|].
  unfold apply_transition, set_st_transitions, set_st_cache. cbn. rewrite Hts. cbn.
  split; [|split; [done|]].
  - exists (add_transitions trs ts). split; [done|]. by split.
  - intros a. destruct (accounts evm_state !! a) as [account|] eqn:Hac.
    + specialize (Hin a account ltac:(by apply elem_of_entries)). unfold committed in Hin.
      destruct (is_touched account); [done|]. unfold info_in, slot_in. by rewrite Hin.
    + assert (Hn : a ∉ (entries (accounts evm_state)).*1).
      { intros ([a' x] & -> & Hx%elem_of_entries)%list_elem_of_fmap. simpl in Hac. congruence. }
      unfold info_in, slot_in. by rewrite Hout.
Qed.

(** The transitions of the state are made on top of its bundle. *)
Lemma state_on_top ts s :
  tracked_with base_info base_storage answers ts s ->
  transitions_fit base_info base_storage ts (st_bundle_state s) /\
  forall a t, ts !! a = Some t -> is_Some (cs_accounts (st_cache s) !! a).
Proof.
  intros [_ _ _ Hc].
  assert (Htt : forall a t, ts !! a = Some t -> exists x, cs_accounts (st_cache s) !! a = Some x /\
    tracked (base_info a) (base_storage a) x (Some t) (bs_state (st_bundle_state s) !! a)).
  { intros a t Ht. destruct (cs_accounts (st_cache s) !! a) as [x|] eqn:Hx.
    - exists x. split; [done|]. rewrite <-Ht. by apply (ct_cached _ _ _ _ _ _ Hc).
    - destruct (ct_uncached _ _ _ _ _ _ Hc a Hx). congruence. }
  split; intros a t Ht; destruct (Htt a t Ht) as (x & Hx & Htr); [|by exists x].
  destruct (tr_transition _ _ _ _ _ Htr t eq_refl) as [H1 H2 _ _]. by split.
Qed.

Lemma merge_transitions_spec retention s :
  tracks s ->
  exists s', merge_transitions retention s = (Ok (E := DbErr) tt, s') /\ tracks s' /\
    st_transition_state s' = Some ∅ /\
    (forall a, info_equiv (info_of s' a) (info_of s a)) /\ (forall a k, slot_of s' a k = slot_of s a k).
Proof.
  intros (ts & Hts & Htw). destruct (state_on_top ts s Htw) as [Hon Hcached]. destruct Htw as [Ha Hs Hset Hc].
  unfold view_slot, view_info, merge_transitions. rewrite Hts. cbn [TransitionState_take default from_option id].
  destruct (apply_block_fits (E := DbErr) base_info base_storage (includes_reverts retention) ts (st_bundle_state s) Hs Hon)
    as (rs & b & Hrun & _ & _ & _ & Hno & Hyes).
  unfold apply_transitions_and_create_reverts. cbn [set_st_transitions st_bundle_state]. rewrite Hrun. cbn [mbind].
  eexists. split; [reflexivity|]. cbn. split; [|split; [done|]].
  - exists ∅. split; [done|]. split; cbn; [done| | |].
    + intros a. cbn. destruct (ts !! a) as [t|] eqn:Ht; [|rewrite Hno by done; apply Hs].
      destruct (Hyes a t Ht) as (r & _ & He & _). apply He.
    + intros a x. cbn. destruct (ts !! a) as [t|] eqn:Ht; [|rewrite Hno by done; apply Hset].
      destruct (Hyes a t Ht) as (r & Hu & _). eapply update_entry_settled; [apply Hs|by apply Hon|apply Hset|done].
    + split; intros a; cbn; rewrite lookup_empty.
      * intros x Hx. pose proof (ct_cached _ _ _ _ _ _ Hc a x Hx) as Htr. destruct (ts !! a) as [t|] eqn:Ht; [|by rewrite Hno].
        destruct (Hyes a t Ht) as (r & Hu & He & _). eapply (merged_tracked _ _ a); [apply Hs|exact Htr|exact Hu|apply He].
      * intros Hx. destruct (ct_uncached _ _ _ _ _ _ Hc a Hx) as [Ht Hp]. split; [done|]. by rewrite Hno.
  - split; intros a; unfold info_in, slot_in; rewrite lookup_empty; cbn [current current_info];
      (destruct (ts !! a) as [t|] eqn:Ht; [destruct (Hyes a t Ht) as (r & _ & [_ [Hi Hv] _] & _)|by rewrite Hno by done]); done.
Qed.
End operations.

(** ** The theorems *)


(** C12: a commit is written to the view. When what a transaction leaves fits the
    state, [commit] does not panic on any path of the status machine, the cache,
    the transitions and the bundle agree afterwards, and the view has changed as
    the transaction says whatever the order of the map: an account that was
    destroyed, or is empty when empty accounts are cleared, is gone with its
    storage; an account that was created or changed has its info and its new
    slots; every other slot, and every account that was not touched, is as it was. *)
Theorem commit_writes_the_view {DB DbErr} `{Database DB DbErr} `{MapIteration}
  (base_info : Address -> option AccountInfo) (base_storage : Address -> Z -> Z) (answers : DB -> Prop) (s : DbState DB)
  (evm_state : EvmState) (Hs : state_tracked base_info base_storage answers s)
  (Hf : transaction_fits base_storage s evm_state) :
  exists s', State_commit evm_state s = (Ok (E := DbErr) tt, s') /\ state_tracked base_info base_storage answers s' /\
    forall a, match accounts evm_state !! a with
      | Some account =>
          if is_touched account then
            committed_info (has_state_clear (st_cache s)) account (view_info base_info s' a) /\
            forall k, view_slot base_storage s' a k = committed_slot account (view_slot base_storage s a) k
          else view_info base_info s' a = view_info base_info s a /\ forall k, view_slot base_storage s' a k = view_slot base_storage s a k
      | None => view_info base_info s' a = view_info base_info s a /\ forall k, view_slot base_storage s' a k = view_slot base_storage s a k
      end.
Proof.
  destruct (State_commit_spec (DbErr := DbErr) base_info base_storage answers s evm_state Hs Hf) as (s' & H1 & H2 & _ & H3). by exists s'.
Qed.

(** C13: merging keeps the view, and the bundle then writes it to the database. From
    a state that agrees, [merge_transitions] does not reach an [unreachable!] of the
    bundle; no transition is left, everything agrees, and the view is the same. The
    plain state of the bundle, written to the database, makes the database say of
    every account and of every slot what the state said. *)
Theorem merge_hands_the_view_over {DB DbErr} `{Database DB DbErr} `{MapIteration}
  (base_info : Address -> option AccountInfo) (base_storage : Address -> Z -> Z) (answers : DB -> Prop) (s : DbState DB)
  (retention : BundleRetention) (known : OriginalValuesKnown) (Hs : state_tracked base_info base_storage answers s) :
  exists s', merge_transitions retention s = (Ok (E := DbErr) tt, s') /\ state_tracked base_info base_storage answers s' /\
    st_transition_state s' = Some ∅ /\
    let c := into_plain_state known (st_bundle_state s') in
    forall a, info_equiv (write_infos c base_info a) (view_info base_info s a) /\
      forall k, write_storages c base_storage a k = view_slot base_storage s a k.
Proof.
  destruct (merge_transitions_spec (DbErr := DbErr) base_info base_storage answers retention s Hs) as (s' & H1 & H2 & H3 & H4 & H5).
  exists s'. split_and!; try done. destruct H2 as (ts & Hts & [_ Hsound Hset _]). assert (ts = ∅) as -> by congruence.
  unfold view_info, view_slot in *. rewrite Hts in H4, H5. cbn [default from_option id] in H4, H5. intros a. split.
  - rewrite (plain_info base_info base_storage known (st_bundle_state s') a Hsound), <-H4. unfold info_in. by rewrite lookup_empty.
  - intros k. rewrite <-H5, (plain_slots base_info base_storage) by done. unfold slot_in. by rewrite lookup_empty.
Qed.

(** ** A state to try them on *)

(** A database with one contract, that stores 5 in its slot 1. *)
#[local] Instance example_database : Database unit Empty_set := {|
  basic a := fun db => (Ok (example_base_info a), db);
  code_by_hash _ := fun db => (Ok Bytecode_new, db);
  db_storage a k := fun db => (Ok (example_base_storage a k), db);
  block_hash _ := fun db => (Ok 0, db);
  Database.get_token_ids _ := Ok [];
  Database.is_token_id_valid _ _ := Ok false;
|}.
#[local] Instance example_iteration : MapIteration := sorted_entries.

Lemma example_serves : serves (DbErr := Empty_set) example_base_info example_base_storage (fun _ : unit => True).
Proof.
  split.
  - intros a db r db' _ [= <- <-]. split_and!; try done. by intros i [= <-].
  - intros a k db r db' _ [= <- <-]. split_and!; try done. by intros i [= <-].
  - intros a. unfold example_base_info, example_base_storage. by destruct (a =? 1).
  - intros a i. unfold example_base_info. destruct (a =? 1); [|done]. by intros [= <-].
Qed.

(** Every state that the builder makes over no bundle and no cache agrees. *)
Lemma built_state_tracked base_info base_storage (answers : unit -> Prop) :
  answers tt -> state_tracked base_info base_storage answers (StateBuilder_build (with_bundle_update (new_with_database tt))).
Proof.
  intros Hdb. exists ∅. split; [done|]. split; cbn; [done| | |].
  - intros a b. cbn. by rewrite lookup_empty.
  - intros a b. cbn. by rewrite lookup_empty.
  - split; intros a; cbn; [intros x|]; by rewrite lookup_empty.
Qed.

Definition example_state : DbState unit := StateBuilder_build (with_bundle_update (new_with_database tt)).
Definition example_loaded : DbState unit := (State_basic (DbErr := Empty_set) 1 example_state).2.

Lemma example_loaded_tracked : state_tracked example_base_info example_base_storage (fun _ => True) example_loaded.
Proof.
  destruct (built_state_tracked example_base_info example_base_storage (fun _ => True) I) as (ts & Hts & Hs).
  unfold example_loaded. destruct (State_basic 1 example_state) as [r s'] eqn:Hr.
  destruct (State_basic_view _ _ _ example_serves _ _ _ _ _ Hs Hr) as (H1 & (H2 & _) & _).
  exists ts. split; [|exact H1]. etrans; [exact H2|exact Hts].
Qed.


(** A transaction that changes the slot of the contract. *)
Definition example_commit : EvmState :=
  mkEvmState {[ 1 := mkAccount example_info {[ 1 := mkSlot 5 9 ]} Touched ]} [].

Lemma example_commit_fits : transaction_fits example_base_storage example_loaded example_commit.
Proof.
  intros a account Ha _. unfold example_commit in Ha. cbn [accounts] in Ha. apply lookup_singleton_Some in Ha as [<- <-].
  eexists. split; [vm_compute; reflexivity|]. vm_compute. split; [done|].
  intros k s Hk. change ((<[1 := mkStorageSlot 5 9]> (∅ : gmap Z StorageSlot)) !! k = Some s) in Hk.
  apply lookup_insert_Some in Hk as [[<- <-]|[_ Hk]]; [reflexivity|by rewrite lookup_empty in Hk].
Qed.

Lemma commit_writes_the_view_witness :
  exists s', State_commit example_commit example_loaded = (Ok (E := Empty_set) tt, s') /\
    view_slot example_base_storage example_loaded 1 1 = 5 /\ view_slot example_base_storage s' 1 1 = 9.
Proof.
  destruct (commit_writes_the_view (DbErr := Empty_set) _ _ _ _ _ example_loaded_tracked example_commit_fits) as (s' & H1 & _ & H2).
  exists s'. split; [exact H1|]. split; [reflexivity|]. destruct (H2 1) as [_ H3]. rewrite (H3 1). reflexivity.
Defined.

Lemma merge_hands_the_view_over_witness :
  exists s', merge_transitions BundleRetention_Reverts example_loaded = (Ok (E := Empty_set) tt, s') /\
    write_storages (into_plain_state OriginalValuesKnown_No (st_bundle_state s')) example_base_storage 1 1 = 5.
Proof.
  destruct (merge_hands_the_view_over (DbErr := Empty_set) _ _ _ _ BundleRetention_Reverts OriginalValuesKnown_No example_loaded_tracked)
    as (s' & H1 & _ & _ & H2).
  exists s'. split; [exact H1|]. destruct (H2 1) as [_ H3]. rewrite (H3 1). reflexivity.
Defined.
