(* ===== verification/Precompile.v ===== *)
(** What the precompiles share, and the two simplest of them:
    [crates/precompile/src/utilities.rs], [identity.rs], [hash.rs] and the
    helpers of [lib.rs].

    The hashes are the [sha2] and [ripemd] crates, a parameter: the class
    [Hashes], with the lengths of the digests as its law [HashesOk]. *)

From S2P Require Import Prelude Bytes Eof Bytecode State CallInputs Env.

(** ** Padding: [utilities.rs] *)

Definition zeroes (n : Z) : bytes := replicate (Z.to_nat n) 0.

(** [data.get(offset..).unwrap_or_default()]. *)
Definition get_from (data : bytes) (offset : Z) : bytes :=
  if offset <=? len data then drop (Z.to_nat offset) data else [].

Definition right_pad (n : Z) (data : bytes) : bytes :=
  if n <=? len data then take (Z.to_nat n) data else data ++ zeroes (n - len data).

Definition right_pad_with_offset (n : Z) (data : bytes) (offset : Z) : bytes :=
  right_pad n (get_from data offset).

Definition left_pad (n : Z) (data : bytes) : bytes :=
  if n <=? len data then take (Z.to_nat n) data else zeroes (n - len data) ++ data.

(** A [vec!] of a length known at run time: a length above [isize::MAX] panics. *)
Definition vec_zeroes {E} (n : Z) : outcome E bytes :=
  if n <? 2 ^ 63 then Ok (zeroes n) else Panic.

Definition right_pad_vec {E} (data : bytes) (n : Z) : outcome E bytes :=
  if n <=? len data then Ok (take (Z.to_nat n) data)
  else padded ← vec_zeroes n; Ok (data ++ drop (length data) padded).

Definition right_pad_with_offset_vec {E} (data : bytes) (offset n : Z) : outcome E bytes :=
  right_pad_vec (get_from data offset) n.

Definition left_pad_vec {E} (data : bytes) (n : Z) : outcome E bytes :=
  if n <=? len data then Ok (take (Z.to_nat n) data)
  else padded ← vec_zeroes n; Ok (take (Z.to_nat (n - len data)) padded ++ data).

Definition bool_to_b256 (value : bool) : Z := if value then 1 else 0.
Definition bool_to_bytes32 (value : bool) : bytes := to_be_bytes 32 (bool_to_b256 value).

(** ** Costs, addresses and results: [lib.rs] *)

Definition calc_linear_cost_u32 (n base word : Z) : Z :=
  wrapping_add 64 (wrapping_mul 64 (wrapping_sub 64 (wrapping_add 64 n 32) 1 / 32) word) base.

Definition u64_to_address (x : Z) : Address := from_be_bytes (zeroes 12 ++ to_be_bytes 8 x).

(** The precompile of the interpreter: the stateful variants are trait objects
    that no file of the repository implements. *)
Inductive Precompile : Type :=
  | Precompile_Standard (p : bytes -> Z -> PrecompileResult)
  | Precompile_Env (p : bytes -> Z -> Env -> PrecompileResult).

Definition Precompile_call (p : Precompile) (input : bytes) (gas_limit : Z) (env : Env) : PrecompileResult :=
  match p with
  | Precompile_Standard p => p input gas_limit
  | Precompile_Env p => p input gas_limit env
  end.

Record PrecompileWithAddress : Type := mkPrecompileWithAddress {
  pwa_address : Address;
  pwa_precompile : Precompile;
}.

(** [Ok(ResultOrNewCall::Result(ResultInfo { .. }))]. *)
Definition returns (gas : Z) (output : bytes) : PrecompileResult := Ok (RNC_Result (mkResultInfo gas output)).

(** ** [identity.rs] *)

Definition IDENTITY_BASE : Z := 15.
Definition IDENTITY_PER_WORD : Z := 3.

Definition identity_run (input : bytes) (gas_limit : Z) : PrecompileResult :=
  let gas := calc_linear_cost_u32 (len input) IDENTITY_BASE IDENTITY_PER_WORD in
  if gas_limit <? gas then Err PE_OutOfGas else returns gas input.

Definition identity_FUN : PrecompileWithAddress :=
  mkPrecompileWithAddress (u64_to_address 4) (Precompile_Standard identity_run).

(** ** [hash.rs] *)

(** The digests of the [sha2] and [ripemd] crates. *)
Class Hashes : Type := {
  sha256 : bytes -> bytes;
  ripemd160 : bytes -> bytes;
}.

Class HashesOk `{Hashes} : Prop := {
  sha256_digest b : len (sha256 b) = 32 /\ Forall is_byte (sha256 b);
  ripemd160_digest b : len (ripemd160 b) = 20 /\ Forall is_byte (ripemd160 b);
}.

Section hash.
Context `{Hashes}.

Definition sha256_run (input : bytes) (gas_limit : Z) : PrecompileResult :=
  let cost := calc_linear_cost_u32 (len input) 60 12 in
  if gas_limit <? cost then Err PE_OutOfGas else returns cost (sha256 input).

Definition ripemd160_run (input : bytes) (gas_limit : Z) : PrecompileResult :=
  let gas := calc_linear_cost_u32 (len input) 600 120 in
  if gas_limit <? gas then Err PE_OutOfGas
  else returns gas (take 12 (zeroes 32) ++ ripemd160 input).

Definition SHA256 : PrecompileWithAddress :=
  mkPrecompileWithAddress (u64_to_address 2) (Precompile_Standard sha256_run).
Definition RIPEMD160 : PrecompileWithAddress :=
  mkPrecompileWithAddress (u64_to_address 3) (Precompile_Standard ripemd160_run).
End hash.

(** ** Lemmas *)

Lemma len_zeroes n : 0 <= n -> len (zeroes n) = n.
Proof. intros. unfold zeroes, len. rewrite length_replicate. lia. Qed.

Lemma zeroes_bytes n : Forall is_byte (zeroes n).
Proof. apply Forall_replicate. done. Qed.

Lemma get_from_bytes data offset : Forall is_byte data -> Forall is_byte (get_from data offset).
Proof. intros. unfold get_from. case_match; [by apply Forall_drop|done]. Qed.

Lemma len_right_pad n data : 0 <= n -> len (right_pad n data) = n.
Proof.
  intros. unfold right_pad. destruct (Z.leb_spec n (len data)).
  - apply len_take. lia.
  - rewrite len_app, len_zeroes; lia.
Qed.

Lemma right_pad_bytes n data : Forall is_byte data -> Forall is_byte (right_pad n data).
Proof.
  intros. unfold right_pad. case_match; [by apply Forall_take|].
  apply Forall_app. split; [done|apply zeroes_bytes].
Qed.

Lemma len_left_pad n data : 0 <= n -> len (left_pad n data) = n.
Proof.
  intros. unfold left_pad. destruct (Z.leb_spec n (len data)).
  - apply len_take. lia.
  - rewrite len_app, len_zeroes; lia.
Qed.

(** A vector is padded like an array, when it can be allocated. *)
Lemma right_pad_vec_eq {E} data n :
  n < 2 ^ 63 -> right_pad_vec (E := E) data n = Ok (right_pad n data).
Proof.
  intros Hn. unfold right_pad_vec, right_pad, vec_zeroes. destruct (Z.leb_spec n (len data)); [done|].
  bool_lia. cbn [mbind outcome_bind]. do 2 f_equal. unfold zeroes. rewrite drop_replicate. f_equal.
  unfold len in *. lia.
Qed.

Lemma left_pad_vec_eq {E} data n :
  n < 2 ^ 63 -> left_pad_vec (E := E) data n = Ok (left_pad n data).
Proof.
  intros Hn. unfold left_pad_vec, left_pad, vec_zeroes. destruct (Z.leb_spec n (len data)); [done|].
  bool_lia. cbn [mbind outcome_bind]. do 2 f_equal. unfold zeroes. rewrite take_replicate. f_equal.
  unfold len in *. lia.
Qed.

(** Reading past the end reads zeroes: the byte at [i] of a padded string. *)
Lemma right_pad_lookup n data i :
  0 <= i < n -> right_pad n data !! Z.to_nat i = Some (default 0 (data !! Z.to_nat i)).
Proof.
  intros Hi. unfold right_pad. destruct (Z.leb_spec n (len data)) as [Hn|Hn].
  - rewrite lookup_take_lt by lia. destruct (lookup_lt_is_Some_2 data (Z.to_nat i)) as [b Hb].
    + unfold len in Hn. lia.
    + by rewrite Hb.
  - destruct (data !! Z.to_nat i) as [b|] eqn:Hb; simpl.
    + by apply lookup_app_l_Some.
    + apply lookup_ge_None in Hb. rewrite lookup_app_r by done.
      unfold zeroes, len in *. apply lookup_replicate. lia.
Qed.

(** Padding on the left keeps the number, on the right multiplies it. *)
Lemma from_be_bytes_zeroes n : from_be_bytes (zeroes n) = 0.
Proof.
  unfold zeroes. induction (Z.to_nat n) as [|k IH]; [done|].
  rewrite replicate_S_end, from_be_bytes_snoc, IH. done.
Qed.

Lemma from_be_bytes_zeroes_app n l : from_be_bytes (zeroes n ++ l) = from_be_bytes l.
Proof. unfold from_be_bytes at 1. rewrite from_be_acc_app. fold (from_be_bytes (zeroes n)). by rewrite from_be_bytes_zeroes. Qed.

Lemma left_pad_value n data : len data <= n -> from_be_bytes (left_pad n data) = from_be_bytes data.
Proof.
  intros Hn. unfold left_pad. destruct (Z.leb_spec n (len data)).
  - f_equal. apply take_ge. unfold len in *. lia.
  - apply from_be_bytes_zeroes_app.
Qed.

Lemma u64_to_address_id x : fits 64 x -> u64_to_address x = x.
Proof.
  intros Hx. unfold u64_to_address. rewrite from_be_bytes_zeroes_app. by apply from_to_be_bytes_id.
Qed.

(** The cost is exact for every input that fits in memory. *)
Lemma linear_cost_eq n base word :
  0 <= n < 2 ^ 57 -> 0 <= base < 2 ^ 32 -> 0 <= word < 2 ^ 7 ->
  calc_linear_cost_u32 n base word = (n + 31) / 32 * word + base.
Proof.
  intros Hn Hb Hw. unfold calc_linear_cost_u32.
  rewrite (wrapping_add_fits 64 n 32) by (unfold fits; lia).
  rewrite wrapping_sub_fits by (unfold fits; lia).
  replace (n + 32 - 1) with (n + 31) by lia.
  assert (0 <= (n + 31) / 32 <= 2 ^ 53) by (split; [apply Z.div_pos|apply Z.div_le_upper_bound]; lia).
  assert (0 <= (n + 31) / 32 * word <= 2 ^ 53 * 2 ^ 7) by (split; [|apply Z.mul_le_mono_nonneg]; lia).
  unfold wrapping_mul. rewrite Z.mod_small by lia. apply wrapping_add_fits. unfold fits. lia.
Qed.

(** ** What a precompile promises

    It does not panic, it charges no more than the gas limit, it returns bytes,
    and it asks for no other call. *)
Definition keeps_to (gas_limit : Z) (r : ResultOrNewCall) : Prop :=
  match r with
  | RNC_Result info => 0 <= gas_used info <= gas_limit /\ Forall is_byte (returned_bytes info)
  | RNC_Call _ => False
  end.

Definition well_behaved (p : bytes -> Z -> PrecompileResult) : Prop :=
  forall input gas_limit, Forall is_byte input -> fits 64 gas_limit -> safely (p input gas_limit) (keeps_to gas_limit).

Lemma safely_returns gas_limit gas output :
  0 <= gas <= gas_limit -> Forall is_byte output -> safely (returns gas output) (keeps_to gas_limit).
Proof. done. Qed.

(** The guard on the gas that opens every precompile. *)
Lemma safely_gas {A} gas_limit gas e (m : outcome PrecompileError A) Q :
  (gas <= gas_limit -> safely m Q) -> safely (if gas_limit <? gas then Err e else m) Q.
Proof. intros Hm. by destruct (Z.ltb_spec gas_limit gas); [|apply Hm]. Qed.

Lemma linear_cost_nonneg n base word : 0 <= calc_linear_cost_u32 n base word.
Proof. apply fits_wrapping_add. done. Qed.

(** A slice of a string given in three parts. *)
Lemma slice_app {E} (pre l post : bytes) a b :
  len pre = a -> len l = b - a -> slice (E := E) (pre ++ l ++ post) a b = Ok l.
Proof.
  intros Ha Hl. unfold slice. rewrite !len_app, Ha, Hl. pose proof (len_nonneg post). pose proof (len_nonneg pre).
  pose proof (len_nonneg l). bool_lia. f_equal. subst a. rewrite <- Hl. unfold len in *. rewrite !Nat2Z.id.
  by rewrite drop_app_length, take_app_length.
Qed.

Lemma slice_head {E} (l post : bytes) n : len l = n -> slice (E := E) (l ++ post) 0 n = Ok l.
Proof. intros Hl. apply (slice_app []); [done|lia]. Qed.

Lemma slice_inv {E} (l s : bytes) a b :
  slice (E := E) l a b = Ok s -> 0 <= a <= b /\ b <= len l /\ s = take (Z.to_nat (b - a)) (drop (Z.to_nat a) l).
Proof.
  unfold slice. destruct (Z.leb_spec 0 a), (Z.leb_spec a b), (Z.leb_spec b (len l)); simpl; intros; simplify_eq; auto.
Qed.

(** Neighbouring slices join; the widest is the string. *)
Lemma slice_join {E} (l s t : bytes) a b c :
  slice (E := E) l a b = Ok s -> slice (E := E) l b c = Ok t -> slice (E := E) l a c = Ok (s ++ t).
Proof.
  intros (Ha & Hb & ->)%slice_inv (Hb' & Hc & ->)%slice_inv. unfold slice. bool_lia. f_equal.
  rewrite <- (take_drop (Z.to_nat (b - a)) (take (Z.to_nat (c - a)) _)), take_take, skipn_firstn_comm, drop_drop.
  f_equal; f_equal; [lia| |f_equal; lia]. lia.
Qed.

Lemma slice_whole {E} (l s : bytes) n : slice (E := E) l 0 n = Ok s -> n = len l -> l = s.
Proof.
  intros (_ & _ & ->)%slice_inv ->. rewrite drop_0, take_ge; [done|]. unfold len. lia.
Qed.

Lemma slice_bytes {E} (l s : bytes) a b : Forall is_byte l -> slice (E := E) l a b = Ok s -> Forall is_byte s.
Proof. intros Hl (_ & _ & ->)%slice_inv. by apply Forall_take, Forall_drop. Qed.

(** A slice within bounds, and one byte. *)
Lemma safely_slice {E A} (l : bytes) a b (k : bytes -> outcome E A) Q :
  0 <= a <= b -> b <= len l -> Forall is_byte l ->
  (forall s, len s = b - a -> Forall is_byte s -> safely (k s) Q) -> safely (slice l a b ≫= k) Q.
Proof.
  intros Ha Hb Hl Hk. unfold slice. bool_lia. cbn [mbind outcome_bind]. apply Hk.
  - rewrite len_take; [done|]. rewrite len_drop by lia. lia.
  - by apply Forall_take, Forall_drop.
Qed.

Lemma safely_slice_from {E A} (l : bytes) a (k : bytes -> outcome E A) Q :
  0 <= a <= len l -> Forall is_byte l ->
  (forall s, len s = len l - a -> Forall is_byte s -> safely (k s) Q) -> safely (slice_from l a ≫= k) Q.
Proof.
  intros Ha Hl Hk. unfold slice_from. bool_lia. cbn [mbind outcome_bind]. apply Hk; [by apply len_drop|].
  by apply Forall_drop.
Qed.

Lemma safely_index {E A} (l : bytes) i (k : Z -> outcome E A) Q :
  0 <= i < len l -> (forall b, safely (k b) Q) -> safely (index l i ≫= k) Q.
Proof.
  intros Hi Hk. unfold index. bool_lia. destruct (lookup_lt_is_Some_2 l (Z.to_nat i)) as [b ->]; [unfold len in Hi; lia|].
  apply Hk.
Qed.

Lemma safely_ok_or {E A B} (e : E) (o : option A) (k : A -> outcome E B) Q :
  (forall a, o = Some a -> safely (k a) Q) -> safely (ok_or e o ≫= k) Q.
Proof. destruct o; simpl; auto. Qed.

#[export] Hint Resolve safely_returns safely_gas linear_cost_nonneg zeroes_bytes to_be_bytes_is_byte
  right_pad_bytes get_from_bytes : precompile.

Lemma identity_well_behaved : well_behaved identity_run.
Proof. intros input g Hb Hg. apply safely_gas. intros. apply safely_returns; auto with precompile. Qed.

Section hash_lemmas.
Context `{HH : Hashes} `{HO : !HashesOk}.
Lemma sha256_well_behaved : well_behaved sha256_run.
Proof.
  intros input g Hb Hg. apply safely_gas. intros. apply safely_returns; [auto with precompile|].
  apply sha256_digest.
Qed.
Lemma ripemd160_well_behaved : well_behaved ripemd160_run.
Proof.
  intros input g Hb Hg. apply safely_gas. intros. apply safely_returns; [auto with precompile|].
  apply Forall_app. split; [apply Forall_take, zeroes_bytes|apply ripemd160_digest].
Qed.
End hash_lemmas.
