(* ===== verification/Blake2.v ===== *)
(** The BLAKE2 compression function of EIP-152: [crates/precompile/src/blake2.rs].

    The code mixes an array of sixteen words in place.  The reference is the
    function as RFC 7693 and the BLAKE paper draw it: a square of four rows, whose
    columns are mixed in parallel, and then, the rows shifted, its diagonals.
    [blake2_run_spec] says that the precompile reads its 213 bytes as the rounds,
    the state, the message, the counter and the flag, and answers with the
    reference function of them. *)

From S2P Require Import Prelude Bytes Eof Bytecode State CallInputs Env Precompile.

Definition F_ROUND : Z := 1.
Definition INPUT_LENGTH : Z := 213.

(** ** [algo] *)

Definition SIGMA : list (list Z) :=
  [[0; 1; 2; 3; 4; 5; 6; 7; 8; 9; 10; 11; 12; 13; 14; 15];
   [14; 10; 4; 8; 9; 15; 13; 6; 1; 12; 0; 2; 11; 7; 5; 3];
   [11; 8; 12; 0; 5; 2; 15; 13; 10; 14; 3; 6; 7; 1; 9; 4];
   [7; 9; 3; 1; 13; 12; 11; 14; 2; 6; 5; 10; 4; 0; 15; 8];
   [9; 0; 5; 7; 2; 4; 10; 15; 14; 1; 11; 12; 6; 8; 3; 13];
   [2; 12; 6; 10; 0; 11; 8; 3; 4; 13; 7; 5; 15; 14; 1; 9];
   [12; 5; 1; 15; 14; 13; 4; 10; 0; 7; 6; 3; 9; 2; 8; 11];
   [13; 11; 7; 14; 12; 1; 3; 9; 5; 0; 15; 4; 8; 6; 2; 10];
   [6; 15; 14; 9; 11; 3; 0; 8; 12; 2; 13; 7; 1; 4; 10; 5];
   [10; 2; 8; 4; 7; 6; 1; 5; 15; 11; 9; 14; 3; 12; 13; 0]].

Definition IV : list Z :=
  [0x6a09e667f3bcc908; 0xbb67ae8584caa73b; 0x3c6ef372fe94f82b; 0xa54ff53a5f1d36f1;
   0x510e527fade682d1; 0x9b05688c2b3e6c1f; 0x1f83d9abfb41bd6b; 0x5be0cd19137e2179].

(** [u64::rotate_right], [!x] and the little-endian words. *)
Definition rotate_right (x n : Z) : Z := Z.lor (Z.shiftr x n) (cast 64 (Z.shiftl x (64 - n))).
Definition u64_not (x : Z) : Z := 2 ^ 64 - 1 - x.
Definition from_le_bytes (l : bytes) : Z := from_be_bytes (reverse l).
Definition to_le_bytes (n : nat) (z : Z) : bytes := reverse (to_be_bytes n z).

(** [v[i] = f(v[i], v[j])]. *)
Definition update {E} (v : list Z) (i j : Z) (f : Z -> Z -> Z) : outcome E (list Z) :=
  vi ← index v i; vj ← index v j; store v i (f vi vj).

Definition g {E} (v : list Z) (a b c d x y : Z) : outcome E (list Z) :=
  v ← update v a b (fun va vb => wrapping_add 64 (wrapping_add 64 va vb) x);
  v ← update v d a (fun vd va => rotate_right (Z.lxor vd va) 32);
  v ← update v c d (wrapping_add 64);
  v ← update v b c (fun vb vc => rotate_right (Z.lxor vb vc) 24);
  v ← update v a b (fun va vb => wrapping_add 64 (wrapping_add 64 va vb) y);
  v ← update v d a (fun vd va => rotate_right (Z.lxor vd va) 16);
  v ← update v c d (wrapping_add 64);
  update v b c (fun vb vc => rotate_right (Z.lxor vb vc) 63).

(** [g(&mut v, a, b, c, d, m[s[k]], m[s[k + 1]])]. *)
Definition g_at {E} (m s : list Z) (k : Z) (v : list Z) (a b c d : Z) : outcome E (list Z) :=
  i ← index s k; x ← index m i; j ← index s (k + 1); y ← index m j; g v a b c d x y.

Definition one_round {E} (m : list Z) (i : Z) (v : list Z) : outcome E (list Z) :=
  s ← index SIGMA (i mod 10);
  v ← g_at m s 0 v 0 4 8 12;
  v ← g_at m s 2 v 1 5 9 13;
  v ← g_at m s 4 v 2 6 10 14;
  v ← g_at m s 6 v 3 7 11 15;
  v ← g_at m s 8 v 0 5 10 15;
  v ← g_at m s 10 v 1 6 11 12;
  v ← g_at m s 12 v 2 7 8 13;
  g_at m s 14 v 3 4 9 14.

(** [for i in 0..rounds]: [n] rounds from the number [i] on. *)
Fixpoint rounds_loop {E} (m : list Z) (n : nat) (i : Z) (v : list Z) : outcome E (list Z) :=
  match n with
  | O => Ok v
  | S n => v ← one_round m i v; rounds_loop m n (i + 1) v
  end.

(** [for i in 0..8 { h[i] ^= v[i] ^ v[i + 8] }]. *)
Fixpoint fold_halves {E} (v : list Z) (n : nat) (i : Z) (h : list Z) : outcome E (list Z) :=
  match n with
  | O => Ok h
  | S n =>
      hi ← index h i; vi ← index v i; vj ← index v (i + 8);
      h ← store h i (Z.lxor hi (Z.lxor vi vj));
      fold_halves v n (i + 1) h
  end.

Definition compress {E} (rounds : Z) (h m : list Z) (t : Z * Z) (f : bool) : outcome E (list Z) :=
  let v := h ++ IV in
  v12 ← index v 12; v ← store v 12 (Z.lxor v12 t.1);
  v13 ← index v 13; v ← store v 13 (Z.lxor v13 t.2);
  v ← (if f then v14 ← index v 14; store v 14 (u64_not v14) else Ok v);
  v ← rounds_loop m (Z.to_nat rounds) 0 v;
  fold_halves v 8 0 h.

(** ** The precompile *)

(** [for (i, pos) in (pos..).step_by(8).enumerate()]: [n] words of the input. *)
Fixpoint read_words {E} (input : bytes) (pos : Z) (n : nat) : outcome E (list Z) :=
  match n with
  | O => Ok []
  | S n => w ← slice input pos (pos + 8); ws ← read_words input (pos + 8) n; Ok (from_le_bytes w :: ws)
  end.

Definition run (input : bytes) (gas_limit : Z) : PrecompileResult :=
  if negb (len input =? INPUT_LENGTH) then Err PE_Blake2WrongLength
  else
    flag ← index input 212;
    f ← (if flag =? 1 then Ok true else if flag =? 0 then Ok false
         else Err PE_Blake2WrongFinalIndicatorFlag);
    head ← slice input 0 4;
    let rounds := from_be_bytes head in
    let gas := wrapping_mul 64 rounds F_ROUND in
    if gas_limit <? gas then Err PE_OutOfGas
    else
      h ← read_words input 4 8;
      m ← read_words input 68 16;
      t0 ← slice input 196 204;
      t1 ← slice input 204 212;
      h ← compress rounds h m (from_le_bytes t0, from_le_bytes t1) f;
      returns gas (concat (map (to_le_bytes 8) h)).

Definition FUN : PrecompileWithAddress :=
  mkPrecompileWithAddress (u64_to_address 9) (Precompile_Standard run).

(** ** The reference *)

Definition row : Type := Z * Z * Z * Z.

(** The G function on four words. *)
Definition mix (x y a b c d : Z) : row :=
  let a := wrapping_add 64 (wrapping_add 64 a b) x in
  let d := rotate_right (Z.lxor d a) 32 in
  let c := wrapping_add 64 c d in
  let b := rotate_right (Z.lxor b c) 24 in
  let a := wrapping_add 64 (wrapping_add 64 a b) y in
  let d := rotate_right (Z.lxor d a) 16 in
  let c := wrapping_add 64 c d in
  let b := rotate_right (Z.lxor b c) 63 in
  (a, b, c, d).

(** The square of the state, its four rows. *)
Definition square : Type := row * row * row * row.

(** Mix the four columns; [w k] is the [k]-th message word of the half round. *)
Definition columns (w : nat -> Z) (s : square) : square :=
  let '(((a0, a1, a2, a3), (b0, b1, b2, b3)), (c0, c1, c2, c3), (d0, d1, d2, d3)) := s in
  let '(a0, b0, c0, d0) := mix (w 0%nat) (w 1%nat) a0 b0 c0 d0 in
  let '(a1, b1, c1, d1) := mix (w 2%nat) (w 3%nat) a1 b1 c1 d1 in
  let '(a2, b2, c2, d2) := mix (w 4%nat) (w 5%nat) a2 b2 c2 d2 in
  let '(a3, b3, c3, d3) := mix (w 6%nat) (w 7%nat) a3 b3 c3 d3 in
  (((a0, a1, a2, a3), (b0, b1, b2, b3)), (c0, c1, c2, c3), (d0, d1, d2, d3)).

Definition turn (r : row) : row := let '(x0, x1, x2, x3) := r in (x1, x2, x3, x0).

(** Row [k] shifted by [k] places: the diagonals become columns; and back. *)
Definition diagonalise (s : square) : square :=
  let '(a, b, c, d) := s in (a, turn b, turn (turn c), turn (turn (turn d))).
Definition undiagonalise (s : square) : square :=
  let '(a, b, c, d) := s in (a, turn (turn (turn b)), turn (turn c), turn d).

Definition message_word (m s : list Z) (k : nat) : Z := nth (Z.to_nat (nth k s 0)) m 0.

Definition reference_round (m s : list Z) (q : square) : square :=
  undiagonalise (columns (fun k => message_word m s (8 + k)) (diagonalise (columns (message_word m s) q))).

(** The rounds use the permutations in turn. *)
Definition reference_rounds (m : list Z) (n : nat) (q : square) : square :=
  foldl (fun q i => reference_round m (nth (i mod 10) SIGMA []) q) q (seq 0 n).

Definition square_of (v : list Z) : square :=
  let at_ := fun i => nth i v 0 in
  (((at_ 0, at_ 1, at_ 2, at_ 3), (at_ 4, at_ 5, at_ 6, at_ 7)),
   (at_ 8, at_ 9, at_ 10, at_ 11), (at_ 12, at_ 13, at_ 14, at_ 15))%nat.
Definition words_of (q : square) : list Z :=
  let '(((a0, a1, a2, a3), (b0, b1, b2, b3)), (c0, c1, c2, c3), (d0, d1, d2, d3)) := q in
  [a0; a1; a2; a3; b0; b1; b2; b3; c0; c1; c2; c3; d0; d1; d2; d3].

(** F: the state and the constants side by side, the counter and the flag mixed
    into the last row, the rounds, and both halves folded back into the state. *)
Definition reference_start (h : list Z) (t : Z * Z) (f : bool) : list Z :=
  h ++ take 4 IV ++ zip_with Z.lxor (drop 4 IV) [t.1; t.2; (if f then 2 ^ 64 - 1 else 0); 0].
Definition reference_F (rounds : nat) (h m : list Z) (t : Z * Z) (f : bool) : list Z :=
  let v := words_of (reference_rounds m rounds (square_of (reference_start h t f))) in
  zip_with Z.lxor h (zip_with Z.lxor (take 8 v) (drop 8 v)).

(** The 213 bytes of the EIP. *)
Definition encode (rounds : Z) (h m : list Z) (t : Z * Z) (f : bool) : bytes :=
  to_be_bytes 4 rounds ++ concat (map (to_le_bytes 8) (h ++ m ++ [t.1; t.2])) ++ [if f then 1 else 0].

(** ** The code and the reference *)

Section equivalence.
Context {E : Type}.

Lemma index_nth {A} (d : A) (l : list A) (k : nat) :
  (k < length l)%nat -> index (E := E) l (Z.of_nat k) = Ok (nth k l d).
Proof.
  intros Hk. unfold index. bool_lia. rewrite Nat2Z.id.
  destruct (lookup_lt_is_Some_2 l k Hk) as [x Hx]. rewrite Hx. simpl. f_equal. symmetry. by apply nth_lookup_Some.
Qed.

(** The permutations index the sixteen words of a message. *)
Lemma SIGMA_row s : s ∈ SIGMA -> length s = 16%nat /\ Forall (fun k => 0 <= k < 16) s.
Proof.
  intros Hs. repeat (apply elem_of_cons in Hs as [->|Hs]; [split; [done|repeat constructor; lia]|]).
  by apply elem_of_nil in Hs.
Qed.

Lemma g_at_eq (m s : list Z) (k : nat) v a b c d :
  length m = 16%nat -> s ∈ SIGMA -> (S k < 16)%nat ->
  g_at (E := E) m s (Z.of_nat k) v a b c d = g v a b c d (message_word m s k) (message_word m s (S k)).
Proof.
  intros Hm Hs Hk. destruct (SIGMA_row s Hs) as [Hl Hb].
  assert (Hw : forall k, (k < 16)%nat -> index (E := E) m (nth k s 0) = Ok (message_word m s k)).
  { intros k' Hk'. assert (0 <= nth k' s 0 < 16) by (apply (proj1 (List.Forall_nth _ s) Hb); lia).
    unfold message_word. rewrite <- (index_nth 0) by lia. by rewrite Z2Nat.id by lia. }
  unfold g_at. replace (Z.of_nat k + 1) with (Z.of_nat (S k)) by lia.
  rewrite !(index_nth 0) by lia. cbn [mbind outcome_bind]. rewrite !Hw by lia. done.
Qed.

(** Four calls on the columns of the array mix the columns of the square; four
    on its diagonals mix the columns of the shifted square. *)
Lemma g_columns q w :
  (v ← g (words_of q) 0 4 8 12 (w 0%nat) (w 1%nat);
   v ← g v 1 5 9 13 (w 2%nat) (w 3%nat);
   v ← g v 2 6 10 14 (w 4%nat) (w 5%nat);
   g v 3 7 11 15 (w 6%nat) (w 7%nat)) = Ok (E := E) (words_of (columns w q)).
Proof. destruct q as [[[[[[]]] [[[]]]] [[[]]]] [[[]]]]. reflexivity. Qed.

Lemma g_diagonals q w :
  (v ← g (words_of q) 0 5 10 15 (w 0%nat) (w 1%nat);
   v ← g v 1 6 11 12 (w 2%nat) (w 3%nat);
   v ← g v 2 7 8 13 (w 4%nat) (w 5%nat);
   g v 3 4 9 14 (w 6%nat) (w 7%nat)) = Ok (E := E) (words_of (undiagonalise (columns w (diagonalise q)))).
Proof. destruct q as [[[[[[]]] [[[]]]] [[[]]]] [[[]]]]. reflexivity. Qed.

Lemma bind_group {A} (m1 : outcome E A) (m2 m3 m4 m5 : A -> outcome E A) :
  (v ← m1; v ← m2 v; v ← m3 v; v ← m4 v; m5 v) = ((v ← m1; v ← m2 v; v ← m3 v; m4 v) ≫= m5).
Proof. destruct m1 as [a| |]; simpl; [|done..]. destruct (m2 a) as [a2| |]; simpl; [|done..]. by destruct (m3 a2). Qed.

Lemma one_round_eq m i q s :
  length m = 16%nat -> index (E := E) SIGMA (i mod 10) = Ok s -> s ∈ SIGMA ->
  one_round (E := E) m i (words_of q) = Ok (words_of (reference_round m s q)).
Proof.
  intros Hm Hi Hs. unfold one_round. rewrite Hi. cbn [mbind outcome_bind]. rewrite bind_group.
  rewrite (g_at_eq m s 0) by (done || lia).
  unfold reference_round. set (w := message_word m s).
  assert (Hg := fun (k : nat) Hk v a b c d => g_at_eq m s k v a b c d Hm Hs Hk). fold w in Hg.
  replace (v ← g (words_of q) 0 4 8 12 (w 0%nat) (w 1%nat); _) with (Ok (E := E) (words_of (columns w q))).
  2: { rewrite <- g_columns. destruct (g (words_of q) 0 4 8 12 _ _) as [v| |]; [|done..]. simpl.
    rewrite (Hg 2%nat) by lia. destruct (g v 1 5 9 13 _ _) as [v2| |]; [|done..]. simpl.
    rewrite (Hg 4%nat) by lia. destruct (g v2 2 6 10 14 _ _) as [v3| |]; [|done..]. simpl.
    by rewrite (Hg 6%nat) by lia. }
  cbn [mbind outcome_bind]. rewrite <- g_diagonals.
  rewrite (Hg 8%nat) by lia. destruct (g (words_of _) 0 5 10 15 _ _) as [v| |]; [|done..]. simpl.
  rewrite (Hg 10%nat) by lia. destruct (g v 1 6 11 12 _ _) as [v2| |]; [|done..]. simpl.
  rewrite (Hg 12%nat) by lia. destruct (g v2 2 7 8 13 _ _) as [v3| |]; [|done..]. simpl.
  by rewrite (Hg 14%nat) by lia.
Qed.

Lemma rounds_loop_eq m n k q :
  length m = 16%nat ->
  rounds_loop (E := E) m n (Z.of_nat k) (words_of q)
  = Ok (words_of (foldl (fun q i => reference_round m (nth (i mod 10) SIGMA []) q) q (seq k n))).
Proof.
  intros Hm. revert k q. induction n as [|n IH]; intros k q; [done|]. cbn [rounds_loop seq foldl].
  assert (k mod 10 < 10)%nat by (apply Nat.mod_upper_bound; done).
  rewrite (one_round_eq m _ q (nth (k mod 10) SIGMA [])).
  - cbn [mbind outcome_bind]. replace (Z.of_nat k + 1) with (Z.of_nat (S k)) by lia. apply IH.
  - done.
  - change 10 with (Z.of_nat 10). rewrite <- Nat2Z.inj_mod. by apply index_nth.
  - apply list_elem_of_In, nth_In. done.
Qed.

Lemma length_words_of q : length (words_of q) = 16%nat.
Proof. by destruct q as [[[[[[]]] [[[]]]] [[[]]]] [[[]]]]. Qed.

(** A list of a known length is its elements. *)
Lemma length_8_inv {A} (l : list A) :
  length l = 8%nat -> exists a b c d e f g h, l = [a; b; c; d; e; f; g; h].
Proof. intros H. do 8 (destruct l as [|? l]; [discriminate H|]). destruct l; [|discriminate H]. by repeat eexists. Qed.

Lemma fold_halves_eq q h :
  length h = 8%nat ->
  fold_halves (E := E) (words_of q) 8 0 h
  = Ok (zip_with Z.lxor h (zip_with Z.lxor (take 8 (words_of q)) (drop 8 (words_of q)))).
Proof.
  intros (h0 & h1 & h2 & h3 & h4 & h5 & h6 & h7 & ->)%length_8_inv.
  destruct q as [[[[[[]]] [[[]]]] [[[]]]] [[[]]]]. reflexivity.
Qed.

(** The preparation of the array. *)
Lemma prepare_eq {A} h (t : Z * Z) (f : bool) (K : list Z -> outcome E A) :
  length h = 8%nat ->
  (let v := h ++ IV in
   v12 ← index v 12; v ← store v 12 (Z.lxor v12 t.1);
   v13 ← index v 13; v ← store v 13 (Z.lxor v13 t.2);
   v ← (if f then v14 ← index v 14; store v 14 (u64_not v14) else Ok v);
   K v) = K (words_of (square_of (reference_start h t f))).
Proof.
  intros (h0 & h1 & h2 & h3 & h4 & h5 & h6 & h7 & ->)%length_8_inv. destruct t, f; reflexivity.
Qed.

(** The compression function is the reference, and does not panic. *)
Lemma compress_eq rounds h m t f :
  length h = 8%nat -> length m = 16%nat ->
  compress (E := E) rounds h m t f = Ok (reference_F (Z.to_nat rounds) h m t f).
Proof.
  intros Hh Hm. unfold compress. rewrite prepare_eq by done.
  rewrite (rounds_loop_eq m _ 0) by done. cbn [mbind outcome_bind]. by apply fold_halves_eq.
Qed.

(** ** Reading the input *)

Lemma from_to_le_bytes z : fits 64 z -> from_le_bytes (to_le_bytes 8 z) = z.
Proof. intros Hz. unfold from_le_bytes, to_le_bytes. rewrite reverse_involutive. by apply from_to_be_bytes_id. Qed.

Lemma to_from_le_bytes l : Forall is_byte l -> length l = 8%nat -> to_le_bytes 8 (from_le_bytes l) = l.
Proof.
  intros Hl Hn. unfold from_le_bytes, to_le_bytes. rewrite <- Hn, <- length_reverse, to_from_be_bytes.
  - apply reverse_involutive.
  - by apply Forall_reverse.
Qed.

Lemma length_to_le_bytes n z : length (to_le_bytes n z) = n.
Proof. unfold to_le_bytes. by rewrite length_reverse, length_to_be_bytes. Qed.

Lemma len_words ws : len (concat (map (to_le_bytes 8) ws)) = 8 * Z.of_nat (length ws).
Proof.
  induction ws as [|w ws IH]; [done|]. cbn [map concat length]. rewrite len_app, IH.
  unfold len. rewrite length_to_le_bytes. lia.
Qed.

Lemma read_words_eq pre ws post p :
  len pre = p -> Forall (fits 64) ws ->
  read_words (E := E) (pre ++ concat (map (to_le_bytes 8) ws) ++ post) p (length ws) = Ok ws.
Proof.
  intros Hp Hws. revert pre p Hp. induction Hws as [|w ws Hw Hws IH]; intros pre p Hp; [done|].
  cbn [read_words length map concat]. rewrite <- app_assoc.
  rewrite (slice_app pre (to_le_bytes 8 w)) by (done || unfold len; rewrite length_to_le_bytes; lia).
  cbn [mbind outcome_bind]. rewrite (app_assoc pre), IH.
  - cbn [mbind outcome_bind]. by rewrite from_to_le_bytes.
  - rewrite len_app. unfold len at 2. rewrite length_to_le_bytes. lia.
Qed.
End equivalence.

(** The parts of an input. *)
Record arguments (rounds : Z) (h m : list Z) (t : Z * Z) : Prop := mkArguments {
  rounds_fit : fits 32 rounds;
  h_fit : length h = 8%nat /\ Forall (fits 64) h;
  m_fit : length m = 16%nat /\ Forall (fits 64) m;
  t_fit : fits 64 t.1 /\ fits 64 t.2;
}.

(** Bytes are words, as many as fit. *)
Lemma words_exist (n : nat) (l : bytes) :
  Forall is_byte l -> length l = (8 * n)%nat ->
  exists ws, length ws = n /\ Forall (fits 64) ws /\ l = concat (map (to_le_bytes 8) ws).
Proof.
  revert l. induction n as [|n IH]; intros l Hb Hl.
  - exists []. destruct l; [done|discriminate Hl].
  - destruct (IH (drop 8 l)) as (ws & Hn & Hf & Hd); [by apply Forall_drop|rewrite length_drop; lia|].
    assert (Ht : length (take 8 l) = 8%nat) by (rewrite length_take; lia).
    assert (Hbt : Forall is_byte (take 8 l)) by by apply Forall_take.
    exists (from_le_bytes (take 8 l) :: ws). split_and!.
    + simpl. by rewrite Hn.
    + constructor; [|done]. unfold from_le_bytes, fits.
      replace (2 ^ 64) with (256 ^ len (reverse (take 8 l))).
      * apply from_be_bytes_bound. by apply Forall_reverse.
      * unfold len. by rewrite length_reverse, Ht.
    + cbn [map concat]. rewrite to_from_le_bytes, <- Hd by done. by rewrite take_drop.
Qed.

(** An input with a valid flag is the encoding of its parts. *)
Lemma encode_exists input f :
  Forall is_byte input -> len input = INPUT_LENGTH -> nth 212 input 0 = (if f : bool then 1 else 0) ->
  exists rounds h m t, arguments rounds h m t /\ input = encode rounds h m t f.
Proof.
  intros Hb Hl Hf. assert (Hl' : length input = 213%nat) by (unfold len, INPUT_LENGTH in Hl; lia).
  destruct (words_exist 26 (take 208 (drop 4 input))) as (ws & Hn & Hws & Hmid).
  { by apply Forall_take, Forall_drop. }
  { rewrite length_take, length_drop. lia. }
  assert (Hlast : drop 208 (drop 4 input) = [if f then 1 else 0]).
  { rewrite drop_drop. cbn [Nat.add]. destruct (drop 212 input) as [|b [|]] eqn:Hd;
      apply (f_equal length) in Hd as Hd'; rewrite length_drop in Hd'; simpl in Hd'; try lia.
    rewrite <- Hf. f_equal. symmetry. apply nth_lookup_Some.
    rewrite <- (Nat.add_0_r 212), <- lookup_drop. by rewrite Hd. }
  assert (Hw : ws = take 8 ws ++ take 16 (drop 8 ws) ++ [nth 24 ws 0; nth 25 ws 0]).
  { do 26 (destruct ws as [|? ws]; [discriminate Hn|]). destruct ws; [done|discriminate Hn]. }
  exists (from_be_bytes (take 4 input)), (take 8 ws), (take 16 (drop 8 ws)), (nth 24 ws 0, nth 25 ws 0).
  assert (H4 : length (take 4 input) = 4%nat) by (rewrite length_take; lia). split.
  - pose proof Hws as Hws'. rewrite Hw, !Forall_app, !Forall_cons in Hws'. destruct_and!. split.
    + unfold fits. replace (2 ^ 32) with (256 ^ len (take 4 input)) by (unfold len; by rewrite H4).
      apply from_be_bytes_bound. by apply Forall_take.
    + split; [rewrite length_take; lia|done].
    + split; [rewrite length_take, length_drop; lia|done].
    + done.
  - unfold encode. cbn [fst snd]. rewrite <- Hw, <- Hmid, <- Hlast, take_drop.
    rewrite <- H4 at 1. rewrite to_from_be_bytes by by apply Forall_take. by rewrite take_drop.
Qed.

Lemma run_encode rounds h m t f gas_limit :
  arguments rounds h m t ->
  run (encode rounds h m t f) gas_limit
  = if gas_limit <? rounds then Err PE_OutOfGas
    else returns rounds (concat (map (to_le_bytes 8) (reference_F (Z.to_nat rounds) h m t f))).
Proof.
  intros [Hr [Hlh Hh] [Hlm Hm] [Ht0 Ht1]]. unfold run.
  set (flag := if f then 1 else 0). set (wt := map (to_le_bytes 8) [t.1; t.2]).
  assert (Hin : encode rounds h m t f = to_be_bytes 4 rounds ++ concat (map (to_le_bytes 8) h) ++
    concat (map (to_le_bytes 8) m) ++ to_le_bytes 8 t.1 ++ to_le_bytes 8 t.2 ++ [flag]).
  { unfold encode. rewrite !map_app, !concat_app, <- !app_assoc. cbn [map concat]. by rewrite !app_nil_r, <- !app_assoc. }
  pose proof (len_to_be_bytes 4 rounds) as H4. pose proof (len_words h) as H8. pose proof (len_words m) as H16.
  rewrite Hlh in H8. rewrite Hlm in H16.
  assert (Hw : forall z, len (to_le_bytes 8 z) = 8) by (intros z; unfold len; by rewrite length_to_le_bytes).
  set (w := to_be_bytes 4 rounds) in *. set (lh := concat (map _ h)) in *. set (lm := concat (map _ m)) in *.
  set (b0 := to_le_bytes 8 t.1) in *. set (b1 := to_le_bytes 8 t.2) in *.
  assert (Hlen : len (encode rounds h m t f) = INPUT_LENGTH).
  { rewrite Hin, !len_app, H4, H8, H16. unfold b0, b1. rewrite !Hw. done. }
  assert (Hflag : index (E := PrecompileError) (encode rounds h m t f) 212 = Ok flag).
  { unfold index. bool_lia. rewrite Hin, (app_assoc b0), (app_assoc lm), (app_assoc lh), (app_assoc w).
    rewrite list_lookup_middle; [done|]. apply Nat2Z.inj. fold (len (w ++ lh ++ lm ++ b0 ++ b1)).
    rewrite !len_app, H4, H8, H16. unfold b0, b1. rewrite !Hw. lia. }
  assert (Hhead : slice (E := PrecompileError) (encode rounds h m t f) 0 4 = Ok w).
  { rewrite Hin. by apply (slice_app []). }
  assert (Hrh : read_words (E := PrecompileError) (encode rounds h m t f) 4 8 = Ok h).
  { rewrite Hin, <- Hlh. by apply read_words_eq. }
  assert (Hrm : read_words (E := PrecompileError) (encode rounds h m t f) 68 16 = Ok m).
  { rewrite Hin, <- Hlm, (app_assoc w). apply read_words_eq; [|done]. rewrite len_app, H4, H8. lia. }
  assert (Hs0 : slice (E := PrecompileError) (encode rounds h m t f) 196 204 = Ok b0).
  { rewrite Hin, (app_assoc lh), (app_assoc w). apply slice_app; [|apply Hw]. rewrite !len_app, H4, H8, H16. lia. }
  assert (Hs1 : slice (E := PrecompileError) (encode rounds h m t f) 204 212 = Ok b1).
  { rewrite Hin, (app_assoc lm), (app_assoc lh), (app_assoc w). apply slice_app; [|apply Hw].
    rewrite !len_app, H4, H8, H16. unfold b0. rewrite Hw. lia. }
  rewrite Hlen, Z.eqb_refl, Hflag. cbn [negb mbind outcome_bind].
  replace (if flag =? 1 then _ else _) with (Ok (E := PrecompileError) f) by (unfold flag; by destruct f).
  cbn [mbind outcome_bind]. rewrite Hhead. cbn [mbind outcome_bind].
  unfold w at 1 2. rewrite from_to_be_bytes_id by exact Hr.
  unfold wrapping_mul, F_ROUND. rewrite Z.mul_1_r, Z.mod_small by (unfold fits in Hr; lia).
  destruct (gas_limit <? rounds); [done|]. rewrite Hrh, Hrm, Hs0, Hs1. cbn [mbind outcome_bind].
  unfold b0, b1, w. rewrite !from_to_le_bytes, from_to_be_bytes_id by done.
  rewrite compress_eq by done. by destruct t.
Qed.

(** The answer to every input. *)
Lemma run_cases input gas_limit :
  Forall is_byte input ->
  (len input <> 213 /\ run input gas_limit = Err PE_Blake2WrongLength) \/
  (len input = 213 /\ (nth 212 input 0 ∉ [0; 1]) /\ run input gas_limit = Err PE_Blake2WrongFinalIndicatorFlag) \/
  (exists rounds h m t f, arguments rounds h m t /\ input = encode rounds h m t f /\
     run input gas_limit
     = if gas_limit <? rounds then Err PE_OutOfGas
       else returns rounds (concat (map (to_le_bytes 8) (reference_F (Z.to_nat rounds) h m t f)))).
Proof.
  intros Hb. destruct (decide (len input = 213)) as [Hl|Hl].
  2: { left. split; [done|]. unfold run, INPUT_LENGTH. by rewrite (proj2 (Z.eqb_neq _ _) Hl). }
  right. destruct (decide (nth 212 input 0 ∈ [0; 1])) as [Hf|Hf]; [right|left].
  - assert (exists f : bool, nth 212 input 0 = if f then 1 else 0) as [f Hf'].
    { apply elem_of_cons in Hf as [->|Hf]; [by exists false|]. apply list_elem_of_singleton in Hf as ->. by exists true. }
    destruct (encode_exists input f Hb Hl Hf') as (rounds & h & m & t & Ha & Hin).
    exists rounds, h, m, t, f. split; [done|]. split; [done|]. subst input. by apply run_encode.
  - split; [done|]. split; [done|]. unfold run, INPUT_LENGTH. rewrite Hl. cbn [Z.eqb negb Pos.eqb].
    pose proof (index_nth (E := PrecompileError) 0 input 212 ltac:(unfold len in Hl; lia)) as Hi.
    change (Z.of_nat 212) with 212 in Hi. rewrite Hi. cbn [mbind outcome_bind].
    destruct (Z.eqb_spec (nth 212 input 0) 1) as [Hq|_]; [destruct Hf; rewrite Hq; set_solver|].
    destruct (Z.eqb_spec (nth 212 input 0) 0) as [Hq|_]; [destruct Hf; rewrite Hq; set_solver|done].
Qed.

Lemma blake2_well_behaved : well_behaved run.
Proof.
  intros input gas_limit Hb Hg.
  destruct (run_cases input gas_limit Hb) as [[_ ->]|[(_ & _ & ->)|(rounds & h & m & t & f & Ha & _ & ->)]]; [done..|].
  apply safely_gas. intros. apply safely_returns; [destruct Ha as [[]]; lia|].
  apply Forall_concat, Forall_map, Forall_forall. intros z _. apply Forall_reverse, to_be_bytes_is_byte.
Qed.

(** ** Witness: the digest of [abc] *)

Definition abc_state : list Z :=
  [0x6a09e667f2bdc948; 0xbb67ae8584caa73b; 0x3c6ef372fe94f82b; 0xa54ff53a5f1d36f1;
   0x510e527fade682d1; 0x9b05688c2b3e6c1f; 0x1f83d9abfb41bd6b; 0x5be0cd19137e2179].
Definition abc_input : bytes := encode 12 abc_state (0x636261 :: replicate 15 0) (3, 0) true.

Example abc_digest :
  run abc_input 12 = returns 12 (to_be_bytes 64
    9767929635145897651357867310702489094230137827829556585475146790646704761094065329856848997729822767409914274787220536127246564102126572212307670039828771).
Proof. vm_compute. reflexivity. Qed.

(** C24: The precompile of EIP-152 is its compression function.  An input is refused
    for its length or for its flag; any other is the encoding of a number of
    rounds, a state, a message, a counter and a flag, costs a unit of gas per
    round, and is answered with the reference function of them. *)
Theorem blake2_is_the_reference input gas_limit :
  Forall is_byte input ->
  (len input <> 213 /\ run input gas_limit = Err PE_Blake2WrongLength) \/
  (len input = 213 /\ (nth 212 input 0 ∉ [0; 1]) /\ run input gas_limit = Err PE_Blake2WrongFinalIndicatorFlag) \/
  (exists rounds h m t f, arguments rounds h m t /\ input = encode rounds h m t f /\
     run input gas_limit
     = if gas_limit <? rounds then Err PE_OutOfGas
       else returns rounds (concat (map (to_le_bytes 8) (reference_F (Z.to_nat rounds) h m t f)))).
Proof. apply run_cases. Qed.

(** At the digest of [abc], the answer is the encoding of twelve rounds. *)
Lemma blake2_is_the_reference_witness :
  exists rounds h m t f, arguments rounds h m t /\ abc_input = encode rounds h m t f /\
    run abc_input 12 = if 12 <? rounds then Err PE_OutOfGas
      else returns rounds (concat (map (to_le_bytes 8) (reference_F (Z.to_nat rounds) h m t f))).
Proof.
  destruct (blake2_is_the_reference abc_input 12) as [[Hl _]|[(_ & Hf & _)|H]].
  - unfold abc_input. vm_compute. repeat constructor; discriminate.
  - destruct Hl. vm_compute. reflexivity.
  - destruct Hf. apply list_elem_of_In. vm_compute. tauto.
  - exact H.
Defined.
