(* ===== verification/Modexp.v ===== *)
(** Modular exponentiation, EIP-198 and EIP-2565: [crates/precompile/src/modexp.rs].

    The exponentiation itself is the crate [aurora-engine-modexp], a parameter
    with its documented meaning as law.  The theorems say that the gas is the one
    of the EIPs, that it bounds the memory the precompile allocates, so that no
    allocation panics, and that the answer is the power of the numbers the input
    is padded to. *)

From Stdlib Require Import Zpow_facts.
From S2P Require Import Prelude Bytes Eof Bytecode State CallInputs Env Precompile.

(** [aurora_engine_modexp::modexp]: big-endian numbers, of any length. *)
Class ModexpLib : Type := modexp : bytes -> bytes -> bytes -> bytes.

Class ModexpLibOk `{ModexpLib} : Prop := {
  modexp_bytes b e m : Forall is_byte (modexp b e m);
  modexp_len b e m : len (modexp b e m) <= len m;
  modexp_power b e m : Forall is_byte m -> 0 < from_be_bytes m ->
    from_be_bytes (modexp b e m) = from_be_bytes b ^ from_be_bytes e mod from_be_bytes m;
}.

(** [U256::bit_len] and [U256::saturating_to::<u64>]. *)
Definition bit_len (z : Z) : Z := if z =? 0 then 0 else Z.log2 z + 1.
Definition saturating_to (z : Z) : Z := Z.min z U64_MAX.

(** ** The gas *)

Definition calculate_iteration_count (exp_length exp_highp : Z) : Z :=
  let iteration_count :=
    if (exp_length <=? 32) && (exp_highp =? 0) then 0
    else if exp_length <=? 32 then wrapping_sub 64 (bit_len exp_highp) 1
    else if 32 <? exp_length then
      saturating_add 64 (saturating_mul 64 8 (wrapping_sub 64 exp_length 32))
        (wrapping_sub 64 (Z.max 1 (bit_len exp_highp)) 1)
    else 0 in
  Z.max iteration_count 1.

Definition mul_complexity (x : Z) : Z :=
  if x <=? 64 then wrapping_mul 64 x x
  else if x <=? 1024 then
    wrapping_sub 64 (wrapping_add 64 (wrapping_mul 64 x x / 4) (wrapping_mul 64 96 x)) 3072
  else
    let x_sq := wrapping_mul 256 x x in
    wrapping_sub 256 (wrapping_add 256 (x_sq / 16) (wrapping_mul 256 480 x)) 199680.

Definition byzantium_gas_calc (base_len exp_len mod_len exp_highp : Z) : Z :=
  let mul := mul_complexity (Z.max mod_len base_len) in
  let iter_count := calculate_iteration_count exp_len exp_highp in
  saturating_to (wrapping_mul 256 mul iter_count / 20).

Definition calculate_multiplication_complexity (base_length mod_length : Z) : Z :=
  let max_length := Z.max base_length mod_length in
  let words := max_length / 8 in
  let words := if 0 <? max_length mod 8 then wrapping_add 64 words 1 else words in
  wrapping_mul 256 words words.

Definition berlin_gas_calc (base_length exp_length mod_length exp_highp : Z) : Z :=
  let multiplication_complexity := calculate_multiplication_complexity base_length mod_length in
  let iteration_count := calculate_iteration_count exp_length exp_highp in
  Z.max 200 (saturating_to (wrapping_mul 256 multiplication_complexity iteration_count / 3)).

(** ** The precompile *)

(** [usize::try_from] of a word, and [split_at]. *)
Definition usize_try_from (z : Z) : option Z := if z <? 2 ^ 64 then Some z else None.
Definition split_at {E} (l : bytes) (n : Z) : outcome E (bytes * bytes) :=
  if n <=? len l then Ok (take (Z.to_nat n) l, drop (Z.to_nat n) l) else Panic.

Section modexp.
Context `{ModexpLib}.

Definition HEADER_LENGTH : Z := 96.

Definition run_inner (input : bytes) (gas_limit min_gas : Z) (calc_gas : Z -> Z -> Z -> Z -> Z)
  : PrecompileResult :=
  if gas_limit <? min_gas then Err PE_OutOfGas
  else
    let base_len := from_be_bytes (right_pad_with_offset 32 input 0) in
    let exp_len := from_be_bytes (right_pad_with_offset 32 input 32) in
    let mod_len := from_be_bytes (right_pad_with_offset 32 input 64) in
    base_len ← ok_or PE_ModexpBaseOverflow (usize_try_from base_len);
    mod_len ← ok_or PE_ModexpModOverflow (usize_try_from mod_len);
    if (base_len =? 0) && (mod_len =? 0) then returns min_gas []
    else
      exp_len ← ok_or PE_ModexpModOverflow (usize_try_from exp_len);
      let exp_highp_len := Z.min exp_len 32 in
      let input := get_from input HEADER_LENGTH in
      let right_padded_highp := right_pad_with_offset 32 input base_len in
      highp ← slice right_padded_highp 0 exp_highp_len;
      let exp_highp := from_be_bytes (left_pad 32 highp) in
      let gas_cost := calc_gas base_len exp_len mod_len exp_highp in
      if gas_limit <? gas_cost then Err PE_OutOfGas
      else
        let input_len := saturating_add 64 (saturating_add 64 base_len exp_len) mod_len in
        input ← right_pad_vec input input_len;
        '(base, input) ← split_at input base_len;
        '(exponent, modulus) ← split_at input exp_len;
        let output := modexp base exponent modulus in
        returned ← left_pad_vec output mod_len;
        returns gas_cost returned.

Definition byzantium_run (input : bytes) (gas_limit : Z) : PrecompileResult :=
  run_inner input gas_limit 0 byzantium_gas_calc.
Definition berlin_run (input : bytes) (gas_limit : Z) : PrecompileResult :=
  run_inner input gas_limit 200 berlin_gas_calc.

Definition BYZANTIUM : PrecompileWithAddress :=
  mkPrecompileWithAddress (u64_to_address 5) (Precompile_Standard byzantium_run).
Definition BERLIN : PrecompileWithAddress :=
  mkPrecompileWithAddress (u64_to_address 5) (Precompile_Standard berlin_run).
End modexp.

(** ** The EIPs *)

(** The adjusted length of the exponent, whose 32 first bytes are [highp]. *)
Definition eip_iterations (exp_len highp : Z) : Z :=
  Z.max 1 (if exp_len <=? 32 then Z.log2 highp else 8 * (exp_len - 32) + Z.log2 highp).

Definition eip198_complexity (x : Z) : Z :=
  if x <=? 64 then x ^ 2 else if x <=? 1024 then x ^ 2 / 4 + 96 * x - 3072 else x ^ 2 / 16 + 480 * x - 199680.
Definition eip198_gas (base_len exp_len mod_len highp : Z) : Z :=
  eip198_complexity (Z.max base_len mod_len) * eip_iterations exp_len highp / 20.

Definition eip2565_gas (base_len exp_len mod_len highp : Z) : Z :=
  Z.max 200 (((Z.max base_len mod_len + 7) / 8) ^ 2 * eip_iterations exp_len highp / 3).

(** A number of [n] bytes at [offset] of an input that goes on with zeroes. *)
Definition number_at (input : bytes) (offset n : Z) : Z :=
  from_be_bytes (right_pad_with_offset n input offset).

(** The answer the EIPs give, by the lengths in the header. *)
Definition eip_answer `{ModexpLib} (gas : Z -> Z -> Z -> Z -> Z) (min_gas : Z) (input : bytes) (gas_limit : Z)
    (r : PrecompileResult) : Prop :=
  let base_len := number_at input 0 32 in
  let exp_len := number_at input 32 32 in
  let mod_len := number_at input 64 32 in
  let cost := gas base_len exp_len mod_len (number_at input (96 + base_len) (Z.min exp_len 32)) in
  let base := number_at input 96 base_len in
  let exponent := number_at input (96 + base_len) exp_len in
  let modulus := number_at input (96 + base_len + exp_len) mod_len in
  if gas_limit <? min_gas then r = Err PE_OutOfGas
  else if 2 ^ 64 <=? base_len then r = Err PE_ModexpBaseOverflow
  else if 2 ^ 64 <=? mod_len then r = Err PE_ModexpModOverflow
  else if (base_len =? 0) && (mod_len =? 0) then r = returns min_gas []
  else if 2 ^ 64 <=? exp_len then r = Err PE_ModexpModOverflow
  else if gas_limit <? cost then r = Err PE_OutOfGas
  else exists output, r = returns cost output /\ len output = mod_len /\ Forall is_byte output /\
       (0 < modulus -> output = to_be_bytes (Z.to_nat mod_len) (base ^ exponent mod modulus)).

(** ** Lemmas on the gas *)

Lemma bit_len_log2 z : 0 < z -> bit_len z = Z.log2 z + 1.
Proof. intros. unfold bit_len. by bool_lia. Qed.

Lemma log2_256 z : fits 256 z -> 0 <= Z.log2 z < 256.
Proof.
  intros Hz. split; [apply Z.log2_nonneg|]. destruct (decide (z = 0)) as [->|]; [done|].
  apply Z.log2_lt_pow2; unfold fits in Hz; lia.
Qed.

(** The count of the code is the one of the EIP, saturated. *)
Lemma iteration_count_eq exp_len highp :
  fits 64 exp_len -> fits 256 highp ->
  calculate_iteration_count exp_len highp = Z.min (eip_iterations exp_len highp) U64_MAX.
Proof.
  intros He Hh. pose proof (log2_256 highp Hh). unfold calculate_iteration_count, eip_iterations, U64_MAX.
  unfold fits in He. destruct (Z.leb_spec exp_len 32); cbn [andb].
  - destruct (Z.eqb_spec highp 0) as [->|]; [done|]. unfold fits in Hh.
    rewrite bit_len_log2, wrapping_sub_fits by (unfold fits; lia). lia.
  - bool_lia. rewrite (wrapping_sub_fits 64 exp_len) by (unfold fits; lia).
    assert (Hb : Z.max 1 (bit_len highp) - 1 = Z.log2 highp).
    { unfold bit_len. destruct (Z.eqb_spec highp 0) as [->|]; [done|]. lia. }
    rewrite wrapping_sub_fits by (rewrite Hb; unfold fits; lia). rewrite Hb.
    unfold saturating_add, saturating_mul. lia.
Qed.

Lemma eip_iterations_pos exp_len highp : 1 <= eip_iterations exp_len highp.
Proof. unfold eip_iterations. lia. Qed.

(** The complexity of EIP-198 never underflows nor overflows, and is at least
    the length. *)
Lemma mul_complexity_eq x :
  fits 64 x -> mul_complexity x = eip198_complexity x /\ x <= eip198_complexity x < 2 ^ 126.
Proof.
  intros Hx. unfold fits in Hx. unfold mul_complexity, eip198_complexity. rewrite Z.pow_2_r.
  unfold wrapping_mul. destruct (Z.leb_spec x 64).
  { rewrite Z.mod_small by nia. nia. }
  destruct (Z.leb_spec x 1024).
  - rewrite !(Z.mod_small (_ * _)) by nia.
    assert (x * 16 <= x * x / 4 <= 1024 * 1024) by (split; [apply Z.div_le_lower_bound|apply Z.div_le_upper_bound]; nia).
    rewrite wrapping_add_fits, wrapping_sub_fits by (unfold fits; lia). lia.
  - cbv zeta. rewrite !(Z.mod_small (_ * _)) by nia.
    assert (0 <= x * x / 16 <= 2 ^ 124) by (split; [apply Z.div_le_lower_bound|apply Z.div_le_upper_bound]; nia).
    rewrite wrapping_add_fits, wrapping_sub_fits by (unfold fits; lia). lia.
Qed.

(** A saturated cost is the cost of the EIP, or both are above the gas limit. *)
Lemma saturated_cost mul it d limit :
  1 <= mul < 2 ^ 126 -> 1 <= it -> 0 < d <= 20 -> limit < 2 ^ 59 ->
  let c := saturating_to (wrapping_mul 256 mul (Z.min it U64_MAX) / d) in
  c <= limit /\ c = mul * it / d \/ limit < c /\ limit < mul * it / d.
Proof.
  intros Hm Hi Hd Hl. cbv zeta. unfold saturating_to, wrapping_mul, U64_MAX.
  assert (0 <= mul * Z.min it (2 ^ 64 - 1) <= 2 ^ 126 * 2 ^ 64) by (split; [|apply Z.mul_le_mono_nonneg]; lia).
  rewrite Z.mod_small by lia. destruct (decide (it <= 2 ^ 64 - 1)) as [Hle|Hgt].
  - rewrite (Z.min_l it) by done. lia.
  - rewrite (Z.min_r it) by lia.
    assert (2 ^ 59 <= mul * (2 ^ 64 - 1) / d) by (apply Z.div_le_lower_bound; nia).
    assert (2 ^ 59 <= mul * it / d) by (apply Z.div_le_lower_bound; nia). lia.
Qed.

(** What the check of the gas decides: to charge the cost of the EIP, or that it
    is too much. *)
Definition charges (calc eip : Z -> Z -> Z -> Z -> Z) (limit : Z) : Prop :=
  forall base_len exp_len mod_len highp,
    fits 64 base_len -> fits 64 exp_len -> fits 64 mod_len -> fits 256 highp ->
    0 < Z.max base_len mod_len ->
    let c := calc base_len exp_len mod_len highp in
    let e := eip base_len exp_len mod_len highp in
    c <= limit /\ c = e \/ limit < c /\ limit < e.

Lemma byzantium_charges limit : limit < 2 ^ 59 -> charges byzantium_gas_calc eip198_gas limit.
Proof.
  intros Hl b e m h Hb He Hm Hh Hpos. cbv zeta. unfold byzantium_gas_calc, eip198_gas.
  rewrite (Z.max_comm b m) in *. destruct (mul_complexity_eq (Z.max m b)) as [-> ?].
  { unfold fits in *. lia. }
  rewrite iteration_count_eq by done. apply saturated_cost; [lia|apply eip_iterations_pos|lia|done].
Qed.

Lemma ceil_div8 x : 0 <= x -> (if 0 <? x mod 8 then x / 8 + 1 else x / 8) = (x + 7) / 8.
Proof. intros. destruct (Z.ltb_spec 0 (x mod 8)); Z.div_mod_to_equations; lia. Qed.

Lemma multiplication_complexity_eq b m :
  fits 64 b -> fits 64 m -> calculate_multiplication_complexity b m = ((Z.max b m + 7) / 8) ^ 2.
Proof.
  unfold fits. intros Hb Hm. unfold calculate_multiplication_complexity. set (x := Z.max b m).
  assert (Hx : 0 <= x < 2 ^ 64) by (unfold x; lia). clearbody x.
  assert (0 <= x / 8 < 2 ^ 61) by (split; [apply Z.div_pos|apply Z.div_lt_upper_bound]; lia).
  rewrite (wrapping_add_fits 64 (x / 8)), ceil_div8 by (unfold fits; lia). rewrite Z.pow_2_r.
  assert (0 <= (x + 7) / 8 < 2 ^ 61 + 1) by (split; [apply Z.div_pos|apply Z.div_lt_upper_bound]; lia).
  apply Z.mod_small. nia.
Qed.

Lemma words_pos x : 0 < x < 2 ^ 64 -> 1 <= ((x + 7) / 8) ^ 2 < 2 ^ 126.
Proof.
  intros. assert (1 <= (x + 7) / 8 < 2 ^ 61 + 1) by (split; [apply Z.div_le_lower_bound|apply Z.div_lt_upper_bound]; lia).
  rewrite Z.pow_2_r. nia.
Qed.

Lemma berlin_charges limit : 200 <= limit -> limit < 2 ^ 59 -> charges berlin_gas_calc eip2565_gas limit.
Proof.
  intros H200 Hl b e m h Hb He Hm Hh Hpos. cbv zeta. unfold berlin_gas_calc, eip2565_gas.
  rewrite multiplication_complexity_eq, iteration_count_eq by done.
  pose proof (words_pos (Z.max b m) ltac:(unfold fits in *; lia)) as Hw.
  destruct (saturated_cost _ (eip_iterations e h) 3 limit Hw (eip_iterations_pos e h)); [lia|done|lia..].
Qed.

(** ** The memory is paid for *)

(** What a gas limit can pay for, in bytes. *)
Definition paid (limit : Z) : Z := 32 + 340 * (limit + 1).

Lemma iterations_exp_len e h : 0 <= e -> 8 * (e - 32) <= eip_iterations e h.
Proof. intros. unfold eip_iterations. pose proof (Z.log2_nonneg h). destruct (Z.leb_spec e 32); lia. Qed.

Lemma cost_pays mul d limit x e h :
  1 <= mul -> x <= 8 * mul -> 0 < d <= 20 -> 0 <= e -> mul * eip_iterations e h / d <= limit ->
  2 * x + e <= paid limit.
Proof.
  intros Hm Hx Hd He Hc. pose proof (eip_iterations_pos e h). pose proof (iterations_exp_len e h He).
  assert (mul * eip_iterations e h < d * (limit + 1)).
  { apply Z.lt_nge. intros Hge. apply (Z.div_le_mono _ _ d) in Hge; [|lia].
    rewrite Z.mul_comm, Z.div_mul in Hge by lia. lia. }
  assert (0 <= limit) by nia. assert (d * (limit + 1) <= 20 * (limit + 1)) by nia.
  assert (mul <= 20 * (limit + 1)) by nia. assert (eip_iterations e h <= 20 * (limit + 1)) by nia.
  unfold paid. lia.
Qed.

(** A cost of the EIPs within the limit pays for the three numbers. *)
Definition pays (eip : Z -> Z -> Z -> Z -> Z) : Prop :=
  forall limit base_len exp_len mod_len highp,
    fits 64 base_len -> fits 64 exp_len -> fits 64 mod_len -> 0 < Z.max base_len mod_len ->
    eip base_len exp_len mod_len highp <= limit -> base_len + exp_len + mod_len <= paid limit.

Lemma eip198_pays : pays eip198_gas.
Proof.
  intros limit b e m h Hb He Hm Hpos Hc. unfold eip198_gas in Hc.
  destruct (mul_complexity_eq (Z.max b m)) as [_ Hx]; [unfold fits in *; lia|].
  enough (2 * Z.max b m + e <= paid limit) by lia. unfold fits in *.
  apply (cost_pays (eip198_complexity (Z.max b m)) 20 limit _ e h); [lia..|exact Hc].
Qed.

Lemma eip2565_pays : pays eip2565_gas.
Proof.
  intros limit b e m h Hb He Hm Hpos Hc. unfold eip2565_gas in Hc. unfold fits in *.
  pose proof (words_pos (Z.max b m) ltac:(lia)) as Hw.
  enough (2 * Z.max b m + e <= paid limit) by lia.
  apply (cost_pays (((Z.max b m + 7) / 8) ^ 2) 3 limit _ e h); [lia| |lia|lia|].
  - rewrite Z.pow_2_r in *. assert (Z.max b m <= 8 * ((Z.max b m + 7) / 8)) by (Z.div_mod_to_equations; lia). nia.
  - etransitivity; [|exact Hc]. apply Z.le_max_r.
Qed.

(** ** Reading the three numbers *)

Lemma take_right_pad a b l : 0 <= a <= b -> take (Z.to_nat a) (right_pad b l) = right_pad a l.
Proof.
  intros Hab. unfold right_pad. destruct (Z.leb_spec b (len l)), (Z.leb_spec a (len l)); try lia.
  - rewrite take_take. f_equal. lia.
  - rewrite take_app_le by (unfold len in *; lia). done.
  - rewrite take_app_ge by (unfold len in *; lia). f_equal. unfold zeroes. rewrite take_replicate.
    f_equal. unfold len in *. lia.
Qed.

Lemma drop_right_pad a b l :
  0 <= a <= b -> drop (Z.to_nat a) (right_pad b l) = right_pad (b - a) (get_from l a).
Proof.
  intros Hab. unfold right_pad, get_from. destruct (Z.leb_spec a (len l)) as [Ha|Ha].
  - rewrite len_drop by lia. destruct (Z.leb_spec b (len l)), (Z.leb_spec (b - a) (len l - a)); try lia.
    + rewrite skipn_firstn_comm. f_equal. lia.
    + rewrite drop_app_le by (unfold len in *; lia). f_equal. f_equal. lia.
  - rewrite len_nil. bool_lia. destruct (Z.leb_spec (b - a) 0).
    + assert (a = b) as -> by lia. rewrite drop_ge; [by rewrite Z.sub_diag|].
      rewrite length_app. unfold zeroes. rewrite length_replicate. unfold len in *. lia.
    + rewrite drop_app_ge by (unfold len in *; lia). simpl. unfold zeroes. rewrite drop_replicate. f_equal.
      unfold len in *. lia.
Qed.

Lemma get_from_get_from l a b : 0 <= a -> 0 <= b -> get_from (get_from l a) b = get_from l (a + b).
Proof.
  intros Ha Hb. unfold get_from. destruct (Z.leb_spec a (len l)) as [Hal|Hal].
  - rewrite len_drop by lia. destruct (Z.leb_spec b (len l - a)), (Z.leb_spec (a + b) (len l)); try lia; [|done].
    rewrite drop_drop. f_equal. lia.
  - rewrite len_nil. destruct (Z.leb_spec (a + b) (len l)); [lia|]. destruct (Z.leb_spec b 0); [|done].
    by rewrite drop_nil.
Qed.

Lemma number_at_fits input offset n :
  Forall is_byte input -> 0 <= n -> 0 <= number_at input offset n < 256 ^ n.
Proof.
  intros Hb Hn. unfold number_at, right_pad_with_offset.
  rewrite <- (len_right_pad n (get_from input offset)) at 3 by done.
  apply from_be_bytes_bound. auto with precompile.
Qed.

(** The three numbers are what splitting the padded input reads. *)
Lemma split_padded {E} input b e m :
  0 <= b -> 0 <= e -> 0 <= m ->
  let padded := right_pad (b + e + m) (get_from input HEADER_LENGTH) in
  split_at (E := E) padded b
    = Ok (right_pad b (get_from input HEADER_LENGTH), right_pad (e + m) (get_from input (96 + b))) /\
  split_at (E := E) (right_pad (e + m) (get_from input (96 + b))) e
    = Ok (right_pad e (get_from input (96 + b)), right_pad m (get_from input (96 + b + e))).
Proof.
  intros Hb He Hm padded. unfold split_at. split.
  - unfold padded. rewrite len_right_pad by lia. bool_lia. rewrite take_right_pad, drop_right_pad by lia.
    rewrite get_from_get_from by (done || lia). do 3 f_equal. lia.
  - rewrite len_right_pad by lia. bool_lia. rewrite take_right_pad, drop_right_pad by lia.
    rewrite get_from_get_from by lia. do 3 f_equal. lia.
Qed.

(** The head of the exponent. *)
Lemma highp_eq {E} input b n :
  0 <= b -> 0 <= n <= 32 ->
  exists l, slice (E := E) (right_pad_with_offset 32 (get_from input HEADER_LENGTH) b) 0 n = Ok l /\
    from_be_bytes (left_pad 32 l) = number_at input (96 + b) n.
Proof.
  intros Hb Hn. unfold right_pad_with_offset. rewrite get_from_get_from by (done || lia).
  unfold slice. rewrite len_right_pad by lia. bool_lia. rewrite drop_0, Z.sub_0_r, take_right_pad by lia.
  eexists. split; [done|]. apply left_pad_value. rewrite len_right_pad; lia.
Qed.

Section answers.
Context `{HM : ModexpLib} `{HO : !ModexpLibOk}.
Context (calc eip : Z -> Z -> Z -> Z -> Z) (limit min_gas : Z).
Context (Hlimit : limit < 2 ^ 54) (Hcalc : min_gas <= limit -> charges calc eip limit) (Heip : pays eip).

(** The output, padded to the length of the modulus. *)
Lemma output_eq base exponent modulus m :
  len modulus = m -> Forall is_byte modulus ->
  let output := left_pad m (modexp base exponent modulus) in
  len output = m /\ Forall is_byte output /\
  (0 < from_be_bytes modulus ->
   output = to_be_bytes (Z.to_nat m) (from_be_bytes base ^ from_be_bytes exponent mod from_be_bytes modulus)).
Proof.
  intros Hm Hbm output. pose proof (len_nonneg modulus).
  assert (Hl : len output = m) by (apply len_left_pad; lia).
  assert (Hb : Forall is_byte output).
  { unfold output, left_pad. case_match; [apply Forall_take, modexp_bytes|].
    apply Forall_app. split; [apply zeroes_bytes|apply modexp_bytes]. }
  split_and!; [done..|]. intros Hpos. rewrite <- modexp_power by done.
  rewrite <- (left_pad_value m) by (rewrite <- Hm; apply modexp_len). fold output.
  replace (Z.to_nat m) with (length output) by (unfold len in Hl; lia). by rewrite to_from_be_bytes.
Qed.

Lemma run_inner_answers input :
  Forall is_byte input -> eip_answer eip min_gas input limit (run_inner input limit min_gas calc).
Proof.
  intros Hb. unfold eip_answer, run_inner.
  assert (Hn : forall o, fits 256 (number_at input o 32)) by (intros; by apply (number_at_fits input o 32)).
  change (from_be_bytes (right_pad_with_offset 32 input 0)) with (number_at input 0 32).
  change (from_be_bytes (right_pad_with_offset 32 input 32)) with (number_at input 32 32).
  change (from_be_bytes (right_pad_with_offset 32 input 64)) with (number_at input 64 32).
  pose proof (Hn 0) as Hnb. pose proof (Hn 32) as Hne. pose proof (Hn 64) as Hnm.
  set (b := number_at input 0 32) in *. set (e := number_at input 32 32) in *. set (m := number_at input 64 32) in *.
  clearbody b e m. destruct (Z.ltb_spec limit min_gas) as [|Hmin]; [done|]. unfold usize_try_from.
  destruct (Z.leb_spec (2 ^ 64) b); bool_lia; [done|]. destruct (Z.leb_spec (2 ^ 64) m); bool_lia; [done|].
  cbn [ok_or mbind outcome_bind]. destruct ((b =? 0) && (m =? 0)) eqn:Hz; [done|].
  destruct (Z.leb_spec (2 ^ 64) e); bool_lia; [done|]. cbn [ok_or mbind outcome_bind].
  assert (Hpos : 0 < Z.max b m) by (unfold fits in *; destruct (Z.eqb_spec b 0), (Z.eqb_spec m 0); [done|lia..]).
  destruct (highp_eq (E := PrecompileError) input b (Z.min e 32)) as (l & -> & Hhigh); [unfold fits in *; lia..|].
  cbn [mbind outcome_bind]. rewrite Hhigh. set (highp := number_at input (96 + b) (Z.min e 32)).
  assert (Hhf : fits 256 highp).
  { unfold fits in *. pose proof (number_at_fits input (96 + b) (Z.min e 32) Hb ltac:(lia)) as Hh.
    fold highp in Hh. pose proof (Z.pow_le_mono_r 256 (Z.min e 32) 32). lia. }
  assert (Hf : fits 64 b /\ fits 64 e /\ fits 64 m) by (unfold fits in *; lia). destruct Hf as (Hfb & Hfe & Hfm).
  destruct (Hcalc Hmin b e m highp Hfb Hfe Hfm Hhf Hpos) as [[Hle Heq]|[? ?]]; [|by bool_lia].
  rewrite Heq in *. bool_lia. pose proof (Heip limit b e m highp Hfb Hfe Hfm Hpos Hle) as Hpaid.
  unfold paid in Hpaid. unfold fits in Hfb, Hfe, Hfm.
  replace (saturating_add 64 (saturating_add 64 b e) m) with (b + e + m) by (unfold saturating_add; lia).
  rewrite right_pad_vec_eq by lia. cbn [mbind outcome_bind].
  destruct (split_padded (E := PrecompileError) input b e m) as [-> H2]; [lia..|]. cbn [mbind outcome_bind].
  rewrite H2. cbn [mbind outcome_bind]. rewrite left_pad_vec_eq by lia. cbn [mbind outcome_bind].
  eexists. split; [done|]. apply output_eq; [apply len_right_pad; lia|auto with precompile].
Qed.

(** The precompile behaves. *)
Lemma run_inner_safe input :
  0 <= min_gas -> (forall b e m h, 0 <= b -> 0 <= eip b e m h) -> Forall is_byte input ->
  safely (run_inner input limit min_gas calc) (keeps_to limit).
Proof.
  intros Hmin Hpos Hb. pose proof (run_inner_answers input Hb) as Ha. unfold eip_answer in Ha.
  pose proof (number_at_fits input 0 32 Hb ltac:(lia)) as Hn.
  generalize dependent (number_at input 0 32). intros b Ha Hn.
  destruct (Z.ltb_spec limit min_gas); [by rewrite Ha|]. destruct (2 ^ 64 <=? b); [by rewrite Ha|].
  destruct (2 ^ 64 <=? _); [by rewrite Ha|]. destruct ((b =? 0) && _); [rewrite Ha; by apply safely_returns|].
  destruct (2 ^ 64 <=? _); [by rewrite Ha|]. destruct (Z.ltb_spec limit (eip b (number_at input 32 32)
    (number_at input 64 32) (number_at input (96 + b) (Z.min (number_at input 32 32) 32)))); [by rewrite Ha|].
  destruct Ha as (output & -> & _ & Hout & _). apply safely_returns; [|done]. split; [|done]. apply Hpos. lia.
Qed.
End answers.

Lemma eip198_gas_nonneg b e m h : 0 <= b -> 0 <= eip198_gas b e m h.
Proof.
  intros Hb. unfold eip198_gas. pose proof (eip_iterations_pos e h). apply Z.div_pos; [|lia].
  apply Z.mul_nonneg_nonneg; [|lia]. unfold eip198_complexity. set (x := Z.max b m).
  assert (0 <= x) by lia. pose proof (Z.pow_nonneg x 2). repeat case_match; [lia| |];
    repeat match goal with H : (_ <=? _) = false |- _ => apply Z.leb_gt in H end.
  - assert (0 <= x ^ 2 / 4) by (apply Z.div_pos; lia). lia.
  - assert (0 <= x ^ 2 / 16) by (apply Z.div_pos; lia). lia.
Qed.

Section theorems.
Context `{HM : ModexpLib} `{HO : !ModexpLibOk}.

Lemma modexp_well_behaved input gas_limit :
  Forall is_byte input -> gas_limit < 2 ^ 54 ->
  safely (byzantium_run input gas_limit) (keeps_to gas_limit) /\
  safely (berlin_run input gas_limit) (keeps_to gas_limit).
Proof.
  intros Hb Hg. split.
  - apply (run_inner_safe _ eip198_gas); [done|..]; [intros _; apply byzantium_charges; lia|apply eip198_pays|done| |done].
    intros. by apply eip198_gas_nonneg.
  - apply (run_inner_safe _ eip2565_gas); [done|..]; [intros ?; apply berlin_charges; lia|apply eip2565_pays|done| |done].
    intros. unfold eip2565_gas. lia.
Qed.

(** C22: Modular exponentiation is the one of EIP-198, and from Berlin on the one of
    EIP-2565.  For a gas limit below [2 ^ 54] the precompile does not panic, and
    answers with the power of the base modulo the modulus, in as many bytes as the
    modulus has, for the gas of the EIP, however the lengths of the header are
    chosen: the saturating arithmetic refuses what the EIP refuses, and what the
    gas pays for fits in memory. *)
Theorem modexp_follows_the_eips input gas_limit :
  Forall is_byte input -> gas_limit < 2 ^ 54 ->
  eip_answer eip198_gas 0 input gas_limit (byzantium_run input gas_limit) /\
  eip_answer eip2565_gas 200 input gas_limit (berlin_run input gas_limit).
Proof.
  intros Hb Hg. split; apply run_inner_answers; auto using eip198_pays, eip2565_pays.
  - intros _. apply byzantium_charges. lia.
  - intros. apply berlin_charges; lia.
Qed.
End theorems.

(** ** Witness *)

(** An exponentiation on [Z], square by square. *)
Fixpoint power_mod (b : Z) (e : positive) (m : Z) : Z :=
  match e with
  | xH => b mod m
  | xO e => power_mod (b * b mod m) e m
  | xI e => b * power_mod (b * b mod m) e m mod m
  end.
Definition sample_modexp : ModexpLib := fun b e m =>
  let m' := from_be_bytes m in
  if m' <=? 0 then []
  else to_be_bytes (length m) (match from_be_bytes e with
    | Zpos e => power_mod (from_be_bytes b) e m' | Z0 => 1 mod m' | Zneg _ => 0 end).

Lemma power_mod_eq b e m : 0 < m -> power_mod b e m = b ^ Zpos e mod m.
Proof.
  intros Hm. revert b. induction e as [e IH|e IH|]; intros b; cbn [power_mod]; [| |by rewrite Z.pow_1_r].
  - rewrite IH, Pos2Z.inj_xI, Z.pow_add_r, Z.pow_mul_r, Z.pow_1_r, Z.pow_2_r by lia.
    rewrite <- Zpower_mod, Zmult_mod_idemp_r by done. f_equal. lia.
  - rewrite IH, Pos2Z.inj_xO, Z.pow_mul_r, Z.pow_2_r by lia. by rewrite <- Zpower_mod.
Qed.

#[local] Existing Instance sample_modexp.
#[local] Instance sample_modexp_ok : ModexpLibOk.
Proof.
  split; unfold modexp, sample_modexp.
  - intros. case_match; [done|apply to_be_bytes_is_byte].
  - intros. case_match; [apply len_nonneg|]. by rewrite len_to_be_bytes.
  - intros b e m Hm Hpos. bool_lia. pose proof (from_be_bytes_bound m Hm) as Hb. unfold len in Hb.
    destruct (from_be_bytes e) as [|p|p]; rewrite from_to_be_bytes.
    + rewrite Z.pow_0_r. pose proof (Z.mod_pos_bound 1 (from_be_bytes m) Hpos). apply Z.mod_small. lia.
    + rewrite power_mod_eq by done. pose proof (Z.mod_pos_bound (from_be_bytes b ^ Zpos p) _ Hpos).
      apply Z.mod_small. lia.
    + change (_ ^ Zneg p) with 0. by rewrite !Zmod_0_l.
Qed.

(** The first example of EIP-198: [3 ^ (p - 1) mod p], with [p] prime. *)
Definition eip198_example : bytes :=
  to_be_bytes 32 1 ++ to_be_bytes 32 32 ++ to_be_bytes 32 32 ++ [3] ++
  to_be_bytes 32 (2 ^ 256 - 2 ^ 32 - 978) ++ to_be_bytes 32 (2 ^ 256 - 2 ^ 32 - 977).

Lemma modexp_follows_the_eips_witness :
  byzantium_run eip198_example 20000 = returns 13056 (to_be_bytes 32 1) /\
  eip_answer eip2565_gas 200 eip198_example 1360 (berlin_run eip198_example 1360) /\
  berlin_run eip198_example 1359 = Err PE_OutOfGas.
Proof.
  assert (Hb : Forall is_byte eip198_example) by (vm_compute; repeat constructor; discriminate).
  split_and!; [vm_compute; reflexivity| |vm_compute; reflexivity].
  exact (proj2 (modexp_follows_the_eips eip198_example 1360 Hb eq_refl)).
Defined.
