(* ===== verification/Curves.v ===== *)
(** The precompiles on elliptic curves: [crates/precompile/src/secp256k1.rs],
    [secp256r1.rs], [bn128.rs] and [kzg_point_evaluation.rs].

    The curves are the crates [k256], [secp256k1], [p256], [substrate-bn] and
    [c-kzg], parameters of the model: a class with the types and the functions
    the code calls, and a class with what the code relies on.  The model is the
    code around them: how the input is cut and checked, what is charged, and
    which errors are answered. *)

From S2P Require Import Prelude Bytes Eof Bytecode State CallInputs Env Precompile.

(** ** ECDSA recovery: [secp256k1.rs] *)

(** The crate [k256]; [None] is an error. *)
Class K256 : Type := {
  k256_Signature : Type;
  k256_RecoveryId : Type;
  k256_VerifyingKey : Type;
  k256_from_slice : bytes -> option k256_Signature;
  k256_normalize_s : k256_Signature -> option k256_Signature;
  k256_from_byte : Z -> option k256_RecoveryId;
  k256_recover_from_prehash : bytes -> k256_Signature -> k256_RecoveryId -> option k256_VerifyingKey;
  k256_to_encoded_point : k256_VerifyingKey -> bytes;
}.

(** The crate [secp256k1]. *)
Class Secp256k1 : Type := {
  secp_RecoveryId : Type;
  secp_RecoverableSignature : Type;
  secp_PublicKey : Type;
  secp_from_i32 : Z -> option secp_RecoveryId;
  secp_from_compact : bytes -> secp_RecoveryId -> option secp_RecoverableSignature;
  secp_recover_ecdsa : bytes -> secp_RecoverableSignature -> option secp_PublicKey;
  secp_serialize_uncompressed : secp_PublicKey -> bytes;
}.

(** The recovery of a key from a signature, a recovery identifier and a message:
    an error is [Err tt], the answer a word of which 20 bytes are left. *)
Class Ecrecover : Type := ecrecover : bytes -> Z -> bytes -> outcome unit bytes.

(** [keccak256(..)] with [hash[..12].fill(0)]. *)
Definition address_hash `{Keccak} (key : bytes) : bytes := zeroes 12 ++ drop 12 (to_be_bytes 32 (keccak256 key)).

Definition ecrecover_k256 `{K256, Keccak} : Ecrecover := fun sig recid msg =>
  sig ← ok_or tt (k256_from_slice sig);
  let '(sig, recid) :=
    match k256_normalize_s sig with
    | Some sig_normalized => (sig_normalized, Z.lxor recid 1)
    | None => (sig, recid)
    end in
  recid ← unwrap (k256_from_byte recid);
  recovered_key ← ok_or tt (k256_recover_from_prehash msg sig recid);
  point ← slice_from (k256_to_encoded_point recovered_key) 1;
  Ok (address_hash point).

Definition ecrecover_secp256k1 `{Secp256k1, Keccak} : Ecrecover := fun sig recid msg =>
  recid ← unwrap (secp_from_i32 recid);
  sig ← ok_or tt (secp_from_compact sig recid);
  public ← ok_or tt (secp_recover_ecdsa msg sig);
  point ← slice_from (secp_serialize_uncompressed public) 1;
  Ok (address_hash point).

Definition ECRECOVER_BASE : Z := 3000.

Definition ec_recover_run `{Ecrecover} (input : bytes) (gas_limit : Z) : PrecompileResult :=
  if gas_limit <? ECRECOVER_BASE then Err PE_OutOfGas
  else
    let input := right_pad 128 input in
    head ← slice input 32 63;
    v ← index input 63;
    if negb (forallb (Z.eqb 0) head && ((v =? 27) || (v =? 28))) then returns ECRECOVER_BASE []
    else
      msg ← slice input 0 32;
      let recid := v - 27 in
      sig ← slice input 64 128;
      match ecrecover sig recid msg with
      | Ok o => returns ECRECOVER_BASE o
      | Err _ => returns ECRECOVER_BASE []
      | Panic => Panic
      end.

Definition ECRECOVER `{Ecrecover} : PrecompileWithAddress :=
  mkPrecompileWithAddress (u64_to_address 1) (Precompile_Standard ec_recover_run).

(** ** ECDSA verification on P256: [secp256r1.rs] *)

(** The crate [p256]. *)
Class P256 : Type := {
  p256_Signature : Type;
  p256_VerifyingKey : Type;
  p256_from_slice : bytes -> option p256_Signature;
  p256_from_sec1_bytes : bytes -> option p256_VerifyingKey;
  p256_verify_prehash : p256_VerifyingKey -> bytes -> p256_Signature -> bool;
}.

Definition P256VERIFY_BASE : Z := 3450.

(** [None] is a refused signature. *)
Definition verify_impl `{P256} (input : bytes) : outcome PrecompileError (option unit) :=
  if negb (len input =? 160) then Ok None
  else
    msg ← slice input 0 32;
    sig ← slice input 32 96;
    pk ← slice input 96 160;
    let uncompressed_pk := 4 :: pk in
    Ok (signature ← p256_from_slice sig;
        public_key ← p256_from_sec1_bytes uncompressed_pk;
        if p256_verify_prehash public_key msg signature then Some tt else None).

Definition p256_verify `{P256} (input : bytes) (gas_limit : Z) : PrecompileResult :=
  if gas_limit <? P256VERIFY_BASE then Err PE_OutOfGas
  else
    verified ← verify_impl input;
    returns P256VERIFY_BASE (match verified with Some _ => to_be_bytes 32 1 | None => [] end).

Definition P256VERIFY `{P256} : PrecompileWithAddress :=
  mkPrecompileWithAddress (u64_to_address 0x100) (Precompile_Standard p256_verify).
Definition secp256r1_precompiles `{P256} : list PrecompileWithAddress := [P256VERIFY].

(** ** The curve alt_bn128: [bn128.rs] *)

(** The crate [substrate-bn].  [fq_to_big_endian x n] fills a slice of [n] bytes. *)
Class Bn : Type := {
  Fq : Type; Fq2 : Type; Fr : Type; G1 : Type; G2 : Type; Gt : Type; AffineG1 : Type; AffineG2 : Type;
  fq_from_slice : bytes -> option Fq;
  fq_zero : Fq;
  fq_eqb : Fq -> Fq -> bool;
  fq_to_big_endian : Fq -> Z -> option bytes;
  fr_from_slice : bytes -> option Fr;
  fq2_new : Fq -> Fq -> Fq2;
  fq2_is_zero : Fq2 -> bool;
  affine_g1_new : Fq -> Fq -> option AffineG1;
  affine_g1_from_jacobian : G1 -> option AffineG1;
  affine_g1_x : AffineG1 -> Fq;
  affine_g1_y : AffineG1 -> Fq;
  g1_from_affine : AffineG1 -> G1;
  g1_zero : G1;
  bn_g1_add : G1 -> G1 -> G1;
  bn_g1_mul : G1 -> Fr -> G1;
  affine_g2_new : Fq2 -> Fq2 -> option AffineG2;
  g2_from_affine : AffineG2 -> G2;
  g2_zero : G2;
  gt_one : Gt;
  gt_mul : Gt -> Gt -> Gt;
  gt_eqb : Gt -> Gt -> bool;
  bn_pairing : G1 -> G2 -> Gt;
}.

Section bn128.
Context `{Bn}.

Definition ISTANBUL_ADD_GAS_COST : Z := 150.
Definition BYZANTIUM_ADD_GAS_COST : Z := 500.
Definition ISTANBUL_MUL_GAS_COST : Z := 6000.
Definition BYZANTIUM_MUL_GAS_COST : Z := 40000.
Definition ISTANBUL_PAIR_PER_POINT : Z := 34000.
Definition ISTANBUL_PAIR_BASE : Z := 45000.
Definition BYZANTIUM_PAIR_PER_POINT : Z := 80000.
Definition BYZANTIUM_PAIR_BASE : Z := 100000.

Definition ADD_INPUT_LEN : Z := 64 + 64.
Definition MUL_INPUT_LEN : Z := 64 + 32.
Definition PAIR_ELEMENT_LEN : Z := 64 + 128.

Definition read_fq (input : bytes) : outcome PrecompileError Fq :=
  s ← slice input 0 32; ok_or PE_Bn128FieldPointNotAMember (fq_from_slice s).

Definition new_g1_point (px py : Fq) : outcome PrecompileError G1 :=
  if fq_eqb px fq_zero && fq_eqb py fq_zero then Ok g1_zero
  else p ← ok_or PE_Bn128AffineGFailedToCreate (affine_g1_new px py); Ok (g1_from_affine p).

Definition read_point (input : bytes) : outcome PrecompileError G1 :=
  x ← slice input 0 32; px ← read_fq x;
  y ← slice input 32 64; py ← read_fq y;
  new_g1_point px py.

(** The bytes of a point: two numbers, or zeroes for the point at infinity. *)
Definition point_bytes (p : G1) : outcome PrecompileError bytes :=
  match affine_g1_from_jacobian p with
  | Some a =>
      x ← unwrap (fq_to_big_endian (affine_g1_x a) 32);
      y ← unwrap (fq_to_big_endian (affine_g1_y a) 32);
      Ok (x ++ y)
  | None => Ok (zeroes 64)
  end.

Definition run_add (input : bytes) (gas_cost gas_limit : Z) : PrecompileResult :=
  if gas_limit <? gas_cost then Err PE_OutOfGas
  else
    let input := right_pad ADD_INPUT_LEN input in
    a ← slice input 0 64; p1 ← read_point a;
    b ← slice_from input 64; p2 ← read_point b;
    output ← point_bytes (bn_g1_add p1 p2);
    returns gas_cost output.

Definition run_mul (input : bytes) (gas_cost gas_limit : Z) : PrecompileResult :=
  if gas_limit <? gas_cost then Err PE_OutOfGas
  else
    let input := right_pad MUL_INPUT_LEN input in
    a ← slice input 0 64; p ← read_point a;
    s ← slice input 64 96; fr ← unwrap (fr_from_slice s);
    output ← point_bytes (bn_g1_mul p fr);
    returns gas_cost output.

(** [read_fq_at n] of the element [idx]: an unchecked access, a panic out of its
    bounds. *)
Definition read_fq_at (input : bytes) (idx n : Z) : outcome PrecompileError Fq :=
  let start := idx * PAIR_ELEMENT_LEN + n * 32 in
  s ← slice input start (start + 32);
  ok_or PE_Bn128FieldPointNotAMember (fq_from_slice s).

Definition new_g2_point (ba bb : Fq2) : outcome PrecompileError G2 :=
  if fq2_is_zero ba && fq2_is_zero bb then Ok g2_zero
  else p ← ok_or PE_Bn128AffineGFailedToCreate (affine_g2_new ba bb); Ok (g2_from_affine p).

Definition pair_element (input : bytes) (idx : Z) : outcome PrecompileError Gt :=
  ax ← read_fq_at input idx 0;
  ay ← read_fq_at input idx 1;
  bay ← read_fq_at input idx 2;
  bax ← read_fq_at input idx 3;
  bby ← read_fq_at input idx 4;
  bbx ← read_fq_at input idx 5;
  a ← new_g1_point ax ay;
  b ← new_g2_point (fq2_new bax bay) (fq2_new bbx bby);
  Ok (bn_pairing a b).

(** [for idx in 0..elements]: [n] elements from the number [idx] on. *)
Fixpoint pair_loop (input : bytes) (n : nat) (idx : Z) (mul : Gt) : outcome PrecompileError Gt :=
  match n with
  | O => Ok mul
  | S n => p ← pair_element input idx; pair_loop input n (idx + 1) (gt_mul mul p)
  end.

Definition run_pair (input : bytes) (pair_per_point_cost pair_base_cost gas_limit : Z) : PrecompileResult :=
  let elements := len input / PAIR_ELEMENT_LEN in
  let gas := wrapping_add 64 (wrapping_mul 64 elements pair_per_point_cost) pair_base_cost in
  if gas_limit <? gas then Err PE_OutOfGas
  else if negb (len input mod PAIR_ELEMENT_LEN =? 0) then Err PE_Bn128PairLength
  else
    success ← (if len input =? 0 then Ok true
               else mul ← pair_loop input (Z.to_nat elements) 0 gt_one; Ok (gt_eqb mul gt_one));
    returns gas (bool_to_bytes32 success).

Definition add_ADDRESS : Address := u64_to_address 6.
Definition add_ISTANBUL : PrecompileWithAddress :=
  mkPrecompileWithAddress add_ADDRESS (Precompile_Standard (fun i g => run_add i ISTANBUL_ADD_GAS_COST g)).
Definition add_BYZANTIUM : PrecompileWithAddress :=
  mkPrecompileWithAddress add_ADDRESS (Precompile_Standard (fun i g => run_add i BYZANTIUM_ADD_GAS_COST g)).
Definition mul_ADDRESS : Address := u64_to_address 7.
Definition mul_ISTANBUL : PrecompileWithAddress :=
  mkPrecompileWithAddress mul_ADDRESS (Precompile_Standard (fun i g => run_mul i ISTANBUL_MUL_GAS_COST g)).
Definition mul_BYZANTIUM : PrecompileWithAddress :=
  mkPrecompileWithAddress mul_ADDRESS (Precompile_Standard (fun i g => run_mul i BYZANTIUM_MUL_GAS_COST g)).
Definition pair_ADDRESS : Address := u64_to_address 8.
Definition pair_ISTANBUL : PrecompileWithAddress :=
  mkPrecompileWithAddress pair_ADDRESS
    (Precompile_Standard (fun i g => run_pair i ISTANBUL_PAIR_PER_POINT ISTANBUL_PAIR_BASE g)).
Definition pair_BYZANTIUM : PrecompileWithAddress :=
  mkPrecompileWithAddress pair_ADDRESS
    (Precompile_Standard (fun i g => run_pair i BYZANTIUM_PAIR_PER_POINT BYZANTIUM_PAIR_BASE g)).
End bn128.

(** ** KZG point evaluation: [kzg_point_evaluation.rs] *)

(** The crate [c-kzg] under the settings of the environment; [None] is an error. *)
Class Kzg : Type := {
  KzgSettings : Type;
  kzg_settings : Env -> KzgSettings;
  lib_verify_kzg_proof : bytes -> bytes -> bytes -> bytes -> KzgSettings -> option bool;
}.

Section kzg.
Context `{Kzg, Hashes}.

Definition kzg_ADDRESS : Address := u64_to_address 0x0A.
Definition kzg_GAS_COST : Z := 50000.
Definition VERSIONED_HASH_VERSION_KZG : Z := 0x01.
Definition RETURN_VALUE : bytes :=
  to_be_bytes 32 0x1000 ++
  to_be_bytes 32 0x73eda753299d7d483339d80809a1d80553bda402fffe5bfeffffffff00000001.

Definition kzg_to_versioned_hash (commitment : bytes) : bytes :=
  <[0%nat := VERSIONED_HASH_VERSION_KZG]> (sha256 commitment).

Definition verify_kzg_proof (commitment z y proof : bytes) (settings : KzgSettings) : bool :=
  default false (lib_verify_kzg_proof commitment z y proof settings).

(** [as_array::<N>]: a slice of another length panics. *)
Definition as_array (n : Z) (b : bytes) : outcome PrecompileError bytes :=
  if len b =? n then Ok b else Panic.

Definition kzg_run (input : bytes) (gas_limit : Z) (env : Env) : PrecompileResult :=
  if gas_limit <? kzg_GAS_COST then Err PE_OutOfGas
  else if negb (len input =? 192) then Err PE_BlobInvalidInputLength
  else
    versioned_hash ← slice input 0 32;
    commitment ← slice input 96 144;
    if negb (bool_decide (kzg_to_versioned_hash commitment = versioned_hash)) then Err PE_BlobMismatchedVersion
    else
      commitment ← as_array 48 commitment;
      z ← slice input 32 64; z ← as_array 32 z;
      y ← slice input 64 96; y ← as_array 32 y;
      proof ← slice input 144 192; proof ← as_array 48 proof;
      if negb (verify_kzg_proof commitment z y proof (kzg_settings env)) then Err PE_BlobVerifyKzgProofFailed
      else returns kzg_GAS_COST RETURN_VALUE.

Definition POINT_EVALUATION : PrecompileWithAddress :=
  mkPrecompileWithAddress kzg_ADDRESS (Precompile_Env kzg_run).
End kzg.

(** ** What the code relies on *)

Class K256Ok `{K256} : Prop := {
  k256_recovery_ids n : 0 <= n < 4 -> is_Some (k256_from_byte n);
  k256_point key : len (k256_to_encoded_point key) = 65;
}.

Class Secp256k1Ok `{Secp256k1} : Prop := {
  secp_recovery_ids n : 0 <= n < 4 -> is_Some (secp_from_i32 n);
  secp_point key : len (secp_serialize_uncompressed key) = 65;
}.

(** A recovered address is a word whose twelve first bytes are zero. *)
Definition address_word (o : bytes) : Prop :=
  exists a, len a = 20 /\ Forall is_byte a /\ o = zeroes 12 ++ a.

Class EcrecoverOk `{Ecrecover} : Prop :=
  ecrecover_safe sig recid msg : 0 <= recid < 2 -> safely (ecrecover sig recid msg) address_word.

Class BnOk `{Bn} : Prop := {
  fq_bytes x : exists b, fq_to_big_endian x 32 = Some b /\ len b = 32 /\ Forall is_byte b;
  fr_from_slice_some s : len s = 32 -> is_Some (fr_from_slice s);
}.

Lemma address_hash_word `{Keccak} key : address_word (address_hash key).
Proof.
  exists (drop 12 (to_be_bytes 32 (keccak256 key))). split_and!; [|apply Forall_drop, to_be_bytes_is_byte|done].
  change 12%nat with (Z.to_nat 12). by rewrite len_drop; rewrite len_to_be_bytes.
Qed.

(** Either implementation promises the same. *)
Section recovery.
Context `{HK : Keccak}.

Lemma safely_point {E} key (k : bytes -> outcome E bytes) Q :
  len key = 65 -> (forall p, safely (k p) Q) -> safely (slice_from key 1 ≫= k) Q.
Proof. intros Hl Hk. unfold slice_from. rewrite Hl. apply Hk. Qed.

#[export] Instance ecrecover_k256_ok `{H1 : K256, !K256Ok} : @EcrecoverOk ecrecover_k256.
Proof.
  intros sig recid msg Hr. unfold ecrecover, ecrecover_k256. apply safely_ok_or. intros s _.
  assert (exists s' r, (match k256_normalize_s s with Some s' => (s', Z.lxor recid 1) | None => (s, recid) end) = (s', r)
    /\ 0 <= r < 4) as (s' & r & -> & Hr').
  { assert (recid = 0 \/ recid = 1) as [-> | ->] by lia; destruct (k256_normalize_s s); eexists _, _; split; (done || lia). }
  destruct (k256_recovery_ids r Hr') as [id ->]. cbn [unwrap mbind outcome_bind].
  apply safely_ok_or. intros key _. apply safely_point; [apply k256_point|]. intros. apply safely_ok, address_hash_word.
Qed.

#[export] Instance ecrecover_secp256k1_ok `{H1 : Secp256k1, !Secp256k1Ok} : @EcrecoverOk ecrecover_secp256k1.
Proof.
  intros sig recid msg Hr. unfold ecrecover, ecrecover_secp256k1.
  destruct (secp_recovery_ids recid) as [id ->]; [lia|]. cbn [unwrap mbind outcome_bind].
  apply safely_ok_or. intros s _. apply safely_ok_or. intros key _.
  apply safely_point; [apply secp_point|]. intros. apply safely_ok, address_hash_word.
Qed.
End recovery.

Section ecrecover.
Context `{HE : Ecrecover} `{HO : !EcrecoverOk}.

(** The answer: nothing, or a word that is an address. *)
Lemma ec_recover_answers input gas_limit :
  Forall is_byte input ->
  safely (ec_recover_run input gas_limit) (fun r =>
    exists o, r = RNC_Result (mkResultInfo ECRECOVER_BASE o) /\ ECRECOVER_BASE <= gas_limit /\ (o = [] \/ address_word o)).
Proof.
  intros Hb. apply safely_gas. intros Hg. assert (Hl : len (right_pad 128 input) = 128) by by apply len_right_pad.
  assert (Hp : Forall is_byte (right_pad 128 input)) by auto with precompile.
  apply safely_slice; [lia..|done|]. intros head _ _. apply safely_index; [lia|]. intros v.
  destruct (negb _) eqn:Hv; [apply safely_ok; eauto|].
  assert (0 <= v - 27 < 2).
  { apply negb_false_iff, andb_true_iff in Hv as [_ Hv]. apply orb_true_iff in Hv as [Hv|Hv]; apply Z.eqb_eq in Hv; lia. }
  apply safely_slice; [lia..|done|]. intros msg _ _. apply safely_slice; [lia..|done|]. intros sig _ _.
  pose proof (ecrecover_safe sig (v - 27) msg) as Hs. destruct (ecrecover _ _ _) as [o|[]|]; simpl in *; eauto 8.
Qed.

Lemma ec_recover_well_behaved : well_behaved ec_recover_run.
Proof.
  intros input g Hb Hg. eapply safely_mono; [by apply ec_recover_answers|].
  intros r _ (o & -> & Hc & Ho). split; [done|]. destruct Ho as [->|(a & _ & Ha & ->)]; [done|].
  apply Forall_app. split; [apply zeroes_bytes|done].
Qed.
End ecrecover.

Lemma p256_well_behaved `{P256} : well_behaved p256_verify.
Proof.
  intros input g Hb Hg. apply safely_gas. intros Hc. eapply (safely_bind _ _ (fun _ => True)).
  - unfold verify_impl. destruct (Z.eqb_spec (len input) 160); [|done].
    do 3 (apply safely_slice; [lia..|done|]; intros ? _ _). done.
  - intros o _ _. apply safely_returns; [done|]. destruct o; [apply to_be_bytes_is_byte|done].
Qed.

Section bn128_lemmas.
Context `{HB : Bn} `{HO : !BnOk}.

Lemma read_fq_safe s : len s = 32 -> Forall is_byte s -> safely (read_fq s) (fun _ => True).
Proof.
  intros Hl Hb. unfold read_fq. apply safely_slice; [lia..|done|]. intros x _ _. by destruct (fq_from_slice x).
Qed.

Lemma new_g1_point_safe x y : safely (new_g1_point x y) (fun _ => True).
Proof. unfold new_g1_point. destruct (_ && _); [done|]. by destruct (affine_g1_new x y). Qed.

Lemma new_g2_point_safe x y : safely (new_g2_point x y) (fun _ => True).
Proof. unfold new_g2_point. destruct (_ && _); [done|]. by destruct (affine_g2_new x y). Qed.

Lemma read_point_safe s : len s = 64 -> Forall is_byte s -> safely (read_point s) (fun _ => True).
Proof.
  intros Hl Hb. unfold read_point. apply safely_slice; [lia..|done|]. intros x Hx Hbx.
  eapply safely_bind; [apply read_fq_safe; [lia|done]|]. intros px _ _.
  apply safely_slice; [lia..|done|]. intros y Hy Hby.
  eapply safely_bind; [apply read_fq_safe; [lia|done]|]. intros py _ _. apply new_g1_point_safe.
Qed.

Lemma point_bytes_safe p : safely (point_bytes p) (fun o => len o = 64 /\ Forall is_byte o).
Proof.
  unfold point_bytes. destruct (affine_g1_from_jacobian p) as [a|].
  - destruct (fq_bytes (affine_g1_x a)) as (x & -> & Hlx & Hx), (fq_bytes (affine_g1_y a)) as (y & -> & Hly & Hy).
    simpl. rewrite len_app. split; [lia|]. by apply Forall_app.
  - split; [done|apply zeroes_bytes].
Qed.

Lemma run_add_well_behaved cost : 0 <= cost -> well_behaved (fun i g => run_add i cost g).
Proof.
  intros Hcost input g Hb Hg. apply safely_gas. intros Hc.
  assert (Hl : len (right_pad ADD_INPUT_LEN input) = 128) by by apply len_right_pad.
  assert (Hp : Forall is_byte (right_pad ADD_INPUT_LEN input)) by auto with precompile.
  apply safely_slice; [lia..|done|]. intros a Ha Hba.
  eapply safely_bind; [apply read_point_safe; [lia|done]|]. intros p1 _ _.
  apply safely_slice_from; [lia|done|]. intros b Hlb Hbb.
  eapply safely_bind; [apply read_point_safe; [lia|done]|]. intros p2 _ _.
  eapply safely_bind; [apply point_bytes_safe|]. intros o _ [_ Ho]. by apply safely_returns.
Qed.

Lemma run_mul_well_behaved cost : 0 <= cost -> well_behaved (fun i g => run_mul i cost g).
Proof.
  intros Hcost input g Hb Hg. apply safely_gas. intros Hc.
  assert (Hl : len (right_pad MUL_INPUT_LEN input) = 96) by by apply len_right_pad.
  assert (Hp : Forall is_byte (right_pad MUL_INPUT_LEN input)) by auto with precompile.
  apply safely_slice; [lia..|done|]. intros a Ha Hba.
  eapply safely_bind; [apply read_point_safe; [lia|done]|]. intros p _ _.
  apply safely_slice; [lia..|done|]. intros s Hs Hbs.
  destruct (fr_from_slice_some s) as [fr ->]; [lia|]. cbn [unwrap mbind outcome_bind].
  eapply safely_bind; [apply point_bytes_safe|]. intros o _ [_ Ho]. by apply safely_returns.
Qed.

Lemma read_fq_at_safe input idx n :
  Forall is_byte input -> 0 <= idx -> 0 <= n < 6 -> (idx + 1) * PAIR_ELEMENT_LEN <= len input ->
  safely (read_fq_at input idx n) (fun _ => True).
Proof.
  intros Hb Hi Hn Hl. unfold read_fq_at, PAIR_ELEMENT_LEN in *. cbv zeta. apply safely_slice; [lia..|done|].
  intros s _ _. by destruct (fq_from_slice s).
Qed.

Lemma pair_loop_safe input n idx mul :
  Forall is_byte input -> 0 <= idx -> (idx + Z.of_nat n) * PAIR_ELEMENT_LEN <= len input ->
  safely (pair_loop input n idx mul) (fun _ => True).
Proof.
  intros Hb. revert idx mul. induction n as [|n IH]; intros idx mul Hi Hl; [done|]. cbn [pair_loop].
  eapply (safely_bind _ _ (fun _ => True)).
  - unfold pair_element.
    do 6 (eapply safely_bind; [apply read_fq_at_safe; [done|lia|lia|unfold PAIR_ELEMENT_LEN in *; lia]|]; intros ? _ _).
    eapply safely_bind; [apply new_g1_point_safe|]. intros ? _ _.
    eapply safely_bind; [apply new_g2_point_safe|]. done.
  - intros p _ _. apply IH; lia.
Qed.

Lemma run_pair_well_behaved per_point base : well_behaved (fun i g => run_pair i per_point base g).
Proof.
  intros input g Hb Hg. unfold run_pair. cbv zeta. apply safely_gas. intros Hc.
  destruct (negb _); [done|]. eapply (safely_bind _ _ (fun _ => True)).
  - destruct (len input =? 0); [done|]. eapply safely_bind; [|done]. apply pair_loop_safe; [done|lia|].
    rewrite Z2Nat.id by (apply Z.div_pos; [apply len_nonneg|done]).
    pose proof (Z.mul_div_le (len input) PAIR_ELEMENT_LEN ltac:(done)). lia.
  - intros b _ _. apply safely_returns; [|apply to_be_bytes_is_byte]. split; [by apply fits_wrapping_add|done].
Qed.
End bn128_lemmas.

Lemma as_array_ok n b : len b = n -> as_array n b = Ok b.
Proof. intros <-. unfold as_array. by rewrite Z.eqb_refl. Qed.

Lemma kzg_well_behaved `{HK : Kzg} `{HH : Hashes} env : well_behaved (fun i g => kzg_run i g env).
Proof.
  intros input g Hb Hg. unfold kzg_run. apply safely_gas. intros Hc.
  destruct (Z.eqb_spec (len input) 192); [|done].
  apply safely_slice; [lia..|done|]. intros vh _ _. apply safely_slice; [lia..|done|]. intros c Hlc _.
  destruct (negb (bool_decide _)); [done|]. rewrite as_array_ok by done. cbn [mbind outcome_bind].
  apply safely_slice; [lia..|done|]. intros z Hz _. rewrite as_array_ok by done. cbn [mbind outcome_bind].
  apply safely_slice; [lia..|done|]. intros y Hy _. rewrite as_array_ok by done. cbn [mbind outcome_bind].
  apply safely_slice; [lia..|done|]. intros p Hp _. rewrite as_array_ok by done. cbn [mbind outcome_bind].
  destruct (verify_kzg_proof c z y p (kzg_settings env)); [|done]. apply safely_returns; [done|].
  apply Forall_app. split; apply to_be_bytes_is_byte.
Qed.
