(* ===== verification/Bls12.v ===== *)
(** The BLS12-381 precompiles of EIP-2537: [crates/precompile/src/bls12_381.rs] and
    [bls12_381/].

    The curve is the crate [blst], a parameter: the class [Blst] with the types
    and the functions the code calls, and [BlstOk] with what it relies on.  The
    model is the code around it: lengths, gas, padding, canonical field elements,
    subgroup checks and the order of the errors. *)

From stdpp Require Import pretty.
From S2P Require Import Prelude Bytes Eof Bytecode State CallInputs Env Precompile.

(** The crate [blst]; a scalar is its byte array. *)
Class Blst : Type := {
  blst_fp : Type; blst_p1 : Type; blst_p2 : Type; blst_fp12 : Type;
  blst_fp_from_bendian : bytes -> blst_fp;
  blst_bendian_from_fp : blst_fp -> bytes;
  blst_scalar_from_bendian : bytes -> bytes;
  blst_p1_affine_on_curve : blst_fp * blst_fp -> bool;
  blst_p1_affine_in_g1 : blst_fp * blst_fp -> bool;
  blst_p1_from_affine : blst_fp * blst_fp -> blst_p1;
  blst_p1_to_affine : blst_p1 -> blst_fp * blst_fp;
  blst_p1_add_or_double_affine : blst_p1 -> blst_fp * blst_fp -> blst_p1;
  blst_p1_mult : blst_p1 -> bytes -> Z -> blst_p1;
  blst_p1s_mult : list blst_p1 -> bytes -> Z -> blst_p1;
  blst_map_to_g1 : blst_fp -> blst_p1;
  blst_p2_affine_on_curve : (blst_fp * blst_fp) * (blst_fp * blst_fp) -> bool;
  blst_p2_affine_in_g2 : (blst_fp * blst_fp) * (blst_fp * blst_fp) -> bool;
  blst_p2_from_affine : (blst_fp * blst_fp) * (blst_fp * blst_fp) -> blst_p2;
  blst_p2_to_affine : blst_p2 -> (blst_fp * blst_fp) * (blst_fp * blst_fp);
  blst_p2_add_or_double_affine : blst_p2 -> (blst_fp * blst_fp) * (blst_fp * blst_fp) -> blst_p2;
  blst_p2_mult : blst_p2 -> bytes -> Z -> blst_p2;
  blst_p2s_mult : list blst_p2 -> bytes -> Z -> blst_p2;
  blst_map_to_g2 : blst_fp * blst_fp -> blst_p2;
  blst_fp12_default : blst_fp12;
  blst_miller_loop : (blst_fp * blst_fp) * (blst_fp * blst_fp) -> blst_fp * blst_fp -> blst_fp12;
  blst_fp12_mul : blst_fp12 -> blst_fp12 -> blst_fp12;
  blst_final_exp : blst_fp12 -> blst_fp12;
  blst_fp12_is_one : blst_fp12 -> bool;
}.

(** The structures of the crate: pairs of coordinates. *)
Abbreviation blst_p1_affine := (blst_fp * blst_fp)%type.
Abbreviation blst_fp2 := (blst_fp * blst_fp)%type.
Abbreviation blst_p2_affine := (blst_fp2 * blst_fp2)%type.

(** [{n}] in a format string. *)
Definition decimal (n : Z) : string := pretty (Z.to_N n).

Section bls12_381.
Context `{Blst}.
Abbreviation Res := (outcome PrecompileError).

(** ** [utils.rs] *)

Definition NBITS : Z := 256.
Definition FP_LENGTH : Z := 48.
Definition PADDED_FP_LENGTH : Z := 64.
Definition PADDED_FP2_LENGTH : Z := 128.
Definition PADDING_LENGTH : Z := 16.
Definition SCALAR_LENGTH : Z := 32.
Definition MODULUS_REPR : bytes :=
  [0x1a; 0x01; 0x11; 0xea; 0x39; 0x7f; 0xe6; 0x9a; 0x4b; 0x1b; 0xa7; 0xb6; 0x43; 0x4b; 0xac; 0xd7;
   0x64; 0x77; 0x4b; 0x84; 0xf3; 0x85; 0x12; 0xbf; 0x67; 0x30; 0xd2; 0xa0; 0xf6; 0xb0; 0xf6; 0x24;
   0x1e; 0xab; 0xff; 0xfe; 0xb1; 0x53; 0xff; 0xff; 0xb9; 0xfe; 0xff; 0xff; 0xff; 0xff; 0xaa; 0xab].

(** What is left in [out] when the slice has another length. *)
Definition fp_to_bytes (out : bytes) (input : blst_fp) : bytes :=
  if negb (len out =? PADDED_FP_LENGTH) then out else zeroes PADDING_LENGTH ++ blst_bendian_from_fp input.

Definition remove_padding (input : bytes) : Res bytes :=
  if negb (len input =? PADDED_FP_LENGTH) then
    Err (PE_Other ("Padded input should be 64 bytes, was " ++ decimal (len input)))
  else
    let padding := take (Z.to_nat PADDING_LENGTH) input in
    let unpadded := drop (Z.to_nat PADDING_LENGTH) input in
    if negb (forallb (Z.eqb 0) padding) then Err (PE_Other "16 top bytes of input are not zero")
    else Ok unpadded.

Definition extract_scalar_input (input : bytes) : Res bytes :=
  if negb (len input =? SCALAR_LENGTH) then
    Err (PE_Other ("Input should be 32 bytes, was " ++ decimal (len input)))
  else Ok (blst_scalar_from_bendian input).

(** The loop over the bytes of the input and those of the modulus. *)
Fixpoint is_valid_be_against (input modulus : bytes) : bool :=
  match input, modulus with
  | i :: input, modul :: modulus =>
      if modul <? i then false else if i <? modul then true else is_valid_be_against input modulus
  | _, _ => false
  end.
Definition is_valid_be (input : bytes) : bool := is_valid_be_against input MODULUS_REPR.

Definition fp_from_bendian (input : bytes) : Res blst_fp :=
  if negb (is_valid_be input) then Err (PE_Other "non-canonical fp value")
  else Ok (blst_fp_from_bendian input).

(** ** [g1.rs] and [g2.rs] *)

Definition G1_INPUT_ITEM_LENGTH : Z := 128.
Definition G1_OUTPUT_LENGTH : Z := 128.

(** Fill the slices of 64 bytes of an output with field elements, in order. *)
Definition encode_g1_point (input : blst_p1_affine) : bytes :=
  let out := zeroes G1_OUTPUT_LENGTH in
  fp_to_bytes (take 64 out) input.1 ++ fp_to_bytes (drop 64 out) input.2.

Definition decode_and_check_g1 (p0_x p0_y : bytes) : Res blst_p1_affine :=
  x ← fp_from_bendian p0_x; y ← fp_from_bendian p0_y; Ok (x, y).

Definition extract_g1_input (input : bytes) (subgroup_check : bool) : Res blst_p1_affine :=
  if negb (len input =? G1_INPUT_ITEM_LENGTH) then
    Err (PE_Other ("Input should be 128 bytes, was " ++ decimal (len input)))
  else
    s ← slice input 0 PADDED_FP_LENGTH; input_p0_x ← remove_padding s;
    s ← slice input PADDED_FP_LENGTH G1_INPUT_ITEM_LENGTH; input_p0_y ← remove_padding s;
    out ← decode_and_check_g1 input_p0_x input_p0_y;
    if subgroup_check then
      if negb (blst_p1_affine_in_g1 out) then Err (PE_Other "Element not in G2") else Ok out
    else
      if negb (blst_p1_affine_on_curve out) then Err (PE_Other "Element not on G2 curve") else Ok out.

Definition G2_INPUT_ITEM_LENGTH : Z := 256.
Definition G2_OUTPUT_LENGTH : Z := 256.

Definition encode_g2_point (input : blst_p2_affine) : bytes :=
  let out := zeroes G2_OUTPUT_LENGTH in
  fp_to_bytes (take 64 out) input.1.1 ++ fp_to_bytes (take 64 (drop 64 out)) input.1.2 ++
  fp_to_bytes (take 64 (drop 128 out)) input.2.1 ++ fp_to_bytes (take 64 (drop 192 out)) input.2.2.

Definition check_canonical_fp2 (input_1 input_2 : bytes) : Res blst_fp2 :=
  fp_1 ← fp_from_bendian input_1; fp_2 ← fp_from_bendian input_2; Ok (fp_1, fp_2).

Definition decode_and_check_g2 (x1 x2 y1 y2 : bytes) : Res blst_p2_affine :=
  x ← check_canonical_fp2 x1 x2; y ← check_canonical_fp2 y1 y2; Ok (x, y).

(** [for i in 0..4]: the unpadded elements, in order. *)
Definition input_fp (input : bytes) (i : Z) : Res bytes :=
  s ← slice input (i * PADDED_FP_LENGTH) ((i + 1) * PADDED_FP_LENGTH); remove_padding s.

Definition extract_g2_input (input : bytes) (subgroup_check : bool) : Res blst_p2_affine :=
  if negb (len input =? G2_INPUT_ITEM_LENGTH) then
    Err (PE_Other ("Input should be 256 bytes, was " ++ decimal (len input)))
  else
    fp0 ← input_fp input 0; fp1 ← input_fp input 1; fp2 ← input_fp input 2; fp3 ← input_fp input 3;
    out ← decode_and_check_g2 fp0 fp1 fp2 fp3;
    if subgroup_check then
      if negb (blst_p2_affine_in_g2 out) then Err (PE_Other "Element not in G2") else Ok out
    else
      if negb (blst_p2_affine_on_curve out) then Err (PE_Other "Element not on G2 curve") else Ok out.

(** ** [msm.rs] *)

Definition MSM_MULTIPLIER : Z := 1000.
Definition MSM_DISCOUNT_TABLE : list Z :=
  [1200; 888; 764; 641; 594; 547; 500; 453; 438; 423; 408; 394; 379; 364; 349; 334; 330; 326; 322;
   318; 314; 310; 306; 302; 298; 294; 289; 285; 281; 277; 273; 269; 268; 266; 265; 263; 262; 260;
   259; 257; 256; 254; 253; 251; 250; 248; 247; 245; 244; 242; 241; 239; 238; 236; 235; 233; 232;
   231; 229; 228; 226; 225; 223; 222; 221; 220; 219; 219; 218; 217; 216; 216; 215; 214; 213; 213;
   212; 211; 211; 210; 209; 208; 208; 207; 206; 205; 205; 204; 203; 202; 202; 201; 200; 199; 199;
   198; 197; 196; 196; 195; 194; 193; 193; 192; 191; 191; 190; 189; 188; 188; 187; 186; 185; 185;
   184; 183; 182; 182; 181; 180; 179; 179; 178; 177; 176; 176; 175; 174].

Definition msm_required_gas (k multiplication_cost : Z) : Res Z :=
  if k =? 0 then Ok 0
  else
    let i := Z.min (k - 1) (len MSM_DISCOUNT_TABLE - 1) in
    discount ← index MSM_DISCOUNT_TABLE i;
    Ok (wrapping_mul 64 (wrapping_mul 64 k discount) multiplication_cost / MSM_MULTIPLIER).

(** ** [g1_add.rs] *)

Definition g1_add_BASE_GAS_FEE : Z := 500.
Definition g1_add_INPUT_LENGTH : Z := 256.

Definition g1_add (input : bytes) (gas_limit : Z) : PrecompileResult :=
  if gas_limit <? g1_add_BASE_GAS_FEE then Err PE_OutOfGas
  else if negb (len input =? g1_add_INPUT_LENGTH) then
    Err (PE_Other ("G1ADD input should be 256 bytes, was " ++ decimal (len input)))
  else
    s ← slice input 0 G1_INPUT_ITEM_LENGTH; a_aff ← extract_g1_input s false;
    s ← slice_from input G1_INPUT_ITEM_LENGTH; b_aff ← extract_g1_input s false;
    let b := blst_p1_from_affine b_aff in
    let p := blst_p1_add_or_double_affine b a_aff in
    returns g1_add_BASE_GAS_FEE (encode_g1_point (blst_p1_to_affine p)).

(** ** [g1_mul.rs] *)

Definition g1_mul_BASE_GAS_FEE : Z := 12000.
Definition g1_mul_INPUT_LENGTH : Z := 160.

Definition g1_mul (input : bytes) (gas_limit : Z) : PrecompileResult :=
  if gas_limit <? g1_mul_BASE_GAS_FEE then Err PE_OutOfGas
  else if negb (len input =? g1_mul_INPUT_LENGTH) then
    Err (PE_Other ("G1MUL input should be 160 bytes, was " ++ decimal (len input)))
  else
    s ← slice input 0 G1_INPUT_ITEM_LENGTH; p0_aff ← extract_g1_input s true;
    let p0 := blst_p1_from_affine p0_aff in
    s ← slice_from input G1_INPUT_ITEM_LENGTH; input_scalar0 ← extract_scalar_input s;
    let p := blst_p1_mult p0 input_scalar0 NBITS in
    returns g1_mul_BASE_GAS_FEE (encode_g1_point (blst_p1_to_affine p)).

(** ** [g1_msm.rs] *)

(** The item [i]: skipped when the point is all zeroes, the point at infinity. *)
Definition g1_msm_item (input : bytes) (i : Z) : Res (option (blst_p1 * bytes)) :=
  let start := i * g1_mul_INPUT_LENGTH in
  s ← slice input start (start + G1_INPUT_ITEM_LENGTH);
  if forallb (Z.eqb 0) s then Ok None
  else
    p0_aff ← extract_g1_input s true;
    s ← slice input (start + G1_INPUT_ITEM_LENGTH) (start + G1_INPUT_ITEM_LENGTH + SCALAR_LENGTH);
    scalar ← extract_scalar_input s;
    Ok (Some (blst_p1_from_affine p0_aff, scalar)).

(** [for i in 0..k]: the points and the scalars of [n] items from [i] on. *)
Fixpoint g1_msm_loop (input : bytes) (n : nat) (i : Z) (points : list blst_p1) (scalars : bytes)
  : Res (list blst_p1 * bytes) :=
  match n with
  | O => Ok (points, scalars)
  | S n =>
      item ← g1_msm_item input i;
      match item with
      | None => g1_msm_loop input n (i + 1) points scalars
      | Some (p, s) => g1_msm_loop input n (i + 1) (points ++ [p]) (scalars ++ s)
      end
  end.

Definition g1_msm (input : bytes) (gas_limit : Z) : PrecompileResult :=
  let input_len := len input in
  if (input_len =? 0) || negb (input_len mod g1_mul_INPUT_LENGTH =? 0) then
    Err (PE_Other ("G1MSM input length should be multiple of " ++ decimal g1_mul_INPUT_LENGTH ++
      ", was " ++ decimal input_len))
  else
    let k := input_len / g1_mul_INPUT_LENGTH in
    required_gas ← msm_required_gas k g1_mul_BASE_GAS_FEE;
    if gas_limit <? required_gas then Err PE_OutOfGas
    else
      '(points, scalars) ← g1_msm_loop input (Z.to_nat k) 0 [] [];
      match points with
      | [] => returns required_gas (zeroes 128)
      | _ =>
          let multiexp := blst_p1s_mult points scalars NBITS in
          returns required_gas (encode_g1_point (blst_p1_to_affine multiexp))
      end.

(** ** [g2_add.rs] *)

Definition g2_add_BASE_GAS_FEE : Z := 800.
Definition g2_add_INPUT_LENGTH : Z := 512.

Definition g2_add (input : bytes) (gas_limit : Z) : PrecompileResult :=
  if gas_limit <? g2_add_BASE_GAS_FEE then Err PE_OutOfGas
  else if negb (len input =? g2_add_INPUT_LENGTH) then
    Err (PE_Other ("G2ADD input should be 512 bytes, was " ++ decimal (len input)))
  else
    s ← slice input 0 G2_INPUT_ITEM_LENGTH; a_aff ← extract_g2_input s false;
    s ← slice_from input G2_INPUT_ITEM_LENGTH; b_aff ← extract_g2_input s false;
    let b := blst_p2_from_affine b_aff in
    let p := blst_p2_add_or_double_affine b a_aff in
    returns g2_add_BASE_GAS_FEE (encode_g2_point (blst_p2_to_affine p)).

(** ** [g2_mul.rs] *)

Definition g2_mul_BASE_GAS_FEE : Z := 45000.
Definition g2_mul_INPUT_LENGTH : Z := 288.

Definition g2_mul (input : bytes) (gas_limit : Z) : PrecompileResult :=
  if gas_limit <? g2_mul_BASE_GAS_FEE then Err PE_OutOfGas
  else if negb (len input =? g2_mul_INPUT_LENGTH) then
    Err (PE_Other ("G2MUL input should be 288 bytes, was " ++ decimal (len input)))
  else
    s ← slice input 0 G2_INPUT_ITEM_LENGTH; p0_aff ← extract_g2_input s true;
    let p0 := blst_p2_from_affine p0_aff in
    s ← slice_from input G2_INPUT_ITEM_LENGTH; input_scalar0 ← extract_scalar_input s;
    let p := blst_p2_mult p0 input_scalar0 NBITS in
    returns g2_mul_BASE_GAS_FEE (encode_g2_point (blst_p2_to_affine p)).

(** ** [g2_msm.rs] *)

(** The item [i]: skipped when the point is all zeroes, the point at infinity. *)
Definition g2_msm_item (input : bytes) (i : Z) : Res (option (blst_p2 * bytes)) :=
  let start := i * g2_mul_INPUT_LENGTH in
  s ← slice input start (start + G2_INPUT_ITEM_LENGTH);
  if forallb (Z.eqb 0) s then Ok None
  else
    p0_aff ← extract_g2_input s true;
    s ← slice input (start + G2_INPUT_ITEM_LENGTH) (start + G2_INPUT_ITEM_LENGTH + SCALAR_LENGTH);
    scalar ← extract_scalar_input s;
    Ok (Some (blst_p2_from_affine p0_aff, scalar)).

(** [for i in 0..k]: the points and the scalars of [n] items from [i] on. *)
Fixpoint g2_msm_loop (input : bytes) (n : nat) (i : Z) (points : list blst_p2) (scalars : bytes)
  : Res (list blst_p2 * bytes) :=
  match n with
  | O => Ok (points, scalars)
  | S n =>
      item ← g2_msm_item input i;
      match item with
      | None => g2_msm_loop input n (i + 1) points scalars
      | Some (p, s) => g2_msm_loop input n (i + 1) (points ++ [p]) (scalars ++ s)
      end
  end.

Definition g2_msm (input : bytes) (gas_limit : Z) : PrecompileResult :=
  let input_len := len input in
  if (input_len =? 0) || negb (input_len mod g2_mul_INPUT_LENGTH =? 0) then
    Err (PE_Other ("G2MSM input length should be multiple of " ++ decimal g2_mul_INPUT_LENGTH ++
      ", was " ++ decimal input_len))
  else
    let k := input_len / g2_mul_INPUT_LENGTH in
    required_gas ← msm_required_gas k g2_mul_BASE_GAS_FEE;
    if gas_limit <? required_gas then Err PE_OutOfGas
    else
      '(points, scalars) ← g2_msm_loop input (Z.to_nat k) 0 [] [];
      match points with
      | [] => returns required_gas (zeroes 256)
      | _ =>
          let multiexp := blst_p2s_mult points scalars NBITS in
          returns required_gas (encode_g2_point (blst_p2_to_affine multiexp))
      end.

(** ** [pairing.rs] *)

Definition PAIRING_MULTIPLIER_BASE : Z := 43000.
Definition PAIRING_OFFSET_BASE : Z := 65000.
Definition pairing_INPUT_LENGTH : Z := 384.

Definition pairing_item (input : bytes) (i : Z) : Res blst_fp12 :=
  let start := i * pairing_INPUT_LENGTH in
  s ← slice input start (start + G1_INPUT_ITEM_LENGTH);
  p1_aff ← extract_g1_input s true;
  s ← slice input (start + G1_INPUT_ITEM_LENGTH) (start + G1_INPUT_ITEM_LENGTH + G2_INPUT_ITEM_LENGTH);
  p2_aff ← extract_g2_input s true;
  Ok (blst_miller_loop p2_aff p1_aff).

(** [for i in 0..k]: the first item starts the accumulator. *)
Fixpoint pairing_loop (input : bytes) (n : nat) (i : Z) (acc : blst_fp12) : Res blst_fp12 :=
  match n with
  | O => Ok acc
  | S n =>
      cur_ml ← pairing_item input i;
      pairing_loop input n (i + 1) (if 0 <? i then blst_fp12_mul acc cur_ml else cur_ml)
  end.

Definition pairing (input : bytes) (gas_limit : Z) : PrecompileResult :=
  let input_len := len input in
  if (input_len =? 0) || negb (input_len mod pairing_INPUT_LENGTH =? 0) then
    Err (PE_Other ("Pairing input length should be multiple of 384, was " ++ decimal input_len))
  else
    let k := input_len / pairing_INPUT_LENGTH in
    let required_gas := wrapping_add 64 (wrapping_mul 64 PAIRING_MULTIPLIER_BASE k) PAIRING_OFFSET_BASE in
    if gas_limit <? required_gas then Err PE_OutOfGas
    else
      acc ← pairing_loop input (Z.to_nat k) 0 blst_fp12_default;
      let ret := blst_final_exp acc in
      returns required_gas (to_be_bytes 32 (if blst_fp12_is_one ret then 1 else 0)).

(** ** [map_fp_to_g1.rs] and [map_fp2_to_g2.rs] *)

Definition MAP_FP_TO_G1_BASE : Z := 5500.

Definition map_fp_to_g1 (input : bytes) (gas_limit : Z) : PrecompileResult :=
  if gas_limit <? MAP_FP_TO_G1_BASE then Err PE_OutOfGas
  else if negb (len input =? PADDED_FP_LENGTH) then
    Err (PE_Other ("MAP_FP_TO_G1 input should be 64 bytes, was " ++ decimal (len input)))
  else
    input_p0 ← remove_padding input;
    fp ← fp_from_bendian input_p0;
    returns MAP_FP_TO_G1_BASE (encode_g1_point (blst_p1_to_affine (blst_map_to_g1 fp))).

Definition map_fp2_to_g2_BASE_GAS_FEE : Z := 75000.

Definition map_fp2_to_g2 (input : bytes) (gas_limit : Z) : PrecompileResult :=
  if gas_limit <? map_fp2_to_g2_BASE_GAS_FEE then Err PE_OutOfGas
  else if negb (len input =? PADDED_FP2_LENGTH) then
    Err (PE_Other ("MAP_FP2_TO_G2 input should be 128 bytes, was " ++ decimal (len input)))
  else
    s ← slice input 0 PADDED_FP_LENGTH; input_p0_x ← remove_padding s;
    s ← slice input PADDED_FP_LENGTH PADDED_FP2_LENGTH; input_p0_y ← remove_padding s;
    fp2 ← check_canonical_fp2 input_p0_x input_p0_y;
    returns map_fp2_to_g2_BASE_GAS_FEE (encode_g2_point (blst_p2_to_affine (blst_map_to_g2 fp2))).

(** ** [bls12_381.rs]: the precompiles and their addresses *)

Definition g1_add_ADDRESS : Z := 0x0b.
Definition g1_add_PRECOMPILE : PrecompileWithAddress :=
  mkPrecompileWithAddress (u64_to_address g1_add_ADDRESS) (Precompile_Standard g1_add).
Definition g1_mul_ADDRESS : Z := 0x0c.
Definition g1_mul_PRECOMPILE : PrecompileWithAddress :=
  mkPrecompileWithAddress (u64_to_address g1_mul_ADDRESS) (Precompile_Standard g1_mul).
Definition g1_msm_ADDRESS : Z := 0x0d.
Definition g1_msm_PRECOMPILE : PrecompileWithAddress :=
  mkPrecompileWithAddress (u64_to_address g1_msm_ADDRESS) (Precompile_Standard g1_msm).
Definition g2_add_ADDRESS : Z := 0x0e.
Definition g2_add_PRECOMPILE : PrecompileWithAddress :=
  mkPrecompileWithAddress (u64_to_address g2_add_ADDRESS) (Precompile_Standard g2_add).
Definition g2_mul_ADDRESS : Z := 0x0f.
Definition g2_mul_PRECOMPILE : PrecompileWithAddress :=
  mkPrecompileWithAddress (u64_to_address g2_mul_ADDRESS) (Precompile_Standard g2_mul).
Definition g2_msm_ADDRESS : Z := 0x10.
Definition g2_msm_PRECOMPILE : PrecompileWithAddress :=
  mkPrecompileWithAddress (u64_to_address g2_msm_ADDRESS) (Precompile_Standard g2_msm).
Definition pairing_ADDRESS : Z := 0x11.
Definition pairing_PRECOMPILE : PrecompileWithAddress :=
  mkPrecompileWithAddress (u64_to_address pairing_ADDRESS) (Precompile_Standard pairing).
Definition map_fp_to_g1_ADDRESS : Z := 0x12.
Definition map_fp_to_g1_PRECOMPILE : PrecompileWithAddress :=
  mkPrecompileWithAddress (u64_to_address map_fp_to_g1_ADDRESS) (Precompile_Standard map_fp_to_g1).
Definition map_fp2_to_g2_ADDRESS : Z := 0x13.
Definition map_fp2_to_g2_PRECOMPILE : PrecompileWithAddress :=
  mkPrecompileWithAddress (u64_to_address map_fp2_to_g2_ADDRESS) (Precompile_Standard map_fp2_to_g2).

Definition bls12_381_precompiles : list PrecompileWithAddress :=
  [g1_add_PRECOMPILE; g1_mul_PRECOMPILE; g1_msm_PRECOMPILE;
   g2_add_PRECOMPILE; g2_mul_PRECOMPILE; g2_msm_PRECOMPILE;
   pairing_PRECOMPILE; map_fp_to_g1_PRECOMPILE; map_fp2_to_g2_PRECOMPILE].
End bls12_381.

(** ** What the code relies on *)

(** The modulus of the field. *)
Definition field_modulus : Z := from_be_bytes MODULUS_REPR.

(** The crate writes a field element as its number below the modulus, and reads
    it back. *)
Class BlstOk `{Blst} : Prop := {
  fp_written x : len (blst_bendian_from_fp x) = 48 /\ Forall is_byte (blst_bendian_from_fp x) /\
    from_be_bytes (blst_bendian_from_fp x) < field_modulus;
  fp_written_read x : blst_fp_from_bendian (blst_bendian_from_fp x) = x;
  fp_read_written b : len b = 48 -> Forall is_byte b -> from_be_bytes b < field_modulus ->
    blst_bendian_from_fp (blst_fp_from_bendian b) = b;
}.

(** ** Field elements *)

(** The comparison byte by byte is the one of the numbers. *)
Lemma is_valid_be_against_spec input modulus :
  len input = len modulus -> Forall is_byte input -> Forall is_byte modulus ->
  is_valid_be_against input modulus = true <-> from_be_bytes input < from_be_bytes modulus.
Proof.
  revert modulus. induction input as [|i input IH]; intros [|m modulus] Hl Hi Hm; [done|discriminate Hl..|].
  apply Forall_cons in Hi as [Hi Hil], Hm as [Hm Hml].
  assert (Hll : len input = len modulus) by (rewrite !len_cons in Hl; lia).
  cbn [is_valid_be_against]. rewrite !from_be_bytes_cons, Hll.
  pose proof (from_be_bytes_bound input Hil) as Hbi. pose proof (from_be_bytes_bound modulus Hml) as Hbm.
  rewrite Hll in Hbi. specialize (IH modulus Hll Hil Hml). set (B := 256 ^ len modulus) in *.
  destruct (Z.ltb_spec m i); [split; [done|nia]|]. destruct (Z.ltb_spec i m); [split; [nia|done]|].
  assert (i = m) as -> by lia. rewrite IH. lia.
Qed.

Lemma is_valid_be_spec b :
  len b = 48 -> Forall is_byte b -> is_valid_be b = true <-> from_be_bytes b < field_modulus.
Proof. intros Hl Hb. apply is_valid_be_against_spec; [done..|]. repeat constructor; done. Qed.

Lemma all_zeroes l : forallb (Z.eqb 0) l = true -> l = zeroes (len l).
Proof.
  intros Hl. unfold zeroes, len. rewrite Nat2Z.id. induction l as [|z l IH]; [done|].
  apply andb_true_iff in Hl as [Hz%Z.eqb_eq Hl]. simpl. by rewrite <- IH, Hz.
Qed.

Section canonical.
Context `{HB : Blst} `{HO : !BlstOk}.

(** The padded bytes of a field element. *)
Definition padded_fp (x : blst_fp) : bytes := zeroes PADDING_LENGTH ++ blst_bendian_from_fp x.

Lemma len_padded_fp x : len (padded_fp x) = 64.
Proof. unfold padded_fp. rewrite len_app, len_zeroes by done. by destruct (fp_written x) as [-> _]. Qed.

Lemma padded_fp_bytes x : Forall is_byte (padded_fp x).
Proof. apply Forall_app. split; [apply zeroes_bytes|apply fp_written]. Qed.

Lemma remove_padding_padded x : remove_padding (padded_fp x) = Ok (blst_bendian_from_fp x).
Proof.
  unfold remove_padding. rewrite len_padded_fp. cbn [Z.eqb negb PADDED_FP_LENGTH Pos.eqb].
  unfold padded_fp. change (Z.to_nat PADDING_LENGTH) with (length (zeroes PADDING_LENGTH)).
  by rewrite take_app_length, drop_app_length.
Qed.

Lemma fp_from_bendian_written x : fp_from_bendian (blst_bendian_from_fp x) = Ok x.
Proof.
  destruct (fp_written x) as (Hl & Hb & Hv). unfold fp_from_bendian.
  apply is_valid_be_spec in Hv; [|done..]. rewrite Hv. cbn [negb]. by rewrite fp_written_read.
Qed.

(** What is read as a field element is the padded bytes of that element. *)
Lemma read_padded_inv s b x :
  Forall is_byte s -> remove_padding s = Ok b -> fp_from_bendian b = Ok x -> s = padded_fp x.
Proof.
  intros Hs Hr Hx. unfold remove_padding in Hr. destruct (Z.eqb_spec (len s) PADDED_FP_LENGTH) as [Hl|]; [|done].
  cbn [negb] in Hr. destruct (forallb _ _) eqn:Hz; [|done]. injection Hr as Hb. unfold fp_from_bendian in Hx.
  assert (Hlb : len b = 48) by (rewrite <- Hb, len_drop; rewrite Hl; done).
  assert (Hbb : Forall is_byte b) by (rewrite <- Hb; by apply Forall_drop).
  destruct (is_valid_be b) eqn:Hv; [|done]. injection Hx as <-. apply is_valid_be_spec in Hv; [|done..].
  unfold padded_fp. rewrite fp_read_written, <- Hb by done.
  rewrite <- (take_drop (Z.to_nat PADDING_LENGTH) s) at 1. f_equal.
  apply all_zeroes in Hz. rewrite Hz, len_take by (rewrite Hl; done). done.
Qed.

Lemma remove_padding_safe s : safely (remove_padding s) (fun _ => True).
Proof. unfold remove_padding. destruct (negb _); [done|]. by destruct (negb _). Qed.
Lemma fp_from_bendian_safe s : safely (fp_from_bendian s) (fun _ => True).
Proof. unfold fp_from_bendian. by destruct (negb _). Qed.

(** ** Points *)

Lemma encode_g1_point_eq p : encode_g1_point p = padded_fp p.1 ++ padded_fp p.2.
Proof. done. Qed.
Lemma encode_g2_point_eq p :
  encode_g2_point p = padded_fp p.1.1 ++ padded_fp p.1.2 ++ padded_fp p.2.1 ++ padded_fp p.2.2.
Proof. done. Qed.

Lemma encode_g1_point_bytes p : Forall is_byte (encode_g1_point p) /\ len (encode_g1_point p) = 128.
Proof.
  rewrite encode_g1_point_eq, len_app, !len_padded_fp. split; [|done].
  apply Forall_app. split; apply padded_fp_bytes.
Qed.
Lemma encode_g2_point_bytes p : Forall is_byte (encode_g2_point p) /\ len (encode_g2_point p) = 256.
Proof.
  rewrite encode_g2_point_eq, !len_app, !len_padded_fp. split; [|done].
  rewrite !Forall_app. split_and!; apply padded_fp_bytes.
Qed.

(** The check of a point: in the subgroup, or on the curve. *)
Definition g1_check (subgroup_check : bool) (p : blst_p1_affine) : bool :=
  if subgroup_check then blst_p1_affine_in_g1 p else blst_p1_affine_on_curve p.
Definition g2_check (subgroup_check : bool) (p : blst_p2_affine) : bool :=
  if subgroup_check then blst_p2_affine_in_g2 p else blst_p2_affine_on_curve p.

Lemma decode_g1_inv x y p :
  decode_and_check_g1 x y = Ok p -> fp_from_bendian x = Ok p.1 /\ fp_from_bendian y = Ok p.2.
Proof. unfold decode_and_check_g1. intros Hp. inv_bind Hp. by injection Hp as <-. Qed.

Lemma decode_g2_inv a b c d p :
  decode_and_check_g2 a b c d = Ok p ->
  fp_from_bendian a = Ok p.1.1 /\ fp_from_bendian b = Ok p.1.2 /\
  fp_from_bendian c = Ok p.2.1 /\ fp_from_bendian d = Ok p.2.2.
Proof.
  unfold decode_and_check_g2, check_canonical_fp2. intros Hp. inv_bind Hp. inv_bind Hx. inv_bind Hx0.
  by simplify_eq.
Qed.

(** The bytes of a point: the decoder accepts the canonical encoding of a point
    that passes the check, and nothing else. *)
Lemma extract_g1_spec b c p :
  Forall is_byte b -> extract_g1_input b c = Ok p <-> b = encode_g1_point p /\ g1_check c p = true.
Proof.
  intros Hb. unfold extract_g1_input. split.
  - destruct (Z.eqb_spec (len b) G1_INPUT_ITEM_LENGTH) as [Hl|]; [|done]. cbn [negb]. intros Hx. inv_bind Hx.
    apply decode_g1_inv in Hx4 as [Hpx Hpy]. rewrite encode_g1_point_eq.
    assert (x3 = p /\ g1_check c p = true) as [-> Hc].
    { unfold g1_check. destruct c; [destruct (blst_p1_affine_in_g1 x3) eqn:?|destruct (blst_p1_affine_on_curve x3) eqn:?];
        simpl in Hx; simplify_eq; done. }
    split; [|done]. rewrite <- (read_padded_inv x x0 p.1), <- (read_padded_inv x1 x2 p.2); eauto using slice_bytes.
    eapply slice_whole; [by eapply slice_join|done].
  - intros [-> Hc]. destruct (encode_g1_point_bytes p) as [_ ->]. rewrite encode_g1_point_eq.
    cbn [Z.eqb negb G1_INPUT_ITEM_LENGTH Pos.eqb].
    rewrite slice_head by apply len_padded_fp. cbn [mbind outcome_bind].
    rewrite remove_padding_padded. cbn [mbind outcome_bind].
    rewrite <- (app_nil_r (padded_fp p.2)), slice_app by apply len_padded_fp. cbn [mbind outcome_bind].
    rewrite remove_padding_padded. cbn [mbind outcome_bind]. unfold decode_and_check_g1.
    rewrite !fp_from_bendian_written. cbn [mbind outcome_bind]. destruct p, c; simpl in *; by rewrite Hc.
Qed.

Lemma input_fp_inv b i s x :
  Forall is_byte b -> input_fp b i = Ok s -> fp_from_bendian s = Ok x ->
  slice (E := PrecompileError) b (i * PADDED_FP_LENGTH) ((i + 1) * PADDED_FP_LENGTH) = Ok (padded_fp x).
Proof.
  unfold input_fp. intros Hb Hs Hx. inv_bind Hs. rewrite Hx0. f_equal. eauto using read_padded_inv, slice_bytes.
Qed.

Lemma input_fp_eq pre x post i :
  len pre = i * 64 -> input_fp (pre ++ padded_fp x ++ post) i = Ok (blst_bendian_from_fp x).
Proof.
  intros Hl. unfold input_fp, PADDED_FP_LENGTH. rewrite slice_app by (rewrite ?len_padded_fp; lia).
  apply remove_padding_padded.
Qed.

Lemma extract_g2_spec b c p :
  Forall is_byte b -> extract_g2_input b c = Ok p <-> b = encode_g2_point p /\ g2_check c p = true.
Proof.
  intros Hb. unfold extract_g2_input. split.
  - destruct (Z.eqb_spec (len b) G2_INPUT_ITEM_LENGTH) as [Hl|]; [|done]. cbn [negb]. intros Hx. inv_bind Hx.
    apply decode_g2_inv in Hx4 as (H0 & H1 & H2 & H3). rewrite encode_g2_point_eq.
    assert (x3 = p /\ g2_check c p = true) as [-> Hc].
    { unfold g2_check. destruct c; [destruct (blst_p2_affine_in_g2 x3) eqn:?|destruct (blst_p2_affine_on_curve x3) eqn:?];
        simpl in Hx; simplify_eq; done. }
    split; [|done]. eapply slice_whole; [|exact (eq_sym Hl)].
    eapply slice_join; [by eapply (input_fp_inv b 0)|]. eapply slice_join; [by eapply (input_fp_inv b 1)|].
    eapply slice_join; [by eapply (input_fp_inv b 2)|by eapply (input_fp_inv b 3)].
  - intros [-> Hc]. destruct (encode_g2_point_bytes p) as [_ ->]. rewrite encode_g2_point_eq.
    cbn [Z.eqb negb G2_INPUT_ITEM_LENGTH Pos.eqb].
    set (a0 := padded_fp p.1.1). set (a1 := padded_fp p.1.2). set (a2 := padded_fp p.2.1). set (a3 := padded_fp p.2.2).
    replace (input_fp (a0 ++ a1 ++ a2 ++ a3) 0) with (Ok (E := PrecompileError) (blst_bendian_from_fp p.1.1))
      by (symmetry; by apply (input_fp_eq [])). cbn [mbind outcome_bind].
    rewrite (input_fp_eq a0 p.1.2 _ 1) by apply len_padded_fp. cbn [mbind outcome_bind].
    rewrite (app_assoc a0), (input_fp_eq (a0 ++ a1) p.2.1 _ 2) by (rewrite len_app; unfold a0, a1; by rewrite !len_padded_fp).
    cbn [mbind outcome_bind].
    rewrite (app_assoc (a0 ++ a1)), <- (app_nil_r a3), (input_fp_eq _ p.2.2 _ 3)
      by (rewrite !len_app; unfold a0, a1, a2; by rewrite !len_padded_fp).
    cbn [mbind outcome_bind]. unfold decode_and_check_g2, check_canonical_fp2.
    rewrite !fp_from_bendian_written. cbn [mbind outcome_bind]. destruct p as [[] []], c; simpl in *; by rewrite Hc.
Qed.

(** ** The precompiles behave *)

Lemma extract_g1_safe s c : Forall is_byte s -> safely (extract_g1_input s c) (fun _ => True).
Proof.
  intros Hs. unfold extract_g1_input. destruct (Z.eqb_spec (len s) G1_INPUT_ITEM_LENGTH) as [Hl|]; [|done].
  unfold PADDED_FP_LENGTH, G1_INPUT_ITEM_LENGTH in *. cbn [negb].
  do 2 (apply safely_slice; [lia..|done|]; intros ? _ _; eapply safely_bind; [apply remove_padding_safe|]; intros ? _ _).
  eapply (safely_bind _ _ (fun _ => True)).
  - unfold decode_and_check_g1. do 2 (eapply safely_bind; [apply fp_from_bendian_safe|]; intros ? _ _). done.
  - intros p _ _. destruct c; by case_match.
Qed.

Lemma check_canonical_fp2_safe a b : safely (check_canonical_fp2 a b) (fun _ => True).
Proof.
  unfold check_canonical_fp2. do 2 (eapply safely_bind; [apply fp_from_bendian_safe|]; intros ? _ _). done.
Qed.

Lemma extract_g2_safe s c : Forall is_byte s -> safely (extract_g2_input s c) (fun _ => True).
Proof.
  intros Hs. unfold extract_g2_input. destruct (Z.eqb_spec (len s) G2_INPUT_ITEM_LENGTH) as [Hl|]; [|done].
  unfold input_fp, PADDED_FP_LENGTH, G2_INPUT_ITEM_LENGTH in *. cbn [negb].
  do 4 (eapply (safely_bind _ _ (fun _ => True));
    [apply safely_slice; [lia..|done|]; intros; apply remove_padding_safe|]; intros ? _ _).
  eapply (safely_bind _ _ (fun _ => True)).
  - unfold decode_and_check_g2. do 2 (eapply safely_bind; [apply check_canonical_fp2_safe|]; intros ? _ _). done.
  - intros p _ _. destruct c; by case_match.
Qed.

Lemma extract_scalar_safe s : safely (extract_scalar_input s) (fun _ => True).
Proof. unfold extract_scalar_input. by destruct (negb _). Qed.

Lemma safely_encoded_g1 gas_limit gas p : 0 <= gas <= gas_limit -> safely (returns gas (encode_g1_point p)) (keeps_to gas_limit).
Proof. intros. apply safely_returns; [done|apply encode_g1_point_bytes]. Qed.
Lemma safely_encoded_g2 gas_limit gas p : 0 <= gas <= gas_limit -> safely (returns gas (encode_g2_point p)) (keeps_to gas_limit).
Proof. intros. apply safely_returns; [done|apply encode_g2_point_bytes]. Qed.

Lemma g1_add_well_behaved : well_behaved g1_add.
Proof.
  intros input g Hb Hg. apply safely_gas. intros Hc. destruct (Z.eqb_spec (len input) g1_add_INPUT_LENGTH); [|done].
  unfold g1_add_INPUT_LENGTH, G1_INPUT_ITEM_LENGTH in *. cbn [negb].
  apply safely_slice; [lia..|done|]. intros s _ Hs. eapply safely_bind; [by apply extract_g1_safe|]. intros a _ _.
  apply safely_slice_from; [lia|done|]. intros s' _ Hs'. eapply safely_bind; [by apply extract_g1_safe|]. intros b _ _.
  by apply safely_encoded_g1.
Qed.

Lemma g2_add_well_behaved : well_behaved g2_add.
Proof.
  intros input g Hb Hg. apply safely_gas. intros Hc. destruct (Z.eqb_spec (len input) g2_add_INPUT_LENGTH); [|done].
  unfold g2_add_INPUT_LENGTH, G2_INPUT_ITEM_LENGTH in *. cbn [negb].
  apply safely_slice; [lia..|done|]. intros s _ Hs. eapply safely_bind; [by apply extract_g2_safe|]. intros a _ _.
  apply safely_slice_from; [lia|done|]. intros s' _ Hs'. eapply safely_bind; [by apply extract_g2_safe|]. intros b _ _.
  by apply safely_encoded_g2.
Qed.

Lemma g1_mul_well_behaved : well_behaved g1_mul.
Proof.
  intros input g Hb Hg. apply safely_gas. intros Hc. destruct (Z.eqb_spec (len input) g1_mul_INPUT_LENGTH); [|done].
  unfold g1_mul_INPUT_LENGTH, G1_INPUT_ITEM_LENGTH in *. cbn [negb].
  apply safely_slice; [lia..|done|]. intros s _ Hs. eapply safely_bind; [by apply extract_g1_safe|]. intros a _ _.
  apply safely_slice_from; [lia|done|]. intros s' _ _. eapply safely_bind; [apply extract_scalar_safe|]. intros b _ _.
  by apply safely_encoded_g1.
Qed.

Lemma g2_mul_well_behaved : well_behaved g2_mul.
Proof.
  intros input g Hb Hg. apply safely_gas. intros Hc. destruct (Z.eqb_spec (len input) g2_mul_INPUT_LENGTH); [|done].
  unfold g2_mul_INPUT_LENGTH, G2_INPUT_ITEM_LENGTH in *. cbn [negb].
  apply safely_slice; [lia..|done|]. intros s _ Hs. eapply safely_bind; [by apply extract_g2_safe|]. intros a _ _.
  apply safely_slice_from; [lia|done|]. intros s' _ _. eapply safely_bind; [apply extract_scalar_safe|]. intros b _ _.
  by apply safely_encoded_g2.
Qed.

(** The gas of a multi-scalar multiplication. *)
Lemma msm_required_gas_safe k cost : 0 <= k -> safely (msm_required_gas k cost) (fun g => 0 <= g).
Proof.
  intros Hk. unfold msm_required_gas. destruct (Z.eqb_spec k 0); [done|].
  change (len MSM_DISCOUNT_TABLE) with 128. apply safely_index; [change (len MSM_DISCOUNT_TABLE) with 128; lia|].
  intros d. apply Z.div_pos; [|done]. apply Z.mod_pos_bound. done.
Qed.

Lemma g1_msm_loop_safe input n i ps ss :
  Forall is_byte input -> 0 <= i -> (i + Z.of_nat n) * g1_mul_INPUT_LENGTH <= len input ->
  safely (g1_msm_loop input n i ps ss) (fun _ => True).
Proof.
  intros Hb. revert i ps ss. induction n as [|n IH]; intros i ps ss Hi Hl; [done|]. cbn [g1_msm_loop].
  eapply (safely_bind _ _ (fun _ => True)).
  - unfold g1_msm_item, g1_mul_INPUT_LENGTH, G1_INPUT_ITEM_LENGTH, SCALAR_LENGTH in *. cbv zeta.
    apply safely_slice; [lia..|done|]. intros s _ Hs. destruct (forallb _ _); [done|].
    eapply safely_bind; [by apply extract_g1_safe|]. intros p _ _. apply safely_slice; [lia..|done|]. intros s' _ _.
    eapply safely_bind; [apply extract_scalar_safe|]. done.
  - intros [[p s]|] _ _; apply IH; lia.
Qed.

Lemma g2_msm_loop_safe input n i ps ss :
  Forall is_byte input -> 0 <= i -> (i + Z.of_nat n) * g2_mul_INPUT_LENGTH <= len input ->
  safely (g2_msm_loop input n i ps ss) (fun _ => True).
Proof.
  intros Hb. revert i ps ss. induction n as [|n IH]; intros i ps ss Hi Hl; [done|]. cbn [g2_msm_loop].
  eapply (safely_bind _ _ (fun _ => True)).
  - unfold g2_msm_item, g2_mul_INPUT_LENGTH, G2_INPUT_ITEM_LENGTH, SCALAR_LENGTH in *. cbv zeta.
    apply safely_slice; [lia..|done|]. intros s _ Hs. destruct (forallb _ _); [done|].
    eapply safely_bind; [by apply extract_g2_safe|]. intros p _ _. apply safely_slice; [lia..|done|]. intros s' _ _.
    eapply safely_bind; [apply extract_scalar_safe|]. done.
  - intros [[p s]|] _ _; apply IH; lia.
Qed.

(** A loop over the items of an input stays within it. *)
Lemma items_fit (n d : Z) : 0 <= n -> 0 < d -> (0 + Z.of_nat (Z.to_nat (n / d))) * d <= n.
Proof.
  intros Hn Hd. rewrite Z2Nat.id by (apply Z.div_pos; lia). pose proof (Z.mul_div_le n d Hd). lia.
Qed.

Lemma g1_msm_well_behaved : well_behaved g1_msm.
Proof.
  intros input g Hb Hg. unfold g1_msm. cbv zeta. destruct (_ || _); [done|].
  eapply safely_bind; [apply msm_required_gas_safe, Z.div_pos; [apply len_nonneg|done]|].
  intros gas _ Hgas. apply safely_gas. intros Hc.
  eapply safely_bind; [apply g1_msm_loop_safe; [done|done|by apply items_fit; [apply len_nonneg|]]|].
  intros [[|p ps] ss] _ _; [apply safely_returns; [done|apply zeroes_bytes]|by apply safely_encoded_g1].
Qed.

Lemma g2_msm_well_behaved : well_behaved g2_msm.
Proof.
  intros input g Hb Hg. unfold g2_msm. cbv zeta. destruct (_ || _); [done|].
  eapply safely_bind; [apply msm_required_gas_safe, Z.div_pos; [apply len_nonneg|done]|].
  intros gas _ Hgas. apply safely_gas. intros Hc.
  eapply safely_bind; [apply g2_msm_loop_safe; [done|done|by apply items_fit; [apply len_nonneg|]]|].
  intros [[|p ps] ss] _ _; [apply safely_returns; [done|apply zeroes_bytes]|by apply safely_encoded_g2].
Qed.

Lemma pairing_loop_safe input n i acc :
  Forall is_byte input -> 0 <= i -> (i + Z.of_nat n) * pairing_INPUT_LENGTH <= len input ->
  safely (pairing_loop input n i acc) (fun _ => True).
Proof.
  intros Hb. revert i acc. induction n as [|n IH]; intros i acc Hi Hl; [done|]. cbn [pairing_loop].
  eapply (safely_bind _ _ (fun _ => True)).
  - unfold pairing_item, pairing_INPUT_LENGTH, G1_INPUT_ITEM_LENGTH, G2_INPUT_ITEM_LENGTH in *. cbv zeta.
    apply safely_slice; [lia..|done|]. intros s _ Hs. eapply safely_bind; [by apply extract_g1_safe|]. intros p _ _.
    apply safely_slice; [lia..|done|]. intros s' _ Hs'. eapply safely_bind; [by apply extract_g2_safe|]. done.
  - intros x _ _. apply IH; lia.
Qed.

Lemma pairing_well_behaved : well_behaved pairing.
Proof.
  intros input g Hb Hg. unfold pairing. cbv zeta. destruct (_ || _); [done|]. apply safely_gas. intros Hc.
  eapply safely_bind; [apply pairing_loop_safe; [done|done|by apply items_fit; [apply len_nonneg|]]|].
  intros acc _ _. apply safely_returns; [|apply to_be_bytes_is_byte]. split; [by apply fits_wrapping_add|done].
Qed.

Lemma map_fp_to_g1_well_behaved : well_behaved map_fp_to_g1.
Proof.
  intros input g Hb Hg. apply safely_gas. intros Hc. destruct (negb _); [done|].
  eapply safely_bind; [apply remove_padding_safe|]. intros x _ _.
  eapply safely_bind; [apply fp_from_bendian_safe|]. intros fp _ _. by apply safely_encoded_g1.
Qed.

Lemma map_fp2_to_g2_well_behaved : well_behaved map_fp2_to_g2.
Proof.
  intros input g Hb Hg. apply safely_gas. intros Hc. destruct (Z.eqb_spec (len input) PADDED_FP2_LENGTH); [|done].
  unfold PADDED_FP2_LENGTH, PADDED_FP_LENGTH in *. cbn [negb].
  do 2 (apply safely_slice; [lia..|done|]; intros ? _ _; eapply safely_bind; [apply remove_padding_safe|]; intros ? _ _).
  eapply safely_bind; [apply check_canonical_fp2_safe|]. intros fp2 _ _. by apply safely_encoded_g2.
Qed.
End canonical.

(** C39: The encoding of a point is unique: the decoder of EIP-2537 accepts exactly the
    canonical bytes of the points that pass the check asked for, in the subgroup
    or on the curve, and returns that point; for G1 and for G2. *)
Theorem bls_points_have_one_encoding `{HB : Blst} `{HO : !BlstOk} b c :
  Forall is_byte b ->
  (forall p, extract_g1_input b c = Ok p <-> b = encode_g1_point p /\ g1_check c p = true) /\
  (forall p, extract_g2_input b c = Ok p <-> b = encode_g2_point p /\ g2_check c p = true).
Proof. intros Hb. split; intros p; [by apply extract_g1_spec|by apply extract_g2_spec]. Qed.

(** ** Witness: numbers below the modulus, and the curve [y^2 = x^3 + 4] *)

Definition sample_fp : Type := dsig (fun z => 0 <= z < field_modulus).
Definition sample_fp_of (z : Z) : sample_fp :=
  dexist (z mod field_modulus) (Z.mod_pos_bound z field_modulus eq_refl).
Definition sample_on_curve (p : sample_fp * sample_fp) : bool :=
  (`p.2 * `p.2 - `p.1 * `p.1 * `p.1 - 4) mod field_modulus =? 0.

Definition sample_blst : Blst := {|
  blst_fp := sample_fp; blst_p1 := sample_fp * sample_fp; blst_p2 := unit; blst_fp12 := unit;
  blst_fp_from_bendian b := sample_fp_of (from_be_bytes b);
  blst_bendian_from_fp x := to_be_bytes 48 (`x);
  blst_scalar_from_bendian := reverse;
  blst_p1_affine_on_curve := sample_on_curve;
  blst_p1_affine_in_g1 := sample_on_curve;
  blst_p1_from_affine p := p;
  blst_p1_to_affine p := p;
  blst_p1_add_or_double_affine p _ := p;
  blst_p1_mult p _ _ := p;
  blst_p1s_mult _ _ _ := (sample_fp_of 0, sample_fp_of 2);
  blst_map_to_g1 _ := (sample_fp_of 0, sample_fp_of 2);
  blst_p2_affine_on_curve _ := true;
  blst_p2_affine_in_g2 _ := true;
  blst_p2_from_affine _ := tt;
  blst_p2_to_affine _ := ((sample_fp_of 0, sample_fp_of 0), (sample_fp_of 0, sample_fp_of 0));
  blst_p2_add_or_double_affine _ _ := tt;
  blst_p2_mult _ _ _ := tt;
  blst_p2s_mult _ _ _ := tt;
  blst_map_to_g2 _ := tt;
  blst_fp12_default := tt;
  blst_miller_loop _ _ := tt;
  blst_fp12_mul _ _ := tt;
  blst_final_exp _ := tt;
  blst_fp12_is_one _ := true;
|}.

Lemma sample_blst_ok : @BlstOk sample_blst.
Proof.
  assert (Hw : forall x : sample_fp, from_be_bytes (to_be_bytes 48 (`x)) = `x).
  { intros x. apply from_to_be_bytes_id. destruct (proj2_dsig x) as [H0 H1]. split; [exact H0|].
    eapply Z.lt_trans; [exact H1|]. reflexivity. }
  unfold sample_blst. split; cbn [blst_fp_from_bendian blst_bendian_from_fp blst_fp].
  - intros x. rewrite len_to_be_bytes, Hw. split_and!; [done|apply to_be_bytes_is_byte|].
    by apply (proj2_dsig x).
  - intros x. rewrite Hw. apply dsig_eq. apply Z.mod_small, (proj2_dsig x).
  - intros b Hl Hb Hv. assert (0 <= from_be_bytes b) by by apply from_be_bytes_bound.
    transitivity (to_be_bytes 48 (from_be_bytes b)).
    { change (to_be_bytes 48 (from_be_bytes b mod field_modulus) = to_be_bytes 48 (from_be_bytes b)).
      f_equal. by apply Z.mod_small. }
    replace 48%nat with (length b) by (unfold len in Hl; lia). by apply to_from_be_bytes.
Qed.

(** The generator of G1. *)
Definition generator_x : Z :=
  0x17f1d3a73197d7942695638c4fa9ac0fc3688c4f9774b905a14e3a3f171bac586c55e83ff97a1aeffb3af00adb22c6bb.
Definition generator_y : Z :=
  0x08b3f481e3aaa0f1a09e30ed741d8ae4fcf5e095d5d00af600db18cb2c04b3edd03cc744a2888ae40caa232946c5e7e1.
Definition generator_bytes : bytes :=
  zeroes 16 ++ to_be_bytes 48 generator_x ++ zeroes 16 ++ to_be_bytes 48 generator_y.

#[local] Existing Instances sample_blst sample_blst_ok.

Lemma bls_points_have_one_encoding_witness :
  extract_g1_input generator_bytes true = Ok (sample_fp_of generator_x, sample_fp_of generator_y).
Proof.
  assert (Hb : Forall is_byte generator_bytes) by (vm_compute; repeat constructor; discriminate).
  destruct (bls_points_have_one_encoding generator_bytes true Hb) as [Hg1 _].
  apply (Hg1 (sample_fp_of generator_x, sample_fp_of generator_y)).
  split; vm_compute; reflexivity.
Defined.
