(* ===== verification/PrecompileSets.v ===== *)
(** The precompiles of a hard fork: [crates/precompile/src/lib.rs], and their place
    in the context of the EVM,
    [crates/revm/src/context/context_precompiles.rs].

    [fork_precompiles_behave] is what every precompile of every fork promises to
    the EVM, [fork_addresses] where they are, and [transact_terminates] puts them
    under the loop over the call stack. *)

From S2P Require Import Prelude Bytes Eof Bytecode State CallInputs Env.
From S2P Require Import Precompile Blake2 Modexp Curves Bls12.
From S2P Require Import Specification Result Database Journal JournalRun InMemoryDb NativeTokens NativeTokensRewind.
From S2P Require Import Context.
From S2P Require Import ContextSteps Frames HostInstructions Handler Evm JournalSpec Fees InterpreterLoop.
From S2P Require Import EvmFrames EvmLoop.

(** The optional precompiles of the crate: on in a default build. *)
Record Features : Type := mkFeatures { c_kzg : bool; blst : bool }.
Definition Features_default : Features := mkFeatures true true.

(** The crates behind the precompiles. *)
Class Crypto : Type := {
  crypto_hashes :: Hashes;
  crypto_ecrecover :: Ecrecover;
  crypto_bn :: Bn;
  crypto_modexp :: ModexpLib;
  crypto_kzg :: Kzg;
  crypto_blst :: Blst;
}.

Class CryptoOk `{Crypto} : Prop := {
  crypto_hashes_ok :: HashesOk;
  crypto_ecrecover_ok :: EcrecoverOk;
  crypto_bn_ok :: BnOk;
  crypto_modexp_ok :: ModexpLibOk;
  crypto_blst_ok :: BlstOk;
}.

(** ** [Precompiles] *)

Abbreviation Precompiles := (gmap Address Precompile).

Definition extend (inner : Precompiles) (other : list PrecompileWithAddress) : Precompiles :=
  foldl (fun m p => <[pwa_address p := pwa_precompile p]> m) inner other.

Inductive PrecompileSpecId : Type :=
  | PS_HOMESTEAD | PS_BYZANTIUM | PS_ISTANBUL | PS_BERLIN | PS_CANCUN | PS_PRAGUE | PS_LATEST.

#[export] Instance PrecompileSpecId_eq_dec : EqDecision PrecompileSpecId.
Proof. solve_decision. Defined.

Definition from_spec_id (spec_id : SpecId) : PrecompileSpecId :=
  match spec_id with
  | FRONTIER | FRONTIER_THAWING | HOMESTEAD | DAO_FORK | TANGERINE | SPURIOUS_DRAGON => PS_HOMESTEAD
  | BYZANTIUM | CONSTANTINOPLE | PETERSBURG => PS_BYZANTIUM
  | ISTANBUL | MUIR_GLACIER => PS_ISTANBUL
  | BERLIN | LONDON | ARROW_GLACIER | GRAY_GLACIER | MERGE | SHANGHAI => PS_BERLIN
  | CANCUN => PS_CANCUN
  | PRAGUE => PS_PRAGUE
  | LATEST => PS_LATEST
  end.

Section sets.
Context `{Crypto} (features : Features).

Definition homestead : Precompiles := extend ∅ [ECRECOVER; SHA256; RIPEMD160; identity_FUN].
Definition byzantium : Precompiles :=
  extend homestead [add_BYZANTIUM; mul_BYZANTIUM; pair_BYZANTIUM; Modexp.BYZANTIUM].
Definition istanbul : Precompiles :=
  extend byzantium [Blake2.FUN; add_ISTANBUL; mul_ISTANBUL; pair_ISTANBUL].
Definition berlin : Precompiles := extend istanbul [Modexp.BERLIN].
Definition cancun : Precompiles :=
  if c_kzg features then extend berlin [POINT_EVALUATION] else berlin.
Definition prague : Precompiles :=
  if blst features then extend cancun bls12_381_precompiles else cancun.
Definition latest : Precompiles := prague.

Definition Precompiles_new (spec : PrecompileSpecId) : Precompiles :=
  match spec with
  | PS_HOMESTEAD => homestead
  | PS_BYZANTIUM => byzantium
  | PS_ISTANBUL => istanbul
  | PS_BERLIN => berlin
  | PS_CANCUN => cancun
  | PS_PRAGUE => prague
  | PS_LATEST => latest
  end.

(** [addresses], [contains], [get], [is_empty] and [len]. *)
Definition addresses (p : Precompiles) : gset Address := dom p.
Definition contains (p : Precompiles) (address : Address) : bool := bool_decide (is_Some (p !! address)).
Definition get (p : Precompiles) (address : Address) : option Precompile := p !! address.
Definition number (p : Precompiles) : Z := Z.of_nat (size p).
Definition is_empty (p : Precompiles) : bool := number p =? 0.

(** ** In the context: [From<Precompiles> for ContextPrecompiles] *)

Definition ContextPrecompiles_from {DB DbErr} `{Database DB DbErr} (p : Precompiles) : ContextPrecompiles (DB := DB) :=
  (fun v => CP_Ordinary (Precompile_call v)) <$> p.

(** The vanilla precompiles of [load_precompiles]. *)
Definition fork_precompiles {DB DbErr} `{Database DB DbErr} (spec : SpecId) : ContextPrecompiles (DB := DB) :=
  ContextPrecompiles_from (Precompiles_new (from_spec_id spec)).
End sets.

(** ** Sets *)

Lemma extend_forall (P : Precompile -> Prop) m l :
  map_Forall (fun _ => P) m -> Forall (fun x => P (pwa_precompile x)) l -> map_Forall (fun _ => P) (extend m l).
Proof.
  intros Hm Hl. revert m Hm. induction Hl as [|x l Hx Hl IH]; intros m Hm; [done|]. apply IH.
  by apply map_Forall_insert_2.
Qed.

Lemma extend_lookup m l a :
  is_Some (extend m l !! a) <-> is_Some (m !! a) \/ a ∈ map pwa_address l.
Proof.
  revert m. induction l as [|x l IH]; intros m; [set_solver|].
  change (extend m (x :: l)) with (extend (<[pwa_address x := pwa_precompile x]> m) l). rewrite IH. cbn [map].
  rewrite elem_of_cons. destruct (decide (a = pwa_address x)) as [->|].
  - rewrite lookup_insert_eq. naive_solver.
  - rewrite lookup_insert_ne by done. naive_solver.
Qed.

(** What every precompile of the crate promises. *)
Definition behaves (p : Precompile) : Prop :=
  forall input gas_limit env, Forall is_byte input -> 0 <= gas_limit < 2 ^ 54 ->
  safely (Precompile_call p input gas_limit env) (keeps_to gas_limit).

Lemma behaves_standard f : well_behaved f -> behaves (Precompile_Standard f).
Proof. intros Hf input g env Hb Hg. apply Hf; [done|]. unfold fits. lia. Qed.

Create HintDb precompiles.
#[export] Hint Resolve identity_well_behaved sha256_well_behaved ripemd160_well_behaved ec_recover_well_behaved
  blake2_well_behaved run_pair_well_behaved
  g1_add_well_behaved g1_mul_well_behaved g1_msm_well_behaved g2_add_well_behaved g2_mul_well_behaved
  g2_msm_well_behaved pairing_well_behaved map_fp_to_g1_well_behaved map_fp2_to_g2_well_behaved : precompiles.
#[export] Hint Extern 1 (well_behaved (fun i g => run_add i _ g)) =>
  by apply run_add_well_behaved : precompiles.
#[export] Hint Extern 1 (well_behaved (fun i g => run_mul i _ g)) =>
  by apply run_mul_well_behaved : precompiles.

Ltac by_standard := apply behaves_standard; solve [eauto with precompiles typeclass_instances].

Section sets_lemmas.
Context `{HC : Crypto} `{HO : !CryptoOk} (features : Features).

Lemma precompiles_behave spec : map_Forall (fun _ => behaves) (Precompiles_new features spec).
Proof.
  assert (Hh : map_Forall (fun _ => behaves) homestead).
  { apply extend_forall; [apply map_Forall_empty|]. repeat constructor; by_standard. }
  assert (Hy : map_Forall (fun _ => behaves) byzantium).
  { apply extend_forall; [done|]. repeat constructor; simpl.
    1-3: by_standard. intros input g env Hb Hg. apply modexp_well_behaved; [done|lia]. }
  assert (Hi : map_Forall (fun _ => behaves) istanbul).
  { apply extend_forall; [done|]. repeat constructor; by_standard. }
  assert (Hr : map_Forall (fun _ => behaves) berlin).
  { apply extend_forall; [done|]. repeat constructor. intros input g env Hb Hg. apply modexp_well_behaved; [done|lia]. }
  assert (Hc : map_Forall (fun _ => behaves) (cancun features)).
  { unfold cancun. destruct (c_kzg features); [|done]. apply extend_forall; [done|]. repeat constructor.
    intros input g env Hb Hg. apply kzg_well_behaved; [done|]. unfold fits. lia. }
  assert (Hp : map_Forall (fun _ => behaves) (prague features)).
  { unfold prague. destruct (blst features); [|done]. apply extend_forall; [done|]. repeat constructor; by_standard. }
  by destruct spec.
Qed.
End sets_lemmas.

(** ** Where they are *)

(** The addresses of a fork. *)
Definition fork_address (features : Features) (spec : SpecId) (a : Address) : Prop :=
  1 <= a <= 4 \/ enabled spec BYZANTIUM = true /\ 5 <= a <= 8 \/ enabled spec ISTANBUL = true /\ a = 9 \/
  c_kzg features = true /\ enabled spec CANCUN = true /\ a = 10 \/
  blst features = true /\ enabled spec PRAGUE = true /\ 11 <= a <= 19.

Section address_lemmas.
Context `{HC : Crypto} (features : Features).

Lemma extend_addresses m l n k a :
  map pwa_address l = seqZ n k -> is_Some (extend m l !! a) <-> is_Some (m !! a) \/ n <= a < n + k.
Proof. intros Hl. by rewrite extend_lookup, Hl, elem_of_seqZ. Qed.

Lemma homestead_addresses a : is_Some (homestead !! a) <-> 1 <= a <= 4.
Proof. unfold homestead. rewrite (extend_addresses _ _ 1 4) by done. rewrite lookup_empty, is_Some_alt. lia. Qed.
Lemma byzantium_addresses a : is_Some (byzantium !! a) <-> 1 <= a <= 8.
Proof.
  unfold byzantium. rewrite extend_lookup, homestead_addresses.
  change (map _ _) with [6; 7; 8; 5]. set_unfold. lia.
Qed.
Lemma istanbul_addresses a : is_Some (istanbul !! a) <-> 1 <= a <= 9.
Proof.
  unfold istanbul. rewrite extend_lookup, byzantium_addresses.
  change (map _ _) with [9; 6; 7; 8]. set_unfold. lia.
Qed.
Lemma berlin_addresses a : is_Some (berlin !! a) <-> 1 <= a <= 9.
Proof. unfold berlin. rewrite (extend_addresses _ _ 5 1) by done. rewrite istanbul_addresses. lia. Qed.
Lemma cancun_addresses a :
  is_Some (cancun features !! a) <-> 1 <= a <= 9 \/ c_kzg features = true /\ a = 10.
Proof.
  unfold cancun. destruct (c_kzg features).
  - rewrite (extend_addresses _ _ 10 1) by done. rewrite berlin_addresses. lia.
  - rewrite berlin_addresses. naive_solver.
Qed.
Lemma prague_addresses a :
  is_Some (prague features !! a) <->
  1 <= a <= 9 \/ c_kzg features = true /\ a = 10 \/ blst features = true /\ 11 <= a <= 19.
Proof.
  unfold prague. destruct (blst features).
  - rewrite (extend_addresses _ _ 11 9) by done. rewrite cancun_addresses. naive_solver lia.
  - rewrite cancun_addresses. naive_solver.
Qed.

Lemma fork_addresses_spec spec a :
  is_Some (Precompiles_new features (from_spec_id spec) !! a) <-> fork_address features spec a.
Proof.
  unfold fork_address. destruct spec; cbn [from_spec_id Precompiles_new];
    rewrite ?homestead_addresses, ?byzantium_addresses, ?istanbul_addresses, ?berlin_addresses, ?cancun_addresses, ?prague_addresses;
    cbn; naive_solver lia.
Qed.
End address_lemmas.

(** ** In the EVM *)

(** A result that charges no negative gas, and not a call. *)
Definition plain_result (r : ResultOrNewCall) : Prop :=
  match r with RNC_Result info => 0 <= gas_used info | RNC_Call _ => False end.

(** Whatever the input and the limit, an answer is a plain result. *)
Definition charges_gas (p : Precompile) : Prop :=
  forall input gas_limit env r, Precompile_call p input gas_limit env = Ok r -> plain_result r.

Definition never_negative (m : PrecompileResult) : Prop := forall r, m = Ok r -> plain_result r.

Lemma never_negative_returns gas out : 0 <= gas -> never_negative (returns gas out).
Proof. intros Hg r [= <-]. done. Qed.
Lemma never_negative_err e : never_negative (Err e).
Proof. done. Qed.
Lemma never_negative_panic : never_negative Panic.
Proof. done. Qed.
Lemma never_negative_bind {A} (m : outcome PrecompileError A) k :
  (forall a, m = Ok a -> never_negative (k a)) -> never_negative (m ≫= k).
Proof. intros Hk r. destruct m; [by apply Hk|done..]. Qed.

Ltac solve_gas :=
  repeat first
    [ apply never_negative_err | apply never_negative_panic
    | apply never_negative_bind; intros ? ?
    | apply never_negative_returns; first [done | apply linear_cost_nonneg | by apply fits_wrapping_add | by apply Z.mod_pos_bound]
    | progress case_match ].

Section gas.
Context `{HC : Crypto} (features : Features).

Lemma modexp_charges min_gas calc input g :
  0 <= min_gas -> (forall b e m h, 0 <= calc b e m h) -> never_negative (run_inner input g min_gas calc).
Proof.
  intros Hmin Hcalc. unfold run_inner. cbv zeta. solve_gas.
  all: first [apply never_negative_returns; done || apply Hcalc].
Qed.

Lemma charges_standard f : (forall input g, never_negative (f input g)) -> charges_gas (Precompile_Standard f).
Proof. intros Hf input g env r. apply Hf. Qed.

Lemma byzantium_gas_nonneg b e m h : 0 <= byzantium_gas_calc b e m h.
Proof.
  unfold byzantium_gas_calc, saturating_to, U64_MAX. apply Z.min_glb; [|done].
  apply Z.div_pos; [|done]. by apply Z.mod_pos_bound.
Qed.
Lemma berlin_gas_nonneg b e m h : 0 <= berlin_gas_calc b e m h.
Proof. unfold berlin_gas_calc. lia. Qed.

Lemma msm_charges k cost gas : msm_required_gas k cost = Ok gas -> 0 <= gas.
Proof.
  unfold msm_required_gas. case_match; [by intros [= <-]|]. intros Hg. inv_bind Hg. injection Hg as <-.
  apply Z.div_pos; [|done]. by apply Z.mod_pos_bound.
Qed.
#[local] Hint Resolve msm_charges byzantium_gas_nonneg berlin_gas_nonneg : gas.

#[local] Hint Unfold ec_recover_run sha256_run ripemd160_run identity_run run_add run_mul run_pair
  Blake2.run g1_add g1_mul g1_msm g2_add g2_mul g2_msm pairing map_fp_to_g1 map_fp2_to_g2 : gas.

Ltac by_charges :=
  apply charges_standard; intros input g; cbv zeta; autounfold with gas; cbv zeta; solve_gas;
  apply never_negative_returns; eauto with gas.

Lemma precompiles_charge spec : map_Forall (fun _ => charges_gas) (Precompiles_new features spec).
Proof.
  assert (Hh : map_Forall (fun _ => charges_gas) homestead).
  { apply extend_forall; [apply map_Forall_empty|]. repeat constructor; by_charges. }
  assert (Hy : map_Forall (fun _ => charges_gas) byzantium).
  { apply extend_forall; [done|]. repeat constructor; [by_charges..|].
    apply charges_standard. intros input g. by apply modexp_charges, byzantium_gas_nonneg. }
  assert (Hi : map_Forall (fun _ => charges_gas) istanbul).
  { apply extend_forall; [done|]. repeat constructor; by_charges. }
  assert (Hr : map_Forall (fun _ => charges_gas) berlin).
  { apply extend_forall; [done|]. repeat constructor. apply charges_standard. intros input g.
    by apply modexp_charges, berlin_gas_nonneg. }
  assert (Hc : map_Forall (fun _ => charges_gas) (cancun features)).
  { unfold cancun. destruct (c_kzg features); [|done]. apply extend_forall; [done|]. repeat constructor.
    intros input g env. change (never_negative (kzg_run input g env)). unfold kzg_run. solve_gas. }
  assert (Hp : map_Forall (fun _ => charges_gas) (prague features)).
  { unfold prague. destruct (blst features); [|done]. apply extend_forall; [done|]. repeat constructor; by_charges. }
  by destruct spec.
Qed.
End gas.

(** ** Under the loop over the call stack *)

Lemma fmap_has {A B} (f : A -> B) (m : gmap Address A) a : is_Some ((f <$> m) !! a) <-> is_Some (m !! a).
Proof. by rewrite lookup_fmap, fmap_is_Some. Qed.

Section loop.
Context {DB DbErr : Type} `{HDB : Database DB DbErr} `{HL : !DatabaseLegacy DB DbErr} `{HK : Keccak}.
Context `{HA : CreateAddress} `{HC : Crypto} (features : Features).

Lemma fork_precompiles_lookup spec a p :
  fork_precompiles (DB := DB) features spec !! a = Some p ->
  exists v, Precompiles_new features (from_spec_id spec) !! a = Some v /\ p = CP_Ordinary (Precompile_call v).
Proof.
  intros Hl. apply (lookup_fmap_Some (M := gmap Address) (fun v => CP_Ordinary (Precompile_call v))) in Hl.
  destruct Hl as (v & <- & Hv). eauto.
Qed.

Lemma fork_precompiles_has spec a :
  is_Some (fork_precompiles (DB := DB) features spec !! a) <-> is_Some (Precompiles_new features (from_spec_id spec) !! a).
Proof. exact (fmap_has _ _ a). Qed.

Lemma fork_precompiles_plain spec a f :
  fork_precompiles (DB := DB) features spec !! a = Some f ->
  exists p, f = CP_Ordinary p /\ forall input gas env, never_negative (p input gas env).
Proof.
  intros (v & Hv & ->)%fork_precompiles_lookup. eexists. split; [done|]. intros input gas env r.
  exact (precompiles_charge features _ _ _ Hv input gas env r).
Qed.

Lemma fork_precompiles_fine spec : precompiles_fine (DbErr := DbErr) (fork_precompiles features spec).
Proof.
  unfold precompiles_fine, map_Forall. intros a f Hf. apply fork_precompiles_plain in Hf as (p & -> & Hp).
  intros input gas env r Hr. apply Hp in Hr. by destruct r.
Qed.

Lemma fork_precompiles_rewind `{HOK : !DatabaseOk DB DbErr} spec :
  map_Forall (fun _ => precompile_rewinds (DbErr := DbErr)) (fork_precompiles features spec).
Proof.
  unfold map_Forall. intros a f Hf. apply fork_precompiles_plain in Hf as (p & -> & Hp).
  intros input gas env c Hc. by apply Hp in Hc.
Qed.

(** C3: executing a transaction terminates.  In a world without EOF code, where
    the database serves none, [transact] with the precompiles of the hard fork and
    the native tokens ends, with a result, an error or a panic, within twice the
    gas limit of the transaction and two more iterations of the loop over the call
    stack, whatever the contracts do; more fuel changes nothing. *)
Theorem transact_terminates sp c :
  legacy_world c.2.1 -> 0 <= depth c.2.1.1 -> fits 64 (tx_gas_limit (tx c.1)) ->
  settles (2 * tx_gas_limit (tx c.1) + 1)
    (fun fuel => transact (DbErr := DbErr) (fork_precompiles features) fuel sp) c.
Proof. intros. apply transact_settles; [apply fork_precompiles_fine|done..]. Qed.
End loop.

(** C21: The precompiles of an EVM.  They are at the addresses of the EIPs up to the
    hard fork, and at the one of the native tokens, which none of them takes; and
    each, on any input of bytes and any gas limit below [2 ^ 54], does not panic,
    charges between nothing and the gas limit, returns bytes, and asks for no
    other call, when the cryptographic crates keep their contracts. *)
Theorem fork_precompiles_behave {DB DbErr : Type} `{HDB : Database DB DbErr} `{HK : Keccak}
    `{HC : Crypto} `{HO : !CryptoOk} (features : Features) spec a :
  (is_Some (load_precompiles (DbErr := DbErr) (fork_precompiles features) spec !! a) <->
   fork_address features spec a \/ a = NATIVE_TOKENS_ADDRESS) /\
  (forall f, load_precompiles (DbErr := DbErr) (fork_precompiles features) spec !! a = Some f ->
   if decide (a = NATIVE_TOKENS_ADDRESS) then f = CP_ContextStatefulMut call_mut
   else exists p, f = CP_Ordinary p /\
     forall input gas_limit env, Forall is_byte input -> 0 <= gas_limit < 2 ^ 54 ->
     safely (p input gas_limit env) (keeps_to gas_limit)).
Proof.
  unfold load_precompiles, with_native_tokens, ContextPrecompiles. destruct (decide (a = NATIVE_TOKENS_ADDRESS)) as [->|Ha].
  - rewrite lookup_insert_eq. split; [naive_solver|]. by intros f [= <-].
  - rewrite lookup_insert_ne by done. split.
    + rewrite <- (fork_addresses_spec features spec a). rewrite <- (fork_precompiles_has features spec a).
      naive_solver.
    + intros f (v & Hv & ->)%fork_precompiles_lookup. eexists. split; [done|].
      exact (precompiles_behave features _ _ _ Hv).
Qed.

(** ** Witnesses *)

(** A crate for each, the simplest that keeps the contract. *)
Definition sample_hashes : Hashes :=
  {| sha256 b := to_be_bytes 32 (from_be_bytes b); ripemd160 b := to_be_bytes 20 (from_be_bytes b) |}.
Definition sample_secp : Secp256k1 := {|
  secp_RecoveryId := unit; secp_RecoverableSignature := unit; secp_PublicKey := unit;
  secp_from_i32 n := if n <? 4 then Some tt else None;
  secp_from_compact _ _ := Some tt;
  secp_recover_ecdsa _ _ := Some tt;
  secp_serialize_uncompressed _ := 4 :: zeroes 64;
|}.
Definition sample_bn : Bn := {|
  Fq := unit; Fq2 := unit; Fr := unit; G1 := unit; G2 := unit; Gt := unit; AffineG1 := unit; AffineG2 := unit;
  fq_from_slice _ := Some tt; fq_zero := tt; fq_eqb _ _ := true; fq_to_big_endian _ n := Some (zeroes n);
  fr_from_slice s := if len s =? 32 then Some tt else None;
  fq2_new _ _ := tt; fq2_is_zero _ := true; affine_g1_new _ _ := Some tt; affine_g1_from_jacobian _ := Some tt;
  affine_g1_x _ := tt; affine_g1_y _ := tt; g1_from_affine _ := tt; g1_zero := tt; bn_g1_add _ _ := tt;
  bn_g1_mul _ _ := tt; affine_g2_new _ _ := Some tt; g2_from_affine _ := tt; g2_zero := tt; gt_one := tt;
  gt_mul _ _ := tt; gt_eqb _ _ := true; bn_pairing _ _ := tt;
|}.
Definition sample_kzg : Kzg :=
  {| KzgSettings := unit; kzg_settings _ := tt; lib_verify_kzg_proof _ _ _ _ _ := Some true |}.
Definition sample_crypto : Crypto := {|
  crypto_hashes := sample_hashes;
  crypto_ecrecover := @ecrecover_secp256k1 sample_secp sample_keccak;
  crypto_bn := sample_bn; crypto_modexp := sample_modexp; crypto_kzg := sample_kzg; crypto_blst := sample_blst;
|}.

Section witnesses.
#[local] Existing Instances sample_crypto sample_keccak sample_create_address.
#[local] Instance empty_database : Database EmptyDB False := EmptyDB_database.
#[local] Program Instance empty_legacy : DatabaseLegacy EmptyDB False := {| db_legacy := fun _ => True |}.
Solve All Obligations with (simpl; intros; simplify_eq; repeat split; intros; by simplify_eq).

Lemma sample_secp_ok : @Secp256k1Ok sample_secp.
Proof. split; [|done]. intros n Hn. simpl. bool_lia. eauto. Qed.

#[local] Instance sample_crypto_ok : CryptoOk.
Proof.
  split.
  - split; intros b; (split; [apply len_to_be_bytes|apply to_be_bytes_is_byte]).
  - apply (@ecrecover_secp256k1_ok _ sample_secp sample_secp_ok).
  - split; simpl; [|intros s ->; eauto]. intros []. eexists. split_and!; [done|done|apply zeroes_bytes].
  - exact sample_modexp_ok.
  - exact sample_blst_ok.
Qed.

(** The compression function of BLAKE2 is at address 9 from Istanbul on. *)
Lemma fork_precompiles_behave_witness :
  exists p, fork_precompiles (DB := EmptyDB) Features_default CANCUN !! 9 = Some (CP_Ordinary p) /\
    p abc_input 12 (mkEnv CfgEnv_default sample_block (looping_tx)) = Blake2.run abc_input 12 /\
    safely (p abc_input 12 (mkEnv CfgEnv_default sample_block looping_tx)) (keeps_to 12).
Proof.
  destruct (fork_precompiles_behave (DbErr := False) Features_default CANCUN 9) as [_ H].
  specialize (H (CP_Ordinary (fun input gas env => Blake2.run input gas)) eq_refl).
  destruct (decide _) as [Heq|_]; [by vm_compute in Heq|]. destruct H as (p & [= <-] & Hp).
  eexists. split; [reflexivity|]. split; [reflexivity|]. 
  apply (Hp abc_input 12 (mkEnv CfgEnv_default sample_block looping_tx)).
  - vm_compute. repeat constructor; discriminate.
  - lia.
Defined.

Lemma transact_terminates_witness :
  exists r c', r <> Ok None /\ forall fuel, 42201 < Z.of_nat fuel ->
    transact (fork_precompiles Features_default) fuel CANCUN (looping_context 0) = (r, c').
Proof.
  destruct (transact_terminates (DbErr := False) Features_default CANCUN (looping_context 0) (looping_world 0))
    as (r & c' & Hr & Hf); [done|by split|].
  exists r, c'. split; [exact Hr|]. intros fuel Hfu. apply Hf. exact Hfu.
Defined.
End witnesses.
