(* ===== verification/FastLz.v ===== *)
(** The length of the FastLZ compression of a transaction, the measure of its
    data on the first layer: [crates/revm/src/optimism/fast_lz.rs].

    The code computes a length and never the compressed bytes. The reference here
    is the format itself, a decompressor: the length is the one of bytes that
    decompress to the input. *)

From S2P Require Import Prelude.
From S2P Require Import Bytes.

(** ** The code *)

Abbreviation Lz := (outcome Empty_set).

(** [(x << n)] of a [u32]. *)
Definition shl32 (x n : Z) : Z := cast 32 (Z.shiftl x n).

Definition u24 (input : bytes) (idx : Z) : Lz Z :=
  b0 ← index input idx;
  b1 ← index input (wrapping_add 32 idx 1);
  b2 ← index input (wrapping_add 32 idx 2);
  Ok (wrapping_add 32 (wrapping_add 32 b0 (shl32 b1 8)) (shl32 b2 16)).

Definition hash (v : Z) : Z :=
  let hash := Z.shiftr (wrapping_mul 64 v 2654435769) 19 in
  Z.land (cast 16 hash) 0x1fff.

Definition set_next_hash (htab : list Z) (input : bytes) (idx : Z) : Lz (list Z * Z) :=
  seq ← u24 input idx;
  htab ← store htab (hash seq) idx;
  Ok (htab, wrapping_add 32 idx 1).

Definition literals (r size : Z) : Z :=
  let size := wrapping_add 32 size (wrapping_mul 32 0x21 (r / 0x20)) in
  let r := r mod 0x20 in
  if negb (r =? 0) then wrapping_add 32 (wrapping_add 32 size r) 1 else size.

Definition flz_match (l size : Z) : Z :=
  let l := wrapping_sub 32 l 1 in
  let size := wrapping_add 32 size (wrapping_mul 32 3 (l / 262)) in
  if 6 <=? l mod 262 then wrapping_add 32 size 3 else wrapping_add 32 size 2.

(** The [while] of [cmp]; a difference of the bytes is its last iteration. *)
Fixpoint cmp_loop (fuel : nat) (input : bytes) (p q l r : Z) : Lz Z :=
  if l <? r then
    match fuel with
    | O => Panic
    | S fuel =>
        a ← index input (wrapping_add 32 p l);
        b ← index input (wrapping_add 32 q l);
        cmp_loop fuel input p q (wrapping_add 32 l 1) (if a =? b then r else 0)
    end
  else Ok l.

Definition cmp (input : bytes) (p q r : Z) : Lz Z :=
  cmp_loop (length input) input p q 0 (wrapping_sub 32 r q).

(** The inner [loop]: the table, the candidate [r] and the index after it. *)
Fixpoint find_match (fuel : nat) (input : bytes) (idx_limit : Z) (htab : list Z) (idx : Z)
  : Lz (list Z * Z * Z) :=
  match fuel with
  | O => Panic
  | S fuel =>
      seq ← u24 input idx;
      r ← index htab (hash seq);
      htab ← store htab (hash seq) idx;
      let distance := wrapping_sub 32 idx r in
      if idx_limit <=? idx then Ok (htab, r, idx)
      else
        let idx := wrapping_add 32 idx 1 in
        found ← (if distance <? 8192 then s ← u24 input r; Ok (seq =? s) else Ok false);
        if found : bool then Ok (htab, r, idx) else find_match fuel input idx_limit htab idx
  end.

(** The outer [while]: the position of the first byte not compressed yet and the
    length so far. *)
Fixpoint compress_loop (fuel : nat) (input : bytes) (idx_limit : Z) (htab : list Z)
    (idx anchor size : Z) : Lz (Z * Z) :=
  if idx <? idx_limit then
    match fuel with
    | O => Panic
    | S fuel =>
        '(htab, r, idx) ← find_match (length input) input idx_limit htab idx;
        if idx_limit <=? idx then Ok (anchor, size)
        else
          let idx := wrapping_sub 32 idx 1 in
          let size := if anchor <? idx then literals (wrapping_sub 32 idx anchor) size else size in
          l ← cmp input (wrapping_add 32 r 3) (wrapping_add 32 idx 3) (wrapping_add 32 idx_limit 9);
          let size := flz_match l size in
          '(htab, idx) ← set_next_hash htab input (wrapping_add 32 idx l);
          '(htab, idx) ← set_next_hash htab input idx;
          compress_loop fuel input idx_limit htab idx idx size
    end
  else Ok (anchor, size).

Definition flz_compress_len (input : bytes) : Lz Z :=
  let idx_limit := if len input <? 13 then 0 else wrapping_sub 32 (cast 32 (len input)) 13 in
  '(anchor, size) ← compress_loop (length input) input idx_limit (replicate 8192 0) 2 0 0;
  Ok (literals (wrapping_sub 32 (cast 32 (len input)) anchor) size).

(** ** The format *)

(** Copy [m] bytes from [d] bytes back, one by one: a match may overlap itself. *)
Fixpoint copy_back (m d : nat) (out : bytes) : option bytes :=
  match m with
  | O => Some out
  | S m => if decide (d <= length out)%nat then b ← out !! (length out - d)%nat; copy_back m d (out ++ [b]) else None
  end.

(** The first three bits of an instruction are its kind: literal bytes, a long
    match or a short one. *)
Fixpoint decompress_onto (fuel : nat) (out c : bytes) : option bytes :=
  match fuel, c with
  | _, [] => Some out
  | O, _ => None
  | S fuel, op :: c =>
      let low := op mod 32 in
      if op / 32 =? 0 then
        let n := Z.to_nat (low + 1) in
        if decide (n <= length c)%nat then decompress_onto fuel (out ++ take n c) (drop n c) else None
      else if op / 32 =? 7 then
        match c with
        | n :: d :: c =>
            out ← copy_back (Z.to_nat (n + 9)) (Z.to_nat (256 * low + d + 1)) out; decompress_onto fuel out c
        | _ => None
        end
      else
        match c with
        | d :: c =>
            out ← copy_back (Z.to_nat (op / 32 + 2)) (Z.to_nat (256 * low + d + 1)) out; decompress_onto fuel out c
        | _ => None
        end
  end.

Definition decompress (c : bytes) : option bytes := decompress_onto (length c) [] c.

Example compress_len_of_zeros : flz_compress_len (replicate 1000 0) = Ok 21.
Proof. vm_compute. reflexivity. Qed.
Example compress_len_of_three : flz_compress_len [0xfa; 0xca; 0xde] = Ok 4.
Proof. vm_compute. reflexivity. Qed.

(** The sample contract call of the tests of the source. *)
Definition sample_contract_call : bytes := to_be_bytes 345 0x02f901550a758302df1483be21b88304743f94f80e51afb613d764fa61751affd3313c190a86bb870151bd62fd12adb8e41ef24f3f000000000000000000000000000000000000000000000000000000000000006e000000000000000000000000af88d065e77c8cc2239327c5edb3a432268e5831000000000000000000000000000000000000000000000000000000000003c1e5000000000000000000000000000000000000000000000000000000000000000000000000000000000000000000000000000000000000000000000000000000a000000000000000000000000000000000000000000000000000000000000000148c89ed219d02f1a5be012c689b4f5b731827bebe000000000000000000000000c001a033fd89cb37c31b2cba46b6466e040c61fc9b2a3675a7f5f493ebd5ad77c497f8a07cdf65680e238392693019b4092f610222e71b7cec06449cb922b93b6a12744e.
Example compress_len_of_sample : flz_compress_len sample_contract_call = Ok 202.
Proof. vm_compute. reflexivity. Qed.

(** ** Reading compressed bytes *)

(** [lia] with quotients and remainders, in this file. *)
#[local] Ltac Zify.zify_post_hook ::= Z.to_euclidean_division_equations.

Inductive instruction (out : bytes) : bytes -> bytes -> Prop :=
  | instruction_literals ls : 0 < len ls <= 32 -> Forall is_byte ls ->
      instruction out (len ls - 1 :: ls) (out ++ ls)
  | instruction_short m d out' : 3 <= m <= 8 -> 0 <= d < 8192 ->
      copy_back (Z.to_nat m) (Z.to_nat (d + 1)) out = Some out' ->
      instruction out [32 * (m - 2) + d / 256; d mod 256] out'
  | instruction_long m d out' : 9 <= m <= 264 -> 0 <= d < 8192 ->
      copy_back (Z.to_nat m) (Z.to_nat (d + 1)) out = Some out' ->
      instruction out [224 + d / 256; m - 9; d mod 256] out'.

Inductive instructions : bytes -> bytes -> bytes -> Prop :=
  | instructions_nil out : instructions out [] out
  | instructions_cons out i out1 c out2 :
      instruction out i out1 -> instructions out1 c out2 -> instructions out (i ++ c) out2.

Lemma instructions_app out c out1 c' out2 :
  instructions out c out1 -> instructions out1 c' out2 -> instructions out (c ++ c') out2.
Proof.
  intros H. induction H as [|out i o c o' Hi _ IH]; intros H'; [done|].
  rewrite <- (assoc_L (++)). exact (instructions_cons _ _ _ _ _ Hi (IH H')).
Qed.

Lemma instructions_one out i out' : instruction out i out' -> instructions out i out'.
Proof. intros H. rewrite <- (app_nil_r i). exact (instructions_cons _ _ _ _ _ H (instructions_nil _)). Qed.

Lemma instruction_bytes out i out' : instruction out i out' -> Forall is_byte i.
Proof. intros []; repeat first [assumption | apply Forall_nil_2 | apply Forall_cons_2]; unfold is_byte; lia. Qed.

Lemma instructions_bytes out c out' : instructions out c out' -> Forall is_byte c.
Proof. induction 1; [constructor|]. apply Forall_app. split; [by eapply instruction_bytes|done]. Qed.

Lemma decompress_instruction fuel out i out' c :
  instruction out i out' -> decompress_onto (S fuel) out (i ++ c) = decompress_onto fuel out' c.
Proof.
  intros [ls Hl _|m d o Hm Hd Ho|m d o Hm Hd Ho]; simpl.
  - replace ((len ls - 1) / 32) with 0 by lia. replace ((len ls - 1) mod 32 + 1) with (len ls) by lia.
    simpl. unfold len. rewrite Nat2Z.id, take_app_length, drop_app_length.
    rewrite decide_True; [done|]. rewrite length_app. lia.
  - replace ((32 * (m - 2) + d / 256) / 32) with (m - 2) by lia.
    replace ((32 * (m - 2) + d / 256) mod 32) with (d / 256) by lia. bool_lia.
    replace (m - 2 + 2) with m by lia. replace (256 * (d / 256) + d mod 256 + 1) with (d + 1) by lia.
    by rewrite Ho.
  - replace ((224 + d / 256) / 32) with 7 by lia. replace ((224 + d / 256) mod 32) with (d / 256) by lia.
    simpl. replace (m - 9 + 9) with m by lia.
    replace (256 * (d / 256) + d mod 256 + 1) with (d + 1) by lia. by rewrite Ho.
Qed.

Lemma instructions_decompress out c out' fuel :
  instructions out c out' -> (length c <= fuel)%nat -> decompress_onto fuel out c = Some out'.
Proof.
  intros H. revert fuel. induction H as [|out i out1 c out2 Hi _ IH]; intros fuel Hf; [by destruct fuel|].
  rewrite length_app in Hf. assert (0 < length i)%nat by (destruct Hi; simpl; lia).
  destruct fuel as [|fuel]; [lia|]. rewrite (decompress_instruction _ _ _ _ _ Hi). apply IH. lia.
Qed.

(** ** The cost of literals and of a match *)

Definition literals_cost (r : Z) : Z := 33 * (r / 32) + (if r mod 32 =? 0 then 0 else r mod 32 + 1).
Definition match_cost (l : Z) : Z := 3 * ((l - 1) / 262) + (if 6 <=? (l - 1) mod 262 then 3 else 2).

Lemma literals_eq r size :
  0 <= r -> 0 <= size -> size + literals_cost r < 2 ^ 32 -> literals r size = size + literals_cost r.
Proof.
  unfold literals, literals_cost. intros Hr Hs Hb.
  assert (Hsum : size + 33 * (r / 32) < 2 ^ 32) by (destruct (r mod 32 =? 0); lia).
  assert (Hm : wrapping_mul 32 33 (r / 32) = 33 * (r / 32)) by (apply Z.mod_small; lia).
  change 0x20 with 32. change 0x21 with 33. rewrite Hm.
  rewrite (wrapping_add_fits 32 size) by (unfold fits; lia).
  destruct (Z.eqb_spec (r mod 32) 0) as [?|?]; cbn [negb]; [lia|].
  rewrite (wrapping_add_fits 32 (size + _)) by (unfold fits; lia). rewrite wrapping_add_fits; unfold fits; lia.
Qed.

Lemma flz_match_eq l size :
  1 <= l -> 0 <= size -> size + match_cost l < 2 ^ 32 -> l < 2 ^ 32 -> flz_match l size = size + match_cost l.
Proof.
  unfold flz_match, match_cost. intros Hl Hs Hb Hl'.
  rewrite (wrapping_sub_fits 32 l) by (unfold fits; lia).
  assert (Hm : wrapping_mul 32 3 ((l - 1) / 262) = 3 * ((l - 1) / 262)).
  { apply Z.mod_small. destruct (6 <=? (l - 1) mod 262); lia. }
  rewrite Hm. destruct (6 <=? (l - 1) mod 262);
    (rewrite (wrapping_add_fits 32 size) by (unfold fits; lia)); rewrite wrapping_add_fits; unfold fits; lia.
Qed.

(** Literal bytes go out in runs of 32. *)
Lemma literals_instructions out ls :
  Forall is_byte ls -> exists c, instructions out c (out ++ ls) /\ len c = literals_cost (len ls).
Proof.
  unfold literals_cost. revert out. induction ls as [ls IH] using (induction_ltof1 _ length). unfold ltof in IH.
  intros out Hb. unfold len in *. destruct (decide (length ls <= 31)%nat) as [Hn|Hn].
  - destruct ls as [|b ls]; [exists []; rewrite app_nil_r; split; [constructor|done]|].
    eexists. split; [apply instructions_one, instruction_literals; [unfold len; simpl in *; lia|done]|].
    replace (Z.of_nat (length (b :: ls)) / 32) with 0 by lia.
    rewrite (Z.mod_small (Z.of_nat _)) by lia. bool_lia. simpl. lia.
  - destruct (IH (drop 32 ls) ltac:(rewrite length_drop; lia) (out ++ take 32 ls)) as (c & Hc & Hl).
    { by apply Forall_drop. }
    rewrite <- (assoc_L (++)), take_drop in Hc.
    eexists. split; [eapply instructions_cons; [apply instruction_literals; [|by apply Forall_take]|exact Hc]|].
    { unfold len. rewrite length_take. lia. }
    rewrite length_drop in Hl. rewrite length_app. simpl. rewrite length_take.
    replace (Z.of_nat _) with (33 + Z.of_nat (length c)) by lia. rewrite Hl.
    replace (Z.of_nat (length ls - 32) mod 32) with (Z.of_nat (length ls) mod 32) by lia.
    replace (Z.of_nat (length ls - 32) / 32) with (Z.of_nat (length ls) / 32 - 1) by lia. lia.
Qed.

Lemma copy_back_split d a b out out' :
  copy_back (a + b) d out = Some out' ->
  exists out1, copy_back a d out = Some out1 /\ copy_back b d out1 = Some out'.
Proof.
  revert out. induction a as [|a IH]; intros out; simpl; [eauto|].
  destruct (decide _); [|done]. destruct (out !! _); simpl; [apply IH|done].
Qed.

(** A copy inside of a string that repeats itself gives the rest of it. *)
Lemma copy_back_repeats (input : bytes) p q m :
  (p < q)%nat -> (q + m <= length input)%nat ->
  (forall k, (k < m)%nat -> input !! (p + k)%nat = input !! (q + k)%nat) ->
  copy_back m (q - p) (take q input) = Some (take (q + m) input).
Proof.
  revert p q. induction m as [|m IH]; intros p q Hpq Hm Hk; simpl; [by rewrite Nat.add_0_r|].
  rewrite length_take, Nat.min_l by lia. rewrite decide_True by lia.
  replace (q - (q - p))%nat with p by lia. rewrite lookup_take_lt by lia.
  pose proof (Hk 0%nat ltac:(lia)) as H0. rewrite !Nat.add_0_r in H0.
  destruct (lookup_lt_is_Some_2 input q ltac:(lia)) as [b Hb].
  rewrite H0, Hb. simpl. rewrite <- (take_S_r _ _ _ Hb).
  replace (q - p)%nat with (S q - S p)%nat by lia. rewrite (IH (S p) (S q)); [f_equal; f_equal; lia|lia..|].
  intros k Hk'. specialize (Hk (S k) ltac:(lia)). by rewrite !Nat.add_succ_r in Hk.
Qed.

(** Long matches go out in chunks of 262 bytes. *)
Lemma match_instructions out out' l d :
  1 <= l -> 0 <= d < 8192 -> copy_back (Z.to_nat (l + 2)) (Z.to_nat (d + 1)) out = Some out' ->
  exists c, instructions out c out' /\ len c = match_cost l.
Proof.
  intros Hl Hd. revert out. unfold match_cost. induction l as [l IH] using (well_founded_induction (Z.lt_wf 0)).
  intros out Ho. destruct (Z.leb_spec l 6); [|destruct (Z.leb_spec l 262)].
  - eexists. split; [apply instructions_one, (instruction_short _ (l + 2) d); [lia..|exact Ho]|].
    replace ((l - 1) / 262) with 0 by lia. replace ((l - 1) mod 262) with (l - 1) by lia. by bool_lia.
  - eexists. split; [apply instructions_one, (instruction_long _ (l + 2) d); [lia..|exact Ho]|].
    replace ((l - 1) / 262) with 0 by lia. replace ((l - 1) mod 262) with (l - 1) by lia. by bool_lia.
  - replace (Z.to_nat (l + 2)) with (262 + Z.to_nat (l - 262 + 2))%nat in Ho by lia.
    apply copy_back_split in Ho as (o1 & H1 & Ho). destruct (IH (l - 262) ltac:(lia) ltac:(lia) _ Ho) as (c & Hc & Hn).
    eexists. split; [eapply instructions_cons; [apply (instruction_long _ 262 d); [lia..|exact H1]|exact Hc]|].
    rewrite len_app, Hn. replace ((l - 1) / 262) with ((l - 262 - 1) / 262 + 1) by lia.
    replace ((l - 1) mod 262) with ((l - 262 - 1) mod 262) by lia. unfold len. simpl. lia.
Qed.

(** ** Reading the input *)

Definition word_at (input : bytes) (i : Z) : Z :=
  byte_at input i + 256 * byte_at input (i + 1) + 65536 * byte_at input (i + 2).

(** The three bytes that a word has are all the word says. *)
Lemma word_at_inj input i j k :
  Forall is_byte input -> word_at input i = word_at input j -> 0 <= k < 3 ->
  byte_at input (i + k) = byte_at input (j + k).
Proof.
  unfold word_at. intros Hb Hw Hk.
  pose proof (fun i => byte_at_is_byte input i Hb) as B. unfold is_byte in B.
  pose proof (B i); pose proof (B (i + 1)); pose proof (B (i + 2)).
  pose proof (B j); pose proof (B (j + 1)); pose proof (B (j + 2)).
  assert (k = 0 \/ k = 1 \/ k = 2) as [->|[-> | ->]] by lia; rewrite ?Z.add_0_r; lia.
Qed.

Section compression.
Context (input : bytes) (Hbytes : Forall is_byte input) (Hlen : len input < 2 ^ 31).

Lemma u24_eq idx : 0 <= idx -> idx + 2 < len input -> u24 input idx = Ok (word_at input idx).
Proof.
  intros H0 Hi. unfold u24, shl32.
  rewrite (wrapping_add_fits 32 idx 1), (wrapping_add_fits 32 idx 2) by (unfold fits; lia).
  rewrite !index_in_range by lia. simpl. f_equal.
  pose proof (byte_at_is_byte input idx Hbytes). pose proof (byte_at_is_byte input (idx + 1) Hbytes).
  pose proof (byte_at_is_byte input (idx + 2) Hbytes). unfold is_byte in *.
  rewrite !Z.shiftl_mul_pow2 by lia. rewrite !cast_fits by (unfold fits; lia).
  rewrite (wrapping_add_fits 32 (byte_at input idx)) by (unfold fits; lia).
  rewrite wrapping_add_fits by (unfold fits; lia). unfold word_at. lia.
Qed.

Lemma hash_bound v : 0 <= hash v < 8192.
Proof.
  unfold hash. change 0x1fff with (Z.ones 13). rewrite Z.land_ones by lia. apply Z.mod_pos_bound. lia.
Qed.

(** The table holds positions before the index. *)
Definition table (htab : list Z) (idx : Z) : Prop :=
  len htab = 8192 /\ Forall (fun r => 0 <= r < idx) htab.

Lemma table_store htab idx v i :
  table htab idx -> 0 <= idx <= i -> exists htab', store (E := Empty_set) htab (hash v) i = Ok htab' /\ table htab' (i + 1).
Proof.
  intros [Hl Ht] Hi. pose proof (hash_bound v). unfold store. rewrite Hl. bool_lia. eexists. split; [done|].
  split; [unfold len in *; by rewrite length_insert|].
  apply Forall_insert; [|lia]. eapply Forall_impl; [exact Ht|]. simpl. lia.
Qed.

Lemma set_next_hash_spec htab idx i :
  table htab idx -> 0 <= idx <= i -> i + 2 < len input ->
  exists htab', set_next_hash htab input i = Ok (htab', i + 1) /\ table htab' (i + 1).
Proof.
  intros Ht Hi Hn. unfold set_next_hash. rewrite u24_eq by lia. cbn [mbind outcome_bind].
  destruct (table_store htab idx (word_at input i) i Ht Hi) as (htab' & -> & Ht').
  cbn [mbind outcome_bind]. rewrite wrapping_add_fits by (unfold fits; lia). eauto.
Qed.

Lemma index_table htab idx v :
  table htab idx -> exists r, index (E := Empty_set) htab (hash v) = Ok r /\ 0 <= r < idx.
Proof.
  intros [Hl Ht]. pose proof (hash_bound v). pose proof (index_safely (E := Empty_set) htab (hash v) ltac:(lia)) as Hs.
  destruct (index htab (hash v)) as [r|[]|]; [|done]. exists r. split; [done|].
  rewrite Forall_forall in Ht. apply Ht. by eapply list_elem_of_lookup_2.
Qed.

Lemma find_match_spec idx_limit htab idx fuel :
  idx_limit + 2 < len input -> 0 < idx <= idx_limit -> idx_limit - idx < Z.of_nat fuel -> table htab idx ->
  exists htab' r idx', find_match fuel input idx_limit htab idx = Ok (htab', r, idx') /\
    (idx' < idx_limit -> idx < idx' /\ 0 <= r < idx' - 1 /\ idx' - 1 - r < 8192 /\
       word_at input (idx' - 1) = word_at input r /\ table htab' idx').
Proof.
  intros Hn Hi Hf Ht. revert htab idx Hi Hf Ht.
  induction fuel as [|fuel IH]; intros htab idx Hi Hf Ht; [lia|]. cbn [find_match].
  rewrite u24_eq by lia. cbn [mbind outcome_bind].
  destruct (index_table htab idx (word_at input idx) Ht) as (r & Hr & Hr'). rewrite Hr. cbn [mbind outcome_bind].
  destruct (table_store htab idx (word_at input idx) idx Ht ltac:(lia)) as (htab' & -> & Ht'). cbn [mbind outcome_bind].
  destruct (Z.leb_spec idx_limit idx); [eexists _, _, _; split; [done|lia]|].
  rewrite (wrapping_sub_fits 32 idx r), (wrapping_add_fits 32 idx 1) by (unfold fits; lia).
  assert (Hgo : exists htab'0 r' idx', find_match fuel input idx_limit htab' (idx + 1) = Ok (htab'0, r', idx') /\
    (idx' < idx_limit -> idx < idx' /\ 0 <= r' < idx' - 1 /\ idx' - 1 - r' < 8192 /\
       word_at input (idx' - 1) = word_at input r' /\ table htab'0 idx')).
  { destruct (IH htab' (idx + 1)) as (h & r' & i' & E & Hs); [lia|lia|done|]. eexists _, _, _. split; [exact E|].
    intros Hlt. destruct (Hs Hlt) as (? & ? & ?). split; [lia|done]. }
  destruct (Z.ltb_spec (idx - r) 8192); [rewrite u24_eq by lia|]; cbn [mbind outcome_bind]; [|exact Hgo].
  destruct (Z.eqb_spec (word_at input idx) (word_at input r)); [|exact Hgo].
  eexists _, _, _. split; [reflexivity|]. intros _. replace (idx + 1 - 1) with idx by lia. repeat split; try lia; first [assumption | apply Ht'].
Qed.

Lemma cmp_loop_end p q l r fuel : r <= l -> cmp_loop fuel input p q l r = Ok l.
Proof. intros Hl. destruct fuel; cbn [cmp_loop]; by rewrite (proj2 (Z.ltb_ge l r) Hl). Qed.

(** [cmp] ends after the first difference. *)
Lemma cmp_loop_spec p q l r fuel :
  0 <= p -> p < q -> 0 <= l < r -> q + r <= len input -> r - l < Z.of_nat fuel ->
  exists l', cmp_loop fuel input p q l r = Ok l' /\ l < l' <= r /\
    forall k, l <= k < l' - 1 -> byte_at input (p + k) = byte_at input (q + k).
Proof.
  intros Hp Hq. revert l. induction fuel as [|fuel IH]; intros l Hl Hr Hf; [lia|]. cbn [cmp_loop]. rewrite (proj2 (Z.ltb_lt l r)) by lia.
  rewrite (wrapping_add_fits 32 p), (wrapping_add_fits 32 q), (wrapping_add_fits 32 l) by (unfold fits; lia).
  rewrite !index_in_range by lia. simpl. destruct (Z.eqb_spec (byte_at input (p + l)) (byte_at input (q + l))) as [He|_].
  - destruct (Z.ltb_spec (l + 1) r).
    + destruct (IH (l + 1)) as (l' & E & Hl' & Hk); [lia..|]. exists l'. split; [exact E|]. split; [lia|].
      intros k Hk'. destruct (decide (k = l)) as [->|]; [done|]. apply Hk. lia.
    + exists (l + 1). split; [by apply cmp_loop_end; lia|]. split; [lia|]. intros k ?. by replace k with l by lia.
  - exists (l + 1). split; [by apply cmp_loop_end; lia|]. split; [lia|]. lia.
Qed.

Lemma cmp_spec p q r :
  0 <= p < q -> q < r <= len input ->
  exists l, cmp input p q r = Ok l /\ 1 <= l <= r - q /\
    forall k, 0 <= k < l - 1 -> byte_at input (p + k) = byte_at input (q + k).
Proof.
  intros Hp Hr. unfold cmp. rewrite wrapping_sub_fits by (unfold fits; lia).
  destruct (cmp_loop_spec p q 0 (r - q) (length input)) as (l & E & Hl & Hk); unfold len in *; [lia..|].
  exists l. split; [exact E|]. split; [lia|done].
Qed.

(** ** The loop *)

(** The bytes before [anchor] are compressed to [size] bytes. *)
Definition compressed (anchor size : Z) : Prop :=
  0 <= anchor <= len input /\ size <= anchor + anchor / 32 /\
  exists c, instructions [] c (take (Z.to_nat anchor) input) /\ size = len c.

Lemma literals_cost_bound r : 0 <= r -> 0 <= literals_cost r <= r + r / 32 + 1.
Proof. unfold literals_cost. intros Hr. destruct (Z.eqb_spec (r mod 32) 0); lia. Qed.

Lemma match_cost_bound l : 1 <= l -> 2 <= match_cost l <= l + 1.
Proof. unfold match_cost. intros Hl. destruct (Z.leb_spec 6 ((l - 1) mod 262)); lia. Qed.

Lemma compressed_literals anchor size m :
  compressed anchor size -> anchor <= m <= len input ->
  exists c, instructions [] c (take (Z.to_nat m) input) /\
    literals (m - anchor) size = len c /\ len c = size + literals_cost (m - anchor).
Proof.
  intros (Ha & Hs & c & Hc & ->) Hm. unfold len in *.
  destruct (literals_instructions (take (Z.to_nat anchor) input)
    (take (Z.to_nat (m - anchor)) (drop (Z.to_nat anchor) input))) as (c' & Hc' & Hl).
  { by apply Forall_take, Forall_drop. }
  rewrite take_take_drop in Hc'. replace (Z.to_nat anchor + _)%nat with (Z.to_nat m) in Hc' by lia.
  pose proof (literals_cost_bound (m - anchor) ltac:(lia)).
  unfold len in Hl. rewrite length_take, length_drop in Hl. replace (Z.of_nat (_ `min` _)) with (m - anchor) in Hl by lia.
  exists (c ++ c'). split; [by eapply instructions_app|]. rewrite length_app, Nat2Z.inj_add, Hl.
  split; [|done]. apply literals_eq; lia.
Qed.

Lemma compressed_match anchor size m r l :
  compressed anchor size -> anchor <= m -> m + l + 2 <= len input -> 0 <= r < m -> m - r < 8192 -> 1 <= l ->
  word_at input m = word_at input r ->
  (forall k, 0 <= k < l - 1 -> byte_at input (r + 3 + k) = byte_at input (m + 3 + k)) ->
  compressed (m + l + 2) (flz_match l (if anchor <? m then literals (m - anchor) size else size)).
Proof.
  intros Hc Ha Hm Hr Hd Hl Hw Hk.
  destruct (compressed_literals anchor size m Hc ltac:(lia)) as (c & Hi & Hs & Hn).
  assert (Hs' : (if anchor <? m then literals (m - anchor) size else size) = len c).
  { destruct (Z.ltb_spec anchor m); [done|]. replace (m - anchor) with 0 in Hn by lia. rewrite Hn. unfold literals_cost. simpl. lia. }
  rewrite Hs'. destruct Hc as (Ha' & Hsz & _).
  pose proof (literals_cost_bound (m - anchor) ltac:(lia)). pose proof (match_cost_bound l Hl). pose proof (len_nonneg c).
  rewrite flz_match_eq by lia. unfold len in *.
  assert (Hcopy : copy_back (Z.to_nat (l + 2)) (Z.to_nat (m - r)) (take (Z.to_nat m) input)
    = Some (take (Z.to_nat (m + l + 2)) input)).
  { replace (Z.to_nat (m - r)) with (Z.to_nat m - Z.to_nat r)%nat by lia.
    replace (Z.to_nat (m + l + 2)) with (Z.to_nat m + Z.to_nat (l + 2))%nat by lia.
    apply copy_back_repeats; [lia..|]. intros k Hk'.
    assert (byte_at input (r + Z.of_nat k) = byte_at input (m + Z.of_nat k)) as Hb.
    { destruct (decide (k < 3)%nat); [symmetry; apply word_at_inj; [done..|lia]|].
      specialize (Hk (Z.of_nat k - 3) ltac:(lia)).
      replace (r + 3 + _) with (r + Z.of_nat k) in Hk by lia. by replace (m + 3 + _) with (m + Z.of_nat k) in Hk by lia. }
    rewrite !lookup_byte_at by lia. f_equal. rewrite !Nat2Z.inj_add, !Z2Nat.id by lia. exact Hb. }
  replace (m - r) with (m - r - 1 + 1) in Hcopy by lia.
  destruct (match_instructions _ _ l (m - r - 1) Hl ltac:(lia) Hcopy) as (c' & Hc' & Hn'). unfold len in Hn'.
  unfold compressed, len. split; [lia|]. split; [lia|]. exists (c ++ c'). split; [by eapply instructions_app|].
  rewrite length_app, Nat2Z.inj_add. lia.
Qed.

Lemma compress_loop_spec idx_limit fuel htab idx anchor size :
  idx_limit + 13 = len input -> table htab idx -> compressed anchor size -> anchor <= idx -> 0 < idx ->
  idx_limit - idx < Z.of_nat fuel ->
  exists anchor' size', compress_loop fuel input idx_limit htab idx anchor size = Ok (anchor', size') /\
    compressed anchor' size'.
Proof.
  intros Hlim. revert htab idx anchor size.
  induction fuel as [|fuel IH]; intros htab idx anchor size Ht Hc Ha Hi Hf; cbn [compress_loop].
  - rewrite (proj2 (Z.ltb_ge idx idx_limit)) by lia. eauto.
  - destruct (Z.ltb_spec idx idx_limit); [|eauto].
    destruct (find_match_spec idx_limit htab idx (length input)) as (htab1 & r & idx1 & -> & Hfound);
      [lia|lia|unfold len in *; lia|done|].
    cbn [mbind outcome_bind]. destruct (Z.leb_spec idx_limit idx1); [eauto|].
    destruct Hfound as (? & ? & ? & Hw & Ht1); [done|]. pose proof Hc as ((? & ?) & _).
    rewrite (wrapping_sub_fits 32 idx1 1), (wrapping_sub_fits 32 _ anchor) by (unfold fits; lia).
    rewrite (wrapping_add_fits 32 r 3), (wrapping_add_fits 32 (idx1 - 1) 3), (wrapping_add_fits 32 idx_limit 9)
      by (unfold fits; lia).
    destruct (cmp_spec (r + 3) (idx1 - 1 + 3) (idx_limit + 9)) as (l & -> & Hl & Hk); [lia..|].
    cbn [mbind outcome_bind]. rewrite (wrapping_add_fits 32 (idx1 - 1) l) by (unfold fits; lia).
    destruct (set_next_hash_spec htab1 idx1 (idx1 - 1 + l) Ht1) as (htab2 & -> & Ht2); [lia..|].
    cbn [mbind outcome_bind].
    destruct (set_next_hash_spec htab2 _ (idx1 - 1 + l + 1) Ht2) as (htab3 & -> & Ht3); [lia..|].
    cbn [mbind outcome_bind].
    replace (idx1 - 1 + l + 1 + 1) with (idx1 - 1 + l + 2) in * by lia.
    apply IH; [done| |lia..]. eapply (compressed_match _ _ _ r); [exact Hc|lia..|done|exact Hk].
Qed.
End compression.

Lemma compress_len_spec input :
  Forall is_byte input -> len input < 2 ^ 31 ->
  exists c, flz_compress_len input = Ok (len c) /\ decompress c = Some input /\
    Forall is_byte c /\ len c <= len input + len input / 32 + 1.
Proof.
  intros Hb Hn. pose proof (len_nonneg input) as H0.
  assert (exists anchor size, compressed input anchor size /\ flz_compress_len input
    = Ok (literals (wrapping_sub 32 (cast 32 (len input)) anchor) size)) as (anchor & size & Hc & ->).
  { assert (Hstart : compressed input 0 0).
    { split; [lia|]. split; [done|]. exists []. split; [constructor|done]. }
    unfold flz_compress_len. rewrite (cast_fits 32) by (unfold fits; lia).
    destruct (Z.ltb_spec (len input) 13).
    - exists 0, 0. split; [done|]. by destruct (length input).
    - rewrite wrapping_sub_fits by (unfold fits; lia).
      destruct (compress_loop_spec input Hb Hn (len input - 13) (length input) (replicate 8192 0) 2 0 0)
        as (anchor & size & -> & Hc); [lia| |done|lia|lia|unfold len in *; lia|eauto].
      split; [done|]. apply Forall_replicate. lia. }
  rewrite (cast_fits 32) by (unfold fits; lia). pose proof Hc as ((? & ?) & Hs & _).
  rewrite wrapping_sub_fits by (unfold fits; lia).
  destruct (compressed_literals input Hb Hn anchor size (len input) Hc ltac:(lia)) as (c & Hi & -> & Hl).
  unfold len in Hi. rewrite Nat2Z.id, firstn_all in Hi. exists c.
  pose proof (literals_cost_bound (len input - anchor) ltac:(lia)).
  split; [done|]. split; [by apply instructions_decompress|]. split; [by eapply instructions_bytes|lia].
Qed.

(** C25: The estimate is a real one.  For an input below two gigabytes,
    [flz_compress_len] answers, without an access out of bounds, and its answer is
    the length of bytes in the FastLZ format that decompress to the input; it
    exceeds the length of the input by at most one byte in 32 and one more. *)
Theorem compress_len_is_a_compression input :
  Forall is_byte input -> len input < 2 ^ 31 ->
  exists c, flz_compress_len input = Ok (len c) /\ decompress c = Some input /\
    Forall is_byte c /\ len c <= len input + len input / 32 + 1.
Proof. apply compress_len_spec. Qed.

Lemma compress_len_is_a_compression_witness :
  exists c, flz_compress_len (replicate 1000 42) = Ok (len c) /\ decompress c = Some (replicate 1000 42) /\
    Forall is_byte c /\ len c <= len (replicate 1000 42) + len (replicate 1000 42) / 32 + 1.
Proof.
  apply (compress_len_is_a_compression (replicate 1000 42)); [|reflexivity].
  apply Forall_replicate. split; [discriminate|reflexivity].
Defined.
