(* ===== verification/L1Block.v ===== *)
(** What a transaction of the rollup pays for its data on the first layer:
    [crates/revm/src/optimism/l1block.rs].

    First the hard forks with the [optimism] feature, whose numbering interleaves
    those of the rollup with those of Ethereum ([primitives/src/specification.rs]).
    A fork of the rollup is, for the code that asks for the forks of Ethereum only,
    the latest of these before it. *)

From S2P Require Import Prelude Specification Bytes Eof Bytecode State Result Database.
From S2P Require Import CallInputs Env.
From S2P Require Import Precompile FastLz.

(** ** The hard forks of the rollup *)

Inductive OpSpecId : Type :=
  | Ethereum (s : SpecId)
  | BEDROCK | REGOLITH | CANYON | ECOTONE | FJORD.

#[export] Instance OpSpecId_eq_dec : EqDecision OpSpecId.
Proof. solve_decision. Defined.

Definition OpSpecId_as_u8 (s : OpSpecId) : Z :=
  match s with
  | Ethereum SHANGHAI => 18
  | Ethereum CANCUN => 20
  | Ethereum PRAGUE => 23
  | Ethereum s => SpecId_as_u8 s
  | BEDROCK => 16 | REGOLITH => 17 | CANYON => 19 | ECOTONE => 21 | FJORD => 22
  end.

Definition op_all_specs : list OpSpecId :=
  map Ethereum all_specs ++ [BEDROCK; REGOLITH; CANYON; ECOTONE; FJORD].

Definition op_try_from_u8 (n : Z) : option OpSpecId :=
  List.find (fun s => OpSpecId_as_u8 s =? n) op_all_specs.

Definition op_enabled (our other : OpSpecId) : bool := OpSpecId_as_u8 other <=? OpSpecId_as_u8 our.

Definition op_from_str (name : string) : OpSpecId :=
  if decide (name = "Bedrock"%string) then BEDROCK
  else if decide (name = "Regolith"%string) then REGOLITH
  else if decide (name = "Canyon"%string) then CANYON
  else if decide (name = "Ecotone"%string) then ECOTONE
  else if decide (name = "Fjord"%string) then FJORD
  else Ethereum (SpecId_from_str name).

Definition op_to_str (s : OpSpecId) : string :=
  match s with
  | BEDROCK => "Bedrock"
  | REGOLITH => "Regolith"
  | CANYON => "Canyon"
  | ECOTONE => "Ecotone"
  | FJORD => "Fjord"
  | Ethereum s => SpecId_to_str s
  end.

(** [spec_to_generic!] with the feature: the forks of the rollup have types. *)
Definition op_spec_to_generic (s : OpSpecId) : OpSpecId :=
  match s with Ethereum s => Ethereum (spec_to_generic s) | s => s end.

(** The latest fork of Ethereum that a fork enables. *)
Definition ethereum_of (s : OpSpecId) : SpecId :=
  match s with
  | Ethereum s => s
  | BEDROCK | REGOLITH => MERGE
  | CANYON => SHANGHAI
  | ECOTONE | FJORD => CANCUN
  end.

(** ** Lemmas *)

(** All that the handlers of the main network ask of a fork is the same of the
    Ethereum fork it follows. *)
Lemma op_enabled_ethereum s f : op_enabled s (Ethereum f) = enabled (ethereum_of s) f.
Proof. by destruct s as [[]| | | | |], f. Qed.

Lemma op_enabled_refl s : op_enabled s s = true.
Proof. apply Z.leb_le. lia. Qed.

Lemma op_try_from_as_u8 s : op_try_from_u8 (OpSpecId_as_u8 s) = Some s.
Proof. by destruct s as [[]| | | | |]. Qed.

Definition ZERO_BYTE_COST : Z := 4.
Definition NON_ZERO_BYTE_COST : Z := 16.
Definition BASE_FEE_SCALAR_OFFSET : Z := 16.
Definition BLOB_BASE_FEE_SCALAR_OFFSET : Z := 20.
Definition L1_BASE_FEE_SLOT : Z := 1.
Definition L1_OVERHEAD_SLOT : Z := 5.
Definition L1_SCALAR_SLOT : Z := 6.
Definition ECOTONE_L1_BLOB_BASE_FEE_SLOT : Z := 7.
Definition ECOTONE_L1_FEE_SCALARS_SLOT : Z := 3.
Definition EMPTY_SCALARS : bytes := replicate 8 0.
Definition L1_FEE_RECIPIENT : Address := 0x420000000000000000000000000000000000001A.
Definition BASE_FEE_RECIPIENT : Address := 0x4200000000000000000000000000000000000019.
Definition L1_BLOCK_CONTRACT : Address := 0x4200000000000000000000000000000000000015.

Record L1BlockInfo : Type := mkL1BlockInfo {
  l1_base_fee : Z;
  l1_fee_overhead : option Z;
  l1_base_fee_scalar : Z;
  l1_blob_base_fee : option Z;
  l1_blob_base_fee_scalar : option Z;
  empty_scalars : bool;
}.

(** ** [try_fetch] *)

Section fetch.
Context {DB DbErr : Type} `{HDB : Database DB DbErr}.

Definition l1_storage (slot : Z) : M DB DbErr Z := db_storage L1_BLOCK_CONTRACT slot.

Definition try_fetch (spec_id : OpSpecId) : M DB DbErr L1BlockInfo :=
  _ ← (if op_enabled spec_id (Ethereum CANCUN) then _ ← basic L1_BLOCK_CONTRACT; mret tt else mret tt);
  l1_base_fee ← l1_storage L1_BASE_FEE_SLOT;
  if negb (op_enabled spec_id ECOTONE) then
    l1_fee_overhead ← l1_storage L1_OVERHEAD_SLOT;
    l1_fee_scalar ← l1_storage L1_SCALAR_SLOT;
    mret (mkL1BlockInfo l1_base_fee (Some l1_fee_overhead) l1_fee_scalar None None false)
  else
    l1_blob_base_fee ← l1_storage ECOTONE_L1_BLOB_BASE_FEE_SLOT;
    scalars ← l1_storage ECOTONE_L1_FEE_SCALARS_SLOT;
    let l1_fee_scalars := to_be_bytes 32 scalars in
    base ← lift (slice l1_fee_scalars BASE_FEE_SCALAR_OFFSET (BASE_FEE_SCALAR_OFFSET + 4));
    blob ← lift (slice l1_fee_scalars BLOB_BASE_FEE_SCALAR_OFFSET (BLOB_BASE_FEE_SCALAR_OFFSET + 4));
    both ← lift (slice l1_fee_scalars BASE_FEE_SCALAR_OFFSET (BLOB_BASE_FEE_SCALAR_OFFSET + 4));
    let empty_scalars := (l1_blob_base_fee =? 0) && bool_decide (both = EMPTY_SCALARS) in
    l1_fee_overhead ← (if empty_scalars then o ← l1_storage L1_OVERHEAD_SLOT; mret (Some o) else mret None);
    mret (mkL1BlockInfo l1_base_fee l1_fee_overhead (from_be_bytes base) (Some l1_blob_base_fee)
            (Some (from_be_bytes blob)) empty_scalars).
End fetch.

(** ** The cost *)

Definition tx_estimated_size_fjord (input : bytes) : Lz Z :=
  fastlz_size ← flz_compress_len input;
  Ok (Z.max (saturating_sub (saturating_mul 256 fastlz_size 836500) 42585600) 100000000).

(** The fold of [data_gas]: the gas of the bytes, in a [u64]. *)
Definition calldata_gas (input : bytes) : Z :=
  foldl (fun acc byte => wrapping_add 64 acc (if byte =? 0 then ZERO_BYTE_COST else NON_ZERO_BYTE_COST)) 0 input.

Definition data_gas (input : bytes) (spec_id : OpSpecId) : Lz Z :=
  if op_enabled spec_id FJORD then
    estimated_size ← tx_estimated_size_fjord input;
    Ok (saturating_mul 256 estimated_size NON_ZERO_BYTE_COST / 1000000)
  else
    let rollup_data_gas_cost := calldata_gas input in
    Ok (if negb (op_enabled spec_id REGOLITH)
        then wrapping_add 256 rollup_data_gas_cost (wrapping_mul 256 NON_ZERO_BYTE_COST 68)
        else rollup_data_gas_cost).

Definition calculate_tx_l1_cost_bedrock (self : L1BlockInfo) (input : bytes) (spec_id : OpSpecId) : Lz Z :=
  rollup_data_gas_cost ← data_gas input spec_id;
  Ok (saturating_mul 256
        (saturating_mul 256 (saturating_add 256 rollup_data_gas_cost (default 0 (l1_fee_overhead self)))
           (l1_base_fee self))
        (l1_base_fee_scalar self) / 1000000).

Definition calculate_l1_fee_scaled_ecotone (self : L1BlockInfo) : Z :=
  let calldata_cost_per_byte :=
    saturating_mul 256 (saturating_mul 256 (l1_base_fee self) NON_ZERO_BYTE_COST) (l1_base_fee_scalar self) in
  let blob_cost_per_byte :=
    saturating_mul 256 (default 0 (l1_blob_base_fee self)) (default 0 (l1_blob_base_fee_scalar self)) in
  saturating_add 256 calldata_cost_per_byte blob_cost_per_byte.

Definition calculate_tx_l1_cost_ecotone (self : L1BlockInfo) (input : bytes) (spec_id : OpSpecId) : Lz Z :=
  if empty_scalars self then calculate_tx_l1_cost_bedrock self input spec_id
  else
    rollup_data_gas_cost ← data_gas input spec_id;
    let l1_fee_scaled := calculate_l1_fee_scaled_ecotone self in
    Ok (saturating_mul 256 l1_fee_scaled rollup_data_gas_cost / (1000000 * NON_ZERO_BYTE_COST)).

Definition calculate_tx_l1_cost_fjord (self : L1BlockInfo) (input : bytes) : Lz Z :=
  let l1_fee_scaled := calculate_l1_fee_scaled_ecotone self in
  estimated_size ← tx_estimated_size_fjord input;
  Ok (saturating_mul 256 estimated_size l1_fee_scaled / 1000000000000).

(** A deposit transaction, or none, costs nothing. *)
Definition calculate_tx_l1_cost (self : L1BlockInfo) (input : bytes) (spec_id : OpSpecId) : Lz Z :=
  match input with
  | [] => Ok 0
  | first :: _ =>
      if first =? 0x7F then Ok 0
      else if op_enabled spec_id FJORD then calculate_tx_l1_cost_fjord self input
      else if op_enabled spec_id ECOTONE then calculate_tx_l1_cost_ecotone self input spec_id
      else calculate_tx_l1_cost_bedrock self input spec_id
  end.

(** The examples of the tests of the source. *)
Example l1_cost_of_bedrock :
  calculate_tx_l1_cost (mkL1BlockInfo 1000 (Some 1000) 1000 None None false) [0xfa; 0xca; 0xde] REGOLITH = Ok 1048.
Proof. reflexivity. Qed.
Example l1_cost_of_ecotone :
  calculate_tx_l1_cost (mkL1BlockInfo 1000 None 1000 (Some 1000) (Some 1000) false) [0xfa; 0xca; 0xde] ECOTONE = Ok 51.
Proof. reflexivity. Qed.
Example l1_cost_of_fjord :
  calculate_tx_l1_cost (mkL1BlockInfo 1000 None 1000 (Some 1000) (Some 1000) false) [0xfa; 0xca; 0xde] FJORD = Ok 1700.
Proof. vm_compute. reflexivity. Qed.

(** ** What the scalars of the L1 block fit in *)

Lemma slice_fits32 {E} z a s : slice (E := E) (to_be_bytes 32 z) a (a + 4) = Ok s -> fits 32 (from_be_bytes s).
Proof.
  intros Hs. pose proof (slice_bytes _ _ _ _ (to_be_bytes_is_byte 32 z) Hs) as Hb.
  apply slice_inv in Hs as (Ha & Hl & ->). apply from_be_bytes_bound in Hb.
  rewrite len_take in Hb; [|rewrite len_drop; lia]. replace (a + 4 - a) with 4 in * by lia. exact Hb.
Qed.

Lemma try_fetch_scalars {DB DbErr} `{HDB : Database DB DbErr} spec_id d i d' :
  try_fetch spec_id d = (Ok i, d') -> op_enabled spec_id ECOTONE = true ->
  fits 32 (l1_base_fee_scalar i) /\ fits 32 (default 0 (l1_blob_base_fee_scalar i)).
Proof.
  intros H He. unfold try_fetch in H. rewrite He in H. cbn [negb] in H.
  repeat match type of H with
  | (?m ≫= _) _ = _ => apply M_bind_inv in H as [(? & ? & ? & H)|[(? & ? & ?)|(? & ?)]]; [|done|done]
  end.
  unfold lift, mret, M_ret in *. simplify_eq. simpl.
  split; eapply slice_fits32; eassumption.
Qed.

(** ** The cost, as the specifications of the forks give it *)

Definition spec_calldata_gas (input : bytes) : Z :=
  4 * len (filter (fun b => b = 0) input) + 16 * len (filter (fun b => b <> 0) input).

Definition spec_estimated_size (compressed_size : Z) : Z :=
  Z.max 100000000 (836500 * compressed_size - 42585600).

Definition spec_l1_cost (i : L1BlockInfo) (input : bytes) (compressed_size : Z) (spec : OpSpecId) : Z :=
  let scaled := 16 * l1_base_fee i * l1_base_fee_scalar i
    + default 0 (l1_blob_base_fee i) * default 0 (l1_blob_base_fee_scalar i) in
  if decide (input = [] \/ head input = Some 0x7F) then 0
  else if op_enabled spec FJORD then spec_estimated_size compressed_size * scaled / 1000000000000
  else if op_enabled spec ECOTONE && negb (empty_scalars i) then spec_calldata_gas input * scaled / 16000000
  else (spec_calldata_gas input + (if op_enabled spec REGOLITH then 0 else 68 * 16)
        + default 0 (l1_fee_overhead i)) * l1_base_fee i * l1_base_fee_scalar i / 1000000.

(** Fees and scalars of the size they have: nothing saturates below. *)
Record info_in_range (i : L1BlockInfo) : Prop := {
  range_base_fee : fits 128 (l1_base_fee i);
  range_blob_base_fee : fits 128 (default 0 (l1_blob_base_fee i));
  range_overhead : fits 32 (default 0 (l1_fee_overhead i));
  range_scalar : fits 32 (l1_base_fee_scalar i);
  range_blob_scalar : fits 32 (default 0 (l1_blob_base_fee_scalar i));
}.

Lemma spec_calldata_gas_bound input : 0 <= spec_calldata_gas input <= 16 * len input.
Proof.
  unfold spec_calldata_gas, len. induction input as [|b input IH]; [done|].
  rewrite !filter_cons. destruct (decide (b = 0)); [rewrite decide_False by auto|rewrite decide_True by done];
    simpl length; lia.
Qed.

Lemma calldata_gas_eq input : len input < 2 ^ 31 -> calldata_gas input = spec_calldata_gas input.
Proof.
  intros Hn. unfold calldata_gas. enough (forall acc, 0 <= acc -> acc + 16 * len input < 2 ^ 64 ->
    foldl (fun acc byte => wrapping_add 64 acc (if byte =? 0 then ZERO_BYTE_COST else NON_ZERO_BYTE_COST)) acc input
    = acc + spec_calldata_gas input) as H by (rewrite H; lia).
  clear Hn. unfold ZERO_BYTE_COST, NON_ZERO_BYTE_COST, spec_calldata_gas, len.
  induction input as [|b input IH]; intros acc Ha Hs; [simpl; lia|]. simpl foldl. simpl length in Hs.
  rewrite !filter_cons.
  destruct (Z.eqb_spec b 0); [rewrite decide_True, decide_False by auto|rewrite decide_False, decide_True by done];
    simpl length; rewrite wrapping_add_fits by (unfold fits; lia); rewrite IH by lia; lia.
Qed.

Lemma saturating_mul_fits a b : fits 256 (a * b) -> saturating_mul 256 a b = a * b.
Proof. unfold saturating_mul, fits. lia. Qed.
Lemma saturating_add_fits a b : fits 256 (a + b) -> saturating_add 256 a b = a + b.
Proof. unfold saturating_add, fits. lia. Qed.

(** A product of numbers below powers of two. *)
Lemma mul_below a b m n : 0 <= a < 2 ^ m -> 0 <= b < 2 ^ n -> 0 <= m -> 0 <= n -> 0 <= a * b < 2 ^ (m + n).
Proof. intros. rewrite Z.pow_add_r by lia. nia. Qed.

Lemma fee_scaled_eq i : info_in_range i ->
  let scaled := 16 * l1_base_fee i * l1_base_fee_scalar i
    + default 0 (l1_blob_base_fee i) * default 0 (l1_blob_base_fee_scalar i) in
  calculate_l1_fee_scaled_ecotone i = scaled /\ 0 <= scaled < 2 ^ 165.
Proof.
  intros [Hf Hb _ Hs Hbs]. simpl. unfold calculate_l1_fee_scaled_ecotone, NON_ZERO_BYTE_COST, fits in *.
  pose proof (mul_below _ _ 128 32 Hf Hs ltac:(lia) ltac:(lia)) as H1.
  pose proof (mul_below _ _ 128 32 Hb Hbs ltac:(lia) ltac:(lia)) as H2.
  change (128 + 32) with 160 in *. rewrite (Z.mul_comm 16), <- Z.mul_assoc, (Z.mul_comm 16), Z.mul_assoc.
  rewrite (saturating_mul_fits (l1_base_fee i) 16) by (unfold fits; lia).
  rewrite (saturating_mul_fits (l1_base_fee i * 16)) by (unfold fits; lia).
  rewrite saturating_mul_fits, saturating_add_fits by (unfold fits; lia). lia.
Qed.

Lemma bedrock_cost_eq i input spec :
  info_in_range i -> len input < 2 ^ 31 -> op_enabled spec FJORD = false ->
  calculate_tx_l1_cost_bedrock i input spec
  = Ok ((spec_calldata_gas input + (if op_enabled spec REGOLITH then 0 else 68 * 16)
         + default 0 (l1_fee_overhead i)) * l1_base_fee i * l1_base_fee_scalar i / 1000000).
Proof.
  intros [Hf _ Ho Hs _] Hn Hfj. unfold calculate_tx_l1_cost_bedrock, data_gas. rewrite Hfj.
  rewrite calldata_gas_eq by done. pose proof (spec_calldata_gas_bound input) as Hg.
  change (wrapping_mul 256 NON_ZERO_BYTE_COST 68) with 1088. unfold fits in *.
  set (gas := if negb _ then _ else _).
  assert (Hgas : gas = spec_calldata_gas input + (if op_enabled spec REGOLITH then 0 else 68 * 16)).
  { unfold gas. destruct (op_enabled spec REGOLITH); cbn [negb]; [lia|]. apply wrapping_add_fits. unfold fits. lia. }
  cbn [mbind outcome_bind]. rewrite <- Hgas.
  assert (0 <= gas < 2 ^ 36) by (destruct (op_enabled spec REGOLITH); lia). clearbody gas.
  assert (Hsum : 0 <= gas + default 0 (l1_fee_overhead i) < 2 ^ 37) by lia.
  pose proof (mul_below _ _ 37 128 Hsum Hf ltac:(lia) ltac:(lia)) as H1.
  pose proof (mul_below _ _ (37 + 128) 32 H1 Hs ltac:(lia) ltac:(lia)) as H2.
  rewrite saturating_add_fits by (unfold fits; lia).
  rewrite (saturating_mul_fits (gas + _)) by (unfold fits; lia).
  rewrite saturating_mul_fits by (unfold fits; lia). done.
Qed.

Lemma ecotone_cost_eq i input spec :
  info_in_range i -> len input < 2 ^ 31 -> op_enabled spec FJORD = false -> op_enabled spec ECOTONE = true ->
  empty_scalars i = false ->
  calculate_tx_l1_cost_ecotone i input spec
  = Ok (spec_calldata_gas input * (16 * l1_base_fee i * l1_base_fee_scalar i
          + default 0 (l1_blob_base_fee i) * default 0 (l1_blob_base_fee_scalar i)) / 16000000).
Proof.
  intros Hi Hn Hfj He Hem. unfold calculate_tx_l1_cost_ecotone, data_gas. rewrite Hem, Hfj.
  destruct (fee_scaled_eq i Hi) as [-> Hs].
  assert (op_enabled spec REGOLITH = true) as -> by (unfold op_enabled in *; simpl in *; lia).
  cbn [negb mbind outcome_bind]. rewrite calldata_gas_eq by done. pose proof (spec_calldata_gas_bound input) as Hg.
  set (scaled := _ + _) in *. clearbody scaled.
  assert (Hg' : 0 <= spec_calldata_gas input < 2 ^ 36) by lia.
  pose proof (mul_below _ _ 165 36 Hs Hg' ltac:(lia) ltac:(lia)) as H1.
  rewrite saturating_mul_fits by (unfold fits; lia). by rewrite Z.mul_comm.
Qed.

Lemma fjord_cost_eq i input c :
  info_in_range i -> flz_compress_len input = Ok c -> 0 <= c < 2 ^ 32 ->
  calculate_tx_l1_cost_fjord i input
  = Ok (spec_estimated_size c * (16 * l1_base_fee i * l1_base_fee_scalar i
          + default 0 (l1_blob_base_fee i) * default 0 (l1_blob_base_fee_scalar i)) / 1000000000000).
Proof.
  intros Hi Hc Hb. unfold calculate_tx_l1_cost_fjord, tx_estimated_size_fjord, spec_estimated_size.
  destruct (fee_scaled_eq i Hi) as [-> Hs]. set (scaled := _ + _) in *. clearbody scaled.
  rewrite Hc. cbn [mbind outcome_bind]. rewrite (saturating_mul_fits c) by (unfold fits; lia).
  unfold saturating_sub. replace (Z.max (Z.max (c * 836500 - 42585600) 0) 100000000)
    with (Z.max 100000000 (836500 * c - 42585600)) by lia.
  set (size := Z.max _ _) in *. assert (Hsz : 0 <= size < 2 ^ 52) by lia. clearbody size.
  pose proof (mul_below _ _ 52 165 Hsz Hs ltac:(lia) ltac:(lia)) as H1.
  by rewrite saturating_mul_fits by (unfold fits; lia).
Qed.

(** C28: What a transaction pays for its data on the first layer.  For fees below
    [2 ^ 128] and scalars and overhead below [2 ^ 32], where nothing saturates, the
    cost is the one of the specification of its fork, exactly: by the bytes of the
    call data up to Ecotone, and from Fjord on by the size of a FastLZ compression
    of the transaction.  It is nothing for an empty transaction or a deposit. *)
Theorem l1_cost_follows_the_specs i input spec :
  info_in_range i -> Forall is_byte input -> len input < 2 ^ 31 ->
  exists c, decompress c = Some input /\
    calculate_tx_l1_cost i input spec = Ok (spec_l1_cost i input (len c) spec).
Proof.
  intros Hi Hb Hn. destruct (compress_len_spec input Hb Hn) as (c & Hc & Hd & _ & Hle). exists c. split; [done|].
  assert (len c < 2 ^ 32) by (Z.div_mod_to_equations; lia).
  unfold spec_l1_cost, calculate_tx_l1_cost. pose proof (len_nonneg c).
  destruct input as [|first input]; [by rewrite decide_True by auto|].
  destruct (Z.eqb_spec first 0x7F) as [->|Hf]; [by rewrite decide_True by auto|].
  rewrite decide_False by (intros [|[=]]; done).
  destruct (op_enabled spec FJORD) eqn:Hfj; [apply fjord_cost_eq; [done..|lia]|].
  destruct (op_enabled spec ECOTONE) eqn:He; [|by apply bedrock_cost_eq].
  destruct (empty_scalars i) eqn:Hem; [|by apply ecotone_cost_eq].
  unfold calculate_tx_l1_cost_ecotone. rewrite Hem. by apply bedrock_cost_eq.
Qed.

Lemma l1_cost_follows_the_specs_witness :
  let i := mkL1BlockInfo 1000 None 1000 (Some 1000) (Some 1000) false in
  exists c, decompress c = Some sample_contract_call /\
    calculate_tx_l1_cost i sample_contract_call FJORD = Ok (spec_l1_cost i sample_contract_call (len c) FJORD).
Proof.
  apply l1_cost_follows_the_specs; [split; vm_compute; split; (discriminate || reflexivity)|
    apply to_be_bytes_is_byte|reflexivity].
Defined.
