(* ===== verification/Optimism.v ===== *)
(** The handlers of the rollup, which replace those of the main network when the
    [optimism] feature is on and the configuration asks for it:
    [crates/revm/src/optimism/handler_register.rs]. A deposit is a transaction of
    the first layer: it is paid for there, and cannot be refused here.

    The fields of the feature in the structs of other files are arguments:
    [OptimismFields] of a transaction, and the information on the first layer that
    the context keeps, the second half of the state. *)

From S2P Require Import Prelude.
From S2P Require Import Specification.
From S2P Require Import L1Block.
From S2P Require Import Bytes.
From S2P Require Import Eof.
From S2P Require Import Bytecode.
From S2P Require Import State.
From S2P Require Import Result.
From S2P Require Import InstructionResult.
From S2P Require Import Database.
From S2P Require Import Journal.
From S2P Require Import JournalRevert.
From S2P Require Import JournalRun.
From S2P Require Import InMemoryDb.
From S2P Require Import JournalSpec.
From S2P Require Import CallInputs.
From S2P Require Import Gas.
From S2P Require Import Env.
From S2P Require Import Interpreter.
From S2P Require Import Context.
From S2P Require Import Handler.
From S2P Require Import Fees.
From S2P Require Import Evm.
From S2P Require Import InterpreterLoop.
From S2P Require Import Precompile.
From S2P Require Import Curves.
From S2P Require Import PrecompileSets.
From S2P Require Import FastLz.

Record OptimismFields : Type := mkOptimismFields {
  source_hash : option Z;
  op_mint : option Z;
  is_system_transaction : option bool;
  enveloped_tx : option bytes;
}.

Definition is_deposit (o : OptimismFields) : bool :=
  match source_hash o with Some _ => true | None => false end.

Definition is_system (o : OptimismFields) : bool := default false (is_system_transaction o).

(** [PrecompileSpecId::from_spec_id] with the feature. *)
Definition op_from_spec_id (spec_id : OpSpecId) : PrecompileSpecId :=
  match spec_id with
  | BEDROCK | REGOLITH | CANYON => PS_BERLIN
  | ECOTONE | FJORD => PS_CANCUN
  | Ethereum s => from_spec_id s
  end.

(** A computation that has no error. *)
Definition infallible {E A} (m : outcome Empty_set A) : outcome E A := map_err (fun e : Empty_set => match e with end) m.

(** ** Validation *)

Definition op_validate_env {DbErr} (spec : OpSpecId) (op : OptimismFields) (env : Env)
  : outcome (EVMError DbErr) unit :=
  if is_deposit op then Ok tt
  else
    _ ← map_err EVMHeader (validate_block_env (ethereum_of spec) env);
    if is_system op && op_enabled spec REGOLITH then Err (EVMTransaction DepositSystemTxPostRegolith)
    else map_err EVMTransaction (validate_tx (ethereum_of spec) env).

(** ** The gas of the last frame *)

Definition op_last_frame_gas (spec : OpSpecId) (op : OptimismFields) (env : Env) (r : FrameResult) : Gas :=
  let tx_gas_limit := tx_gas_limit (tx env) in
  let is_regolith := op_enabled spec REGOLITH in
  let remaining := remaining (frame_gas r) in
  let refunded := refunded (frame_gas r) in
  let gas := Gas_new_spent tx_gas_limit in
  let gas :=
    if return_ok (frame_instruction_result r) then
      if negb (is_deposit op) || is_regolith then record_refund refunded (erase_cost remaining gas)
      else if is_deposit op && is_system op then erase_cost tx_gas_limit gas
      else gas
    else if return_revert (frame_instruction_result r) then
      if negb (is_deposit op) || is_regolith then erase_cost remaining gas else gas
    else gas in
  let refund_disabled := is_gas_refund_disabled (cfg env) || is_deposit op && negb is_regolith in
  if negb refund_disabled then set_final_refund (op_enabled spec (Ethereum LONDON)) gas else gas.

Definition op_last_frame_return (spec : OpSpecId) (op : OptimismFields) (env : Env) (r : FrameResult)
  : FrameResult := set_frame_gas (op_last_frame_gas spec op env r) r.

Section handlers.
Context {DB DbErr : Type} `{HDB : Database DB DbErr} `{HK : Keccak} `{HC : CreateAddress}.
Context `{HCr : Crypto} `{HP : P256} (features : Features) (op : OptimismFields).
Abbreviation CtxM := (M (JournaledState * DB) (EVMError DbErr)).
Abbreviation CM := (M (EvmContext (DB := DB) (DbErr := DbErr)) (EVMError DbErr)).
Abbreviation OpContext := (EvmContext (DB := DB) (DbErr := DbErr) * option L1BlockInfo)%type.
Abbreviation OpM := (M OpContext (EVMError DbErr)).

Definition on_evm_ctx {A} (m : CM A) : OpM A := zoom fst (fun c s => (c, s.2)) m.
Definition inner {A} (m : CtxM A) : OpM A := on_evm_ctx (on_inner m).

(** [context.evm.inner.l1_block_info.as_ref()]. *)
Definition l1_block_info : OpM (option L1BlockInfo) := gets snd.

Definition op_tx_against_state (spec : OpSpecId) (env : Env) : OpM unit :=
  if is_deposit op then mret tt else inner (tx_against_state (ethereum_of spec) env).

(** ** Before the execution *)

(** The precompiles of the fork; the native tokens are not among them. *)
Definition op_load_precompiles (spec : OpSpecId) : ContextPrecompiles (DB := DB) :=
  let precompiles := Precompiles_new features (op_from_spec_id spec) in
  ContextPrecompiles_from (if op_enabled spec FJORD then extend precompiles [P256VERIFY] else precompiles).

Definition op_load_accounts (spec : OpSpecId) (env : Env) : OpM unit :=
  _ ← (if negb (is_deposit op) then
         i ← inner (on_db (try_fetch spec));
         modify (fun s => (s.1, Some i))
       else mret tt);
  inner (load_accounts (ethereum_of spec) env).

Definition update_caller (env : Env) (f : AccountInfo -> AccountInfo) : OpM unit :=
  inner (on_js (update_account (tx_caller (tx env)) (set_info f))).

Definition op_deduct_caller (spec : OpSpecId) (env : Env) : OpM unit :=
  _ ← inner (load_account (tx_caller (tx env)));
  _ ← (match op_mint op with
       | Some mint => update_caller env (increase_base_balance mint)
       | None => mret tt
       end);
  caller_account ← inner (on_js (account (tx_caller (tx env))));
  caller_account ← lift (deduct_caller_inner (ethereum_of spec) caller_account env);
  _ ← inner (on_js (update_account (tx_caller (tx env)) (fun _ => caller_account)));
  if is_deposit op then mret tt
  else
    match enveloped_tx op with
    | None => fail (EVMCustom "[OPTIMISM] Failed to load enveloped transaction.")
    | Some enveloped_tx =>
        i ← l1_block_info;
        i ← lift (unwrap i);
        tx_l1_cost ← lift (infallible (calculate_tx_l1_cost i enveloped_tx spec));
        let balance := get_base_balance (info caller_account) in
        if balance <? tx_l1_cost then fail (EVMTransaction (LackOfFundForMaxFee tx_l1_cost balance))
        else update_caller env (decrease_base_balance_saturating tx_l1_cost)
    end.

(** ** After the execution *)

(** A vault: loaded, touched, and its balance changed. *)
Definition pay_vault (vault : Address) (f : AccountInfo -> AccountInfo) : OpM unit :=
  _ ← inner (load_account vault);
  _ ← inner (on_js (update_account vault mark_touch));
  inner (on_js (update_account vault (set_info f))).

Definition op_reward_beneficiary (spec : OpSpecId) (env : Env) (gas : Gas) : OpM unit :=
  _ ← (if negb (is_deposit op) then inner (reward_beneficiary (ethereum_of spec) env gas) else mret tt);
  if negb (is_deposit op) then
    i ← l1_block_info;
    match i with
    | None => fail (EVMCustom "[OPTIMISM] Failed to load L1 block information.")
    | Some i =>
        match enveloped_tx op with
        | None => fail (EVMCustom "[OPTIMISM] Failed to load enveloped transaction.")
        | Some enveloped_tx =>
            l1_cost ← lift (infallible (calculate_tx_l1_cost i enveloped_tx spec));
            _ ← pay_vault L1_FEE_RECIPIENT (increase_base_balance l1_cost);
            pay_vault BASE_FEE_RECIPIENT
              (set_base_balance (wrapping_mul 256 (basefee (block env)) (final_gas_used gas)))
        end
    end
  else mret tt.

Definition op_output (spec : OpSpecId) (r : FrameResult) : OpM ResultAndState :=
  result ← on_evm_ctx (on_evm (output r));
  if ExecutionResult_is_halt (rs_result result) && is_deposit op && op_enabled spec REGOLITH
  then fail (EVMTransaction HaltedDepositPostRegolith)
  else mret result.

(** [or_else] of [end]: what a deposit that failed leaves. *)
Definition failed_deposit (spec : OpSpecId) (env : Env) : OpM ResultAndState :=
  r ← attempt (inner (on_db (basic (tx_caller (tx env)))));
  let found := match r with inr (Some i) => i | _ => AccountInfo_default end in
  let acc := Account_from_info found in
  let acc := set_info (fun i => set_nonce (saturating_add 64 (nonce i) 1) i) acc in
  let acc := set_info (increase_base_balance_saturating (default 0 (op_mint op))) acc in
  let acc := mark_touch acc in
  let gas_used := if op_enabled spec REGOLITH || negb (is_system op) then tx_gas_limit (tx env) else 0 in
  mret (mkResultAndState (Halt HR_FailedDeposit gas_used) (mkEvmState {[ tx_caller (tx env) := acc ]} [])).

Definition op_end (spec : OpSpecId) (evm_output : OpM (option ResultAndState)) : OpM (option ResultAndState) :=
  '((env, _), _) ← Prelude.get;
  r ← attempt evm_output;
  match r with
  | inr result => mret result
  | inl (EVMTransaction e) =>
      if is_deposit op then result ← failed_deposit spec env; mret (Some result) else fail (EVMTransaction e)
  | inl e => fail e
  end.

(** ** The transaction: [evm.rs] over these handlers *)

Definition op_preverify_transaction_inner (spec : OpSpecId) (env : Env) : OpM Z :=
  _ ← lift (op_validate_env spec op env);
  initial_gas_spend ← lift (initial_tx_gas (ethereum_of spec) env);
  _ ← op_tx_against_state spec env;
  mret initial_gas_spend.

Definition op_first_frame (spec : OpSpecId) (env : Env) (gas_limit : Z) : OpM FrameOrResult :=
  match transact_to (tx env) with
  | TT_Call _ =>
      inputs ← lift (unwrap (CallInputs_new (tx env) gas_limit));
      inner (make_call_frame (op_load_precompiles spec) env inputs)
  | TT_Create =>
      inputs ← lift (unwrap (CreateInputs_new (tx env) gas_limit));
      inner (make_create_frame (ethereum_of spec) inputs)
  end.

Definition op_run_first_frame (fuel : nat) (spec : OpSpecId) (fr : FrameOrResult) : OpM (option FrameResult) :=
  match fr with
  | FOR_Frame f => on_evm_ctx (run_the_loop (op_load_precompiles spec) fuel (ethereum_of spec) f)
  | FOR_Result r => mret (Some r)
  end.

Definition op_finish_transaction (spec : OpSpecId) (env : Env) (result : FrameResult) : OpM ResultAndState :=
  let result := op_last_frame_return spec op env result in
  _ ← inner (reimburse_caller env (frame_gas result));
  _ ← op_reward_beneficiary spec env (frame_gas result);
  op_output spec result.

Definition op_transact_preverified_inner (fuel : nat) (spec : OpSpecId) (env : Env) (initial_gas_spend : Z)
  : OpM (option ResultAndState) :=
  _ ← op_load_accounts spec env;
  _ ← inner (set_precompiles (op_load_precompiles spec));
  _ ← op_deduct_caller spec env;
  let gas_limit := wrapping_sub 64 (tx_gas_limit (tx env)) initial_gas_spend in
  fr ← op_first_frame spec env gas_limit;
  result ← op_run_first_frame fuel spec fr;
  match result with
  | None => mret None
  | Some result => r ← op_finish_transaction spec env result; mret (Some r)
  end.

Definition op_clear : OpM unit := on_evm_ctx (on_evm clear_context).

Definition op_transact (fuel : nat) (spec : OpSpecId) : OpM (option ResultAndState) := fun c =>
  let env := c.1.1 in
  match op_preverify_transaction_inner spec env c with
  | (Err e, c) => (Err e, (op_clear c).2)
  | (Panic, c) => (Panic, c)
  | (Ok initial_gas_spend, c) =>
      match op_end spec (op_transact_preverified_inner fuel spec env initial_gas_spend) c with
      | (Panic, c) => (Panic, c)
      | (r, c) => (r, (op_clear c).2)
      end
  end.
End handlers.

Section properties.
Context {DB DbErr : Type} `{HDB : Database DB DbErr} `{HK : Keccak} `{HC : CreateAddress}.
Context `{HCr : Crypto} `{HP : P256} (features : Features) (op : OptimismFields).
Abbreviation OpContext := (EvmContext (DB := DB) (DbErr := DbErr) * option L1BlockInfo)%type.
Abbreviation OpM := (M OpContext (EVMError DbErr)).

(** ** Running on the parts of the context *)

Lemma inner_eq {A} (m : M (JournaledState * DB) (EVMError DbErr) A) env s e i :
  inner m ((env, (s, e)), i) = let '(r, s') := m s in (r, ((env, (s', e)), i)).
Proof. unfold inner, on_evm_ctx, on_inner, on_evm, on_ctx, zoom. simpl. by destruct (m s). Qed.

(** ** Deposits *)

Lemma failed_deposit_answers spec env (c : OpContext) e : (failed_deposit op spec env c).1 <> Err e.
Proof.
  unfold failed_deposit, mbind, M_bind, attempt. by destruct (inner _ c) as [[|?|] ?].
Qed.

Lemma op_end_deposit spec (m : OpM (option ResultAndState)) c e :
  is_deposit op = true -> (op_end op spec m c).1 <> Err (EVMTransaction e).
Proof.
  intros Hd. destruct c as [[env s] i]. unfold op_end. rewrite Hd. unfold mbind, M_bind, attempt, Prelude.get.
  destruct (m _) as [[r|[]|] c1]; try done.
  pose proof (failed_deposit_answers spec env c1) as Hf.
  destruct (failed_deposit op spec env c1) as [[|e1|] ?]; [done|by destruct (Hf e1)|done].
Qed.

Lemma initial_tx_gas_err spec env e :
  initial_tx_gas (DbErr := DbErr) spec env = Err e -> e = EVMTransaction CallGasCostMoreThanGasLimit.
Proof.
  unfold initial_tx_gas. destruct (validate_initial_tx_gas _ _ _ _ _); simpl; [|done].
  destruct (_ <? _); [by intros [= <-]|done].
Qed.

(** What the account of a failed deposit becomes. *)
Definition deposited (mint : Z) (found : AccountInfo) (acc : Account) : Prop :=
  nonce (info acc) = Z.min (nonce found + 1) (2 ^ 64 - 1) /\
  (forall t, get_balance (info acc) t
     = if decide (t = BASE_TOKEN_ID) then Z.min (get_balance found t + mint) (2 ^ 256 - 1) else get_balance found t) /\
  code_hash (info acc) = code_hash found /\ is_touched acc = true /\ storage acc = ∅.

Lemma failed_deposit_spec spec env j d err i r d' :
  basic (tx_caller (tx env)) d = (r, d') -> r <> Panic ->
  exists acc,
    failed_deposit op spec env ((env, ((j, d), err)), i) =
      (Ok (mkResultAndState
         (Halt HR_FailedDeposit (if op_enabled spec REGOLITH || negb (is_system op) then tx_gas_limit (tx env) else 0))
         (mkEvmState {[ tx_caller (tx env) := acc ]} [])), ((env, ((j, d'), err)), i)) /\
    deposited (default 0 (op_mint op))
      (match r with Ok (Some found) => found | _ => AccountInfo_default end) acc.
Proof.
  intros Hb Hr. set (found := match r with Ok (Some x) => x | _ => AccountInfo_default end).
  exists (mark_touch (set_info (increase_base_balance_saturating (default 0 (op_mint op)))
    (set_info (fun i => set_nonce (saturating_add 64 (nonce i) 1) i) (Account_from_info found)))). split.
  - unfold failed_deposit, mbind at 1, M_bind, attempt. rewrite inner_eq. unfold on_db, with_err, zoom. simpl.
    rewrite Hb. unfold found. by destruct r as [[]| |].
  - repeat split.
    intros t. set (v := saturating_add 256 (get_balance found BASE_TOKEN_ID) (default 0 (op_mint op))).
    change (get_balance (set_balance BASE_TOKEN_ID v found) t
      = if decide (t = BASE_TOKEN_ID) then Z.min (get_balance found t + default 0 (op_mint op)) (2 ^ 256 - 1)
        else get_balance found t).
    rewrite get_balance_set. destruct (decide (t = BASE_TOKEN_ID)) as [->|Hn]; [by rewrite decide_True|].
    by rewrite decide_False by congruence.
Qed.

(** C26: A deposit is never refused: it is included whatever happens to it.  Executing
    one never answers that the transaction is invalid, but for a gas limit below
    its intrinsic gas; and when the execution fails so, what is answered is a halt
    that charges the gas of the fork, with a state of a single account, the one of
    the caller in the database with its nonce bumped and the minted value added. *)
Theorem deposits_are_always_included spec :
  is_deposit op = true ->
  (forall fuel c e c', op_transact features op fuel spec c = (Err (EVMTransaction e), c') ->
     e = CallGasCostMoreThanGasLimit /\
     initial_tx_gas (DbErr := DbErr) (ethereum_of spec) c.1.1 = Err (EVMTransaction CallGasCostMoreThanGasLimit)) /\
  (forall (m : OpM (option ResultAndState)) env s i e j d err i' found d',
     m ((env, s), i) = (Err (EVMTransaction e), ((env, ((j, d), err)), i')) ->
     basic (tx_caller (tx env)) d = (found, d') -> found <> Panic ->
     exists acc,
       op_end op spec m ((env, s), i) =
         (Ok (Some (mkResultAndState
            (Halt HR_FailedDeposit (if op_enabled spec REGOLITH || negb (is_system op) then tx_gas_limit (tx env) else 0))
            (mkEvmState {[ tx_caller (tx env) := acc ]} []))), ((env, ((j, d'), err)), i')) /\
       deposited (default 0 (op_mint op))
         (match found with Ok (Some x) => x | _ => AccountInfo_default end) acc).
Proof.
  intros Hd. split.
  - intros fuel c e c' H. unfold op_transact in H.
    unfold op_preverify_transaction_inner, op_validate_env, op_tx_against_state in H. rewrite Hd in H.
    unfold mbind, M_bind, lift in H. destruct (initial_tx_gas _ _) as [g|e1|] eqn:Hg; simpl in H; [|simplify_eq|done].
    + pose proof (op_end_deposit spec (op_transact_preverified_inner features op fuel spec c.1.1 g) c e Hd) as Hne.
      destruct (op_end _ _ _ c) as [[] ?]; simpl in *; simplify_eq.
    + by apply initial_tx_gas_err in Hg as [= ->].
  - intros m env s i e j d err i' found d' Hm Hb Hf.
    destruct (failed_deposit_spec spec env j d err i' found d' Hb Hf) as (acc & Ha & Hdep). exists acc.
    split; [|exact Hdep]. unfold op_end. rewrite Hd. unfold mbind, M_bind, attempt, Prelude.get. rewrite Hm.
    by rewrite Ha.
Qed.

(** ** The gas *)

(** C27: How much a transaction pays for its gas, by fork, when its last frame has
    no more gas left than the gas limit, and a refund that is not negative.  Before
    Regolith a deposit pays its gas limit and gets no refund, a system transaction
    that succeeds nothing; from then on, as any other transaction, the gas it used
    less its refund. What is not paid is given back, and the result is left as it
    was.  *)
Theorem deposit_gas_follows_the_forks spec env r :
  fits 64 (tx_gas_limit (tx env)) ->
  0 <= remaining (frame_gas r) <= tx_gas_limit (tx env) -> 0 <= refunded (frame_gas r) < 2 ^ 63 ->
  let r' := op_last_frame_return spec op env r in
  final_gas_used (frame_gas r')
    = (if is_deposit op && negb (op_enabled spec REGOLITH)
       then if return_ok (frame_instruction_result r) && is_system op then 0 else tx_gas_limit (tx env)
       else tx_gas_limit (tx env) - (unused_gas r + granted_refund (ethereum_of spec) env r)) /\
  gas_returned (frame_gas r') = tx_gas_limit (tx env) - final_gas_used (frame_gas r') /\
  frame_instruction_result r' = frame_instruction_result r.
Proof.
  intros Hl Hr Hf. unfold fits in Hl.
  assert (Hg : frame_gas (op_last_frame_return spec op env r)
    = if is_deposit op && negb (op_enabled spec REGOLITH)
      then mkGas (tx_gas_limit (tx env))
             (if return_ok (frame_instruction_result r) && is_system op then tx_gas_limit (tx env) else 0) 0
      else mkGas (tx_gas_limit (tx env)) (unused_gas r) (granted_refund (ethereum_of spec) env r)).
  { unfold op_last_frame_return, set_frame_gas. unfold frame_gas at 1. rewrite interpreter_result_set. cbn [ir_gas].
    unfold op_last_frame_gas, is_gas_refund_disabled.
    destruct (is_deposit op && negb (op_enabled spec REGOLITH)) eqn:Hd; cbn [orb negb].
    - apply andb_true_iff in Hd as [-> ->%negb_true_iff]. cbn [negb andb orb].
      destruct (return_ok _); [destruct (is_system op)|destruct (return_revert _)]; try done.
      unfold erase_cost, Gas_new_spent. cbn. by rewrite wrapping_add_fits by (unfold fits; lia).
    - assert (negb (is_deposit op) || op_enabled spec REGOLITH = true) as ->
        by (by destruct (is_deposit op), (op_enabled spec REGOLITH)).
      rewrite <- (last_frame_gas (ethereum_of spec) env r), op_enabled_ethereum by done.
      unfold last_frame_return, frame_return_with_refund_flag, set_frame_gas. unfold frame_gas at 4.
      by rewrite interpreter_result_set. }
  destruct (granted_bounds (ethereum_of spec) env r Hr (proj1 Hf)) as [Hu Hgr].
  cbv zeta. rewrite Hg. unfold final_gas_used, gas_returned, spent.
  destruct (is_deposit op && negb (op_enabled spec REGOLITH)); cbn [Gas.limit Gas.remaining Gas.refunded];
    [destruct (return_ok _ && is_system op)|]; (split; [|split; [|by destruct r]]);
    rewrite ?cast_fits by (unfold fits; lia); rewrite ?wrapping_sub_fits by (unfold fits; lia); try lia;
    rewrite ?wrapping_sub_fits, ?wrapping_add_fits by (unfold fits; rewrite ?wrapping_sub_fits by (unfold fits; lia); lia);
    lia.
Qed.
(** ** The vaults *)

Lemma inner_ok {A} (m : M (JournaledState * DB) (EVMError DbErr) A) env s e i a s' :
  m s = (Ok a, s') -> inner m ((env, (s, e)), i) = (Ok a, ((env, (s', e)), i)).
Proof. intros Hm. by rewrite inner_eq, Hm. Qed.

(** Setting the balance of a loaded vault. *)
Lemma pay_vault_spec vault f v x env j d e i :
  accounts (state j) !! vault = Some x -> f (info x) = set_base_balance v (info x) ->
  exists j', pay_vault vault f ((env, ((j, d), e)), i) = (Ok tt, ((env, ((j', d), e)), i)) /\
    (forall a t, ledger (accounts (state j')) a t
       = ledger_set vault BASE_TOKEN_ID v (ledger (accounts (state j))) a t) /\
    (forall t, supply t (accounts (state j')) = supply t (accounts (state j))
       + (if decide (BASE_TOKEN_ID = t) then v - ledger (accounts (state j)) vault t else 0)) /\
    (forall a, is_Some (accounts (state j) !! a) -> is_Some (accounts (state j') !! a)).
Proof.
  intros Hx Hf. unfold pay_vault.
  erewrite M_bind_ok by (apply inner_ok; by eapply account_loaded).
  erewrite M_bind_ok by (apply inner_ok; rewrite on_js_eq, update_account_ok by eauto; reflexivity).
  set (j1 := set_state (set_accounts (alter mark_touch vault)) j).
  assert (H1 : accounts (state j1) !! vault = Some (mark_touch x))
    by (unfold j1; cbn [state set_state accounts set_accounts]; by rewrite lookup_alter_eq, Hx).
  eexists. split; [apply inner_ok; rewrite on_js_eq, update_account_ok by eauto; reflexivity|].
  cbn [state set_state accounts set_accounts].
  rewrite (alter_ext _ (set_info (set_balance BASE_TOKEN_ID v))).
  2:{ intros y Hy. change (accounts (state j1) !! vault = Some y) in Hy. rewrite H1 in Hy. injection Hy as <-.
      unfold set_info. f_equal. exact Hf. }
  change (alter mark_touch vault (accounts (state j))) with (accounts (state j1)).
  assert (Hl1 : forall a t, ledger (accounts (state j1)) a t = ledger (accounts (state j)) a t)
    by (intros a t; by apply ledger_alter_same).
  assert (Hs1 : forall t, supply t (accounts (state j1)) = supply t (accounts (state j)))
    by (intros t; by apply supply_alter_same).
  split_and!.
  - intros a t. rewrite (ledger_set_balance _ (mark_touch x)) by done. unfold ledger_set. by case_decide.
  - intros t. rewrite (supply_set_balance _ (mark_touch x)), Hs1 by done.
    case_decide; [|done]. subst. by rewrite <- (lookup_ledger j vault x).
  - intros a Ha. by do 2 apply lookup_alter_is_Some.
Qed.

(** C29: The Base Fee Vault does not accumulate.  Rewarding the beneficiary of a
    transaction that is not a deposit pays the beneficiary the price above the base
    fee and adds the cost of the data to the L1 Fee Vault, unless a balance
    overflows; but the base fee of the gas replaces the balance of the Base Fee
    Vault, so what this vault held is taken out of the supply. *)
Theorem base_fee_vault_is_overwritten spec env g j d e i input cost xc xl xb :
  is_deposit op = false -> enveloped_tx op = Some input -> calculate_tx_l1_cost i input spec = Ok cost ->
  accounts (state j) !! coinbase (block env) = Some xc ->
  accounts (state j) !! L1_FEE_RECIPIENT = Some xl ->
  accounts (state j) !! BASE_FEE_RECIPIENT = Some xb ->
  fits 64 (refunded g) -> fits 64 (spent g - refunded g) ->
  let tip := coinbase_gas_price (ethereum_of spec) env * (spent g - refunded g) in
  let base_fee := basefee (block env) * (spent g - refunded g) in
  let b := ledger (accounts (state j)) in
  let b1 := ledger_set (coinbase (block env)) BASE_TOKEN_ID (b (coinbase (block env)) BASE_TOKEN_ID + tip) b in
  let b2 := ledger_set L1_FEE_RECIPIENT BASE_TOKEN_ID (b1 L1_FEE_RECIPIENT BASE_TOKEN_ID + cost) b1 in
  0 <= tip -> 0 <= cost -> 0 <= base_fee < 2 ^ 256 ->
  0 <= b (coinbase (block env)) BASE_TOKEN_ID -> 0 <= b L1_FEE_RECIPIENT BASE_TOKEN_ID ->
  b (coinbase (block env)) BASE_TOKEN_ID + b L1_FEE_RECIPIENT BASE_TOKEN_ID + tip + cost < 2 ^ 256 ->
  exists j', op_reward_beneficiary op spec env g ((env, ((j, d), e)), Some i) = (Ok tt, ((env, ((j', d), e)), Some i)) /\
    (forall a t, ledger (accounts (state j')) a t = ledger_set BASE_FEE_RECIPIENT BASE_TOKEN_ID base_fee b2 a t) /\
    supply BASE_TOKEN_ID (accounts (state j')) = supply BASE_TOKEN_ID (accounts (state j))
      + tip + cost + base_fee - b1 BASE_FEE_RECIPIENT BASE_TOKEN_ID.
Proof.
  intros Hd Htx Hcost Hc Hl Hb Hr Hu tip base_fee b b1 b2 Ht Hc0 Hbf Hb0 Hb0' Hsum.
  unfold op_reward_beneficiary. rewrite Hd. cbn [negb].
  destruct (reward_spec (DbErr := DbErr) (ethereum_of spec) env g j d xc) as (j1 & H1 & Hl1 & Hs1 & Hk1);
    [done|done|done|done|unfold get_base_balance; rewrite (lookup_ledger j _ xc) by done; fold b tip; lia..|].
  fold tip b b1 in Hl1, Hs1.
  erewrite M_bind_ok by exact (inner_ok _ env _ e (Some i) _ _ H1).
  erewrite M_bind_ok by reflexivity. cbn [snd]. rewrite Htx, Hcost. cbn [infallible map_err].
  erewrite M_bind_ok by reflexivity.
  assert (Hb1 : 0 <= b1 L1_FEE_RECIPIENT BASE_TOKEN_ID
    <= b (coinbase (block env)) BASE_TOKEN_ID + b L1_FEE_RECIPIENT BASE_TOKEN_ID + tip).
  { unfold b1, ledger_set. case_decide; lia. }
  destruct (Hk1 _ (mk_is_Some _ _ Hl)) as [xl1 Hxl1].
  destruct (pay_vault_spec L1_FEE_RECIPIENT (increase_base_balance cost) (b1 L1_FEE_RECIPIENT BASE_TOKEN_ID + cost)
    xl1 env j1 d e (Some i)) as (j2 & H2 & Hl2 & Hs2 & Hk2); [done| |].
  { unfold increase_base_balance, increase_balance.
    rewrite (lookup_ledger j1 _ xl1), Hl1, wrapping_add_fits by (done || unfold fits; lia). done. }
  destruct (Hk2 _ (Hk1 _ (mk_is_Some _ _ Hb))) as [xb2 Hxb2].
  erewrite M_bind_ok by exact H2.
  assert (Hused : wrapping_mul 256 (basefee (block env)) (final_gas_used g) = base_fee).
  { unfold final_gas_used. rewrite (cast_fits 64), wrapping_sub_fits by done.
    unfold wrapping_mul. fold base_fee. by apply Z.mod_small. }
  rewrite Hused.
  destruct (pay_vault_spec BASE_FEE_RECIPIENT (set_base_balance base_fee) base_fee xb2 env j2 d e (Some i))
    as (j3 & H3 & Hl3 & Hs3 & _); [done..|].
  assert (Heq2 : forall a t, ledger (accounts (state j2)) a t = b2 a t).
  { intros a t. rewrite Hl2. unfold b2, ledger_set at 1 2. case_decide; [done|apply Hl1]. }
  exists j3. split; [exact H3|]. split.
  - intros a t. rewrite Hl3. unfold ledger_set at 1 2. case_decide; [done|apply Heq2].
  - rewrite Hs3, Hs2, Hs1, Heq2, Hl1. rewrite !decide_True by done.
    replace (b2 BASE_FEE_RECIPIENT BASE_TOKEN_ID) with (b1 BASE_FEE_RECIPIENT BASE_TOKEN_ID); [lia|].
    unfold b2. unfold ledger_set at 1. by rewrite decide_False by (intros [[=] _]).
Qed.
(** ** The cost of the data *)

(** What a validated transaction is charged before it runs.  It pays its gas, as on
    the main network, and then the cost of its data: when the rest of the balance
    does not cover this one, which no validation looked at, the transaction is
    refused; otherwise exactly the two are taken from the caller, and no other
    balance changes. *)
Theorem data_cost_is_charged spec env j d e i input l1_cost acc acc' :
  is_deposit op = false -> op_mint op = None -> enveloped_tx op = Some input ->
  calculate_tx_l1_cost i input spec = Ok l1_cost -> 0 <= l1_cost ->
  accounts (state j) !! tx_caller (tx env) = Some acc -> wf_env env ->
  op_validate_env (DbErr := DbErr) spec op env = Ok tt ->
  (max_fee_per_blob_gas (tx env) = None -> blob_hashes (tx env) = []) ->
  validate_tx_against_state (ethereum_of spec) env acc = Ok acc' ->
  let caller := tx_caller (tx env) in
  let cost := transaction_cost (ethereum_of spec) env in
  let balance := get_base_balance (info acc) in
  exists j',
    op_deduct_caller op spec env ((env, ((j, d), e)), Some i)
      = (if balance - cost <? l1_cost
         then Err (EVMTransaction (LackOfFundForMaxFee l1_cost (balance - cost))) else Ok tt,
         ((env, ((j', d), e)), Some i)) /\
    (forall a t, ledger (accounts (state j')) a t =
       ledger_set caller BASE_TOKEN_ID (balance - cost - if balance - cost <? l1_cost then 0 else l1_cost)
         (ledger (accounts (state j))) a t).
Proof.
  intros Hd Hm Htx Hcost Hc0 Hx Hwf Hv Hno Hst caller cost balance. fold caller in Hx.
  assert (Hve : validate_env (DbErr := DbErr) (ethereum_of spec) env = Ok tt).
  { unfold op_validate_env in Hv. rewrite Hd in Hv. unfold validate_env.
    destruct (map_err EVMHeader _) as [[]| |]; simpl in *; [|done..]. by destruct (_ && _). }
  destruct (cost_covered _ _ _ _ Hwf Hve Hno Hst) as (Hk0 & Hk1 & Hk2). fold cost in Hk0, Hk1, Hk2.
  pose proof (get_base_transfer_value_nonneg _ Hwf) as Hval.
  set (paid := charged env cost acc). set (j1 := set_state (set_accounts (alter (fun _ => paid) caller)) j).
  assert (Hx1 : accounts (state j1) !! caller = Some paid)
    by (unfold j1; cbn [state set_state accounts set_accounts]; by rewrite lookup_alter_eq, Hx).
  assert (Hbal : get_base_balance (info paid) = balance - cost).
  { unfold get_base_balance, paid. by rewrite get_balance_charged. }
  assert (Hl1 : forall a t, ledger (accounts (state j1)) a t
    = ledger_set caller BASE_TOKEN_ID (balance - cost) (ledger (accounts (state j))) a t).
  { intros a t. unfold j1, ledger_set. cbn [state set_state accounts set_accounts]. rewrite ledger_alter. unfold ledger.
    destruct (decide (caller = a)) as [<-|]; [|rewrite decide_False by tauto; done].
    rewrite Hx. cbn [from_option]. unfold paid. rewrite get_balance_charged. repeat case_decide; tauto || done. }
  assert (Hrun : op_deduct_caller op spec env ((env, ((j, d), e)), Some i)
    = (if balance - cost <? l1_cost then fail (EVMTransaction (LackOfFundForMaxFee l1_cost (balance - cost)))
       else update_caller env (decrease_base_balance_saturating l1_cost)) ((env, ((j1, d), e)), Some i)).
  { unfold op_deduct_caller. rewrite Hm, Hd. fold caller.
    erewrite M_bind_ok by (apply inner_ok; by eapply account_loaded).
    erewrite M_bind_ok by reflexivity.
    erewrite M_bind_ok by (apply inner_ok; rewrite on_js_eq; unfold account; rewrite Hx; reflexivity).
    erewrite M_bind_ok by (unfold lift; rewrite (deduct_caller_inner_eq (ethereum_of spec) env acc Hwf Hve)
      by (fold cost balance; unfold balance in *; lia); reflexivity). fold cost paid.
    erewrite M_bind_ok by (apply inner_ok; rewrite on_js_eq, update_account_ok by eauto; reflexivity). fold j1.
    rewrite Htx. erewrite M_bind_ok by reflexivity. erewrite M_bind_ok by reflexivity. rewrite Hcost.
    erewrite M_bind_ok by reflexivity. by rewrite Hbal. }
  rewrite Hrun. destruct (Z.ltb_spec (balance - cost) l1_cost) as [_|Hge].
  - exists j1. split; [done|]. by rewrite Z.sub_0_r.
  - eexists. split; [apply inner_ok; rewrite on_js_eq, update_account_ok by eauto; reflexivity|].
    intros a t. cbn [state set_state accounts set_accounts].
    rewrite (alter_ext _ (set_info (set_balance BASE_TOKEN_ID (balance - cost - l1_cost)))).
    2:{ intros y Hy. change (accounts (state j1) !! caller = Some y) in Hy. rewrite Hx1 in Hy. injection Hy as <-. unfold set_info. f_equal.
        unfold decrease_base_balance_saturating, decrease_balance_saturating, saturating_sub.
        fold (get_base_balance (info paid)). by rewrite Hbal, Z.max_l by lia. }
    rewrite (ledger_set_balance _ paid) by done. unfold ledger_set.
    case_decide as H1; case_decide as H2; [done|by destruct H2|by destruct H1|].
    rewrite Hl1. unfold ledger_set. by rewrite decide_False.
Qed.
End properties.

(** ** Witnesses *)

Definition sample_p256 : P256 := {|
  p256_Signature := unit; p256_VerifyingKey := unit; p256_from_slice _ := Some tt;
  p256_from_sec1_bytes _ := Some tt; p256_verify_prehash _ _ _ := true;
|}.

(** A deposit that mints, and an ordinary transaction of three bytes. *)
Definition sample_deposit : OptimismFields := mkOptimismFields (Some 7) (Some 50) None None.
Definition sample_ordinary : OptimismFields := mkOptimismFields None None None (Some [0xfa; 0xca; 0xde]).
Definition sample_l1_info : L1BlockInfo := mkL1BlockInfo 1000 None 1000 (Some 1000) (Some 1000) false.

(** The vaults hold 5 and 1000. *)
Definition sample_rollup_js : JournaledState :=
  mkJournaledState (mkEvmState
    {[ 9 := sample_payer; 8 := sample_coinbase;
       L1_FEE_RECIPIENT := Account_from_info (AccountInfo_from_balances (init_balances 5));
       BASE_FEE_RECIPIENT := Account_from_info (AccountInfo_from_balances (init_balances 1000)) ]} [BASE_TOKEN_ID])
    ∅ [] 0 [[]] CANCUN ∅.

Section witnesses.
#[local] Existing Instances sample_crypto sample_keccak sample_create_address sample_p256.
#[local] Instance empty_database : Database EmptyDB False := EmptyDB_database.

(** A deposit that halts: the caller, who is new, has what was minted. *)
Lemma deposits_are_always_included_witness :
  exists acc,
    op_end sample_deposit REGOLITH (fail (EVMTransaction HaltedDepositPostRegolith))
      ((sample_env, ((sample_rollup_js, tt), None)), None)
      = (Ok (Some (mkResultAndState (Halt HR_FailedDeposit 100000) (mkEvmState {[ 9 := acc ]} []))),
         ((sample_env, ((sample_rollup_js, tt), None)), None)) /\
    deposited 50 AccountInfo_default acc.
Proof.
  exact (proj2 (deposits_are_always_included (DbErr := False) Features_default sample_deposit REGOLITH eq_refl)
    _ sample_env ((sample_rollup_js, tt), None) None HaltedDepositPostRegolith sample_rollup_js tt None None
    (Ok None) tt eq_refl eq_refl ltac:(discriminate)).
Defined.

Lemma deposit_gas_follows_the_forks_witness :
  final_gas_used (frame_gas (op_last_frame_return REGOLITH sample_deposit sample_env sample_last_frame)) = 56000 /\
  final_gas_used (frame_gas (op_last_frame_return BEDROCK sample_deposit sample_env sample_last_frame)) = 100000.
Proof.
  split; (etransitivity; [apply (deposit_gas_follows_the_forks sample_deposit _ sample_env sample_last_frame);
    [split; [discriminate|reflexivity]|split; discriminate|split; [discriminate|reflexivity]]|reflexivity]).
Defined.

Lemma base_fee_vault_is_overwritten_witness :
  exists j',
    op_reward_beneficiary sample_ordinary FJORD sample_env (mkGas 100000 40000 4000)
      ((sample_env, ((sample_rollup_js, tt), None)), Some sample_l1_info)
      = (Ok tt, ((sample_env, ((j', tt), None)), Some sample_l1_info)) /\
    ledger (accounts (state j')) BASE_FEE_RECIPIENT BASE_TOKEN_ID = 7 * 56000 /\
    ledger (accounts (state j')) L1_FEE_RECIPIENT BASE_TOKEN_ID = 5 + 1700.
Proof.
  destruct (base_fee_vault_is_overwritten (DB := EmptyDB) (DbErr := False) sample_ordinary FJORD sample_env
    (mkGas 100000 40000 4000) sample_rollup_js tt None sample_l1_info [0xfa; 0xca; 0xde] 1700 sample_coinbase
    (Account_from_info (AccountInfo_from_balances (init_balances 5)))
    (Account_from_info (AccountInfo_from_balances (init_balances 1000)))) as (j' & H & Hl & _);
    try (split; vm_compute; (discriminate || reflexivity)); try (vm_compute; (discriminate || reflexivity)).
  exists j'. split; [exact H|]. rewrite !Hl. split; vm_compute; reflexivity.
Defined.

Lemma data_cost_is_charged_witness :
  exists j',
    op_deduct_caller (DbErr := False) sample_ordinary FJORD sample_env
      ((sample_env, ((sample_rollup_js, tt), None)), Some sample_l1_info)
      = (Ok tt, ((sample_env, ((j', tt), None)), Some sample_l1_info)) /\
    ledger (accounts (state j')) 9 BASE_TOKEN_ID = 1100000 - 1700.
Proof.
  destruct (data_cost_is_charged (DB := EmptyDB) (DbErr := False) sample_ordinary FJORD sample_env sample_rollup_js tt
    None sample_l1_info [0xfa; 0xca; 0xde] 1700 sample_payer sample_payer) as (j' & H & Hl);
    [reflexivity|reflexivity|reflexivity|vm_compute; reflexivity|discriminate|reflexivity|apply wf_sample_env
    |vm_compute; reflexivity|reflexivity|vm_compute; reflexivity|].
  exists j'. split; [exact H|]. rewrite Hl. vm_compute. reflexivity.
Defined.
End witnesses.
