(* ===== verification/RollupLoop.v ===== *)
(** A transaction of the rollup ends: the handlers of [Optimism.v] around the loop
    over the call stack, in a world without EOF code. *)

From S2P Require Import Prelude Specification L1Block Bytes Eof Bytecode State Result.
From S2P Require Import InstructionResult Database Journal JournalRun InMemoryDb JournalSpec.
From S2P Require Import CallInputs Gas Env Interpreter HostInstructions Context ContextSteps Frames.
From S2P Require Import Handler Fees Evm.
From S2P Require Import InterpreterLoop EvmFrames EvmLoop.
From S2P Require Import Precompile Curves PrecompileSets FastLz Optimism.

(** ** The precompiles *)

Section precompiles.
Context {DB DbErr : Type} `{HDB : Database DB DbErr} `{HL : !DatabaseLegacy DB DbErr} `{HK : Keccak}.
Context `{HCr : Crypto} `{HP : P256} (features : Features).

Lemma p256_charges : charges_gas (pwa_precompile P256VERIFY).
Proof.
  apply charges_standard. intros input g. unfold p256_verify, P256VERIFY_BASE. destruct (_ <? _); [by intros r|].
  intros r Hr. inv_bind Hr. by apply never_negative_returns in Hr.
Qed.

Lemma op_precompiles_fine spec : precompiles_fine (DbErr := DbErr) (op_load_precompiles (DB := DB) features spec).
Proof.
  assert (Hc : map_Forall (fun _ => charges_gas)
    (if op_enabled spec FJORD then extend (Precompiles_new features (op_from_spec_id spec)) [P256VERIFY]
     else Precompiles_new features (op_from_spec_id spec))).
  { destruct (op_enabled spec FJORD); [apply extend_forall; [|apply Forall_singleton, p256_charges]|];
      apply precompiles_charge. }
  unfold precompiles_fine, map_Forall, op_load_precompiles, ContextPrecompiles_from. intros a f Hf.
  apply (lookup_fmap_Some (M := gmap Address) (fun v => CP_Ordinary (Precompile_call v))) in Hf as (v & <- & Hv).
  intros input gas env r Hr. apply (Hc _ _ Hv) in Hr. by destruct r.
Qed.
End precompiles.

Section loop.
Context {DB DbErr : Type} `{HDB : Database DB DbErr} `{HL : !DatabaseLegacy DB DbErr} `{HK : Keccak}
  `{HC : CreateAddress}.
Context `{HCr : Crypto} `{HP : P256} (features : Features) (op : OptimismFields).
Abbreviation OpContext := (EvmContext (DB := DB) (DbErr := DbErr) * option L1BlockInfo)%type.
Abbreviation OpM := (M OpContext (EVMError DbErr)).
Abbreviation CtxM := (M (JournaledState * DB) (EVMError DbErr)).
Implicit Types (c : OpContext).

(** A context of a legacy world, with the environment [env]. *)
Definition settled_in (env : Env) c : Prop := grounded c.1.2.1 /\ c.1.1 = env.
Definition stays {A} (env : Env) (P : A -> Prop) (m : OpM A) : Prop :=
  forall c, settled_in env c -> wp m (fun a c' => P a /\ settled_in env c') c.
Abbreviation stays_any env m := (stays env (fun _ => True) m).

Lemma stays_bind {A B} env (P : A -> Prop) (Q : B -> Prop) (m : OpM A) f :
  stays env P m -> (forall a, P a -> stays env Q (f a)) -> stays env Q (m ≫= f).
Proof.
  intros Hm Hf c Hc. apply wp_bind. eapply wp_mono; [by apply Hm|]. intros a c' [Ha Hc']. by apply (Hf a).
Qed.
Lemma stays_ret {A} env (P : A -> Prop) (a : A) : P a -> stays env P (mret a).
Proof. by intros Ha c Hc. Qed.
Lemma stays_fail {A} env (P : A -> Prop) e : stays env P (fail (A := A) e).
Proof. done. Qed.
Lemma stays_lift {A} env (P : A -> Prop) (o : outcome (EVMError DbErr) A) :
  (forall a, o = Ok a -> P a) -> stays env P (lift o).
Proof. intros Ho c Hc. apply wp_lift. intros a Ha. split; [by apply Ho|done]. Qed.
Lemma stays_inner {A} env (P : A -> Prop) (m : CtxM A) : steady P m -> stays env P (inner m).
Proof.
  intros Hm [[e s] i] [Hg He]. simpl in *. subst. apply wp_zoom, wp_zoom, wp_zoom.
  eapply wp_mono; [by apply Hm|]. by intros a s' [Ha Hs'].
Qed.
Lemma stays_calms {A} env (P : A -> Prop) (m : CtxM A) : calms P m -> stays env P (inner m).
Proof. intros Hm. by apply stays_inner, steady_calms. Qed.

(** ** The handlers *)

Lemma fetch_keeps spec d r d' : db_legacy d -> try_fetch spec d = (r, d') -> db_legacy d'.
Proof.
  assert (Hs : forall slot d r d', db_legacy d -> l1_storage slot d = (r, d') -> db_legacy d')
    by (intros ? ? ? ?; apply db_storage_legacy).
  assert (Hb : forall {A} (m : M DB DbErr A) {B} (f : A -> M DB DbErr B),
    (forall d r d', db_legacy d -> m d = (r, d') -> db_legacy d') ->
    (forall a d r d', db_legacy d -> f a d = (r, d') -> db_legacy d') ->
    forall d r d', db_legacy d -> (m ≫= f) d = (r, d') -> db_legacy d').
  { intros A m B f Hm Hf d0 r0 d0' H0 H. apply M_bind_inv in H as [(a & d1 & H1 & H2)|[(e & H1 & _)|[H1 _]]]; eauto. }
  assert (Hret : forall {A} (a : A) d r d', db_legacy d -> mret (M := M DB DbErr) a d = (r, d') -> db_legacy d')
    by (by intros A a d0 r0 d0' H0 [= _ <-]).
  assert (Hlift : forall {A} (o : outcome DbErr A) d r d', db_legacy d -> lift o d = (r, d') -> db_legacy d')
    by (by intros A a d0 r0 d0' H0 [= _ <-]).
  unfold try_fetch. revert d r d'. apply Hb; [destruct (op_enabled _ _); [|apply Hret]|].
  { apply Hb; [|intros _; apply Hret]. intros d r d' H0 H. by apply basic_legacy in H as [? _]. }
  intros _. apply Hb; [apply Hs|intros base_fee]. destruct (negb _).
  - do 2 (apply Hb; [apply Hs|intros ?]). apply Hret.
  - do 2 (apply Hb; [apply Hs|intros ?]). do 3 (apply Hb; [apply Hlift|intros ?]).
    apply Hb; [|intros ?; apply Hret]. destruct (_ && _); [|apply Hret]. apply Hb; [apply Hs|intros ?; apply Hret].
Qed.

Lemma stays_load_accounts spec env : stays_any env (op_load_accounts op spec env).
Proof.
  apply (stays_bind _ (fun _ => True)); [destruct (negb (is_deposit op)); [|by apply stays_ret]|].
  - apply (stays_bind _ (fun _ => True)); [|by intros i _ c Hc].
    apply stays_calms, calms_on_db_any. apply fetch_keeps.
  - intros _ _. apply stays_inner, steady_load_accounts.
Qed.

Lemma stays_deduct_caller spec env : stays_any env (op_deduct_caller op spec env).
Proof.
  apply (stays_bind _ (fun _ => True)); [apply stays_calms, calms_load_account_any|intros _ _].
  apply (stays_bind _ (fun _ => True)); [|intros _ _].
  { destruct (op_mint op); [|by apply stays_ret]. apply stays_calms, calms_on_js, jcalms_update. by intros x Hx. }
  apply (stays_bind _ legacy_account); [apply stays_calms, calms_account|intros x Hx].
  apply (stays_bind _ legacy_account); [|intros y Hy].
  { apply stays_lift. intros y Hy. apply deducted_code in Hy. unfold legacy_account. by rewrite Hy. }
  apply (stays_bind _ (fun _ => True)); [by apply stays_calms, calms_replace|intros _ _].
  destruct (is_deposit op); [by apply stays_ret|]. destruct (enveloped_tx op); [|apply stays_fail].
  apply (stays_bind _ (fun _ => True)); [by intros c Hc|intros i _].
  do 2 (apply (stays_bind _ (fun _ => True)); [by apply stays_lift|intros ? _]).
  cbv zeta. destruct (_ <? _); [apply stays_fail|]. apply stays_calms, calms_on_js, jcalms_update. by intros z Hz.
Qed.

Lemma stays_preverify spec env :
  stays env (fun g => 0 <= g <= tx_gas_limit (tx env)) (op_preverify_transaction_inner op spec env).
Proof.
  apply (stays_bind _ (fun _ => True)); [by apply stays_lift|intros _ _].
  apply (stays_bind _ (fun g => 0 <= g <= tx_gas_limit (tx env))); [apply stays_lift, initial_tx_gas_nonneg|intros g Hg].
  apply (stays_bind _ (fun _ => True)); [|intros _ _; by apply stays_ret].
  unfold op_tx_against_state. destruct (is_deposit op); [by apply stays_ret|]. apply stays_calms, calms_tx_against_state.
Qed.

Lemma op_first_frame_spec spec env gas_limit c :
  settled_in env c -> fits 64 gas_limit ->
  wp (op_first_frame features spec env gas_limit) (fun fr c' => ready gas_limit fr c'.1.2.1) c.
Proof.
  intros [[Hl Hd] He] Hg. unfold op_first_frame.
  destruct (transact_to (tx env)) eqn:Hto; apply wp_bind, wp_lift; intros inputs Hi; apply wp_zoom, wp_zoom, wp_zoom.
  - unfold CallInputs_new in Hi. rewrite Hto in Hi. injection Hi as <-.
    eapply wp_mono; [apply make_call_frame_spec; [by apply op_precompiles_fine|exact Hl|exact Hg|exact Hd]|].
    intros fr t' H. by eapply entered_ready in H.
  - unfold CreateInputs_new in Hi. rewrite Hto in Hi. injection Hi as <-.
    eapply wp_mono; [apply make_create_frame_spec; [exact Hl|exact Hg|exact Hd]|]. intros fr t' H. by eapply entered_ready in H.
Qed.

Lemma settles_on_ctx {A} n (m : nat -> M (EvmContext (DB := DB) (DbErr := DbErr)) (EVMError DbErr) (option A)) c :
  settles n m c.1 -> settles n (fun fuel => on_evm_ctx (m fuel)) c.
Proof.
  intros (r & c1 & Hr & Hm). exists r, (c1, c.2). split; [done|]. intros fuel Hf.
  unfold on_evm_ctx, zoom. by rewrite (Hm fuel Hf).
Qed.

(** The execution and what follows it. *)
Lemma op_inner_settles spec env g c :
  settled_in env c -> fits 64 (tx_gas_limit (tx env)) -> 0 <= g <= tx_gas_limit (tx env) ->
  settles (2 * tx_gas_limit (tx env) + 1) (fun fuel => op_transact_preverified_inner features op fuel spec env g) c.
Proof.
  intros Hc Hl Hg. unfold op_transact_preverified_inner. set (limit := tx_gas_limit (tx env)) in *.
  apply settles_bind_l. eapply wp_mono; [by apply stays_load_accounts|]. intros _ c1 [_ Hc1].
  apply settles_bind_l. eapply wp_mono; [by apply (stays_inner env (fun _ => True)); [apply steady_modify|]|].
  intros _ c2 [_ Hc2]. apply settles_bind_l. eapply wp_mono; [by apply stays_deduct_caller|]. intros _ c3 [_ Hc3].
  cbv zeta. fold limit.
  assert (Hfit : wrapping_sub 64 limit g = limit - g) by (apply wrapping_sub_fits; unfold fits in *; lia).
  rewrite Hfit. apply settles_bind_l.
  eapply wp_mono; [apply op_first_frame_spec; [done|unfold fits in *; lia]|]. intros fr c4 Hfr.
  apply (settles_bind_r _ (fun fuel => op_run_first_frame features fuel spec fr)).
  destruct fr as [f|r]; cbn [op_run_first_frame]; [|by exists (Ok (Some r)), c4].
  destruct Hfr as (Hf & Hleft & Hl4 & Hd4). apply settles_on_ctx.
  destruct (run_the_loop_ends (op_load_precompiles features spec) (ethereum_of spec) f c4.1) as (r & c5 & Hr & Hrun);
    [apply op_precompiles_fine|done..|].
  exists r, c5. split; [done|]. intros fuel Hfu. apply Hrun. lia.
Qed.

(** C11: Executing a transaction of the rollup terminates.  In a world without EOF code,
    where the database serves none, with a gas limit of 64 bits, [op_transact] ends,
    with a result, an error or a panic, within twice the gas limit and two more
    iterations of the loop over the call stack, for deposits as for the other
    transactions; more fuel changes nothing.  *)
Theorem op_transact_terminates spec c :
  legacy_world c.1.2.1 -> 0 <= depth c.1.2.1.1 -> fits 64 (tx_gas_limit (tx c.1.1)) ->
  settles (2 * tx_gas_limit (tx c.1.1) + 1) (fun fuel => op_transact features op fuel spec) c.
Proof.
  intros Hl Hd Hg. unfold settles, op_transact. cbv zeta.
  pose proof (stays_preverify spec c.1.1 c (conj (conj Hl Hd) eq_refl)) as Hpre. unfold wp in Hpre.
  destruct (op_preverify_transaction_inner op spec c.1.1 c) as [[g|e|] c1]; [|by exists (Err e), (op_clear c1).2|by exists Panic, c1].
  destruct Hpre as [Hgi Hc1]. destruct (op_inner_settles spec c.1.1 g c1 Hc1 Hg Hgi) as (r & c2 & Hr & Hrun).
  destruct (op_end op spec (fun c => (r, c2)) c1) as [r' c3] eqn:He.
  assert (Hend : forall fuel, 2 * tx_gas_limit (tx c.1.1) + 1 < Z.of_nat fuel ->
    op_end op spec (op_transact_preverified_inner features op fuel spec c.1.1 g) c1 = (r', c3)).
  { intros fuel Hfu. rewrite <- He. destruct c1 as [[env s] i].
    unfold op_end, mbind, M_bind, Prelude.get, attempt. by rewrite (Hrun fuel Hfu). }
  assert (Hne : r' <> Ok None).
  { destruct c1 as [[env s] i]. unfold op_end, mbind, M_bind, Prelude.get, attempt in He.
    unfold mret, M_ret, fail in He.
    destruct r as [[a|]|[]|]; [by simplify_eq|done| |by simplify_eq..].
    destruct (is_deposit op); [|by simplify_eq].
    destruct (failed_deposit op spec _ c2) as [[] ?]; by simplify_eq. }
  exists (match r' with Panic => Panic | r => r end), (match r' with Panic => c3 | _ => (op_clear c3).2 end).
  split; [by destruct r'|]. intros fuel Hfu. rewrite (Hend fuel Hfu). by destruct r'.
Qed.
End loop.

(** ** Witness *)

Section witness.
#[local] Existing Instances sample_crypto sample_keccak sample_create_address sample_p256.
#[local] Instance empty_database : Database EmptyDB False := EmptyDB_database.
#[local] Program Instance empty_legacy : DatabaseLegacy EmptyDB False := {| db_legacy := fun _ => True |}.
Solve All Obligations with (simpl; intros; simplify_eq; repeat split; intros; by simplify_eq).

(** A deposit to the contract that jumps back for ever. *)
Lemma op_transact_terminates_witness :
  exists r c', r <> Ok None /\ forall fuel, 42201 < Z.of_nat fuel ->
    op_transact Features_default sample_deposit fuel FJORD (looping_context 0, None) = (r, c').
Proof.
  destruct (op_transact_terminates (DbErr := False) Features_default sample_deposit FJORD (looping_context 0, None))
    as (r & c' & Hr & Hf); [apply looping_world|done|by split|].
  exists r, c'. split; [exact Hr|]. intros fuel Hfu. apply Hf. exact Hfu.
Defined.
End witness.
