(* ===== verification/WordTypes.v ===== *)
(** The types of the machine: words of 256 bits, byte strings that fit the address
    space, legacy code; and that the operations on words, on the stack and on the
    memory stay within them.  The model keeps words in [Z], so that this is what
    the types of the source give for free. *)

From S2P Require Import Prelude.
From S2P Require Import Bytes.
From S2P Require Import Triples.
From S2P Require Import Eof.
From S2P Require Import Bytecode.
From S2P Require Import Result.
From S2P Require Import InstructionResult.
From S2P Require Import Stack.
From S2P Require Import SharedMemory.
From S2P Require Import I256.
From S2P Require Import Analysis.
From S2P Require Import Gas.
From S2P Require Import Interpreter.
From S2P Require Import Instructions.

Abbreviation word := (fits 256).

(** ** Words *)

Lemma fits_wider v w z : 0 <= v <= w -> fits v z -> fits w z.
Proof. intros Hv [H0 H1]. split; [done|]. eapply Z.lt_le_trans; [done|]. apply Z.pow_le_mono_r; lia. Qed.
Lemma word_64 z : fits 64 z -> word z.
Proof. by apply fits_wider. Qed.
Lemma word_160 z : fits 160 z -> word z.
Proof. by apply fits_wider. Qed.

Lemma fits_bits w z : 0 <= w -> 0 <= z -> (forall n, w <= n -> Z.testbit z n = false) -> fits w z.
Proof.
  intros Hw Hz Hb. split; [done|]. destruct (Z.eq_dec z 0) as [->|Hne]; [by apply Z.pow_pos_nonneg|].
  apply Z.log2_lt_pow2; [lia|]. destruct (Z.lt_ge_cases (Z.log2 z) w) as [|Hge]; [done|].
  specialize (Hb _ Hge). rewrite Z.bit_log2 in Hb by lia. done.
Qed.
Lemma fits_bit w z n : 0 <= w -> fits w z -> w <= n -> Z.testbit z n = false.
Proof.
  intros Hw [H0 H1] Hn. destruct (Z.eq_dec z 0) as [->|Hne]; [apply Z.bits_0|].
  apply Z.bits_above_log2; [done|]. apply Z.log2_lt_pow2; [lia|].
  eapply Z.lt_le_trans; [done|]. apply Z.pow_le_mono_r; lia.
Qed.
Lemma word_land a b : word a -> word b -> word (Z.land a b).
Proof.
  intros Ha Hb. apply fits_bits; [done|apply Z.land_nonneg; left; apply Ha|]. intros n Hn.
  by rewrite Z.land_spec, (fits_bit 256 a) by done.
Qed.
Lemma word_lor a b : word a -> word b -> word (Z.lor a b).
Proof.
  intros Ha Hb. apply fits_bits; [done|apply Z.lor_nonneg; split; [apply Ha|apply Hb]|]. intros n Hn.
  by rewrite Z.lor_spec, !(fits_bit 256) by done.
Qed.
Lemma word_lxor a b : word a -> word b -> word (Z.lxor a b).
Proof.
  intros Ha Hb. apply fits_bits; [done|apply Z.lxor_nonneg; split; intros; [apply Hb|apply Ha]|]. intros n Hn.
  by rewrite Z.lxor_spec, !(fits_bit 256) by done.
Qed.
Lemma fits_quotient w a b : fits w a -> 0 < b -> fits w (a / b).
Proof.
  intros [H0 H1] Hb. split; [by apply Z.div_pos|]. eapply Z.le_lt_trans; [|exact H1].
  clear H1. apply Z.div_le_upper_bound; nia.
Qed.
Lemma word_div a b : word a -> word b -> b <> 0 -> word (a / b).
Proof. intros Ha [? ?] Hb. apply fits_quotient; [done|lia]. Qed.
Lemma word_mod a b : word b -> b <> 0 -> word (a mod b).
Proof. intros [] Hb. pose proof (Z.mod_pos_bound a b). split; lia. Qed.
Lemma word_shiftr a n : word a -> 0 <= n -> word (Z.shiftr a n).
Proof.
  intros Ha Hn. rewrite Z.shiftr_div_pow2 by done. apply fits_quotient; [done|]. by apply Z.pow_pos_nonneg.
Qed.
Lemma word_not_word a : word a -> word (word_not a).
Proof. intros []. unfold word_not, U256_MAX. split; lia. Qed.
Lemma word_bool b : word (bool_word b).
Proof. by destruct b. Qed.
Lemma word_i256_div a b : word a -> word b -> word (i256_div a b).
Proof. intros. rewrite i256_div_spec by done. case_match; [done|]. by apply fits_cast. Qed.
Lemma word_i256_mod a b : word a -> word b -> word (i256_mod a b).
Proof. intros. rewrite i256_mod_spec by done. case_match; [done|]. by apply fits_cast. Qed.
Lemma word_signextend a b : word a -> word b -> word (signextend_word a b).
Proof. intros [] ?. rewrite signextend_word_spec by done. case_match; [by apply fits_cast|done]. Qed.
Lemma word_sar n a : 0 <= n -> word a -> word (sar_word n a).
Proof. intros. rewrite sar_word_spec by done. by apply fits_cast. Qed.
Lemma word_shl n a : word (shl_word n a).
Proof. unfold shl_word. case_match; [by apply fits_cast|done]. Qed.
Lemma word_shr n a : 0 <= n -> word a -> word (shr_word n a).
Proof. intros. unfold shr_word. case_match; [by apply word_shiftr|done]. Qed.
Lemma word_byte n a : 0 <= n -> word (byte_word n a).
Proof.
  intros. rewrite byte_word_spec by done. case_match; [|done].
  pose proof (Z.mod_pos_bound (a / 256 ^ (31 - n)) 256). split; lia.
Qed.

Lemma wrapping_pow_word b e : word b -> word (wrapping_pow b e).
Proof.
  intros Hb. destruct e as [|p|p]; try done. cbn [wrapping_pow]. revert b Hb.
  induction p as [p IH|p IH|]; intros b Hb; cbn [Pos.iter_op]; [by apply fits_wrapping_add || apply Z.mod_pos_bound| |done].
  apply IH. by apply Z.mod_pos_bound.
Qed.

Lemma as_usize_fits v : 0 <= v -> fits 64 (as_usize_saturated v).
Proof.
  intros Hv. unfold as_usize_saturated, as_u64_saturated. case_match; [by apply fits_cast|done].
Qed.

(** ** Byte strings *)

Record wf_bytes (b : bytes) : Prop := { wb_bytes : Forall is_byte b; wb_len : len b < 2 ^ 64 }.

Lemma wf_bytes_nil : wf_bytes [].
Proof. by split. Qed.
Lemma wf_bytes_shorter b b' : wf_bytes b -> Forall is_byte b' -> len b' <= len b -> wf_bytes b'.
Proof. intros [] ? ?. split; [done|lia]. Qed.
Lemma wf_bytes_take n b : wf_bytes b -> wf_bytes (take n b).
Proof. intros [? ?]. split; [by apply Forall_take|]. unfold len in *. rewrite length_take. lia. Qed.
Lemma wf_bytes_drop n b : wf_bytes b -> wf_bytes (drop n b).
Proof. intros [? ?]. split; [by apply Forall_drop|]. unfold len in *. rewrite length_drop. lia. Qed.
Lemma wf_bytes_slice {E} b i j b' : wf_bytes b -> slice (E := E) b i j = Ok b' -> wf_bytes b'.
Proof. unfold slice. case_match; [|done]. intros Hb [= <-]. by apply wf_bytes_take, wf_bytes_drop. Qed.
Lemma wf_bytes_len b : wf_bytes b -> fits 64 (len b).
Proof. intros [_ H]. split; [apply len_nonneg|done]. Qed.
Lemma wf_bytes_to_be n z : (n <= 64)%nat -> wf_bytes (to_be_bytes n z).
Proof. intros Hn. split; [apply to_be_bytes_is_byte|]. unfold len. rewrite length_to_be_bytes. lia. Qed.

Lemma from_be_word l : Forall is_byte l -> len l <= 32 -> word (from_be_bytes l).
Proof.
  intros Hl Hn. pose proof (from_be_bytes_bound l Hl) as [? ?]. split; [done|].
  eapply Z.lt_le_trans; [done|]. change (2 ^ 256) with (256 ^ 32). apply Z.pow_le_mono_r; lia.
Qed.
Lemma left_aligned_fits l : Forall is_byte l -> len l <= 32 -> word (left_aligned_word l).
Proof.
  intros Hl Hn. apply from_be_word.
  - apply Forall_app. split; [done|]. by apply Forall_replicate.
  - unfold len in *. rewrite length_app, length_replicate. lia.
Qed.

(** ** Code *)

(** Legacy code: the bytes run, and the ones of the original. *)
Definition typed_code (c : Bytecode) : Prop :=
  match c with
  | LegacyRaw b => wf_bytes b
  | LegacyAnalyzed a =>
      Forall is_byte (analyzed_bytecode a) /\ len (analyzed_bytecode a) <= 2 ^ 65 /\ fits 64 (original_len a)
  | BytecodeEof _ => False
  end.

Lemma typed_Bytecode_new : typed_code Bytecode_new.
Proof. split; [by repeat constructor|done]. Qed.
Lemma typed_to_analysed c : typed_code c -> typed_code (to_analysed c).
Proof.
  destruct c as [b| |]; [|done..]. intros Hb. split_and!.
  - apply Forall_app. split; [apply Hb|]. by apply Forall_replicate.
  - pose proof (wb_len _ Hb). cbn [analyzed_bytecode]. rewrite len_app. change (len (replicate 33 0)) with 33. lia.
  - by apply wf_bytes_len.
Qed.
Lemma typed_code_legacy c : typed_code c -> is_eof c = false.
Proof. by destruct c. Qed.
Lemma typed_code_len c : typed_code c -> word (Bytecode_len c).
Proof. destruct c; [intros; by apply word_64, wf_bytes_len|intros (_ & _ & H); by apply word_64|done]. Qed.
Lemma typed_code_original c : typed_code c -> wf_bytes (original_byte_slice c).
Proof.
  destruct c as [b|a|]; [done| |done]. intros (Hb & _ & H0 & H1). split; [by apply Forall_take|].
  cbn. unfold LegacyAnalyzed_original_bytes, len. rewrite length_take. lia.
Qed.
Lemma typed_code_bytes c b : typed_code c -> Bytecode_bytecode c = Some b -> Forall is_byte b /\ len b <= 2 ^ 65.
Proof. destruct c as [b'|a|]; [|by intros (? & ? & _) [= <-]|done]. intros [] [= <-]. split; [done|lia]. Qed.

(** ** The stack *)

Abbreviation words := (Forall (fits 256)).

Section stack.
Abbreviation keeps P := (preserves words P).

Lemma reverse_cons_inv (data : Stack) x l : reverse data = x :: l -> x ∈ data.
Proof. intros H. apply elem_of_reverse. rewrite H. apply elem_of_cons. by left. Qed.
Lemma words_in (data : Stack) x : words data -> x ∈ data -> word x.
Proof. intros H. by apply Forall_forall. Qed.

Lemma keeps_pop : keeps word Stack.pop.
Proof.
  intros data Hd. unfold Stack.pop. destruct (reverse data) eqn:Hr; [done|]. apply reverse_cons_inv in Hr.
  split; [by eapply words_in|by apply Forall_take].
Qed.
Lemma keeps_pop_unsafe : keeps word pop_unsafe.
Proof.
  intros data Hd. unfold pop_unsafe. destruct (reverse data) eqn:Hr; [done|]. apply reverse_cons_inv in Hr.
  split; [by eapply words_in|by apply Forall_take].
Qed.
Lemma keeps_top_unsafe : keeps word top_unsafe.
Proof.
  intros data Hd. unfold top_unsafe. destruct (last data) eqn:Hl; [|done]. apply last_Some_elem_of in Hl.
  split; [by eapply words_in|done].
Qed.
Lemma keeps_set_top_unsafe v : word v -> keeps (fun _ => True) (set_top_unsafe v).
Proof. intros Hv data Hd. unfold set_top_unsafe. destruct data; [done|]. split; [done|]. by apply Forall_insert. Qed.
Lemma keeps_push v : word v -> keeps (fun _ => True) (push v).
Proof. intros Hv data Hd. unfold push. on_if; [done|]. split; [done|]. apply Forall_app_2; [done|by apply Forall_singleton]. Qed.

Definition word2 (p : Z * Z) : Prop := word p.1 /\ word p.2.
Definition word3 (p : Z * Z * Z) : Prop := word2 p.1 /\ word p.2.
Definition word4 (p : Z * Z * Z * Z) : Prop := word3 p.1 /\ word p.2.

Lemma keeps_pop_top : keeps word2 pop_top_unsafe.
Proof.
  eapply preserves_bind; [apply keeps_pop_unsafe|intros a Ha]. eapply preserves_bind; [apply keeps_top_unsafe|intros b Hb].
  by apply preserves_ret.
Qed.
Lemma keeps_pop2 : keeps word2 pop2_unsafe.
Proof. do 2 (eapply preserves_bind; [apply keeps_pop_unsafe|intros ? ?]). by apply preserves_ret. Qed.
Lemma keeps_pop3 : keeps word3 pop3_unsafe.
Proof. do 3 (eapply preserves_bind; [apply keeps_pop_unsafe|intros ? ?]). by apply preserves_ret. Qed.
Lemma keeps_pop4 : keeps word4 pop4_unsafe.
Proof. do 4 (eapply preserves_bind; [apply keeps_pop_unsafe|intros ? ?]). by apply preserves_ret. Qed.
Lemma keeps_pop2_top : keeps word3 pop2_top_unsafe.
Proof.
  do 2 (eapply preserves_bind; [apply keeps_pop_unsafe|intros ? ?]).
  eapply preserves_bind; [apply keeps_top_unsafe|intros ? ?]. by apply preserves_ret.
Qed.

Lemma keeps_dup n : keeps (fun _ => True) (dup n).
Proof.
  intros data Hd. unfold dup. do 3 (on_if; [done|]). destruct (data !! _) eqn:Hx; [|done]. split; [done|].
  apply Forall_app_2; [done|]. apply Forall_singleton. eapply words_in; [done|]. by eapply list_elem_of_lookup_2.
Qed.
Lemma keeps_exchange n m : keeps (fun _ => True) (exchange n m).
Proof.
  intros data Hd. unfold exchange. cbv zeta. do 2 (on_if; [done|]).
  destruct (data !! Z.to_nat (len data - 1 - n)) eqn:Hx; [|done]. destruct (data !! Z.to_nat (len data - 1 - (n + m))) eqn:Hy; [|done].
  split; [done|]. repeat apply Forall_insert; try done; (eapply words_in; [done|]; by eapply list_elem_of_lookup_2).
Qed.

Lemma slice_words_fit fuel l : Forall is_byte l -> words (slice_words fuel l).
Proof.
  revert l. induction fuel as [|fuel IH]; intros l Hl; cbn [slice_words]; [done|]. destruct l as [|b l]; [done|].
  constructor; [|by apply IH, Forall_drop]. apply from_be_word; [by apply Forall_take|].
  unfold len. rewrite length_take. lia.
Qed.
Lemma keeps_push_slice l : Forall is_byte l -> keeps (fun _ => True) (push_slice l).
Proof.
  intros Hl data Hd. unfold push_slice. destruct l as [|b l]; [done|]. cbv zeta. on_if; [done|]. split; [done|].
  apply Forall_app. split; [done|]. rewrite slice_limbs_words. by apply slice_words_fit.
Qed.
End stack.

(** ** The memory *)

Record typed_memory (m : SharedMemory) : Prop := {
  tm_bytes : Forall is_byte (buffer m);
  tm_len : len (buffer m) < 2 ^ 64;
  tm_checkpoints : Forall (fits 64) (checkpoints m);
  tm_last : fits 64 (last_checkpoint m);
}.

Lemma typed_memory_new : typed_memory SharedMemory_new.
Proof. by split. Qed.
Lemma typed_mem_len m : typed_memory m -> fits 64 (mem_len m).
Proof.
  intros [_ Hl _ [L0 L1]]. unfold mem_len, usize_sub. pose proof (len_nonneg (buffer m)).
  destruct (Z.leb_spec (last_checkpoint m) (len (buffer m))); split; lia.
Qed.
Lemma typed_new_context m : typed_memory m -> typed_memory (new_context m).
Proof.
  intros [Hb Hl Hc Hla]. pose proof (len_nonneg (buffer m)). split; try done. apply Forall_app_2; [done|by apply Forall_singleton].
Qed.
Lemma typed_free_context m : typed_memory m -> typed_memory (free_context m).
Proof.
  intros [Hb Hl Hc Hla]. unfold free_context. destruct (last (checkpoints m)) as [old|] eqn:Ho; [|done].
  assert (Hc' := Forall_take _ (length (checkpoints m) - 1) _ Hc). split; cbn [buffer checkpoints last_checkpoint]; try done.
  - by apply Forall_take.
  - unfold len in *. rewrite length_take. lia.
  - destruct (last (take _ _)) as [x|] eqn:Hx; [|done]. apply last_Some_elem_of in Hx.
    by eapply Forall_forall in Hc'.
Qed.
Lemma typed_resize n m : typed_memory m -> typed_memory (resize n m).
Proof.
  intros [Hb Hl Hc Hla]. split; cbn [resize buffer checkpoints last_checkpoint]; try done.
  - unfold vec_resize. apply Forall_app. split; [by apply Forall_take|by apply Forall_replicate].
  - unfold vec_resize, len. rewrite length_app, length_take, length_replicate.
    pose proof (fits_wrapping_add 64 (last_checkpoint m) n ltac:(lia)) as [? ?]. lia.
Qed.

Section memory.
Context {E : Type}.
Abbreviation keeps P m := (preserves (E := E) typed_memory P m).

Lemma typed_context m : typed_memory m -> wf_bytes (context_memory m).
Proof.
  intros [Hb Hl _ _]. split; [by apply Forall_drop|]. unfold context_memory, len in *. rewrite length_drop. lia.
Qed.
Lemma keeps_slice_range i j : keeps wf_bytes (mem_slice_range i j).
Proof.
  intros m Hm. unfold mem_slice_range. destruct (slice _ i j) eqn:Hs; try done.
  split; [|done]. eapply wf_bytes_slice; [|done]. by apply typed_context.
Qed.
Lemma keeps_mem_slice i n : keeps wf_bytes (mem_slice i n).
Proof. apply keeps_slice_range. Qed.
Lemma slice_len {A} (l : list A) i j l' : slice (E := E) l i j = Ok l' -> 0 <= i /\ len l' = j - i /\ j <= len l.
Proof.
  unfold slice. destruct (_ && _) eqn:Hc; [|done]. intros [= <-].
  apply andb_true_iff in Hc as [Hc H3]. apply andb_true_iff in Hc as [H1 H2].
  apply Z.leb_le in H1, H2, H3. split_and!; [done| |done]. unfold len in *. rewrite length_take, length_drop. lia.
Qed.
Lemma keeps_get_u256 i : keeps word (get_u256 i).
Proof.
  intros m Hm. unfold get_u256, get_word, mem_slice, mem_slice_range, mbind, M_bind.
  destruct (slice (E := E) _ _ _) as [l| |] eqn:Hs; try done. split; [|done].
  pose proof (typed_context m Hm) as Hw. apply (wf_bytes_slice (E := E) _ i (wrapping_add 64 i 32) l) in Hw as Hl; [|done].
  apply slice_len in Hs as (Hi & Hn & _). apply from_be_word; [apply Hl|]. rewrite Hn. unfold wrapping_add.
  pose proof (Z.mod_le (i + 32) (2 ^ 64)). lia.
Qed.

Lemma typed_write_slice i n l : Forall is_byte l -> keeps (fun _ => True) (write_slice i n l).
Proof.
  intros Hl m Hm. unfold write_slice. cbv zeta. destruct (_ && _) eqn:Hc; [|done]. split; [done|].
  apply andb_true_iff in Hc as [Hc H4]. apply andb_true_iff in Hc as [Hc H3]. apply andb_true_iff in Hc as [H1 H2].
  apply Z.leb_le in H1, H2, H3. apply Z.eqb_eq in H4. pose proof (wb_bytes _ (typed_context m Hm)) as Hcm.
  destruct Hm as [Hb Hlen Hc Hla]. split; cbn [set_context buffer checkpoints last_checkpoint]; try done.
  - apply Forall_app_2; [by apply Forall_take|]. unfold overwrite.
    apply Forall_app_2; [by apply Forall_take|]. apply Forall_app_2; [done|by apply Forall_drop].
  - rewrite len_app, len_overwrite by lia. unfold context_memory, len in *. rewrite length_take, length_drop. lia.
Qed.
Lemma typed_mem_set i l : Forall is_byte l -> keeps (fun _ => True) (mem_set i l).
Proof. intros Hl. unfold mem_set. destruct l; [by apply preserves_ret|by apply typed_write_slice]. Qed.
Lemma keeps_set_u256 i v : keeps (fun _ => True) (set_u256 i v).
Proof. apply typed_mem_set, to_be_bytes_is_byte. Qed.
Lemma keeps_set_byte i b : is_byte b -> keeps (fun _ => True) (set_byte i b).
Proof. intros Hb. by apply typed_mem_set, Forall_singleton. Qed.
Lemma typed_set_data i j n data : Forall is_byte data -> keeps (fun _ => True) (set_data i j n data).
Proof.
  intros Hd. unfold set_data. on_if; [by apply typed_write_slice, Forall_replicate|]. cbv zeta.
  eapply (preserves_bind _ (Forall is_byte)).
  - apply preserves_lift. intros l Hl. unfold slice in Hl. destruct (_ && _); [|done]. injection Hl as <-.
    by apply Forall_take, Forall_drop.
  - intros l Hl. apply preserves_seq; [by apply typed_write_slice|intros _]. by apply typed_write_slice, Forall_replicate.
Qed.
Lemma typed_mem_copy i j n : keeps (fun _ => True) (mem_copy i j n).
Proof.
  unfold mem_copy. eapply preserves_bind; [apply keeps_slice_range|]. intros l [Hl _]. by apply typed_write_slice.
Qed.
End memory.
