(* ===== verification/InterpreterTypes.v ===== *)
(** The interpreter is well typed on legacy code: whatever the code, its stack holds
    words, its memory and its return data bytes, and what it asks for carries words
    and bytes, as long as the host answers with words and legacy code. *)

From S2P Require Import Prelude.
From S2P Require Import Specification.
From S2P Require Import Bytes.
From S2P Require Import Triples.
From S2P Require Import Eof.
From S2P Require Import Bytecode.
From S2P Require Import State.
From S2P Require Import Result.
From S2P Require Import InstructionResult.
From S2P Require Import Database.
From S2P Require Import Journal.
From S2P Require Import CallInputs.
From S2P Require Import Gas.
From S2P Require Import Stack.
From S2P Require Import SharedMemory.
From S2P Require Import I256.
From S2P Require Import Analysis.
From S2P Require Import Env.
From S2P Require Import Interpreter.
From S2P Require Import Context.
From S2P Require Import Instructions.
From S2P Require Import HostInstructions.
From S2P Require Import Opcode.
From S2P Require Import InterpreterSafety.
From S2P Require Import InterpreterLoop.
From S2P Require Import InterpreterGas.
From S2P Require Import WordTypes.

(** ** The types *)

Abbreviation address := (fits 160).
Definition typed_transfer (t : TokenTransfer) : Prop := word (transfer_amount t).

(** Values as many as a vector of 64 bytes each can hold. *)
Record typed_values (l : list TokenTransfer) : Prop := {
  tv_amounts : Forall typed_transfer l;
  tv_len : len l <= 2 ^ 57;
}.
Lemma typed_values_nil : typed_values [].
Proof. by split. Qed.
Lemma typed_values_one id v : word v -> typed_values [mkTransfer id v].
Proof. intros Hv. split; [by apply Forall_singleton|done]. Qed.

Record typed_call (c : CallInputs) : Prop := {
  tc_input : wf_bytes (ci_input c);
  tc_gas : fits 64 (ci_gas_limit c);
  tc_target : address (target_address c);
  tc_caller : address (ci_caller c);
  tc_values : typed_values (call_values c);
}.
Record typed_create (c : CreateInputs) : Prop := {
  tcr_caller : address (cr_caller c);
  tcr_value : word (cr_value c);
  tcr_code : wf_bytes (cr_init_code c);
  tcr_gas : fits 64 (cr_gas_limit c);
}.
Record typed_result (r : InterpreterResult) : Prop := {
  tr_output : wf_bytes (ir_output r);
  tr_gas : fits 64 (remaining (ir_gas r));
}.

(** Legacy code asks for no EOF creation. *)
Definition typed_action (a : InterpreterAction) : Prop :=
  match a with
  | IA_Call c => typed_call c
  | IA_Create c => typed_create c
  | IA_EOFCreate _ => False
  | IA_Return r => typed_result r
  | IA_None => True
  end.

Record typed_contract (c : Contract) : Prop := {
  tct_input : wf_bytes (c_input c);
  tct_code : typed_code (c_bytecode c);
  tct_target : address (c_target_address c);
  tct_caller : address (c_caller c);
  tct_values : typed_values (c_call_values c);
}.

Record typed (i : Interpreter) : Prop := {
  t_pc : 0 <= instruction_pointer i <= 2 ^ 65;
  t_gas : fits 64 (remaining (in_gas i));
  t_contract : typed_contract (contract i);
  t_bytecode : Forall is_byte (in_bytecode i);
  t_length : len (in_bytecode i) <= 2 ^ 65;
  t_legacy : in_is_eof i = false;
  t_init : is_eof_init i = false;
  t_memory : typed_memory (shared_memory i);
  t_stack : words (stack i);
  t_return_data : wf_bytes (return_data_buffer i);
  t_action : typed_action (next_action i);
}.

(** ** The macros *)

Abbreviation tkeeps P m := (preserves typed P m).
Abbreviation tkeeps_any m := (preserves typed (fun _ => True) m).

Create HintDb typed.
#[export] Hint Resolve preserves_fail preserves_lift_any : typed.
#[export] Hint Extern 1 (preserves _ (fun _ => True) (mret _)) => apply preserves_ret; exact I : typed.

#[export] Hint Extern 5 (preserves _ (fun _ => True) (gets _)) => apply preserves_gets; done : typed.

Lemma tkeeps_modify f : (forall i, typed i -> typed (f i)) -> tkeeps_any (modify f : IM unit).
Proof. apply preserves_modify. Qed.
Lemma tkeeps_on_stack {A} (P : A -> Prop) (m : SM A) : preserves words P m -> tkeeps P (on_stack m).
Proof. apply preserves_zoom; [by intros i []|]. intros i t [] Ht. by split. Qed.
Lemma tkeeps_on_memory {A} (P : A -> Prop) m : preserves typed_memory P m -> tkeeps P (on_memory (A := A) m).
Proof. apply preserves_zoom; [by intros i []|]. intros i t [] Ht. by split. Qed.
Lemma typed_set_gas g i : typed i -> fits 64 (remaining g) -> typed (set_gas g i).
Proof. intros [] Hg. by split. Qed.
Lemma typed_set_memory m i : typed i -> typed_memory m -> typed (set_memory m i).
Proof. intros [] Hm. by split. Qed.
Lemma record_cost_fits c g : fits 64 (remaining g) -> fits 64 (remaining (record_cost c g).2).
Proof. unfold record_cost. intros Hg. destruct (_ <? _); cbn; [done|]. by apply fits_wrapping_sub. Qed.

Lemma tkeeps_gas c : tkeeps_any (gas c).
Proof.
  intros i Hi. unfold gas. pose proof (record_cost_fits c _ (t_gas _ Hi)) as Hg.
  destruct (record_cost c (in_gas i)) as [ok g]. assert (typed (set_gas g i)) by by apply typed_set_gas. by destruct ok.
Qed.
Lemma tkeeps_refund r : tkeeps_any (refund r).
Proof. apply tkeeps_modify. intros i Hi. by apply typed_set_gas; [|apply Hi]. Qed.
Lemma tkeeps_erase g : tkeeps_any (erase g).
Proof. apply tkeeps_modify. intros i Hi. apply typed_set_gas; [done|]. by apply fits_wrapping_add. Qed.
Lemma tkeeps_gas_or_fail c : tkeeps_any (gas_or_fail c).
Proof. destruct c; [apply tkeeps_gas|apply preserves_fail]. Qed.
Lemma tkeeps_require_stack n : tkeeps_any (require_stack n).
Proof. intros i Hi. unfold require_stack. by on_if. Qed.
Lemma tkeeps_require_non_staticcall : tkeeps_any require_non_staticcall.
Proof. intros i Hi. unfold require_non_staticcall. by on_if. Qed.
Lemma tkeeps_check s m : tkeeps_any (check s m).
Proof. unfold check. on_if; [apply preserves_fail|by apply preserves_ret]. Qed.

(** Legacy code does not pass the check for EOF code. *)
Lemma tkeeps_require_eof {A} (P : A -> Prop) f : tkeeps P (require_eof ≫= f).
Proof. intros i Hi. unfold mbind, M_bind, require_eof. by rewrite (t_legacy _ Hi). Qed.
Lemma tkeeps_require_init_eof {A} (P : A -> Prop) f : tkeeps P (require_init_eof ≫= f).
Proof. intros i Hi. unfold mbind, M_bind, require_init_eof. by rewrite (t_init _ Hi). Qed.

Ltac solve_pop := apply preserves_seq; [apply tkeeps_require_stack|intros _]; apply tkeeps_on_stack.
Lemma tkeeps_pop1 : tkeeps word pop1.
Proof. solve_pop. apply keeps_pop_unsafe. Qed.
Lemma tkeeps_pop2 : tkeeps word2 pop2.
Proof. solve_pop. apply keeps_pop2. Qed.
Lemma tkeeps_pop3 : tkeeps word3 pop3.
Proof. solve_pop. apply keeps_pop3. Qed.
Lemma tkeeps_pop4 : tkeeps word4 pop4.
Proof. solve_pop. apply keeps_pop4. Qed.
Lemma tkeeps_top1 : tkeeps word top1.
Proof. solve_pop. apply keeps_top_unsafe. Qed.
Lemma tkeeps_pop_top2 : tkeeps word2 pop_top2.
Proof. solve_pop. apply keeps_pop_top. Qed.
Lemma tkeeps_pop_top3 : tkeeps word3 pop_top3.
Proof. solve_pop. apply keeps_pop2_top. Qed.
Lemma tkeeps_pop_address : tkeeps address pop_address.
Proof. eapply preserves_bind; [apply tkeeps_pop1|]. intros w _. apply preserves_ret. by apply fits_cast. Qed.
Lemma tkeeps_set_top v : word v -> tkeeps_any (set_top v).
Proof. intros Hv. by apply tkeeps_on_stack, keeps_set_top_unsafe. Qed.
Lemma tkeeps_push v : word v -> tkeeps_any (push_value v).
Proof. intros Hv. by apply tkeeps_on_stack, keeps_push. Qed.

Lemma tkeeps_as_usize_with r v : tkeeps (fits 64) (as_usize_or_fail_with r v).
Proof. unfold as_usize_or_fail_with. on_if; [apply preserves_fail|]. apply preserves_ret. by apply fits_cast. Qed.
Lemma tkeeps_as_usize v : tkeeps (fits 64) (as_usize_or_fail v).
Proof. apply tkeeps_as_usize_with. Qed.
Lemma tkeeps_resize o n : tkeeps_any (resize_memory_to o n).
Proof.
  intros i Hi. unfold resize_memory_to. cbv zeta. on_if; [|done]. unfold resize_memory.
  match goal with |- context [record_cost ?c ?g] =>
    pose proof (record_cost_fits c g (t_gas _ Hi)) as Hg; destruct (record_cost c g) as [ok g'] end.
  cbv beta iota zeta. destruct ok; [split; [done|]|]; apply typed_set_gas, Hg; apply typed_set_memory; try done;
    [apply typed_resize|]; apply Hi.
Qed.
Lemma tkeeps_halt r : tkeeps_any (halt r).
Proof. apply tkeeps_modify. intros i []. by split. Qed.
Lemma tkeeps_set_action a : typed_action a -> tkeeps_any (modify (set_next_action a) : IM unit).
Proof. intros Ha. apply tkeeps_modify. intros i []. by split. Qed.
Lemma tkeeps_emit_call c : typed_call c -> tkeeps_any (emit_call c).
Proof. intros Hc. apply preserves_seq; [by apply (tkeeps_set_action (IA_Call c))|intros _]. apply tkeeps_halt. Qed.
Lemma tkeeps_get : tkeeps typed (get : IM Interpreter).
Proof. apply preserves_get. Qed.
Lemma tkeeps_goto t : fits 64 t -> tkeeps_any (goto t).
Proof.
  intros [H0 H1]. apply tkeeps_modify. intros i []. split; try done. cbn [set_pc instruction_pointer]. lia.
Qed.

(** ** The instructions that only see the interpreter *)

#[export] Hint Resolve tkeeps_gas tkeeps_refund tkeeps_erase tkeeps_gas_or_fail tkeeps_require_stack
  tkeeps_require_non_staticcall tkeeps_check tkeeps_pop1 tkeeps_pop2 tkeeps_pop3 tkeeps_pop4 tkeeps_top1
  tkeeps_pop_top2 tkeeps_pop_top3 tkeeps_pop_address tkeeps_as_usize tkeeps_as_usize_with tkeeps_resize tkeeps_halt
  tkeeps_get : typed.

Create HintDb word.
#[export] Hint Resolve word_64 word_160 word_land word_lor word_lxor word_div word_mod word_shiftr word_not_word
  word_bool word_i256_div word_i256_mod word_signextend word_sar word_shl word_shr word_byte wrapping_pow_word
  as_usize_fits typed_mem_len typed_code_len typed_code_original wf_bytes_len wf_bytes_nil : word.
#[export] Hint Extern 1 (fits _ (wrapping_add _ _ _)) => apply fits_wrapping_add; lia : word.
#[export] Hint Extern 1 (fits _ (wrapping_sub _ _ _)) => apply fits_wrapping_sub; lia : word.
#[export] Hint Extern 1 (fits _ (wrapping_mul _ _ _)) => apply Z.mod_pos_bound; lia : word.
#[export] Hint Extern 1 (fits _ (cast _ _)) => apply fits_cast; lia : word.
#[export] Hint Extern 1 (fits _ 0) => done : word.
#[export] Hint Extern 1 (fits _ 1) => done : word.
#[export] Hint Extern 2 (0 <= _) => (match goal with H : fits _ ?x |- 0 <= ?x => apply H | _ => apply as_usize_fits end) : word.

(** Take the postconditions of a step apart. *)
Ltac take_typed :=
  repeat match goal with
  | p : (_ * _)%type |- _ => destruct p
  | H : word2 _ |- _ => destruct H
  | H : word3 _ |- _ => destruct H
  | H : word4 _ |- _ => destruct H
  | H : (_ =? 0) = false |- _ => apply Z.eqb_neq in H
  | H : negb (_ =? 0) = true |- _ => apply negb_true_iff in H
  | _ => progress cbn [fst snd] in *
  end.

Ltac solve_word :=
  take_typed; first [solve [eauto 6 with word] | repeat case_match; take_typed; eauto 6 with word].

Ltac typed_leaf :=
  first
  [ eassumption
  | solve [eauto with typed]
  | apply tkeeps_set_top; solve_word; fail
  | apply tkeeps_push; solve_word; fail ].
Ltac solve_typed :=
  repeat (cbv beta zeta;
    first
    [ apply tkeeps_require_eof
    | apply tkeeps_require_init_eof
    | eapply preserves_true; typed_leaf
    | typed_leaf
    | eapply preserves_bind; [typed_leaf|intros ? ?; take_typed]
    | apply preserves_seq; [|intros ?]
    | progress case_match ]).

Lemma tkeeps_binary c f : (forall a b, word a -> word b -> word (f a b)) -> tkeeps_any (binary_op c f).
Proof.
  intros Hf. apply preserves_seq; [apply tkeeps_gas|intros _]. eapply preserves_bind; [apply tkeeps_pop_top2|].
  intros [a b] [Ha Hb]. apply tkeeps_set_top. by apply Hf.
Qed.
Lemma tkeeps_unary c f : (forall a, word a -> word (f a)) -> tkeeps_any (unary_op c f).
Proof.
  intros Hf. apply preserves_seq; [apply tkeeps_gas|intros _]. eapply preserves_bind; [apply tkeeps_top1|].
  intros a Ha. apply tkeeps_set_top. by apply Hf.
Qed.
Lemma tkeeps_ternary c f : (forall a b d, word a -> word b -> word d -> word (f a b d)) -> tkeeps_any (ternary_op c f).
Proof.
  intros Hf. apply preserves_seq; [apply tkeeps_gas|intros _]. eapply preserves_bind; [apply tkeeps_pop_top3|].
  intros [[a b] d] [[Ha Hb] Hd]. apply tkeeps_set_top. by apply Hf.
Qed.

Lemma tkeeps_arithmetic spec :
  Forall (fun m => tkeeps_any m)
    [arithmetic_add; arithmetic_mul; arithmetic_sub; arithmetic_div; arithmetic_sdiv; arithmetic_rem; arithmetic_smod;
     arithmetic_addmod; arithmetic_mulmod; arithmetic_exp spec; arithmetic_signextend; bitwise_lt; bitwise_gt;
     bitwise_slt; bitwise_sgt; bitwise_eq; bitwise_iszero; bitwise_bitand; bitwise_bitor; bitwise_bitxor; bitwise_not;
     bitwise_byte; bitwise_shl spec; bitwise_shr spec; bitwise_sar spec].
Proof.
  repeat (apply Forall_cons; split; [autounfold with instructions|]); [..|done].
  all: repeat (apply preserves_seq; [apply tkeeps_check|intros _]).
  all: first [apply tkeeps_binary|apply tkeeps_unary|apply tkeeps_ternary|idtac].
  all: intros; solve_typed; solve_word.
Qed.

Lemma tkeeps_stack_pop : tkeeps_any (on_stack Stack.pop).
Proof. apply tkeeps_on_stack. eapply preserves_true, keeps_pop. Qed.
Lemma tkeeps_dup n : tkeeps_any (on_stack (Stack.dup n)).
Proof. apply tkeeps_on_stack, keeps_dup. Qed.
Lemma tkeeps_swap n : tkeeps_any (on_stack (Stack.swap n)).
Proof. apply tkeeps_on_stack, keeps_exchange. Qed.
Lemma tkeeps_pop_unsafe : tkeeps word (on_stack pop_unsafe).
Proof. apply tkeeps_on_stack, keeps_pop_unsafe. Qed.
Lemma tkeeps_mem_slice i n : tkeeps wf_bytes (on_memory (mem_slice i n)).
Proof. apply tkeeps_on_memory, keeps_mem_slice. Qed.
Lemma tkeeps_mem_slice_range i n : tkeeps wf_bytes (on_memory (mem_slice_range i n)).
Proof. apply tkeeps_on_memory, keeps_slice_range. Qed.
Lemma tkeeps_get_u256 i : tkeeps word (on_memory (get_u256 i)).
Proof. apply tkeeps_on_memory, keeps_get_u256. Qed.
Lemma tkeeps_set_u256 i v : tkeeps_any (on_memory (set_u256 i v)).
Proof. apply tkeeps_on_memory, keeps_set_u256. Qed.
Lemma tkeeps_set_byte i v : tkeeps_any (on_memory (set_byte i (v mod 256))).
Proof. by apply tkeeps_on_memory, keeps_set_byte, Z.mod_pos_bound. Qed.
Lemma tkeeps_mem_copy i k n : tkeeps_any (on_memory (mem_copy i k n)).
Proof. apply tkeeps_on_memory, typed_mem_copy. Qed.
Lemma tkeeps_set_data i k n d : Forall is_byte d -> tkeeps_any (on_memory (set_data i k n d)).
Proof. intros Hd. by apply tkeeps_on_memory, typed_set_data. Qed.
Lemma tkeeps_mem_set i d : Forall is_byte d -> tkeeps_any (on_memory (mem_set i d)).
Proof. intros Hd. by apply tkeeps_on_memory, typed_mem_set. Qed.
#[export] Hint Resolve tkeeps_stack_pop tkeeps_dup tkeeps_swap tkeeps_pop_unsafe tkeeps_mem_slice tkeeps_mem_slice_range
  tkeeps_get_u256 tkeeps_set_u256 tkeeps_set_byte tkeeps_mem_copy tkeeps_set_data tkeeps_mem_set wb_bytes : typed.

Lemma tkeeps_stack_push n : 0 <= n -> tkeeps_any (stack_push n).
Proof.
  intros Hn. unfold stack_push. apply preserves_seq; [apply tkeeps_gas|intros _]. intros i Hi.
  unfold mbind, M_bind, get, lift. destruct (slice (E := InstructionResult) _ _ _) as [l| |] eqn:Hs; try done.
  assert (Hl : Forall is_byte l).
  { unfold slice in Hs. destruct (_ && _); [|done]. injection Hs as <-. apply Forall_take, Forall_drop, Hi. }
  apply slice_len in Hs as (_ & _ & Hle).
  pose proof (keeps_push_slice l Hl (stack i) (t_stack _ Hi)) as Hp. unfold on_stack, zoom.
  destruct (push_slice l (stack i)) as [[[]|e|] t]; [destruct Hp as [_ Hp]|..]; try done; destruct Hi; split; try done.
  split; try done. cbn in *. lia.
Qed.

Lemma tkeeps_jump_inner t : tkeeps_any (jump_inner t).
Proof.
  unfold jump_inner. eapply preserves_bind; [apply tkeeps_as_usize_with|intros v Hv].
  eapply preserves_bind; [apply tkeeps_get|intros i Hi]. on_if; [apply preserves_fail|by apply tkeeps_goto].
Qed.
Lemma tkeeps_copy_to_memory a b n data :
  (forall i d, typed i -> data i = Ok d -> Forall is_byte d) -> tkeeps_any (copy_to_memory a b n data).
Proof.
  intros Hd. unfold copy_to_memory. on_if; [by apply preserves_ret|].
  eapply preserves_bind; [apply tkeeps_as_usize|intros a' Ha]. apply preserves_seq; [apply tkeeps_resize|intros _].
  eapply preserves_bind; [apply tkeeps_get|intros i Hi].
  apply (preserves_bind _ (Forall is_byte)); [apply preserves_lift; intros d; by apply Hd|]. intros d. apply tkeeps_set_data.
Qed.
Lemma tkeeps_return_inner r : tkeeps_any (return_inner r).
Proof.
  unfold return_inner. eapply preserves_bind; [apply tkeeps_pop2|]. intros [o n] _.
  eapply preserves_bind; [apply tkeeps_as_usize|intros n' Hn].
  apply (preserves_bind _ wf_bytes); [on_if; solve_typed; by apply preserves_ret|]. intros out Hout.
  apply preserves_seq; [apply tkeeps_halt|intros _]. apply tkeeps_modify. intros i Hi. destruct Hi. by split.
Qed.
#[export] Hint Resolve tkeeps_jump_inner tkeeps_return_inner : typed.

Lemma call_value_word l : Forall typed_transfer l ->
  word match list_find (fun tt => transfer_id tt = BASE_TOKEN_ID) l with Some (_, t) => transfer_amount t | None => 0 end.
Proof.
  intros Hl. destruct (list_find _ l) as [[k t]|] eqn:Hf; [|done]. apply list_find_Some in Hf as (Hk & _).
  by eapply Forall_lookup_1 in Hl.
Qed.
#[export] Hint Resolve call_value_word : word.
#[export] Hint Extern 1 (word (c_target_address _)) => apply word_160; apply tct_target; apply t_contract; assumption : word.
#[export] Hint Extern 1 (word (c_caller _)) => apply word_160; apply tct_caller; apply t_contract; assumption : word.
#[export] Hint Extern 1 (Forall typed_transfer (c_call_values _)) =>
  apply tv_amounts, tct_values; apply t_contract; assumption : word.
#[export] Hint Extern 1 (wf_bytes (c_input _)) => apply tct_input; apply t_contract; assumption : word.
#[export] Hint Extern 1 (typed_code (c_bytecode _)) => apply tct_code; apply t_contract; assumption : word.
#[export] Hint Extern 1 (wf_bytes (return_data_buffer _)) => apply t_return_data; assumption : word.
#[export] Hint Extern 1 (fits 64 (remaining _)) => apply t_gas; assumption : word.

Lemma tkeeps_msize : tkeeps (fits 64) (gets (fun i => mem_len (shared_memory i)) : IM Z).
Proof. apply preserves_gets. intros i Hi. apply typed_mem_len, Hi. Qed.
Lemma tkeeps_gas_left : tkeeps (fits 64) (gets (fun i => remaining (in_gas i)) : IM Z).
Proof. apply preserves_gets. intros i Hi. apply Hi. Qed.
Lemma tkeeps_assume_legacy : tkeeps_any assume_legacy.
Proof. intros i Hi. unfold assume_legacy. by on_if. Qed.
#[export] Hint Resolve tkeeps_msize tkeeps_gas_left tkeeps_assume_legacy : typed.

Lemma preserves_slice {S E} (I : S -> Prop) b i j : wf_bytes b -> preserves I wf_bytes (lift (slice b i j) : M S E bytes).
Proof. intros Hb. apply preserves_lift. intros l. by apply wf_bytes_slice. Qed.
Lemma preserves_unwrap {S E A} (I : S -> Prop) (P : A -> Prop) o :
  (forall a, o = Some a -> P a) -> preserves I P (lift (unwrap o) : M S E A).
Proof. intros Ho. apply preserves_lift. intros a Ha. apply Ho. destruct o; [by injection Ha as ->|done]. Qed.
#[export] Hint Extern 0 (preserves _ _ (lift (slice _ _ _))) =>
  apply preserves_slice; solve [eauto with word] : typed.

Lemma calldata_word data o :
  wf_bytes data ->
  word (left_aligned_word (if o <? len data
    then take (Z.to_nat (Z.min 32 (len data - o))) (drop (Z.to_nat o) data) else [])).
Proof.
  intros [Hb _]. apply left_aligned_fits; on_if; try done.
  - by apply Forall_take, Forall_drop.
  - unfold len. rewrite length_take. lia.
Qed.
#[export] Hint Resolve calldata_word : word.

Lemma tkeeps_stack_memory_control spec :
  Forall (fun m => tkeeps_any m)
    [stack_pop; stack_push0 spec; stack_dupn; stack_swapn; stack_exchange;
     memory_mload; memory_mstore; memory_mstore8; memory_msize; memory_mcopy spec;
     control_rjump; control_rjumpi; control_rjumpv; control_jump; control_jumpi; control_jumpdest_or_nop;
     control_callf; control_retf; control_jumpf; control_ret; control_revert spec; control_stop; control_invalid;
     data_data_load; data_data_loadn; data_data_size; data_data_copy].
Proof.
  repeat (apply Forall_cons; split; [autounfold with instructions; solve_typed|]); done.
Qed.

(** The hash is a word, and derived addresses are addresses. *)
Class KeccakTyped `{Keccak} : Prop := keccak_word b : word (keccak256 b).
Class CreateAddressTyped `{CreateAddress} : Prop := {
  create_address_typed a n : address (create_address a n);
  create2_address_typed a s h : address (create2_address a s h);
}.

Lemma tkeeps_system `{HK : Keccak} `{HKT : !KeccakTyped} `{HC : CreateAddress} spec :
  Forall (fun m => tkeeps_any m)
    [system_keccak256; system_address; system_caller; system_codesize; system_codecopy; system_calldataload;
     system_calldatasize; system_callvalue; system_calldatacopy; system_returndatasize spec;
     system_returndatacopy spec; system_returndataload; system_gas; contract_eofcreate; contract_return_contract].
Proof.
  repeat (apply Forall_cons; split; [autounfold with instructions|]); [..|done].
  - eapply preserves_bind; [apply tkeeps_pop_top2|]. intros [o l] [Ho Hl].
    eapply preserves_bind; [apply tkeeps_as_usize|intros n Hn]. apply preserves_seq; [apply tkeeps_gas_or_fail|intros _].
    apply (preserves_bind _ (fits 256)); [|intros h Hh; by apply tkeeps_set_top].
    on_if; [by apply preserves_ret|]. solve_typed. apply preserves_ret, keccak_word.
  - solve_typed.
  - solve_typed.
  - solve_typed.
  - eapply preserves_bind; [apply tkeeps_pop3|]. intros [[a b] c] _. eapply preserves_bind; [apply tkeeps_as_usize|intros n Hn].
    apply preserves_seq; [apply tkeeps_gas_or_fail|intros _]. apply tkeeps_copy_to_memory. intros i d Hi. on_if; [done|].
    intros [= <-]. apply typed_code_original, tct_code, Hi.
  - solve_typed.
  - solve_typed.
  - solve_typed.
  - eapply preserves_bind; [apply tkeeps_pop3|]. intros [[a b] c] _. eapply preserves_bind; [apply tkeeps_as_usize|intros n Hn].
    apply preserves_seq; [apply tkeeps_gas_or_fail|intros _]. apply tkeeps_copy_to_memory. intros i d Hi.
    intros [= <-]. apply tct_input, Hi.
  - solve_typed.
  - do 2 (apply preserves_seq; [solve_typed|intros ?]). solve_typed.
  - solve_typed.
  - solve_typed.
  - solve_typed.
  - solve_typed.
Qed.

(** ** The instructions that use the host *)

Record typed_env (e : Env) : Prop := {
  te_chain_id : fits 64 (cfg_chain_id (cfg e));
  te_number : word (block_number (block e));
  te_coinbase : address (coinbase (block e));
  te_timestamp : word (timestamp (block e));
  te_gas_limit : word (block_gas_limit (block e));
  te_basefee : word (basefee (block e));
  te_difficulty : word (difficulty (block e));
  te_prevrandao v : prevrandao (block e) = Some v -> word v;
  te_blob_price v : get_blob_gasprice (block e) = Some v -> word v;
  te_caller : address (tx_caller (tx e));
  te_gas_price : word (gas_price (tx e));
  te_blob_hashes : words (blob_hashes (tx e));
}.

Lemma typed_effective_gas_price e : typed_env e -> word (effective_gas_price e).
Proof.
  intros He. unfold effective_gas_price. destruct (te_gas_price _ He) as [H0 H1].
  destruct (gas_priority_fee (tx e)) as [p|]; [|done].
  pose proof (fits_wrapping_add 256 (basefee (block e)) p ltac:(lia)) as [? ?]. split; lia.
Qed.
Lemma typed_blob_hash e n : typed_env e -> word (default 0 (blob_hashes (tx e) !! n)).
Proof.
  intros He. destruct (blob_hashes (tx e) !! n) eqn:Hn; [|done]. by eapply Forall_lookup_1 in Hn; [|apply He].
Qed.
Lemma typed_blob_price e : typed_env e -> word (default 0 (get_blob_gasprice (block e))).
Proof. intros He. destruct (get_blob_gasprice (block e)) eqn:Hp; [|done]. by apply (te_blob_price _ He). Qed.
#[export] Hint Resolve typed_effective_gas_price typed_blob_hash typed_blob_price te_chain_id te_number te_coinbase
  te_timestamp te_gas_limit te_basefee te_difficulty te_prevrandao te_caller : word.

(** An answer of the host, if there is one. *)
Definition answers {A} (P : A -> Prop) (o : option A) : Prop := match o with Some a => P a | None => True end.

(** A host that answers words and legacy code, as long as it is given words. *)
Class HostTyped {H} `{Host H} (J : H -> Prop) : Prop := {
  ht_env h : J h -> typed_env (h_env h);
  ht_load_account a : preserves J (fun _ => True) (h_load_account a);
  ht_block_hash n : preserves J (answers word) (h_block_hash n);
  ht_code a : preserves J (answers (fun r : Bytecode * bool => typed_code r.1)) (h_code a);
  ht_code_hash a : preserves J (answers (fun r : Z * bool => word r.1)) (h_code_hash a);
  ht_sload a k : preserves J (answers (fun r : Z * bool => word r.1)) (h_sload a k);
  ht_sstore a k v : word v -> preserves J (fun _ => True) (h_sstore a k v);
  ht_tload a k : preserves J word (h_tload a k);
  ht_tstore a k v : word v -> preserves J (fun _ => True) (h_tstore a k v);
  ht_log l : preserves J (fun _ => True) (h_log l);
  ht_selfdestruct a t : preserves J (fun _ => True) (h_selfdestruct a t);
  ht_base_balance a : preserves J (answers (fun r : Z * bool => word r.1)) (h_base_balance a);
}.

Section host.
Context {H : Type} `{HH : Host H} `{HK : Keccak} `{HKT : !KeccakTyped} `{HC : CreateAddress}.
Context (J : H -> Prop) `{HT : !HostTyped J}.
Abbreviation HM := (M (Interpreter * H) InstructionResult).

Definition typed_with (s : Interpreter * H) : Prop := typed s.1 /\ J s.2.
Abbreviation hkeeps P m := (preserves typed_with P m).

Lemma hkeeps_on_int {A} (P : A -> Prop) (m : IM A) : tkeeps P m -> hkeeps P (on_int m).
Proof. apply preserves_zoom; [by intros s []|]. intros s t [] Ht. by split. Qed.
Lemma hkeeps_on_host {A} (P : A -> Prop) (m : M H Empty_set A) : preserves J P m -> hkeeps P (on_host m).
Proof. intros Hm. apply preserves_with_err. revert Hm. apply preserves_zoom; [by intros s []|]. intros s t [] Ht. by split. Qed.
Lemma hkeeps_host_some {A} (P : A -> Prop) (m : M H Empty_set (option A)) :
  preserves J (answers P) m -> hkeeps P (host_some m).
Proof.
  intros Hm. eapply preserves_bind; [by apply hkeeps_on_host|].
  intros [a|] Ha; [by apply preserves_ret|apply preserves_fail].
Qed.
Lemma hkeeps_env : hkeeps typed_env env_of.
Proof. apply preserves_gets. intros s [_ Hs]. by apply ht_env. Qed.
Lemma hkeeps_self_address : hkeeps address self_address.
Proof. apply preserves_gets. intros s [Hs _]. apply tct_target, Hs. Qed.
Lemma hkeeps_load_account a : hkeeps (fun _ => True) (host_some (h_load_account a)).
Proof. apply hkeeps_host_some. eapply preserves_mono, ht_load_account. by intros []. Qed.
Lemma hkeeps_block_hash n : hkeeps word (host_some (h_block_hash n)).
Proof. apply hkeeps_host_some, ht_block_hash. Qed.
Lemma hkeeps_code a : hkeeps (fun r : Bytecode * bool => typed_code r.1) (host_some (h_code a)).
Proof. apply hkeeps_host_some, ht_code. Qed.
Lemma hkeeps_code_hash a : hkeeps (fun r : Z * bool => word r.1) (host_some (h_code_hash a)).
Proof. apply hkeeps_host_some, ht_code_hash. Qed.
Lemma hkeeps_sload a k : hkeeps (fun r : Z * bool => word r.1) (host_some (h_sload a k)).
Proof. apply hkeeps_host_some, ht_sload. Qed.
Lemma hkeeps_base_balance a : hkeeps (fun r : Z * bool => word r.1) (host_some (h_base_balance a)).
Proof. apply hkeeps_host_some, ht_base_balance. Qed.
Lemma hkeeps_sstore a k v : word v -> hkeeps (fun _ => True) (host_some (h_sstore a k v)).
Proof. intros Hv. apply hkeeps_host_some. eapply preserves_mono, ht_sstore, Hv. by intros []. Qed.
Lemma hkeeps_selfdestruct a t : hkeeps (fun _ => True) (host_some (h_selfdestruct a t)).
Proof. apply hkeeps_host_some. eapply preserves_mono, ht_selfdestruct. by intros []. Qed.
End host.
#[export] Hint Resolve hkeeps_env hkeeps_self_address hkeeps_load_account hkeeps_block_hash hkeeps_code hkeeps_code_hash
  hkeeps_sload hkeeps_base_balance hkeeps_selfdestruct ht_tload ht_log : typed.
#[export] Hint Extern 1 (preserves _ _ (host_some (h_sstore _ _ _))) => apply hkeeps_sstore; solve [solve_word] : typed.
#[export] Hint Extern 1 (preserves _ _ (h_tstore _ _ _)) => apply ht_tstore; solve [solve_word] : typed.
#[export] Hint Extern 0 (preserves _ _ (lift (unwrap (prevrandao _)))) =>
  apply preserves_unwrap, te_prevrandao; assumption : typed.
#[export] Hint Extern 1 (preserves _ _ (on_host _)) => apply hkeeps_on_host; typed_leaf : typed.
#[export] Hint Extern 1 (preserves _ _ (on_int _)) => apply hkeeps_on_int; typed_leaf : typed.

Ltac solve_hosted :=
  repeat (cbv beta zeta;
    first
    [ eapply preserves_true; typed_leaf
    | typed_leaf
    | apply hkeeps_on_int; solve [solve_typed]
    | eapply preserves_bind; [typed_leaf|intros ? ?; take_typed]
    | apply preserves_seq; [|intros ?]
    | progress case_match ]).

Section host_table.
Context {H : Type} `{HH : Host H} `{HK : Keccak} `{HKT : !KeccakTyped} `{HC : CreateAddress}.
Context (J : H -> Prop) `{HT : !HostTyped J}.
Abbreviation hkeeps P m := (preserves (typed_with J) P m).

Lemma hkeeps_host_env spec :
  Forall (fun m => hkeeps (fun _ => True) m)
    [host_env_chainid spec; host_env_coinbase; host_env_timestamp; host_env_block_number; host_env_difficulty spec;
     host_env_gaslimit; host_env_gasprice; host_env_basefee spec; host_env_origin; host_env_blob_hash spec;
     host_env_blob_basefee spec].
Proof.
  repeat (apply Forall_cons; split; [autounfold with instructions; solve_hosted|]); done.
Qed.

Lemma keeps_topics n : tkeeps_any (pop_topics n).
Proof. induction n as [|n IH]; cbn [pop_topics]; [by apply preserves_ret|]. solve_typed. Qed.

Lemma hkeeps_host_log n : hkeeps (fun _ => True) (host_log n).
Proof.
  unfold host_log. apply preserves_seq; [solve_hosted|intros _]. eapply (preserves_bind _ (fun _ => True)).
  - apply hkeeps_on_int. eapply preserves_bind; [apply tkeeps_pop2|]. intros [o l] _. solve_typed. apply keeps_topics.
  - intros [data topics] _. solve_hosted.
Qed.

Lemma hkeeps_host_extcodecopy spec : hkeeps (fun _ => True) (host_extcodecopy spec).
Proof.
  unfold host_extcodecopy. eapply preserves_bind; [typed_leaf|intros a Ha].
  eapply preserves_bind; [typed_leaf|]. intros [[o c] l] _. eapply preserves_bind; [typed_leaf|]. intros [code is_cold] Hc.
  cbn [fst] in Hc. apply typed_code_original in Hc. apply hkeeps_on_int. solve_typed.
Qed.

Lemma hkeeps_host spec :
  Forall (fun m => hkeeps (fun _ => True) m)
    [host_balance spec; host_selfbalance spec; host_extcodesize spec; host_extcodehash spec; host_blockhash;
     host_sload spec; host_sstore spec; host_tstore spec; host_tload spec; host_selfdestruct spec].
Proof.
  repeat (apply Forall_cons; split; [autounfold with instructions; solve_hosted|]); done.
Qed.

(** *** Calls and creations *)

Lemma tkeeps_resize_range o n : tkeeps_any (resize_memory_and_return_range o n).
Proof. unfold resize_memory_and_return_range. solve_typed. Qed.
Lemma tkeeps_input_and_ranges : tkeeps (fun r => wf_bytes r.1) get_memory_input_and_out_ranges.
Proof.
  unfold get_memory_input_and_out_ranges. eapply preserves_bind; [apply tkeeps_pop4|]. intros [[[a b] c] d] _.
  apply preserves_seq; [apply tkeeps_resize_range|intros range].
  apply (preserves_bind _ wf_bytes); [on_if; [typed_leaf|by apply preserves_ret]|].
  intros input Hi. apply preserves_seq; [apply tkeeps_resize_range|intros ret]. by apply preserves_ret.
Qed.
Lemma tkeeps_call_gas spec b1 b2 b3 l : fits 64 l -> tkeeps (fits 64) (calc_call_gas spec b1 b2 b3 l).
Proof.
  intros Hl. unfold calc_call_gas. apply preserves_seq; [apply tkeeps_gas|intros _]. on_if; [|by apply preserves_ret].
  eapply preserves_bind; [apply tkeeps_gas_left|intros g Hg]. apply preserves_ret.
  pose proof (fits_wrapping_sub 64 g (g / 64) ltac:(lia)) as [? ?]. destruct Hl. split; lia.
Qed.
Lemma tkeeps_gas_and_target : tkeeps (fun r : Z * Address => fits 64 r.1 /\ address r.2) pop_call_gas_and_target.
Proof.
  unfold pop_call_gas_and_target. eapply preserves_bind; [apply tkeeps_pop1|intros l Hl].
  eapply preserves_bind; [apply tkeeps_pop_address|intros a Ha]. apply preserves_ret. split; [|done].
  apply as_usize_fits, Hl.
Qed.
Lemma tkeeps_create_code spec e o n : tkeeps wf_bytes (create_code spec e o n).
Proof.
  unfold create_code. on_if; [|by apply preserves_ret]. apply preserves_seq; [solve_typed|intros _]. solve_typed.
Qed.
Lemma with_stipend_fits b g : fits 64 g -> fits 64 (with_stipend b g).
Proof. intros [? ?]. unfold with_stipend, saturating_add, CALL_STIPEND. destruct b; split; lia. Qed.

(** The end of a call: the inputs are typed when what they are made of is. *)
Lemma tkeeps_make_call spec b1 b2 b3 l (mk : Z -> Interpreter -> CallInputs) :
  fits 64 l -> (forall g i, fits 64 g -> typed i -> typed_call (mk g i)) ->
  tkeeps_any (g ← calc_call_gas spec b1 b2 b3 l; _ ← gas g; i ← get; emit_call (mk g i)).
Proof.
  intros Hl Hmk. eapply preserves_bind; [by apply tkeeps_call_gas|intros g Hg].
  apply preserves_seq; [apply tkeeps_gas|intros _]. eapply preserves_bind; [apply tkeeps_get|intros i Hi].
  apply tkeeps_emit_call. by apply Hmk.
Qed.

Ltac enter_call :=
  first [ eapply preserves_bind; [apply hkeeps_on_int, tkeeps_gas_and_target|]; intros [l to] [Hl Hto]; cbn [fst snd] in *
        | eapply preserves_bind; [apply hkeeps_on_int, tkeeps_pop1|]; intros value Hv
        | eapply preserves_bind; [apply hkeeps_on_int, tkeeps_input_and_ranges|]; intros [input range] Hin; cbn [fst] in *
        | apply preserves_seq; [typed_leaf|intros ?]
        | apply hkeeps_on_int, tkeeps_make_call; [done|intros g i Hg Hi; split; cbn [call_values CallValues_get ci_values
            ci_input ci_gas_limit target_address ci_caller]]
        | progress cbv zeta
        | on_if; [by apply preserves_fail|] ].

Lemma hkeeps_calls spec :
  Forall (fun m => hkeeps (fun _ => True) m)
    [contract_call spec; contract_call_code spec; contract_delegate_call spec; contract_static_call spec].
Proof.
  repeat (apply Forall_cons; split; [autounfold with instructions; repeat enter_call|]); [..|done].
  all: first [done | by apply with_stipend_fits | apply Hi | apply tct_target, Hi | apply tct_caller, Hi
             | apply tct_values, Hi | by apply typed_values_one | apply typed_values_nil].
Qed.

Lemma hkeeps_create b spec : hkeeps (fun _ => True) (contract_create b spec).
Proof.
  unfold contract_create. eapply preserves_bind; [typed_leaf|intros e He]. apply hkeeps_on_int.
  apply preserves_seq; [apply tkeeps_require_non_staticcall|intros _]. apply preserves_seq; [solve_typed|intros _].
  eapply preserves_bind; [apply tkeeps_pop3|]. intros [[value o] n] [[Hv _] _]. cbn [fst] in Hv.
  eapply preserves_bind; [apply tkeeps_as_usize|intros n' Hn]. eapply preserves_bind; [apply tkeeps_create_code|intros c Hc].
  apply preserves_seq; [solve_typed|intros scheme]. eapply preserves_bind; [apply tkeeps_gas_left|intros g Hg].
  cbv zeta. set (gl := if enabled spec TANGERINE then _ else _). assert (Hgl : fits 64 gl) by (unfold gl; on_if; [by apply fits_wrapping_sub|done]).
  clearbody gl. apply preserves_seq; [apply tkeeps_gas|intros _]. eapply preserves_bind; [apply tkeeps_get|intros i Hi].
  apply preserves_seq; [|intros _; apply tkeeps_halt]. apply tkeeps_set_action. split; try done. apply tct_target, Hi.
Qed.

Lemma hkeeps_eof_calls :
  Forall (fun m => hkeeps (fun _ => True) m) [contract_extcall; contract_extdelegatecall; contract_extstaticcall].
Proof.
  repeat (apply Forall_cons; split; [autounfold with instructions|]); [..|done].
  all: intros s [Hs Hj]; unfold mbind, M_bind, on_int, zoom, require_eof; by rewrite (t_legacy _ Hs).
Qed.

(** ** Every instruction *)

(** From an interpreter whose instruction pointer has moved past the opcode. *)
Definition executes (m : M (Interpreter * H) InstructionResult unit) : Prop := forall s,
  typed_with J s -> 1 <= instruction_pointer s.1 ->
  match m s with (Panic, _) => True | (_, s') => typed_with J s' end.

Lemma executes_kept m : hkeeps (fun _ => True) m -> executes m.
Proof. intros Hm s Hs _. specialize (Hm s Hs). destruct (m s) as [[]]; [by destruct Hm|done..]. Qed.

(** [PC] pushes the position of the opcode. *)
Lemma executes_pc : executes (on_int control_pc).
Proof.
  intros [i h] Hs Hpc. cbn [fst] in Hpc. set (q := program_counter i).
  assert (Hq : word (q - 1)).
  { unfold q, program_counter. pose proof (t_pc _ (proj1 Hs)) as [_ Hle]. cbn [fst] in Hle. split; lia. }
  assert (Hk : preserves (fun i' => typed i' /\ instruction_pointer i' = q) (fun _ => True) control_pc).
  { unfold control_pc. apply preserves_seq.
    - intros i' [Hi' He]. pose proof (tkeeps_gas G_BASE i' Hi') as Hg. unfold gas in *.
      destruct (record_cost G_BASE (in_gas i')) as [[] g]; by destruct Hg || split.
    - intros _. apply (preserves_bind _ (fun v => v = q)); [apply preserves_gets; by intros i' [_ ?]|intros v ->].
      intros i' [Hi' He]. pose proof (tkeeps_push (q - 1) Hq i' Hi') as Hp. unfold push_value, on_stack, zoom in *.
      destruct (push (q - 1) (stack i')) as [[]]; try done; by destruct Hp || split. }
  specialize (Hk i (conj (proj1 Hs) eq_refl)). unfold on_int, zoom. cbn [fst snd].
  destruct (control_pc i) as [[u|e|] i']; [destruct Hk as (_ & Hk & _)|destruct Hk as [Hk _]|done];
    (split; [exact Hk|exact (proj2 Hs)]).
Qed.

#[local] Ltac split_all H := repeat (apply Forall_cons in H as [? H]).
Lemma executes_table spec : Forall (fun q : Z * M (Interpreter * H) InstructionResult unit => executes q.2) (instructions spec).
Proof.
  pose proof (tkeeps_arithmetic spec) as H1. pose proof (tkeeps_stack_memory_control spec) as H2.
  pose proof (tkeeps_system spec) as H3. pose proof (hkeeps_host_env spec) as H4. pose proof (hkeeps_host spec) as H5.
  pose proof (hkeeps_calls spec) as H6. pose proof hkeeps_eof_calls as H7.
  split_all H1. split_all H2. split_all H3. split_all H4. split_all H5. split_all H6. split_all H7.
  unfold instructions. repeat (apply Forall_cons; split; [cbn [snd]|]); [..|done].
  all: first
    [ match goal with H : preserves _ _ ?m |- executes (on_int ?m) => exact (executes_kept _ (hkeeps_on_int _ _ _ H)) end
    | match goal with H : preserves _ _ ?m |- executes ?m => exact (executes_kept _ H) end
    | apply executes_pc
    | apply executes_kept, hkeeps_on_int, tkeeps_stack_push; lia
    | apply executes_kept, hkeeps_on_int; (apply preserves_seq; [apply tkeeps_gas|intros _]); (apply tkeeps_dup || apply tkeeps_swap)
    | apply executes_kept, hkeeps_host_log
    | apply executes_kept, hkeeps_host_extcodecopy
    | apply executes_kept, hkeeps_create ].
Qed.

(** ** The loop *)

Lemma typed_set_result r i : typed i -> typed (set_result r i).
Proof. intros []. by split. Qed.

Lemma step_types spec : preserves (typed_with J) (fun _ => True) (step spec).
Proof.
  intros [i h] [Hi Hj]. cbn [fst snd] in *. unfold step, mbind, M_bind, gets, modify, lift. cbn [fst snd].
  destruct (index (E := Empty_set) (in_bytecode i) (instruction_pointer i)) as [op| |] eqn:Ho; [|done..].
  apply index_Ok in Ho as [_ Ho]. apply lookup_lt_Some in Ho.
  set (i1 := set_pc (instruction_pointer i + 1) i).
  assert (Hi1 : typed_with J (i1, h)).
  { split; [|done]. destruct Hi. split; try done. cbn. unfold len in *. lia. }
  assert (Hx : executes (instruction spec op)).
  { apply (instruction_ind (fun _ q => executes q)); [apply executes_table|].
    apply executes_kept, hkeeps_on_int. unfold control_unknown. apply tkeeps_halt. }
  specialize (Hx _ Hi1). unfold settle_instruction.
  pose proof (t_pc _ Hi) as [Hpc _]. specialize (Hx ltac:(cbn; lia)).
  destruct (instruction spec op (i1, h)) as [[u|e|] s1]; [by split| |done].
  split; [done|]. destruct Hx as [Ht Hh]. split; [by apply typed_set_result|done].
Qed.

Lemma run_loop_typed spec fuel : preserves (typed_with J) (fun _ => True) (run_loop fuel spec).
Proof.
  induction fuel as [|fuel IH]; cbn [run_loop]; (apply preserves_seq; [by apply preserves_gets|intros i]);
    (on_if; [|by apply preserves_ret]); [by apply preserves_ret|].
  by apply preserves_seq; [apply step_types|intros _].
Qed.

(** What [run] leaves and asks for. *)
Lemma run_typed spec fuel memory :
  typed_memory memory ->
  preserves (typed_with J) (fun o => forall a, o = Some a -> typed_action a) (run fuel spec memory).
Proof.
  intros Hm. unfold run. apply preserves_seq; [|intros _].
  { apply preserves_modify. intros s [Hs Hj]. split; [|done]. apply typed_set_memory; [|done]. destruct Hs. by split. }
  apply preserves_seq; [apply run_loop_typed|intros finished]. on_if; [|by apply preserves_ret].
  apply (preserves_bind _ typed); [apply preserves_gets; by intros s []|intros i Hi]. on_if.
  - apply preserves_seq; [|intros _; apply preserves_ret; intros a [= <-]; apply Hi].
    apply preserves_modify. intros s [Hs Hj]. split; [|done]. destruct Hs. by split.
  - apply preserves_ret. intros a [= <-]. split; [done|apply Hi].
Qed.
End host_table.

(** ** Frames begin and go on with typed values *)

Lemma typed_Contract_new input c hash target caller values :
  wf_bytes input -> typed_code c -> address target -> address caller -> typed_values values ->
  typed_contract (Contract_new input c hash target caller values).
Proof. intros. split; try done. by apply typed_to_analysed. Qed.

Lemma typed_Interpreter_new {E} c limit st i :
  typed_contract c -> fits 64 limit -> Interpreter_new (E := E) c limit st = Ok i -> typed i.
Proof.
  intros Hc Hl Hi. unfold Interpreter_new in Hi. destruct (is_execution_ready _); [|done]. simpl in Hi. inv_bind Hi.
  injection Hi as <-. pose proof (tct_code _ Hc) as Hcode. unfold unwrap in Hx.
  destruct (Bytecode_bytecode (c_bytecode c)) as [b|] eqn:Hb; [|done]. injection Hx as <-.
  apply (typed_code_bytes _ _ Hcode) in Hb as [Hb Hlen]. split; cbn; try done. by apply typed_code_legacy.
Qed.

(** The addresses that creations answer. *)
Definition typed_created (o : option Address) : Prop := forall a, o = Some a -> address a.

Lemma tkeeps_settle (m : IM unit) : tkeeps_any m -> preserves typed (fun _ => True) (settle m).
Proof.
  intros Hm i Hi. unfold settle. specialize (Hm i Hi). destruct (m i) as [[u|e|] i']; [done| |done].
  split; [done|]. by apply typed_set_result.
Qed.
Lemma tkeeps_set_return_data b : wf_bytes b -> tkeeps_any (modify (set_return_data b) : IM unit).
Proof. intros Hb. apply tkeeps_modify. intros i []. by split. Qed.
Lemma tkeeps_set_result r : tkeeps_any (modify (set_result r) : IM unit).
Proof. apply tkeeps_modify, typed_set_result. Qed.
Lemma tkeeps_push_address o : typed_created o -> tkeeps_any (push_value (default 0 o)).
Proof. intros Ho. apply tkeeps_push. destruct o as [a|]; [by apply word_160, Ho|done]. Qed.
#[export] Hint Resolve tkeeps_set_return_data tkeeps_set_result tkeeps_push_address wf_bytes_nil : typed.

Lemma insert_create_typed o :
  typed_result (cro_result o) -> typed_created (cro_address o) ->
  preserves typed (fun _ => True) (insert_create_outcome o).
Proof.
  intros [Ho _] Ha. unfold insert_create_outcome. apply tkeeps_settle.
  apply preserves_seq; [apply tkeeps_set_result|intros _]. apply preserves_seq; [by apply tkeeps_set_return_data; on_if|intros _].
  solve_typed.
Qed.

Definition typed_pair (s : Interpreter * SharedMemory) : Prop := typed s.1 /\ typed_memory s.2.

Lemma insert_call_typed o :
  typed_result (co_result o) -> preserves typed_pair (fun _ => True) (insert_call_outcome o).
Proof.
  intros [Ho _]. unfold insert_call_outcome. cbv zeta.
  assert (Hi : forall m, tkeeps_any m -> preserves typed_pair (fun _ => True)
    (zoom fst (fun i s => (i, s.2)) (settle m) : M (Interpreter * SharedMemory) Empty_set unit)).
  { intros m Hm. apply tkeeps_settle in Hm. revert Hm. apply preserves_zoom; [by intros s []|]. intros s t [] Ht. by split. }
  assert (Hc : forall i, typed i -> preserves typed_pair (fun _ => True)
    (zoom snd (fun m s => (s.1, m)) (mem_set (memory_start o) (take (Z.to_nat (Z.min (memory_length o)
      (len (return_data_buffer i)))) (return_data_buffer i))) : M (Interpreter * SharedMemory) Empty_set unit)).
  { intros i Ht. apply (preserves_zoom _ typed_memory); [by intros s []|intros s t [] ?; by split|].
    apply typed_mem_set, Forall_take, (t_return_data _ Ht). }
  apply preserves_seq; [apply Hi; solve_typed|intros _].
  apply (preserves_bind _ typed); [apply preserves_gets; by intros s []|intros i Ht].
  repeat on_if; try (apply preserves_lift_any);
    repeat first [ apply Hi; solve [solve_typed] | by apply Hc | apply preserves_seq; [|intros _] ].
Qed.

(** C4: The interpreter is well typed on legacy code.  Make an interpreter for a
    contract whose code is legacy and whose input, addresses and values are bytes,
    addresses and words, and run it for any number of steps over a host that
    answers words and legacy code as long as it is given words.  Unless it panics,
    it leaves a stack of words, a memory, code and return data of bytes, and gas
    that fits 64 bits; and what it asks for, the inputs of a call or of a creation
    or a result, carries words, addresses and byte strings that fit the address
    space, and is no EOF creation. *)
Theorem legacy_code_is_typed {H : Type} `{HH : Host H} `{HK : Keccak} `{HKT : !KeccakTyped} `{HC : CreateAddress}
    (J : H -> Prop) `{HT : !HostTyped J} spec fuel memory c limit st i h r i' h' :
  typed_contract c -> fits 64 limit -> Interpreter_new (E := Empty_set) c limit st = Ok i ->
  typed_memory memory -> J h -> run fuel spec memory (i, h) = (r, (i', h')) -> r <> Panic ->
  typed i' /\ J h' /\ (forall a, r = Ok (Some a) -> typed_action a).
Proof.
  intros Hc Hl Hi Hm Hj Hr Hp. apply typed_Interpreter_new in Hi; [|done..].
  pose proof (run_typed J spec fuel memory Hm (i, h) (conj Hi Hj)) as Hrun. rewrite Hr in Hrun.
  destruct r as [o|[]|]; [|done]. destruct Hrun as [Ha [Ht Hj']]. split_and!; [done..|]. intros a [= ->]. by apply Ha.
Qed.

(** ** Witness *)

#[local] Existing Instances sample_host sample_keccak sample_create_address.
#[local] Instance sample_keccak_typed : KeccakTyped.
Proof.
  intros b. unfold keccak256, sample_keccak. destruct b as [|x b _] using rev_ind; [done|]. rewrite foldl_snoc.
  by apply Z.mod_pos_bound.
Qed.
#[local] Instance sample_host_typed : HostTyped (H := unit) (fun _ => True).
Proof. split; intros; try (by apply preserves_ret). split; cbn; try done; by intros v [= <-]. Qed.

Definition calling_contract : Contract := Contract_new [] (new_raw sample_call_code) None 1 2 [].
Lemma calling_contract_typed : typed_contract calling_contract.
Proof.
  split; cbn; try done. split; [|done]. by repeat (apply Forall_cons; split; [done|]).
Qed.

(** A contract that calls another with a value of 1: the call it asks for is typed. *)
Lemma legacy_code_is_typed_witness :
  match Interpreter_new (E := Empty_set) calling_contract 100000 false with
  | Ok i =>
      match run (H := unit) 30 SHANGHAI SharedMemory_new (i, tt) with
      | (Ok (Some (IA_Call c)), _) => ci_gas_limit c = 67154 /\ typed_call c
      | _ => False
      end
  | _ => False
  end.
Proof.
  destruct (Interpreter_new _ _ _) as [i|e|] eqn:Hi; [|vm_compute in Hi; discriminate Hi..].
  destruct (run _ _ _ _) as [[[a|]|e|] [i' []]] eqn:Hr;
    [|vm_compute in Hi; injection Hi as <-; vm_compute in Hr; discriminate Hr..].
  destruct (legacy_code_is_typed (H := unit) (fun _ => True) SHANGHAI 30 SharedMemory_new calling_contract 100000 false
    i tt _ i' tt calling_contract_typed ltac:(done) Hi typed_memory_new Logic.I Hr ltac:(done)) as (_ & _ & Ha).
  specialize (Ha a eq_refl). vm_compute in Hi. injection Hi as <-. vm_compute in Hr. injection Hr as <- _.
  split; [reflexivity|exact Ha].
Defined.
