(* ===== verification/JournalInvariant.v ===== *)
(** Invariants of a transaction.  An invariant of the journaled state and the
    database that every operation of the journal keeps, [JournalInvariant], is kept
    by all that the EVM builds from those operations: the native-token precompile,
    the entering and the leaving of calls and creations, the host, and the loop over
    the call stack, which also pass typed values to one another. *)

From S2P Require Import Prelude.
From S2P Require Import Specification.
From S2P Require Import Bytes.
From S2P Require Import Triples.
From S2P Require Import Eof.
From S2P Require Import Bytecode.
From S2P Require Import State.
From S2P Require Import Result.
From S2P Require Import InstructionResult.
From S2P Require Import Database.
From S2P Require Import Journal.
From S2P Require Import CallInputs.
From S2P Require Import NativeTokens.
From S2P Require Import Gas.
From S2P Require Import Stack.
From S2P Require Import SharedMemory.
From S2P Require Import Analysis.
From S2P Require Import Env.
From S2P Require Import Interpreter.
From S2P Require Import Context.
From S2P Require Import WordTypes.
From S2P Require Import InterpreterTypes.

(** ** The interface *)

(** The types of an account. *)
Record typed_info (i : AccountInfo) : Prop := {
  ti_wf : wf_info i;
  ti_hash : word (code_hash i);
  ti_code c : code i = Some c -> typed_code c;
}.
Definition typed_slot (s : EvmStorageSlot) : Prop := word (original_value s) /\ word (present_value s).
Record typed_account (x : Account) : Prop := {
  ta_info : typed_info (info x);
  ta_storage : map_Forall (fun _ => typed_slot) (storage x);
}.

(** A checkpoint of a frame leaves the first set of the journal alone. *)
Definition cp_ok (cp : JournalCheckpoint) : Prop := 1 <= journal_i cp.

(** What is known of the caller of a creation when it is entered. *)
Definition can_pay (caller : Address) (v : Z) (j : JournaledState) : Prop :=
  exists x, accounts (state j) !! caller = Some x /\ v <= get_base_balance (info x) /\ nonce (info x) <> 0.

(** *** What the parsers read *)

Lemma consume_bytes_typed input n l rest :
  wf_bytes input -> consume_bytes_from input n = Ok (l, rest) -> wf_bytes l /\ wf_bytes rest.
Proof.
  intros Hi. unfold consume_bytes_from. on_if; [done|]. intros [= <- <-].
  split; [by apply wf_bytes_take|by apply wf_bytes_drop].
Qed.
Lemma consume_word_typed input w rest :
  wf_bytes input -> consume_u256_from input = Ok (w, rest) -> word w /\ wf_bytes rest.
Proof.
  intros Hi Hc. split; [by apply (consume_u256_from_fits input w rest); [apply Hi|]|].
  unfold consume_u256_from in Hc. inv_bind Hc. destruct x as [l r]. injection Hc as <- <-.
  by apply consume_bytes_typed in Hx as [_ ?].
Qed.
Lemma consume_address_typed input a rest :
  wf_bytes input -> consume_address_from input = Ok (a, rest) -> address a /\ wf_bytes rest.
Proof.
  intros Hi Hc. unfold consume_address_from in Hc. inv_bind Hc. destruct x as [l r]. injection Hc as <- <-.
  unfold consume_word_from in Hx. apply consume_bytes_from_inv in Hx as Hs; [|done]. destruct Hs as [_ Hl].
  apply consume_bytes_typed in Hx as [[Hb _] ?]; [|done]. split; [|done].
  pose proof (from_be_bytes_bound (drop 12 l) (Forall_drop _ _ _ Hb)) as Hv.
  replace (len (drop 12 l)) with 20 in Hv by (unfold len in *; rewrite length_drop; lia). exact Hv.
Qed.
Lemma consume_words_typed n input ws rest :
  wf_bytes input -> consume_words n input = Ok (ws, rest) -> (words ws /\ len ws <= Z.max n 0) /\ wf_bytes rest.
Proof.
  unfold consume_words. generalize (length input). intros fuel. revert n input ws rest.
  induction fuel as [|fuel IH]; intros n input ws rest Hi; cbn [consume_words_aux];
    destruct (Z.leb_spec n 0) as [|Hn]; try (intros [= <- <-]; split; [split; [done|change (len []) with 0; lia]|done]);
    intros Hc; inv_bind Hc; destruct x as [w r]; apply consume_word_typed in Hx as [Hw Hr]; try done.
  inv_bind Hc. destruct x as [ws' r']. injection Hc as <- <-. apply IH in Hx as [[Hws Hl] Hr']; [|done].
  split; [split; [by constructor|rewrite len_cons; lia]|done].
Qed.

(** Computations on the journaled state alone. *)
Definition jpreserves {DB E A} (I : JournaledState * DB -> Prop) (P : A -> Prop) (m : M JournaledState E A) : Prop :=
  forall d, preserves (fun j => I (j, d)) P m.

Class JournalInvariant {DB DbErr} `{Database DB DbErr} `{Keccak} (I : JournaledState * DB -> Prop) : Prop := {
  ji_load_account a : preserves I (fun r => typed_account r.1) (load_account (DbErr := DbErr) a);
  ji_load_code a : preserves I (fun r => typed_account r.1) (load_code (DbErr := DbErr) a);
  ji_sload a k : preserves I (fun r => word r.1) (sload (DbErr := DbErr) a k);
  ji_sstore a k v : word v -> preserves I (fun _ => True) (sstore (DbErr := DbErr) a k v);
  ji_selfdestruct a t : preserves I (fun _ => True) (selfdestruct (DbErr := DbErr) a t);
  ji_transfer from to ts :
    Forall typed_transfer ts -> preserves I (fun _ => True) (Journal.transfer (DbErr := DbErr) from to ts);
  ji_burn b i h v : word v -> preserves I (fun _ => True) (Journal.burn (DbErr := DbErr) b i h v);
  ji_mint m r i v : word v -> preserves I (fun _ => True) (Journal.mint (DbErr := DbErr) m r i v);
  ji_block_hash n : preserves I word (on_db (DbErr := DbErr) (block_hash n));
  ji_touch {E} a : jpreserves (E := E) I (fun _ => True) (touch a);
  ji_inc_nonce {E} a : jpreserves (E := E) I (fun _ => True) (inc_nonce a);
  ji_set_code {E} a c : typed_code c -> jpreserves (E := E) I (fun _ => True) (set_code a c);
  ji_tload {E} a k : jpreserves (E := E) I word (tload a k);
  ji_tstore {E} a k v : word v -> jpreserves (E := E) I (fun _ => True) (tstore a k v);
  ji_log {E} l : jpreserves (E := E) I (fun _ => True) (Journal.log l);
  ji_commit {E} : jpreserves (E := E) I (fun _ => True) checkpoint_commit;
}.

(** *** Checkpoints

    An invariant [I n] of the states whose first [n] sets of entries a revert
    leaves alone.  A checkpoint ends the sets there are, to revert it keeps them. *)
Class CheckpointInvariant {DB DbErr} `{Database DB DbErr} `{Keccak} (I : Z -> JournaledState * DB -> Prop) : Prop := {
  ci_journal n :: JournalInvariant (DbErr := DbErr) (I n);
  ci_weaken n m s : 1 <= n <= m -> I m s -> I n s;
  ci_checkpoint {E} n d :
    triple (fun j => I n (j, d)) (checkpoint (E := E))
      (fun cp j => n <= journal_i cp /\ I (journal_i cp + 1) (j, d)) (fun _ => False);
  ci_revert {E} cp d : cp_ok cp ->
    triple (fun j => I (journal_i cp + 1) (j, d)) (checkpoint_revert (E := E) cp)
      (fun _ j => I (journal_i cp) (j, d)) (fun _ => False);
  ci_create n caller a v sp d : 1 <= n -> word v ->
    triple (fun j => can_pay caller v j /\ I n (j, d)) (create_account_checkpoint caller a v sp)
      (fun cp j => n <= journal_i cp /\ I (journal_i cp + 1) (j, d)) (fun j => I n (j, d));
}.

Create HintDb inv.
#[export] Hint Resolve preserves_fail preserves_lift_any : inv.
#[export] Hint Extern 1 (preserves _ (fun _ => True) (mret _)) => apply preserves_ret; exact I : inv.
#[export] Hint Extern 5 (preserves _ (fun _ => True) (gets _)) => apply preserves_gets; done : inv.

Section invariant.
Context {DB DbErr : Type} `{HDB : Database DB DbErr} `{HK : Keccak}.
Context (I : JournaledState * DB -> Prop) `{HI : !JournalInvariant (DbErr := DbErr) I}.
Abbreviation EM E := (M (JournaledState * DB) E).
Abbreviation CtxM := (EM (EVMError DbErr)).
Abbreviation PM := (EM PrecompileError).
Abbreviation ikeeps P m := (preserves I P m).

Lemma ikeeps_on_js {A} (P : A -> Prop) (m : M JournaledState (EVMError DbErr) A) : jpreserves I P m -> ikeeps P (on_js m).
Proof.
  intros Hm [j d] Hs. unfold on_js, zoom. cbn [fst snd]. specialize (Hm d j Hs). by destruct (m j) as [[]].
Qed.
Lemma ikeeps_db_read {A} (f : DB -> outcome DbErr A) : ikeeps (fun _ => True) (on_db (fun d => (f d, d))).
Proof. intros [j d] Hs. unfold on_db, with_err, zoom. cbn [fst snd]. by destruct (f d). Qed.
Lemma ikeeps_load_account a : ikeeps (fun _ => True) (load_account (DbErr := DbErr) a).
Proof. eapply preserves_true, ji_load_account. Qed.
Lemma ikeeps_load_code a : ikeeps (fun _ => True) (load_code (DbErr := DbErr) a).
Proof. eapply preserves_true, ji_load_code. Qed.

Lemma typed_default_code i : typed_info i -> typed_code (default Bytecode_new (code i)).
Proof. intros Hi. destruct (code i) as [c|] eqn:Hc; [by eapply ti_code|apply typed_Bytecode_new]. Qed.

Lemma ikeeps_ctx_code a :
  ikeeps (fun r : Bytecode * bool => typed_code r.1) (NativeTokens.ctx_code (DbErr := DbErr) a).
Proof.
  unfold NativeTokens.ctx_code. eapply preserves_bind; [apply ji_load_code|]. intros [x cold] Hx. cbn [fst] in Hx.
  apply (preserves_bind _ typed_code); [apply preserves_unwrap; apply Hx|]. intros c Hc. by apply preserves_ret.
Qed.
Lemma ikeeps_load_bytecode a :
  ikeeps (fun r : Z * Bytecode => typed_code r.2) (load_bytecode (DbErr := DbErr) a).
Proof.
  unfold load_bytecode. eapply preserves_bind; [apply ji_load_code|]. intros [x cold] Hx. apply preserves_ret.
  apply typed_default_code, Hx.
Qed.
Lemma ikeeps_base_balance a : ikeeps (fun r : Z * bool => word r.1) (base_balance (DbErr := DbErr) a).
Proof.
  unfold base_balance. eapply preserves_bind; [apply ji_load_account|]. intros [x cold] Hx. apply preserves_ret.
  apply (wf_balance _ (ti_wf _ (ta_info _ Hx))).
Qed.

(** ** The native-token precompile *)

Lemma ikeeps_with_err {E F A} (P : A -> Prop) (f : E -> F) (m : EM E A) : ikeeps P m -> ikeeps P (with_err f m).
Proof. apply preserves_with_err. Qed.

Lemma ikeeps_is_eoa a : ikeeps (fun _ => True) (is_address_eoa (DbErr := DbErr) a).
Proof.
  unfold is_address_eoa. eapply preserves_bind; [apply ikeeps_ctx_code|]. intros [c cold] _. by apply preserves_ret.
Qed.
Lemma ikeeps_check_caller inputs : ikeeps (fun _ => True) (check_caller (DbErr := DbErr) inputs).
Proof.
  unfold check_caller. on_if; [apply preserves_fail|]. apply preserves_seq; [apply preserves_with_err, ikeeps_is_eoa|].
  intros []; [apply preserves_fail|by apply preserves_ret].
Qed.
Lemma ikeeps_check_callee a : ikeeps (fun _ => True) (check_callee (DbErr := DbErr) a).
Proof.
  unfold check_callee. apply preserves_seq; [apply preserves_with_err, ikeeps_is_eoa|].
  intros []; [apply preserves_fail|by apply preserves_ret].
Qed.
Lemma ikeeps_check_consumed input : ikeeps (fun _ => True) (check_consumed (DB := DB) input).
Proof. unfold check_consumed. destruct input; [by apply preserves_ret|apply preserves_fail]. Qed.

Lemma ikeeps_transfer_is_ok from to ts :
  Forall typed_transfer ts -> ikeeps (fun _ => True) (transfer_is_ok (DbErr := DbErr) from to ts).
Proof.
  intros Hts. unfold transfer_is_ok. apply preserves_seq; [|intros r; by apply preserves_ret].
  eapply preserves_true, preserves_attempt. by apply ji_transfer.
Qed.

(** The answer of a precompile. *)
Definition typed_answer (r : ResultOrNewCall) : Prop :=
  match r with
  | RNC_Result info => wf_bytes (returned_bytes info)
  | RNC_Call c => address (pci_target_address c) /\ typed_values (token_transfers c) /\ wf_bytes (input_data c)
  end.

Lemma ikeeps_parse {A} (P : A -> Prop) (m : outcome BytesParsingError A) :
  (forall a, m = Ok a -> P a) -> ikeeps P (parse (DB := DB) m).
Proof. intros Hm. apply preserves_lift. intros a H. destruct m; [|done..]. injection H as ->. by apply Hm. Qed.
Lemma ikeeps_word input : wf_bytes input -> ikeeps (fun r => word r.1 /\ wf_bytes r.2) (parse (DB := DB) (consume_u256_from input)).
Proof. intros Hi. apply ikeeps_parse. intros [w rest]. by apply consume_word_typed. Qed.
Lemma ikeeps_address input :
  wf_bytes input -> ikeeps (fun r => address r.1 /\ wf_bytes r.2) (parse (DB := DB) (consume_address_from input)).
Proof. intros Hi. apply ikeeps_parse. intros [w rest]. by apply consume_address_typed. Qed.
Lemma ikeeps_words n input :
  wf_bytes input ->
  ikeeps (fun r => (words r.1 /\ len r.1 <= Z.max n 0) /\ wf_bytes r.2) (parse (DB := DB) (consume_words n input)).
Proof. intros Hi. apply ikeeps_parse. intros [w rest]. by apply consume_words_typed. Qed.
Lemma ikeeps_bytes n input :
  wf_bytes input -> ikeeps (fun r => wf_bytes r.1 /\ wf_bytes r.2) (parse (DB := DB) (consume_bytes_from input n)).
Proof. intros Hi. apply ikeeps_parse. intros [w rest]. by apply consume_bytes_typed. Qed.

Lemma typed_zip_amounts ids amounts : words amounts -> Forall typed_transfer (zip_with mkTransfer ids amounts).
Proof.
  intros Ha. revert ids. induction Ha as [|a amounts Ha _ IH]; intros [|id ids]; cbn [zip_with]; constructor; [done|apply IH].
Qed.
Lemma typed_zip ids amounts : words amounts -> len ids <= 2 ^ 57 -> typed_values (zip_with mkTransfer ids amounts).
Proof.
  intros Ha Hl. split.
  - by apply typed_zip_amounts.
  - unfold len in *. rewrite length_zip_with. lia.
Qed.
Lemma encode_words_bytes ws : Forall is_byte (encode_words ws).
Proof. apply Forall_concat, Forall_fmap, Forall_true. intros w. apply to_be_bytes_is_byte. Qed.
Lemma typed_call_values_data values : typed_values values -> wf_bytes (call_values_data values).
Proof.
  intros [_ Hl]. unfold call_values_data. cbv zeta. split.
  - rewrite !Forall_app. split_and!; first [apply to_be_bytes_is_byte | apply encode_words_bytes].
  - rewrite !len_app, !len_encode_words, !len_fmap, !len_to_be_bytes. lia.
Qed.

Ltac take_answers :=
  repeat match goal with
  | p : (_ * _)%type |- _ => destruct p
  | H : _ /\ _ |- _ => destruct H
  | _ => progress cbn [fst snd] in *
  end.
(** One parsed argument after the other. *)
Ltac parse_args :=
  repeat first
  [ eapply preserves_bind; [first [by apply ikeeps_address | by apply ikeeps_word | by apply ikeeps_words | by apply ikeeps_bytes]|
      intros ? ?; take_answers]
  | apply preserves_seq; [first [apply ikeeps_check_caller | apply ikeeps_check_callee | apply ikeeps_check_consumed]|intros _]
  | on_if; [by apply preserves_fail|]
  | progress cbv zeta ].
Ltac end_call := on_if; [apply preserves_ret, wf_bytes_nil|apply preserves_fail].

Lemma ikeeps_balance_of g input : wf_bytes input -> ikeeps typed_answer (balance_of (DbErr := DbErr) g input).
Proof.
  intros Hi. unfold balance_of. parse_args. apply preserves_seq.
  - apply preserves_with_err. unfold NativeTokens.ctx_balance. apply preserves_seq; [apply ikeeps_load_account|].
    intros [x cold]. by apply preserves_ret.
  - intros [b cold]. apply preserves_ret, wf_bytes_to_be. lia.
Qed.
Lemma ikeeps_mint_call inputs g input : wf_bytes input -> ikeeps typed_answer (NativeTokens.mint (DbErr := DbErr) inputs g input).
Proof.
  intros Hi. unfold NativeTokens.mint. parse_args. apply preserves_seq; [by apply preserves_with_err, ji_mint|].
  intros ok. end_call.
Qed.
Lemma ikeeps_burn_call inputs g input : wf_bytes input -> ikeeps typed_answer (NativeTokens.burn (DbErr := DbErr) inputs g input).
Proof.
  intros Hi. unfold NativeTokens.burn. parse_args. apply preserves_seq; [by apply preserves_with_err, ji_burn|].
  intros ok. end_call.
Qed.
Lemma ikeeps_transfer_call inputs g input :
  wf_bytes input -> ikeeps typed_answer (NativeTokens.transfer (DbErr := DbErr) inputs g input).
Proof.
  intros Hi. unfold NativeTokens.transfer. parse_args.
  apply preserves_seq; [by apply ikeeps_transfer_is_ok, Forall_singleton|]. intros ok. end_call.
Qed.
Lemma ikeeps_transfer_multiple inputs g input :
  wf_bytes input -> ikeeps typed_answer (transfer_multiple (DbErr := DbErr) inputs g input).
Proof.
  intros Hi. unfold transfer_multiple. parse_args.
  apply preserves_seq; [by apply ikeeps_transfer_is_ok, typed_zip_amounts|]. intros ok. end_call.
Qed.
Lemma ikeeps_slice_from l n : wf_bytes l -> ikeeps wf_bytes (lift (slice_from l n) : PM bytes).
Proof.
  intros Hl. apply preserves_lift. intros l'. unfold slice_from. on_if; [|done]. intros [= <-]. by apply wf_bytes_drop.
Qed.
Lemma ikeeps_capacity n :
  ikeeps (fun _ => with_capacity_ok n = true) (lift (if with_capacity_ok n then Ok tt else Panic) : PM unit).
Proof. apply preserves_lift. intros []. by destruct (with_capacity_ok n). Qed.
Lemma ikeeps_transfer_and_call inputs input :
  wf_bytes input -> ikeeps typed_answer (transfer_and_call (DbErr := DbErr) inputs input).
Proof.
  intros Hi. unfold transfer_and_call. parse_args. eapply preserves_bind; [by apply ikeeps_slice_from|intros data Hd].
  apply preserves_ret. split_and!; [done|by apply typed_values_one|done].
Qed.
Lemma ikeeps_transfer_multiple_and_call inputs input :
  wf_bytes input -> ikeeps typed_answer (transfer_multiple_and_call (DbErr := DbErr) inputs input).
Proof.
  intros Hi. unfold transfer_multiple_and_call. parse_args.
  eapply preserves_bind; [apply ikeeps_capacity|intros u Hcap; cbv beta in Hcap]. parse_args. eapply preserves_bind; [by apply ikeeps_slice_from|intros data Hd].
  apply preserves_ret. split_and!; [done| |done]. apply typed_zip; [done|].
  apply Z.leb_le in Hcap. lia.
Qed.

Lemma ikeeps_call_mut inputs g : typed_call inputs -> ikeeps typed_answer (call_mut (DbErr := DbErr) inputs g).
Proof.
  intros Hc. unfold call_mut. cbv zeta. on_if; [by apply preserves_fail|].
  apply (preserves_bind _ (fun r : Z * bytes => wf_bytes r.2)).
  { apply ikeeps_parse. intros [sel rest] Hr. unfold consume_u32_from in Hr. inv_bind Hr. destruct x as [l r].
    injection Hr as <- <-. by apply consume_bytes_typed in Hx as [_ ?]; [|apply Hc]. }
  intros [sel input] Hi. cbn [snd] in Hi.
  on_if; [by apply ikeeps_balance_of|]. on_if; [by apply ikeeps_burn_call|].
  on_if; [unfold get_call_values; apply preserves_seq; [apply ikeeps_check_caller|intros _];
          by apply preserves_ret, typed_call_values_data, Hc|].
  on_if; [by apply ikeeps_mint_call|]. on_if; [by apply ikeeps_transfer_and_call|].
  on_if; [by apply ikeeps_transfer_multiple_and_call|]. on_if; [by apply ikeeps_transfer_multiple|].
  on_if; [by apply ikeeps_transfer_call|apply preserves_fail].
Qed.

(** ** Precompiles *)

(** A precompile that answers typed values and keeps the invariant. *)
Definition precompile_typed (p : ContextPrecompile (DB := DB)) : Prop :=
  match p with
  | CP_Ordinary p => forall input gas env r, wf_bytes input -> p input gas env = Ok r -> typed_answer r
  | CP_ContextStateful p => forall input gas, wf_bytes input -> ikeeps typed_answer (p input gas)
  | CP_ContextStatefulMut p => forall inputs gas, typed_call inputs -> ikeeps typed_answer (p inputs gas)
  end.
Definition precompiles_typed (ps : ContextPrecompiles (DB := DB)) : Prop := map_Forall (fun _ => precompile_typed) ps.

Lemma native_tokens_typed ps : precompiles_typed ps -> precompiles_typed (with_native_tokens (DbErr := DbErr) ps).
Proof. intros Hps. apply (map_Forall_insert_2 (fun _ => precompile_typed)); [|done]. intros i g. apply ikeeps_call_mut. Qed.

Definition typed_outcome (o : option ResultOrCallInfo) : Prop :=
  match o with
  | Some (RC_Result r) => typed_result r
  | Some (RC_NewCall c) =>
      address (cinfo_target_address c) /\ typed_values (CallValues_get (cinfo_call_values c)) /\
      wf_bytes (cinfo_input_data c)
  | None => True
  end.

Lemma ikeeps_call_precompile ps env inputs g :
  precompiles_typed ps -> typed_call inputs -> fits 64 (remaining g) ->
  ikeeps typed_outcome (call_precompile (DbErr := DbErr) ps env inputs g).
Proof.
  intros Hps Hc Hg. unfold call_precompile.
  apply (preserves_bind _ (fun o => match o with Some (inr r) => typed_answer r | _ => True end)).
  - unfold precompiles_call. destruct (ps !! bytecode_address inputs) as [p|] eqn:Hp; [|by apply preserves_ret].
    apply Hps in Hp. destruct p as [p|p|p];
      (eapply (preserves_bind _ (fun r => match r with inr a => typed_answer a | inl _ => True end));
        [|intros [e|r] Hr; by apply preserves_ret]).
    + apply preserves_attempt, preserves_lift. intros r. apply Hp, Hc.
    + apply preserves_attempt, Hp, Hc.
    + by apply preserves_attempt, Hp.
  - intros o Ho. apply preserves_ret. destruct o as [[e|[info|info]]|]; [by split; [apply wf_bytes_nil|]| | |done].
    + pose proof (record_cost_fits (gas_used info) g Hg) as Hf.
      destruct (record_cost (gas_used info) g) as [[] g']; (split; [exact Ho || apply wf_bytes_nil|exact Hf]).
    + exact Ho.
Qed.
End invariant.
