(* ===== verification/LoopInvariant.v ===== *)
(** Invariants of the loop over the call stack: every invariant of the journal is
    kept by the host that the context is to the interpreter, by the execution of a
    frame, and by the loop, whose frames and results stay typed.

    Entering a call or a creation, and leaving it, come first. *)

From S2P Require Import Prelude Specification Bytes Triples Eof Bytecode State Result.
From S2P Require Import InstructionResult.
From S2P Require Import Database Journal CallInputs NativeTokens Gas Stack SharedMemory Analysis.
From S2P Require Import Env.
From S2P Require Import Interpreter Context Handler HostInstructions Opcode Evm WordTypes InterpreterTypes.
From S2P Require Import JournalInvariant.

(** ** Typed frames *)

(** There are no EOF creations, and no frames of them. *)
Definition typed_frame (f : Frame) : Prop :=
  typed (frame_interpreter f) /\ cp_ok (fd_checkpoint (frame_data f)) /\
  match f with Frame_Call _ _ => True | Frame_Create a _ => address a | Frame_EOFCreate _ _ _ => False end.
Definition typed_frame_result (r : FrameResult) : Prop :=
  match r with
  | FR_Call o => typed_result (co_result o)
  | FR_Create o => typed_result (cro_result o) /\ typed_created (cro_address o)
  | FR_EOFCreate _ => False
  end.
Definition typed_frame_or (r : FrameOrResult) : Prop :=
  match r with FOR_Frame f => typed_frame f | FOR_Result r => typed_frame_result r end.

Section frames.
Context {DB DbErr : Type} `{HDB : Database DB DbErr} `{HK : Keccak} `{HKT : !KeccakTyped} `{HC : CreateAddress}.
Context `{HCT : !CreateAddressTyped}.

Section inside.
Context (I : JournaledState * DB -> Prop) `{HI : !JournalInvariant (DbErr := DbErr) I}.
Abbreviation CtxM := (M (JournaledState * DB) (EVMError DbErr)).
Abbreviation ikeeps P m := (preserves I P m).

Lemma ikeeps_interpreter c limit st :
  typed_contract c -> fits 64 limit -> ikeeps typed (lift (Interpreter_new c limit st) : CtxM Interpreter).
Proof. intros Hc Hl. apply preserves_lift. intros i. by apply typed_Interpreter_new. Qed.
Lemma ikeeps_commit : ikeeps (fun _ => True) (on_js (DB := DB) (DbErr := DbErr) checkpoint_commit).
Proof. apply ikeeps_on_js, ji_commit. Qed.
Lemma ikeeps_set_code a c : typed_code c -> ikeeps (fun _ => True) (on_js (DB := DB) (DbErr := DbErr) (set_code a c)).
Proof. intros Hc. by apply ikeeps_on_js, ji_set_code. Qed.

Lemma ikeeps_transfer_values inputs : typed_call inputs -> ikeeps (fun _ => True) (transfer_values (DbErr := DbErr) inputs).
Proof.
  intros Hc. unfold transfer_values. pose proof (tv_amounts _ (tc_values _ Hc)) as Hv. unfold call_values in Hv.
  destruct (ci_values inputs) as [values|values]; [|by apply preserves_ret]. on_if; [|by apply ji_transfer].
  apply preserves_seq; [apply ikeeps_load_account; apply _|intros _].
  apply preserves_seq; [apply ikeeps_on_js, ji_touch|intros _]. by apply preserves_ret.
Qed.

End inside.

Context (I : Z -> JournaledState * DB -> Prop) `{HI : !CheckpointInvariant (DbErr := DbErr) I}.
Abbreviation CtxM := (M (JournaledState * DB) (EVMError DbErr)).
Implicit Types n : Z.

(** *** Checkpoints *)

Lemma triple_on_js {A} (P R : JournaledState * DB -> Prop) (Q : A -> JournaledState * DB -> Prop) m :
  (forall d, triple (fun j => P (j, d)) m (fun a j => Q a (j, d)) (fun j => R (j, d))) ->
  triple P (on_js (DbErr := DbErr) m) Q R.
Proof.
  intros Hm [j d] Hs. unfold on_js, zoom. cbn [fst snd]. specialize (Hm d j Hs). by destruct (m j) as [[]].
Qed.

(** Inside a checkpoint [cp] that was taken in [I n]. *)
Definition inside (n : Z) (cp : JournalCheckpoint) : Prop := 1 <= n <= journal_i cp.
Lemma inside_ok n cp : inside n cp -> cp_ok cp.
Proof. unfold inside, cp_ok. lia. Qed.
Lemma inside_below n cp s : inside n cp -> I (journal_i cp + 1) s -> I n s.
Proof. intros Hn. apply ci_weaken. unfold inside in *. lia. Qed.
Lemma below_checkpoint n cp s : inside n cp -> I (journal_i cp) s -> I n s.
Proof. intros Hn. by apply ci_weaken. Qed.
#[local] Hint Resolve inside_ok inside_below below_checkpoint : core.

Lemma take_checkpoint {B} n (Q : B -> JournaledState * DB -> Prop) f :
  1 <= n -> (forall cp, inside n cp -> triple (I (journal_i cp + 1)) (f cp) Q (I n)) ->
  triple (I n) (on_js (DbErr := DbErr) checkpoint ≫= f) Q (I n).
Proof.
  intros Hn Hf. apply (triple_bind _ (fun cp s => inside n cp /\ I (journal_i cp + 1) s)).
  - apply triple_on_js. intros d j Hj. pose proof (ci_checkpoint (I := I) (E := EVMError DbErr) n d j Hj) as H.
    destruct (checkpoint j) as [[cp|e|] j']; [|done..]. destruct H. by repeat split.
  - intros cp s [Hcp Hs]. by apply Hf.
Qed.
Lemma commit_frame n cp : inside n cp ->
  triple (I (journal_i cp + 1)) (on_js (DB := DB) (DbErr := DbErr) checkpoint_commit) (fun _ => I n) (I n).
Proof.
  intros Hcp s Hs. destruct (ikeeps_commit (I (journal_i cp + 1)) s Hs). by eapply inside_below.
Qed.
Lemma revert_frame n cp : inside n cp ->
  triple (I (journal_i cp + 1)) (on_js (DB := DB) (DbErr := DbErr) (checkpoint_revert cp)) (fun _ => I n) (I n).
Proof.
  intros Hcp. apply triple_on_js. intros d.
  intros j Hj. pose proof (ci_revert (I := I) (E := EVMError DbErr) cp d (inside_ok _ _ Hcp) j Hj) as H.
  destruct (checkpoint_revert cp j) as [[u|e|] j']; [|done..]. by eapply below_checkpoint.
Qed.

(** *** Calls *)

Definition frame_cp (f : Frame) : Z := journal_i (fd_checkpoint (frame_data f)).
(** What is entered from [I n]: a frame inside a checkpoint, or nothing. *)
Definition enters (n : Z) (r : FrameOrResult) (s : JournaledState * DB) : Prop :=
  typed_frame_or r /\
  match r with
  | FOR_Frame f => inside n (fd_checkpoint (frame_data f)) /\ I (frame_cp f + 1) s
  | FOR_Result _ => I n s
  end.

Lemma typed_empty_call r g offset :
  fits 64 g -> typed_frame_or (new_call_result (mkInterpreterResult r [] (Gas_new g)) offset).
Proof. intros Hg. split; [apply wf_bytes_nil|done]. Qed.
Lemma enters_result n cp (m : CtxM unit) r :
  typed_frame_result r -> triple (I (journal_i cp + 1)) m (fun _ => I n) (I n) ->
  triple (I (journal_i cp + 1)) (_ ← m; mret (FOR_Result r)) (enters n) (I n).
Proof. intros Hr Hm. eapply triple_bind; [exact Hm|]. intros u. by apply triple_done. Qed.
Lemma enters_now n r : typed_frame_result r -> triple (I n) (mret (FOR_Result r) : CtxM FrameOrResult) (enters n) (I n).
Proof. intros Hr. by apply triple_done. Qed.
Lemma enters_frame n cp (k : Interpreter -> Frame) c limit st :
  inside n cp -> typed_contract c -> fits 64 limit ->
  (forall i, typed i -> typed_frame (k i) /\ fd_checkpoint (frame_data (k i)) = cp) ->
  triple (I (journal_i cp + 1)) (i ← lift (Interpreter_new c limit st); mret (FOR_Frame (k i)) : CtxM FrameOrResult)
    (enters n) (I n).
Proof.
  intros Hn Hc Hl Hk. eapply triple_step; [by apply (ikeeps_interpreter (I (journal_i cp + 1)))|eauto|]. intros i Hi.
  apply triple_done. intros s Hs. destruct (Hk i Hi) as [Hf Hcp]. unfold enters, frame_cp. by rewrite Hcp.
Qed.

Lemma make_call_frame_typed ps env inputs n :
  1 <= n -> (forall m, precompiles_typed (I m) ps) -> typed_call inputs ->
  triple (I n) (make_call_frame (DbErr := DbErr) ps env inputs) (enters n) (I n).
Proof.
  intros Hn Hps Hc. pose proof (tc_gas _ Hc) as Hg. unfold make_call_frame. cbv zeta.
  apply triple_seq; [by apply preserves_gets|done|intros j]. on_if; [by apply enters_now, typed_empty_call|].
  eapply triple_step; [apply (ikeeps_load_bytecode (I n))|done|]. intros [hash bytecode] Hb. cbn [snd] in Hb.
  apply take_checkpoint; [done|intros cp Hcp].
  apply triple_seq; [by apply (ikeeps_transfer_values (I _))|eauto|intros [result|]].
  { by apply enters_result; [apply typed_empty_call|apply revert_frame]. }
  eapply triple_step; [by apply (ikeeps_call_precompile (I _))|eauto|]. intros [[result|info]|] Ho.
  - apply enters_result; [done|]. on_if; [by apply commit_frame|by apply revert_frame].
  - destruct Ho as (Ht & Hv & Hi). eapply triple_step; [apply (ikeeps_load_bytecode (I _))|eauto|].
    intros [hash' bytecode'] Hb'. cbn [snd] in Hb'.
    apply triple_seq; [apply ji_transfer, Hv|eauto|intros [result|]].
    { by apply enters_result; [apply typed_empty_call|apply revert_frame]. }
    apply (enters_frame _ _ (fun i => Frame_Call _ (mkFrameData cp i))); [done| |exact Hg|by split; [split_and!; eauto|]].
    apply typed_Contract_new; try done. apply (tc_caller _ Hc).
  - on_if; [|by apply enters_result; [apply typed_empty_call|apply commit_frame]].
    apply (enters_frame _ _ (fun i => Frame_Call _ (mkFrameData cp i))); [done| |exact Hg|by split; [split_and!; eauto|]].
    apply typed_Contract_new; try done; apply Hc.
Qed.

Lemma call_return_typed n r cp : inside n cp ->
  triple (I (journal_i cp + 1)) (call_return (DbErr := DbErr) r cp) (fun _ => I n) (I n).
Proof. intros Hcp. unfold call_return. on_if; [by apply commit_frame|by apply revert_frame]. Qed.

(** *** Creations *)

Abbreviation anything := (fun _ : JournaledState * DB => True).

Lemma load_account_finds a :
  triple anything (load_account (DbErr := DbErr) a) (fun r s => accounts (state s.1) !! a = Some r.1) anything.
Proof.
  intros [j d] _. unfold load_account, mbind, M_bind, gets. cbn [fst].
  destruct (accounts (state j) !! a) as [x|] eqn:Hx; [exact Hx|]. unfold on_db, with_err, zoom. cbn [fst snd].
  destruct (basic a d) as [[o|e|] d']; try done. cbn [map_err fst snd]. unfold on_js, zoom, push_entry. cbn [fst snd].
  destruct (push_last _ _); [|done]. cbn. by rewrite lookup_insert_eq.
Qed.
Lemma load_account_keeps a c v :
  triple (fun s => can_pay c v s.1) (load_account (DbErr := DbErr) a) (fun _ s => can_pay c v s.1) anything.
Proof.
  intros [j d] Hp. unfold load_account, mbind, M_bind, gets. cbn [fst].
  destruct (accounts (state j) !! a) as [x|] eqn:Hx; [exact Hp|]. unfold on_db, with_err, zoom. cbn [fst snd].
  destruct (basic a d) as [[o|e|] d']; try done. cbn [map_err fst snd]. unfold on_js, zoom, push_entry. cbn [fst snd].
  destruct (push_last _ _); [|done]. destruct Hp as (y & Hy & Hpay). exists y. cbn in *. split; [|done].
  rewrite lookup_insert_ne; [done|]. intros ->. by rewrite Hx in Hy.
Qed.

(** After its nonce is increased, the caller has one, and the balance it had. *)
Lemma inc_nonce_pays c v x j o j' :
  accounts (state j) !! c = Some x -> v <= get_base_balance (info x) -> fits 64 (nonce (info x)) ->
  inc_nonce (E := EVMError DbErr) c j = (Ok (Some o), j') -> can_pay c v j'.
Proof.
  intros Hx Hv Hn H. unfold inc_nonce, mbind, M_bind, account in H. rewrite Hx in H. cbn [unwrap] in H.
  destruct (nonce (info x) =? U64_MAX) eqn:He; [done|]. unfold touch_account, mbind, M_bind, account in H.
  rewrite Hx in H. cbn [unwrap] in H.
  exists (set_info (set_nonce (nonce (info x) + 1)) (if is_touched x then x else mark_touch x)).
  destruct Hn. unfold update_account, push_entry, mbind, M_bind, account, modify in H.
  destruct (is_touched x).
  - cbn [mret M_ret] in H. destruct (push_last _ (journal j)) as [l|]; [|done]. cbn in H. rewrite Hx in H. cbn in H.
    injection H as _ <-. cbn. rewrite lookup_alter_eq, Hx. split_and!; [done|done|cbn; lia].
  - destruct (push_last _ (journal j)) as [l|]; [|done]. cbn in H. rewrite Hx in H. cbn in H.
    destruct (push_last _ l) as [l'|]; [|done]. cbn in H. rewrite lookup_alter_eq, Hx in H. cbn in H.
    injection H as _ <-. cbn. rewrite !lookup_alter_eq, Hx. split_and!; [done|done|cbn; lia].
Qed.

(** The new address is loaded, and the creation is entered. *)
Lemma enter_creation c a v sp n :
  1 <= n -> word v ->
  triple (fun s => can_pay c v s.1 /\ I n s)
    (_ ← load_account (DbErr := DbErr) a; on_js (attempt (create_account_checkpoint c a v sp)))
    (fun r s => match r with inr cp => inside n cp /\ I (journal_i cp + 1) s | inl _ => I n s end) (I n).
Proof.
  intros Hn Hv. apply (triple_bind _ (fun _ s => can_pay c v s.1 /\ I n s)).
  - intros s [Hp Hs]. pose proof (load_account_keeps a c v s Hp) as Hk.
    pose proof (ji_load_account (I := I n) (DbErr := DbErr) a s Hs) as Hl.
    destruct (load_account a s) as [[r|e|] s']; [|done..]. by destruct Hl.
  - intros _. apply triple_on_js. intros d j Hj.
    pose proof (ci_create (I := I) (DbErr := DbErr) n c a v sp d Hn Hv j Hj) as Hc. unfold attempt.
    destruct (create_account_checkpoint c a v sp j) as [[cp|e|] j']; [|done..]. by destruct Hc.
Qed.

Lemma typed_empty_create r g : fits 64 g -> typed_frame_or (new_create_result (mkInterpreterResult r [] (Gas_new g)) None).
Proof. intros Hg. split; [split; [apply wf_bytes_nil|done]|]. by intros a [=]. Qed.

Lemma typed_create_contract a c code h v :
  address a -> address c -> wf_bytes code -> word v -> typed_contract (create_contract a c (new_raw code) h v).
Proof. intros. apply typed_Contract_new; try done; by apply typed_values_one. Qed.

(** The caller can pay, and its nonce grows. *)
Lemma pay_creation {B} c v n (k : Z -> CtxM B) (f : option Z -> CtxM B) (Q : B -> JournaledState * DB -> Prop) :
  (forall b, b < v -> triple (I n) (k b) Q (I n)) ->
  triple (I n) (f None) Q (I n) ->
  (forall o, triple (fun s => can_pay c v s.1 /\ I n s) (f (Some o)) Q (I n)) ->
  triple (I n)
    ('(b, _) ← base_balance (DbErr := DbErr) c;
     if b <? v then k b else o ← on_js (inc_nonce c); f o) Q (I n).
Proof.
  intros Hk Hnone Hsome s Hs. unfold base_balance, mbind, M_bind.
  pose proof (ji_load_account (I := I n) (DbErr := DbErr) c s Hs) as Hl.
  pose proof (load_account_finds c s Logic.I) as Hf.
  destruct (load_account c s) as [[[x cold]|e|] s1]; [|done..]. destruct Hl as [[Hx _] Hs1].
  cbn [fst mret M_ret] in *. destruct (Z.ltb_spec (get_base_balance (info x)) v) as [Hlt|Hv]; [by apply Hk|].
  pose proof (ikeeps_on_js (I n) (fun _ => True) _ (ji_inc_nonce (E := EVMError DbErr) c) s1 Hs1) as Hi.
  destruct (on_js (inc_nonce c) s1) as [[[o|]|e|] s2] eqn:Hn; [| |done..]; destruct Hi as [_ Hi]; [|by apply Hnone].
  apply Hsome. split; [|done]. destruct s1 as [j d]. unfold on_js, zoom in Hn. cbn [fst snd] in *.
  destruct (inc_nonce c j) as [r j1] eqn:He. simplify_eq.
  eapply inc_nonce_pays; [exact Hf|exact Hv|apply (wf_nonce _ (ti_wf _ Hx))|exact He].
Qed.

Lemma make_create_frame_typed sp inputs n :
  1 <= n -> typed_create inputs -> triple (I n) (make_create_frame (DbErr := DbErr) sp inputs) (enters n) (I n).
Proof.
  intros Hn Hc. pose proof (tcr_gas _ Hc) as Hg. unfold make_create_frame. cbv zeta.
  apply triple_seq; [by apply preserves_gets|done|intros j]. on_if; [by apply enters_now, typed_empty_create|].
  apply (pay_creation (cr_caller inputs)).
  - intros b _. by apply enters_now, typed_empty_create.
  - by apply enters_now, typed_empty_create.
  - intros o. set (p := match cr_scheme inputs with Create => _ | Create2 salt => _ end).
    assert (Ha : address p.1).
    { unfold p. destruct (cr_scheme inputs); [apply create_address_typed|apply create2_address_typed]. }
    destruct p as [created hash]. cbn [fst] in Ha.
    apply triple_assoc. eapply triple_bind; [apply enter_creation; [done|apply Hc]|]. intros [e|cp].
    { by apply enters_now, typed_empty_create. }
    intros s [Hcp Hs]. revert s Hs. apply (enters_frame _ _ (fun i => Frame_Create _ (mkFrameData cp i))); [done| |exact Hg|].
    + apply typed_create_contract; apply Hc || done.
    + intros i Hi. by split; [split_and!; eauto|].
Qed.

Lemma create_return_typed sp env r a n cp :
  typed_result r -> inside n cp ->
  triple (I (journal_i cp + 1)) (create_return (DbErr := DbErr) sp env r a cp) (fun r s => typed_result r /\ I n s) (I n).
Proof.
  intros [Ho Hg] Hcp. unfold create_return. cbv zeta.
  assert (Hrev : forall r', typed_result r' ->
    triple (I (journal_i cp + 1)) (_ ← on_js (DB := DB) (checkpoint_revert cp); mret r' : CtxM InterpreterResult)
      (fun r s => typed_result r /\ I n s) (I n)).
  { intros r' Hr'. eapply triple_bind; [by apply revert_frame|intros u]. by apply triple_done. }
  repeat (on_if; [by apply Hrev|]).
  pose proof (record_cost_fits (wrapping_mul 64 (len (ir_output r)) CODEDEPOSIT) (ir_gas r) Hg) as Hf.
  destruct (record_cost _ (ir_gas r)) as [ok g]. cbn [snd] in Hf. on_if; [by apply Hrev|].
  apply triple_seq; [apply (ikeeps_commit (I _))|eauto|intros _].
  set (r' := if ok then _ else _). assert (Hr' : typed_result r') by (unfold r'; destruct ok; split; done || apply wf_bytes_nil).
  clearbody r'. apply triple_seq; [|eauto|intros _; apply triple_done; intros s Hs; split; [by destruct Hr'|eauto]].
  apply (ikeeps_set_code (I _)). destruct (perf_analyse_created_bytecodes (cfg env)); [|apply typed_to_analysed]; apply Hr'.
Qed.
End frames.

Section host.
Context {DB DbErr : Type} `{HDB : Database DB DbErr} `{HK : Keccak} `{HKT : !KeccakTyped} `{HC : CreateAddress}.
Context `{HCT : !CreateAddressTyped}.
Context (I : JournaledState * DB -> Prop) `{HI : !JournalInvariant (DbErr := DbErr) I}.
Abbreviation CtxM := (M (JournaledState * DB) (EVMError DbErr)).
Abbreviation Ctx := (EvmContext (DB := DB) (DbErr := DbErr)).
Abbreviation CM := (M Ctx (EVMError DbErr)).

(** The invariant, in an environment of typed values that stays. *)
Context (env0 : Env).
Definition at_env (env : Env) : Prop := env = env0 /\ typed_env env.
Definition in_context (c : Ctx) : Prop := at_env c.1 /\ I c.2.1.
Abbreviation ckeeps P m := (preserves in_context P m).

(** ** The host *)

Lemma keeps_host_try {A} (P : A -> Prop) (m : CtxM A) : preserves I P m -> ckeeps (answers P) (host_try m).
Proof.
  intros Hm c [He Hc]. unfold host_try. specialize (Hm _ Hc). by destruct (m c.2.1) as [[a|e|] s]; [destruct Hm| |].
Qed.
Lemma keeps_host_try_any {A} (P : A -> Prop) (m : CtxM A) : preserves I P m -> ckeeps (fun _ => True) (host_try m).
Proof. intros Hm. by eapply preserves_true, keeps_host_try. Qed.
Lemma keeps_host_do {A} (P : A -> Prop) (m : M JournaledState Empty_set A) : jpreserves I P m -> ckeeps P (host_do m).
Proof.
  intros Hm [env [[j d] err]] [He Hc]. unfold host_do. cbn [fst snd] in *. specialize (Hm d j Hc).
  destruct (m j) as [[a|e|] j']; [by destruct Hm|done..].
Qed.

Lemma ikeeps_load_account_exist a : preserves I (fun _ => True) (load_account_exist (DbErr := DbErr) a).
Proof.
  unfold load_account_exist. apply preserves_seq; [by apply preserves_gets|intros sp].
  apply preserves_seq; [by apply (ikeeps_load_account I)|]. intros [x cold]. by apply preserves_ret.
Qed.
Lemma ikeeps_code a : preserves I (fun r : Bytecode * bool => typed_code r.1) (Evm.ctx_code (DbErr := DbErr) a).
Proof. exact (ikeeps_ctx_code I a). Qed.
Lemma ikeeps_code_hash a : preserves I (fun r : Z * bool => word r.1) (ctx_code_hash (DbErr := DbErr) a).
Proof.
  unfold ctx_code_hash. eapply preserves_bind; [apply ji_load_code|]. intros [x cold] Hx. apply preserves_ret.
  cbn [fst]. on_if; [done|]. apply (ti_hash _ (ta_info _ Hx)).
Qed.
Lemma keeps_context_block_hash n : ckeeps (answers word) (context_block_hash (DbErr := DbErr) n).
Proof.
  unfold context_block_hash. apply preserves_seq; [by apply preserves_gets|intros e]. cbv zeta.
  destruct (checked_sub _ _); [|by apply preserves_ret]. on_if; [by apply preserves_ret|].
  on_if; [|by apply preserves_ret]. apply keeps_host_try, ji_block_hash.
Qed.

#[export] Instance context_host_typed : HostTyped in_context.
Proof.
  split.
  - by intros c [[_ He] _].
  - intros a. by eapply keeps_host_try_any, ikeeps_load_account_exist.
  - apply keeps_context_block_hash.
  - intros a. apply keeps_host_try, ikeeps_code.
  - intros a. apply keeps_host_try, ikeeps_code_hash.
  - intros a k. apply keeps_host_try, ji_sload.
  - intros a k v Hv. by eapply keeps_host_try_any, ji_sstore.
  - intros a k. apply keeps_host_do, ji_tload.
  - intros a k v Hv. by apply keeps_host_do, ji_tstore.
  - intros l. apply keeps_host_do, ji_log.
  - intros a t. eapply keeps_host_try_any, ji_selfdestruct.
  - intros a. apply keeps_host_try, (ikeeps_base_balance I).
Qed.

(** ** The execution of a frame *)

Lemma typed_set_frame i f : typed i -> typed_frame f -> typed_frame (set_frame_interpreter i f).
Proof. intros Hi (_ & Hcp & Ha). by destruct f. Qed.
Lemma frame_cp_set i f : fd_checkpoint (frame_data (set_frame_interpreter i f)) = fd_checkpoint (frame_data f).
Proof. by destruct f. Qed.

(** A frame that an execution leaves: typed, and in the checkpoint it was in. *)
Definition same_frame (f f' : Frame) : Prop :=
  typed_frame f' /\ fd_checkpoint (frame_data f') = fd_checkpoint (frame_data f).
Lemma same_set_frame i f : typed i -> typed_frame f -> same_frame f (set_frame_interpreter i f).
Proof. intros Hi Hf. split; [by apply typed_set_frame|apply frame_cp_set]. Qed.

Lemma execute_frame_typed sp f memory :
  typed_frame f -> typed_memory memory ->
  ckeeps (fun r => typed_action r.1.1 /\ same_frame f r.1.2 /\ typed_memory r.2) (execute_frame sp f memory).
Proof.
  intros Hf Hm c Hc. unfold execute_frame.
  pose proof (run_typed in_context sp (frame_fuel (frame_interpreter f)) memory Hm (frame_interpreter f, c)
    (conj (proj1 Hf) Hc)) as Hr.
  destruct (run _ sp memory _) as [[[a|]|[]|] [i' c']]; [|done..]. destruct Hr as [Ha [Hi Hc']]. cbn [fst snd] in *.
  unfold take_memory. split; [|done]. split_and!; [by apply Ha| |apply Hi].
  apply same_set_frame; [|done]. by apply typed_set_memory.
Qed.

Lemma keeps_env : ckeeps (fun c => at_env c.1) (get : CM Ctx).
Proof. by intros c Hc; split; [apply Hc|]. Qed.
Lemma keeps_take_error : ckeeps (fun _ => True) (on_evm (DB := DB) (DbErr := DbErr) take_error).
Proof. intros [env [s [e|]]] Hc; by destruct Hc. Qed.

Lemma preserves_pure_outcome {S T E A} (J : S -> Prop) (I0 : T -> Prop) (m : M T Empty_set A) t :
  preserves I0 (fun _ => True) m -> I0 t ->
  preserves J (fun r => I0 r.2) (lift (pure_outcome (m t)) : M S E (A * T)).
Proof.
  intros Hm Ht. apply preserves_lift. intros [a t'] H. specialize (Hm t Ht).
  destruct (m t) as [[a'|[]|] t1]; [|done]. injection H as -> ->. by destruct Hm.
Qed.

Lemma insert_outcome_typed r f memory :
  typed_frame_result r -> typed_frame f -> typed_memory memory ->
  ckeeps (fun p => same_frame f p.1 /\ typed_memory p.2) (insert_outcome (DbErr := DbErr) (DB := DB) r f memory).
Proof.
  intros Hr Hf Hm. unfold insert_outcome. apply preserves_seq; [apply keeps_take_error|intros _]. cbv zeta.
  destruct r as [o|o|]; [| |done].
  - eapply preserves_bind; [apply (preserves_pure_outcome _ typed_pair); [by apply insert_call_typed|by split; [apply Hf|]]|].
    intros [u [i m]] [Hi Hm']. apply preserves_ret. split; [by apply same_set_frame|done].
  - destruct Hr as [Hr Ha]. eapply preserves_bind;
      [apply (preserves_pure_outcome _ typed); [by apply insert_create_typed|apply Hf]|].
    intros [u i] Hi. apply preserves_ret. split; [by apply same_set_frame|done].
Qed.
End host.

(** ** The loop *)

Section loop.
Context {DB DbErr : Type} `{HDB : Database DB DbErr} `{HK : Keccak} `{HKT : !KeccakTyped} `{HC : CreateAddress}.
Context `{HCT : !CreateAddressTyped}.
Context (I : Z -> JournaledState * DB -> Prop) `{HI : !CheckpointInvariant (DbErr := DbErr) I}.
Abbreviation CtxM := (M (JournaledState * DB) (EVMError DbErr)).
Abbreviation Ctx := (EvmContext (DB := DB) (DbErr := DbErr)).
Abbreviation CM := (M Ctx (EVMError DbErr)).
Context (env0 : Env).
Abbreviation at_level n := (in_context (DbErr := DbErr) (I n) env0).

Lemma at_level_weaken n m c : 1 <= n <= m -> at_level m c -> at_level n c.
Proof. intros Hn [He Hc]. split; [done|]. by eapply ci_weaken. Qed.

Lemma triple_on_inner {A} (P R : JournaledState * DB -> Prop) (Q : A -> JournaledState * DB -> Prop) (m : CtxM A) :
  triple P m Q R ->
  triple (fun c : Ctx => at_env env0 c.1 /\ P c.2.1) (on_inner m)
    (fun a c => at_env env0 c.1 /\ Q a c.2.1) (fun c => at_env env0 c.1 /\ R c.2.1).
Proof.
  intros Hm [env [s err]] [He Hc]. unfold on_inner, on_evm, on_ctx, zoom. cbn [fst snd] in *. specialize (Hm s Hc).
  by destruct (m s) as [[a|e|] s'].
Qed.

(** The sets of entries that the frames of a stack leave alone, [n0] below them all. *)
Context (n0 : Z) (Hn0 : 1 <= n0).
Definition level (fs : list Frame) : Z := match fs with [] => n0 | f :: _ => frame_cp f + 1 end.
Fixpoint nested (fs : list Frame) : Prop :=
  match fs with
  | [] => True
  | f :: rest => typed_frame f /\ inside (level rest) (fd_checkpoint (frame_data f)) /\ nested rest
  end.
Lemma level_below fs : nested fs -> n0 <= level fs.
Proof.
  induction fs as [|f rest IH]; [done|]. intros (_ & Hf & Hr). specialize (IH Hr).
  unfold inside in Hf. change (level (f :: rest)) with (frame_cp f + 1). unfold frame_cp. lia.
Qed.
Lemma nested_weaken fs c : nested fs -> at_level (level fs) c -> at_level n0 c.
Proof. intros Hf. apply at_level_weaken. pose proof (level_below fs Hf). lia. Qed.
Lemma nested_same f f' rest : same_frame f f' -> nested (f :: rest) -> nested (f' :: rest) /\ level (f' :: rest) = level (f :: rest).
Proof. intros [Hf' He] (_ & Hf & Hr). cbn [nested]. unfold level at 2 3, frame_cp. by rewrite He. Qed.

Definition typed_loop (l : LoopState) : Prop := nested (call_stack l) /\ typed_memory (loop_memory l).
(** A loop, whose context is at the level of its stack. *)
Definition at_loop (l : LoopState) (c : Ctx) : Prop := typed_loop l /\ at_level (level (call_stack l)) c.

Lemma frame_return_typed sp f rest r :
  nested (f :: rest) -> typed_result r ->
  triple (at_level (level (f :: rest))) (frame_return (DbErr := DbErr) sp f r)
    (fun r c => typed_frame_result r /\ at_level (level rest) c) (at_level (level rest)).
Proof.
  intros ((_ & _ & Ha) & Hf & Hrest) Hr. unfold frame_return.
  assert (Hb : forall c, at_level (level (f :: rest)) c -> at_level (level rest) c).
  { intros c. apply at_level_weaken. unfold inside in Hf. change (level (f :: rest)) with (frame_cp f + 1). unfold frame_cp. lia. }
  eapply triple_step; [apply (keeps_env (I _) env0)|done|]. intros [env s] _. cbv zeta.
  destruct f as [range fd|a fd|]; [| |done].
  - eapply triple_bind; [by apply (triple_on_inner (I _)), call_return_typed|]. intros u. by apply triple_done.
  - eapply triple_bind; [by apply (triple_on_inner (I _)), create_return_typed|]. intros r'. apply triple_done.
    intros c (He & Hr' & Hc). split; [|by split]. split; [done|]. by intros b [= <-].
Qed.

Context (ps : ContextPrecompiles (DB := DB)) (Hps : forall n, precompiles_typed (I n) ps).

(** A frame about to be entered on top of a loop, or a result for it. *)
Definition at_entry (r : FrameOrResult * LoopState) (c : Ctx) : Prop :=
  typed_loop r.2 /\ at_env env0 c.1 /\ enters I (level (call_stack r.2)) r.1 c.2.1.

Lemma handle_action_typed sp a f rest memory :
  typed_action a -> nested (f :: rest) -> typed_memory memory ->
  triple (at_level (level (f :: rest))) (handle_action (DbErr := DbErr) ps sp a f rest memory) at_entry (at_level n0).
Proof.
  intros Ha Hf Hm. unfold handle_action. pose proof (level_below _ Hf) as Hl.
  assert (Hw : forall c, at_level (level (f :: rest)) c -> at_level n0 c) by (intros c; by apply nested_weaken).
  assert (Henter : forall m : CtxM FrameOrResult,
    triple (I (level (f :: rest))) m (enters I (level (f :: rest))) (I (level (f :: rest))) ->
    triple (at_level (level (f :: rest))) (r ← on_inner m; mret (r, mkLoop (f :: rest) memory)) at_entry (at_level n0)).
  { intros m Hm'. eapply triple_bind.
    - eapply triple_mono; [intros c Hc; exact Hc|intros r c Hc; exact Hc|apply Hw|]. by apply triple_on_inner.
    - intros r. apply triple_done. intros c [He Hr]. by split_and!. }
  eapply triple_step; [apply (keeps_env (I _) env0)|done|]. intros [env s] _.
  destruct a as [inputs|inputs|inputs|r|]; [| |done| |by intros c Hc].
  - by apply Henter, make_call_frame_typed; [done|lia|..].
  - by apply Henter, make_create_frame_typed; [done|lia|..].
  - eapply triple_bind.
    + eapply triple_mono; [intros c Hc; exact Hc|intros r' c Hc; exact Hc| |by apply frame_return_typed].
      intros c. by apply nested_weaken, Hf.
    + intros r'. apply triple_done. intros c [Hr [He Hc]]. split; [split; [apply Hf|by apply typed_free_context]|split; [done|]].
      by split.
Qed.

Definition at_step (r : FrameResult + LoopState) (c : Ctx) : Prop :=
  match r with inl r => typed_frame_result r /\ at_level n0 c | inr l => at_loop l c end.

Lemma handle_result_typed r l :
  triple (at_entry (r, l)) (handle_result (DbErr := DbErr) r l) at_step (at_level n0).
Proof.
  intros c ([Hn Hm] & He & Hr & Hc). cbn [fst snd] in *. unfold handle_result. destruct r as [f1|r].
  - destruct Hc as [Hi Hc]. split; [split; [by split_and!|by apply typed_new_context]|by split].
  - destruct (call_stack l) as [|top rest]; [by split|].
    pose proof (insert_outcome_typed (I (level (top :: rest))) env0 r top (loop_memory l) Hr (proj1 Hn) Hm c (conj He Hc)) as Ho.
    unfold mbind, M_bind. destruct (insert_outcome r top (loop_memory l) c) as [[[f2 m2]|e|] c']; [| |done].
    + destruct Ho as [[Hf2 Hm2] Hc2]. cbn [fst snd] in *. destruct (nested_same _ _ _ Hf2 Hn) as [Hn2 Hl2].
      split; [by split|]. cbn [call_stack]. by rewrite Hl2.
    + by eapply nested_weaken.
Qed.

Lemma loop_step_typed sp l : typed_loop l -> triple (at_level (level (call_stack l))) (loop_step (DbErr := DbErr) ps sp l) at_step (at_level n0).
Proof.
  intros [Hs Hm]. unfold loop_step. pose proof (fun c => nested_weaken _ c Hs) as Hw. destruct (call_stack l) as [|f rest]; [by intros c Hc|].
  eapply triple_step; [by apply (execute_frame_typed (I _) env0); [apply Hs|]|intros c; by apply Hw|].
  intros [[a f'] m] (Ha & Hf' & Hm'). cbn [fst snd] in *.
  apply triple_seq; [apply (keeps_take_error (I _) env0)|intros c; by apply Hw|intros _].
  destruct (nested_same _ _ _ Hf' Hs) as [Hs' Hl']. rewrite <- Hl'.
  eapply triple_bind; [by apply handle_action_typed|]. intros [r l']. apply handle_result_typed.
Qed.

Lemma frames_loop_typed fuel sp l :
  typed_loop l ->
  triple (at_level (level (call_stack l))) (frames_loop (DbErr := DbErr) ps fuel sp l)
    (fun o c => forall r, o = Some r -> typed_frame_result r /\ at_level n0 c) (at_level n0).
Proof.
  revert l. induction fuel as [|fuel IH]; intros l Hl; cbn [frames_loop]; [by intros c Hc|].
  eapply triple_bind; [by apply loop_step_typed|]. intros [r|l'] c Hc.
  - intros r' [= <-]. exact Hc.
  - destruct Hc as [Hl' Hc]. by apply IH.
Qed.

Lemma run_the_loop_typed fuel sp f :
  typed_frame f -> inside n0 (fd_checkpoint (frame_data f)) ->
  triple (at_level (frame_cp f + 1)) (run_the_loop (DbErr := DbErr) ps fuel sp f)
    (fun o c => forall r, o = Some r -> typed_frame_result r /\ at_level n0 c) (at_level n0).
Proof.
  intros Hf Hi. apply (frames_loop_typed fuel sp (mkLoop [f] (new_context SharedMemory_new))).
  split; [by split_and!|by apply typed_new_context].
Qed.
End loop.
