(* ===== verification/TypedWorld.v ===== *)
(** Typed worlds: the accounts, the transient storage and the journal of typed
    values over a database of typed values.  Every operation of the journal keeps
    them, those of checkpoints included. *)

From S2P Require Import Prelude.
From S2P Require Import Specification.
From S2P Require Import Bytes.
From S2P Require Import Triples.
From S2P Require Import Eof.
From S2P Require Import Bytecode.
From S2P Require Import State.
From S2P Require Import Result.
From S2P Require Import InstructionResult.
From S2P Require Import Database.
From S2P Require Import Journal.
From S2P Require Import JournalRevert.
From S2P Require Import WordTypes.
From S2P Require Import InterpreterTypes.
From S2P Require Import JournalInvariant.

(** ** Typed accounts and entries *)

Lemma typed_status f x : typed_account x -> typed_account (set_status f x).
Proof. by intros []. Qed.
Lemma typed_set_storage f x :
  map_Forall (fun _ => typed_slot) (f (storage x)) -> typed_account x -> typed_account (set_storage f x).
Proof. by intros Hf []. Qed.
Lemma typed_set_info f x : typed_info (f (info x)) -> typed_account x -> typed_account (set_info f x).
Proof. by intros Hf []. Qed.
Lemma typed_set_balance t v i : word v -> typed_info i -> typed_info (set_balance t v i).
Proof.
  intros Hv [[Hb Hn] Hh Hc]. split; [split; [|done]|done..]. intros t'. rewrite get_balance_set. by case_decide.
Qed.
Lemma typed_increase t v i : typed_info i -> typed_info (increase_balance t v i).
Proof. intros Hi. rewrite increase_balance_set. apply typed_set_balance; [apply fits_wrapping_add; lia|done]. Qed.
Lemma typed_decrease t v i : typed_info i -> typed_info (decrease_balance t v i).
Proof. intros Hi. rewrite decrease_balance_set. apply typed_set_balance; [apply fits_wrapping_sub; lia|done]. Qed.
Lemma typed_nonce v i : fits 64 v -> typed_info i -> typed_info (set_nonce v i).
Proof. by intros Hv [[Hb Hn] Hh Hc]. Qed.
Lemma typed_no_code i : typed_info i -> typed_info (set_info_code None i).
Proof. by intros [[Hb Hn] Hh Hc]. Qed.
Lemma typed_some_code c i : typed_code c -> typed_info i -> typed_info (set_info_code (Some c) i).
Proof. intros Hc' [[Hb Hn] Hh Hc]. split; [done..|]. by intros ? [= <-]. Qed.
Lemma typed_code_hash h i : word h -> typed_info i -> typed_info (set_code_hash h i).
Proof. by intros Hh' [[Hb Hn] Hh Hc]. Qed.
Lemma word_KECCAK_EMPTY : word KECCAK_EMPTY.
Proof. by split. Qed.
Lemma typed_insert_slot k s x :
  typed_slot s -> typed_account x -> typed_account (set_storage (<[k := s]>) x).
Proof.
  intros Hs Hx. apply typed_set_storage; [|done]. apply (map_Forall_insert_2 (fun _ => typed_slot)); [done|apply Hx].
Qed.
Lemma typed_delete_slot k x : typed_account x -> typed_account (set_storage (delete k) x).
Proof. intros Hx. apply typed_set_storage; [|done]. apply map_Forall_delete, Hx. Qed.
Lemma typed_reset_slots x : typed_account x -> typed_account (set_storage (fmap (fun _ => EvmStorageSlot_default)) x).
Proof.
  intros Hx. apply typed_set_storage; [|done]. intros k s. rewrite lookup_fmap_Some. by intros (s' & <- & _).
Qed.

Create HintDb world.
#[export] Hint Resolve typed_status typed_set_info typed_increase typed_decrease typed_set_balance typed_nonce typed_no_code
  typed_some_code typed_code_hash word_KECCAK_EMPTY typed_insert_slot typed_delete_slot typed_reset_slots ta_info : world.

(** The values an entry puts back. *)
Definition typed_entry (e : JournalEntry) : Prop :=
  match e with
  | StorageChange _ _ (Some v) | TransientStorageChange _ _ v => word v
  | _ => True
  end.

Definition typed_accounts (m : gmap Address Account) : Prop := map_Forall (fun _ => typed_account) m.
Record typed_js (j : JournaledState) : Prop := {
  tj_accounts : typed_accounts (accounts (state j));
  tj_transient : map_Forall (fun _ => word) (transient_storage j);
  tj_journal : Forall (Forall typed_entry) (journal j);
}.

(** A typed state whose first [n] sets are to stay. *)
Definition typed_at (n : Z) (j : JournaledState) : Prop := 1 <= n <= len (journal j) /\ typed_js j.

Lemma typed_alter a f m :
  (forall x, typed_account x -> typed_account (f x)) -> typed_accounts m -> typed_accounts (alter f a m).
Proof.
  intros Hf Hm b y. rewrite lookup_alter. case_decide; [subst b|by apply Hm].
  destruct (m !! a) as [x|] eqn:Hx; simpl; [|done]. intros [= <-]. by eapply Hf, Hm.
Qed.

(** ** Reverting *)

Definition typed_undo (s : undo_state) : Prop := typed_accounts (accounts s.1) /\ map_Forall (fun _ => word) s.2.

Lemma typed_undo_account a f s s' :
  (forall x, typed_account x -> typed_account (f x)) -> typed_undo s -> undo_account a f s = Some s' -> typed_undo s'.
Proof.
  intros Hf [Ha Ht] H. unfold undo_account in H. destruct (accounts s.1 !! a); simplify_eq/=. split; [|done].
  by apply typed_alter.
Qed.
Lemma typed_acc_increase t v x : typed_account x -> typed_account (set_info (increase_balance t v) x).
Proof. intros Hx. apply typed_set_info; [apply typed_increase, Hx|done]. Qed.
Lemma typed_acc_decrease t v x : typed_account x -> typed_account (set_info (decrease_balance t v) x).
Proof. intros Hx. apply typed_set_info; [apply typed_decrease, Hx|done]. Qed.
Lemma typed_base_add v x : typed_account x -> typed_account (set_info (increase_base_balance v) x).
Proof. apply typed_acc_increase. Qed.
Lemma typed_base_sub v x : typed_account x -> typed_account (set_info (decrease_base_balance v) x).
Proof. apply typed_acc_decrease. Qed.
#[local] Hint Resolve typed_acc_increase typed_acc_decrease : world.

Ltac undo_step H :=
  match type of H with
  | (?m ≫= _) = Some _ => let s1 := fresh "s1" in let H1 := fresh "H1" in
      destruct m as [s1|] eqn:H1; cbn [mbind option_bind] in H; [|done]
  end.
Lemma typed_revert_entry sd e s s' : typed_entry e -> typed_undo s -> revert_entry sd e s = Some s' -> typed_undo s'.
Proof.
  intros He Hs H. destruct e; cbn [revert_entry] in H.
  - injection H as <-. split; [apply map_Forall_delete, Hs|apply Hs].
  - undo_step H. assert (typed_undo s1) as Hs1.
    { eapply typed_undo_account; [|exact Hs|exact H1]. intros x Hx. apply typed_set_info; [|by destruct was_destroyed; apply typed_status].
      apply typed_increase. by destruct was_destroyed; apply Hx. }
    destruct (negb _); simplify_eq; [|done]. eapply typed_undo_account; [apply typed_base_sub|exact Hs1|exact H].
  - destruct (_ && _); simplify_eq; [done|]. eapply typed_undo_account; [|exact Hs|exact H]. intros x. apply typed_status.
  - undo_step H. eapply typed_undo_account; [|eapply typed_undo_account; [|exact Hs|exact H1]|exact H]; eauto 7 with world.
  - eapply typed_undo_account; [|exact Hs|exact H]. intros x Hx. apply typed_set_info; [|done].
    apply typed_nonce; [apply fits_wrapping_sub; lia|apply Hx].
  - eapply typed_undo_account; [|exact Hs|exact H]. intros x Hx. apply typed_set_info; [|by apply typed_status].
    apply typed_nonce; [done|apply Hx].
  - destruct had_value as [v|]; [|eapply typed_undo_account; [|exact Hs|exact H]; eauto with world].
    destruct (accounts s.1 !! address) as [x|] eqn:Hx; [|done]. cbn [mbind option_bind] in H.
    destruct (storage x !! key) as [slot|] eqn:Hsl; [|done]. cbn [mbind option_bind] in H.
    eapply typed_undo_account; [|exact Hs|exact H]. intros y. apply typed_insert_slot. split; [|done].
    apply Hs in Hx. by apply (ta_storage _ Hx) in Hsl as [? _].
  - destruct Hs as [Ha Ht]. destruct (_ =? 0); injection H as <-; (split; [done|]).
    + by apply map_Forall_delete.
    + by apply (map_Forall_insert_2 (fun _ => word)).
  - eapply typed_undo_account; [|exact Hs|exact H]. intros x Hx. apply typed_set_info; eauto with world.
  - eapply typed_undo_account; [|exact Hs|exact H]. eauto 7 with world.
  - by injection H as <-.
  - eapply typed_undo_account; [|exact Hs|exact H]. eauto 7 with world.
Qed.
Lemma typed_journal_revert sd es s s' :
  Forall typed_entry es -> typed_undo s -> journal_revert sd es s = Some s' -> typed_undo s'.
Proof.
  revert s. induction es as [|e es IH]; cbn [journal_revert]; intros s He Hs H; [by simplify_eq|].
  apply Forall_cons in He as [He Hes]. undo_step H. eapply IH; [done| |exact H]. by eapply typed_revert_entry.
Qed.
Lemma typed_revert_sets sd cs s s' :
  Forall (Forall typed_entry) cs -> typed_undo s -> revert_sets sd cs s = Some s' -> typed_undo s'.
Proof.
  revert s. induction cs as [|c cs IH]; cbn [revert_sets]; intros s He Hs H; [by simplify_eq|].
  apply Forall_cons in He as [He Hes]. undo_step H. eapply IH; [done| |exact H].
  by eapply typed_journal_revert; [apply Forall_reverse|..].
Qed.

(** *** The steps of the journal *)

Lemma push_last_len {A} (e : A) l l' : push_last e l = Some l' -> len l' = len l.
Proof.
  revert l'. induction l as [|x l IH]; cbn [push_last]; intros l' H; [done|].
  destruct l as [|y l]; [by injection H as <-|].
  destruct (push_last e (y :: l)) as [l1|] eqn:H1; [|done]. injection H as <-. rewrite !(len_cons x).
  by rewrite (IH l1).
Qed.
Lemma push_last_Forall {A} (P : A -> Prop) e l l' :
  P e -> Forall (Forall P) l -> push_last e l = Some l' -> Forall (Forall P) l'.
Proof.
  intros He. revert l'. induction l as [|x l IH]; cbn [push_last]; intros l' Hl H; [done|]. apply Forall_cons in Hl as [Hx Hl].
  destruct l as [|y l].
  - injection H as <-. apply Forall_singleton, Forall_app. by split; [|apply Forall_singleton].
  - destruct (push_last e (y :: l)) as [l1|] eqn:H1; [|done]. injection H as <-. constructor; [done|by apply IH].
Qed.

Section journal.
Context {E : Type} (n : Z).
Abbreviation JM := (M JournaledState E).
Abbreviation tkeeps P m := (preserves (typed_at n) P m).
Abbreviation tkeeps_any m := (tkeeps (fun _ => True) m).

Lemma tkeeps_push_entry e : typed_entry e -> tkeeps_any (push_entry e : JM unit).
Proof.
  intros He j [Hn [Ha Ht Hj]]. unfold push_entry. destruct (push_last e (journal j)) as [l|] eqn:Hl; [|done].
  split; [done|]. split; [cbn; by rewrite (push_last_len _ _ _ Hl)|]. split; [done..|]. by eapply push_last_Forall.
Qed.
Lemma tkeeps_account a : tkeeps typed_account (account a : JM Account).
Proof.
  intros j Hj. unfold account. destruct (accounts (state j) !! a) as [x|] eqn:Hx; [|done]. split; [|done].
  by apply (tj_accounts _ (proj2 Hj)) in Hx.
Qed.
Lemma tkeeps_set_accounts f :
  (forall m, typed_accounts m -> typed_accounts (f m)) -> tkeeps_any (modify (set_state (set_accounts f)) : JM unit).
Proof. intros Hf. apply preserves_modify. intros j [Hn [Ha Ht Hj]]. split; [done|]. split; [by apply Hf|done..]. Qed.
Lemma tkeeps_update a f : (forall x, typed_account x -> typed_account (f x)) -> tkeeps_any (update_account a f : JM unit).
Proof.
  intros Hf. unfold update_account. apply preserves_seq; [eapply preserves_true, tkeeps_account|intros _].
  apply tkeeps_set_accounts. intros m. by apply typed_alter.
Qed.
Lemma tkeeps_token_ids f : tkeeps_any (modify (set_state (set_token_ids f)) : JM unit).
Proof. apply preserves_modify. intros j [Hn [Ha Ht Hj]]. by split; [|split]. Qed.
End journal.

#[export] Hint Resolve tkeeps_push_entry tkeeps_update tkeeps_token_ids : world.
#[export] Hint Extern 1 (preserves _ (fun _ => True) (mret _)) => apply preserves_ret; done : world.

(** ** The operations *)

Section operations.
Context {E : Type} (n : Z).
Abbreviation JM := (M JournaledState E).
Abbreviation tkeeps P m := (preserves (typed_at n) P m).
Abbreviation tkeeps_any m := (tkeeps (fun _ => True) m).

Lemma tkeeps_touch_account a : tkeeps_any (touch_account a : JM unit).
Proof.
  unfold touch_account. eapply preserves_bind; [apply tkeeps_account|]. intros x Hx.
  on_if; [by apply preserves_ret|]. apply preserves_seq; [by apply tkeeps_push_entry|intros _].
  apply tkeeps_update. intros y. apply typed_status.
Qed.
Lemma tkeeps_touch a : tkeeps_any (touch a : JM unit).
Proof. intros j Hj. unfold touch. by destruct (accounts (state j) !! a); [apply (tkeeps_touch_account a j)|]. Qed.
Lemma tkeeps_inc_nonce a : tkeeps_any (inc_nonce a : JM (option Z)).
Proof.
  unfold inc_nonce. eapply preserves_bind; [apply tkeeps_account|]. intros x Hx.
  on_if; [by apply preserves_ret|]. apply preserves_seq; [apply tkeeps_touch_account|intros _].
  apply preserves_seq; [by apply tkeeps_push_entry|intros _]. apply preserves_seq; [|intros _; by apply preserves_ret].
  apply tkeeps_update. intros y Hy. apply typed_set_info; [|done]. apply typed_nonce; [|apply Hy].
  pose proof (wf_nonce _ (ti_wf _ (ta_info _ Hx))) as [Hn0 Hn1]. bool_lia. unfold U64_MAX in *. split; lia.
Qed.
Lemma tkeeps_set_code `{HK : Keccak} `{HKT : !KeccakTyped} a c : typed_code c -> tkeeps_any (set_code a c : JM unit).
Proof.
  intros Hc. unfold set_code. apply preserves_seq; [eapply preserves_true, tkeeps_account|intros _].
  apply preserves_seq; [apply tkeeps_touch_account|intros _].
  apply preserves_seq; [by apply tkeeps_push_entry|intros _]. apply tkeeps_update. intros y Hy.
  apply typed_set_info; [|done]. apply typed_some_code; [done|]. apply typed_code_hash; [|apply Hy].
  unfold hash_slow. on_if; [apply word_KECCAK_EMPTY|apply keccak_word].
Qed.
Lemma tkeeps_tload a k : tkeeps word (tload a k : JM Z).
Proof.
  apply preserves_gets. intros j [_ [_ Ht _]]. destruct (transient_storage j !! (a, k)) as [v|] eqn:Hv; [|done].
  by apply Ht in Hv.
Qed.
Lemma tkeeps_tstore a k v : word v -> tkeeps_any (tstore a k v : JM unit).
Proof.
  intros Hv j [Hn [Ha Ht Hj]]. unfold tstore. cbv zeta.
  set (p := if v =? 0 then _ else _).
  assert (Hp : (forall w, p.1 = Some w -> word w) /\ map_Forall (fun _ => word) p.2).
  { unfold p. destruct (transient_storage j !! (a, k)) as [o|] eqn:Ho; [apply Ht in Ho|]; (on_if; split);
      try (by apply map_Forall_delete); try (by apply (map_Forall_insert_2 (fun _ => word)));
      cbn [fst default]; intros w; try case_match; by intros [= <-]. }
  destruct p as [w ts]. destruct Hp as [Hw Hts]. cbn [fst snd] in *.
  assert (Hj' : typed_at n (set_transient (fun _ => ts) j)) by (split; [done|by split]).
  destruct w as [w|]; [|done]. by apply tkeeps_push_entry; [apply Hw|].
Qed.
Lemma fits_checked_sub w a b c : fits w a -> fits w b -> checked_sub a b = Some c -> fits w c.
Proof. intros [? ?] [? ?] [-> ?]%checked_sub_Some. split; lia. Qed.
Lemma fits_checked_add w a b c : fits w a -> fits w b -> checked_add w a b = Some c -> fits w c.
Proof. intros [? ?] [? ?] [-> ?]%checked_add_Some. split; lia. Qed.
Lemma tkeeps_transfer_loop from to ts :
  Forall typed_transfer ts -> tkeeps_any (transfer_loop from to ts : JM (option InstructionResult)).
Proof.
  induction 1 as [|t ts Ht _ IH]; cbn [transfer_loop]; [by apply preserves_ret|].
  apply preserves_seq; [apply tkeeps_touch_account|intros _].
  eapply preserves_bind; [apply tkeeps_account|]. intros x Hx.
  destruct (checked_sub _ _) as [v|] eqn:Hv; [|by apply preserves_ret]. apply preserves_seq.
  { apply tkeeps_update. intros y Hy. apply typed_set_info; [|done]. apply typed_set_balance; [|apply Hy].
    eapply fits_checked_sub; [apply (wf_balance _ (ti_wf _ (ta_info _ Hx)))|apply Ht|exact Hv]. }
  intros _. apply preserves_seq; [apply tkeeps_touch_account|intros _].
  eapply preserves_bind; [apply tkeeps_account|]. intros z Hz.
  destruct (checked_add 256 _ _) as [w|] eqn:Hw; [|by apply preserves_ret]. apply preserves_seq.
  { apply tkeeps_update. intros y Hy. apply typed_set_info; [|done]. apply typed_set_balance; [|apply Hy].
    eapply fits_checked_add; [apply (wf_balance _ (ti_wf _ (ta_info _ Hz)))|apply Ht|exact Hw]. }
  intros _. apply preserves_seq; [by apply tkeeps_push_entry|intros _]. exact IH.
Qed.
End operations.

(** ** Checkpoints *)

Lemma typed_checkpoint {E} n :
  triple (typed_at n) (checkpoint (E := E)) (fun cp j => n <= journal_i cp /\ typed_at (journal_i cp + 1) j) (fun _ => False).
Proof.
  intros j [Hn [Ha Ht Hj]]. unfold checkpoint. cbn [journal_i]. split; [lia|].
  split; [cbn; rewrite len_app; change (len [[]]) with 1; lia|]. split; [done..|]. cbn. apply Forall_app.
  split; [done|]. by apply Forall_singleton.
Qed.
Lemma typed_revert {E} cp : 1 <= journal_i cp ->
  triple (typed_at (journal_i cp + 1)) (checkpoint_revert (E := E) cp) (fun _ => typed_at (journal_i cp)) (fun _ => False).
Proof.
  intros Hcp j [Hn [Ha Ht Hj]]. unfold checkpoint_revert. cbv zeta.
  destruct (revert_sets _ _ _) as [[st ts]|] eqn:Hr; [|done]. apply typed_revert_sets in Hr as [Ha' Ht']; [|by apply Forall_take, Forall_reverse|done].
  split; [|split; [done..|by apply Forall_take]]. cbn. rewrite len_take; lia.
Qed.
Lemma typed_at_weaken n m j : 1 <= n <= m -> typed_at m j -> typed_at n j.
Proof. intros Hn [Hm Hj]. split; [lia|done]. Qed.

Section creation.
Context (m n : Z) (Hmn : 1 <= n <= m).

(** A failed creation leaves the state it entered. *)
Lemma typed_create_fails {A} (Q : A -> JournaledState -> Prop) cp (e : InstructionResult) :
  journal_i cp = m -> triple (typed_at (m + 1)) (_ ← checkpoint_revert cp; fail e)
    Q (typed_at n).
Proof.
  intros Hcp. eapply triple_bind; [|intros u j Hj; exact (typed_at_weaken n m j Hmn Hj)].
  apply triple_no_error. rewrite <- Hcp. apply typed_revert. lia.
Qed.
End creation.

Lemma typed_create n caller a v sp :
  1 <= n -> word v ->
  triple (typed_at n) (create_account_checkpoint caller a v sp)
    (fun cp j => n <= journal_i cp /\ typed_at (journal_i cp + 1) j) (typed_at n).
Proof.
  intros Hn Hv. unfold create_account_checkpoint.
  eapply triple_bind; [apply triple_no_error, typed_checkpoint|].
  intros cp j [Hcp Hj]. revert j Hj. assert (Hw : forall j, typed_at (journal_i cp + 1) j -> typed_at n j).
  { intros j. apply typed_at_weaken. lia. }
  eapply triple_step; [apply tkeeps_account|exact Hw|]. intros x Hx.
  apply triple_seq; [by apply preserves_gets|exact Hw|intros warm]. on_if.
  { apply (typed_create_fails (journal_i cp) n); [lia|done].  }
  apply triple_seq; [apply tkeeps_update; intros y; apply typed_status|exact Hw|intros _].
  apply triple_seq; [by apply tkeeps_push_entry|exact Hw|intros _].
  apply triple_seq; [|exact Hw|intros _].
  { apply tkeeps_update. intros y Hy. apply typed_reset_slots, typed_set_info; [apply typed_no_code, Hy|done]. }
  apply triple_seq; [apply tkeeps_touch_account|exact Hw|intros _].
  eapply triple_step; [apply tkeeps_account|exact Hw|]. intros y Hy.
  destruct (checked_add 256 _ _) as [w|] eqn:Hw'.
  2: { apply (typed_create_fails (journal_i cp) n); [lia|done].  }
  apply triple_seq; [|exact Hw|intros _].
  { apply tkeeps_update. intros z Hz. apply typed_set_info; [|done]. apply typed_set_balance; [|apply Hz].
    eapply fits_checked_add; [apply (wf_balance _ (ti_wf _ (ta_info _ Hy)))|apply Hv|exact Hw']. }
  apply triple_seq; [|exact Hw|intros _].
  { on_if; [|by apply preserves_ret]. apply tkeeps_update. intros z Hz. apply typed_set_info; [|done].
    apply typed_nonce; [done|apply Hz]. }
  apply triple_seq; [apply tkeeps_update; intros z; apply typed_base_sub|exact Hw|intros _].
  apply triple_seq; [by apply tkeeps_push_entry|exact Hw|intros _]. by apply triple_done.
Qed.

(** ** Over a database *)

(** A database of typed values, in the states that satisfy [db_typed]. *)
Class DatabaseTyped (DB DbErr : Type) `{Database DB DbErr} : Type := {
  db_typed : DB -> Prop;
  basic_typed a : preserves db_typed (fun o => forall i, o = Some i -> typed_info i) (basic a);
  code_by_hash_typed h : preserves db_typed typed_code (code_by_hash h);
  db_storage_typed a k : preserves db_typed word (db_storage a k);
  block_hash_typed n : preserves db_typed word (block_hash n);
}.

Section world.
Context {DB DbErr : Type} `{HDB : Database DB DbErr} `{HT : !DatabaseTyped DB DbErr} `{HK : Keccak} `{HKT : !KeccakTyped}.

Definition typed_world (n : Z) (s : JournaledState * DB) : Prop := typed_at n s.1 /\ db_typed s.2.

Section at_level.
Context (n : Z).
Abbreviation DM := (M (JournaledState * DB) (EVMError DbErr)).
Abbreviation wkeeps P m := (preserves (typed_world n) P m).
Abbreviation wkeeps_any m := (wkeeps (fun _ => True) m).

Lemma wkeeps_js {A} (P : A -> Prop) (m : M JournaledState (EVMError DbErr) A) :
  preserves (typed_at n) P m -> wkeeps P (on_js m).
Proof. intros Hm. by apply (preserves_zoom _ (typed_at n)); [intros s [Hs _]|intros s t [_ Hs] Ht|]. Qed.
Lemma jkeeps {E A} (P : A -> Prop) (m : M JournaledState E A) :
  preserves (typed_at n) P m -> jpreserves (typed_world n) P m.
Proof. intros Hm d j [Hj Hd]. specialize (Hm j Hj). destruct (m j) as [[]]; [|by split|done]. destruct Hm. by split. Qed.
Lemma wkeeps_js_any {A} (P : A -> Prop) (m : M JournaledState (EVMError DbErr) A) :
  preserves (typed_at n) P m -> wkeeps_any (on_js m).
Proof. intros Hm. by eapply preserves_true, wkeeps_js. Qed.
Lemma wkeeps_db {A} (P : A -> Prop) (m : M DB DbErr A) : preserves db_typed P m -> wkeeps P (on_db m).
Proof.
  intros Hm. apply preserves_with_err. by apply (preserves_zoom _ db_typed); [intros s [_ Hs]|intros s t [Hs _] Ht|].
Qed.
Lemma wkeeps_db_read {A} (f : DB -> outcome DbErr A) : wkeeps_any (on_db (fun d => (f d, d))).
Proof. apply wkeeps_db. intros d Hd. by destruct (f d). Qed.
Lemma wkeeps_update a f : (forall x, typed_account x -> typed_account (f x)) -> wkeeps_any (on_js (update_account a f) : DM unit).
Proof. intros Hf. by eapply wkeeps_js, tkeeps_update. Qed.
Lemma wkeeps_push e : typed_entry e -> wkeeps_any (on_js (push_entry e) : DM unit).
Proof. intros He. by eapply wkeeps_js, tkeeps_push_entry. Qed.
Lemma wkeeps_account a : wkeeps typed_account (on_js (account a) : DM Account).
Proof. apply wkeeps_js, tkeeps_account. Qed.
Lemma wkeeps_js_state : wkeeps (fun j => typed_at n j) (gets fst : DM JournaledState).
Proof. apply preserves_gets. by intros s [Hs _]. Qed.

(** One step after the other. *)
Ltac world_step :=
  first
  [ apply preserves_seq; [by apply preserves_gets|intros ?]
  | apply preserves_seq; [by apply wkeeps_push|intros ?]
  | apply preserves_seq; [by apply wkeeps_db_read|intros ?]
  | apply preserves_seq; [by apply wkeeps_js_any with (P := fun _ => True), tkeeps_token_ids|intros ?]
  | eapply preserves_bind; [by apply wkeeps_account|intros ? ?]
  | by apply preserves_ret
  | by apply preserves_fail ].

Lemma wkeeps_token_ids : wkeeps_any (load_native_token_ids (DbErr := DbErr)).
Proof. unfold load_native_token_ids. world_step. case_match; repeat world_step. Qed.

Lemma typed_from_basic (o : option AccountInfo) :
  (forall i, o = Some i -> typed_info i) ->
  typed_account (match o with Some i => Account_from_info i | None => Account_new_not_existing end).
Proof.
  intros Ho. destruct o as [i|]; [split; [by apply Ho|apply map_Forall_empty]|].
  split; [|apply map_Forall_empty]. split; [split; [|done]|apply word_KECCAK_EMPTY|].
  - intros t. unfold get_balance. cbn. by rewrite lookup_empty.
  - intros c [= <-]. apply typed_Bytecode_new.
Qed.
Lemma wkeeps_insert a x : typed_account x -> wkeeps_any (on_js (modify (set_state (set_accounts (<[a := x]>)))) : DM unit).
Proof.
  intros Hx. eapply wkeeps_js, tkeeps_set_accounts. intros m Hm. by apply (map_Forall_insert_2 (fun _ => typed_account)).
Qed.
Lemma wkeeps_load_account a : wkeeps (fun r => typed_account r.1) (load_account (DbErr := DbErr) a).
Proof.
  unfold load_account. eapply preserves_bind; [apply wkeeps_js_state|]. intros j [_ [Ha _ _]].
  destruct (accounts (state j) !! a) as [x|] eqn:Hx; [apply preserves_ret; by apply Ha in Hx|].
  eapply preserves_bind; [apply wkeeps_db, basic_typed|]. intros o Ho. cbv zeta. apply typed_from_basic in Ho.
  world_step. apply preserves_seq; [by apply wkeeps_insert|intros _]. by apply preserves_ret.
Qed.
Lemma wkeeps_load_account_exist a : wkeeps_any (load_account_exist (DbErr := DbErr) a).
Proof.
  unfold load_account_exist. world_step. eapply preserves_bind; [apply wkeeps_load_account|]. intros [x c] _. world_step.
Qed.
Lemma wkeeps_load_code a : wkeeps (fun r => typed_account r.1) (load_code (DbErr := DbErr) a).
Proof.
  unfold load_code. eapply preserves_bind; [apply wkeeps_load_account|]. intros [x c] Hx. cbn [fst] in Hx.
  assert (Hset : forall b, typed_code b -> wkeeps_any (on_js (update_account a (set_info (set_info_code (Some b)))) : DM unit)).
  { intros b Hb. apply wkeeps_update. intros y Hy. apply typed_set_info; [|done]. apply typed_some_code; [done|apply Hy]. }
  apply preserves_seq.
  - destruct (code (info x)); [world_step|]. on_if; [apply Hset, typed_Bytecode_new|].
    eapply preserves_bind; [apply wkeeps_db, code_by_hash_typed|exact Hset].
  - intros _. world_step. by apply preserves_ret.
Qed.
Lemma wkeeps_sload a k : wkeeps (fun r => word r.1) (sload (DbErr := DbErr) a k).
Proof.
  unfold sload. eapply preserves_bind; [apply wkeeps_account|]. intros x Hx. destruct (storage x !! k) as [s|] eqn:Hs.
  { apply preserves_ret. by apply (ta_storage _ Hx) in Hs as [_ ?]. }
  eapply (preserves_bind _ word); [on_if; [by apply preserves_ret|apply wkeeps_db, db_storage_typed]|]. intros v Hv.
  world_step. apply preserves_seq; [|intros _; by apply preserves_ret].
  apply wkeeps_update. intros y Hy. by apply typed_insert_slot.
Qed.
Lemma wkeeps_sstore a k v : word v -> wkeeps_any (sstore (DbErr := DbErr) a k v).
Proof.
  intros Hv. unfold sstore. eapply preserves_bind; [apply wkeeps_sload|]. intros [p c] Hp. cbn [fst] in Hp.
  eapply preserves_bind; [apply wkeeps_account|]. intros x Hx.
  eapply (preserves_bind _ typed_slot).
  { apply preserves_lift. intros s Hs. unfold unwrap in Hs. destruct (storage x !! k) as [s'|] eqn:He; [|done].
    injection Hs as ->. by apply (ta_storage _ Hx) in He. }
  intros s [Hs _]. on_if; [world_step|]. world_step. apply preserves_seq; [|intros _; world_step].
  apply wkeeps_update. intros y Hy. by apply typed_insert_slot.
Qed.
Lemma wkeeps_transfer from to ts : Forall typed_transfer ts -> wkeeps_any (Journal.transfer (DbErr := DbErr) from to ts).
Proof.
  intros Ht. unfold Journal.transfer. apply preserves_seq; [apply wkeeps_token_ids|intros _].
  do 2 (apply preserves_seq; [eapply preserves_true, wkeeps_load_account|intros _]). by eapply wkeeps_js, tkeeps_transfer_loop.
Qed.
Lemma typed_no_base x f : typed_account x -> typed_account (set_info (set_base_balance 0) (set_status f x)).
Proof. intros Hx. apply typed_set_info; [apply typed_set_balance; [done|apply Hx]|by apply typed_status]. Qed.
Lemma typed_no_base' x : typed_account x -> typed_account (set_info (set_base_balance 0) x).
Proof. intros Hx. apply typed_set_info; [apply typed_set_balance; [done|apply Hx]|done]. Qed.
Lemma wkeeps_selfdestruct a t : wkeeps_any (selfdestruct (DbErr := DbErr) a t).
Proof.
  unfold selfdestruct. apply preserves_seq; [apply wkeeps_load_account_exist|intros l]. apply preserves_seq.
  - on_if; [|world_step]. world_step. cbv zeta. apply preserves_seq; [by eapply wkeeps_js, tkeeps_touch_account|intros _].
    apply wkeeps_update. intros y. apply typed_base_add.
  - intros _. do 2 world_step. cbv zeta. eapply (preserves_bind _ (fun e => from_option typed_entry True e)).
    + on_if; [apply preserves_seq; [apply wkeeps_update; intros y; apply typed_no_base|intros _; by apply preserves_ret]|].
      on_if; [|by apply preserves_ret].
      apply preserves_seq; [apply wkeeps_update; intros y; apply typed_no_base'|intros _; by apply preserves_ret].
    + intros o Ho. apply preserves_seq; [destruct o; [by apply wkeeps_push|world_step]|intros _; world_step].
Qed.

(** *** Tokens *)

Lemma wkeeps_attempt {A B} (P : B -> Prop) (m : DM A) (f : EVMError DbErr + A -> DM B) :
  wkeeps_any m -> (forall r, wkeeps P (f r)) -> wkeeps P (attempt m ≫= f).
Proof. intros Hm Hf. apply preserves_seq; [eapply preserves_true, preserves_attempt, Hm|exact Hf]. Qed.
Lemma wkeeps_burn b i h v : word v -> wkeeps_any (Journal.burn (DbErr := DbErr) b i h v).
Proof.
  intros Hv. unfold Journal.burn. on_if; [world_step|].
  apply wkeeps_attempt; [apply wkeeps_token_ids|intros [e|r]; [world_step|]].
  apply wkeeps_attempt; [eapply preserves_true, wkeeps_load_account|intros [e|r']; [world_step|]]. cbv zeta.
  apply wkeeps_attempt; [apply wkeeps_db_read|intros [e|[]]; [world_step| |world_step]].
  eapply preserves_bind; [apply wkeeps_account|]. intros x Hx.
  destruct (checked_sub _ _) as [w|] eqn:Hw; [|world_step]. apply preserves_seq; [|intros _; repeat world_step].
  apply wkeeps_update. intros y Hy. apply typed_set_info; [|done]. apply typed_set_balance; [|apply Hy].
  eapply fits_checked_sub; [apply (wf_balance _ (ti_wf _ (ta_info _ Hx)))|apply Hv|exact Hw].
Qed.
Lemma wkeeps_mint m r i v : word v -> wkeeps_any (Journal.mint (DbErr := DbErr) m r i v).
Proof.
  intros Hv. unfold Journal.mint.
  apply wkeeps_attempt; [apply wkeeps_token_ids|intros [e|r']; [world_step|]].
  apply wkeeps_attempt; [eapply preserves_true, wkeeps_load_account|intros [e|r'']; [world_step|]]. cbv zeta.
  eapply preserves_bind; [apply wkeeps_account|]. intros x Hx.
  destruct (checked_add 256 _ _) as [w|] eqn:Hw; [|world_step]. apply preserves_seq.
  - apply wkeeps_update. intros y Hy. apply typed_set_info; [|done]. apply typed_set_balance; [|apply Hy].
    eapply fits_checked_add; [apply (wf_balance _ (ti_wf _ (ta_info _ Hx)))|apply Hv|exact Hw].
  - intros _. world_step. apply preserves_seq; [on_if; [world_step|by eapply wkeeps_js, tkeeps_token_ids]|].
    intros _. repeat world_step.
Qed.
End at_level.

(** A typed world is an invariant of the journal and of its checkpoints. *)
#[export] Instance typed_journal n : JournalInvariant (DbErr := DbErr) (typed_world n).
Proof.
  split.
  - apply wkeeps_load_account.
  - apply wkeeps_load_code.
  - apply wkeeps_sload.
  - apply wkeeps_sstore.
  - apply wkeeps_selfdestruct.
  - apply wkeeps_transfer.
  - apply wkeeps_burn.
  - apply wkeeps_mint.
  - intros k. apply wkeeps_db, block_hash_typed.
  - intros E a. apply jkeeps, tkeeps_touch.
  - intros E a. apply jkeeps, tkeeps_inc_nonce.
  - intros E a c Hc. by apply jkeeps, tkeeps_set_code.
  - intros E a k. apply jkeeps, tkeeps_tload.
  - intros E a k v Hv. by apply jkeeps, tkeeps_tstore.
  - intros E l. apply jkeeps, preserves_modify. intros j [Hn [Ha Ht Hj]]. by split; [|split].
  - intros E. apply jkeeps, preserves_modify. intros j [Hn [Ha Ht Hj]]. by split; [|split].
Qed.
#[export] Instance typed_checkpoints : CheckpointInvariant (DbErr := DbErr) typed_world.
Proof.
  split; [apply _|..].
  - intros n m s Hn [Hs Hd]. split; [by eapply typed_at_weaken|done].
  - intros E n d j [Hj Hd]. pose proof (typed_checkpoint (E := E) n j Hj) as H.
    destruct (checkpoint j) as [[cp|e|] j']; [|done..]. destruct H. by split.
  - intros E cp d Hcp j [Hj Hd]. pose proof (typed_revert (E := E) cp Hcp j Hj) as H.
    destruct (checkpoint_revert cp j) as [[u|e|] j']; [by split|done..].
  - intros n c a v sp d Hn Hv j [_ [Hj Hd]]. pose proof (typed_create n c a v sp Hn Hv j Hj) as H.
    destruct (create_account_checkpoint c a v sp j) as [[cp|e|] j']; [|by split|done]. destruct H. by split.
Qed.
End world.
