(* ===== verification/SupplyInvariant.v ===== *)
(** No operation of the journal creates base tokens.  A state in which the base
    balances gain at most a bound, and in which undoing the journaled entries one by
    one passes through such states only, is an invariant of the journal and of its
    checkpoints.

    First the supply of a state against the balances that a database stores, and
    what moving tokens and undoing an entry do to it. *)

From S2P Require Import Prelude Specification Bytes Triples Eof Bytecode State Result.
From S2P Require Import InstructionResult.
From S2P Require Import Database Journal JournalRevert WordTypes InterpreterTypes.
From S2P Require Import JournalInvariant TypedWorld.

(** ** The base balances of a state *)

Abbreviation Balances := (gmap Address Z).
Definition base (x : Account) : Z := get_base_balance (info x).
Definition base_balances (m : gmap Address Account) : Balances := base <$> m.

Lemma base_alter f g a m :
  (forall x, m !! a = Some x -> base (f x) = g (base x)) -> base_balances (alter f a m) = alter g a (base_balances m).
Proof.
  intros Hfg. apply map_eq. intros b. unfold base_balances. rewrite lookup_fmap, !lookup_alter, lookup_fmap.
  case_decide; [subst b|by rewrite lookup_fmap]. destruct (m !! a) as [x|] eqn:Hx; simpl; [|done]. by rewrite Hfg.
Qed.
Lemma base_alter_same f a m : (forall x, base (f x) = base x) -> base_balances (alter f a m) = base_balances m.
Proof.
  intros Hf. rewrite (base_alter _ id) by (intros; apply Hf). apply map_eq. intros b. rewrite lookup_alter.
  case_decide; [subst b|done]. apply option_fmap_id.
Qed.
Lemma base_set_balance t v x : base (set_info (set_balance t v) x) = if decide (t = BASE_TOKEN_ID) then v else base x.
Proof. unfold base, get_base_balance. simpl. by rewrite get_balance_set. Qed.
Lemma base_increase t v x :
  base (set_info (increase_balance t v) x) = if decide (t = BASE_TOKEN_ID) then wrapping_add 256 (base x) v else base x.
Proof. unfold base, get_base_balance. simpl. rewrite increase_balance_set, get_balance_set. by case_decide; subst. Qed.
Lemma base_decrease t v x :
  base (set_info (decrease_balance t v) x) = if decide (t = BASE_TOKEN_ID) then wrapping_sub 256 (base x) v else base x.
Proof. unfold base, get_base_balance. simpl. rewrite decrease_balance_set, get_balance_set. by case_decide; subst. Qed.

(** What undoing an entry does to the base balances. *)
Definition credit_back (v : Z) : Z -> Z := fun b => wrapping_add 256 b v.
Definition debit_back (v : Z) : Z -> Z := fun b => wrapping_sub 256 b v.
Definition undo_base (e : JournalEntry) (b : Balances) : Balances :=
  match e with
  | AccountLoaded a => delete a b
  | AccountDestroyed a t _ v =>
      let b := alter (credit_back v) a b in if negb (a =? t) then alter (debit_back v) t b else b
  | BalanceTransfer from to id v =>
      if decide (id = BASE_TOKEN_ID) then alter (debit_back v) to (alter (credit_back v) from b) else b
  | TokensBurned a id v => if decide (id = BASE_TOKEN_ID) then alter (credit_back v) a b else b
  | TokensMinted _ a id v => if decide (id = BASE_TOKEN_ID) then alter (debit_back v) a b else b
  | _ => b
  end.

Lemma undo_account_base a f g s s' :
  (forall x, base (f x) = g (base x)) -> undo_account a f s = Some s' ->
  base_balances (accounts s'.1) = alter g a (base_balances (accounts s.1)).
Proof.
  intros Hf H. unfold undo_account in H. destruct (accounts s.1 !! a); simplify_eq/=. by apply base_alter.
Qed.
Lemma undo_account_same a f s s' :
  (forall x, base (f x) = base x) -> undo_account a f s = Some s' ->
  base_balances (accounts s'.1) = base_balances (accounts s.1).
Proof.
  intros Hf H. unfold undo_account in H. destruct (accounts s.1 !! a); simplify_eq/=. by apply base_alter_same.
Qed.
(** An operation on the balance of a token, seen from the base token. *)
Definition on_base (t : Z) (g : Z -> Z) : Z -> Z := fun b => if decide (t = BASE_TOKEN_ID) then g b else b.
Lemma alter_on_base t g a (b : Balances) :
  alter (on_base t g) a b = if decide (t = BASE_TOKEN_ID) then alter g a b else b.
Proof.
  unfold on_base. case_decide; [done|]. apply map_eq. intros k. rewrite lookup_alter. case_decide; [subst k|done]. apply option_fmap_id.
Qed.
Lemma revert_entry_base sd e s s' :
  revert_entry sd e s = Some s' -> base_balances (accounts s'.1) = undo_base e (base_balances (accounts s.1)).
Proof.
  intros H. destruct e; cbn [revert_entry undo_base] in *.
  - injection H as <-. cbn. apply fmap_delete.
  - destruct (undo_account address _ s) as [s1|] eqn:H1; cbn [mbind option_bind] in H; [|done].
    apply (undo_account_base _ _ (credit_back had_balance)) in H1; [|intros x; by destruct was_destroyed; apply base_increase].
    destruct (negb _); [|by simplify_eq].
    apply (undo_account_base _ _ (debit_back had_balance)) in H; [|intros x; apply base_decrease]. cbv zeta. by rewrite <- H1.
  - destruct (_ && _); [by simplify_eq|]. by apply undo_account_same in H.
  - destruct (undo_account from _ s) as [s1|] eqn:H1; cbn [mbind option_bind] in H; [|done].
    apply (undo_account_base _ _ (on_base token_id (credit_back amount))) in H1; [|apply base_increase].
    apply (undo_account_base _ _ (on_base token_id (debit_back amount))) in H; [|apply base_decrease].
    rewrite H, H1, !alter_on_base. by case_decide.
  - by apply undo_account_same in H.
  - by apply undo_account_same in H.
  - destruct had_value as [v|]; [|by apply undo_account_same in H].
    destruct (accounts s.1 !! address) as [x|]; [|done]. cbn [mbind option_bind] in H.
    destruct (storage x !! key); [|done]. cbn [mbind option_bind] in H. by apply undo_account_same in H.
  - by destruct (_ =? 0); simplify_eq.
  - by apply undo_account_same in H.
  - apply (undo_account_base _ _ (on_base token_id (credit_back burned_amount))) in H; [|apply base_increase].
    by rewrite H, alter_on_base.
  - by simplify_eq.
  - apply (undo_account_base _ _ (on_base token_id (debit_back minted_amount))) in H; [|apply base_decrease].
    by rewrite H, alter_on_base.
Qed.

(** ** What the accounts gain *)

Section stored.
Context (stored : Address -> Z).

(** What the database stores at some addresses. *)
Definition total_stored (l : list Address) : Z := foldr (fun a s => stored a + s) 0 l.
(** The balances of an actual chain: no more base tokens than a word counts. *)
Class Solvent : Prop := {
  stored_nonneg a : 0 <= stored a;
  stored_bounded l : NoDup l -> total_stored l < 2 ^ 256;
}.

Definition gain (b : Balances) : Z := map_fold (fun a v s => v - stored a + s) 0 b.
Definition total (b : Balances) : Z := map_fold (fun _ v s => v + s) 0 b.

Lemma gain_insert a v b : b !! a = None -> gain (<[a := v]> b) = v - stored a + gain b.
Proof. intros Ha. unfold gain. rewrite map_fold_insert_L; [done| |done]. intros. lia. Qed.
Lemma total_insert a v b : b !! a = None -> total (<[a := v]> b) = v + total b.
Proof. intros Ha. unfold total. rewrite map_fold_insert_L; [done| |done]. intros. lia. Qed.
Lemma gain_alter g a v b : b !! a = Some v -> gain (alter g a b) = gain b + (g v - v).
Proof.
  intros Ha. rewrite <- (insert_delete_id b a v) at 2 by done. rewrite gain_insert by apply lookup_delete_eq.
  replace (alter g a b) with (<[a := g v]> (delete a b)); [rewrite gain_insert by apply lookup_delete_eq; lia|].
  apply map_eq. intros k. rewrite lookup_insert, lookup_delete, lookup_alter. repeat case_decide; subst; try done.
  by rewrite Ha.
Qed.
Lemma total_delete a v b : b !! a = Some v -> total b = v + total (delete a b).
Proof.
  intros Ha. rewrite <- (insert_delete_id b a v) at 1 by done. by rewrite total_insert by apply lookup_delete_eq.
Qed.
Lemma gain_total b : gain b = total b - total_stored (map_to_list b).*1.
Proof.
  unfold gain, total, total_stored. rewrite !map_fold_foldr. induction (map_to_list b) as [|[a v] l IH]; [done|].
  rewrite fmap_cons. cbn [foldr uncurry fst]. lia.
Qed.

Definition words_in (b : Balances) : Prop := map_Forall (fun _ => word) b.
Lemma total_nonneg b : words_in b -> 0 <= total b.
Proof.
  intros Hb. unfold total. rewrite map_fold_foldr. apply map_Forall_to_list in Hb.
  induction Hb as [|[a v] l [Hv _] _ IH]; simpl in *; lia.
Qed.
Lemma total_one a v b : words_in b -> b !! a = Some v -> v <= total b.
Proof.
  intros Hb Ha. rewrite (total_delete a v b Ha). pose proof (total_nonneg (delete a b) (map_Forall_delete _ _ _ Hb)). lia.
Qed.
Lemma total_two a c v w b : words_in b -> a <> c -> b !! a = Some v -> b !! c = Some w -> v + w <= total b.
Proof.
  intros Hb Hne Ha Hc. rewrite (total_delete a v b Ha).
  pose proof (total_one c w (delete a b) (map_Forall_delete _ _ _ Hb)) as H. rewrite lookup_delete_ne in H by done.
  specialize (H Hc). lia.
Qed.

(** Balances that are words and gain at most [X]. *)
Context (X : Z) (HX : X <= 0) `{HS : !Solvent}.
Definition fine (b : Balances) : Prop := words_in b /\ gain b <= X.

Lemma fine_total b : fine b -> total b < 2 ^ 256.
Proof.
  intros [_ Hg]. rewrite gain_total in Hg.
  pose proof (stored_bounded (map_to_list b).*1 (NoDup_fst_map_to_list b)). lia.
Qed.
Lemma fine_two a c v w b : fine b -> a <> c -> b !! a = Some v -> b !! c = Some w -> v + w < 2 ^ 256.
Proof. intros Hb Hne Ha Hc. pose proof (total_two a c v w b (proj1 Hb) Hne Ha Hc). pose proof (fine_total b Hb). lia. Qed.
Lemma words_alter g a v b : words_in b -> b !! a = Some v -> word (g v) -> words_in (alter g a b).
Proof.
  intros Hb Ha Hg k w. rewrite lookup_alter. case_decide; [subst k|by apply Hb]. rewrite Ha. by intros [= <-].
Qed.
Lemma fine_alter g a v b : fine b -> b !! a = Some v -> 0 <= g v <= v -> fine (alter g a b).
Proof.
  intros [Hb Hg] Ha Hv. split; [|by rewrite (gain_alter _ _ v) by done; lia].
  eapply words_alter; [done..|]. apply Hb in Ha as [? ?]. split; lia.
Qed.
Lemma fine_load a b : fine b -> b !! a = None -> fine (<[a := stored a]> b).
Proof.
  intros [Hb Hg] Ha. split; [|rewrite gain_insert by done; lia].
  apply (map_Forall_insert_2 (fun _ => word)); [|done]. pose proof (stored_bounded [a] (NoDup_singleton a)) as H.
  pose proof (stored_nonneg a). simpl in H. split; lia.
Qed.
(** Moving an amount from one balance to another. *)
Definition move (from to : Address) (v : Z) (b : Balances) : Balances :=
  alter (fun y => y + v) to (alter (fun x => x - v) from b).
Lemma fine_move from to v x y b :
  fine b -> from <> to -> b !! from = Some x -> b !! to = Some y -> 0 <= v <= x -> fine (move from to v b).
Proof.
  intros Hb Hne Hx Hy Hv. pose proof (fine_two _ _ _ _ _ Hb Hne Hx Hy) as Ht. destruct Hb as [Hb Hg].
  assert (Hto : alter (fun x => x - v) from b !! to = Some y) by by rewrite lookup_alter_ne.
  pose proof (Hb _ _ Hx) as [? ?]. pose proof (Hb _ _ Hy) as [? ?]. split.
  - eapply words_alter; [|exact Hto|split; lia]. eapply words_alter; [done..|]. split; lia.
  - unfold move. rewrite (gain_alter _ _ _ _ Hto), (gain_alter _ _ _ _ Hx). lia.
Qed.
End stored.

(** ** Undoing a move *)

Lemma move_same a v (b : Balances) : move a a v b = b.
Proof.
  apply map_eq. intros k. unfold move. destruct (decide (a = k)) as [<-|]; [|by rewrite !lookup_alter_ne].
  rewrite !lookup_alter_eq. destruct (b !! a); simpl; [|done]. by rewrite Z.sub_add.
Qed.
Lemma undo_move from to v x y b :
  words_in b -> b !! from = Some x -> b !! to = Some y -> (from <> to -> y + v < 2 ^ 256) -> 0 <= v <= x ->
  alter (debit_back v) to (alter (credit_back v) from (move from to v b)) = b.
Proof.
  intros Hb Hx Hy Ht Hv. pose proof (Hb _ _ Hx) as [Hx0 Hx1]. pose proof (Hb _ _ Hy) as [Hy0 Hy1].
  destruct (decide (from = to)) as [->|Hne].
  - rewrite move_same. apply map_eq. intros k. destruct (decide (to = k)) as [<-|]; [|by rewrite !lookup_alter_ne].
    rewrite !lookup_alter_eq, Hx. simpl. f_equal.
    unfold debit_back, credit_back. apply wrapping_sub_add; [lia|by split].
  - specialize (Ht Hne). apply map_eq. intros k. unfold move.
    destruct (decide (to = k)) as [<-|].
    + rewrite lookup_alter_eq, lookup_alter_ne, lookup_alter_eq, lookup_alter_ne, Hy by done. simpl. f_equal. unfold debit_back.
      rewrite wrapping_sub_fits by (split; lia). lia.
    + rewrite lookup_alter_ne by done. destruct (decide (from = k)) as [<-|]; [|by rewrite !lookup_alter_ne].
      rewrite lookup_alter_eq, lookup_alter_ne, lookup_alter_eq, Hx by done. simpl. f_equal. unfold credit_back.
      rewrite wrapping_add_fits by (split; lia). lia.
Qed.
Lemma alter_const a x v (b : Balances) g : b !! a = Some x -> g x = v -> alter (fun _ => v) a b = alter g a b.
Proof. intros Hx <-. apply alter_ext. intros y Hy. congruence. Qed.

(** ** The invariant *)


Section supply.
Context (stored : Address -> Z) (X : Z) (HX : X <= 0) `{HS : !Solvent stored}.
Abbreviation fine := (fine stored X).

(** Undoing the entries, the newest first, passes through fine balances only. *)
Fixpoint leads_back (es : list JournalEntry) (b : Balances) : Prop :=
  match es with [] => fine b | e :: es => fine b /\ leads_back es (undo_base e b) end.
Lemma leads_back_fine es b : leads_back es b -> fine b.
Proof. destruct es; [done|by intros []]. Qed.

(** The entries of the sets above the first, the newest first. *)
Definition entries (J : list (list JournalEntry)) : list JournalEntry := reverse (concat (tail J)).
Abbreviation balances_in j := (base_balances (accounts (state j))).

(** The base balances are [b1]; the entries lead back from [b0]. *)
Definition at_balances (b0 b1 : Balances) (n : Z) (j : JournaledState) : Prop :=
  1 <= n <= len (journal j) /\ leads_back (entries (journal j)) b0 /\ balances_in j = b1.
Definition supplied (n : Z) (j : JournaledState) : Prop :=
  1 <= n <= len (journal j) /\ leads_back (entries (journal j)) (balances_in j).

Lemma supplied_at n j : supplied n j -> exists b, at_balances b b n j /\ fine b.
Proof. intros [Hn Hl]. exists (balances_in j). split; [done|]. by eapply leads_back_fine. Qed.
Lemma at_supplied b n j : at_balances b b n j -> supplied n j.
Proof. intros (Hn & Hl & <-). done. Qed.

Lemma entries_push e J l : push_last e J = Some l -> entries l = [] \/ entries l = e :: entries J.
Proof.
  destruct J as [|s0 J]; [done|]. cbn [push_last]. destruct J as [|s1 J].
  - intros [= <-]. by left.
  - destruct (push_last e (s1 :: J)) as [l1|] eqn:H1; [|done]. intros [= <-]. right. unfold entries. cbn [tail].
    destruct (exists_last (l := s1 :: J)) as (pre & last & Hp); [done|]. rewrite Hp in H1 |- *.
    rewrite push_last_app in H1. injection H1 as <-. rewrite !concat_app. cbn [concat]. rewrite !app_nil_r, app_assoc.
    by rewrite (reverse_app _ [e]).
Qed.
Lemma leads_back_push e J l b :
  push_last e J = Some l -> fine b -> leads_back (entries J) (undo_base e b) -> leads_back (entries l) b.
Proof. intros Hp Hb Hl. by destruct (entries_push _ _ _ Hp) as [->| ->]. Qed.

(** *** Steps *)

Section steps.
Context {E : Type} (n : Z).
Abbreviation JM := (M JournaledState E).
Abbreviation no_error := (fun _ : JournaledState => False).

(** An entry that undoes no balance. *)
Definition neutral (e : JournalEntry) : Prop := forall b, undo_base e b = b.
Lemma push_neutral e b0 b1 :
  neutral e -> triple (at_balances b0 b1 n) (push_entry e : JM unit) (fun _ => at_balances b0 b1 n) no_error.
Proof.
  intros He j (Hn & Hl & Hb). unfold push_entry. destruct (push_last e (journal j)) as [l|] eqn:Hp; [|done].
  split; [cbn; by rewrite (push_last_len _ _ _ Hp)|]. split; [|done].
  eapply leads_back_push; [exact Hp|by eapply leads_back_fine|by rewrite He].
Qed.
Lemma push_supplied e b0 b1 :
  fine b1 -> undo_base e b1 = b0 ->
  triple (at_balances b0 b1 n) (push_entry e : JM unit) (fun _ => supplied n) no_error.
Proof.
  intros Hb He j (Hn & Hl & <-). unfold push_entry. destruct (push_last e (journal j)) as [l|] eqn:Hp; [|done].
  split; [cbn; by rewrite (push_last_len _ _ _ Hp)|]. eapply leads_back_push; [exact Hp|exact Hb|].
  cbn [state set_journal]. by rewrite He.
Qed.
Lemma account_at a b0 b1 :
  triple (at_balances b0 b1 n) (account a : JM Account)
    (fun x j => b1 !! a = Some (base x) /\ at_balances b0 b1 n j) no_error.
Proof.
  intros j (Hn & Hl & <-). unfold account. destruct (accounts (state j) !! a) as [x|] eqn:Hx; [|done].
  split; [|done]. unfold base_balances. by rewrite lookup_fmap, Hx.
Qed.
Lemma update_found a f g b0 b1 :
  (forall x, base (f x) = g (base x)) ->
  triple (at_balances b0 b1 n) (update_account a f : JM unit)
    (fun _ j => is_Some (b1 !! a) /\ at_balances b0 (alter g a b1) n j) no_error.
Proof.
  intros Hf j (Hn & Hl & <-). unfold update_account, mbind, M_bind, account, base_balances.
  destruct (accounts (state j) !! a) as [x|] eqn:Hx; [|done]. rewrite lookup_fmap, Hx.
  split; [done|]. split; [done|]. split; [done|]. by apply base_alter.
Qed.
Lemma update_balances a f g b0 b1 :
  (forall x, base (f x) = g (base x)) ->
  triple (at_balances b0 b1 n) (update_account a f : JM unit) (fun _ => at_balances b0 (alter g a b1) n) no_error.
Proof.
  intros Hf j Hj. pose proof (update_found a f g b0 b1 Hf j Hj) as H. destruct (update_account a f j) as [[u|e|] j']; [|done..].
  apply H.
Qed.
Lemma update_same a f b0 b1 :
  (forall x, base (f x) = base x) ->
  triple (at_balances b0 b1 n) (update_account a f : JM unit) (fun _ => at_balances b0 b1 n) no_error.
Proof.
  intros Hf j (Hn & Hl & <-). unfold update_account, mbind, M_bind, account.
  destruct (accounts (state j) !! a) as [x|] eqn:Hx; [|done]. split; [done|]. split; [done|]. by apply base_alter_same.
Qed.
Lemma touch_at a b0 b1 :
  triple (at_balances b0 b1 n) (touch_account a : JM unit) (fun _ => at_balances b0 b1 n) no_error.
Proof.
  unfold touch_account. eapply triple_then; [apply account_at|]. intros x. apply triple_pure. intros _.
  on_if; [by apply triple_done|]. eapply triple_then; [by apply push_neutral|intros u]. by apply update_same.
Qed.

(** From a supplied state. *)
Lemma supplied_triple {A} (m : JM A) :
  (forall b, fine b -> triple (at_balances b b n) m (fun _ => supplied n) (supplied n)) ->
  preserves (supplied n) (fun _ => True) m.
Proof.
  intros Hm j Hj. destruct (supplied_at _ _ Hj) as (b & Hb & Hf). specialize (Hm b Hf j Hb). by destruct (m j) as [[a|e|] j'].
Qed.
Lemma supplied_done {A} b (a : A) (R : JournaledState -> Prop) :
  triple (at_balances b b n) (mret a : JM A) (fun _ => supplied n) R.
Proof. apply triple_done. intros j. apply at_supplied. Qed.
Lemma supplied_end b (m : JM unit) :
  triple (at_balances b b n) m (fun _ => at_balances b b n) no_error ->
  triple (at_balances b b n) m (fun _ => supplied n) (supplied n).
Proof. intros Hm j Hj. specialize (Hm j Hj). destruct (m j) as [[u|e|] j']; [by eapply at_supplied|done..]. Qed.

(** *** Operations without balances *)

Ltac neutral_step :=
  first
  [ by apply supplied_done
  | by apply supplied_end, update_same
  | eapply triple_then; [first [by apply push_neutral | by apply update_same | apply touch_at]|intros ?]
  | eapply triple_then; [apply account_at|intros ?; apply triple_pure; intros ?] ].

(** Read an account, whose balance is known. *)
Ltac read_account x Hx := eapply triple_then; [apply account_at|intros x; apply triple_pure; intros Hx].

Lemma supplied_touch a : preserves (supplied n) (fun _ => True) (touch a : JM unit).
Proof.
  apply supplied_triple. intros b _ j Hj. unfold touch. destruct (accounts (state j) !! a); [|by eapply at_supplied].
  by apply (supplied_end b (touch_account a)); [apply touch_at|].
Qed.
Lemma supplied_inc_nonce a : preserves (supplied n) (fun _ => True) (inc_nonce a : JM (option Z)).
Proof. apply supplied_triple. intros b _. unfold inc_nonce. neutral_step. on_if; repeat neutral_step. Qed.
Lemma supplied_set_code `{HK : Keccak} a c : preserves (supplied n) (fun _ => True) (set_code a c : JM unit).
Proof. apply supplied_triple. intros b _. unfold set_code. repeat neutral_step. Qed.
Lemma supplied_tstore a k v : preserves (supplied n) (fun _ => True) (tstore a k v : JM unit).
Proof.
  apply supplied_triple. intros b _ j Hj. unfold tstore. cbv zeta.
  destruct (if v =? 0 then _ else _) as [[w|] ts]; [|by eapply at_supplied].
  by apply (supplied_end b (push_entry (TransientStorageChange a k w))); [apply push_neutral|].
Qed.
Lemma supplied_modify f :
  (forall j, journal (f j) = journal j /\ accounts (state (f j)) = accounts (state j)) ->
  preserves (supplied n) (fun _ => True) (modify f : JM unit).
Proof. intros Hf. apply preserves_modify. intros j Hj. unfold supplied. by destruct (Hf j) as [-> ->]. Qed.

Lemma supplied_push e : neutral e -> preserves (supplied n) (fun _ => True) (push_entry e : JM unit).
Proof. intros He. apply supplied_triple. intros b _. by apply supplied_end, push_neutral. Qed.
Lemma supplied_update a f :
  (forall x, base (f x) = base x) -> preserves (supplied n) (fun _ => True) (update_account a f : JM unit).
Proof. intros Hf. apply supplied_triple. intros b _. by apply supplied_end, update_same. Qed.
Lemma supplied_account a : preserves (supplied n) (fun _ => True) (account a : JM Account).
Proof. apply supplied_triple. intros b _ j Hj. unfold account. destruct (_ !! a); [by eapply at_supplied|done]. Qed.

(** *** Moving tokens *)

(** After the debit and the credit, an entry that undoes the move closes it. *)
Lemma move_closed from to v x y b e :
  fine b -> b !! from = Some x -> b !! to = Some y -> 0 <= v <= x ->
  (forall b', undo_base e b' = alter (debit_back v) to (alter (credit_back v) from b')) ->
  fine (move from to v b) /\ undo_base e (move from to v b) = b.
Proof.
  intros Hb Hx Hy Hv He. split.
  - destruct (decide (from = to)) as [->|Hne]; [by rewrite move_same|by eapply fine_move].
  - rewrite He. eapply undo_move; [apply Hb|exact Hx|exact Hy| |done]. intros Hne.
    pose proof (fine_two _ _ HX _ _ _ _ _ Hb Hne Hx Hy). lia.
Qed.
Lemma close_move from to v x y b e :
  fine b -> b !! from = Some x -> b !! to = Some y -> 0 <= v <= x ->
  (forall b', undo_base e b' = alter (debit_back v) to (alter (credit_back v) from b')) ->
  triple (at_balances b (move from to v b) n) (push_entry e : JM unit) (fun _ => supplied n) no_error.
Proof. intros Hb Hx Hy Hv He. destruct (move_closed _ _ _ _ _ _ _ Hb Hx Hy Hv He). by apply push_supplied. Qed.

(** One transfer of the base token: it never overflows. *)
Lemma credit_fits from to v x z b :
  fine b -> b !! from = Some x -> alter (fun b => b - v) from b !! to = Some z -> 0 <= v <= x -> z + v < 2 ^ 256.
Proof.
  intros Hb Hx Hz Hv. pose proof (proj1 Hb _ _ Hx) as [? ?]. destruct (decide (from = to)) as [<-|Hne].
  - rewrite lookup_alter_eq, Hx in Hz. injection Hz as <-. lia.
  - rewrite lookup_alter_ne in Hz by done. pose proof (fine_two _ _ HX _ _ _ _ _ Hb Hne Hx Hz). lia.
Qed.
Lemma balance_before from to v (z : Account) (b : Balances) :
  alter (fun b => b - v) from b !! to = Some (base z) -> exists y, b !! to = Some y.
Proof.
  destruct (b !! to) as [y|] eqn:Hy; [by exists y|]. rewrite lookup_alter. case_decide; subst; by rewrite Hy.
Qed.
Lemma supplied_transfer_loop from to ts :
  Forall typed_transfer ts -> preserves (supplied n) (fun _ => True) (transfer_loop from to ts : JM (option InstructionResult)).
Proof.
  induction 1 as [|[id v] ts [Hv _] _ IH]; cbn [transfer_loop transfer_id transfer_amount]; [by apply preserves_ret|].
  cbn [transfer_amount] in Hv. apply supplied_triple. intros b Hb.
  assert (IH' : triple (supplied n) (transfer_loop from to ts : JM (option InstructionResult)) (fun _ => supplied n) (supplied n)).
  { intros j Hj. specialize (IH j Hj). destruct (transfer_loop from to ts j) as [[]]; by destruct IH || done. }
  neutral_step. read_account x Hx.
  destruct (checked_sub _ v) as [x'|] eqn:Hx'; [|by apply supplied_done]. apply checked_sub_Some in Hx' as [-> Hle].
  destruct (decide (id = BASE_TOKEN_ID)) as [->|Hid].
  - change (get_balance (info x) BASE_TOKEN_ID) with (base x) in *. eapply triple_then.
    { apply (update_balances from _ (fun _ => base x - v)). intros y. by rewrite base_set_balance. }
    intros u. rewrite (alter_const from _ _ _ (fun b => b - v) Hx eq_refl). clear u. neutral_step. read_account z Hz.
    pose proof (credit_fits from to v _ _ _ Hb Hx Hz (conj Hv Hle)) as Hfit.
    change (get_balance (info z) BASE_TOKEN_ID) with (base z). unfold checked_add. destruct (Z.ltb_spec (base z + v) (2 ^ 256)); [|lia].
    eapply triple_then.
    { apply (update_balances to _ (fun _ => base z + v)). intros y. by rewrite base_set_balance. }
    intros u. rewrite (alter_const to _ _ _ (fun b => b + v) Hz eq_refl). clear u.
    destruct (balance_before from to v z b Hz) as [y Hy].
    eapply triple_then; [by eapply (close_move from to v _ _ b)|intros u; exact IH'].
  - assert (Hne : forall t (y : Account), base (set_info (set_balance id t) y) = base y).
    { intros t y. rewrite base_set_balance. by rewrite decide_False. }
    eapply triple_then; [apply update_same, Hne|intros u0]. neutral_step. read_account z Hz.
    destruct (checked_add 256 _ v); [|by apply supplied_done].
    eapply triple_then; [apply update_same, Hne|intros u].
    eapply triple_then; [by apply push_neutral; intros b'; cbn [undo_base]; rewrite decide_False|intros u']. intros j Hj. apply IH'. by eapply at_supplied.
Qed.
End steps.

(** *** Checkpoints *)

Lemma supplied_weaken n m j : 1 <= n <= m -> supplied m j -> supplied n j.
Proof. intros Hn [Hm Hj]. split; [lia|done]. Qed.
Lemma entries_new J : J <> [] -> entries (J ++ [[]]) = entries J.
Proof. intros HJ. destruct J as [|s0 J]; [done|]. unfold entries. cbn. by rewrite concat_app, app_nil_r. Qed.
Lemma balances_checkpoint {E} b0 b1 n :
  triple (at_balances b0 b1 n) (checkpoint (E := E))
    (fun cp j => n <= journal_i cp /\ at_balances b0 b1 (journal_i cp + 1) j) (fun _ => False).
Proof.
  intros j (Hn & Hl & Hb). unfold checkpoint. cbn [journal_i]. split; [lia|].
  split; [cbn; rewrite len_app; change (len [[]]) with 1; lia|]. split; [|done].
  cbn. rewrite entries_new; [done|]. intros HJ. rewrite HJ in Hn. change (len []) with 0 in Hn. lia.
Qed.
Lemma supplied_checkpoint {E} n :
  triple (supplied n) (checkpoint (E := E)) (fun cp j => n <= journal_i cp /\ supplied (journal_i cp + 1) j) (fun _ => False).
Proof.
  intros j Hj. destruct (supplied_at _ _ Hj) as (b & Hb & _). pose proof (balances_checkpoint (E := E) b b n j Hb) as H.
  destruct (checkpoint j) as [[cp|e|] j']; [|done..]. destruct H. split; [done|]. by eapply at_supplied.
Qed.

Lemma leads_back_revert sd es es' s s' :
  leads_back (es ++ es') (base_balances (accounts s.1)) -> journal_revert sd es s = Some s' ->
  leads_back es' (base_balances (accounts s'.1)).
Proof.
  revert s. induction es as [|e es IH]; cbn [app journal_revert leads_back]; intros s Hl H; [by injection H as <-|].
  destruct (revert_entry sd e s) as [s1|] eqn:H1; [|done]. apply revert_entry_base in H1.
  apply (IH s1); [|done]. rewrite H1. apply Hl.
Qed.
Lemma entries_split k J : (1 <= k)%nat -> entries J = reverse (concat (drop k J)) ++ entries (take k J).
Proof.
  intros Hk. unfold entries. rewrite <- reverse_app. f_equal. destruct J as [|s0 J]; [by destruct k|].
  destruct k as [|k]; [lia|]. cbn [tail take drop]. rewrite <- concat_app. by rewrite take_drop.
Qed.
Lemma reverted_sets ji (J : list (list JournalEntry)) :
  0 <= ji <= len J -> take (Z.to_nat (usize_sub (len J) ji)) (reverse J) = reverse (drop (Z.to_nat ji) J).
Proof.
  intros Hji. rewrite <- (take_drop (Z.to_nat ji) J) at 2. rewrite reverse_app. apply take_app_length'.
  rewrite length_reverse, length_drop. unfold usize_sub, len in *. bool_lia; lia.
Qed.
Lemma supplied_revert {E} cp : 1 <= journal_i cp ->
  triple (supplied (journal_i cp + 1)) (checkpoint_revert (E := E) cp) (fun _ => supplied (journal_i cp)) (fun _ => False).
Proof.
  intros Hcp j [Hn Hl]. unfold checkpoint_revert. cbv zeta. cbn [journal set_depth].
  rewrite reverted_sets, revert_sets_concat by lia. destruct (journal_revert _ _ _) as [[st ts]|] eqn:Hr; [|done].
  split; [cbn; rewrite len_take; lia|].
  rewrite (entries_split (Z.to_nat (journal_i cp))) in Hl by lia.
  exact (leads_back_revert _ _ _ (state j, transient_storage j) _ Hl Hr).
Qed.

(** *** Creations *)

Lemma create_fails {A} (Q : A -> JournaledState -> Prop) n cp b (e : InstructionResult) :
  1 <= n <= journal_i cp ->
  triple (at_balances b b (journal_i cp + 1)) (_ ← checkpoint_revert cp; fail e) Q (supplied n).
Proof.
  intros Hn. eapply triple_then.
  - intros j Hj. apply supplied_revert; [lia|]. by eapply at_supplied.
  - intros u j Hj. by apply (supplied_weaken n (journal_i cp)).
Qed.
(** The credit of the new account and the debit of its creator. *)
Lemma create_move caller a v x y (b : Balances) :
  caller <> a -> b !! caller = Some x -> b !! a = Some y -> 0 <= v <= x -> x < 2 ^ 256 ->
  alter (debit_back v) caller (alter (fun _ => y + v) a b) = move caller a v b.
Proof.
  intros Hne Hx Hy Hv Hx1. rewrite (alter_const a y _ _ (fun z => z + v)) by done. unfold move.
  rewrite alter_alter_ne by done. f_equal. apply alter_ext. intros z Hz. rewrite Hx in Hz. injection Hz as <-.
  unfold debit_back. apply wrapping_sub_fits. split; lia.
Qed.

Section creation.
Context (n : Z) (caller a : Address) (v : Z) (sp : SpecId) (b : Balances) (Hb : fine b) (cp : JournalCheckpoint).
Context (Hn : 1 <= n <= journal_i cp) (x : Z) (Hne : caller <> a) (Hx : b !! caller = Some x) (Hv : 0 <= v <= x).

(** What follows the check for a collision. *)
Lemma created_supplied :
  triple (at_balances b b (journal_i cp + 1))
    (_ ← update_account a mark_created;
     _ ← push_entry (AccountCreated a);
     _ ← update_account a (fun a => set_storage (fmap (fun _ => EvmStorageSlot_default)) (set_info (set_info_code None) a));
     _ ← touch_account a;
     acc ← account a;
     match checked_add 256 (get_base_balance (info acc)) v with
     | None => _ ← checkpoint_revert cp; fail IR_OverflowPayment
     | Some new_base_balance =>
         _ ← update_account a (set_info (set_base_balance new_base_balance));
         _ ← (if is_enabled_in sp SPURIOUS_DRAGON then update_account a (set_info (set_nonce 1)) else mret tt);
         _ ← update_account caller (set_info (decrease_base_balance v));
         _ ← push_entry (BalanceTransfer caller a BASE_TOKEN_ID v);
         mret cp
     end)
    (fun cp' j => cp' = cp /\ supplied (journal_i cp + 1) j) (supplied n).
Proof.
  eapply triple_then; [by apply update_same|intros u1]. eapply triple_then; [by apply push_neutral|intros u2].
  eapply triple_then; [by apply update_same|intros u3]. eapply triple_then; [apply touch_at|intros u4].
  eapply triple_then; [apply account_at|intros y; apply triple_pure; intros Hy].
  destruct (checked_add 256 _ v) as [w|] eqn:Hw; [|by apply create_fails].
  apply checked_add_Some in Hw as [-> _]. change (get_base_balance (info y)) with (base y).
  eapply triple_then.
  { apply (update_balances _ a _ (fun _ => base y + v)). intros z. unfold set_base_balance. by rewrite base_set_balance. }
  intros u5. eapply (triple_then _ _ (fun _ => at_balances b (alter (fun _ => base y + v) a b) (journal_i cp + 1))).
  { on_if; [by apply update_same|by apply triple_done]. }
  intros u6. eapply triple_then.
  { apply (update_balances _ caller _ (debit_back v)). intros z. unfold decrease_base_balance. by rewrite base_decrease. }
  intros u7. rewrite (create_move _ _ _ x) by (done || by apply Hb in Hx as [_ ?]).
  eapply triple_then; [by eapply (close_move _ caller a v)|]. intros u8. by apply triple_done.
Qed.
End creation.

Lemma supplied_create n caller a v sp :
  1 <= n -> word v ->
  triple (fun j => can_pay caller v j /\ supplied n j) (create_account_checkpoint caller a v sp)
    (fun cp j => n <= journal_i cp /\ supplied (journal_i cp + 1) j) (supplied n).
Proof.
  intros Hn [Hv _] j [(x & Hx & Hle & Hnonce) Hj]. destruct (supplied_at _ _ Hj) as (b & Hbj & Hb).
  assert (Hbx : b !! caller = Some (base x)).
  { destruct Hbj as (_ & _ & <-). unfold base_balances. by rewrite lookup_fmap, Hx. }
  unfold create_account_checkpoint.
  rewrite (M_bind_ok checkpoint _ j (mkCheckpoint (len (logs j)) (len (journal j)))
    (set_journal (fun l => l ++ [[]]) (set_depth (fun d => wrapping_add 64 d 1) j)) eq_refl).
  pose proof (balances_checkpoint (E := InstructionResult) b b n j Hbj) as [Hcp Hj1]. cbn [checkpoint] in Hcp, Hj1.
  set (cp := mkCheckpoint _ _) in *. set (j1 := set_journal _ _) in *.
  assert (Hx1 : accounts (state j1) !! caller = Some x) by done. clearbody j1 cp. clear Hx Hbj Hj j.
  unfold mbind at 1, M_bind at 1, account at 1. destruct (accounts (state j1) !! a) as [y|] eqn:Hy; [|done].
  cbn [unwrap]. unfold mbind at 1, M_bind at 1, gets.
  destruct (_ || _) eqn:Hcol.
  - pose proof (create_fails (A := JournalCheckpoint) (fun _ _ => False) n cp b IR_CreateCollision (conj Hn Hcp) j1 Hj1) as H.
    by destruct ((_ ← checkpoint_revert cp; fail IR_CreateCollision) j1) as [[c|e|] j2].
  - apply orb_false_iff in Hcol as [[_ Hz%negb_false_iff]%orb_false_iff _]. apply Z.eqb_eq in Hz.
    assert (Hne : caller <> a) by congruence.
    pose proof (created_supplied n caller a v sp b Hb cp (conj Hn Hcp) _ Hne Hbx (conj Hv Hle) j1 Hj1) as H.
    match goal with |- match ?m with _ => _ end => destruct m as [[c|e|] j2]; [|done..] end. by destruct H as [-> H].
Qed.
End supply.
