(* ===== verification/SupplyWorld.v ===== *)
(** The supply of base tokens over a database: an invariant of all the operations of
    the journal, together with the types of the values. *)

From S2P Require Import Prelude.
From S2P Require Import Specification.
From S2P Require Import Bytes.
From S2P Require Import Triples.
From S2P Require Import Eof.
From S2P Require Import Bytecode.
From S2P Require Import State.
From S2P Require Import Result.
From S2P Require Import InstructionResult.
From S2P Require Import Database.
From S2P Require Import Journal.
From S2P Require Import WordTypes.
From S2P Require Import InterpreterTypes.
From S2P Require Import JournalInvariant.
From S2P Require Import TypedWorld.
From S2P Require Import SupplyInvariant.

(** A database that always answers the same base balances. *)
Class StoredBalances (DB DbErr : Type) `{DatabaseTyped DB DbErr} (stored : Address -> Z) : Prop :=
  basic_stored a d o d' : db_typed d -> basic a d = (Ok o, d') -> from_option get_base_balance 0 o = stored a.

(** No hash of an address and an identifier is the base token. A hash that is asked
    for 52 bytes and meets the base token answers 1 instead in [spare_base], which is
    the same function to a program that never meets it. *)
Class HashedTokens `{Keccak} : Prop := token_id_not_base a i : token_id_address a i <> BASE_TOKEN_ID.
Definition spare_base (K : Keccak) : Keccak := fun b =>
  if (len b =? 52) && (keccak256 (Keccak := K) b =? BASE_TOKEN_ID) then 1 else keccak256 (Keccak := K) b.
#[export] Instance spare_base_tokens (K : Keccak) : HashedTokens (H := spare_base K).
Proof.
  intros a i. unfold token_id_address. unfold keccak256 at 1, spare_base.
  replace (len (to_be_bytes 20 a ++ to_be_bytes 32 i)) with 52
    by (unfold len; by rewrite length_app, !length_to_be_bytes).
  cbn [andb Z.eqb Pos.eqb]. destruct (Z.eqb_spec (keccak256 (Keccak := K) (to_be_bytes 20 a ++ to_be_bytes 32 i)) BASE_TOKEN_ID); done.
Qed.
#[export] Instance spare_base_typed (K : Keccak) `{HKT : !KeccakTyped} : KeccakTyped (H := spare_base K).
Proof. intros b. unfold keccak256 at 1, spare_base. destruct (_ && _); [by split|apply HKT]. Qed.

Section world.
Context {DB DbErr : Type} `{HDB : Database DB DbErr} `{HT : !DatabaseTyped DB DbErr} `{HK : Keccak} `{HKT : !KeccakTyped}.
Context (stored : Address -> Z) `{HSB : !StoredBalances DB DbErr stored} `{HHT : !HashedTokens}.
Context (X : Z) (HX : X <= 0) `{HS : !Solvent stored}.
Abbreviation fine := (fine stored X).
Abbreviation supplied := (supplied stored X).
Abbreviation at_balances := (at_balances stored X).

Definition supplied_world (n : Z) (s : JournaledState * DB) : Prop := supplied n s.1 /\ db_typed s.2.

Section at_level.
Context (n : Z).
Abbreviation DM := (M (JournaledState * DB) (EVMError DbErr)).
Abbreviation skeeps_any m := (preserves (supplied_world n) (fun _ => True) m).
Abbreviation world b0 b1 := (fun s : JournaledState * DB => at_balances b0 b1 n s.1 /\ db_typed s.2).
Abbreviation no_error := (fun _ : JournaledState * DB => False).

Lemma skeeps_js {A} (m : M JournaledState (EVMError DbErr) A) :
  preserves (supplied n) (fun _ => True) m -> skeeps_any (on_js m).
Proof. intros Hm. by apply (preserves_zoom _ (supplied n)); [intros s [Hs _]|intros s t [_ Hs] Ht|]. Qed.
Lemma skeeps_db {A} (P : A -> Prop) (m : M DB DbErr A) : preserves db_typed P m -> skeeps_any (on_db m).
Proof.
  intros Hm. eapply preserves_true, preserves_with_err.
  by apply (preserves_zoom _ db_typed P); [intros s [_ Hs]|intros s t [Hs _] Ht|].
Qed.
Lemma skeeps_db_read {A} (f : DB -> outcome DbErr A) : skeeps_any (on_db (fun d => (f d, d))).
Proof. apply (skeeps_db (fun _ => True)). intros d Hd. by destruct (f d). Qed.
Lemma skeeps_push e : neutral e -> skeeps_any (on_js (push_entry e) : DM unit).
Proof. intros He. by apply skeeps_js, supplied_push. Qed.
Lemma skeeps_update a f : (forall x, base (f x) = base x) -> skeeps_any (on_js (update_account a f) : DM unit).
Proof. intros Hf. by apply skeeps_js, supplied_update. Qed.
Lemma skeeps_account a : skeeps_any (on_js (account a) : DM Account).
Proof. apply skeeps_js, supplied_account. Qed.
Lemma skeeps_token_id f : skeeps_any (on_js (modify (set_state (set_token_ids f))) : DM unit).
Proof. by apply skeeps_js, supplied_modify. Qed.

Ltac supply_step :=
  first
  [ by apply preserves_ret
  | by apply preserves_fail
  | by apply skeeps_update
  | apply preserves_seq; [first [by apply preserves_gets | by apply skeeps_push | by apply skeeps_update | apply skeeps_account
      | apply skeeps_db_read | apply skeeps_token_id]|intros ?] ].

Lemma skeeps_token_ids : skeeps_any (load_native_token_ids (DbErr := DbErr)).
Proof. unfold load_native_token_ids. supply_step. case_match; repeat supply_step. Qed.

(** A loaded account has the balance the database stores. *)
Lemma supplied_load j a x l :
  supplied n j -> accounts (state j) !! a = None -> base x = stored a ->
  push_last (AccountLoaded a) (journal j) = Some l ->
  supplied n (set_state (set_accounts (<[a := x]>)) (set_journal (fun _ => l) j)).
Proof.
  intros [Hn Hl] Ha Hx Hp. pose proof (leads_back_fine _ _ _ _ Hl) as Hf.
  assert (Hb : base_balances (accounts (state j)) !! a = None) by (unfold base_balances; by rewrite lookup_fmap, Ha).
  split; [cbn; by rewrite (push_last_len _ _ _ Hp)|]. cbn [journal set_state set_journal state accounts set_accounts].
  unfold base_balances. rewrite fmap_insert, Hx. eapply leads_back_push; [exact Hp|by apply fine_load|].
  cbn [undo_base]. by rewrite delete_insert_id.
Qed.
Lemma skeeps_load_account a : skeeps_any (load_account (DbErr := DbErr) a).
Proof.
  intros [j d] [Hj Hd]. unfold load_account, mbind, M_bind, gets. cbn [fst].
  destruct (accounts (state j) !! a) as [x|] eqn:Ha; [by split|]. unfold on_db, with_err, zoom. cbn [fst snd].
  pose proof (basic_typed (DbErr := DbErr) a d Hd) as Ht.
  destruct (basic a d) as [[o|e|] d'] eqn:Hb; cbn [map_err fst snd]; [|by split|done].
  apply basic_stored in Hb; [|done]. unfold on_js, zoom, push_entry. cbn [fst snd].
  destruct (push_last _ _) as [l|] eqn:Hp; [|done]. cbn. split; [done|]. split; [|apply Ht].
  apply supplied_load; [done|done| |exact Hp]. rewrite <- Hb. by destruct o.
Qed.
Lemma skeeps_load_account_exist a : skeeps_any (load_account_exist (DbErr := DbErr) a).
Proof.
  unfold load_account_exist. supply_step. apply preserves_seq; [apply skeeps_load_account|]. intros [x c]. supply_step.
Qed.
Lemma skeeps_load_code a : skeeps_any (load_code (DbErr := DbErr) a).
Proof.
  unfold load_code. apply preserves_seq; [apply skeeps_load_account|]. intros [x c]. apply preserves_seq.
  - destruct (code (info x)); [supply_step|]. on_if; [supply_step|].
    apply preserves_seq; [eapply skeeps_db, code_by_hash_typed|intros b]. supply_step.
  - intros _. repeat supply_step.
Qed.
Lemma skeeps_sload a k : skeeps_any (sload (DbErr := DbErr) a k).
Proof.
  unfold sload. apply preserves_seq; [apply skeeps_account|intros x]. destruct (storage x !! k); [supply_step|].
  apply preserves_seq; [on_if; [supply_step|eapply skeeps_db, db_storage_typed]|intros v]. repeat supply_step.
Qed.
Lemma skeeps_sstore a k v : skeeps_any (sstore (DbErr := DbErr) a k v).
Proof.
  unfold sstore. apply preserves_seq; [apply skeeps_sload|]. intros [p c]. supply_step.
  apply preserves_seq; [by apply preserves_lift|intros s]. on_if; repeat supply_step.
Qed.
Lemma skeeps_transfer from to ts : Forall typed_transfer ts -> skeeps_any (Journal.transfer (DbErr := DbErr) from to ts).
Proof.
  intros Ht. unfold Journal.transfer. apply preserves_seq; [apply skeeps_token_ids|intros _].
  do 2 (apply preserves_seq; [apply skeeps_load_account|intros _]). by apply skeeps_js, supplied_transfer_loop.
Qed.

(** *** Minting and burning move other tokens *)

Lemma other_token a i v x : base (set_info (set_balance (token_id_address a i) v) x) = base x.
Proof. rewrite base_set_balance. by rewrite decide_False by apply token_id_not_base. Qed.
Lemma skeeps_attempt {A B} (m : DM A) (f : EVMError DbErr + A -> DM B) :
  skeeps_any m -> (forall r, skeeps_any (f r)) -> skeeps_any (attempt m ≫= f).
Proof. intros Hm Hf. apply preserves_seq; [eapply preserves_true, preserves_attempt, Hm|exact Hf]. Qed.
Lemma skeeps_burn b i h v : skeeps_any (Journal.burn (DbErr := DbErr) b i h v).
Proof.
  unfold Journal.burn. on_if; [supply_step|].
  apply skeeps_attempt; [apply skeeps_token_ids|intros [e|r]; [supply_step|]].
  apply skeeps_attempt; [apply skeeps_load_account|intros [e|r']; [supply_step|]]. cbv zeta.
  apply skeeps_attempt; [apply skeeps_db_read|intros [e|[]]; [supply_step| |supply_step]].
  apply preserves_seq; [apply skeeps_account|intros x]. destruct (checked_sub _ _); [|supply_step].
  apply preserves_seq; [apply skeeps_update, other_token|intros _].
  apply preserves_seq; [|intros _; supply_step]. apply skeeps_push. intros b'. cbn [undo_base].
  by rewrite decide_False by apply token_id_not_base.
Qed.
Lemma skeeps_mint m r i v : skeeps_any (Journal.mint (DbErr := DbErr) m r i v).
Proof.
  unfold Journal.mint. apply skeeps_attempt; [apply skeeps_token_ids|intros [e|r']; [supply_step|]].
  apply skeeps_attempt; [apply skeeps_load_account|intros [e|r'']; [supply_step|]]. cbv zeta.
  apply preserves_seq; [apply skeeps_account|intros x]. destruct (checked_add 256 _ _); [|supply_step].
  apply preserves_seq; [apply skeeps_update, other_token|intros _].
  supply_step. apply preserves_seq; [on_if; [supply_step|apply skeeps_token_id]|intros _].
  apply preserves_seq; [|intros _; supply_step]. apply skeeps_push. intros b'. cbn [undo_base].
  by rewrite decide_False by apply token_id_not_base.
Qed.

(** *** Self-destruction *)

Lemma on_js_world {A} b0 b1 (m : M JournaledState (EVMError DbErr) A) Q :
  triple (at_balances b0 b1 n) m Q (fun _ => False) ->
  triple (world b0 b1) (on_js m) (fun a s => Q a s.1 /\ db_typed s.2) no_error.
Proof. intros Hm [j d] [Hj Hd]. unfold on_js, zoom. cbn [fst snd] in *. specialize (Hm j Hj). by destruct (m j) as [[a|e|] j']. Qed.
Lemma read_account {B} a b0 b1 (f : Account -> DM B) Q R :
  (forall x, b1 !! a = Some (base x) -> triple (world b0 b1) (f x) Q R) ->
  triple (world b0 b1) (on_js (account a) ≫= f) Q R.
Proof.
  intros Hf. eapply triple_then; [apply on_js_world, account_at|]. intros x s [[Hx Hj] Hd]. by apply Hf.
Qed.
Lemma js_then {B} b0 b1 b2 (m : M JournaledState (EVMError DbErr) unit) (f : unit -> DM B) Q R :
  triple (at_balances b0 b1 n) m (fun _ => at_balances b0 b2 n) (fun _ => False) ->
  triple (world b0 b2) (f tt) Q R -> triple (world b0 b1) (on_js m ≫= f) Q R.
Proof. intros Hm Hf. eapply triple_then; [by apply on_js_world|]. by intros []. Qed.

(** An entry that undoes what the balances went through, or none and nothing to undo. *)
Definition closes (b : Balances) (e : option JournalEntry) (s : JournaledState * DB) : Prop :=
  exists b1, world b b1 s /\ fine b1 /\ match e with Some e => undo_base e b1 = b | None => b1 = b end.
Lemma push_closing {B} b e (r : B) :
  triple (closes b e) (_ ← (match e with Some entry => on_js (push_entry entry) | None => mret tt end); mret r : DM B)
    (fun _ => supplied_world n) (supplied_world n).
Proof.
  intros s (b1 & [Hj Hd] & Hf & He). destruct e as [e|].
  - pose proof (on_js_world b b1 _ _ (push_supplied stored X n e b b1 Hf He) s (conj Hj Hd)) as H.
    unfold mbind, M_bind. by destruct (on_js (push_entry e) s) as [[u|e'|] s'].
  - subst. split; [by eapply at_supplied|done].
Qed.

(** The account gives up its balance, with an entry that undoes it. *)
Definition gives_up (a t : Address) (b b1 : Balances) (bal : Z) : Prop :=
  fine (alter (fun _ => 0) a b1) /\
  (forall pd, undo_base (AccountDestroyed a t pd bal) (alter (fun _ => 0) a b1) = b) /\
  (if a =? t then b1 = b else undo_base (BalanceTransfer a t BASE_TOKEN_ID bal) (alter (fun _ => 0) a b1) = b).
Lemma give_up_balance {B} a t b b1 (r : bool -> Z -> B) :
  fine b -> (forall bal, b1 !! a = Some bal -> gives_up a t b b1 bal) ->
  triple (world b b1)
    (acc ← on_js (account a);
     spec ← gets (fun s => spec s.1);
     let balance := get_base_balance (info acc) in
     let previously_destroyed := is_selfdestructed acc in
     let is_cancun_enabled := enabled spec CANCUN in
     journal_entry ←
       (if is_created acc || negb is_cancun_enabled then
          _ ← on_js (update_account a (fun a => set_info (set_base_balance 0) (mark_selfdestruct a)));
          mret (Some (AccountDestroyed a t previously_destroyed balance))
        else if negb (a =? t) then
          _ ← on_js (update_account a (set_info (set_base_balance 0)));
          mret (Some (BalanceTransfer a t BASE_TOKEN_ID balance))
        else mret None);
     _ ← (match journal_entry with Some entry => on_js (push_entry entry) | None => mret tt end);
     mret (r previously_destroyed balance) : DM B)
    (fun _ => supplied_world n) (supplied_world n).
Proof.
  intros Hb Hg. apply read_account. intros x Hx. destruct (Hg _ Hx) as (Hf & Hdestroyed & Hmoved).
  apply (triple_then _ _ (fun _ => world b b1)); [by intros s Hs|]. intros sp. cbv zeta. change (get_base_balance (info x)) with (base x).
  eapply triple_bind; [|intros e; apply push_closing].
  assert (Hzero : forall y : Account, base (set_info (set_base_balance 0) y) = 0).
  { intros y. unfold set_base_balance. by rewrite base_set_balance. }
  assert (Hclose : forall e f, (forall y, base (f y) = 0) -> undo_base e (alter (fun _ => 0) a b1) = b ->
    triple (world b b1) (_ ← on_js (update_account a f); mret (Some e) : DM (option JournalEntry)) (closes b) (supplied_world n)).
  { intros e f Hfz He. apply (js_then b b1 (alter (fun _ => 0) a b1)); [by apply update_balances|].
    apply triple_done. intros s Hs. by exists (alter (fun _ => 0) a b1). }
  on_if; [by apply Hclose; [intros y; apply Hzero|]|]. destruct (a =? t); cbn [negb].
  - apply triple_done. intros s Hs. exists b1. rewrite Hmoved in Hs |- *. by split_and!; destruct Hs.
  - by apply Hclose.
Qed.
Lemma alter_zero_fine a bal b : fine b -> b !! a = Some bal -> fine (alter (fun _ => 0) a b).
Proof. intros Hb Ha. pose proof (proj1 Hb _ _ Ha) as [? ?]. eapply fine_alter; [done|exact Ha|lia]. Qed.

Lemma gives_up_same a b bal : fine b -> b !! a = Some bal -> gives_up a a b b bal.
Proof.
  intros Hb Ha. pose proof (proj1 Hb _ _ Ha) as [? ?]. split; [by eapply alter_zero_fine|].
  rewrite Z.eqb_refl. split; [|done]. intros pd. cbn [undo_base]. rewrite Z.eqb_refl. cbn [negb].
  apply map_eq. intros k. destruct (decide (a = k)) as [<-|]; [|by rewrite !lookup_alter_ne].
  rewrite !lookup_alter_eq, Ha. simpl. f_equal. unfold credit_back. by apply wrapping_add_fits.
Qed.
Lemma gives_up_to a t v y b :
  fine b -> a <> t -> b !! a = Some v -> b !! t = Some y -> gives_up a t b (alter (credit_back v) t b) v.
Proof.
  intros Hb Hne Ha Ht. pose proof (proj1 Hb _ _ Ha) as [Hv0 Hv1]. pose proof (proj1 Hb _ _ Ht) as [Hy0 _].
  pose proof (fine_two _ _ HX _ _ _ _ _ Hb Hne Ha Ht) as Hsum.
  assert (Hm : alter (fun _ => 0) a (alter (credit_back v) t b) = move a t v b).
  { unfold move. rewrite alter_alter_ne by done. rewrite (alter_const a v 0 b (fun x => x - v)) by (done || lia).
    apply alter_ext. intros z Hz. rewrite lookup_alter_ne, Ht in Hz by done. injection Hz as <-.
    unfold credit_back. apply wrapping_add_fits. split; lia. }
  assert (Hc : forall e, (forall b', undo_base e b' = alter (debit_back v) t (alter (credit_back v) a b')) ->
    fine (move a t v b) /\ undo_base e (move a t v b) = b).
  { intros e. eapply move_closed; [exact HX|exact HS|exact Hb|exact Ha|exact Ht|lia]. }
  unfold gives_up. rewrite Hm. destruct (Z.eqb_spec a t); [done|]. split; [|split].
  - by eapply (Hc (BalanceTransfer a t BASE_TOKEN_ID v)).
  - intros pd. apply Hc. intros b'. cbn [undo_base]. by destruct (Z.eqb_spec a t).
  - by apply Hc.
Qed.

Lemma skeeps_selfdestruct a t : skeeps_any (selfdestruct (DbErr := DbErr) a t).
Proof.
  unfold selfdestruct. apply preserves_seq; [apply skeeps_load_account_exist|intros l].
  intros s [Hj Hd]. destruct (supplied_at _ _ _ _ Hj) as (b & Hbj & Hb).
  match goal with |- match ?m s with _ => _ end =>
    assert (H : triple (world b b) m (fun _ => supplied_world n) (supplied_world n));
    [|specialize (H s (conj Hbj Hd)); by destruct (m s) as [[]]] end.
  pose proof (fun b1 => give_up_balance a t b b1 (fun pd balance => mkSelfDestructResult (negb (balance =? 0))
    (negb (load_is_empty l)) (load_is_cold l) pd) Hb) as Hgive.
  destruct (Z.eqb_spec a t) as [<-|Hne]; cbn [negb].
  - apply (triple_then _ _ (fun _ => world b b)); [by intros s' Hs'|]. intros u.
    apply Hgive. intros bal Hbal. by apply gives_up_same.
  - apply triple_flat, read_account. intros x Hx. cbv zeta. change (get_base_balance (info x)) with (base x).
    apply triple_flat, (js_then b b b); [apply touch_at|].
    eapply triple_then; [apply on_js_world, (update_found _ _ _ _ _ (credit_back (base x)))|].
    { intros y. unfold increase_base_balance. by rewrite base_increase. }
    intros u s' [[[y Hy] Hs'] Hd']. revert s' Hs' Hd'.
    intros s' Hs' Hd'. refine (Hgive _ _ s' (conj Hs' Hd')).
    intros bal Hbal. rewrite lookup_alter_ne, Hx in Hbal by done. injection Hbal as <-. by eapply gives_up_to.
Qed.
End at_level.

(** ** The invariant *)

Definition base_world (n : Z) (s : JournaledState * DB) : Prop := typed_world n s /\ supplied_world n s.

Lemma both {E A} n (P : A -> Prop) (m : M (JournaledState * DB) E A) :
  preserves (typed_world n) P m -> preserves (supplied_world n) (fun _ => True) m -> preserves (base_world n) P m.
Proof. intros Ht Hs. eapply preserves_mono; [|by apply preserves_and]. by intros a [HP _]. Qed.
Lemma jboth {E A} n (P : A -> Prop) (m : M JournaledState E A) :
  jpreserves (typed_world n) P m -> preserves (supplied n) (fun _ => True) m -> jpreserves (base_world n) P m.
Proof.
  intros Ht Hs d j [Hj [Hj' Hd]]. specialize (Ht d j Hj). specialize (Hs j Hj'). destruct (m j) as [[a|e|] j']; [|by split|done].
  destruct Ht, Hs. by split_and!.
Qed.

#[export] Instance base_journal n : JournalInvariant (DbErr := DbErr) (base_world n).
Proof.
  split.
  - intros a. apply both; [apply ji_load_account|apply skeeps_load_account].
  - intros a. apply both; [apply ji_load_code|apply skeeps_load_code].
  - intros a k. apply both; [apply ji_sload|apply skeeps_sload].
  - intros a k v Hv. apply both; [by apply ji_sstore|apply skeeps_sstore].
  - intros a t. apply both; [apply ji_selfdestruct|apply skeeps_selfdestruct].
  - intros from to ts Ht. apply both; [by apply ji_transfer|by apply skeeps_transfer].
  - intros b i h v Hv. apply both; [by apply ji_burn|apply skeeps_burn].
  - intros m r i v Hv. apply both; [by apply ji_mint|apply skeeps_mint].
  - intros k. apply both; [apply ji_block_hash|eapply skeeps_db, block_hash_typed].
  - intros E a. apply jboth; [apply ji_touch|apply supplied_touch].
  - intros E a. apply jboth; [apply ji_inc_nonce|apply supplied_inc_nonce].
  - intros E a c Hc. apply jboth; [by apply ji_set_code|apply supplied_set_code].
  - intros E a k. apply jboth; [apply ji_tload|by apply preserves_gets].
  - intros E a k v Hv. apply jboth; [by apply ji_tstore|apply supplied_tstore].
  - intros E l. apply jboth; [apply ji_log|by apply supplied_modify].
  - intros E. apply jboth; [apply ji_commit|by apply supplied_modify].
Qed.
#[export] Instance base_checkpoints : CheckpointInvariant (DbErr := DbErr) base_world.
Proof.
  split; [apply _|..].
  - intros n m s Hn [Ht [Hs Hd]]. split; [by eapply ci_weaken|]. split; [by eapply supplied_weaken|done].
  - intros E n d j [Ht [Hs Hd]]. pose proof (ci_checkpoint (I := typed_world) (DbErr := DbErr) (E := E) n d j Ht) as H1.
    pose proof (supplied_checkpoint stored X (E := E) n j Hs) as H2.
    destruct (checkpoint j) as [[cp|e|] j']; [|done..]. destruct H1, H2. by split_and!.
  - intros E cp d Hcp j [Ht [Hs Hd]]. pose proof (ci_revert (I := typed_world) (DbErr := DbErr) (E := E) cp d Hcp j Ht) as H1.
    pose proof (supplied_revert stored X (E := E) cp Hcp j Hs) as H2.
    destruct (checkpoint_revert cp j) as [[u|e|] j']; [by split_and!|done..].
  - intros n c a v sp d Hn Hv j [Hp [Ht [Hs Hd]]].
    pose proof (ci_create (I := typed_world) (DbErr := DbErr) n c a v sp d Hn Hv j (conj Hp Ht)) as H1.
    pose proof (supplied_create stored X HX n c a v sp Hn Hv j (conj Hp Hs)) as H2.
    destruct (create_account_checkpoint c a v sp j) as [[cp|e|] j']; [|by split_and!|done].
    destruct H1, H2. by split_and!.
Qed.
End world.
