(* ===== verification/TransactionSupply.v ===== *)
(** A transaction creates no base tokens.  The supply that its accounts hold in the
    end is the supply the database holds for them, less at least the base fee of the
    gas the transaction used and its blob fee.

    Before the first frame the journal has one set, which nothing reverts: the
    caller is validated, the accounts of the access list are loaded, and the caller
    is charged. After the last frame nothing is reverted any more. *)

From S2P Require Import Prelude Specification Bytes Triples Eof Bytecode State Result.
From S2P Require Import InstructionResult.
From S2P Require Import Database Journal CallInputs NativeTokens Gas Env Interpreter Context.
From S2P Require Import Handler Fees.
From S2P Require Import HostInstructions Evm ContextSteps EvmFrames EvmLoop WordTypes InterpreterTypes.
From S2P Require Import JournalInvariant LoopInvariant TypedWorld SupplyInvariant SupplyWorld.

(** ** Before the first frame *)

Section opening.
Context {DB DbErr : Type} `{HDB : Database DB DbErr} `{HT : !DatabaseTyped DB DbErr} `{HK : Keccak} `{HKT : !KeccakTyped}.
Context (stored : Address -> Z) `{HSB : !StoredBalances DB DbErr stored} `{HHT : !HashedTokens}.
Context `{HS : !Solvent stored}.
Abbreviation DM := (M (JournaledState * DB) (EVMError DbErr)).
Implicit Types (X K : Z) (s : JournaledState * DB).

(** A typed world with one set of entries, whose base balances gain at most [X]. *)
Record opening X s : Prop := {
  op_typed : typed_world 1 s;
  op_sets : len (journal s.1) = 1;
  op_fine : fine stored X (base_balances (accounts (state s.1)));
}.
(** An account with at least [K] base tokens is loaded. *)
Definition has_base (a : Address) K (j : JournaledState) : Prop :=
  exists x, accounts (state j) !! a = Some x /\ K <= base x.
Definition opening_with X a K s : Prop := opening X s /\ has_base a K s.1.

Lemma opening_base_world X s : opening X s -> base_world stored X 1 s.
Proof.
  intros [Ht Hs Hf]. split; [done|]. split; [|apply Ht]. split; [lia|].
  destruct (journal s.1) as [|s0 [|s1 J]]; [done..|]. rewrite !len_cons in Hs. pose proof (len_nonneg J). lia.
Qed.

(** *** Accounts that are loaded *)

Definition account_from (o : option AccountInfo) : Account :=
  match o with Some i => Account_from_info i | None => Account_new_not_existing end.
Lemma opening_insert X a x j d d' l :
  opening X (j, d) -> accounts (state j) !! a = None -> db_typed d' -> typed_account x -> base x = stored a ->
  len l = 1 -> Forall (Forall typed_entry) l ->
  opening X (set_state (set_accounts (<[a := x]>)) (set_journal (fun _ => l) j), d').
Proof.
  intros [[[Hn [Ha Htr Hj]] Hd] Hs Hf] Hnone Hd' Hx Hb Hl He. split; [|done|].
  - split; [|done]. split; [cbn; lia|]. split; [|done..].
    by apply (map_Forall_insert_2 (fun _ => typed_account)).
  - cbn. unfold base_balances. rewrite fmap_insert, Hb. apply fine_load; [done|done|].
    by rewrite lookup_fmap, Hnone.
Qed.
Lemma has_base_insert a K c x j l :
  has_base a K j -> accounts (state j) !! c = None ->
  has_base a K (set_state (set_accounts (<[c := x]>)) (set_journal (fun _ => l) j)).
Proof.
  intros (y & Hy & HK') Hc. exists y. split; [|done]. cbn. rewrite lookup_insert_ne; [done|]. intros ->. by rewrite Hc in Hy.
Qed.
Lemma account_from_typed a d o d' :
  db_typed d -> basic (DbErr := DbErr) a d = (Ok o, d') ->
  db_typed d' /\ typed_account (account_from o) /\ base (account_from o) = stored a.
Proof.
  intros Hd Hb. pose proof (basic_typed (DbErr := DbErr) a d Hd) as Ht. rewrite Hb in Ht. destruct Ht as [Ho Hd'].
  split; [done|]. split; [by apply typed_from_basic|]. apply basic_stored in Hb; [|done]. rewrite <- Hb. by destruct o.
Qed.

(** Loading an account keeps whatever the insertion of a stored account keeps. *)
Definition load_closed (I : JournaledState * DB -> Prop) : Prop :=
  forall a x j d d' l, I (j, d) -> accounts (state j) !! a = None -> db_typed d -> db_typed d' -> typed_account x ->
    base x = stored a -> l = journal j \/ push_last (AccountLoaded a) (journal j) = Some l ->
    I (set_state (set_accounts (<[a := x]>)) (set_journal (fun _ => l) j), d').
Lemma load_account_opening (I : JournaledState * DB -> Prop) a :
  load_closed I -> (forall s, I s -> db_typed s.2) -> (forall j d d', I (j, d) -> db_typed d' -> I (j, d')) ->
  triple I (load_account (DbErr := DbErr) a) (fun r s => accounts (state s.1) !! a = Some r.1 /\ I s) I.
Proof.
  intros HI HId HIe [j d] Hs. unfold load_account, mbind, M_bind, gets. cbn [fst].
  destruct (accounts (state j) !! a) as [x|] eqn:Ha; [done|]. unfold on_db, with_err, zoom. cbn [fst snd].
  pose proof (HId _ Hs) as Hd. cbn [snd] in Hd. pose proof (basic_typed (DbErr := DbErr) a d Hd) as Ht.
  destruct (basic a d) as [[o|e|] d'] eqn:Hb; cbn [map_err fst snd]; [|by apply (HIe j d)|done].
  destruct (account_from_typed a d o d' Hd Hb) as (Hd' & Hx & Hbase).
  unfold on_js, zoom, push_entry. cbn [fst snd]. destruct (push_last _ _) as [l|] eqn:Hp; [|done]. cbn.
  split; [by rewrite lookup_insert_eq|]. apply (HI a _ j d d' l); try done. by right.
Qed.
Lemma opening_closed X : load_closed (opening X).
Proof.
  intros a x j d d' l Hs Ha Hd Hd' Hx Hb Hl. apply (opening_insert X a x j d d' l); try done.
  - destruct Hl as [->|Hl]; [apply Hs|]. rewrite (push_last_len _ _ _ Hl). apply Hs.
  - destruct Hs as [[[_ [_ _ Hj]] _] _ _]. destruct Hl as [->|Hl]; [done|]. by eapply push_last_Forall; [|exact Hj|exact Hl].
Qed.
Lemma opening_with_closed X c K : load_closed (opening_with X c K).
Proof.
  intros a x j d d' l [Hs Hb] Ha Hd Hd' Hx Hbase Hl. split; [by apply (opening_closed X a x j d)|by apply has_base_insert].
Qed.
Lemma opening_db X j d d' : opening X (j, d) -> db_typed d' -> opening X (j, d').
Proof. by intros [[Hj Hd] Hs Hf] Hd'. Qed.

(** *** Updates that leave the balances *)

Lemma update_opening X c K a f :
  (forall x, typed_account x -> typed_account (f x)) -> (forall x, base (f x) = base x) ->
  preserves (opening_with X c K) (fun _ => True) (on_js (update_account a f) : DM unit).
Proof.
  intros Hf Hb [j d] [[[Hj Hd] Hs Hfine] (y & Hy & HK')]. unfold on_js, zoom, update_account, mbind, M_bind, account. cbn [fst snd] in *.
  destruct (accounts (state j) !! a) as [x|] eqn:Hx; [|done]. split; [done|]. destruct Hj as [Hn [Ha Htr Hj]]. split.
  - split; [|done|cbn; by rewrite base_alter_same]. split; [|done]. split; [done|]. split; [by apply typed_alter|done..].
  - cbn. unfold has_base. cbn. rewrite lookup_alter. case_decide; [subst c|by exists y]. rewrite Hy.
    exists (f y). split; [done|]. by rewrite Hb.
Qed.
Lemma modify_opening X c K f :
  (forall j, accounts (state (f j)) = accounts (state j) /\ transient_storage (f j) = transient_storage j /\
    journal (f j) = journal j) ->
  preserves (opening_with X c K) (fun _ => True) (on_js (modify f) : DM unit).
Proof.
  intros Hf [j d] [[[[Hn [Ha Htr Hj]] Hd] Hs Hfine] Hb]. destruct (Hf j) as (H1 & H2 & H3). cbn. split; [done|].
  cbn in *. split; [split; [split; [split; [|split]|]|..]|]; cbn; unfold has_base; rewrite ?H1, ?H2, ?H3; done.
Qed.

(** ** The access list *)

Section access_list.
Context X (c : Address) K.
Abbreviation okeeps P m := (preserves (opening_with X c K) P m).
Abbreviation okeeps_any m := (okeeps (fun _ => True) m).

Lemma opening_with_db j d d' : opening_with X c K (j, d) -> db_typed d' -> opening_with X c K (j, d').
Proof. intros [Hs Hb] Hd'. split; [by eapply opening_db|done]. Qed.
Lemma okeeps_db {A} (P : A -> Prop) (m : M DB DbErr A) : preserves db_typed P m -> okeeps P (on_db m).
Proof.
  intros Hm [j d] Hs. pose proof (Hm d (proj2 (op_typed _ _ (proj1 Hs)))) as H. unfold on_db, with_err, zoom. cbn [fst snd].
  destruct (m d) as [[a|e|] d']; cbn [map_err fst snd]; [destruct H; split; [done|]|..]; try done; by eapply opening_with_db.
Qed.
Lemma okeeps_account a : okeeps typed_account (on_js (account a) : DM Account).
Proof.
  intros [j d] [Hs Hb]. unfold on_js, zoom, account. cbn [fst snd]. destruct (accounts (state j) !! a) as [x|] eqn:Hx; [|done].
  split; [|done]. destruct Hs as [[[_ [Ha _ _]] _] _ _]. by apply Ha in Hx.
Qed.
Lemma okeeps_preload a slots : okeeps_any (preload_slots (DbErr := DbErr) a slots).
Proof.
  induction slots as [|k slots IH]; cbn [preload_slots]; [by apply preserves_ret|].
  eapply preserves_bind; [apply okeeps_account|]. intros x _. apply preserves_seq; [|intros _; exact IH].
  destruct (storage x !! k); [by apply preserves_ret|].
  eapply preserves_bind; [apply okeeps_db, db_storage_typed|]. intros v Hv. apply update_opening; [|done].
  intros y Hy. by apply typed_insert_slot.
Qed.
Lemma okeeps_initial_load a slots : okeeps_any (initial_account_load (DbErr := DbErr) a slots).
Proof.
  intros [j d] Hs. unfold initial_account_load. rewrite (M_bind_ok (gets fst) _ (j, d) j (j, d) eq_refl). cbv beta.
  assert (Hrest : okeeps_any (_ ← preload_slots (DbErr := DbErr) a slots; on_js (account a))).
  { apply preserves_seq; [apply okeeps_preload|intros _]. eapply preserves_true, okeeps_account. }
  destruct (accounts (state j) !! a) as [x|] eqn:Ha; [exact (Hrest _ Hs)|].
  refine (triple_bind (fun s => s = (j, d)) (fun _ => opening_with X c K) _ _ _ _ _ (fun _ => Hrest) (j, d) eq_refl).
  intros ? ->. unfold mbind, M_bind, on_db, with_err, zoom. cbn [fst snd].
  pose proof (proj2 (op_typed _ _ (proj1 Hs))) as Hd. cbn [snd] in Hd. pose proof (basic_typed (DbErr := DbErr) a d Hd) as Ht.
  destruct (basic a d) as [[o|e|] d'] eqn:Hb; cbn [map_err fst snd]; [|by eapply opening_with_db|done].
  destruct (account_from_typed a d o d' Hd Hb) as (Hd' & Hx & Hbase).
  destruct j. by apply (opening_with_closed X c K a _ _ d d' journal); try done; [..|by left].
Qed.
Lemma okeeps_access_list l : okeeps_any (load_accounts_slots (DbErr := DbErr) l).
Proof.
  induction l as [|[a slots] l IH]; cbn [load_accounts_slots]; [by apply preserves_ret|].
  apply preserves_seq; [apply okeeps_initial_load|intros _; exact IH].
Qed.
Lemma okeeps_load_accounts sp env : okeeps_any (load_accounts (DB := DB) (DbErr := DbErr) sp env).
Proof.
  unfold load_accounts. apply preserves_seq; [by apply modify_opening|intros _].
  do 2 (apply preserves_seq; [on_if; [|by apply preserves_ret]; apply preserves_seq; [apply okeeps_initial_load|intros _; by apply preserves_ret]|intros _]).
  apply okeeps_access_list.
Qed.
Lemma okeeps_set_precompiles ps : okeeps_any (set_precompiles (DB := DB) (DbErr := DbErr) ps).
Proof. by apply modify_opening. Qed.
End access_list.

(** ** The caller *)

Lemma check_token_ids_keeps (I : JournaledState * DB -> Prop) l :
  preserves I (fun _ => True) (check_token_ids (DbErr := DbErr) l).
Proof.
  induction l as [|t l IH]; cbn [check_token_ids]; [by apply preserves_ret|].
  apply preserves_seq; [by apply preserves_gets|intros d]. destruct (is_token_id_valid d _) as [[]|e|];
    [exact IH|by apply preserves_fail..|by apply preserves_lift].
Qed.
(** Replacing an account, whose balance changes by a known amount. *)
Lemma opening_replace X X' a x y j d :
  opening X (j, d) -> accounts (state j) !! a = Some x -> typed_account y -> word (base y) ->
  X + (base y - base x) <= X' -> opening X' (set_state (set_accounts (alter (fun _ => y) a)) j, d).
Proof.
  intros [[[Hn [Ha Htr Hj]] Hd] Hs [Hw Hg]] Hx Hy Hby HX.
  assert (Hbx : base_balances (accounts (state j)) !! a = Some (base x)) by (unfold base_balances; by rewrite lookup_fmap, Hx).
  cbn [fst snd] in *. split; [split; [|done]|done|].
  - split; [done|]. split; [by apply typed_alter|done..].
  - cbn. rewrite (base_alter _ (fun _ => base y)) by done. split; [by eapply words_alter|].
    rewrite (gain_alter _ _ _ _ _ Hbx). lia.
Qed.
Lemma base_word x : typed_account x -> word (base x).
Proof. intros Hx. apply (wf_balance _ (ti_wf _ (ta_info _ Hx))). Qed.
Lemma opening_account X a x j d : opening X (j, d) -> accounts (state j) !! a = Some x -> typed_account x.
Proof. intros [[[_ [Ha _ _]] _] _ _] Hx. by apply Ha in Hx. Qed.

Section caller.
Context (sp : SpecId) (env : Env) (Hwf : wf_env env) (Hv : validate_env (DbErr := DbErr) sp env = Ok tt).
Context (Hblobs : max_fee_per_blob_gas (tx env) = None -> blob_hashes (tx env) = []).
Abbreviation cost := (transaction_cost sp env).
Abbreviation caller := (tx_caller (tx env)).

Lemma validated_caller X :
  triple (opening X) (tx_against_state (DbErr := DbErr) sp env) (fun _ => opening_with X caller cost) (fun _ => True).
Proof.
  unfold tx_against_state. apply (triple_seq (opening X)); [apply check_token_ids_keeps|done|intros _].
  eapply triple_bind.
  { eapply triple_mono; [intros s Hs; exact Hs|intros r s Hs; exact Hs|done|].
    apply load_account_opening; [apply opening_closed|intros s Hs; apply (op_typed _ _ Hs)|apply opening_db]. }
  intros [x cold] [j d] [Hx Hs]. cbn [fst] in Hx. unfold mbind, M_bind, lift.
  destruct (validate_tx_against_state sp env x) as [y|e|] eqn:Hval; cbn [map_err]; [|done..].
  destruct (cost_covered (DbErr := DbErr) _ _ _ _ Hwf Hv Hblobs Hval) as (Hc0 & _ & Hle).
  apply validate_tx_against_state_Ok in Hval as [-> _]. pose proof (get_base_transfer_value_nonneg _ Hwf).
  unfold on_js, zoom, update_account, mbind, M_bind, account. cbn [fst snd] in *. rewrite Hx. cbn [unwrap].
  pose proof (opening_account _ _ _ _ _ Hs Hx) as Htx. split.
  - eapply opening_replace; [done|exact Hx|done|by apply base_word|lia].
  - exists x. cbn. rewrite lookup_alter_eq, Hx. split; [done|]. unfold base. lia.
Qed.

Lemma typed_charged x : typed_account x -> 0 <= cost <= base x -> typed_account (charged env cost x).
Proof.
  intros Hx [Hc0 Hc1]. pose proof (base_word x Hx) as [_ Hx1]. unfold charged. apply typed_status.
  assert (Hb : typed_account (set_info (set_base_balance (get_base_balance (info x) - cost)) x)).
  { apply typed_set_info; [|done]. apply typed_set_balance; [|apply Hx]. unfold base in *. split; lia. }
  on_if; [|done]. apply typed_set_info; [|done]. apply typed_nonce; [|apply Hb].
  pose proof (wf_nonce _ (ti_wf _ (ta_info _ Hb))) as [Hn0 Hn1]. cbn in Hn0, Hn1 |- *.
  unfold saturating_add. split; lia.
Qed.
Lemma charge_caller X :
  0 <= cost < 2 ^ 256 -> 
  triple (opening_with X caller cost) (deduct_caller (DbErr := DbErr) sp env) (fun _ => opening (X - cost)) (fun _ => True).
Proof.
  intros Hc. unfold deduct_caller. eapply triple_bind.
  { eapply triple_mono; [intros s Hs; exact Hs|intros r s Hs; exact Hs|done|].
    apply load_account_opening; [apply opening_with_closed|intros s Hs; apply (op_typed _ _ (proj1 Hs))|apply opening_with_db]. }
  intros [x cold] [j d] [Hx [Hs (y & Hy & Hle)]]. cbn [fst] in *. rewrite Hx in Hy. injection Hy as <-.
  unfold mbind, M_bind, lift. rewrite (deduct_caller_inner_eq (DbErr := DbErr) sp env x Hwf Hv Hc Hle).
  unfold on_js, zoom, update_account, mbind, M_bind, account. cbn [fst snd] in *. rewrite Hx. cbn [unwrap].
  pose proof (opening_account _ _ _ _ _ Hs Hx) as Htx.
  assert (Ht : typed_account (charged env cost x)) by (apply typed_charged; [done|lia]).
  eapply opening_replace; [exact Hs|exact Hx|done|by apply base_word|].
  unfold base, get_base_balance at 1. rewrite get_balance_charged, decide_True by done. lia.
Qed.
End caller.
End opening.

(** ** The gas of the last frame, whatever its refund counter is *)

Lemma set_final_refund_bounds london limit left refunded :
  0 <= left <= limit -> limit < 2 ^ 64 ->
  exists q, set_final_refund london (mkGas limit left refunded) = mkGas limit left q /\ 0 <= q <= limit - left /\ q < 2 ^ 63.
Proof.
  intros Hr Hl. unfold set_final_refund, spent. cbn [Gas.limit Gas.remaining Gas.refunded].
  rewrite wrapping_sub_fits by (unfold fits; lia). set (p := if london then 5 else 2).
  assert (Hp : 2 <= p) by (unfold p; destruct london; lia).
  assert (H0 : 0 <= (limit - left) / p) by (apply Z.div_pos; lia).
  assert (H1 : 2 * ((limit - left) / p) <= limit - left).
  { pose proof (Z.mul_div_le (limit - left) p ltac:(lia)). nia. }
  pose proof (fits_cast 64 refunded ltac:(lia)) as [Hc _].
  exists (Z.min (cast 64 refunded) ((limit - left) / p)). rewrite wrap_i64_small by lia. split; [done|]. lia.
Qed.
Lemma settled_gas sp env r :
  fits 64 (tx_gas_limit (tx env)) -> 0 <= remaining (frame_gas r) <= tx_gas_limit (tx env) ->
  exists u q, frame_gas (last_frame_return sp env r) = mkGas (tx_gas_limit (tx env)) u q /\
    0 <= u /\ 0 <= q /\ u + q <= tx_gas_limit (tx env) /\ q < 2 ^ 63.
Proof.
  intros [Hl0 Hl1] Hr. unfold last_frame_return, frame_return_with_refund_flag, set_frame_gas.
  unfold frame_gas at 1. rewrite interpreter_result_set. cbn [ir_gas].
  unfold erase_cost, record_refund, Gas_new_spent. cbn [Gas.limit Gas.remaining Gas.refunded].
  rewrite wrapping_add_fits by (unfold fits; lia).
  assert (Hs : forall left f, 0 <= left <= tx_gas_limit (tx env) -> exists u q,
    set_final_refund (is_enabled_in sp LONDON) (mkGas (tx_gas_limit (tx env)) left f) = mkGas (tx_gas_limit (tx env)) u q /\
    0 <= u /\ 0 <= q /\ u + q <= tx_gas_limit (tx env) /\ q < 2 ^ 63).
  { intros left f Hleft. destruct (set_final_refund_bounds (is_enabled_in sp LONDON) _ left f Hleft Hl1) as (q & Hq & Hb & Hq').
    exists left, q. split; [done|lia]. }
  destruct (return_ok _); [apply Hs; lia|]. destruct (return_revert _); apply Hs; lia.
Qed.

(** ** The settlement *)

Section settlement.
Context {DB DbErr : Type} `{HDB : Database DB DbErr} `{HT : !DatabaseTyped DB DbErr} `{HK : Keccak} `{HKT : !KeccakTyped}.
Context (stored : Address -> Z) `{HSB : !StoredBalances DB DbErr stored} `{HS : !Solvent stored}.
Abbreviation DM := (M (JournaledState * DB) (EVMError DbErr)).

(** After the last frame: nothing will be reverted any more. *)
Record closing (X : Z) (s : JournaledState * DB) : Prop := {
  cl_accounts : typed_accounts (accounts (state s.1));
  cl_db : db_typed s.2;
  cl_fine : fine stored X (base_balances (accounts (state s.1)));
}.
Lemma closing_closed X : load_closed stored (closing X).
Proof.
  intros a x j d d' l [Ha Hd Hf] Hnone _ Hd' Hx Hb _. split; [by apply (map_Forall_insert_2 (fun _ => typed_account))|done|].
  cbn. unfold base_balances. rewrite fmap_insert, Hb. apply fine_load; [done|done|]. by rewrite lookup_fmap, Hnone.
Qed.
Lemma closing_load X a : preserves (closing X) (fun _ => True) (load_account (DbErr := DbErr) a).
Proof.
  intros s Hs. pose proof (load_account_opening (DbErr := DbErr) stored (closing X) a (closing_closed X)
    ltac:(by intros s' []) ltac:(by intros j d d' [Ha _ Hf] Hd') s Hs) as H.
  destruct (load_account a s) as [[r|e|] s']; [|done..]. by destruct H.
Qed.
Lemma closing_touch X a : preserves (closing X) (fun _ => True) (on_js (update_account a mark_touch) : DM unit).
Proof.
  intros [j d] [Ha Hd Hf]. unfold on_js, zoom, update_account, mbind, M_bind, account. cbn [fst snd] in *.
  destruct (accounts (state j) !! a) as [x|]; [|done]. split; [done|]. split; [|done|cbn; by rewrite base_alter_same].
  apply typed_alter; [|done]. intros y. apply typed_status.
Qed.
(** A credit that saturates adds what it says at most. *)
Lemma closing_credit X a v :
  0 <= v ->
  triple (closing X) (on_js (update_account a (set_info (increase_base_balance_saturating v))) : DM unit)
    (fun _ => closing (X + v)) (fun _ => True).
Proof.
  intros Hv [j d] [Ha Hd [Hw Hg]]. unfold on_js, zoom, update_account, mbind, M_bind, account. cbn [fst snd] in *.
  destruct (accounts (state j) !! a) as [x|] eqn:Hx; [|done]. pose proof (Ha _ _ Hx) as Htx.
  pose proof (base_word x Htx) as [Hb0 Hb1].
  assert (Hbx : base_balances (accounts (state j)) !! a = Some (base x)) by (unfold base_balances; by rewrite lookup_fmap, Hx).
  assert (Hsat : word (saturating_add 256 (base x) v)) by (unfold saturating_add; split; lia).
  set (g := fun b => saturating_add 256 b v).
  assert (Hbase : forall y, base (set_info (increase_base_balance_saturating v) y) = g (base y)).
  { intros y. unfold base, get_base_balance. simpl. unfold increase_base_balance_saturating, increase_balance_saturating.
    unfold get_balance at 1, set_balances. simpl. by rewrite lookup_insert_eq. }
  split; [|done|].
  - cbn. intros k y. rewrite lookup_alter. case_decide; [subst k|by apply Ha]. rewrite Hx. intros [= <-].
    apply typed_set_info; [|done]. unfold increase_base_balance_saturating, increase_balance_saturating.
    apply (typed_set_balance BASE_TOKEN_ID); [exact Hsat|apply Htx].
  - cbn. rewrite (base_alter _ g) by (intros; apply Hbase). split; [by eapply words_alter|].
    rewrite (gain_alter _ _ _ _ _ Hbx). unfold g, saturating_add. lia.
Qed.

(** What the settlement of the gas [u] left and the refund [q] pays out. *)
Lemma settle sp env X u q :
  wf_env env -> 0 <= u -> 0 <= q -> u + q <= tx_gas_limit (tx env) -> q < 2 ^ 63 ->
  0 <= tx_gas_limit (tx env) * effective_gas_price env < 2 ^ 256 ->
  (enabled sp LONDON = true -> basefee (block env) <= effective_gas_price env) ->
  let g := mkGas (tx_gas_limit (tx env)) u q in
  triple (closing X) (_ ← reimburse_caller env g; reward_beneficiary (DbErr := DbErr) sp env g)
    (fun _ => closing (X + tx_gas_limit (tx env) * effective_gas_price env
      - (if enabled sp LONDON then basefee (block env) * final_gas_used g else 0))) (fun _ => True).
Proof.
  intros Hwf Hu Hq Huq Hq63 Hcost Hbf g. pose proof (wf_gas_limit _ Hwf) as [Hl0 Hl1].
  pose proof (effective_gas_price_bounds _ Hwf) as [He _]. pose proof (wf_basefee _ Hwf) as [Hb0 _].
  set (limit := tx_gas_limit (tx env)) in *. set (eff := effective_gas_price env) in *.
  assert (Hused : final_gas_used g = limit - u - q).
  { unfold final_gas_used, spent, g. cbn [Gas.limit Gas.remaining Gas.refunded]. rewrite (wrapping_sub_fits _ limit u) by (split; lia).
    rewrite cast_fits by (split; lia). apply wrapping_sub_fits. split; lia. }
  assert (Hret : gas_returned g = u + q).
  { unfold gas_returned, g. cbn [Gas.limit Gas.remaining Gas.refunded]. rewrite cast_fits by (split; lia).
    apply wrapping_add_fits. split; lia. }
  rewrite Hused. unfold reimburse_caller. rewrite Hret. fold eff.
  assert (Hm1 : wrapping_mul 256 eff (u + q) = eff * (u + q)) by (apply Z.mod_small; nia).
  rewrite Hm1. apply triple_flat, triple_seq; [apply closing_load|done|intros _].
  eapply triple_bind; [apply closing_credit; nia|intros u0; cbv beta; clear u0].
  unfold reward_beneficiary. rewrite Hused.
  assert (Hp : 0 <= coinbase_gas_price sp env /\ coinbase_gas_price sp env = eff - (if enabled sp LONDON then basefee (block env) else 0)).
  { unfold coinbase_gas_price. fold eff. destruct (enabled sp LONDON); [|lia]. specialize (Hbf eq_refl).
    unfold saturating_sub. rewrite Z.max_l by lia. lia. }
  destruct Hp as [Hp0 Hp]. assert (Hm2 : wrapping_mul 256 (coinbase_gas_price sp env) (limit - u - q)
    = coinbase_gas_price sp env * (limit - u - q)).
  { apply Z.mod_small. destruct (enabled sp LONDON); nia. }
  rewrite Hm2. apply triple_seq; [apply closing_load|done|intros _]. apply triple_seq; [apply closing_touch|done|intros _].
  eapply triple_mono; [intros s Hs; exact Hs| |intros s Hs; exact Hs|apply closing_credit; nia].
  intros u0 s [Ha Hd [Hw Hg]]. split; [done..|]. split; [done|]. rewrite Hp in Hg. destruct (enabled sp LONDON); nia.
Qed.
End settlement.

(** ** The transaction *)

(** A transaction of typed values, as its environment describes it. *)
Record typed_transaction (env : Env) : Prop := {
  tt_env : typed_env env;
  tt_data : wf_bytes (tx_data (tx env));
  tt_target a : transact_to (tx env) = TT_Call a -> address a;
  tt_values : typed_values (transferred_tokens (tx env));
}.
(** Precompiles that only compute, from bytes to bytes. *)
Definition computing_precompiles {DB} (ps : ContextPrecompiles (DB := DB)) : Prop :=
  map_Forall (fun _ f => exists p, f = CP_Ordinary p /\
    forall input gas env r, wf_bytes input -> p input gas env = Ok r -> typed_answer r) ps.

(** What a transaction destroys at least: the base fee of the gas it used, and the
    fee of its blobs. *)
Definition destroyed (sp : SpecId) (env : Env) (used : Z) : Z :=
  (if enabled sp LONDON then basefee (block env) * used else 0) +
  (if enabled sp CANCUN then default 0 (get_blob_gasprice (block env)) * get_total_blob_gas (tx env) else 0).

Lemma M_bind_ok_inv {S E A B} (m : M S E A) (f : A -> M S E B) s b s' :
  (m ≫= f) s = (Ok b, s') -> exists a s1, m s = (Ok a, s1) /\ f a s1 = (Ok b, s').
Proof. intros H. apply M_bind_inv in H as [(a & s1 & H1 & H)|[(e & _ & ?)|[_ ?]]]; [by exists a, s1|done..]. Qed.

Lemma base_transfer_word env : wf_env env -> word (get_base_transfer_value (tx env)).
Proof.
  intros Hwf. pose proof (wf_amounts _ Hwf) as Hl. unfold get_base_transfer_value.
  destruct (transferred_tokens (tx env)) as [|x l] eqn:Ht; [done|]. rewrite <- Ht in *.
  destruct (list_find _ _) as [[i y]|] eqn:Hf; [|done].
  apply list_find_Some in Hf as (Hi & _). by eapply Forall_lookup_1 in Hl; [|exact Hi].
Qed.

Section transaction.
Context {DB DbErr : Type} `{HDB : Database DB DbErr} `{HL : !DatabaseLegacy DB DbErr} `{HT : !DatabaseTyped DB DbErr}.
Context `{HK : Keccak} `{HKT : !KeccakTyped} `{HC : CreateAddress} `{HCT : !CreateAddressTyped} `{HHT : !HashedTokens}.
Context (stored : Address -> Z) `{HSB : !StoredBalances DB DbErr stored} `{HS : !Solvent stored}.
Abbreviation Ctx := (EvmContext (DB := DB) (DbErr := DbErr)).
Abbreviation CtxM := (M (JournaledState * DB) (EVMError DbErr)).
Context (precompiles_of : SpecId -> ContextPrecompiles (DB := DB)) (sp : SpecId) (env : Env).

(** In an environment that stays. *)
Lemma on_inner_at {A} (P R : JournaledState * DB -> Prop) (Q : A -> JournaledState * DB -> Prop) (m : CtxM A) :
  triple P m Q R ->
  triple (fun c : Ctx => c.1 = env /\ P c.2.1) (on_inner m) (fun a c => c.1 = env /\ Q a c.2.1) (fun _ => True).
Proof.
  intros Hm [e [s err]] [He Hc]. unfold on_inner, on_evm, on_ctx, zoom. cbn [fst snd] in *. specialize (Hm s Hc).
  by destruct (m s) as [[a|e'|] s'].
Qed.
Lemma on_inner_ok {A} (P R : JournaledState * DB -> Prop) (Q : A -> JournaledState * DB -> Prop) (m : CtxM A) (c c' : Ctx) a :
  triple P m Q R -> c.1 = env -> P c.2.1 -> on_inner m c = (Ok a, c') -> c'.1 = env /\ Q a c'.2.1.
Proof. intros Hm He Hc H. pose proof (on_inner_at P R Q m Hm c (conj He Hc)) as Ht. by rewrite H in Ht. Qed.

Context (Hwf : wf_env env) (Htt : typed_transaction env).
Context (Hps : computing_precompiles (precompiles_of sp)) (Hfine : precompiles_fine (DbErr := DbErr) (precompiles_of sp)).


Section loop.
Context (X : Z) (HX : X <= 0).
Abbreviation world := (base_world (DbErr := DbErr) stored X).
#[local] Instance world_checkpoints : CheckpointInvariant (DbErr := DbErr) world := base_checkpoints stored X HX.

Lemma load_precompiles_typed n : precompiles_typed (world n) (load_precompiles (DbErr := DbErr) precompiles_of sp).
Proof.
  apply (native_tokens_typed (world n)). intros a f Hf. apply Hps in Hf as (p & -> & Hp). exact Hp.
Qed.

(** The first frame, and the frames under it. *)
Lemma first_frame_kept g c fr c' :
  fits 64 g -> c.1 = env -> world 1 c.2.1 ->
  first_frame precompiles_of sp g c = (Ok fr, c') -> c'.1 = env /\ enters world 1 fr c'.2.1.
Proof.
  intros Hg He Hs H. unfold first_frame in H. apply M_bind_ok_inv in H as ([e s] & c1 & H1 & H). destruct c as [e' c].
  injection H1 as <- <- <-. cbn [fst] in He. subst e'. destruct Htt as [Hte Hd Ht Hv].
  destruct (transact_to (tx env)) as [a|] eqn:Hto; apply M_bind_ok_inv in H as (inputs & c1 & H1 & H); unfold lift in H1.
  - unfold CallInputs_new in H1. rewrite Hto in H1. injection H1 as <- <-.
    refine (on_inner_ok _ _ _ _ _ _ _ (make_call_frame_typed world _ env _ 1 _ load_precompiles_typed _) _ _ H); try done.
    split; cbn; try done; first [by apply Ht | apply Hte].
  - unfold CreateInputs_new in H1. rewrite Hto in H1. injection H1 as <- <-.
    refine (on_inner_ok _ _ _ _ _ _ _ (make_create_frame_typed world sp _ 1 _ _) _ _ H); try done.
    split; cbn; try done; [apply Hte|by apply base_transfer_word].
Qed.
Lemma run_first_frame_kept fuel fr c r c' :
  c.1 = env -> enters world 1 fr c.2.1 ->
  run_first_frame precompiles_of fuel sp fr c = (Ok (Some r), c') -> c'.1 = env /\ typed_frame_result r /\ world 1 c'.2.1.
Proof.
  intros He Hfr H. destruct fr as [f|r']; cbn [run_first_frame] in H.
  - destruct Hfr as [Hf [Hi Hs]].
    pose proof (run_the_loop_typed world env 1 ltac:(done) (load_precompiles precompiles_of sp) load_precompiles_typed fuel sp f Hf Hi c) as Ht.
    rewrite H in Ht. assert (Hte : at_env env c.1) by (split; [done|]; rewrite He; apply Htt).
    destruct (Ht (conj Hte Hs) r eq_refl) as [Hr [[He' _] Hs']]. done.
  - injection H as <- <-. destruct Hfr as [Hr Hs]. done.
Qed.
End loop.

Lemma world_closing X s : base_world stored X 1 s -> closing stored X s.
Proof.
  intros [[[_ [Ha _ _]] Hd] [[_ Hl] _]]. split; [done..|]. by eapply leads_back_fine.
Qed.

Lemma on_inner_then {A B} (m : CtxM A) (f : CtxM B) (c c1 c2 : Ctx) a b :
  on_inner m c = (Ok a, c1) -> on_inner f c1 = (Ok b, c2) -> on_inner (_ ← m; f) c = (Ok b, c2).
Proof.
  destruct c as [e [s err]]. unfold on_inner, on_evm, on_ctx, zoom, mbind, M_bind. cbn [fst snd].
  destruct (m s) as [[a'|e'|] s1]; intros [= <- <-]; cbn [fst snd]. by destruct (f s1) as [[b'|e'|] s2].
Qed.

(** What the output reports. *)
Lemma output_inv r c rs c' :
  on_evm (output (DB := DB) (DbErr := DbErr) r) c = (Ok rs, c') ->
  rs_state rs = state c.2.1.1 /\ ExecutionResult_gas_used (rs_result rs) = final_gas_used (frame_gas r).
Proof.
  destruct c as [e [[j d] err]]. intros H. unfold on_evm, zoom in H. cbn [fst snd] in H.
  destruct (output r (j, d, err)) as [o s'] eqn:Ho. injection H as -> <-. unfold output in Ho.
  apply M_bind_ok_inv in Ho as ([] & s1 & H1 & Ho). unfold take_error in H1. cbn [fst snd] in H1.
  destruct err; [done|]. injection H1 as <-. cbv zeta in Ho.
  apply M_bind_ok_inv in Ho as (out & s1 & H1 & Ho). unfold lift in H1. injection H1 as H1 <-.
  apply M_bind_ok_inv in Ho as ([st ls] & s1 & H2 & Ho). unfold finalize in H2. cbn [fst snd] in H2. injection H2 as <- <- <-.
  apply M_bind_ok_inv in Ho as (res & s1 & H2 & Ho). unfold lift in H2. injection H2 as H2 <-. injection Ho as <- _.
  split; [done|]. cbn [rs_result]. repeat case_match; by simplify_eq/=.
Qed.

Lemma finish_kept X r c rs c' :
  c.1 = env -> closing stored X c.2.1 -> 0 <= remaining (frame_gas r) <= tx_gas_limit (tx env) ->
  0 <= tx_gas_limit (tx env) * effective_gas_price env < 2 ^ 256 ->
  (enabled sp LONDON = true -> basefee (block env) <= effective_gas_price env) ->
  finish_transaction sp r c = (Ok rs, c') ->
  gain stored (base_balances (accounts (rs_state rs))) <=
    X + tx_gas_limit (tx env) * effective_gas_price env
      - (if enabled sp LONDON then basefee (block env) * ExecutionResult_gas_used (rs_result rs) else 0).
Proof.
  intros He Hc Hr Hcost Hbf H. unfold finish_transaction in H. apply M_bind_ok_inv in H as ([e s] & c1 & H1 & H).
  injection H1 as Hes <-. assert (e = env) as -> by (by rewrite Hes in He). clear Hes s. cbv zeta in H.
  apply M_bind_ok_inv in H as ([] & c1 & H1 & H). apply M_bind_ok_inv in H as ([] & c2 & H2 & H).
  pose proof (on_inner_then _ _ _ _ _ _ _ H1 H2) as H12. apply output_inv in H as [Hst Hused]. rewrite Hst, Hused.
  destruct (settled_gas sp env r (wf_gas_limit _ Hwf) Hr) as (u & q & Hg & Hu & Hq & Huq & Hq63). rewrite Hg in H12 |- *.
  eapply on_inner_ok in H12; [|by apply (settle stored sp env X u q)|done|exact Hc]. destruct H12 as [_ [_ _ [_ Hgain]]].
  exact Hgain.
Qed.

(** ** From the first validation to the result *)

Lemma blob_fee_nonneg : 0 <= (if enabled sp CANCUN then default 0 (get_blob_gasprice (block env)) * get_total_blob_gas (tx env) else 0).
Proof.
  destruct (enabled sp CANCUN); [|done]. pose proof (get_total_blob_gas_fits (tx env)) as [? _].
  destruct (get_blob_gasprice (block env)) as [p|] eqn:Hp; simpl; [|lia].
  pose proof (wf_blob_price _ Hwf p Hp) as [? _]. nia.
Qed.
Lemma gas_fee_nonneg : 0 <= tx_gas_limit (tx env) * effective_gas_price env.
Proof. pose proof (effective_gas_price_bounds _ Hwf) as [? _]. pose proof (wf_gas_limit _ Hwf) as [? _]. nia. Qed.

Lemma opening_new sp0 warm d : db_typed d -> opening stored 0 (JournaledState_new sp0 warm, d).
Proof.
  intros Hd. split; [split; [|done]|done|].
  - split; [cbn; change (len [[]]) with 1; lia|]. split; [apply map_Forall_empty|apply map_Forall_empty|].
    apply Forall_singleton, Forall_nil. done.
  - split; [|cbn; done]. cbn. unfold base_balances. rewrite fmap_empty. apply map_Forall_empty.
Qed.
Lemma steady_ok {A} (P : A -> Prop) (m : CtxM A) (c c' : Ctx) a :
  steady P m -> grounded c.2.1 -> on_inner m c = (Ok a, c') -> grounded c'.2.1.
Proof. intros Hm Hc H. exact (wp_elim _ _ _ _ _ (wp_steady P m (fun _ c' => grounded c'.2.1) c Hm Hc (fun a c' _ H _ => H)) H). Qed.
Lemma opening_cost X s :
  opening_with stored X (tx_caller (tx env)) (transaction_cost sp env) s -> transaction_cost sp env < 2 ^ 256.
Proof.
  destruct s as [j d]. intros [Hs (x & Hx & Hle)].
  pose proof (base_word x (opening_account _ _ _ _ _ _ Hs Hx)) as [_ ?]. lia.
Qed.

Context (Hblobs : max_fee_per_blob_gas (tx env) = None -> blob_hashes (tx env) = []).
Abbreviation cost := (transaction_cost sp env).

Lemma preverify_kept c g c' :
  c.1 = env -> opening stored 0 c.2.1 -> preverify_transaction_inner (DbErr := DbErr) sp c = (Ok g, c') ->
  validate_env (DbErr := DbErr) sp env = Ok tt /\ c'.1 = env /\ opening_with stored 0 (tx_caller (tx env)) cost c'.2.1.
Proof.
  intros He Hs H. unfold preverify_transaction_inner in H. apply M_bind_ok_inv in H as ([e s] & c1 & H1 & H).
  injection H1 as Hes <-. assert (e = env) as -> by (by rewrite Hes in He). clear Hes s.
  apply M_bind_ok_inv in H as ([] & c1 & H1 & H). unfold lift in H1. injection H1 as Hv <-.
  apply M_bind_ok_inv in H as (g' & c1 & H1 & H). unfold lift in H1. injection H1 as _ <-.
  apply M_bind_ok_inv in H as ([] & c1 & H1 & H). injection H as _ <-. split; [done|].
  exact (on_inner_ok _ _ _ _ _ _ _ (validated_caller stored sp env Hwf Hv Hblobs 0) He Hs H1).
Qed.

(** The steps before the first frame. *)
Lemma charged_kept c c1 c2 c3 ps :
  validate_env (DbErr := DbErr) sp env = Ok tt -> c.1 = env -> grounded c.2.1 ->
  opening_with stored 0 (tx_caller (tx env)) cost c.2.1 ->
  on_inner (load_accounts sp env) c = (Ok tt, c1) -> on_inner (set_precompiles ps) c1 = (Ok tt, c2) ->
  on_inner (deduct_caller (DbErr := DbErr) sp env) c2 = (Ok tt, c3) ->
  c3.1 = env /\ grounded c3.2.1 /\ opening stored (- cost) c3.2.1 /\ 0 <= cost < 2 ^ 256.
Proof.
  intros Hv He Hgr Hs H1 H2 H3.
  assert (Hc : 0 <= cost < 2 ^ 256).
  { split; [|exact (opening_cost _ _ Hs)]. unfold transaction_cost. pose proof blob_fee_nonneg. pose proof gas_fee_nonneg. lia. }
  pose proof (steady_ok _ _ _ _ _ (steady_load_accounts sp env) Hgr H1) as Hgr1.
  pose proof (steady_ok (fun _ => True) _ _ _ _ (steady_modify (set_warm (dom ps)) ltac:(by intros j)) Hgr1 H2) as Hgr2.
  pose proof (steady_ok _ _ _ _ _ (steady_calms _ _ (calms_deduct_caller sp env)) Hgr2 H3) as Hgr3.
  destruct (on_inner_ok _ _ _ _ _ _ _ (proj1 (triple_preserves _ _ _) (okeeps_load_accounts stored 0 _ cost sp env)) He Hs H1) as [He1 [_ Hs1]].
  destruct (on_inner_ok _ _ _ _ _ _ _ (proj1 (triple_preserves _ _ _) (okeeps_set_precompiles stored 0 _ cost ps)) He1 Hs1 H2) as [He2 [_ Hs2]].
  destruct (on_inner_ok _ _ _ _ _ _ _ (charge_caller stored sp env Hwf Hv 0 Hc) He2 Hs2 H3) as [He3 Hs3].
  replace (0 - cost) with (- cost) in Hs3 by lia. done.
Qed.

(** What the accounts hold in the end, against what the database holds for them. *)
Lemma transaction_supply fuel sp0 warm d err rs c' :
  db_typed d -> db_legacy d ->
  transact precompiles_of fuel sp (env, ((JournaledState_new sp0 warm, d), err)) = (Ok (Some rs), c') ->
  gain stored (base_balances (accounts (rs_state rs))) <= - destroyed sp env (ExecutionResult_gas_used (rs_result rs)).
Proof.
  intros Hd Hld H. set (c := (env, ((JournaledState_new sp0 warm, d), err)) : Ctx) in H. unfold transact in H.
  apply M_bind_ok_inv in H as (g & c1 & H1 & H). unfold clear_on_error in H1.
  destruct (preverify_transaction_inner sp c) as [[g'|e|] c1'] eqn:Hpre; [|done..]. injection H1 as -> ->.
  assert (Hgr : grounded c.2.1) by (split; [split; [apply map_Forall_empty|done]|done]).
  pose proof (wp_elim _ _ _ _ _ (preverify_keeps sp c Hgr) Hpre) as (Hg & Hgr1 & _).
  destruct (preverify_kept c g c1 eq_refl (opening_new sp0 warm d Hd) Hpre) as (Hv & He1 & Hs1).
  unfold then_clear in H. destruct (transact_preverified_inner precompiles_of fuel sp g c1) as [[o|e|] c2] eqn:H2; [|done..].
  injection H as -> _. clear Hpre. unfold transact_preverified_inner in H2.
  apply M_bind_ok_inv in H2 as ([e s] & c3 & H3 & H2). injection H3 as Hes <-.
  assert (e = env) as -> by (by rewrite Hes in He1). clear Hes s.
  apply M_bind_ok_inv in H2 as ([] & c4 & H4 & H2). apply M_bind_ok_inv in H2 as ([] & c5 & H5 & H2).
  apply M_bind_ok_inv in H2 as ([] & c6 & H6 & H2).
  destruct (charged_kept _ _ _ _ _ Hv He1 Hgr1 Hs1 H4 H5 H6) as (He6 & Hgr6 & Hs6 & Hcost). cbv zeta in H2.
  pose proof (wf_gas_limit _ Hwf) as [Hl0 Hl1].
  rewrite wrapping_sub_fits in H2 by (split; cbn in Hg; lia).
  apply M_bind_ok_inv in H2 as (fr & c7 & H7 & H2). apply M_bind_ok_inv in H2 as (r & c8 & H8 & H2).
  destruct r as [r|]; [|done]. apply M_bind_ok_inv in H2 as (rs' & c9 & H9 & H2). injection H2 as -> _.
  cbn [fst c] in Hg. assert (Hfit : fits 64 (tx_gas_limit (tx env) - g)) by (split; lia).
  pose proof (wp_elim _ _ _ _ _ (first_frame_entered precompiles_of sp _ c6 Hfine Hgr6 Hfit) H7) as Hent.
  pose proof (first_result_gas precompiles_of sp fuel _ _ fr c7 r c8 Hfine Hgr6 Hent H8) as Hgas.
  destruct (first_frame_kept (- cost) ltac:(lia) _ _ _ _ Hfit He6 (opening_base_world stored _ _ Hs6) H7) as [He7 Hs7].
  destruct (run_first_frame_kept (- cost) ltac:(lia) _ _ _ _ _ He7 Hs7 H8) as (He8 & _ & Hs8).
  pose proof gas_fee_nonneg. pose proof blob_fee_nonneg. unfold transaction_cost in Hcost.
  pose proof (finish_kept (- cost) r c8 rs c9 He8 (world_closing _ _ Hs8) ltac:(lia) ltac:(lia)
    (proj1 (validate_tx_Ok _ _ (proj2 (validate_env_Ok _ _ Hv)))) H9) as Hend.
  unfold destroyed, transaction_cost in *. lia.
Qed.
End transaction.
