(* ===== verification/MainnetSupply.v ===== *)
(** No transaction on the main network creates base tokens: the supply of a
    transaction, [transaction_supply], over the precompiles of a hard fork.

    These precompiles compute: whatever the gas limit, they take bytes to bytes of a
    length that fits in a word of the machine, and never ask for another call. *)

From S2P Require Import Prelude Specification Bytes Triples Eof Bytecode State Result.
From S2P Require Import Database Journal.
From S2P Require Import CallInputs Env Interpreter Context Handler Fees HostInstructions InterpreterLoop.
From S2P Require Import Evm.
From S2P Require Import ContextSteps EvmLoop Precompile Blake2 Modexp Curves Bls12 PrecompileSets.
From S2P Require Import WordTypes.
From S2P Require Import InterpreterTypes JournalInvariant TypedWorld SupplyInvariant SupplyWorld TransactionSupply.

(** ** Precompiles take bytes to bytes *)

(** An answer, if there is one, is a plain result of bytes. *)
Definition answers_bytes (m : PrecompileResult) : Prop := forall r, m = Ok r -> typed_answer r.

Lemma answers_returns gas out : wf_bytes out -> answers_bytes (returns gas out).
Proof. intros Ho r [= <-]. exact Ho. Qed.
Lemma answers_err e : answers_bytes (Err e).
Proof. done. Qed.
Lemma answers_panic : answers_bytes Panic.
Proof. done. Qed.
Lemma answers_bind {A} (m : outcome PrecompileError A) k :
  (forall a, m = Ok a -> answers_bytes (k a)) -> answers_bytes (m ≫= k).
Proof. intros Hk r. destruct m; [by apply Hk|done..]. Qed.

Lemma wf_bytes_short n b : Forall is_byte b -> len b = n -> n < 2 ^ 64 -> wf_bytes b.
Proof. intros Hb <- Hn. by split. Qed.
Lemma wf_safely {E} (m : outcome E bytes) n o :
  safely m (fun o => len o = n /\ Forall is_byte o) -> n < 2 ^ 64 -> m = Ok o -> wf_bytes o.
Proof. intros Hm Hn Ho. destruct (safely_elim _ _ _ Hm Ho) as [Hl Hb]. by eapply wf_bytes_short. Qed.
Lemma wf_zeroes n : 0 <= n < 2 ^ 64 -> wf_bytes (zeroes n).
Proof. intros Hn. apply (wf_bytes_short n); [apply zeroes_bytes|apply len_zeroes|]; lia. Qed.
Lemma wf_zeroes_app n m b :
  0 <= n -> 0 <= m -> n + m < 2 ^ 64 -> Forall is_byte b -> len b = m -> wf_bytes (zeroes n ++ b).
Proof.
  intros Hn Hm Hs Hb Hl. apply (wf_bytes_short (n + m)); [|rewrite len_app, len_zeroes, Hl by done; done|done].
  apply Forall_app. split; [apply zeroes_bytes|done].
Qed.
Lemma wf_address_word o : address_word o -> wf_bytes o.
Proof. intros (a & Hl & Ha & ->). by apply (wf_zeroes_app 12 20). Qed.
Lemma wf_bool b : wf_bytes (bool_to_bytes32 b).
Proof. apply wf_bytes_to_be. lia. Qed.
Lemma wf_return_value : wf_bytes RETURN_VALUE.
Proof. split; [apply Forall_app; split; apply to_be_bytes_is_byte|done]. Qed.

(** The words that BLAKE2 writes are as many as those it reads. *)
Lemma store_length {E} v v' i x : store (E := E) v i x = Ok v' -> length v' = length v.
Proof. unfold store. case_match; [|done]. intros [= <-]. apply length_insert. Qed.
Lemma fold_halves_length {E} v n i h h' : fold_halves (E := E) v n i h = Ok h' -> length h' = length h.
Proof.
  revert i h. induction n as [|n IH]; intros i h Hh; cbn [fold_halves] in Hh; [by injection Hh as ->|].
  inv_bind Hh. rewrite (IH _ _ Hh). by eapply store_length.
Qed.
Lemma read_words_length {E} input pos n ws : read_words (E := E) input pos n = Ok ws -> length ws = n.
Proof.
  revert pos ws. induction n as [|n IH]; intros pos ws Hw; cbn [read_words] in Hw; [by injection Hw as <-|].
  inv_bind Hw. injection Hw as <-. cbn [length]. f_equal. by eapply IH.
Qed.
Lemma compress_length {E} rounds h m t f h' : compress (E := E) rounds h m t f = Ok h' -> length h' = length h.
Proof. intros Hc. unfold compress in Hc. inv_bind Hc. by eapply fold_halves_length. Qed.
Lemma wf_words (ws : list Z) : length ws = 8%nat -> wf_bytes (concat (map (to_le_bytes 8) ws)).
Proof.
  intros Hl. pose proof (len_words ws) as Hw. split; [|rewrite Hw, Hl; done].
  apply Forall_concat, Forall_map, Forall_true. intros z. apply Forall_reverse, to_be_bytes_is_byte.
Qed.

Section types.
Context `{HC : Crypto} `{HO : !CryptoOk}.
#[local] Existing Instances crypto_hashes_ok crypto_ecrecover_ok crypto_bn_ok crypto_modexp_ok crypto_blst_ok.

(** A precompile that reads bytes. *)
Definition computes (p : Precompile) : Prop :=
  forall input gas env, wf_bytes input -> answers_bytes (Precompile_call p input gas env).
Lemma computes_standard f : (forall input g, wf_bytes input -> answers_bytes (f input g)) -> computes (Precompile_Standard f).
Proof. intros Hf input g env. apply Hf. Qed.

Lemma ecrecover_computes : computes (Precompile_Standard ec_recover_run).
Proof.
  apply computes_standard. intros input g Hi r Hr.
  destruct (safely_elim _ _ _ (ec_recover_answers input g (wb_bytes _ Hi)) Hr) as (o & -> & _ & [->|Ho]);
    [apply wf_bytes_nil|by apply wf_address_word].
Qed.
(** Padded on the left to a length of the machine. *)
Lemma left_pad_vec_wf {E} data n o : Forall is_byte data -> n < 2 ^ 64 -> left_pad_vec (E := E) data n = Ok o -> wf_bytes o.
Proof.
  intros Hd Hn. unfold left_pad_vec, vec_zeroes. destruct (Z.leb_spec n (len data)) as [Hl|Hl].
  - intros [= <-]. split; [by apply Forall_take|]. unfold len. rewrite length_take. lia.
  - case_match; [|done]. intros [= <-]. split; [apply Forall_app; split; [apply Forall_take, zeroes_bytes|done]|].
    pose proof (len_nonneg data). rewrite len_app, len_take by (rewrite len_zeroes; lia). lia.
Qed.
Lemma modexp_computes min_gas calc input g : answers_bytes (run_inner input g min_gas calc).
Proof.
  unfold run_inner. case_match; [done|]. cbv zeta. apply answers_bind. intros base_len _.
  apply answers_bind. intros mod_len Hmod. case_match; [apply answers_returns, wf_bytes_nil|].
  do 2 (apply answers_bind; intros ? _). case_match; [done|]. apply answers_bind. intros i _.
  apply answers_bind. intros [base rest] _. apply answers_bind. intros [exponent modulus] _.
  apply answers_bind. intros out Hout. apply answers_returns. eapply left_pad_vec_wf; [apply modexp_bytes| |exact Hout].
  unfold usize_try_from in Hmod. destruct (Z.ltb_spec (from_be_bytes (right_pad_with_offset 32 input 64)) (2 ^ 64)); [|done].
  by injection Hmod as <-.
Qed.
Lemma blake2_computes : computes (Precompile_Standard Blake2.run).
Proof.
  apply computes_standard. intros input g _. unfold Blake2.run. case_match; [done|]. do 3 (apply answers_bind; intros ? _).
  cbv zeta. case_match; [done|]. apply answers_bind. intros h Hh. do 3 (apply answers_bind; intros ? _).
  apply answers_bind. intros h' Hh'. apply answers_returns, wf_words.
  rewrite (compress_length _ _ _ _ _ _ Hh'). by eapply read_words_length.
Qed.
Lemma wf_point p o : point_bytes p = Ok o -> wf_bytes o.
Proof. by apply (wf_safely _ 64 o (point_bytes_safe p)). Qed.
Lemma wf_encoded_g1 p : wf_bytes (encode_g1_point p).
Proof. by destruct (encode_g1_point_bytes p); eapply wf_bytes_short. Qed.
Lemma wf_encoded_g2 p : wf_bytes (encode_g2_point p).
Proof. by destruct (encode_g2_point_bytes p); eapply wf_bytes_short. Qed.
Lemma wf_sha256 b : wf_bytes (sha256 b).
Proof. by destruct (sha256_digest b); eapply wf_bytes_short. Qed.
Lemma wf_ripemd160 b : wf_bytes (take 12 (zeroes 32) ++ ripemd160 b).
Proof. destruct (ripemd160_digest b). by apply (wf_zeroes_app 12 20). Qed.
Lemma kzg_computes : computes (Precompile_Env kzg_run).
Proof.
  intros input g env _. change (answers_bytes (kzg_run input g env)). unfold kzg_run.
  repeat first [apply answers_err | apply answers_bind; intros ? _ | apply answers_returns, wf_return_value | case_match].
Qed.

#[local] Hint Resolve wf_bytes_nil wf_bool wf_sha256 wf_ripemd160 wf_encoded_g1 wf_encoded_g2 wf_point : computes.
#[local] Hint Extern 1 (wf_bytes (zeroes _)) => by apply wf_zeroes : computes.
#[local] Hint Extern 1 (wf_bytes (to_be_bytes 32 _)) => apply wf_bytes_to_be; lia : computes.
#[local] Hint Unfold sha256_run ripemd160_run identity_run run_add run_mul run_pair
  g1_add g1_mul g1_msm g2_add g2_mul g2_msm pairing map_fp_to_g1 map_fp2_to_g2 : computes.

Ltac by_computing :=
  apply computes_standard; intros ? ? ?; cbv zeta; autounfold with computes; cbv zeta;
  repeat first
    [ apply answers_err | apply answers_bind; intros ? ?
    | apply answers_returns; solve [eauto with computes] | progress case_match ].
Ltac extend_computing := apply extend_forall; [first [apply map_Forall_empty|done]|]; repeat constructor.

Lemma precompiles_compute features spec : map_Forall (fun _ => computes) (Precompiles_new features spec).
Proof.
  assert (Hh : map_Forall (fun _ => computes) homestead) by (extend_computing; first [apply ecrecover_computes|by_computing]).
  assert (Hy : map_Forall (fun _ => computes) byzantium).
  { extend_computing; [by_computing..|]. apply computes_standard. intros. apply modexp_computes. }
  assert (Hi : map_Forall (fun _ => computes) istanbul) by (extend_computing; [apply blake2_computes|by_computing..]).
  assert (Hr : map_Forall (fun _ => computes) berlin).
  { extend_computing. apply computes_standard. intros. apply modexp_computes. }
  assert (Hc : map_Forall (fun _ => computes) (cancun features)).
  { unfold cancun. destruct (c_kzg features); [|done]. extend_computing. apply kzg_computes. }
  assert (Hp : map_Forall (fun _ => computes) (prague features)).
  { unfold prague. destruct (blst features); [|done]. extend_computing; by_computing. }
  by destruct spec.
Qed.
Lemma fork_precompiles_compute {DB DbErr} `{HDB : Database DB DbErr} features spec :
  computing_precompiles (fork_precompiles (DB := DB) features spec).
Proof.
  unfold computing_precompiles, map_Forall. intros a f (v & Hv & ->)%fork_precompiles_lookup. eexists. split; [done|].
  intros input gas env r Hi. exact (precompiles_compute _ _ _ _ Hv input gas env Hi r).
Qed.
End types.

Section mainnet.
Context {DB DbErr : Type} `{HDB : Database DB DbErr} `{HL : !DatabaseLegacy DB DbErr} `{HT : !DatabaseTyped DB DbErr}.
Context `{HK : Keccak} `{HKT : !KeccakTyped} `{HC : CreateAddress} `{HCT : !CreateAddressTyped}.
Context `{HP : Crypto} `{HPO : !CryptoOk} (features : Features).
Context (stored : Address -> Z) `{HSB : !StoredBalances DB DbErr stored} `{HS : !Solvent stored}.

(** C1: No transaction creates base tokens.  The transaction is one of well-formed
    fields, with no blob without a maximum blob fee; it runs from a new journal, over
    a database that serves words, no EOF code (whose EOFCREATE duplicates gas), and
    always the same base balances, which sum to less than the word size; with the
    precompiles of its hard fork, over crates whose results have their sizes; and it
    may fail, revert and call and create as it likes, and mint, burn and transfer tokens,
    but meets no address and identifier whose hash, the id of the token they mint, is
    the base token: it runs alike over a hash that spares it. When it ends with a
    result, the accounts of the result hold less than what the database holds for
    them, by the base fee of the gas used (from London on) and the blob fee (from
    Cancun on) at least. *)
Theorem no_base_tokens_are_created fuel sp env sp0 warm d err rs c' :
  wf_env env -> typed_transaction env -> (max_fee_per_blob_gas (tx env) = None -> blob_hashes (tx env) = []) ->
  db_typed d -> db_legacy d ->
  let run (K : Keccak) := transact (HK := K) (fork_precompiles features) fuel sp (env, ((JournaledState_new sp0 warm, d), err)) in
  run HK = (Ok (Some rs), c') -> run (spare_base HK) = run HK ->
  gain stored (base_balances (accounts (rs_state rs))) <= - destroyed sp env (ExecutionResult_gas_used (rs_result rs)).
Proof.
  intros Hwf Htt Hb Hd Hl run Hrun Hsame. rewrite Hrun in Hsame. revert Hsame. apply (transaction_supply (HK := spare_base HK) stored); [done|done|..|done|done|done];
    [apply fork_precompiles_compute|apply fork_precompiles_fine].
Qed.
End mainnet.

(** ** Witness *)

Section witness.
#[local] Existing Instances sample_crypto sample_crypto_ok.

(** Addresses of created accounts that wrap around. *)
#[local] Instance wrapping_addresses : CreateAddress := {|
  create_address a n := cast 160 (a + n); create2_address a s h := cast 160 (a + s + h)
|}.
#[local] Instance wrapping_addresses_typed : CreateAddressTyped.
Proof. split; intros; by apply Z.mod_pos_bound. Qed.

#[local] Existing Instances sample_keccak sample_keccak_typed.

(** The payer of the sample transaction, and a contract without base tokens that sends
    all it has to 78: PUSH1 78; SELFDESTRUCT. *)
Definition leaving_contract : AccountInfo := mkInfo (init_balances 0) 1 7 (Some (new_raw [0x60; 78; 0xFF])).
Definition payer_tx : TxEnv :=
  mkTxEnv 9 100000 10 (TT_Call 77) [] (Some 0) None [] (Some 2) [] None [mkTransfer 0 3; mkTransfer 5 4].
Definition payer_env : Env := mkEnv CfgEnv_default sample_block payer_tx.
Definition payer_stored (a : Address) : Z := if a =? 9 then 2000000 else 0.
#[local] Instance payer_database : Database unit False := {|
  basic a := mret (if a =? 9 then Some (info sample_payer) else if a =? 77 then Some leaving_contract else None);
  code_by_hash _ := mret Bytecode_new;
  db_storage _ _ := mret 0;
  block_hash _ := mret 0;
  get_token_ids _ := Ok [BASE_TOKEN_ID; 5];
  is_token_id_valid _ i := Ok ((i =? BASE_TOKEN_ID) || (i =? 5));
|}.
#[local] Instance payer_legacy : DatabaseLegacy unit False.
Proof.
  refine {| db_legacy := fun _ => True |}; [|by intros h d r d' _ [= <- _]; split; [|intros c [= <-]]|done..].
  intros a d r d' _ [= <- _]. split; [done|]. intros i [= Hi]. case_match; [by injection Hi as <-; intros ? [= <-]|].
  case_match; [by injection Hi as <-; intros ? [= <-]|done].
Defined.

Lemma payer_typed_info : typed_info (info sample_payer).
Proof.
  split; [split; [|split; vm_compute; congruence]|split; vm_compute; congruence|].
  - intros t. unfold get_balance. cbn. rewrite lookup_insert. case_decide; [done|].
    rewrite lookup_singleton. by case_decide.
  - intros c [= <-]. apply typed_Bytecode_new.
Qed.
Lemma leaving_typed_info : typed_info leaving_contract.
Proof.
  split; [split; [|split; vm_compute; congruence]|split; vm_compute; congruence|].
  - intros t. unfold get_balance. cbn. rewrite lookup_insert. by case_decide.
  - intros c [= <-]. by split; [repeat (apply Forall_cons; split; [done|])|].
Qed.
#[local] Instance payer_typed : DatabaseTyped unit False.
Proof.
  refine {| db_typed := fun _ => True |}; intros; apply preserves_ret; [|apply typed_Bytecode_new|done..].
  intros i. case_match; [intros [= <-]; apply payer_typed_info|].
  case_match; [intros [= <-]; apply leaving_typed_info|done].
Defined.
#[local] Instance payer_balances : StoredBalances unit False payer_stored.
Proof. intros a d o d' _ [= <- _]. unfold payer_stored. case_match; [done|]. by case_match. Qed.
#[local] Instance payer_solvent : Solvent payer_stored.
Proof.
  split; [intros a; unfold payer_stored; by case_match|].
  assert (Hout : forall l, 9 ∉ l -> total_stored payer_stored l = 0).
  { induction l as [|a l IH]; [done|]. intros Hl. apply not_elem_of_cons in Hl as [Ha Hl].
    cbn [total_stored foldr]. fold (total_stored payer_stored l). rewrite IH by done. unfold payer_stored.
    destruct (Z.eqb_spec a 9); [by subst|done]. }
  assert (Hle : forall l, NoDup l -> total_stored payer_stored l <= 2000000).
  { induction 1 as [|a l Ha Hl IH]; [done|]. cbn [total_stored foldr]. fold (total_stored payer_stored l).
    unfold payer_stored at 1. destruct (Z.eqb_spec a 9) as [->|]; [|lia]. rewrite Hout by done. done. }
  intros l Hl. specialize (Hle l Hl). lia.
Qed.
Lemma payer_env_wf : wf_env payer_env.
Proof. split; unfold fits; cbn; try lia; [intros p [= <-]; cbn; lia|done|repeat (apply Forall_cons; split; [cbn; lia|]); done]. Qed.
Lemma payer_env_typed : typed_transaction payer_env.
Proof.
  split.
  - split; cbn; try done; intros v [= <-]; done.
  - by split; [repeat (apply Forall_cons; split; [done|])|].
  - intros a [= <-]. done.
  - by split; [repeat (apply Forall_cons; split; [done|])|].
Qed.

(** The payer sends 3 base tokens and 4 of another kind to the contract, which sends
    them on. *)
Lemma no_base_tokens_are_created_witness :
  match transact (fork_precompiles Features_default) 3 CANCUN
    (payer_env, ((JournaledState_new CANCUN ∅, tt), None)) with
  | (Ok (Some rs), _) =>
      gain payer_stored (base_balances (accounts (rs_state rs))) <= - (7 * 53603)
      /\ base_balances (accounts (rs_state rs)) !! 78 = Some 3
  | _ => False
  end.
Proof.
  destruct (transact _ _ _ _) as [[[rs|]|e|] c'] eqn:Ht; [|vm_compute in Ht; discriminate Ht..].
  assert (Hrs : ExecutionResult_gas_used (rs_result rs) = 53603 /\ base_balances (accounts (rs_state rs)) !! 78 = Some 3).
  { vm_compute in Ht. injection Ht as <- _. done. }
  destruct Hrs as [Hu H78]. split; [|exact H78].
  pose proof (no_base_tokens_are_created (DbErr := False) Features_default payer_stored 3 CANCUN payer_env CANCUN ∅ tt None
    rs c' payer_env_wf payer_env_typed (fun _ => eq_refl) I I Ht ltac:(vm_compute; reflexivity)) as H.
  rewrite Hu in H. exact H.
Defined.
End witness.
