(* ===== verification/HandlerTable.v ===== *)
(** The table of handlers: [crates/revm/src/handler.rs], [handler/register.rs] and
    [handler/handle_types/], and the machine of [evm.rs] over such a table.

    A context is the one of [Evm.v] with an external part, that the handlers of the
    main network do not look at. *)

From S2P Require Import L1Block Precompile Curves PrecompileSets FastLz Optimism.
From S2P Require Import Prelude Specification Bytes Triples Eof Bytecode State Result.
From S2P Require Import InstructionResult Database.
From S2P Require Import Journal CallInputs NativeTokens Gas Stack SharedMemory Analysis Env.
From S2P Require Import Interpreter.
From S2P Require Import Context Handler Instructions HostInstructions Opcode InterpreterLoop InterpreterSafety HostSafety.
From S2P Require Import Evm.
From S2P Require Import JournalRun InMemoryDb JournalSpec EvmLoop.

(** ** A host with an external part *)

Section host.
Context {H EXT : Type} `{HH : Host H} `{HK : Keccak} `{HC : CreateAddress}.

(** Run on the first part. *)
Definition on_first {E A} (m : M H E A) : M (H * EXT) E A := zoom fst (fun h s => (h, s.2)) m.

#[export] Instance paired_host : Host (H * EXT) := {|
  h_env s := h_env s.1;
  h_load_account a := on_first (h_load_account a);
  h_block_hash n := on_first (h_block_hash n);
  h_code a := on_first (h_code a);
  h_code_hash a := on_first (h_code_hash a);
  h_sload a k := on_first (h_sload a k);
  h_sstore a k v := on_first (h_sstore a k v);
  h_tload a k := on_first (h_tload a k);
  h_tstore a k v := on_first (h_tstore a k v);
  h_log l := on_first (h_log l);
  h_selfdestruct a t := on_first (h_selfdestruct a t);
  h_balance t a := on_first (h_balance t a);
  h_base_balance a := on_first (h_base_balance a);
  h_burn b i h v := on_first (h_burn b i h v);
  h_mint m r i v := on_first (h_mint m r i v);
|}.

(** [m'] does what [m] does, and leaves the external part alone. *)
Definition lifted {E A} (m' : M (Interpreter * (H * EXT)) E A) (m : M (Interpreter * H) E A) : Prop :=
  forall i h x, m' (i, (h, x)) = let '(r, (i', h')) := m (i, h) in (r, (i', (h', x))).

Section rules.
Context {E : Type}.
Lemma lifted_ret {A} (a : A) : lifted (E := E) (mret a) (mret a).
Proof. done. Qed.
Lemma lifted_lift {A} (o : outcome E A) : lifted (lift o) (lift o).
Proof. done. Qed.
Lemma lifted_fail {A} (e : E) : lifted (A := A) (fail e) (fail e).
Proof. done. Qed.
Lemma lifted_gets {A} (f : Interpreter -> A) : lifted (E := E) (gets (fun s => f s.1)) (gets (fun s => f s.1)).
Proof. done. Qed.
Lemma lifted_modify (f : Interpreter -> Interpreter) :
  lifted (E := E) (modify (fun s => (f s.1, s.2))) (modify (fun s => (f s.1, s.2))).
Proof. done. Qed.
Lemma lifted_bind {A B} (m' : M (Interpreter * (H * EXT)) E A) m (f' : A -> M (Interpreter * (H * EXT)) E B) f :
  lifted m' m -> (forall a, lifted (f' a) (f a)) -> lifted (m' ≫= f') (m ≫= f).
Proof.
  intros Hm Hf i h x. unfold mbind, M_bind. rewrite (Hm i h x). destruct (m (i, h)) as [[a|e|] [i1 h1]]; [apply Hf|done..].
Qed.
End rules.

Lemma lifted_on_int {A} (m : IM A) : lifted (on_int m) (on_int m).
Proof. intros i h x. unfold on_int, zoom. cbn [fst snd]. by destruct (m i). Qed.
Lemma lifted_on_host {A} (m : M H Empty_set A) : lifted (on_host (on_first m)) (on_host m).
Proof. intros i h x. unfold on_host, with_err, on_first, zoom. cbn [fst snd]. by destruct (m h). Qed.
Lemma lifted_host_some {A} (m : M H Empty_set (option A)) : lifted (host_some (on_first m)) (host_some m).
Proof. apply lifted_bind; [apply lifted_on_host|]. by intros []. Qed.
Lemma lifted_env : lifted env_of env_of.
Proof. done. Qed.
Lemma lifted_self : lifted self_address self_address.
Proof. done. Qed.

Create HintDb lifted.
#[local] Hint Resolve lifted_ret lifted_lift lifted_fail lifted_on_int lifted_on_host lifted_host_some lifted_env lifted_self lifted_gets
  : lifted.

Ltac solve_lifted :=
  autounfold with instructions;
  repeat first
    [ apply lifted_ret | apply lifted_lift | apply lifted_fail | apply lifted_on_int | apply lifted_env | apply lifted_self
    | apply lifted_host_some | apply lifted_on_host | apply (lifted_gets in_is_static)
    | apply (lifted_gets (fun i => remaining (in_gas i)))
    | apply lifted_bind; [|intros ?] | case_match ].

Lemma lifted_instructions spec :
  Forall2 (fun p' p => p'.1 = p.1 /\ lifted p'.2 p.2) (instructions (H := H * EXT) spec) (instructions (H := H) spec).
Proof.
  unfold instructions.
  repeat (apply Forall2_cons; split; [split; [reflexivity|cbn [snd]; first [apply lifted_on_int|solve_lifted]]|]).
  apply Forall2_nil. done.
Qed.

Lemma lifted_instruction spec opcode : lifted (instruction (H := H * EXT) spec opcode) (instruction spec opcode).
Proof.
  unfold instruction. induction (lifted_instructions spec) as [|[o' m'] [o m] l' l [Ho Hm] Hl IH]; [apply lifted_on_int|].
  cbn [fst snd] in *. subst o'. unfold assoc in *. cbn [list_find]. destruct (decide _); [exact Hm|].
  by rewrite <- !(option_fmap_compose (prod_map S id)) in *.
Qed.
Lemma lifted_settle m' m : lifted m' m -> lifted (settle_instruction m') (settle_instruction m).
Proof. intros Hm i h x. unfold settle_instruction. rewrite Hm. by destruct (m (i, h)) as [[] []]. Qed.
Lemma lifted_step spec : lifted (step (H := H * EXT) spec) (step spec).
Proof.
  apply lifted_bind; [apply (lifted_gets id)|intros i]. apply lifted_bind; [apply lifted_lift|intros o].
  apply lifted_bind; [apply (lifted_modify (fun i => set_pc (instruction_pointer i + 1) i))|intros _].
  apply lifted_settle, lifted_instruction.
Qed.
Lemma lifted_run_loop fuel spec : lifted (run_loop (H := H * EXT) fuel spec) (run_loop fuel spec).
Proof.
  induction fuel as [|fuel IH]; cbn [run_loop];
    (apply lifted_bind; [apply (lifted_gets id)|intros i; destruct (running i); [|apply lifted_ret]]); [apply lifted_ret|].
  apply lifted_bind; [apply lifted_step|intros _; apply IH].
Qed.
Lemma lifted_run fuel spec memory : lifted (run (H := H * EXT) fuel spec memory) (run fuel spec memory).
Proof.
  unfold run. apply lifted_bind; [apply (lifted_modify (fun i => set_memory memory (set_next_action IA_None i)))|intros _].
  apply lifted_bind; [apply lifted_run_loop|intros []; [|apply lifted_ret]].
  apply lifted_bind; [apply (lifted_gets id)|intros i]. destruct (IA_is_some _); [|apply lifted_ret].
  apply lifted_bind; [apply (lifted_modify (set_next_action IA_None))|intros _; apply lifted_ret].
Qed.
End host.

(** ** The instructions move a host as its methods do *)

Section instructions.
Context {H : Type} `{HH : Host H} `{HK : Keccak} `{HC : CreateAddress}.
Context (Q : H -> H -> Prop) `{HQ : !PreOrder Q} `{HR : !HostReads Q} `{HW : !HostWrites Q}.
Definition host_moves (s s' : Interpreter * H) : Prop := Q s.2 s'.2.
#[local] Instance host_moves_preorder : PreOrder host_moves.
Proof. split; unfold host_moves; [by intros s|intros s t u; apply transitivity]. Qed.
Abbreviation moves m := (moving host_moves m).

Lemma moves_on_int {A} (m : M Interpreter InstructionResult A) : moves (on_int m).
Proof. intros s r s' Hm. unfold on_int, zoom in Hm. destruct (m s.1). injection Hm as _ <-. unfold host_moves. done. Qed.
Lemma moves_on_host {A} (m : M H Empty_set A) : host_keeps Q m -> moves (on_host m).
Proof. intros Hm. by apply moving_with_err, (moving_zoom _ Q). Qed.
Lemma moves_host_some {A} (m : M H Empty_set (option A)) : host_keeps Q m -> moves (host_some m).
Proof. intros Hm. apply moving_bind; [apply _|by apply moves_on_host|]. intros []; solve_moving. Qed.
#[local] Hint Resolve moves_on_int : moving.
#[local] Hint Extern 2 (moving _ (on_host _)) => apply moves_on_host; solve [auto with keeps] : moving.
#[local] Hint Extern 2 (moving _ (host_some _)) => apply moves_host_some; solve [eauto with keeps typeclass_instances] : moving.

Lemma moves_table spec : Forall (fun q : Z * M (Interpreter * H) InstructionResult unit => moves q.2) (instructions spec).
Proof.
  unfold instructions.
  repeat (apply List.Forall_cons;
    [cbn [snd]; first [apply moves_on_int | solve [autounfold with instructions; unfold env_of, self_address; solve_moving]]|]).
  constructor.
Qed.
Lemma moves_instruction spec opcode : moves (settle_instruction (instruction spec opcode)).
Proof.
  intros s r s' Hs. unfold settle_instruction in Hs. destruct (instruction spec opcode s) as [r1 s1] eqn:Hi.
  assert (Hm : moves (instruction spec opcode)).
  { apply (instruction_ind (fun _ q => moves q)); [apply moves_table|apply moves_on_int]. }
  apply Hm in Hi. by destruct r1; injection Hs as _ <-.
Qed.

Lemma moves_set {E} (f : Interpreter * H -> Interpreter) : moves (modify (E := E) (fun s => (f s, s.2))).
Proof. apply moving_modify. intros s. unfold host_moves. done. Qed.
Lemma moves_step spec : moves (step spec).
Proof.
  apply moving_bind; [apply _|apply moving_gets; apply _|intros i]. apply moving_bind; [apply _|apply moving_lift; apply _|intros o].
  apply moving_bind; [apply _|apply moves_set|intros _]. apply moves_instruction.
Qed.
Lemma moves_run fuel spec memory : moves (run fuel spec memory).
Proof.
  unfold run. apply moving_bind; [apply _|apply moves_set|intros _]. apply moving_bind; [apply _| |intros b].
  - induction fuel as [|fuel IH]; cbn [run_loop]; (apply moving_bind; [apply _|apply moving_gets; apply _|intros i]);
      case_match; try (apply moving_ret; apply _). apply moving_bind; [apply _|apply moves_step|intros _; exact IH].
  - case_match; [|apply moving_ret; apply _]. apply moving_bind; [apply _|apply moving_gets; apply _|intros i].
    case_match; [|apply moving_ret; apply _]. apply moving_bind; [apply _|apply moves_set|intros _; apply moving_ret; apply _].
Qed.
End instructions.

(** ** Instruction tables *)

Section tables.
Context {H : Type} `{HH : Host H} `{HK : Keccak} `{HC : CreateAddress}.
Abbreviation LM := (M (Interpreter * H) Empty_set).

(** An entry of a table sets the result of the interpreter itself. *)
Definition Instruction : Type := LM unit.
Definition InstructionTable : Type := Z -> Instruction.

Inductive InstructionTables : Type :=
  | Plain (table : InstructionTable)
  | Boxed (table : InstructionTable).

Definition make_instruction_table (spec : SpecId) : InstructionTable :=
  fun opcode => settle_instruction (instruction spec opcode).
Definition new_plain (spec : SpecId) : InstructionTables := Plain (make_instruction_table spec).

(** [outer] around every instruction. *)
Definition make_boxed_instruction_table (table : InstructionTable) (outer : Instruction -> Instruction)
  : InstructionTable := fun opcode => outer (table opcode).

Definition set_entry (opcode : Z) (instruction : Instruction) (table : InstructionTable) : InstructionTable :=
  fun o => if o =? opcode then instruction else table o.
Definition convert_boxed (t : InstructionTables) : InstructionTables :=
  match t with Plain table => Boxed table | Boxed table => Boxed table end.
Definition insert_boxed (opcode : Z) (instruction : Instruction) (t : InstructionTables) : InstructionTables :=
  match convert_boxed t with
  | Plain table => Plain table
  | Boxed table => Boxed (set_entry opcode instruction table)
  end.
Definition insert_instruction (opcode : Z) (instruction : Instruction) (t : InstructionTables) : InstructionTables :=
  match t with
  | Plain table => Plain (set_entry opcode instruction table)
  | Boxed table => Boxed (set_entry opcode instruction table)
  end.

(** [Interpreter::step] and [Interpreter::run] over a table. *)
Definition step_with (table : InstructionTable) : LM unit :=
  i ← gets fst;
  opcode ← lift (index (in_bytecode i) (instruction_pointer i));
  _ ← modify (fun s => (set_pc (instruction_pointer s.1 + 1) s.1, s.2));
  table opcode.

Fixpoint run_loop_with (fuel : nat) (table : InstructionTable) : LM bool :=
  i ← gets fst;
  if running i then
    match fuel with
    | O => mret false
    | S fuel => _ ← step_with table; run_loop_with fuel table
    end
  else mret true.

Definition run_with (fuel : nat) (table : InstructionTable) (memory : SharedMemory) : LM (option InterpreterAction) :=
  _ ← modify (fun s => (set_memory memory (set_next_action IA_None s.1), s.2));
  finished ← run_loop_with fuel table;
  if finished : bool then
    i ← gets fst;
    if IA_is_some (next_action i) then
      _ ← modify (fun s => (set_next_action IA_None s.1, s.2));
      mret (Some (next_action i))
    else mret (Some (IA_Return (mkInterpreterResult (instruction_result i) [] (in_gas i))))
  else mret None.

Lemma run_loop_with_plain fuel spec s : run_loop_with fuel (make_instruction_table spec) s = run_loop fuel spec s.
Proof.
  revert s. induction fuel as [|fuel IH]; intros s; [done|]. cbn [run_loop_with run_loop]. unfold mbind, M_bind, gets.
  case_match; [|done]. change (step_with (make_instruction_table spec) s) with (step spec s).
  destruct (step spec s) as [[]]; [apply IH|done..].
Qed.
Lemma run_with_plain fuel spec memory s : run_with fuel (make_instruction_table spec) memory s = run fuel spec memory s.
Proof. unfold run_with, run, mbind, M_bind, modify. by rewrite run_loop_with_plain. Qed.
End tables.
Arguments Instruction H : clear implicits.
Arguments InstructionTable H : clear implicits.
Arguments InstructionTables H : clear implicits.

(** ** The handlers *)

(** [trait Spec]: the hard forks of a build, each an Ethereum one for the handlers
    of the main network, with its precompiles. *)
Class HardForks (Fork : Type) {DB DbErr : Type} `{Database DB DbErr} : Type := {
  fork_decision :: EqDecision Fork;
  fork_spec : Fork -> SpecId;
  fork_precompiles_of : Fork -> ContextPrecompiles (DB := DB);
}.

Record HandlerCfg {Fork : Type} : Type := mkHandlerCfg { spec_id : Fork; is_optimism : bool }.
Arguments HandlerCfg Fork : clear implicits.
(** [HandlerCfg::new], without the [optimism-default-handler] feature. *)
Definition HandlerCfg_new {Fork} (spec : Fork) : HandlerCfg Fork := mkHandlerCfg _ spec false.

Section handlers.
Context {DB DbErr : Type} `{HDB : Database DB DbErr} `{HK : Keccak} `{HC : CreateAddress}.
Context {EXT : Type}.

(** [Context]: the precompiles loaded last, and the external part. *)
Definition FullContext : Type := (EvmContext (DB := DB) (DbErr := DbErr) * (ContextPrecompiles (DB := DB) * EXT))%type.
Abbreviation CM := (M (EvmContext (DB := DB) (DbErr := DbErr)) (EVMError DbErr)).
Abbreviation CtxM := (M (JournaledState * DB) (EVMError DbErr)).
Abbreviation HM := (M FullContext (EVMError DbErr)).
Abbreviation ResultOf A := (sum (EVMError DbErr) A).

Record ValidationHandler : Type := mkValidation {
  vh_initial_tx_gas : Env -> outcome (EVMError DbErr) Z;
  vh_tx_against_state : HM unit;
  vh_env : Env -> outcome (EVMError DbErr) unit;
}.
Record PreExecutionHandler : Type := mkPreExecution {
  ph_load_precompiles : ContextPrecompiles (DB := DB);
  ph_load_accounts : HM unit;
  ph_deduct_caller : HM unit;
}.
Record PostExecutionHandler : Type := mkPostExecution {
  po_reimburse_caller : Gas -> HM unit;
  po_reward_beneficiary : Gas -> HM unit;
  po_output : FrameResult -> HM ResultAndState;
  po_end : ResultOf ResultAndState -> HM ResultAndState;
  po_clear : M FullContext Empty_set unit;
}.
(** A frame, a memory or a result that a handle is given to change is returned. *)
Record ExecutionHandler : Type := mkExecution {
  ex_last_frame_return : FrameResult -> HM FrameResult;
  ex_execute_frame : Frame -> SharedMemory -> InstructionTables FullContext -> HM (InterpreterAction * Frame * SharedMemory);
  ex_call : CallInputs -> HM FrameOrResult;
  ex_call_return : Z * Z -> FrameData -> InterpreterResult -> HM CallOutcome;
  ex_insert_call_outcome : Frame -> SharedMemory -> CallOutcome -> HM (Frame * SharedMemory);
  ex_create : CreateInputs -> HM FrameOrResult;
  ex_create_return : Address -> FrameData -> InterpreterResult -> HM CreateOutcome;
  ex_insert_create_outcome : Frame -> CreateOutcome -> HM Frame;
  ex_eofcreate : EOFCreateInput -> HM FrameOrResult;
  ex_eofcreate_return : Address -> Z * Z -> FrameData -> InterpreterResult -> HM EOFCreateOutcome;
  ex_insert_eofcreate_outcome : Frame -> EOFCreateOutcome -> HM Frame;
}.

Context {Fork : Type} `{HF : !HardForks Fork (DB := DB) (DbErr := DbErr)}.

(** A [Handler] but for its registers. *)
Record HandlerCore : Type := mkCore {
  cfg : HandlerCfg Fork;
  instruction_table : InstructionTables FullContext;
  validation : ValidationHandler;
  pre_execution : PreExecutionHandler;
  post_execution : PostExecutionHandler;
  execution : ExecutionHandler;
}.

(** *** Those of the main network *)

Definition on_context {A} (m : CM A) : HM A := zoom fst (fun c s => (c, s.2)) m.
Definition context_env : HM Env := gets (fun s => s.1.1).
(** A handler of [Handler.v] or [Context.v], which reads the environment. *)
Definition main {A} (m : Env -> CtxM A) : HM A := env ← context_env; on_context (on_inner (m env)).

(** The steps an execution of a frame may take, and a step more: a table may hold
    instructions that charge nothing. *)
Context (steps : Interpreter -> nat).

Definition main_execute_frame (frame : Frame) (shared_memory : SharedMemory) (tables : InstructionTables FullContext)
  : HM (InterpreterAction * Frame * SharedMemory) := fun c =>
  let i := frame_interpreter frame in
  let next_action :=
    match tables with
    | Plain table => run_with (steps i) table shared_memory (i, c)
    | Boxed table => run_with (steps i) table shared_memory (i, c)
    end in
  match next_action with
  | (Ok (Some next_action), (i, c)) =>
      let '(memory, i) := take_memory i in
      (Ok (next_action, set_frame_interpreter i frame, memory), c)
  | (_, (_, c)) => (Panic, c)
  end.

Definition main_insert (frame : Frame) {S} (m : M S Empty_set unit) (s : S) (f : S -> Interpreter) : HM (Frame * S) :=
  _ ← on_context (on_evm take_error);
  '(_, s) ← lift (pure_outcome (m s));
  mret (set_frame_interpreter (f s) frame, s).

Definition ValidationHandler_new (fork : Fork) : ValidationHandler := {|
  vh_initial_tx_gas := initial_tx_gas (fork_spec fork);
  vh_tx_against_state := main (tx_against_state (fork_spec fork));
  vh_env := validate_env (fork_spec fork);
|}.
Definition PreExecutionHandler_new (fork : Fork) : PreExecutionHandler := {|
  ph_load_precompiles := with_native_tokens (DbErr := DbErr) (fork_precompiles_of fork);
  ph_load_accounts := main (load_accounts (fork_spec fork));
  ph_deduct_caller := main (deduct_caller (fork_spec fork));
|}.
Definition PostExecutionHandler_new (fork : Fork) : PostExecutionHandler := {|
  po_reimburse_caller gas := main (fun env => reimburse_caller env gas);
  po_reward_beneficiary gas := main (fun env => reward_beneficiary (fork_spec fork) env gas);
  po_output r := on_context (on_evm (output r));
  po_end r := match r with inl e => fail e | inr r => mret r end;
  po_clear := fun c => (Ok tt, (on_context (on_evm clear_context) c).2);
|}.
Definition ExecutionHandler_new (fork : Fork) : ExecutionHandler := {|
  ex_last_frame_return r := env ← context_env; mret (last_frame_return (fork_spec fork) env r);
  ex_execute_frame := main_execute_frame;
  ex_call inputs := ps ← gets (fun s => s.2.1); main (fun env => make_call_frame ps env inputs);
  ex_call_return range d r :=
    _ ← main (fun _ => call_return r (fd_checkpoint d)); mret (mkCallOutcome r range);
  ex_insert_call_outcome frame memory o :=
    '(frame, (_, memory)) ← main_insert frame (insert_call_outcome o) (frame_interpreter frame, memory) fst;
    mret (frame, memory);
  ex_create inputs := main (fun _ => make_create_frame (fork_spec fork) inputs);
  ex_create_return address d r :=
    r ← main (fun env => create_return (fork_spec fork) env r address (fd_checkpoint d));
    mret (mkCreateOutcome r (Some address));
  ex_insert_create_outcome frame o :=
    '(frame, _) ← main_insert frame (insert_create_outcome o) (frame_interpreter frame) id; mret frame;
  ex_eofcreate inputs := main (fun _ => make_eofcreate_frame (fork_spec fork) inputs);
  ex_eofcreate_return address range d r :=
    _ ← main (fun _ => eofcreate_return r address (fd_checkpoint d)); mret (mkEOFCreateOutcome r address range);
  ex_insert_eofcreate_outcome frame o :=
    '(frame, _) ← main_insert frame (insert_eofcreate_outcome o) (frame_interpreter frame) id; mret frame;
|}.

Definition mainnet_core (fork : Fork) : HandlerCore := {|
  cfg := HandlerCfg_new fork;
  instruction_table := new_plain (fork_spec fork);
  validation := ValidationHandler_new fork;
  pre_execution := PreExecutionHandler_new fork;
  post_execution := PostExecutionHandler_new fork;
  execution := ExecutionHandler_new fork;
|}.

(** *** Registers *)

(** A register changes the handlers, the table or the configuration; that it does
    not touch the list of registers is a simplification. *)
Inductive HandleRegisters : Type :=
  | HR_Plain (f : HandlerCore -> HandlerCore)
  | HR_Box (f : HandlerCore -> HandlerCore).
Definition register (r : HandleRegisters) (h : HandlerCore) : HandlerCore :=
  match r with HR_Plain f => f h | HR_Box f => f h end.

Record EvmHandler : Type := mkHandler { core : HandlerCore; registers : list HandleRegisters }.

Definition set_cfg (c : HandlerCfg Fork) (h : HandlerCore) : HandlerCore :=
  mkCore c (instruction_table h) (validation h) (pre_execution h) (post_execution h) (execution h).
Definition set_instruction_table (t : InstructionTables FullContext) (h : HandlerCore) : HandlerCore :=
  mkCore (cfg h) t (validation h) (pre_execution h) (post_execution h) (execution h).
Definition take_instruction_table (h : HandlerCore) : InstructionTables FullContext * HandlerCore :=
  (instruction_table h, set_instruction_table (new_plain (fork_spec (spec_id (cfg h)))) h).
Definition set_execution (e : ExecutionHandler) (h : HandlerCore) : HandlerCore :=
  mkCore (cfg h) (instruction_table h) (validation h) (pre_execution h) (post_execution h) e.

Definition mainnet_with_spec (fork : Fork) : EvmHandler := mkHandler (mainnet_core fork) [].

Definition append_handler_register (r : HandleRegisters) (h : EvmHandler) : EvmHandler :=
  mkHandler (register r (core h)) (registers h ++ [r]).
Definition append_handler_register_plain (f : HandlerCore -> HandlerCore) (h : EvmHandler) : EvmHandler :=
  mkHandler (f (core h)) (registers h ++ [HR_Plain f]).
Definition append_handler_register_box (f : HandlerCore -> HandlerCore) (h : EvmHandler) : EvmHandler :=
  mkHandler (f (core h)) (registers h ++ [HR_Box f]).

(** [for register in registers { base_handler.append_handler_register(register) }]. *)
Definition append_registers (rs : list HandleRegisters) (h : EvmHandler) : EvmHandler :=
  foldl (fun h r => append_handler_register r h) h rs.

(** [optimism_with_spec], over the register of the rollup. *)
Definition optimism_with_spec (optimism_handle_register : HandlerCore -> HandlerCore) (fork : Fork) : EvmHandler :=
  let h := mainnet_with_spec fork in
  append_handler_register (HR_Plain optimism_handle_register)
    (mkHandler (set_cfg (mkHandlerCfg _ (spec_id (cfg (core h))) true) (core h)) (registers h)).
Definition Handler_new (optimism_handle_register : HandlerCore -> HandlerCore) (c : HandlerCfg Fork) : EvmHandler :=
  if is_optimism c then optimism_with_spec optimism_handle_register (spec_id c) else mainnet_with_spec (spec_id c).

Definition pop_handle_register (h : EvmHandler) : option HandleRegisters * EvmHandler :=
  match last (registers h) with
  | None => (None, h)
  | Some out =>
      (Some out, append_registers (removelast (registers h)) (mainnet_with_spec (spec_id (cfg (core h)))))
  end.

(** The new handler, and the one that is left without registers. *)
Definition create_handle_generic (fork : Fork) (h : EvmHandler) : EvmHandler * EvmHandler :=
  (append_registers (registers h) (mainnet_with_spec fork), mkHandler (core h) []).

Definition modify_spec_id (fork : Fork) (h : EvmHandler) : EvmHandler :=
  if decide (spec_id (cfg (core h)) = fork) then h
  else
    let handler := append_registers (registers h) (mainnet_with_spec fork) in
    mkHandler (set_cfg (mkHandlerCfg _ fork (is_optimism (cfg (core h)))) (core handler)) (registers handler).

(** ** [evm.rs] over a table of handlers *)

Context (h : HandlerCore).
Abbreviation exec := (execution h).

(** A frame of the call stack that returns. *)
Definition return_frame (frame : Frame) (result : InterpreterResult) : HM FrameResult :=
  match frame with
  | Frame_Call range d => o ← ex_call_return exec range d result; mret (FR_Call o)
  | Frame_Create address d => o ← ex_create_return exec address d result; mret (FR_Create o)
  | Frame_EOFCreate address range d => o ← ex_eofcreate_return exec address range d result; mret (FR_EOFCreate o)
  end.

Definition act (next_action : InterpreterAction) (top : Frame) (rest : list Frame) (memory : SharedMemory)
  : HM (FrameOrResult * LoopState) :=
  match next_action with
  | IA_Call inputs => r ← ex_call exec inputs; mret (r, mkLoop (top :: rest) memory)
  | IA_Create inputs => r ← ex_create exec inputs; mret (r, mkLoop (top :: rest) memory)
  | IA_EOFCreate inputs => r ← ex_eofcreate exec inputs; mret (r, mkLoop (top :: rest) memory)
  | IA_Return result => r ← return_frame top result; mret (FOR_Result r, mkLoop rest (free_context memory))
  | IA_None => lift Panic
  end.

Definition insert_result (result : FrameResult) (top : Frame) (memory : SharedMemory) : HM (Frame * SharedMemory) :=
  match result with
  | FR_Call o => ex_insert_call_outcome exec top memory o
  | FR_Create o => top ← ex_insert_create_outcome exec top o; mret (top, memory)
  | FR_EOFCreate o => top ← ex_insert_eofcreate_outcome exec top o; mret (top, memory)
  end.

Definition settle (fr : FrameOrResult) (s : LoopState) : HM (FrameResult + LoopState) :=
  match fr with
  | FOR_Frame frame => mret (inr (mkLoop (frame :: call_stack s) (new_context (loop_memory s))))
  | FOR_Result result =>
      match call_stack s with
      | [] => mret (inl result)
      | top :: rest =>
          '(top, memory) ← insert_result result top (loop_memory s);
          mret (inr (mkLoop (top :: rest) memory))
      end
  end.

Definition loop_step_with (s : LoopState) : HM (FrameResult + LoopState) :=
  match call_stack s with
  | [] => lift Panic
  | top :: rest =>
      '(next_action, top, memory) ← ex_execute_frame exec top (loop_memory s) (instruction_table h);
      _ ← on_context (on_evm take_error);
      '(fr, s) ← act next_action top rest memory;
      settle fr s
  end.

Fixpoint frames_loop_with (fuel : nat) (s : LoopState) : HM (option FrameResult) :=
  match fuel with
  | O => mret None
  | S fuel =>
      r ← loop_step_with s;
      match r with
      | inl result => mret (Some result)
      | inr s => frames_loop_with fuel s
      end
  end.

Definition run_the_loop_with (fuel : nat) (first_frame : Frame) : HM (option FrameResult) :=
  frames_loop_with fuel (mkLoop [first_frame] (new_context SharedMemory_new)).

Definition preverify_with : HM Z :=
  env ← context_env;
  _ ← lift (vh_env (validation h) env);
  initial_gas_spend ← lift (vh_initial_tx_gas (validation h) env);
  _ ← vh_tx_against_state (validation h);
  mret initial_gas_spend.

Definition enter_with (gas_limit : Z) : HM FrameOrResult :=
  env ← context_env;
  match transact_to (tx env) with
  | TT_Call _ => inputs ← lift (unwrap (CallInputs_new (tx env) gas_limit)); ex_call exec inputs
  | TT_Create => inputs ← lift (unwrap (CreateInputs_new (tx env) gas_limit)); ex_create exec inputs
  end.

Definition run_entered_with (fuel : nat) (fr : FrameOrResult) : HM (option FrameResult) :=
  match fr with FOR_Frame f => run_the_loop_with fuel f | FOR_Result r => mret (Some r) end.

Definition finish_with (result : FrameResult) : HM ResultAndState :=
  result ← ex_last_frame_return exec result;
  _ ← po_reimburse_caller (post_execution h) (frame_gas result);
  _ ← po_reward_beneficiary (post_execution h) (frame_gas result);
  po_output (post_execution h) result.

(** [EvmContext::set_precompiles]. *)
Definition set_context_precompiles (ps : ContextPrecompiles) : HM unit :=
  _ ← on_context (on_inner (set_precompiles ps)); modify (fun s => (s.1, (ps, s.2.2))).

Definition execute_with (fuel : nat) (initial_gas_spend : Z) : HM (option ResultAndState) :=
  _ ← ph_load_accounts (pre_execution h);
  _ ← set_context_precompiles (ph_load_precompiles (pre_execution h));
  _ ← ph_deduct_caller (pre_execution h);
  env ← context_env;
  fr ← enter_with (wrapping_sub 64 (tx_gas_limit (tx env)) initial_gas_spend);
  result ← run_entered_with fuel fr;
  match result with
  | None => mret None
  | Some result => r ← finish_with result; mret (Some r)
  end.

(** [post_execution().end], when the fuel did not run out. *)
Definition end_with (m : HM (option ResultAndState)) : HM (option ResultAndState) :=
  r ← attempt m;
  match r with
  | inr None => mret None
  | inr (Some r) => r ← po_end (post_execution h) (inr r); mret (Some r)
  | inl e => r ← po_end (post_execution h) (inl e); mret (Some r)
  end.

Definition clear_with : M FullContext Empty_set unit := po_clear (post_execution h).
(** [clear] after a computation, or after its error alone. *)
Definition clearing {A} (always : bool) (m : HM A) : HM A := fun c =>
  match m c with
  | (Panic, c) => (Panic, c)
  | (r, c) =>
      if always || match r with Err _ => true | _ => false end then
        match clear_with c with (Ok _, c) => (r, c) | (_, c) => (Panic, c) end
      else (r, c)
  end.

Definition preverify_transaction_with : HM unit := clearing true (_ ← preverify_with; mret tt).
Definition transact_preverified_with (fuel : nat) : HM (option ResultAndState) :=
  initial_gas_spend ← clearing false (env ← context_env; lift (vh_initial_tx_gas (validation h) env));
  clearing true (end_with (execute_with fuel initial_gas_spend)).
Definition transact_with (fuel : nat) : HM (option ResultAndState) :=
  initial_gas_spend ← clearing false preverify_with;
  clearing true (end_with (execute_with fuel initial_gas_spend)).
End handlers.

(** ** The table of the main network *)

Section mainnet.
Context {DB DbErr : Type} `{HDB : Database DB DbErr} `{HK : Keccak} `{HC : CreateAddress}.
Context {EXT Fork : Type} `{HF : !HardForks Fork (DB := DB) (DbErr := DbErr)} (fork : Fork).
Abbreviation Ctx := (EvmContext (DB := DB) (DbErr := DbErr)).
Abbreviation CM := (M Ctx (EVMError DbErr)).
Abbreviation CtxM := (M (JournaledState * DB) (EVMError DbErr)).
Abbreviation HM := (M (FullContext (DB := DB) (DbErr := DbErr) (EXT := EXT)) (EVMError DbErr)).
Abbreviation Rest := (ContextPrecompiles (DB := DB) * EXT)%type.
Abbreviation mainnet := (mainnet_core (DbErr := DbErr) (EXT := EXT) frame_fuel fork).

(** [m'] does what [m] does, with the rest of the context as it is. *)
Definition same_at (x : Rest) {A} (m' : HM A) (m : CM A) : Prop :=
  forall c, m' (c, x) = let '(r, c') := m c in (r, (c', x)).
(** And so it does in an environment that stays. *)
Definition same_in (x : Rest) (env : Env) {A} (m' : HM A) (m : CM A) : Prop :=
  forall s, let '(r, c') := m (env, s) in c'.1 = env /\ m' ((env, s), x) = (r, (c', x)).

Section at_x.
Context (x : Rest).
Lemma same_bind {A B} (m' : HM A) m (f' : A -> HM B) f :
  same_at x m' m -> (forall a, same_at x (f' a) (f a)) -> same_at x (m' ≫= f') (m ≫= f).
Proof. intros Hm Hf c. unfold mbind, M_bind. rewrite Hm. destruct (m c) as [[a|e|] c1]; [apply Hf|done..]. Qed.
Lemma same_ret {A} (a : A) : same_at x (mret a) (mret a).
Proof. done. Qed.
Lemma same_lift {A} (o : outcome (EVMError DbErr) A) : same_at x (lift o) (lift o).
Proof. done. Qed.
Lemma same_context {A} (m : CM A) : same_at x (on_context m) m.
Proof. intros c. unfold on_context, zoom. cbn [fst snd]. by destruct (m c). Qed.
Lemma same_main {A} (f : Env -> CtxM A) : same_at x (main f) ('(env, _) ← get; on_inner (f env)).
Proof. intros [env s]. unfold main, mbind, M_bind, context_env, gets, get. cbn [fst snd]. apply (same_context (on_inner (f env))). Qed.
Lemma same_env {A} (f' : Env -> HM A) f :
  (forall env, same_at x (f' env) (f env)) -> same_at x (env ← context_env; f' env) ('(env, _) ← get; f env).
Proof. intros Hf [env s]. apply Hf. Qed.

Lemma same_in_bind env {A B} (m' : HM A) m (f' : A -> HM B) f :
  same_in x env m' m -> (forall a, same_in x env (f' a) (f a)) -> same_in x env (m' ≫= f') (m ≫= f).
Proof.
  intros Hm Hf s. unfold mbind, M_bind. specialize (Hm s). destruct (m (env, s)) as [[a|e|] [env' s1]]; destruct Hm as [He ->];
    cbn [fst] in He; subst env'; [apply Hf|done..].
Qed.
Lemma same_in_main env {A} (f : Env -> CtxM A) : same_in x env (main f) (on_inner (f env)).
Proof.
  intros s. unfold main, mbind, M_bind, context_env, gets, on_context, on_inner, on_evm, zoom. cbn [fst snd].
  by destruct (on_ctx (f env) s).
Qed.
Lemma same_in_evm env {A} (m : M (JournaledState * DB * option (EVMError DbErr)) (EVMError DbErr) A) :
  same_in x env (on_context (on_evm m)) (on_evm m).
Proof. intros s. unfold on_context, on_evm, zoom. cbn [fst snd]. by destruct (m s). Qed.
Lemma same_in_lift env {A} (o : outcome (EVMError DbErr) A) : same_in x env (lift o) (lift o).
Proof. done. Qed.
(** A computation that reads the environment once. *)
Lemma same_once {A} (f' : Env -> HM A) f :
  (forall env, same_in x env (f' env) (f env)) -> same_at x (env ← context_env; f' env) ('(env, _) ← get; f env).
Proof.
  intros Hf [env s]. specialize (Hf env s). unfold mbind, M_bind, context_env, gets, get. cbn [fst snd].
  destruct (f env (env, s)) as [r c']. apply Hf.
Qed.
End at_x.
#[local] Hint Resolve same_ret same_lift same_context same_main : lifted.

Section at_loaded.
Context (external : EXT) (ps : ContextPrecompiles (DB := DB)).
Abbreviation same := (same_at (ps, external)).

Lemma same_execute f memory :
  same (ex_execute_frame (execution mainnet) f memory (instruction_table mainnet)) (execute_frame (fork_spec fork) f memory).
Proof.
  intros c. unfold execute_frame. cbn [execution mainnet_core ExecutionHandler_new ex_execute_frame instruction_table].
  unfold main_execute_frame, new_plain. cbv zeta. unfold FullContext. rewrite run_with_plain.
  rewrite (lifted_run (frame_fuel (frame_interpreter f)) (fork_spec fork) memory (frame_interpreter f) c (ps, external)).
  destruct (run _ _ _ _) as [[[a|]| |] [i c1]]; [|done..]. by destruct (take_memory i).
Qed.

Ltac compute_same :=
  intros [env [s err]]; unfold main, mbind, M_bind, context_env, gets, get, on_context, on_inner, on_evm, on_ctx, zoom, mret, M_ret;
  cbn [fst snd].

Lemma same_return f r : same (return_frame mainnet f r) (frame_return (fork_spec fork) f r).
Proof.
  destruct f; unfold return_frame; cbn [execution mainnet_core ExecutionHandler_new ex_call_return ex_create_return ex_eofcreate_return];
    unfold frame_return; compute_same; cbn [Context.frame_data].
  - by destruct (call_return _ _ _) as [[] ?].
  - by destruct (create_return _ _ _ _ _ _) as [[] ?].
  - by destruct (eofcreate_return _ _ _ _) as [[] ?].
Qed.

Lemma same_act a top rest memory : same (act mainnet a top rest memory) (handle_action ps (fork_spec fork) a top rest memory).
Proof.
  destruct a as [inputs|inputs|inputs|result|]; unfold act;
    cbn [execution mainnet_core ExecutionHandler_new ex_call ex_create ex_eofcreate]; unfold handle_action.
  - compute_same. by destruct (make_call_frame _ _ _ _) as [[] ?].
  - compute_same. by destruct (make_create_frame _ _ _) as [[] ?].
  - compute_same. by destruct (make_eofcreate_frame _ _ _) as [[] ?].
  - intros [env s]. unfold mbind, M_bind, get. rewrite same_return. by destruct (frame_return _ _ _ _) as [[] ?].
  - by intros [env s].
Qed.

Lemma same_insert r top memory : same (insert_result mainnet r top memory) (insert_outcome r top memory).
Proof.
  destruct r; unfold insert_result;
    cbn [execution mainnet_core ExecutionHandler_new ex_insert_call_outcome ex_insert_create_outcome ex_insert_eofcreate_outcome];
    unfold insert_outcome, main_insert; compute_same; destruct err; try done; unfold take_error, mret, M_ret, lift; cbn [snd].
  - by destruct (pure_outcome (insert_call_outcome _ _)) as [[? [? ?]]| |].
  - by destruct (pure_outcome (insert_create_outcome _ _)) as [[]| |].
  - by destruct (pure_outcome (insert_eofcreate_outcome _ _)) as [[]| |].
Qed.

Lemma same_settle fr l : same (settle mainnet fr l) (handle_result fr l).
Proof.
  destruct fr as [f|r]; [apply same_ret|]. cbn [settle handle_result]. destruct (call_stack l) as [|top rest]; [apply same_ret|].
  apply same_bind; [apply same_insert|]. intros [f memory]. apply same_ret.
Qed.

Lemma same_step l : same (loop_step_with mainnet l) (loop_step ps (fork_spec fork) l).
Proof.
  unfold loop_step_with, loop_step. destruct (call_stack l) as [|top rest]; [apply same_lift|].
  apply same_bind; [apply same_execute|]. intros [[a f] memory].
  apply same_bind; [apply same_context|intros _].
  apply same_bind; [apply same_act|]. intros [fr l']. apply same_settle.
Qed.

Lemma same_loop fuel l : same (frames_loop_with mainnet fuel l) (frames_loop ps fuel (fork_spec fork) l).
Proof.
  revert l. induction fuel as [|fuel IH]; intros l; [apply same_ret|]. cbn [frames_loop_with frames_loop].
  apply same_bind; [apply same_step|]. intros [r|l']; [apply same_ret|apply IH].
Qed.
End at_loaded.

(** The precompiles of the main network. *)
Abbreviation ps_of := (fun _ : SpecId => fork_precompiles_of fork).
Abbreviation loaded := (load_precompiles (DbErr := DbErr) ps_of (fork_spec fork)).

Lemma same_preverify external ps : same_at (ps, external) (preverify_with mainnet) (preverify_transaction_inner (fork_spec fork)).
Proof.
  apply same_once. intros env. apply same_in_bind; [apply same_in_lift|intros _].
  apply same_in_bind; [apply same_in_lift|intros g].
  apply same_in_bind; [apply same_in_main|intros _]. apply (same_in_lift _ env (Ok g)).
Qed.

Lemma same_enter external g : same_at (loaded, external) (enter_with mainnet g) (first_frame ps_of (fork_spec fork) g).
Proof.
  apply same_once. intros env. destruct (transact_to (tx env));
    (apply same_in_bind; [apply same_in_lift|intros inputs]); [|apply same_in_main].
  intros s. pose proof (same_in_main (loaded, external) env (fun env => make_call_frame loaded env inputs) s) as H. exact H.
Qed.

Lemma same_run external fuel fr :
  same_at (loaded, external) (run_entered_with mainnet fuel fr) (run_first_frame ps_of fuel (fork_spec fork) fr).
Proof. destruct fr as [f|r]; [|apply same_ret]. apply same_loop. Qed.

Lemma same_finish external ps r : same_at (ps, external) (finish_with mainnet r) (finish_transaction (fork_spec fork) r).
Proof.
  intros c. refine (same_once (ps, external)
    (fun env => let result := last_frame_return (fork_spec fork) env r in
       _ ← main (fun env => reimburse_caller env (frame_gas result));
       _ ← main (fun env => reward_beneficiary (fork_spec fork) env (frame_gas result));
       on_context (on_evm (output result))) _ _ c).
  intros env. cbv zeta. apply same_in_bind; [apply same_in_main|intros _].
  apply same_in_bind; [apply same_in_main|intros _]. apply same_in_evm.
Qed.

(** And so it does from [c], with a rest of the context that may differ at the end. *)
Definition same_from (external : EXT) (ps : ContextPrecompiles (DB := DB)) {A} (m' : HM A) (m : CM A) (c : Ctx) : Prop :=
  exists ps', m' (c, (ps, external)) = let '(r, c') := m c in (r, (c', (ps', external))).
Lemma same_from_bind external ps ps1 {A B} (m' : HM A) (m : CM A) (f' : A -> HM B) f c :
  m' (c, (ps, external)) = (let '(r, c') := m c in (r, (c', (ps1, external)))) ->
  (forall a c1, m c = (Ok a, c1) -> same_from external ps1 (f' a) (f a) c1) ->
  same_from external ps (m' ≫= f') (m ≫= f) c.
Proof.
  intros Hm Hf. unfold same_from, mbind, M_bind. rewrite Hm. destruct (m c) as [[a|e|] c1]; [by apply Hf|by exists ps1..].
Qed.
Lemma same_from_at external ps {A} (m' : HM A) m c : same_at (ps, external) m' m -> same_from external ps m' m c.
Proof. intros Hm. exists ps. apply Hm. Qed.
Lemma same_in_from external ps env {A B} (m' : HM A) (m : CM A) (f' : A -> HM B) f s :
  same_in (ps, external) env m' m -> (forall a s1, same_from external ps (f' a) (f a) (env, s1)) ->
  same_from external ps (m' ≫= f') (m ≫= f) (env, s).
Proof.
  intros Hm Hf. specialize (Hm s). apply (same_from_bind _ _ ps).
  - destruct (m (env, s)). exact (proj2 Hm).
  - intros a [e1 s1] Hs. rewrite Hs in Hm. destruct Hm as [He _]. cbn [fst] in He. subst e1. apply Hf.
Qed.

Lemma same_from_env external ps {A} (f' : Env -> HM A) m env s :
  same_from external ps (f' env) m (env, s) -> same_from external ps (context_env ≫= f') m (env, s).
Proof. done. Qed.

Lemma same_set_precompiles (external : EXT) ps ps1 (c : Ctx) :
  set_context_precompiles (DbErr := DbErr) ps1 (c, (ps, external)) =
    let '(r, c') := on_inner (DbErr := DbErr) (set_precompiles ps1) c in (r, (c', (ps1, external))).
Proof. by destruct c as [env [[j d] err]]. Qed.
Lemma set_precompiles_env (ps1 : ContextPrecompiles (DB := DB)) (c : Ctx) u c1 :
  on_inner (DbErr := DbErr) (set_precompiles ps1) c = (Ok u, c1) -> c1.1 = c.1.
Proof. destruct c as [env [[j d] err]]. by intros [= _ <-]. Qed.

Lemma same_execution external ps fuel g c :
  same_from external ps (execute_with mainnet fuel g) (transact_preverified_inner ps_of fuel (fork_spec fork) g) c.
Proof.
  destruct c as [env s]. unfold execute_with, transact_preverified_inner.
  change (same_from external ps ?m' ?m (env, s)) with (same_from external ps m' (fun c => m (env, c.2)) (env, s)).
  apply same_in_from; [apply same_in_main|intros _ s1].
  change (ph_load_precompiles (pre_execution mainnet)) with loaded.
  apply (same_from_bind _ _ loaded); [apply same_set_precompiles|]. intros u [e c1] Hc.
  apply set_precompiles_env in Hc. cbn [fst] in Hc. subst e.
  apply same_in_from; [apply same_in_main|intros _ s2].
  apply same_from_env, same_from_at. apply (same_bind _ (enter_with mainnet _)); [apply same_enter|intros fr].
  apply same_bind; [apply same_run|]. intros [r|]; [|apply same_ret].
  apply same_bind; [apply same_finish|intros x; apply same_ret].
Qed.

Lemma clear_mainnet c x : clear_with mainnet (c, x) = (Ok tt, ((on_evm clear_context c).2, x)).
Proof. by destruct c as [env [[j d] err]]. Qed.

(** The computations of a transaction, and their ends. *)
Lemma same_clearing external {A} (m' : HM A) m c ps :
  same_from external ps m' m c ->
  same_from external ps (clearing mainnet true m') (then_clear m) c /\
  same_from external ps (clearing mainnet false m') (clear_on_error m) c.
Proof.
  intros (ps' & Hm). unfold clearing, then_clear, clear_on_error. split; exists ps'; rewrite Hm;
    destruct (m c) as [[a|e|] c1]; cbn [orb]; rewrite ?clear_mainnet; try done.
Qed.
Lemma same_end external ps m' m c :
  same_from external ps m' m c -> same_from external ps (end_with mainnet m') m c.
Proof.
  intros (ps' & Hm). exists ps'. unfold end_with, attempt, mbind, M_bind. rewrite Hm.
  by destruct (m c) as [[[a|]|e|] c1].
Qed.
Lemma same_spend external ps c (m' : HM Z) (m : CM Z) fuel :
  same_at (ps, external) m' m ->
  same_from external ps
    (g ← clearing mainnet false m'; clearing mainnet true (end_with mainnet (execute_with mainnet fuel g)))
    (g ← clear_on_error m; then_clear (transact_preverified_inner ps_of fuel (fork_spec fork) g)) c.
Proof.
  intros Hm. apply (same_from_bind _ _ ps).
  - unfold clearing, clear_on_error. rewrite (Hm c). destruct (m c) as [[a|e|] c1]; cbn [orb]; by rewrite ?clear_mainnet.
  - intros g c1 _. by apply same_clearing, same_end, same_execution.
Qed.

(** The table of the main network is the machine of [Evm.v]: a transaction, with or
    without its validation, has the result and leaves the context that it has and
    leaves there, whatever precompiles were loaded before, and the external part
    is never touched. *)
Theorem mainnet_table_is_the_machine external ps fuel c :
  same_from external ps (transact_with mainnet fuel) (transact ps_of fuel (fork_spec fork)) c /\
  same_from external ps (transact_preverified_with mainnet fuel) (transact_preverified ps_of fuel (fork_spec fork)) c /\
  same_from external ps (preverify_transaction_with mainnet) (preverify_transaction (fork_spec fork)) c.
Proof.
  split_and!.
  - apply same_spend, same_preverify.
  - apply same_spend. apply same_env. intros env. apply same_lift.
  - apply same_clearing, same_from_at, same_bind; [apply same_preverify|]. intros g. apply same_ret.
Qed.
End mainnet.

(** ** Registers *)

Section registers.
Context {DB DbErr : Type} `{HDB : Database DB DbErr} `{HK : Keccak} `{HC : CreateAddress}.
Context {EXT Fork : Type} `{HF : !HardForks Fork (DB := DB) (DbErr := DbErr)} (steps : Interpreter -> nat).
Abbreviation Core := (HandlerCore (DB := DB) (DbErr := DbErr) (EXT := EXT) (Fork := Fork)).
Abbreviation Registers := (HandleRegisters (DB := DB) (DbErr := DbErr) (EXT := EXT) (Fork := Fork)).
Abbreviation Handler := (EvmHandler (DB := DB) (DbErr := DbErr) (EXT := EXT) (Fork := Fork)).
Implicit Types (h : Core) (e : Handler) (r : Registers).

Definition set_flag (b : bool) h : Core := set_cfg (mkHandlerCfg _ (spec_id (cfg h)) b) h.
(** A register that neither changes the configuration nor asks for the flag of the
    rollup. *)
Record lawful r : Prop := {
  lawful_cfg h : cfg (register r h) = cfg h;
  lawful_flag b h : register r (set_flag b h) = set_flag b (register r h);
}.

(** The registers again, on the main network of a fork. *)
Definition replayed (rs : list Registers) (fork : Fork) : Core := core (append_registers rs (mainnet_with_spec steps fork)).
Definition built e : Prop :=
  core e = set_flag (is_optimism (cfg (core e))) (replayed (registers e) (spec_id (cfg (core e)))).

(** What a handler goes through, over lawful registers. *)
Inductive handled : Handler -> Prop :=
  | handled_new f c : lawful (HR_Plain f) -> handled (Handler_new steps f c)
  | handled_append r e : lawful r -> handled e -> handled (append_handler_register r e)
  | handled_pop e : handled e -> handled (pop_handle_register steps e).2
  | handled_generic fork e : handled e -> handled (create_handle_generic steps fork e).1
  | handled_modify fork e : handled e -> handled (modify_spec_id steps fork e).

Lemma set_flag_twice b b' h : set_flag b (set_flag b' h) = set_flag b h.
Proof. done. Qed.
Lemma set_flag_own h : set_flag (is_optimism (cfg h)) h = h.
Proof. by destruct h as [[]]. Qed.

Lemma handler_eq e e' : core e = core e' -> registers e = registers e' -> e = e'.
Proof. destruct e, e'. cbn. by intros -> ->. Qed.

Lemma append_core rs e : core (append_registers rs e) = foldl (fun h r => register r h) (core e) rs.
Proof. unfold append_registers. revert e. induction rs as [|r rs IH]; intros e; [done|]. cbn [foldl]. by rewrite IH. Qed.
Lemma append_list rs e : registers (append_registers rs e) = registers e ++ rs.
Proof.
  unfold append_registers. revert e. induction rs as [|r rs IH]; intros e; cbn [foldl]; [by rewrite app_nil_r|].
  rewrite IH. cbn. by rewrite <- app_assoc.
Qed.
Lemma replayed_snoc rs r fork : replayed (rs ++ [r]) fork = register r (replayed rs fork).
Proof. unfold replayed. by rewrite !append_core, foldl_app. Qed.

Lemma folded_cfg rs h : Forall lawful rs -> cfg (foldl (fun h r => register r h) h rs) = cfg h.
Proof. intros Hr. revert h. induction Hr as [|r rs [Hc _] _ IH]; intros h; [done|]. cbn [foldl]. by rewrite IH, Hc. Qed.
Lemma replayed_cfg rs fork : Forall lawful rs -> cfg (replayed rs fork) = HandlerCfg_new fork.
Proof. intros Hr. unfold replayed. by rewrite append_core, folded_cfg. Qed.
(** A replay is built, of the registers it is given. *)
Lemma replayed_built rs fork : Forall lawful rs -> built (append_registers rs (mainnet_with_spec steps fork)).
Proof.
  intros Hr. unfold built. change (core (append_registers rs (mainnet_with_spec steps fork))) with (replayed rs fork).
  rewrite append_list, replayed_cfg by done. cbn [registers mainnet_with_spec app spec_id is_optimism HandlerCfg_new].
  symmetry. pose proof (set_flag_own (replayed rs fork)) as H. by rewrite replayed_cfg in H by done.
Qed.

Lemma append_built r e : lawful r -> built e -> built (append_handler_register r e).
Proof.
  intros [Hc Hf] He. unfold built, append_handler_register in *. cbn [core registers]. rewrite Hc, replayed_snoc, <- Hf.
  by rewrite <- He.
Qed.

Lemma handled_built e : handled e -> Forall lawful (registers e) /\ built e.
Proof.
  induction 1 as [f c Hf|r e Hr _ [IHr IHe]|e _ [IHr IHe]|fork e _ [IHr IHe]|fork e _ [IHr IHe]].
  - unfold Handler_new. destruct (is_optimism c); [|by split; [constructor|]].
    split; [by apply Forall_singleton|]. by apply (append_built (HR_Plain f)).
  - split; [|by apply append_built]. apply Forall_app. by rewrite Forall_singleton.
  - unfold pop_handle_register. destruct (last _) as [r|]; [|done]. cbn [snd].
    assert (Hl : Forall lawful (removelast (registers e))).
    { rewrite removelast_firstn_len. by apply Forall_take. }
    split; [by rewrite append_list|by apply replayed_built].
  - cbn [create_handle_generic fst]. split; [by rewrite append_list|by apply replayed_built].
  - unfold modify_spec_id. destruct (decide _); [done|]. cbv zeta. cbn [registers]. split; [by rewrite append_list|].
    unfold built. cbn [core registers cfg set_cfg spec_id is_optimism]. rewrite append_list. cbn [registers mainnet_with_spec app].
    unfold set_flag, replayed. cbn. rewrite append_core, folded_cfg by done. done.
Qed.

(** C23: A handler is the replay of its registers on the main network of its fork: the
    mainnet handlers of [spec_id], changed by the registers of the list, the first
    one first, whatever registers were appended and popped and whatever forks were
    set meanwhile, over registers that leave the configuration alone. To pop undoes
    to append, but the flag of the rollup is lost, and to set another fork and the
    first one again changes nothing. *)
Theorem handlers_replay_their_registers e r fork :
  handled e -> lawful r ->
  built e /\
  pop_handle_register steps (append_handler_register r e) = (Some r, mkHandler (set_flag false (core e)) (registers e)) /\
  modify_spec_id steps (spec_id (cfg (core e))) (modify_spec_id steps fork e) = e.
Proof.
  intros He Hr. apply handled_built in He as [Hl He]. split; [done|]. split.
  - unfold pop_handle_register. cbn [append_handler_register registers core]. rewrite last_snoc, removelast_last. f_equal.
    rewrite (lawful_cfg _ Hr). apply handler_eq; [|by rewrite append_list].
    rewrite He. cbn [cfg set_cfg set_flag spec_id]. fold (replayed (registers e) (spec_id (cfg (core e)))).
    rewrite set_flag_twice. pose proof (set_flag_own (replayed (registers e) (spec_id (cfg (core e))))) as Ho.
    rewrite replayed_cfg in Ho |- * by done. symmetry. exact Ho.
  - unfold modify_spec_id at 2. destruct (decide (_ = fork)) as [|Hne]; [by unfold modify_spec_id; rewrite decide_True|].
    unfold modify_spec_id. cbn [core registers cfg set_cfg spec_id is_optimism]. rewrite decide_False by done.
    apply handler_eq; [|by rewrite !append_list]. rewrite append_list. cbn [registers mainnet_with_spec app].
    etransitivity; [|symmetry; exact He]. cbn [core]. unfold set_flag. by rewrite replayed_cfg.
Qed.
End registers.

(** ** The register of the rollup *)

Section optimism.
Context {DB DbErr : Type} `{HDB : Database DB DbErr} `{HK : Keccak} `{HC : CreateAddress}.
Context `{HCr : Crypto} `{HP : P256} (features : Features) (op : OptimismFields).
Abbreviation Ctx := (EvmContext (DB := DB) (DbErr := DbErr)).
Abbreviation OpM := (M (Ctx * option L1BlockInfo) (EVMError DbErr)).
Abbreviation Full := (FullContext (DB := DB) (DbErr := DbErr) (EXT := option L1BlockInfo)).
Abbreviation HM := (M Full (EVMError DbErr)).

(** The forks of the [optimism] feature. *)
#[export] Instance rollup_forks : HardForks OpSpecId (DB := DB) (DbErr := DbErr) := {|
  fork_spec := ethereum_of;
  fork_precompiles_of spec := ContextPrecompiles_from (Precompiles_new features (op_from_spec_id spec));
|}.

(** The information on the first layer is the external part of the context here. *)
Definition on_rollup {A} (m : OpM A) : HM A := zoom (fun s => (s.1, s.2.2)) (fun t s => (t.1, (s.2.1, t.2))) m.
Definition rollup {A} (m : Env -> OpM A) : HM A := env ← context_env; on_rollup (m env).
Definition outcome_of {A} (r : sum (EVMError DbErr) A) : OpM (option A) :=
  match r with inl e => fail e | inr a => mret (Some a) end.

Definition optimism_handle_register (h : HandlerCore (EXT := option L1BlockInfo) (Fork := OpSpecId)) : HandlerCore :=
  let spec := spec_id (cfg h) in
  let exec := execution h in
  mkCore (cfg h) (instruction_table h)
    (mkValidation (vh_initial_tx_gas (validation h)) (rollup (op_tx_against_state op spec)) (op_validate_env spec op))
    (mkPreExecution (op_load_precompiles features spec) (rollup (op_load_accounts op spec)) (rollup (op_deduct_caller op spec)))
    (mkPostExecution (po_reimburse_caller (post_execution h)) (fun g => rollup (fun env => op_reward_beneficiary op spec env g))
      (fun r => on_rollup (op_output op spec r))
      (fun r => o ← on_rollup (op_end op spec (outcome_of r)); lift (unwrap o)) (po_clear (post_execution h)))
    (mkExecution (fun r => env ← context_env; mret (op_last_frame_return spec op env r))
      (ex_execute_frame exec) (ex_call exec) (ex_call_return exec) (ex_insert_call_outcome exec) (ex_create exec)
      (ex_create_return exec) (ex_insert_create_outcome exec) (ex_eofcreate exec) (ex_eofcreate_return exec)
      (ex_insert_eofcreate_outcome exec)).

Lemma optimism_register_lawful : lawful (HR_Plain optimism_handle_register).
Proof. split; [done|]. intros b h. by destruct h as [[]]. Qed.

(** *** The environment stays *)

Definition same_env_of (c c' : Ctx) : Prop := c'.1 = c.1.
#[local] Instance same_env_preorder : PreOrder same_env_of.
Proof. split; unfold same_env_of; [done|congruence]. Qed.
Lemma host_try_env {A} (m : M (JournaledState * DB) (EVMError DbErr) A) : host_keeps same_env_of (host_try m).
Proof. intros c r c' H. unfold host_try in H. destruct (m c.2.1) as [[]]; by injection H as _ <-. Qed.
Lemma host_do_env {A} (m : M JournaledState Empty_set A) : host_keeps same_env_of (host_do m).
Proof. intros c r c' H. unfold host_do in H. destruct (m c.2.1.1). by injection H as _ <-. Qed.
#[local] Instance env_read : HostReads same_env_of.
Proof.
  split; intros; try apply host_try_env; [|apply host_do_env].
  intros c r c' H. cbn [h_block_hash context_host] in H. unfold context_block_hash, mbind, M_bind, gets in H.
  repeat case_match; try (by injection H as _ <-). by apply host_try_env in H.
Qed.
#[local] Instance env_written : HostWrites same_env_of.
Proof. split; intros; first [apply host_try_env|apply host_do_env]. Qed.

Abbreviation fixed m := (moving same_env_of m).
Lemma fixed_evm {A} (m : M (JournaledState * DB * option (EVMError DbErr)) (EVMError DbErr) A) : fixed (on_evm m).
Proof. intros c r c' H. unfold on_evm, zoom in H. destruct (m c.2). by injection H as _ <-. Qed.
Lemma fixed_get : fixed (get : M Ctx (EVMError DbErr) Ctx).
Proof. by intros c r c' [= _ <-]. Qed.
#[local] Hint Resolve fixed_evm fixed_get : moving.
Lemma fixed_inner {A} (m : M (JournaledState * DB) (EVMError DbErr) A) : fixed (on_inner m).
Proof. apply fixed_evm. Qed.
#[local] Hint Resolve fixed_inner : moving.
Lemma fixed_execute sp f memory : fixed (execute_frame sp f memory).
Proof.
  intros c r c' H. unfold execute_frame in H. destruct (run _ sp memory (frame_interpreter f, c)) as [r1 [i1 c1]] eqn:Hr.
  apply (moves_run same_env_of) in Hr. unfold host_moves in Hr. cbn [snd] in Hr.
  destruct r1 as [[a|]| |]; [|by injection H as _ <-..]. destruct (take_memory i1). by injection H as _ <-.
Qed.
#[local] Hint Resolve fixed_execute : moving.
Lemma fixed_loop ps fuel sp l : fixed (frames_loop (DbErr := DbErr) ps fuel sp l).
Proof.
  revert l. induction fuel as [|fuel IH]; intros l; cbn [frames_loop]; [solve_moving|].
  unfold loop_step, handle_action, handle_result, insert_outcome, frame_return. solve_moving.
Qed.

(** *** The transaction *)

(** In an environment that stays, [m'] does what [m] does. *)
Definition rolls (ps : ContextPrecompiles (DB := DB)) (env : Env) {A} (m' : HM A) (m : OpM A) : Prop :=
  forall s l1, let '(r, (c', l1')) := m ((env, s), l1) in
    c'.1 = env /\ m' ((env, s), (ps, l1)) = (r, (c', (ps, l1'))).

Section rolls.
Context (ps : ContextPrecompiles (DB := DB)) (env : Env).
Lemma rolls_bind {A B} (m' : HM A) (m : OpM A) (f' : A -> HM B) f :
  rolls ps env m' m -> (forall a, rolls ps env (f' a) (f a)) -> rolls ps env (m' ≫= f') (m ≫= f).
Proof.
  intros Hm Hf s l1. unfold mbind, M_bind. specialize (Hm s l1).
  destruct (m (env, s, l1)) as [[a|e|] [[env' s1] l2]]; destruct Hm as [He ->]; cbn [fst] in He; subst env'; [apply Hf|done..].
Qed.
Lemma rolls_ret {A} (a : A) : rolls ps env (mret a) (mret a).
Proof. by intros s l1. Qed.
Lemma rolls_lift {A} (o : outcome (EVMError DbErr) A) : rolls ps env (lift o) (lift o).
Proof. by intros s l1. Qed.
Lemma rolls_env {A} (f' : Env -> HM A) (m : OpM A) : rolls ps env (f' env) m -> rolls ps env (env ← context_env; f' env) m.
Proof. intros Hm s l1. apply Hm. Qed.
(** The environment stays in a computation of the rollup. *)
Definition op_fixed {A} (m : OpM A) : Prop := forall e c r c', m (c, e) = (r, c') -> c'.1.1 = c.1.
Lemma rolls_on {A} (m : OpM A) : op_fixed m -> rolls ps env (on_rollup m) m.
Proof.
  intros Hm s l1. specialize (Hm l1 (env, s)).
  change (on_rollup m (env, s, (ps, l1))) with (let '(r, t) := m (env, s, l1) in (r, (t.1, (ps, t.2)))).
  destruct (m (env, s, l1)) as [r [c' l1']] eqn:E. split; [exact (Hm _ _ E)|done].
Qed.
Lemma rolls_evm {A} (m : M Ctx (EVMError DbErr) A) (m' : HM A) :
  (forall l1, same_at (ps, l1) m' m) -> fixed m -> rolls ps env m' (on_evm_ctx m).
Proof.
  intros Hm Hf s l1. unfold on_evm_ctx, zoom. cbn [fst snd]. specialize (Hm l1 (env, s)).
  destruct (m (env, s)) as [r c'] eqn:H. apply Hf in H. split; [exact H|exact Hm].
Qed.
End rolls.

(** The computations of the rollup keep the environment. *)
Lemma op_fixed_bind {A B} (m : OpM A) (f : A -> OpM B) : op_fixed m -> (forall a, op_fixed (f a)) -> op_fixed (m ≫= f).
Proof.
  intros Hm Hf e c r c' H. apply M_bind_inv in H as [(a & [c1 e1] & H1 & H)|[(x & H & _)|[H _]]]; [|by eapply Hm..].
  etransitivity; [by eapply Hf|by apply Hm in H1].
Qed.
Lemma op_fixed_inner {A} (m : M (JournaledState * DB) (EVMError DbErr) A) : op_fixed (inner m).
Proof.
  intros e c r c' H. unfold inner, on_evm_ctx, zoom in H. cbn [fst snd] in H. destruct (on_inner m c) as [r1 c1] eqn:H1.
  apply fixed_inner in H1. by injection H as _ <-.
Qed.
Lemma op_fixed_evm {A} (m : M (JournaledState * DB * option (EVMError DbErr)) (EVMError DbErr) A) : op_fixed (on_evm_ctx (on_evm m)).
Proof.
  intros e c r c' H. unfold on_evm_ctx, zoom in H. cbn [fst snd] in H. destruct (on_evm m c) as [r1 c1] eqn:H1.
  apply fixed_evm in H1. by injection H as _ <-.
Qed.
Lemma op_fixed_attempt {A} (m : OpM A) : op_fixed m -> op_fixed (attempt m : OpM (sum (EVMError DbErr) A)).
Proof.
  intros Hm e c r c' H. unfold attempt in H. destruct (m (c, e)) as [r1 c1] eqn:H1. apply Hm in H1. by destruct r1; injection H as _ <-.
Qed.
Lemma op_fixed_pure {A} (m : OpM A) : (forall s, (m s).2.1 = s.1) -> op_fixed m.
Proof. intros Hm e c r c' H. specialize (Hm (c, e)). by rewrite H in Hm; cbn in Hm; rewrite Hm. Qed.
#[local] Hint Resolve op_fixed_inner op_fixed_evm op_fixed_attempt : moving.
#[local] Hint Extern 1 (op_fixed (mret _)) => by apply op_fixed_pure : moving.
#[local] Hint Extern 1 (op_fixed (fail _)) => by apply op_fixed_pure : moving.
#[local] Hint Extern 1 (op_fixed (lift _)) => by apply op_fixed_pure : moving.
#[local] Hint Extern 1 (op_fixed (modify _)) => by apply op_fixed_pure : moving.
#[local] Hint Extern 1 (op_fixed l1_block_info) => by apply op_fixed_pure : moving.
#[local] Hint Extern 1 (op_fixed get) => by apply op_fixed_pure : moving.
Ltac solve_op := repeat first [ solve [auto with moving] | (apply op_fixed_bind; [|intros ?]) | case_match ].

Context (spec : OpSpecId).
Lemma fixed_tx_against_state env : op_fixed (op_tx_against_state op spec env).
Proof. unfold op_tx_against_state. solve_op. Qed.
Lemma fixed_load_accounts env : op_fixed (op_load_accounts op spec env).
Proof. unfold op_load_accounts. solve_op. Qed.
Lemma fixed_deduct_caller env : op_fixed (op_deduct_caller op spec env).
Proof. unfold op_deduct_caller, update_caller. cbv zeta. solve_op. Qed.
Lemma fixed_reward env g : op_fixed (op_reward_beneficiary op spec env g).
Proof. unfold op_reward_beneficiary, pay_vault. solve_op. Qed.
Lemma fixed_output r : op_fixed (op_output op spec r).
Proof. unfold op_output. solve_op. Qed.
Lemma fixed_end m : op_fixed m -> op_fixed (op_end op spec m).
Proof. intros Hm. unfold op_end, failed_deposit. solve_op. Qed.

Abbreviation mainnet := (mainnet_core (DbErr := DbErr) (EXT := option L1BlockInfo) frame_fuel spec).
Abbreviation rolled := (core (optimism_with_spec frame_fuel optimism_handle_register spec)).
Abbreviation loaded := (op_load_precompiles (DB := DB) (DbErr := DbErr) features spec).

Lemma rolls_preverify ps env : rolls ps env (preverify_with rolled) (op_preverify_transaction_inner op spec env).
Proof.
  apply rolls_env. apply rolls_bind; [apply rolls_lift|intros _]. apply rolls_bind; [apply rolls_lift|intros g].
  apply rolls_bind; [apply rolls_env, rolls_on, fixed_tx_against_state|intros _; apply rolls_ret].
Qed.

Lemma rolls_main ps env {A} (f : Env -> M (JournaledState * DB) (EVMError DbErr) A) : rolls ps env (main f) (inner (f env)).
Proof. apply rolls_env, rolls_evm; [intros l1; apply same_context|apply fixed_inner]. Qed.

Lemma rolls_enter env g : rolls loaded env (enter_with rolled g) (op_first_frame features spec env g).
Proof.
  apply rolls_env. unfold op_first_frame. destruct (transact_to (tx env));
    (apply rolls_bind; [apply rolls_lift|intros inputs]); [|apply rolls_main].
  intros s l1. apply (rolls_main loaded env (fun env => make_call_frame loaded env inputs) s l1).
Qed.
Lemma rolls_loop env fuel fr : rolls loaded env (run_entered_with rolled fuel fr) (op_run_first_frame features fuel spec fr).
Proof.
  destruct fr as [f|r]; [|apply rolls_ret]. apply rolls_evm; [|apply fixed_loop]. intros l1.
  exact (same_loop spec l1 loaded fuel (mkLoop [f] (new_context SharedMemory_new))).
Qed.
Lemma rolls_finish ps env r : rolls ps env (finish_with rolled r) (op_finish_transaction op spec env r).
Proof.
  intros s l1. refine (rolls_bind ps env (po_reimburse_caller (post_execution rolled) _) _ (fun _ =>
    _ ← po_reward_beneficiary (post_execution rolled) _; po_output (post_execution rolled) _) _ _ _ s l1).
  - apply (rolls_main ps env (fun env => reimburse_caller env _)).
  - intros _. apply rolls_bind; [apply rolls_env, rolls_on, fixed_reward|intros _]. apply rolls_on, fixed_output.
Qed.

(** And so it does from a state, with other precompiles at the end. *)
Definition rolls_from (ps : ContextPrecompiles (DB := DB)) (env : Env) s l1 {A} (m' : HM A) (m : OpM A) : Prop :=
  let '(r, (c', l1')) := m ((env, s), l1) in
    c'.1 = env /\ exists ps', m' ((env, s), (ps, l1)) = (r, (c', (ps', l1'))).
Lemma rolls_rolls_from ps env s l1 {A} (m' : HM A) (m : OpM A) : rolls ps env m' m -> rolls_from ps env s l1 m' m.
Proof. intros Hm. unfold rolls_from. specialize (Hm s l1). destruct (m _) as [r [c' l1']]. destruct Hm. split; [done|by exists ps]. Qed.
Lemma rolls_from_bind ps env s l1 {A B} (m' : HM A) (m : OpM A) (f' : A -> HM B) f :
  rolls ps env m' m -> (forall a s l1, rolls_from ps env s l1 (f' a) (f a)) -> rolls_from ps env s l1 (m' ≫= f') (m ≫= f).
Proof.
  intros Hm Hf. unfold rolls_from, mbind, M_bind. specialize (Hm s l1).
  destruct (m (env, s, l1)) as [[a|e|] [[env' s1] l2]]; destruct Hm as [He ->]; cbn [fst] in He; subst env';
    [apply Hf|by split; [|exists ps]..].
Qed.
Lemma rolls_from_set ps ps1 env s l1 {B} (f' : unit -> HM B) f :
  (forall s, rolls_from ps1 env s l1 (f' tt) (f tt)) ->
  rolls_from ps env s l1 (set_context_precompiles ps1 ≫= f') (inner (set_precompiles ps1) ≫= f).
Proof. intros Hf. destruct s as [[j d] err]. apply (Hf ((set_warm (dom ps1) j, d), err)). Qed.

Lemma rolls_execution ps env fuel g s l1 :
  rolls_from ps env s l1 (execute_with rolled fuel g) (op_transact_preverified_inner features op fuel spec env g).
Proof.
  apply rolls_from_bind; [apply rolls_env, rolls_on, fixed_load_accounts|intros _ s1 l2].
  apply (rolls_from_set ps loaded). intros s2.
  apply rolls_from_bind; [apply rolls_env, rolls_on, fixed_deduct_caller|intros _ s3 l3].
  apply rolls_rolls_from, rolls_env. apply rolls_bind; [apply rolls_enter|intros fr].
  apply rolls_bind; [apply rolls_loop|]. intros [r|]; [|apply rolls_ret].
  apply rolls_bind; [apply rolls_finish|intros x; apply rolls_ret].
Qed.
(** The handler of the end never answers an error with nothing. *)
Lemma op_end_answers e x : match op_end op spec (fail e) x with (Ok None, _) => False | _ => True end.
Proof.
  unfold op_end, mbind at 1, M_bind, get, gets, attempt at 1, fail. destruct x as [[env s] l1]. cbn.
  destruct e; try done. destruct (is_deposit op); [|done]. unfold mbind, M_bind. by destruct (failed_deposit op spec env _) as [[]].
Qed.
Lemma rolls_end ps env s l1 m' m :
  rolls_from ps env s l1 m' m -> rolls_from ps env s l1 (end_with rolled m') (op_end op spec m).
Proof.
  unfold rolls_from. intros Hm. destruct (m (env, s, l1)) as [r [c1 l2]] eqn:Em. destruct Hm as [He [ps1 Hm]].
  assert (Hend : op_end op spec m (env, s, l1) = match r with
    | Ok a => (Ok a, (c1, l2)) | Err e => op_end op spec (fail e) (c1, l2) | Panic => (Panic, (c1, l2)) end).
  { unfold op_end, mbind, M_bind, get, gets, attempt. rewrite Em. destruct c1. cbn [fst] in He. subst. by destruct r. }
  assert (Hwith : end_with rolled m' (env, s, (ps, l1)) = match r with
    | Ok a => (Ok a, (c1, (ps1, l2)))
    | Err e => let '(r, (c2, l3)) := op_end op spec (fail e) (c1, l2) in (r, (c2, (ps1, l3)))
    | Panic => (Panic, (c1, (ps1, l2))) end).
  { unfold end_with, attempt, mbind at 1, M_bind. rewrite Hm. destruct r as [[a|]|e|]; [by destruct c1|done| |done].
    pose proof (op_end_answers e (c1, l2)) as Ha. cbn. unfold mbind, M_bind, on_rollup, zoom. cbn [fst snd outcome_of]. destruct (op_end op spec (fail e) (c1, l2)) as [[[a|]| |] [c2 l3]]; done. }
  rewrite Hend, Hwith. destruct r as [a|e|]; [by split; [|exists ps1]| |by split; [|exists ps1]].
  pose proof (fixed_end (fail e) ltac:(auto with moving) l2 c1) as Hf.
  destruct (op_end op spec (fail e) (c1, l2)) as [r [c2 l3]]. split; [|by exists ps1].
  etransitivity; [exact (Hf _ _ eq_refl)|done].
Qed.

(** The handlers that [optimism_handle_register] makes of those of the main network
    run the transactions of the rollup as the machine of [Optimism.v] does: with the
    result it has, and the context and the information on the first layer that it
    leaves, whatever precompiles were loaded before. *)
Theorem rollup_table_is_the_machine fuel c ps l1 : exists ps',
  transact_with rolled fuel (c, (ps, l1)) =
    let '(r, (c', l1')) := op_transact features op fuel spec (c, l1) in (r, (c', (ps', l1'))).
Proof.
  destruct c as [env s]. unfold transact_with, op_transact, mbind, M_bind, clearing, EvmContext. cbn [fst].
  pose proof (rolls_preverify ps env s l1) as Hp.
  destruct (op_preverify_transaction_inner op spec env (env, s, l1)) as [[g|e|] [c1 l2]]; destruct Hp as [He Hp];
    setoid_rewrite Hp; cbn [orb]; [|exists ps; by destruct c1 as [env1 [[j d] err]]|by exists ps].
  destruct c1 as [env1 s1]. cbn [fst] in He. subst env1. pose proof (rolls_execution ps env fuel g s1 l2) as Hx.
  apply rolls_end in Hx. unfold rolls_from, EvmContext in *.
  destruct (op_end op spec _ (env, s1, l2)) as [r [c2 l3]]. destruct Hx as (_ & ps' & Hx). setoid_rewrite Hx. exists ps'.
  destruct c2 as [env2 [[j d] err]]. by destruct r.
Qed.
End optimism.

(** ** Witness *)

Section witness.
#[local] Existing Instances sample_hash sample_create_address.
#[local] Instance empty_database : Database EmptyDB False := EmptyDB_database.
#[local] Instance sample_forks : HardForks SpecId (DB := EmptyDB) (DbErr := False) := {|
  fork_spec := id;
  fork_precompiles_of _ := ∅;
|}.

(** The register of the tests of [handler.rs]: the output is an error. *)
Definition sample_register : HandleRegisters (DB := EmptyDB) (DbErr := False) (EXT := unit) (Fork := SpecId) :=
  HR_Box (fun h => mkCore (cfg h) (instruction_table h) (validation h) (pre_execution h)
    (mkPostExecution (po_reimburse_caller (post_execution h)) (po_reward_beneficiary (post_execution h))
      (fun _ => fail (EVMCustom "test")) (po_end (post_execution h)) (po_clear (post_execution h)))
    (execution h)).

Lemma handlers_replay_their_registers_witness :
  let e := modify_spec_id frame_fuel CANCUN (append_handler_register sample_register (mainnet_with_spec frame_fuel BERLIN)) in
  length (registers e) = 1%nat /\
  (pop_handle_register frame_fuel (append_handler_register sample_register e)).2 = e.
Proof.
  set (e := modify_spec_id frame_fuel CANCUN _). assert (Hr : lawful sample_register) by done.
  assert (He : handled frame_fuel e).
  { apply handled_modify, handled_append; [done|]. by apply (handled_new frame_fuel id (HandlerCfg_new BERLIN)). }
  destruct (handlers_replay_their_registers frame_fuel e sample_register CANCUN He Hr) as (_ & Hpop & _).
  split; [reflexivity|]. rewrite Hpop. reflexivity.
Defined.
End witness.
