(* ===== verification/Inspector.v ===== *)
(** Inspectors: [crates/revm/src/inspector.rs], [inspector/handler_register.rs],
    [inspector/noop.rs] and [inspector/gas.rs].

    An inspector is a state and the computations that its hooks are; the register
    puts it, with the stacks of inputs that the handlers share, in the external part
    of the context.  An inspector that only observes does not change a transaction. *)

From S2P Require Import L1Block Precompile Curves PrecompileSets FastLz Optimism.
From S2P Require Import Prelude Specification Bytes Eof Bytecode State Result InstructionResult.
From S2P Require Import Triples Database.
From S2P Require Import Journal CallInputs NativeTokens Gas Stack SharedMemory Analysis Env.
From S2P Require Import Interpreter.
From S2P Require Import Context Handler Instructions HostInstructions Opcode InterpreterLoop InterpreterSafety HostSafety.
From S2P Require Import Evm.
From S2P Require Import JournalRun InMemoryDb JournalSpec EvmLoop HandlerTable.

Section inspector.
Context {DB DbErr : Type} `{HDB : Database DB DbErr} `{HK : Keccak} `{HC : CreateAddress}.
Abbreviation Ctx := (EvmContext (DB := DB) (DbErr := DbErr)).
(** The context that a hook sees. *)
Abbreviation Seen := (Ctx * ContextPrecompiles (DB := DB))%type.

(** ** [trait Inspector] *)

Record Inspector (INSP : Type) : Type := mkInspector {
  initialize_interp : M (INSP * (Interpreter * Seen)) Empty_set unit;
  insp_step : M (INSP * (Interpreter * Seen)) Empty_set unit;
  insp_step_end : M (INSP * (Interpreter * Seen)) Empty_set unit;
  insp_log : Log -> M (INSP * Seen) Empty_set unit;
  insp_call : CallInputs -> M (INSP * Seen) Empty_set (CallInputs * option CallOutcome);
  insp_call_end : CallInputs -> CallOutcome -> M (INSP * Seen) Empty_set CallOutcome;
  insp_create : CreateInputs -> M (INSP * Seen) Empty_set (CreateInputs * option CreateOutcome);
  insp_create_end : CreateInputs -> CreateOutcome -> M (INSP * Seen) Empty_set CreateOutcome;
  insp_eofcreate : EOFCreateInput -> M (INSP * Seen) Empty_set (EOFCreateInput * option EOFCreateOutcome);
  insp_eofcreate_end : EOFCreateInput -> EOFCreateOutcome -> M (INSP * Seen) Empty_set EOFCreateOutcome;
  insp_selfdestruct : Address -> Address -> Z -> M INSP Empty_set unit;
}.
#[global] Arguments initialize_interp {INSP}.
#[global] Arguments insp_step {INSP}.
#[global] Arguments insp_step_end {INSP}.
#[global] Arguments insp_log {INSP}.
#[global] Arguments insp_call {INSP}.
#[global] Arguments insp_call_end {INSP}.
#[global] Arguments insp_create {INSP}.
#[global] Arguments insp_create_end {INSP}.
#[global] Arguments insp_eofcreate {INSP}.
#[global] Arguments insp_eofcreate_end {INSP}.
#[global] Arguments insp_selfdestruct {INSP}.

(** The methods of the trait by default. *)
Definition NoOpInspector : Inspector unit := {|
  initialize_interp := mret tt;
  insp_step := mret tt;
  insp_step_end := mret tt;
  insp_log _ := mret tt;
  insp_call inputs := mret (inputs, None);
  insp_call_end _ outcome := mret outcome;
  insp_create inputs := mret (inputs, None);
  insp_create_end _ outcome := mret outcome;
  insp_eofcreate inputs := mret (inputs, None);
  insp_eofcreate_end _ outcome := mret outcome;
  insp_selfdestruct _ _ _ := mret tt;
|}.

Record GasInspector : Type := mkGasInspector { gas_remaining : Z; last_gas_cost : Z }.
Definition GasInspector_default : GasInspector := mkGasInspector 0 0.

(** [outcome.result.result.is_error()]: the gas is spent. *)
Definition spend_if_error (r : InterpreterResult) : InterpreterResult :=
  if IR_is_error (ir_result r) then mkInterpreterResult (ir_result r) (ir_output r) (spend_all (ir_gas r)) else r.
Definition gas_end {S} (r : InterpreterResult) : M (GasInspector * S) Empty_set InterpreterResult :=
  _ ← (if IR_is_error (ir_result r) then modify (fun s => (mkGasInspector 0 (last_gas_cost s.1), s.2)) else mret tt);
  mret (spend_if_error r).

Definition gas_inspector : Inspector GasInspector := {|
  initialize_interp := modify (fun '(g, (i, c)) => (mkGasInspector (limit (in_gas i)) (last_gas_cost g), (i, c)));
  insp_step := modify (fun '(g, (i, c)) => (mkGasInspector (remaining (in_gas i)) (last_gas_cost g), (i, c)));
  insp_step_end := modify (fun '(g, (i, c)) =>
    let remaining := remaining (in_gas i) in
    (mkGasInspector remaining (saturating_sub (gas_remaining g) remaining), (i, c)));
  insp_log _ := mret tt;
  insp_call inputs := mret (inputs, None);
  insp_call_end _ o := r ← gas_end (co_result o); mret (mkCallOutcome r (memory_offset o));
  insp_create inputs := mret (inputs, None);
  insp_create_end _ o := r ← gas_end (cro_result o); mret (mkCreateOutcome r (cro_address o));
  insp_eofcreate inputs := mret (inputs, None);
  insp_eofcreate_end _ outcome := mret outcome;
  insp_selfdestruct _ _ _ := mret tt;
|}.

(** ** The register *)

(** The external part of an inspected context: the inspector, and the stacks that
    the closures of the register share. *)
Record Inspected (INSP : Type) : Type := mkInspected {
  inspector : INSP;
  call_input_stack : list CallInputs;
  create_input_stack : list CreateInputs;
  eofcreate_input_stack : list EOFCreateInput;
}.
#[global] Arguments mkInspected {INSP}.
#[global] Arguments inspector {INSP}.
#[global] Arguments call_input_stack {INSP}.
#[global] Arguments create_input_stack {INSP}.
#[global] Arguments eofcreate_input_stack {INSP}.

Context {INSP : Type} (I : Inspector INSP).
Abbreviation Full := (FullContext (DB := DB) (DbErr := DbErr) (EXT := Inspected INSP)).
Abbreviation HM := (M Full (EVMError DbErr)).
Abbreviation LM := (M (Interpreter * Full) Empty_set).

Definition set_inspector (n : INSP) (x : Inspected INSP) : Inspected INSP :=
  mkInspected n (call_input_stack x) (create_input_stack x) (eofcreate_input_stack x).
Definition set_call_inputs (l : list CallInputs) (x : Inspected INSP) : Inspected INSP :=
  mkInspected (inspector x) l (create_input_stack x) (eofcreate_input_stack x).
Definition set_create_inputs (l : list CreateInputs) (x : Inspected INSP) : Inspected INSP :=
  mkInspected (inspector x) (call_input_stack x) l (eofcreate_input_stack x).
Definition set_eofcreate_inputs (l : list EOFCreateInput) (x : Inspected INSP) : Inspected INSP :=
  mkInspected (inspector x) (call_input_stack x) (create_input_stack x) l.

(** A hook that is given the context, and one that is given an interpreter too. *)
Definition hook {E A} (m : M (INSP * Seen) Empty_set A) : M Full E A :=
  fun '(c, (ps, x)) =>
    let '(r, (n, (c, ps))) := m (inspector x, (c, ps)) in (infallible r, (c, (ps, set_inspector n x))).
Definition hook_interp {A} (m : M (INSP * (Interpreter * Seen)) Empty_set A) : LM A :=
  fun '(i, (c, (ps, x))) =>
    let '(r, (n, (i, (c, ps)))) := m (inspector x, (i, (c, ps))) in (r, (i, (c, (ps, set_inspector n x)))).
(** [initialize_interp] on the interpreter of a new frame. *)
Definition initialize_frame (fr : FrameOrResult) : HM FrameOrResult :=
  match fr with
  | FOR_Result r => mret (FOR_Result r)
  | FOR_Frame f => fun c =>
      let '(r, (i, c)) := hook_interp (initialize_interp I) (frame_interpreter f, c) in
      ((_ ← infallible r; Ok (FOR_Frame (set_frame_interpreter i f))), c)
  end.

Definition move_pc (n : Z) : LM unit := modify (fun s => (set_pc (instruction_pointer s.1 + n) s.1, s.2)).

Definition inspector_instruction (instruction : LM unit) : LM unit :=
  _ ← move_pc (-1);
  _ ← hook_interp (insp_step I);
  i ← gets fst;
  if negb (running i) then mret tt
  else
    _ ← move_pc 1;
    _ ← instruction;
    hook_interp (insp_step_end I).

Definition host_journal (s : Interpreter * Full) : JournaledState := s.2.1.2.1.1.

Definition inspect_log (old : LM unit) : LM unit :=
  old_log_len ← gets (fun s => len (logs (host_journal s)));
  _ ← old;
  logs ← gets (fun s => logs (host_journal s));
  if len logs =? old_log_len + 1 then
    last_log ← lift (unwrap (last logs));
    zoom snd (fun c s => (s.1, c)) (hook (insp_log I last_log))
  else mret tt.

Definition inspect_selfdestruct (old : LM unit) : LM unit :=
  _ ← old;
  sets ← gets (fun s => journal (host_journal s));
  set ← lift (unwrap (last sets));
  match last set with
  | Some (AccountDestroyed address target _ had_balance) =>
      zoom snd (fun c s => (s.1, c))
        (zoom (fun c => inspector c.2.2) (fun n c => (c.1, (c.2.1, set_inspector n c.2.2)))
           (insp_selfdestruct I address target had_balance))
  | _ => mret tt
  end.

Definition inspected_table (table : InstructionTable Full) : InstructionTable Full := fun opcode =>
  let i := inspector_instruction (table opcode) in
  if (0xA0 <=? opcode) && (opcode <=? 0xA4) then inspect_log i
  else if opcode =? 0xFF then inspect_selfdestruct i
  else i.

Definition on_stacks {A} (f : Inspected INSP -> option (A * Inspected INSP)) : HM A :=
  fun '(c, (ps, x)) => match f x with Some (a, x) => (Ok a, (c, (ps, x))) | None => (Panic, (c, (ps, x))) end.
Definition push_call (inputs : CallInputs) : HM unit :=
  on_stacks (fun x => Some (tt, set_call_inputs (inputs :: call_input_stack x) x)).
Definition push_create (inputs : CreateInputs) : HM unit :=
  on_stacks (fun x => Some (tt, set_create_inputs (inputs :: create_input_stack x) x)).
Definition pop_call : HM CallInputs := on_stacks (fun x =>
  match call_input_stack x with i :: l => Some (i, set_call_inputs l x) | [] => None end).
Definition pop_create : HM CreateInputs := on_stacks (fun x =>
  match create_input_stack x with i :: l => Some (i, set_create_inputs l x) | [] => None end).
Definition pop_eofcreate : HM EOFCreateInput := on_stacks (fun x =>
  match eofcreate_input_stack x with i :: l => Some (i, set_eofcreate_inputs l x) | [] => None end).

Abbreviation Execution := (ExecutionHandler (DB := DB) (DbErr := DbErr) (EXT := Inspected INSP)).

Definition inspect_create (old : CreateInputs -> HM FrameOrResult) (inputs : CreateInputs) : HM FrameOrResult :=
  '(inputs, outcome) ← hook (insp_create I inputs);
  _ ← push_create inputs;
  match outcome with
  | Some outcome => mret (FOR_Result (FR_Create outcome))
  | None => fr ← old inputs; initialize_frame fr
  end.
Definition inspect_call (old : CallInputs -> HM FrameOrResult) (inputs : CallInputs) : HM FrameOrResult :=
  '(inputs, outcome) ← hook (insp_call I inputs);
  _ ← push_call inputs;
  match outcome with
  | Some outcome => mret (FOR_Result (FR_Call outcome))
  | None => fr ← old inputs; initialize_frame fr
  end.
Definition inspect_insert_call (old : Frame -> SharedMemory -> CallOutcome -> HM (Frame * SharedMemory))
  (frame : Frame) (memory : SharedMemory) (outcome : CallOutcome) : HM (Frame * SharedMemory) :=
  inputs ← pop_call;
  outcome ← hook (insp_call_end I inputs outcome);
  old frame memory outcome.
Definition inspect_insert_create (old : Frame -> CreateOutcome -> HM Frame) (frame : Frame) (outcome : CreateOutcome)
  : HM Frame :=
  inputs ← pop_create;
  outcome ← hook (insp_create_end I inputs outcome);
  old frame outcome.
Definition inspect_last_frame (old : FrameResult -> HM FrameResult) (r : FrameResult) : HM FrameResult :=
  r ← match r with
      | FR_Call o => inputs ← pop_call; o ← hook (insp_call_end I inputs o); mret (FR_Call o)
      | FR_Create o => inputs ← pop_create; o ← hook (insp_create_end I inputs o); mret (FR_Create o)
      | FR_EOFCreate o => inputs ← pop_eofcreate; o ← hook (insp_eofcreate_end I inputs o); mret (FR_EOFCreate o)
      end;
  old r.

Definition inspected_execution (e : Execution) : Execution := {|
  ex_last_frame_return := inspect_last_frame (ex_last_frame_return e);
  ex_execute_frame := ex_execute_frame e;
  ex_call := inspect_call (ex_call e);
  ex_call_return := ex_call_return e;
  ex_insert_call_outcome := inspect_insert_call (ex_insert_call_outcome e);
  ex_create := inspect_create (ex_create e);
  ex_create_return := ex_create_return e;
  ex_insert_create_outcome := inspect_insert_create (ex_insert_create_outcome e);
  ex_eofcreate := ex_eofcreate e;
  ex_eofcreate_return := ex_eofcreate_return e;
  ex_insert_eofcreate_outcome := ex_insert_eofcreate_outcome e;
|}.

Definition inspector_handle_register `{HF : !HardForks Fork (DB := DB) (DbErr := DbErr)}
  (h : HandlerCore (EXT := Inspected INSP) (Fork := Fork)) : HandlerCore :=
  let '(table, h) := take_instruction_table h in
  let table := match table with Plain t => inspected_table t | Boxed t => inspected_table t end in
  let h := set_instruction_table (Boxed table) h in
  set_execution (inspected_execution (execution h)) h.
End inspector.

(** ** What a computation keeps *)

(** *** The journal has a set of entries *)

Definition sets_stay (j j' : JournaledState) : Prop := journal j <> [] -> journal j' <> [].
#[export] Instance sets_stay_preorder : PreOrder sets_stay.
Proof. split; unfold sets_stay; [by intros j|intros j k l; auto]. Qed.
Abbreviation jstays m := (moving sets_stay m).

Lemma stays_same j j' : journal j' = journal j -> sets_stay j j'.
Proof. unfold sets_stay. by intros ->. Qed.
Lemma push_last_some {A} (e : A) l l' : push_last e l = Some l' -> l' <> [].
Proof.
  destruct l as [|x [|y l]]; [done|by intros [= <-]|].
  intros H. by apply (fmap_Some (cons x) (push_last e (y :: l))) in H as (l1 & _ & ->).
Qed.

Section journal.
Context {E : Type}.
Lemma jstays_push e : jstays (push_entry (E := E) e).
Proof.
  intros j r j'. unfold push_entry. destruct (push_last e (journal j)) eqn:He; intros [= _ <-]; [|done].
  intros _. by eapply push_last_some.
Qed.
Lemma jstays_account a : jstays (account (E := E) a).
Proof. by intros j r j' [= _ <-]. Qed.
Lemma jstays_modify (f : JournaledState -> JournaledState) :
  (forall j, journal (f j) = journal j) -> jstays (modify (E := E) f).
Proof. intros Hf. apply moving_modify. intros j. by apply stays_same. Qed.
Lemma jstays_update a f : jstays (update_account (E := E) a f).
Proof. apply moving_bind; [apply _|apply jstays_account|intros _; by apply jstays_modify]. Qed.
End journal.
#[export] Hint Resolve jstays_push jstays_account jstays_update : moving.
#[export] Hint Extern 2 (moving sets_stay (modify _)) => apply jstays_modify; done : moving.

Section journal_ops.
Context {E : Type} `{HK : Keccak}.
Lemma jstays_touch_account a : jstays (touch_account (E := E) a).
Proof. unfold touch_account. solve_moving. Qed.
#[local] Hint Resolve jstays_touch_account : moving.
Lemma jstays_touch a : jstays (touch (E := E) a).
Proof. intros j r j'. unfold touch. case_match; [apply jstays_touch_account|by intros [= _ <-]]. Qed.
Lemma jstays_set_code a c : jstays (set_code (E := E) a c).
Proof. unfold set_code. solve_moving. Qed.
Lemma jstays_inc_nonce a : jstays (inc_nonce (E := E) a).
Proof. unfold inc_nonce. solve_moving. Qed.
Lemma jstays_transfer_loop from to ts : jstays (transfer_loop (E := E) from to ts).
Proof. induction ts as [|t ts IH]; cbn [transfer_loop]; solve_moving. Qed.
Lemma jstays_tstore a k v : jstays (tstore (E := E) a k v).
Proof.
  intros j r j'. unfold tstore. generalize (transient_storage j !! (a, k)). intros old.
  set (p := if v =? 0 then _ else _). destruct p as [[had|] ts]; [|intros [= _ <-]; by apply stays_same].
  intros Hp. apply jstays_push in Hp. exact Hp.
Qed.
Lemma jstays_commit : jstays (checkpoint_commit (E := E)).
Proof. by apply jstays_modify. Qed.
(** A checkpoint is behind the sets there are, and to go back to it keeps them. *)
Lemma checkpoint_stays : triple (fun j => journal j <> []) (checkpoint (E := E))
  (fun cp j => 1 <= journal_i cp /\ journal j <> []) (fun _ => False).
Proof.
  intros j Hj. unfold checkpoint. cbn. split; [|by intros [_ [=]]%app_nil]. destruct (journal j); [done|].
  unfold len. cbn [length]. lia.
Qed.
Lemma revert_stays cp j r j' :
  1 <= journal_i cp -> checkpoint_revert (E := E) cp j = (r, j') -> sets_stay j j'.
Proof.
  intros Hcp. unfold checkpoint_revert. cbv zeta. destruct (revert_sets _ _ _) as [[]|]; intros [= _ <-]; [|by apply stays_same].
  unfold sets_stay. cbn. intros Hj. destruct (journal j); [done|]. destruct (Z.to_nat (journal_i cp)) eqn:Hn; [lia|done].
Qed.
End journal_ops.
#[export] Hint Resolve jstays_touch_account jstays_touch jstays_set_code jstays_inc_nonce jstays_transfer_loop jstays_tstore
  jstays_commit : moving.

Section context.
Context {DB DbErr : Type} `{HDB : Database DB DbErr} `{HK : Keccak} `{HC : CreateAddress}.
Abbreviation Ctx := (EvmContext (DB := DB) (DbErr := DbErr)).
Abbreviation CtxM := (M (JournaledState * DB) (EVMError DbErr)).
Definition sets_stay_in (s s' : JournaledState * DB) : Prop := sets_stay s.1 s'.1.
#[local] Instance sets_stay_in_preorder : PreOrder sets_stay_in.
Proof. split; unfold sets_stay_in, sets_stay; [by intros s|intros s t u; auto]. Qed.
Abbreviation stays m := (moving sets_stay_in m).

Lemma stays_on_js {A} (m : M JournaledState (EVMError DbErr) A) : jstays m -> stays (on_js m).
Proof. by apply moving_zoom. Qed.
Lemma stays_on_db {A} (m : M DB DbErr A) : stays (on_db m).
Proof.
  intros s r s' H. unfold on_db, with_err, zoom in H. destruct (m s.2) as [r1 d1]. injection H as _ <-. by intros H.
Qed.
#[local] Hint Resolve stays_on_db : moving.
#[local] Hint Extern 2 (moving _ (on_js _)) => apply stays_on_js; solve [solve_moving] : moving.

Lemma stays_token_ids : stays load_native_token_ids.
Proof. unfold load_native_token_ids. solve_moving. Qed.
Lemma stays_load_account a : stays (load_account a).
Proof. unfold load_account. solve_moving. Qed.
#[local] Hint Resolve stays_token_ids stays_load_account : moving.
Lemma stays_load_account_exist a : stays (load_account_exist a).
Proof. unfold load_account_exist. solve_moving. Qed.
Lemma stays_load_code a : stays (load_code a).
Proof. unfold load_code. solve_moving. Qed.
Lemma stays_sload a k : stays (sload a k).
Proof. unfold sload. solve_moving. Qed.
#[local] Hint Resolve stays_load_account_exist stays_load_code stays_sload : moving.
Lemma stays_sstore a k v : stays (sstore a k v).
Proof. unfold sstore. solve_moving. Qed.
Lemma stays_transfer from to ts : stays (Journal.transfer from to ts).
Proof. unfold Journal.transfer. solve_moving. Qed.
Lemma stays_selfdestruct a t : stays (selfdestruct a t).
Proof. unfold selfdestruct. solve_moving. Qed.
Lemma stays_burn b i h v : stays (Journal.burn b i h v).
Proof. unfold Journal.burn. solve_moving. Qed.
Lemma stays_mint m r i v : stays (Journal.mint m r i v).
Proof. unfold Journal.mint. solve_moving. Qed.
#[local] Hint Resolve stays_sstore stays_transfer stays_selfdestruct stays_burn stays_mint : moving.

Lemma stays_initial_load a slots : stays (initial_account_load a slots).
Proof.
  unfold initial_account_load. apply moving_bind; [apply _|solve_moving|intros js].
  apply moving_bind; [apply _|solve_moving|intros _]. apply moving_bind; [apply _| |intros _; solve_moving].
  induction slots as [|k slots IH]; cbn [preload_slots]; solve_moving.
Qed.
#[local] Hint Resolve stays_initial_load : moving.
Lemma stays_access_list l : stays (load_accounts_slots (DbErr := DbErr) l).
Proof. induction l as [|[a slots] l IH]; cbn [load_accounts_slots]; solve_moving. Qed.
Lemma stays_check_ids l : stays (check_token_ids (DbErr := DbErr) l).
Proof. induction l as [|t l IH]; cbn [check_token_ids]; solve_moving. Qed.
#[local] Hint Resolve stays_access_list stays_check_ids : moving.
Lemma journal_load_accounts sp env : stays (load_accounts (DbErr := DbErr) sp env).
Proof. unfold load_accounts, load_access_list. solve_moving. Qed.
Lemma stays_tx_against_state sp env : stays (tx_against_state (DbErr := DbErr) sp env).
Proof. unfold tx_against_state. solve_moving. Qed.
Lemma journal_deduct_caller sp env : stays (deduct_caller (DbErr := DbErr) sp env).
Proof. unfold deduct_caller. solve_moving. Qed.
Lemma stays_reimburse env g : stays (reimburse_caller (DbErr := DbErr) env g).
Proof. unfold reimburse_caller. solve_moving. Qed.
Lemma stays_reward sp env g : stays (reward_beneficiary (DbErr := DbErr) sp env g).
Proof. unfold reward_beneficiary. solve_moving. Qed.
Lemma stays_set_precompiles ps : stays (set_precompiles (DbErr := DbErr) ps).
Proof. unfold set_precompiles. solve_moving. Qed.

(** *** The precompiles *)

Abbreviation PM := (M (JournaledState * DB) PrecompileError).
Lemma stays_parse {A} (m : outcome BytesParsingError A) : stays (parse (DB := DB) m).
Proof. unfold parse. solve_moving. Qed.
Lemma stays_journal_call {A} e (m : CtxM A) : stays m -> stays (journal_call (DbErr := DbErr) e m).
Proof. intros Hm. by apply moving_with_err. Qed.
Lemma stays_eoa a : stays (is_address_eoa (DbErr := DbErr) a).
Proof. unfold is_address_eoa, NativeTokens.ctx_code. solve_moving. Qed.
#[local] Hint Resolve stays_parse stays_eoa stays_journal_call : moving.
Lemma stays_check_caller inputs : stays (check_caller (DbErr := DbErr) inputs).
Proof. unfold check_caller. solve_moving. Qed.
Lemma stays_check_callee a : stays (check_callee (DbErr := DbErr) a).
Proof. unfold check_callee. solve_moving. Qed.
Lemma stays_consumed input : stays (check_consumed (DB := DB) input).
Proof. unfold check_consumed. solve_moving. Qed.
Lemma stays_ctx_balance t a : stays (NativeTokens.ctx_balance (DbErr := DbErr) t a).
Proof. unfold NativeTokens.ctx_balance. solve_moving. Qed.
Lemma stays_transfer_is_ok a b l : stays (transfer_is_ok (DbErr := DbErr) a b l).
Proof. unfold transfer_is_ok. solve_moving. Qed.
Lemma stays_success g : stays (success (DB := DB) g).
Proof. unfold success. solve_moving. Qed.
#[local] Hint Resolve stays_check_caller stays_check_callee stays_consumed stays_ctx_balance stays_transfer_is_ok
  stays_success : moving.
Lemma stays_native inputs g : stays (call_mut (DbErr := DbErr) inputs g).
Proof.
  unfold call_mut. cbv zeta. on_if; [solve_moving|]. apply moving_bind; [apply _|solve_moving|intros [selector input]].
  repeat (on_if; [unfold balance_of, burn, get_call_values, mint, transfer_and_call, transfer_multiple_and_call,
    transfer_multiple, transfer; cbv zeta; solve_moving|]). solve_moving.
Qed.
#[local] Hint Resolve stays_native : moving.

(** ** Frames *)

Definition has_sets (s : JournaledState * DB) : Prop := journal s.1 <> [].
(** The checkpoint of a frame is behind the first set of entries. *)
Definition guarded (f : Frame) : Prop := 1 <= journal_i (fd_checkpoint (frame_data f)).
(** The kind of what a frame is for: a call, a creation, or a creation of EOF. *)
Inductive Kind : Type := KCall | KCreate | KEof.
Definition frame_kind (f : Frame) : Kind :=
  match f with Frame_Call _ _ => KCall | Frame_Create _ _ => KCreate | Frame_EOFCreate _ _ _ => KEof end.
Definition result_kind (r : FrameResult) : Kind :=
  match r with FR_Call _ => KCall | FR_Create _ => KCreate | FR_EOFCreate _ => KEof end.
Definition entry_kind (fr : FrameOrResult) : Kind :=
  match fr with FOR_Frame f => frame_kind f | FOR_Result r => result_kind r end.
(** A frame as an execution, or an outcome, leaves it. *)
Definition same_place (f f' : Frame) : Prop := frame_kind f' = frame_kind f /\ (guarded f -> guarded f').
(** An entry of a kind. *)
Definition guarded_entry (k : Kind) (fr : FrameOrResult) : Prop :=
  entry_kind fr = k /\ match fr with FOR_Frame f => guarded f | FOR_Result _ => True end.

Definition steady_precompile (p : ContextPrecompile (DB := DB)) : Prop :=
  match p with
  | CP_Ordinary _ => True
  | CP_ContextStateful f => forall input g, stays (f input g)
  | CP_ContextStatefulMut f => forall inputs g, stays (f inputs g)
  end.
Definition steady_precompiles (ps : ContextPrecompiles (DB := DB)) : Prop := map_Forall (fun _ => steady_precompile) ps.

Lemma native_tokens_steady ps : steady_precompiles ps -> steady_precompiles (with_native_tokens (DbErr := DbErr) ps).
Proof.
  intros Hps. unfold steady_precompiles, with_native_tokens, map_Forall. intros a p.
  intros Hp. apply (lookup_insert_Some (M := gmap Address)) in Hp as [[_ <-]|[_ Hp]]; [|by apply Hps in Hp].
  intros inputs g. apply stays_native.
Qed.

Lemma kept {E A} (m : M (JournaledState * DB) E A) : stays m -> preserves has_sets (fun _ => True) m.
Proof. intros Hm s Hs. destruct (m s) as [[a|e|] s'] eqn:H; apply Hm in H; [by split; [|apply H]|by apply H|done]. Qed.
#[local] Hint Extern 3 (preserves has_sets (fun _ => True) _) => apply kept; solve [solve_moving] : moving.
#[local] Hint Extern 1 (preserves has_sets _ (mret _)) => apply preserves_ret; done : moving.

Lemma kept_checkpoint : preserves has_sets (fun cp => 1 <= journal_i cp) (on_js (DB := DB) (DbErr := DbErr) checkpoint).
Proof.
  intros [j d] Hj. unfold on_js, zoom. cbn [fst snd]. pose proof (checkpoint_stays (E := EVMError DbErr) j Hj) as H.
  by destruct (checkpoint j) as [[]].
Qed.
Lemma kept_revert cp : 1 <= journal_i cp -> preserves has_sets (fun _ => True) (on_js (DB := DB) (DbErr := DbErr) (checkpoint_revert cp)).
Proof.
  intros Hcp [j d] Hj. unfold on_js, zoom. cbn [fst snd].
  destruct (checkpoint_revert cp j) as [[]] eqn:Hr; apply revert_stays in Hr; try done; split_and?; try done; by apply Hr.
Qed.
#[local] Hint Resolve kept_revert : moving.

Ltac solve_kept :=
  repeat first
    [ solve [auto with moving]
    | (apply preserves_seq; [solve [auto with moving]|intros ?])
    | case_match ].

Lemma kept_transfer_values inputs : preserves has_sets (fun _ => True) (transfer_values (DbErr := DbErr) inputs).
Proof. apply kept. unfold transfer_values. solve_moving. Qed.
Lemma kept_load_bytecode a : preserves has_sets (fun _ => True) (load_bytecode (DbErr := DbErr) a).
Proof. apply kept. unfold load_bytecode. solve_moving. Qed.
Lemma kept_precompile ps env inputs g : steady_precompiles ps ->
  preserves has_sets (fun _ => True) (call_precompile (DbErr := DbErr) ps env inputs g).
Proof.
  intros Hps. apply kept. unfold call_precompile, precompiles_call. cbv zeta.
  destruct (ps !! _) as [p|] eqn:Hp; [|solve_moving]. apply Hps in Hp.
  apply moving_bind; [apply _| |intros ?; solve_moving].
  destruct p; (apply moving_bind; [apply _| |intros ?; solve_moving]); apply moving_attempt; [apply moving_lift; apply _|apply Hp..].
Qed.
#[local] Hint Resolve kept_transfer_values kept_load_bytecode kept_precompile : moving.

Lemma kept_call_frame ps env inputs : steady_precompiles ps ->
  preserves has_sets (guarded_entry KCall) (make_call_frame (DbErr := DbErr) ps env inputs).
Proof.
  intros Hps. unfold make_call_frame. cbv zeta. apply preserves_seq; [auto with moving|intros js]. on_if; [auto with moving|].
  apply preserves_seq; [auto with moving|intros [hash bytecode]].
  eapply preserves_bind; [apply kept_checkpoint|intros cp Hcp]. solve_kept.
Qed.
Lemma kept_call_return r cp : 1 <= journal_i cp -> preserves has_sets (fun _ => True) (call_return (DbErr := DbErr) r cp).
Proof. intros Hcp. unfold call_return. solve_kept. Qed.
Lemma kept_eofcreate_return r a cp :
  1 <= journal_i cp -> preserves has_sets (fun _ => True) (eofcreate_return (DbErr := DbErr) r a cp).
Proof. intros Hcp. unfold eofcreate_return. solve_kept. Qed.
Lemma kept_create_return sp env r a cp :
  1 <= journal_i cp -> preserves has_sets (fun _ => True) (create_return (DbErr := DbErr) sp env r a cp).
Proof. intros Hcp. unfold create_return. cbv zeta. solve_kept. Qed.

(** A creation answers a checkpoint that it took. *)
Lemma kept_create_checkpoint c a v sp :
  preserves (fun j => journal j <> []) (fun cp => 1 <= journal_i cp) (create_account_checkpoint c a v sp).
Proof.
  assert (Hj : forall {A} (m : M JournaledState InstructionResult A), jstays m -> preserves (fun j => journal j <> []) (fun _ => True) m).
  { intros A m Hm j Hj. destruct (m j) as [[x|e|] j'] eqn:H; apply Hm in H; [by split; [|apply H]|by apply H|done]. }
  unfold create_account_checkpoint. eapply (preserves_bind _ (fun cp => 1 <= journal_i cp)).
  { intros j H. pose proof (checkpoint_stays (E := InstructionResult) j H). by destruct (checkpoint j) as [[]]. }
  intros cp Hcp.
  assert (Hr : preserves (fun j => journal j <> []) (fun _ => True) (checkpoint_revert (E := InstructionResult) cp)).
  { apply Hj. intros j r j'. by apply revert_stays. }
  repeat first
    [ (apply preserves_seq; [solve [exact Hr | apply Hj; solve_moving]|intros ?])
    | apply preserves_fail | (apply preserves_ret; done) | case_match ].
Qed.
Lemma kept_enter_creation c a v sp :
  preserves has_sets (fun r => match r with inr cp => 1 <= journal_i cp | inl _ => True end)
    (on_js (DB := DB) (DbErr := DbErr) (attempt (create_account_checkpoint c a v sp))).
Proof.
  intros [j d] Hj. unfold on_js, zoom, attempt. cbn [fst snd]. pose proof (kept_create_checkpoint c a v sp j Hj) as H.
  by destruct (create_account_checkpoint c a v sp j) as [[]].
Qed.
Lemma kept_base_balance a : preserves has_sets (fun _ => True) (base_balance (DbErr := DbErr) a).
Proof. apply kept. unfold base_balance. solve_moving. Qed.
#[local] Hint Resolve kept_base_balance : moving.

Lemma kept_create_frame sp inputs : preserves has_sets (guarded_entry KCreate) (make_create_frame (DbErr := DbErr) sp inputs).
Proof.
  unfold make_create_frame. cbv zeta.
  repeat first
    [ (eapply preserves_bind; [apply kept_enter_creation|intros [e|cp] Hcp])
    | solve [auto with moving] | (apply preserves_seq; [solve [auto with moving]|intros ?]) | case_match ].
Qed.
Lemma kept_eofcreate_frame sp inputs : preserves has_sets (guarded_entry KEof) (make_eofcreate_frame (DbErr := DbErr) sp inputs).
Proof.
  unfold make_eofcreate_frame. cbv zeta.
  repeat first
    [ (eapply preserves_bind; [apply kept_enter_creation|intros [e|cp] Hcp])
    | solve [auto with moving] | (apply preserves_seq; [solve [auto with moving]|intros ?]) | case_match ].
Qed.
End context.

(** ** Inspectors that only observe *)

(** A result with other gas: it does not matter if there is an error. *)
Definition same_but_gas (r' r : InterpreterResult) : Prop :=
  r' = r \/ (IR_is_error (ir_result r) = true /\ ir_result r' = ir_result r /\ ir_output r' = ir_output r).

(** The hooks change the inspector alone; those at the end of a call may set the
    gas of an error. *)
Class Observes {DB DbErr : Type} `{Database DB DbErr} {INSP : Type} (I : Inspector (DB := DB) (DbErr := DbErr) INSP) : Prop := {
  ob_initialize n s : exists n', initialize_interp I (n, s) = (Ok tt, (n', s));
  ob_step n s : exists n', insp_step I (n, s) = (Ok tt, (n', s));
  ob_step_end n s : exists n', insp_step_end I (n, s) = (Ok tt, (n', s));
  ob_log l n s : exists n', insp_log I l (n, s) = (Ok tt, (n', s));
  ob_call inputs n s : exists n', insp_call I inputs (n, s) = (Ok (inputs, None), (n', s));
  ob_create inputs n s : exists n', insp_create I inputs (n, s) = (Ok (inputs, None), (n', s));
  ob_call_end inputs o n s : exists n' r, same_but_gas r (co_result o) /\
    insp_call_end I inputs o (n, s) = (Ok (mkCallOutcome r (memory_offset o)), (n', s));
  ob_create_end inputs o n s : exists n' r, same_but_gas r (cro_result o) /\
    insp_create_end I inputs o (n, s) = (Ok (mkCreateOutcome r (cro_address o)), (n', s));
  ob_selfdestruct a t v n : exists n', insp_selfdestruct I a t v n = (Ok tt, n');
}.

Lemma same_but_gas_cases r' r : same_but_gas r' r ->
  r' = r \/ (ir_result r' = ir_result r /\ ir_output r' = ir_output r /\
    return_ok (ir_result r) = false /\ return_revert (ir_result r) = false).
Proof.
  intros [Hr|(He & Hr & Ho)]; [by left|right]. split_and!; [done..| |]; by destruct (ir_result r).
Qed.
Lemma insert_call_blind r' r off : same_but_gas r' r -> insert_call_outcome (mkCallOutcome r' off) = insert_call_outcome (mkCallOutcome r off).
Proof.
  intros [->|(Hr & Ho & Hok & Hrev)]%same_but_gas_cases; [done|]. unfold insert_call_outcome.
  cbn [co_result]. by rewrite Hr, Ho, Hok, Hrev.
Qed.
Lemma insert_create_blind r' r a : same_but_gas r' r -> insert_create_outcome (mkCreateOutcome r' a) = insert_create_outcome (mkCreateOutcome r a).
Proof.
  intros [->|(Hr & Ho & Hok & Hrev)]%same_but_gas_cases; [done|]. unfold insert_create_outcome.
  cbn [cro_result cro_address]. by rewrite Hr, Ho, Hok, Hrev.
Qed.
Lemma last_return_gas sp env r' f : same_but_gas r' (interpreter_result f) ->
  last_frame_return sp env (set_interpreter_result r' f) = last_frame_return sp env f.
Proof.
  intros [->|(Hr & Ho & Hok & Hrev)]%same_but_gas_cases; [by destruct f as [[]|[]|[]]|].
  unfold last_frame_return, frame_return_with_refund_flag, frame_instruction_result, frame_gas, set_frame_gas. cbv zeta.
  replace (interpreter_result (set_interpreter_result r' f)) with r' by (by destruct f).
  rewrite Hr, Ho, Hok, Hrev. by destruct f.
Qed.

#[export] Instance noop_observes {DB DbErr} `{Database DB DbErr} : Observes (NoOpInspector (DB := DB) (DbErr := DbErr)).
Proof.
  split; intros; try by eexists. all: eexists _, _; split; [by left|]; by destruct o.
Qed.

Lemma spend_same r : same_but_gas (spend_if_error r) r.
Proof. unfold spend_if_error. destruct (IR_is_error _) eqn:He; [right|left]; done. Qed.
Lemma gas_end_observes {S} r g (s : S) : exists g', gas_end r (g, s) = (Ok (spend_if_error r), (g', s)).
Proof. unfold gas_end. destruct (IR_is_error (ir_result r)); by eexists. Qed.
#[export] Instance gas_observes {DB DbErr} `{Database DB DbErr} : Observes (gas_inspector (DB := DB) (DbErr := DbErr)).
Proof.
  split; intros; try (destruct s as [i c]); try by eexists.
  - destruct (gas_end_observes (co_result o) n (i, c)) as [g Hg]. exists g, (spend_if_error (co_result o)).
    split; [apply spend_same|]. cbn. unfold mbind, M_bind. by rewrite Hg.
  - destruct (gas_end_observes (cro_result o) n (i, c)) as [g Hg]. exists g, (spend_if_error (cro_result o)).
    split; [apply spend_same|]. cbn. unfold mbind, M_bind. by rewrite Hg.
Qed.

Section observed.
Context {DB DbErr : Type} `{HDB : Database DB DbErr} `{HK : Keccak} `{HC : CreateAddress}.
Context {INSP : Type} (I : Inspector (DB := DB) (DbErr := DbErr) INSP) `{HO : !Observes I}.
Abbreviation Ctx := (EvmContext (DB := DB) (DbErr := DbErr)).
Abbreviation Full := (FullContext (DB := DB) (DbErr := DbErr) (EXT := Inspected INSP)).

(** *** The context as a host *)

Definition context_moves (c c' : Ctx) : Prop := sets_stay_in c.2.1 c'.2.1.
#[local] Existing Instance sets_stay_in_preorder.
#[local] Instance context_moves_preorder : PreOrder context_moves.
Proof. split; unfold context_moves; [by intros s|intros s t u; apply transitivity]. Qed.
Lemma host_try_moves {A} (m : M (JournaledState * DB) (EVMError DbErr) A) :
  moving sets_stay_in m -> host_keeps context_moves (host_try m).
Proof.
  intros Hm c r c' H. unfold host_try in H. destruct (m c.2.1) as [r1 s1] eqn:H1. apply Hm in H1.
  by destruct r1; injection H as _ <-.
Qed.
Lemma host_do_moves {A} (m : M JournaledState Empty_set A) : moving sets_stay m -> host_keeps context_moves (host_do m).
Proof.
  intros Hm c r c' H. unfold host_do in H. destruct (m c.2.1.1) as [r1 j1] eqn:H1. apply Hm in H1. by injection H as _ <-.
Qed.
#[local] Hint Resolve stays_load_account_exist stays_load_code stays_sload stays_sstore stays_selfdestruct stays_on_db
  stays_load_account : moving.
#[local] Instance context_sets_read : HostReads context_moves.
Proof.
  split; intros; cbn [h_load_account h_block_hash h_code h_code_hash h_sload h_tload h_base_balance context_host];
    try (apply host_try_moves; unfold Evm.ctx_code, ctx_code_hash, base_balance; solve_moving).
  - intros c r c' H. unfold context_block_hash, mbind, M_bind, gets in H. repeat case_match; try (by injection H as _ <-).
    eapply host_try_moves; [|exact H]. unfold ctx_block_hash. solve_moving.
  - apply host_do_moves. unfold tload. solve_moving.
Qed.
#[local] Instance context_sets_written : HostWrites context_moves.
Proof.
  split; intros; cbn [h_sstore h_tstore h_log h_selfdestruct context_host];
    try (apply host_try_moves; solve_moving); apply host_do_moves; [solve_moving|]. by apply jstays_modify.
Qed.

(** *** The instructions *)

(** Under the observer, a computation does what it does without, but for the
    state of the inspector; [P] is known of the interpreter. *)
Definition observed (P : Interpreter -> Prop) {A} (m' : M (Interpreter * Full) Empty_set A)
  (m : M (Interpreter * Ctx) Empty_set A) : Prop :=
  forall i (c : Ctx) ps x r i1 (c1 : Ctx), P i -> has_sets c.2.1 -> m (i, c) = (r, (i1, c1)) ->
    has_sets c1.2.1 /\ exists n, m' (i, (c, (ps, x))) = (r, (i1, (c1, (ps, set_inspector n x)))).
Abbreviation seen := (observed (fun _ => True)).

Lemma back_and_forth (i : Interpreter) :
  let i0 := set_pc (instruction_pointer i + -1) i in set_pc (instruction_pointer i0 + 1) i0 = i.
Proof. destruct i. cbv zeta. unfold set_pc. cbn. f_equal. lia. Qed.

Lemma observed_instruction spec opcode :
  observed (fun i => running i = true) (inspector_instruction I (settle_instruction (instruction spec opcode)))
    (settle_instruction (instruction spec opcode)).
Proof.
  intros i c ps x r i1 c1 Hi Hs Hm.
  split; [by apply (moves_instruction context_moves) in Hm; apply Hm|].
  pose proof (back_and_forth i) as Hpc. cbv zeta in Hpc.
  unfold inspector_instruction, mbind, M_bind, move_pc, modify, gets, hook_interp in *. cbn [fst snd] in *.
  set (i0 := set_pc (instruction_pointer i + -1) i) in *. destruct (ob_step (inspector x) (i0, (c, ps))) as [n ->].
  cbn [fst snd]. change (running i0) with (running i). rewrite Hi. cbn [negb fst snd].
  rewrite Hpc, (lifted_settle _ _ (lifted_instruction spec opcode) i c (ps, set_inspector n x)).
  rewrite Hm. destruct r as [[]|[]|]; [|by exists n]. cbn [fst snd inspector set_inspector].
  destruct (ob_step_end n (i1, (c1, ps))) as [n1 ->]. by exists n1.
Qed.

Lemma observed_wrap P m' m (hook' : unit -> M (Interpreter * Full) Empty_set unit) :
  observed P m' m ->
  (forall i (c : Ctx) ps x, has_sets c.2.1 -> exists n, hook' tt (i, (c, (ps, x))) = (Ok tt, (i, (c, (ps, set_inspector n x))))) ->
  observed P (m' ≫= hook') m.
Proof.
  intros Hm Hh i c ps x r i1 c1 Hi Hs H. destruct (Hm i c ps x r i1 c1 Hi Hs H) as [Hs1 [n Hn]].
  split; [done|]. unfold mbind, M_bind. rewrite Hn. destruct r as [[]|[]|]; [|by exists n].
  destruct (Hh i1 c1 ps (set_inspector n x) Hs1) as [n1 ->]. by exists n1.
Qed.

Lemma observed_log P m' m : observed P m' m -> observed P (inspect_log I m') m.
Proof.
  intros Hm i c ps x r i1 c1 Hi Hs H. revert H. set (old := len (logs (host_journal (i, (c, (ps, x)))))). intros H.
  change (inspect_log I m' (i, (c, (ps, x)))) with ((m' ≫= fun _ =>
    logs ← gets (fun s => logs (host_journal s));
    if len logs =? old + 1 then
      last_log ← lift (unwrap (last logs)); zoom snd (fun c s => (s.1, c)) (hook (insp_log I last_log))
    else mret tt) (i, (c, (ps, x)))).
  assert (Hold : 0 <= old) by apply len_nonneg. clearbody old.
  apply (observed_wrap P m' m (fun _ => _) Hm); [|done..]. clear i c ps x r i1 c1 Hi Hs H. intros i c ps x Hs.
  unfold mbind, M_bind, gets. destruct (Z.eqb_spec (len (logs (host_journal (i, (c, (ps, x)))))) (old + 1)) as [Hl|];
    [|by exists (inspector x); destruct x].
  destruct (last (logs _)) as [l|] eqn:Hlast; cbn [unwrap lift].
  2:{ apply last_None in Hlast. rewrite Hlast in Hl. unfold len in Hl. cbn in Hl. lia. }
  unfold lift, zoom, hook. cbn [fst snd]. destruct (ob_log l (inspector x) (c, ps)) as [n ->]. by exists n.
Qed.

Lemma observed_selfdestruct P m' m : observed P m' m -> observed P (inspect_selfdestruct I m') m.
Proof.
  intros Hm. apply (observed_wrap P m' m (fun _ => _) Hm). intros i c ps x Hs.
  unfold mbind, M_bind, gets. cbn [fst snd]. change (journal (host_journal (i, (c, (ps, x))))) with (journal c.2.1.1).
  destruct (last (journal c.2.1.1)) as [set|] eqn:Hlast; [|by apply last_None in Hlast].
  cbn [unwrap lift]. unfold lift.
  assert (Hno : exists n, mret (M := M (Interpreter * Full) Empty_set) tt (i, (c, (ps, x))) = (Ok tt, (i, (c, (ps, set_inspector n x)))))
    by (exists (inspector x); by destruct x).
  destruct (last set) as [[]|]; try exact Hno. unfold zoom. cbn [fst snd].
  destruct (ob_selfdestruct address target had_balance (inspector x)) as [n ->]. by exists n.
Qed.

(** *** The table, and the loop over it *)

Lemma observed_table spec opcode :
  observed (fun i => running i = true) (inspected_table I (make_instruction_table spec) opcode) (make_instruction_table spec opcode).
Proof.
  unfold inspected_table, make_instruction_table. pose proof (observed_instruction spec opcode) as Hi.
  destruct (_ && _); [by apply observed_log|]. destruct (_ =? 0xFF); [by apply observed_selfdestruct|done].
Qed.
Abbreviation spied spec := (inspected_table I (make_instruction_table spec)).

Lemma observed_bind (P : Interpreter -> Prop) {A B} (Q : A -> Interpreter -> Prop) (m' : M (Interpreter * Full) Empty_set A) (m : M (Interpreter * Ctx) Empty_set A) (f' : A -> M (Interpreter * Full) Empty_set B) f :
  observed P m' m -> (forall i c a i1 c1, P i -> m (i, c) = (Ok a, (i1, c1)) -> Q a i1) ->
  (forall a, observed (Q a) (f' a) (f a)) -> observed P (m' ≫= f') (m ≫= f).
Proof.
  intros Hm HQ Hf i c ps x r i1 c1 Hi Hs H. unfold mbind, M_bind in *.
  destruct (m (i, c)) as [r2 [i2 c2]] eqn:H2. destruct (Hm i c ps x r2 i2 c2 Hi Hs H2) as [Hs2 [n Hn]]. rewrite Hn.
  destruct r2 as [a|[]|]; [|by simplify_eq; split; [|exists n]].
  destruct (Hf a i2 c2 ps (set_inspector n x) r i1 c1 (HQ _ _ _ _ _ Hi H2) Hs2 H) as [Hs1 [n1 Hn1]].
  split; [done|]. exists n1. rewrite Hn1. done.
Qed.
Lemma observed_pure P {A} (m' : M (Interpreter * Full) Empty_set A) m :
  (forall i c x, m' (i, (c, x)) = let '(r, (i1, c1)) := m (i, c) in (r, (i1, (c1, x)))) ->
  (forall i c r i1 c1, m (i, c) = (r, (i1, c1)) -> c1 = c) -> observed P m' m.
Proof.
  intros Hm Hc i c ps x r i1 c1 _ Hs H. specialize (Hm i c (ps, x)). rewrite H in Hm. apply Hc in H as ->.
  split; [done|]. exists (inspector x). rewrite Hm. by destruct x.
Qed.
Lemma observed_gets P {A} (f : Interpreter -> A) :
  observed P (gets (fun s => f s.1)) (gets (fun s => f s.1)).
Proof. apply observed_pure; [done|]. by intros i c r i1 c1 [= _ _ <-]. Qed.
Lemma observed_lift P {A} (o : outcome Empty_set A) : observed P (lift o) (lift o).
Proof. apply observed_pure; [done|]. by intros i c r i1 c1 [= _ _ <-]. Qed.
Lemma observed_ret P {A} (a : A) : observed P (mret a) (mret a).
Proof. apply observed_pure; [done|]. by intros i c r i1 c1 [= _ _ <-]. Qed.
Lemma observed_modify P (f : Interpreter -> Interpreter) :
  observed P (modify (fun s => (f s.1, s.2))) (modify (fun s => (f s.1, s.2))).
Proof. apply observed_pure; [done|]. by intros i c r i1 c1 [= _ _ <-]. Qed.

Lemma observed_step spec : observed (fun i => running i = true) (step_with (spied spec)) (step spec).
Proof.
  set (R i := running i = true).
  apply (observed_bind R (fun _ => R)); [apply (observed_gets R id)|by intros ????? ? [= _ <- _]|intros j].
  apply (observed_bind R (fun _ => R)); [apply observed_lift|by intros ????? ? [= _ <- _]|intros opcode].
  apply (observed_bind R (fun _ => R));
    [apply (observed_modify R (fun i => set_pc (instruction_pointer i + 1) i))|intros i c a i1 c1 HR [= _ <- _]; exact HR|intros _].
  apply observed_table.
Qed.
Lemma observed_run_loop fuel spec : seen (run_loop_with fuel (spied spec)) (run_loop fuel spec).
Proof.
  induction fuel as [|fuel IH]; cbn [run_loop_with run_loop].
  - eapply (observed_bind _ (fun _ _ => True)); [apply (observed_gets _ id)|done|intros i]. destruct (running i); apply observed_ret.
  - eapply (observed_bind _ (fun i j => i = j)); [apply (observed_gets _ id)|by intros i c a i1 c1 _ [= -> -> _]|intros i].
    destruct (running i) eqn:Hi; [|apply observed_ret].
    apply (observed_bind _ (fun _ _ => True)); [|done|intros _; exact IH].
    intros j c ps x r i1 c1 <- Hs H. by apply (observed_step spec).
Qed.
Lemma observed_run fuel spec memory : seen (run_with fuel (spied spec) memory) (run fuel spec memory).
Proof.
  unfold run_with, run. apply (observed_bind _ (fun _ _ => True)); [|done|intros _].
  { apply (observed_modify _ (fun i => set_memory memory (set_next_action IA_None i))). }
  apply (observed_bind _ (fun _ _ => True)); [apply observed_run_loop|done|intros []; [|apply observed_ret]].
  apply (observed_bind _ (fun _ _ => True)); [apply (observed_gets _ id)|done|intros i].
  destruct (IA_is_some _); [|apply observed_ret].
  apply (observed_bind _ (fun _ _ => True)); [apply (observed_modify _ (set_next_action IA_None))|done|intros _; apply observed_ret].
Qed.
End observed.

(** ** The handlers *)

Section handlers.
Context {DB DbErr : Type} `{HDB : Database DB DbErr} `{HK : Keccak} `{HC : CreateAddress}.
Context {INSP : Type} (I : Inspector (DB := DB) (DbErr := DbErr) INSP) `{HO : !Observes I}.
Context {Fork : Type} `{HF : !HardForks Fork (DB := DB) (DbErr := DbErr)} (fork : Fork).
Abbreviation Ctx := (EvmContext (DB := DB) (DbErr := DbErr)).
Abbreviation Full := (FullContext (DB := DB) (DbErr := DbErr) (EXT := Inspected INSP)).
Abbreviation CM := (M Ctx (EVMError DbErr)).
Abbreviation HM := (M Full (EVMError DbErr)).
Abbreviation CtxM := (M (JournaledState * DB) (EVMError DbErr)).
Abbreviation mainnet := (mainnet_core (DbErr := DbErr) (EXT := Inspected INSP) frame_fuel fork).
Abbreviation spied := (inspector_handle_register I mainnet).
Abbreviation kept_in P m := (preserves (fun c : Ctx => has_sets c.2.1) P m).

(** *** What the stacks hold: the inputs of the calls and creations under way *)

Context (x0 : Inspected INSP).
Fixpoint tally (ks : list Kind) (x : Inspected INSP) : Prop :=
  match ks with
  | [] => call_input_stack x = call_input_stack x0 /\ create_input_stack x = create_input_stack x0
          /\ eofcreate_input_stack x = eofcreate_input_stack x0
  | KCall :: ks => exists i l, call_input_stack x = i :: l /\ tally ks (set_call_inputs l x)
  | KCreate :: ks => exists i l, create_input_stack x = i :: l /\ tally ks (set_create_inputs l x)
  | KEof :: ks => tally ks x
  end.
Lemma tally_inspector ks n x : tally ks x -> tally ks (set_inspector n x).
Proof.
  revert x. induction ks as [|[] ks IH]; intros x; [done|..]; cbn [tally]; [..|apply IH]; intros (i & l & Hl & Ht); exists i, l.
  - split; [exact Hl|exact (IH (set_call_inputs l x) Ht)].
  - split; [exact Hl|exact (IH (set_create_inputs l x) Ht)].
Qed.

Context (ps : ContextPrecompiles (DB := DB)).
Definition watches (P : Inspected INSP -> Prop) {A} (m' : HM A) (m : CM A) (Q : A -> Inspected INSP -> Prop) : Prop :=
  forall (c : Ctx) x r (c1 : Ctx), has_sets c.2.1 -> P x -> m c = (r, c1) ->
    exists x1, m' (c, (ps, x)) = (r, (c1, (ps, x1))) /\ match r with Ok a => has_sets c1.2.1 /\ Q a x1 | _ => True end.

Lemma watch_bind P {A B} (Q : A -> Inspected INSP -> Prop) (R : B -> Inspected INSP -> Prop) (m' : HM A) (m : CM A) (f' : A -> HM B) f :
  watches P m' m Q -> (forall a, watches (Q a) (f' a) (f a) R) -> watches P (m' ≫= f') (m ≫= f) R.
Proof.
  intros Hm Hf c x r c1 Hs HP H. unfold mbind, M_bind in *. destruct (m c) as [r2 c2] eqn:H2.
  destruct (Hm c x r2 c2 Hs HP H2) as (x2 & -> & Hr). destruct r2 as [a|e|]; [|by simplify_eq; exists x2..].
  destruct Hr as [Hs2 HQ]. exact (Hf a c2 x2 r c1 Hs2 HQ H).
Qed.
Lemma watch_ret P {A} (Q : A -> Inspected INSP -> Prop) a : (forall x, P x -> Q a x) -> watches P (mret a) (mret a) Q.
Proof. intros HQ c x r c1 Hs HP [= <- <-]. exists x. split; [done|]. auto. Qed.
Lemma watch_panic P {A} (Q : A -> Inspected INSP -> Prop) : watches P (lift Panic) (lift Panic) Q.
Proof. intros c x r c1 Hs HP [= <- <-]. by exists x. Qed.
(** A handler that the register leaves as it is. *)
Lemma watch_same P {A} (T : A -> Prop) (m' : HM A) m :
  (forall x, same_at (ps, x) m' m) -> kept_in T m -> watches P m' m (fun a x => T a /\ P x).
Proof.
  intros Hm HT c x r c1 Hs HP H. specialize (Hm x c). rewrite H in Hm. exists x. split; [done|].
  specialize (HT c Hs). rewrite H in HT. destruct r; [|done..]. by destruct HT.
Qed.
(** A step that the register adds before a handler. *)
Lemma watch_before P {A B} (R : A -> Inspected INSP -> Prop) (h : HM A) (f' : A -> HM B) (m : CM B) Q :
  (forall c x, P x -> exists a x1, h (c, (ps, x)) = (Ok a, (c, (ps, x1))) /\ R a x1) ->
  (forall a, watches (R a) (f' a) m Q) -> watches P (h ≫= f') m Q.
Proof.
  intros Hh Hf c x r c1 Hs HP H. destruct (Hh c x HP) as (a & x1 & Hc & HR). unfold mbind, M_bind. rewrite Hc.
  exact (Hf a c x1 r c1 Hs HR H).
Qed.
(** And one that it adds at the end. *)
Lemma watch_after P {A} (Q R : A -> Inspected INSP -> Prop) (m' : HM A) (m : CM A) (g : A -> HM A) :
  watches P m' m Q ->
  (forall a c x, Q a x -> exists x1, g a (c, (ps, x)) = (Ok a, (c, (ps, x1))) /\ R a x1) ->
  watches P (m' ≫= g) m R.
Proof.
  intros Hm Hg c x r c1 Hs HP H. destruct (Hm c x r c1 Hs HP H) as (x1 & Hx & Hr). unfold mbind, M_bind. rewrite Hx.
  destruct r as [a|e|]; [|by exists x1..]. destruct Hr as [Hs1 HQ]. destruct (Hg a c1 x1 HQ) as (x2 & -> & HR). by exists x2.
Qed.
Lemma watch_mono P P' {A} (Q Q' : A -> Inspected INSP -> Prop) (m' : HM A) m :
  (forall x, P' x -> P x) -> (forall a x, Q a x -> Q' a x) -> watches P m' m Q -> watches P' m' m Q'.
Proof.
  intros HP HQ Hm c x r c1 Hs HP' H. destruct (Hm c x r c1 Hs (HP x HP') H) as (x1 & Hx & Hr). exists x1. split; [done|].
  destruct r; [|done..]. destruct Hr. auto.
Qed.

Lemma kept_on_inner {A} (T : A -> Prop) (m : CtxM A) : preserves has_sets T m -> kept_in T (on_inner m).
Proof.
  intros Hm [env [s err]] Hs. unfold on_inner, on_evm, on_ctx, zoom. cbn [fst snd]. specialize (Hm s Hs).
  by destruct (m s) as [[] ?].
Qed.
Lemma kept_env {A} (T : A -> Prop) (f : Env -> CM A) : (forall env, kept_in T (f env)) -> kept_in T ('(env, _) ← get; f env).
Proof. intros Hf [env s] Hs. apply (Hf env _ Hs). Qed.
Lemma kept_take_error : kept_in (fun _ => True) (on_evm (DB := DB) (DbErr := DbErr) take_error).
Proof. intros [env [s [e|]]] Hs; by repeat split. Qed.
Lemma watch_ext P {A} (Q : A -> Inspected INSP -> Prop) (m' : HM A) (m m2 : CM A) :
  (forall c, m2 c = m c) -> watches P m' m Q -> watches P m' m2 Q.
Proof. intros He Hm c x r c1 Hs HP H. rewrite He in H. exact (Hm c x r c1 Hs HP H). Qed.

Lemma watch_pure (H : Prop) P {A} (Q : A -> Inspected INSP -> Prop) (m' : HM A) (m : CM A) :
  (H -> watches P m' m Q) -> watches (fun x => H /\ P x) m' m Q.
Proof. intros Hm c x r c1 Hs [HH HP]. by apply (Hm HH). Qed.
Lemma watch_ext_l P {A} (Q : A -> Inspected INSP -> Prop) (m' m2 : HM A) (m : CM A) :
  (forall s, m' s = m2 s) -> watches P m2 m Q -> watches P m' m Q.
Proof. intros He Hm c x r c1 Hs HP H. rewrite He. exact (Hm c x r c1 Hs HP H). Qed.

(** *** The execution of a frame *)

Lemma watch_execute ks f memory :
  watches (tally ks) (ex_execute_frame (execution spied) f memory (instruction_table spied))
    (execute_frame (fork_spec fork) f memory)
    (fun r x => same_place f r.1.2 /\ tally ks x).
Proof.
  intros c x r c1 Hs Ht H. unfold execute_frame in H.
  change (ex_execute_frame (execution spied) f memory (instruction_table spied)) with
    (main_execute_frame (DbErr := DbErr) frame_fuel f memory (Boxed (inspected_table I (make_instruction_table (fork_spec fork))))).
  unfold main_execute_frame. cbv zeta in *.
  destruct (run (frame_fuel (frame_interpreter f)) (fork_spec fork) memory (frame_interpreter f, c)) as [r1 [i1 c2]] eqn:Hr.
  destruct (observed_run I _ _ _ _ c ps x r1 i1 c2 Logic.I Hs Hr) as [Hs1 [n Hn]].
  unfold FullContext in *. rewrite Hn. assert (Ht' := tally_inspector ks n x Ht).
  destruct r1 as [[a|]|[]|]; [|by simplify_eq; eexists..].
  destruct (take_memory i1) as [memory' i2]. simplify_eq. eexists. split; [done|]. cbn [fst snd].
  by destruct f.
Qed.

(** *** The entries *)

Lemma same_frame_again f : set_frame_interpreter (frame_interpreter f) f = f.
Proof. by destruct f as [? []|? []|? ? []]. Qed.

Lemma initialize_watches ks fr c x :
  tally ks x -> exists x1, initialize_frame I fr (c, (ps, x)) = (Ok fr, (c, (ps, x1))) /\ tally ks x1.
Proof.
  intros Ht. destruct fr as [f|r]; [|by exists x]. cbn [initialize_frame]. unfold hook_interp.
  destruct (ob_initialize (inspector x) (frame_interpreter f, (c, ps))) as [n ->]. rewrite same_frame_again.
  exists (set_inspector n x). split; [done|by apply tally_inspector].
Qed.

Lemma watch_inspect_call ks inputs (m : CM FrameOrResult) (T : FrameOrResult -> Prop) old :
  (forall x, same_at (ps, x) (old inputs) m) -> kept_in T m ->
  watches (tally ks) (inspect_call I old inputs) m (fun fr x => T fr /\ tally (KCall :: ks) x).
Proof.
  intros Hm HT. unfold inspect_call.
  apply (watch_before _ (fun p x => p = (inputs, None) /\ tally ks x)).
  { intros c x Ht. unfold hook. destruct (ob_call inputs (inspector x) (c, ps)) as [n ->].
    eexists _, _. split; [done|]. split; [done|by apply tally_inspector]. }
  intros [i o] c x r c1 Hs [[= -> ->] Ht]. revert c x r c1 Hs Ht.
  change (watches (tally ks) (push_call inputs ≫= fun _ => old inputs ≫= initialize_frame I) m
    (fun fr x => T fr /\ tally (KCall :: ks) x)).
  apply (watch_before _ (fun _ => tally (KCall :: ks))).
  { intros c x Ht. eexists _, _. split; [done|]. eexists _, _. split; [done|]. by destruct x. }
  intros _. eapply watch_after; [by apply (watch_same _ T)|]. intros fr c x [Hfr Ht].
  destruct (initialize_watches _ fr c x Ht) as (x1 & -> & Ht1). by exists x1.
Qed.
Lemma watch_inspect_create ks inputs (m : CM FrameOrResult) (T : FrameOrResult -> Prop) old :
  (forall x, same_at (ps, x) (old inputs) m) -> kept_in T m ->
  watches (tally ks) (inspect_create I old inputs) m (fun fr x => T fr /\ tally (KCreate :: ks) x).
Proof.
  intros Hm HT. unfold inspect_create.
  apply (watch_before _ (fun p x => p = (inputs, None) /\ tally ks x)).
  { intros c x Ht. unfold hook. destruct (ob_create inputs (inspector x) (c, ps)) as [n ->].
    eexists _, _. split; [done|]. split; [done|by apply tally_inspector]. }
  intros [i o] c x r c1 Hs [[= -> ->] Ht]. revert c x r c1 Hs Ht.
  change (watches (tally ks) (push_create inputs ≫= fun _ => old inputs ≫= initialize_frame I) m
    (fun fr x => T fr /\ tally (KCreate :: ks) x)).
  apply (watch_before _ (fun _ => tally (KCreate :: ks))).
  { intros c x Ht. eexists _, _. split; [done|]. eexists _, _. split; [done|]. by destruct x. }
  intros _. eapply watch_after; [by apply (watch_same _ T)|]. intros fr c x [Hfr Ht].
  destruct (initialize_watches _ fr c x Ht) as (x1 & -> & Ht1). by exists x1.
Qed.
(** *** The outcomes *)

Lemma pop_call_watches ks c x : tally (KCall :: ks) x ->
  exists i x1, pop_call (DB := DB) (DbErr := DbErr) (c, (ps, x)) = (Ok i, (c, (ps, x1))) /\ tally ks x1.
Proof. intros (i & l & Hl & Ht). exists i, (set_call_inputs l x). split; [|done]. unfold pop_call, on_stacks. by rewrite Hl. Qed.
Lemma pop_create_watches ks c x : tally (KCreate :: ks) x ->
  exists i x1, pop_create (DB := DB) (DbErr := DbErr) (c, (ps, x)) = (Ok i, (c, (ps, x1))) /\ tally ks x1.
Proof. intros (i & l & Hl & Ht). exists i, (set_create_inputs l x). split; [|done]. unfold pop_create, on_stacks. by rewrite Hl. Qed.

(** The hook at the end of a call, after the inputs are popped. *)
Lemma call_end_watches {A} ks o (f' : CallOutcome -> HM A) (m : CM A) Q :
  (forall r, same_but_gas r (co_result o) -> watches (tally ks) (f' (mkCallOutcome r (memory_offset o))) m Q) ->
  watches (tally (KCall :: ks)) (inputs ← pop_call; o ← hook (insp_call_end I inputs o); f' o) m Q.
Proof.
  intros Hf. apply (watch_before _ (fun _ => tally ks)); [apply pop_call_watches|intros inputs].
  apply (watch_before _ (fun o' x => (exists r, same_but_gas r (co_result o) /\ o' = mkCallOutcome r (memory_offset o)) /\ tally ks x)).
  - intros c x Ht. unfold hook. destruct (ob_call_end inputs o (inspector x) (c, ps)) as (n & r & Hr & ->).
    eexists _, _. split; [done|]. split; [by exists r|by apply tally_inspector].
  - intros o' c x r c1 Hs [(r' & Hr & ->) Ht]. by apply (Hf r').
Qed.
Lemma create_end_watches {A} ks o (f' : CreateOutcome -> HM A) (m : CM A) Q :
  (forall r, same_but_gas r (cro_result o) -> watches (tally ks) (f' (mkCreateOutcome r (cro_address o))) m Q) ->
  watches (tally (KCreate :: ks)) (inputs ← pop_create; o ← hook (insp_create_end I inputs o); f' o) m Q.
Proof.
  intros Hf. apply (watch_before _ (fun _ => tally ks)); [apply pop_create_watches|intros inputs].
  apply (watch_before _ (fun o' x => (exists r, same_but_gas r (cro_result o) /\ o' = mkCreateOutcome r (cro_address o)) /\ tally ks x)).
  - intros c x Ht. unfold hook. destruct (ob_create_end inputs o (inspector x) (c, ps)) as (n & r & Hr & ->).
    eexists _, _. split; [done|]. split; [by exists r|by apply tally_inspector].
  - intros o' c x r c1 Hs [(r' & Hr & ->) Ht]. by apply (Hf r').
Qed.

Lemma kept_insert r f memory : kept_in (fun p => same_place f p.1) (insert_outcome r f memory).
Proof.
  unfold insert_outcome. apply preserves_seq; [apply kept_take_error|intros _]. cbv zeta.
  assert (Hset : forall i memory', kept_in (fun p : Frame * SharedMemory => same_place f p.1)
    (mret (set_frame_interpreter i f, memory') : CM (Frame * SharedMemory))) by (intros i memory'; apply preserves_ret; by destruct f).
  destruct r; (apply preserves_seq; [apply preserves_lift_any|]); [intros [? [? ?]]|intros [? ?]..]; apply Hset.
Qed.

Lemma watch_insert ks r f memory :
  watches (tally (result_kind r :: ks)) (insert_result spied r f memory) (insert_outcome r f memory)
    (fun p x => same_place f p.1 /\ tally ks x).
Proof.
  assert (Hs : forall r, watches (tally ks) (insert_result mainnet r f memory) (insert_outcome r f memory)
    (fun p x => same_place f p.1 /\ tally ks x)).
  { intros r'. apply (watch_same _ (fun p => same_place f p.1)); [|apply kept_insert].
    intros x. apply same_insert. }
  destruct r as [o|o|o].
  - apply call_end_watches. intros r' Hr. specialize (Hs (FR_Call (mkCallOutcome r' (memory_offset o)))).
    eapply watch_ext; [|exact Hs]. intros c. unfold insert_outcome. destruct o as [r off]. by rewrite (insert_call_blind r' r).
  - apply (watch_ext_l _ _ _ (inputs ← pop_create; o ← hook (insp_create_end I inputs o);
      top ← ex_insert_create_outcome (execution mainnet) f o; mret (top, memory))).
    { intros s. unfold insert_result. cbn [execution inspector_handle_register take_instruction_table set_execution inspected_execution
        ex_insert_create_outcome]. unfold inspect_insert_create, mbind, M_bind.
      destruct (pop_create s) as [[inputs|e|] s1]; [|done..]. by destruct (hook _ s1) as [[]]. }
    apply create_end_watches. intros r' Hr. specialize (Hs (FR_Create (mkCreateOutcome r' (cro_address o)))).
    eapply watch_ext; [|exact Hs]. intros c. unfold insert_outcome. destruct o as [r a]. by rewrite (insert_create_blind r' r).
  - apply Hs.
Qed.
(** *** The loop *)

Context (Hps : steady_precompiles ps).
Definition kinds (fs : list Frame) : list Kind := frame_kind <$> fs.
(** The outermost frame is not a creation of EOF. *)
Definition rooted (ks : list Kind) : Prop := last ks <> Some KEof.
Definition in_loop (l : LoopState) : Prop := Forall guarded (call_stack l) /\ rooted (kinds (call_stack l)).
Definition entered (p : FrameOrResult * LoopState) : Prop :=
  match p.1 with FOR_Frame f => guarded f | FOR_Result _ => True end /\
  Forall guarded (call_stack p.2) /\ rooted (entry_kind p.1 :: kinds (call_stack p.2)).

Lemma kept_frame_return f r : guarded f -> kept_in (fun res => result_kind res = frame_kind f) (frame_return (fork_spec fork) f r).
Proof.
  intros Hf. unfold frame_return. apply kept_env. intros env. cbv zeta.
  destruct f as [range d|a d|a range d]; (apply preserves_seq; [apply kept_on_inner|intros ?; by apply preserves_ret]).
  - by apply kept_call_return.
  - by apply kept_create_return.
  - by apply kept_eofcreate_return.
Qed.

Lemma same_calls inputs x :
  same_at (ps, x) (ex_call (execution mainnet) inputs) ('(env, _) ← get; on_inner (make_call_frame ps env inputs)).
Proof. intros [env s]. apply (same_main (ps, x) (fun env => make_call_frame ps env inputs)). Qed.
Lemma same_creates inputs x :
  same_at (ps, x) (ex_create (execution mainnet) inputs) ('(_, _) ← get; on_inner (make_create_frame (fork_spec fork) inputs)).
Proof. intros [env s]. apply (same_main (ps, x) (fun _ => make_create_frame (fork_spec fork) inputs)). Qed.
Lemma same_eofcreates inputs x :
  same_at (ps, x) (ex_eofcreate (execution mainnet) inputs) ('(_, _) ← get; on_inner (make_eofcreate_frame (fork_spec fork) inputs)).
Proof. intros [env s]. apply (same_main (ps, x) (fun _ => make_eofcreate_frame (fork_spec fork) inputs)). Qed.

(** What an entry leads to, with the frames that are there. *)
Lemma watch_entry k top rest memory (m' : HM FrameOrResult) (m : CM FrameOrResult) :
  in_loop (mkLoop (top :: rest) memory) ->
  watches (tally (kinds (top :: rest))) m' m (fun fr x => guarded_entry k fr /\ tally (k :: kinds (top :: rest)) x) ->
  watches (tally (kinds (top :: rest))) (r ← m'; mret (r, mkLoop (top :: rest) memory)) (r ← m; mret (r, mkLoop (top :: rest) memory))
    (fun p x => entered p /\ tally (entry_kind p.1 :: kinds (call_stack p.2)) x).
Proof.
  intros [Hg Hr] Hm. eapply watch_bind; [exact Hm|]. intros fr. apply watch_ret. intros x [[Hk Hf] Ht].
  unfold entered. cbn [fst snd call_stack]. rewrite Hk. by split_and!.
Qed.

Lemma watch_act a top rest memory :
  in_loop (mkLoop (top :: rest) memory) ->
  watches (tally (kinds (top :: rest))) (act spied a top rest memory) (handle_action ps (fork_spec fork) a top rest memory)
    (fun p x => entered p /\ tally (entry_kind p.1 :: kinds (call_stack p.2)) x).
Proof.
  intros Hl. destruct a as [inputs|inputs|inputs|result|].
  - eapply watch_ext; [|apply (watch_entry KCall); [exact Hl|apply watch_inspect_call; [apply same_calls|]]]; [by intros [env s]|].
    apply kept_env. intros env. by apply kept_on_inner, kept_call_frame.
  - eapply watch_ext; [|apply (watch_entry KCreate); [exact Hl|apply watch_inspect_create; [apply same_creates|]]]; [by intros [env s]|].
    apply kept_env. intros env. apply kept_on_inner, kept_create_frame.
  - eapply watch_ext; [|apply (watch_entry KEof); [exact Hl|apply watch_same; [apply same_eofcreates|]]]; [by intros [env s]|].
    apply kept_env. intros env. apply kept_on_inner, kept_eofcreate_frame.
  - destruct Hl as [[Hg Hgs]%Forall_cons Hr].
    eapply (watch_ext _ _ _ (r ← frame_return (fork_spec fork) top result; mret (FOR_Result r, mkLoop rest (free_context memory)))).
    { by intros [env s]. }
    eapply watch_bind; [apply (watch_same _ (fun res => result_kind res = frame_kind top)); [intros x; apply same_return|by apply kept_frame_return]|].
    intros r. apply watch_ret. intros x [Hk Ht]. unfold entered. cbn [fst snd call_stack entry_kind]. rewrite Hk. by split_and!.
  - eapply watch_ext; [|apply watch_panic]. by intros [env s].
Qed.

Lemma watch_settle fr l :
  entered (fr, l) ->
  watches (tally (entry_kind fr :: kinds (call_stack l))) (settle spied fr l) (handle_result fr l)
    (fun r x => match r with
                | inl res => result_kind res <> KEof /\ tally [result_kind res] x
                | inr l => in_loop l /\ tally (kinds (call_stack l)) x
                end).
Proof.
  intros (Hf & Hg & Hr). cbn [fst snd] in *. destruct fr as [f|res]; cbn [settle handle_result].
  - apply watch_ret. intros x Ht. split; [|exact Ht]. split; [by constructor|exact Hr].
  - destruct (call_stack l) as [|top rest] eqn:Hl; cbn [entry_kind] in *.
    + apply watch_ret. intros x Ht. split; [|exact Ht]. intros Hk. apply Hr. cbn. by rewrite Hk.
    + eapply watch_bind; [apply watch_insert|]. intros [f memory]. apply watch_ret. intros x [[Hk Hgf] Ht].
      cbn [fst] in *. apply Forall_cons in Hg as [Hg Hgs]. unfold in_loop, kinds in *. cbn [call_stack]. rewrite fmap_cons, Hk.
      split; [|exact Ht]. split; [by constructor; [apply Hgf|]|]. exact Hr.
Qed.

Lemma watch_step l : in_loop l ->
  watches (tally (kinds (call_stack l))) (loop_step_with spied l) (loop_step ps (fork_spec fork) l)
    (fun r x => match r with
                | inl res => result_kind res <> KEof /\ tally [result_kind res] x
                | inr l => in_loop l /\ tally (kinds (call_stack l)) x
                end).
Proof.
  intros [Hg Hr]. unfold loop_step_with, loop_step. destruct (call_stack l) as [|top rest] eqn:Hc; [apply watch_panic|].
  eapply watch_bind; [apply watch_execute|]. intros [[a top'] memory]. apply watch_pure. intros [Hk Hgt]. cbn [fst snd] in *.
  eapply watch_bind; [apply (watch_same _ (fun _ => True)); [intros x; apply same_context|apply kept_take_error]|]. intros u.
  apply Forall_cons in Hg as [Hg Hgs]. unfold kinds in *. rewrite fmap_cons, <- Hk in *.
  assert (Hl : in_loop (mkLoop (top' :: rest) memory)) by (split; [by constructor; [apply Hgt|]|exact Hr]).
  apply watch_pure. intros _. eapply watch_bind; [by apply watch_act|]. intros [fr l']. apply watch_pure. apply watch_settle.
Qed.

Lemma watch_loop fuel l : in_loop l ->
  watches (tally (kinds (call_stack l))) (frames_loop_with spied fuel l) (frames_loop ps fuel (fork_spec fork) l)
    (fun o x => match o with None => True | Some res => result_kind res <> KEof /\ tally [result_kind res] x end).
Proof.
  revert l. induction fuel as [|fuel IH]; intros l Hl; cbn [frames_loop_with frames_loop]; [by apply watch_ret|].
  eapply watch_bind; [by apply watch_step|]. intros [res|l']; [by apply watch_ret|].
  apply watch_pure. intros Hl'. by apply IH.
Qed.
(** *** The end of a transaction *)

Lemma kept_output r : kept_in (fun _ => True) (on_evm (DB := DB) (DbErr := DbErr) (output r)).
Proof.
  apply (preserves_zoom _ (fun s => has_sets s.1)); [done|done|].
  unfold output. apply preserves_seq; [by intros [s [e|]] Hs|intros _]. cbv zeta.
  apply preserves_seq; [apply preserves_lift_any|intros out].
  apply preserves_seq; [intros [[j d] err] _; by split|intros [st lg]].
  apply preserves_seq; [apply preserves_lift_any|intros res]. by apply preserves_ret.
Qed.
Lemma kept_finish r : kept_in (fun _ => True) (finish_transaction (DB := DB) (DbErr := DbErr) (fork_spec fork) r).
Proof.
  unfold finish_transaction. apply kept_env. intros env. cbv zeta.
  apply preserves_seq; [apply kept_on_inner, kept, stays_reimburse|intros _].
  apply preserves_seq; [apply kept_on_inner, kept, stays_reward|intros _]. apply kept_output.
Qed.
Lemma finish_gas r' r c : same_but_gas r' (interpreter_result r) ->
  finish_transaction (DB := DB) (DbErr := DbErr) (fork_spec fork) r c =
    finish_transaction (fork_spec fork) (set_interpreter_result r' r) c.
Proof. intros Hr. destruct c as [env s]. unfold finish_transaction, mbind, M_bind, get. by rewrite (last_return_gas _ _ r' r Hr). Qed.

Lemma watch_finish r : result_kind r <> KEof ->
  watches (tally [result_kind r]) (finish_with spied r) (finish_transaction (fork_spec fork) r) (fun _ => tally []).
Proof.
  intros Hk.
  assert (Hs : forall r, watches (tally []) (finish_with mainnet r) (finish_transaction (fork_spec fork) r) (fun _ => tally [])).
  { intros r'. apply (watch_mono (tally []) _ (fun _ x => True /\ tally [] x)); [done|by intros a x [_ Ht]|].
    apply (watch_same _ (fun _ => True)); [intros x; apply same_finish|apply kept_finish]. }
  destruct r as [o|o|o]; [| |done].
  - eapply (watch_ext_l _ _ _ (inputs ← pop_call; o ← hook (insp_call_end I inputs o); finish_with mainnet (FR_Call o))).
    { intros s. unfold finish_with, mbind, M_bind. cbn [execution inspector_handle_register take_instruction_table set_execution
        inspected_execution ex_last_frame_return]. unfold inspect_last_frame, mbind, M_bind.
      destruct (pop_call s) as [[inputs|e|] s1]; [|done..]. by destruct (hook _ s1) as [[]]. }
    apply call_end_watches. intros r' Hr. eapply watch_ext; [|apply (Hs (FR_Call (mkCallOutcome r' (memory_offset o))))].
    intros c. by apply (finish_gas r' (FR_Call o)).
  - eapply (watch_ext_l _ _ _ (inputs ← pop_create; o ← hook (insp_create_end I inputs o); finish_with mainnet (FR_Create o))).
    { intros s. unfold finish_with, mbind, M_bind. cbn [execution inspector_handle_register take_instruction_table set_execution
        inspected_execution ex_last_frame_return]. unfold inspect_last_frame, mbind, M_bind.
      destruct (pop_create s) as [[inputs|e|] s1]; [|done..]. by destruct (hook _ s1) as [[]]. }
    apply create_end_watches. intros r' Hr. eapply watch_ext; [|apply (Hs (FR_Create (mkCreateOutcome r' (cro_address o))))].
    intros c. by apply (finish_gas r' (FR_Create o)).
Qed.

(** *** The first frame *)

Definition enter_in (env : Env) (g : Z) : HM FrameOrResult :=
  match transact_to (tx env) with
  | TT_Call _ => inputs ← lift (unwrap (CallInputs_new (tx env) g)); ex_call (execution spied) inputs
  | TT_Create => inputs ← lift (unwrap (CreateInputs_new (tx env) g)); ex_create (execution spied) inputs
  end.
Definition first_in (env : Env) (g : Z) : CM FrameOrResult :=
  match transact_to (tx env) with
  | TT_Call _ => inputs ← lift (unwrap (CallInputs_new (tx env) g)); '(env, _) ← get; on_inner (make_call_frame ps env inputs)
  | TT_Create =>
      inputs ← lift (unwrap (CreateInputs_new (tx env) g)); '(_, _) ← get; on_inner (make_create_frame (fork_spec fork) inputs)
  end.

Lemma watch_lift P {A} (o : outcome (EVMError DbErr) A) : watches P (lift o) (lift o) (fun _ => P).
Proof. intros c x r c1 Hs HP [= <- <-]. exists x. split; [done|]. by destruct o. Qed.

Lemma watch_enter env g :
  watches (tally []) (enter_in env g) (first_in env g)
    (fun fr x => (entry_kind fr <> KEof /\ guarded_entry (entry_kind fr) fr) /\ tally [entry_kind fr] x).
Proof.
  unfold enter_in, first_in. destruct (transact_to (tx env)) as [a|]; (eapply watch_bind; [apply watch_lift|intros inputs]).
  - eapply watch_mono; [| |apply (watch_inspect_call [] inputs _ (guarded_entry KCall)); [apply same_calls|]];
      [by intros x| |apply kept_env; intros e; by apply kept_on_inner, kept_call_frame].
    intros fr x [[Hk Hf] Ht]. unfold guarded_entry. by rewrite Hk.
  - eapply watch_mono; [| |apply (watch_inspect_create [] inputs _ (guarded_entry KCreate)); [apply same_creates|]];
      [by intros x| |apply kept_env; intros e; apply kept_on_inner, kept_create_frame].
    intros fr x [[Hk Hf] Ht]. unfold guarded_entry. by rewrite Hk.
Qed.

Lemma watch_run fuel fr : entry_kind fr <> KEof -> guarded_entry (entry_kind fr) fr ->
  watches (tally [entry_kind fr]) (run_entered_with spied fuel fr)
    (match fr with FOR_Frame f => run_the_loop ps fuel (fork_spec fork) f | FOR_Result r => mret (Some r) end)
    (fun o x => match o with None => True | Some res => result_kind res <> KEof /\ tally [result_kind res] x end).
Proof.
  intros Hk [_ Hg]. destruct fr as [f|r]; [|by apply watch_ret].
  apply (watch_loop fuel (mkLoop [f] (new_context SharedMemory_new))).
  split; [by apply Forall_singleton|]. unfold rooted. cbn. by intros [= He].
Qed.

(** The execution from the first frame on. *)
Lemma watch_execution fuel env g :
  watches (tally []) (fr ← enter_in env g; result ← run_entered_with spied fuel fr;
      match result with None => mret None | Some result => r ← finish_with spied result; mret (Some r) end)
    (fr ← first_in env g;
     result ← match fr with FOR_Frame f => run_the_loop ps fuel (fork_spec fork) f | FOR_Result r => mret (Some r) end;
     match result with None => mret None | Some result => r ← finish_transaction (fork_spec fork) result; mret (Some r) end)
    (fun o x => o <> None -> tally [] x).
Proof.
  eapply watch_bind; [apply watch_enter|intros fr]. apply watch_pure. intros [Hk Hg].
  eapply watch_bind; [by apply watch_run|]. intros [res|]; [|by apply watch_ret].
  apply watch_pure. intros Hr. eapply watch_bind; [by apply watch_finish|]. intros a. by apply watch_ret.
Qed.
End handlers.

(** ** A transaction under an observer *)

Section transaction.
Context {DB DbErr : Type} `{HDB : Database DB DbErr} `{HK : Keccak} `{HC : CreateAddress}.
Context {INSP : Type} (I : Inspector (DB := DB) (DbErr := DbErr) INSP) `{HO : !Observes I}.
Context {Fork : Type} `{HF : !HardForks Fork (DB := DB) (DbErr := DbErr)} (fork : Fork).
Abbreviation Ctx := (EvmContext (DB := DB) (DbErr := DbErr)).
Abbreviation Full := (FullContext (DB := DB) (DbErr := DbErr) (EXT := Inspected INSP)).
Abbreviation CM := (M Ctx (EVMError DbErr)).
Abbreviation HM := (M Full (EVMError DbErr)).
Abbreviation mainnet := (mainnet_core (DbErr := DbErr) (EXT := Inspected INSP) frame_fuel fork).
Abbreviation spied := (inspector_handle_register I mainnet).
Abbreviation ps_of := (fun _ : SpecId => fork_precompiles_of fork).
Abbreviation loaded := (load_precompiles (DbErr := DbErr) ps_of (fork_spec fork)).

(** From [c], [m'] does what [m] does, and leaves an external part of [Q]. *)
Definition runs (ps : ContextPrecompiles (DB := DB)) (x : Inspected INSP) {A} (m' : HM A) (m : CM A) (c : Ctx)
  (Q : A -> Inspected INSP -> Prop) : Prop :=
  forall r (c1 : Ctx), m c = (r, c1) ->
    exists ps1 x1, m' (c, (ps, x)) = (r, (c1, (ps1, x1))) /\ match r with Ok a => Q a x1 | _ => True end.

Lemma runs_main ps x env s {A B} (f : Env -> M (JournaledState * DB) (EVMError DbErr) A) (k' : A -> HM B) (k : A -> CM B) Q :
  has_sets s.1 -> moving sets_stay_in (f env) ->
  (forall a s1, has_sets s1.1 -> runs ps x (k' a) (k a) (env, s1) Q) ->
  runs ps x (main f ≫= k') (on_inner (f env) ≫= k) (env, s) Q.
Proof.
  intros Hs Hm Hk r c1. pose proof (kept _ Hm s.1 Hs) as Hkept.
  unfold main, mbind, M_bind, context_env, gets, on_context, on_inner, on_evm, on_ctx, zoom. cbn [fst snd].
  destruct (f env s.1) as [[a|e|] s1]; [|by intros [= <- <-]; eexists _, _..].
  destruct Hkept as [_ Hs1]. by apply (Hk a (s1, s.2)).
Qed.
Lemma runs_precompiles ps ps1 x env s {B} (k' : unit -> HM B) (k : unit -> CM B) Q :
  has_sets s.1 ->
  (forall u s1, has_sets s1.1 -> runs ps1 x (k' u) (k u) (env, s1) Q) ->
  runs ps x (set_context_precompiles ps1 ≫= k') (on_inner (set_precompiles ps1) ≫= k) (env, s) Q.
Proof. intros Hs Hk r c1. destruct s as [[j d] err]. by apply (Hk tt (set_warm (dom ps1) j, d, err)). Qed.
Lemma runs_ext ps x {A} (m' m2' : HM A) (m m2 : CM A) c Q :
  m2' (c, (ps, x)) = m' (c, (ps, x)) -> m2 c = m c -> runs ps x m' m c Q -> runs ps x m2' m2 c Q.
Proof. unfold runs. by intros -> ->. Qed.

Lemma first_in_env env g s :
  first_frame (DbErr := DbErr) ps_of (fork_spec fork) g (env, s) = first_in fork loaded env g (env, s).
Proof.
  unfold first_frame, first_in, mbind, M_bind, get, lift. destruct (transact_to (tx env));
    [by destruct (unwrap (CallInputs_new _ _))|by destruct (unwrap (CreateInputs_new _ _))].
Qed.
Lemma tally_refl (x : Inspected INSP) : tally x [] x.
Proof. done. Qed.

Lemma spied_execution fuel g ps x env s :
  steady_precompiles (fork_precompiles_of fork) -> has_sets s.1 ->
  runs ps x (execute_with spied fuel g) (transact_preverified_inner ps_of fuel (fork_spec fork) g) (env, s)
    (fun o x1 => o <> None -> tally x [] x1).
Proof.
  intros Hps Hs. unfold execute_with, transact_preverified_inner.
  change (runs ps x ?m' ?m (env, s) ?Q) with (runs ps x m' (fun c => m (env, c.2)) (env, s) Q).
  apply runs_main; [done|apply journal_load_accounts|intros _ s1 Hs1].
  change (ph_load_precompiles (pre_execution spied)) with loaded.
  apply runs_precompiles; [done|intros _ s2 Hs2].
  apply runs_main; [done|apply journal_deduct_caller|intros _ s3 Hs3].
  set (gas_limit := wrapping_sub 64 (tx_gas_limit (tx env)) g).
  assert (Hl : steady_precompiles loaded) by (by apply native_tokens_steady).
  intros r c1 H. unfold mbind at 1, M_bind at 1 in H. rewrite first_in_env in H.
  destruct (watch_execution I fork x loaded Hl fuel env gas_limit (env, s3) x r c1 Hs3 (tally_refl x)) as (x1 & Hx & Hr).
  { unfold mbind at 1, M_bind at 1. destruct (first_in fork loaded env gas_limit (env, s3)) as [[fr|e|] c4]; [|exact H..].
    by destruct fr. }
  exists loaded, x1. split; [exact Hx|]. destruct r; [by apply Hr|done..].
Qed.

Lemma clear_spied c y : clear_with spied (c, y) = (Ok tt, ((on_evm clear_context c).2, y)).
Proof. exact (clear_mainnet fork c y). Qed.
Lemma runs_end ps x m' m c (Q : option ResultAndState -> Inspected INSP -> Prop) :
  runs ps x m' m c Q -> runs ps x (clearing spied true (end_with spied m')) (then_clear m) c Q.
Proof.
  intros Hm r c1 H. unfold then_clear in H. destruct (m c) as [r2 c2] eqn:Hc. destruct (Hm r2 c2 Hc) as (ps1 & x1 & Hx & Hr).
  exists ps1, x1. unfold clearing, end_with, attempt, mbind, M_bind. rewrite Hx.
  destruct r2 as [[a|]|e|]; cbn [orb]; cbn; simplify_eq; (split; [|exact Hr]);
    [by destruct c2 as [? [[? ?] ?]]..|done].
Qed.
Lemma kept_preverify : preserves (fun c : Ctx => has_sets c.2.1) (fun _ => True) (preverify_transaction_inner (DbErr := DbErr) (fork_spec fork)).
Proof.
  unfold preverify_transaction_inner. apply kept_env. intros env.
  apply preserves_seq; [apply preserves_lift_any|intros _]. apply preserves_seq; [apply preserves_lift_any|intros g].
  apply preserves_seq; [apply kept_on_inner, kept, stays_tx_against_state|intros _]. by apply preserves_ret.
Qed.

(** C10: A transaction under an inspector that only observes, such as the one that does
    nothing and the one that follows the gas, has the result and leaves the context
    that it has and leaves without; the register pops from the stacks of inputs as
    much as it pushes, so that it never panics, and after a transaction that gives
    a result they are what they were before. *)
Theorem observers_change_nothing fuel c ps x :
  has_sets c.2.1 -> steady_precompiles (fork_precompiles_of fork) ->
  let h := append_handler_register (HR_Plain (inspector_handle_register I)) (mainnet_with_spec frame_fuel fork) in
  runs ps x (transact_with (core h) fuel) (transact ps_of fuel (fork_spec fork)) c (fun o x1 =>
    o <> None -> call_input_stack x1 = call_input_stack x /\ create_input_stack x1 = create_input_stack x /\
      eofcreate_input_stack x1 = eofcreate_input_stack x).
Proof.
  intros Hs Hps h. change (core h) with spied. unfold transact_with, transact.
  intros r c1 H. unfold mbind at 1, M_bind at 1 in H. unfold mbind at 1, M_bind at 1.
  unfold clearing at 1. unfold clear_on_error in H.
  change (preverify_with spied) with (preverify_with mainnet). rewrite (same_preverify fork x ps c).
  pose proof (kept_preverify c Hs) as Hk.
  destruct (preverify_transaction_inner (fork_spec fork) c) as [[g|e|] c2]; cbn [orb].
  - destruct c2 as [env s]. refine (runs_end ps x _ _ (env, s) _ _ r c1 H).
    intros r' c' H'. destruct (spied_execution fuel g ps x env s Hps (proj2 Hk) r' c' H') as (ps1 & x1 & Hx & Hr).
    exists ps1, x1. split; [exact Hx|]. destruct r'; [|done..]. exact Hr.
  - rewrite clear_spied. simplify_eq. by eexists _, _.
  - simplify_eq. by eexists _, _.
Qed.
End transaction.

(** ** The gas inspector, and the registers *)

Section gas.
Context {DB DbErr : Type} `{HDB : Database DB DbErr} `{HK : Keccak} `{HC : CreateAddress}.
Abbreviation Ctx := (EvmContext (DB := DB) (DbErr := DbErr)).

(** After an instruction, the gas inspector knows the gas that is left, and the
    gas that the instruction took, 0 if it gave some back. *)
Theorem gas_inspector_sees_the_cost spec opcode i (c : Ctx) ps x i1 (c1 : Ctx) :
  running i = true -> make_instruction_table spec opcode (i, c) = (Ok tt, (i1, c1)) ->
  inspector_instruction (DbErr := DbErr) gas_inspector (make_instruction_table spec opcode) (i, (c, (ps, x))) =
    (Ok tt, (i1, (c1, (ps, set_inspector (mkGasInspector (remaining (in_gas i1))
      (saturating_sub (remaining (in_gas i)) (remaining (in_gas i1)))) x)))).
Proof.
  intros Hi Hm. pose proof (back_and_forth i) as Hpc. cbv zeta in Hpc.
  unfold inspector_instruction, mbind, M_bind, move_pc, modify, gets, hook_interp. cbn [fst snd].
  set (i0 := set_pc (instruction_pointer i + -1) i) in *. cbn [insp_step insp_step_end gas_inspector].
  unfold modify. cbn [fst snd]. change (running i0) with (running i). rewrite Hi. cbn [negb fst snd].
  rewrite Hpc. unfold make_instruction_table in *. rewrite (lifted_settle _ _ (lifted_instruction spec opcode) i c (ps, set_inspector _ x)).
  by rewrite Hm.
Qed.

Lemma inspector_register_lawful {INSP} (I : Inspector (DB := DB) (DbErr := DbErr) INSP)
  {Fork} `{HF : !HardForks Fork (DB := DB) (DbErr := DbErr)} :
  lawful (HR_Plain (inspector_handle_register (Fork := Fork) I)).
Proof. split; [done|]. intros b h. by destruct h as [[]]. Qed.
End gas.

(** The main network, with the precompiles of its forks. *)
Definition mainnet_forks `{Crypto, Keccak} (features : Features) {DB DbErr} `{Database DB DbErr} :
  HardForks SpecId (DB := DB) (DbErr := DbErr) := {|
  fork_spec := id;
  fork_precompiles_of := fork_precompiles features;
|}.
Lemma ordinary_steady {DB DbErr} `{Database DB DbErr} p : steady_precompiles (ContextPrecompiles_from (DB := DB) (DbErr := DbErr) p).
Proof.
  intros a f Hf. unfold ContextPrecompiles_from in Hf.
  apply (lookup_fmap_Some (M := gmap Address) (fun v => CP_Ordinary (Precompile_call v))) in Hf as (v & <- & _). done.
Qed.

(** ** Witnesses *)

Section witnesses.
#[local] Existing Instances sample_hash sample_create_address sample_crypto.
#[local] Instance empty_database : Database EmptyDB False := EmptyDB_database.
#[local] Instance sample_forks : HardForks SpecId (DB := EmptyDB) (DbErr := False) := mainnet_forks Features_default.

(** The contract that jumps back for ever, followed by the gas inspector. *)
Lemma observers_change_nothing_witness :
  let h := append_handler_register (HR_Plain (inspector_handle_register gas_inspector)) (mainnet_with_spec frame_fuel CANCUN) in
  exists ps1 x1 r c1,
    transact (fork_precompiles Features_default) 5 CANCUN (looping_context 0) = (r, c1) /\
    transact_with (core h) 5 (looping_context 0, (∅, mkInspected GasInspector_default [] [] [])) = (r, (c1, (ps1, x1))).
Proof.
  intros h. destruct (transact (fork_precompiles Features_default) 5 CANCUN (looping_context 0)) as [r c1] eqn:Ht.
  destruct (observers_change_nothing gas_inspector CANCUN 5 (looping_context 0) ∅ (mkInspected GasInspector_default [] [] []))
    with (r := r) (c1 := c1) as (ps1 & x1 & Hx & _); [discriminate|apply ordinary_steady|exact Ht|].
  exists ps1, x1, r, c1. exact (conj eq_refl Hx).
Defined.
Lemma gas_inspector_sees_the_cost_witness :
  let i := sample_interpreter_on [0x5B; 0x00] 100 in
  exists i1 g, inspector_instruction gas_inspector (make_instruction_table CANCUN 0x5B)
      (i, (looping_context 0, (∅, mkInspected GasInspector_default [] [] [])))
    = (Ok tt, (i1, (looping_context 0, (∅, mkInspected g [] [] [])))) /\ g = mkGasInspector 99 1.
Proof.
  intros i. eexists _, _. split; [|reflexivity].
  rewrite (gas_inspector_sees_the_cost CANCUN 0x5B i (looping_context 0) ∅ _ (set_gas (record_cost 1 (in_gas i)).2 i) (looping_context 0)); reflexivity.
Defined.

(** An inspector that remembers the contracts whose destruction it is told of. *)
Definition recorder : Inspector (DB := EmptyDB) (DbErr := False) (list Address) := {|
  initialize_interp := mret tt;
  insp_step := mret tt;
  insp_step_end := mret tt;
  insp_log _ := mret tt;
  insp_call inputs := mret (inputs, None);
  insp_call_end _ outcome := mret outcome;
  insp_create inputs := mret (inputs, None);
  insp_create_end _ outcome := mret outcome;
  insp_eofcreate inputs := mret (inputs, None);
  insp_eofcreate_end _ outcome := mret outcome;
  insp_selfdestruct a _ _ := modify (cons a);
|}.
(** A contract has called 7, which destroyed itself and returned; its own
    SELFDESTRUCT fails for want of an operand, and the hook is told of 7 again. *)
Lemma hook_is_told_of_a_failed_selfdestruct :
  let c : EvmContext := (Env_default, ((mkJournaledState EvmState_default ∅ [] 1 [[]; [AccountDestroyed 7 8 false 5]] CANCUN ∅, tt), None)) in
  let s := inspected_table recorder (make_instruction_table CANCUN) 0xFF
    (sample_interpreter_on [0xFF] 100000, (c, (∅, mkInspected [7] [] [] []))) in
  instruction_result s.2.1 = IR_StackUnderflow /\ inspector s.2.2.2.2 = [7; 7] /\ s.2.2.1 = c.
Proof. vm_compute. done. Qed.
End witnesses.
